(* ===== verification/_CoqProject ===== *)
-Q . S2P
Prelude.v
Bufferdata.v
Helpers.v
WsUtf8.v
Bufo.v
Str.v
QueryParser.v
CookieParser.v
RangeParser.v
TokenBuffer.v
RequestParser.v
RequestStream.v
RequestInvariant.v
RequestChunks.v
RequestRender.v
RequestTheorems.v
WriteFilter.v
ChunkedFilter.v
TeParser.v
WsParser.v
WsStream.v
WsSafety.v
WsTheorems.v
RbMap.v
RbTree.v
RbRotate.v
RbInsert.v
RbSearch.v
RbErase.v
RbOps.v
RbTheorems.v
RateLimiter.v
RateLimiterTheorems.v
RateLimiterMap.v
RateLimiterRace.v
Json.v
JsonPrint.v
JsonTree.v
JsonString.v
JsonParse.v
JsonGrammar.v
JsonRead.v
JsonWalk.v
JsonTheorems.v
JsonPool.v
Base64.v
HttpResponse.v
BodyChain.v
DataFilter.v
DataTheorems.v
RangeFilter.v
RangeBody.v
RangeTheorems.v
HttpDate.v
NotModified.v
GzipFilter.v
FilterChain.v
ChainTheorems.v
FormData.v
Multipart.v
MultipartTheorems.v
UrlEncoded.v
Payload.v
SqlBase.v
SqlGrammar.v
SqlDialects.v
SqlInjection.v
SqlParams.v
SqlQuery.v
SqlBinding.v
Scheduler.v
SchedulerSafety.v
SchedulerWake.v
WsResponse.v
WsDelivery.v
