(* ===== verification/Prelude.v ===== *)
(** * Verification of the C web framework core

    The program is an HTTP/1 and WebSocket server framework in C. Bytes arrive from a
    socket in blocks of any size; a parser per connection collects tokens in a
    growable buffer and hands complete requests, or messages, to the application, past
    a rate limiter; responses leave through a chain of filters that ends in the socket.
    This development follows those bytes: in through the request and frame parsers, out
    through the filters, and, for the framework's own client, in again. Beside that
    path it treats the threads that share a connection, and the libraries applications
    build on: the ordered map, JSON, Base64, request bodies and SQL statements.

    ** The parts and the files

    Memory, strings and buffers ([misc/]):
    - [Prelude] (this file): bytes, C blocks ([mem_get], [mem_set], [mem_read],
      [mem_write] fail outside the block), machine integers, shared lemmas and tactics.
    - [Bufferdata]: [bufferdata.c], the token accumulator with a static window of
      [BUFFERDATA_SIZE] bytes that spills to the heap.
    - [Bufo]: [bufo.c], the output buffer with capacity, fill and read position.
    - [Str]: [str.c], the string with inline storage of 32 bytes.
    - [Helpers]: [helpers.c] (hex and URL coding, comparison of header names, path
      traversal) and the storage guard of [storagefs.c].
    - [QueryParser]: [queryparser.c] and [query.h], over a heap of query nodes, with the
      request's list of queries as the client of the parser.
    - [Base64]: [base64.c].

    Requests ([protocols/http/server/]):
    - [CookieParser], [RangeParser]: the Cookie and Range headers.
    - [TokenBuffer]: the interface the parsers use a token buffer through (the classes
      [TokenBuffer] and [TokenBufferLaws]); [bufferdata] is one instance, the byte list
      that specifies it another.
    - [RequestParser]: [httprequestparser.c], one definition per stage, and the read
      loop of [httpserverhandlers.c]; also that the parser over [bufferdata] follows
      the parser over byte lists.
    - [RequestStream], [RequestInvariant], [RequestChunks], [RequestRender]: reading a
      chunk is reading its bytes, the parser's invariant, chunking, and requests as a
      client writes them. [RequestTheorems] states the results.

    Responses ([protocols/http/], [protocols/http/server/filters/]): the chain of
    [http_filter.c], from the socket up.
    - [WriteFilter]: [http_write_filter.c] with the status tables of [httpresponse.c].
      The class [BodySink] is what a filter offers to the filter above it.
    - [ChunkedFilter]: [http_chunked_filter.c] over any [BodySink].
    - [HttpResponse]: the response object and its list of headers ([httpresponse.c],
      [httpcommon.c]), with the file behind the body.
    - [BodyChain]: what the filters below promise to a source of body data, as a class;
      the socket writer and the chunked filter above it are instances; with the
      loop that feeds buffers to that chain and resumes after [CWF_EVENT_AGAIN], for any
      source that meets the class [Producer].
    - [DataFilter]: [http_data_filter.c], a source; [DataTheorems] its results.
    - [RangeFilter]: [http_range_filter.c], the other source; [RangeBody] its lemmas and
      [RangeTheorems] its results.
    - [HttpDate]: dates of HTTP with the calendar behind them; [NotModified]:
      [http_not_modified_filter.c], validators and 304 answers.
    - [GzipFilter]: [http_gzip_filter.c] and the compressing half of [gzip.c], over a
      deflate stream that is a class with laws.
    - [FilterChain]: the six filters composed as [httpserverhandlers.c] composes them,
      with the write handler and its two phases; [ChainTheorems] its results.

    Request bodies ([protocols/http/formdata/] and [httprequest.c]):
    - [FormData]: the parser of header parameters such as [name="x"; filename="y"].
    - [Multipart]: [multipartparser.c], with the reads of the payload file;
      [MultipartTheorems]: rendered bodies, and arbitrary bytes.
    - [UrlEncoded]: [urlencodedparser.c]. [Payload]: the choice of the parser by
      Content-Type and the accessors over its result.

    The client ([protocols/http/client/]):
    - [TeParser]: [httpteparser.c], which decodes what [ChunkedFilter] encodes.

    WebSocket ([protocols/websocket/]):
    - [WsUtf8]: the streaming UTF-8 validator of [ws_utf8.h].
    - [WsParser]: [websocketsparser.c], the default protocol's payload handler and the
      read loop of [websocketsserverhandlers.c]. [WsStream], [WsSafety], [WsTheorems]:
      streams of client frames, arbitrary input, and the results.
    - [WsResponse]: [websocketsresponse.c], the batches of broadcast messages and the
      write handler; [WsDelivery]: a client that reads frames, and the results.

    Connections and threads ([src/connection/], [src/broadcast/] and the handlers):
    - [Scheduler]: one connection with its lock, reference count, queue and broadcast
      queue, and every step a thread takes on it as an atomic action. [SchedulerSafety],
      [SchedulerWake]: invariants of all interleavings.

    The ordered map ([misc/map.c]):
    - [RbMap]: the red-black tree with parent links and a sentinel, operation by
      operation on a heap of nodes. [RbTree], [RbRotate]: trees
      with a hole, the heap that holds them, pointer writes and rotations. [RbInsert],
      [RbErase], [RbSearch], [RbOps]: the operations against the tree.
      [RbTheorems]: the refinement to sorted lists.

    The rate limiter ([src/ratelimiter/ratelimiter.c]):
    - [RateLimiter]: token buckets per address, over the class [OrderedMap]; the clock
      is a sequence of readings. [RateLimiterTheorems]: what it does
      to the finite map of buckets and the results. [RateLimiterMap]: the red-black map
      as that [OrderedMap]. [RateLimiterRace]: interleavings of threads.

    JSON ([misc/json.c]):
    - [Json]: tokens, strings and [json_parse]; [JsonPrint]: [json_stringify].
    - [JsonTree]: trees of tokens in the heap; [JsonString], [JsonParse],
      [JsonGrammar], [JsonRead]: any text, and the texts of RFC 8259; [JsonWalk]:
      printing. [JsonTheorems] states the results.
    - [JsonPool]: the pool the tokens come from.

    SQL ([framework/database/], [framework/query/]):
    - [SqlBase]: identifiers, literals and columns, over a dialect that says what differs
      between the drivers. [SqlGrammar]: the language of the statements.
      [SqlDialects]: the functions of the three drivers. [SqlInjection]: what data in a
      statement can do.
    - [SqlParams], [SqlQuery], [SqlBinding]: query texts with parameters, their scanner
      and the text and bindings handed to the driver.

    ** Conventions

    A [char] is its unsigned value; [schar] is its promotion to [int]. [size_t] values
    are [Z] with [wrap64] where the code can wrap. A block is the list of its bytes and
    a pointer into it an offset; linked structures (query nodes, tree nodes, buckets,
    JSON tokens, pool blocks) are heaps of cells, and a pointer is [None] for NULL. An
    operation returns [None] for what C leaves undefined (an access outside a block, a
    NULL dereference, a use after free) and when a loop outlives its fuel; a failure
    the code reports is a value. Theorems that an operation returns [Some] are
    therefore both memory safety and termination. Allocation is a predicate on sizes,
    and fresh memory holds an arbitrary byte ([a_ok] and [a_junk] of an [allocator]).
    Receivers are never NULL. Code outside the repository is a parameter: PCRE host
    matching, libidn2, [mkstemp], [pwrite], zlib, [rand], [strtold] and the printing of
    [long double], and the escaping functions of the database clients, with the laws their
    manuals give; the outcomes of [send], [read] and [pread] are scripts and the clock is
    a sequence of readings. Threads are counted by the place they are at, and an
    interleaving is a list of actions.

    ** Fuel

    Each bound is what the loop needs and the theorems show it is enough: doubling a
    capacity, 64 turns for 64 bits; walking a query chain, the number of nodes; reading
    a chunk, its bytes plus one; tokens of a Connection header, its bytes; the states
    of the chunked filter, 6 turns per call, and its flushes, the bytes of the parent
    buffer plus 32; the chunked-body parser and the WebSocket loop, the bytes of the
    block plus one; the WebSocket read loop, the bytes plus two; a source of body data,
    the bytes of the body, of the file or of the ranges with their framing, plus three;
    filling a multipart buffer, its capacity plus one; walks in the map, the nodes plus
    one; the JSON loop and its strings, the bytes plus one, climbing and freeing, the
    tokens plus one, printing, twice the tokens plus two; walks in the pool, its blocks
    plus one; Base64, the length plus one; If-None-Match, its bytes plus one; exact reads
    and the loops of the body parsers, the bytes plus one; the scanner of queries, the
    bytes plus one ([scan_total]); the capacity of a batch, 65 doublings; a client that
    reads frames, the messages plus one. The number of [inflate] calls is a parameter.

    ** What the theorems show

    - Buffers: [bufferdata], [str] and [bufo] refine byte lists for any sequence of
      operations, every result is zero terminated, and growth ends.
    - Requests: on arbitrary bytes in arbitrary chunks the parser is safe and total, and
      every request handed over is well formed; the requests do not depend on the
      chunking; a pipeline of requests is read back as it was written.
    - Query strings, cookies, ranges, URL coding, Base64: exactness and round trips.
    - Responses: the head, the plain body, the chunked body, the single range and the
      multipart body are on the wire byte for byte with the right Content-Length, across
      short reads, partial writes and resumption; unsatisfied ranges are refused; the
      client decodes what data, chunked and write filter together send.
    - WebSocket: the validator accepts exactly UTF-8; unfragmented messages and control
      frames are delivered whatever the segmentation; the parser is safe on arbitrary
      bytes and its answers stay within the limits.
    - The map refines a sorted list of entries, with logarithmic lookups. On it the rate
      limiter never lets an address exceed its burst and rate, and serves one that waits.
    - JSON: parsing any text ends safely; every text of RFC 8259 is read as its value;
      what is printed parses back; the pool never hands out a slot in use.
    - The whole chain: head and body through all six filters are what the client needs to
      get the body back, compressed or not, across interruptions.
    - Bodies: a rendered multipart or urlencoded body is read back field by field, and any
      body leaves the parsers safely.
    - SQL: whatever the data, a statement keeps its structure: values and names stay inside
      their tokens, and a query text is its template with the parameters in place.
    - Connections: in every interleaving a connection is not used after it is freed, its
      responses leave in the order of their requests, and an idle connection has nothing
      left to deliver unless one of two races happened.
    - WebSocket responses: a client reads back every reply and every broadcast message, in
      order, whatever the sizes and however they are batched.
    - Defects, each with the inputs that show it: a last buffer the chunked filter
      drops, an empty chunked body that is never ended, a file that grew and is sent past
      its Content-Length, a partial response that keeps Transfer-Encoding, a 304 for a
      response of any status, a WebSocket fragment that is parsed twice, a truncated text
      message that is accepted, a query list left dangling, a hole in the storage guard,
      a bucket used after it is freed, a multipart body with an epilogue refused, a
      broadcast race that stalls a connection, a direct response that overwrites another,
      a query that ends in a comment, JSON that [json_stringify] refuses and texts
      [json_parse] takes beyond the grammar, a free list taken for a block, Base64 lines
      misread, and [map_prev] of the end of an empty map.

    ** What is not modelled

    System calls, TLS, the multiplexing of sockets, dynamic loading and configuration are
    I/O and glue: there is nothing to compute but calls of the operating system. Database
    connections, results, sessions, S3 and Redis are calls of client libraries and of
    OpenSSL. Digests (SHA, DKIM signatures, JWT) are defined by their standards and not by
    a contract of this repository. Views, models and the SMTP client are not modelled:
    they sit above the parts treated here and no theorem depends on them. *)

From Stdlib Require Import Ascii.
From Stdlib Require Export ZArith Lia Bool.
From stdpp Require Export base list strings numbers option sets.

#[global] Set Default Goal Selector "!".
#[global] Open Scope Z_scope.

(** ** Bytes, characters and byte strings *)

(** A [char] is kept as its unsigned value; [schar] is the value a signed
    [char] has when C promotes it to [int]. *)
Definition is_byte (b : Z) : Prop := 0 <= b < 256.
Definition schar (b : Z) : Z := if b <? 128 then b else b - 256.
Definition uchar (z : Z) : Z := z mod 256.

Definition SIZE_MAX : Z := 18446744073709551615.
Definition wrap64 (z : Z) : Z := z mod 2 ^ 64.
Definition wrap32 (z : Z) : Z := z mod 2 ^ 32.
Definition wrap16 (z : Z) : Z := z mod 2 ^ 16.

Abbreviation chr_NUL := 0 (only parsing).
Abbreviation chr_TAB := 9 (only parsing).
Abbreviation chr_LF := 10 (only parsing).
Abbreviation chr_CR := 13 (only parsing).
Abbreviation chr_SP := 32 (only parsing).
Abbreviation chr_HASH := 35 (only parsing).
Abbreviation chr_DOLLAR := 36 (only parsing).
Abbreviation chr_PERCENT := 37 (only parsing).
Abbreviation chr_AMP := 38 (only parsing).
Abbreviation chr_LPAREN := 40 (only parsing).
Abbreviation chr_RPAREN := 41 (only parsing).
Abbreviation chr_STAR := 42 (only parsing).
Abbreviation chr_PLUS := 43 (only parsing).
Abbreviation chr_COMMA := 44 (only parsing).
Abbreviation chr_MINUS := 45 (only parsing).
Abbreviation chr_DOT := 46 (only parsing).
Abbreviation chr_SLASH := 47 (only parsing).
Abbreviation chr_COLON := 58 (only parsing).
Abbreviation chr_SEMI := 59 (only parsing).
Abbreviation chr_EQ := 61 (only parsing).
Abbreviation chr_QUEST := 63 (only parsing).
Abbreviation chr_LBRACK := 91 (only parsing).
Abbreviation chr_BSLASH := 92 (only parsing).
Abbreviation chr_RBRACK := 93 (only parsing).
Abbreviation chr_CARET := 94 (only parsing).
Abbreviation chr_UNDER := 95 (only parsing).
Abbreviation chr_LBRACE := 123 (only parsing).
Abbreviation chr_PIPE := 124 (only parsing).
Abbreviation chr_RBRACE := 125 (only parsing).
Abbreviation chr_TILDE := 126 (only parsing).

(** The bytes of a C string literal, without its terminator. *)
Fixpoint bs (s : string) : list Z :=
  match s with
  | EmptyString => []
  | String a s' => Z.of_nat (nat_of_ascii a) :: bs s'
  end.

(** [ctype.h] in the C locale. *)
Definition isdigit (c : Z) : bool := (48 <=? c) && (c <=? 57).
Definition isupper (c : Z) : bool := (65 <=? c) && (c <=? 90).
Definition islower (c : Z) : bool := (97 <=? c) && (c <=? 122).
Definition isalnum (c : Z) : bool := isdigit c || isupper c || islower c.
Definition tolower (c : Z) : Z := if isupper c then c + 32 else c.

Definition zlen {A} (l : list A) : Z := Z.of_nat (length l).
#[global] Arguments zlen {A} l : simpl never.

(** ** Memory blocks

    A block is the list of its bytes. Every access is checked: [None] is an
    out-of-bounds access, so a theorem that an operation returns [Some] is a
    memory-safety theorem. *)
Definition mem_get (m : list Z) (i : Z) : option Z :=
  if 0 <=? i then m !! Z.to_nat i else None.

Definition mem_set (m : list Z) (i v : Z) : option (list Z) :=
  if (0 <=? i) && (i <? zlen m) then Some (<[Z.to_nat i := v]> m) else None.

Definition mem_read (m : list Z) (off n : Z) : option (list Z) :=
  if (0 <=? off) && (0 <=? n) && (off + n <=? zlen m)
  then Some (take (Z.to_nat n) (drop (Z.to_nat off) m)) else None.

Definition mem_write (m : list Z) (off : Z) (src : list Z) : option (list Z) :=
  if (0 <=? off) && (off + zlen src <=? zlen m)
  then Some (take (Z.to_nat off) m ++ src ++ drop (Z.to_nat off + length src) m)
  else None.

(** [realloc(p, n)]: the old bytes up to [n], then bytes of unspecified value. *)
Definition grow (junk : Z) (m : list Z) (n : Z) : list Z :=
  take (Z.to_nat n) m ++ replicate (Z.to_nat n - length m) junk.

(** ** Automation *)

Create HintDb cwf.
Create Rewrite HintDb zlen.

(** Turn boolean tests in the context into propositions [lia] reads. *)
Ltac reflect_bools :=
  repeat match goal with
  | H : (_ && _) = true |- _ => apply andb_true_iff in H; destruct H
  | H : (_ && _) = false |- _ => apply andb_false_iff in H
  | H : (_ || _) = true |- _ => apply orb_true_iff in H
  | H : (_ || _) = false |- _ => apply orb_false_iff in H; destruct H
  | H : negb _ = true |- _ => apply negb_true_iff in H
  | H : negb _ = false |- _ => apply negb_false_iff in H
  | H : (_ =? _) = true |- _ => apply Z.eqb_eq in H
  | H : (_ =? _) = false |- _ => apply Z.eqb_neq in H
  | H : (_ <? _) = true |- _ => apply Z.ltb_lt in H
  | H : (_ <? _) = false |- _ => apply Z.ltb_ge in H
  | H : (_ <=? _) = true |- _ => apply Z.leb_le in H
  | H : (_ <=? _) = false |- _ => apply Z.leb_gt in H
  end.

(** Split on the next [if] of the goal. *)
Ltac case_if :=
  match goal with
  | |- context [if ?b then _ else _] => let E := fresh "E" in destruct b eqn:E
  end.

(** ** Shared lemmas *)

Section ZLen.
Context {A : Type}.
Implicit Types l : list A.

Lemma zlen_nil : zlen (@nil A) = 0.
Proof. done. Qed.

Lemma zlen_cons x l : zlen (x :: l) = 1 + zlen l.
Proof. unfold zlen. rewrite length_cons. lia. Qed.

Lemma zlen_app l k : zlen (l ++ k) = zlen l + zlen k.
Proof. unfold zlen. rewrite length_app. lia. Qed.

Lemma zlen_nonneg l : 0 <= zlen l.
Proof. unfold zlen. lia. Qed.

Lemma zlen_take n l : zlen (take (Z.to_nat n) l) = Z.max 0 (Z.min n (zlen l)).
Proof. unfold zlen. rewrite length_take. lia. Qed.

Lemma zlen_drop n l : zlen (drop (Z.to_nat n) l) = Z.max 0 (zlen l - Z.max 0 n).
Proof. unfold zlen. rewrite length_drop. lia. Qed.

Lemma take_zlen l : take (Z.to_nat (zlen l)) l = l.
Proof. apply take_ge. unfold zlen. lia. Qed.

Lemma zlen_0_nil l : zlen l = 0 → l = [].
Proof. unfold zlen. destruct l; [done|simpl; lia]. Qed.
End ZLen.

Lemma zlen_insert (m : list Z) (i : nat) v : zlen (<[i := v]> m) = zlen m.
Proof. unfold zlen. by rewrite length_insert. Qed.

Lemma zlen_replicate n (v : Z) : zlen (replicate n v) = Z.of_nat n.
Proof. unfold zlen. by rewrite length_replicate. Qed.

#[export] Hint Rewrite @zlen_nil @zlen_cons @zlen_app @zlen_take @zlen_drop
  zlen_insert zlen_replicate : zlen.

(** Length goals: normalise [zlen] and call [lia]. *)
Ltac zlen_lia := autorewrite with zlen in *; unfold zlen in *; lia.

Section Memory.
Implicit Types m src : list Z.

Lemma mem_get_Some m i : 0 <= i < zlen m → ∃ v, mem_get m i = Some v.
Proof.
  intros H. unfold mem_get.
  destruct (Z.leb_spec 0 i); [|lia].
  apply lookup_lt_is_Some. unfold zlen in H. lia.
Qed.

Lemma mem_get_lookup m i : 0 <= i → mem_get m i = m !! Z.to_nat i.
Proof. intros. unfold mem_get. destruct (Z.leb_spec 0 i); [done|lia]. Qed.

Lemma mem_set_Some m i v :
  0 <= i < zlen m → mem_set m i v = Some (<[Z.to_nat i := v]> m).
Proof.
  intros. unfold mem_set.
  destruct (Z.leb_spec 0 i); [|lia]. destruct (Z.ltb_spec i (zlen m)); [done|lia].
Qed.

Lemma mem_read_Some m off n :
  0 <= off → 0 <= n → off + n <= zlen m →
  mem_read m off n = Some (take (Z.to_nat n) (drop (Z.to_nat off) m)).
Proof.
  intros. unfold mem_read.
  destruct (Z.leb_spec 0 off); [|lia]. destruct (Z.leb_spec 0 n); [|lia].
  destruct (Z.leb_spec (off + n) (zlen m)); [done|lia].
Qed.

Lemma mem_write_Some m off src :
  0 <= off → off + zlen src <= zlen m →
  mem_write m off src =
    Some (take (Z.to_nat off) m ++ src ++ drop (Z.to_nat off + length src) m).
Proof.
  intros. unfold mem_write.
  destruct (Z.leb_spec 0 off); [|lia].
  destruct (Z.leb_spec (off + zlen src) (zlen m)); [done|lia].
Qed.

Lemma zlen_grow junk m n : 0 <= n → zlen (grow junk m n) = n.
Proof. intros. unfold grow. autorewrite with zlen. unfold zlen. lia. Qed.

Lemma take_grow junk m n k :
  0 <= k <= zlen m → k <= n → take (Z.to_nat k) (grow junk m n) = take (Z.to_nat k) m.
Proof.
  intros. unfold grow. rewrite take_app_le.
  - rewrite take_take. f_equal. lia.
  - rewrite length_take. unfold zlen in *. lia.
Qed.

Lemma take_insert_snoc m i v :
  0 <= i < zlen m →
  take (Z.to_nat (i + 1)) (<[Z.to_nat i := v]> m) = take (Z.to_nat i) m ++ [v].
Proof.
  intros. replace (Z.to_nat (i + 1)) with (S (Z.to_nat i)) by lia.
  erewrite take_S_r.
  - rewrite take_insert_ge by lia. done.
  - apply list_lookup_insert_eq. unfold zlen in *. lia.
Qed.

Lemma take_insert_past m (k : Z) (i : nat) v :
  k <= Z.of_nat i → take (Z.to_nat k) (<[i := v]> m) = take (Z.to_nat k) m.
Proof. intros. apply take_insert_ge. lia. Qed.

Lemma take_pred_snoc m i v :
  0 < i → m !! Z.to_nat (i - 1) = Some v →
  take (Z.to_nat i) m = take (Z.to_nat (i - 1)) m ++ [v].
Proof.
  intros ? Hv. replace (Z.to_nat i) with (S (Z.to_nat (i - 1))) by lia.
  by apply take_S_r.
Qed.
End Memory.

(** ** Bits and bytes *)

Lemma lor_add a k b : 0 <= k → 0 <= b < 2 ^ k → Z.lor (a * 2 ^ k) b = a * 2 ^ k + b.
Proof.
  intros Hk Hb. assert (Z.land (a * 2 ^ k) b = 0) as Hl.
  { apply Z.bits_inj'. intros n Hn. rewrite Z.land_spec, Z.bits_0. destruct (Z.lt_ge_cases n k); [by rewrite Z.mul_pow2_bits_low|].
    destruct (decide (b = 0)) as [->|]; [by rewrite Z.testbit_0_l, andb_false_r|]. rewrite (Z.bits_above_log2 b), andb_false_r; [done|lia|].
    apply Z.log2_lt_pow2; [lia|]. eapply Z.lt_le_trans; [apply Hb|]. apply Z.pow_le_mono_r; lia. }
  rewrite <- Z.lxor_lor by done. symmetry. by apply Z.add_nocarry_lxor.
Qed.

(** A fact about bytes, by trying them all. *)
Lemma byte_check (P : Z → bool) : forallb P (seqZ 0 256) = true → ∀ c, 0 <= c < 256 → P c = true.
Proof. intros H c Hc. rewrite forallb_forall in H. apply H, list_elem_of_In, elem_of_seqZ. lia. Qed.

(** ** Positions in a text *)

Lemma get_at (pre l post : list Z) (i : Z) c : 0 <= i → l !! Z.to_nat i = Some c → mem_get (pre ++ l ++ post) (zlen pre + i) = Some c.
Proof.
  intros Hi Hl. unfold mem_get, zlen. rewrite (proj2 (Z.leb_le _ _)) by lia.
  rewrite lookup_app_r by lia. replace (Z.to_nat _ - length pre)%nat with (Z.to_nat i) by lia. by apply lookup_app_l_Some.
Qed.

(** Position [scan] of the text is where [l] begins. *)
Definition starts (s : list Z) (scan : Z) (l : list Z) : Prop := ∃ pre post, s = pre ++ l ++ post ∧ scan = zlen pre.

Lemma starts_get s scan l i c : starts s scan l → 0 <= i → l !! Z.to_nat i = Some c → mem_get s (scan + i) = Some c.
Proof. intros (pre & post & -> & ->). apply get_at. Qed.

Lemma starts_here s scan c l : starts s scan (c :: l) → mem_get s scan = Some c.
Proof. intros H. rewrite <- (Z.add_0_r scan). by apply (starts_get _ _ _ 0 c H). Qed.

Lemma starts_drop s scan l l' : starts s scan (l ++ l') → starts s (scan + zlen l) l'.
Proof. intros (pre & post & -> & ->). exists (pre ++ l), post. rewrite <- !app_assoc. split; [done|]. unfold zlen. rewrite length_app. lia. Qed.

Lemma starts_take s scan l l' : starts s scan (l ++ l') → starts s scan l.
Proof. intros (pre & post & -> & ->). exists pre, (l' ++ post). by rewrite <- app_assoc. Qed.

Lemma starts_end s scan l : starts s scan l → 0 <= scan ∧ scan + zlen l <= zlen s.
Proof. intros (pre & post & -> & ->). unfold zlen. rewrite !length_app. lia. Qed.


#[export] Hint Resolve zlen_nonneg : cwf.

(** A decidable fact about every byte is checked by running it on all of them. *)
Lemma byte_forall (P : Z → bool) :
  forallb P (seqZ 0 256) = true → ∀ b, is_byte b → P b = true.
Proof.
  intros H b Hb. rewrite forallb_forall in H. apply H.
  apply list_elem_of_In, elem_of_seqZ. unfold is_byte in Hb. lia.
Qed.

(** [l] cut at every [sep], in order; always at least one piece. *)
Fixpoint split_on_aux (sep : Z) (cur l : list Z) : list (list Z) :=
  match l with
  | [] => [cur]
  | c :: l' => if c =? sep then cur :: split_on_aux sep [] l'
               else split_on_aux sep (cur ++ [c]) l'
  end.
Definition split_on (sep : Z) (l : list Z) : list (list Z) := split_on_aux sep [] l.

Definition bytesb (l : list Z) : bool := forallb (λ b, (0 <=? b) && (b <? 256)) l.

Lemma bytesb_sound l : bytesb l = true → Forall is_byte l.
Proof.
  unfold bytesb, is_byte. induction l as [|b l IH]; simpl; intros H; [constructor|].
  reflect_bools. constructor; [lia|auto].
Qed.
