(* ===== verification/Bufferdata.v ===== *)
(** The growable byte accumulator of [misc/bufferdata.c].

    [bufferdata] keeps short contents in a 4096-byte array inside the struct and
    moves them to a heap block when they grow. Every parser of the framework
    collects its tokens in one. The model keeps both blocks, checks every access
    (an operation returns [None] on an out-of-bounds or NULL access) and takes the
    outcome of [realloc]/[malloc] from the variable [alloc]. The abstraction is
    the byte list [contents]; the refinement theorems say what each operation does
    to it. *)

From S2P Require Import Prelude.

Definition BUFFERDATA_SIZE : Z := 4096.
Definition BUFFERDATA_CAPACITY : Z := BUFFERDATA_SIZE - 1.

Inductive bufferdata_type : Set :=
| BUFFERDATA_STATIC
| BUFFERDATA_DYNAMIC.

Record bufferdata : Set := Bufferdata {
  static_buffer : list Z;
  dynamic_buffer : option (list Z);
  offset_sbuffer : Z;
  offset_dbuffer : Z;
  dbuffer_size : Z;
  type : bufferdata_type }.

(** The pointer [bufferdata_get] returns: NULL, or one of the two blocks. *)
Inductive bufptr : Set :=
| PtrNull
| PtrStatic
| PtrDynamic.

Section Operations.
(** [alloc n]: does an allocation of [n] bytes succeed; [junk]: the value of
    a byte the allocator hands out uninitialised. *)
Variable alloc : Z → bool.
Variable junk : Z.

Definition bufferdata_init (b : bufferdata) : option bufferdata :=
  s ← mem_set (static_buffer b) 0 0;
  Some (Bufferdata s None 0 0 0 BUFFERDATA_STATIC).

Definition bufferdata_move (b : bufferdata) : option (bool * bufferdata) :=
  match type b with
  | BUFFERDATA_STATIC => Some (true, b)
  | BUFFERDATA_DYNAMIC =>
      let dbuffer_length := offset_dbuffer b + offset_sbuffer b in
      let realloced :=
        if dbuffer_size b <=? dbuffer_length then
          if alloc (dbuffer_length + 1) then
            Some (Some (grow junk (default [] (dynamic_buffer b)) (dbuffer_length + 1)),
                  dbuffer_length + 1)
          else None
        else Some (dynamic_buffer b, dbuffer_size b) in
      match realloced with
      | None => Some (false, b)
      | Some (dyn, size) =>
          d ← dyn;
          src ← mem_read (static_buffer b) 0 (offset_sbuffer b);
          d1 ← mem_write d (offset_dbuffer b) src;
          d2 ← mem_set d1 dbuffer_length 0;
          Some (true, Bufferdata (static_buffer b) (Some d2) 0 dbuffer_length size
                        BUFFERDATA_DYNAMIC)
      end
  end.

Definition set_type (b : bufferdata) (t : bufferdata_type) : bufferdata :=
  Bufferdata (static_buffer b) (dynamic_buffer b) (offset_sbuffer b) (offset_dbuffer b)
    (dbuffer_size b) t.

Definition bufferdata_push (b : bufferdata) (ch : Z) : option (bool * bufferdata) :=
  '(ok, b1) ←
    (if BUFFERDATA_CAPACITY <=? offset_sbuffer b then
       '(moved, b') ← bufferdata_move (set_type b BUFFERDATA_DYNAMIC);
       if (moved : bool) then Some (true, b') else Some (false, set_type b' (type b))
     else Some (true, b));
  if (ok : bool) then
    s ← mem_set (static_buffer b1) (offset_sbuffer b1) ch;
    s' ← mem_set s (offset_sbuffer b1 + 1) 0;
    Some (true, Bufferdata s' (dynamic_buffer b1) (offset_sbuffer b1 + 1)
                  (offset_dbuffer b1) (dbuffer_size b1) (type b1))
  else Some (false, b1).

Definition bufferdata_reset (b : bufferdata) : option bufferdata :=
  s ← mem_set (static_buffer b) 0 0;
  Some (Bufferdata s (dynamic_buffer b) 0 0 (dbuffer_size b) BUFFERDATA_STATIC).

Definition bufferdata_clear (b : bufferdata) : option bufferdata :=
  b' ← bufferdata_reset b;
  Some (Bufferdata (static_buffer b') None (offset_sbuffer b') (offset_dbuffer b') 0 (type b')).

Definition bufferdata_writed (b : bufferdata) : Z :=
  match type b with
  | BUFFERDATA_DYNAMIC => offset_dbuffer b + offset_sbuffer b
  | BUFFERDATA_STATIC => offset_sbuffer b
  end.

Definition bufferdata_complete (b : bufferdata) : option (bool * bufferdata) :=
  match type b with
  | BUFFERDATA_DYNAMIC => bufferdata_move b
  | BUFFERDATA_STATIC => Some (true, b)
  end.

Definition bufferdata_move_data_to_start (b : bufferdata) (offset size : Z)
    : option (bool * bufferdata) :=
  match type b with
  | BUFFERDATA_STATIC =>
      if (BUFFERDATA_SIZE <=? offset) || (BUFFERDATA_SIZE <=? size) then Some (false, b)
      else if BUFFERDATA_SIZE <=? offset + size then Some (false, b)
      else
        src ← mem_read (static_buffer b) offset size;
        s ← mem_write (static_buffer b) 0 src;
        s' ← mem_set s size 0;
        Some (true, Bufferdata s' (dynamic_buffer b) size 0 (dbuffer_size b) BUFFERDATA_STATIC)
  | BUFFERDATA_DYNAMIC =>
      let current_size := offset_dbuffer b in
      if size =? 0 then
        if current_size <? offset then Some (false, b)
        else Some (true, Bufferdata (static_buffer b) (dynamic_buffer b) 0 0 (dbuffer_size b)
                           (type b))
      else if current_size <=? offset then Some (false, b)
      else if current_size - offset <? size then Some (false, b)
      else
        d ← dynamic_buffer b;
        src ← mem_read d offset size;
        d1 ← mem_write d 0 src;
        if alloc (size + 1) then
          d2 ← mem_set (grow junk d1 (size + 1)) size 0;
          Some (true, Bufferdata (static_buffer b) (Some d2) 0 size (size + 1) (type b))
        else
          Some (false, Bufferdata (static_buffer b) (Some d1) (offset_sbuffer b)
                         (offset_dbuffer b) (dbuffer_size b) (type b))
  end.

Definition bufferdata_get (b : bufferdata) : option (bufptr * bufferdata) :=
  match type b with
  | BUFFERDATA_DYNAMIC =>
      '(ok, b') ←
        (if 0 <? offset_sbuffer b then bufferdata_move b else Some (true, b));
      if (ok : bool) then
        match dynamic_buffer b' with
        | Some _ => Some (PtrDynamic, b')
        | None => Some (PtrNull, b')
        end
      else Some (PtrNull, b')
  | BUFFERDATA_STATIC => Some (PtrStatic, b)
  end.

(** The block behind a pointer [bufferdata_get] returned. *)
Definition deref (b : bufferdata) (p : bufptr) : option (list Z) :=
  match p with
  | PtrNull => None
  | PtrStatic => Some (static_buffer b)
  | PtrDynamic => dynamic_buffer b
  end.

(** The result is the new heap block (with its terminator), or [None] for NULL. *)
Definition bufferdata_copy (b : bufferdata) : option (option (list Z) * bufferdata) :=
  '(p, b') ← bufferdata_get b;
  match p with
  | PtrNull => Some (None, b')
  | _ =>
      let length := bufferdata_writed b' in
      if alloc (length + 1) then
        string ← deref b' p;
        src ← mem_read string 0 length;
        d ← mem_write (grow junk [] (length + 1)) 0 src;
        d' ← mem_set d length 0;
        Some (Some d', b')
      else Some (None, b')
  end.

Definition bufferdata_back (b : bufferdata) : option Z :=
  if bufferdata_writed b =? 0 then Some 0
  else if 0 <? offset_sbuffer b then mem_get (static_buffer b) (offset_sbuffer b - 1)
  else match dynamic_buffer b with
       | None => Some 0
       | Some d => mem_get d (offset_dbuffer b - 1)
       end.

Definition bufferdata_pop_back (b : bufferdata) : option (Z * bufferdata) :=
  if bufferdata_writed b =? 0 then Some (0, b)
  else if 0 <? offset_sbuffer b then
    c ← mem_get (static_buffer b) (offset_sbuffer b - 1);
    s ← mem_set (static_buffer b) (offset_sbuffer b - 1) 0;
    Some (c, Bufferdata s (dynamic_buffer b) (offset_sbuffer b - 1) (offset_dbuffer b)
               (dbuffer_size b) (type b))
  else match dynamic_buffer b with
       | None => Some (0, b)
       | Some d =>
           c ← mem_get d (offset_dbuffer b - 1);
           d' ← mem_set d (offset_dbuffer b - 1) 0;
           Some (c, Bufferdata (static_buffer b) (Some d') (offset_sbuffer b)
                      (offset_dbuffer b - 1) (dbuffer_size b) (type b))
       end.
End Operations.

(** ** Abstraction and invariant *)

Definition contents (b : bufferdata) : list Z :=
  match type b with
  | BUFFERDATA_STATIC => take (Z.to_nat (offset_sbuffer b)) (static_buffer b)
  | BUFFERDATA_DYNAMIC =>
      take (Z.to_nat (offset_dbuffer b)) (default [] (dynamic_buffer b))
      ++ take (Z.to_nat (offset_sbuffer b)) (static_buffer b)
  end.

(** The heap block has the recorded size, the offsets lie inside their blocks with
    a byte to spare, and the dynamic block holds its terminator. *)
Record Inv (b : bufferdata) : Prop := {
  inv_static : zlen (static_buffer b) = BUFFERDATA_SIZE;
  inv_soff : 0 <= offset_sbuffer b <= BUFFERDATA_CAPACITY;
  inv_doff : 0 <= offset_dbuffer b;
  inv_dsize : dbuffer_size b = zlen (default [] (dynamic_buffer b));
  inv_type : match type b with
             | BUFFERDATA_STATIC =>
                 offset_dbuffer b = 0 ∧ static_buffer b !! Z.to_nat (offset_sbuffer b) = Some 0
             | BUFFERDATA_DYNAMIC =>
                 ∃ d, dynamic_buffer b = Some d ∧
                      d !! Z.to_nat (offset_dbuffer b) = Some 0
             end }.

#[export] Hint Resolve inv_static inv_soff inv_doff inv_dsize : cwf.

(** What [bufferdata_move] needs: its callers may just have switched the type. *)
Record MoveReady (b : bufferdata) : Prop := {
  mr_static : zlen (static_buffer b) = BUFFERDATA_SIZE;
  mr_soff : 0 <= offset_sbuffer b <= BUFFERDATA_CAPACITY;
  mr_doff : 0 <= offset_dbuffer b <= zlen (default [] (dynamic_buffer b));
  mr_dsize : dbuffer_size b = zlen (default [] (dynamic_buffer b));
  mr_type : type b = BUFFERDATA_DYNAMIC }.

(** The copy loop shared by the [move] paths: append [src] at [off] and terminate. *)
Lemma append_terminated d off src :
  0 <= off → off + zlen src < zlen d →
  ∃ d1 d2, mem_write d off src = Some d1 ∧
           mem_set d1 (off + zlen src) 0 = Some d2 ∧
           zlen d2 = zlen d ∧
           take (Z.to_nat (off + zlen src)) d2 = take (Z.to_nat off) d ++ src ∧
           d2 !! Z.to_nat (off + zlen src) = Some 0.
Proof.
  intros Hoff Hlen. pose proof (zlen_nonneg src).
  rewrite mem_write_Some by lia.
  set (d1 := take (Z.to_nat off) d ++ src ++ drop (Z.to_nat off + length src) d).
  assert (zlen d1 = zlen d) as Hd1.
  { subst d1. unfold zlen in *. rewrite !length_app, length_take, length_drop. lia. }
  exists d1. eexists. split; [done|].
  rewrite mem_set_Some by lia. split; [done|]. split; [by rewrite zlen_insert|]. split.
  - rewrite take_insert_past by lia. subst d1. rewrite app_assoc.
    apply take_app_length'. rewrite length_app, length_take. unfold zlen in *. lia.
  - apply list_lookup_insert_eq. unfold zlen in *. lia.
Qed.

Lemma dynamic_some b : dbuffer_size b = zlen (default [] (dynamic_buffer b)) →
  0 < dbuffer_size b → ∃ d, dynamic_buffer b = Some d.
Proof. destruct (dynamic_buffer b); simpl; eauto. rewrite zlen_nil. lia. Qed.

Section Refinement.
Variable alloc : Z → bool.
Variable junk : Z.

Lemma bufferdata_move_ok b :
  MoveReady b →
  ∃ r b', bufferdata_move alloc junk b = Some (r, b') ∧
    (r = false → b' = b) ∧
    (r = true → Inv b' ∧ contents b' = contents b ∧
                offset_sbuffer b' = 0 ∧ type b' = BUFFERDATA_DYNAMIC) ∧
    ((∀ n, alloc n = true) → r = true).
Proof.
  intros [Hs Hso Hdo Hds Ht]. unfold bufferdata_move, BUFFERDATA_CAPACITY in *. rewrite Ht.
  assert (mem_read (static_buffer b) 0 (offset_sbuffer b)
          = Some (take (Z.to_nat (offset_sbuffer b)) (static_buffer b))) as Hr.
  { rewrite mem_read_Some by lia. done. }
  set (src := take (Z.to_nat (offset_sbuffer b)) (static_buffer b)) in *.
  assert (zlen src = offset_sbuffer b) as Hsrc by (subst src; rewrite zlen_take; lia).
  assert (∀ d size, zlen d = size → offset_dbuffer b + offset_sbuffer b < size →
            take (Z.to_nat (offset_dbuffer b)) d =
              take (Z.to_nat (offset_dbuffer b)) (default [] (dynamic_buffer b)) →
            ∃ d1 d2, mem_write d (offset_dbuffer b) src = Some d1 ∧
              mem_set d1 (offset_dbuffer b + offset_sbuffer b) 0 = Some d2 ∧
              (let b' := Bufferdata (static_buffer b) (Some d2) 0
                 (offset_dbuffer b + offset_sbuffer b) size BUFFERDATA_DYNAMIC in
               Inv b' ∧ contents b' = contents b)) as Hcopy.
  { intros d size Hsize Hlt Htk.
    destruct (append_terminated d (offset_dbuffer b) src) as (d1 & d2 & H1 & H2 & H3 & H4 & H5);
      [lia|lia|].
    rewrite Hsrc in *. exists d1, d2. split; [done|]. split; [done|]. split.
    - constructor; simpl; [done|unfold BUFFERDATA_CAPACITY; lia|lia|lia|eauto].
    - unfold contents. simpl. rewrite Ht, H4, Htk. subst src. by rewrite take_0, app_nil_r. }
  destruct (Z.leb_spec (dbuffer_size b) (offset_dbuffer b + offset_sbuffer b)).
  - destruct (alloc _) eqn:Ha.
    + destruct (Hcopy (grow junk (default [] (dynamic_buffer b))
                         (offset_dbuffer b + offset_sbuffer b + 1))
                  (offset_dbuffer b + offset_sbuffer b + 1)) as (d1 & d2 & H1 & H2 & H3 & H4).
      { rewrite zlen_grow by lia. done. }
      { lia. }
      { apply take_grow; lia. }
      simpl. rewrite Hr. simpl. rewrite H1. simpl. rewrite H2. simpl.
      eexists _, _. split; [done|]. split; [done|]. split; [|done]. intros _. done.
    + eexists _, _. split; [done|]. split; [done|]. split; [done|].
      intros Hall. by rewrite Hall in Ha.
  - destruct (dynamic_some b) as [d Hd]; [done|lia|].
    rewrite Hd in Hcopy. simpl in Hcopy.
    destruct (Hcopy d (dbuffer_size b)) as (d1 & d2 & H1 & H2 & H3 & H4).
    { by rewrite Hds, Hd. } { lia. } { done. }
    rewrite Hd. simpl. rewrite Hr. simpl. rewrite H1. simpl. rewrite H2. simpl.
    eexists _, _. split; [done|]. split; [done|]. split; [|done]. done.
Qed.

Lemma inv_move_ready b :
  Inv b → type b = BUFFERDATA_DYNAMIC → MoveReady b.
Proof.
  intros [Hs Hso Hdo Hds Hty] Ht. rewrite Ht in Hty. destruct Hty as (d & Hd & Hl).
  constructor; try done. rewrite Hd. simpl. apply lookup_lt_Some in Hl. unfold zlen. lia.
Qed.

Lemma inv_switch_ready b :
  Inv b → MoveReady (set_type b BUFFERDATA_DYNAMIC).
Proof.
  intros Hi. destruct (type b) eqn:Ht.
  - destruct Hi as [Hs Hso Hdo Hds Hty]. rewrite Ht in Hty. destruct Hty as [H0 _].
    constructor; simpl; try done. pose proof (zlen_nonneg (default [] (dynamic_buffer b))). lia.
  - destruct (inv_move_ready b Hi Ht). constructor; done.
Qed.

Lemma contents_set_type b :
  Inv b → contents (set_type b BUFFERDATA_DYNAMIC) = contents b.
Proof.
  intros [Hs Hso Hdo Hds Hty]. unfold contents. simpl.
  destruct (type b); [|done]. destruct Hty as [-> _]. done.
Qed.

Lemma set_type_id b t : set_type (set_type b t) (type b) = b.
Proof. by destruct b. Qed.

(** Storing one byte below the capacity: the tail of [bufferdata_push]. *)
Lemma push_tail b ch :
  zlen (static_buffer b) = BUFFERDATA_SIZE → 0 <= offset_sbuffer b < BUFFERDATA_CAPACITY →
  Inv b →
  ∃ s s', mem_set (static_buffer b) (offset_sbuffer b) ch = Some s ∧
    mem_set s (offset_sbuffer b + 1) 0 = Some s' ∧
    (let b' := Bufferdata s' (dynamic_buffer b) (offset_sbuffer b + 1)
                 (offset_dbuffer b) (dbuffer_size b) (type b) in
     Inv b' ∧ contents b' = contents b ++ [ch]).
Proof.
  intros Hs Hso Hi. unfold BUFFERDATA_CAPACITY, BUFFERDATA_SIZE in *.
  eexists _, _. rewrite mem_set_Some by lia. split; [done|].
  rewrite mem_set_Some by (rewrite zlen_insert; lia). split; [done|].
  assert (take (Z.to_nat (offset_sbuffer b + 1))
            (<[Z.to_nat (offset_sbuffer b + 1):=0]>
               (<[Z.to_nat (offset_sbuffer b):=ch]> (static_buffer b)))
          = take (Z.to_nat (offset_sbuffer b)) (static_buffer b) ++ [ch]) as Htk.
  { rewrite take_insert_past by lia. apply take_insert_snoc. lia. }
  destruct Hi as [_ _ Hdo Hds Hty]. simpl. split.
  - constructor; simpl; unfold BUFFERDATA_CAPACITY, BUFFERDATA_SIZE.
    + by rewrite !zlen_insert.
    + lia.
    + done.
    + done.
    + destruct (type b); [|done]. destruct Hty as [? _]. split; [done|].
      apply list_lookup_insert_eq. rewrite length_insert. unfold zlen in *. lia.
  - unfold contents. simpl. rewrite Htk. destruct (type b); [done|]. by rewrite app_assoc.
Qed.

Lemma bufferdata_push_ok b ch :
  Inv b →
  ∃ r b', bufferdata_push alloc junk b ch = Some (r, b') ∧ Inv b' ∧
    contents b' = (if r then contents b ++ [ch] else contents b) ∧
    ((∀ n, alloc n = true) → r = true).
Proof.
  intros Hi. pose proof (inv_soff b Hi) as Hso. unfold bufferdata_push.
  destruct (Z.leb_spec BUFFERDATA_CAPACITY (offset_sbuffer b)).
  - destruct (bufferdata_move_ok _ (inv_switch_ready b Hi)) as (r & b1 & Hm & Hf & Ht & Ha).
    rewrite Hm. simpl. destruct r; simpl.
    + destruct (Ht eq_refl) as (Hi1 & Hc1 & Hz & Hty).
      destruct (push_tail b1 ch) as (s & s' & H1 & H2 & H3 & H4);
        [by apply inv_static|rewrite Hz; unfold BUFFERDATA_CAPACITY, BUFFERDATA_SIZE; lia|done|].
      rewrite H1. simpl. rewrite H2. simpl. eexists _, _. split; [done|]. split; [done|].
      split; [|done]. by rewrite H4, Hc1, contents_set_type.
    + rewrite (Hf eq_refl), set_type_id. eexists _, _. split; [done|]. split; [done|].
      split; [done|]. done.
  - destruct (push_tail b ch) as (s & s' & H1 & H2 & H3 & H4); [by apply inv_static|lia|done|].
    simpl. rewrite H1. simpl. rewrite H2. simpl. eexists _, _. split; [done|].
    split; [done|]. by split.
Qed.

Lemma bufferdata_complete_ok b :
  Inv b →
  ∃ r b', bufferdata_complete alloc junk b = Some (r, b') ∧ Inv b' ∧
    contents b' = contents b ∧ ((∀ n, alloc n = true) → r = true).
Proof.
  intros Hi. unfold bufferdata_complete. destruct (type b) eqn:Hty; [eauto 6|].
  destruct (bufferdata_move_ok b (inv_move_ready b Hi Hty)) as (r & b1 & Hm & Hf & Ht & Ha).
  exists r, b1. split; [done|]. destruct r.
  - destruct (Ht eq_refl) as (? & ? & _). done.
  - rewrite (Hf eq_refl). done.
Qed.

Lemma writed_contents b : Inv b → bufferdata_writed b = zlen (contents b).
Proof.
  intros Hi. pose proof (inv_soff b Hi). pose proof (inv_static b Hi).
  unfold bufferdata_writed, contents, BUFFERDATA_CAPACITY, BUFFERDATA_SIZE in *.
  destruct (type b) eqn:Ht.
  - rewrite zlen_take. lia.
  - pose proof (mr_doff b (inv_move_ready b Hi Ht)). rewrite zlen_app, !zlen_take. lia.
Qed.

Lemma bufferdata_get_ok b :
  Inv b →
  ∃ p b', bufferdata_get alloc junk b = Some (p, b') ∧ Inv b' ∧ contents b' = contents b ∧
    match deref b' p with
    | None => p = PtrNull ∧ ¬ (∀ n, alloc n = true)
    | Some blk => take (Z.to_nat (zlen (contents b))) blk = contents b ∧
                  mem_get blk (zlen (contents b)) = Some 0
    end.
Proof.
  intros Hi. unfold bufferdata_get. destruct (type b) eqn:Hty.
  - eexists _, _. split; [done|]. split; [done|]. split; [done|]. simpl.
    rewrite <- (writed_contents b Hi). unfold bufferdata_writed, contents. rewrite Hty.
    split; [done|]. rewrite mem_get_lookup by apply inv_soff, Hi.
    pose proof (inv_type b Hi) as H. rewrite Hty in H. apply H.
  - assert (∃ r b', (if 0 <? offset_sbuffer b then bufferdata_move alloc junk b
                     else Some (true, b)) = Some (r, b') ∧
             (r = true → Inv b' ∧ contents b' = contents b ∧ offset_sbuffer b' = 0 ∧
                         type b' = BUFFERDATA_DYNAMIC) ∧
             (r = false → b' = b) ∧ ((∀ n, alloc n = true) → r = true))
      as (r & b' & Hm & Ht & Hf & Ha).
    { destruct (Z.ltb_spec 0 (offset_sbuffer b)).
      - destruct (bufferdata_move_ok b (inv_move_ready b Hi Hty)) as (r & b1 & ? & ? & ? & ?).
        exists r, b1. done.
      - exists true, b. pose proof (inv_soff b Hi). split; [done|]. split; [|done].
        intros _. split_and!; first [done | lia]. }
    rewrite Hm. simpl. destruct r.
    + destruct (Ht eq_refl) as (Hi' & Hc & Hz & Hty').
      pose proof (inv_type b' Hi') as Hd. rewrite Hty' in Hd. destruct Hd as (d & Hd & Hl).
      rewrite Hd. eexists _, _. split; [done|]. split; [done|]. split; [done|].
      simpl. rewrite Hd. pose proof (inv_doff b' Hi').
      assert (contents b = take (Z.to_nat (offset_dbuffer b')) d) as Hcb.
      { rewrite <- Hc. unfold contents. rewrite Hty', Hd, Hz. simpl. by rewrite take_0, app_nil_r. }
      assert (zlen (contents b) = offset_dbuffer b') as ->.
      { rewrite Hcb, zlen_take. apply lookup_lt_Some in Hl. unfold zlen. lia. }
      split; [done|]. by rewrite mem_get_lookup by lia.
    + rewrite (Hf eq_refl). eexists _, _. split; [done|]. split; [done|]. split; [done|].
      simpl. split; [done|]. intros H. by specialize (Ha H).
Qed.
End Refinement.

Lemma bufferdata_reset_ok b :
  Inv b → ∃ b', bufferdata_reset b = Some b' ∧ Inv b' ∧ contents b' = [].
Proof.
  intros [Hs Hso Hdo Hds Hty]. unfold bufferdata_reset, BUFFERDATA_SIZE in *.
  rewrite mem_set_Some by lia. simpl. eexists. split; [done|]. split; [|done].
  constructor; simpl; unfold BUFFERDATA_CAPACITY, BUFFERDATA_SIZE;
    [by rewrite zlen_insert|lia|lia|done|].
  split; [done|]. apply list_lookup_insert_eq. unfold zlen in *. lia.
Qed.

Lemma bufferdata_clear_ok b :
  Inv b → ∃ b', bufferdata_clear b = Some b' ∧ Inv b' ∧ contents b' = [].
Proof.
  intros Hi. destruct (bufferdata_reset_ok b Hi) as (b' & Hb & Hi' & Hc).
  unfold bufferdata_clear. rewrite Hb. simpl. eexists. split; [done|].
  assert (type b' = BUFFERDATA_STATIC ∧ offset_sbuffer b' = 0) as [Ht Hz].
  { unfold bufferdata_reset in Hb. destruct (mem_set _ _ _); simplify_eq/=. done. }
  destruct Hi' as [Hs Hso Hdo Hds Hty]. rewrite Ht in Hty. split.
  - constructor; simpl; try done. rewrite Ht. done.
  - unfold contents. simpl. by rewrite Ht, Hz.
Qed.

Lemma bufferdata_init_ok b :
  zlen (static_buffer b) = BUFFERDATA_SIZE →
  ∃ b', bufferdata_init b = Some b' ∧ Inv b' ∧ contents b' = [].
Proof.
  intros Hs. unfold bufferdata_init, BUFFERDATA_SIZE in *. rewrite mem_set_Some by lia.
  simpl. eexists. split; [done|]. split; [|done].
  constructor; simpl; unfold BUFFERDATA_CAPACITY, BUFFERDATA_SIZE;
    [by rewrite zlen_insert|lia|lia|done|].
  split; [done|]. apply list_lookup_insert_eq. unfold zlen in *. lia.
Qed.

Lemma contents_static_pos b :
  Inv b → 0 < offset_sbuffer b →
  ∃ c, static_buffer b !! Z.to_nat (offset_sbuffer b - 1) = Some c ∧
       ∃ l, contents b = l ++ [c] ∧
            l = match type b with
                | BUFFERDATA_STATIC => []
                | BUFFERDATA_DYNAMIC =>
                    take (Z.to_nat (offset_dbuffer b)) (default [] (dynamic_buffer b))
                end ++ take (Z.to_nat (offset_sbuffer b - 1)) (static_buffer b).
Proof.
  intros Hi Hpos. pose proof (inv_soff b Hi). pose proof (inv_static b Hi).
  unfold BUFFERDATA_CAPACITY, BUFFERDATA_SIZE in *.
  destruct (lookup_lt_is_Some_2 (static_buffer b) (Z.to_nat (offset_sbuffer b - 1))) as [c Hc].
  { unfold zlen in *. lia. }
  exists c. split; [done|]. eexists. split; [|done].
  unfold contents. rewrite (take_pred_snoc (static_buffer b) (offset_sbuffer b) c) by (lia || done).
  destruct (type b); [done|]. by rewrite app_assoc.
Qed.

Lemma contents_dynamic_pos b :
  Inv b → offset_sbuffer b = 0 → bufferdata_writed b ≠ 0 →
  ∃ d c, dynamic_buffer b = Some d ∧ d !! Z.to_nat (offset_dbuffer b - 1) = Some c ∧
         0 < offset_dbuffer b ∧ type b = BUFFERDATA_DYNAMIC ∧
         contents b = take (Z.to_nat (offset_dbuffer b - 1)) d ++ [c].
Proof.
  intros Hi Hz Hw. unfold bufferdata_writed in Hw. pose proof (inv_doff b Hi).
  pose proof (inv_type b Hi) as Hd. unfold contents.
  destruct (type b) eqn:Ht; [lia|]. destruct Hd as (d & Hd & Hl).
  destruct (lookup_lt_is_Some_2 d (Z.to_nat (offset_dbuffer b - 1))) as [c Hc].
  { apply lookup_lt_Some in Hl. lia. }
  exists d, c. split_and!; [done|done|lia|done|].
  rewrite Hd, Hz. simpl. rewrite take_0, app_nil_r. apply take_pred_snoc; [lia|done].
Qed.

Lemma bufferdata_back_ok b :
  Inv b → bufferdata_back b = Some (default 0 (list.last (contents b))).
Proof.
  intros Hi. unfold bufferdata_back. pose proof (writed_contents b Hi) as Hw.
  destruct (Z.eqb_spec (bufferdata_writed b) 0) as [H0|H0].
  - rewrite (zlen_0_nil (contents b)) by lia. done.
  - pose proof (inv_soff b Hi). destruct (Z.ltb_spec 0 (offset_sbuffer b)).
    + destruct (contents_static_pos b) as (c & Hc & l & Hl & _); [done|lia|].
      rewrite mem_get_lookup, Hc, Hl, last_snoc by lia. done.
    + destruct (contents_dynamic_pos b) as (d & c & Hd & Hc & ? & ? & Hl); [done|lia|done|].
      rewrite Hd, mem_get_lookup, Hc, Hl, last_snoc by lia. done.
Qed.

Lemma bufferdata_pop_back_ok b :
  Inv b →
  ∃ c b', bufferdata_pop_back b = Some (c, b') ∧ Inv b' ∧
    (contents b = [] ∧ c = 0 ∧ b' = b ∨ contents b = contents b' ++ [c]).
Proof.
  intros Hi. unfold bufferdata_pop_back. pose proof (writed_contents b Hi) as Hw.
  destruct (Z.eqb_spec (bufferdata_writed b) 0) as [H0|H0].
  - eexists _, _. split; [done|]. split; [done|]. left. split_and!; try done.
    apply zlen_0_nil. lia.
  - pose proof (inv_soff b Hi). pose proof (inv_static b Hi). pose proof (inv_doff b Hi).
    unfold BUFFERDATA_CAPACITY, BUFFERDATA_SIZE in *.
    destruct (Z.ltb_spec 0 (offset_sbuffer b)).
    + destruct (contents_static_pos b) as (c & Hc & l & Hl & El); [done|lia|].
      rewrite mem_get_lookup, Hc by lia. simpl. rewrite mem_set_Some by lia. simpl.
      eexists _, _. split; [done|]. split; [|right].
      * constructor; simpl; unfold BUFFERDATA_CAPACITY, BUFFERDATA_SIZE;
          [by rewrite zlen_insert|lia|lia|by apply inv_dsize|].
        pose proof (inv_type b Hi) as Hty. destruct (type b); [|done]. split; [apply Hty|].
        apply list_lookup_insert_eq. unfold zlen in *. lia.
      * rewrite Hl. f_equal. rewrite El. unfold contents. simpl.
        rewrite take_insert_past by lia. by destruct (type b).
    + destruct (contents_dynamic_pos b) as (d & c & Hd & Hc & Hp & Ht & Hl); [done|lia|done|].
      pose proof (lookup_lt_Some _ _ _ Hc) as Hlt.
      rewrite Hd, mem_get_lookup, Hc by lia. simpl. rewrite mem_set_Some by (unfold zlen; lia).
      simpl. eexists _, _. split; [done|]. split; [|right].
      * constructor; simpl; [done|unfold BUFFERDATA_CAPACITY, BUFFERDATA_SIZE; lia|lia| |].
        { rewrite zlen_insert, (inv_dsize b Hi), Hd. done. }
        rewrite Ht. eexists. split; [done|]. by apply list_lookup_insert_eq.
      * rewrite Hl. f_equal. unfold contents. simpl. rewrite Ht. simpl.
        rewrite take_insert_past by lia.
        replace (offset_sbuffer b) with 0 by lia. by rewrite take_0, app_nil_r.
Qed.

(** Sliding the window [offset, offset + size) to the front keeps exactly those
    bytes of a flushed buffer; the request is refused when the window leaves the
    contents, except that a static buffer is only checked against its block. *)
Lemma bufferdata_move_data_to_start_ok alloc junk b offset size :
  Inv b → 0 <= offset → 0 < size → offset + size <= zlen (contents b) →
  (type b = BUFFERDATA_DYNAMIC → offset_sbuffer b = 0) →
  ∃ r b', bufferdata_move_data_to_start alloc junk b offset size = Some (r, b') ∧
    (r = true → Inv b' ∧
       contents b' = take (Z.to_nat size) (drop (Z.to_nat offset) (contents b))) ∧
    ((∀ n, alloc n = true) → r = true).
Proof.
  intros Hi Ho Hsz Hw Hfl. pose proof (writed_contents b Hi) as Hwr.
  pose proof (inv_static b Hi) as Hs. pose proof (inv_soff b Hi) as Hso.
  unfold bufferdata_move_data_to_start, bufferdata_writed, contents in *.
  unfold BUFFERDATA_CAPACITY, BUFFERDATA_SIZE in *.
  pose proof (inv_type b Hi) as Hty. pose proof (inv_dsize b Hi) as Hds.
  destruct (type b) eqn:Ht.
  - destruct (Z.leb_spec 4096 offset); [lia|]. destruct (Z.leb_spec 4096 size); [lia|]. simpl.
    destruct (Z.leb_spec 4096 (offset + size)); [lia|].
    rewrite mem_read_Some by lia. simpl.
    set (src := take (Z.to_nat size) (drop (Z.to_nat offset) (static_buffer b))).
    assert (zlen src = size) as Hsrc by (subst src; rewrite zlen_take, zlen_drop; lia).
    destruct (append_terminated (static_buffer b) 0 src) as (d1 & d2 & Hw1 & Hw2 & Hw3 & Hw4 & Hw5);
      [lia|lia|].
    rewrite Hsrc, Z.add_0_l in *. rewrite Hw1. simpl. rewrite Hw2. simpl.
    eexists _, _. split; [done|]. split; [|done]. intros _. split.
    + constructor; simpl; unfold BUFFERDATA_CAPACITY, BUFFERDATA_SIZE; try done; lia.
    + simpl. rewrite Hw4. simpl. subst src.
      rewrite skipn_firstn_comm, take_take. f_equal. lia.
  - destruct Hty as (d & Hd & Hl). specialize (Hfl eq_refl).
    assert (offset + size <= offset_dbuffer b) by lia.
    pose proof (lookup_lt_Some _ _ _ Hl) as Hlt. pose proof (inv_doff b Hi).
    destruct (Z.eqb_spec size 0); [lia|]. destruct (Z.leb_spec (offset_dbuffer b) offset); [lia|].
    destruct (Z.ltb_spec (offset_dbuffer b - offset) size); [lia|].
    rewrite Hd. simpl. rewrite mem_read_Some by (unfold zlen; lia). simpl.
    set (src := take (Z.to_nat size) (drop (Z.to_nat offset) d)).
    assert (zlen src = size) as Hsrc by (subst src; rewrite zlen_take, zlen_drop; unfold zlen; lia).
    destruct (append_terminated d 0 src) as (d1 & d2 & Hd1 & _ & _ & _ & _);
      [lia|unfold zlen in *; lia|].
    rewrite Hd1. simpl. destruct (alloc (size + 1)) eqn:Ha.
    + rewrite mem_set_Some by (rewrite zlen_grow; lia). simpl.
      eexists _, _. split; [done|]. split; [|done]. intros _. split.
      * constructor; simpl; unfold BUFFERDATA_CAPACITY, BUFFERDATA_SIZE; try done; try lia.
        { by rewrite zlen_insert, zlen_grow by lia. }
        eexists. split; [done|]. apply list_lookup_insert_eq.
        pose proof (zlen_grow junk d1 (size + 1)). unfold zlen in *. lia.
      * simpl. rewrite take_0, app_nil_r, take_insert_past by lia.
        rewrite mem_write_Some in Hd1 by (unfold zlen in *; lia).
        simplify_eq/=. rewrite take_grow; [|rewrite zlen_app; unfold zlen in *; lia|lia].
        rewrite take_app_length' by (unfold zlen in *; lia).
        subst src. rewrite Hfl, take_0, app_nil_r, skipn_firstn_comm, take_take. f_equal. lia.
    + eexists _, _. split; [done|]. split; [done|]. intros H'. by rewrite H' in Ha.
Qed.

Lemma bufferdata_copy_ok alloc junk b :
  Inv b →
  ∃ r b', bufferdata_copy alloc junk b = Some (r, b') ∧ Inv b' ∧ contents b' = contents b ∧
    match r with
    | Some blk => blk = contents b ++ [0]
    | None => ¬ (∀ n, alloc n = true)
    end.
Proof.
  intros Hi. destruct (bufferdata_get_ok alloc junk b Hi) as (p & b' & Hg & Hi' & Hc & Hd).
  unfold bufferdata_copy. rewrite Hg. simpl. rewrite (writed_contents b' Hi'), Hc.
  pose proof (zlen_nonneg (contents b)) as Hz.
  assert (∀ blk, deref b' p = Some blk → ∃ r b'',
    (if alloc (zlen (contents b) + 1) then
       string ← deref b' p; src ← mem_read string 0 (zlen (contents b));
       d ← mem_write (grow junk [] (zlen (contents b) + 1)) 0 src;
       d' ← mem_set d (zlen (contents b)) 0; Some (Some d', b')
     else Some (None, b')) = Some (r, b'') ∧ Inv b'' ∧ contents b'' = contents b ∧
    match r with Some blk => blk = contents b ++ [0] | None => ¬ (∀ n, alloc n = true) end) as K.
  { intros blk Hb. rewrite Hb in Hd. destruct Hd as [Ht Hn]. rewrite Hb. simpl.
    destruct (alloc _) eqn:Ha.
    - assert (zlen (contents b) < zlen blk).
      { rewrite mem_get_lookup in Hn by lia. apply lookup_lt_Some in Hn. unfold zlen in *. lia. }
      rewrite mem_read_Some by lia. simpl. rewrite drop_0, Ht.
      rewrite mem_write_Some by (rewrite ?zlen_grow; lia). simpl.
      set (m := contents b ++ drop (length (contents b)) (grow junk [] (zlen (contents b) + 1))).
      assert (zlen m = zlen (contents b) + 1) as Hm.
      { subst m. pose proof (zlen_grow junk [] (zlen (contents b) + 1)).
        unfold zlen in *. rewrite length_app, length_drop. lia. }
      rewrite mem_set_Some by lia. simpl. eexists _, _. split; [done|]. split_and!; [done|done|].
      rewrite <- (take_zlen (<[_:=0]> m)), zlen_insert, Hm, take_insert_snoc by lia. f_equal.
      subst m. apply take_app_length'. unfold zlen. lia.
    - eexists _, _. split; [done|]. split_and!; [done|done|].
      intros H. by rewrite H in Ha. }
  destruct p; simpl in *.
  - eexists _, _. split; [done|]. split_and!; [done|done|]. apply Hd.
  - by apply (K (static_buffer b')).
  - destruct (dynamic_buffer b') as [blk|] eqn:E; [by apply (K blk)|]. by destruct Hd.
Qed.

(** ** The client interface as a whole: sequences of operations *)

Inductive bufop : Set :=
| Push (ch : Z)
| PopBack
| Complete
| Reset
| Clear.

Section Traces.
Variable alloc : Z → bool.
Variable junk : Z.

(** One call: its result (1 or 0, or the popped byte) and the new struct. *)
Definition bufop_run (op : bufop) (b : bufferdata) : option (Z * bufferdata) :=
  match op with
  | Push ch => '(r, b') ← bufferdata_push alloc junk b ch; Some (Z.b2z r, b')
  | PopBack => bufferdata_pop_back b
  | Complete => '(r, b') ← bufferdata_complete alloc junk b; Some (Z.b2z r, b')
  | Reset => b' ← bufferdata_reset b; Some (1, b')
  | Clear => b' ← bufferdata_clear b; Some (1, b')
  end.

Fixpoint bufops_run (ops : list bufop) (b : bufferdata) : option (list Z * bufferdata) :=
  match ops with
  | [] => Some ([], b)
  | op :: rest =>
      '(r, b1) ← bufop_run op b;
      '(rs, b2) ← bufops_run rest b1;
      Some (r :: rs, b2)
  end.

(** The abstract machine: a byte list. *)
Inductive spec_step : bufop → Z → list Z → list Z → Prop :=
| spec_push l ch : spec_step (Push ch) 1 l (l ++ [ch])
| spec_push_oom l ch : ¬ (∀ n, alloc n = true) → spec_step (Push ch) 0 l l
| spec_pop_empty : spec_step PopBack 0 [] []
| spec_pop l c : spec_step PopBack c (l ++ [c]) l
| spec_complete l r : spec_step Complete r l l
| spec_reset l : spec_step Reset 1 l []
| spec_clear l : spec_step Clear 1 l [].

Inductive spec_run : list bufop → list Z → list Z → list Z → Prop :=
| spec_run_nil l : spec_run [] [] l l
| spec_run_cons op ops r rs l l1 l2 :
    spec_step op r l l1 → spec_run ops rs l1 l2 → spec_run (op :: ops) (r :: rs) l l2.

Lemma bufop_simulates op b :
  Inv b →
  ∃ r b', bufop_run op b = Some (r, b') ∧ Inv b' ∧ spec_step op r (contents b) (contents b').
Proof.
  intros Hi. destruct op; simpl.
  - destruct (bufferdata_push_ok alloc junk b ch Hi) as (r & b' & -> & Hi' & Hc & Ha).
    simpl. eexists _, _. split; [done|]. split; [done|]. rewrite Hc.
    destruct r; simpl; constructor. intros H. by specialize (Ha H).
  - destruct (bufferdata_pop_back_ok b Hi) as (c & b' & -> & Hi' & Hc).
    eexists _, _. split; [done|]. split; [done|].
    destruct Hc as [(Hc & -> & ->)| ->]; [rewrite Hc|]; constructor.
  - destruct (bufferdata_complete_ok alloc junk b Hi) as (r & b' & -> & Hi' & Hc & Ha).
    simpl. eexists _, _. split; [done|]. split; [done|]. rewrite Hc. constructor.
  - destruct (bufferdata_reset_ok b Hi) as (b' & -> & Hi' & Hc).
    simpl. eexists _, _. split; [done|]. split; [done|]. rewrite Hc. constructor.
  - destruct (bufferdata_clear_ok b Hi) as (b' & -> & Hi' & Hc).
    simpl. eexists _, _. split; [done|]. split; [done|]. rewrite Hc. constructor.
Qed.

Lemma bufops_simulate ops b :
  Inv b →
  ∃ rs b', bufops_run ops b = Some (rs, b') ∧ Inv b' ∧
           spec_run ops rs (contents b) (contents b').
Proof.
  revert b. induction ops as [|op ops IH]; intros b Hi; simpl.
  - eexists _, _. split; [done|]. split; [done|]. constructor.
  - destruct (bufop_simulates op b Hi) as (r & b1 & -> & Hi1 & Hs). simpl.
    destruct (IH b1 Hi1) as (rs & b2 & -> & Hi2 & Hs2). simpl.
    eexists _, _. split; [done|]. split; [done|]. by econstructor.
Qed.
End Traces.

(** ** Properties *)

(** whatever sequence of push, pop, complete, reset and clear calls is made on
    a freshly initialised [bufferdata], and whichever allocations fail, no call
    accesses memory outside its blocks, every result is the one a byte list gives,
    and the bytes held at the end are the list's: the small static array and the
    heap block together implement one growable byte list. *)
Theorem bufferdata_refines_list (alloc : Z → bool) (junk : Z) (b : bufferdata)
    (ops : list bufop) :
  zlen (static_buffer b) = BUFFERDATA_SIZE →
  ∃ b0 rs b', bufferdata_init b = Some b0 ∧ bufops_run alloc junk ops b0 = Some (rs, b') ∧
    spec_run alloc ops rs [] (contents b') ∧ bufferdata_writed b' = zlen (contents b').
Proof.
  intros Hs. destruct (bufferdata_init_ok b Hs) as (b0 & H0 & Hi & Hc).
  destruct (bufops_simulate alloc junk ops b0 Hi) as (rs & b' & Hr & Hi' & Hsp).
  rewrite Hc in Hsp. exists b0, rs, b'. split_and!; try done. by apply writed_contents.
Qed.

Definition zeroed_bufferdata : bufferdata :=
  Bufferdata (replicate 4096 0) None 0 0 0 BUFFERDATA_STATIC.

Lemma bufferdata_refines_list_witness :
  ∃ b0 rs b', bufferdata_init zeroed_bufferdata = Some b0 ∧
    bufops_run (λ _, true) 0 [Push 65; Push 66; PopBack] b0 = Some (rs, b') ∧
    spec_run (λ _, true) [Push 65; Push 66; PopBack] rs [] (contents b') ∧
    bufferdata_writed b' = zlen (contents b').
Proof.
  apply (bufferdata_refines_list (λ _, true) 0 zeroed_bufferdata [Push 65; Push 66; PopBack]).
  vm_compute. reflexivity.
Defined.

(** after any sequence of operations on a fresh buffer, [bufferdata_get] gives
    the parsers a C string: unless an allocation fails, the returned block starts
    with exactly the accumulated bytes and has a 0 byte right behind them. *)
Theorem bufferdata_get_terminated (alloc : Z → bool) (junk : Z) (b b0 b1 : bufferdata)
    (ops : list bufop) (rs : list Z) :
  zlen (static_buffer b) = BUFFERDATA_SIZE →
  bufferdata_init b = Some b0 → bufops_run alloc junk ops b0 = Some (rs, b1) →
  ∃ p b2, bufferdata_get alloc junk b1 = Some (p, b2) ∧ contents b2 = contents b1 ∧
    match deref b2 p with
    | None => p = PtrNull ∧ ¬ (∀ n, alloc n = true)
    | Some blk => take (length (contents b1)) blk = contents b1 ∧
                  mem_get blk (bufferdata_writed b1) = Some 0
    end.
Proof.
  intros Hs H0 Hr. destruct (bufferdata_init_ok b Hs) as (? & ? & Hi & _). simplify_eq.
  destruct (bufops_simulate alloc junk ops b0 Hi) as (? & ? & ? & Hi1 & _). simplify_eq.
  destruct (bufferdata_get_ok alloc junk b1 Hi1) as (p & b2 & Hg & _ & Hc & Hd).
  exists p, b2. rewrite (writed_contents b1 Hi1).
  replace (length (contents b1)) with (Z.to_nat (zlen (contents b1))) by (unfold zlen; lia).
  done.
Qed.

Lemma bufferdata_get_terminated_witness :
  ∃ b0 rs b1 p b2, bufferdata_init zeroed_bufferdata = Some b0 ∧
    bufops_run (λ _, true) 0 [Push 72; Push 105] b0 = Some (rs, b1) ∧
    bufferdata_get (λ _, true) 0 b1 = Some (p, b2) ∧ contents b2 = contents b1 ∧
    match deref b2 p with
    | None => p = PtrNull ∧ ¬ (∀ n, (λ _ : Z, true) n = true)
    | Some blk => take (length (contents b1)) blk = contents b1 ∧
                  mem_get blk (bufferdata_writed b1) = Some 0
    end.
Proof.
  assert (zlen (static_buffer zeroed_bufferdata) = BUFFERDATA_SIZE) as Hs
    by (vm_compute; reflexivity).
  destruct (bufferdata_init_ok _ Hs) as (b0 & E0 & Hi & _).
  destruct (bufops_simulate (λ _, true) 0 [Push 72; Push 105] b0 Hi) as (rs & b1 & E1 & _).
  destruct (bufferdata_get_terminated (λ _, true) 0 zeroed_bufferdata b0 b1
              [Push 72; Push 105] rs Hs E0 E1) as (p & b2 & H).
  exists b0, rs, b1, p, b2. done.
Defined.

(** The static array holds 4095 bytes; the next push moves them to the heap. *)
Example bufferdata_spills :
  (λ r, (type r.2, offset_sbuffer r.2, offset_dbuffer r.2)) <$>
    (b0 ← bufferdata_init zeroed_bufferdata;
     bufops_run (λ _, true) 0 (Push <$> replicate 4096 65) b0)
  = Some (BUFFERDATA_DYNAMIC, 1, 4095).
Proof. vm_compute. reflexivity. Qed.

(** on a flushed buffer, [bufferdata_move_data_to_start] keeps exactly the
    non-empty window [offset, offset + size) of the bytes, re-terminated, unless
    the shrinking [realloc] fails; it never reads or writes outside the block. *)
Theorem bufferdata_window (alloc : Z → bool) (junk : Z) (b : bufferdata) (offset size : Z) :
  Inv b → 0 <= offset → 0 < size → offset + size <= zlen (contents b) →
  (type b = BUFFERDATA_DYNAMIC → offset_sbuffer b = 0) →
  ∃ r b', bufferdata_move_data_to_start alloc junk b offset size = Some (r, b') ∧
    (r = true → Inv b' ∧
       contents b' = take (Z.to_nat size) (drop (Z.to_nat offset) (contents b))) ∧
    ((∀ n, alloc n = true) → r = true).
Proof. apply bufferdata_move_data_to_start_ok. Qed.

Definition hello_bufferdata : bufferdata :=
  Bufferdata (bs "hello" ++ replicate 4091 0) None 5 0 0 BUFFERDATA_STATIC.

Lemma bufferdata_window_witness :
  ∃ r b', bufferdata_move_data_to_start (λ _, true) 0 hello_bufferdata 1 3 = Some (r, b') ∧
    (r = true → Inv b' ∧ contents b' = bs "ell") ∧ ((∀ n : Z, true = true) → r = true).
Proof.
  apply (bufferdata_window (λ _, true) 0 hello_bufferdata 1 3);
    [|lia|lia|vm_compute; discriminate|discriminate].
  constructor; simpl; [vm_compute; reflexivity|vm_compute; split; discriminate|lia|reflexivity|].
  split; reflexivity.
Defined.
