(* ===== verification/Helpers.v ===== *)
(** The string helpers of [misc/helpers.c] and the path guard of
    [framework/storage/storagefs.c] that is built on them.

    A [(char*, length)] pair is the byte list; a NUL-terminated argument is the
    list of the bytes before its terminator. Functions that fill a caller's buffer
    get the block and return [None] on an access outside it. *)

From S2P Require Import Prelude.

(** ** Comparison *)

Fixpoint cmpstrn_lower_loop (a b : list Z) : bool :=
  match a, b with
  | x :: a', y :: b' => if negb (tolower x =? tolower y) then false else cmpstrn_lower_loop a' b'
  | _, _ => true
  end.

Definition cmpstrn_lower (a b : list Z) : bool :=
  if negb (zlen a =? zlen b) then false else cmpstrn_lower_loop a b.

(** Loop state: the rest of [a], the index [j] into [b], and [cmpsize]. *)
Fixpoint cmpsubstr_lower_loop (b a : list Z) (j cmpsize : nat) : bool :=
  match a with
  | [] => (cmpsize =? length b)%nat
  | x :: a' =>
      if (j <? length b)%nat then
        if negb (tolower x =? tolower (nth j b 0)) then cmpsubstr_lower_loop b a' 0 0
        else if (S cmpsize =? length b)%nat then true
        else cmpsubstr_lower_loop b a' (S j) (S cmpsize)
      else (cmpsize =? length b)%nat
  end.

Definition cmpsubstr_lower (a b : list Z) : bool := cmpsubstr_lower_loop b a 0 0.

(** ** Hexadecimal *)

Definition hex_char_to_int (b : Z) : Z :=
  let c := schar b in
  if (48 <=? c) && (c <=? 57) then c - 48
  else if (97 <=? c) && (c <=? 102) then c - 97 + 10
  else if (65 <=? c) && (c <=? 70) then c - 65 + 10
  else -1.

Fixpoint hex_to_bytes_loop (hex raw : list Z) (i : Z) : option (bool * list Z) :=
  match hex with
  | h :: l :: rest =>
      let high := hex_char_to_int h in
      let low := hex_char_to_int l in
      if (high =? -1) || (low =? -1) then Some (false, raw)
      else
        raw' ← mem_set raw (i / 2) (uchar (Z.lor (Z.shiftl high 4) low));
        hex_to_bytes_loop rest raw' (i + 2)
  | _ => Some (true, raw)
  end.

Definition hex_to_bytes (hex raw : list Z) : option (bool * list Z) :=
  let len := zlen hex in
  if negb (len mod 2 =? 0) then Some (false, raw)
  else if zlen raw <? len / 2 then Some (false, raw)
  else hex_to_bytes_loop hex raw 0.

Definition hexChars : list Z := bs "0123456789abcdef".

Fixpoint bytes_to_hex_loop (raw hex : list Z) (i : Z) : option (list Z) :=
  match raw with
  | [] => mem_set hex (i * 2) 0
  | b :: rest =>
      hi ← mem_get hexChars (Z.land (Z.shiftr b 4) 15);
      lo ← mem_get hexChars (Z.land b 15);
      h1 ← mem_set hex (i * 2) hi;
      h2 ← mem_set h1 (i * 2 + 1) lo;
      bytes_to_hex_loop rest h2 (i + 1)
  end.

Definition bytes_to_hex (raw hex : list Z) : option (list Z) := bytes_to_hex_loop raw hex 0.

(** ** URL encoding; the result is what is written before the terminator *)

Definition byte_to_hex (code : Z) : option Z :=
  mem_get (bs "0123456789ABCDEF") (Z.land code 15).

Fixpoint urlencodel (string : list Z) : option (list Z) :=
  match string with
  | [] => Some []
  | ch :: rest =>
      out ← (if isalnum ch || (ch =? chr_MINUS) || (ch =? chr_UNDER) || (ch =? chr_DOT)
                || (ch =? chr_TILDE) then Some [ch]
             else if ch =? chr_SP then Some [chr_PLUS]
             else
               hi ← byte_to_hex (Z.shiftr ch 4);
               lo ← byte_to_hex (Z.land ch 15);
               Some [chr_PERCENT; hi; lo]);
      tail ← urlencodel rest;
      Some (out ++ tail)
  end.

Fixpoint urldecodel (string : list Z) : list Z :=
  match string with
  | [] => []
  | ch :: rest =>
      if ch =? chr_PERCENT then
        match rest with
        | c1 :: c2 :: rest' =>
            let hi := hex_char_to_int c1 in
            let lo := hex_char_to_int c2 in
            if (0 <=? hi) && (0 <=? lo) then uchar (Z.lor (Z.shiftl hi 4) lo) :: urldecodel rest'
            else chr_PERCENT :: urldecodel rest
        | _ => chr_PERCENT :: urldecodel rest
        end
      else if ch =? chr_PLUS then chr_SP :: urldecodel rest
      else ch :: urldecodel rest
  end.

(** ** Path traversal *)

Fixpoint is_path_traversal_loop (string : list Z) (ch_1 ch_2 ch_3 : Z) : bool :=
  match string with
  | [] => (ch_1 =? chr_SLASH) && (ch_2 =? chr_DOT) && (ch_3 =? chr_DOT)
  | c :: rest =>
      if (ch_1 =? chr_SLASH) && (ch_2 =? chr_DOT) && (ch_3 =? chr_DOT) && (c =? chr_SLASH)
      then true
      else is_path_traversal_loop rest ch_2 ch_3 c
  end.

Definition is_path_traversal (string : list Z) : bool :=
  is_path_traversal_loop string 0 0 chr_SLASH.

(** ** Bounded append *)

Definition data_appendn (data : list Z) (pos max : Z) (string : list Z)
    : option (bool * list Z * Z) :=
  if max <=? pos then Some (false, data, pos)
  else if max - pos <=? zlen string then Some (false, data, pos)
  else
    d ← mem_write data pos string;
    Some (true, d, pos + zlen string).

(** The extension behind the last dot of the last path segment. The C loop scans
    backwards; [rest] is the part of the path already seen. *)
Fixpoint file_extension_loop (rev_path rest : list Z) : option (list Z) :=
  match rev_path with
  | [] => None
  | c :: before =>
      if c =? chr_DOT then
        match rest with [] => None | _ => Some rest end
      else if c =? chr_SLASH then None
      else file_extension_loop before (c :: rest)
  end.

Definition file_extension (path : list Z) : option (list Z) :=
  file_extension_loop (rev path) [].

(** ** The storage guard ([framework/storage]) *)

Fixpoint storage_merge_slash_loop (path : list Z) (find_slash : bool) : list Z :=
  match path with
  | [] => []
  | c :: rest =>
      if find_slash && (c =? chr_SLASH) then storage_merge_slash_loop rest find_slash
      else c :: storage_merge_slash_loop rest (c =? chr_SLASH)
  end.

Definition storage_merge_slash (path : list Z) : list Z := storage_merge_slash_loop path false.

Definition PATH_MAX : Z := 4096.

(** [None]: refused. [snprintf] into a [PATH_MAX] buffer keeps [PATH_MAX - 1] bytes. *)
Definition prepare_fullpath (root relpath : list Z) : option (list Z) :=
  if cmpsubstr_lower relpath (bs "/../") then None
  else if cmpsubstr_lower relpath (bs "/..") then None
  else if cmpsubstr_lower relpath (bs "../") then None
  else Some (storage_merge_slash
               (take (Z.to_nat (PATH_MAX - 1)) (root ++ [chr_SLASH] ++ relpath))).

(** ** Lemmas *)

Lemma cmpstrn_lower_loop_true a b :
  length a = length b → cmpstrn_lower_loop a b = true ↔ tolower <$> a = tolower <$> b.
Proof.
  revert b. induction a as [|x a IH]; intros [|y b]; try done. intros [= Hl]. simpl.
  destruct (Z.eqb_spec (tolower x) (tolower y)); simpl.
  - rewrite (IH b Hl). change (list_fmap Z Z tolower) with (fmap (M:=list) tolower).
    split; intros H; [by f_equal|by injection H].
  - split; [done|]. intros H. by injection H.
Qed.

Lemma cmpstrn_lower_true a b :
  cmpstrn_lower a b = true ↔ tolower <$> a = tolower <$> b.
Proof.
  unfold cmpstrn_lower. destruct (Z.eqb_spec (zlen a) (zlen b)) as [E|E]; simpl.
  - apply cmpstrn_lower_loop_true. unfold zlen in E. lia.
  - split; [done|]. intros H. apply (f_equal length) in H. rewrite !length_fmap in H.
    unfold zlen in E. lia.
Qed.

(** Substring up to case. *)
Definition has_substr (a b : list Z) : Prop :=
  ∃ p q r, a = p ++ q ++ r ∧ tolower <$> q = tolower <$> b.

Lemma take_S_nth (b : list Z) j d :
  (j < length b)%nat → take (S j) b = take j b ++ [nth j b d].
Proof.
  intros H. rewrite (take_S_r b j (nth j b d)); [done|].
  rewrite nth_lookup. destruct (lookup_lt_is_Some_2 b j H) as [v ->]. done.
Qed.

Lemma cmpsubstr_loop_sound b a j p q :
  tolower <$> q = tolower <$> take j b → (j <= length b)%nat →
  cmpsubstr_lower_loop b a j j = true → has_substr (p ++ q ++ a) b.
Proof.
  revert j p q. induction a as [|x a IH]; intros j p q Hq Hj; cbn [cmpsubstr_lower_loop].
  - intros H%Nat.eqb_eq. exists p, q, []. split; [done|]. rewrite Hq, take_ge; [done|lia].
  - destruct (Nat.ltb_spec j (length b)).
    + assert (tolower x = tolower (nth j b 0) →
              tolower <$> (q ++ [x]) = tolower <$> take (S j) b) as Hext.
      { intros Hx. rewrite (take_S_nth b j 0) by lia. rewrite !fmap_app, Hq. simpl. by rewrite Hx. }
      destruct (Z.eqb_spec (tolower x) (tolower (nth j b 0))) as [Hx|Hx]; cbn [negb].
      * destruct (Nat.eqb_spec (S j) (length b)) as [E|E].
        -- intros _. exists p, (q ++ [x]), a. rewrite <- (app_assoc q). split; [done|].
           rewrite (Hext Hx), take_ge; [done|lia].
        -- intros H'. assert (has_substr (p ++ (q ++ [x]) ++ a) b) as G.
           { apply (IH (S j)); [by apply Hext|lia|done]. }
           by rewrite <- app_assoc in G.
      * intros H'. specialize (IH 0%nat (p ++ q ++ [x]) [] eq_refl ltac:(lia) H').
        simpl in IH. by rewrite <- !app_assoc in IH.
    + intros E%Nat.eqb_eq. exists p, q, (x :: a). split; [done|]. rewrite Hq, take_ge; [done|lia].
Qed.

Lemma cmpsubstr_lower_has a b : cmpsubstr_lower a b = true → has_substr a b.
Proof. intros H. by apply (cmpsubstr_loop_sound b a 0 [] []); [|lia|]. Qed.

(** *** Hexadecimal round trip *)

Lemma hexChars_lookup n :
  0 <= n < 16 → ∃ c, mem_get hexChars n = Some c ∧ hex_char_to_int c = n.
Proof.
  intros Hn.
  assert (∃ k, (k < 16)%nat ∧ n = Z.of_nat k) as (k & Hk & ->) by (exists (Z.to_nat n); lia).
  do 16 (destruct k as [|k]; [eexists; split; reflexivity|]). lia.
Qed.

Lemma nibbles b :
  is_byte b →
  0 <= Z.land (Z.shiftr b 4) 15 < 16 ∧ 0 <= Z.land b 15 < 16 ∧
  uchar (Z.lor (Z.shiftl (Z.land (Z.shiftr b 4) 15) 4) (Z.land b 15)) = b.
Proof.
  intros Hb.
  pose proof (byte_forall (λ b, (0 <=? Z.land (Z.shiftr b 4) 15) && (Z.land (Z.shiftr b 4) 15 <? 16)
    && (0 <=? Z.land b 15) && (Z.land b 15 <? 16)
    && (uchar (Z.lor (Z.shiftl (Z.land (Z.shiftr b 4) 15) 4) (Z.land b 15)) =? b))
    eq_refl b Hb) as H. cbv beta in H. reflect_bools. lia.
Qed.

Lemma hex_to_bytes_loop_cons h l rest raw i :
  hex_char_to_int h <> -1 → hex_char_to_int l <> -1 →
  hex_to_bytes_loop (h :: l :: rest) raw i =
    (raw' ← mem_set raw (i / 2)
              (uchar (Z.lor (Z.shiftl (hex_char_to_int h) 4) (hex_char_to_int l)));
     hex_to_bytes_loop rest raw' (i + 2)).
Proof.
  intros Hh Hl. simpl.
  destruct (Z.eqb_spec (hex_char_to_int h) (-1)); [done|].
  destruct (Z.eqb_spec (hex_char_to_int l) (-1)); [done|]. done.
Qed.

Definition hex_digits (raw : list Z) : list Z :=
  flat_map (λ b, [default 0 (mem_get hexChars (Z.land (Z.shiftr b 4) 15));
                  default 0 (mem_get hexChars (Z.land b 15))]) raw.

Lemma zlen_hex_digits raw : zlen (hex_digits raw) = 2 * zlen raw.
Proof.
  induction raw as [|b raw IH]; [done|]. simpl. rewrite !zlen_cons. fold (hex_digits raw). lia.
Qed.

Lemma bytes_to_hex_loop_ok raw hex i :
  Forall is_byte raw → 0 <= i → 2 * i + 2 * zlen raw < zlen hex →
  ∃ hex', bytes_to_hex_loop raw hex i = Some hex' ∧ zlen hex' = zlen hex ∧
    take (Z.to_nat (2 * i + 2 * zlen raw + 1)) hex' =
      take (Z.to_nat (2 * i)) hex ++ hex_digits raw ++ [0].
Proof.
  revert hex i. induction raw as [|b raw IH]; intros hex i Hb Hi Hl;
    cbn [bytes_to_hex_loop].
  - rewrite (@zlen_nil Z) in *. rewrite mem_set_Some by lia. eexists. split; [done|].
    split; [by rewrite zlen_insert|].
    replace (i * 2) with (2 * i) by lia. replace (2 * i + 2 * 0 + 1) with (2 * i + 1) by lia.
    rewrite take_insert_snoc by lia. done.
  - apply Forall_cons_iff in Hb as [Hb Hbs]. rewrite zlen_cons in *.
    destruct (nibbles b Hb) as (H1 & H2 & _).
    destruct (hexChars_lookup _ H1) as (c1 & E1 & _). destruct (hexChars_lookup _ H2) as (c2 & E2 & _).
    rewrite E1, E2. simpl. pose proof (zlen_nonneg raw).
    rewrite mem_set_Some by lia. simpl. rewrite mem_set_Some by (rewrite zlen_insert; lia). simpl.
    edestruct (IH (<[Z.to_nat (i * 2 + 1):=c2]> (<[Z.to_nat (i * 2):=c1]> hex)) (i + 1))
      as (hex' & Hl1 & Hl2 & Hl3); [done|lia|rewrite !zlen_insert; lia|].
    exists hex'. split; [done|]. split; [by rewrite Hl2, !zlen_insert|].
    replace (2 * i + 2 * (1 + zlen raw) + 1) with (2 * (i + 1) + 2 * zlen raw + 1) by lia.
    rewrite Hl3. replace (2 * (i + 1)) with (i * 2 + 1 + 1) by lia.
    rewrite take_insert_snoc by (rewrite zlen_insert; lia).
    rewrite take_insert_snoc by lia. rewrite E1, E2. simpl.
    replace (i * 2) with (2 * i) by lia. by rewrite <- !app_assoc.
Qed.

Lemma hex_to_bytes_loop_digits raw dst i :
  Forall is_byte raw → 0 <= i → i + zlen raw <= zlen dst →
  ∃ dst', hex_to_bytes_loop (hex_digits raw) dst (2 * i) = Some (true, dst') ∧
    zlen dst' = zlen dst ∧
    take (Z.to_nat (i + zlen raw)) dst' = take (Z.to_nat i) dst ++ raw.
Proof.
  revert dst i. induction raw as [|b raw IH]; intros dst i Hb Hi Hl.
  - exists dst. simpl. rewrite (@zlen_nil Z), Z.add_0_r, app_nil_r. done.
  - apply Forall_cons_iff in Hb as [Hb Hbs]. rewrite zlen_cons in *. pose proof (zlen_nonneg raw).
    destruct (nibbles b Hb) as (H1 & H2 & H3).
    destruct (hexChars_lookup _ H1) as (c1 & E1 & D1). destruct (hexChars_lookup _ H2) as (c2 & E2 & D2).
    cbn [hex_digits flat_map app]. fold (hex_digits raw). rewrite E1, E2. cbn [default from_option id].
    rewrite hex_to_bytes_loop_cons by (rewrite ?D1, ?D2; lia). rewrite D1, D2, H3.
    replace (2 * i / 2) with i by (rewrite Z.mul_comm, Z.div_mul; lia).
    rewrite mem_set_Some by lia. simpl.
    destruct (IH (<[Z.to_nat i:=b]> dst) (i + 1)) as (d' & Hl1 & Hl2 & Hl3);
      [done|lia|rewrite zlen_insert; lia|].
    replace (2 * i + 2) with (2 * (i + 1)) by lia. exists d'. split; [done|].
    split; [by rewrite Hl2, zlen_insert|].
    replace (i + (1 + zlen raw)) with (i + 1 + zlen raw) by lia.
    rewrite Hl3, take_insert_snoc by lia. by rewrite <- app_assoc.
Qed.

(** *** URL encoding *)

(** What [urlencodel] writes for one byte, with the facts the decoder needs. *)
Lemma urlencode_byte b :
  is_byte b →
  let lit := isalnum b || (b =? 45) || (b =? 95) || (b =? 46) || (b =? 126) in
  (lit = true → (b =? 37) = false ∧ (b =? 43) = false) ∧
  ∃ hi lo, byte_to_hex (Z.shiftr b 4) = Some hi ∧ byte_to_hex (Z.land b 15) = Some lo ∧
    (0 <=? hex_char_to_int hi) && (0 <=? hex_char_to_int lo) = true ∧
    uchar (Z.lor (Z.shiftl (hex_char_to_int hi) 4) (hex_char_to_int lo)) = b.
Proof.
  intros Hb.
  pose proof (byte_forall (λ b,
    implb (isalnum b || (b =? 45) || (b =? 95) || (b =? 46) || (b =? 126))
      (negb (b =? 37) && negb (b =? 43)) &&
    match byte_to_hex (Z.shiftr b 4), byte_to_hex (Z.land b 15) with
    | Some hi, Some lo => (0 <=? hex_char_to_int hi) && (0 <=? hex_char_to_int lo) &&
        (uchar (Z.lor (Z.shiftl (hex_char_to_int hi) 4) (hex_char_to_int lo)) =? b)
    | _, _ => false
    end) eq_refl b Hb) as H. cbv beta in H.
  apply andb_true_iff in H as [H1 H2]. cbv zeta. split.
  - intros Hl. rewrite Hl in H1. simpl in H1. apply andb_true_iff in H1 as [? ?].
    split; by apply negb_true_iff.
  - destruct (byte_to_hex _) as [hi|]; [|done]. destruct (byte_to_hex _) as [lo|]; [|done].
    exists hi, lo. apply andb_true_iff in H2 as [? H2]. apply Z.eqb_eq in H2. done.
Qed.

Lemma urldecodel_percent c1 c2 rest :
  (0 <=? hex_char_to_int c1) && (0 <=? hex_char_to_int c2) = true →
  urldecodel (37 :: c1 :: c2 :: rest) =
    uchar (Z.lor (Z.shiftl (hex_char_to_int c1) 4) (hex_char_to_int c2)) :: urldecodel rest.
Proof. intros H. simpl. by rewrite H. Qed.

Lemma urlencodel_ok s :
  Forall is_byte s →
  ∃ e, urlencodel s = Some e ∧ zlen e <= 3 * zlen s ∧ urldecodel e = s.
Proof.
  induction s as [|b s IH]; intros Hs; [exists []; rewrite !(@zlen_nil Z); split_and!; done|].
  apply Forall_cons_iff in Hs as [Hb Hs]. destruct (IH Hs) as (e & He & Hl & Hd).
  destruct (urlencode_byte b Hb) as (Hlit & hi & lo & H1 & H2 & H3 & H4).
  cbn [urlencodel]. rewrite He, zlen_cons. case_if.
  - destruct (Hlit eq_refl) as [Hp Hq]. simpl. eexists. split; [done|].
    split; [rewrite zlen_cons; lia|]. simpl. by rewrite Hp, Hq, Hd.
  - destruct (Z.eqb_spec b 32) as [->|].
    + simpl. eexists. split; [done|]. split; [rewrite zlen_cons; lia|]. simpl. by rewrite Hd.
    + rewrite H1, H2. simpl. eexists. split; [done|]. split; [rewrite !zlen_cons; lia|].
      rewrite urldecodel_percent by done. by rewrite H4, Hd.
Qed.

(** *** Path traversal *)

(** The window [ch_1 ch_2 ch_3] as a function of the segment read so far. *)
Definition window_ok (cur : list Z) (c1 c2 c3 : Z) : Prop :=
  match cur with
  | [] => c3 = 47
  | [x] => c2 = 47 ∧ c3 = x ∧ x ≠ 47
  | [x; y] => c1 = 47 ∧ c2 = x ∧ c3 = y ∧ x ≠ 47 ∧ y ≠ 47
  | _ => c1 ≠ 47 ∧ c2 ≠ 47 ∧ c3 ≠ 47
  end.

Lemma window_dotdot cur c1 c2 c3 :
  window_ok cur c1 c2 c3 →
  (c1 =? 47) && (c2 =? 46) && (c3 =? 46) = bool_decide (cur = [46; 46]).
Proof.
  intros Hw. destruct cur as [|x [|y [|z cur]]]; simpl in Hw.
  - subst. rewrite bool_decide_false by done.
    replace (47 =? 46) with false by done. by rewrite !andb_false_r.
  - destruct Hw as (-> & _). rewrite bool_decide_false by done.
    replace (47 =? 46) with false by done. by rewrite andb_false_r.
  - destruct Hw as (-> & -> & -> & _). simpl.
    destruct (Z.eqb_spec x 46), (Z.eqb_spec y 46); subst; cbn [andb]; symmetry;
      first [by apply bool_decide_true | apply bool_decide_false; congruence].
  - destruct Hw as (H & _). rewrite bool_decide_false by done.
    destruct (Z.eqb_spec c1 47); done.
Qed.

Lemma window_step cur c1 c2 c3 c :
  window_ok cur c1 c2 c3 → c ≠ 47 → window_ok (cur ++ [c]) c2 c3 c.
Proof.
  destruct cur as [|x [|y [|z [|u cur]]]]; simpl; intros; destruct_and?; subst; done.
Qed.

Lemma is_path_traversal_loop_spec s cur c1 c2 c3 :
  window_ok cur c1 c2 c3 →
  is_path_traversal_loop s c1 c2 c3 =
    existsb (λ seg, bool_decide (seg = [46; 46])) (split_on_aux 47 cur s).
Proof.
  revert cur c1 c2 c3. induction s as [|c s IH]; intros cur c1 c2 c3 Hw.
  - simpl. rewrite (window_dotdot cur), orb_false_r by done. done.
  - cbn [is_path_traversal_loop split_on_aux]. rewrite (window_dotdot cur) by done.
    destruct (Z.eqb_spec c 47) as [->|Hc].
    + rewrite andb_true_r. simpl. rewrite <- (IH [] c2 c3 47) by done.
      by destruct (bool_decide _).
    + rewrite andb_false_r. apply IH. by apply (window_step cur c1).
Qed.

(** *** The storage guard *)

(** The comparison position of ["../"] after the segment read so far. *)
Definition dots_ok (cur : list Z) (j : nat) : Prop :=
  (j < 3)%nat ∧ (cur = [] → j = 0%nat) ∧ (cur = [46] → j = 1%nat) ∧ (cur = [46; 46] → j = 2%nat).

Lemma tolower_eqb x c : (c = 46 ∨ c = 47) → (tolower x =? tolower c) = (x =? c).
Proof.
  intros Hc. assert (tolower c = c) as -> by (by destruct Hc as [-> | ->]).
  unfold tolower, isupper. destruct ((65 <=? x) && (x <=? 90)) eqn:E; [|done].
  reflect_bools. destruct (Z.eqb_spec (x + 32) c), (Z.eqb_spec x c); try done; lia.
Qed.

Lemma dots_step_dot cur j :
  dots_ok cur j → dots_ok (cur ++ [46]) (match j with 0 => 1 | 1 => 2 | _ => 0 end)%nat.
Proof.
  intros (H & H0 & H1 & H2). split_and!.
  - destruct j as [|[|]]; lia.
  - by destruct cur.
  - destruct cur as [|x [|y cur]]; simpl; intros E; simplify_eq. by rewrite H0.
  - destruct cur as [|x [|y [|z cur]]]; simpl; intros E; simplify_eq. by rewrite H1.
Qed.

Lemma guard_loop s cur j :
  dots_ok cur j → cmpsubstr_lower_loop (bs "../") s j j = false →
  Forall (λ seg, seg ≠ [46; 46]) (removelast (split_on_aux 47 cur s)).
Proof.
  revert cur j. induction s as [|c s IH]; intros cur j Hd; [done|].
  cbn [cmpsubstr_lower_loop split_on_aux]. destruct Hd as (Hj & H0 & H1 & H2).
  change (length (bs "../")) with 3%nat. destruct (Nat.ltb_spec j 3); [|lia].
  assert (∀ t, cmpsubstr_lower_loop (bs "../") s 0 0 = false →
    t ≠ [46; 46] → Forall (λ seg, seg ≠ [46; 46]) (removelast (t :: split_on_aux 47 [] s)))
    as Hcut.
  { intros t Hf Ht. assert (split_on_aux 47 [] s ≠ []) as Hne.
    { generalize (@nil Z). clear. induction s as [|c s IH]; intros cur; simpl; [done|].
      destruct (c =? 47); [done|apply IH]. }
    assert (removelast (t :: split_on_aux 47 [] s) = t :: removelast (split_on_aux 47 [] s))
      as -> by (by destruct (split_on_aux 47 [] s)).
    constructor; [done|]. apply (IH [] 0%nat); [|done]. split_and!; try done; lia. }
  destruct (Z.eqb_spec c 47) as [->|Hc].
  - destruct j as [|[|[|]]]; simpl; intros Hf; try done; [apply Hcut|apply Hcut|lia]; try done;
      intros ->; by specialize (H2 eq_refl).
  - destruct (Z.eqb_spec c 46) as [->|Hc'].
    + pose proof (dots_step_dot cur j ltac:(done)) as Hs. intros Hf. apply (IH _ _ Hs). revert Hf.
      destruct j as [|[|[|]]]; simpl; try done; lia.
    + intros Hf. assert (cmpsubstr_lower_loop (bs "../") s 0 0 = false) as Hf'.
      { assert (∃ d, nth j (bs "../") 0 = d ∧ (d = 46 ∨ d = 47)) as (d & Hnth & Hor).
        { destruct j as [|[|[|]]]; [..|lia]; eexists; split; try done; tauto. }
        rewrite Hnth, (tolower_eqb c d Hor) in Hf.
        destruct (Z.eqb_spec c d); [destruct Hor; congruence|]. done. }
      apply (IH (cur ++ [c]) 0%nat); [|done]. split_and!.
      * lia.
      * by destruct cur.
      * destruct cur as [|x [|]]; simpl; intros E; simplify_eq.
      * destruct cur as [|x [|y [|]]]; simpl; intros E; simplify_eq.
Qed.

(** ** Properties *)

(** [is_path_traversal], which reads its input once through a three-byte window,
    answers 1 for exactly the paths that have a segment equal to [..]: it neither
    misses a parent-directory segment (at the start, inside or at the end of the
    path) nor rejects a name that merely contains dots. *)
Theorem is_path_traversal_exact (path : list Z) :
  is_path_traversal path =
    existsb (λ seg, bool_decide (seg = bs "..")) (split_on chr_SLASH path).
Proof. by apply (is_path_traversal_loop_spec path [] 0 0 47). Qed.

(** URL encoding any byte string stays within the [3 * length] bytes that
    [urlencodel] allocates for it, and [urldecodel] gives the string back. *)
Theorem url_roundtrip (s : list Z) :
  Forall is_byte s →
  ∃ e, urlencodel s = Some e ∧ zlen e <= 3 * zlen s ∧ urldecodel e = s.
Proof. apply urlencodel_ok. Qed.

Lemma url_roundtrip_witness :
  Forall is_byte (bs "a/b c?d=100%") ∧
  ∃ e, urlencodel (bs "a/b c?d=100%") = Some e ∧ zlen e <= 3 * zlen (bs "a/b c?d=100%") ∧
       urldecodel e = bs "a/b c?d=100%".
Proof.
  assert (Forall is_byte (bs "a/b c?d=100%")) as H by (apply bytesb_sound; reflexivity).
  split; [exact H|]. apply (url_roundtrip (bs "a/b c?d=100%")). exact H.
Defined.

(** [bytes_to_hex] into a buffer of at least [2 * length + 1] bytes writes inside
    it and produces a terminated string of lower-case digits that [hex_to_bytes]
    turns back into the same bytes, again inside its own buffer. *)
Theorem hex_roundtrip (raw hexbuf rawbuf : list Z) :
  Forall is_byte raw → 2 * zlen raw < zlen hexbuf → zlen raw <= zlen rawbuf →
  ∃ hex text rawbuf', bytes_to_hex raw hexbuf = Some hex ∧
    take (Z.to_nat (2 * zlen raw + 1)) hex = text ++ [0] ∧
    hex_to_bytes text rawbuf = Some (true, rawbuf') ∧
    take (length raw) rawbuf' = raw.
Proof.
  intros Hb Hh Hr.
  destruct (bytes_to_hex_loop_ok raw hexbuf 0 Hb) as (hex & H1 & _ & H2); [lia|lia|].
  destruct (hex_to_bytes_loop_digits raw rawbuf 0 Hb) as (d & H3 & _ & H4); [lia|lia|].
  exists hex, (hex_digits raw), d. split_and!; [done|done| |].
  - unfold hex_to_bytes. rewrite zlen_hex_digits, Z.mul_comm, Z.mod_mul, Z.div_mul by lia. simpl.
    destruct (Z.ltb_spec (zlen rawbuf) (zlen raw)); [lia|]. done.
  - rewrite Z.add_0_l in H4. unfold zlen in H4. by rewrite Nat2Z.id in H4.
Qed.

Lemma hex_roundtrip_witness :
  ∃ hex text rawbuf', bytes_to_hex [0; 171; 255] (replicate 7 1) = Some hex ∧
    take (Z.to_nat (2 * zlen [0; 171; 255] + 1)) hex = text ++ [0] ∧
    hex_to_bytes text (replicate 3 0) = Some (true, rawbuf') ∧
    take (length [0; 171; 255]) rawbuf' = [0; 171; 255].
Proof.
  apply (hex_roundtrip [0; 171; 255] (replicate 7 1) (replicate 3 0)).
  - apply bytesb_sound. reflexivity.
  - vm_compute. reflexivity.
  - vm_compute. discriminate.
Defined.

(** a relative path the storage accepts ([__prepare_fullpath] of the file-system
    storage) has no [..] segment before its last one: the three substring tests
    stop every path that climbs and then descends again. *)
Theorem storage_guard_inner (root relpath fullpath : list Z) :
  prepare_fullpath root relpath = Some fullpath →
  Forall (λ seg, seg ≠ bs "..") (removelast (split_on chr_SLASH relpath)).
Proof.
  unfold prepare_fullpath. repeat case_if; try done. intros _.
  apply (guard_loop relpath [] 0%nat); [|done]. split_and!; try done. lia.
Qed.

Lemma storage_guard_inner_witness :
  prepare_fullpath (bs "/srv/data") (bs "img/a.png") = Some (bs "/srv/data/img/a.png") ∧
  Forall (λ seg, seg ≠ bs "..") (removelast (split_on chr_SLASH (bs "img/a.png"))).
Proof.
  split; [vm_compute; reflexivity|].
  apply (storage_guard_inner (bs "/srv/data") (bs "img/a.png") (bs "/srv/data/img/a.png")).
  vm_compute. reflexivity.
Defined.

(** the last segment is not guarded. The path [..] passes all three tests, and so
    does [a//..], in which the search for ["/.."] restarts behind the character that
    broke a partial match and so misses an occurrence; the path the storage then
    uses names the parent of its root, respectively the root itself. *)
Theorem storage_guard_hole :
  prepare_fullpath (bs "/srv/data") (bs "..") = Some (bs "/srv/data/..") ∧
  prepare_fullpath (bs "/srv/data") (bs "//..") = Some (bs "/srv/data/..") ∧
  cmpsubstr_lower (bs "//..") (bs "/..") = false ∧ has_substr (bs "//..") (bs "/..").
Proof.
  split_and!; [reflexivity..|]. exists (bs "/"), (bs "/.."), []. done.
Qed.

(** header names are matched without regard to ASCII case, and only whole:
    [cmpstrn_lower] answers 1 exactly when the lower-cased strings are equal, and
    [cmpsubstr_lower] answers 1 only when the lower-cased needle occurs in the text. *)
Theorem header_name_comparison (a b : list Z) :
  (cmpstrn_lower a b = true ↔ tolower <$> a = tolower <$> b) ∧
  (cmpsubstr_lower a b = true → has_substr a b).
Proof. split; [apply cmpstrn_lower_true|apply cmpsubstr_lower_has]. Qed.
