(* ===== verification/WsUtf8.v ===== *)
(** The streaming UTF-8 validator of [protocols/websocket/ws_utf8.h], which the
    WebSocket parser runs over the payload of every TEXT message.

    The specification is RFC 3629 itself: [encode] gives the byte sequence of a
    Unicode scalar value, and a text is valid when it is a concatenation of such
    sequences. *)

From S2P Require Import Prelude.

Record ws_utf8_validator : Set := Validator {
  needed : Z;
  seq_len : Z;
  min_first : Z;
  max_first : Z }.

Definition ws_utf8_validator_reset (v : ws_utf8_validator) : ws_utf8_validator :=
  Validator 0 0 0x80 0xBF.

(** The body of the loop: [None] is [return 0]. *)
Definition feed_byte (v : ws_utf8_validator) (b : Z) : option ws_utf8_validator :=
  if needed v =? 0 then
    if b <=? 0x7F then Some v
    else if (0xC2 <=? b) && (b <=? 0xDF) then Some (Validator 1 1 0x80 0xBF)
    else if b =? 0xE0 then Some (Validator 2 2 0xA0 0xBF)
    else if (0xE1 <=? b) && (b <=? 0xEC) then Some (Validator 2 2 0x80 0xBF)
    else if b =? 0xED then Some (Validator 2 2 0x80 0x9F)
    else if (b =? 0xEE) || (b =? 0xEF) then Some (Validator 2 2 0x80 0xBF)
    else if b =? 0xF0 then Some (Validator 3 3 0x90 0xBF)
    else if (0xF1 <=? b) && (b <=? 0xF3) then Some (Validator 3 3 0x80 0xBF)
    else if b =? 0xF4 then Some (Validator 3 3 0x80 0x8F)
    else None
  else
    let is_first := needed v =? seq_len v in
    let lo := if is_first then min_first v else 0x80 in
    let hi := if is_first then max_first v else 0xBF in
    if (b <? lo) || (hi <? b) then None
    else
      let needed' := needed v - 1 in
      Some (Validator needed' (if needed' =? 0 then 0 else seq_len v) (min_first v) (max_first v)).

(** On a violation the struct is left as the violating byte found it. *)
Fixpoint ws_utf8_validator_feed (v : ws_utf8_validator) (data : list Z)
    : bool * ws_utf8_validator :=
  match data with
  | [] => (true, v)
  | b :: data' =>
      match feed_byte v b with
      | None => (false, v)
      | Some v' => ws_utf8_validator_feed v' data'
      end
  end.

Definition ws_utf8_validator_finish (v : ws_utf8_validator) : bool := needed v =? 0.

(** A whole message, delivered in chunks: feeding stops at the first violation. *)
Fixpoint validate_chunks (v : ws_utf8_validator) (chunks : list (list Z)) : bool :=
  match chunks with
  | [] => ws_utf8_validator_finish v
  | c :: rest =>
      match ws_utf8_validator_feed v c with
      | (true, v') => validate_chunks v' rest
      | (false, _) => false
      end
  end.

(** ** RFC 3629 *)

Definition scalar (cp : Z) : Prop := 0 <= cp < 0xD800 ∨ 0xE000 <= cp <= 0x10FFFF.

Definition encode (cp : Z) : list Z :=
  if cp <? 0x80 then [cp]
  else if cp <? 0x800 then [0xC0 + cp / 64; 0x80 + cp mod 64]
  else if cp <? 0x10000 then
    [0xE0 + cp / 4096; 0x80 + cp / 64 mod 64; 0x80 + cp mod 64]
  else
    [0xF0 + cp / 262144; 0x80 + cp / 4096 mod 64; 0x80 + cp / 64 mod 64; 0x80 + cp mod 64].

Definition valid_utf8 (data : list Z) : Prop :=
  ∃ cps, Forall scalar cps ∧ data = flat_map encode cps.

(** ** Lemmas *)

Lemma feed_app v a b :
  ws_utf8_validator_feed v (a ++ b) =
    match ws_utf8_validator_feed v a with
    | (true, v') => ws_utf8_validator_feed v' b
    | (false, v') => (false, v')
    end.
Proof.
  revert v. induction a as [|x a IH]; intros v; simpl; [done|].
  destruct (feed_byte v x); [apply IH|done].
Qed.

(** Accepting a text from a state: every byte passes and it ends on a boundary. *)
Definition accepts (v : ws_utf8_validator) (data : list Z) : bool :=
  let '(ok, v') := ws_utf8_validator_feed v data in ok && ws_utf8_validator_finish v'.

Lemma validate_chunks_concat v chunks : validate_chunks v chunks = accepts v (concat chunks).
Proof.
  revert v. induction chunks as [|c chunks IH]; intros v; [done|].
  simpl. unfold accepts. rewrite feed_app. destruct (ws_utf8_validator_feed v c) as [[] v'].
  - rewrite IH. done.
  - done.
Qed.

Lemma accepts_cons v b data :
  accepts v (b :: data) =
    match feed_byte v b with Some v' => accepts v' data | None => false end.
Proof. unfold accepts. simpl. by destruct (feed_byte v b). Qed.

Lemma accepts_nil v : accepts v [] = (needed v =? 0).
Proof. done. Qed.

(** Case analysis on one byte of the automaton, in the context or the goal. *)
Ltac feed_cases :=
  repeat match goal with
  | |- context [if ?b then _ else _] => destruct b eqn:?
  | H : context [if ?b then _ else _] |- _ => destruct b eqn:?
  end; reflect_bools.

(** A continuation byte. *)
Lemma feed_cont n s lo hi b :
  0 < n → feed_byte (Validator n s lo hi) b =
    let lo' := if n =? s then lo else 0x80 in
    let hi' := if n =? s then hi else 0xBF in
    if (b <? lo') || (hi' <? b) then None
    else Some (Validator (n - 1) (if n - 1 =? 0 then 0 else s) lo hi).
Proof.
  intros Hn. unfold feed_byte. cbn [needed seq_len min_first max_first].
  destruct (Z.eqb_spec n 0); [lia|]. done.
Qed.

(** The lead bytes, with the continuation bytes each announces. *)
Inductive lead : Z → Z → Z → Z → Prop :=
| lead2 b : 0xC2 <= b <= 0xDF → lead b 1 0x80 0xBF
| leadE0 : lead 0xE0 2 0xA0 0xBF
| lead3 b : 0xE1 <= b <= 0xEC ∨ 0xEE <= b <= 0xEF → lead b 2 0x80 0xBF
| leadED : lead 0xED 2 0x80 0x9F
| leadF0 : lead 0xF0 3 0x90 0xBF
| lead4 b : 0xF1 <= b <= 0xF3 → lead b 3 0x80 0xBF
| leadF4 : lead 0xF4 3 0x80 0x8F.

Lemma feed_lead v b n lo hi :
  needed v = 0 → lead b n lo hi → feed_byte v b = Some (Validator n n lo hi).
Proof.
  intros Hv Hl. unfold feed_byte. rewrite Hv. cbn [Z.eqb].
  destruct Hl; feed_cases; first [done | lia].
Qed.

Lemma feed_start_inv v b v' :
  needed v = 0 → is_byte b → feed_byte v b = Some v' →
  (b <= 0x7F ∧ v' = v) ∨ ∃ n lo hi, lead b n lo hi ∧ v' = Validator n n lo hi.
Proof.
  intros Hv Hb. unfold feed_byte, is_byte in *. rewrite Hv. cbn [Z.eqb]. intros H.
  feed_cases; simplify_eq;
    first [ left; split; [lia|done] | right; eexists _, _, _; split; [|done] ];
    subst; try constructor; lia.
Qed.

#[local] Ltac Zify.zify_post_hook ::= Z.div_mod_to_equations.

(** Reading the continuation bytes of a sequence. *)
Lemma accepts_cont1 lo hi data :
  accepts (Validator 1 1 lo hi) data = true ↔
  ∃ c rest, data = c :: rest ∧ lo <= c <= hi ∧ accepts (Validator 0 0 lo hi) rest = true.
Proof.
  destruct data as [|c rest].
  - rewrite accepts_nil. split; [done|]. by intros (? & ? & ? & _).
  - rewrite accepts_cons, feed_cont by lia. simpl.
    destruct ((c <? lo) || (hi <? c)) eqn:E; reflect_bools.
    + split; [done|]. intros (c' & r' & [= <- <-] & ? & _). lia.
    + split; [intros; exists c, rest; split_and!; done|]. by intros (c' & r' & [= <- <-] & ? & ?).
Qed.

Lemma accepts_cont_later n s lo hi data :
  0 < n < s →
  accepts (Validator n s lo hi) data = true ↔
  ∃ c rest, data = c :: rest ∧ 0x80 <= c <= 0xBF ∧
    accepts (Validator (n - 1) (if n - 1 =? 0 then 0 else s) lo hi) rest = true.
Proof.
  intros Hn. destruct data as [|c rest].
  - rewrite accepts_nil. cbn [needed]. destruct (Z.eqb_spec n 0); [lia|].
    split; [done|]. by intros (? & ? & ? & _).
  - rewrite accepts_cons, feed_cont by lia. cbv zeta. destruct (Z.eqb_spec n s); [lia|].
    destruct ((c <? 0x80) || (0xBF <? c)) eqn:E; reflect_bools.
    + split; [done|]. intros (c' & r' & [= <- <-] & ? & _). lia.
    + split; [intros; exists c, rest; split_and!; done|]. by intros (c' & r' & [= <- <-] & ? & ?).
Qed.

Lemma accepts_cont_first n lo hi data :
  1 < n →
  accepts (Validator n n lo hi) data = true ↔
  ∃ c rest, data = c :: rest ∧ lo <= c <= hi ∧ accepts (Validator (n - 1) n lo hi) rest = true.
Proof.
  intros Hn. destruct data as [|c rest].
  - rewrite accepts_nil. cbn [needed]. destruct (Z.eqb_spec n 0); [lia|].
    split; [done|]. by intros (? & ? & ? & _).
  - rewrite accepts_cons, feed_cont by lia. cbv zeta. rewrite Z.eqb_refl.
    destruct (Z.eqb_spec (n - 1) 0); [lia|].
    destruct ((c <? lo) || (hi <? c)) eqn:E; reflect_bools.
    + split; [done|]. intros (c' & r' & [= <- <-] & ? & _). lia.
    + split; [intros; exists c, rest; split_and!; done|]. by intros (c' & r' & [= <- <-] & ? & ?).
Qed.

(** One whole sequence read from a boundary: exactly the encodings. *)
Lemma sequence_decodes b n lo hi cs :
  lead b n lo hi → zlen cs = n →
  (∀ c, head cs = Some c → lo <= c <= hi) → (∀ c, c ∈ tail cs → 0x80 <= c <= 0xBF) →
  ∃ cp, scalar cp ∧ encode cp = b :: cs.
Proof.
  intros Hl Hn Hh Ht.
  assert (0x80 <= lo ∧ hi <= 0xBF) as Hr by (destruct Hl; lia).
  assert (n = 1 ∨ n = 2 ∨ n = 3) as Hcase by (destruct Hl; lia).
  destruct cs as [|c1 cs]; [rewrite (@zlen_nil Z) in Hn; lia|]. rewrite zlen_cons in Hn.
  specialize (Hh c1 eq_refl).
  destruct cs as [|c2 cs]; [|rewrite zlen_cons in Hn; destruct cs as [|c3 cs]].
  - rewrite (@zlen_nil Z) in Hn. exists ((b - 0xC0) * 64 + (c1 - 0x80)).
    inversion Hl; subst; try lia. unfold scalar, encode. split; [lia|].
    destruct (Z.ltb_spec ((b - 192) * 64 + (c1 - 128)) 128); [lia|].
    destruct (Z.ltb_spec ((b - 192) * 64 + (c1 - 128)) 2048); [|lia]. repeat f_equal; lia.
  - rewrite (@zlen_nil Z) in Hn. assert (c2 ∈ [c2]) as Hin2 by (by apply list_elem_of_singleton).
    specialize (Ht c2 Hin2).
    exists ((b - 0xE0) * 4096 + (c1 - 0x80) * 64 + (c2 - 0x80)).
    assert (2048 <= (b - 224) * 4096 + (c1 - 128) * 64 + (c2 - 128) < 65536 ∧
            scalar ((b - 224) * 4096 + (c1 - 128) * 64 + (c2 - 128))) as [Hrange Hsc]
      by (unfold scalar; inversion Hl; subst; try lia).
    split; [done|]. unfold encode. set (cp := (b - 224) * 4096 + (c1 - 128) * 64 + (c2 - 128)) in *.
    destruct (Z.ltb_spec cp 128); [lia|]. destruct (Z.ltb_spec cp 2048); [lia|].
    destruct (Z.ltb_spec cp 65536); [|lia]. subst cp. repeat f_equal; lia.
  - rewrite zlen_cons in Hn. pose proof (zlen_nonneg cs).
    assert (cs = []) as -> by (apply zlen_0_nil; lia).
    assert (c2 ∈ [c2; c3] ∧ c3 ∈ [c2; c3]) as [Hin2 Hin3] by (clear; set_solver).
    pose proof (Ht c2 Hin2). pose proof (Ht c3 Hin3).
    exists ((b - 0xF0) * 262144 + (c1 - 0x80) * 4096 + (c2 - 0x80) * 64 + (c3 - 0x80)).
    assert (65536 <= (b - 240) * 262144 + (c1 - 128) * 4096 + (c2 - 128) * 64 + (c3 - 128)
            <= 0x10FFFF) as Hrange by (inversion Hl; subst; lia).
    set (cp := (b - 240) * 262144 + (c1 - 128) * 4096 + (c2 - 128) * 64 + (c3 - 128)) in *.
    split; [unfold scalar; lia|]. unfold encode.
    destruct (Z.ltb_spec cp 128); [lia|]. destruct (Z.ltb_spec cp 2048); [lia|].
    destruct (Z.ltb_spec cp 65536); [lia|]. subst cp. repeat f_equal; lia.
Qed.

Lemma accepts_sequence b n lo hi data :
  lead b n lo hi → accepts (Validator n n lo hi) data = true →
  ∃ cs rest v, data = cs ++ rest ∧ zlen cs = n ∧ needed v = 0 ∧ accepts v rest = true ∧
    (∀ c, head cs = Some c → lo <= c <= hi) ∧ (∀ c, c ∈ tail cs → 0x80 <= c <= 0xBF).
Proof.
  intros Hl. assert (n = 1 ∨ n = 2 ∨ n = 3) as [->|[->| ->]] by (destruct Hl; lia).
  - rewrite accepts_cont1. intros (c & rest & -> & Hc & Ha).
    exists [c], rest, (Validator 0 0 lo hi). split_and!; try done; [by intros ? [= <-]|set_solver].
  - rewrite accepts_cont_first by lia. intros (c & rest & -> & Hc & Ha).
    rewrite accepts_cont_later in Ha by lia. destruct Ha as (c2 & rest2 & -> & Hc2 & Ha).
    exists [c; c2], rest2, (Validator 0 0 lo hi). split_and!; try done; [by intros ? [= <-]|].
    intros ? Hin. simpl in Hin. apply list_elem_of_singleton in Hin as ->. done.
  - rewrite accepts_cont_first by lia. intros (c & rest & -> & Hc & Ha).
    rewrite accepts_cont_later in Ha by lia. destruct Ha as (c2 & rest2 & -> & Hc2 & Ha).
    simpl in Ha. rewrite accepts_cont_later in Ha by lia.
    destruct Ha as (c3 & rest3 & -> & Hc3 & Ha).
    exists [c; c2; c3], rest3, (Validator 0 0 lo hi). split_and!; try done; [by intros ? [= <-]|].
    intros ? Hin. simpl in Hin. set_unfold in Hin. naive_solver.
Qed.

Lemma accepts_sound n v data :
  (length data <= n)%nat → Forall is_byte data → needed v = 0 →
  accepts v data = true → valid_utf8 data.
Proof.
  revert v data. induction n as [|n IH]; intros v data Hn Hb Hv Ha.
  - destruct data; [|simpl in Hn; lia]. by exists [].
  - destruct data as [|b data]; [by exists []|]. apply Forall_cons_iff in Hb as [Hb Hbs].
    rewrite accepts_cons in Ha. destruct (feed_byte v b) as [v'|] eqn:Hf; [|done].
    destruct (feed_start_inv v b v' Hv Hb Hf) as [[Hlow ->]|(m & lo & hi & Hl & ->)].
    + destruct (IH v data) as (cps & Hs & ->); try done; [simpl in Hn; lia|].
      exists (b :: cps). unfold is_byte in Hb. split; [constructor; [unfold scalar; lia|done]|].
      simpl. unfold encode. destruct (Z.ltb_spec b 128); [done|lia].
    + destruct (accepts_sequence b m lo hi data Hl Ha)
        as (cs & rest & v' & -> & Hcs & Hv' & Ha' & Hh & Ht).
      destruct (sequence_decodes b m lo hi cs Hl Hcs Hh Ht) as (cp & Hsc & He).
      apply Forall_app in Hbs as [_ Hrest].
      destruct (IH v' rest) as (cps & Hs & ->); try done.
      { simpl in Hn. rewrite length_app in Hn. lia. }
      exists (cp :: cps). split; [by constructor|]. simpl. by rewrite He.
Qed.

Lemma accepts_encode v cp rest :
  scalar cp → needed v = 0 →
  ∃ v', needed v' = 0 ∧ accepts v (encode cp ++ rest) = accepts v' rest.
Proof.
  intros Hs Hv. unfold scalar, encode in *.
  destruct (Z.ltb_spec cp 0x80).
  { exists v. split; [done|]. simpl. rewrite accepts_cons. unfold feed_byte. rewrite Hv. simpl.
    destruct (Z.leb_spec cp 127); [done|lia]. }
  assert (∀ b n lo hi tail, lead b n lo hi → accepts v (b :: tail) = accepts (Validator n n lo hi) tail)
    as Hlead.
  { intros b n lo hi tail Hl. rewrite accepts_cons. by rewrite (feed_lead v b n lo hi). }
  assert (∀ n s lo hi c tail, 0 < n → (n = s → lo <= c <= hi) → (n ≠ s → 0x80 <= c <= 0xBF) →
    accepts (Validator n s lo hi) (c :: tail)
    = accepts (Validator (n - 1) (if n - 1 =? 0 then 0 else s) lo hi) tail) as Hcont.
  { intros n s lo hi c tail Hn H1 H2. rewrite accepts_cons, feed_cont by done. cbv zeta.
    destruct (Z.eqb_spec n s) as [E|E]; [specialize (H1 E)|specialize (H2 E)];
      destruct (_ || _) eqn:Eb; reflect_bools; first [done | lia]. }
  destruct (Z.ltb_spec cp 0x800); [|destruct (Z.ltb_spec cp 0x10000)].
  - exists (Validator 0 0 0x80 0xBF). split; [done|]. cbn [app].
    rewrite (Hlead _ 1 0x80 0xBF) by (constructor; lia). by rewrite Hcont by lia.
  - assert (∃ lo hi, lead (0xE0 + cp / 4096) 2 lo hi ∧ lo <= 0x80 + cp / 64 mod 64 <= hi)
      as (lo & hi & Hl & Hr).
    { assert (cp / 4096 = 0 ∨ cp / 4096 = 13 ∨ (1 <= cp / 4096 <= 12 ∨ 14 <= cp / 4096 <= 15))
        as [E|[E|E]] by lia.
      - rewrite E. eexists _, _. split; [constructor|lia].
      - rewrite E. eexists _, _. split; [apply leadED|lia].
      - eexists _, _. split; [apply lead3|]; lia. }
    exists (Validator 0 0 lo hi). split; [done|]. cbn [app]. rewrite (Hlead _ 2 lo hi) by done.
    rewrite Hcont by lia. simpl. by rewrite Hcont by lia.
  - assert (∃ lo hi, lead (0xF0 + cp / 262144) 3 lo hi ∧ lo <= 0x80 + cp / 4096 mod 64 <= hi)
      as (lo & hi & Hl & Hr).
    { assert (cp / 262144 = 0 ∨ cp / 262144 = 4 ∨ 1 <= cp / 262144 <= 3) as [E|[E|E]] by lia.
      - rewrite E. eexists _, _. split; [constructor|lia].
      - rewrite E. eexists _, _. split; [apply leadF4|lia].
      - eexists _, _. split; [apply lead4|]; lia. }
    exists (Validator 0 0 lo hi). split; [done|]. cbn [app]. rewrite (Hlead _ 3 lo hi) by done.
    rewrite Hcont by lia. simpl. rewrite Hcont by lia. simpl. by rewrite Hcont by lia.
Qed.

Lemma accepts_complete v data : needed v = 0 → valid_utf8 data → accepts v data = true.
Proof.
  intros Hv (cps & Hs & ->). revert v Hv. induction Hs as [|cp cps Hcp _ IH]; intros v Hv.
  - simpl. unfold accepts, ws_utf8_validator_finish. simpl. by rewrite Hv.
  - simpl. destruct (accepts_encode v cp (flat_map encode cps) Hcp Hv) as (v' & Hv' & ->).
    by apply IH.
Qed.

(** ** Properties *)

(** C37: however a TEXT payload is cut into chunks (reads, WebSocket fragments,
    decompressor output), the validator reset at its start and fed the chunks in
    order accepts it exactly when the whole payload is well-formed UTF-8 as RFC 3629
    defines it: a concatenation of encodings of scalar values, with no overlong form,
    no surrogate, nothing above U+10FFFF and no partial sequence at the end. *)
Theorem utf8_validator_exact (v : ws_utf8_validator) (chunks : list (list Z)) :
  Forall is_byte (concat chunks) →
  validate_chunks (ws_utf8_validator_reset v) chunks = true ↔ valid_utf8 (concat chunks).
Proof.
  intros Hb. rewrite validate_chunks_concat. split.
  - by apply (accepts_sound (length (concat chunks))).
  - by apply accepts_complete.
Qed.

Lemma utf8_validator_exact_witness :
  validate_chunks (ws_utf8_validator_reset (Validator 0 0 0 0)) [[0xE2; 0x82]; [0xAC; 0x41]] = true
  ∧ valid_utf8 (concat [[0xE2; 0x82]; [0xAC; 0x41]])
  ∧ ¬ valid_utf8 (concat [[0xED; 0xA0]; [0x80]]).
Proof.
  split; [reflexivity|]. split.
  - apply (utf8_validator_exact (Validator 0 0 0 0) [[0xE2; 0x82]; [0xAC; 0x41]]).
    + apply bytesb_sound. reflexivity.
    + reflexivity.
  - intros H. apply (utf8_validator_exact (Validator 0 0 0 0) [[0xED; 0xA0]; [0x80]]) in H.
    + discriminate H.
    + apply bytesb_sound. reflexivity.
Defined.
