(* ===== verification/Bufo.v ===== *)
(** The output buffer of [misc/bufo.c]: a block with a capacity, a fill size and a
    read/write position. The response filters pass their data through these.

    [size_t] values are integers with the wrap-around written out where an addition
    can reach it; block accesses are checked ([None] is an access outside the
    block). [alloc] and [junk] are the allocator's decisions, as in Bufferdata. *)

From S2P Require Import Prelude.

Record bufo : Set := Bufo {
  buf_data : option (list Z);
  buf_capacity : Z;
  buf_size : Z;
  buf_pos : Z;
  buf_is_proxy : bool;
  buf_is_last : bool }.

Definition BUFO_MAX_CAPACITY : Z := 10 * 1024 * 1024.

Definition bufo_flush (b : bufo) : bufo :=
  Bufo (buf_data b) (buf_capacity b) 0 0 false false.

Definition bufo_init (b : bufo) : bufo :=
  bufo_flush (Bufo None 0 (buf_size b) (buf_pos b) (buf_is_proxy b) (buf_is_last b)).

(** The block is freed unless the buffer is a proxy; either way the struct is reset. *)
Definition bufo_clear (b : bufo) : bufo := bufo_init b.

Definition bufo_chunk_size (b : bufo) (size : Z) : Z :=
  if buf_size b <=? buf_pos b then 0
  else
    let remaining := buf_size b - buf_pos b in
    if size <? remaining then size else remaining.

(** The bytes from [data + pos] on. *)
Definition bufo_data (b : bufo) : option (list Z) :=
  match buf_data b with
  | None => None
  | Some d => Some (drop (Z.to_nat (buf_pos b)) d)
  end.

Definition bufo_size (b : bufo) : Z := buf_size b.

Definition set_pos (b : bufo) (p : Z) : bufo :=
  Bufo (buf_data b) (buf_capacity b) (buf_size b) p (buf_is_proxy b) (buf_is_last b).

Definition bufo_move_front_pos (b : bufo) (size : Z) : Z * bufo :=
  if buf_size b <=? buf_pos b then (0, b)
  else if buf_size b <=? wrap64 (buf_pos b + size) then
    (buf_size b - buf_pos b, set_pos b (buf_size b))
  else (size, set_pos b (wrap64 (buf_pos b + size))).

Definition bufo_set_size (b : bufo) (size : Z) : bufo :=
  let size := if buf_capacity b <? size then buf_capacity b else size in
  Bufo (buf_data b) (buf_capacity b) size (buf_pos b) (buf_is_proxy b) (buf_is_last b).

Definition bufo_reset_pos (b : bufo) : bufo := set_pos b 0.

Definition bufo_reset_size (b : bufo) : bufo :=
  Bufo (buf_data b) (buf_capacity b) 0 (buf_pos b) (buf_is_proxy b) (buf_is_last b).

(** [while (new_capacity < capacity) new_capacity *= 2], [fuel] iterations at most. *)
Fixpoint double_until (fuel : nat) (new_capacity capacity : Z) : option Z :=
  match fuel with
  | O => None
  | S n => if new_capacity <? capacity then double_until n (new_capacity * 2) capacity
           else Some new_capacity
  end.

Section Alloc.
Variable alloc : Z → bool.
Variable junk : Z.

Definition bufo_alloc (b : bufo) (capacity : Z) : bool * bufo :=
  match buf_data b with
  | Some _ => (true, b)
  | None =>
      if BUFO_MAX_CAPACITY <? capacity then (false, b)
      else if alloc capacity then
        (true, Bufo (Some (grow junk [] capacity)) capacity (buf_size b) (buf_pos b)
                 (buf_is_proxy b) (buf_is_last b))
      else (false, b)
  end.

Definition bufo_ensure_capacity (b : bufo) (capacity : Z) : option (bool * bufo) :=
  if buf_is_proxy b then Some (false, b)
  else if capacity <=? buf_capacity b then Some (true, b)
  else if BUFO_MAX_CAPACITY <? capacity then Some (false, b)
  else
    new_capacity ← double_until 64
      (if buf_capacity b =? 0 then 4096 else buf_capacity b) capacity;
    let new_capacity :=
      if BUFO_MAX_CAPACITY <? new_capacity then BUFO_MAX_CAPACITY else new_capacity in
    if alloc new_capacity then
      Some (true, Bufo (Some (grow junk (default [] (buf_data b)) new_capacity)) new_capacity
                    (buf_size b) (buf_pos b) (buf_is_proxy b) (buf_is_last b))
    else Some (false, b).
End Alloc.

Definition bufo_append (b : bufo) (data : list Z) : option (Z * bufo) :=
  let size := zlen data in
  if buf_is_proxy b then Some (0, b)
  else if size =? 0 then Some (0, b)
  else match buf_data b with
  | None => Some (-1, b)
  | Some d =>
      if buf_capacity b <=? buf_pos b then Some (0, b)
      else
        let available := buf_capacity b - buf_pos b in
        if available =? 0 then Some (0, b)
        else
          let to_copy := if size <? available then size else available in
          src ← mem_read data 0 to_copy;
          d' ← mem_write d (buf_pos b) src;
          let pos' := buf_pos b + to_copy in
          Some (to_copy, Bufo (Some d') (buf_capacity b)
                  (if buf_size b <? pos' then pos' else buf_size b) pos'
                  (buf_is_proxy b) (buf_is_last b))
  end.

(** ** Invariant and lemmas *)

Record Inv (b : bufo) : Prop := {
  inv_data : zlen (default [] (buf_data b)) = buf_capacity b;
  inv_size : 0 <= buf_size b <= buf_capacity b;
  inv_pos : 0 <= buf_pos b <= buf_capacity b;
  inv_width : buf_capacity b <= SIZE_MAX;
  inv_own : buf_is_proxy b = false }.

(** The bytes written so far. *)
Definition written (b : bufo) : list Z := take (Z.to_nat (buf_pos b)) (default [] (buf_data b)).

(** The bytes a reader has yet to consume. *)
Definition unread (b : bufo) : list Z :=
  take (Z.to_nat (buf_size b - buf_pos b))
    (drop (Z.to_nat (buf_pos b)) (default [] (buf_data b))).

Lemma bufo_append_ok b data :
  Inv b → 0 < zlen data → buf_data b ≠ None →
  ∃ n b', bufo_append b data = Some (n, b') ∧ Inv b' ∧
    n = Z.min (zlen data) (buf_capacity b - buf_pos b) ∧
    buf_pos b' = buf_pos b + n ∧ buf_capacity b' = buf_capacity b ∧
    buf_size b' = (if n =? 0 then buf_size b else Z.max (buf_size b) (buf_pos b')) ∧
    written b' = written b ++ take (Z.to_nat n) data ∧
    buf_data b' ≠ None ∧ buf_is_last b' = buf_is_last b.
Proof.
  intros [Hd Hs Hp Hw Ho] Hl Hnn. unfold bufo_append, written. rewrite Ho.
  destruct (Z.eqb_spec (zlen data) 0) as [|_]; [lia|].
  destruct (buf_data b) as [d|] eqn:Ed; [|done]. simpl in Hd.
  destruct (Z.leb_spec (buf_capacity b) (buf_pos b)).
  - exists 0, b. split; [done|]. split; [constructor; rewrite ?Ed; done|].
    rewrite Ed, take_0, app_nil_r. split_and!; try done; lia.
  - destruct (Z.eqb_spec (buf_capacity b - buf_pos b) 0) as [|_]; [lia|].
    set (n := if zlen data <? buf_capacity b - buf_pos b then zlen data
              else buf_capacity b - buf_pos b).
    assert (n = Z.min (zlen data) (buf_capacity b - buf_pos b)) as Hn.
    { subst n. destruct (Z.ltb_spec (zlen data) (buf_capacity b - buf_pos b)); lia. }
    rewrite mem_read_Some by lia. simpl. rewrite drop_0.
    assert (zlen (take (Z.to_nat n) data) = n) as Hzn by (rewrite zlen_take; lia).
    rewrite mem_write_Some by lia. simpl. eexists _, _. split; [done|].
    assert (∀ m, zlen (take (Z.to_nat (buf_pos b)) d ++ take (Z.to_nat n) data
                       ++ drop m d) = buf_pos b + n + zlen (drop m d)) as Hlen.
    { intros m. rewrite !zlen_app, Hzn, zlen_take. lia. }
    split.
    { constructor; simpl; try done; try lia.
      - rewrite Hlen. unfold zlen at 1. rewrite length_drop. unfold zlen in *. lia.
      - destruct (Z.ltb_spec (buf_size b) (buf_pos b + n)); lia. }
    simpl. split_and!; try done.
    + destruct (Z.eqb_spec n 0); [lia|].
      destruct (Z.ltb_spec (buf_size b) (buf_pos b + n)); lia.
    + rewrite app_assoc. apply take_app_length'.
      rewrite length_app, length_take. unfold zlen in *. lia.
Qed.

Lemma bufo_move_front_ok b n r b' :
  Inv b → 0 <= n → buf_pos b + n <= SIZE_MAX →
  bufo_move_front_pos b n = (r, b') →
  Inv b' ∧ r = zlen (take (Z.to_nat n) (unread b)) ∧
  unread b = take (Z.to_nat r) (unread b) ++ unread b' ∧
  buf_size b' = buf_size b ∧ buf_data b' = buf_data b ∧ buf_is_last b' = buf_is_last b ∧
  buf_capacity b' = buf_capacity b.
Proof.
  intros [Hd Hs Hp Hw Ho] Hn Hov. unfold bufo_move_front_pos, wrap64, SIZE_MAX in *.
  assert (zlen (unread b) = Z.max 0 (buf_size b - buf_pos b)) as Hu.
  { unfold unread. rewrite zlen_take, zlen_drop. lia. }
  rewrite Z.mod_small by lia.
  destruct (Z.leb_spec (buf_size b) (buf_pos b)).
  - intros [= <- <-]. split; [done|]. rewrite zlen_take, Hu.
    assert (unread b = []) as -> by (apply zlen_0_nil; lia). split_and!; try done. lia.
  - destruct (Z.leb_spec (buf_size b) (buf_pos b + n)); intros [= <- <-];
      (split; [constructor; simpl; try done; lia|]); rewrite zlen_take, Hu;
      (split; [lia|]); (split; [|done]); unfold unread; simpl.
    + rewrite Z.sub_diag, take_0, app_nil_r, take_take. f_equal. lia.
    + rewrite take_take.
      replace (Z.to_nat (buf_pos b + n)) with (Z.to_nat (buf_pos b) + Z.to_nat n)%nat by lia.
      rewrite <- drop_drop. generalize (drop (Z.to_nat (buf_pos b)) (default [] (buf_data b))).
      intros X. rewrite <- (take_drop (Z.to_nat n) (take (Z.to_nat (buf_size b - buf_pos b)) X)) at 1.
      rewrite take_take, skipn_firstn_comm. f_equal; f_equal; lia.
Qed.

Lemma double_until_ok fuel nc cap :
  0 < nc → cap <= nc * 2 ^ (Z.of_nat fuel - 1) → (0 < fuel)%nat →
  ∃ r, double_until fuel nc cap = Some r ∧ cap <= r ∧ nc <= r ∧ (r = nc ∨ r < 2 * cap).
Proof.
  revert nc. induction fuel as [|fuel IH]; intros nc Hnc Hcap Hf; [lia|].
  cbn [double_until]. destruct (Z.ltb_spec nc cap); [|exists nc; split_and!; try done; lia].
  destruct fuel as [|fuel].
  - change (Z.of_nat 1 - 1) with 0 in Hcap. lia.
  - destruct (IH (nc * 2)) as (r & Hr & H1 & H2 & H3); [lia| |lia|].
    + replace (Z.of_nat (S (S fuel)) - 1) with (1 + (Z.of_nat (S fuel) - 1)) in Hcap by lia.
      rewrite Z.pow_add_r in Hcap by lia. lia.
    + exists r. split_and!; try done; lia.
Qed.

Lemma bufo_ensure_capacity_ok alloc junk b capacity :
  Inv b → 0 <= capacity →
  ∃ r b', bufo_ensure_capacity alloc junk b capacity = Some (r, b') ∧ Inv b' ∧
    (r = true → capacity <= buf_capacity b') ∧
    written b' = written b ∧ unread b' = unread b ∧
    (r = true → buf_capacity b' ≠ buf_capacity b → buf_capacity b' <= BUFO_MAX_CAPACITY) ∧
    ((∀ n, alloc n = true) → capacity <= BUFO_MAX_CAPACITY → r = true).
Proof.
  intros Hi Hc. pose proof Hi as [Hd Hs Hp Hw Ho].
  unfold bufo_ensure_capacity, BUFO_MAX_CAPACITY, SIZE_MAX in *. rewrite Ho.
  destruct (Z.leb_spec capacity (buf_capacity b)); [eexists _, _; split; done|].
  destruct (Z.ltb_spec (10 * 1024 * 1024) capacity).
  { eexists _, _. split; [done|]. split_and!; try done. intros _. lia. }
  destruct (double_until_ok 64 (if buf_capacity b =? 0 then 4096 else buf_capacity b) capacity)
    as (nc & -> & H1 & H2 & _).
  { destruct (Z.eqb_spec (buf_capacity b) 0); lia. }
  { change (Z.of_nat 64 - 1) with 63. destruct (Z.eqb_spec (buf_capacity b) 0); lia. }
  { lia. }
  simpl. set (n := if 10 * 1024 * 1024 <? nc then 10 * 1024 * 1024 else nc).
  assert (capacity <= n <= 10 * 1024 * 1024) as Hn.
  { subst n. destruct (Z.ltb_spec (10 * 1024 * 1024) nc); lia. }
  clearbody n. destruct (alloc n) eqn:Ha.
  - eexists _, _. split; [done|]. unfold written, unread. simpl. split; [|split_and!].
    + constructor; simpl; [by rewrite zlen_grow by lia|lia|lia|unfold SIZE_MAX; lia|done].
    + intros _. lia.
    + apply take_grow; lia.
    + unfold grow. rewrite (take_ge (default [] (buf_data b))) by (unfold zlen in *; lia).
      rewrite drop_app_le by (unfold zlen in *; lia).
      destruct (Z.le_gt_cases (buf_size b) (buf_pos b)).
      * replace (Z.to_nat (buf_size b - buf_pos b)) with 0%nat by lia. by rewrite !take_0.
      * apply take_app_le. rewrite length_drop. unfold zlen in *. lia.
    + intros _ _. lia.
    + done.
  - eexists _, _. split; [done|]. split_and!; try done. intros Hall. by rewrite Hall in Ha.
Qed.

(** What a consumer of a buffer needs: the fill size lies inside the block and the
    position inside the fill size. A proxy over somebody else's block qualifies. *)
Record Readable (b : bufo) : Prop := {
  rd_pos : 0 <= buf_pos b <= buf_size b;
  rd_size : buf_size b <= zlen (default [] (buf_data b));
  rd_width : buf_size b + zlen (default [] (buf_data b)) <= SIZE_MAX }.

(** [b'] is [b] with only the position moved. *)
Definition same_block (b b' : bufo) : Prop :=
  buf_data b' = buf_data b ∧ buf_capacity b' = buf_capacity b ∧ buf_size b' = buf_size b ∧
  buf_is_proxy b' = buf_is_proxy b ∧ buf_is_last b' = buf_is_last b.

Lemma same_block_refl b : same_block b b.
Proof. by split_and!. Qed.

Lemma same_block_trans a b c : same_block a b → same_block b c → same_block a c.
Proof. intros (?&?&?&?&?) (?&?&?&?&?). split_and!; congruence. Qed.

#[export] Hint Resolve same_block_refl same_block_trans : cwf.

Lemma zlen_unread b : Readable b → zlen (unread b) = buf_size b - buf_pos b.
Proof. intros [? ? ?]. unfold unread. rewrite zlen_take, zlen_drop. lia. Qed.

Lemma bufo_data_read b n :
  Readable b → 0 <= n <= zlen (unread b) → buf_data b ≠ None →
  ∃ d, bufo_data b = Some d ∧ mem_read d 0 n = Some (take (Z.to_nat n) (unread b)).
Proof.
  intros Hr Hn Hd. pose proof (zlen_unread b Hr) as Hu. destruct Hr as [? Hs ?].
  unfold bufo_data, unread in *. destruct (buf_data b) as [d|]; [|done]. simpl in *.
  eexists. split; [done|]. rewrite mem_read_Some by (rewrite ?zlen_drop; lia).
  rewrite drop_0, take_take. do 2 f_equal. lia.
Qed.

Lemma bufo_move_front_readable b n :
  Readable b → 0 <= n <= zlen (unread b) →
  ∃ b', bufo_move_front_pos b n = (n, b') ∧ Readable b' ∧ same_block b b' ∧
    buf_pos b' = buf_pos b + n ∧ unread b' = drop (Z.to_nat n) (unread b).
Proof.
  intros Hr Hn. rewrite (zlen_unread b Hr) in Hn. pose proof Hr as [Hp Hs Hw].
  unfold bufo_move_front_pos, wrap64, SIZE_MAX in *. rewrite Z.mod_small by lia.
  assert (∀ m, 0 <= m → unread (set_pos b (buf_pos b + m)) = drop (Z.to_nat m) (unread b)) as Hdrop.
  { intros m ?. unfold unread. simpl. rewrite skipn_firstn_comm, drop_drop. f_equal; [lia|].
    f_equal. lia. }
  assert (∀ q, buf_pos b <= q <= buf_size b → Readable (set_pos b q)) as Hrd
    by (intros q ?; constructor; simpl; unfold SIZE_MAX; lia).
  destruct (Z.leb_spec (buf_size b) (buf_pos b)).
  - assert (n = 0) as -> by lia. exists b. rewrite drop_0. split_and!; auto with cwf; lia.
  - destruct (Z.leb_spec (buf_size b) (buf_pos b + n)).
    + assert (n = buf_size b - buf_pos b) as Hn' by lia. eexists. rewrite <- Hn'.
      split; [done|]. split_and!; try done; try (apply Hrd; lia); simpl; try lia.
      rewrite <- Hdrop by lia. do 2 f_equal. lia.
    + eexists. split; [done|]. split_and!; try done; try (apply Hrd; lia); simpl; try lia.
      apply Hdrop. lia.
Qed.

(** ** Properties *)

(** [bufo_append] is a bounded append at the position: it never writes outside
    the block, takes as many of the offered bytes as fit (and reports that number),
    leaves everything written before intact and keeps the size at the high-water
    mark. *)
Theorem bufo_append_bounded (b : bufo) (data : list Z) :
  Inv b → 0 < zlen data → buf_data b ≠ None →
  ∃ n b', bufo_append b data = Some (n, b') ∧ Inv b' ∧
    n = Z.min (zlen data) (buf_capacity b - buf_pos b) ∧
    written b' = written b ++ take (Z.to_nat n) data ∧
    buf_size b' = (if n =? 0 then buf_size b else Z.max (buf_size b) (buf_pos b')).
Proof.
  intros Hi Hl Hn. destruct (bufo_append_ok b data Hi Hl Hn) as (n & b' & ? & ? & ? & ? & ? & ? & ? & ?).
  exists n, b'. done.
Qed.

Definition four_byte_bufo : bufo := Bufo (Some [1; 2; 0; 0]) 4 2 2 false false.

Lemma bufo_append_bounded_witness :
  ∃ n b', bufo_append four_byte_bufo [7; 8; 9] = Some (n, b') ∧ Inv b' ∧
    n = Z.min 3 2 ∧ written b' = [1; 2; 7; 8] ∧
    buf_size b' = (if n =? 0 then 2 else Z.max 2 (buf_pos b')).
Proof.
  destruct (bufo_append_bounded four_byte_bufo [7; 8; 9]) as (n & b' & H1 & H2 & H3 & H4 & H5).
  - constructor; vm_compute; first [reflexivity | split; discriminate | discriminate].
  - vm_compute. reflexivity.
  - discriminate.
  - exists n, b'. rewrite H3 in H4. split; [exact H1|]. split; [exact H2|].
    split; [exact H3|]. split; [exact H4|exact H5].
Defined.

(** a reader that asks [bufo_chunk_size] for at most [limit] bytes and advances
    with [bufo_move_front_pos] consumes exactly the next bytes: what it took followed
    by what is still unread is what was unread before, and the position stays inside
    the buffer. *)
Theorem bufo_read_step (b : bufo) (limit r : Z) (b' : bufo) :
  Inv b → 0 <= limit →
  bufo_move_front_pos b (bufo_chunk_size b limit) = (r, b') →
  Inv b' ∧ r = bufo_chunk_size b limit ∧ r <= limit ∧
  unread b = take (Z.to_nat r) (unread b) ++ unread b'.
Proof.
  intros Hi Hl Hm. pose proof Hi as [Hd Hs Hp Hw Ho].
  assert (0 <= bufo_chunk_size b limit <= Z.min limit (Z.max 0 (buf_size b - buf_pos b))) as Hc.
  { unfold bufo_chunk_size. destruct (Z.leb_spec (buf_size b) (buf_pos b)); [lia|].
    destruct (Z.ltb_spec limit (buf_size b - buf_pos b)); lia. }
  destruct (bufo_move_front_ok b (bufo_chunk_size b limit) r b' Hi) as (H1 & H2 & H3 & _);
    [lia|lia|done|].
  assert (zlen (unread b) = Z.max 0 (buf_size b - buf_pos b)) as Hu.
  { unfold unread. rewrite zlen_take, zlen_drop. lia. }
  rewrite zlen_take, Hu in H2. split_and!; try done; lia.
Qed.

Lemma bufo_read_step_witness :
  Inv (Bufo (Some [1; 2; 3; 4]) 4 4 1 false true) ∧
  bufo_chunk_size (Bufo (Some [1; 2; 3; 4]) 4 4 1 false true) 2 = 2 ∧
  [2; 3; 4] = take (Z.to_nat 2) [2; 3; 4] ++ unread (Bufo (Some [1; 2; 3; 4]) 4 4 3 false true).
Proof.
  destruct (bufo_read_step (Bufo (Some [1; 2; 3; 4]) 4 4 1 false true) 2 2
              (Bufo (Some [1; 2; 3; 4]) 4 4 3 false true)) as (_ & H2 & _ & H4).
  - constructor; vm_compute; first [reflexivity | split; discriminate | discriminate].
  - lia.
  - reflexivity.
  - split; [|split; [symmetry; exact H2|exact H4]].
    constructor; vm_compute; first [reflexivity | split; discriminate | discriminate].
Defined.

(** [bufo_ensure_capacity] terminates with the requested room or refuses: a
    request of at most 10 MB succeeds when the allocator does, a successful call
    leaves at least the requested capacity (never growing past 10 MB), and written
    and unread bytes survive the reallocation. *)
Theorem bufo_ensure_capacity_total (alloc : Z → bool) (junk : Z) (b : bufo) (capacity : Z) :
  Inv b → 0 <= capacity →
  ∃ r b', bufo_ensure_capacity alloc junk b capacity = Some (r, b') ∧ Inv b' ∧
    (r = true → capacity <= buf_capacity b') ∧
    written b' = written b ∧ unread b' = unread b ∧
    (r = true → buf_capacity b' ≠ buf_capacity b → buf_capacity b' <= BUFO_MAX_CAPACITY) ∧
    ((∀ n, alloc n = true) → capacity <= BUFO_MAX_CAPACITY → r = true).
Proof. apply bufo_ensure_capacity_ok. Qed.

Lemma bufo_ensure_capacity_total_witness :
  ∃ r b', bufo_ensure_capacity (λ _, true) 0 four_byte_bufo 5 = Some (r, b') ∧ Inv b' ∧
    (r = true → 5 <= buf_capacity b') ∧ written b' = [1; 2] ∧ unread b' = [] ∧
    (r = true → buf_capacity b' ≠ 4 → buf_capacity b' <= BUFO_MAX_CAPACITY) ∧
    ((∀ n : Z, true = true) → 5 <= BUFO_MAX_CAPACITY → r = true).
Proof.
  apply (bufo_ensure_capacity_total (λ _, true) 0 four_byte_bufo 5); [|lia].
  constructor; vm_compute; first [reflexivity | split; discriminate | discriminate].
Defined.

(** [bufo_move_front_pos] adds before it compares: an offer above
    [SIZE_MAX - pos] wraps and moves the position backwards. *)
Example bufo_move_front_wraps :
  bufo_move_front_pos (Bufo (Some [1; 2; 3; 4]) 4 4 2 false true) SIZE_MAX =
    (SIZE_MAX, Bufo (Some [1; 2; 3; 4]) 4 4 1 false true).
Proof. reflexivity. Qed.
