(* ===== verification/Str.v ===== *)
(** The growable string [str_t] of [misc/str.c]: bytes live in a 32-byte buffer
    inside the struct until they no longer fit, then in one heap block.

    The model keeps both buffers, checks every access and lets allocations fail.
    [contents] is the byte sequence the struct stands for; each operation is
    shown to be the list operation on it. *)

From S2P Require Import Prelude.

Definition STR_SSO_SIZE : Z := 32.
Definition MIN_STR_GROWTH : Z := 32.

Record str : Set := Str {
  sso_buffer : list Z;
  dynamic_buffer : option (list Z);
  size : Z;
  capacity : Z;
  is_dynamic : bool;
  init_capacity : Z }.

(** Conversion of a [size_t] argument to [int]. *)
Definition to_int (z : Z) : Z :=
  let w := z mod 2 ^ 32 in if w <? 2 ^ 31 then w else w - 2 ^ 32.

Section Operations.
(** [alloc n]: does an allocation of [n] bytes succeed; [junk]: the value of an
    uninitialised byte. *)
Variable alloc : Z → bool.
Variable junk : Z.

Definition str_init (s : str) (init : Z) : option str :=
  b ← mem_set (sso_buffer s) 0 0;
  Some (Str b None 0 0 false (if init <? 16384 then init else 16384)).

(** [explicit_bzero] on the inline buffer. *)
Definition zero_sso : list Z := replicate (Z.to_nat STR_SSO_SIZE) 0.

Definition str_reset (s : str) : str :=
  Str zero_sso (if is_dynamic s then None else dynamic_buffer s) 0 0 false (init_capacity s).

Definition str_clear (s : str) : option str :=
  str_init (Str zero_sso (dynamic_buffer s) (size s) (capacity s) (is_dynamic s) (init_capacity s))
    (init_capacity s).

Definition str_size (s : str) : Z := size s.

Definition str_get_buffer (s : str) : option (list Z) :=
  if is_dynamic s then dynamic_buffer s else Some (sso_buffer s).

Definition str_get_capacity (s : str) : Z :=
  if is_dynamic s then capacity s else STR_SSO_SIZE.

(** The struct after writing to the buffer [str_get_buffer] points to, and the
    new size. *)
Definition put_buffer (s : str) (b : list Z) (n : Z) : str :=
  if is_dynamic s
  then Str (sso_buffer s) (Some b) n (capacity s) (is_dynamic s) (init_capacity s)
  else Str b (dynamic_buffer s) n (capacity s) (is_dynamic s) (init_capacity s).

Definition str_switch_to_dynamic (s : str) (required_size : Z) : option (bool * str) :=
  let t0 := if 0 <? init_capacity s then init_capacity s else 64 in
  let target_size := if t0 <? required_size then required_size else t0 in
  if alloc target_size then
    let nb := grow junk [] target_size in
    nb1 ← (if 0 <? size s then src ← mem_read (sso_buffer s) 0 (size s); mem_write nb 0 src
           else Some nb);
    nb2 ← mem_set nb1 (size s) 0;
    Some (true, Str (sso_buffer s) (Some nb2) (size s) target_size true (init_capacity s))
  else Some (false, s).

Definition str_expand_buffer (s : str) (extra_size : Z) : option (bool * str) :=
  let required_size := wrap64 (size s + extra_size + 1) in
  if negb (is_dynamic s) then str_switch_to_dynamic s required_size
  else
    let target :=
      if SIZE_MAX / 2 <? capacity s then
        if SIZE_MAX - 1024 <? required_size then None else Some required_size
      else Some (wrap64 (capacity s * 2)) in
    match target with
    | None => Some (false, s)
    | Some t0 =>
        let t1 := if t0 <? wrap64 (capacity s + MIN_STR_GROWTH)
                  then wrap64 (capacity s + MIN_STR_GROWTH) else t0 in
        let t2 := if t1 <? required_size then required_size else t1 in
        if alloc t2 then
          Some (true, Str (sso_buffer s) (Some (grow junk (default [] (dynamic_buffer s)) t2))
                        (size s) t2 true (init_capacity s))
        else Some (false, s)
    end.

Definition str_reserve (s : str) (cap : Z) : option (bool * str) :=
  if cap <=? STR_SSO_SIZE then Some (true, s)
  else if is_dynamic s && (cap <=? capacity s) then Some (true, s)
  else if negb (is_dynamic s) then
    if alloc cap then
      let data := grow junk [] cap in
      d1 ← (if 0 <? size s then src ← mem_read (sso_buffer s) 0 (size s); mem_write data 0 src
            else Some data);
      d2 ← mem_set d1 (size s) 0;
      Some (true, Str zero_sso (Some d2) (size s) cap true (init_capacity s))
    else Some (false, s)
  else if alloc cap then
    Some (true, Str (sso_buffer s) (Some (grow junk (default [] (dynamic_buffer s)) cap))
                  (size s) cap true (init_capacity s))
  else Some (false, s).

Definition str_insertc (s : str) (ch pos : Z) : option (bool * str) :=
  if size s <? pos then Some (false, s)
  else if negb (is_dynamic s) && (pos =? size s) && (size s <? STR_SSO_SIZE - 1) then
    b1 ← mem_set (sso_buffer s) (size s) ch;
    b2 ← mem_set b1 (size s + 1) 0;
    Some (true, put_buffer s b2 (size s + 1))
  else
    '(ok, s1) ← (if str_get_capacity s <=? wrap64 (size s + 1)
                 then str_expand_buffer s 1 else Some (true, s));
    if (ok : bool) then
      buffer ← str_get_buffer s1;
      tail ← mem_read buffer pos (size s1 - pos);
      b1 ← mem_write buffer (pos + 1) tail;
      b2 ← mem_set b1 pos ch;
      b3 ← mem_set b2 (size s1 + 1) 0;
      Some (true, put_buffer s1 b3 (size s1 + 1))
    else Some (false, s1).

Definition str_prependc (s : str) (ch : Z) : option (bool * str) := str_insertc s ch 0.
Definition str_appendc (s : str) (ch : Z) : option (bool * str) := str_insertc s ch (size s).

Definition str_insert (s : str) (string : list Z) (pos : Z) : option (bool * str) :=
  let n := zlen string in
  if size s <? pos then Some (false, s)
  else if negb (is_dynamic s) && (pos =? size s) && (wrap64 (size s + n) <? STR_SSO_SIZE) then
    b1 ← mem_write (sso_buffer s) (size s) string;
    b2 ← mem_set b1 (size s + n) 0;
    Some (true, put_buffer s b2 (size s + n))
  else
    '(ok, s1) ← (if str_get_capacity s <=? wrap64 (size s + n + 1)
                 then str_expand_buffer s n else Some (true, s));
    if (ok : bool) then
      buffer ← str_get_buffer s1;
      tail ← mem_read buffer pos (size s1 - pos);
      b1 ← mem_write buffer (pos + n) tail;
      b2 ← mem_write b1 pos string;
      b3 ← mem_set b2 (size s1 + n) 0;
      Some (true, put_buffer s1 b3 (size s1 + n))
    else Some (false, s1).

Definition str_prepend (s : str) (string : list Z) : option (bool * str) := str_insert s string 0.
Definition str_append (s : str) (string : list Z) : option (bool * str) :=
  str_insert s string (size s).

Definition set_size (s : str) (n : Z) : str :=
  Str (sso_buffer s) (dynamic_buffer s) n (capacity s) (is_dynamic s) (init_capacity s).

Definition str_assign (s : str) (string : list Z) : option (bool * str) :=
  str_insert (set_size s 0) string 0.

(** The struct [malloc] hands out: nothing in it is initialised. *)
Definition SIZEOF_STR : Z := 64.
Definition raw_str : str :=
  Str (replicate (Z.to_nat STR_SSO_SIZE) junk) None junk junk true junk.

(** The outer [option] is memory safety, the inner one NULL. *)
Definition str_create_empty (init : Z) : option (option str) :=
  if alloc SIZEOF_STR then
    s ← str_init raw_str init;
    Some (Some (str_reset s))
  else Some None.

Definition str_createn (string : option (list Z)) (n : Z) : option (option str) :=
  d ← str_create_empty (to_int n);
  match d with
  | None => Some None
  | Some data =>
      match string with
      | None => Some (Some data)
      | Some b =>
          '(ok, s) ← str_assign data b;
          Some (if (ok : bool) then Some s else None)
      end
  end.

(** [string] is the C string's bytes before its terminator. *)
Definition str_create (string : option (list Z)) : option (option str) :=
  match string with
  | None => str_create_empty 0
  | Some b => str_createn (Some b) (zlen b)
  end.

(** [str_appendf]: [formatted] is what [vsnprintf] produces. *)
Definition str_appendf (s : str) (formatted : list Z) : option (bool * str) :=
  if alloc (zlen formatted + 1) then str_append s formatted else Some (false, s).

Definition str_createf (formatted : list Z) : option (option str) :=
  if alloc (zlen formatted + 1) then str_createn (Some formatted) (zlen formatted) else Some None.

Definition str_move (src dst : str) : option (bool * str * str) :=
  dst' ← (if is_dynamic src then
            Some (Str (sso_buffer dst) (dynamic_buffer src) (size src) (capacity src) true
                    (init_capacity src))
          else
            bytes ← mem_read (sso_buffer src) 0 (size src + 1);
            b ← mem_write (sso_buffer dst) 0 bytes;
            Some (Str b None (size src) 0 false (init_capacity src)));
  src' ← str_init src (init_capacity src);
  Some (true, src', dst').

(** The block [str_get] points into; the empty string is the literal "". *)
Definition str_get (s : str) : option (list Z) :=
  if size s =? 0 then Some [0] else str_get_buffer s.

Definition str_pop (s : str) : option (bool * str) :=
  if size s =? 0 then Some (false, s)
  else
    buffer ← str_get_buffer s;
    b ← mem_set buffer (size s - 1) 0;
    Some (true, put_buffer s b (size s - 1)).

Definition str_last (s : str) : option Z :=
  if size s =? 0 then Some 0
  else buffer ← str_get_buffer s; mem_get buffer (size s - 1).

(** [str_copy]: the copy's bytes with the terminator, or NULL. *)
Definition str_copy (s : str) : option (option (list Z)) :=
  string ← str_get s;
  if alloc (str_size s + 1) then
    src ← mem_read string 0 (str_size s);
    d1 ← mem_write (grow junk [] (str_size s + 1)) 0 src;
    d2 ← mem_set d1 (str_size s) 0;
    Some (Some d2)
  else Some None.

(** [strcmp] on two blocks: bytes compared as [unsigned char] up to the first
    difference or terminator; [None] when a block ends before that. *)
Fixpoint strcmp (a b : list Z) : option Z :=
  match a, b with
  | x :: a', y :: b' =>
      if negb (x =? y) then Some (x - y) else if x =? 0 then Some 0 else strcmp a' b'
  | _, _ => None
  end.

Definition str_cmpc (s : str) (dststr : list Z) : option Z :=
  src ← str_get s; strcmp src dststr.

Definition str_cmp (s d : str) : option Z := dst ← str_get d; str_cmpc s dst.
End Operations.

(** ** Abstraction and invariant *)

Definition contents (s : str) : list Z :=
  take (Z.to_nat (size s)) (default [] (str_get_buffer s)).

(** Objects are smaller than [PTRDIFF_MAX], so the sizes below never wrap. *)
Definition PTRDIFF_MAX : Z := 2 ^ 63 - 1.

Record Inv (s : str) : Prop := {
  inv_sso : zlen (sso_buffer s) = STR_SSO_SIZE;
  inv_size : 0 <= size s;
  inv_init : init_capacity s <= 16384;
  inv_block : if is_dynamic s
              then ∃ d, dynamic_buffer s = Some d ∧ zlen d = capacity s ∧
                        size s < capacity s <= PTRDIFF_MAX
              else size s < STR_SSO_SIZE;
  inv_term : 0 < size s → mem_get (default [] (str_get_buffer s)) (size s) = Some 0 }.

(** What the list operation of [str_insert] is. *)
Definition insert_at (l : list Z) (pos : Z) (x : list Z) : list Z :=
  take (Z.to_nat pos) l ++ x ++ drop (Z.to_nat pos) l.

Lemma inv_buffer s :
  Inv s → ∃ b, str_get_buffer s = Some b ∧ zlen b = str_get_capacity s ∧
               0 <= size s < zlen b ∧ zlen b <= PTRDIFF_MAX.
Proof.
  intros [Hs Hz _ Hb _]. unfold str_get_buffer, str_get_capacity, STR_SSO_SIZE, PTRDIFF_MAX in *.
  destruct (is_dynamic s).
  - destruct Hb as (d & -> & Hl & ?). exists d. split_and!; [done|lia..].
  - eexists. split_and!; [done|lia..].
Qed.

Lemma zlen_contents s : Inv s → zlen (contents s) = size s.
Proof.
  intros Hi. destruct (inv_buffer s Hi) as (b & Hb & _ & ? & _).
  unfold contents. rewrite Hb. simpl. rewrite zlen_take. lia.
Qed.

(** Shifting the tail by [n] and writing [x] into the gap is list insertion. *)
Lemma shift_insert b n0 pos x :
  0 <= pos <= n0 → n0 + zlen x < zlen b →
  ∃ tail b1 b2 b3,
    mem_read b pos (n0 - pos) = Some tail ∧ mem_write b (pos + zlen x) tail = Some b1 ∧
    mem_write b1 pos x = Some b2 ∧ mem_set b2 (n0 + zlen x) 0 = Some b3 ∧
    zlen b3 = zlen b ∧
    take (Z.to_nat (n0 + zlen x)) b3 = insert_at (take (Z.to_nat n0) b) pos x ∧
    mem_get b3 (n0 + zlen x) = Some 0.
Proof.
  intros Hp Hn. pose proof (zlen_nonneg x).
  rewrite mem_read_Some by lia.
  set (tail := take (Z.to_nat (n0 - pos)) (drop (Z.to_nat pos) b)).
  assert (zlen tail = n0 - pos) as Ht by (subst tail; rewrite zlen_take, zlen_drop; lia).
  exists tail. rewrite mem_write_Some by lia. eexists.
  assert (length x = Z.to_nat (zlen x)) as Lx by (unfold zlen; lia).
  assert (length tail = Z.to_nat (zlen tail)) as Lt by (unfold zlen; lia).
  assert (length b = Z.to_nat (zlen b)) as Lb by (unfold zlen; lia).
  set (b1 := take (Z.to_nat (pos + zlen x)) b ++ tail ++ _).
  assert (zlen b1 = zlen b) as Hb1.
  { subst b1. unfold zlen in *. rewrite !length_app, length_take, length_drop. lia. }
  rewrite (mem_write_Some b1) by lia. eexists.
  set (b2 := take (Z.to_nat pos) b1 ++ x ++ _).
  assert (zlen b2 = zlen b) as Hb2.
  { subst b2. unfold zlen in *. rewrite !length_app, length_take, length_drop. lia. }
  rewrite (mem_set_Some b2) by lia. eexists. split_and!; [done..| | |].
  - by rewrite zlen_insert.
  - rewrite take_insert_ge by lia. subst b2. unfold insert_at. rewrite take_take.
    replace (Z.to_nat (n0 + zlen x)) with (Z.to_nat pos + (length x + length tail))%nat by lia.
    assert (length (take (Z.to_nat pos) b1) = Z.to_nat pos) as Lp.
    { rewrite length_take. unfold zlen in *. lia. }
    rewrite take_app_add' by (by rewrite Lp). f_equal.
    { subst b1. rewrite take_app_le by (rewrite length_take; lia). rewrite take_take.
      f_equal. lia. }
    rewrite take_app_add. f_equal.
    subst b1. rewrite drop_app_ge by (rewrite length_take; lia).
    rewrite length_take, drop_app_le by lia.
    replace (Z.to_nat pos + length x - _)%nat with 0%nat by lia. rewrite drop_0.
    rewrite take_app_le by lia. rewrite take_ge by lia. subst tail.
    rewrite skipn_firstn_comm. f_equal. lia.
  - rewrite mem_get_lookup by lia. apply list_lookup_insert_eq. unfold zlen in *. lia.
Qed.

(** The struct after writing a buffer of the same length with a terminator. *)
Lemma put_buffer_ok s b b' n :
  Inv s → str_get_buffer s = Some b → zlen b' = zlen b → 0 <= n < zlen b →
  mem_get b' n = Some 0 →
  Inv (put_buffer s b' n) ∧ contents (put_buffer s b' n) = take (Z.to_nat n) b'.
Proof.
  intros [Hs Hz Hic Hb Ht] Hg Hl Hn H0. unfold put_buffer, contents, str_get_buffer in *.
  destruct s as [sso dy sz cap [] ic]; simpl in *.
  - destruct Hb as (d & -> & Hd & ?). simplify_eq. split; [|done].
    constructor; simpl; [done|lia|done| |done]. eexists. split_and!; [done|lia..].
  - simplify_eq. split; [|done]. constructor; simpl; [lia|lia|lia|lia|done].
Qed.

Section Refinement.
Variable alloc : Z → bool.
Variable junk : Z.
(** [malloc] refuses blocks above [PTRDIFF_MAX]. *)
Hypothesis alloc_bound : ∀ n, alloc n = true → n <= PTRDIFF_MAX.

Lemma wrap64_id z : 0 <= z < 2 ^ 64 → wrap64 z = z.
Proof. intros. unfold wrap64. by rewrite Z.mod_small. Qed.

(** Copying the inline bytes into a fresh block and terminating them. *)
Lemma fresh_block_ok s cap sso' :
  Inv s → is_dynamic s = false → size s < cap <= PTRDIFF_MAX → zlen sso' = STR_SSO_SIZE →
  ∃ d2, (d1 ← (if 0 <? size s then src ← mem_read (sso_buffer s) 0 (size s);
                                   mem_write (grow junk [] cap) 0 src
               else Some (grow junk [] cap));
         mem_set d1 (size s) 0) = Some d2 ∧
    let s' := Str sso' (Some d2) (size s) cap true (init_capacity s) in
    Inv s' ∧ contents s' = contents s.
Proof.
  intros Hi Hd Hc Hs'. pose proof (inv_size s Hi) as Hz. pose proof (inv_sso s Hi) as Hs.
  pose proof (inv_block s Hi) as Hb. rewrite Hd in Hb. unfold STR_SSO_SIZE in *.
  assert (zlen (grow junk [] cap) = cap) as Hg by (apply zlen_grow; lia).
  assert (∃ d1, (if 0 <? size s then src ← mem_read (sso_buffer s) 0 (size s);
                   mem_write (grow junk [] cap) 0 src else Some (grow junk [] cap)) = Some d1 ∧
                zlen d1 = cap ∧ take (Z.to_nat (size s)) d1 = contents s) as (d1 & -> & Hl & Ht).
  { unfold contents, str_get_buffer. rewrite Hd. simpl. destruct (Z.ltb_spec 0 (size s)).
    - rewrite mem_read_Some by lia. simpl.
      assert (zlen (take (Z.to_nat (size s)) (sso_buffer s)) = size s) as Hl
        by (rewrite zlen_take; lia).
      rewrite mem_write_Some by (rewrite ?drop_0; lia). eexists. split; [done|].
      simpl. rewrite drop_0. unfold zlen in *. rewrite length_app, length_drop. split; [lia|].
      apply take_app_length'. lia.
    - eexists. split; [done|]. split; [done|]. by replace (size s) with 0 by lia. }
  simpl. rewrite mem_set_Some by lia. eexists. split; [done|].
  split.
  - constructor; simpl; [done|lia|apply Hi| |].
    + eexists. split_and!; [done| |lia|lia]. by rewrite zlen_insert.
    + intros _. rewrite mem_get_lookup by lia. apply list_lookup_insert_eq. unfold zlen in *. lia.
  - rewrite <- Ht. unfold contents, str_get_buffer. simpl. apply take_insert_ge. lia.
Qed.

(** Allocation succeeds whenever it may, and the sizes leave room to double. *)
Definition plenty (s : str) (extra : Z) : Prop :=
  (∀ n, n <= PTRDIFF_MAX → alloc n = true) ∧ str_get_capacity s <= 2 ^ 61 ∧ extra <= 2 ^ 61.

Lemma str_switch_to_dynamic_ok s extra :
  Inv s → is_dynamic s = false → 0 <= extra <= PTRDIFF_MAX →
  ∃ r s', str_switch_to_dynamic alloc junk s (size s + extra + 1) = Some (r, s') ∧
    (r = false → s' = s) ∧ (plenty s extra → r = true) ∧
    (r = true → Inv s' ∧ contents s' = contents s ∧ size s' = size s ∧
                size s + extra < str_get_capacity s' <= Z.max 16384 (size s + extra + 1)).
Proof.
  intros Hi Hd Hex. unfold str_switch_to_dynamic. pose proof (inv_init s Hi).
  pose proof (inv_block s Hi) as Hb. rewrite Hd in Hb. unfold STR_SSO_SIZE in *.
  set (t0 := if 0 <? init_capacity s then _ else 64).
  set (t := if t0 <? _ then _ else t0).
  assert (size s + extra + 1 <= t) as Ht
    by (subst t; destruct (Z.ltb_spec t0 (size s + extra + 1)); lia).
  assert (t <= Z.max 16384 (size s + extra + 1)) as Ht'.
  { subst t t0. destruct (Z.ltb_spec 0 (init_capacity s)); repeat case_if; lia. }
  destruct (alloc t) eqn:Ea.
  - pose proof (alloc_bound _ Ea).
    destruct (fresh_block_ok s t (sso_buffer s)) as (d2 & He & Hi' & Hc);
      [done|done|lia|by apply inv_sso|].
    destruct (if 0 <? size s then _ else _) as [d1|]; [|done]. simpl in *. rewrite He. simpl.
    eexists _, _. split; [done|]. split_and!; [done|done|]. intros _.
    split_and!; [done|done|done|..]; unfold str_get_capacity; rewrite ?Hd; simpl; lia.
  - eexists _, _. split; [done|]. split_and!; [done| |done].
    intros (Ha & _ & Hx). rewrite Ha in Ea; [done|]. unfold PTRDIFF_MAX. lia.
Qed.

Lemma realloc_ok s t :
  Inv s → is_dynamic s = true → capacity s <= t <= PTRDIFF_MAX →
  let s' := Str (sso_buffer s) (Some (grow junk (default [] (dynamic_buffer s)) t))
              (size s) t true (init_capacity s) in
  Inv s' ∧ contents s' = contents s.
Proof.
  intros [Hs Hz Hic Hb Ht] Hd Hle. unfold contents, str_get_buffer in *. rewrite Hd in *.
  destruct Hb as (d & Ed & Hl & Hsz). rewrite Ed in *. simpl in *. split.
  - constructor; simpl; [done|done|done| |].
    + eexists. split_and!; [done| |lia|lia]. apply zlen_grow. lia.
    + intros Hp. rewrite mem_get_lookup in * by lia. unfold grow.
      rewrite lookup_app_l, lookup_take_lt by (rewrite ?length_take; unfold zlen in *; lia).
      by apply Ht.
  - apply take_grow; lia.
Qed.

Lemma str_expand_buffer_ok s extra :
  Inv s → 0 <= extra <= PTRDIFF_MAX →
  ∃ r s', str_expand_buffer alloc junk s extra = Some (r, s') ∧
    (r = false → s' = s) ∧ (plenty s extra → r = true) ∧
    (r = true → Inv s' ∧ contents s' = contents s ∧ size s' = size s ∧
                size s + extra < str_get_capacity s'
                  <= Z.max 16384 (Z.max (2 * str_get_capacity s + 32) (size s + extra + 1))).
Proof.
  intros Hi Hex. unfold str_expand_buffer. pose proof (inv_size s Hi).
  destruct (inv_buffer s Hi) as (b & _ & Hcap & Hsz & Hmax). unfold PTRDIFF_MAX in *.
  rewrite !wrap64_id by lia.
  destruct (is_dynamic s) eqn:Hd; simpl.
  2: { destruct (str_switch_to_dynamic_ok s extra) as (r & s' & He & Hf & Hpl & Ht); [done..|].
       exists r, s'. split_and!; [done..|]. intros Hr.
       destruct (Ht Hr) as (? & ? & ? & ?). split_and!; [done..|lia|lia]. }
  pose proof (inv_block s Hi) as Hb. rewrite Hd in Hb. destruct Hb as (d & Ed & Hl & Hc).
  unfold PTRDIFF_MAX in Hc. change (SIZE_MAX / 2) with (2 ^ 63 - 1).
  destruct (Z.ltb_spec (2 ^ 63 - 1) (capacity s)); [lia|].
  unfold MIN_STR_GROWTH. rewrite !wrap64_id by lia.
  set (t1 := if _ <? _ then capacity s + 32 else _).
  set (t := if t1 <? _ then _ else t1).
  assert (capacity s <= t1 <= capacity s * 2 + 32) as Ht1
    by (subst t1; case_if; reflect_bools; lia).
  assert (size s + extra + 1 <= t ∧ t1 <= t ∧ t <= Z.max t1 (size s + extra + 1)) as Ht
    by (subst t; destruct (Z.ltb_spec t1 (size s + extra + 1)); lia).
  destruct (alloc t) eqn:Ea.
  - pose proof (alloc_bound _ Ea). destruct (realloc_ok s t Hi Hd) as [Hi' Hc'];
      [unfold PTRDIFF_MAX in *; lia|].
    eexists _, _. split; [done|]. split_and!; [done|done|]. intros _.
    split_and!; [done|done|done|..]; unfold str_get_capacity; rewrite ?Hd; simpl; lia.
  - eexists _, _. split; [done|]. split_and!; [done| |done].
    intros (Ha & Hp & Hx). unfold str_get_capacity in Hp. rewrite Hd in Hp.
    rewrite Ha in Ea; [done|]. unfold PTRDIFF_MAX. lia.
Qed.

(** Insertion once the buffer has room. *)
Lemma insert_room s1 b pos x :
  Inv s1 → str_get_buffer s1 = Some b → 0 <= pos <= size s1 → size s1 + zlen x < zlen b →
  ∃ tail b1 b2 b3,
    mem_read b pos (size s1 - pos) = Some tail ∧ mem_write b (pos + zlen x) tail = Some b1 ∧
    mem_write b1 pos x = Some b2 ∧ mem_set b2 (size s1 + zlen x) 0 = Some b3 ∧
    Inv (put_buffer s1 b3 (size s1 + zlen x)) ∧
    contents (put_buffer s1 b3 (size s1 + zlen x)) = insert_at (contents s1) pos x.
Proof.
  intros Hi Hb Hp Hr. destruct (shift_insert b (size s1) pos x Hp Hr)
    as (tail & b1 & b2 & b3 & H1 & H2 & H3 & H4 & Hl & Ht & H0).
  exists tail, b1, b2, b3. pose proof (zlen_nonneg x).
  destruct (put_buffer_ok s1 b b3 (size s1 + zlen x)) as [Hi' Hc]; [done|done|done|lia|done|].
  split_and!; [done..|]. rewrite Hc, Ht. unfold contents. by rewrite Hb.
Qed.

(** Appending inside the inline buffer is the same insertion, at the end. *)
Lemma append_sso s x :
  Inv s → is_dynamic s = false → size s + zlen x < STR_SSO_SIZE →
  ∃ b1 b2, mem_write (sso_buffer s) (size s) x = Some b1 ∧
    mem_set b1 (size s + zlen x) 0 = Some b2 ∧
    Inv (put_buffer s b2 (size s + zlen x)) ∧
    contents (put_buffer s b2 (size s + zlen x)) = contents s ++ x.
Proof.
  intros Hi Hd Hr. pose proof (inv_size s Hi). pose proof (inv_sso s Hi) as Hs.
  assert (str_get_buffer s = Some (sso_buffer s)) as Hb by (unfold str_get_buffer; by rewrite Hd).
  destruct (insert_room s (sso_buffer s) (size s) x Hi Hb)
    as (tail & b1 & b2 & b3 & H1 & H2 & H3 & H4 & Hi' & Hc); [lia|lia|].
  pose proof (zlen_nonneg x).
  rewrite Z.sub_diag in H1. rewrite mem_read_Some in H1 by lia. simpl in H1.
  rewrite take_0 in H1. injection H1 as <-.
  rewrite mem_write_Some in H2 by (rewrite ?(@zlen_nil Z); lia). simpl in H2.
  rewrite Nat.add_0_r, take_drop in H2. injection H2 as <-.
  exists b2, b3. split_and!; [done..|]. rewrite Hc. unfold insert_at.
  rewrite <- (zlen_contents s Hi), take_zlen, drop_ge by (unfold zlen; lia).
  by rewrite app_nil_r.
Qed.

(** The block is at most about twice the string, which bounds all growth. *)
Definition capacity_tight (s : str) : Prop :=
  str_get_capacity s <= Z.max 16384 (2 * size s + 66).

(** The slow path of both insertions: expand when [need] says so, then insert. *)
Lemma expanded_insert s x pos need :
  Inv s → 0 <= pos <= size s → size s + zlen x <= need <= size s + zlen x + 1 →
  zlen x <= PTRDIFF_MAX →
  ∃ (r : bool) (s' : str),
    ('(ok, s1) ← (if str_get_capacity s <=? need
                  then str_expand_buffer alloc junk s (zlen x) else Some (true, s));
     if (ok : bool) then
       buffer ← str_get_buffer s1;
       tail ← mem_read buffer pos (size s1 - pos);
       b1 ← mem_write buffer (pos + zlen x) tail;
       b2 ← mem_write b1 pos x;
       b3 ← mem_set b2 (size s1 + zlen x) 0;
       Some (true, put_buffer s1 b3 (size s1 + zlen x))
     else Some (false, s1)) = Some (r, s') ∧ Inv s' ∧
    contents s' = (if r then insert_at (contents s) pos x else contents s) ∧
    (r = true → pos <= size s) ∧ (pos <= size s → plenty s (zlen x) → r = true) ∧
    (capacity_tight s → capacity_tight s').
Proof.
  intros Hi Hp Hn Hx. pose proof (zlen_nonneg x).
  assert (∃ ok s1, (if str_get_capacity s <=? need
                    then str_expand_buffer alloc junk s (zlen x) else Some (true, s))
                   = Some (ok, s1) ∧
      (ok = false → s1 = s) ∧ (plenty s (zlen x) → ok = true) ∧
      (ok = true → Inv s1 ∧ contents s1 = contents s ∧ size s1 = size s ∧
                   size s + zlen x < str_get_capacity s1 ∧
                   (capacity_tight s → str_get_capacity s1
                                       <= Z.max 16384 (2 * (size s + zlen x) + 66)))) as (ok & s1 & -> & Hf & Hpl & Ht).
  { destruct (Z.leb_spec (str_get_capacity s) need).
    - destruct (str_expand_buffer_ok s (zlen x)) as (r & s' & He & Hf & Hpl & Ht); [done..|].
      exists r, s'. split_and!; [done..|]. intros Hr.
      destruct (Ht Hr) as (? & ? & ? & ?). split_and!; [done..|lia|]. unfold capacity_tight. lia.
    - eexists _, _. split; [done|]. split_and!; [done|done|]. intros _.
      split_and!; [done..|lia|]. unfold capacity_tight. lia. }
  simpl. destruct ok.
  - destruct (Ht eq_refl) as (Hi1 & Hc1 & Hs1 & Hr & Htg). destruct (inv_buffer s1 Hi1) as (b' & Hb' & Hl & ?).
    destruct (insert_room s1 b' pos x) as (tail & b1 & b2 & b3 & H1 & H2 & H3 & H4 & Hi' & Hc);
      [done|done|lia|lia|].
    rewrite Hb'. simpl. rewrite H1. simpl. rewrite H2. simpl. rewrite H3. simpl. rewrite H4. simpl.
    eexists _, _. split_and!; [done|done|by rewrite Hc, Hc1|lia|done|].
    intros Hct. specialize (Htg Hct). unfold capacity_tight, put_buffer, str_get_capacity in *.
    destruct (is_dynamic s1); simpl; lia.
  - rewrite (Hf eq_refl). eexists _, _. split_and!; [done|done|done|done| |done].
    intros _ Hp'. by apply Hpl.
Qed.

Lemma append_insert_at l x : insert_at l (zlen l) x = l ++ x.
Proof. unfold insert_at. rewrite take_zlen, drop_ge by (unfold zlen; lia). by rewrite app_nil_r. Qed.

Lemma put_sso_tight s b n :
  is_dynamic s = false → capacity_tight s → capacity_tight (put_buffer s b n).
Proof.
  unfold capacity_tight, put_buffer, str_get_capacity. intros ->. simpl. unfold STR_SSO_SIZE. lia.
Qed.

Lemma str_insert_ok s x pos :
  Inv s → 0 <= pos → zlen x <= PTRDIFF_MAX →
  ∃ r s', str_insert alloc junk s x pos = Some (r, s') ∧ Inv s' ∧
    contents s' = (if r then insert_at (contents s) pos x else contents s) ∧
    (r = true → pos <= zlen (contents s)) ∧
    (pos <= zlen (contents s) → plenty s (zlen x) → r = true) ∧
    (capacity_tight s → capacity_tight s').
Proof.
  intros Hi Hp Hx. pose proof (zlen_nonneg x). rewrite zlen_contents by done.
  destruct (inv_buffer s Hi) as (b & Hb & Hcap & Hsz & Hmax). unfold PTRDIFF_MAX in *.
  unfold str_insert. rewrite !wrap64_id by lia.
  destruct (Z.ltb_spec (size s) pos).
  { eexists _, _. split_and!; [done|done|done|done|lia|done]. }
  destruct (negb (is_dynamic s) && (pos =? size s) && (size s + zlen x <? STR_SSO_SIZE)) eqn:E.
  { reflect_bools. destruct (append_sso s x) as (b1 & b2 & F1 & F2 & Hi' & Hc); [done..|].
    rewrite F1. simpl. rewrite F2. simpl.
    eexists _, _. split_and!; [done|done| |lia|done|by apply put_sso_tight].
    subst pos. by rewrite Hc, <- (zlen_contents s Hi), append_insert_at. }
  clear E. apply expanded_insert; [done|lia|lia|unfold PTRDIFF_MAX; lia].
Qed.

(** A byte is stored by [buffer[pos] = ch]; the rest is [str_insert]'s code. *)
Lemma mem_write_byte m i v : mem_write m i [v] = mem_set m i v.
Proof.
  unfold mem_write, mem_set. rewrite zlen_cons, (@zlen_nil Z).
  destruct (Z.leb_spec 0 i); simpl; [|done].
  destruct (Z.leb_spec (i + (1 + 0)) (zlen m)), (Z.ltb_spec i (zlen m)); try lia; [|done].
  f_equal. symmetry. unfold zlen in *. rewrite Nat.add_1_r. apply insert_take_drop. lia.
Qed.

Lemma str_insertc_ok s ch pos :
  Inv s → 0 <= pos →
  ∃ r s', str_insertc alloc junk s ch pos = Some (r, s') ∧ Inv s' ∧
    contents s' = (if r then insert_at (contents s) pos [ch] else contents s) ∧
    (r = true → pos <= zlen (contents s)) ∧
    (pos <= zlen (contents s) → plenty s 1 → r = true) ∧
    (capacity_tight s → capacity_tight s').
Proof.
  intros Hi Hp. rewrite zlen_contents by done.
  destruct (inv_buffer s Hi) as (b & _ & Hcap & Hsz & Hmax). unfold PTRDIFF_MAX in *.
  unfold str_insertc. rewrite !wrap64_id by lia.
  destruct (Z.ltb_spec (size s) pos).
  { eexists _, _. split_and!; [done|done|done|done|lia|done]. }
  destruct (negb (is_dynamic s) && (pos =? size s) && (size s <? STR_SSO_SIZE - 1)) eqn:E.
  { reflect_bools. destruct (append_sso s [ch]) as (b1 & b2 & F1 & F2 & Hi' & Hc);
      [done|done|rewrite zlen_cons, (@zlen_nil Z); lia|].
    rewrite mem_write_byte in F1. rewrite F1. simpl.
    change (zlen [ch]) with 1 in *. rewrite F2. simpl.
    eexists _, _. split_and!; [done|done| |lia|done|by apply put_sso_tight].
    subst pos. by rewrite Hc, <- (zlen_contents s Hi), append_insert_at. }
  clear E. destruct (expanded_insert s [ch] pos (size s + 1)) as (r & s' & He & Hrest);
    [done|lia|change (zlen [ch]) with 1; lia|change (zlen [ch]) with 1; unfold PTRDIFF_MAX; lia|].
  exists r, s'. change (zlen [ch]) with 1 in *. split; [|done]. rewrite <- He.
  destruct (if str_get_capacity s <=? size s + 1 then _ else _) as [[ok s1]|]; [|done]. simpl.
  destruct ok; [|done]. destruct (str_get_buffer s1); [|done]. simpl.
  destruct (mem_read _ _ _); [|done]. simpl. destruct (mem_write _ _ _); [|done]. simpl.
  by rewrite mem_write_byte.
Qed.

(** With memory available, a string that has only grown takes any append below
    2^59 bytes; the interface the string's clients build on. *)
Record Growing (s : str) : Prop := {
  growing_inv : Inv s;
  growing_tight : capacity_tight s }.

Lemma str_append_total s x :
  (∀ n, n <= PTRDIFF_MAX → alloc n = true) → Growing s → zlen (contents s) + zlen x <= 2 ^ 59 →
  ∃ s', str_append alloc junk s x = Some (true, s') ∧ Growing s' ∧ contents s' = contents s ++ x.
Proof.
  intros Ha [Hi Ht] Hl. pose proof (zlen_contents s Hi) as Hz. pose proof (zlen_nonneg x).
  pose proof (inv_size s Hi).
  destruct (str_insert_ok s x (size s)) as (r & s' & He & Hi' & Hc & _ & Hp & Hg);
    [done|lia|unfold PTRDIFF_MAX; lia|].
  assert (r = true) as ->.
  { apply Hp; [lia|]. unfold plenty, capacity_tight in *. split_and!; [done|lia|lia]. }
  exists s'. split_and!; [done|constructor; [done|by apply Hg]|].
  by rewrite Hc, <- Hz, append_insert_at.
Qed.

Lemma str_appendc_total s ch :
  (∀ n, n <= PTRDIFF_MAX → alloc n = true) → Growing s → zlen (contents s) + 1 <= 2 ^ 59 →
  ∃ s', str_appendc alloc junk s ch = Some (true, s') ∧ Growing s' ∧ contents s' = contents s ++ [ch].
Proof.
  intros Ha [Hi Ht] Hl. pose proof (zlen_contents s Hi) as Hz. pose proof (inv_size s Hi).
  destruct (str_insertc_ok s ch (size s)) as (r & s' & He & Hi' & Hc & _ & Hp & Hg); [done|lia|].
  assert (r = true) as ->.
  { apply Hp; [lia|]. unfold plenty, capacity_tight in *. split_and!; [done|lia|lia]. }
  exists s'. split_and!; [done|constructor; [done|by apply Hg]|].
  by rewrite Hc, <- Hz, append_insert_at.
Qed.

Lemma str_reserve_ok s cap :
  Inv s →
  ∃ r s', str_reserve alloc junk s cap = Some (r, s') ∧ Inv s' ∧ contents s' = contents s ∧
    (r = true → STR_SSO_SIZE < cap → cap <= str_get_capacity s').
Proof.
  intros Hi. unfold str_reserve. pose proof (inv_block s Hi) as Hb.
  destruct (Z.leb_spec cap STR_SSO_SIZE) as [Hc|Hc].
  { eexists _, _. split_and!; [done..|lia]. }
  destruct (is_dynamic s) eqn:Hd; simpl.
  - destruct (Z.leb_spec cap (capacity s)).
    { eexists _, _. split_and!; [done..|]. intros _ _. unfold str_get_capacity. by rewrite Hd. }
    destruct (alloc cap) eqn:Ea; [|eexists _, _; by split_and!].
    pose proof (alloc_bound _ Ea). destruct (realloc_ok s cap Hi Hd) as [Hi' Hc']; [lia|].
    eexists _, _. split_and!; [done..|]. intros _ _. unfold str_get_capacity. simpl. lia.
  - destruct (alloc cap) eqn:Ea; [|eexists _, _; by split_and!].
    pose proof (alloc_bound _ Ea).
    destruct (fresh_block_ok s cap zero_sso) as (d2 & He & Hi' & Hc'); [done|done|lia|done|].
    destruct (if 0 <? size s then _ else _) as [d1|]; [|done]. simpl in *. rewrite He. simpl.
    eexists _, _. split_and!; [done..|]. intros _ _. unfold str_get_capacity. simpl. lia.
Qed.

Lemma str_init_ok s init :
  zlen (sso_buffer s) = STR_SSO_SIZE →
  ∃ s', str_init s init = Some s' ∧ Inv s' ∧ contents s' = [].
Proof.
  intros Hs. unfold str_init. rewrite mem_set_Some by (rewrite Hs; unfold STR_SSO_SIZE; lia).
  simpl. eexists. split; [done|]. split; [|done].
  constructor; simpl; [by rewrite zlen_insert|lia| |unfold STR_SSO_SIZE; lia|lia].
  destruct (Z.ltb_spec init 16384); lia.
Qed.

Lemma zlen_zero_sso : zlen zero_sso = STR_SSO_SIZE.
Proof. done. Qed.

Lemma str_reset_ok s : Inv s → Inv (str_reset s) ∧ contents (str_reset s) = [].
Proof.
  intros Hi. split; [|done].
  constructor; simpl; [done|lia|by apply inv_init|unfold STR_SSO_SIZE; lia|lia].
Qed.

Lemma set_size_0_ok s : Inv s → Inv (set_size s 0) ∧ contents (set_size s 0) = [].
Proof.
  intros [Hs Hz Hic Hb Ht]. split; [|done].
  constructor; simpl; [done|lia|done| |lia].
  destruct (is_dynamic s); [|unfold STR_SSO_SIZE; lia].
  destruct Hb as (d & Hd & Hl & ?). exists d. split_and!; [done|done|lia|lia].
Qed.

Lemma str_assign_ok s x :
  Inv s → zlen x <= PTRDIFF_MAX →
  ∃ r s', str_assign alloc junk s x = Some (r, s') ∧ Inv s' ∧
    contents s' = (if r then x else []) ∧ (plenty s (zlen x) → r = true).
Proof.
  intros Hi Hx. destruct (set_size_0_ok s Hi) as [Hi0 Hc0].
  destruct (str_insert_ok (set_size s 0) x 0) as (r & s' & He & Hi' & Hc & _ & Hp & _); [done|lia|done|].
  exists r, s'. split_and!; [done|done| |].
  - rewrite Hc, Hc0. unfold insert_at. rewrite take_nil, drop_nil. simpl. by rewrite app_nil_r.
  - intros Hpl. apply Hp; [rewrite Hc0; done|]. destruct Hpl as (? & ? & ?). by split_and!.
Qed.

Lemma str_pop_ok s :
  Inv s →
  ∃ r s', str_pop s = Some (r, s') ∧ Inv s' ∧
    (r = false ∧ contents s = [] ∧ s' = s ∨ r = true ∧ ∃ c, contents s = contents s' ++ [c]).
Proof.
  intros Hi. unfold str_pop. destruct (inv_buffer s Hi) as (b & Hb & Hl & Hsz & _).
  destruct (Z.eqb_spec (size s) 0) as [E|E].
  { eexists _, _. split_and!; [done|done|]. left. split_and!; [done| |done].
    apply zlen_0_nil. by rewrite zlen_contents. }
  rewrite Hb. simpl. rewrite mem_set_Some by lia. simpl. eexists _, _. split; [done|].
  destruct (put_buffer_ok s b (<[Z.to_nat (size s - 1):=0]> b) (size s - 1)) as [Hi' Hc];
    [done|done|by rewrite zlen_insert|lia| |].
  { rewrite mem_get_lookup by lia. apply list_lookup_insert_eq. unfold zlen in *. lia. }
  split; [done|]. right. split; [done|].
  destruct (lookup_lt_is_Some_2 b (Z.to_nat (size s - 1))) as [c Hcc]; [unfold zlen in *; lia|].
  exists c. rewrite Hc, take_insert_ge by lia. unfold contents. rewrite Hb. simpl.
  apply take_pred_snoc; [lia|done].
Qed.
End Refinement.

Lemma str_create_empty_ok alloc junk init :
  ∃ d, str_create_empty alloc junk init = Some d ∧
    (alloc SIZEOF_STR = true → ∃ s, d = Some s) ∧
    ∀ s, d = Some s → Growing s ∧ contents s = [].
Proof.
  unfold str_create_empty. destruct (alloc SIZEOF_STR); [|by eexists].
  destruct (str_init_ok (raw_str junk) init) as (s & -> & Hi & _); [done|]. simpl.
  eexists. split; [done|]. split; [by eexists|]. intros s' [= <-].
  destruct (str_reset_ok s Hi). split; [|done]. constructor; [done|].
  unfold capacity_tight, str_get_capacity. simpl. unfold STR_SSO_SIZE. lia.
Qed.

(** ** Traces: any sequence of calls is the same sequence on a byte list *)

Inductive strop : Set :=
| Insert (x : list Z) (pos : Z)
| InsertC (ch pos : Z)
| Append (x : list Z)
| AppendC (ch : Z)
| Prepend (x : list Z)
| PrependC (ch : Z)
| Assign (x : list Z)
| Pop
| Reserve (cap : Z)
| Reset
| Clear.

(** Arguments a C caller can pass: objects below [PTRDIFF_MAX], unsigned positions. *)
Definition op_wf (op : strop) : Prop :=
  match op with
  | Insert x pos => zlen x <= PTRDIFF_MAX ∧ 0 <= pos
  | InsertC _ pos => 0 <= pos
  | Append x | Prepend x | Assign x => zlen x <= PTRDIFF_MAX
  | _ => True
  end.

(** The list after an operation that reported [r]. *)
Definition spec_step (op : strop) (r : bool) (l : list Z) : list Z :=
  match op with
  | Insert x pos => if r then insert_at l pos x else l
  | InsertC ch pos => if r then insert_at l pos [ch] else l
  | Append x => if r then l ++ x else l
  | AppendC ch => if r then l ++ [ch] else l
  | Prepend x => if r then x ++ l else l
  | PrependC ch => if r then ch :: l else l
  | Assign x => if r then x else []
  | Pop => removelast l
  | Reserve _ => l
  | Reset | Clear => []
  end.

Section Traces.
Variable alloc : Z → bool.
Variable junk : Z.
Hypothesis alloc_bound : ∀ n, alloc n = true → n <= PTRDIFF_MAX.

Definition strop_run (op : strop) (s : str) : option (bool * str) :=
  match op with
  | Insert x pos => str_insert alloc junk s x pos
  | InsertC ch pos => str_insertc alloc junk s ch pos
  | Append x => str_append alloc junk s x
  | AppendC ch => str_appendc alloc junk s ch
  | Prepend x => str_prepend alloc junk s x
  | PrependC ch => str_prependc alloc junk s ch
  | Assign x => str_assign alloc junk s x
  | Pop => str_pop s
  | Reserve cap => str_reserve alloc junk s cap
  | Reset => Some (true, str_reset s)
  | Clear => s' ← str_clear s; Some (true, s')
  end.

Fixpoint strops_run (ops : list strop) (s : str) : option (list bool * str) :=
  match ops with
  | [] => Some ([], s)
  | op :: rest =>
      '(r, s1) ← strop_run op s;
      '(rs, s2) ← strops_run rest s1;
      Some (r :: rs, s2)
  end.

Fixpoint spec_run (ops : list strop) (rs : list bool) (l : list Z) : list Z :=
  match ops, rs with
  | op :: ops', r :: rs' => spec_run ops' rs' (spec_step op r l)
  | _, _ => l
  end.

Lemma strop_run_ok op s :
  Inv s → op_wf op →
  ∃ r s', strop_run op s = Some (r, s') ∧ Inv s' ∧ contents s' = spec_step op r (contents s).
Proof.
  intros Hi Hw. pose proof (zlen_contents s Hi) as Hz. pose proof (inv_size s Hi).
  destruct op as [x pos|ch pos|x|ch|x|ch|x| |cap| |]; cbn [strop_run op_wf spec_step] in *;
    unfold str_append, str_appendc, str_prepend, str_prependc.
  - destruct (str_insert_ok alloc junk alloc_bound s x pos) as (r & s' & ? & ? & ? & _);
      [done|tauto|tauto|eauto].
  - destruct (str_insertc_ok alloc junk alloc_bound s ch pos) as (r & s' & ? & ? & ? & _);
      [done|tauto|eauto].
  - destruct (str_insert_ok alloc junk alloc_bound s x (size s)) as (r & s' & ? & ? & Hc & _);
      [done..|]. exists r, s'. split_and!; [done..|]. by rewrite Hc, <- Hz, append_insert_at.
  - destruct (str_insertc_ok alloc junk alloc_bound s ch (size s)) as (r & s' & ? & ? & Hc & _);
      [done..|]. exists r, s'. split_and!; [done..|]. by rewrite Hc, <- Hz, append_insert_at.
  - destruct (str_insert_ok alloc junk alloc_bound s x 0) as (r & s' & ? & ? & Hc & _);
      [done..|]. eauto.
  - destruct (str_insertc_ok alloc junk alloc_bound s ch 0) as (r & s' & ? & ? & Hc & _);
      [done..|]. eauto.
  - destruct (str_assign_ok alloc junk alloc_bound s x) as (r & s' & ? & ? & Hc & _);
      [done..|]. eauto.
  - destruct (str_pop_ok s Hi) as (r & s' & ? & ? & [(-> & Hc & ->)|(-> & c & Hc)]);
      eexists _, _; split_and!; [done..| |done|done|]; rewrite Hc; [done|].
    by rewrite removelast_last.
  - destruct (str_reserve_ok alloc junk alloc_bound s cap Hi) as (r & s' & ? & ? & Hc & _). eauto.
  - destruct (str_reset_ok s Hi). eauto.
  - unfold str_clear.
    destruct (str_init_ok (Str zero_sso (dynamic_buffer s) (size s) (capacity s) (is_dynamic s)
      (init_capacity s)) (init_capacity s)) as (s' & -> & ? & ?); [done|]. simpl. eauto.
Qed.

Lemma strops_run_ok ops s :
  Inv s → Forall op_wf ops →
  ∃ rs s', strops_run ops s = Some (rs, s') ∧ Inv s' ∧ contents s' = spec_run ops rs (contents s).
Proof.
  revert s. induction ops as [|op ops IH]; intros s Hi Hw; [by eexists _, _|].
  apply Forall_cons_iff in Hw as [Hw1 Hw2].
  destruct (strop_run_ok op s Hi Hw1) as (r & s1 & Hr & Hi1 & Hc1).
  destruct (IH s1 Hi1 Hw2) as (rs & s2 & Hrs & Hi2 & Hc2).
  exists (r :: rs), s2. cbn [strops_run]. rewrite Hr. simpl. rewrite Hrs. simpl.
  split_and!; [done..|]. by rewrite Hc2, Hc1.
Qed.
End Traces.

Lemma str_copy_ok (alloc : Z → bool) (junk : Z) (s : str) :
  Inv s →
  (∃ blk, str_get s = Some blk ∧ take (Z.to_nat (str_size s)) blk = contents s ∧
          mem_get blk (str_size s) = Some 0) ∧
  str_copy alloc junk s
    = Some (if alloc (str_size s + 1) then Some (contents s ++ [0]) else None).
Proof.
  intros Hi. destruct (inv_buffer s Hi) as (b & Hb & Hl & Hsz & _). unfold str_size.
  assert (∃ blk, str_get s = Some blk ∧ take (Z.to_nat (size s)) blk = contents s ∧
                 mem_get blk (size s) = Some 0) as (blk & Hg & Ht & H0).
  { unfold str_get. destruct (Z.eqb_spec (size s) 0) as [E|E].
    - eexists. split; [done|]. rewrite E. split; [|done]. unfold contents. by rewrite E.
    - exists b. split_and!; [done|unfold contents; by rewrite Hb|].
      pose proof (inv_term s Hi) as Hterm. rewrite Hb in Hterm. apply Hterm. lia. }
  split; [by exists blk|]. unfold str_copy. rewrite Hg. simpl. unfold str_size.
  destruct (alloc (size s + 1)); [|done].
  assert (size s < zlen blk) as Hlt.
  { rewrite mem_get_lookup in H0 by lia. apply lookup_lt_Some in H0. unfold zlen. lia. }
  rewrite mem_read_Some by lia. simpl. rewrite drop_0, Ht.
  pose proof (zlen_contents s Hi) as Hz.
  assert (zlen (grow junk [] (size s + 1)) = size s + 1) as Hgl by (apply zlen_grow; lia).
  rewrite mem_write_Some by lia. simpl.
  assert (length (contents s) = Z.to_nat (size s)) as Hlc by (unfold zlen in Hz; lia).
  rewrite mem_set_Some.
  - simpl. do 2 f_equal. rewrite insert_app_r_alt by lia.
    rewrite Hlc, Nat.sub_diag. f_equal. unfold grow. rewrite take_nil. simpl.
    rewrite drop_replicate. replace (_ - 0 - _)%nat with 1%nat by lia. done.
  - unfold zlen in *. rewrite length_app, length_drop. lia.
Qed.

(** ** Main theorems *)


Definition small_alloc (n : Z) : bool := n <=? 100000.

Lemma small_alloc_bound n : small_alloc n = true → n <= PTRDIFF_MAX.
Proof. unfold small_alloc, PTRDIFF_MAX. intros. reflect_bools. lia. Qed.


(** [str_get] and [str_copy] hand out a C string: the block starts with the
    contents and has a 0 byte right behind them, in both storage modes. *)
Theorem str_get_terminated (alloc : Z → bool) (junk : Z) (s : str) :
  Inv s →
  (∃ blk, str_get s = Some blk ∧ take (Z.to_nat (str_size s)) blk = contents s ∧
          mem_get blk (str_size s) = Some 0) ∧
  str_copy alloc junk s
    = Some (if alloc (str_size s + 1) then Some (contents s ++ [0]) else None).
Proof. apply str_copy_ok. Qed.

Definition abc_str : str := Str (bs "abc" ++ replicate 29 0) None 3 0 false 0.

Lemma abc_str_inv : Inv abc_str.
Proof. constructor; simpl; [reflexivity|lia|lia|unfold STR_SSO_SIZE; lia|reflexivity]. Qed.

Lemma str_get_terminated_witness :
  str_copy small_alloc 7 abc_str = Some (Some (bs "abc" ++ [0])).
Proof. apply (str_get_terminated small_alloc 7 abc_str abc_str_inv). Defined.

(** [str_move] transfers the contents: the destination holds the source's
    bytes, the source is empty, and both are well formed; nothing is left shared. *)
Theorem str_move_transfers (src dst : str) :
  Inv src → Inv dst →
  ∃ src' dst', str_move src dst = Some (true, src', dst') ∧ Inv src' ∧ Inv dst' ∧
    contents dst' = contents src ∧ contents src' = [] ∧ dynamic_buffer src' = None.
Proof.
  intros Hs Hd. unfold str_move.
  destruct (str_init_ok src (init_capacity src) (inv_sso src Hs)) as (src' & Hin & Hi' & Hc').
  rewrite Hin.
  assert (dynamic_buffer src' = None) as Hn.
  { unfold str_init in Hin. destruct (mem_set _ _ _); by simplify_eq/=. }
  pose proof (inv_block src Hs) as Hb. pose proof (inv_term src Hs) as Ht.
  pose proof (inv_size src Hs) as Hz. pose proof (inv_sso src Hs) as Hso.
  unfold contents, str_get_buffer in *. destruct (is_dynamic src).
  - simpl. eexists _, _. split_and!; [done|done| |done|done|done].
    destruct Hd as [Hds _ _ _ _]. constructor; simpl; [done|done|apply Hs|done|done].
  - unfold STR_SSO_SIZE in *. rewrite mem_read_Some by lia. simpl. rewrite drop_0.
    assert (zlen (take (Z.to_nat (size src + 1)) (sso_buffer src)) = size src + 1) as Hl
      by (rewrite zlen_take; lia).
    pose proof (inv_sso dst Hd). unfold STR_SSO_SIZE in *.
    rewrite mem_write_Some by lia. simpl.
    assert (length (take (Z.to_nat (size src + 1)) (sso_buffer src)) = Z.to_nat (size src + 1)) as Hln
      by (unfold zlen in Hl; lia).
    eexists _, _. split_and!; [done|done| | |done|done].
    + constructor; simpl; [|lia|apply Hs|unfold STR_SSO_SIZE; lia|].
      * unfold zlen, STR_SSO_SIZE in *. rewrite length_app, length_drop. lia.
      * intros Hp. rewrite mem_get_lookup in * by lia. rewrite lookup_app_l by lia.
        rewrite lookup_take_lt by lia. by apply Ht.
    + simpl. rewrite take_app_le by lia. rewrite take_take. f_equal. lia.
Qed.

Lemma str_move_transfers_witness :
  ∃ src' dst', str_move abc_str (str_reset abc_str) = Some (true, src', dst') ∧ Inv src' ∧ Inv dst' ∧
    contents dst' = bs "abc" ∧ contents src' = [] ∧ dynamic_buffer src' = None.
Proof.
  apply (str_move_transfers abc_str (str_reset abc_str)); [apply abc_str_inv|].
  apply str_reset_ok, abc_str_inv.
Defined.

(** [strcmp] of two terminated blocks is 0 exactly on equal strings. *)
Lemma strcmp_zero a b ta tb :
  Forall (λ c, 0 < c < 256) a → Forall (λ c, 0 < c < 256) b →
  ∃ d, strcmp (a ++ 0 :: ta) (b ++ 0 :: tb) = Some d ∧ (d = 0 ↔ a = b).
Proof.
  intros Ha. revert b. induction Ha as [|x a Hx Ha IH]; intros b Hb; destruct Hb as [|y b Hy Hb]; cbn [strcmp app].
  - by eexists.
  - destruct (Z.eqb_spec 0 y); [lia|]. simpl. eexists. split; [done|]. split; [lia|by intros [=]].
  - destruct (Z.eqb_spec x 0); [lia|]. simpl. eexists. split; [done|]. split; [lia|by intros [=]].
  - destruct (Z.eqb_spec x y) as [->|]; simpl.
    + destruct (Z.eqb_spec y 0); [lia|]. destruct (IH b Hb) as (d & -> & Hd).
      exists d. split; [done|]. rewrite Hd. split; [by intros ->|by intros [=]].
    + eexists. split; [done|]. split; [lia|by intros [=]].
Qed.
