(* ===== verification/QueryParser.v ===== *)
(** Query strings: [misc/queryparser.c] and the callback the request parser hands
    to it ([httpparser_append_query]).

    The nodes of the [query_t] chain live in a heap and are shared: the parser's
    [first]/[last] pointers and the request's [query_]/[last_query] fields point to
    the same nodes, and both sides write their [next] fields. An address is an
    index into the heap; a freed cell is [None], and touching one is [None]. *)

From S2P Require Import Prelude Helpers Str.

Record query : Set := Query {
  key : option (list Z);
  value : option (list Z);
  next : option nat }.

Abbreviation heap := (list (option query)).

(** The two fields of [httprequest_t] the parser's callback maintains. *)
Record request_queries : Set := RequestQueries {
  query_ : option nat;
  last_query : option nat }.

Definition load (h : heap) (a : nat) : option query := h !! a ≫= id.

Definition store (h : heap) (a : nat) (q : query) : option heap :=
  match h !! a with Some (Some _) => Some (<[a := Some q]> h) | _ => None end.

Definition set_next (h : heap) (a : nat) (p : option nat) : option heap :=
  q ← load h a; store h a (Query (key q) (value q) p).

Definition SIZEOF_QUERY : Z := 24.

Section Parse.
Variable alloc : Z → bool.

Definition urldecode (s : list Z) : option (list Z) :=
  if alloc (zlen s + 1) then Some (urldecodel s) else None.

Definition copy_cstringn (s : list Z) : option (list Z) :=
  if alloc (zlen s + 1) then Some s else None.

(** [NULL] or the new node's address. *)
Definition query_create (h : heap) (k v : option (list Z)) : option nat * heap :=
  if alloc SIZEOF_QUERY then
    let copy s := match s with Some (x :: s') => copy_cstringn (x :: s') | _ => None end in
    (Some (length h), h ++ [Some (Query (copy k) (copy v) None)])
  else (None, h).

Definition httpparser_append_query (h : heap) (r : request_queries) (q : nat)
    : option (heap * request_queries) :=
  let first := match query_ r with None => Some q | f => f end in
  h' ← match last_query r with Some l => set_next h l (Some q) | None => Some h end;
  Some (h', RequestQueries first (Some q)).

(** [(ok, heap, first, last, request)] *)
Definition append_query (h : heap) (first last : option nat) (r : request_queries)
    : option (bool * heap * option nat * option nat * request_queries) :=
  match query_create h None None with
  | (None, h1) => Some (false, h1, first, last, r)
  | (Some q, h1) =>
      '(h2, first') ← match last with
                      | Some l => h' ← set_next h1 l (Some q); Some (h', first)
                      | None => Some (h1, Some q)
                      end;
      '(h3, r') ← httpparser_append_query h2 r q;
      Some (true, h3, first', Some q, r')
  end.

Definition set_key (h : heap) (a : nat) (k : option (list Z)) : option heap :=
  q ← load h a; store h a (Query k (value q) (next q)).
Definition set_value (h : heap) (a : nat) (v : option (list Z)) : option heap :=
  q ← load h a; store h a (Query (key q) v (next q)).

Definition finish_pair (h : heap) (q : nat) (string : list Z)
    (key_start key_end : Z) (has_value : bool) (value_start value_end : Z) : option (bool * heap) :=
  ks ← mem_read string key_start (key_end - key_start);
  h1 ← set_key h q (urldecode ks);
  match urldecode ks with
  | None => Some (false, h1)
  | Some _ =>
      vs ← (if has_value then mem_read string value_start (value_end - value_start) else Some []);
      h2 ← set_value h1 q (urldecode vs);
      Some (match urldecode vs with None => false | Some _ => true end, h2)
  end.

(** [queries_free]; the fuel is the number of cells, a chain visits each once. *)
Fixpoint queries_free (fuel : nat) (h : heap) (p : option nat) : option heap :=
  match p with
  | None => Some h
  | Some a =>
      match fuel with
      | O => None
      | S fuel' => q ← load h a; queries_free fuel' (<[a := None]> h) (next q)
      end
  end.

Inductive queryparser_result : Set := QUERYPARSER_OK | QUERYPARSER_ERROR.

Record parsed : Set := Parsed {
  result : queryparser_result;
  p_heap : heap;
  out_first : option nat;
  out_last : option nat;
  p_request : request_queries }.

Definition parse_error (h : heap) (first : option nat) (r : request_queries) : option parsed :=
  h' ← queries_free (length h) h first;
  Some (Parsed QUERYPARSER_ERROR h' None None r).

(** The loop, with [rest] the bytes of [string] from [pos] on. *)
Fixpoint queryparser_loop (string rest : list Z) (pos : Z) (h : heap) (first last : option nat)
    (r : request_queries) (key_start key_end : Z) (has_value : bool) (value_start : Z)
    : option parsed :=
  let finish ke := l ← last; finish_pair h l string key_start ke has_value value_start pos in
  match rest with
  | [] =>
      let ke := if has_value then key_end else pos in
      '(ok, h1) ← finish ke;
      if (ok : bool) then Some (Parsed QUERYPARSER_OK h1 first last r) else parse_error h1 first r
  | ch :: rest' =>
      if ch =? chr_EQ then
        if has_value
        then queryparser_loop string rest' (pos + 1) h first last r key_start key_end true value_start
        else queryparser_loop string rest' (pos + 1) h first last r key_start pos true (pos + 1)
      else if ch =? chr_AMP then
        let ke := if has_value then key_end else pos in
        '(ok, h1) ← finish ke;
        if (ok : bool) then
          '(ok2, h2, first', last', r') ← append_query h1 first last r;
          if (ok2 : bool) then
            queryparser_loop string rest' (pos + 1) h2 first' last' r' (pos + 1) (pos + 1) false
              value_start
          else parse_error h2 first' r'
        else parse_error h1 first r
      else if ch =? chr_HASH then
        let ke := if has_value then key_end else pos in
        '(ok, h1) ← finish ke;
        if (ok : bool) then Some (Parsed QUERYPARSER_OK h1 first last r)
        else parse_error h1 first r
      else queryparser_loop string rest' (pos + 1) h first last r key_start key_end has_value value_start
  end.

Definition queryparser_parse (string : list Z) (start_pos : Z) (h : heap) (r : request_queries)
    : option parsed :=
  '(ok, h1, first, last, r1) ← append_query h None None r;
  if (ok : bool) then
    queryparser_loop string (drop (Z.to_nat start_pos) string) start_pos h1 first last r1
      start_pos start_pos false 0
  else Some (Parsed QUERYPARSER_ERROR h1 None None r1).

(** [__set_query]: parse behind the question mark, then link the result. *)
Definition set_query (string : list Z) (pos : Z) (h : heap) (r : request_queries)
    : option (bool * heap * request_queries) :=
  p ← queryparser_parse string (pos + 1) h r;
  match result p with
  | QUERYPARSER_ERROR => Some (false, p_heap p, p_request p)
  | QUERYPARSER_OK => Some (true, p_heap p, RequestQueries (out_first p) (out_last p))
  end.

Variable junk : Z.

(** Append, keeping the string when the append fails: [query_stringify] does not
    look at the results. *)
Definition append_or_keep (s : str) (x : list Z) : option str :=
  '(_, s') ← str_append alloc junk s x; Some s'.
Definition appendc_or_keep (s : str) (ch : Z) : option str :=
  '(_, s') ← str_appendc alloc junk s ch; Some s'.

(** A C string argument: the bytes before the first terminator; [None] is a NULL
    dereference in [strlen]. *)
Fixpoint cstr (s : list Z) : list Z :=
  match s with [] => [] | c :: s' => if c =? 0 then [] else c :: cstr s' end.

Definition urlencode_alloc (s : list Z) : option (option (list Z)) :=
  if alloc (zlen s * 3 + 1) then e ← urlencodel s; Some (Some e) else Some None.

Fixpoint stringify_loop (fuel : nat) (h : heap) (p : option nat) (uri : str)
    : option (option str) :=
  match p with
  | None => Some (Some uri)
  | Some a =>
      match fuel with
      | O => None
      | S fuel' =>
          q ← load h a;
          k ← key q;
          ek ← urlencode_alloc (cstr k);
          match ek with
          | None => Some None
          | Some kbytes =>
              v ← value q;
              ev ← urlencode_alloc (cstr v);
              match ev with
              | None => Some None
              | Some vbytes =>
                  u1 ← append_or_keep uri kbytes;
                  u2 ← appendc_or_keep u1 chr_EQ;
                  u3 ← append_or_keep u2 vbytes;
                  u4 ← match next q with None => Some u3 | Some _ => appendc_or_keep u3 chr_AMP end;
                  stringify_loop fuel' h (next q) u4
              end
          end
      end
  end.

(** The result block with its terminator, or NULL. *)
Definition query_stringify (h : heap) (p : option nat) : option (option (list Z)) :=
  match p with
  | None => Some None
  | Some _ =>
      u ← str_create_empty alloc junk 256;
      match u with
      | None => Some None
      | Some uri =>
          s ← stringify_loop (length h) h p uri;
          match s with None => Some None | Some uri' => str_copy alloc junk uri' end
      end
  end.
End Parse.

(** ** Specification *)

(** The piece up to the first [sep], and the rest behind it if there is one. *)
Fixpoint cut (sep : Z) (l : list Z) : list Z * option (list Z) :=
  match l with
  | [] => ([], None)
  | c :: l' =>
      if c =? sep then ([], Some l') else let '(a, b) := cut sep l' in (c :: a, b)
  end.

Definition pair_of (piece : list Z) : list Z * list Z :=
  let '(k, v) := cut chr_EQ piece in (urldecodel k, urldecodel (default [] v)).

(** The query of a URI tail: everything before a fragment, cut at ampersands. *)
Definition query_pairs (s : list Z) : list (list Z * list Z) :=
  pair_of <$> split_on chr_AMP (fst (cut chr_HASH s)).

(** The list a chain of live nodes holds. *)
Fixpoint chain (fuel : nat) (h : heap) (p : option nat) : option (list (list Z * list Z)) :=
  match p with
  | None => Some []
  | Some a =>
      match fuel with
      | O => None
      | S fuel' =>
          q ← load h a; k ← key q; v ← value q; rest ← chain fuel' h (next q);
          Some ((k, v) :: rest)
      end
  end.

(** ** Shape of the heap while parsing *)

(** Finished nodes, each linked to the cell behind it. *)
Fixpoint linked (base : nat) (l : list (list Z * list Z)) : heap :=
  match l with
  | [] => []
  | (k, v) :: l' => Some (Query (Some k) (Some v) (Some (S base))) :: linked (S base) l'
  end.

Lemma length_linked base l : length (linked base l) = length l.
Proof. revert base. induction l as [|[k v] l IH]; intros base; simpl; [done|by rewrite IH]. Qed.

Lemma linked_snoc base l k v :
  linked base (l ++ [(k, v)]) =
    linked base l ++ [Some (Query (Some k) (Some v) (Some (S (base + length l))))].
Proof.
  revert base. induction l as [|[k' v'] l IH]; intros base; simpl.
  - by rewrite Nat.add_0_r.
  - rewrite IH. simpl. by rewrite Nat.add_succ_r.
Qed.

(** The heap with [l] finished and one more node [q] at the end. *)
Definition parsing (h0 : heap) (l : list (list Z * list Z)) (q : query) : heap :=
  h0 ++ linked (length h0) l ++ [Some q].

Definition last_addr (h0 : heap) (l : list (list Z * list Z)) : nat := (length h0 + length l)%nat.

Lemma parsing_last h0 l q :
  parsing h0 l q !! last_addr h0 l = Some (Some q).
Proof.
  unfold parsing, last_addr. rewrite lookup_app_r by lia. rewrite lookup_app_r;
    rewrite length_linked; [|lia]. by replace (_ - _ - _)%nat with 0%nat by lia.
Qed.

Lemma load_last h0 l q : load (parsing h0 l q) (last_addr h0 l) = Some q.
Proof. unfold load. by rewrite parsing_last. Qed.

Lemma store_last h0 l q q' :
  store (parsing h0 l q) (last_addr h0 l) q' = Some (parsing h0 l q').
Proof.
  unfold store. rewrite parsing_last. f_equal. unfold parsing, last_addr.
  rewrite insert_app_r_alt by lia. f_equal.
  rewrite insert_app_r_alt; rewrite length_linked; [|lia].
  by replace (_ - _ - _)%nat with 0%nat by lia.
Qed.

Lemma length_parsing h0 l q : length (parsing h0 l q) = S (last_addr h0 l).
Proof. unfold parsing, last_addr. rewrite !length_app, length_linked. simpl. lia. Qed.

Lemma parsing_extend h0 l k v q :
  parsing h0 l (Query (Some k) (Some v) (Some (S (last_addr h0 l)))) ++ [Some q]
  = parsing h0 (l ++ [(k, v)]) q.
Proof. unfold parsing, last_addr. by rewrite linked_snoc, <- !app_assoc. Qed.

Lemma last_addr_snoc h0 l x : last_addr h0 (l ++ [x]) = S (last_addr h0 l).
Proof. unfold last_addr. rewrite length_app. simpl. lia. Qed.

(** A node write on the last node survives cells allocated behind it. *)
Lemma store_app h a q h2 : store h a q ≫= (λ h', Some (h' ++ h2)) = store (h ++ h2) a q ∨ load h a = None.
Proof.
  unfold store, load. destruct (h !! a) as [[q0|]|] eqn:E; simpl; [|by right..].
  left. rewrite (lookup_app_l_Some _ _ _ _ E). f_equal.
  rewrite insert_app_l; [done|]. by apply lookup_lt_Some in E.
Qed.

Lemma chain_parsing h0 l k v fuel :
  (length l < fuel)%nat →
  chain fuel (parsing h0 l (Query (Some k) (Some v) None)) (Some (length h0)) = Some (l ++ [(k, v)]).
Proof.
  unfold parsing. revert h0 fuel. induction l as [|[k' v'] l IH]; intros h0 [|fuel] Hf; simpl in Hf; try lia.
  - cbn [chain linked app]. unfold load.
    rewrite list_lookup_middle by done. simpl. by destruct fuel.
  - cbn [chain linked app]. unfold load. rewrite list_lookup_middle by done. simpl.
    specialize (IH (h0 ++ [Some (Query (Some k') (Some v') (Some (S (length h0))))]) fuel).
    rewrite length_app in IH. simpl in IH. rewrite Nat.add_1_r, <- app_assoc in IH. simpl in IH.
    rewrite IH by lia. done.
Qed.

Lemma chain_not_nil fuel h a : chain fuel h (Some a) ≠ Some [].
Proof.
  destruct fuel; [done|]. cbn [chain]. intros (q & _ & H)%bind_Some.
  apply bind_Some in H as (k & _ & H). apply bind_Some in H as (v & _ & H).
  by apply bind_Some in H as (rest & _ & H).
Qed.

Section Refinement.
Variable alloc : Z → bool.
Hypothesis alloc_ok : ∀ n, alloc n = true.

Lemma finish_pair_ok h0 l string ks ke (hv : bool) vs ve kb vb :
  mem_read string ks (ke - ks) = Some kb →
  (if hv then mem_read string vs (ve - vs) else Some []) = Some vb →
  finish_pair alloc (parsing h0 l (Query None None None)) (last_addr h0 l) string ks ke hv vs ve
  = Some (true, parsing h0 l (Query (Some (urldecodel kb)) (Some (urldecodel vb)) None)).
Proof.
  intros Hk Hv. unfold finish_pair, set_key, set_value, urldecode.
  rewrite Hk. simpl. rewrite load_last. simpl. rewrite !alloc_ok, store_last. simpl.
  rewrite Hv. simpl. rewrite alloc_ok, load_last. simpl. by rewrite store_last.
Qed.

Lemma append_query_ok h0 l k v :
  append_query alloc (parsing h0 l (Query (Some k) (Some v) None)) (Some (length h0))
    (Some (last_addr h0 l)) (RequestQueries (Some (length h0)) (Some (last_addr h0 l)))
  = Some (true, parsing h0 (l ++ [(k, v)]) (Query None None None), Some (length h0),
          Some (last_addr h0 (l ++ [(k, v)])),
          RequestQueries (Some (length h0)) (Some (last_addr h0 (l ++ [(k, v)])))).
Proof.
  unfold append_query, query_create, httpparser_append_query, set_next. rewrite alloc_ok. simpl.
  set (h := parsing h0 l (Query (Some k) (Some v) None)).
  set (h' := parsing h0 l (Query (Some k) (Some v) (Some (S (last_addr h0 l))))).
  assert (∀ q0 q1 c, load (parsing h0 l q0 ++ [c]) (last_addr h0 l) = Some q0 ∧
    store (parsing h0 l q0 ++ [c]) (last_addr h0 l) q1 = Some (parsing h0 l q1 ++ [c])) as Hls.
  { intros q0 q1 c. split.
    - unfold load. rewrite (lookup_app_l_Some _ _ _ _ (parsing_last h0 l q0)). done.
    - destruct (store_app (parsing h0 l q0) (last_addr h0 l) q1 [c]) as [<-|Hn].
      + by rewrite store_last.
      + by rewrite load_last in Hn. }
  unfold h. rewrite (proj1 (Hls _ (Query None None None) _)). simpl.
  rewrite length_parsing, (proj2 (Hls _ _ _)). simpl.
  rewrite (proj1 (Hls _ (Query None None None) _)). simpl.
  rewrite (proj2 (Hls _ _ _)). simpl.
  by rewrite parsing_extend, last_addr_snoc.
Qed.

Definition request_at (h0 : heap) (l : list (list Z * list Z)) : request_queries :=
  RequestQueries (Some (length h0)) (Some (last_addr h0 l)).

(** Where the current piece [cur], which starts at [ks], has been cut so far. *)
Definition cut_state (cur : list Z) (ks ke : Z) (hv : bool) (vs : Z) : Prop :=
  match cut chr_EQ cur with
  | (_, None) => hv = false
  | (k, Some v) => hv = true ∧ ke = ks + zlen k ∧ vs = ke + 1 ∧ cur = k ++ chr_EQ :: v
  end.

Lemma cut_snoc sep cur c :
  cut sep (cur ++ [c]) =
    match cut sep cur with
    | (k, Some v) => (k, Some (v ++ [c]))
    | (k, None) => if c =? sep then (k, Some []) else (k ++ [c], None)
    end.
Proof.
  induction cur as [|x cur IH]; cbn [cut app].
  - by destruct (c =? sep).
  - destruct (x =? sep); [done|]. rewrite IH. destruct (cut sep cur) as [k [v|]]; [done|].
    by destruct (c =? sep).
Qed.

Lemma cut_none sep cur k : cut sep cur = (k, None) → k = cur.
Proof.
  revert k. induction cur as [|x cur IH]; cbn [cut]; intros k; [by intros [= <-]|].
  destruct (x =? sep); [done|]. destruct (cut sep cur) as [k' o]. intros [= <- ->]. f_equal. auto.
Qed.

Lemma cut_state_step cur ks ke hv vs c :
  cut_state cur ks ke hv vs →
  if c =? chr_EQ then
    if hv then cut_state (cur ++ [c]) ks ke true vs
    else cut_state (cur ++ [c]) ks (ks + zlen cur) true (ks + zlen cur + 1)
  else cut_state (cur ++ [c]) ks ke hv vs.
Proof.
  unfold cut_state. rewrite cut_snoc. destruct (cut chr_EQ cur) as [k [v|]] eqn:E.
  - intros (-> & Hke & Hvs & ->).
    assert (true = true ∧ ke = ks + zlen k ∧ vs = ke + 1 ∧ (k ++ 61 :: v) ++ [c] = k ++ 61 :: v ++ [c])
      by (rewrite <- app_assoc; done).
    by destruct (c =? chr_EQ).
  - intros ->. apply cut_none in E as ->. destruct (Z.eqb_spec c chr_EQ) as [->|]; done.
Qed.

(** [finish_pair] at the end of the piece [cur] stores its decoded pair. *)
Lemma finish_piece h0 l pre cur rest ks ke hv vs pos :
  cut_state cur ks ke hv vs → ks = zlen pre → pos = ks + zlen cur →
  finish_pair alloc (parsing h0 l (Query None None None)) (last_addr h0 l) (pre ++ cur ++ rest)
    ks (if hv then ke else pos) hv vs pos
  = Some (true, parsing h0 l (Query (Some (fst (pair_of cur))) (Some (snd (pair_of cur))) None)).
Proof.
  intros Hc -> ->. unfold cut_state, pair_of in *.
  assert (∀ a b c, mem_read (a ++ b ++ c) (zlen a) (zlen b) = Some b) as Hread.
  { intros a b c. pose proof (zlen_nonneg a). pose proof (zlen_nonneg b). pose proof (zlen_nonneg c).
    rewrite mem_read_Some by (rewrite ?zlen_app; lia). f_equal.
    rewrite drop_app_length' by (unfold zlen; lia). by rewrite take_app_length' by (unfold zlen; lia). }
  destruct (cut chr_EQ cur) as [k [v|]] eqn:E.
  - destruct Hc as (-> & -> & -> & ->). simpl. apply finish_pair_ok.
    + replace (zlen pre + zlen k - zlen pre) with (zlen k) by lia.
      rewrite <- (app_assoc k). apply Hread.
    + rewrite zlen_app, zlen_cons.
      replace (pre ++ (k ++ 61 :: v) ++ rest) with ((pre ++ k ++ [61]) ++ v ++ rest)
        by (rewrite <- !app_assoc; done).
      replace (zlen pre + zlen k + 1) with (zlen (pre ++ k ++ [61]))
        by (rewrite !zlen_app; change (zlen [61]) with 1; lia).
      replace (zlen pre + (zlen k + (1 + zlen v)) - zlen (pre ++ k ++ [61])) with (zlen v)
        by (rewrite !zlen_app; change (zlen [61]) with 1; lia).
      apply Hread.
  - subst hv. apply cut_none in E as ->.
    cbn [fst snd default]. apply (finish_pair_ok _ _ _ _ _ false _ _ cur []); [|done].
    replace (zlen pre + zlen cur - zlen pre) with (zlen cur) by lia. apply Hread.
Qed.

(** The pairs the loop still has to produce. *)
Definition remaining (cur rest : list Z) : list (list Z * list Z) :=
  pair_of <$> split_on_aux chr_AMP cur (fst (cut chr_HASH rest)).

(** A heap that holds the chain [l], [l] not empty. *)
Definition chained (h0 : heap) (l : list (list Z * list Z)) (h : heap) : Prop :=
  ∃ l' k v, l = l' ++ [(k, v)] ∧ h = parsing h0 l' (Query (Some k) (Some v) None).

Definition parse_result (h0 : heap) (l : list (list Z * list Z)) (p : parsed) : Prop :=
  result p = QUERYPARSER_OK ∧ chained h0 l (p_heap p) ∧ out_first p = Some (length h0) ∧
  out_last p = Some (last_addr h0 (removelast l)) ∧
  p_request p = RequestQueries (out_first p) (out_last p).

Lemma parse_result_last h0 l x :
  parse_result h0 (l ++ [x])
    (Parsed QUERYPARSER_OK (parsing h0 l (Query (Some (fst x)) (Some (snd x)) None))
       (Some (length h0)) (Some (last_addr h0 l)) (request_at h0 l)).
Proof.
  destruct x as [k v]. split_and!; simpl; [done| |done| |done].
  - by exists l, k, v.
  - by rewrite removelast_last.
Qed.

Lemma queryparser_loop_ok h0 pre cur rest l ks ke hv vs pos :
  cut_state cur ks ke hv vs → ks = zlen pre → pos = ks + zlen cur →
  ∃ p, queryparser_loop alloc (pre ++ cur ++ rest) rest pos (parsing h0 l (Query None None None))
         (Some (length h0)) (Some (last_addr h0 l)) (request_at h0 l) ks ke hv vs = Some p ∧
       parse_result h0 (l ++ remaining cur rest) p.
Proof.
  revert pre cur l ks ke hv vs pos.
  induction rest as [|c rest IH]; intros pre cur l ks ke hv vs pos Hc Hks Hpos.
  - cbn [queryparser_loop mbind option_bind]. rewrite (finish_piece h0 l pre cur []) by done.
    cbn [mbind option_bind]. eexists. split; [done|]. apply parse_result_last.
  - pose proof (cut_state_step _ _ _ _ _ c Hc) as Hstep.
    assert (∀ ke' hv' vs', cut_state (cur ++ [c]) ks ke' hv' vs' → c ≠ chr_AMP → c ≠ chr_HASH →
      ∃ p, queryparser_loop alloc (pre ++ cur ++ c :: rest) rest (pos + 1)
             (parsing h0 l (Query None None None)) (Some (length h0)) (Some (last_addr h0 l))
             (request_at h0 l) ks ke' hv' vs' = Some p ∧
           parse_result h0 (l ++ remaining cur (c :: rest)) p) as Hgo.
    { intros ke' hv' vs' Hcs Hna Hnh.
      destruct (IH pre (cur ++ [c]) l ks ke' hv' vs' (pos + 1)) as (p & Hp & Hr); [done|done| |].
      { rewrite zlen_app. change (zlen [c]) with 1. lia. }
      exists p. rewrite <- app_assoc in Hp. split; [done|].
      unfold remaining in *. cbn [cut]. destruct (Z.eqb_spec c chr_HASH); [done|].
      destruct (cut chr_HASH rest) as [a b]. cbn [fst split_on_aux].
      by destruct (Z.eqb_spec c chr_AMP). }
    cbn [queryparser_loop].
    destruct (Z.eqb_spec c chr_EQ) as [->|Hne].
    { destruct hv; [by apply Hgo|]. subst pos. by apply Hgo. }
    destruct (Z.eqb_spec c chr_AMP) as [->|Hna].
    { cbn [mbind option_bind]. rewrite (finish_piece h0 l pre cur) by done. cbn [mbind option_bind].
      unfold request_at. rewrite append_query_ok. cbn [mbind option_bind].
      destruct (IH (pre ++ cur ++ [chr_AMP]) [] (l ++ [pair_of cur]) (pos + 1) (pos + 1) false vs (pos + 1))
        as (p & Hp & Hr); [done| |rewrite (@zlen_nil Z); lia|].
      { rewrite !zlen_app. change (zlen [38]) with 1. lia. }
      rewrite <- !app_assoc in Hp. cbn [app] in Hp.
      rewrite (surjective_pairing (pair_of cur)) in Hp. exists p. split; [done|].
      rewrite <- app_assoc in Hr. unfold remaining in *. cbn [cut].
      change (38 =? 35) with false. destruct (cut chr_HASH rest) as [a b]. done. }
    destruct (Z.eqb_spec c chr_HASH) as [->|Hnh]; [|by apply Hgo].
    cbn [mbind option_bind]. rewrite (finish_piece h0 l pre cur) by done. cbn [mbind option_bind].
    eexists. split; [done|]. apply parse_result_last.
Qed.

Lemma queryparser_parse_ok h0 string start :
  0 <= start <= zlen string →
  ∃ p, queryparser_parse alloc string start h0 (RequestQueries None None) = Some p ∧
       parse_result h0 (query_pairs (drop (Z.to_nat start) string)) p.
Proof.
  intros Hs. unfold queryparser_parse, append_query, query_create, httpparser_append_query.
  rewrite alloc_ok. cbn [mbind option_bind query_ last_query].
  destruct (queryparser_loop_ok h0 (take (Z.to_nat start) string) []
              (drop (Z.to_nat start) string) [] start start false 0 start) as (p & Hp & Hr);
    [done|rewrite zlen_take; lia|rewrite (@zlen_nil Z); lia|].
  exists p. split; [|done]. rewrite <- Hp. cbn [app]. rewrite take_drop.
  unfold parsing, request_at, last_addr. cbn [linked app length]. by rewrite Nat.add_0_r.
Qed.
End Refinement.

(** ** Failing allocations *)

Section Failure.
Variable alloc : Z → bool.

(** Every cell of the parser is dead. *)
Definition released (h0 : heap) (n : nat) : heap := h0 ++ replicate n None.

Lemma queries_free_parsing h0 l q fuel :
  next q = None → (length l < fuel)%nat →
  queries_free fuel (parsing h0 l q) (Some (length h0)) = Some (released h0 (S (length l))).
Proof.
  intros Hq. unfold parsing, released. revert h0 fuel.
  induction l as [|[k v] l IH]; intros h0 [|fuel] Hf; simpl in Hf; try lia;
    cbn [queries_free linked app]; unfold load; rewrite list_lookup_middle by done; simpl.
  - rewrite Hq, insert_app_r_alt, Nat.sub_diag by lia. by destruct fuel.
  - rewrite insert_app_r_alt, Nat.sub_diag by lia. simpl.
    specialize (IH (h0 ++ [None]) fuel). rewrite length_app in IH. simpl in IH.
    rewrite Nat.add_1_r, <- app_assoc in IH. simpl in IH. rewrite IH by lia.
    by rewrite <- app_assoc.
Qed.

(** The state after a failed parse: no live node, but the request still points
    at the first one. *)
Definition failed (h0 : heap) (p : parsed) : Prop :=
  result p = QUERYPARSER_ERROR ∧ out_first p = None ∧ out_last p = None ∧
  ∃ n, p_heap p = released h0 (S n) ∧ query_ (p_request p) = Some (length h0).

Lemma parse_error_failed h0 l q r :
  next q = None → query_ r = Some (length h0) →
  ∃ p, parse_error (parsing h0 l q) (Some (length h0)) r = Some p ∧ failed h0 p.
Proof.
  intros Hn Hr. unfold parse_error. rewrite length_parsing, queries_free_parsing;
    [|done|unfold last_addr; lia]. simpl. eexists. split; [done|].
  split_and!; [done..|]. by eexists.
Qed.

Lemma finish_piece_any h0 l pre cur rest ks ke hv vs pos :
  cut_state cur ks ke hv vs → ks = zlen pre → pos = ks + zlen cur →
  ∃ ok q, finish_pair alloc (parsing h0 l (Query None None None)) (last_addr h0 l)
            (pre ++ cur ++ rest) ks (if hv then ke else pos) hv vs pos = Some (ok, parsing h0 l q) ∧
          next q = None ∧ (ok = true → ∃ k v, q = Query (Some k) (Some v) None).
Proof.
  intros Hc Hks Hpos.
  pose proof (finish_piece (λ _, true) (λ _, eq_refl) h0 l pre cur rest ks ke hv vs pos Hc Hks Hpos) as H.
  unfold finish_pair in *. destruct (mem_read _ ks _) as [kb|]; [|done]. simpl in *.
  unfold set_key, set_value in *. rewrite load_last in *. simpl in *. rewrite store_last in *. simpl in *.
  destruct (urldecode alloc kb) as [k|]; [|by eexists _, _].
  destruct (if hv then _ else _) as [vb|]; [|done]. simpl in *.
  rewrite load_last. simpl. rewrite store_last. simpl. eexists _, _. split; [done|]. split; [done|].
  destruct (urldecode alloc vb); [|done]. eauto.
Qed.

Lemma append_query_any h0 l k v :
  append_query alloc (parsing h0 l (Query (Some k) (Some v) None)) (Some (length h0))
    (Some (last_addr h0 l)) (request_at h0 l)
  = if alloc SIZEOF_QUERY then
      append_query (λ _, true) (parsing h0 l (Query (Some k) (Some v) None)) (Some (length h0))
        (Some (last_addr h0 l)) (request_at h0 l)
    else Some (false, parsing h0 l (Query (Some k) (Some v) None), Some (length h0),
               Some (last_addr h0 l), request_at h0 l).
Proof. unfold append_query, query_create. by destruct (alloc SIZEOF_QUERY). Qed.

Lemma queryparser_loop_any h0 pre cur rest l ks ke hv vs pos :
  cut_state cur ks ke hv vs → ks = zlen pre → pos = ks + zlen cur →
  ∃ p, queryparser_loop alloc (pre ++ cur ++ rest) rest pos (parsing h0 l (Query None None None))
         (Some (length h0)) (Some (last_addr h0 l)) (request_at h0 l) ks ke hv vs = Some p ∧
       (result p = QUERYPARSER_OK ∨ failed h0 p).
Proof.
  revert pre cur l ks ke hv vs pos.
  induction rest as [|c rest IH]; intros pre cur l ks ke hv vs pos Hc Hks Hpos.
  - cbn [queryparser_loop mbind option_bind].
    destruct (finish_piece_any h0 l pre cur [] ks ke hv vs pos Hc Hks Hpos) as (ok & q & -> & Hn & _).
    cbn [mbind option_bind]. destruct ok; [eexists; split; [done|by left]|].
    destruct (parse_error_failed h0 l q (request_at h0 l)) as (p & ? & ?); [done..|eauto].
  - pose proof (cut_state_step _ _ _ _ _ c Hc) as Hstep.
    destruct (finish_piece_any h0 l pre cur (c :: rest) ks ke hv vs pos Hc Hks Hpos)
      as (ok & q & Hfin & Hn & Hq).
    assert (∀ ke' hv' vs', cut_state (cur ++ [c]) ks ke' hv' vs' →
      ∃ p, queryparser_loop alloc (pre ++ cur ++ c :: rest) rest (pos + 1)
             (parsing h0 l (Query None None None)) (Some (length h0)) (Some (last_addr h0 l))
             (request_at h0 l) ks ke' hv' vs' = Some p ∧ (result p = QUERYPARSER_OK ∨ failed h0 p)) as Hgo.
    { intros ke' hv' vs' Hcs.
      destruct (IH pre (cur ++ [c]) l ks ke' hv' vs' (pos + 1)) as (p & Hp & Hr); [done|done| |].
      { rewrite zlen_app. change (zlen [c]) with 1. lia. }
      exists p. by rewrite <- app_assoc in Hp. }
    destruct (parse_error_failed h0 l q (request_at h0 l) Hn eq_refl) as (pe & Hpe & Hfe).
    cbn [queryparser_loop mbind option_bind].
    destruct (Z.eqb_spec c chr_EQ) as [->|Hne].
    { destruct hv; [by apply Hgo|]. subst pos. by apply Hgo. }
    destruct (Z.eqb_spec c chr_AMP) as [->|Hna].
    { rewrite Hfin. cbn [mbind option_bind]. destruct ok; [|eauto].
      destruct (Hq eq_refl) as (k & v & ->). rewrite append_query_any.
      destruct (alloc SIZEOF_QUERY); cbn [mbind option_bind]; [|eauto].
      unfold request_at at 1. rewrite append_query_ok by done. cbn [mbind option_bind].
      destruct (IH (pre ++ cur ++ [chr_AMP]) [] (l ++ [(k, v)]) (pos + 1) (pos + 1) false vs (pos + 1))
        as (p & Hp & Hr); [done| |rewrite (@zlen_nil Z); lia|].
      { rewrite !zlen_app. change (zlen [38]) with 1. lia. }
      rewrite <- !app_assoc in Hp. cbn [app] in Hp. eauto. }
    destruct (Z.eqb_spec c chr_HASH) as [->|Hnh]; [|by apply Hgo].
    rewrite Hfin. cbn [mbind option_bind]. destruct ok; eauto.
Qed.
End Failure.

(** ** Printing *)

Definition enc (s : list Z) : list Z := default [] (urlencodel s).

(** The query string of a list of pairs. *)
Fixpoint query_string (l : list (list Z * list Z)) : list Z :=
  match l with
  | [] => []
  | (k, v) :: l' =>
      enc k ++ chr_EQ :: enc v ++ match l' with [] => [] | _ => chr_AMP :: query_string l' end
  end.

Definition cstring (s : list Z) : Prop := Forall (λ b, 0 < b < 256) s.

Lemma cstring_bytes s : cstring s → Forall is_byte s.
Proof. intros H. eapply Forall_impl; [exact H|]. unfold is_byte. lia. Qed.

Lemma cstr_cstring s : cstring s → cstr s = s.
Proof.
  induction 1 as [|b s Hb _ IH]; [done|]. cbn [cstr]. destruct (Z.eqb_spec b 0); [lia|]. by f_equal.
Qed.

(** An encoded byte string holds none of the separators. *)
Definition plain (c : Z) : Prop := c ≠ chr_EQ ∧ c ≠ chr_AMP ∧ c ≠ chr_HASH.

Lemma byte_to_hex_plain n h : byte_to_hex n = Some h → plain h.
Proof.
  unfold byte_to_hex. assert (0 <= Z.land n 15 < 16).
  { change 15 with (Z.ones 4). rewrite Z.land_ones by lia. apply Z.mod_pos_bound. lia. }
  generalize dependent (Z.land n 15). intros m Hm. rewrite mem_get_lookup by lia.
  assert (∃ k, (k < 16)%nat ∧ m = Z.of_nat k) as (k & Hk & ->) by (exists (Z.to_nat m); lia).
  rewrite Nat2Z.id. unfold plain.
  do 16 (destruct k as [|k]; [intros E; vm_compute in E; injection E as <-; lia|]). lia.
Qed.

Lemma urlencodel_plain s e :
  urlencodel s = Some e → Forall plain e ∧ zlen s <= zlen e.
Proof.
  revert e. induction s as [|b s IH]; intros e; cbn [urlencodel]; [intros [= <-]; done|].
  destruct (urlencodel s) as [e'|].
  2: { destruct (if _ : bool then _ else _); discriminate. }
  destruct (IH e' eq_refl) as [Hf Hl]. rewrite zlen_cons. case_if.
  - simpl. intros [= <-]. rewrite zlen_cons. split; [|lia]. constructor; [|done].
    unfold plain, isalnum, isdigit, isupper, islower in *. intros. split_and!; intros ->; done.
  - destruct (Z.eqb_spec b 32) as [->|].
    + simpl. intros [= <-]. rewrite zlen_cons. split; [|lia]. by constructor.
    + destruct (byte_to_hex (Z.shiftr b 4)) as [hi|] eqn:H1; [|done].
      destruct (byte_to_hex (Z.land b 15)) as [lo|] eqn:H2; [|done]. simpl.
      intros [= <-]. rewrite !zlen_cons. split; [|lia].
      apply byte_to_hex_plain in H1, H2.
      repeat apply Forall_cons_2; [unfold plain; lia|done..].
Qed.

Lemma enc_ok s :
  cstring s → urlencodel s = Some (enc s) ∧ Forall plain (enc s) ∧ urldecodel (enc s) = s ∧
              zlen s <= zlen (enc s).
Proof.
  intros Hs. destruct (urlencodel_ok s (cstring_bytes s Hs)) as (e & He & _ & Hd).
  unfold enc. rewrite He. simpl. destruct (urlencodel_plain s e He). done.
Qed.

Lemma cut_plain sep s rest :
  Forall (λ c, c ≠ sep) s → cut sep (s ++ sep :: rest) = (s, Some rest) ∧ cut sep s = (s, None).
Proof.
  induction 1 as [|c s Hc _ [IH1 IH2]]; cbn [cut app]; [by rewrite Z.eqb_refl|].
  destruct (Z.eqb_spec c sep); [done|]. by rewrite IH1, IH2.
Qed.

Lemma split_plain sep cur s rest :
  Forall (λ c, c ≠ sep) s →
  split_on_aux sep cur (s ++ sep :: rest) = (cur ++ s) :: split_on_aux sep [] rest ∧
  split_on_aux sep cur s = [cur ++ s].
Proof.
  intros Hs. revert cur. induction Hs as [|c s Hc _ IH]; intros cur; cbn [split_on_aux app].
  - by rewrite Z.eqb_refl, app_nil_r.
  - destruct (Z.eqb_spec c sep); [done|]. destruct (IH (cur ++ [c])) as [-> ->].
    by rewrite <- app_assoc.
Qed.

Definition pair_ok (kv : list Z * list Z) : Prop := cstring (fst kv) ∧ cstring (snd kv).

Lemma query_string_no_hash l :
  Forall pair_ok l → Forall (λ c, c ≠ chr_HASH) (query_string l).
Proof.
  induction 1 as [|[k v] l [Hk Hv] _ IH]; [done|]. cbn [query_string fst snd] in *.
  destruct (enc_ok k Hk) as (_ & Pk & _). destruct (enc_ok v Hv) as (_ & Pv & _).
  assert (∀ e, Forall plain e → Forall (λ c, c ≠ chr_HASH) e) as Hp.
  { intros e He. eapply Forall_impl; [exact He|]. unfold plain. tauto. }
  apply Forall_app. split; [auto|]. constructor; [lia|]. apply Forall_app. split; [auto|].
  destruct l; [done|]. constructor; [lia|done].
Qed.

Lemma pair_of_string k v :
  cstring k → cstring v → pair_of (enc k ++ chr_EQ :: enc v) = (k, v).
Proof.
  intros Hk Hv. destruct (enc_ok k Hk) as (_ & Pk & Dk & _). destruct (enc_ok v Hv) as (_ & _ & Dv & _).
  unfold pair_of. destruct (cut_plain chr_EQ (enc k) (enc v)) as [-> _].
  - eapply Forall_impl; [exact Pk|]. unfold plain. tauto.
  - simpl. by rewrite Dk, Dv.
Qed.

Lemma query_pairs_string l :
  l ≠ [] → Forall pair_ok l → query_pairs (query_string l) = l.
Proof.
  intros Hne Hl. unfold query_pairs.
  destruct (cut_plain chr_HASH (query_string l) []) as [_ ->]; [by apply query_string_no_hash|].
  cbn [fst]. unfold split_on. induction Hl as [|[k v] l [Hk Hv] Hl IH]; [done|].
  cbn [query_string fst snd] in *.
  destruct (enc_ok k Hk) as (_ & Pk & _). destruct (enc_ok v Hv) as (_ & Pv & _).
  assert (Forall (λ c, c ≠ chr_AMP) (enc k ++ chr_EQ :: enc v)) as Hp.
  { apply Forall_app. split; [|constructor; [lia|]]; (eapply Forall_impl; [done|]); unfold plain; tauto. }
  destruct l as [|x l].
  - rewrite app_nil_r. destruct (split_plain chr_AMP [] _ [] Hp) as [_ ->]. simpl.
    f_equal. by apply pair_of_string.
  - replace (enc k ++ 61 :: enc v ++ 38 :: query_string (x :: l))
      with ((enc k ++ 61 :: enc v) ++ 38 :: query_string (x :: l)) by (rewrite <- app_assoc; done).
    destruct (split_plain chr_AMP [] _ (query_string (x :: l)) Hp) as [-> _].
    rewrite fmap_cons. f_equal; [by apply pair_of_string|]. by apply IH.
Qed.

Section Stringify.
Variable alloc : Z → bool.
Variable junk : Z.
Hypothesis alloc_bound : ∀ n, alloc n = true → n <= PTRDIFF_MAX.
Hypothesis alloc_ok : ∀ n, n <= PTRDIFF_MAX → alloc n = true.

Lemma urlencode_alloc_ok s :
  cstring s → zlen (enc s) <= 2 ^ 59 → urlencode_alloc alloc s = Some (Some (enc s)).
Proof.
  intros Hs Hl. destruct (enc_ok s Hs) as (He & _ & _ & Hle). unfold urlencode_alloc.
  rewrite alloc_ok by (unfold PTRDIFF_MAX; lia). by rewrite He.
Qed.

Lemma append_or_keep_ok u x :
  Growing u → zlen (contents u) + zlen x <= 2 ^ 59 →
  ∃ u', append_or_keep alloc junk u x = Some u' ∧ Growing u' ∧ contents u' = contents u ++ x.
Proof.
  intros Hg Hl. unfold append_or_keep.
  destruct (str_append_total alloc junk alloc_bound u x alloc_ok Hg Hl) as (u' & -> & ? & ?). eauto.
Qed.

Lemma appendc_or_keep_ok u ch :
  Growing u → zlen (contents u) + 1 <= 2 ^ 59 →
  ∃ u', appendc_or_keep alloc junk u ch = Some u' ∧ Growing u' ∧ contents u' = contents u ++ [ch].
Proof.
  intros Hg Hl. unfold appendc_or_keep.
  destruct (str_appendc_total alloc junk alloc_bound u ch alloc_ok Hg Hl) as (u' & -> & ? & ?). eauto.
Qed.

Lemma stringify_loop_ok fuel h p uri l :
  chain fuel h p = Some l → Forall pair_ok l → Growing uri →
  zlen (contents uri) + zlen (query_string l) <= 2 ^ 59 →
  ∃ uri', stringify_loop alloc junk fuel h p uri = Some (Some uri') ∧ Growing uri' ∧
          contents uri' = contents uri ++ query_string l.
Proof.
  revert p uri l. induction fuel as [|fuel IH]; intros [a|] uri l Hch Hl Hg Hb; cbn [chain] in Hch;
    try discriminate; try (simplify_eq; exists uri; rewrite app_nil_r; done).
  destruct (load h a) as [q|] eqn:Hq; [|done]. simpl in Hch.
  destruct (key q) as [k|] eqn:Ek; [|done]. simpl in Hch.
  destruct (value q) as [v|] eqn:Ev; [|done]. simpl in Hch.
  destruct (chain fuel h (next q)) as [l'|] eqn:Hl'; [|done]. simplify_eq/=.
  apply Forall_cons_iff in Hl as [[Hk Hv] Hl]. simpl in Hk, Hv.
  rewrite zlen_app, zlen_cons, zlen_app in Hb.
  pose proof (zlen_nonneg (contents uri)). pose proof (zlen_nonneg (enc k)).
  pose proof (zlen_nonneg (enc v)).
  assert (next q = None ↔ l' = []) as Hnx.
  { destruct (next q) as [a'|] eqn:En; [|by destruct fuel; simplify_eq/=].
    split; [done|]. intros ->. by apply chain_not_nil in Hl'. }
  set (tl := match l' with [] => [] | _ => 38 :: query_string l' end) in *.
  pose proof (zlen_nonneg tl).
  rewrite Hq. simpl. rewrite Ek. simpl. rewrite cstr_cstring, urlencode_alloc_ok by (done || lia).
  simpl. rewrite Ev. simpl. rewrite cstr_cstring, urlencode_alloc_ok by (done || lia). simpl.
  destruct (append_or_keep_ok uri (enc k)) as (u1 & -> & G1 & C1); [done|lia|]. simpl.
  destruct (appendc_or_keep_ok u1 chr_EQ) as (u2 & -> & G2 & C2); [done|rewrite C1, zlen_app; lia|]. simpl.
  destruct (append_or_keep_ok u2 (enc v)) as (u3 & -> & G3 & C3);
    [done|rewrite C2, C1, !zlen_app; change (zlen [61]) with 1; lia|]. simpl.
  rewrite C2, C1, <- !app_assoc in C3. cbn [app] in C3.
  destruct (next q) as [a'|] eqn:En.
  - assert (tl = 38 :: query_string l') as Htl.
    { subst tl. destruct l'; [|done]. by pose proof (proj2 Hnx eq_refl). }
    rewrite Htl, zlen_cons in Hb.
    destruct (appendc_or_keep_ok u3 chr_AMP) as (u4 & -> & G4 & C4);
      [done|rewrite C3, !zlen_app, zlen_cons; pose proof (zlen_nonneg (query_string l')); lia|].
    simpl. destruct (IH (Some a') u4 l') as (u5 & -> & G5 & C5); [done|done|done| |].
    { rewrite C4, C3, !zlen_app, zlen_cons. change (zlen [38]) with 1. lia. }
    exists u5. split_and!; [done..|]. by rewrite C5, C4, C3, Htl, <- !app_assoc.
  - simpl. pose proof (proj1 Hnx eq_refl) as ->. subst tl. exists u3. rewrite C3, app_nil_r.
    destruct fuel; split_and!; done.
Qed.
End Stringify.

(** ** Main theorems *)

(** C35: with memory available, [queryparser_parse] succeeds on every string and
    start position, and leaves a chain of live nodes that holds the pairs of the
    query (cut at ampersands up to the fragment, each piece cut at its first equals
    sign, both halves URL-decoded, a missing value empty); the request's own
    pointers, maintained by the callback, end up at the same chain. *)
Theorem queryparser_parses (alloc : Z → bool) (string : list Z) (start_pos : Z) (h : heap) :
  (∀ n, alloc n = true) → 0 <= start_pos <= zlen string →
  ∃ p, queryparser_parse alloc string start_pos h (RequestQueries None None) = Some p ∧
    result p = QUERYPARSER_OK ∧
    chain (length (p_heap p)) (p_heap p) (out_first p)
      = Some (query_pairs (drop (Z.to_nat start_pos) string)) ∧
    p_request p = RequestQueries (out_first p) (out_last p).
Proof.
  intros Ha Hs. destruct (queryparser_parse_ok alloc Ha h string start_pos Hs)
    as (p & Hp & Hr & (l & k & v & El & Eh) & Hf & _ & Hreq).
  exists p. split_and!; [done..| |done]. rewrite Hf, Eh, El. apply chain_parsing.
  rewrite length_parsing. unfold last_addr. lia.
Qed.

Lemma queryparser_parses_witness :
  ∃ p, queryparser_parse (λ _, true) (bs "/s?a=1%2B&b&=x#f") 3 [] (RequestQueries None None) = Some p ∧
    result p = QUERYPARSER_OK ∧
    chain (length (p_heap p)) (p_heap p) (out_first p)
      = Some [(bs "a", bs "1+"); (bs "b", []); ([], bs "x")] ∧
    p_request p = RequestQueries (out_first p) (out_last p).
Proof.
  apply (queryparser_parses (λ _, true) (bs "/s?a=1%2B&b&=x#f") 3 []);
    [reflexivity|vm_compute; split; discriminate].
Defined.

(** whatever allocations fail, the query parser touches only live nodes. When
    it fails it has freed its whole chain, but the request it was called for keeps
    pointing at the first freed node: releasing that request afterwards, as the
    request parser does, dereferences freed memory. *)
Theorem queryparser_failure_dangles (alloc : Z → bool) (string : list Z) (pos : Z) (h : heap)
    (h' : heap) (r : request_queries) :
  0 <= pos < zlen string → alloc SIZEOF_QUERY = true →
  set_query alloc string pos h (RequestQueries None None) = Some (false, h', r) →
  query_ r = Some (length h) ∧ load h' (length h) = None ∧
  queries_free (length h') h' (query_ r) = None.
Proof.
  intros Hp Ha. unfold set_query, queryparser_parse.
  assert (append_query alloc h None None (RequestQueries None None)
    = Some (true, parsing h [] (Query None None None), Some (length h), Some (last_addr h []),
            request_at h [])) as ->.
  { unfold append_query, query_create. rewrite Ha. simpl. unfold request_at, parsing, last_addr.
    simpl. by rewrite Nat.add_0_r. }
  cbn [mbind option_bind].
  destruct (queryparser_loop_any alloc h (take (Z.to_nat (pos + 1)) string) []
     (drop (Z.to_nat (pos + 1)) string) [] (pos + 1) (pos + 1) false 0 (pos + 1))
    as (p & Hpp & Hres); [done|rewrite zlen_take; lia|rewrite (@zlen_nil Z); lia|].
  cbn [app] in Hpp. rewrite take_drop in Hpp. rewrite Hpp. cbn [mbind option_bind].
  destruct (result p) eqn:E; [done|]. intros [= <- <-].
  destruct Hres as [Hres|(_ & _ & _ & n & Hh & Hq)]; [done|].
  assert (load (p_heap p) (length h) = None) as Hl.
  { rewrite Hh. unfold load, released. rewrite lookup_app_r, Nat.sub_diag by lia. done. }
  split_and!; [done..|]. rewrite Hq. destruct (length (p_heap p)) eqn:El; cbn [queries_free]; [done|].
  by rewrite Hl.
Qed.

Lemma queryparser_failure_dangles_witness :
  ∃ h' r, set_query (λ n, negb (n =? 3)) (bs "/?a=bb") 1 [] (RequestQueries None None)
            = Some (false, h', r) ∧
    query_ r = Some 0%nat ∧ load h' 0 = None ∧ queries_free (length h') h' (query_ r) = None.
Proof.
  eexists _, _. split; [vm_compute; reflexivity|].
  apply (queryparser_failure_dangles (λ n, negb (n =? 3)) (bs "/?a=bb") 1 []);
    [vm_compute; split; [discriminate|reflexivity]|reflexivity|vm_compute; reflexivity].
Defined.

(** printing a chain of pairs (their keys and values C strings) and parsing the
    result gives the pairs back: [query_stringify] succeeds when memory is
    available, and its output is read by the parser as exactly the same list. *)
Theorem query_string_roundtrip (alloc : Z → bool) (junk : Z) (h : heap) (a : nat)
    (l : list (list Z * list Z)) :
  (∀ n, alloc n = true ↔ n <= PTRDIFF_MAX) → chain (length h) h (Some a) = Some l →
  Forall pair_ok l → zlen (query_string l) <= 2 ^ 59 →
  ∃ s, query_stringify alloc junk h (Some a) = Some (Some (s ++ [0])) ∧ query_pairs s = l.
Proof.
  intros Ha Hc Hl Hb.
  assert (∀ n, alloc n = true → n <= PTRDIFF_MAX) as Ha1 by (intros n; apply Ha).
  assert (∀ n, n <= PTRDIFF_MAX → alloc n = true) as Ha2 by (intros n; apply Ha).
  unfold query_stringify.
  destruct (str_create_empty_ok alloc junk 256) as (d & -> & Hd & Hs). simpl.
  destruct Hd as (u & ->); [apply Ha2; unfold SIZEOF_STR, PTRDIFF_MAX; lia|].
  destruct (Hs u eq_refl) as [Hg Hc0].
  destruct (stringify_loop_ok alloc junk Ha1 Ha2 (length h) h (Some a) u l) as (u' & -> & Hg' & Hc');
    [done|done|done|rewrite Hc0, (@zlen_nil Z); lia|]. simpl.
  destruct (str_copy_ok alloc junk u' (growing_inv u' Hg')) as [_ ->].
  rewrite Hc0 in Hc'. simpl in Hc'. unfold str_size.
  rewrite <- (zlen_contents u' (growing_inv u' Hg')), Hc', Ha2 by (unfold PTRDIFF_MAX; lia).
  exists (query_string l). split; [done|]. apply query_pairs_string; [|done].
  intros ->. by apply chain_not_nil in Hc.
Qed.

Definition two_queries : heap :=
  [Some (Query (Some (bs "na me")) (Some (bs "a&b")) (Some 1%nat));
   Some (Query (Some (bs "x")) (Some []) None)].

Lemma query_string_roundtrip_witness :
  ∃ s, query_stringify (λ n, n <=? PTRDIFF_MAX) 7 two_queries (Some 0%nat) = Some (Some (s ++ [0])) ∧
       query_pairs s = [(bs "na me", bs "a&b"); (bs "x", [])].
Proof.
  apply query_string_roundtrip;
    [intros n; apply Z.leb_le|reflexivity| |vm_compute; discriminate].
  repeat constructor; simpl; lia.
Defined.
