(* ===== verification/CookieParser.v ===== *)
(** The Cookie header parser, [protocols/http/server/parsers/cookieparser.c].

    The loop runs one step past the buffer, where it sees a virtual end of token;
    every read is checked. The result list is the [http_cookie_t] chain in order. *)

From S2P Require Import Prelude QueryParser.

Record cookieparser : Set := CookieParser {
  error : option (list Z);
  cookie : list (list Z * list Z) }.

Definition cookieparser_init : cookieparser := CookieParser None [].

Definition SIZEOF_COOKIE : Z := 40.

Section Parse.
Variable alloc : Z → bool.

(** Skip spaces: the first non-space index in [key_start, eq_pos], or [eq_pos]. *)
Fixpoint skip_spaces (fuel : nat) (buffer : list Z) (key_start eq_pos : Z) : option Z :=
  match fuel with
  | O => Some key_start
  | S fuel' =>
      if key_start <? eq_pos then
        c ← mem_get buffer key_start;
        if c =? chr_SP then skip_spaces fuel' buffer (key_start + 1) eq_pos else Some key_start
      else Some key_start
  end.

(** A token ends at [i]: keep it when it has an equals sign and a key. *)
Definition end_token (p : cookieparser) (buffer : list Z) (token_start eq_pos : Z) (has_eq : bool)
    (i : Z) : option (bool * cookieparser) :=
  if has_eq then
    key_start ← skip_spaces (Z.to_nat (eq_pos - token_start)) buffer token_start eq_pos;
    let key_length := eq_pos - key_start in
    let value_start := eq_pos + 1 in
    let value_length := i - value_start in
    if 0 <? key_length then
      if alloc SIZEOF_COOKIE then
        kb ← mem_read buffer key_start key_length;
        vb ← mem_read buffer value_start value_length;
        match copy_cstringn alloc kb, copy_cstringn alloc vb with
        | Some k, Some v => Some (true, CookieParser (error p) (cookie p ++ [(k, v)]))
        | _, _ => Some (false, CookieParser
            (Some (bs "cookie parser: failed to allocate key or value")) (cookie p))
        end
      else Some (false, CookieParser
        (Some (bs "cookie parser: failed to allocate cookie")) (cookie p))
    else Some (true, p)
  else Some (true, p).

(** [rest] are the bytes of [buffer] from [i] on. *)
Fixpoint cookieparser_loop (p : cookieparser) (buffer rest : list Z) (i token_start eq_pos : Z)
    (has_eq : bool) : option (bool * cookieparser) :=
  match rest with
  | [] => end_token p buffer token_start eq_pos has_eq i
  | ch :: rest' =>
      if (ch =? chr_EQ) && negb has_eq
      then cookieparser_loop p buffer rest' (i + 1) token_start i true
      else if ch =? chr_SEMI then
        '(ok, p') ← end_token p buffer token_start eq_pos has_eq i;
        if (ok : bool) then cookieparser_loop p' buffer rest' (i + 1) (i + 1) eq_pos false
        else Some (false, p')
      else cookieparser_loop p buffer rest' (i + 1) token_start eq_pos has_eq
  end.

Definition cookieparser_parse (p : cookieparser) (buffer : list Z) : option (bool * cookieparser) :=
  cookieparser_loop p buffer buffer 0 0 0 false.
End Parse.

(** ** Specification *)

Fixpoint trim_left (l : list Z) : list Z :=
  match l with c :: l' => if c =? chr_SP then trim_left l' else l | [] => [] end.

(** A token is a cookie when it has an equals sign and a non-blank key. *)
Definition cookie_of (token : list Z) : option (list Z * list Z) :=
  match cut chr_EQ token with
  | (_, None) => None
  | (k, Some v) => match trim_left k with [] => None | k' => Some (k', v) end
  end.

Definition cookies_of (buffer : list Z) : list (list Z * list Z) :=
  omap cookie_of (split_on chr_SEMI buffer).

(** ** Lemmas *)

Lemma mem_get_middle (a : list Z) x c i : i = zlen a → mem_get (a ++ x :: c) i = Some x.
Proof.
  intros ->. pose proof (zlen_nonneg a). rewrite mem_get_lookup by lia. unfold zlen.
  rewrite Nat2Z.id. by apply list_lookup_middle.
Qed.

Lemma mem_read_middle (a b c : list Z) i n :
  i = zlen a → n = zlen b → mem_read (a ++ b ++ c) i n = Some b.
Proof.
  intros -> ->. pose proof (zlen_nonneg a). pose proof (zlen_nonneg b). pose proof (zlen_nonneg c).
  rewrite mem_read_Some by (rewrite ?zlen_app; lia). f_equal.
  rewrite drop_app_length' by (unfold zlen; lia). by rewrite take_app_length' by (unfold zlen; lia).
Qed.

Lemma skip_spaces_ok fuel pre k rest start stop :
  start = zlen pre → stop = start + zlen k → fuel = length k →
  ∃ sp, k = sp ++ trim_left k ∧
        skip_spaces fuel (pre ++ k ++ rest) start stop = Some (start + zlen sp).
Proof.
  revert fuel pre start. induction k as [|c k IH]; intros fuel pre start Hs He Hf.
  - exists []. split; [done|]. rewrite (@zlen_nil Z), Z.add_0_r. subst fuel. simpl. done.
  - subst fuel. cbn [length skip_spaces trim_left app]. rewrite zlen_cons in He.
    pose proof (zlen_nonneg k). destruct (Z.ltb_spec start stop); [|lia].
    rewrite (mem_get_middle pre) by done. simpl. destruct (Z.eqb_spec c chr_SP) as [->|].
    + destruct (IH (length k) (pre ++ [32]) (start + 1)) as (sp & Hk & Hsk);
        [rewrite zlen_app; change (zlen [32]) with 1; lia|lia|done|].
      exists (32 :: sp). rewrite <- app_assoc in Hsk. simpl in Hsk. split; [simpl; by f_equal|].
      rewrite Hsk, zlen_cons. f_equal. lia.
    + exists []. rewrite (@zlen_nil Z), Z.add_0_r. done.
Qed.

(** Where the current token [cur], which starts at [ts], has its first equals sign. *)
Definition eq_state (cur : list Z) (ts eq : Z) (he : bool) : Prop :=
  match cut chr_EQ cur with
  | (_, None) => he = false
  | (k, Some v) => he = true ∧ eq = ts + zlen k ∧ cur = k ++ chr_EQ :: v
  end.

Lemma eq_state_step cur ts eq he c :
  eq_state cur ts eq he →
  if (c =? chr_EQ) && negb he then eq_state (cur ++ [c]) ts (ts + zlen cur) true
  else eq_state (cur ++ [c]) ts eq he.
Proof.
  unfold eq_state. rewrite cut_snoc. destruct (cut chr_EQ cur) as [k [v|]] eqn:E.
  - intros (-> & Heq & ->). rewrite andb_false_r. by rewrite <- app_assoc.
  - intros ->. apply cut_none in E as ->. rewrite andb_true_r.
    destruct (Z.eqb_spec c chr_EQ) as [->|]; done.
Qed.

Section Refinement.
Variable alloc : Z → bool.

Definition add (p : cookieparser) (token : list Z) : cookieparser :=
  CookieParser (error p) (cookie p ++ match cookie_of token with Some c => [c] | None => [] end).

Lemma end_token_ok p pre cur rest ts eq he i :
  eq_state cur ts eq he → ts = zlen pre → i = ts + zlen cur →
  ∃ ok p', end_token alloc p (pre ++ cur ++ rest) ts eq he i = Some (ok, p') ∧
    (ok = true → p' = add p cur) ∧ (ok = false → is_Some (error p')) ∧
    ((∀ n, alloc n = true) → ok = true).
Proof.
  intros Hc Hts Hi. unfold eq_state, end_token, add, cookie_of in *.
  destruct (cut chr_EQ cur) as [k [v|]].
  2: { subst he. eexists _, _. split_and!; [done| |done|done]. rewrite app_nil_r. by destruct p. }
  destruct Hc as (-> & Heq & ->).
  destruct (skip_spaces_ok (Z.to_nat (eq - ts)) pre k ((chr_EQ :: v) ++ rest) ts eq)
    as (sp & Hk & Hsk); [done|done|unfold zlen in *; lia|].
  rewrite <- app_assoc. rewrite Hsk. simpl. pose proof (zlen_nonneg (trim_left k)).
  assert (zlen k = zlen sp + zlen (trim_left k)) as Hlen by (rewrite Hk at 1; apply zlen_app).
  rewrite zlen_app, zlen_cons in Hi.
  destruct (Z.ltb_spec 0 (eq - (ts + zlen sp))) as [Hp|Hp].
  2: { rewrite (zlen_0_nil (trim_left k)) by lia. eexists _, _.
       split_and!; [done| |done|done]. rewrite app_nil_r. by destruct p. }
  destruct (trim_left k) as [|x k'] eqn:Et; [rewrite (@zlen_nil Z) in *; lia|].
  destruct (alloc SIZEOF_COOKIE) eqn:Ea.
  2: { eexists _, _. split_and!; [done|done|by eexists|]. intros Ha. by rewrite Ha in Ea. }
  assert (mem_read (pre ++ k ++ 61 :: v ++ rest) (ts + zlen sp) (eq - (ts + zlen sp))
          = Some (x :: k')) as ->.
  { rewrite Hk, <- app_assoc, (app_assoc pre). apply mem_read_middle; rewrite ?zlen_app; lia. }
  assert (mem_read (pre ++ k ++ 61 :: v ++ rest) (eq + 1) (i - (eq + 1)) = Some v) as ->.
  { replace (pre ++ k ++ 61 :: v ++ rest) with ((pre ++ k ++ [61]) ++ v ++ rest)
      by (by rewrite <- !app_assoc).
    apply mem_read_middle; rewrite ?zlen_app; change (zlen [61]) with 1; lia. }
  cbn [mbind option_bind].
  unfold copy_cstringn.
  destruct (alloc (zlen (x :: k') + 1)) eqn:Ek, (alloc (zlen v + 1)) eqn:Ev;
    eexists _, _; (split; [done|]).
  1: { done. }
  all: split_and!; [done|by eexists|]; intros Ha; by rewrite Ha in *.
Qed.

Definition add_all (p : cookieparser) (tokens : list (list Z)) : cookieparser := foldl add p tokens.

Lemma cookieparser_loop_ok p pre cur rest ts eq he i :
  eq_state cur ts eq he → ts = zlen pre → i = ts + zlen cur →
  ∃ ok p', cookieparser_loop alloc p (pre ++ cur ++ rest) rest i ts eq he = Some (ok, p') ∧
    (ok = true → p' = add_all p (split_on_aux chr_SEMI cur rest)) ∧
    (ok = false → is_Some (error p')) ∧ ((∀ n, alloc n = true) → ok = true).
Proof.
  revert p pre cur ts eq he i. induction rest as [|c rest IH]; intros p pre cur ts eq he i Hc Hts Hi.
  - cbn [cookieparser_loop]. by apply end_token_ok.
  - pose proof (eq_state_step cur ts eq he c Hc) as Hstep.
    assert (∀ eq' he', eq_state (cur ++ [c]) ts eq' he' → c ≠ chr_SEMI →
      ∃ ok p', cookieparser_loop alloc p (pre ++ cur ++ c :: rest) rest (i + 1) ts eq' he'
                 = Some (ok, p') ∧
        (ok = true → p' = add_all p (split_on_aux chr_SEMI cur (c :: rest))) ∧
        (ok = false → is_Some (error p')) ∧ ((∀ n, alloc n = true) → ok = true)) as Hgo.
    { intros eq' he' Hs Hn.
      destruct (IH p pre (cur ++ [c]) ts eq' he' (i + 1)) as (ok & p' & Hl & Hr); [done|done| |].
      { rewrite zlen_app. change (zlen [c]) with 1. lia. }
      exists ok, p'. rewrite <- app_assoc in Hl. split; [done|]. cbn [split_on_aux].
      by destruct (Z.eqb_spec c chr_SEMI). }
    cbn [cookieparser_loop]. destruct (Z.eqb_spec c chr_EQ) as [->|Hne]; cbn [andb].
    { destruct he; cbn [negb andb] in *; [by apply Hgo|]. subst i. by apply Hgo. }
    destruct (Z.eqb_spec c chr_SEMI) as [->|Hns]; [|by apply Hgo].
    destruct (end_token_ok p pre cur (59 :: rest) ts eq he i Hc Hts Hi)
      as (ok & p1 & -> & Hok & Herr & Hal). cbn [mbind option_bind].
    destruct ok; [|by eexists _, _].
    destruct (IH p1 (pre ++ cur ++ [59]) [] (i + 1) eq false (i + 1)) as (ok & p' & Hl & Hr & Hrest);
      [done|rewrite !zlen_app; change (zlen [59]) with 1; lia|rewrite (@zlen_nil Z); lia|].
    rewrite <- !app_assoc in Hl. exists ok, p'. split; [done|]. split; [|done].
    intros Ho. rewrite (Hr Ho), (Hok eq_refl). done.
Qed.

Lemma add_all_cookies p tokens :
  add_all p tokens = CookieParser (error p) (cookie p ++ omap cookie_of tokens).
Proof.
  revert p. induction tokens as [|t tokens IH]; intros p; simpl.
  - rewrite app_nil_r. by destruct p.
  - unfold add_all in *. rewrite IH. unfold add. simpl.
    destruct (cookie_of t); by rewrite <- app_assoc.
Qed.

Lemma cookieparser_parse_ok p buffer :
  ∃ ok p', cookieparser_parse alloc p buffer = Some (ok, p') ∧
    (ok = true → p' = CookieParser (error p) (cookie p ++ cookies_of buffer)) ∧
    (ok = false → is_Some (error p')) ∧ ((∀ n, alloc n = true) → ok = true).
Proof.
  destruct (cookieparser_loop_ok p [] [] buffer 0 0 false 0) as (ok & p' & Hl & Hr & Hrest); [done..|].
  exists ok, p'. split; [done|]. split; [|done]. intros Ho.
  rewrite (Hr Ho). apply add_all_cookies.
Qed.
End Refinement.

(** C38: the cookie parser reads only inside the header value and, unless an
    allocation fails, succeeds with exactly the cookies of the value: the value cut
    at semicolons, each token cut at its first equals sign, leading spaces of the
    key dropped, tokens without equals sign or without key skipped. *)
Theorem cookieparser_exact (alloc : Z → bool) (buffer : list Z) :
  ∃ ok p, cookieparser_parse alloc cookieparser_init buffer = Some (ok, p) ∧
    (ok = true → error p = None ∧ cookie p = cookies_of buffer) ∧
    (ok = false → is_Some (error p)) ∧ ((∀ n, alloc n = true) → ok = true).
Proof.
  destruct (cookieparser_parse_ok alloc cookieparser_init buffer) as (ok & p & H1 & H2 & H3).
  exists ok, p. split; [done|]. split; [|done]. intros Ho. by rewrite (H2 Ho).
Qed.

Example cookies_of_example :
  cookies_of (bs "a=1; flag; b=x=y;  =z;c=") = [(bs "a", bs "1"); (bs "b", bs "x=y"); (bs "c", [])].
Proof. reflexivity. Qed.
