(* ===== verification/RangeParser.v ===== *)
(** The Range header parser [httpparser_parse_range] of [httprequestparser.c].

    The list under construction is the [http_ranges_t] chain in order; its last
    element is [last_range], the one node the code still writes to. The argument is
    the header value; the block the code reads is the value and its terminator. *)

From S2P Require Import Prelude QueryParser CookieParser.

(** A bound of -1 is an absent one. *)
Record http_range : Set := Range { start : Z; end_ : Z }.

Definition LLONG_MAX : Z := 2 ^ 63 - 1.
Definition LLONG_MIN : Z := - 2 ^ 63.

(** ** [strtoll] in base 10 *)

Definition isspace (c : Z) : bool := (c =? 32) || ((9 <=? c) && (c <=? 13)).

(** The digits at the front of [l]: their value on top of [acc], and how many. *)
Fixpoint digits (l : list Z) (acc : Z) (n : Z) : Z * Z :=
  match l with
  | c :: l' => if isdigit c then digits l' (acc * 10 + (c - 48)) (n + 1) else (acc, n)
  | [] => (acc, n)
  end.

Fixpoint skip_white (l : list Z) (n : Z) : list Z * Z :=
  match l with
  | c :: l' => if isspace c then skip_white l' (n + 1) else (l, n)
  | [] => ([], n)
  end.

(** The value and the number of bytes consumed, 0 when there is no number. *)
Definition strtoll (l : list Z) : Z * Z :=
  let '(l1, n1) := skip_white l 0 in
  let '(neg, l2, n2) :=
    match l1 with
    | c :: l' => if c =? 45 then (true, l', n1 + 1)
                 else if c =? 43 then (false, l', n1 + 1) else (false, l1, n1)
    | [] => (false, [], n1)
    end in
  let '(v, n) := digits l2 0 0 in
  if n =? 0 then (0, 0)
  else (Z.max LLONG_MIN (Z.min LLONG_MAX (if (neg : bool) then - v else v)), n2 + n).

(** ** The parser *)

Definition SIZEOF_RANGES : Z := 24.

Section Parse.
Variable alloc : Z → bool.

Definition httpresponse_init_ranges : option http_range :=
  if alloc SIZEOF_RANGES then Some (Range (-1) (-1)) else None.

(** The number in [str] at [start_position], when it ends exactly at [i]. *)
Definition number_to (str : list Z) (start_position i : Z) : option Z :=
  let '(v, n) := strtoll (drop (Z.to_nat start_position) str) in
  if start_position + n =? i then Some v else None.

(** Replace the end of the last range. *)
Definition set_last_end (ranges : list http_range) (e : Z) : list http_range :=
  match list.last ranges with
  | Some r => removelast ranges ++ [Range (start r) e]
  | None => ranges
  end.

(** [last_range] is NULL or satisfies the test. *)
Definition last_is (ranges : list http_range) (test : http_range → bool) : bool :=
  match list.last ranges with Some r => test r | None => false end.

(** One number that closes a range ([','] branch and the tail): [None] is the
    [failed] label, [Some None] a NULL dereference of [last_range]. *)
Definition close_range (ranges : list http_range) (start_finded : bool) (e : Z)
    : option (option (list http_range)) :=
  if last_is ranges (λ r, e <? start r) then None
  else if negb start_finded then None
  else match list.last ranges with
       | None => Some None
       | Some r => Some (Some (if end_ r <=? e then set_last_end ranges e else ranges))
       end.

Inductive outcome : Set :=
| Failed
| NullDeref
| Ok (ranges : list http_range).

(** [rest] are the bytes of the value from [i] on, [prev] the byte before. *)
Fixpoint range_loop (str rest : list Z) (i prev start_position : Z) (start_finded : bool)
    (ranges : list http_range) : outcome :=
  match rest with
  | [] =>
      if start_position <? i then
        if 10 <? i - start_position then Failed
        else
          let '(e, n) := strtoll (drop (Z.to_nat start_position) str) in
          if n =? 0 then Failed
          else match close_range ranges start_finded e with
               | None => Failed
               | Some None => NullDeref
               | Some (Some ranges') => Ok ranges'
               end
      else if start_finded then Ok (set_last_end ranges (-1)) else Ok ranges
  | c :: rest' =>
      if isdigit c then range_loop str rest' (i + 1) c start_position start_finded ranges
      else if c =? chr_MINUS then
        if last_is ranges (λ r, end_ r =? -1) then Failed
        else if last_is ranges (λ r, start r =? -1) then Failed
        else if start_position <? i then
          if 10 <? i - start_position then Failed
          else
            match number_to str start_position i with
            | None => Failed
            | Some s =>
                if last_is ranges (λ r, s <? start r) then Failed
                else if last_is ranges (λ r, (-1 <? start r) && (s <=? end_ r)) then
                  range_loop str rest' (i + 1) c (i + 1) true ranges
                else
                  match httpresponse_init_ranges with
                  | None => Failed
                  | Some r => range_loop str rest' (i + 1) c (i + 1) true (ranges ++ [Range s (end_ r)])
                  end
            end
        else
          match httpresponse_init_ranges with
          | None => Failed
          | Some r => range_loop str rest' (i + 1) c (i + 1) true (ranges ++ [r])
          end
      else if c =? chr_COMMA then
        if start_position <? i then
          if 10 <? i - start_position then Failed
          else
            match number_to str start_position i with
            | None => Failed
            | Some e =>
                match close_range ranges start_finded e with
                | None => Failed
                | Some None => NullDeref
                | Some (Some ranges') => range_loop str rest' (i + 1) c (i + 1) false ranges'
                end
            end
        else range_loop str rest' (i + 1) c (i + 1) false ranges
      else if c =? chr_SP then
        if prev =? chr_COMMA then range_loop str rest' (i + 1) c (i + 1) start_finded ranges
        else Failed
      else Failed
  end.

(** [&&] over the six bytes of the prefix: stops at the first mismatch, so it never
    reads past the terminator of a short value. *)
Fixpoint has_prefix (block expected : list Z) {struct expected} : option bool :=
  match expected with
  | [] => Some true
  | e :: expected' =>
      match block with
      | [] => None
      | b :: block' => if b =? e then has_prefix block' expected' else Some false
      end
  end.

(** [None] is an unsafe access; the chain is empty for NULL. *)
Definition httpparser_parse_range (value : list Z) : option (list http_range) :=
  let str := value ++ [0] in
  p ← has_prefix str (bs "bytes=");
  if (p : bool) then
    match range_loop str (drop 6 value) 6 61 6 false [] with
    | Failed => Some []
    | NullDeref => None
    | Ok ranges => Some ranges
    end
  else Some [].
End Parse.

Example ranges_merge :
  httpparser_parse_range (λ _, true) (bs "bytes=0-5,3-9, 20-") = Some [Range 0 9; Range 20 (-1)].
Proof. reflexivity. Qed.

Example ranges_suffix : httpparser_parse_range (λ _, true) (bs "bytes=-500") = Some [Range (-1) 500].
Proof. reflexivity. Qed.

Example ranges_reject : httpparser_parse_range (λ _, true) (bs "bytes=5-3") = Some [].
Proof. reflexivity. Qed.

(** ** What a parsed list looks like *)

Definition RANGE_MAX : Z := 10 ^ 10 - 1.

(** The last range may be open ([end_] absent) or a suffix ([start] absent). *)
Definition last_ok (r : http_range) : Prop :=
  -1 <= start r <= RANGE_MAX ∧ -1 <= end_ r <= RANGE_MAX ∧ (end_ r = -1 ∨ start r <= end_ r).

Definition closed (r : http_range) : Prop := 0 <= start r <= end_ r ∧ end_ r <= RANGE_MAX.

(** Closed ranges in ascending order without overlap, then the last one. *)
Fixpoint wf_ranges (l : list http_range) : Prop :=
  match l with
  | [] => True
  | r :: l' =>
      match l' with
      | [] => last_ok r
      | r2 :: _ => closed r ∧ (start r2 = -1 ∨ end_ r < start r2)
      end ∧ wf_ranges l'
  end.

Lemma wf_snoc l r r' :
  wf_ranges (l ++ [r]) → closed r → last_ok r' → (start r' = -1 ∨ end_ r < start r') →
  wf_ranges (l ++ [r; r']).
Proof.
  induction l as [|x l IH]; [simpl; tauto|]. cbn [app wf_ranges]. destruct l as [|y l]; cbn [app] in *.
  - cbn [wf_ranges]. tauto.
  - intros [H1 H2]. auto.
Qed.

Lemma wf_set_last l r e :
  wf_ranges (l ++ [r]) → last_ok (Range (start r) e) → wf_ranges (l ++ [Range (start r) e]).
Proof.
  induction l as [|x l IH]; [simpl; tauto|]. cbn [app wf_ranges]. destruct l as [|y l]; cbn [app] in *.
  - cbn [wf_ranges start]. tauto.
  - intros [H1 H2]. auto.
Qed.

Lemma wf_last l r : wf_ranges (l ++ [r]) → last_ok r.
Proof.
  induction l as [|x l IH]; [simpl; tauto|]. cbn [app wf_ranges]. intros [_ H]. auto.
Qed.

Lemma set_last_end_snoc l r e : set_last_end (l ++ [r]) e = l ++ [Range (start r) e].
Proof. unfold set_last_end. by rewrite last_snoc, removelast_last. Qed.

(** ** Numbers *)

Definition all_digits (l : list Z) : Prop := Forall (λ c, isdigit c = true) l.

Lemma digits_span l x rest acc n :
  all_digits l → isdigit x = false → 0 <= acc →
  ∃ v, digits (l ++ x :: rest) acc n = (v, n + zlen l) ∧
       0 <= v < (acc + 1) * 10 ^ zlen l.
Proof.
  intros Hl Hx. revert acc n. induction Hl as [|c l Hc _ IH]; intros acc n Ha.
  - exists acc. cbn [app digits]. rewrite Hx, (@zlen_nil Z), Z.add_0_r. split; [done|lia].
  - cbn [app digits]. rewrite Hc. unfold isdigit in Hc. reflect_bools.
    destruct (IH (acc * 10 + (c - 48)) (n + 1)) as (v & -> & Hv); [lia|].
    exists v. rewrite zlen_cons. split; [f_equal; lia|].
    pose proof (zlen_nonneg l). rewrite Z.pow_add_r by lia.
    pose proof (Z.pow_nonneg 10 (zlen l) ltac:(lia)). nia.
Qed.

Lemma isdigit_not_space c : isdigit c = true → isspace c = false ∧ (c =? 45) = false ∧ (c =? 43) = false.
Proof. unfold isdigit, isspace. intros. reflect_bools. repeat split; lia. Qed.

Lemma strtoll_span l x rest :
  all_digits l → l ≠ [] → isdigit x = false → zlen l <= 10 →
  ∃ v, strtoll (l ++ x :: rest) = (v, zlen l) ∧ 0 <= v <= RANGE_MAX.
Proof.
  intros Hl Hne Hx Hb. destruct l as [|c l]; [done|].
  pose proof (Forall_inv Hl) as Hc. destruct (isdigit_not_space c Hc) as (H1 & H2 & H3).
  destruct (digits_span (c :: l) x rest 0 0 Hl Hx ltac:(lia)) as (v & Hv & Hr).
  unfold strtoll. cbn [app skip_white]. rewrite H1, H2, H3.
  cbn [app] in Hv. rewrite Hv. rewrite zlen_cons in *. pose proof (zlen_nonneg l).
  destruct (Z.eqb_spec (0 + (1 + zlen l)) 0); [lia|].
  assert (10 ^ (1 + zlen l) <= 10 ^ 10) by (apply Z.pow_le_mono_r; lia).
  assert (v < 10 ^ 10) by lia. change (10 ^ 10) with 10000000000 in *.
  exists v. unfold RANGE_MAX, LLONG_MAX, LLONG_MIN. split; [|lia]. f_equal. lia.
Qed.

(** ** The loop invariant *)

Record RInv (str rest : list Z) (i start_position : Z) (start_finded : bool)
    (ranges : list http_range) : Prop := {
  ri_wf : wf_ranges ranges;
  ri_found : start_finded = true → ranges ≠ [];
  ri_span : ∃ pre span, str = pre ++ span ++ rest ++ [0] ∧ all_digits span ∧
              start_position = zlen pre ∧ i = start_position + zlen span }.

Lemma close_range_ok ranges sf e :
  wf_ranges ranges → (sf = true → ranges ≠ []) → 0 <= e <= RANGE_MAX →
  match close_range ranges sf e with
  | None => True
  | Some None => False
  | Some (Some r') => wf_ranges r'
  end.
Proof.
  intros Hw Hf He. unfold close_range, last_is.
  destruct ranges as [|r ranges _] using rev_ind.
  - simpl. destruct sf; [by destruct (Hf eq_refl)|done].
  - rewrite last_snoc. destruct (Z.ltb_spec e (start r)); [done|].
    destruct sf; simpl; [|done].
    pose proof (wf_last _ _ Hw) as (? & ? & ?).
    destruct (Z.leb_spec (end_ r) e); [|done]. rewrite set_last_end_snoc.
    apply wf_set_last; [done|]. unfold last_ok. simpl. lia.
Qed.

Lemma span_digit str rest c i sp sf rs :
  RInv str (c :: rest) i sp sf rs → isdigit c = true → RInv str rest (i + 1) sp sf rs.
Proof.
  intros [Hw Hf (pre & span & -> & Hd & -> & ->)] Hc. constructor; [done|done|].
  exists pre, (span ++ [c]). split_and!; [by rewrite <- app_assoc| |done|].
  - apply Forall_app. split; [done|by constructor].
  - rewrite zlen_app. change (zlen [c]) with 1. lia.
Qed.

(** Moving past a separator starts an empty span. *)
Lemma span_next str rest c i sp sf rs sf' rs' :
  RInv str (c :: rest) i sp sf rs → wf_ranges rs' → (sf' = true → rs' ≠ []) →
  RInv str rest (i + 1) (i + 1) sf' rs'.
Proof.
  intros [_ _ (pre & span & -> & Hd & -> & ->)] Hw Hf. constructor; [done|done|].
  exists (pre ++ span ++ [c]), []. split_and!; [by rewrite <- !app_assoc|constructor| |].
  - rewrite !zlen_app. change (zlen [c]) with 1. lia.
  - rewrite (@zlen_nil Z). lia.
Qed.

(** The number the code reads where the current span ends. *)
Lemma span_number str rest i sp sf rs x tl :
  RInv str rest i sp sf rs → sp < i → i - sp <= 10 → rest ++ [0] = x :: tl → isdigit x = false →
  ∃ v, strtoll (drop (Z.to_nat sp) str) = (v, i - sp) ∧ 0 <= v <= RANGE_MAX.
Proof.
  intros [_ _ (pre & span & -> & Hd & -> & ->)] Hlt Hle Hx Hnd.
  rewrite drop_app_length' by (unfold zlen; lia). rewrite Hx.
  replace (zlen pre + zlen span - zlen pre) with (zlen span) by lia.
  apply strtoll_span; [done| |done|lia]. intros ->. rewrite (@zlen_nil Z) in Hlt. lia.
Qed.

Lemma number_to_eq str sp i v :
  strtoll (drop (Z.to_nat sp) str) = (v, i - sp) → number_to str sp i = Some v.
Proof.
  intros H. unfold number_to. rewrite H. destruct (Z.eqb_spec (sp + (i - sp)) i); [done|lia].
Qed.

Section Safety.
Variable alloc : Z → bool.

Definition good (o : outcome) : Prop :=
  match o with Failed => True | NullDeref => False | Ok l => wf_ranges l end.

(** A new range behind a closed last one. *)
Lemma wf_append rs s :
  wf_ranges rs → last_is rs (λ r, end_ r =? -1) = false → last_is rs (λ r, start r =? -1) = false →
  last_is rs (λ r, (-1 <? start r) && (s <=? end_ r)) = false → s <= RANGE_MAX → 0 <= s →
  wf_ranges (rs ++ [Range s (-1)]) ∧ wf_ranges (rs ++ [Range (-1) (-1)]).
Proof.
  intros Hw H1 H2 H3 Hs H0. unfold last_is in *.
  assert (last_ok (Range s (-1)) ∧ last_ok (Range (-1) (-1))) as [L1 L2]
    by (unfold last_ok, RANGE_MAX in *; simpl; lia).
  destruct rs as [|r rs _] using rev_ind; [by simpl|].
  rewrite last_snoc in *. pose proof (wf_last _ _ Hw) as Hl. unfold last_ok in Hl.
  assert (closed r) as Hc by (unfold closed; reflect_bools; lia).
  rewrite <- !app_assoc. cbn [app]. split; apply wf_snoc; try done; simpl; [right|by left].
  unfold closed in Hc. reflect_bools. destruct H3; reflect_bools; lia.
Qed.

Lemma wf_append_suffix rs :
  wf_ranges rs → last_is rs (λ r, end_ r =? -1) = false → last_is rs (λ r, start r =? -1) = false →
  wf_ranges (rs ++ [Range (-1) (-1)]).
Proof.
  intros Hw H1 H2. unfold last_is in *.
  assert (last_ok (Range (-1) (-1))) by (unfold last_ok, RANGE_MAX; simpl; lia).
  destruct rs as [|r rs _] using rev_ind; [by simpl|].
  rewrite last_snoc in *. pose proof (wf_last _ _ Hw) as Hl. unfold last_ok in Hl.
  rewrite <- !app_assoc. apply wf_snoc; [done| |done|by left].
  unfold closed. reflect_bools. lia.
Qed.

Lemma range_loop_good str rest i prev sp sf rs :
  RInv str rest i sp sf rs → good (range_loop alloc str rest i prev sp sf rs).
Proof.
  revert i prev sp sf rs. induction rest as [|c rest IH]; intros i prev sp sf rs Hi; cbn [range_loop].
  - destruct (Z.ltb_spec sp i).
    + destruct (Z.ltb_spec 10 (i - sp)); [done|].
      destruct (span_number str [] i sp sf rs 0 []) as (v & -> & Hv); [done|lia|lia|done|done|].
      destruct (Z.eqb_spec (i - sp) 0); [lia|].
      pose proof (close_range_ok rs sf v (ri_wf _ _ _ _ _ _ Hi) (ri_found _ _ _ _ _ _ Hi) Hv) as H'.
      by destruct (close_range rs sf v) as [[r'|]|].
    + destruct sf; [|apply Hi]. simpl. pose proof (ri_wf _ _ _ _ _ _ Hi) as Hw.
      destruct rs as [|r rs _] using rev_ind; [done|]. rewrite set_last_end_snoc.
      apply wf_set_last; [done|]. pose proof (wf_last _ _ Hw). unfold last_ok in *. simpl.
      unfold RANGE_MAX in *. lia.
  - destruct (isdigit c) eqn:Hd; [by apply IH, span_digit with c|].
    assert (sp < i → i - sp <= 10 →
      ∃ v, number_to str sp i = Some v ∧ 0 <= v <= RANGE_MAX) as Hnum.
    { intros H1 H2. destruct (span_number str (c :: rest) i sp sf rs c (rest ++ [0])) as (v & Hv & ?);
        [done..|]. exists v. split; [by apply number_to_eq|done]. }
    pose proof (ri_wf _ _ _ _ _ _ Hi) as Hw. pose proof (ri_found _ _ _ _ _ _ Hi) as Hf.
    destruct (c =? chr_MINUS).
    { destruct (last_is rs (λ r, end_ r =? -1)) eqn:L1; [done|].
      destruct (last_is rs (λ r, start r =? -1)) eqn:L2; [done|].
      assert (∀ r l, l ++ [r] ≠ ([] : list http_range)) as Hnn by (intros ? []; done).
      unfold httpresponse_init_ranges.
      destruct (Z.ltb_spec sp i).
      - destruct (Z.ltb_spec 10 (i - sp)); [done|]. destruct Hnum as (v & -> & Hv); [lia|lia|].
        destruct (last_is rs (λ r, v <? start r)); [done|].
        destruct (last_is rs (λ r, (-1 <? start r) && (v <=? end_ r))) eqn:L3.
        + apply IH, (span_next _ _ c _ sp sf rs); [done|done|]. intros _ ->. done.
        + destruct (alloc SIZEOF_RANGES); [|done]. apply IH, (span_next _ _ c _ sp sf rs); [done| |done].
          by apply wf_append; [..|lia|lia].
      - destruct (alloc SIZEOF_RANGES); [|done]. apply IH, (span_next _ _ c _ sp sf rs); [done| |done].
        by apply wf_append_suffix. }
    destruct (c =? chr_COMMA).
    { destruct (Z.ltb_spec sp i).
      - destruct (Z.ltb_spec 10 (i - sp)); [done|]. destruct Hnum as (v & -> & Hv); [lia|lia|].
        pose proof (close_range_ok rs sf v Hw Hf Hv) as H'.
        destruct (close_range rs sf v) as [[r'|]|]; [|done|done].
        by apply IH, (span_next _ _ c _ sp sf rs).
      - by apply IH, (span_next _ _ c _ sp sf rs). }
    destruct (c =? chr_SP); [|done]. destruct (prev =? chr_COMMA); [|done].
    by apply IH, (span_next _ _ c _ sp sf rs).
Qed.
End Safety.

(** [has_prefix] never leaves the block, and a match means the value is long enough. *)
Lemma has_prefix_ok value expected :
  Forall (λ c, c ≠ 0) expected →
  ∃ p, has_prefix (value ++ [0]) expected = Some p ∧
       (p = true → ∃ rest, value = expected ++ rest).
Proof.
  intros He. revert value. induction He as [|e expected Hne _ IH]; intros value; cbn [has_prefix].
  - exists true. split; [done|]. by exists value.
  - destruct value as [|b value]; cbn [app].
    + destruct (Z.eqb_spec 0 e); [lia|]. by exists false.
    + destruct (Z.eqb_spec b e) as [->|]; [|by exists false].
      destruct (IH value) as (p & -> & Hp). exists p. split; [done|].
      intros Ht. destruct (Hp Ht) as (rest & ->). by exists rest.
Qed.

Lemma range_parser_ok (alloc : Z → bool) (value : list Z) :
  ∃ l, httpparser_parse_range alloc value = Some l ∧ wf_ranges l.
Proof.
  unfold httpparser_parse_range.
  destruct (has_prefix_ok value (bs "bytes=")) as (p & -> & Hp); [repeat constructor; done|].
  simpl. destruct p; [|by exists []]. destruct (Hp eq_refl) as (rest & ->).
  assert (drop 6 (bs "bytes=" ++ rest) = rest) as -> by done.
  pose proof (range_loop_good alloc ((bs "bytes=" ++ rest) ++ [0]) rest 6 61 6 false []) as Hg.
  assert (RInv ((bs "bytes=" ++ rest) ++ [0]) rest 6 6 false []) as Hi.
  { constructor; [done|done|]. exists (bs "bytes="), []. split_and!; [done|constructor|done|done]. }
  specialize (Hg Hi). destruct (range_loop _ _ _ _ _ _ _ _) as [| |l];
    [by exists []|done|by exists l].
Qed.

(** on any header value and whatever allocations fail, the Range parser reads
    only the value and its terminator, never dereferences a missing range, and
    returns either nothing or a list in which every range but the last is closed
    (0 <= start <= end), ranges are in ascending order without overlap, the last
    may be open or a suffix, and no bound exceeds ten digits. *)
Theorem range_parser_wf (alloc : Z → bool) (value : list Z) :
  ∃ l, httpparser_parse_range alloc value = Some l ∧ wf_ranges l.
Proof. apply range_parser_ok. Qed.
