(* ===== verification/TokenBuffer.v ===== *)
(** What a parser may assume of the buffer it collects a token in.

    [TokenBuffer] lists the operations of [bufferdata_t] the parsers call and
    [TokenBufferLaws] what they rely on; the parsers are written and verified
    against these classes. [bufferdata] discharges them, and so does a plain byte
    list, which serves as the reference the parsers are compared with. *)

From S2P Require Import Prelude Bufferdata.

(** The allocator: which sizes succeed, and the value of an uninitialised byte. *)
Record allocator : Set := Allocator { a_ok : Z → bool; a_junk : Z }.

Definition plenty_memory (a : allocator) : Prop := ∀ n, a_ok a n = true.

Class TokenBuffer (T : Type) : Type := {
  tb_init : T → option T;
  tb_push : allocator → T → Z → option (bool * T);
  tb_complete : allocator → T → option (bool * T);
  tb_reset : T → option T;
  tb_clear : T → option T;
  tb_writed : T → Z;
  (** the bytes of the C string [bufferdata_get] returns, [None] for NULL *)
  tb_get : allocator → T → option (option (list Z) * T) }.

Class TokenBufferLaws (T : Type) `{TokenBuffer T} : Type := {
  tb_inv : T → Prop;
  tb_bytes : T → list Z;
  tb_init_ok b : tb_inv b → ∃ b', tb_init b = Some b' ∧ tb_inv b' ∧ tb_bytes b' = [];
  tb_push_ok a b c : plenty_memory a → tb_inv b →
    ∃ b', tb_push a b c = Some (true, b') ∧ tb_inv b' ∧ tb_bytes b' = tb_bytes b ++ [c];
  tb_complete_ok a b : plenty_memory a → tb_inv b →
    ∃ b', tb_complete a b = Some (true, b') ∧ tb_inv b' ∧ tb_bytes b' = tb_bytes b;
  tb_reset_ok b : tb_inv b → ∃ b', tb_reset b = Some b' ∧ tb_inv b' ∧ tb_bytes b' = [];
  tb_clear_ok b : tb_inv b → ∃ b', tb_clear b = Some b' ∧ tb_inv b' ∧ tb_bytes b' = [];
  tb_writed_ok b : tb_inv b → tb_writed b = zlen (tb_bytes b);
  tb_get_ok a b : plenty_memory a → tb_inv b →
    ∃ b', tb_get a b = Some (Some (tb_bytes b), b') ∧ tb_inv b' ∧ tb_bytes b' = tb_bytes b }.

(** ** [bufferdata_t] *)

Definition bufferdata_string (a : allocator) (b : bufferdata)
    : option (option (list Z) * bufferdata) :=
  '(p, b') ← bufferdata_get (a_ok a) (a_junk a) b;
  match deref b' p with
  | None => Some (None, b')
  | Some blk => s ← mem_read blk 0 (bufferdata_writed b'); Some (Some s, b')
  end.

#[export] Instance bufferdata_tokens : TokenBuffer bufferdata := {
  tb_init := bufferdata_init;
  tb_push a := bufferdata_push (a_ok a) (a_junk a);
  tb_complete a := bufferdata_complete (a_ok a) (a_junk a);
  tb_reset := bufferdata_reset;
  tb_clear := bufferdata_clear;
  tb_writed := bufferdata_writed;
  tb_get := bufferdata_string }.

Lemma bufferdata_string_ok a b :
  plenty_memory a → Inv b →
  ∃ b', bufferdata_string a b = Some (Some (contents b), b') ∧ Inv b' ∧ contents b' = contents b.
Proof.
  intros Ha Hi. unfold bufferdata_string.
  destruct (bufferdata_get_ok (a_ok a) (a_junk a) b Hi) as (p & b' & -> & Hi' & Hc & Hd). simpl.
  destruct (deref b' p) as [blk|].
  - destruct Hd as [Ht H0]. rewrite (writed_contents b' Hi'), Hc.
    pose proof (zlen_nonneg (contents b)). rewrite mem_get_lookup in H0 by lia.
    apply lookup_lt_Some in H0. rewrite mem_read_Some by (unfold zlen in *; lia). simpl.
    rewrite drop_0, Ht. eauto.
  - destruct Hd as [_ []]. apply Ha.
Qed.

#[export] Instance bufferdata_laws : TokenBufferLaws bufferdata.
Proof.
  refine {| tb_inv := Inv; tb_bytes := contents |}; simpl.
  - intros b Hi. apply bufferdata_init_ok, Hi.
  - intros a b c Ha Hi.
    destruct (bufferdata_push_ok (a_ok a) (a_junk a) b c Hi) as (r & b' & H & Hi' & Hc & Hr).
    rewrite (Hr Ha) in *. eauto.
  - intros a b Ha Hi.
    destruct (bufferdata_complete_ok (a_ok a) (a_junk a) b Hi) as (r & b' & H & Hi' & Hc & Hr).
    rewrite (Hr Ha) in *. eauto.
  - apply bufferdata_reset_ok.
  - apply bufferdata_clear_ok.
  - apply writed_contents.
  - apply bufferdata_string_ok.
Defined.

(** A zeroed struct, as [calloc] hands it out, is an empty buffer. *)
Lemma zeroed_bufferdata_inv : Inv zeroed_bufferdata.
Proof.
  constructor; [vm_compute; reflexivity|vm_compute; split; discriminate|vm_compute; discriminate
               |reflexivity|split; reflexivity].
Qed.

(** ** The reference: a byte list *)

#[export] Instance list_tokens : TokenBuffer (list Z) := {
  tb_init _ := Some [];
  tb_push _ l c := Some (true, l ++ [c]);
  tb_complete _ l := Some (true, l);
  tb_reset _ := Some [];
  tb_clear _ := Some [];
  tb_writed l := zlen l;
  tb_get _ l := Some (Some l, l) }.

#[export] Instance list_laws : TokenBufferLaws (list Z).
Proof.
  refine {| tb_inv := λ _, True; tb_bytes := λ l, l |}; simpl; eauto.
Defined.
