(* ===== verification/RequestParser.v ===== *)
(** The HTTP/1 request parser, [protocols/http/server/parsers/httprequestparser.c],
    and the read loop that drives it ([__read] of [httpserverhandlers.c]).

    The parser is written over the [TokenBuffer] interface. Its state is the parser
    struct and the fields of the connection it reads and writes. [None] is an unsafe
    access (a NULL request or header, a read outside the buffer); every return of
    the C code is a [Ret] with its status. *)

From S2P Require Import Prelude Helpers QueryParser CookieParser RangeParser TokenBuffer.

(** ** Data *)

Inductive httpparser_status : Set :=
| HTTP1PARSER_ERROR
| HTTP1PARSER_CONTINUE
| HTTP1PARSER_HANDLE_AND_CONTINUE
| HTTP1PARSER_OUT_OF_MEMORY
| HTTP1PARSER_BAD_REQUEST
| HTTP1PARSER_HOST_NOT_FOUND
| HTTP1PARSER_PAYLOAD_LARGE
| HTTP1PARSER_COMPLETE.

Inductive route_methods : Set :=
| ROUTE_NONE | ROUTE_GET | ROUTE_POST | ROUTE_PUT | ROUTE_DELETE | ROUTE_OPTIONS | ROUTE_PATCH
| ROUTE_HEAD.

Inductive http_version : Set := HTTP1_VER_NONE | HTTP1_VER_1_0 | HTTP1_VER_1_1.

#[export] Instance httpparser_status_eq_dec : EqDecision httpparser_status.
Proof. solve_decision. Defined.
#[export] Instance route_methods_eq_dec : EqDecision route_methods.
Proof. solve_decision. Defined.
#[export] Instance http_version_eq_dec : EqDecision http_version.
Proof. solve_decision. Defined.

Inductive httprequestparser_stage : Set :=
| METHOD | URI | PROTOCOL | NEWLINE1 | HEADER_KEY | HEADER_SPACE | HEADER_VALUE | NEWLINE2
| NEWLINE3 | PAYLOAD.

Record http_header : Set := Header { h_key : list Z; h_value : list Z }.

(** The temporary file of a body: is it open, and its content. *)
Record payload : Set := Payload { p_open : bool; p_content : list Z }.

Record httprequest : Set := Request {
  method : route_methods;
  version : http_version;
  uri : option (list Z);
  path : option (list Z);
  q_heap : list (option query);
  queries : request_queries;
  headers : list http_header;
  cookies : list (list Z * list Z);
  ranges : list http_range;
  payload_ : payload }.

Definition new_request : httprequest :=
  Request ROUTE_NONE HTTP1_VER_NONE None None [] (RequestQueries None None) [] [] [] (Payload false []).

(** A virtual server: its address and the templates of its domains. *)
Record server : Set := Server { s_ip : Z; s_port : Z; s_domains : list (list Z) }.

Record connection : Set := Connection {
  keepalive : bool;
  ssl : bool;
  sni : bool;
  c_ip : Z;
  c_port : Z;
  ctx_server : option server;
  listener_servers : list server }.

(** What the parser calls outside the sources: PCRE matching of a domain template,
    libidn2, and the outcome of the file system calls ([create_tmppath] with [mkstemp],
    and [pwrite]); and the configured limit. *)
Record environment : Set := Environment {
  pcre_matches : list Z → list Z → bool;
  idn2_to_ascii : list Z → option (list Z);
  mkstemp_ok : bool;
  pwrite_ok : list Z → bool;
  client_max_body_size : Z }.

Definition MAX_HEADER_KEY_SIZE : Z := 256.
Definition MAX_HEADER_VALUE_SIZE : Z := 8192.
Definition MAX_URI_SIZE : Z := 32768.
Definition MAX_HEADERS_COUNT : Z := 100.
Definition MAX_HOST_SIZE : Z := 256.

Definition httpparser_is_ctl (b : Z) : bool :=
  let c := schar b in ((0 <=? c) && (c <=? 31)) || (c =? 127).

Definition httprequest_allow_payload (r : httprequest) : bool :=
  match method r with ROUTE_POST | ROUTE_PUT | ROUTE_PATCH => true | _ => false end.

Record parser (T : Type) : Type := Parser {
  buf : T;
  bytes_readed : Z;
  pos_start : Z;
  pos : Z;
  request : option httprequest;
  stage : httprequestparser_stage;
  host_found : bool;
  host_header_seen : bool;
  content_length_found : bool;
  transfer_encoding_found : bool;
  headers_count : Z;
  content_length : Z;
  content_saved_length : Z }.

Arguments Parser {T}.
Arguments buf {T}. Arguments bytes_readed {T}. Arguments pos_start {T}. Arguments pos {T}.
Arguments request {T}. Arguments stage {T}. Arguments host_found {T}.
Arguments host_header_seen {T}. Arguments content_length_found {T}.
Arguments transfer_encoding_found {T}. Arguments headers_count {T}.
Arguments content_length {T}. Arguments content_saved_length {T}.

(** Field assignments. *)
Section Setters.
Context {T U : Type}.
Definition with_buf (p : parser T) (b : U) : parser U :=
  Parser b (bytes_readed p) (pos_start p) (pos p) (request p) (stage p) (host_found p)
    (host_header_seen p) (content_length_found p) (transfer_encoding_found p) (headers_count p)
    (content_length p) (content_saved_length p).
Definition with_pos (p : parser T) (x : Z) : parser T :=
  Parser (buf p) (bytes_readed p) (pos_start p) x (request p) (stage p) (host_found p)
    (host_header_seen p) (content_length_found p) (transfer_encoding_found p) (headers_count p)
    (content_length p) (content_saved_length p).
Definition with_request (p : parser T) (r : option httprequest) : parser T :=
  Parser (buf p) (bytes_readed p) (pos_start p) (pos p) r (stage p) (host_found p)
    (host_header_seen p) (content_length_found p) (transfer_encoding_found p) (headers_count p)
    (content_length p) (content_saved_length p).
Definition with_stage (p : parser T) (s : httprequestparser_stage) : parser T :=
  Parser (buf p) (bytes_readed p) (pos_start p) (pos p) (request p) s (host_found p)
    (host_header_seen p) (content_length_found p) (transfer_encoding_found p) (headers_count p)
    (content_length p) (content_saved_length p).
Definition with_host (p : parser T) (found seen : bool) : parser T :=
  Parser (buf p) (bytes_readed p) (pos_start p) (pos p) (request p) (stage p) found seen
    (content_length_found p) (transfer_encoding_found p) (headers_count p) (content_length p)
    (content_saved_length p).
Definition with_content_length (p : parser T) (n : Z) : parser T :=
  Parser (buf p) (bytes_readed p) (pos_start p) (pos p) (request p) (stage p) (host_found p)
    (host_header_seen p) true (transfer_encoding_found p) (headers_count p) n
    (content_saved_length p).
Definition with_headers_count (p : parser T) (n : Z) : parser T :=
  Parser (buf p) (bytes_readed p) (pos_start p) (pos p) (request p) (stage p) (host_found p)
    (host_header_seen p) (content_length_found p) (transfer_encoding_found p) n (content_length p)
    (content_saved_length p).
Definition with_saved (p : parser T) (n : Z) : parser T :=
  Parser (buf p) (bytes_readed p) (pos_start p) (pos p) (request p) (stage p) (host_found p)
    (host_header_seen p) (content_length_found p) (transfer_encoding_found p) (headers_count p)
    (content_length p) n.
End Setters.

Definition set_keepalive (c : connection) (k : bool) : connection :=
  Connection k (ssl c) (sni c) (c_ip c) (c_port c) (ctx_server c) (listener_servers c).
Definition set_server (c : connection) (s : option server) : connection :=
  Connection (keepalive c) (ssl c) (sni c) (c_ip c) (c_port c) s (listener_servers c).

Definition set_method_version (r : httprequest) (m : route_methods) (v : http_version) : httprequest :=
  Request m v (uri r) (path r) (q_heap r) (queries r) (headers r) (cookies r) (ranges r) (payload_ r).
Definition set_uri_path (r : httprequest) (u p : option (list Z)) : httprequest :=
  Request (method r) (version r) u p (q_heap r) (queries r) (headers r) (cookies r) (ranges r)
    (payload_ r).
Definition set_queries (r : httprequest) (h : list (option query)) (q : request_queries)
    : httprequest :=
  Request (method r) (version r) (uri r) (path r) h q (headers r) (cookies r) (ranges r) (payload_ r).
Definition set_headers (r : httprequest) (hs : list http_header) : httprequest :=
  Request (method r) (version r) (uri r) (path r) (q_heap r) (queries r) hs (cookies r) (ranges r)
    (payload_ r).
Definition set_cookies_ranges (r : httprequest) (ck : list (list Z * list Z)) (rg : list http_range)
    : httprequest :=
  Request (method r) (version r) (uri r) (path r) (q_heap r) (queries r) (headers r) ck rg (payload_ r).
Definition set_payload (r : httprequest) (p : payload) : httprequest :=
  Request (method r) (version r) (uri r) (path r) (q_heap r) (queries r) (headers r) (cookies r)
    (ranges r) p.

(** ** Pieces of the request line *)

Definition method_names : list (list Z * route_methods) :=
  [(bs "GET", ROUTE_GET); (bs "PUT", ROUTE_PUT); (bs "POST", ROUTE_POST); (bs "PATCH", ROUTE_PATCH);
   (bs "DELETE", ROUTE_DELETE); (bs "OPTIONS", ROUTE_OPTIONS); (bs "HEAD", ROUTE_HEAD)].

(** [__set_method]: the [if] chain compares length and every byte. *)
Fixpoint find_method (names : list (list Z * route_methods)) (s : list Z) : option route_methods :=
  match names with
  | [] => None
  | (name, m) :: names' => if decide (s = name) then Some m else find_method names' s
  end.
Definition set_method (r : httprequest) (s : list Z) : option httprequest :=
  m ← find_method method_names s; Some (set_method_version r m (version r)).

Definition set_protocol (r : httprequest) (s : list Z) : httpparser_status * httprequest :=
  if negb (zlen s =? 8) then (HTTP1PARSER_BAD_REQUEST, r)
  else if decide (s = bs "HTTP/1.1")
  then (HTTP1PARSER_CONTINUE, set_method_version r (method r) HTTP1_VER_1_1)
  else if decide (s = bs "HTTP/1.0")
  then (HTTP1PARSER_CONTINUE, set_method_version r (method r) HTTP1_VER_1_0)
  else (HTTP1PARSER_BAD_REQUEST, r).

Section Parser.
Context {T : Type} `{TokenBuffer T}.
Variable alloc : allocator.
Variable env : environment.

Definition set_path (r : httprequest) (string : list Z) : httpparser_status * httprequest :=
  match urldecode (a_ok alloc) string with
  | None => (HTTP1PARSER_OUT_OF_MEMORY, r)
  | Some p =>
      if is_path_traversal p then (HTTP1PARSER_BAD_REQUEST, r)
      else (HTTP1PARSER_CONTINUE, set_uri_path r (uri r) (Some p))
  end.

(** The scan of [httpparser_set_uri]: the first question mark or hash, if any. *)
Fixpoint find_path_end (rest : list Z) (n : Z) : option (Z * bool) :=
  match rest with
  | [] => None
  | c :: rest' =>
      if c =? chr_QUEST then Some (n, true)
      else if c =? chr_HASH then Some (n, false)
      else find_path_end rest' (n + 1)
  end.

Definition httpparser_set_uri (r0 : httprequest) (string : list Z)
    : option (httpparser_status * httprequest) :=
  let r := set_uri_path r0 (Some string) (path r0) in
  first ← mem_get (string ++ [0]) 0;
  if negb (first =? chr_SLASH) then Some (HTTP1PARSER_BAD_REQUEST, r)
  else
    match find_path_end string 0 with
    | Some (n, true) =>
        '(ok, h, q) ← set_query (a_ok alloc) string n (q_heap r) (queries r);
        let r' := set_queries r h q in
        if (ok : bool)
        then Some (set_path r' (take (Z.to_nat (if n =? 0 then zlen string else n)) string))
        else Some (HTTP1PARSER_OUT_OF_MEMORY, r')
    | Some (n, false) =>
        Some (set_path r (take (Z.to_nat (if n =? 0 then zlen string else n)) string))
    | None => Some (set_path r string)
    end.

(** ** The Host header *)

Definition idn_needs_conversion (domain : list Z) : bool := existsb (λ b, 127 <? b) domain.

Definition idn_to_ascii (domain : list Z) : option (list Z) :=
  if negb (idn_needs_conversion domain) then copy_cstringn (a_ok alloc) domain
  else out ← idn2_to_ascii env domain; copy_cstringn (a_ok alloc) out.

Definition server_matches_host (s : server) (host : list Z) : bool :=
  existsb (λ d, pcre_matches env d host) (s_domains s).

Definition header_is_host (h : http_header) : bool := cmpstrn_lower (h_key h) (bs "host").
Definition header_is_content_length (h : http_header) : bool :=
  cmpstrn_lower (h_key h) (bs "content-length").
Definition header_is_transfer_encoding (h : http_header) : bool :=
  cmpstrn_lower (h_key h) (bs "transfer-encoding").

(** The host without port and brackets; [None] for a malformed IPv6 literal. The
    value holds no terminator, so the copy in [domain] is the value itself. *)
Definition host_name (value : list Z) : option (list Z) :=
  match value with
  | 91 :: inner =>
      match cut chr_RBRACK inner with
      | (_, None) => None
      | (address, Some []) => Some address
      | (address, Some (c :: _)) => if c =? chr_COLON then Some address else None
      end
  | _ => Some (fst (cut chr_COLON value))
  end.

Definition find_server (c : connection) (host : list Z) : option server :=
  find (λ s, (s_ip s =? c_ip c) && (s_port s =? c_port c) && server_matches_host s host)
    (listener_servers c).

Definition try_set_server (p : parser T) (c : connection) (h : http_header)
    : httpparser_status * parser T * connection :=
  if negb (header_is_host h) then (HTTP1PARSER_CONTINUE, p, c)
  else if host_header_seen p then (HTTP1PARSER_BAD_REQUEST, p, c)
  else
    let p1 := with_host p (host_found p) true in
    if (zlen (h_value h) =? 0) || (MAX_HOST_SIZE <=? zlen (h_value h))
    then (HTTP1PARSER_BAD_REQUEST, p1, c)
    else
      match host_name (h_value h) with
      | None => (HTTP1PARSER_BAD_REQUEST, p1, c)
      | Some domain =>
          match idn_to_ascii domain with
          | None => (HTTP1PARSER_HOST_NOT_FOUND, p1, c)
          | Some ascii =>
              if ssl c && sni c then
                match ctx_server c with
                | Some s =>
                    if server_matches_host s ascii
                    then (HTTP1PARSER_CONTINUE, with_host p1 true true, c)
                    else (HTTP1PARSER_HOST_NOT_FOUND, p1, c)
                | None => (HTTP1PARSER_HOST_NOT_FOUND, p1, c)
                end
              else
                match find_server c ascii with
                | Some s => (HTTP1PARSER_CONTINUE, with_host p1 true true, set_server c (Some s))
                | None => (HTTP1PARSER_HOST_NOT_FOUND, p1, c)
                end
          end
      end.

(** ** Connection, Range, Cookie and Content-Length *)

Definition is_ows (c : Z) : bool := (c =? chr_SP) || (c =? chr_TAB).

Fixpoint drop_ows (l : list Z) : list Z :=
  match l with c :: l' => if is_ows c then drop_ows l' else l | [] => [] end.
Definition trim_ows_right (l : list Z) : list Z := rev (drop_ows (rev l)).

(** The token loop over [value]: leading OWS skipped, cut at the comma, trailing
    OWS trimmed. The fuel is the number of bytes, each round consumes one. *)
Fixpoint keepalive_tokens (fuel : nat) (value : list Z) (found_keepalive found_close : bool)
    : bool * bool :=
  match fuel with
  | O => (found_keepalive, found_close)
  | S fuel' =>
      match value with
      | [] => (found_keepalive, found_close)
      | _ =>
          let '(token, rest) := cut chr_COMMA (drop_ows value) in
          let tok := trim_ows_right token in
          let '(fk, fc) :=
            if cmpstrn_lower tok (bs "close") then (found_keepalive, true)
            else if cmpstrn_lower tok (bs "keep-alive") then (true, found_close)
            else (found_keepalive, found_close) in
          match rest with
          | None => (fk, fc)
          | Some rest' => keepalive_tokens fuel' rest' fk fc
          end
      end
  end.

Definition try_set_keepalive (c : connection) (h : http_header) : connection :=
  if negb (cmpstrn_lower (h_key h) (bs "connection")) then c
  else
    let '(found_keepalive, found_close) :=
      keepalive_tokens (length (h_value h)) (h_value h) false false in
    if found_close then set_keepalive c false
    else if found_keepalive then set_keepalive c true
    else c.

Definition try_set_range (r : httprequest) (h : http_header) : option httprequest :=
  if cmpstrn_lower (h_key h) (bs "range") then
    rg ← httpparser_parse_range (a_ok alloc) (h_value h);
    Some (set_cookies_ranges r (cookies r) rg)
  else Some r.

Definition try_set_cookie (r : httprequest) (h : http_header) : option httprequest :=
  if negb (cmpstrn_lower (h_key h) (bs "cookie")) then Some r
  else
    '(ok, cp) ← cookieparser_parse (a_ok alloc) cookieparser_init (h_value h);
    if (ok : bool) then Some (set_cookies_ranges r (cookie cp) (ranges r)) else Some r.

Definition ULLONG_MAX : Z := 2 ^ 64 - 1.

(** All bytes are digits, so [strtoull] reads the whole value; above [ULLONG_MAX]
    it reports ERANGE. *)
Definition validate_content_length (h : http_header) : option Z :=
  let value := h_value h in
  if zlen value =? 0 then None
  else if negb (forallb isdigit value) then None
  else
    let '(v, n) := digits (value ++ [0]) 0 0 in
    if (ULLONG_MAX <? v) || (client_max_body_size env <? v) then None
    else if n =? 0 then None
    else if negb (n =? zlen value) then None
    else Some v.

(** ** Headers *)

Definition SIZEOF_HEADER : Z := 40.

(** The status, the parser and its request; [string] is the collected key. *)
Definition set_header_key (r : httprequest) (p : parser T) (token : option (list Z))
    : httpparser_status * httprequest * parser T :=
  if MAX_HEADERS_COUNT <=? headers_count p then (HTTP1PARSER_BAD_REQUEST, r, p)
  else
    match token with
    | None => (HTTP1PARSER_OUT_OF_MEMORY, r, p)
    | Some string =>
        if zlen string =? 0 then (HTTP1PARSER_BAD_REQUEST, r, p)
        else if a_ok alloc SIZEOF_HEADER then
          match copy_cstringn (a_ok alloc) string, copy_cstringn (a_ok alloc) [] with
          | Some k, Some v =>
              (HTTP1PARSER_CONTINUE, set_headers r (headers r ++ [Header k v]),
               with_headers_count p (headers_count p + 1))
          | _, _ => (HTTP1PARSER_OUT_OF_MEMORY, r, p)
          end
        else (HTTP1PARSER_OUT_OF_MEMORY, r, p)
    end.

(** The tail of [__set_header_value]: body length and transfer coding. *)
Definition check_framing (r : httprequest) (p : parser T) (h : http_header)
    : httpparser_status * parser T :=
  let '(st, p1) :=
    if header_is_content_length h then
      if content_length_found p then (HTTP1PARSER_BAD_REQUEST, p)
      else if transfer_encoding_found p then (HTTP1PARSER_BAD_REQUEST, p)
      else match validate_content_length h with
           | None => (HTTP1PARSER_BAD_REQUEST, p)
           | Some n => (HTTP1PARSER_CONTINUE, with_content_length p n)
           end
    else (HTTP1PARSER_CONTINUE, p) in
  match st with
  | HTTP1PARSER_CONTINUE =>
      if header_is_transfer_encoding h then (HTTP1PARSER_BAD_REQUEST, p1)
      else (HTTP1PARSER_CONTINUE, p1)
  | _ => (st, p1)
  end.

(** [__set_header_value]; [None]: the request has no header to give the value to. *)
Definition set_header_value (p : parser T) (c : connection) (r : httprequest)
    (token : option (list Z)) : option (httpparser_status * parser T * connection) :=
  h0 ← list.last (headers r);
  match string ← token; copy_cstringn (a_ok alloc) (trim_ows_right string) with
  | None => Some (HTTP1PARSER_OUT_OF_MEMORY, p, c)
  | Some v =>
      let h := Header (h_key h0) v in
      let r1 := set_headers r (removelast (headers r) ++ [h]) in
      let p1 := with_request p (Some r1) in
      match try_set_server p1 c h with
      | (HTTP1PARSER_CONTINUE, p2, c2) =>
          let c3 := try_set_keepalive c2 h in
          r2 ← try_set_range r1 h;
          r3 ← try_set_cookie r2 h;
          let p3 := with_request p2 (Some r3) in
          let '(st, p4) := check_framing r3 p3 h in
          Some (st, p4, c3)
      | (st, p2, c2) => Some (st, p2, c2)
      end
  end.

(** ** Clearing *)

Definition httpparser_init (p : parser T) (c : connection) : option (parser T) :=
  b ← tb_init (buf p);
  Some (Parser b 0 0 0 None METHOD (ssl c) false false false 0 0 0).

Definition httpparser_reset (p : parser T) (c : connection) : option (parser T) :=
  httpparser_init p c.

(** [httprequest_free]: the query nodes are released through the request's pointer. *)
Definition httprequest_free (r : httprequest) : option unit :=
  _ ← queries_free (length (q_heap r)) (q_heap r) (query_ (queries r)); Some ().

Definition clear (p : parser T) (c : connection) : option (parser T) :=
  match request p with
  | Some r => _ ← httprequest_free r; httpparser_reset (with_request p None) c
  | None => httpparser_reset p c
  end.

Inductive result : Type :=
| Go (p : parser T) (c : connection)
| Ret (st : httpparser_status) (p : parser T) (c : connection).

Definition clear_and_return (p : parser T) (c : connection) (st : httpparser_status)
    : option result :=
  p' ← clear p c; Some (Ret st p' c).

(** ** The body *)

(** [append_content]: 0 when nothing was written. *)
Definition append_content (f : payload) (data : list Z) : option payload :=
  if (zlen data =? 0) || negb (pwrite_ok env data) then None
  else Some (Payload (p_open f) (p_content f ++ data)).

Definition parse_payload (p : parser T) (c : connection) (buffer : list Z) : option result :=
  match request p with
  | None => clear_and_return p c HTTP1PARSER_ERROR
  | Some r =>
      if negb (httprequest_allow_payload r) then clear_and_return p c HTTP1PARSER_BAD_REQUEST
      else if bytes_readed p <? pos p then clear_and_return p c HTTP1PARSER_ERROR
      else
        let available := bytes_readed p - pos p in
        if SIZE_MAX - content_saved_length p <? available
        then clear_and_return p c HTTP1PARSER_ERROR
        else
          let more := content_length p <? available + content_saved_length p in
          let string_len :=
            if more then content_length p - content_saved_length p else available in
          if client_max_body_size env <? content_saved_length p + string_len
          then clear_and_return p c HTTP1PARSER_PAYLOAD_LARGE
          else if negb (p_open (payload_ r)) && negb (mkstemp_ok env)
          then clear_and_return p c HTTP1PARSER_ERROR
          else
            let f := Payload true (p_content (payload_ r)) in
            let p1 := with_saved p (content_saved_length p + string_len) in
            data ← mem_read buffer (pos p) string_len;
            match append_content f data with
            | None => clear_and_return (with_request p1 (Some (set_payload r f))) c HTTP1PARSER_ERROR
            | Some f' =>
                let p2 := with_request p1 (Some (set_payload r f')) in
                if more then
                  Some (Ret HTTP1PARSER_HANDLE_AND_CONTINUE (with_pos p2 (pos p + string_len)) c)
                else if content_saved_length p2 =? content_length p2
                then Some (Ret HTTP1PARSER_COMPLETE p2 c)
                else Some (Ret HTTP1PARSER_CONTINUE p2 c)
            end
  end.

(** ** The state machine: one iteration of the loop of [httpparser_run] *)

(** Append to the token with a limit, the default branch of most stages. *)
Definition push_limited (p : parser T) (c : connection) (limit ch : Z) : option result :=
  if limit <=? tb_writed (buf p) then clear_and_return p c HTTP1PARSER_BAD_REQUEST
  else
    '(ok, b) ← tb_push alloc (buf p) ch;
    let p' := with_buf p b in
    if (ok : bool) then Some (Go p' c) else clear_and_return p' c HTTP1PARSER_OUT_OF_MEMORY.

(** [bufferdata_complete], then [k] on the string [bufferdata_get] returns. *)
Definition with_token (p : parser T) (c : connection)
    (k : parser T → option (list Z) → option result) : option result :=
  '(ok, b) ← tb_complete alloc (buf p);
  let p1 := with_buf p b in
  if (ok : bool) then
    '(s, b') ← tb_get alloc (buf p1);
    k (with_buf p1 b') s
  else clear_and_return p1 c HTTP1PARSER_OUT_OF_MEMORY.

Definition reset_and_go (p : parser T) (c : connection) : option result :=
  b ← tb_reset (buf p); Some (Go (with_buf p b) c).

Definition SIZEOF_REQUEST : Z := 512.

Definition step_method (p : parser T) (c : connection) (ch : Z) : option result :=
  if ((ch =? chr_CR) || (ch =? chr_LF)) && (tb_writed (buf p) =? 0) then Some (Go p c)
  else
    match (match request p with
           | None => if a_ok alloc SIZEOF_REQUEST then Some (with_request p (Some new_request)) else None
           | Some _ => Some p
           end) with
    | None => clear_and_return p c HTTP1PARSER_OUT_OF_MEMORY
    | Some p1 =>
        if ch =? chr_SP then
          with_token (with_stage p1 URI) c (λ p2 string,
            r ← request p2;
            match string ≫= set_method r with
            | None => clear_and_return p2 c HTTP1PARSER_BAD_REQUEST
            | Some r' => reset_and_go (with_request p2 (Some r')) c
            end)
        else push_limited p1 c 7 ch
    end.

Definition step_uri (p : parser T) (c : connection) (ch : Z) : option result :=
  if ch =? chr_SP then
    with_token (with_stage p PROTOCOL) c (λ p2 string,
      match string ≫= copy_cstringn (a_ok alloc) with
      | None => clear_and_return p2 c HTTP1PARSER_OUT_OF_MEMORY
      | Some u =>
          r ← request p2;
          '(st, r') ← httpparser_set_uri r u;
          let p3 := with_request p2 (Some r') in
          match st with
          | HTTP1PARSER_CONTINUE => reset_and_go p3 c
          | _ => clear_and_return p3 c st
          end
      end)
  else if httpparser_is_ctl ch then clear_and_return p c HTTP1PARSER_BAD_REQUEST
  else push_limited p c MAX_URI_SIZE ch.

Definition step_protocol (p : parser T) (c : connection) (ch : Z) : option result :=
  if ch =? chr_CR then
    with_token (with_stage p NEWLINE1) c (λ p2 string,
      r ← request p2;
      match from_option (set_protocol r) (HTTP1PARSER_BAD_REQUEST, r) string with
      | (HTTP1PARSER_BAD_REQUEST, _) => clear_and_return p2 c HTTP1PARSER_BAD_REQUEST
      | (_, r') =>
          reset_and_go (with_request p2 (Some r'))
            (set_keepalive c (bool_decide (version r' = HTTP1_VER_1_1)))
      end)
  else push_limited p c 8 ch.

Definition step_newline (next : httprequestparser_stage) (p : parser T) (c : connection) (ch : Z)
    : option result :=
  if ch =? chr_LF then Some (Go (with_stage p next) c)
  else clear_and_return p c HTTP1PARSER_BAD_REQUEST.

Definition step_header_key (p : parser T) (c : connection) (ch : Z) : option result :=
  if ch =? chr_CR then
    if 0 <? tb_writed (buf p) then clear_and_return p c HTTP1PARSER_BAD_REQUEST
    else Some (Go (with_stage p NEWLINE3) c)
  else if ch =? chr_COLON then
    with_token (with_stage p HEADER_SPACE) c (λ p2 string,
      r ← request p2;
      match set_header_key r p2 string with
      | (HTTP1PARSER_CONTINUE, r', p3) => reset_and_go (with_request p3 (Some r')) c
      | (st, _, p3) => clear_and_return p3 c st
      end)
  else if httpparser_is_ctl ch || (ch =? chr_SP) || (ch =? chr_TAB)
  then clear_and_return p c HTTP1PARSER_BAD_REQUEST
  else push_limited p c MAX_HEADER_KEY_SIZE ch.

Definition step_header_value (p : parser T) (c : connection) (ch : Z) : option result :=
  if ch =? chr_CR then
    with_token (with_stage p NEWLINE2) c (λ p2 string,
      r ← request p2;
      x ← set_header_value p2 c r string;
      match x with
      | (HTTP1PARSER_CONTINUE, p3, c3) => reset_and_go p3 c3
      | (st, p3, c3) => clear_and_return p3 c3 st
      end)
  else if httpparser_is_ctl ch then clear_and_return p c HTTP1PARSER_BAD_REQUEST
  else push_limited p c MAX_HEADER_VALUE_SIZE ch.

Definition step_header_space (p : parser T) (c : connection) (ch : Z) : option result :=
  if (ch =? chr_SP) || (ch =? chr_TAB) then Some (Go p c)
  else step_header_value (with_stage p HEADER_VALUE) c ch.

Definition step_newline3 (p : parser T) (c : connection) (ch : Z) : option result :=
  if ch =? chr_LF then
    let p1 := with_stage p PAYLOAD in
    r ← request p1;
    if bool_decide (version r = HTTP1_VER_1_1) && negb (host_header_seen p1)
    then clear_and_return p1 c HTTP1PARSER_BAD_REQUEST
    else if content_length p1 =? 0 then
      if pos p1 + 1 <? bytes_readed p1
      then Some (Ret HTTP1PARSER_HANDLE_AND_CONTINUE (with_pos p1 (pos p1 + 1)) c)
      else Some (Ret HTTP1PARSER_COMPLETE p1 c)
    else if negb (httprequest_allow_payload r) then clear_and_return p1 c HTTP1PARSER_BAD_REQUEST
    else Some (Go p1 c)
  else clear_and_return p c HTTP1PARSER_BAD_REQUEST.

Definition step (p : parser T) (c : connection) (buffer : list Z) (ch : Z) : option result :=
  match stage p with
  | METHOD => step_method p c ch
  | URI => step_uri p c ch
  | PROTOCOL => step_protocol p c ch
  | NEWLINE1 => step_newline HEADER_KEY p c ch
  | HEADER_KEY => step_header_key p c ch
  | HEADER_SPACE => step_header_space p c ch
  | HEADER_VALUE => step_header_value p c ch
  | NEWLINE2 => step_newline HEADER_KEY p c ch
  | NEWLINE3 => step_newline3 p c ch
  | PAYLOAD => parse_payload p c buffer
  end.

(** The loop, with [rest] the bytes of the buffer from [pos] to [bytes_readed]. *)
Fixpoint run_loop (p : parser T) (c : connection) (buffer rest : list Z)
    : option (httpparser_status * parser T * connection) :=
  match rest with
  | [] => Some (HTTP1PARSER_CONTINUE, p, c)
  | ch :: rest' =>
      x ← step p c buffer ch;
      match x with
      | Ret st p' c' => Some (st, p', c')
      | Go p' c' => run_loop (with_pos p' (pos p' + 1)) c' buffer rest'
      end
  end.

Definition httpparser_run (p : parser T) (c : connection) (buffer : list Z)
    : option (httpparser_status * parser T * connection) :=
  match stage p with
  | PAYLOAD =>
      x ← parse_payload p c buffer;
      match x with
      | Ret st p' c' => Some (st, p', c')
      | Go p' c' => None
      end
  | _ =>
      rest ← (if pos_start p <? bytes_readed p
              then mem_read buffer (pos_start p) (bytes_readed p - pos_start p) else Some []);
      run_loop (with_pos p (pos_start p)) c buffer rest
  end.

Definition httpparser_prepare_continue (p : parser T) (c : connection) : option (parser T) :=
  b ← tb_clear (buf p);
  Some (Parser b (bytes_readed p) (pos p) (pos p) None METHOD (ssl c) false false false 0 0 0).

(** [httpparser_set_bytes_readed] and the two assignments behind it in [__read]. *)
Definition start_chunk (p : parser T) (n : Z) : parser T :=
  Parser (buf p) n 0 0 (request p) (stage p) (host_found p) (host_header_seen p)
    (content_length_found p) (transfer_encoding_found p) (headers_count p) (content_length p)
    (content_saved_length p).

(** ** The read loop

    What [__read] does with one chunk of bytes the socket delivered: the requests it
    hands to [__handle], in order, and how it leaves. [__handle] itself is outside
    the parser; here it accepts every request. The fuel bounds the requests in one
    chunk, each of which takes at least one byte. *)

Inductive verdict : Set :=
| Wait                                   (* go on reading *)
| Done                                   (* the chunk ended with a complete request *)
| Refuse (st : httpparser_status).       (* close, or answer 400, 404 or 413 *)

Fixpoint read_chunk_loop (fuel : nat) (p : parser T) (c : connection) (buffer : list Z)
    (handled : list httprequest) : option (verdict * parser T * connection * list httprequest) :=
  match fuel with
  | O => None
  | S fuel' =>
      '(st, p1, c1) ← httpparser_run p c buffer;
      match st with
      | HTTP1PARSER_CONTINUE => Some (Wait, p1, c1, handled)
      | HTTP1PARSER_HANDLE_AND_CONTINUE =>
          r ← request p1;
          p2 ← httpparser_prepare_continue p1 c1;
          read_chunk_loop fuel' p2 c1 buffer (handled ++ [r])
      | HTTP1PARSER_COMPLETE =>
          r ← request p1;
          p2 ← httpparser_reset p1 c1;
          Some (Done, p2, c1, handled ++ [r])
      | _ => Some (Refuse st, p1, c1, handled)
      end
  end.

Definition read_chunk (p : parser T) (c : connection) (chunk : list Z)
    : option (verdict * parser T * connection * list httprequest) :=
  read_chunk_loop (S (length chunk)) (start_chunk p (zlen chunk)) c chunk [].
End Parser.

Arguments Go {T}.
Arguments Ret {T}.

(** ** The parser over any token buffer is the parser over byte lists *)

Section Simulation.
Context {T : Type} `{TokenBufferLaws T}.
Variable alloc : allocator.
Variable env : environment.
Hypothesis memory : plenty_memory alloc.

Definition abs (p : parser T) : parser (list Z) := with_buf p (tb_bytes (buf p)).

Definition abs_result (r : result) : result :=
  match r with Go p c => Go (abs p) c | Ret st p c => Ret st (abs p) c end.

Definition inv_result (r : result) : Prop :=
  match r with Go p _ => tb_inv (buf p) | Ret _ p _ => tb_inv (buf p) end.

(** Both fail, or both succeed with the same state. *)
Definition sim (x : option (@result T)) (y : option (@result (list Z))) : Prop :=
  match x, y with
  | Some r, Some r' => r' = abs_result r ∧ inv_result r
  | None, None => True
  | _, _ => False
  end.

Lemma clear_and_return_sim p c st :
  tb_inv (buf p) → sim (clear_and_return p c st) (clear_and_return (abs p) c st).
Proof.
  intros Hi. unfold clear_and_return, clear, httpparser_reset, httpparser_init, abs, with_request.
  simpl. destruct (tb_init_ok (buf p) Hi) as (b & -> & Hb & Hc).
  destruct (request p) as [r|]; simpl.
  - destruct (httprequest_free r); simpl; [|done]. unfold abs, with_buf. simpl. by rewrite Hc.
  - unfold abs, with_buf. simpl. by rewrite Hc.
Qed.

Lemma push_limited_sim p c limit ch :
  tb_inv (buf p) → sim (push_limited alloc p c limit ch) (push_limited alloc (abs p) c limit ch).
Proof.
  intros Hi. unfold push_limited. simpl. rewrite (tb_writed_ok (buf p) Hi).
  destruct (limit <=? zlen (tb_bytes (buf p))); [by apply clear_and_return_sim|].
  destruct (tb_push_ok alloc (buf p) ch memory Hi) as (b & -> & Hb & Hc). simpl.
  unfold abs, with_buf. simpl. by rewrite Hc.
Qed.

Lemma with_token_sim p c k k' :
  tb_inv (buf p) →
  (∀ b, tb_inv b → tb_bytes b = tb_bytes (buf p) →
     sim (k (with_buf p b) (Some (tb_bytes (buf p)))) (k' (abs p) (Some (tb_bytes (buf p))))) →
  sim (with_token alloc p c k) (with_token alloc (abs p) c k').
Proof.
  intros Hi Hk. unfold with_token. simpl.
  destruct (tb_complete_ok alloc (buf p) memory Hi) as (b & -> & Hb & Hc). simpl.
  destruct (tb_get_ok alloc b memory Hb) as (b' & -> & Hb' & Hc'). simpl.
  rewrite Hc. apply Hk; [done|]. by rewrite Hc', Hc.
Qed.

Lemma reset_and_go_sim p c : tb_inv (buf p) → sim (reset_and_go p c) (reset_and_go (abs p) c).
Proof.
  intros Hi. unfold reset_and_go. simpl. destruct (tb_reset_ok (buf p) Hi) as (b & -> & Hb & Hc).
  simpl. unfold abs, with_buf. simpl. by rewrite Hc.
Qed.

Lemma parse_payload_sim p c buffer :
  tb_inv (buf p) → sim (parse_payload env p c buffer) (parse_payload env (abs p) c buffer).
Proof.
  intros Hi. unfold parse_payload. change (request (abs p)) with (request p).
  destruct (request p) as [r|]; [|by apply clear_and_return_sim]. simpl.
  repeat first
    [ by apply clear_and_return_sim
    | match goal with |- sim (if ?b then _ else _) _ => destruct b end ].
  all: destruct (mem_read _ _ _) as [data|]; simpl; [|done].
  all: destruct (append_content _ _ _) as [f'|];
    [|by apply (clear_and_return_sim (with_request (with_saved p _) _))].
  all: by repeat case_if.
Qed.

(** The header helpers only touch fields both parsers share. *)
Lemma try_set_server_abs p c h :
  let '(st, p', c') := try_set_server alloc env p c h in
  try_set_server alloc env (abs p) c h = (st, abs p', c') ∧ buf p' = buf p.
Proof.
  unfold try_set_server. change (host_header_seen (abs p)) with (host_header_seen p).
  destruct (negb (header_is_host h)); [done|]. destruct (host_header_seen p); [done|].
  case_if; [done|]. destruct (host_name (h_value h)); [|done].
  destruct (idn_to_ascii alloc env _); [|done]. destruct (ssl c && sni c).
  - destruct (ctx_server c); [|done]. by destruct (server_matches_host env _ _).
  - by destruct (find_server env c _).
Qed.

Lemma set_header_key_abs r p tok :
  let '(st, r', p') := set_header_key alloc r p tok in
  set_header_key alloc r (abs p) tok = (st, r', abs p') ∧ buf p' = buf p.
Proof.
  unfold set_header_key. change (headers_count (abs p)) with (headers_count p).
  case_if; [done|]. destruct tok as [string|]; [|done]. case_if; [done|]. case_if; [|done].
  destruct (copy_cstringn _ string); [|done]. by destruct (copy_cstringn _ []).
Qed.

Lemma check_framing_abs r p h :
  let '(st, p') := check_framing env r p h in
  check_framing env r (abs p) h = (st, abs p') ∧ buf p' = buf p.
Proof.
  unfold check_framing. change (content_length_found (abs p)) with (content_length_found p).
  change (transfer_encoding_found (abs p)) with (transfer_encoding_found p).
  destruct (header_is_content_length h).
  - destruct (content_length_found p); [done|]. destruct (transfer_encoding_found p); [done|].
    destruct (validate_content_length env h); [|done]. by destruct (header_is_transfer_encoding h).
  - by destruct (header_is_transfer_encoding h).
Qed.

Lemma set_header_value_abs p c r tok :
  match set_header_value alloc env p c r tok with
  | Some (st, p', c') => set_header_value alloc env (abs p) c r tok = Some (st, abs p', c') ∧
                         buf p' = buf p
  | None => set_header_value alloc env (abs p) c r tok = None
  end.
Proof.
  unfold set_header_value. destruct (list.last (headers r)) as [h0|]; simpl; [|done].
  destruct (tok ≫= _) as [v|]; [|done].
  set (h := Header (h_key h0) v). set (r1 := set_headers r _).
  pose proof (try_set_server_abs (with_request p (Some r1)) c h) as Hs.
  destruct (try_set_server alloc env (with_request p (Some r1)) c h) as [[st p2] c2].
  destruct Hs as [Hs Hb]. change (with_request (abs p) (Some r1)) with (abs (with_request p (Some r1))).
  rewrite Hs. destruct st; try done. simpl.
  destruct (try_set_range alloc r1 h) as [r2|]; simpl; [|done].
  destruct (try_set_cookie alloc r2 h) as [r3|]; simpl; [|done].
  pose proof (check_framing_abs r3 (with_request p2 (Some r3)) h) as Hf.
  destruct (check_framing env r3 (with_request p2 (Some r3)) h) as [st p4].
  destruct Hf as [Hf Hb4]. change (with_request (abs p2) (Some r3)) with (abs (with_request p2 (Some r3))).
  rewrite Hf. split; [done|]. by rewrite Hb4.
Qed.

Lemma abs_with_buf (p : parser T) b :
  tb_bytes b = tb_bytes (buf p) → abs (with_buf p b) = abs p.
Proof. intros Hb. unfold abs, with_buf. simpl. by rewrite Hb. Qed.

(** A state with the same token that both parsers reach. *)
Ltac same_token Hb := rewrite <- (abs_with_buf _ _ Hb).

Lemma step_method_sim p c ch :
  tb_inv (buf p) → sim (step_method alloc p c ch) (step_method alloc (abs p) c ch).
Proof.
  intros Hi. unfold step_method. simpl. rewrite (tb_writed_ok (buf p) Hi). case_if; [done|].
  assert (∀ p1, tb_inv (buf p1) →
    sim (if ch =? chr_SP then
           with_token alloc (with_stage p1 URI) c (λ p2 string,
             r ← request p2;
             match string ≫= set_method r with
             | None => clear_and_return p2 c HTTP1PARSER_BAD_REQUEST
             | Some r' => reset_and_go (with_request p2 (Some r')) c
             end)
         else push_limited alloc p1 c 7 ch)
        (if ch =? chr_SP then
           with_token alloc (with_stage (abs p1) URI) c (λ p2 string,
             r ← request p2;
             match string ≫= set_method r with
             | None => clear_and_return p2 c HTTP1PARSER_BAD_REQUEST
             | Some r' => reset_and_go (with_request p2 (Some r')) c
             end)
         else push_limited alloc (abs p1) c 7 ch)) as Hmain.
  { intros p1 Hi1. destruct (ch =? chr_SP); [|by apply push_limited_sim].
    apply (with_token_sim (with_stage p1 URI)); [done|]. intros b Hb Hc. same_token Hc.
    simpl. destruct (request p1) as [r|]; simpl; [|done].
    destruct (set_method r _); [|by apply clear_and_return_sim].
    by apply (reset_and_go_sim (with_request (with_buf (with_stage p1 URI) b) _)). }
  destruct (request p) as [r|] eqn:Er.
  - by apply Hmain.
  - destruct (a_ok alloc SIZEOF_REQUEST); [|by apply clear_and_return_sim].
    by apply (Hmain (with_request p (Some new_request))).
Qed.

Lemma step_uri_sim p c ch :
  tb_inv (buf p) → sim (step_uri alloc p c ch) (step_uri alloc (abs p) c ch).
Proof.
  intros Hi. unfold step_uri. destruct (ch =? chr_SP).
  - apply (with_token_sim (with_stage p PROTOCOL)); [done|]. intros b Hb Hc. same_token Hc.
    simpl. destruct (copy_cstringn _ _) as [u|]; [|by apply clear_and_return_sim].
    destruct (request p) as [r|]; simpl; [|done].
    destruct (httpparser_set_uri alloc r u) as [[st r']|]; simpl; [|done].
    destruct st; first
      [ by apply (clear_and_return_sim (with_request (with_buf (with_stage p PROTOCOL) b) (Some r')))
      | by apply (reset_and_go_sim (with_request (with_buf (with_stage p PROTOCOL) b) (Some r'))) ].
  - destruct (httpparser_is_ctl ch); [by apply clear_and_return_sim|by apply push_limited_sim].
Qed.

Lemma step_protocol_sim p c ch :
  tb_inv (buf p) → sim (step_protocol alloc p c ch) (step_protocol alloc (abs p) c ch).
Proof.
  intros Hi. unfold step_protocol. destruct (ch =? chr_CR); [|by apply push_limited_sim].
  apply (with_token_sim (with_stage p NEWLINE1)); [done|]. intros b Hb Hc. same_token Hc.
  simpl. destruct (request p) as [r|]; simpl; [|done].
  destruct (set_protocol r _) as [st r'].
  destruct st; first
    [ by apply clear_and_return_sim
    | by apply (reset_and_go_sim (with_request (with_buf (with_stage p NEWLINE1) b) (Some r'))) ].
Qed.

Lemma step_newline_sim next p c ch :
  tb_inv (buf p) → sim (step_newline next p c ch) (step_newline next (abs p) c ch).
Proof.
  intros Hi. unfold step_newline. destruct (ch =? chr_LF); [done|by apply clear_and_return_sim].
Qed.

Lemma step_header_key_sim p c ch :
  tb_inv (buf p) → sim (step_header_key alloc p c ch) (step_header_key alloc (abs p) c ch).
Proof.
  intros Hi. unfold step_header_key. destruct (ch =? chr_CR).
  { simpl. rewrite (tb_writed_ok (buf p) Hi). case_if; [by apply clear_and_return_sim|done]. }
  destruct (ch =? chr_COLON).
  - apply (with_token_sim (with_stage p HEADER_SPACE)); [done|]. intros b Hb Hc. same_token Hc.
    set (p2 := with_buf (with_stage p HEADER_SPACE) b) in *.
    change (request (abs p2)) with (request p2).
    destruct (request p2) as [r|]; simpl; [|done].
    match goal with |- sim (match set_header_key _ _ _ ?t with _ => _ end) _ =>
      pose proof (set_header_key_abs r p2 t) as Hk;
      destruct (set_header_key alloc r p2 t) as [[st r'] p3] end.
    destruct Hk as [-> Hbuf]. assert (tb_inv (buf p3)) by by rewrite Hbuf.
    destruct st; first
      [ by apply clear_and_return_sim | by apply (reset_and_go_sim (with_request p3 (Some r'))) ].
  - case_if; [by apply clear_and_return_sim|by apply push_limited_sim].
Qed.

Lemma step_header_value_sim p c ch :
  tb_inv (buf p) → sim (step_header_value alloc env p c ch) (step_header_value alloc env (abs p) c ch).
Proof.
  intros Hi. unfold step_header_value. destruct (ch =? chr_CR).
  - apply (with_token_sim (with_stage p NEWLINE2)); [done|]. intros b Hb Hc. same_token Hc.
    set (p2 := with_buf (with_stage p NEWLINE2) b) in *.
    change (request (abs p2)) with (request p2).
    destruct (request p2) as [r|]; simpl; [|done].
    match goal with |- sim (set_header_value _ _ _ _ _ ?t ≫= _) _ =>
      pose proof (set_header_value_abs p2 c r t) as Hk;
      destruct (set_header_value alloc env p2 c r t) as [[[st p3] c3]|] end; [|by rewrite Hk].
    destruct Hk as [-> Hbuf]. assert (tb_inv (buf p3)) by by rewrite Hbuf. simpl.
    destruct st; first [ by apply clear_and_return_sim | by apply reset_and_go_sim ].
  - destruct (httpparser_is_ctl ch); [by apply clear_and_return_sim|by apply push_limited_sim].
Qed.

Lemma step_newline3_sim p c ch :
  tb_inv (buf p) → sim (step_newline3 p c ch) (step_newline3 (abs p) c ch).
Proof.
  intros Hi. unfold step_newline3. destruct (ch =? chr_LF); [|by apply clear_and_return_sim].
  simpl. destruct (request p) as [r|]; simpl; [|done].
  case_if; [by apply (clear_and_return_sim (with_stage p PAYLOAD))|].
  destruct (content_length p =? 0); [by case_if|].
  case_if; [by apply (clear_and_return_sim (with_stage p PAYLOAD))|done].
Qed.

Lemma step_sim p c buffer ch :
  tb_inv (buf p) → sim (step alloc env p c buffer ch) (step alloc env (abs p) c buffer ch).
Proof.
  intros Hi. unfold step. change (stage (abs p)) with (stage p). destruct (stage p).
  - by apply step_method_sim.
  - by apply step_uri_sim.
  - by apply step_protocol_sim.
  - by apply step_newline_sim.
  - by apply step_header_key_sim.
  - unfold step_header_space. case_if; [done|].
    by apply (step_header_value_sim (with_stage p HEADER_VALUE)).
  - by apply step_header_value_sim.
  - by apply step_newline_sim.
  - by apply step_newline3_sim.
  - by apply parse_payload_sim.
Qed.

(** The runs agree: same status, same connection, same state up to the buffer. *)
Definition sim_run (x : option (httpparser_status * parser T * connection))
    (y : option (httpparser_status * parser (list Z) * connection)) : Prop :=
  match x, y with
  | Some (st, p, c), Some (st', p', c') => st' = st ∧ c' = c ∧ p' = abs p ∧ tb_inv (buf p)
  | None, None => True
  | _, _ => False
  end.

Lemma run_loop_sim p c buffer rest :
  tb_inv (buf p) →
  sim_run (run_loop alloc env p c buffer rest) (run_loop alloc env (abs p) c buffer rest).
Proof.
  revert p c. induction rest as [|ch rest IH]; intros p c Hi; cbn [run_loop]; [done|].
  pose proof (step_sim p c buffer ch Hi) as Hs.
  destruct (step alloc env p c buffer ch) as [r|], (step alloc env (abs p) c buffer ch) as [r'|];
    simpl in Hs; try done. destruct Hs as [-> Hr]. simpl.
  destruct r as [p1 c1|st p1 c1]; simpl in *; [|done].
  by apply (IH (with_pos p1 (pos p1 + 1))).
Qed.

Lemma httpparser_run_sim p c buffer :
  tb_inv (buf p) →
  sim_run (httpparser_run alloc env p c buffer) (httpparser_run alloc env (abs p) c buffer).
Proof.
  intros Hi. unfold httpparser_run. change (stage (abs p)) with (stage p).
  pose proof (parse_payload_sim p c buffer Hi) as Hp.
  assert (sim_run
    (rest ← (if pos_start p <? bytes_readed p
             then mem_read buffer (pos_start p) (bytes_readed p - pos_start p) else Some []);
     run_loop alloc env (with_pos p (pos_start p)) c buffer rest)
    (rest ← (if pos_start (abs p) <? bytes_readed (abs p)
             then mem_read buffer (pos_start (abs p)) (bytes_readed (abs p) - pos_start (abs p))
             else Some []);
     run_loop alloc env (with_pos (abs p) (pos_start (abs p))) c buffer rest)) as Hr.
  { simpl. destruct (if _ <? _ then _ else _) as [rest|]; simpl; [|done].
    by apply (run_loop_sim (with_pos p (pos_start p))). }
  destruct (stage p); try exact Hr.
  destruct (parse_payload env p c buffer) as [[]|], (parse_payload env (abs p) c buffer) as [[]|];
    simpl in *; try done; destruct Hp as [[=] ?]; by simplify_eq.
Qed.

Definition sim_read (x : option (verdict * parser T * connection * list httprequest))
    (y : option (verdict * parser (list Z) * connection * list httprequest)) : Prop :=
  match x, y with
  | Some (v, p, c, l), Some (v', p', c', l') => v' = v ∧ c' = c ∧ l' = l ∧ p' = abs p ∧ tb_inv (buf p)
  | None, None => True
  | _, _ => False
  end.

Lemma read_chunk_loop_sim fuel p c buffer l :
  tb_inv (buf p) →
  sim_read (read_chunk_loop alloc env fuel p c buffer l)
           (read_chunk_loop alloc env fuel (abs p) c buffer l).
Proof.
  revert p c l. induction fuel as [|fuel IH]; intros p c l Hi; cbn [read_chunk_loop]; [done|].
  pose proof (httpparser_run_sim p c buffer Hi) as Hs.
  destruct (httpparser_run alloc env p c buffer) as [[[st p1] c1]|],
    (httpparser_run alloc env (abs p) c buffer) as [[[st' p1'] c1']|]; simpl in Hs; try done.
  destruct Hs as (-> & -> & -> & Hi1). simpl. destruct st; try done.
  - destruct (request p1) as [r|]; simpl; [|done]. unfold httpparser_prepare_continue.
    destruct (tb_clear_ok (buf p1) Hi1) as (b & -> & Hb & Hc). simpl.
    match goal with |- sim_read (read_chunk_loop _ _ _ ?q _ _ _) _ => specialize (IH q c1 (l ++ [r]) Hb) end.
    unfold abs, with_buf in IH. simpl in IH. by rewrite Hc in IH.
  - destruct (request p1) as [r|]; simpl; [|done]. unfold httpparser_reset, httpparser_init.
    destruct (tb_init_ok (buf p1) Hi1) as (b & -> & Hb & Hc). simpl.
    split_and!; [done..| |done]. unfold abs, with_buf. simpl. by rewrite Hc.
Qed.

Lemma read_chunk_sim p c chunk :
  tb_inv (buf p) →
  sim_read (read_chunk alloc env p c chunk) (read_chunk alloc env (abs p) c chunk).
Proof. intros Hi. by apply (read_chunk_loop_sim _ (start_chunk p (zlen chunk))). Qed.
End Simulation.
