(* ===== verification/RequestStream.v ===== *)
(** How the request parser behaves on a stream of chunks.

    Everything here is about the parser over byte lists, which the parser over
    [bufferdata_t] was shown to follow. The main fact is that reading a chunk is
    reading its bytes one by one: the requests found do not depend on how the
    network cut the stream. *)

From S2P Require Import Prelude Helpers QueryParser CookieParser RangeParser TokenBuffer RequestParser.

Abbreviation lparser := (parser (list Z)).

(** The same parser with other read positions. *)
Definition at_ (p : lparser) (readed start here : Z) : lparser :=
  Parser (buf p) readed start here (request p) (stage p) (host_found p) (host_header_seen p)
    (content_length_found p) (transfer_encoding_found p) (headers_count p) (content_length p)
    (content_saved_length p).

Definition still (p : lparser) : lparser := at_ p 0 0 0.

(** Two parsers that differ only in their read positions. *)
Definition same (p q : lparser) : Prop := still p = still q.

#[export] Instance same_equiv : Equivalence same.
Proof. split; [by intros ?|by intros ???|intros ??? H1 H2; unfold same in *; congruence]. Qed.

Lemma at_still p a b c : at_ (still p) a b c = at_ p a b c.
Proof. done. Qed.

Lemma same_at p q a b c : same p q → at_ p a b c = at_ q a b c.
Proof. intros Hs. rewrite <- (at_still p), <- (at_still q). by rewrite Hs. Qed.

Lemma same_still p : same (still p) p.
Proof. done. Qed.

Section Stream.
Variable alloc : allocator.
Variable env : environment.

Abbreviation cleared c := (Parser [] 0 0 0 None METHOD (ssl c) false false false 0 0 0 : lparser).

(** ** Steps do not look at the read positions, but for the end of the head *)

Definition reoff (a b d : Z) (r : @result (list Z)) : @result (list Z) :=
  match r with Go q c => Go (at_ q a b d) c | Ret st q c => Ret st q c end.

Lemma clear_and_return_off p c st a b d :
  clear_and_return (at_ p a b d) c st = clear_and_return (still p) c st.
Proof. unfold clear_and_return, clear. simpl. by destruct (request p). Qed.

Lemma reoff_clear p c st a b d :
  reoff a b d <$> clear_and_return (still p) c st = clear_and_return (still p) c st.
Proof.
  unfold clear_and_return, clear. simpl. destruct (request p) as [r|]; simpl; [|done].
  by destruct (httprequest_free r).
Qed.

Lemma push_limited_off p c limit ch a b d :
  push_limited alloc (at_ p a b d) c limit ch = reoff a b d <$> push_limited alloc (still p) c limit ch.
Proof.
  unfold push_limited. simpl. case_if; [|done].
  by rewrite reoff_clear, clear_and_return_off.
Qed.

Lemma set_header_value_off p c r tok a b d :
  set_header_value alloc env (at_ p a b d) c r tok
  = (λ '(st, q, c'), (st, at_ q a b d, c')) <$> set_header_value alloc env (still p) c r tok.
Proof.
  unfold set_header_value. destruct (list.last (headers r)) as [h0|]; simpl; [|done].
  destruct (tok ≫= _) as [v|]; [|done].
  set (h := Header (h_key h0) v). set (r1 := set_headers r _).
  unfold try_set_server, with_request. simpl.
  destruct (negb (header_is_host h)); simpl.
  2: destruct (host_header_seen p); [done|]; simpl.
  2: destruct (_ || _); [done|].
  2: destruct (host_name v) as [dm|]; [|done].
  2: destruct (idn_to_ascii alloc env dm) as [asc|]; [|done].
  2: destruct (ssl c && sni c);
       [ destruct (ctx_server c) as [sv|]; [|done]; destruct (server_matches_host env sv asc); [|done]
       | destruct (find_server env c asc) as [sv|]; [|done] ].
  all: simpl; destruct (try_set_range alloc r1 h) as [r2|]; simpl; [|done].
  all: destruct (try_set_cookie alloc r2 h) as [r3|]; simpl; [|done].
  all: unfold check_framing; simpl; destruct (header_is_content_length h); simpl;
    [ destruct (content_length_found p); [done|]; destruct (transfer_encoding_found p); [done|];
      destruct (validate_content_length env h); [|done]; simpl | ].
  all: by destruct (header_is_transfer_encoding h).
Qed.

Lemma with_token_list (p : lparser) c k : with_token alloc p c k = k p (Some (buf p)).
Proof. by destruct p. Qed.

Lemma reset_and_go_off p c a b d :
  reset_and_go (at_ p a b d) c = reoff a b d <$> reset_and_go (still p) c.
Proof. done. Qed.

(** Both sides clear, so the read positions are gone. *)
Ltac off_clear := by rewrite ?clear_and_return_off, ?reoff_clear.

Lemma step_method_off p c ch a b d :
  step_method alloc (at_ p a b d) c ch = reoff a b d <$> step_method alloc (still p) c ch.
Proof.
  unfold step_method. simpl. case_if; [done|].
  assert (∀ p1 : lparser,
    (if ch =? chr_SP then
       with_token alloc (with_stage (at_ p1 a b d) URI) c (λ p2 string,
         r ← request p2;
         match string ≫= set_method r with
         | None => clear_and_return p2 c HTTP1PARSER_BAD_REQUEST
         | Some r' => reset_and_go (with_request p2 (Some r')) c
         end)
     else push_limited alloc (at_ p1 a b d) c 7 ch)
    = reoff a b d <$>
    (if ch =? chr_SP then
       with_token alloc (with_stage (still p1) URI) c (λ p2 string,
         r ← request p2;
         match string ≫= set_method r with
         | None => clear_and_return p2 c HTTP1PARSER_BAD_REQUEST
         | Some r' => reset_and_go (with_request p2 (Some r')) c
         end)
     else push_limited alloc (still p1) c 7 ch)) as Hm.
  { intros p1. destruct (ch =? chr_SP); [|apply push_limited_off]. rewrite !with_token_list.
    simpl. destruct (request p1) as [r|] eqn:Er; simpl; [|done].
    destruct (set_method r (buf p1)); simpl; [done|].
    change (with_stage (at_ p1 a b d) URI) with (at_ (with_stage p1 URI) a b d).
    change (with_stage (still p1) URI) with (still (with_stage p1 URI)). off_clear. }
  destruct (request p) as [r|] eqn:Er; [by apply Hm|].
  destruct (a_ok alloc SIZEOF_REQUEST); [by apply (Hm (with_request p (Some new_request)))|off_clear].
Qed.

Lemma step_uri_off p c ch a b d :
  step_uri alloc (at_ p a b d) c ch = reoff a b d <$> step_uri alloc (still p) c ch.
Proof.
  unfold step_uri. destruct (ch =? chr_SP).
  - rewrite !with_token_list. change (with_stage (at_ p a b d) PROTOCOL) with (at_ (with_stage p PROTOCOL) a b d).
    change (with_stage (still p) PROTOCOL) with (still (with_stage p PROTOCOL)). cbn [mbind option_bind].
    change (buf (at_ (with_stage p PROTOCOL) a b d)) with (buf p).
    change (buf (still (with_stage p PROTOCOL))) with (buf p).
    destruct (copy_cstringn _ (buf p)) as [u|]; [|off_clear]. simpl.
    destruct (request p) as [r|]; simpl; [|done].
    destruct (httpparser_set_uri alloc r u) as [[st r']|]; simpl; [|done].
    change (with_request (at_ (with_stage p PROTOCOL) a b d) (Some r'))
      with (at_ (with_request (with_stage p PROTOCOL) (Some r')) a b d).
    change (with_request (still (with_stage p PROTOCOL)) (Some r'))
      with (still (with_request (with_stage p PROTOCOL) (Some r'))).
    destruct st; try done; off_clear.
  - destruct (httpparser_is_ctl ch); [off_clear|apply push_limited_off].
Qed.

Lemma step_protocol_off p c ch a b d :
  step_protocol alloc (at_ p a b d) c ch = reoff a b d <$> step_protocol alloc (still p) c ch.
Proof.
  unfold step_protocol. destruct (ch =? chr_CR); [|apply push_limited_off].
  rewrite !with_token_list. change (with_stage (at_ p a b d) NEWLINE1) with (at_ (with_stage p NEWLINE1) a b d).
  change (with_stage (still p) NEWLINE1) with (still (with_stage p NEWLINE1)). simpl.
  destruct (request p) as [r|]; simpl; [|done].
  destruct (set_protocol r (buf p)) as [st r']. destruct st; try done; off_clear.
Qed.

Lemma step_header_key_off p c ch a b d :
  step_header_key alloc (at_ p a b d) c ch = reoff a b d <$> step_header_key alloc (still p) c ch.
Proof.
  unfold step_header_key. destruct (ch =? chr_CR); [simpl; case_if; [off_clear|done]|].
  destruct (ch =? chr_COLON); [|case_if; [off_clear|apply push_limited_off]].
  rewrite !with_token_list. change (with_stage (at_ p a b d) HEADER_SPACE) with (at_ (with_stage p HEADER_SPACE) a b d).
  change (with_stage (still p) HEADER_SPACE) with (still (with_stage p HEADER_SPACE)). simpl.
  destruct (request p) as [r|]; simpl; [|done]. unfold set_header_key. simpl.
  case_if; [off_clear|]. case_if; [off_clear|]. case_if; [|off_clear].
  destruct (copy_cstringn _ (buf p)); [|off_clear]. destruct (copy_cstringn _ []); [done|off_clear].
Qed.

Lemma step_header_value_off p c ch a b d :
  step_header_value alloc env (at_ p a b d) c ch
  = reoff a b d <$> step_header_value alloc env (still p) c ch.
Proof.
  unfold step_header_value. destruct (ch =? chr_CR).
  - rewrite !with_token_list. change (with_stage (at_ p a b d) NEWLINE2) with (at_ (with_stage p NEWLINE2) a b d).
    change (with_stage (still p) NEWLINE2) with (still (with_stage p NEWLINE2)).
    change (request (at_ (with_stage p NEWLINE2) a b d)) with (request p).
    change (request (still (with_stage p NEWLINE2))) with (request p).
    destruct (request p) as [r|]; cbn [mbind option_bind]; [|done].
    rewrite set_header_value_off.
    change (buf (at_ (with_stage p NEWLINE2) a b d)) with (buf p).
    change (buf (still (with_stage p NEWLINE2))) with (buf p).
    assert (∀ x, set_header_value alloc env (still (with_stage p NEWLINE2)) c r (Some (buf p)) = Some x →
      still (snd (fst x)) = snd (fst x)) as Hst.
    { intros x Hx. pose proof (set_header_value_off (still (with_stage p NEWLINE2)) c r (Some (buf p)) 0 0 0) as H0.
      change (at_ (still (with_stage p NEWLINE2)) 0 0 0) with (still (with_stage p NEWLINE2)) in H0.
      change (still (still (with_stage p NEWLINE2))) with (still (with_stage p NEWLINE2)) in H0.
      rewrite Hx in H0. destruct x as [[st q] c']. simpl in *. by injection H0. }
    destruct (set_header_value alloc env (still (with_stage p NEWLINE2)) c r (Some (buf p)))
      as [[[st q] c']|]; simpl; [|done].
    specialize (Hst _ eq_refl). simpl in Hst. rewrite <- Hst.
    destruct st; try done; off_clear.
  - destruct (httpparser_is_ctl ch); [off_clear|apply push_limited_off].
Qed.

Definition in_head (p : lparser) : Prop := stage p ≠ NEWLINE3 ∧ stage p ≠ PAYLOAD.

Lemma step_off p c buffer buffer' ch a b d :
  in_head p →
  step alloc env (at_ p a b d) c buffer ch = reoff a b d <$> step alloc env (still p) c buffer' ch.
Proof.
  intros [Hn3 Hpl]. unfold step. change (stage (at_ p a b d)) with (stage p).
  change (stage (still p)) with (stage p). destruct (stage p); try done.
  - apply step_method_off.
  - apply step_uri_off.
  - apply step_protocol_off.
  - unfold step_newline. case_if; [done|off_clear].
  - apply step_header_key_off.
  - unfold step_header_space. case_if; [done|].
    apply (step_header_value_off (with_stage p HEADER_VALUE)).
  - apply step_header_value_off.
  - unfold step_newline. case_if; [done|off_clear].
Qed.
End Stream.
