(* ===== verification/RequestInvariant.v ===== *)
(** The invariant of the request parser, and what a request it hands over satisfies.

    The parser over byte lists is run one byte at a time here; [RequestStream]
    relates this to whole chunks. *)

From S2P Require Import Prelude Helpers QueryParser CookieParser RangeParser TokenBuffer RequestParser RequestStream.

(** ** Requests *)

Definition key_char (b : Z) : Prop := httpparser_is_ctl b = false ∧ b ≠ chr_SP ∧ b ≠ chr_COLON.
Definition value_char (b : Z) : Prop := httpparser_is_ctl b = false.

(** A header line: a non-empty key without blanks, colons or control bytes, a value
    without control bytes, both within their limits. *)
Definition header_wf (h : http_header) : Prop :=
  h_key h ≠ [] ∧ zlen (h_key h) <= MAX_HEADER_KEY_SIZE ∧ Forall key_char (h_key h) ∧
  zlen (h_value h) <= MAX_HEADER_VALUE_SIZE ∧ Forall value_char (h_value h).

Definition count (f : http_header → bool) (hs : list http_header) : Z := zlen (List.filter f hs).

(** The body length the headers announce. *)
Definition declared (hs : list http_header) : Z :=
  match List.filter header_is_content_length hs with
  | h :: _ => fst (digits (h_value h ++ [0]) 0 0)
  | [] => 0
  end.

(** The path part and the query part of a request target. *)
Definition target_path (u : list Z) : list Z :=
  match find_path_end u 0 with Some (n, _) => take (Z.to_nat n) u | None => u end.
Definition target_query (u : list Z) : list (list Z * list Z) :=
  match find_path_end u 0 with
  | Some (n, true) => query_pairs (drop (Z.to_nat (n + 1)) u)
  | _ => []
  end.

(** The decoded path has no [..] segment, and the query chain holds the pairs. *)
Definition uri_ok (r : httprequest) : Prop :=
  ∃ u, uri r = Some u ∧ u !! 0%nat = Some chr_SLASH ∧
    path r = Some (urldecodel (target_path u)) ∧
    ([chr_DOT; chr_DOT] ∉ split_on chr_SLASH (urldecodel (target_path u))) ∧
    chain (length (q_heap r)) (q_heap r) (query_ (queries r)) = Some (target_query u).

(** What every request handed to the application satisfies. *)
Record request_ok (limit : Z) (r : httprequest) : Prop := {
  ok_method : method r ≠ ROUTE_NONE;
  ok_version : version r ≠ HTTP1_VER_NONE;
  ok_uri : uri_ok r;
  ok_headers : Forall header_wf (headers r);
  ok_headers_count : zlen (headers r) <= MAX_HEADERS_COUNT;
  ok_host : count header_is_host (headers r) <= 1;
  ok_host_1_1 : version r = HTTP1_VER_1_1 → count header_is_host (headers r) = 1;
  ok_content_length : count header_is_content_length (headers r) <= 1;
  ok_transfer_encoding : count header_is_transfer_encoding (headers r) = 0;
  ok_body : zlen (p_content (payload_ r)) = declared (headers r);
  ok_body_limit : declared (headers r) <= limit;
  ok_body_method : 0 < declared (headers r) → httprequest_allow_payload r = true }.

(** ** The parser's invariant *)

(** The query nodes are live, so the request can be released. *)
Definition q_ok (r : httprequest) : Prop :=
  (q_heap r = [] ∧ queries r = RequestQueries None None) ∨
  (∃ l, chained [] l (q_heap r) ∧ query_ (queries r) = Some 0%nat).

(** The headers whose value has been processed. *)
Definition settled (s : httprequestparser_stage) (r : httprequest) : list http_header :=
  match s with HEADER_SPACE | HEADER_VALUE => removelast (headers r) | _ => headers r end.

Section Invariant.
Variable limit : Z.

(** The parser's flags and body length are those of the settled headers. *)
Record Flags (p : lparser) (hs : list http_header) : Prop := {
  fl_host : count header_is_host hs = Z.b2z (host_header_seen p);
  fl_length : count header_is_content_length hs = Z.b2z (content_length_found p);
  fl_coding : count header_is_transfer_encoding hs = 0;
  fl_coding_flag : transfer_encoding_found p = false;
  fl_declared : content_length p = declared hs;
  fl_limit : 0 <= content_length p <= limit }.

Definition body_state (s : httprequestparser_stage) (p : lparser) (r : httprequest) : Prop :=
  match s with
  | PAYLOAD => httprequest_allow_payload r = true ∧
               0 <= content_saved_length p < content_length p ∧
               zlen (p_content (payload_ r)) = content_saved_length p ∧
               (version r = HTTP1_VER_1_1 → host_header_seen p = true)
  | _ => payload_ r = Payload false [] ∧ content_saved_length p = 0
  end.

Record ReqInv (s : httprequestparser_stage) (p : lparser) (r : httprequest) : Prop := {
  ri_method : s ≠ METHOD → method r ≠ ROUTE_NONE;
  ri_uri : s ≠ METHOD → s ≠ URI → uri_ok r;
  ri_version : s ≠ METHOD → s ≠ URI → s ≠ PROTOCOL → version r ≠ HTTP1_VER_NONE;
  ri_q : q_ok r;
  ri_q_fresh : s = METHOD ∨ s = URI → q_heap r = [] ∧ queries r = RequestQueries None None;
  ri_headers : Forall header_wf (headers r);
  ri_count : headers_count p = zlen (headers r) ∧ zlen (headers r) <= MAX_HEADERS_COUNT;
  ri_open : s = HEADER_SPACE ∨ s = HEADER_VALUE → headers r ≠ [];
  ri_flags : Flags p (settled s r);
  ri_body : body_state s p r }.

(** The token collected so far is within the stage's limit and alphabet. *)
Definition token_ok (s : httprequestparser_stage) (b : list Z) : Prop :=
  match s with
  | METHOD => zlen b <= 7
  | URI => zlen b <= MAX_URI_SIZE ∧ Forall value_char b
  | PROTOCOL => zlen b <= 8
  | HEADER_KEY => zlen b <= MAX_HEADER_KEY_SIZE ∧ Forall key_char b
  | HEADER_VALUE => zlen b <= MAX_HEADER_VALUE_SIZE ∧ Forall value_char b
  | _ => b = []
  end.

Record PInv (p : lparser) : Prop := {
  pi_token : token_ok (stage p) (buf p);
  pi_request : match request p with
               | None => stage p = METHOD ∧ headers_count p = 0 ∧ content_saved_length p = 0 ∧
                         Flags p []
               | Some r => ReqInv (stage p) p r
               end }.
End Invariant.

(** ** Releasing a request *)

Lemma httprequest_free_ok r : q_ok r → httprequest_free r = Some ().
Proof.
  intros [[Hh Hq]|(l & (l' & k & v & -> & Hh) & Hq)]; unfold httprequest_free.
  - by rewrite Hh, Hq.
  - rewrite Hq. pose proof (queries_free_parsing [] l' (Query (Some k) (Some v) None) (length (q_heap r))
      eq_refl) as Hf. rewrite <- Hh in Hf. simpl in Hf. rewrite Hf; [done|].
    rewrite Hh, length_parsing. unfold last_addr. simpl. lia.
Qed.

Section Step.
Variable alloc : allocator.
Variable env : environment.
Hypothesis memory : plenty_memory alloc.

Abbreviation limit := (client_max_body_size env).

Definition cleared (c : connection) : lparser :=
  Parser [] 0 0 0 None METHOD (ssl c) false false false 0 0 0.

Definition q_request_ok (p : lparser) : Prop := ∀ r, request p = Some r → q_ok r.

Lemma clear_ok p c st :
  q_request_ok p → clear_and_return p c st = Some (Ret st (cleared c) c).
Proof.
  intros Hq. unfold clear_and_return, clear. destruct (request p) as [r|] eqn:Er; [|done].
  rewrite (httprequest_free_ok r) by by apply Hq. done.
Qed.

Lemma PInv_q p : PInv limit p → q_request_ok p.
Proof.
  intros [_ Hr] r Er. rewrite Er in Hr. apply Hr.
Qed.

(** [client_max_body_size] is an [unsigned int]. *)
Hypothesis limit_range : 0 <= limit < 2 ^ 32.

Lemma Flags_nil (p : lparser) :
  host_header_seen p = false → content_length_found p = false → transfer_encoding_found p = false →
  content_length p = 0 → Flags limit p [].
Proof. intros H1 H2 H3 H4. constructor; rewrite ?H1, ?H2, ?H3, ?H4; done || lia. Qed.

Lemma cleared_inv c : PInv limit (cleared c).
Proof.
  constructor; [done|]. simpl. split_and!; [done..|]. by apply Flags_nil.
Qed.

(** Outcome of one step from a good state in stage [s]. *)
Definition post (s : httprequestparser_stage) (x : @result (list Z)) : Prop :=
  match x with
  | Go p _ => PInv limit p
  | Ret HTTP1PARSER_CONTINUE p _ => s = PAYLOAD ∧ PInv limit p ∧ stage p = PAYLOAD
  | Ret HTTP1PARSER_COMPLETE p _ =>
      (s = NEWLINE3 ∨ s = PAYLOAD) ∧ ∃ r, request p = Some r ∧ request_ok limit r
  | Ret HTTP1PARSER_HANDLE_AND_CONTINUE _ _ => False
  | Ret _ p c => p = cleared c
  end.

Definition step_ok (s : httprequestparser_stage) (x : option (@result (list Z))) : Prop :=
  ∃ r, x = Some r ∧ post s r.

(** Error statuses: everything that ends the connection. *)
Definition refusal (st : httpparser_status) : Prop :=
  st ≠ HTTP1PARSER_CONTINUE ∧ st ≠ HTTP1PARSER_HANDLE_AND_CONTINUE ∧ st ≠ HTTP1PARSER_COMPLETE.

Lemma clear_step_ok s p c st :
  q_request_ok p → refusal st → step_ok s (clear_and_return p c st).
Proof.
  intros Hq (H1 & H2 & H3). rewrite clear_ok by done. eexists. split; [done|].
  by destruct st.
Qed.

Lemma copy_ok s : copy_cstringn (a_ok alloc) s = Some s.
Proof. unfold copy_cstringn. by rewrite memory. Qed.

(** The fields of a parser that do not depend on the token. *)
Lemma ReqInv_fields s p p' r :
  headers_count p' = headers_count p → host_header_seen p' = host_header_seen p →
  content_length_found p' = content_length_found p →
  transfer_encoding_found p' = transfer_encoding_found p → content_length p' = content_length p →
  content_saved_length p' = content_saved_length p →
  ReqInv limit s p r → ReqInv limit s p' r.
Proof.
  intros E1 E2 E3 E4 E5 E6 [? ? ? ? ? ? ? ? [F1 F2 F3 F4 F5 F6] Hb].
  constructor; try done.
  - by rewrite E1.
  - constructor; rewrite ?E2, ?E3, ?E4, ?E5; done.
  - unfold body_state in *. destruct s; rewrite ?E2, ?E5, ?E6; done.
Qed.

Lemma push_ok s p c lim ch :
  PInv limit p → (zlen (buf p) < lim → token_ok (stage p) (buf p ++ [ch])) →
  step_ok s (push_limited alloc p c lim ch).
Proof.
  intros Hi Ht. unfold push_limited. simpl.
  destruct (Z.leb_spec lim (zlen (buf p))); [apply clear_step_ok; [by apply PInv_q|done]|].
  eexists. split; [done|]. constructor; simpl; [by apply Ht|].
  destruct Hi as [_ Hr]. destruct (request p); [by apply (ReqInv_fields _ p)|].
  destruct Hr as (? & ? & ? & [? ? ? ? ? ?]). split_and!; done.
Qed.

(** ** Stage by stage *)

Lemma new_request_inv p :
  PInv limit p → request p = None → ReqInv limit METHOD p new_request.
Proof.
  intros [_ Hr] Er. rewrite Er in Hr. destruct Hr as (Hs & Hc & Hsv & Hf).
  constructor; simpl; [done|done|done|by left|done|constructor| |by intros []|done|done].
  by rewrite Hc.
Qed.

(** Moving to a stage with an empty token. *)
Lemma next_stage_ok {s} s' (p' : lparser) c (r : httprequest) :
  stage p' = s' → buf p' = [] → request p' = Some r → ReqInv limit s' p' r →
  token_ok s' [] → step_ok s (Some (Go p' c)).
Proof.
  intros Hs Hb Hr Hi Ht. eexists. split; [done|]. constructor; rewrite Hs, ?Hb; [done|]. by rewrite Hr.
Qed.

Lemma find_method_some names s m :
  Forall (λ nm, snd nm ≠ ROUTE_NONE) names → find_method names s = Some m → m ≠ ROUTE_NONE.
Proof.
  induction 1 as [|[n m'] names Hn _ IH]; [done|]. simpl. case_decide; [|done].
  by intros [= <-].
Qed.

Lemma step_method_ok p c ch :
  PInv limit p → stage p = METHOD → step_ok METHOD (step_method alloc p c ch).
Proof.
  intros Hi Hs. unfold step_method. case_if; [by eexists|]. rewrite memory.
  assert (∃ p1 r, (match request p with
            | Some _ => Some p | None => Some (with_request p (Some new_request)) end) = Some p1 ∧
          request p1 = Some r ∧ stage p1 = METHOD ∧ buf p1 = buf p ∧ ReqInv limit METHOD p1 r)
    as (p1 & r & -> & Er & Es & Eb & Hr).
  { destruct (request p) as [r|] eqn:Er.
    - exists p, r. split_and!; [done..|]. pose proof (pi_request _ _ Hi) as Hr. by rewrite Er, Hs in Hr.
    - eexists _, new_request. split_and!; [done..|].
      by apply (ReqInv_fields METHOD p), new_request_inv. }
  assert (PInv limit p1) as Hi1.
  { constructor; [rewrite Es, Eb, <- Hs; apply Hi|]. by rewrite Er, Es. }
  destruct (ch =? chr_SP).
  - rewrite with_token_list. simpl. rewrite Er. simpl.
    destruct (set_method r (buf p1)) as [r'|] eqn:Em.
    + unfold set_method in Em. destruct (find_method method_names (buf p1)) as [m|] eqn:Ef; [|done].
      injection Em as <-. apply (next_stage_ok URI _ _ (set_method_version r m (version r)));
        [done..| |split; [done|constructor]].
      destruct Hr as [? ? ? Hq Hqf Hh Hc Ho [] Hb]. constructor; try done.
      * intros _. simpl. apply (find_method_some method_names (buf p1)); [|done].
        repeat constructor; done.
      * intros _. by apply Hqf; left.
      * by intros [].
    + apply clear_step_ok; [|done]. intros r' Hr'. simpl in Hr'. rewrite Er in Hr'. simplify_eq. apply Hr.
  - apply push_ok; [done|]. rewrite Es. simpl. rewrite zlen_app. change (zlen [ch]) with 1. lia.
Qed.

Lemma traversal_free s :
  is_path_traversal s = false → [chr_DOT; chr_DOT] ∉ split_on chr_SLASH s.
Proof.
  unfold is_path_traversal, split_on. intros Ht Hin.
  rewrite (is_path_traversal_loop_spec s [] 0 0 47) in Ht by done.
  apply list_elem_of_In in Hin.
  assert (existsb (λ seg, bool_decide (seg = [46; 46])) (split_on_aux chr_SLASH [] s) = true) as Hx.
  { apply existsb_exists. exists [chr_DOT; chr_DOT]. split; [done|]. by apply bool_decide_eq_true. }
  congruence.
Qed.

Lemma find_path_end_bound rest n m b :
  find_path_end rest n = Some (m, b) → n <= m < n + zlen rest.
Proof.
  revert n. induction rest as [|c rest IH]; intros n; cbn [find_path_end]; [done|].
  rewrite zlen_cons. pose proof (zlen_nonneg rest).
  destruct (c =? chr_QUEST); [intros [= <- <-]; lia|]. destruct (c =? chr_HASH); [intros [= <- <-]; lia|].
  intros Hf. apply IH in Hf. lia.
Qed.

(** The target's path ends behind its leading slash. *)
Lemma find_path_end_slash rest m b :
  find_path_end (chr_SLASH :: rest) 0 = Some (m, b) → (m =? 0) = false.
Proof. cbn [find_path_end]. simpl. intros Hf%find_path_end_bound. lia. Qed.

Lemma chain_chained l h :
  chained [] l h → chain (length h) h (Some 0%nat) = Some l.
Proof.
  intros (l' & k & v & -> & ->). apply (chain_parsing []). rewrite length_parsing.
  unfold last_addr. simpl. lia.
Qed.

(** [httpparser_set_uri]: refused, or a request whose target is understood. *)
Lemma set_uri_ok r u :
  q_heap r = [] → queries r = RequestQueries None None →
  ∃ st r', httpparser_set_uri alloc r u = Some (st, r') ∧ q_ok r' ∧
    (st = HTTP1PARSER_BAD_REQUEST ∧
       (u !! 0%nat ≠ Some chr_SLASH ∨ is_path_traversal (urldecodel (target_path u)) = true) ∨
     st = HTTP1PARSER_CONTINUE ∧ uri_ok r' ∧ uri r' = Some u) ∧
    method r' = method r ∧ version r' = version r ∧ headers r' = headers r ∧ payload_ r' = payload_ r.
Proof.
  intros Hh Hq. unfold httpparser_set_uri.
  destruct u as [|x u]; simpl; [eexists _, _; split_and!; [done|by left|by left; split; [|left]|done..]|].
  destruct (Z.eqb_spec x chr_SLASH) as [->|Hx]; simpl.
  2: { eexists _, _; split_and!; [done|by left| |done..]. left. split; [done|]. left. by intros [=]. }
  set (r0 := set_uri_path r (Some (47 :: u)) (path r)).
  assert (∀ r1, uri r1 = Some (47 :: u) → q_ok r1 →
    chain (length (q_heap r1)) (q_heap r1) (query_ (queries r1)) = Some (target_query (47 :: u)) →
    ∃ st r', set_path alloc r1 (target_path (47 :: u)) = (st, r') ∧ q_ok r' ∧
      (st = HTTP1PARSER_BAD_REQUEST ∧
         (Some 47 ≠ Some chr_SLASH ∨ is_path_traversal (urldecodel (target_path (47 :: u))) = true) ∨
       st = HTTP1PARSER_CONTINUE ∧ uri_ok r' ∧ uri r' = Some (47 :: u)) ∧
      method r' = method r1 ∧ version r' = version r1 ∧ headers r' = headers r1 ∧
      payload_ r' = payload_ r1) as Hpath.
  { intros r1 Hu Hqo Hch. unfold set_path, urldecode. rewrite memory.
    destruct (is_path_traversal _) eqn:Et; eexists _, _; split; try done.
    - split_and!; [done|by left; split; [|right]|done..].
    - split_and!; [done| |done..]. right. split; [done|]. split; [|done]. exists (47 :: u). simpl.
      split_and!; [done..|by apply traversal_free|done]. }
  unfold target_path, target_query in Hpath |- *.
  change (find_path_end u (0 + 1)) with (find_path_end (47 :: u) 0).
  destruct (find_path_end (47 :: u) 0) as [[m b]|] eqn:Ef.
  - rewrite (find_path_end_slash _ _ _ Ef). destruct b.
    + pose proof (find_path_end_bound _ _ _ _ Ef) as Hm.
      unfold set_query. change (q_heap r0) with (q_heap r). change (queries r0) with (queries r).
      rewrite Hh, Hq.
      destruct (queryparser_parse_ok (a_ok alloc) memory [] (47 :: u) (m + 1)) as (pq & -> & Hok & Hch & Hf & Hl & Hreq);
        [lia|]. simpl. rewrite Hok. simpl.
      destruct (Hpath (set_queries r0 (p_heap pq) (RequestQueries (out_first pq) (out_last pq))))
        as (st & r' & He & Hrest); [done| | |].
      * right. eexists. split; [done|]. simpl. by rewrite Hf.
      * simpl. rewrite Hf. by apply chain_chained.
      * eexists _, _. rewrite He. done.
    + destruct (Hpath r0) as (st & r' & He & Hrest); [done|by left|simpl; by rewrite Hh, Hq|].
      eexists _, _. rewrite He. done.
  - destruct (Hpath r0) as (st & r' & He & Hrest); [done|by left|simpl; by rewrite Hh, Hq|].
    eexists _, _. rewrite He. done.
Qed.

Lemma step_uri_ok p c ch :
  PInv limit p → stage p = URI → step_ok URI (step_uri alloc p c ch).
Proof.
  intros Hi Hs. pose proof (pi_request _ _ Hi) as Hr. rewrite Hs in Hr.
  destruct (request p) as [r|] eqn:Er; [|by destruct Hr].
  unfold step_uri. destruct (ch =? chr_SP).
  - rewrite with_token_list. simpl. rewrite copy_ok, Er. simpl.
    destruct (ri_q_fresh _ _ _ _ Hr) as [Hh Hq]; [by right|].
    destruct (set_uri_ok r (buf p) Hh Hq) as (st & r' & -> & Hqo & Hst & E1 & E2 & E3 & E4). simpl.
    destruct Hst as [[-> _]|(-> & Hu & _)].
    + apply clear_step_ok; [|done]. intros r'' [= <-]. done.
    + apply (next_stage_ok PROTOCOL _ _ r'); [done..| |done].
      destruct Hr as [Hm _ _ _ _ Hhd Hc Ho Hf Hb]. constructor; simpl.
      * intros _. rewrite E1. by apply Hm.
      * done.
      * done.
      * done.
      * by intros [].
      * by rewrite E3.
      * by rewrite E3.
      * by intros [].
      * rewrite E3. by destruct Hf.
      * by rewrite E4.
  - destruct (httpparser_is_ctl ch) eqn:Ec; [apply clear_step_ok; [by apply PInv_q|done]|].
    apply push_ok; [done|]. pose proof (pi_token _ _ Hi) as Ht. rewrite Hs in *. simpl in *.
    intros Hl. rewrite zlen_app. change (zlen [ch]) with 1. split; [lia|].
    apply Forall_app. split; [tauto|by constructor].
Qed.

Lemma step_protocol_ok p c ch :
  PInv limit p → stage p = PROTOCOL → step_ok PROTOCOL (step_protocol alloc p c ch).
Proof.
  intros Hi Hs. pose proof (pi_request _ _ Hi) as Hr. rewrite Hs in Hr.
  destruct (request p) as [r|] eqn:Er; [|by destruct Hr].
  unfold step_protocol. destruct (ch =? chr_CR).
  - rewrite with_token_list. simpl. rewrite Er. simpl.
    assert (∀ v, v ≠ HTTP1_VER_NONE → ∀ c',
      step_ok PROTOCOL (reset_and_go (with_request (with_stage p NEWLINE1) (Some (set_method_version r (method r) v))) c'))
      as Hgo.
    { intros v Hv c'. apply (next_stage_ok NEWLINE1 _ _ (set_method_version r (method r) v)); [done..| |done].
      destruct Hr as [Hm Hu _ Hq _ Hhd Hc Ho [] Hb]. constructor; simpl; try done; try (by intros []).
      - intros _. by apply Hm.
      - intros _ _. by apply Hu. }
    assert (step_ok PROTOCOL (clear_and_return (with_stage p NEWLINE1) c HTTP1PARSER_BAD_REQUEST)) as Hbad.
    { apply clear_step_ok; [|done]. intros r' Hr'. simpl in Hr'. rewrite Er in Hr'. simplify_eq. apply Hr. }
    unfold set_protocol. case_if; [done|]. case_decide; [by apply Hgo|]. case_decide; [by apply Hgo|done].
  - apply push_ok; [done|]. pose proof (pi_token _ _ Hi) as Ht. rewrite Hs in *. simpl in *.
    rewrite zlen_app. change (zlen [ch]) with 1. lia.
Qed.

(** Stages that only wait for a line feed. *)
Lemma step_newline_ok p c ch s :
  PInv limit p → stage p = s → s = NEWLINE1 ∨ s = NEWLINE2 → step_ok s (step_newline HEADER_KEY p c ch).
Proof.
  intros Hi Hs Hn. unfold step_newline.
  destruct (ch =? chr_LF); [|apply clear_step_ok; [by apply PInv_q|done]].
  pose proof (pi_request _ _ Hi) as Hr. pose proof (pi_token _ _ Hi) as Ht. rewrite Hs in *.
  assert (buf p = []) as Hb by by destruct Hn as [->| ->].
  destruct (request p) as [r|] eqn:Er; [|destruct Hr as [-> _]; by destruct Hn].
  apply (next_stage_ok HEADER_KEY _ _ r); [done..| |].
  - destruct Hn as [->| ->]; destruct Hr as [Hm Hu Hv Hq _ Hhd Hc Ho Hf Hbd];
      (constructor; simpl; try done; try (by intros []);
       [by intros _; apply Hm|by intros _ _; apply Hu|by intros _ _ _; apply Hv|by destruct Hf]).
  - split; [by rewrite (@zlen_nil Z)|constructor].
Qed.

Lemma step_header_key_ok p c ch :
  PInv limit p → stage p = HEADER_KEY → step_ok HEADER_KEY (step_header_key alloc p c ch).
Proof.
  intros Hi Hs. pose proof (pi_request _ _ Hi) as Hr. pose proof (pi_token _ _ Hi) as Ht.
  rewrite Hs in Hr, Ht. destruct (request p) as [r|] eqn:Er; [|by destruct Hr].
  destruct Ht as [Htl Htc].
  unfold step_header_key. destruct (ch =? chr_CR).
  { simpl. destruct (Z.ltb_spec 0 (zlen (buf p))); [apply clear_step_ok; [by apply PInv_q|done]|].
    assert (buf p = []) as Hb by (apply zlen_0_nil; pose proof (zlen_nonneg (buf p)); lia).
    apply (next_stage_ok NEWLINE3 _ _ r); [done..| |done].
    destruct Hr as [Hm Hu Hv Hq _ Hhd Hc Ho Hf Hbd]; constructor; simpl; try done; try (by intros []).
    - intros _. by apply Hm.
    - intros _ _. by apply Hu.
    - intros _ _ _. by apply Hv.
    - by destruct Hf. }
  destruct (Z.eqb_spec ch chr_COLON) as [->|Hnc].
  - rewrite with_token_list. simpl. rewrite Er. simpl.
    assert (∀ st, refusal st → step_ok HEADER_KEY (clear_and_return (with_stage p HEADER_SPACE) c st)) as Hbad.
    { intros st Hst. apply clear_step_ok; [|done]. intros r' Hr'. simpl in Hr'. rewrite Er in Hr'.
      simplify_eq. apply Hr. }
    unfold set_header_key. simpl.
    destruct (Z.leb_spec MAX_HEADERS_COUNT (headers_count p)); [by apply Hbad|].
    destruct (Z.eqb_spec (zlen (buf p)) 0) as [|Hne]; [by apply Hbad|].
    rewrite memory, !copy_ok.
    apply (next_stage_ok HEADER_SPACE _ _ (set_headers r (headers r ++ [Header (buf p) []]))); [done..| |done].
    destruct Hr as [Hm Hu Hv Hq _ Hhd [Hc1 Hc2] Ho Hf Hbd]. constructor; simpl; try done; try (by intros []).
    + intros _. by apply Hm.
    + intros _ _. by apply Hu.
    + intros _ _ _. by apply Hv.
    + apply Forall_app. split; [done|]. constructor; [|done]. unfold header_wf. simpl.
      split_and!; [intros E; by rewrite E in Hne|done|done| |constructor].
      unfold MAX_HEADER_VALUE_SIZE. rewrite (@zlen_nil Z). lia.
    + rewrite zlen_app. change (zlen [_]) with 1. lia.
    + intros _. by destruct (headers r).
    + rewrite removelast_last. by destruct Hf.
  - destruct (httpparser_is_ctl ch) eqn:Ec; simpl; [apply clear_step_ok; [by apply PInv_q|done]|].
    destruct (Z.eqb_spec ch chr_SP) as [|Hsp]; simpl; [apply clear_step_ok; [by apply PInv_q|done]|].
    destruct (Z.eqb_spec ch chr_TAB) as [|Htab]; simpl; [apply clear_step_ok; [by apply PInv_q|done]|].
    apply push_ok; [done|]. rewrite Hs. simpl. intros Hl. rewrite zlen_app. change (zlen [ch]) with 1.
    split; [lia|]. apply Forall_app. split; [done|]. by repeat constructor.
Qed.

(** ** Header values *)

Lemma trim_ows_prefix l : ∃ t, l = trim_ows_right l ++ t.
Proof.
  unfold trim_ows_right. assert (∀ k, ∃ t, k = t ++ drop_ows k) as Hd.
  { induction k as [|x k [t IH]]; [by exists []|]. cbn [drop_ows].
    destruct (is_ows x); [|by exists []]. exists (x :: t). simpl. by f_equal. }
  destruct (Hd (rev l)) as [t Ht]. exists (rev t).
  rewrite <- rev_app_distr, <- Ht. by rewrite rev_involutive.
Qed.

Lemma count_snoc f hs h : count f (hs ++ [h]) = count f hs + Z.b2z (f h).
Proof.
  unfold count. rewrite List.filter_app, zlen_app. simpl. by destruct (f h).
Qed.

Lemma declared_snoc hs h :
  (header_is_content_length h = false → declared (hs ++ [h]) = declared hs) ∧
  (header_is_content_length h = true → count header_is_content_length hs = 0 →
   declared (hs ++ [h]) = fst (digits (h_value h ++ [0]) 0 0)).
Proof.
  unfold declared, count. rewrite List.filter_app. cbn [List.filter]. split.
  - intros ->. by rewrite app_nil_r.
  - intros -> Hc. apply zlen_0_nil in Hc. by rewrite Hc.
Qed.

Lemma digits_nonneg l acc n : 0 <= acc → 0 <= fst (digits l acc n).
Proof.
  revert acc n. induction l as [|c l IH]; intros acc n Ha; cbn [digits]; [done|].
  destruct (isdigit c) eqn:E; [|done]. apply IH. unfold isdigit in E. reflect_bools. lia.
Qed.

Lemma validate_ok h n :
  validate_content_length env h = Some n →
  n = fst (digits (h_value h ++ [0]) 0 0) ∧ 0 <= n <= limit.
Proof.
  unfold validate_content_length. case_if; [done|]. case_if; [done|].
  pose proof (digits_nonneg (h_value h ++ [0]) 0 0 ltac:(lia)) as Hn.
  destruct (digits _ 0 0) as [v k]. simpl in *. case_if; [done|]. case_if; [done|]. case_if; [done|].
  intros [= <-]. reflect_bools. lia.
Qed.

(** What [try_set_server] may change, and when it lets a header pass. *)
Lemma try_set_server_ok (p : lparser) c h :
  ∃ st p' c', try_set_server alloc env p c h = (st, p', c') ∧ request p' = request p ∧
    (st = HTTP1PARSER_BAD_REQUEST ∨ st = HTTP1PARSER_HOST_NOT_FOUND ∨
     st = HTTP1PARSER_CONTINUE ∧
     ∃ hf, p' = with_host p hf (host_header_seen p || header_is_host h) ∧
           (header_is_host h = true → host_header_seen p = false)).
Proof.
  unfold try_set_server. destruct (header_is_host h) eqn:Eh; simpl.
  2: { eexists _, _, _. split_and!; [done|done|]. right. right. split; [done|].
       exists (host_found p). split; [by destruct p as [? ? ? ? ? ? ? []]|done]. }
  destruct (host_header_seen p) eqn:Es.
  { eexists _, _, _. split_and!; [done|done|by left]. }
  case_if; [eexists _, _, _; split_and!; [done|done|by left]|].
  destruct (host_name (h_value h)) as [dm|]; [|eexists _, _, _; split_and!; [done|done|by left]].
  destruct (idn_to_ascii alloc env dm) as [asc|];
    [|eexists _, _, _; split_and!; [done|done|by right; left]].
  destruct (ssl c && sni c).
  - destruct (ctx_server c) as [sv|]; [|eexists _, _, _; split_and!; [done|done|by right; left]].
    destruct (server_matches_host env sv asc); eexists _, _, _; (split; [done|]; split; [done|]);
      [right; right|by right; left]. split; [done|]. by exists true.
  - destruct (find_server env c asc) as [sv|]; eexists _, _, _; (split; [done|]; split; [done|]);
      [right; right|by right; left]. split; [done|]. by exists true.
Qed.

Lemma try_set_range_ok r h :
  ∃ r', try_set_range alloc r h = Some r' ∧ ∃ rg, r' = set_cookies_ranges r (cookies r) rg.
Proof.
  unfold try_set_range. destruct (cmpstrn_lower _ _).
  - destruct (range_parser_ok (a_ok alloc) (h_value h)) as (l & -> & _). simpl. eauto.
  - eexists. split; [done|]. exists (ranges r). by destruct r.
Qed.

Lemma try_set_cookie_ok r h :
  ∃ r', try_set_cookie alloc r h = Some r' ∧ ∃ ck, r' = set_cookies_ranges r ck (ranges r).
Proof.
  unfold try_set_cookie. destruct (negb _); [eexists; split; [done|]; exists (cookies r); by destruct r|].
  destruct (cookieparser_parse_ok (a_ok alloc) cookieparser_init (h_value h)) as (ok & cp & -> & _).
  simpl. destruct ok; [eauto|]. eexists. split; [done|]. exists (cookies r). by destruct r.
Qed.

(** [check_framing]: at most one valid Content-Length, no Transfer-Encoding. *)
Lemma check_framing_ok r (p : lparser) h hs :
  count header_is_content_length hs = Z.b2z (content_length_found p) →
  count header_is_transfer_encoding hs = 0 → transfer_encoding_found p = false →
  content_length p = declared hs → 0 <= content_length p <= limit →
  ∃ st p', check_framing env r p h = (st, p') ∧ request p' = request p ∧ buf p' = buf p ∧
    stage p' = stage p ∧ headers_count p' = headers_count p ∧
    host_header_seen p' = host_header_seen p ∧ content_saved_length p' = content_saved_length p ∧
    (st = HTTP1PARSER_BAD_REQUEST ∨
     st = HTTP1PARSER_CONTINUE ∧
     count header_is_content_length (hs ++ [h]) = Z.b2z (content_length_found p') ∧
     count header_is_transfer_encoding (hs ++ [h]) = 0 ∧ transfer_encoding_found p' = false ∧
     content_length p' = declared (hs ++ [h]) ∧ 0 <= content_length p' <= limit).
Proof.
  intros Hcl Hte Htf Hd Hl. unfold check_framing.
  destruct (declared_snoc hs h) as [Hd1 Hd2].
  rewrite !count_snoc. destruct (header_is_content_length h) eqn:Ec.
  - destruct (content_length_found p); [eexists _, _; split_and!; [done..|by left]|].
    rewrite Htf. destruct (validate_content_length env h) as [n|] eqn:Ev;
      [|eexists _, _; split_and!; [done..|by left]].
    apply validate_ok in Ev as [-> Hn].
    destruct (header_is_transfer_encoding h) eqn:Et; [eexists _, _; split_and!; [done..|by left]|].
    eexists _, _. split_and!; [done..|]. right. simpl in *. rewrite Hd2 by done.
    split_and!; [done|lia|lia|done|done|lia|lia].
  - destruct (header_is_transfer_encoding h) eqn:Et; [eexists _, _; split_and!; [done..|by left]|].
    eexists _, _. split_and!; [done..|]. right. simpl. rewrite Hd1 by done.
    split_and!; [done|lia|lia|done|done|lia|lia].
Qed.

Lemma set_header_value_ok p c r string :
  ReqInv limit HEADER_VALUE p r → zlen string <= MAX_HEADER_VALUE_SIZE → Forall value_char string →
  buf p = string → stage p = NEWLINE2 → request p = Some r →
  ∃ st p' c', set_header_value alloc env p c r (Some string) = Some (st, p', c') ∧
    q_request_ok p' ∧
    (refusal st ∨ st = HTTP1PARSER_CONTINUE ∧ stage p' = NEWLINE2 ∧
                  ∃ r', request p' = Some r' ∧ ReqInv limit NEWLINE2 p' r').
Proof.
  intros Hr Hl Hc Hb Hs Er. unfold set_header_value.
  destruct Hr as [Hm Hu Hv Hq _ Hhd [Hc1 Hc2] Ho [F1 F2 F3 F4 F5 F6] Hbd].
  specialize (Ho ltac:(by right)). simpl in *.
  destruct (headers r) as [|h0 hs _] eqn:Eh using rev_ind; [done|].
  rewrite last_snoc, removelast_last in *. simpl. rewrite copy_ok. simpl.
  set (h := Header (h_key h0) (trim_ows_right string)).
  set (r1 := set_headers r (hs ++ [h])).
  assert (q_ok r1) as Hq1 by exact Hq.
  destruct (try_set_server_ok (with_request p (Some r1)) c h) as (st & p2 & c2 & -> & Er2 & Hst).
  assert (q_request_ok p2) as Hqp2 by (intros r' Hr'; rewrite Er2 in Hr'; by simplify_eq/=).
  destruct Hst as [-> |[-> |(-> & hf & -> & Hhost)]].
  1, 2: eexists _, _, _; split_and!; [done|done|by left].
  destruct (try_set_range_ok r1 h) as (r2 & -> & rg & ->). cbn [mbind option_bind].
  destruct (try_set_cookie_ok (set_cookies_ranges r1 (cookies r1) rg) h) as (r3 & -> & ck & ->).
  cbn [mbind option_bind].
  set (r3 := set_cookies_ranges _ ck _).
  destruct (check_framing_ok r3 (with_request (with_host (with_request p (Some r1)) hf
    (host_header_seen (with_request p (Some r1)) || header_is_host h)) (Some r3)) h hs)
    as (st & p4 & -> & E1 & E2 & E3 & E4 & E5 & E6 & Hst); [done..|]. simpl in *.
  eexists _, _, _. split; [done|]. split; [intros r' Hr'; rewrite E1 in Hr'; by simplify_eq|].
  destruct Hst as [-> |(-> & G1 & G2 & G3 & G4 & G5)]; [by left|]. right.
  split; [done|]. split; [by rewrite E3|]. exists r3. split; [done|].
  apply Forall_app in Hhd as [Hhs Hh0]. apply Forall_cons_iff in Hh0 as [(K1 & K2 & K3 & _) _].
  destruct (trim_ows_prefix string) as [t Ht].
  constructor; simpl; try done; try (by intros []).
  - intros _. by apply Hm.
  - intros _ _. by apply Hu.
  - intros _ _ _. by apply Hv.
  - apply Forall_app. split; [done|]. constructor; [|done].
    pose proof (zlen_nonneg t). rewrite Ht in Hl, Hc. rewrite zlen_app in Hl.
    apply Forall_app in Hc as [Hc _]. unfold header_wf. simpl. split_and!; [done..|lia|done].
  - rewrite E4, Hc1, !zlen_app in *. done.
  - constructor; rewrite ?E5; try done. rewrite count_snoc, F1.
    destruct (header_is_host h); [rewrite Hhost by done|rewrite orb_false_r]; simpl; [done|lia].
  - destruct Hbd as [Hp Hsv]. by rewrite E6.
Qed.

Lemma step_header_value_ok p c ch :
  PInv limit p → stage p = HEADER_VALUE → step_ok HEADER_VALUE (step_header_value alloc env p c ch).
Proof.
  intros Hi Hs. pose proof (pi_request _ _ Hi) as Hr. pose proof (pi_token _ _ Hi) as Ht.
  rewrite Hs in Hr, Ht. destruct (request p) as [r|] eqn:Er; [|by destruct Hr].
  destruct Ht as [Htl Htc]. unfold step_header_value. destruct (ch =? chr_CR).
  - rewrite with_token_list. simpl. rewrite Er. simpl.
    destruct (set_header_value_ok (with_stage p NEWLINE2) c r (buf p)) as (st & p' & c' & -> & Hq & Hst);
      [by apply (ReqInv_fields _ p)|done..|]. simpl.
    destruct Hst as [Hf|(-> & Hs' & r' & Er' & Hr')].
    + destruct st; try (by apply clear_step_ok); by destruct Hf as (? & ? & ?).
    + apply (next_stage_ok NEWLINE2 _ _ r'); [done..| |done]. by apply (ReqInv_fields _ p').
  - destruct (httpparser_is_ctl ch) eqn:Ec; [apply clear_step_ok; [by apply PInv_q|done]|].
    apply push_ok; [done|]. rewrite Hs. simpl. intros Hl. rewrite zlen_app. change (zlen [ch]) with 1.
    split; [lia|]. apply Forall_app. split; [done|by constructor].
Qed.

Lemma step_ok_value s x : step_ok HEADER_VALUE x → step_ok s x.
Proof.
  intros (r & -> & Hp). exists r. split; [done|]. destruct r as [|st]; [done|].
  destruct st; simpl in *; try done; [by destruct Hp|by destruct Hp as [[] _]].
Qed.

Lemma step_header_space_ok p c ch :
  PInv limit p → stage p = HEADER_SPACE → step_ok HEADER_SPACE (step_header_space alloc env p c ch).
Proof.
  intros Hi Hs. unfold step_header_space. case_if; [by eexists|].
  pose proof (pi_request _ _ Hi) as Hr. pose proof (pi_token _ _ Hi) as Ht. rewrite Hs in Hr, Ht.
  destruct (request p) as [r|] eqn:Er; [|by destruct Hr].
  apply step_ok_value, step_header_value_ok; [|done]. constructor; simpl.
  - rewrite Ht. split; [|constructor]. unfold MAX_HEADER_VALUE_SIZE. rewrite (@zlen_nil Z). lia.
  - rewrite Er. destruct Hr as [Hm Hu Hv Hq _ Hhd Hc Ho Hf Hbd]. constructor; simpl; try done.
    + intros _. by apply Hm.
    + intros _ _. by apply Hu.
    + intros _ _ _. by apply Hv.
    + by intros [].
    + intros _. apply Ho. by left.
    + by destruct Hf.
Qed.

(** ** End of the head and the body *)

(** The request of a parser whose headers are all settled. *)
Lemma request_complete s p r :
  ReqInv limit s p r → s = NEWLINE3 ∨ s = PAYLOAD →
  (version r = HTTP1_VER_1_1 → host_header_seen p = true) →
  (0 < content_length p → httprequest_allow_payload r = true) →
  ∀ r', method r' = method r → version r' = version r → uri r' = uri r → path r' = path r →
        q_heap r' = q_heap r → queries r' = queries r → headers r' = headers r →
        zlen (p_content (payload_ r')) = content_length p → request_ok limit r'.
Proof.
  intros Hr Hs Hh Ha r' E1 E2 E3 E4 E5 E6 E7 Hp.
  destruct Hr as [Hm Hu Hv Hq _ Hhd [Hc1 Hc2] _ Hf _].
  assert (settled s r = headers r) as Hset by by destruct Hs as [->| ->].
  rewrite Hset in Hf. destruct Hf as [F1 F2 F3 F4 F5 F6].
  constructor; rewrite ?E1, ?E2, ?E7.
  - apply Hm. by destruct Hs as [->| ->].
  - apply Hv; by destruct Hs as [->| ->].
  - unfold uri_ok. rewrite E3, E4, E5, E6. apply Hu; by destruct Hs as [->| ->].
  - done.
  - done.
  - rewrite F1. by destruct (host_header_seen p).
  - intros Hver. by rewrite F1, (Hh Hver).
  - rewrite F2. by destruct (content_length_found p).
  - done.
  - by rewrite Hp.
  - lia.
  - rewrite <- F5. unfold httprequest_allow_payload in *. rewrite E1. done.
Qed.

Lemma step_newline3_ok p c ch :
  PInv limit p → stage p = NEWLINE3 → step_ok NEWLINE3 (step_newline3 (at_ p 1 0 0) c ch).
Proof.
  intros Hi Hs. pose proof (pi_request _ _ Hi) as Hr. pose proof (pi_token _ _ Hi) as Ht.
  rewrite Hs in Hr, Ht. destruct (request p) as [r|] eqn:Er; [|by destruct Hr].
  assert (q_ok r) as Hq by apply Hr.
  assert (∀ st, refusal st → ∀ p', request p' = Some r → step_ok NEWLINE3 (clear_and_return p' c st)) as Hbad.
  { intros st Hst p' Hp'. apply clear_step_ok; [|done]. intros r' Hr'. rewrite Hp' in Hr'. by simplify_eq. }
  unfold step_newline3. simpl. rewrite Er. destruct (ch =? chr_LF); [|by apply Hbad]. simpl.
  destruct (bool_decide (version r = HTTP1_VER_1_1) && negb (host_header_seen p)) eqn:Eh; [by apply Hbad|].
  assert (version r = HTTP1_VER_1_1 → host_header_seen p = true) as Hh.
  { intros Hv. rewrite bool_decide_eq_true_2 in Eh by done. simpl in Eh. by apply negb_false_iff. }
  destruct (Hr.(ri_body _ _ _ _)) as [Hp Hsv].
  destruct (Z.eqb_spec (content_length p) 0) as [Ez|Ez].
  { eexists. split; [done|]. simpl. split; [by left|]. exists r. split; [done|].
    apply (request_complete NEWLINE3 p r); try done; [by left|lia|]. by rewrite Hp, Ez. }
  destruct (httprequest_allow_payload r) eqn:Ea; simpl; [|by apply Hbad].
  apply (next_stage_ok PAYLOAD _ _ r); [done..| |done].
  destruct Hr as [Hm Hu Hv _ _ Hhd Hc _ Hf _]. destruct Hf as [F1 F2 F3 F4 F5 F6].
  constructor; simpl; try done; try (by intros []).
  - intros _. by apply Hm.
  - intros _ _. by apply Hu.
  - intros _ _ _. by apply Hv.
  - rewrite Hp, Hsv. split_and!; try done; lia.
Qed.

Hypothesis files : mkstemp_ok env = true ∧ ∀ d, pwrite_ok env d = true.

Lemma append_content_ok f d : d ≠ [] → append_content env f d = Some (Payload (p_open f) (p_content f ++ d)).
Proof.
  intros Hd. unfold append_content. destruct files as [_ ->].
  destruct (Z.eqb_spec (zlen d) 0) as [E|]; [|done]. by apply zlen_0_nil in E.
Qed.

Lemma parse_payload_byte p c ch :
  PInv limit p → stage p = PAYLOAD →
  ∃ r, request p = Some r ∧
    let p' := with_saved (with_request (at_ p 1 0 0) (Some (set_payload r
                (Payload true (p_content (payload_ r) ++ [ch]))))) (content_saved_length p + 1) in
    parse_payload env (at_ p 1 0 0) c [ch] =
      Some (Ret (if content_saved_length p + 1 =? content_length p
                 then HTTP1PARSER_COMPLETE else HTTP1PARSER_CONTINUE) p' c).
Proof.
  intros Hi Hs. pose proof (pi_request _ _ Hi) as Hr. rewrite Hs in Hr.
  destruct (request p) as [r|] eqn:Er; [|by destruct Hr]. exists r. split; [done|].
  destruct (Hr.(ri_body _ _ _ _)) as (Ha & Hsv & Hl & _). destruct (Hr.(ri_flags _ _ _ _)) as [_ _ _ _ _ F6].
  unfold parse_payload. simpl. rewrite Er, Ha. simpl. change (1 - 0) with 1. unfold SIZE_MAX.
  destruct (Z.ltb_spec (18446744073709551615 - content_saved_length p) 1); [lia|].
  destruct (Z.ltb_spec (content_length p) (1 + content_saved_length p)); [lia|].
  destruct (Z.ltb_spec limit (content_saved_length p + 1)); [lia|].
  destruct files as [-> _]. rewrite andb_false_r. rewrite mem_read_Some by (rewrite ?zlen_cons, ?(@zlen_nil Z); lia).
  simpl.
  rewrite append_content_ok by done. simpl. by destruct (_ =? _).
Qed.

Lemma payload_ok p c ch :
  PInv limit p → stage p = PAYLOAD → step_ok PAYLOAD (parse_payload env (at_ p 1 0 0) c [ch]).
Proof.
  intros Hi Hs. destruct (parse_payload_byte p c ch Hi Hs) as (r & Er & ->).
  pose proof (pi_request _ _ Hi) as Hr. rewrite Hs, Er in Hr. pose proof (pi_token _ _ Hi) as Ht.
  rewrite Hs in Ht. destruct (Hr.(ri_body _ _ _ _)) as (Ha & Hsv & Hl & Hh).
  eexists. split; [done|].
  destruct (Z.eqb_spec (content_saved_length p + 1) (content_length p)) as [E|E]; simpl.
  - split; [by right|]. eexists. split; [done|]. apply (request_complete PAYLOAD p r); try done; [by right|].
    simpl. rewrite zlen_app. change (zlen [ch]) with 1. lia.
  - split; [done|]. split; [|done]. constructor; simpl; [by rewrite Hs|]. rewrite Hs.
    destruct Hr as [Hm Hu Hv Hq _ Hhd Hc _ [] _]. constructor; simpl; try done; try (by intros []).
    rewrite zlen_app. change (zlen [ch]) with 1. split_and!; [done|lia|lia|lia|done].
Qed.

(** ** One byte *)

Definition onebyte (p : lparser) (c : connection) (ch : Z) : option (@result (list Z)) :=
  step alloc env (at_ p 1 0 0) c [ch] ch.

Lemma PInv_at p a b d : PInv limit p → PInv limit (at_ p a b d).
Proof.
  intros [Ht Hr]. constructor; simpl; [done|]. destruct (request p); [by apply (ReqInv_fields _ p)|].
  destruct Hr as (? & ? & ? & []). done.
Qed.

Lemma onebyte_ok p c ch : PInv limit p → step_ok (stage p) (onebyte p c ch).
Proof.
  intros Hi. pose proof (PInv_at p 1 0 0 Hi) as Hi'. unfold onebyte, step.
  change (stage (at_ p 1 0 0)) with (stage p). destruct (stage p) eqn:Hs.
  - by apply step_method_ok.
  - by apply step_uri_ok.
  - by apply step_protocol_ok.
  - by apply (step_newline_ok _ _ _ NEWLINE1); [| |left].
  - by apply step_header_key_ok.
  - by apply step_header_space_ok.
  - by apply step_header_value_ok.
  - by apply (step_newline_ok _ _ _ NEWLINE2); [| |right].
  - by apply step_newline3_ok.
  - by apply payload_ok.
Qed.
End Step.
