(* ===== verification/RequestChunks.v ===== *)
(** Chunks: reading a chunk is reading its bytes one at a time, so the requests a
    connection yields do not depend on how the stream is cut; every request handed
    over is well formed; the read loop always ends. *)

From S2P Require Import Prelude Helpers QueryParser CookieParser RangeParser TokenBuffer RequestParser RequestStream RequestInvariant.

Section Chunks.
Variable alloc : allocator.
Variable env : environment.

(** ** The reference: byte by byte *)

Fixpoint consume (p : lparser) (c : connection) (data : list Z) (l : list httprequest)
    : option (verdict * lparser * connection * list httprequest) :=
  match data with
  | [] => Some (Wait, p, c, l)
  | ch :: rest =>
      x ← onebyte alloc env p c ch;
      match x with
      | Go p1 c1 | Ret HTTP1PARSER_CONTINUE p1 c1 => consume p1 c1 rest l
      | Ret HTTP1PARSER_COMPLETE p1 c1 =>
          r ← request p1;
          match rest with
          | [] => Some (Done, cleared c1, c1, l ++ [r])
          | _ => consume (cleared c1) c1 rest (l ++ [r])
          end
      | Ret HTTP1PARSER_HANDLE_AND_CONTINUE _ _ => None
      | Ret st p1 c1 => Some (Refuse st, p1, c1, l)
      end
  end.

Hypothesis memory : plenty_memory alloc.
Hypothesis limit_range : 0 <= client_max_body_size env < 2 ^ 32.
Hypothesis files : mkstemp_ok env = true ∧ ∀ d, pwrite_ok env d = true.

Abbreviation limit := (client_max_body_size env).

(** Same outcome, up to the read positions. *)
Definition agree (x y : option (verdict * lparser * connection * list httprequest)) : Prop :=
  match x, y with
  | Some (v, p, c, l), Some (v', p', c', l') => v = v' ∧ same p p' ∧ c = c' ∧ l = l'
  | None, None => True
  | _, _ => False
  end.

Lemma consume_same p q c data l : same p q → data ≠ [] → consume p c data l = consume q c data l.
Proof.
  intros Hs Hd. destruct data as [|ch rest]; [done|]. cbn [consume]. unfold onebyte.
  by rewrite (same_at p q 1 0 0 Hs).
Qed.

(** ** Bodies *)

(** The parser after [d] more bytes of the body. *)
Definition advanced (p : lparser) (r : httprequest) (d : list Z) : lparser :=
  with_saved (with_request p (Some (set_payload r (Payload true (p_content (payload_ r) ++ d)))))
    (content_saved_length p + zlen d).

(** One byte of the body. *)
Lemma onebyte_payload p c ch r :
  PInv limit p → stage p = PAYLOAD → request p = Some r →
  onebyte alloc env p c ch =
    Some (Ret (if content_saved_length p + 1 =? content_length p
               then HTTP1PARSER_COMPLETE else HTTP1PARSER_CONTINUE)
            (at_ (advanced p r [ch]) 1 0 0) c).
Proof.
  intros Hi Hs Hr. destruct (parse_payload_byte env limit_range files p c ch Hi Hs) as (r' & Hr' & Hp).
  assert (r' = r) as -> by congruence. unfold onebyte, step.
  change (stage (at_ p 1 0 0)) with (stage p). rewrite Hs. exact Hp.
Qed.

Lemma advanced_inv p r ch :
  PInv limit p → stage p = PAYLOAD → request p = Some r →
  content_saved_length p + 1 < content_length p → PInv limit (advanced p r [ch]).
Proof.
  intros Hi Hs Hr Hlt.
  destruct (onebyte_ok alloc env memory limit_range files p (Connection false false false 0 0 None []) ch Hi)
    as (x & Hx & Hp).
  rewrite (onebyte_payload p _ ch r Hi Hs Hr) in Hx. injection Hx as <-.
  destruct (Z.eqb_spec (content_saved_length p + 1) (content_length p)); [lia|].
  simpl in Hp. destruct Hp as (_ & Hp & _). exact (PInv_at env _ (bytes_readed p) (pos_start p) (pos p) Hp).
Qed.

Lemma advanced_app p r d e :
  request p = Some r → advanced (advanced p r d) (set_payload r (Payload true (p_content (payload_ r) ++ d))) e
  = advanced p r (d ++ e).
Proof.
  intros Hr. unfold advanced, with_saved, with_request, set_payload. simpl.
  rewrite <- app_assoc, zlen_app, Z.add_assoc. done.
Qed.

(** A whole stretch of the body: short of its end, or up to it. *)
Lemma consume_payload d p c r rest l :
  PInv limit p → stage p = PAYLOAD → request p = Some r → d ≠ [] →
  (content_saved_length p + zlen d < content_length p →
     consume p c (d ++ rest) l = consume (at_ (advanced p r d) 1 0 0) c rest l) ∧
  (content_saved_length p + zlen d = content_length p →
     consume p c (d ++ rest) l =
       let l' := l ++ [set_payload r (Payload true (p_content (payload_ r) ++ d))] in
       match rest with
       | [] => Some (Done, cleared c, c, l')
       | _ => consume (cleared c) c rest l'
       end).
Proof.
  revert p r. induction d as [|ch d IH]; intros p r Hi Hs Hr Hd; [done|]. clear Hd.
  rewrite zlen_cons. pose proof (zlen_nonneg d). cbn [app consume].
  rewrite (onebyte_payload p c ch r Hi Hs Hr). cbn [mbind option_bind].
  destruct (Z.eqb_spec (content_saved_length p + 1) (content_length p)) as [E|E].
  { split; intros Hz; [lia|]. assert (d = []) as -> by (apply zlen_0_nil; lia).
    simpl. by destruct rest. }
  destruct d as [|ch' d].
  { split; intros Hz; [done|]. rewrite (@zlen_nil Z) in Hz. lia. }
  assert (PInv limit (at_ (advanced p r [ch]) 1 0 0)) as Hi1.
  { rewrite zlen_cons in *. pose proof (zlen_nonneg d).
    destruct (Z.lt_ge_cases (content_saved_length p + 1) (content_length p)).
    - by apply PInv_at, advanced_inv.
    - pose proof (pi_request _ _ Hi) as HR. rewrite Hr, Hs in HR.
      destruct (HR.(ri_body _ _ _ _)) as (_ & ? & _). lia. }
  destruct (IH (at_ (advanced p r [ch]) 1 0 0) (set_payload r (Payload true (p_content (payload_ r) ++ [ch]))))
    as [IH1 IH2]; [done..|].
  assert (content_saved_length (at_ (advanced p r [ch]) 1 0 0) = content_saved_length p + 1) as Hsv by done.
  change (content_length (at_ (advanced p r [ch]) 1 0 0)) with (content_length p) in IH1, IH2.
  rewrite Hsv in IH1, IH2. split; intros Hz.
  - etransitivity; [apply IH1; lia|]. f_equal.
    change (at_ (advanced (advanced p r [ch])
        (set_payload r (Payload true (p_content (payload_ r) ++ [ch]))) (ch' :: d)) 1 0 0
      = at_ (advanced p r (ch :: ch' :: d)) 1 0 0).
    by rewrite advanced_app.
  - etransitivity; [apply IH2; lia|].
    change (p_content (payload_ (set_payload r (Payload true (p_content (payload_ r) ++ [ch])))))
      with (p_content (payload_ r) ++ [ch]).
    by rewrite <- app_assoc.
Qed.

(** ** The read loop *)

(** What [__read] does after a run of the parser. *)
Definition after_run (fuel : nat) (buffer : list Z) (l : list httprequest)
    (x : httpparser_status * lparser * connection)
    : option (verdict * lparser * connection * list httprequest) :=
  let '(st, p1, c1) := x in
  match st with
  | HTTP1PARSER_CONTINUE => Some (Wait, p1, c1, l)
  | HTTP1PARSER_HANDLE_AND_CONTINUE =>
      r ← request p1;
      p2 ← httpparser_prepare_continue p1 c1;
      read_chunk_loop alloc env fuel p2 c1 buffer (l ++ [r])
  | HTTP1PARSER_COMPLETE =>
      r ← request p1;
      p2 ← httpparser_reset p1 c1;
      Some (Done, p2, c1, l ++ [r])
  | _ => Some (Refuse st, p1, c1, l)
  end.

Lemma read_chunk_loop_S fuel (p : lparser) c buffer l :
  read_chunk_loop alloc env (S fuel) p c buffer l
  = httpparser_run alloc env p c buffer ≫= after_run fuel buffer l.
Proof. done. Qed.

Lemma clear_no_go (p : lparser) c st q c' : clear_and_return p c st ≠ Some (Go q c').
Proof.
  unfold clear_and_return. destruct (clear p c); simpl; [|done]. by intros [=].
Qed.

Lemma parse_payload_no_go (p : lparser) c buffer q c' :
  parse_payload env p c buffer ≠ Some (Go q c').
Proof.
  unfold parse_payload. destruct (request p) as [r|]; [|apply clear_no_go].
  repeat (case_if; [apply clear_no_go|]).
  destruct (mem_read _ _ _); simpl; [|done]. destruct (append_content _ _ _); [|apply clear_no_go].
  case_if; [done|]. by case_if.
Qed.

Lemma run_is_loop p c pre rest n k :
  k = zlen pre → n = k + zlen rest → rest ≠ [] →
  httpparser_run alloc env (at_ p n k k) c (pre ++ rest)
  = run_loop alloc env (at_ p n k k) c (pre ++ rest) rest.
Proof.
  intros -> -> Hne.
  assert (0 < zlen rest) as Hpos.
  { pose proof (zlen_nonneg rest). destruct (Z.eq_dec (zlen rest) 0); [|lia]. by destruct Hne; apply zlen_0_nil. }
  pose proof (zlen_nonneg pre).
  assert ((rest' ← (if pos_start (at_ p (zlen pre + zlen rest) (zlen pre) (zlen pre)) <?
                     bytes_readed (at_ p (zlen pre + zlen rest) (zlen pre) (zlen pre))
                  then mem_read (pre ++ rest) (zlen pre) (zlen pre + zlen rest - zlen pre) else Some []);
     run_loop alloc env (at_ p (zlen pre + zlen rest) (zlen pre) (zlen pre)) c (pre ++ rest) rest')
    = run_loop alloc env (at_ p (zlen pre + zlen rest) (zlen pre) (zlen pre)) c (pre ++ rest) rest) as Hgen.
  { simpl. destruct (Z.ltb_spec (zlen pre) (zlen pre + zlen rest)); [|lia].
    replace (zlen pre + zlen rest - zlen pre) with (zlen rest) by lia.
    rewrite mem_read_Some by (rewrite ?zlen_app; lia).
    rewrite drop_app_length' by (unfold zlen; lia). by rewrite take_zlen. }
  unfold httpparser_run.
  destruct (stage (at_ p (zlen pre + zlen rest) (zlen pre) (zlen pre))) eqn:Hs; try exact Hgen.
  destruct rest as [|ch rest]; [done|]. cbn [run_loop]. unfold step. rewrite Hs.
  destruct (parse_payload env _ c _) as [[q c'|st q c']|] eqn:Hp; simpl; [|done|done].
  by apply parse_payload_no_go in Hp.
Qed.

(** A run over the rest of a chunk, then the loop, is [consume]. *)
Definition chunk_agrees (rest : list Z) : Prop :=
  ∀ p c pre k n s l fuel, PInv limit p → k = zlen pre → n = k + zlen rest → rest ≠ [] →
    n < 2 ^ 63 → (length rest <= fuel)%nat →
    agree (run_loop alloc env (at_ p n s k) c (pre ++ rest) rest ≫= after_run fuel (pre ++ rest) l)
          (consume p c rest l).

(** After a request that ended inside the chunk, the loop starts over on the rest. *)
Lemma restart rest p c pre k n l fuel :
  chunk_agrees rest → still p = cleared c → k = zlen pre → n = k + zlen rest → rest ≠ [] →
  n < 2 ^ 63 → (length rest < fuel)%nat →
  agree (read_chunk_loop alloc env fuel (at_ p n k k) c (pre ++ rest) l) (consume (cleared c) c rest l).
Proof.
  intros Hca Hp Hk Hn Hne Hmax Hf. destruct fuel as [|fuel]; [lia|].
  rewrite read_chunk_loop_S, (run_is_loop p c pre rest n k) by done.
  rewrite <- (at_still p), Hp. apply Hca; try done; [|lia]. by apply cleared_inv.
Qed.

(** The parser goes on with the next byte of the chunk. *)
Lemma go_on rest q c pre k n s l fuel ch p1 :
  chunk_agrees rest → PInv limit p1 → same q p1 → k = zlen pre → n = k + zlen (ch :: rest) →
  n < 2 ^ 63 → (length (ch :: rest) <= fuel)%nat →
  agree (run_loop alloc env (at_ q n s (k + 1)) c (pre ++ ch :: rest) rest
           ≫= after_run fuel (pre ++ ch :: rest) l)
        (consume p1 c rest l).
Proof.
  intros Hca Hi Hs Hk Hn Hmax Hf. destruct rest as [|ch' rest].
  - cbn. split_and!; [done| |done|done]. unfold same. by rewrite <- Hs.
  - rewrite (same_at q p1) by done. rewrite cons_middle, app_assoc.
    apply Hca; [done| | |done|done|simpl in *; lia].
    + rewrite zlen_app. change (zlen [ch]) with 1. lia.
    + rewrite zlen_cons in Hn. lia.
Qed.

Lemma head_agrees ch rest p c pre k n s l fuel :
  chunk_agrees rest → in_head p → PInv limit p → k = zlen pre → n = k + zlen (ch :: rest) →
  n < 2 ^ 63 → (length (ch :: rest) <= fuel)%nat →
  agree (run_loop alloc env (at_ p n s k) c (pre ++ ch :: rest) (ch :: rest)
           ≫= after_run fuel (pre ++ ch :: rest) l)
        (consume p c (ch :: rest) l).
Proof.
  intros Hca Hh Hi Hk Hn Hmax Hf.
  destruct (onebyte_ok alloc env memory limit_range files p c ch Hi) as (x & Hx & Hp).
  cbn [consume run_loop]. rewrite Hx. unfold onebyte in Hx.
  rewrite (step_off alloc env p c [ch] [ch] ch 1 0 0 Hh) in Hx.
  rewrite (step_off alloc env p c (pre ++ ch :: rest) [ch] ch n s k Hh).
  destruct (step alloc env (still p) c [ch] ch) as [[q c1|st q c1]|]; simpl in Hx; [| |done];
    injection Hx as <-; cbn [fmap option_fmap option_map reoff mbind option_bind].
  - by apply (go_on rest q c1 pre k n s l fuel ch (at_ q 1 0 0)).
  - destruct Hh as [H1 H2]. simpl in Hp.
    destruct st; try (by destruct Hp); try done; by destruct Hp as [[] _].
Qed.

Lemma newline3_agrees ch rest p c pre k n s l fuel :
  chunk_agrees rest → stage p = NEWLINE3 → PInv limit p → k = zlen pre → n = k + zlen (ch :: rest) →
  n < 2 ^ 63 → (length (ch :: rest) <= fuel)%nat →
  agree (run_loop alloc env (at_ p n s k) c (pre ++ ch :: rest) (ch :: rest)
           ≫= after_run fuel (pre ++ ch :: rest) l)
        (consume p c (ch :: rest) l).
Proof.
  intros Hca Hs Hi Hk Hn Hmax Hf.
  destruct (onebyte_ok alloc env memory limit_range files p c ch Hi) as (x & Hx & Hp).
  cbn [consume run_loop]. rewrite Hx. unfold onebyte, step in *.
  change (stage (at_ p 1 0 0)) with (stage p) in Hx. change (stage (at_ p n s k)) with (stage p).
  rewrite Hs in *. unfold step_newline3 in *.
  assert (∀ q a b d, clear_and_return (at_ q a b d) c HTTP1PARSER_BAD_REQUEST
          = clear_and_return (still q) c HTTP1PARSER_BAD_REQUEST) as Hcl
    by (intros; apply clear_and_return_off).
  destruct (ch =? chr_LF).
  2: { rewrite Hcl in *. rewrite Hx. destruct x as [q c1|st q c1]; [by apply clear_no_go in Hx|].
       unfold clear_and_return in Hx. destruct (clear (still p) c); by simplify_eq/=. }
  change (with_stage (at_ p n s k) PAYLOAD) with (at_ (with_stage p PAYLOAD) n s k).
  change (with_stage (at_ p 1 0 0) PAYLOAD) with (at_ (with_stage p PAYLOAD) 1 0 0) in Hx.
  simpl in Hx |- *. destruct (request p) as [r|] eqn:Er; simpl in *; [|done].
  rewrite !Hcl in *.
  assert (∀ y, clear_and_return (still (with_stage p PAYLOAD)) c HTTP1PARSER_BAD_REQUEST = Some y →
    ∃ q, y = Ret HTTP1PARSER_BAD_REQUEST q c) as Hbad.
  { intros y. unfold clear_and_return. destruct (clear _ _); simpl; [|done]. intros [= <-]. eauto. }
  destruct (bool_decide _ && _).
  { destruct (Hbad _ Hx) as (q & ->). rewrite Hx. simpl. done. }
  destruct (content_length p =? 0).
  - injection Hx as <-. simpl. rewrite Er. simpl. destruct rest as [|ch' rest].
    + rewrite zlen_cons, (@zlen_nil Z) in Hn. destruct (Z.ltb_spec (k + 1) n); [lia|]. simpl.
      rewrite Er. simpl. done.
    + rewrite !zlen_cons in Hn. pose proof (zlen_nonneg rest).
      destruct (Z.ltb_spec (k + 1) n); [|lia]. simpl. rewrite Er. simpl.
      rewrite cons_middle, app_assoc.
      apply (restart (ch' :: rest) (cleared c) c (pre ++ [ch]) (k + 1) n); try done.
      * rewrite zlen_app. change (zlen [ch]) with 1. lia.
      * rewrite zlen_cons. lia.
  - destruct (httprequest_allow_payload r); simpl in *.
    + injection Hx as <-. simpl.
      by apply (go_on rest (with_stage p PAYLOAD) c pre k n s l fuel ch (at_ (with_stage p PAYLOAD) 1 0 0)).
    + destruct (Hbad _ Hx) as (q & ->). rewrite Hx. simpl. done.
Qed.

(** [__parse_payload] on the bytes [data] of a chunk. *)
Lemma parse_payload_chunk p c r pre data k n s :
  PInv limit p → stage p = PAYLOAD → request p = Some r → k = zlen pre → n = k + zlen data → data ≠ [] →
  n < 2 ^ 63 →
  let need := content_length p - content_saved_length p in
  parse_payload env (at_ p n s k) c (pre ++ data) =
    Some (if need <? zlen data
          then Ret HTTP1PARSER_HANDLE_AND_CONTINUE
                 (at_ (advanced p r (take (Z.to_nat need) data)) n s (k + need)) c
          else Ret (if zlen data =? need then HTTP1PARSER_COMPLETE else HTTP1PARSER_CONTINUE)
                 (at_ (advanced p r data) n s k) c).
Proof.
  intros Hi Hs Hr Hk Hn Hne Hmax need. pose proof (pi_request _ _ Hi) as HR. rewrite Hr, Hs in HR.
  destruct (HR.(ri_body _ _ _ _)) as (Ha & Hsv & Hl & _). destruct (HR.(ri_flags _ _ _ _)) as [_ _ _ _ _ F6].
  pose proof (zlen_nonneg pre). pose proof (zlen_nonneg data).
  assert (0 < zlen data) as Hpos.
  { destruct (Z.eq_dec (zlen data) 0); [|lia]. by destruct Hne; apply zlen_0_nil. }
  unfold parse_payload. simpl. rewrite Hr, Ha. simpl. unfold SIZE_MAX.
  replace (n - k) with (zlen data) by lia.
  destruct (Z.ltb_spec n k); [lia|].
  destruct (Z.ltb_spec (18446744073709551615 - content_saved_length p) (zlen data)); [lia|].
  assert ((content_length p <? zlen data + content_saved_length p) = (need <? zlen data)) as ->.
  { destruct (Z.ltb_spec (content_length p) (zlen data + content_saved_length p)),
      (Z.ltb_spec need (zlen data)); lia. }
  change (content_length p - content_saved_length p) with need.
  set (len := if need <? zlen data then need else zlen data).
  assert (0 < len <= need ∧ len <= zlen data) as Hlen.
  { subst len. destruct (Z.ltb_spec need (zlen data)); lia. }
  destruct (Z.ltb_spec limit (content_saved_length p + len)); [lia|].
  destruct files as [-> _]. rewrite andb_false_r.
  rewrite mem_read_Some by (rewrite ?zlen_app; lia).
  rewrite drop_app_length' by (unfold zlen in *; lia). cbn [mbind option_bind].
  rewrite append_content_ok; [|done|intros E; apply (f_equal zlen) in E; rewrite zlen_take, (@zlen_nil Z) in E; lia].
  assert (zlen (take (Z.to_nat len) data) = len) as Htk by (rewrite zlen_take; lia).
  unfold advanced, with_saved, with_request, with_pos, at_. simpl. subst len.
  destruct (Z.ltb_spec need (zlen data)).
  - rewrite Htk. done.
  - rewrite take_zlen in *.
    assert ((content_saved_length p + zlen data =? content_length p) = (zlen data =? need)) as ->.
    { destruct (Z.eqb_spec (content_saved_length p + zlen data) (content_length p)),
        (Z.eqb_spec (zlen data) need); lia. }
    by destruct (zlen data =? need).
Qed.

Lemma payload_agrees ch rest p c pre k n s l fuel :
  (∀ d, (length d < length (ch :: rest))%nat → chunk_agrees d) →
  stage p = PAYLOAD → PInv limit p → k = zlen pre → n = k + zlen (ch :: rest) → n < 2 ^ 63 →
  (length (ch :: rest) <= fuel)%nat →
  agree (run_loop alloc env (at_ p n s k) c (pre ++ ch :: rest) (ch :: rest)
           ≫= after_run fuel (pre ++ ch :: rest) l)
        (consume p c (ch :: rest) l).
Proof.
  intros Hca Hs Hi Hk Hn Hmax Hf. pose proof (pi_request _ _ Hi) as HR. rewrite Hs in HR.
  destruct (request p) as [r|] eqn:Er; [|by destruct HR].
  destruct (HR.(ri_body _ _ _ _)) as (_ & Hsv & _ & _).
  cbn [run_loop]. unfold step. change (stage (at_ p n s k)) with (stage p). rewrite Hs.
  rewrite (parse_payload_chunk p c r pre (ch :: rest) k n s) by done. cbn [mbind option_bind].
  set (need := content_length p - content_saved_length p). set (data := ch :: rest) in *.
  assert (data ≠ []) as Hne by done. clearbody data.
  destruct (Z.ltb_spec need (zlen data)).
  - set (d := take (Z.to_nat need) data). set (e := drop (Z.to_nat need) data).
    assert (zlen d = need) as Hd by (subst d; rewrite zlen_take; lia).
    assert (zlen e = zlen data - need) as He by (subst e; rewrite zlen_drop; lia).
    assert (d ≠ []) as Hdn by (intros E; rewrite E, (@zlen_nil Z) in Hd; lia).
    assert (e ≠ []) as Hen by (intros E; rewrite E, (@zlen_nil Z) in He; lia).
    assert (data = d ++ e) as Hde by (symmetry; apply take_drop).
    destruct (consume_payload d p c r e l Hi Hs Er Hdn) as [_ Hc].
    specialize (Hc ltac:(lia)). clearbody d e. subst data. rewrite Hc.
    destruct e as [|x e'] eqn:Ee; [done|]. rewrite <- Ee in *. simpl.
    rewrite (app_assoc pre).
    apply (restart e (cleared c) c (pre ++ d) (k + need) n); try done.
    + apply Hca. unfold zlen in *. lia.
    + rewrite zlen_app. lia.
    + lia.
    + unfold zlen in *. lia.
  - destruct (consume_payload data p c r [] l Hi Hs Er Hne) as [Hc1 Hc2]. rewrite app_nil_r in *.
    destruct (Z.eqb_spec (zlen data) need) as [E|E].
    + rewrite Hc2 by lia. simpl. done.
    + rewrite Hc1 by lia. simpl. done.
Qed.

Lemma chunk_agrees_all rest : chunk_agrees rest.
Proof.
  induction rest as [rest IH] using (induction_ltof1 _ length). unfold ltof in IH.
  intros p c pre k n s l fuel Hi Hk Hn Hne Hmax Hf. destruct rest as [|ch rest]; [done|].
  assert (chunk_agrees rest) as Hr by (apply IH; simpl; lia).
  destruct (stage p) eqn:Hs; try (apply head_agrees; [done|split; by rewrite Hs|done..]).
  - by apply newline3_agrees.
  - by apply payload_agrees.
Qed.

Lemma read_chunk_consume p c chunk :
  PInv limit p → chunk ≠ [] → zlen chunk < 2 ^ 63 →
  agree (read_chunk alloc env p c chunk) (consume p c chunk []).
Proof.
  intros Hi Hne Hmax. unfold read_chunk. rewrite read_chunk_loop_S.
  change (start_chunk p (zlen chunk)) with (at_ p (zlen chunk) 0 0).
  rewrite (run_is_loop p c [] chunk) by done.
  by apply (chunk_agrees_all chunk p c [] 0).
Qed.

(** ** Consuming *)

Definition consume_good (l : list httprequest)
    (x : option (verdict * lparser * connection * list httprequest)) : Prop :=
  ∃ v p c l', x = Some (v, p, c, l ++ l') ∧ PInv limit p ∧ Forall (request_ok limit) l'.

Lemma consume_ok data p c l : PInv limit p → consume_good l (consume p c data l).
Proof.
  revert p c l. induction data as [|ch rest IH]; intros p c l Hi.
  { exists Wait, p, c, []. rewrite app_nil_r. by split_and!. }
  cbn [consume].
  destruct (onebyte_ok alloc env memory limit_range files p c ch Hi) as (x & -> & Hp). cbn [mbind option_bind].
  assert (∀ st p1 c1, p1 = cleared c1 → consume_good l (Some (Refuse st, p1, c1, l))) as Hre.
  { intros st p1 c1 ->. exists (Refuse st), (cleared c1), c1, []. rewrite app_nil_r. split_and!; try done.
    by apply cleared_inv. }
  destruct x as [p1 c1|st p1 c1]; [by apply IH|]. destruct st; simpl in Hp; try (by apply Hre).
  - apply IH. tauto.
  - done.
  - destruct Hp as (_ & r & -> & Hr). simpl. pose proof (cleared_inv env limit_range c1) as Hcl.
    destruct rest as [|ch' rest].
    + exists Done, (cleared c1), c1, [r]. split_and!; [done..|]. constructor; [done|constructor].
    + destruct (IH (cleared c1) c1 (l ++ [r]) Hcl) as (v & p' & c' & l' & -> & ? & ?).
      exists v, p', c', (r :: l'). rewrite <- app_assoc. by split_and!; [..|constructor].
Qed.

(** Not refused: the stream goes on. *)
Definition live (v : verdict) : Prop := match v with Refuse _ => False | _ => True end.

Lemma consume_app a b p c l v p1 c1 l1 :
  PInv limit p → b ≠ [] → consume p c a l = Some (v, p1, c1, l1) → live v →
  consume p c (a ++ b) l = consume p1 c1 b l1.
Proof.
  revert p c l. induction a as [|ch rest IH]; intros p c l Hi Hb; cbn [consume app]; [by intros [= <- <- <- <-]|].
  destruct (onebyte_ok alloc env memory limit_range files p c ch Hi) as (x & -> & Hp). cbn [mbind option_bind].
  destruct x as [p2 c2|st p2 c2]; [by apply IH|].
  destruct st; simpl in Hp; try (intros [= <- <- <- <-]; done).
  - apply IH; tauto.
  - destruct Hp as (_ & r & -> & Hr). simpl. destruct rest as [|ch' rest].
    + intros [= <- <- <- <-] _. simpl. by destruct b.
    + simpl. intros Hc Hv. apply IH; [by apply cleared_inv|done..].
Qed.

Lemma consume_app_refused a b p c l st p1 c1 l1 :
  PInv limit p → consume p c a l = Some (Refuse st, p1, c1, l1) →
  consume p c (a ++ b) l = Some (Refuse st, p1, c1, l1).
Proof.
  revert p c l. induction a as [|ch rest IH]; intros p c l Hi; cbn [consume app]; [done|].
  destruct (onebyte_ok alloc env memory limit_range files p c ch Hi) as (x & -> & Hp). cbn [mbind option_bind].
  destruct x as [p2 c2|st' p2 c2]; [by apply IH|].
  destruct st'; simpl in Hp; try done.
  - apply IH; tauto.
  - destruct Hp as (_ & r & -> & Hr). simpl. destruct rest as [|ch' rest]; [done|].
    apply IH. by apply cleared_inv.
Qed.

Lemma consume_log data p c l :
  consume p c data l = (λ '(v, p', c', l'), (v, p', c', l ++ l')) <$> consume p c data [].
Proof.
  revert p c l. induction data as [|ch rest IH]; intros p c l; cbn [consume]; [simpl; by rewrite app_nil_r|].
  destruct (onebyte alloc env p c ch) as [[p1 c1|st p1 c1]|]; simpl; [done| |done].
  destruct st; try done; simpl; try (by rewrite app_nil_r).
  destruct (request p1) as [r|]; simpl; [|done]. destruct rest as [|ch' rest]; [done|].
  rewrite (IH _ _ (l ++ [r])), (IH _ _ [r]).
  destruct (consume _ _ _ _) as [[[[v p'] c'] l']|]; simpl; [|done]. by rewrite <- app_assoc.
Qed.

(** ** A sequence of chunks *)

Fixpoint consume_chunks (p : lparser) (c : connection) (chunks : list (list Z))
    : option (verdict * lparser * connection * list httprequest) :=
  match chunks with
  | [] => Some (Wait, p, c, [])
  | chunk :: chunks' =>
      '(v, p1, c1, l1) ← read_chunk alloc env p c chunk;
      match v with
      | Refuse st => Some (v, p1, c1, l1)
      | _ =>
          match chunks' with
          | [] => Some (v, p1, c1, l1)
          | _ => '(v2, p2, c2, l2) ← consume_chunks p1 c1 chunks'; Some (v2, p2, c2, l1 ++ l2)
          end
      end
  end.

Lemma PInv_same p q : same p q → PInv limit q → PInv limit p.
Proof.
  intros Hs Hq. apply (PInv_at env _ (bytes_readed p) (pos_start p) (pos p)) in Hq.
  rewrite <- (same_at p q) in Hq by done. by destruct p.
Qed.

Definition chunk_wf (chunk : list Z) : Prop := chunk ≠ [] ∧ zlen chunk < 2 ^ 63.

Lemma consume_chunks_concat chunks p c :
  PInv limit p → Forall chunk_wf chunks → chunks ≠ [] →
  agree (consume_chunks p c chunks) (consume p c (concat chunks) []).
Proof.
  revert p c. induction chunks as [|chunk chunks IH]; intros p c Hi Hw Hne; [done|].
  apply Forall_cons_iff in Hw as [[Hn Hz] Hw]. cbn [consume_chunks concat].
  pose proof (read_chunk_consume p c chunk Hi Hn Hz) as Ha.
  destruct (consume_ok chunk p c [] Hi) as (v & p1 & c1 & l1 & Hc & Hi1 & _). rewrite Hc in Ha.
  destruct (read_chunk alloc env p c chunk) as [[[[v' p1'] c1'] l1']|]; simpl in Ha; [|done].
  destruct Ha as (-> & Hs & -> & ->). simpl in Hc. cbn [mbind option_bind].
  pose proof (PInv_same p1' p1 Hs Hi1) as Hi1'.
  destruct chunks as [|chunk2 chunks].
  { rewrite app_nil_r, Hc. by destruct v. }
  assert (concat (chunk2 :: chunks) ≠ []) as Hcn.
  { apply Forall_cons_iff in Hw as [[Hn2 _] _]. simpl. by destruct chunk2. }
  assert (live v → agree
    ('(v2, p2, c2, l2) ← consume_chunks p1' c1 (chunk2 :: chunks); Some (v2, p2, c2, l1 ++ l2))
    (consume p c (chunk ++ concat (chunk2 :: chunks)) [])) as Hlive.
  { intros Hv. rewrite (consume_app chunk _ p c [] v p1 c1 l1) by done.
    rewrite <- (consume_same p1' p1) by done. rewrite consume_log.
    specialize (IH p1' c1 Hi1' Hw ltac:(done)).
    destruct (consume_chunks p1' c1 (chunk2 :: chunks)) as [[[[v2 p2] c2] l2]|],
      (consume p1' c1 (concat (chunk2 :: chunks)) []) as [[[[v3 p3] c3] l3]|]; simpl in *; try done.
    destruct IH as (-> & ? & -> & ->). done. }
  destruct v as [| |st]; [by apply Hlive|by apply Hlive|].
  by rewrite (consume_app_refused _ _ _ _ _ st p1 c1 l1).
Qed.
End Chunks.

(** ** The parser over any token buffer *)

Section Session.
Context {T : Type} `{TokenBufferLaws T}.
Variable alloc : allocator.
Variable env : environment.

(** The state [httpparser_init] leaves. *)
Definition new_parser (b : T) (c : connection) : parser T :=
  Parser b 0 0 0 None METHOD (ssl c) false false false 0 0 0.

(** A connection reads chunk after chunk until a request is refused. *)
Fixpoint read_chunks (p : parser T) (c : connection) (chunks : list (list Z))
    : option (verdict * parser T * connection * list httprequest) :=
  match chunks with
  | [] => Some (Wait, p, c, [])
  | chunk :: chunks' =>
      '(v, p1, c1, l1) ← read_chunk alloc env p c chunk;
      match v with
      | Refuse st => Some (v, p1, c1, l1)
      | _ =>
          match chunks' with
          | [] => Some (v, p1, c1, l1)
          | _ => '(v2, p2, c2, l2) ← read_chunks p1 c1 chunks'; Some (v2, p2, c2, l1 ++ l2)
          end
      end
  end.

Hypothesis memory : plenty_memory alloc.

Lemma read_chunks_sim p c chunks :
  tb_inv (buf p) →
  sim_read (read_chunks p c chunks) (consume_chunks alloc env (abs p) c chunks).
Proof.
  revert p c. induction chunks as [|chunk chunks IH]; intros p c Hi; cbn [read_chunks consume_chunks]; [done|].
  pose proof (read_chunk_sim alloc env memory p c chunk Hi) as Hs.
  destruct (read_chunk alloc env p c chunk) as [[[[v p1] c1] l1]|],
    (read_chunk alloc env (abs p) c chunk) as [[[[v' p1'] c1'] l1']|]; simpl in Hs; try done.
  destruct Hs as (-> & -> & -> & -> & Hi1). cbn [mbind option_bind].
  specialize (IH p1 c1 Hi1).
  assert (sim_read
    ('(v2, p2, c2, l2) ← read_chunks p1 c1 chunks; Some (v2, p2, c2, l1 ++ l2))
    ('(v2, p2, c2, l2) ← consume_chunks alloc env (abs p1) c1 chunks; Some (v2, p2, c2, l1 ++ l2))) as Hr.
  { destruct (read_chunks p1 c1 chunks) as [[[[v2 p2] c2] l2]|],
      (consume_chunks alloc env (abs p1) c1 chunks) as [[[[v3 p3] c3] l3]|]; simpl in *; try done.
    by destruct IH as (-> & -> & -> & -> & ?). }
  destruct v, chunks; try done; apply Hr.
Qed.

Hypothesis limit_range : 0 <= client_max_body_size env < 2 ^ 32.
Hypothesis files : mkstemp_ok env = true ∧ ∀ d, pwrite_ok env d = true.

(** What a session yields, computed byte by byte on the whole stream. *)
Lemma read_chunks_stream b c chunks :
  tb_inv b → tb_bytes b = [] → Forall chunk_wf chunks → chunks ≠ [] →
  ∃ v p c' l q, read_chunks (new_parser b c) c chunks = Some (v, p, c', l) ∧
    consume alloc env (cleared c) c (concat chunks) [] = Some (v, q, c', l) ∧
    Forall (request_ok (client_max_body_size env)) l ∧ tb_inv (buf p).
Proof.
  intros Hb He Hw Hne. pose proof (read_chunks_sim (new_parser b c) c chunks Hb) as Hs.
  assert (abs (new_parser b c) = cleared c) as Ha.
  { unfold abs, new_parser, with_buf, cleared. simpl. by rewrite He. }
  rewrite Ha in Hs. pose proof (cleared_inv env limit_range c) as Hi.
  pose proof (consume_chunks_concat alloc env memory limit_range files chunks (cleared c) c Hi Hw Hne) as Hc.
  destruct (consume_ok alloc env memory limit_range files (concat chunks) (cleared c) c [] Hi)
    as (v & q & c' & l & Hq & _ & Hok). rewrite Hq in Hc.
  destruct (consume_chunks alloc env (cleared c) c chunks) as [[[[v1 p1] c1] l1]|]; simpl in Hc; [|done].
  destruct Hc as (-> & _ & -> & ->).
  destruct (read_chunks (new_parser b c) c chunks) as [[[[v2 p2] c2] l2]|]; simpl in Hs; [|done].
  destruct Hs as (-> & -> & <- & _ & ?). exists v2, p2, c2, l, q. by split_and!.
Qed.
End Session.
