(* ===== verification/RequestRender.v ===== *)
(** Requests as a client writes them, and that the parser reads back exactly what
    was written. *)

From S2P Require Import Prelude Helpers QueryParser CookieParser RangeParser TokenBuffer RequestParser RequestStream RequestInvariant RequestChunks.

(** ** Writing a request *)

Record message : Set := Message {
  m_method : route_methods;
  m_target : list Z;
  m_version : http_version;
  m_headers : list http_header;
  m_body : list Z }.

Definition method_name (m : route_methods) : list Z :=
  match m with
  | ROUTE_NONE => []
  | ROUTE_GET => bs "GET"
  | ROUTE_POST => bs "POST"
  | ROUTE_PUT => bs "PUT"
  | ROUTE_DELETE => bs "DELETE"
  | ROUTE_OPTIONS => bs "OPTIONS"
  | ROUTE_PATCH => bs "PATCH"
  | ROUTE_HEAD => bs "HEAD"
  end.

Definition version_name (v : http_version) : list Z :=
  match v with
  | HTTP1_VER_NONE => []
  | HTTP1_VER_1_0 => bs "HTTP/1.0"
  | HTTP1_VER_1_1 => bs "HTTP/1.1"
  end.

Definition render_header (h : http_header) : list Z :=
  h_key h ++ [chr_COLON; chr_SP] ++ h_value h ++ [chr_CR; chr_LF].

Definition render_head (m : message) : list Z :=
  method_name (m_method m) ++ [chr_SP] ++ m_target m ++ [chr_SP] ++ version_name (m_version m)
  ++ [chr_CR; chr_LF] ++ concat (render_header <$> m_headers m) ++ [chr_CR; chr_LF].

Definition render (m : message) : list Z := render_head m ++ m_body m.

Section Render.
Variable alloc : allocator.
Variable env : environment.

(** A host the plain connection's listener serves. *)
Definition host_accepted (c : connection) (v : list Z) : Prop :=
  0 < zlen v < MAX_HOST_SIZE ∧
  ∃ domain ascii s, host_name v = Some domain ∧ idn_to_ascii alloc env domain = Some ascii ∧
    find_server env c ascii = Some s.

(** A header the parser takes as it is: well formed, without blanks around the
    value, not a transfer coding; a Host the listener serves, a valid length. *)
Definition header_sendable (c : connection) (h : http_header) : Prop :=
  header_wf h ∧ drop_ows (h_value h) = h_value h ∧ trim_ows_right (h_value h) = h_value h ∧
  header_is_transfer_encoding h = false ∧
  (header_is_host h = true → host_accepted c (h_value h)) ∧
  (header_is_content_length h = true → is_Some (validate_content_length env h)).

Record sendable (c : connection) (m : message) : Prop := {
  sd_plain : ssl c = false;
  sd_method : m_method m ≠ ROUTE_NONE;
  sd_version : m_version m ≠ HTTP1_VER_NONE;
  sd_target : m_target m !! 0%nat = Some chr_SLASH ∧ zlen (m_target m) <= MAX_URI_SIZE ∧
              Forall (λ b, value_char b ∧ b ≠ chr_SP) (m_target m) ∧
              is_path_traversal (urldecodel (target_path (m_target m))) = false;
  sd_headers : Forall (header_sendable c) (m_headers m) ∧ zlen (m_headers m) <= MAX_HEADERS_COUNT;
  sd_host : count header_is_host (m_headers m) <= 1 ∧
            (m_version m = HTTP1_VER_1_1 → count header_is_host (m_headers m) = 1);
  sd_length : count header_is_content_length (m_headers m) <= 1;
  sd_body : zlen (m_body m) = declared (m_headers m) ∧
            (m_body m ≠ [] → m_method m = ROUTE_POST ∨ m_method m = ROUTE_PUT ∨ m_method m = ROUTE_PATCH) }.

(** ** Steps that go on *)

Inductive feeds : lparser → connection → list Z → lparser → connection → Prop :=
| feeds_nil p c : feeds p c [] p c
| feeds_cons p c ch p1 c1 data p2 c2 :
    onebyte alloc env p c ch = Some (Go p1 c1) → feeds p1 c1 data p2 c2 →
    feeds p c (ch :: data) p2 c2.

Lemma feeds_app p c a p1 c1 b p2 c2 :
  feeds p c a p1 c1 → feeds p1 c1 b p2 c2 → feeds p c (a ++ b) p2 c2.
Proof. induction 1; [done|]. intros. simpl. econstructor; eauto. Qed.

Lemma feeds_consume p c a p1 c1 rest l :
  feeds p c a p1 c1 → consume alloc env p c (a ++ rest) l = consume alloc env p1 c1 rest l.
Proof. induction 1 as [|p c ch p1 c1 data p2 c2 Ho Hf IH]; [done|]. simpl. by rewrite Ho. Qed.

Hypothesis memory : plenty_memory alloc.
Hypothesis limit_range : 0 <= client_max_body_size env < 2 ^ 32.
Hypothesis files : mkstemp_ok env = true ∧ ∀ d, pwrite_ok env d = true.

Lemma feeds_inv p c a p1 c1 :
  feeds p c a p1 c1 → PInv (client_max_body_size env) p → PInv (client_max_body_size env) p1.
Proof.
  induction 1 as [|p c ch p1 c1 data p2 c2 Ho Hf IH]; [done|]. intros Hi. apply IH.
  destruct (onebyte_ok alloc env memory limit_range files p c ch Hi) as (x & Hx & Hp).
  rewrite Ho in Hx. by injection Hx as <-.
Qed.

(** A parser inside a request, with normalised read positions. *)
Definition St (s : httprequestparser_stage) (b : list Z) (r : httprequest) (hf seen clf : bool)
    (hc cl : Z) : lparser :=
  Parser b 1 0 0 (Some r) s hf seen clf false hc cl 0.

Definition token_limit (s : httprequestparser_stage) : Z :=
  match s with
  | METHOD => 7 | URI => MAX_URI_SIZE | PROTOCOL => 8
  | HEADER_KEY => MAX_HEADER_KEY_SIZE | HEADER_VALUE => MAX_HEADER_VALUE_SIZE | _ => 0
  end.

(** Bytes that extend the token of a stage. *)
Definition regular (s : httprequestparser_stage) (ch : Z) : Prop :=
  match s with
  | METHOD => ch ≠ chr_SP ∧ ch ≠ chr_CR ∧ ch ≠ chr_LF
  | URI => ch ≠ chr_SP ∧ value_char ch
  | PROTOCOL => ch ≠ chr_CR
  | HEADER_KEY => key_char ch
  | HEADER_VALUE => value_char ch
  | _ => False
  end.

Lemma not_ctl ch : httpparser_is_ctl ch = false → ch ≠ chr_CR ∧ ch ≠ chr_LF ∧ ch ≠ chr_TAB.
Proof. intros Hc. split_and!; intros ->; done. Qed.

Lemma feed_regular s ch b r hf seen clf hc cl c :
  regular s ch → zlen b < token_limit s →
  onebyte alloc env (St s b r hf seen clf hc cl) c ch
  = Some (Go (St s (b ++ [ch]) r hf seen clf hc cl) c).
Proof.
  intros Hr Hl. unfold onebyte, step. simpl. destruct s; simpl in Hr, Hl; try done.
  - destruct Hr as (H1 & H2 & H3). unfold step_method. simpl.
    destruct (Z.eqb_spec ch 13); [done|]. destruct (Z.eqb_spec ch 10); [done|]. simpl.
    destruct (Z.eqb_spec ch 32); [done|]. unfold push_limited. simpl.
    destruct (Z.leb_spec 7 (zlen b)); [lia|done].
  - destruct Hr as (H1 & H2). unfold step_uri. destruct (Z.eqb_spec ch 32); [done|].
    unfold value_char in H2. rewrite H2. unfold push_limited. simpl.
    destruct (Z.leb_spec MAX_URI_SIZE (zlen b)); [lia|done].
  - unfold step_protocol. destruct (Z.eqb_spec ch 13); [done|]. unfold push_limited. simpl.
    destruct (Z.leb_spec 8 (zlen b)); [lia|done].
  - destruct Hr as (H1 & H2 & H3). destruct (not_ctl ch H1) as (H4 & H5 & H6). unfold step_header_key.
    destruct (Z.eqb_spec ch 13); [done|]. destruct (Z.eqb_spec ch 58); [done|]. rewrite H1. simpl.
    destruct (Z.eqb_spec ch 32); [done|]. destruct (Z.eqb_spec ch 9); [done|]. unfold push_limited. simpl.
    destruct (Z.leb_spec MAX_HEADER_KEY_SIZE (zlen b)); [lia|done].
  - destruct (not_ctl ch Hr) as (H4 & H5 & H6). unfold step_header_value.
    destruct (Z.eqb_spec ch 13); [done|]. unfold value_char in Hr. rewrite Hr. unfold push_limited. simpl.
    destruct (Z.leb_spec MAX_HEADER_VALUE_SIZE (zlen b)); [lia|done].
Qed.

Lemma feed_token s tok b r hf seen clf hc cl c :
  Forall (regular s) tok → zlen (b ++ tok) <= token_limit s →
  feeds (St s b r hf seen clf hc cl) c tok (St s (b ++ tok) r hf seen clf hc cl) c.
Proof.
  intros Ht. revert b. induction Ht as [|ch tok Hc _ IH]; intros b Hl.
  - rewrite app_nil_r. constructor.
  - rewrite zlen_app, zlen_cons in Hl. pose proof (zlen_nonneg tok).
    econstructor; [apply feed_regular; [done|lia]|].
    replace (b ++ ch :: tok) with ((b ++ [ch]) ++ tok) by by rewrite <- app_assoc.
    apply IH. rewrite !zlen_app. change (zlen [ch]) with 1. lia.
Qed.

(** ** The request line *)

Lemma method_name_regular m :
  m ≠ ROUTE_NONE →
  ∃ x tok, method_name m = x :: tok ∧ regular METHOD x ∧ Forall (regular METHOD) tok ∧
    zlen (x :: tok) <= 7 ∧ find_method method_names (x :: tok) = Some m.
Proof.
  intros Hm. destruct m; [done|..]; eexists _, _; (split; [reflexivity|]);
    (split_and!; [done..| |done|done]); repeat constructor; done.
Qed.

Lemma feed_method m c :
  m ≠ ROUTE_NONE →
  feeds (at_ (cleared c) 1 0 0) c (method_name m ++ [chr_SP])
    (St URI [] (set_method_version new_request m HTTP1_VER_NONE) (ssl c) false false 0 0) c.
Proof.
  intros Hm. destruct (method_name_regular m Hm) as (x & tok & -> & Hx & Ht & Hl & Hf).
  cbn [app]. apply (feeds_cons _ _ x (St METHOD [x] new_request (ssl c) false false 0 0) c).
  - unfold onebyte, step. simpl. unfold step_method. simpl. rewrite memory.
    destruct Hx as (H1 & H2 & H3). destruct (Z.eqb_spec x 13); [done|]. destruct (Z.eqb_spec x 10); [done|].
    simpl. destruct (Z.eqb_spec x 32); [done|]. done.
  - eapply feeds_app.
    + apply (feed_token METHOD tok [x]); [done|exact Hl].
    + econstructor; [|constructor]. unfold onebyte, step. simpl. unfold step_method. simpl.
      rewrite with_token_list. simpl. unfold set_method. rewrite Hf. done.
Qed.

Lemma feed_target u r c hf :
  r = set_method_version new_request (method r) HTTP1_VER_NONE →
  u !! 0%nat = Some chr_SLASH → zlen u <= MAX_URI_SIZE →
  Forall (λ b, value_char b ∧ b ≠ chr_SP) u →
  is_path_traversal (urldecodel (target_path u)) = false →
  ∃ r', feeds (St URI [] r hf false false 0 0) c (u ++ [chr_SP])
          (St PROTOCOL [] r' hf false false 0 0) c ∧
    uri r' = Some u ∧ method r' = method r ∧ headers r' = [] ∧ payload_ r' = Payload false [].
Proof.
  intros Hr H0 Hl Hc Ht.
  destruct (set_uri_ok alloc memory r u) as (st & r' & Hs & _ & Hst & E1 & E2 & E3 & E4);
    [by rewrite Hr|by rewrite Hr|].
  destruct Hst as [(_ & [?|?])|(-> & _ & Hu)]; [done|congruence|].
  exists r'. split_and!; [|done|done|by rewrite E3, Hr|by rewrite E4, Hr].
  eapply feeds_app.
  - apply (feed_token URI u []); [|done]. eapply Forall_impl; [exact Hc|]. simpl. tauto.
  - econstructor; [|constructor]. unfold onebyte, step. simpl. unfold step_uri. simpl.
    rewrite with_token_list. simpl. rewrite copy_ok by done. rewrite Hs. done.
Qed.

Lemma feed_version v r c hf :
  v ≠ HTTP1_VER_NONE →
  feeds (St PROTOCOL [] r hf false false 0 0) c (version_name v ++ [chr_CR; chr_LF])
    (St HEADER_KEY [] (set_method_version r (method r) v) hf false false 0 0)
    (set_keepalive c (bool_decide (v = HTTP1_VER_1_1))).
Proof.
  intros Hv. eapply feeds_app.
  - apply (feed_token PROTOCOL (version_name v) []); destruct v; try done; repeat constructor; done.
  - apply (feeds_cons _ _ _ (St NEWLINE1 [] (set_method_version r (method r) v) hf false false 0 0)
      (set_keepalive c (bool_decide (v = HTTP1_VER_1_1)))).
    + unfold onebyte, step. simpl. unfold step_protocol. simpl. rewrite with_token_list. simpl.
      destruct v; done.
    + econstructor; [|constructor]. done.
Qed.

(** ** Headers *)

(** The parts of a connection a request does not change. *)
Definition same_listener (c c' : connection) : Prop :=
  ssl c' = ssl c ∧ c_ip c' = c_ip c ∧ c_port c' = c_port c ∧ listener_servers c' = listener_servers c.

Lemma host_accepted_same c c' v : same_listener c c' → host_accepted c v → host_accepted c' v.
Proof.
  intros (_ & E1 & E2 & E3) (Hl & dm & asc & s & H1 & H2 & H3). split; [done|].
  exists dm, asc, s. split_and!; [done..|]. unfold find_server in *. by rewrite E1, E2, E3.
Qed.

Lemma header_sendable_same c c' h : same_listener c c' → header_sendable c h → header_sendable c' h.
Proof.
  intros Hs (H1 & H2 & H3 & H4 & H5 & H6). split_and!; try done.
  intros Hh. eapply host_accepted_same; [done|]. by apply H5.
Qed.

Lemma try_set_keepalive_same c c' h : same_listener c c' → same_listener c (try_set_keepalive c' h).
Proof.
  intros Hs. unfold try_set_keepalive. case_if; [done|].
  destruct (keepalive_tokens _ _ _ _) as [fk fc]. destruct fc; [done|]. by destruct fk.
Qed.

(** The request's fields that do not depend on headers. *)
Definition same_line (r r' : httprequest) : Prop :=
  method r' = method r ∧ version r' = version r ∧ uri r' = uri r ∧ payload_ r' = payload_ r.

(** The value of a header is complete. *)
Lemma feed_value_end k v r hs hf seen clf hc cl c s b :
  (s = HEADER_VALUE ∧ b = v ∨ s = HEADER_SPACE ∧ b = [] ∧ v = []) →
  headers r = hs ++ [Header k []] → ssl c = false → header_sendable c (Header k v) →
  (header_is_host (Header k v) = true → seen = false) →
  (header_is_content_length (Header k v) = true → clf = false) →
  ∃ r' hf' c',
    onebyte alloc env (St s b r hf seen clf hc cl) c chr_CR
    = Some (Go (St NEWLINE2 [] r' hf' (seen || header_is_host (Header k v))
                  (clf || header_is_content_length (Header k v)) hc
                  (if header_is_content_length (Header k v)
                   then fst (digits (v ++ [0]) 0 0) else cl)) c') ∧
    same_listener c c' ∧ same_line r r' ∧ headers r' = hs ++ [Header k v].
Proof.
  intros Hsb Hr Hssl (Hwf & Hd & Htr & Hte & Hhost & Hcl) Hseen Hclf. set (h := Header k v) in *.
  assert (onebyte alloc env (St s b r hf seen clf hc cl) c chr_CR
    = step_header_value alloc env (St HEADER_VALUE v r hf seen clf hc cl) c chr_CR) as ->.
  { by destruct Hsb as [[-> ->]|(-> & -> & ->)]. }
  unfold step_header_value. simpl. rewrite with_token_list.
  change (with_stage (St HEADER_VALUE v r hf seen clf hc cl) NEWLINE2) with (St NEWLINE2 v r hf seen clf hc cl).
  cbn [request St mbind option_bind buf]. unfold set_header_value. rewrite Hr, last_snoc, removelast_last.
  cbn [mbind option_bind]. simpl in Htr. rewrite Htr, copy_ok by done. change (h_key (Header k [])) with k.
  fold h. set (r1 := set_headers r (hs ++ [h])).
  change (with_request (St NEWLINE2 v r hf seen clf hc cl) (Some r1))
    with (St NEWLINE2 v r1 hf seen clf hc cl).
  assert (∃ hf' c2, try_set_server alloc env (St NEWLINE2 v r1 hf seen clf hc cl) c h
    = (HTTP1PARSER_CONTINUE, St NEWLINE2 v r1 hf' (seen || header_is_host h) clf hc cl, c2) ∧
    same_listener c c2) as (hf' & c2 & -> & Hsl).
  { unfold try_set_server. destruct (header_is_host h) eqn:Eh; simpl.
    - rewrite (Hseen eq_refl). destruct (Hhost eq_refl) as ((Hv1 & Hv2) & dm & asc & sv & E1 & E2 & E3).
      simpl in Hv1, Hv2, E1. destruct (Z.eqb_spec (zlen v) 0); [lia|].
      destruct (Z.leb_spec MAX_HOST_SIZE (zlen v)); [lia|]. simpl. rewrite E1, E2, Hssl. simpl.
      rewrite E3. by eexists _, _.
    - exists hf, c. rewrite orb_false_r. done. }
  destruct (try_set_range_ok alloc r1 h) as (r2 & -> & rg & ->). cbn [mbind option_bind].
  destruct (try_set_cookie_ok alloc (set_cookies_ranges r1 (cookies r1) rg) h) as (r3 & -> & ck & ->).
  cbn [mbind option_bind]. set (r3 := set_cookies_ranges _ ck _).
  change (with_request (St NEWLINE2 v r1 hf' (seen || header_is_host h) clf hc cl) (Some r3))
    with (St NEWLINE2 v r3 hf' (seen || header_is_host h) clf hc cl).
  exists r3, hf', (try_set_keepalive c2 h). split_and!; [|by apply try_set_keepalive_same|done|done].
  unfold check_framing. rewrite Hte. destruct (header_is_content_length h) eqn:Ec.
  - simpl. rewrite (Hclf eq_refl). destruct (Hcl eq_refl) as [n En]. rewrite En.
    apply validate_ok in En as [-> _]. done.
  - rewrite orb_false_r. done.
Qed.

Lemma feed_header h r hf seen clf hc cl c :
  ssl c = false → header_sendable c h → hc < MAX_HEADERS_COUNT →
  (header_is_host h = true → seen = false) → (header_is_content_length h = true → clf = false) →
  ∃ r' hf' c',
    feeds (St HEADER_KEY [] r hf seen clf hc cl) c (render_header h)
      (St HEADER_KEY [] r' hf' (seen || header_is_host h) (clf || header_is_content_length h) (hc + 1)
        (if header_is_content_length h then fst (digits (h_value h ++ [0]) 0 0) else cl)) c' ∧
    same_listener c c' ∧ same_line r r' ∧ headers r' = headers r ++ [h].
Proof.
  intros Hssl Hsend Hhc Hseen Hclf. destruct h as [k v].
  pose proof Hsend as ((W1 & W2 & W3 & W4 & W5) & Hd & Hrest). simpl in W1, W2, W3, W4, W5, Hd.
  set (r1 := set_headers r (headers r ++ [Header k []])).
  assert (feeds (St HEADER_KEY [] r hf seen clf hc cl) c (k ++ [chr_COLON; chr_SP])
            (St HEADER_SPACE [] r1 hf seen clf (hc + 1) cl) c) as Hkey.
  { eapply feeds_app.
    - apply (feed_token HEADER_KEY k []); [done|done].
    - apply (feeds_cons _ _ _ (St HEADER_SPACE [] r1 hf seen clf (hc + 1) cl) c).
      + unfold onebyte, step. simpl. unfold step_header_key. simpl. rewrite with_token_list. simpl.
        unfold set_header_key. simpl. destruct (Z.leb_spec MAX_HEADERS_COUNT hc); [lia|].
        destruct (Z.eqb_spec (zlen k) 0) as [E|E]; [by apply zlen_0_nil in E|].
        rewrite memory, !copy_ok by done. done.
      + econstructor; [|constructor]. done. }
  assert (∃ s b, feeds (St HEADER_SPACE [] r1 hf seen clf (hc + 1) cl) c v
                   (St s b r1 hf seen clf (hc + 1) cl) c ∧
      (s = HEADER_VALUE ∧ b = v ∨ s = HEADER_SPACE ∧ b = [] ∧ v = [])) as (s & b & Hval & Hsb).
  { destruct v as [|x v]; [eexists _, _; split; [constructor|by right]|].
    exists HEADER_VALUE, (x :: v). split; [|by left]. pose proof (Forall_inv W5) as Hx. pose proof (Forall_inv_tail W5) as Hv.
    apply (feeds_cons _ _ _ (St HEADER_VALUE [x] r1 hf seen clf (hc + 1) cl) c).
    - cbn [drop_ows] in Hd. destruct (is_ows x) eqn:Ex.
      { exfalso. clear -Hd. assert (length (drop_ows v) <= length v)%nat.
        { clear. induction v as [|y v IH]; simpl; [lia|]. destruct (is_ows y); simpl; lia. }
        rewrite Hd in H. simpl in H. lia. }
      unfold is_ows in Ex. unfold onebyte, step. simpl. unfold step_header_space. rewrite Ex.
      apply (feed_regular HEADER_VALUE x [] r1 hf seen clf (hc + 1) cl c Hx).
      unfold token_limit, MAX_HEADER_VALUE_SIZE. rewrite (@zlen_nil Z). lia.
    - apply (feed_token HEADER_VALUE v [x]); [done|exact W4]. }
  destruct (feed_value_end k v r1 (headers r) hf seen clf (hc + 1) cl c s b) as (r' & hf' & c' & Hcr & Hsl & Hln & Hh);
    [done..|].
  exists r', hf', c'. split_and!; [|done|done|done].
  unfold render_header. cbn [h_key h_value]. rewrite (app_assoc k).
  eapply feeds_app; [exact Hkey|]. eapply feeds_app; [exact Hval|].
  eapply feeds_cons; [exact Hcr|]. econstructor; [|constructor]. done.
Qed.

Lemma count_cons f h hs : count f (h :: hs) = Z.b2z (f h) + count f hs.
Proof. unfold count. simpl. destruct (f h); rewrite ?zlen_cons; done. Qed.

Lemma count_nonneg f hs : 0 <= count f hs.
Proof. apply zlen_nonneg. Qed.

Lemma same_listener_trans c c1 c2 : same_listener c c1 → same_listener c1 c2 → same_listener c c2.
Proof. unfold same_listener. intros (-> & -> & -> & ->). done. Qed.

Lemma feed_headers hs r hf seen clf hc cl c :
  ssl c = false → Forall (header_sendable c) hs → hc + zlen hs <= MAX_HEADERS_COUNT →
  Z.b2z seen + count header_is_host hs <= 1 →
  Z.b2z clf + count header_is_content_length hs <= 1 →
  ∃ r' hf' seen' clf' cl' c',
    feeds (St HEADER_KEY [] r hf seen clf hc cl) c (concat (render_header <$> hs))
      (St HEADER_KEY [] r' hf' seen' clf' (hc + zlen hs) cl') c' ∧
    same_listener c c' ∧ same_line r r' ∧ headers r' = headers r ++ hs.
Proof.
  revert r hf seen clf hc cl c.
  induction hs as [|h hs IH]; intros r hf seen clf hc cl c Hssl Hs Hn Hh Hc.
  - exists r, hf, seen, clf, cl, c. rewrite (@zlen_nil http_header), Z.add_0_r, app_nil_r.
    split_and!; [constructor|done..].
  - apply Forall_cons_iff in Hs as [Hs1 Hs2]. rewrite zlen_cons in *. rewrite count_cons in Hh, Hc.
    pose proof (zlen_nonneg hs). pose proof (count_nonneg header_is_host hs).
    pose proof (count_nonneg header_is_content_length hs).
    destruct (feed_header h r hf seen clf hc cl c) as (r1 & hf1 & c1 & Hf1 & Hsl1 & Hln1 & Hhd1);
      [done|done|lia| | |].
    { intros E. rewrite E in Hh. destruct seen; simpl in *; [lia|done]. }
    { intros E. rewrite E in Hc. destruct clf; simpl in *; [lia|done]. }
    destruct (IH r1 hf1 (seen || header_is_host h) (clf || header_is_content_length h) (hc + 1)
      (if header_is_content_length h then fst (digits (h_value h ++ [0]) 0 0) else cl) c1)
      as (r2 & hf2 & seen2 & clf2 & cl2 & c2 & Hf2 & Hsl2 & Hln2 & Hhd2).
    + destruct Hsl1 as [-> _]. done.
    + eapply Forall_impl; [exact Hs2|]. intros h'. by apply header_sendable_same.
    + lia.
    + destruct seen, (header_is_host h); simpl in *; lia.
    + destruct clf, (header_is_content_length h); simpl in *; lia.
    + exists r2, hf2, seen2, clf2, cl2, c2. split_and!.
      * cbn [fmap list_fmap concat]. eapply feeds_app; [exact Hf1|].
        by replace (hc + (1 + zlen hs)) with (hc + 1 + zlen hs) by lia.
      * by eapply same_listener_trans.
      * destruct Hln1 as (? & ? & ? & ?), Hln2 as (? & ? & ? & ?). unfold same_line. split_and!; congruence.
      * by rewrite Hhd2, Hhd1, <- app_assoc.
Qed.

(** ** Whole messages *)

(** The request the application gets for a message. *)
Definition delivers (m : message) (r : httprequest) : Prop :=
  method r = m_method m ∧ version r = m_version m ∧ uri r = Some (m_target m) ∧
  headers r = m_headers m ∧ p_content (payload_ r) = m_body m.

Lemma feed_head c m :
  sendable c m →
  ∃ r hf seen clf hc cl c',
    feeds (at_ (cleared c) 1 0 0) c
      (method_name (m_method m) ++ [chr_SP] ++ m_target m ++ [chr_SP] ++ version_name (m_version m)
       ++ [chr_CR; chr_LF] ++ concat (render_header <$> m_headers m) ++ [chr_CR])
      (St NEWLINE3 [] r hf seen clf hc cl) c' ∧
    same_listener c c' ∧ method r = m_method m ∧ version r = m_version m ∧
    uri r = Some (m_target m) ∧ headers r = m_headers m.
Proof.
  intros [Hssl Hm Hv (H0 & Hl & Hc & Ht) [Hs Hn] [Hh _] Hcl _].
  pose proof (feed_method (m_method m) c Hm) as F1.
  destruct (feed_target (m_target m) (set_method_version new_request (m_method m) HTTP1_VER_NONE) c (ssl c))
    as (r1 & F2 & U1 & U2 & U3 & U4); [done..|].
  pose proof (feed_version (m_version m) r1 c (ssl c) Hv) as F3.
  set (c1 := set_keepalive c _) in F3. set (r2 := set_method_version r1 (method r1) (m_version m)) in F3.
  destruct (feed_headers (m_headers m) r2 (ssl c) false false 0 0 c1)
    as (r3 & hf & seen & clf & cl & c2 & F4 & Hsl & (L1 & L2 & L3 & L4) & Hhd); [done|exact Hs|lia|simpl; lia|simpl; lia|].
  exists r3, hf, seen, clf, (0 + zlen (m_headers m)), cl, c2. split_and!.
  - rewrite app_assoc. eapply feeds_app; [exact F1|]. rewrite app_assoc. eapply feeds_app; [exact F2|].
    rewrite app_assoc. eapply feeds_app; [exact F3|]. eapply feeds_app; [exact F4|].
    econstructor; [|constructor]. done.
  - exact Hsl.
  - by rewrite L1.
  - by rewrite L2.
  - by rewrite L3.
  - rewrite Hhd. simpl. by rewrite U3.
Qed.

Lemma onebyte_blank_line (r : httprequest) hf seen clf hc cl c :
  (version r = HTTP1_VER_1_1 → seen = true) → (cl ≠ 0 → httprequest_allow_payload r = true) →
  onebyte alloc env (St NEWLINE3 [] r hf seen clf hc cl) c chr_LF
  = Some (if cl =? 0 then Ret HTTP1PARSER_COMPLETE (St PAYLOAD [] r hf seen clf hc cl) c
          else Go (St PAYLOAD [] r hf seen clf hc cl) c).
Proof.
  intros Hseen Hal. unfold onebyte, step. simpl. unfold step_newline3. simpl.
  destruct (bool_decide (version r = HTTP1_VER_1_1)) eqn:Ev; simpl.
  - apply bool_decide_eq_true in Ev. rewrite (Hseen Ev). simpl.
    destruct (Z.eqb_spec cl 0); [done|]. rewrite Hal by done. done.
  - destruct (Z.eqb_spec cl 0); [done|]. rewrite Hal by done. done.
Qed.

Lemma consume_message c m rest l :
  sendable c m →
  ∃ r c', delivers m r ∧ same_listener c c' ∧
    consume alloc env (at_ (cleared c) 1 0 0) c (render m ++ rest) l =
      match rest with
      | [] => Some (Done, cleared c', c', l ++ [r])
      | _ => consume alloc env (cleared c') c' rest (l ++ [r])
      end.
Proof.
  intros Hsd. destruct (feed_head c m Hsd) as (r & hf & seen & clf & hc & cl & c' & F & Hsl & E1 & E2 & E3 & E4).
  destruct Hsd as [_ _ _ _ _ [_ Hh1] _ [Hb Hba]].
  assert (PInv (client_max_body_size env) (St NEWLINE3 [] r hf seen clf hc cl)) as Hi.
  { apply (feeds_inv _ _ _ _ _ F). apply PInv_at. by apply cleared_inv. }
  pose proof (pi_request _ _ Hi) as HR. simpl in HR.
  destruct (HR.(ri_flags _ _ _ _)) as [G1 _ _ _ G5 _]. simpl in G1, G5. rewrite E4 in G1, G5.
  destruct (HR.(ri_body _ _ _ _)) as [Hp _].
  assert (version r = HTTP1_VER_1_1 → seen = true) as Hseen.
  { intros Hv. rewrite E2 in Hv. specialize (Hh1 Hv). rewrite Hh1 in G1. by destruct seen. }
  assert (cl ≠ 0 → httprequest_allow_payload r = true) as Hal.
  { intros Hcl. unfold httprequest_allow_payload. rewrite E1.
    destruct Hba as [->|[->| ->]]; try done. intros En. rewrite En, (@zlen_nil Z) in Hb. lia. }
  assert (render m ++ rest = (method_name (m_method m) ++ [chr_SP] ++ m_target m ++ [chr_SP] ++
      version_name (m_version m) ++ [chr_CR; chr_LF] ++ concat (render_header <$> m_headers m) ++ [chr_CR])
      ++ chr_LF :: m_body m ++ rest) as ->.
  { unfold render, render_head. by rewrite <- !app_assoc. }
  rewrite (feeds_consume _ _ _ _ _ _ _ F). cbn [consume].
  rewrite (onebyte_blank_line r hf seen clf hc cl c' Hseen Hal). cbn [mbind option_bind].
  destruct (Z.eqb_spec cl 0) as [Ez|Ez].
  - assert (m_body m = []) as Hbn by (apply zlen_0_nil; lia). rewrite Hbn. cbn [app request St mbind option_bind].
    exists r, c'. split_and!; [|done|by destruct rest].
    unfold delivers. split_and!; try done. by rewrite Hp, Hbn.
  - set (q := St PAYLOAD [] r hf seen clf hc cl).
    assert (PInv (client_max_body_size env) q) as Hiq.
    { destruct (onebyte_ok alloc env memory limit_range files _ c' chr_LF Hi) as (x & Hx & Hpx).
      rewrite (onebyte_blank_line r hf seen clf hc cl c' Hseen Hal) in Hx.
      destruct (Z.eqb_spec cl 0); [done|]. injection Hx as <-. exact Hpx. }
    assert (m_body m ≠ []) as Hbn by (intros En; rewrite En, (@zlen_nil Z) in Hb; lia).
    destruct (consume_payload alloc env memory limit_range files (m_body m) q c' r rest l Hiq eq_refl eq_refl Hbn)
      as [_ Hcp]. rewrite Hcp by (simpl; lia).
    exists (set_payload r (Payload true (p_content (payload_ r) ++ m_body m))), c'. split_and!; [|done|done].
    unfold delivers. simpl. rewrite Hp. done.
Qed.

Lemma sendable_same c c' m : same_listener c c' → sendable c m → sendable c' m.
Proof.
  intros Hs [H1 H2 H3 H4 [H5 H5'] H6 H7 H8]. constructor; try done.
  - destruct Hs as [-> _]. done.
  - split; [|done]. eapply Forall_impl; [exact H5|]. intros h. by apply header_sendable_same.
Qed.

(** Pipelined messages. *)
Lemma consume_messages ms c l :
  Forall (sendable c) ms → ms ≠ [] →
  ∃ rs c', Forall2 delivers ms rs ∧
    consume alloc env (cleared c) c (concat (render <$> ms)) l = Some (Done, cleared c', c', l ++ rs).
Proof.
  revert c l. induction ms as [|m ms IH]; intros c l Hs Hne; [done|].
  apply Forall_cons_iff in Hs as [Hs1 Hs2]. cbn [fmap list_fmap concat].
  destruct (consume_message c m (concat (render <$> ms)) l Hs1) as (r & c' & Hd & Hsl & Hc).
  assert (render m ≠ []) as Hrn.
  { unfold render, render_head. destruct (method_name_regular (m_method m)) as (x & tok & -> & _); [apply Hs1|done]. }
  rewrite (consume_same alloc env (cleared c) (at_ (cleared c) 1 0 0)); [|done|by destruct (render m)].
  rewrite Hc. destruct ms as [|m2 ms].
  - exists [r], c'. split; [|done]. constructor; [done|constructor].
  - assert (concat (render <$> m2 :: ms) ≠ []) as Hcn.
    { cbn [fmap list_fmap concat]. apply Forall_cons_iff in Hs2 as [Hm2 _]. unfold render, render_head.
      destruct (method_name_regular (m_method m2)) as (x & tok & -> & _); [apply Hm2|done]. }
    destruct (concat (render <$> m2 :: ms)) as [|y ys] eqn:Ey; [done|].
    destruct (IH c' (l ++ [r])) as (rs & c2 & Hds & ->); [|done|].
    + eapply Forall_impl; [exact Hs2|]. intros m'. by apply sendable_same.
    + exists (r :: rs), c2. rewrite <- app_assoc. split; [by constructor|done].
Qed.
End Render.
