(* ===== verification/RequestTheorems.v ===== *)
(** What the request parser guarantees, stated of the parser over [bufferdata_t]
    and of a connection that reads chunk after chunk. *)

From S2P Require Import Prelude Helpers Bufferdata QueryParser RangeParser TokenBuffer RequestParser RequestStream RequestInvariant RequestChunks RequestRender.

(** Memory and the temporary directory are available, and the body limit is an
    [unsigned int]. *)
Definition working (alloc : allocator) (env : environment) : Prop :=
  plenty_memory alloc ∧ 0 <= client_max_body_size env < 2 ^ 32 ∧
  mkstemp_ok env = true ∧ ∀ d, pwrite_ok env d = true.

(** C1: whatever bytes a client sends and however they are cut into chunks, a
    connection's parser never makes an unsafe access (a NULL request or header, a
    read or write outside a buffer, a freed query node), every chunk is processed in
    finitely many steps, and each request handed to the application is well formed:
    known method and version, a target whose decoded path has no [..] segment and
    whose query chain holds its pairs, at most 100 headers within their limits and
    without control bytes, exactly one Host for HTTP/1.1 (never two), at most one
    Content-Length, no Transfer-Encoding, and a body of exactly the announced length,
    within the limit and only for methods that have one. *)
Theorem requests_well_formed (alloc : allocator) (env : environment) (b : bufferdata)
    (c : connection) (chunks : list (list Z)) :
  working alloc env → Inv b → contents b = [] → Forall chunk_wf chunks →
  ∃ v p c' l, read_chunks alloc env (new_parser b c) c chunks = Some (v, p, c', l) ∧
    Forall (request_ok (client_max_body_size env)) l.
Proof.
  intros (Hm & Hl & Hf) Hi Hb Hc. destruct chunks as [|chunk chunks].
  { by exists Wait, (new_parser b c), c, []. }
  destruct (@read_chunks_stream bufferdata bufferdata_tokens bufferdata_laws alloc env Hm Hl Hf b c (chunk :: chunks) Hi Hb Hc)
    as (v & p & c' & l & q & Hr & _ & Hok & _); [done|].
  exists v, p, c', l. done.
Qed.


(** C3: the parser reads back what a client writes: a pipeline of sendable messages,
    in any segmentation, is handed to the application as exactly those requests
    (method, version, target, headers in order, body), and the session ends at a
    request boundary. *)
Theorem requests_roundtrip (alloc : allocator) (env : environment) (b : bufferdata)
    (c : connection) (ms : list message) (chunks : list (list Z)) :
  working alloc env → Inv b → contents b = [] → Forall (sendable alloc env c) ms → ms ≠ [] →
  Forall chunk_wf chunks → chunks ≠ [] → concat chunks = concat (render <$> ms) →
  ∃ p c' rs, read_chunks alloc env (new_parser b c) c chunks = Some (Done, p, c', rs) ∧
    Forall2 delivers ms rs.
Proof.
  intros (Hm & Hl & Hf) Hi Hb Hs Hms Hc Hne Heq.
  destruct (@read_chunks_stream bufferdata bufferdata_tokens bufferdata_laws alloc env Hm Hl Hf b c chunks Hi Hb Hc Hne)
    as (v & p & c' & l & q & Hr & Hst & _).
  destruct (consume_messages alloc env Hm Hl Hf ms c [] Hs Hms) as (rs & c2 & Hd & Hcm).
  rewrite Heq, Hcm in Hst. injection Hst as <- <- <- <-. by exists p, c2, rs.
Qed.

(** ** A concrete connection *)

Definition plenty : allocator := Allocator (λ _, true) 0.

(** A listener that serves one host, compared literally. *)
Definition local_env : environment :=
  Environment (λ d h, bool_decide (d = h)) (λ _, None) true (λ _, true) 1000.
Definition local_connection : connection :=
  Connection false false false 0 80 None [Server 0 80 [bs "localhost"]].

Definition zero_buffer : bufferdata := zeroed_bufferdata.

Lemma zero_buffer_inv : Inv zero_buffer.
Proof. exact zeroed_bufferdata_inv. Qed.

Lemma local_working : working plenty local_env.
Proof. split; [done|]. split; [simpl; lia|done]. Qed.

Definition get_message : message :=
  Message ROUTE_GET (bs "/a?x=1") HTTP1_VER_1_1 [Header (bs "Host") (bs "localhost")] [].
Definition post_message : message :=
  Message ROUTE_POST (bs "/b") HTTP1_VER_1_1
    [Header (bs "Host") (bs "localhost:80"); Header (bs "Content-Length") (bs "5")] (bs "hello").

Lemma bytes_forall (P : Z → Prop) `{∀ x, Decision (P x)} l :
  forallb (λ x, bool_decide (P x)) l = true → Forall P l.
Proof.
  rewrite forallb_forall. intros Hf. apply Forall_forall. intros x Hx%list_elem_of_In.
  apply (bool_decide_eq_true_1 (P x)). by apply Hf.
Qed.

#[local] Instance key_char_dec b : Decision (key_char b).
Proof. unfold key_char. apply _. Defined.
#[local] Instance value_char_dec b : Decision (value_char b).
Proof. unfold value_char. apply _. Defined.

(** A property of the bytes of a concrete string, by computation. *)
Ltac check_bytes := refine (bytes_forall _ _ _); vm_compute; reflexivity.

Lemma host_sendable v :
  zlen v < 256 → 0 < zlen v → Forall value_char v → drop_ows v = v → trim_ows_right v = v →
  host_name v = Some (bs "localhost") →
  header_sendable plenty local_env local_connection (Header (bs "Host") v).
Proof.
  intros H1 H2 H3 H4 H5 H6. split_and!; try done.
  - split_and!; simpl; [done|done|check_bytes| |done].
    unfold MAX_HEADER_VALUE_SIZE. lia.
  - intros _. split; [simpl; unfold MAX_HOST_SIZE; lia|].
    exists (bs "localhost"), (bs "localhost"), (Server 0 80 [bs "localhost"]). by split_and!.
Qed.

Lemma get_sendable : sendable plenty local_env local_connection get_message.
Proof.
  constructor; try done; simpl.
  - split_and!; [done|done|check_bytes|done].
  - split; [|done]. constructor; [|constructor].
    apply host_sendable; try done. check_bytes.
Qed.

Lemma post_sendable : sendable plenty local_env local_connection post_message.
Proof.
  constructor; try done; simpl.
  - split_and!; [done|done|check_bytes|done].
  - split; [|done]. constructor; [|constructor; [|constructor]].
    + apply host_sendable; try done. check_bytes.
    + split_and!; [|done|done|done|done|intros _; by eexists].
      split_and!; simpl; [done|done|check_bytes|done|check_bytes].
  - split; [done|]. intros _. by left.
Qed.

Definition two_messages : list (list Z) :=
  [take 30 (render get_message ++ render post_message);
   drop 30 (render get_message ++ render post_message)].

Lemma two_messages_wf : Forall chunk_wf two_messages.
Proof. repeat constructor; vm_compute; done. Qed.

Lemma requests_well_formed_witness :
  ∃ v p c' l, read_chunks plenty local_env (new_parser zero_buffer local_connection)
                local_connection two_messages = Some (v, p, c', l) ∧
    Forall (request_ok 1000) l.
Proof.
  apply (requests_well_formed plenty local_env zero_buffer local_connection two_messages);
    [apply local_working|apply zero_buffer_inv|reflexivity|apply two_messages_wf].
Defined.


Lemma requests_roundtrip_witness :
  ∃ p c' rs, read_chunks plenty local_env (new_parser zero_buffer local_connection) local_connection
               two_messages = Some (Done, p, c', rs) ∧
    Forall2 delivers [get_message; post_message] rs.
Proof.
  apply requests_roundtrip;
    [apply local_working|apply zero_buffer_inv|reflexivity| |discriminate|apply two_messages_wf
    |discriminate|reflexivity].
  constructor; [apply get_sendable|]. constructor; [apply post_sendable|constructor].
Defined.
