(* ===== verification/WriteFilter.v ===== *)
(** The last filter of the response chain ([filters/http_write_filter.c]): it builds
    the response head and pushes buffers to the socket, surviving partial writes,
    interrupted calls and a socket that is not ready.

    The socket (a kernel object, or OpenSSL) is outside the program. Its answers are
    a script: one [outcome] per call of [__write], and a socket whose script is
    exhausted is not ready. [BodySink] is what the filter above may rely on. *)

From S2P Require Import Prelude Bufo.

Definition CWF_OK : Z := 0.
Definition CWF_ERROR : Z := -1.
Definition CWF_EVENT_AGAIN : Z := -2.
Definition CWF_DATA_AGAIN : Z := -3.

Definition BUF_SIZE : Z := 16384.
Definition CRLF : list Z := [13; 10].

(** ** Status lines *)

Definition httpresponse_status_string (status_code : Z) : option (list Z) :=
  match status_code with
  | 100 => Some (bs "100 Continue" ++ CRLF)
  | 101 => Some (bs "101 Switching Protocols" ++ CRLF)
  | 102 => Some (bs "102 Processing" ++ CRLF)
  | 103 => Some (bs "103 Early Hints" ++ CRLF)
  | 200 => Some (bs "200 OK" ++ CRLF)
  | 201 => Some (bs "201 Created" ++ CRLF)
  | 202 => Some (bs "202 Accepted" ++ CRLF)
  | 203 => Some (bs "203 Non-Authoritative Information" ++ CRLF)
  | 204 => Some (bs "204 No Content" ++ CRLF)
  | 205 => Some (bs "205 Reset Content" ++ CRLF)
  | 206 => Some (bs "206 Partial Content" ++ CRLF)
  | 207 => Some (bs "207 Multi-Status" ++ CRLF)
  | 208 => Some (bs "208 Already Reported" ++ CRLF)
  | 226 => Some (bs "226 IM Used" ++ CRLF)
  | 300 => Some (bs "300 Multiple Choices" ++ CRLF)
  | 301 => Some (bs "301 Moved Permanently" ++ CRLF)
  | 302 => Some (bs "302 Found" ++ CRLF)
  | 303 => Some (bs "303 See Other" ++ CRLF)
  | 304 => Some (bs "304 Not Modified" ++ CRLF)
  | 305 => Some (bs "305 Use Proxy" ++ CRLF)
  | 306 => Some (bs "306 Switch Proxy" ++ CRLF)
  | 307 => Some (bs "307 Temporary Redirect" ++ CRLF)
  | 308 => Some (bs "308 Permanent Redirect" ++ CRLF)
  | 400 => Some (bs "400 Bad Request" ++ CRLF)
  | 401 => Some (bs "401 Unauthorized" ++ CRLF)
  | 402 => Some (bs "402 Payment Required" ++ CRLF)
  | 403 => Some (bs "403 Forbidden" ++ CRLF)
  | 404 => Some (bs "404 Not Found" ++ CRLF)
  | 405 => Some (bs "405 Method Not Allowed" ++ CRLF)
  | 406 => Some (bs "406 Not Acceptable" ++ CRLF)
  | 407 => Some (bs "407 Proxy Authentication Required" ++ CRLF)
  | 408 => Some (bs "408 Request Timeout" ++ CRLF)
  | 409 => Some (bs "409 Conflict" ++ CRLF)
  | 410 => Some (bs "410 Gone" ++ CRLF)
  | 411 => Some (bs "411 Length Required" ++ CRLF)
  | 412 => Some (bs "412 Precondition Failed" ++ CRLF)
  | 413 => Some (bs "413 Payload Too Large" ++ CRLF)
  | 414 => Some (bs "414 URI Too Long" ++ CRLF)
  | 415 => Some (bs "415 Unsupported Media Type" ++ CRLF)
  | 416 => Some (bs "416 Range Not Satisfiable" ++ CRLF)
  | 417 => Some (bs "417 Expectation Failed" ++ CRLF)
  | 418 => Some (bs "418 I'm a teapot" ++ CRLF)
  | 421 => Some (bs "421 Misdirected Request" ++ CRLF)
  | 422 => Some (bs "422 Unprocessable Entity" ++ CRLF)
  | 423 => Some (bs "423 Locked" ++ CRLF)
  | 424 => Some (bs "424 Failed Dependency" ++ CRLF)
  | 426 => Some (bs "426 Upgrade Required" ++ CRLF)
  | 428 => Some (bs "428 Precondition Required" ++ CRLF)
  | 429 => Some (bs "429 Too Many Requests" ++ CRLF)
  | 431 => Some (bs "431 Request Header Fields Too Large" ++ CRLF)
  | 451 => Some (bs "451 Unavailable For Legal Reasons" ++ CRLF)
  | 500 => Some (bs "500 Internal Server Error" ++ CRLF)
  | 501 => Some (bs "501 Not Implemented" ++ CRLF)
  | 502 => Some (bs "502 Bad Gateway" ++ CRLF)
  | 503 => Some (bs "503 Service Unavailable" ++ CRLF)
  | 504 => Some (bs "504 Gateway Timeout" ++ CRLF)
  | 505 => Some (bs "505 HTTP Version Not Supported" ++ CRLF)
  | 506 => Some (bs "506 Variant Also Negotiates" ++ CRLF)
  | 507 => Some (bs "507 Insufficient Storage" ++ CRLF)
  | 508 => Some (bs "508 Loop Detected" ++ CRLF)
  | 510 => Some (bs "510 Not Extended" ++ CRLF)
  | 511 => Some (bs "511 Network Authentication Required" ++ CRLF)
  | _ => None
  end.

Definition httpresponse_status_length (status_code : Z) : Z :=
  match status_code with
  | 100 => 14
  | 101 => 25
  | 102 => 16
  | 103 => 17
  | 200 => 8
  | 201 => 13
  | 202 => 14
  | 203 => 35
  | 204 => 16
  | 205 => 19
  | 206 => 21
  | 207 => 18
  | 208 => 22
  | 226 => 13
  | 300 => 22
  | 301 => 23
  | 302 => 11
  | 303 => 15
  | 304 => 18
  | 305 => 15
  | 306 => 18
  | 307 => 24
  | 308 => 24
  | 400 => 17
  | 401 => 18
  | 402 => 22
  | 403 => 15
  | 404 => 15
  | 405 => 24
  | 406 => 20
  | 407 => 35
  | 408 => 21
  | 409 => 14
  | 410 => 10
  | 411 => 21
  | 412 => 25
  | 413 => 23
  | 414 => 18
  | 415 => 28
  | 416 => 27
  | 417 => 24
  | 418 => 18
  | 421 => 25
  | 422 => 26
  | 423 => 12
  | 424 => 23
  | 426 => 22
  | 428 => 27
  | 429 => 23
  | 431 => 37
  | 451 => 35
  | 500 => 27
  | 501 => 21
  | 502 => 17
  | 503 => 25
  | 504 => 21
  | 505 => 32
  | 506 => 29
  | 507 => 26
  | 508 => 19
  | 510 => 18
  | 511 => 37
  | _ => 0
  end.

(** The codes [httpresponse_status_string] knows. *)
Definition known_statuses : list Z :=
  [100; 101; 102; 103; 200; 201; 202; 203; 204; 205; 206; 207; 208; 226; 300; 301;
   302; 303; 304; 305; 306; 307; 308; 400; 401; 402; 403; 404; 405; 406; 407; 408;
   409; 410; 411; 412; 413; 414; 415; 416; 417; 418; 421; 422; 423; 424; 426; 428;
   429; 431; 451; 500; 501; 502; 503; 504; 505; 506; 507; 508; 510; 511].

(** ** The response head *)

Record http_header : Set := HttpHeader {
  key : list Z;
  value : list Z;
  key_length : Z;
  value_length : Z }.

Record response : Set := Response {
  status_code : Z;
  header_ : list http_header }.

Definition head_size (r : response) : Z :=
  9 + httpresponse_status_length (status_code r)
    + foldr (λ h n, key_length h + 2 + value_length h + 2 + n) 0 (header_ r) + 2.

(** [bufo_append(buf, data, size) == (ssize_t)size]; [None] reads past [data]. *)
Definition append_full (b : bufo) (data : list Z) (size : Z) : option (bool * bufo) :=
  src ← mem_read data 0 size;
  '(n, b') ← bufo_append b src;
  Some (n =? size, b').

(** Appends until one is incomplete, like the sequence of early returns. *)
Fixpoint append_all (b : bufo) (parts : list (list Z * Z)) : option (bool * bufo) :=
  match parts with
  | [] => Some (true, b)
  | (data, size) :: parts' =>
      '(ok, b') ← append_full b data size;
      if ok : bool then append_all b' parts' else Some (false, b')
  end.

Definition header_parts (h : http_header) : list (list Z * Z) :=
  [(key h, key_length h); (bs ": ", 2); (value h, value_length h); (CRLF, 2)].

Definition head_parts (r : response) (status : list Z) : list (list Z * Z) :=
  (bs "HTTP/1.1 ", 9) :: (status, httpresponse_status_length (status_code r))
  :: flat_map header_parts (header_ r) ++ [(CRLF, 2)].

Section Alloc.
Variable alloc : Z → bool.
Variable junk : Z.

Definition build_head (r : response) (b : bufo) : option (bool * bufo) :=
  match httpresponse_status_string (status_code r) with
  | None => Some (false, b)
  | Some status =>
      let '(ok, b1) := bufo_alloc alloc junk b (head_size r) in
      if ok then
        '(ok, b2) ← append_all b1 (head_parts r status);
        if ok : bool then Some (true, bufo_reset_pos b2) else Some (false, b2)
      else Some (false, b1)
  end.
End Alloc.

(** ** Writing to the socket *)

Inductive outcome : Set :=
  | Sent (n : Z)      (** this many of the offered bytes were taken *)
  | Interrupted       (** -1 with EINTR *)
  | WouldBlock        (** -1 with EAGAIN or EWOULDBLOCK *)
  | Failed.           (** -1 with any other errno *)

Record socket : Set := Socket {
  script : list outcome;
  sent : list Z;
  event_again : bool }.

(** send(2) and SSL_write take between none and all of the offered bytes. *)
Definition taken (n size : Z) : Z := Z.max 0 (Z.min n size).

Fixpoint wr (outs : list outcome) (out : list Z) (again : bool) (b : bufo)
    : option (Z * socket * bufo) :=
  let readed := bufo_chunk_size b BUF_SIZE in
  if 0 <? readed then
    d ← bufo_data b;
    data ← mem_read d 0 readed;
    match outs with
    | [] => Some (CWF_EVENT_AGAIN, Socket [] out true, b)
    | Interrupted :: outs' => wr outs' out again b
    | WouldBlock :: outs' => Some (CWF_EVENT_AGAIN, Socket outs' out true, b)
    | Failed :: outs' => Some (CWF_ERROR, Socket outs' out again, b)
    | Sent n :: outs' =>
        let writed := taken n readed in
        if writed =? 0 then Some (CWF_ERROR, Socket outs' out again, b)
        else
          let '(_, b') := bufo_move_front_pos b writed in
          wr outs' (out ++ take (Z.to_nat writed) data) again b'
    end
  else Some (CWF_OK, Socket outs out again, b).

Definition write_buf (s : socket) (b : bufo) : option (Z * socket * bufo) :=
  wr (script s) (sent s) (event_again s) b.

Definition http_write_header (alloc : Z → bool) (junk : Z) (r : response) (s : socket) (b : bufo)
    : option (Z * socket * bufo) :=
  if buf_size b =? 0 then
    '(ok, b') ← build_head alloc junk r b;
    if ok : bool then write_buf s b' else Some (CWF_ERROR, s, b')
  else write_buf s b.

Definition http_write_body (s : socket) (parent_buf : bufo) : option (Z * socket * bufo) :=
  '(r, s', b') ← write_buf s parent_buf;
  Some (if r =? CWF_OK then CWF_DATA_AGAIN else r, s', b').

(** ** Lemmas *)

(** A script in which the socket never fails and never reports a closed connection. *)
Definition healthy (outs : list outcome) : bool :=
  forallb (λ o, match o with Sent n => 0 <? n | Failed => false | _ => true end) outs.

Lemma chunk_size_unread b :
  Readable b → bufo_chunk_size b BUF_SIZE = Z.min BUF_SIZE (zlen (unread b)).
Proof.
  intros Hr. rewrite (zlen_unread b Hr). destruct Hr as [? ? ?].
  unfold bufo_chunk_size, BUF_SIZE. repeat case_if; reflect_bools; lia.
Qed.

(** How a filter below answers: everything taken, not ready yet, or broken. *)
Inductive answer (finished r : Z) (rest : list Z) (pending pending' : nat) (sound : bool) : Prop :=
  | answer_done : r = finished → rest = [] → answer finished r rest pending pending' sound
  | answer_again : r = CWF_EVENT_AGAIN → (pending' < pending ∨ pending' = 0)%nat →
      answer finished r rest pending pending' sound
  | answer_error : r = CWF_ERROR → sound = false → answer finished r rest pending pending' sound.

Lemma answer_weaken finished r rest p q q' sound :
  (q <= p)%nat → answer finished r rest q q' sound → answer finished r rest p q' sound.
Proof.
  intros Hle [? ?|? ?|? ?]; [by constructor 1|constructor 2; [done|lia]|by constructor 3].
Qed.

Lemma wr_ok outs : ∀ out again b,
  Readable b → (buf_data b = None → unread b = []) →
  ∃ r s' b' o, wr outs out again b = Some (r, s', b') ∧
    sent s' = out ++ o ∧ unread b = o ++ unread b' ∧ Readable b' ∧ same_block b b' ∧
    (length (script s') <= length outs)%nat ∧ (healthy outs = true → healthy (script s') = true) ∧
    answer CWF_OK r (unread b') (length outs) (length (script s')) (healthy outs).
Proof.
  induction outs as [|o outs IH]; intros out again b Hr Hd; cbn [wr];
    rewrite (chunk_size_unread b Hr);
    (destruct (Z.ltb_spec 0 (Z.min BUF_SIZE (zlen (unread b)))) as [Hlt|Hge]; [
       assert (buf_data b ≠ None) as Hnn
         by (intros Hn; rewrite (Hd Hn), (@zlen_nil Z) in Hlt; unfold BUF_SIZE in Hlt; lia);
       destruct (bufo_data_read b (Z.min BUF_SIZE (zlen (unread b)))) as (d & -> & Hm);
         [done|lia|done|]; cbn [mbind option_bind]; rewrite Hm; cbn [mbind option_bind]
     |assert (unread b = []) as Hu
        by (apply zlen_0_nil; pose proof (zlen_nonneg (unread b)); unfold BUF_SIZE in Hge; lia);
      eexists _, _, b, []; rewrite app_nil_r, Hu; split; [done|];
      split_and!; auto with cwf; by constructor 1]).
  { eexists _, _, b, []. rewrite app_nil_r. split; [done|].
    split_and!; auto with cwf. constructor 2; [done|auto]. }
  destruct o as [n| | |].
  - destruct (Z.eqb_spec (taken n (Z.min BUF_SIZE (zlen (unread b)))) 0) as [Hz|Hnz].
    { eexists _, _, b, []. rewrite app_nil_r. split; [done|]. simpl.
      split_and!; auto with cwf; [intros H; reflect_bools; done|].
      constructor 3; [done|]. apply andb_false_iff. left. apply Z.ltb_ge. unfold taken in Hz. lia. }
    set (w := taken n (Z.min BUF_SIZE (zlen (unread b)))) in *.
    assert (0 <= w <= Z.min BUF_SIZE (zlen (unread b))) as Hw by (unfold w, taken; lia).
    destruct (bufo_move_front_readable b w Hr) as (b1 & -> & Hr1 & Hs1 & _ & Hu1); [lia|].
    destruct (IH (out ++ take (Z.to_nat w) (take (Z.to_nat (Z.min BUF_SIZE (zlen (unread b)))) (unread b)))
                 again b1 Hr1) as (r & s' & b' & o & -> & Ho & Hu & Hr' & Hs' & Hl & Hh & Ha).
    { destruct Hs1 as (-> & _). intros Hn. by rewrite Hu1, (Hd Hn), drop_nil. }
    eexists r, s', b', _. split; [done|]. split; [rewrite Ho, <- app_assoc; done|].
    rewrite take_take, Nat.min_l by lia.
    split; [rewrite <- app_assoc, <- Hu, Hu1; symmetry; apply take_drop|].
    simpl. split_and!; eauto with cwf; [intros H; reflect_bools; auto|].
    apply (answer_weaken _ _ _ _ (length outs)); [lia|].
    destruct Ha as [? ?|? ?|? Hf]; [by constructor 1|by constructor 2|constructor 3; [done|]].
    rewrite Hf. apply andb_false_r.
  - destruct (IH out again b Hr Hd) as (r & s' & b' & o & -> & Ho & Hu & Hr' & Hs' & Hl & Hh & Ha).
    eexists r, s', b', o. split; [done|]. simpl. split_and!; auto with cwf.
    apply (answer_weaken _ _ _ _ (length outs)); [lia|done].
  - eexists _, _, b, []. rewrite app_nil_r. split; [done|]. simpl.
    split_and!; auto with cwf. constructor 2; [done|lia].
  - eexists _, _, b, []. rewrite app_nil_r. split; [done|]. simpl.
    split_and!; auto with cwf; [done|by constructor 3].
Qed.

(** ** The interface to the filters above *)

(** A filter below: it is offered a buffer, takes bytes off its front and says
    whether to go on. *)
Class BodySink (S : Type) : Type := {
  next_body : S → bufo → option (Z * S * bufo) }.

Class BodySinkLaws (S : Type) `{BodySink S} : Type := {
  emitted : S → list Z;
  pending : S → nat;
  sound : S → bool;
  next_body_ok s b : Readable b → (buf_data b = None → unread b = []) →
    ∃ r s' b' o, next_body s b = Some (r, s', b') ∧
      emitted s' = emitted s ++ o ∧ unread b = o ++ unread b' ∧ Readable b' ∧ same_block b b' ∧
      (pending s' <= pending s)%nat ∧ (sound s = true → sound s' = true) ∧
      answer CWF_DATA_AGAIN r (unread b') (pending s) (pending s') (sound s) }.

#[export] Instance socket_sink : BodySink socket := { next_body := http_write_body }.

#[export] Program Instance socket_sink_laws : BodySinkLaws socket := {
  emitted := sent;
  pending s := length (script s);
  sound s := healthy (script s) }.
Next Obligation.
  intros s b Hr Hd. simpl. unfold http_write_body, write_buf.
  destruct (wr_ok (script s) (sent s) (event_again s) b Hr Hd)
    as (r & s' & b' & o & -> & Ho & Hu & Hr' & Hs' & Hl & Hh & Ha).
  cbn [mbind option_bind]. eexists _, s', b', o. split; [done|]. split_and!; try done.
  destruct Ha as [-> ?| -> ?| -> ?]; [by constructor 1|by constructor 2|by constructor 3].
Qed.

(** ** The head, as bytes *)

Definition header_line (h : http_header) : list Z := key h ++ bs ": " ++ value h ++ CRLF.

Definition head_bytes (status : list Z) (hs : list http_header) : list Z :=
  bs "HTTP/1.1 " ++ status ++ concat (map header_line hs) ++ CRLF.

Definition header_ok (h : http_header) : Prop :=
  key_length h = zlen (key h) ∧ value_length h = zlen (value h).

(** A buffer being filled from its start. *)
Record Filling (b : bufo) : Prop := {
  fl_inv : Inv b;
  fl_block : buf_data b ≠ None;
  fl_top : buf_size b = buf_pos b }.

Lemma zlen_written b : Inv b → zlen (written b) = buf_pos b.
Proof. intros [Hd ? ? ? ?]. unfold written. rewrite zlen_take, Hd. lia. Qed.

Lemma bufo_append_filling b data :
  Filling b →
  ∃ n b', bufo_append b data = Some (n, b') ∧ Filling b' ∧
    n = Z.min (zlen data) (buf_capacity b - buf_pos b) ∧
    buf_pos b' = buf_pos b + n ∧ buf_capacity b' = buf_capacity b ∧
    written b' = written b ++ take (Z.to_nat n) data.
Proof.
  intros [Hi Hb Ht]. pose proof Hi as [? ? Hp ? Ho].
  destruct (Z.eqb_spec (zlen data) 0) as [Hz|Hz].
  - exists 0, b. unfold bufo_append. rewrite Ho, Hz. change (0 =? 0) with true. cbn iota.
    rewrite take_0, app_nil_r. split_and!; try done; try lia.
  - destruct (bufo_append_ok b data Hi) as (n & b' & H1 & H2 & H3 & H4 & H5 & H6 & H7 & H8 & _);
      [pose proof (zlen_nonneg data); lia|done|].
    exists n, b'. split; [done|]. split_and!; try done. constructor; try done.
    rewrite H6. destruct (Z.eqb_spec n 0); pose proof (zlen_nonneg data); lia.
Qed.

Lemma append_all_ok parts : ∀ b,
  Filling b → Forall (λ p, p.2 = zlen p.1) parts →
  buf_pos b + zlen (concat (map fst parts)) <= buf_capacity b →
  ∃ b', append_all b parts = Some (true, b') ∧ Filling b' ∧ buf_capacity b' = buf_capacity b ∧
    written b' = written b ++ concat (map fst parts).
Proof.
  induction parts as [|[d n] parts IH]; intros b Hf Hp Hc.
  - exists b. rewrite app_nil_r. done.
  - apply Forall_cons in Hp as [Hn Hp]. simpl in Hn. subst n.
    cbn [map fst concat] in Hc. rewrite zlen_app in Hc. cbn [append_all]. unfold append_full.
    rewrite mem_read_Some by (rewrite ?Z.add_0_l; pose proof (zlen_nonneg d); lia).
    rewrite drop_0, take_zlen. cbn [mbind option_bind].
    destruct (bufo_append_filling b d Hf) as (n & b1 & -> & Hf1 & Hn & Hp1 & Hc1 & Hw1).
    cbn [mbind option_bind].
    pose proof (zlen_nonneg (concat (map fst parts))). pose proof (zlen_nonneg d).
    assert (n = zlen d) as -> by lia. rewrite Z.eqb_refl. rewrite take_zlen in Hw1.
    destruct (IH b1 Hf1 Hp) as (b' & -> & Hf' & Hc' & Hw'); [lia|].
    exists b'. split_and!; try done; [lia|]. rewrite Hw', Hw1, <- app_assoc. done.
Qed.

Lemma head_parts_bytes r status :
  concat (map fst (head_parts r status)) = head_bytes status (header_ r).
Proof.
  unfold head_parts, head_bytes. cbn [map fst concat]. do 2 f_equal.
  rewrite map_app, concat_app. f_equal.
  induction (header_ r) as [|h hs IH]; [done|]. cbn [flat_map map concat]. rewrite map_app, concat_app, IH.
  cbn [header_parts map fst concat]. unfold header_line. by rewrite <- !app_assoc.
Qed.

Lemma status_length_ok c s :
  httpresponse_status_string c = Some s → httpresponse_status_length c = zlen s.
Proof.
  intros H. destruct c as [|c|c]; [done| |done]. unfold httpresponse_status_string in H.
  repeat match type of H with
  | context [match ?x with xI _ => _ | xO _ => _ | xH => _ end] => is_var x; destruct x; try discriminate H
  end; injection H as <-; reflexivity.
Qed.

Lemma head_size_ok r status :
  httpresponse_status_string (status_code r) = Some status → Forall header_ok (header_ r) →
  head_size r = zlen (head_bytes status (header_ r)).
Proof.
  intros Hs Hh. unfold head_size, head_bytes. rewrite (status_length_ok _ _ Hs), !zlen_app.
  change (zlen (bs "HTTP/1.1 ")) with 9. change (zlen CRLF) with 2.
  enough (foldr (λ h n, key_length h + 2 + value_length h + 2 + n) 0 (header_ r) =
          zlen (concat (map header_line (header_ r)))) by lia.
  clear Hs. induction Hh as [|h hs [Hk Hv] _ IH]; [done|]. cbn [foldr map concat].
  rewrite zlen_app, <- IH, Hk, Hv. unfold header_line. rewrite !zlen_app.
  change (zlen (bs ": ")) with 2. change (zlen CRLF) with 2. lia.
Qed.

(** A buffer as [bufo_clear] leaves it. *)
Definition cleared (b : bufo) : Prop := b = bufo_init b.

Lemma build_head_ok alloc junk r b status :
  cleared b → httpresponse_status_string (status_code r) = Some status →
  Forall header_ok (header_ r) → head_size r <= BUFO_MAX_CAPACITY → alloc (head_size r) = true →
  ∃ b', build_head alloc junk r b = Some (true, b') ∧ Readable b' ∧ buf_data b' ≠ None ∧
    0 < buf_size b' ∧ unread b' = head_bytes status (header_ r).
Proof.
  intros Hb Hs Hh Hsz Ha. unfold build_head. rewrite Hs. unfold bufo_alloc. rewrite Hb.
  change (buf_data (bufo_init b)) with (@None (list Z)). cbn iota.
  destruct (Z.ltb_spec BUFO_MAX_CAPACITY (head_size r)); [lia|]. rewrite Ha.
  pose proof (head_size_ok r status Hs Hh) as Hsize.
  pose proof (zlen_nonneg (head_bytes status (header_ r))).
  assert (9 <= head_size r) as H9.
  { rewrite Hsize. unfold head_bytes. rewrite zlen_app. change (zlen (bs "HTTP/1.1 ")) with 9.
    pose proof (zlen_nonneg (status ++ concat (map header_line (header_ r)) ++ CRLF)). lia. }
  set (b1 := Bufo _ _ _ _ _ _).
  assert (Filling b1) as Hf.
  { unfold b1. constructor; [|done|done]. unfold BUFO_MAX_CAPACITY in Hsz.
    constructor; simpl; unfold SIZE_MAX; try done; try lia. apply zlen_grow. lia. }
  destruct (append_all_ok (head_parts r status) b1 Hf) as (b2 & -> & [Hi2 Hd2 Ht2] & Hc2 & Hw).
  - unfold head_parts. apply Forall_cons; split; [done|].
    apply Forall_cons; split; [by apply status_length_ok|].
    apply Forall_app; split; [|by repeat constructor].
    apply Forall_flat_map. eapply Forall_impl; [exact Hh|].
    intros h [Hk Hv]. unfold header_parts. repeat constructor; simpl; done.
  - rewrite head_parts_bytes. unfold b1. simpl. lia.
  - cbn [mbind option_bind]. eexists. split; [done|]. rewrite head_parts_bytes in Hw.
    change (written b1) with (@nil Z) in Hw. cbn [app] in Hw.
    pose proof (zlen_written b2 Hi2) as Hp. rewrite Hw in Hp. pose proof Hi2 as [Hd ? ? ? ?].
    split; [|split_and!].
    + unfold b1 in Hc2. simpl in Hc2. unfold BUFO_MAX_CAPACITY in Hsz.
      constructor; simpl; rewrite ?Hd; unfold SIZE_MAX in *; lia.
    + done.
    + simpl. lia.
    + unfold unread. simpl. rewrite drop_0, Z.sub_0_r, Ht2. exact Hw.
Qed.

(** ** Resuming on writability events *)

(** The event loop calls a handler again, with the same buffer, each time the socket
    becomes writable after [CWF_EVENT_AGAIN]; [events] bounds how often it does. *)
Fixpoint resume {S : Type} (handler : S → bufo → option (Z * S * bufo)) (events : nat)
    (s : S) (b : bufo) : option (Z * S * bufo) :=
  '(r, s', b') ← handler s b;
  match events with
  | O => Some (r, s', b')
  | Datatypes.S e => if r =? CWF_EVENT_AGAIN then resume handler e s' b' else Some (r, s', b')
  end.

Lemma write_buf_resume alloc junk r events : ∀ s b,
  Readable b → buf_data b ≠ None → 0 < buf_size b →
  ∃ c s' b' o, resume (http_write_header alloc junk r) events s b = Some (c, s', b') ∧
    sent s' = sent s ++ o ∧ unread b = o ++ unread b' ∧
    (length (script s') <= length (script s))%nat ∧
    answer CWF_OK c (unread b') (length (script s) - events) (length (script s'))
      (healthy (script s)).
Proof.
  assert (∀ s b, Readable b → buf_data b ≠ None → 0 < buf_size b →
    ∃ c s' b' o, http_write_header alloc junk r s b = Some (c, s', b') ∧
    sent s' = sent s ++ o ∧ unread b = o ++ unread b' ∧ Readable b' ∧ same_block b b' ∧
    (length (script s') <= length (script s))%nat ∧
    (healthy (script s) = true → healthy (script s') = true) ∧
    answer CWF_OK c (unread b') (length (script s)) (length (script s')) (healthy (script s)))
    as Honce.
  { intros s b Hr Hd Hz. unfold http_write_header.
    destruct (Z.eqb_spec (buf_size b) 0); [lia|]. apply wr_ok; done. }
  induction events as [|e IH]; intros s b Hr Hd Hz; cbn [resume];
    destruct (Honce s b Hr Hd Hz) as (c & s1 & b1 & o & -> & Ho & Hu & Hr1 & Hs1 & Hl & Hh & Ha);
    cbn [mbind option_bind].
  - exists c, s1, b1, o. rewrite Nat.sub_0_r. done.
  - destruct (Z.eqb_spec c CWF_EVENT_AGAIN) as [Hc|Hc].
    2: { exists c, s1, b1, o. split_and!; try done.
         destruct Ha as [? ?| -> ?|? ?]; [by constructor 1|done|by constructor 3]. }
    destruct Ha as [ -> ?| _ Hp| -> ?]; [done| |done]. pose proof Hs1 as (Hd1 & _ & Hz1 & _).
    destruct (IH s1 b1 Hr1) as (c' & s' & b' & o' & -> & Ho' & Hu' & Hl' & Ha');
      [by rewrite Hd1|by rewrite Hz1|].
    exists c', s', b', (o ++ o'). split; [done|].
    split; [rewrite Ho', Ho, app_assoc; done|]. split; [rewrite Hu, Hu', app_assoc; done|].
    split; [lia|]. destruct Ha' as [? ?|? ?|? Hf]; [by constructor 1|constructor 2; [done|lia]|].
    constructor 3; [done|]. destruct (healthy (script s)); [|done]. by rewrite Hh in Hf.
Qed.

(** ** Properties *)

(** [http_write_header] sends exactly the response head: whatever the socket does
    (partial writes, interrupted calls, refusals followed by writability events), the
    bytes on the wire followed by the bytes still buffered are the status line, every
    header as "key: value" and the empty line; [CWF_OK] means the whole head was sent;
    it fails only when the socket does, and waits only once the socket has nothing
    more to say. The hard-coded status lengths and [__head_size] are therefore exact. *)
Theorem response_head_exact (alloc : Z → bool) (junk : Z) (r : response) (s : socket) (b : bufo)
    (status : list Z) (events : nat) :
  cleared b → httpresponse_status_string (status_code r) = Some status →
  Forall header_ok (header_ r) → head_size r <= BUFO_MAX_CAPACITY → alloc (head_size r) = true →
  (length (script s) <= events)%nat →
  ∃ c s' b' o, resume (http_write_header alloc junk r) events s b = Some (c, s', b') ∧
    sent s' = sent s ++ o ∧ head_bytes status (header_ r) = o ++ unread b' ∧
    ((c = CWF_OK ∧ unread b' = []) ∨ (c = CWF_EVENT_AGAIN ∧ script s' = []) ∨
     (c = CWF_ERROR ∧ healthy (script s) = false)).
Proof.
  intros Hb Hs Hh Hsz Ha Hev.
  destruct (build_head_ok alloc junk r b status Hb Hs Hh Hsz Ha) as (b1 & Hbuild & Hr & Hd & Hz & Hu).
  assert (resume (http_write_header alloc junk r) events s b =
          resume (http_write_header alloc junk r) events s b1) as ->.
  { assert (http_write_header alloc junk r s b = http_write_header alloc junk r s b1) as Heq.
    { unfold http_write_header. assert (buf_size b = 0) as -> by (rewrite Hb; done).
      change (0 =? 0) with true.
      cbn iota. rewrite Hbuild. cbn [mbind option_bind].
      destruct (Z.eqb_spec (buf_size b1) 0); [lia|done]. }
    destruct events; cbn [resume]; by rewrite Heq. }
  destruct (write_buf_resume alloc junk r events s b1 Hr Hd Hz)
    as (c & s' & b' & o & -> & Ho & Hu' & Hl & Hans).
  exists c, s', b', o. rewrite <- Hu. split_and!; try done.
  destruct Hans as [? ?|? Hp|? ?]; [by left| |by right; right].
  right; left. split; [done|]. apply nil_length_inv. lia.
Qed.

Definition not_found : response :=
  Response 404 [HttpHeader (bs "X-Empty") [] 7 0; HttpHeader (bs "Server") (bs "cwf") 6 3].

Lemma response_head_exact_witness :
  ∃ c s' b' o, resume (http_write_header (λ _, true) 0 not_found) 4
      (Socket [Sent 5; WouldBlock; Interrupted; Sent 500] [] false) (Bufo None 0 0 0 false false)
    = Some (c, s', b') ∧
    sent s' = [] ++ o ∧
    bs "HTTP/1.1 404 Not Found" ++ CRLF ++ bs "X-Empty: " ++ CRLF ++ bs "Server: cwf" ++ CRLF ++ CRLF
      = o ++ unread b' ∧
    ((c = CWF_OK ∧ unread b' = []) ∨ (c = CWF_EVENT_AGAIN ∧ script s' = []) ∨
     (c = CWF_ERROR ∧ healthy [Sent 5; WouldBlock; Interrupted; Sent 500] = false)).
Proof.
  apply (response_head_exact (λ _, true) 0 not_found
           (Socket [Sent 5; WouldBlock; Interrupted; Sent 500] [] false)
           (Bufo None 0 0 0 false false) (bs "404 Not Found" ++ CRLF) 4).
  - reflexivity.
  - reflexivity.
  - repeat constructor; reflexivity.
  - vm_compute. discriminate.
  - reflexivity.
  - simpl. lia.
Defined.
