(* ===== verification/ChunkedFilter.v ===== *)
(** The chunked filter ([filters/http_chunked_filter.c]): it re-frames the buffers of
    the filter above as HTTP chunks in a buffer of its own and hands that to the
    filter below, over as many flushes and resumptions as it takes.

    [None] is an access outside a block, a NULL dereference, or a loop that outlives
    its fuel; the theorems show that none of them happens. *)

From S2P Require Import Prelude Bufo WriteFilter.

Definition CHUNK_HEAD_MAX_SIZE : Z := 24.

Inductive chunked_state : Set :=
  | HTTP_MODULE_CHUNKED_SIZE
  | HTTP_MODULE_CHUNKED_DATA
  | HTTP_MODULE_CHUNKED_SEP
  | HTTP_MODULE_CHUNKED_END.

(** [base.parent_buf] is the buffer the handler was called with; it is passed along
    as an argument. *)
Record http_module_chunked : Set := Chunked {
  ck_cont : bool;
  ck_done : bool;
  ck_buf : bufo;
  ck_state : chunked_state;
  ck_state_pos : Z;
  ck_chunk_head : option (list Z);
  ck_chunk_head_size : Z;
  ck_current_chunk_size : Z }.

Definition with_buf (m : http_module_chunked) (b : bufo) : http_module_chunked :=
  Chunked (ck_cont m) (ck_done m) b (ck_state m) (ck_state_pos m) (ck_chunk_head m)
    (ck_chunk_head_size m) (ck_current_chunk_size m).

Definition with_cont (m : http_module_chunked) (cont : bool) : http_module_chunked :=
  Chunked cont (ck_done m) (ck_buf m) (ck_state m) (ck_state_pos m) (ck_chunk_head m)
    (ck_chunk_head_size m) (ck_current_chunk_size m).

Definition at_state (m : http_module_chunked) (st : chunked_state) (pos : Z) : http_module_chunked :=
  Chunked (ck_cont m) (ck_done m) (ck_buf m) st pos (ck_chunk_head m)
    (ck_chunk_head_size m) (ck_current_chunk_size m).

Definition http_chunked_create : http_module_chunked :=
  Chunked false false (Bufo None 0 0 0 false false) HTTP_MODULE_CHUNKED_SIZE 0 None 0 0.

Definition http_chunked_reset (m : http_module_chunked) : http_module_chunked :=
  Chunked false false (bufo_flush (ck_buf m)) HTTP_MODULE_CHUNKED_SIZE 0 (ck_chunk_head m) 0 0.

(** ["%zx"]: lower-case hexadecimal, at most 16 digits for a [size_t]. *)
Definition hex_digit (d : Z) : Z := if d <? 10 then 48 + d else 87 + d.

Fixpoint hex_digits (fuel : nat) (n : Z) : list Z :=
  match fuel with
  | O => []
  | S f => if n <? 16 then [hex_digit n] else hex_digits f (n / 16) ++ [hex_digit (n mod 16)]
  end.

Definition print_zx (n : Z) : list Z := hex_digits 16 n.

(** [snprintf(module->chunk_head, CHUNK_HEAD_MAX_SIZE, "%zx\r\n", chunk_size)]. *)
Definition chunk_head_set (m : http_module_chunked) (parent_buf : bufo)
    : option (bool * http_module_chunked) :=
  let buf_size := bufo_size parent_buf in
  if buf_size <? buf_pos parent_buf then Some (false, m)
  else
    let chunk_size := buf_size - buf_pos parent_buf in
    head ← ck_chunk_head m;
    let text := print_zx chunk_size ++ CRLF in
    let chunk_head_size := zlen text in
    head' ← mem_write head 0
      (take (Z.to_nat (CHUNK_HEAD_MAX_SIZE - 1)) text ++ [0]);
    let m' := Chunked (ck_cont m) (ck_done m) (ck_buf m) (ck_state m) (ck_state_pos m)
                (Some head') (ck_chunk_head_size m) (ck_current_chunk_size m) in
    if CHUNK_HEAD_MAX_SIZE <=? chunk_head_size then Some (false, m')
    else Some (true, Chunked (ck_cont m) (ck_done m) (ck_buf m) (ck_state m) (ck_state_pos m)
                       (Some head') chunk_head_size chunk_size).

Section Alloc.
Variable alloc : Z → bool.
Variable junk : Z.

Definition chunk_head_create (m : http_module_chunked) : bool * http_module_chunked :=
  if alloc CHUNK_HEAD_MAX_SIZE then
    (true, Chunked (ck_cont m) (ck_done m) (ck_buf m) (ck_state m) (ck_state_pos m)
             (Some (grow junk [] CHUNK_HEAD_MAX_SIZE)) (ck_chunk_head_size m)
             (ck_current_chunk_size m))
  else (false, m).

Definition chunked_update_state (m : http_module_chunked) (parent_buf : bufo)
    : option (bool * http_module_chunked) :=
  let m := at_state m HTTP_MODULE_CHUNKED_SIZE 0 in
  match ck_chunk_head m with
  | Some _ => chunk_head_set m parent_buf
  | None =>
      let '(ok, m) := chunk_head_create m in
      if ok then chunk_head_set m parent_buf else Some (false, m)
  end.

(** One turn of the loop of [chunked_process]: go round again, or return. *)
Inductive turn : Set :=
  | Again (m : http_module_chunked) (parent_buf : bufo)
  | Return (ok : bool) (m : http_module_chunked) (parent_buf : bufo).

(** [bufo_append(buf, text + state_pos, text_size - state_pos)] and the two tests
    after it: [Some (m', full)] has [full] when the text did not fit. *)
Definition append_text (m : http_module_chunked) (text : list Z) (text_size : Z)
    : option (option (http_module_chunked * bool)) :=
  src ← mem_read text (ck_state_pos m) (text_size - ck_state_pos m);
  '(written, buf) ← bufo_append (ck_buf m) src;
  if written <? 0 then Some None
  else
    let pos := ck_state_pos m + written in
    Some (Some (at_state (with_buf m buf) (ck_state m) pos, pos <? text_size)).

Definition LAST_CHUNK : list Z := bs "0" ++ CRLF ++ CRLF.

Definition turn_size (m : http_module_chunked) (p : bufo) : option turn :=
  let send m :=
    head ← ck_chunk_head m;
    r ← append_text m head (ck_chunk_head_size m);
    match r with
    | None => Some (Return false m p)
    | Some (m', true) => Some (Return true m' p)
    | Some (m', false) => Some (Again (at_state m' HTTP_MODULE_CHUNKED_DATA 0) p)
    end in
  if ck_state_pos m =? 0 then
    if bufo_size p <? buf_pos p then Some (Return false m p)
    else if buf_pos p =? bufo_size p then
      if negb (buf_is_last p) then Some (Return true m p)
      else Some (Again (at_state m HTTP_MODULE_CHUNKED_END (ck_state_pos m)) p)
    else
      '(ok, m') ← chunked_update_state m p;
      if ok : bool then send m' else Some (Return false m' p)
  else send m.

Definition turn_data (m : http_module_chunked) (p : bufo) : option turn :=
  let parent_remaining := if buf_pos p <? bufo_size p then bufo_size p - buf_pos p else 0 in
  let chunk_remaining := wrap64 (ck_current_chunk_size m - ck_state_pos m) in
  let size := if parent_remaining <? chunk_remaining then parent_remaining else chunk_remaining in
  if size =? 0 then Some (Return (negb (buf_is_last p)) m p)
  else
    d ← bufo_data p;
    src ← mem_read d 0 size;
    '(written, buf) ← bufo_append (ck_buf m) src;
    if written <? 0 then Some (Return false m p)
    else
      let '(moved, p') := bufo_move_front_pos p written in
      let pos := ck_state_pos m + moved in
      let m' := at_state (with_buf m buf) HTTP_MODULE_CHUNKED_DATA pos in
      if pos <? ck_current_chunk_size m then Some (Return true m' p')
      else Some (Again (at_state m' HTTP_MODULE_CHUNKED_SEP 0) p').

Definition turn_sep (m : http_module_chunked) (p : bufo) : option turn :=
  r ← append_text m CRLF 2;
  match r with
  | None => Some (Return false m p)
  | Some (m', true) => Some (Return true m' p)
  | Some (m', false) =>
      if buf_is_last p then Some (Again (at_state m' HTTP_MODULE_CHUNKED_END 0) p)
      else
        let m' := at_state m' HTTP_MODULE_CHUNKED_SIZE 0 in
        if buf_pos p <? buf_size p then Some (Again m' p) else Some (Return true m' p)
  end.

Definition turn_end (m : http_module_chunked) (p : bufo) : option turn :=
  r ← append_text m LAST_CHUNK 5;
  match r with
  | None => Some (Return false m p)
  | Some (m', true) => Some (Return true m' p)
  | Some (m', false) =>
      Some (Return true
        (Chunked (ck_cont m') true (ck_buf m') HTTP_MODULE_CHUNKED_END 0 (ck_chunk_head m')
           (ck_chunk_head_size m') (ck_current_chunk_size m')) p)
  end.

Definition chunked_turn (m : http_module_chunked) (p : bufo) : option turn :=
  match ck_state m with
  | HTTP_MODULE_CHUNKED_SIZE => turn_size m p
  | HTTP_MODULE_CHUNKED_DATA => turn_data m p
  | HTTP_MODULE_CHUNKED_SEP => turn_sep m p
  | HTTP_MODULE_CHUNKED_END => turn_end m p
  end.

Fixpoint chunked_loop (fuel : nat) (m : http_module_chunked) (p : bufo)
    : option (bool * http_module_chunked * bufo) :=
  match fuel with
  | O => None
  | S f =>
      t ← chunked_turn m p;
      match t with
      | Again m' p' => chunked_loop f m' p'
      | Return ok m' p' => Some (ok, m', p')
      end
  end.

(** SEP, SIZE, DATA, SEP, END is the longest way through the loop. *)
Definition chunked_process (m : http_module_chunked) (p : bufo)
    : option (bool * http_module_chunked * bufo) :=
  chunked_loop 6 (with_buf m (bufo_reset_size (bufo_reset_pos (ck_buf m)))) p.

(** ** The body handler *)

Section Sink.
Context {S : Type} `{BodySink S}.

(** The handler's loop, entered at the label [cont] when [resume] is true. *)
Fixpoint chunked_flush (fuel : nat) (resume : bool) (m : http_module_chunked) (s : S) (p : bufo)
    : option (Z * (http_module_chunked * S) * bufo) :=
  match fuel with
  | O => None
  | Datatypes.S f =>
      '(ok, m, p) ←
        (if resume then Some (true, m, p)
         else '(ok, m, p) ← chunked_process m p;
              Some (ok, if ok : bool then with_buf m (bufo_reset_pos (ck_buf m)) else m, p));
      if negb ok then Some (CWF_ERROR, (m, s), p)
      else
        '(r, s, buf) ← next_body s (ck_buf m);
        let m := with_cont (with_buf m buf) false in
        if r =? CWF_DATA_AGAIN then
          if ck_done m then Some (r, (m, s), p)
          else if buf_pos p <? buf_size p then chunked_flush f false m s p
          else if buf_is_last p then chunked_flush f false m s p
          else Some (r, (m, s), p)
        else if r =? CWF_EVENT_AGAIN then Some (r, (with_cont m true, s), p)
        else Some (r, (m, s), p)
  end.

(** At least one byte leaves per flush: the parent's bytes and 27 of framing. *)
Definition flushes (p : bufo) : nat := Z.to_nat (buf_size p - buf_pos p) + 32.

(** [transfer_encoding] and [last_modified] are the response's; a response that is not
    chunked passes its buffers through. *)
Definition http_chunked_body (te_none last_modified : bool) (ms : http_module_chunked * S)
    (p : bufo) : option (Z * (http_module_chunked * S) * bufo) :=
  let '(m, s) := ms in
  if te_none || last_modified then
    '(r, s, p) ← next_body s p; Some (r, (m, s), p)
  else if ck_cont m then chunked_flush (flushes p) true m s p
  else chunked_flush (flushes p) false (with_buf m (bufo_reset_pos (ck_buf m))) s p.
End Sink.
End Alloc.

(** ** What the filter still owes the wire *)

Definition chunk_head (n : Z) : list Z := print_zx n ++ CRLF.

(** [data] as one chunk; no bytes make no chunk. *)
Definition chunk (data : list Z) : list Z :=
  match data with [] => [] | _ => chunk_head (zlen data) ++ data ++ CRLF end.

Definition tail (p : bufo) : list Z := if buf_is_last p then LAST_CHUNK else [].

(** What a parent buffer becomes when its first byte is still to be framed. *)
Definition fresh (p : bufo) : list Z := chunk (unread p) ++ tail p.

Definition owed (m : http_module_chunked) (p : bufo) : list Z :=
  match ck_state m with
  | HTTP_MODULE_CHUNKED_SIZE =>
      if ck_state_pos m =? 0 then fresh p
      else drop (Z.to_nat (ck_state_pos m)) (chunk_head (zlen (unread p)))
             ++ unread p ++ CRLF ++ tail p
  | HTTP_MODULE_CHUNKED_DATA => unread p ++ CRLF ++ tail p
  | HTTP_MODULE_CHUNKED_SEP =>
      drop (Z.to_nat (ck_state_pos m)) CRLF ++ (if buf_is_last p then LAST_CHUNK else fresh p)
  | HTTP_MODULE_CHUNKED_END =>
      if ck_done m then [] else drop (Z.to_nat (ck_state_pos m)) LAST_CHUNK
  end.

Definition head_block (m : http_module_chunked) : Prop :=
  match ck_chunk_head m with None => True | Some h => zlen h = CHUNK_HEAD_MAX_SIZE end.

Definition state_ok (m : http_module_chunked) (p : bufo) : Prop :=
  match ck_state m with
  | HTTP_MODULE_CHUNKED_SIZE =>
      ck_done m = false ∧
      (ck_state_pos m = 0 ∨
       0 < ck_state_pos m < zlen (chunk_head (zlen (unread p))) ∧ unread p ≠ [] ∧
       ck_chunk_head_size m = zlen (chunk_head (zlen (unread p))) ∧
       ck_current_chunk_size m = zlen (unread p) ∧
       ∃ h, ck_chunk_head m = Some h ∧
         take (Z.to_nat (ck_chunk_head_size m)) h = chunk_head (zlen (unread p)))
  | HTTP_MODULE_CHUNKED_DATA =>
      ck_done m = false ∧ 0 <= ck_state_pos m ∧ unread p ≠ [] ∧
      ck_current_chunk_size m = ck_state_pos m + zlen (unread p) ∧
      ck_current_chunk_size m <= SIZE_MAX
  | HTTP_MODULE_CHUNKED_SEP => ck_done m = false ∧ 0 <= ck_state_pos m < 2
  | HTTP_MODULE_CHUNKED_END =>
      0 <= ck_state_pos m < 5 ∧ buf_is_last p = true
  end.

(** The filter's invariant while it works on the parent buffer [p]. *)
Record CInv (C : Z) (m : http_module_chunked) (p : bufo) : Prop := {
  ci_head : head_block m;
  ci_parent : Readable p;
  ci_parent_data : buf_data p ≠ None;
  ci_capacity : buf_capacity (ck_buf m) = C;
  ci_state : state_ok m p }.

(** ** Hexadecimal *)

Lemma zlen_zx fuel : ∀ n, zlen (hex_digits fuel n) <= Z.of_nat fuel.
Proof.
  induction fuel as [|f IH]; intros n; cbn [hex_digits]; [done|].
  case_if; [change (zlen [hex_digit n]) with 1; lia|].
  rewrite zlen_app. change (zlen [hex_digit (n mod 16)]) with 1. specialize (IH (n / 16)). lia.
Qed.

Lemma zlen_zx_pos fuel n : 1 <= zlen (hex_digits (S fuel) n).
Proof.
  cbn [hex_digits]. case_if; [done|]. rewrite zlen_app.
  change (zlen [hex_digit (n mod 16)]) with 1. pose proof (zlen_nonneg (hex_digits fuel (n / 16))). lia.
Qed.

Lemma zlen_chunk_head n : 3 <= zlen (chunk_head n) <= 18.
Proof.
  unfold chunk_head, print_zx. rewrite zlen_app. change (zlen CRLF) with 2.
  pose proof (zlen_zx 16 n). pose proof (zlen_zx_pos 15 n). lia.
Qed.

(** ** Appending a piece of framing *)

Lemma append_text_ok m text size :
  Filling (ck_buf m) → 0 <= ck_state_pos m <= size → size <= zlen text →
  ∃ m' full out, append_text m text size = Some (Some (m', full)) ∧
    m' = at_state (with_buf m (ck_buf m')) (ck_state m) (ck_state_pos m') ∧
    Filling (ck_buf m') ∧ buf_capacity (ck_buf m') = buf_capacity (ck_buf m) ∧
    written (ck_buf m') = written (ck_buf m) ++ out ∧
    drop (Z.to_nat (ck_state_pos m)) (take (Z.to_nat size) text) =
      out ++ drop (Z.to_nat (ck_state_pos m')) (take (Z.to_nat size) text) ∧
    ck_state_pos m <= ck_state_pos m' <= size ∧
    (full = true → ck_state_pos m' < size ∧ buf_pos (ck_buf m') = buf_capacity (ck_buf m)) ∧
    (full = false → ck_state_pos m' = size).
Proof.
  intros Hf Hp Hs. unfold append_text.
  rewrite mem_read_Some by lia. cbn [mbind option_bind].
  set (src := take _ _). assert (zlen src = size - ck_state_pos m) as Hsrc.
  { unfold src. rewrite zlen_take, zlen_drop. lia. }
  assert (drop (Z.to_nat (ck_state_pos m)) (take (Z.to_nat size) text) = src) as Hd.
  { unfold src. rewrite skipn_firstn_comm. f_equal. lia. }
  destruct (bufo_append_filling (ck_buf m) src Hf) as (n & b' & -> & Hf' & Hn & Hp' & Hc' & Hw').
  cbn [mbind option_bind]. pose proof (fl_inv _ Hf) as [_ _ ? _ _].
  destruct (Z.ltb_spec n 0); [lia|]. eexists _, _, (take (Z.to_nat n) src). split; [done|].
  split; [done|]. simpl. split; [done|]. split; [done|]. split; [done|]. split.
  - rewrite Hd, <- (take_drop (Z.to_nat n) src) at 1. f_equal. rewrite <- Hd, drop_drop. f_equal. lia.
  - split; [lia|]. split; intros Hlt; reflect_bools; lia.
Qed.

(** ** One turn *)

(** Where the loop stands: every turn that goes round again comes closer to the end. *)
Definition rank (m : http_module_chunked) (p : bufo) : nat :=
  match ck_state m with
  | HTTP_MODULE_CHUNKED_SEP => match unread p with [] => 2 | _ => 5 end
  | HTTP_MODULE_CHUNKED_SIZE => 4
  | HTTP_MODULE_CHUNKED_DATA => 3
  | HTTP_MODULE_CHUNKED_END => 1
  end.

(** From [(m, p)] to [(m', p')] the filter moved bytes it owed into its buffer. *)
Record moved (C : Z) (m : http_module_chunked) (p : bufo) (m' : http_module_chunked) (p' : bufo)
    : Prop := {
  mv_inv : CInv C m' p';
  mv_fill : Filling (ck_buf m');
  mv_out : ∃ out, written (ck_buf m') = written (ck_buf m) ++ out ∧ owed m p = out ++ owed m' p';
  mv_parent : same_block p p';
  mv_cont : ck_cont m' = ck_cont m }.

Definition full_or_done (C : Z) (m : http_module_chunked) (p : bufo) : Prop :=
  buf_pos (ck_buf m) = C ∨ owed m p = [].

Definition turn_good (C : Z) (m : http_module_chunked) (p : bufo) (t : turn) : Prop :=
  match t with
  | Again m' p' => moved C m p m' p' ∧ ck_done m' = false ∧ (rank m' p' < rank m p)%nat
  | Return ok m' p' => ok = true ∧ moved C m p m' p' ∧ full_or_done C m' p'
  end.

Lemma unread_nil p : Readable p → (unread p = [] ↔ buf_pos p = buf_size p).
Proof.
  intros Hr. pose proof (zlen_unread p Hr) as Hz. split; intros H.
  - rewrite H in Hz. change (zlen []) with 0 in Hz. lia.
  - apply zlen_0_nil. lia.
Qed.

Lemma turn_sep_ok C m p :
  CInv C m p → Filling (ck_buf m) → ck_state m = HTTP_MODULE_CHUNKED_SEP →
  ∃ t, turn_sep m p = Some t ∧ turn_good C m p t.
Proof.
  intros [Hh Hr Hpd Hc Hs] Hf Hst. unfold state_ok in Hs. rewrite Hst in Hs. destruct Hs as [Hdn Hpos].
  unfold turn_sep.
  destruct (append_text_ok m CRLF 2 Hf) as (m' & full & out & -> & Em & Hf' & Hc' & Hw & Ho & Hp' & Hfull & Hnf);
    [lia|done|].
  change (take (Z.to_nat 2) CRLF) with CRLF in Ho. cbn [mbind option_bind].
  assert (owed m p = out ++ drop (Z.to_nat (ck_state_pos m')) CRLF
                       ++ (if buf_is_last p then LAST_CHUNK else fresh p)) as Hod.
  { unfold owed. by rewrite Hst, Ho, <- app_assoc. }
  assert (ck_done m' = false) as Hdn' by (rewrite Em; exact Hdn).
  assert (head_block m') as Hh' by (rewrite Em; exact Hh).
  assert (ck_cont m' = ck_cont m) as Hct by (rewrite Em; done).
  destruct full.
  - destruct (Hfull eq_refl) as [? ?]. eexists. split; [done|]. split; [done|].
    assert (ck_state m' = HTTP_MODULE_CHUNKED_SEP) as Hst' by (rewrite Em; exact Hst).
    split; [|left; congruence]. constructor; try done; auto with cwf.
    + constructor; [done|done|done|congruence|]. unfold state_ok. rewrite Hst'. split; [done|lia].
    + exists out. split; [done|]. rewrite Hod. unfold owed. by rewrite Hst'.
  - specialize (Hnf eq_refl). rewrite Hnf in Hod. change (drop (Z.to_nat 2) CRLF) with (@nil Z) in Hod.
    cbn [app] in Hod.
    destruct (buf_is_last p) eqn:El; cbn [app] in Hod |- *.
    + eexists. split; [done|]. split; [|split; [done|unfold rank; rewrite Hst; simpl; destruct (unread p); lia]].
      constructor; try done; auto with cwf.
      * constructor; [done|done|done|simpl; congruence|]. unfold state_ok. simpl. split; [lia|done].
      * exists out. split; [done|]. rewrite Hod. unfold owed. simpl. by rewrite Hdn'.
    + assert (moved C m p (at_state m' HTTP_MODULE_CHUNKED_SIZE 0) p) as Hmv.
      { constructor; try done; auto with cwf.
        - constructor; [done|done|done|simpl; congruence|]. unfold state_ok. simpl. split; [done|by left].
        - exists out. split; [done|]. rewrite Hod. done. }
      destruct (Z.ltb_spec (buf_pos p) (buf_size p)) as [Hlt|Hge]; eexists; (split; [done|]).
      * split; [done|]. split; [done|]. unfold rank. rewrite Hst. simpl.
        destruct (unread p) eqn:Eu; [|lia]. apply (unread_nil p Hr) in Eu. lia.
      * split; [done|]. split; [done|]. right. unfold owed. simpl. unfold fresh, tail. rewrite El.
        pose proof (rd_pos _ Hr). assert (unread p = []) as -> by (apply (unread_nil p Hr); lia). done.
Qed.

Lemma turn_end_ok C m p :
  CInv C m p → Filling (ck_buf m) → ck_state m = HTTP_MODULE_CHUNKED_END → ck_done m = false →
  ∃ t, turn_end m p = Some t ∧ turn_good C m p t.
Proof.
  intros [Hh Hr Hpd Hc Hs] Hf Hst Hdn. unfold state_ok in Hs. rewrite Hst in Hs.
  destruct Hs as [Hpos Hl]. unfold turn_end.
  destruct (append_text_ok m LAST_CHUNK 5 Hf)
    as (m' & full & out & -> & Em & Hf' & Hc' & Hw & Ho & Hp' & Hfull & Hnf); [lia|done|].
  change (take (Z.to_nat 5) LAST_CHUNK) with LAST_CHUNK in Ho. cbn [mbind option_bind].
  assert (ck_done m' = false) as Hdn' by (rewrite Em; exact Hdn).
  assert (head_block m') as Hh' by (rewrite Em; exact Hh).
  assert (ck_cont m' = ck_cont m) as Hct by (rewrite Em; done).
  assert (owed m p = out ++ drop (Z.to_nat (ck_state_pos m')) LAST_CHUNK) as Hod.
  { unfold owed. by rewrite Hst, Hdn, Ho. }
  destruct full.
  - destruct (Hfull eq_refl) as [? ?]. eexists. split; [done|]. split; [done|].
    assert (ck_state m' = HTTP_MODULE_CHUNKED_END) as Hst' by (rewrite Em; exact Hst).
    split; [|left; congruence]. constructor; try done; auto with cwf.
    + constructor; [done|done|done|congruence|]. unfold state_ok. rewrite Hst'. split; [lia|done].
    + exists out. split; [done|]. rewrite Hod. unfold owed. by rewrite Hst', Hdn'.
  - specialize (Hnf eq_refl). rewrite Hnf in Hod. eexists. split; [done|]. split; [done|].
    split; [|by right]. constructor; try done; auto with cwf.
    + constructor; [done|done|done|simpl; congruence|]. unfold state_ok. simpl. split; [lia|done].
    + exists out. split; [done|]. rewrite Hod. done.
Qed.

Lemma turn_data_ok C m p :
  CInv C m p → Filling (ck_buf m) → ck_state m = HTTP_MODULE_CHUNKED_DATA →
  ∃ t, turn_data m p = Some t ∧ turn_good C m p t.
Proof.
  intros [Hh Hr Hpd Hc Hs] Hf Hst. unfold state_ok in Hs. rewrite Hst in Hs.
  destruct Hs as (Hdn & Hpos & Hne & Hcur & Hmax). unfold turn_data, bufo_size.
  pose proof (zlen_unread p Hr) as Hz.
  assert (0 < zlen (unread p)) as Hlen.
  { pose proof (zlen_nonneg (unread p)). destruct (Z.eq_dec (zlen (unread p)) 0) as [E|]; [|lia].
    by apply zlen_0_nil in E. }
  destruct (Z.ltb_spec (buf_pos p) (buf_size p)); [|lia].
  replace (wrap64 (ck_current_chunk_size m - ck_state_pos m)) with (zlen (unread p)).
  2: { unfold wrap64, SIZE_MAX in *. rewrite Z.mod_small; lia. }
  rewrite <- Hz. rewrite Z.ltb_irrefl. destruct (Z.eqb_spec (zlen (unread p)) 0) as [|_]; [lia|].
  destruct (bufo_data_read p (zlen (unread p)) Hr) as (d & -> & Hread); [lia|done|].
  cbn [mbind option_bind]. rewrite Hread, take_zlen. cbn [mbind option_bind].
  destruct (bufo_append_filling (ck_buf m) (unread p) Hf) as (n & b' & -> & Hf' & Hn & Hp' & Hc' & Hw').
  cbn [mbind option_bind]. pose proof (fl_inv _ Hf) as [_ _ ? _ _].
  destruct (Z.ltb_spec n 0); [lia|].
  destruct (bufo_move_front_readable p n Hr) as (p' & -> & Hr' & Hsame & _ & Hu'); [lia|].
  pose proof Hsame as (Hd' & _ & _ & _ & Hl').
  assert (unread p = take (Z.to_nat n) (unread p) ++ unread p') as Hsplit
    by (rewrite Hu'; symmetry; apply take_drop).
  assert (zlen (unread p') = zlen (unread p) - n) as Hz' by (rewrite Hu', zlen_drop; lia).
  assert (tail p' = tail p) as Ht by (unfold tail; by rewrite Hl').
  assert (owed m p = take (Z.to_nat n) (unread p) ++ unread p' ++ CRLF ++ tail p') as Hod.
  { unfold owed. rewrite Hst, Ht. rewrite Hsplit at 1. by rewrite <- app_assoc. }
  destruct (Z.ltb_spec (ck_state_pos m + n) (ck_current_chunk_size m)) as [Hlt|Hge];
    eexists; (split; [done|]).
  - split; [done|]. split; [|left; simpl; lia]. constructor; try done.
    + constructor; [done|done|congruence|simpl; congruence|]. unfold state_ok. simpl.
      split_and!; try done; try lia. intros E. rewrite E in Hz'. change (zlen []) with 0 in Hz'. lia.
    + exists (take (Z.to_nat n) (unread p)). split; [done|]. rewrite Hod. done.
  - assert (unread p' = []) as Hnil by (apply zlen_0_nil; lia). rewrite Hnil in Hod.
    split; [|split; [done|unfold rank; rewrite Hst; simpl; rewrite Hnil; lia]].
    constructor; try done.
    + constructor; [done|done|congruence|simpl; congruence|]. unfold state_ok. simpl. split; [done|lia].
    + exists (take (Z.to_nat n) (unread p)). split; [done|]. rewrite Hod. unfold owed. simpl.
      unfold fresh, tail. rewrite Hnil. by destruct (buf_is_last p').
Qed.

(** The head block announces the whole of [p]. *)
Record announced (m : http_module_chunked) (p : bufo) (h : list Z) : Prop := {
  an_block : ck_chunk_head m = Some h;
  an_size : ck_chunk_head_size m = zlen (chunk_head (zlen (unread p)));
  an_text : take (Z.to_nat (ck_chunk_head_size m)) h = chunk_head (zlen (unread p));
  an_current : ck_current_chunk_size m = zlen (unread p) }.

Lemma chunk_head_set_ok m p h :
  Readable p → ck_chunk_head m = Some h → zlen h = CHUNK_HEAD_MAX_SIZE →
  ∃ m' h', chunk_head_set m p = Some (true, m') ∧ announced m' p h' ∧
    zlen h' = CHUNK_HEAD_MAX_SIZE ∧ ck_cont m' = ck_cont m ∧ ck_done m' = ck_done m ∧
    ck_buf m' = ck_buf m ∧ ck_state m' = ck_state m ∧ ck_state_pos m' = ck_state_pos m.
Proof.
  intros Hr Hh Hl. pose proof (zlen_unread p Hr) as Hz. pose proof (rd_pos p Hr) as Hp.
  unfold chunk_head_set, bufo_size. destruct (Z.ltb_spec (buf_size p) (buf_pos p)); [lia|].
  rewrite Hh, <- Hz. cbn [mbind option_bind]. fold (chunk_head (zlen (unread p))).
  set (text := chunk_head (zlen (unread p))).
  assert (3 <= zlen text <= 18) as Ht by apply zlen_chunk_head.
  unfold CHUNK_HEAD_MAX_SIZE in *.
  rewrite (take_ge text) by (unfold zlen in Ht; lia).
  assert (zlen (text ++ [0]) = zlen text + 1) as Hz0 by (rewrite zlen_app; done).
  rewrite mem_write_Some by lia. cbn [mbind option_bind].
  destruct (Z.leb_spec 24 (zlen text)); [lia|].
  eexists _, _. split; [done|]. split; [constructor; simpl; try done|].
  - rewrite <- app_assoc. rewrite take_app_length'; [done|].
    unfold zlen. lia.
  - simpl. split_and!; try done. rewrite zlen_app, Hz0.
    unfold zlen in *. rewrite length_drop, length_app in *. simpl in *. lia.
Qed.

Section Turns.
Variable alloc : Z → bool.
Variable junk : Z.
Hypothesis head_memory : alloc CHUNK_HEAD_MAX_SIZE = true.

Lemma chunked_update_state_ok m p :
  Readable p → head_block m →
  ∃ m' h', chunked_update_state alloc junk m p = Some (true, m') ∧ announced m' p h' ∧
    zlen h' = CHUNK_HEAD_MAX_SIZE ∧ ck_cont m' = ck_cont m ∧ ck_done m' = ck_done m ∧
    ck_buf m' = ck_buf m ∧ ck_state m' = HTTP_MODULE_CHUNKED_SIZE ∧ ck_state_pos m' = 0.
Proof.
  intros Hr Hb. unfold chunked_update_state, head_block in *. simpl.
  destruct (ck_chunk_head m) as [h|] eqn:Eh.
  - destruct (chunk_head_set_ok (at_state m HTTP_MODULE_CHUNKED_SIZE 0) p h) as (m' & h' & H); try done.
    exists m', h'. exact H.
  - unfold chunk_head_create. rewrite head_memory. set (m1 := Chunked _ _ _ _ _ _ _ _).
    destruct (chunk_head_set_ok m1 p (grow junk [] CHUNK_HEAD_MAX_SIZE)) as (m' & h' & H); try done.
    exists m', h'. exact H.
Qed.

(** Sending the head text, whichever way it was entered. *)
Definition send_head (m : http_module_chunked) (p : bufo) : option turn :=
  head ← ck_chunk_head m;
  r ← append_text m head (ck_chunk_head_size m);
  match r with
  | None => Some (Return false m p)
  | Some (m', true) => Some (Return true m' p)
  | Some (m', false) => Some (Again (at_state m' HTTP_MODULE_CHUNKED_DATA 0) p)
  end.

Lemma send_head_ok C m p h :
  Readable p → buf_data p ≠ None → buf_capacity (ck_buf m) = C →
  ck_done m = false → ck_state m = HTTP_MODULE_CHUNKED_SIZE → unread p ≠ [] →
  announced m p h → zlen h = CHUNK_HEAD_MAX_SIZE → Filling (ck_buf m) →
  0 <= ck_state_pos m < ck_chunk_head_size m →
  (0 < C) →
  ∃ t, send_head m p = Some t ∧ turn_good C m p t.
Proof.
  intros Hr Hpd Hc Hdn Hst Hne [Hb Hsz Htx Hcur] Hl Hf Hpos HC. unfold send_head. rewrite Hb.
  cbn [mbind option_bind]. pose proof (zlen_chunk_head (zlen (unread p))) as Hlen.
  destruct (append_text_ok m h (ck_chunk_head_size m) Hf)
    as (m' & full & out & -> & Em & Hf' & Hc' & Hw & Ho & Hp' & Hfull & Hnf);
    [lia|unfold CHUNK_HEAD_MAX_SIZE in Hl; lia|].
  rewrite Htx in Ho. cbn [mbind option_bind].
  assert (owed m p = out ++ drop (Z.to_nat (ck_state_pos m')) (chunk_head (zlen (unread p)))
                       ++ unread p ++ CRLF ++ tail p) as Hod.
  { unfold owed. rewrite Hst, (app_assoc out), <- Ho. destruct (Z.eqb_spec (ck_state_pos m) 0) as [E|E]; [|done].
    rewrite E, drop_0. unfold fresh, chunk. destruct (unread p); [done|]. by rewrite <- !app_assoc. }
  assert (head_block m') as Hh' by (rewrite Em; unfold head_block; simpl; rewrite Hb; exact Hl).
  assert (ck_cont m' = ck_cont m ∧ ck_done m' = false ∧ ck_state m' = HTTP_MODULE_CHUNKED_SIZE ∧
          ck_chunk_head m' = Some h ∧ ck_chunk_head_size m' = ck_chunk_head_size m ∧
          ck_current_chunk_size m' = ck_current_chunk_size m) as (Hct & Hdn' & Hst' & Hb' & Hs' & Hcu')
    by (rewrite Em; simpl; split_and!; done).
  pose proof (rd_width p Hr) as Hwid. pose proof (zlen_unread p Hr) as Hz. pose proof (rd_pos p Hr).
  destruct full; eexists; (split; [done|]).
  - destruct (Hfull eq_refl) as [Hlt Htop]. split; [done|]. split; [|left; congruence].
    assert (0 < ck_state_pos m' ∨ ck_state_pos m' = 0) as [Hpos'|Hz'] by lia.
    + constructor; auto with cwf.
      * constructor; [done|done|done|congruence|]. unfold state_ok. rewrite Hst'. split; [done|]. right.
        split; [lia|]. split; [done|]. split; [congruence|]. split; [congruence|].
        exists h. split; [done|]. congruence.
      * exists out. split; [done|]. rewrite Hod. unfold owed. rewrite Hst'.
        destruct (Z.eqb_spec (ck_state_pos m') 0); [lia|done].
    + constructor; auto with cwf.
      * constructor; [done|done|done|congruence|]. unfold state_ok. rewrite Hst'. split; [done|]. by left.
      * exists out. split; [done|]. rewrite Hod, Hz', drop_0. unfold owed. rewrite Hst', Hz'.
        change (0 =? 0) with true. cbn iota. unfold fresh, chunk.
        destruct (unread p); [done|]. by rewrite <- !app_assoc.
  - specialize (Hnf eq_refl). split; [|split; [done|unfold rank; rewrite Hst; simpl; lia]].
    constructor; auto with cwf.
    + constructor; [done|done|done|simpl; congruence|]. unfold state_ok. simpl.
      split; [done|]. split; [lia|]. split; [done|]. pose proof (rd_size p Hr). split; lia.
    + exists out. split; [done|]. rewrite Hod, Hnf, Hsz. unfold zlen. rewrite Nat2Z.id, drop_all. done.
Qed.

Lemma turn_size_ok C m p :
  0 < C → CInv C m p → Filling (ck_buf m) → ck_state m = HTTP_MODULE_CHUNKED_SIZE →
  ∃ t, turn_size alloc junk m p = Some t ∧ turn_good C m p t.
Proof.
  intros HC Hi Hf Hst. pose proof Hi as [Hh Hr Hpd Hc Hs]. unfold state_ok in Hs. rewrite Hst in Hs.
  destruct Hs as [Hdn Hs]. unfold turn_size, bufo_size. pose proof (rd_pos p Hr) as Hp.
  pose proof (zlen_chunk_head (zlen (unread p))) as Hlen.
  destruct (Z.eqb_spec (ck_state_pos m) 0) as [Hz|Hz].
  - destruct (Z.ltb_spec (buf_size p) (buf_pos p)); [lia|].
    destruct (Z.eqb_spec (buf_pos p) (buf_size p)) as [He|He].
    + apply (unread_nil p Hr) in He. destruct (buf_is_last p) eqn:El; simpl; eexists; (split; [done|]).
      * split; [|split; [done|unfold rank; rewrite Hst; simpl; lia]]. constructor; auto with cwf.
        -- constructor; [done|done|done|done|]. unfold state_ok. simpl. rewrite Hz. split; [lia|done].
        -- exists []. rewrite app_nil_r. split; [done|]. unfold owed. rewrite Hst, Hz. simpl.
           unfold fresh, tail. rewrite He, El, Hdn. done.
      * split; [done|]. split.
        -- constructor; auto with cwf. exists []. rewrite app_nil_r. done.
        -- right. unfold owed. rewrite Hst, Hz. simpl. unfold fresh, tail. by rewrite He, El.
    + assert (unread p ≠ []) as Hne by (rewrite (unread_nil p Hr); done).
      destruct (chunked_update_state_ok m p Hr Hh)
        as (m' & h' & -> & Ha & Hl & H1 & H2 & H3 & H4 & H5). cbn [mbind option_bind].
      destruct (send_head_ok C m' p h') as (t & Et & Hgood); try done; try congruence.
      { rewrite (an_size _ _ _ Ha). lia. }
      exists t. split; [exact Et|].
      assert (owed m p = owed m' p) as Ho by (unfold owed; by rewrite Hst, H4, Hz, H5).
      destruct t as [m2 p2|ok m2 p2]; destruct Hgood as [Hmv Hgood]; simpl.
      * destruct Hgood as [? Hrk]. unfold rank in Hrk |- *. rewrite Hst. rewrite H4 in Hrk.
        split; [|done]. destruct Hmv as [? ? [out [Hw Hod]] ? ?].
        constructor; auto; [|congruence]. exists out. rewrite Ho, <- H3. done.
      * destruct Hgood as [Hmv' ?]. split; [done|]. split; [|done].
        destruct Hmv' as [? ? [out [Hw Hod]] ? ?]. constructor; auto; [|congruence].
        exists out. rewrite Ho, <- H3. done.
  - destruct Hs as [?|(Hpos & Hne & Hsz & Hcur & h & Hb & Htx)]; [done|].
    destruct (send_head_ok C m p h) as (t & Et & Hgood); try done; try lia.
    { unfold head_block in Hh. by rewrite Hb in Hh. }
    exists t. split; [exact Et|done].
Qed.
End Turns.

(** ** One fill of the buffer *)

Lemma moved_trans C m1 p1 m2 p2 m3 p3 :
  moved C m1 p1 m2 p2 → moved C m2 p2 m3 p3 → moved C m1 p1 m3 p3.
Proof.
  intros [_ _ (o1 & Hw1 & Ho1) Hs1 Hc1] [Hi Hf (o2 & Hw2 & Ho2) Hs2 Hc2].
  constructor; [done|done| |eauto with cwf|congruence].
  exists (o1 ++ o2). rewrite Hw2, Hw1, Ho1, Ho2, !app_assoc. done.
Qed.

(** The filter's own buffer, between two fills. *)
Record OwnBuf (C : Z) (b : bufo) : Prop := {
  ob_inv : Inv b;
  ob_block : buf_data b ≠ None;
  ob_capacity : buf_capacity b = C;
  ob_read : Readable b }.

Lemma owed_nonempty C m p :
  CInv C m p → ck_done m = false → unread p ≠ [] ∨ buf_is_last p = true → owed m p ≠ [].
Proof.
  intros [_ _ _ _ Hs] Hd Hp Ho. unfold owed, state_ok in *. destruct (ck_state m).
  - destruct (Z.eqb_spec (ck_state_pos m) 0).
    + unfold fresh, tail, chunk in Ho. destruct Hp as [Hp|Hp].
      * destruct (unread p); [done|]. apply app_nil in Ho as [Ho _]. apply app_nil in Ho as [Ho _].
        pose proof (zlen_chunk_head (zlen (z :: l))) as Hz. rewrite Ho in Hz. change (zlen []) with 0 in Hz. lia.
      * rewrite Hp in Ho. apply app_nil in Ho as [_ Ho]. done.
    + apply app_nil in Ho as [_ Ho]. apply app_nil in Ho as [_ Ho]. done.
  - apply app_nil in Ho as [_ Ho]. done.
  - destruct Hs as [_ Hs]. apply app_nil in Ho as [Ho _].
    assert (ck_state_pos m = 0 ∨ ck_state_pos m = 1) as [E|E] by lia; by rewrite E in Ho.
  - rewrite Hd in Ho. apply (f_equal zlen) in Ho. rewrite zlen_drop in Ho.
    change (zlen LAST_CHUNK) with 5 in Ho. change (zlen []) with 0 in Ho. lia.
Qed.

Lemma owed_bound C m p :
  CInv C m p → zlen (owed m p) <= buf_size p - buf_pos p + 27.
Proof.
  intros [_ Hr _ _ Hs]. pose proof (zlen_unread p Hr) as Hz. pose proof (rd_pos p Hr).
  pose proof (zlen_chunk_head (zlen (unread p))) as Hh.
  assert (zlen (tail p) <= 5) as Ht by (unfold tail; by destruct (buf_is_last p)).
  assert (zlen (fresh p) <= zlen (unread p) + 25) as Hf.
  { unfold fresh, chunk. rewrite zlen_app. destruct (unread p); [change (zlen []) with 0; lia|].
    rewrite !zlen_app. change (zlen CRLF) with 2. lia. }
  unfold owed, state_ok in *. destruct (ck_state m); repeat case_if;
    rewrite ?zlen_app, ?zlen_drop; change (zlen CRLF) with 2; change (zlen LAST_CHUNK) with 5;
    change (zlen []) with 0; lia.
Qed.

Lemma reset_own C b :
  C <= BUFO_MAX_CAPACITY → Filling b → buf_capacity b = C →
  OwnBuf C (bufo_reset_pos b) ∧ unread (bufo_reset_pos b) = written b.
Proof.
  intros HC [[Hd Hs Hp Hw Ho] Hb Ht] Hc. unfold BUFO_MAX_CAPACITY, SIZE_MAX in *. split.
  - constructor; simpl; try done; constructor; simpl; unfold SIZE_MAX; try done; try lia.
  - unfold unread, written. simpl. by rewrite drop_0, Z.sub_0_r, Ht.
Qed.

Section Flush.
Variable alloc : Z → bool.
Variable junk : Z.
Hypothesis head_memory : alloc CHUNK_HEAD_MAX_SIZE = true.
Variable C : Z.
Hypothesis capacity_ok : 0 < C <= BUFO_MAX_CAPACITY.

Lemma chunked_turn_ok m p :
  CInv C m p → Filling (ck_buf m) → ck_done m = false →
  ∃ t, chunked_turn alloc junk m p = Some t ∧ turn_good C m p t.
Proof.
  intros Hi Hf Hd. unfold chunked_turn. destruct (ck_state m) eqn:E.
  - apply turn_size_ok; try done; lia.
  - by apply turn_data_ok.
  - by apply turn_sep_ok.
  - by apply turn_end_ok.
Qed.

Lemma chunked_loop_ok fuel : ∀ m p,
  CInv C m p → Filling (ck_buf m) → ck_done m = false → (rank m p < fuel)%nat →
  ∃ m' p', chunked_loop alloc junk fuel m p = Some (true, m', p') ∧
    moved C m p m' p' ∧ full_or_done C m' p'.
Proof.
  induction fuel as [|f IH]; intros m p Hi Hf Hd Hrk; [lia|]. cbn [chunked_loop].
  destruct (chunked_turn_ok m p Hi Hf Hd) as (t & -> & Hg). cbn [mbind option_bind].
  destruct t as [m1 p1|ok m1 p1]; simpl in Hg.
  - destruct Hg as (Hmv & Hd1 & Hrk1). pose proof Hmv as [Hi1 Hf1 _ _ _].
    destruct (IH m1 p1 Hi1 Hf1 Hd1) as (m' & p' & -> & Hmv' & Hfull); [lia|].
    exists m', p'. split_and!; try done. by eapply moved_trans.
  - destruct Hg as (-> & Hmv & Hfull). by exists m1, p1.
Qed.

Lemma chunked_process_ok m p :
  CInv C m p → OwnBuf C (ck_buf m) → ck_done m = false →
  ∃ m' p', chunked_process alloc junk m p = Some (true, m', p') ∧
    CInv C m' p' ∧ Filling (ck_buf m') ∧ same_block p p' ∧ ck_cont m' = ck_cont m ∧
    owed m p = written (ck_buf m') ++ owed m' p' ∧ full_or_done C m' p'.
Proof.
  intros [H1 H2 H3 H4 H5] [Hi Hb Hc Hr] Hd. unfold chunked_process. set (m0 := with_buf m _).
  destruct (chunked_loop_ok 6 m0 p) as (m' & p' & -> & [Hi' Hf' (out & Hw & Ho) Hs Hct] & Hfull).
  - by constructor.
  - unfold m0. constructor; simpl; try done. pose proof Hi as [? ? ? ? ?].
    constructor; simpl; try done; lia.
  - done.
  - unfold rank. destruct (ck_state m0); [lia|lia| |lia]. destruct (unread p); lia.
  - exists m', p'. split_and!; try done. change (written (ck_buf m0)) with (@nil Z) in Hw.
    cbn [app] in Hw. by rewrite Hw.
Qed.

(** ** The handler *)

Context {S : Type} `{BodySinkLaws S}.

(** Buffered bytes, then bytes not yet framed. *)
Definition total (m : http_module_chunked) (p : bufo) : list Z :=
  (if ck_cont m then unread (ck_buf m) else []) ++ owed m p.

(** [n] more full buffers, or nothing left. *)
Definition aligned (m : http_module_chunked) (p : bufo) (m' : http_module_chunked) (p' : bufo) : Prop :=
  zlen (owed m' p') <= zlen (owed m p) ∧
  (owed m' p' = [] ∨ zlen (owed m' p') mod C = zlen (owed m p) mod C).

(** How the handler may return. *)
Inductive body_result (r : Z) (m' : http_module_chunked) (s s' : S) (p' : bufo) : Prop :=
  | body_finished : r = CWF_DATA_AGAIN → ck_cont m' = false → buf_is_last p' = true →
      owed m' p' = [] → body_result r m' s s' p'
  | body_next : r = CWF_DATA_AGAIN → ck_cont m' = false → ck_done m' = false →
      buf_is_last p' = false → unread p' = [] → body_result r m' s s' p'
  | body_wait : r = CWF_EVENT_AGAIN → ck_cont m' = true →
      (pending s' < pending s ∨ pending s' = 0)%nat → body_result r m' s s' p'
  | body_broken : r = CWF_ERROR → sound s = false → body_result r m' s s' p'.

Record body_post (before : list Z) (m : http_module_chunked) (s : S) (p : bufo)
    (r : Z) (m' : http_module_chunked) (s' : S) (p' : bufo) : Prop := {
  bp_inv : CInv C m' p';
  bp_own : OwnBuf C (ck_buf m');
  bp_same : same_block p p';
  bp_out : ∃ out, emitted s' = emitted s ++ out ∧
    (before = out ++ (if decide (r = CWF_DATA_AGAIN) then [] else unread (ck_buf m')) ++ owed m' p');
  bp_pending : (pending s' <= pending s)%nat;
  bp_sound : sound s = true → sound s' = true;
  bp_aligned : aligned m p m' p';
  bp_result : body_result r m' s s' p' }.

Lemma aligned_trans m p m1 p1 m2 p2 :
  aligned m p m1 p1 → aligned m1 p1 m2 p2 → aligned m p m2 p2.
Proof.
  intros [Hl1 H1] [Hl2 H2]. split; [lia|]. destruct H2 as [?|H2]; [by left|].
  destruct H1 as [H1|H1]; [|right; congruence]. left. apply zlen_0_nil. rewrite H1 in Hl2.
  change (zlen []) with 0 in Hl2. pose proof (zlen_nonneg (owed m2 p2)). lia.
Qed.

(** The state the loop hands to the filter below: buffer full, or nothing left. *)
Lemma prepare_ok (resumed : bool) m p :
  CInv C m p → OwnBuf C (ck_buf m) → (resumed = false → ck_done m = false) →
  ∃ m1 p1,
    (if resumed then Some (true, m, p)
     else '(ok, m, p) ← chunked_process alloc junk m p;
          Some (ok, if ok : bool then with_buf m (bufo_reset_pos (ck_buf m)) else m, p))
      = Some (true, m1, p1) ∧
    CInv C m1 p1 ∧ OwnBuf C (ck_buf m1) ∧ same_block p p1 ∧ aligned m p m1 p1 ∧
    (if resumed then unread (ck_buf m) else []) ++ owed m p = unread (ck_buf m1) ++ owed m1 p1 ∧
    (resumed = false → owed m p ≠ [] → zlen (owed m1 p1) < zlen (owed m p)).
Proof.
  intros Hi Ho Hd. destruct resumed.
  { exists m, p. unfold aligned. split_and!; auto with cwf; try done. }
  destruct (chunked_process_ok m p Hi Ho (Hd eq_refl)) as (m' & p' & -> & Hi' & Hf' & Hs & Hct & How & Hfull).
  cbn [mbind option_bind]. eexists _, p'. split; [done|].
  destruct (reset_own C (ck_buf m')) as [Hown Hun]; [lia|done|apply Hi'|].
  pose proof (zlen_written _ (fl_inv _ Hf')) as Hzw.
  assert (owed (with_buf m' (bufo_reset_pos (ck_buf m'))) p' = owed m' p') as Hsame by done.
  assert (zlen (owed m p) = buf_pos (ck_buf m') + zlen (owed m' p')) as Hlen
    by (rewrite How, zlen_app, Hzw; done).
  pose proof (inv_pos _ (fl_inv _ Hf')) as [Hp0 _].
  split; [destruct Hi'; by constructor|]. split; [done|]. split; [done|]. split; [|split].
  - unfold aligned. rewrite Hsame. split; [lia|]. destruct Hfull as [Hc|]; [|by left]. right.
    rewrite Hlen, Hc. replace (C + zlen (owed m' p')) with (zlen (owed m' p') + 1 * C) by lia.
    rewrite Z.mod_add by lia. done.
  - simpl. rewrite Hsame, Hun. exact How.
  - intros _ Hne. rewrite Hsame. destruct Hfull as [Hc|Hnil]; [lia|]. rewrite Hnil.
    change (zlen []) with 0. destruct (owed m p); [done|]. rewrite zlen_cons.
    pose proof (zlen_nonneg l). lia.
Qed.

Lemma own_next b b' : OwnBuf C b → same_block b b' → Readable b' → OwnBuf C b'.
Proof.
  intros [[H1 H2 H3 H4 H5] Hb Hc Hr] (E1 & E2 & E3 & E4 & E5) Hr'.
  pose proof (rd_pos _ Hr'). constructor; [|congruence|congruence|done].
  constructor; rewrite ?E1, ?E2, ?E3, ?E4; try done; lia.
Qed.

(** Work done before a call adds up with what the call does. *)
Lemma body_post_after before before' o m s p m1 s1 p1 r' m' s' p' :
  emitted s1 = emitted s ++ o → before = o ++ before' → same_block p p1 → aligned m p m1 p1 →
  (pending s1 <= pending s)%nat → (sound s = true → sound s1 = true) →
  body_post before' m1 s1 p1 r' m' s' p' → body_post before m s p r' m' s' p'.
Proof.
  intros Ho Hb Hs Hal Hp Hsd [B1 B2 B3 (out & Bo & Bt) B5 B6 B7 B8]. constructor; try done.
  - eauto with cwf.
  - exists (o ++ out). rewrite Bo, Ho, Hb, Bt, !app_assoc. done.
  - lia.
  - auto.
  - by apply (aligned_trans m p m1 p1).
  - destruct B8 as [? ? ? ?|? ? ? ? ?|? ? ?|? Hf]; [by constructor 1|by constructor 2| |].
    + constructor 3; [done|done|lia].
    + constructor 4; [done|]. destruct (sound s); [|done]. by rewrite Hsd in Hf.
Qed.

Lemma done_at_end m p :
  CInv C m p → ck_done m = true → buf_is_last p = true ∧ owed m p = [].
Proof.
  intros [_ _ _ _ Hst] Hd. unfold state_ok, owed in *. rewrite Hd in *.
  destruct (ck_state m); try (destruct Hst; congruence). by destruct Hst.
Qed.

Lemma chunked_flush_ok fuel : ∀ resumed m s p,
  CInv C m p → OwnBuf C (ck_buf m) → (resumed = false → ck_done m = false) →
  zlen (owed m p) + (if resumed then 1 else 0) < Z.of_nat fuel →
  ∃ r m' s' p', chunked_flush alloc junk fuel resumed m s p = Some (r, (m', s'), p') ∧
    body_post ((if resumed then unread (ck_buf m) else []) ++ owed m p) m s p r m' s' p'.
Proof.
  induction fuel as [|f IH]; intros resumed m s p Hi Hown Hd Hfuel;
    [pose proof (zlen_nonneg (owed m p)); destruct resumed; lia|]. cbn [chunked_flush].
  destruct (prepare_ok resumed m p Hi Hown Hd)
    as (m1 & p1 & -> & Hi1 & Hown1 & Hs1 & Hal & Htot & Hlt). cbn [mbind option_bind negb].
  destruct (next_body_ok s (ck_buf m1)) as (r & s1 & b1 & o & -> & Ho & Hu & Hr1 & Hsb & Hpd & Hsd & Ha);
    [apply Hown1|intros Hn; by destruct (ob_block _ _ Hown1)|]. cbn [mbind option_bind].
  set (m2 := with_cont (with_buf m1 b1) false).
  assert (CInv C m2 p1) as Hi2.
  { destruct Hi1. constructor; try done. simpl. destruct Hsb as (_ & -> & _). done. }
  assert (OwnBuf C (ck_buf m2)) as Hown2 by (by apply (own_next (ck_buf m1))).
  assert (aligned m p m2 p1) as Hal2 by exact Hal.
  assert ((if resumed then unread (ck_buf m) else []) ++ owed m p
          = o ++ unread (ck_buf m2) ++ owed m2 p1) as Htot2.
  { rewrite Htot, Hu, <- app_assoc. done. }
  destruct (Z.eqb_spec r CWF_DATA_AGAIN) as [Hr|Hr].
  - assert (unread b1 = []) as Hnil by (destruct Ha as [? ?| -> _| -> _]; done).
    simpl in Htot2. rewrite Hnil in Htot2. cbn [app] in Htot2.
    assert (∀ (Hdone : ck_done m2 = false), unread p1 ≠ [] ∨ buf_is_last p1 = true →
      ∃ r' m' s' p', chunked_flush alloc junk f false m2 s1 p1 = Some (r', (m', s'), p') ∧
        body_post ((if resumed then unread (ck_buf m) else []) ++ owed m p) m s p r' m' s' p') as Hgo.
    { intros Hdone Hmore. pose proof (owed_nonempty C m2 p1 Hi2 Hdone Hmore) as Hne.
      destruct (IH false m2 s1 p1 Hi2 Hown2) as (r' & m' & s' & p' & Heq & Hpost); [done| |].
      { change (owed m2 p1) with (owed m1 p1). destruct Hal as [Hle _]. destruct resumed; [lia|].
        assert (owed m p ≠ []) as Hne0.
        { intros E. rewrite E in Htot2. symmetry in Htot2. by apply app_nil in Htot2 as [_ ?]. }
        specialize (Hlt eq_refl Hne0). lia. }
      exists r', m', s', p'. split; [exact Heq|].
      by apply (body_post_after _ (owed m2 p1) o m s p m2 s1 p1). }
    assert (∀ r', r' = CWF_DATA_AGAIN → body_result r' m2 s s1 p1 →
      body_post ((if resumed then unread (ck_buf m) else []) ++ owed m p) m s p r' m2 s1 p1) as Hret.
    { intros r' Hr' Hres. constructor; try done. exists o. split; [done|].
      rewrite decide_True by done. exact Htot2. }
    simpl (ck_done m2). destruct (ck_done m1) eqn:Ed.
    + destruct (done_at_end m1 p1 Hi1 Ed). eexists _, _, _, _. split; [done|].
      apply Hret; [done|]. by constructor 1.
    + pose proof (ci_parent _ _ _ Hi1) as Hrd. pose proof (rd_pos _ Hrd).
      destruct (Z.ltb_spec (buf_pos p1) (buf_size p1)) as [Hl|Hl].
      { apply Hgo; [done|]. left. rewrite (unread_nil p1 Hrd). lia. }
      destruct (buf_is_last p1) eqn:El; [apply Hgo; [done|by right]|].
      eexists _, _, _, _. split; [done|]. apply Hret; [done|].
      constructor 2; try done. apply (unread_nil p1 Hrd). lia.
  - assert (∀ m3, owed m3 p1 = owed m2 p1 → ck_buf m3 = ck_buf m2 → CInv C m3 p1 →
      body_result r m3 s s1 p1 →
      body_post ((if resumed then unread (ck_buf m) else []) ++ owed m p) m s p r m3 s1 p1) as Hret.
    { intros m3 E1 E2 Hi3 Hres. constructor; try done.
      - by rewrite E2.
      - exists o. split; [done|]. rewrite decide_False, E1, E2 by done. exact Htot2.
      - unfold aligned. rewrite E1. exact Hal2. }
    destruct Ha as [? ?| -> Hpend| -> Hsnd]; [done| |].
    + simpl. eexists _, _, _, _. split; [done|]. apply Hret; [done|done| |by constructor 3].
      destruct Hi2. by constructor.
    + simpl. eexists _, _, _, _. split; [done|]. apply Hret; [done|done|done|by constructor 4].
Qed.

(** A call that is fresh or resumes one that had to wait. *)
Lemma http_chunked_body_ok m s p :
  CInv C m p → OwnBuf C (ck_buf m) → (ck_cont m = false → ck_done m = false) →
  ∃ r m' s' p', http_chunked_body alloc junk false false (m, s) p = Some (r, (m', s'), p') ∧
    body_post (total m p) m s p r m' s' p'.
Proof.
  intros Hi Hown Hd. cbn [http_chunked_body orb]. pose proof (owed_bound C m p Hi) as Hb.
  pose proof (rd_pos _ (ci_parent _ _ _ Hi)). unfold total. destruct (ck_cont m).
  - apply (chunked_flush_ok (flushes p) true); try done. unfold flushes. lia.
  - set (m0 := with_buf m _).
    destruct (chunked_flush_ok (flushes p) false m0 s p) as (r & m' & s' & p' & E & []).
    + destruct Hi. by constructor.
    + apply (own_next (ck_buf m)); [done|done|]. destruct Hown as [[? ? ? ? ?] ? ? [? ? ?]].
      constructor; simpl; lia.
    + done.
    + change (owed m0 p) with (owed m p). unfold flushes. lia.
    + exists r, m', s', p'. split; [exact E|by constructor].
Qed.

Lemma resume_body_ok events : ∀ m s p,
  CInv C m p → OwnBuf C (ck_buf m) → (ck_cont m = false → ck_done m = false) →
  ∃ r m' s' p', resume (http_chunked_body alloc junk false false) events (m, s) p
      = Some (r, (m', s'), p') ∧
    body_post (total m p) m s p r m' s' p' ∧
    (r = CWF_EVENT_AGAIN → (pending s' < pending s - events ∨ pending s' = 0)%nat).
Proof.
  induction events as [|e IH]; intros m s p Hi Hown Hd; cbn [resume];
    destruct (http_chunked_body_ok m s p Hi Hown Hd) as (r & m1 & s1 & p1 & -> & Hpost);
    cbn [mbind option_bind].
  - exists r, m1, s1, p1. split_and!; try done. intros Hr. destruct Hpost.
    destruct bp_result0; subst; try done; lia.
  - destruct (Z.eqb_spec r CWF_EVENT_AGAIN) as [Hr|Hr].
    2: { exists r, m1, s1, p1. split_and!; try done. }
    pose proof Hpost as [B1 B2 B3 (out & Bo & Bt) B5 B6 B7 B8].
    assert (ck_cont m1 = true ∧ (pending s1 < pending s ∨ pending s1 = 0)%nat) as [Hct Hp]
      by (destruct B8; subst; done).
    destruct (IH m1 s1 p1 B1 B2) as (r' & m' & s' & p' & -> & Hpost' & Hw); [congruence|].
    exists r', m', s', p'. split; [done|]. split.
    + apply (body_post_after _ (total m1 p1) out m s p m1 s1 p1); try done.
      rewrite Bt, decide_False by (by rewrite Hr). unfold total. by rewrite Hct.
    + intros Hr'. destruct (Hw Hr'); lia.
Qed.
End Flush.

(** ** A whole response body *)

(** The filter above offers its buffers one after the other, the next one when the
    handler answers [CWF_DATA_AGAIN]. *)
Fixpoint send_body {S : Type} `{BodySink S} (alloc : Z → bool) (junk : Z) (events : nat)
    (ms : http_module_chunked * S) (ps : list bufo) : option (Z * (http_module_chunked * S)) :=
  match ps with
  | [] => Some (CWF_OK, ms)
  | p :: ps' =>
      '(r, ms', _) ← resume (http_chunked_body alloc junk false false) events ms p;
      if r =? CWF_DATA_AGAIN then send_body alloc junk events ms' ps' else Some (r, ms')
  end.

(** The chunked coding of the pieces of a body. *)
Definition chunked_encoding (pieces : list (list Z)) : list Z :=
  concat (map chunk pieces) ++ LAST_CHUNK.

(** A parent buffer that is not the last one and whose chunk ends one or two bytes
    into a new buffer leaves its trailing CRLF unsent. *)
Definition ends_clear (C : Z) (data : list Z) : bool :=
  let r := zlen (chunk data) mod C in negb ((r =? 1) || (r =? 2)).

Definition parent_ok (last : bool) (p : bufo) : Prop :=
  Readable p ∧ buf_data p ≠ None ∧ buf_is_last p = last.

(** Between two parent buffers. *)
Record Between (C : Z) (m : http_module_chunked) : Prop := {
  bt_head : head_block m;
  bt_own : OwnBuf C (ck_buf m);
  bt_cont : ck_cont m = false;
  bt_done : ck_done m = false;
  bt_state : (ck_state m = HTTP_MODULE_CHUNKED_SIZE ∧ ck_state_pos m = 0) ∨
             (ck_state m = HTTP_MODULE_CHUNKED_SEP ∧ 0 <= ck_state_pos m < 2) }.

Definition carry (m : http_module_chunked) : list Z :=
  match ck_state m with
  | HTTP_MODULE_CHUNKED_SEP => drop (Z.to_nat (ck_state_pos m)) CRLF
  | _ => []
  end.

Lemma between_inv C m last p : Between C m → parent_ok last p → CInv C m p.
Proof.
  intros [Hh Ho _ Hd Hs] (Hr & Hn & _). constructor; try done; [apply Ho|].
  unfold state_ok. destruct Hs as [[-> Hp]|[-> Hp]]; split; auto.
Qed.

Lemma between_owed C m p :
  Between C m → carry m = [] ∨ unread p = [] ∨ buf_is_last p = false → owed m p = carry m ++ fresh p.
Proof.
  intros [_ _ _ _ Hs] Hc. unfold owed, carry in *. destruct Hs as [[Hst Hp]|[Hst Hp]]; rewrite Hst in *.
  - rewrite Hp. done.
  - destruct Hc as [Hc|Hc].
    + apply (f_equal zlen) in Hc. rewrite zlen_drop in Hc. change (zlen CRLF) with 2 in Hc.
      change (zlen []) with 0 in Hc. lia.
    + f_equal. unfold fresh, tail. destruct (buf_is_last p); [|done].
      destruct Hc as [->|]; done.
Qed.

Lemma carry_short C m : Between C m → carry m = [] ∨ zlen (carry m) = 1 ∨ zlen (carry m) = 2.
Proof.
  intros [_ _ _ _ Hs]. unfold carry. destruct Hs as [[-> Hp]|[-> Hp]]; [by left|right].
  rewrite zlen_drop. change (zlen CRLF) with 2. lia.
Qed.

Section Stream.
Variable alloc : Z → bool.
Variable junk : Z.
Hypothesis head_memory : alloc CHUNK_HEAD_MAX_SIZE = true.
Variable C : Z.
Hypothesis capacity_ok : 3 <= C <= BUFO_MAX_CAPACITY.
Context {S : Type} `{BodySinkLaws S}.

(** After a buffer that is not the last: its chunk is out but for the carried CRLF. *)
Lemma send_middle m s p events :
  Between C m → parent_ok false p →
  ∃ r m' s' p' out, resume (http_chunked_body alloc junk false false) events (m, s) p
      = Some (r, (m', s'), p') ∧ emitted s' = emitted s ++ out ∧
    (pending s' <= pending s)%nat ∧ (sound s = true → sound s' = true) ∧
    ((r = CWF_DATA_AGAIN ∧ Between C m' ∧ carry m ++ chunk (unread p) = out ++ carry m' ∧
      (carry m = [] → ends_clear C (unread p) = true → carry m' = [])) ∨
     (∃ rest, carry m ++ chunk (unread p) = out ++ rest ∧
        ((r = CWF_EVENT_AGAIN ∧ (pending s' < pending s - events ∨ pending s' = 0)%nat) ∨
         (r = CWF_ERROR ∧ sound s = false)))).
Proof.
  intros Hb Hp. pose proof Hp as (Hr & Hn & Hl). pose proof (between_inv C m false p Hb Hp) as Hi.
  pose proof Hb as [Hh Hown Hct Hdn Hst].
  destruct (resume_body_ok alloc junk head_memory C ltac:(lia) events m s p)
    as (r & m' & s' & p' & Heq & [B1 B2 B3 (out & Bo & Bt) B5 B6 B7 B8] & Hw); [done|done|done|].
  exists r, m', s', p', out. split; [exact Heq|]. split_and!; try done.
  assert (total m p = carry m ++ chunk (unread p)) as Htot.
  { unfold total. rewrite Hct, (between_owed C m p Hb) by auto. unfold fresh, tail.
    by rewrite Hl, app_nil_r. }
  pose proof B3 as (_ & _ & _ & _ & Hl').
  destruct B8 as [Hr' ? Hlast _|Hr' Hct' Hd' Hl2 Hu'|Hr' ? ?|Hr' ?].
  - congruence.
  - left. rewrite Hr', decide_True in Bt by done. cbn [app] in Bt.
    assert (Between C m' ∧ owed m' p' = carry m') as [Hb' Hoc].
    { destruct B1 as [C1 C2 C3 C4 Cs]. unfold state_ok in Cs.
      unfold owed, carry, fresh, tail. destruct (ck_state m') eqn:Es.
      - destruct Cs as (? & [E|(_ & ? & _)]); [|done]. rewrite E, Hu', Hl2. split; [|done].
        constructor; auto.
      - by destruct Cs as (_ & _ & ? & _).
      - rewrite Hu', Hl2, app_nil_r. split; [|done]. destruct Cs. constructor; auto.
      - destruct Cs. congruence. }
    split; [done|]. split; [done|]. split; [congruence|]. intros Hc Hclear.
    assert (owed m p = chunk (unread p)) as Hop.
    { rewrite (between_owed C m p Hb), Hc by auto. unfold fresh, tail. by rewrite Hl, app_nil_r. }
    destruct B7 as [Hle Hmod]. rewrite Hoc, Hop in *. unfold ends_clear in Hclear.
    destruct (carry_short C m' Hb') as [?|Hz]; [done|]. destruct Hmod as [?|Hmod]; [done|].
    rewrite <- Hmod, Z.mod_small in Hclear by lia. reflect_bools. lia.
  - right. eexists. split; [rewrite <- Htot; exact Bt|]. left. auto.
  - right. eexists. split; [rewrite <- Htot; exact Bt|]. right. auto.
Qed.

Lemma send_body_ok events last : ∀ init m s,
  Between C m → Forall (parent_ok false) init → parent_ok true last →
  unread last = [] ∨ (carry m = [] ∧ Forall (λ p, ends_clear C (unread p) = true) init) →
  (pending s <= events)%nat →
  ∃ r m' s' out rest, send_body alloc junk events (m, s) (init ++ [last]) = Some (r, (m', s')) ∧
    emitted s' = emitted s ++ out ∧
    carry m ++ chunked_encoding (map unread (init ++ [last])) = out ++ rest ∧
    ((r = CWF_OK ∧ rest = []) ∨ (r = CWF_EVENT_AGAIN ∧ pending s' = 0%nat) ∨
     (r = CWF_ERROR ∧ sound s = false)).
Proof.
  induction init as [|p init IH]; intros m s Hb Hinit Hlast Hclear Hev; cbn [app send_body].
  - pose proof Hlast as (Hr & Hn & Hl). pose proof (between_inv C m true last Hb Hlast) as Hi.
    destruct (resume_body_ok alloc junk head_memory C ltac:(lia) events m s last)
      as (r & m' & s' & p' & -> & [B1 B2 B3 (out & Bo & Bt) B5 B6 B7 B8] & Hw);
      [done|apply Hb|intros; apply Hb|]. cbn [mbind option_bind].
    assert (carry m ++ chunked_encoding (map unread [last]) = total m last) as ->.
    { unfold total. rewrite (bt_cont _ _ Hb), (between_owed C m last Hb) by (destruct Hclear as [|[? _]]; auto).
      unfold chunked_encoding, fresh, tail. simpl. by rewrite Hl, app_nil_r. }
    pose proof B3 as (_ & _ & _ & _ & Hl').
    destruct B8 as [Hr' ? _ Hnil|Hr' ? ? Hl2 ?|Hr' ? ?|Hr' ?]; subst r; simpl.
    + rewrite decide_True in Bt by done. rewrite Hnil in Bt.
      eexists _, _, _, out, []. split; [done|]. split; [done|]. split; [exact Bt|]. by left.
    + congruence.
    + eexists _, _, _, out, _. split; [done|]. split; [done|]. split; [exact Bt|]. right; left.
      split; [done|]. destruct (Hw eq_refl); lia.
    + eexists _, _, _, out, _. split; [done|]. split; [done|]. split; [exact Bt|]. right; right. done.
  - apply Forall_cons in Hinit as [Hp Hinit].
    assert (carry m ++ chunked_encoding (map unread (p :: init ++ [last])) =
            (carry m ++ chunk (unread p)) ++ chunked_encoding (map unread (init ++ [last]))) as Henc.
    { unfold chunked_encoding. cbn [map concat]. by rewrite <- !app_assoc. }
    destruct (send_middle m s p events Hb Hp)
      as (r & m1 & s1 & p1 & out & -> & Ho & Hpd & Hsd & [(-> & Hb1 & Hc & Hkeep)|(rest & Hrest & Hr)]);
      cbn [mbind option_bind].
    + change (CWF_DATA_AGAIN =? CWF_DATA_AGAIN) with true. cbn iota.
      destruct (IH m1 s1 Hb1 Hinit Hlast) as (r & m' & s' & out' & rest & -> & Ho' & He & Hres).
      * destruct Hclear as [?|[Hc0 Hf]]; [by left|right]. apply Forall_cons in Hf as [Hf1 Hf2]. auto.
      * lia.
      * exists r, m', s', (out ++ out'), rest. split; [done|]. split; [by rewrite Ho', Ho, app_assoc|].
        split; [by rewrite Henc, Hc, <- !app_assoc, He|].
        destruct Hres as [?|[?|[? Hf]]]; [by left|by right; left|right; right].
        split; [done|]. destruct (sound s); [|done]. by rewrite Hsd in Hf.
    + assert (r ≠ CWF_DATA_AGAIN) as Hnr by (destruct Hr as [[-> _]|[-> _]]; done).
      destruct (Z.eqb_spec r CWF_DATA_AGAIN); [done|].
      eexists r, m1, s1, out, _. split; [done|]. split; [done|].
      split; [by rewrite Henc, Hrest, <- app_assoc|]. right.
      destruct Hr as [[-> Hr]|[-> Hr]]; [left; split; [done|]; lia|by right].
Qed.
End Stream.

(** ** Properties *)

(** The filter as [http_chunked_reset] and the header handler's [bufo_alloc] leave it. *)
Definition ready (m : http_module_chunked) : Prop :=
  head_block m ∧ OwnBuf BUF_SIZE (ck_buf m) ∧ ck_cont m = false ∧ ck_done m = false ∧
  ck_state m = HTTP_MODULE_CHUNKED_SIZE ∧ ck_state_pos m = 0.

Lemma ready_between m : ready m → Between BUF_SIZE m ∧ carry m = [].
Proof.
  intros (H1 & H2 & H3 & H4 & H5 & H6). unfold carry. rewrite H5. split; [|done].
  constructor; auto.
Qed.


Definition ready_module : http_module_chunked :=
  Chunked false false (Bufo (Some (replicate (Z.to_nat BUF_SIZE) 0)) BUF_SIZE 0 0 false false)
    HTTP_MODULE_CHUNKED_SIZE 0 None 0 0.

Definition piece (d : list Z) (last : bool) : bufo := Bufo (Some d) (zlen d) (zlen d) 0 true last.

Lemma empty_block_own blk :
  zlen blk = BUF_SIZE → OwnBuf BUF_SIZE (Bufo (Some blk) BUF_SIZE 0 0 false false).
Proof.
  intros Hz. unfold BUF_SIZE in *.
  constructor; [constructor|done|done|constructor]; simpl; unfold SIZE_MAX; try lia; done.
Qed.

Lemma ready_module_ok : ready ready_module.
Proof.
  split; [exact I|]. split; [|done]. apply empty_block_own. rewrite zlen_replicate.
  unfold BUF_SIZE. lia.
Qed.

Lemma piece_ok d last : zlen d <= BUF_SIZE → parent_ok last (piece d last).
Proof.
  intros H. pose proof (zlen_nonneg d). unfold BUF_SIZE in H. split_and!; try done.
  constructor; simpl; unfold SIZE_MAX; lia.
Qed.

Lemma unread_piece d last : unread (piece d last) = d.
Proof. unfold unread, piece. simpl. rewrite drop_0, Z.sub_0_r. apply take_zlen. Qed.


(** the exception is real. When a buffer that is not the last fills the output
    buffer up to its trailing CRLF (16378 bytes of data behind a 6-byte head), the
    filter returns with the CRLF unsent; offered the last buffer, it sends the CRLF,
    sees [is_last] and writes the last-chunk: the last buffer's bytes are dropped and
    the body is reported complete. *)
Theorem chunked_last_buffer_dropped :
  let d := replicate (Z.to_nat 16378) 65 in
  ∃ m' s', send_body (λ _, true) 0 0 (ready_module, Socket [Sent 99999; Sent 99999] [] false)
             [piece d false; piece (bs "tail") true] = Some (CWF_OK, (m', s')) ∧
    sent s' = chunked_encoding [d] ∧ ck_done m' = true.
Proof.
  intros d.
  assert (match send_body (λ _, true) 0 0 (ready_module, Socket [Sent 99999; Sent 99999] [] false)
            [piece d false; piece (bs "tail") true] with
          | Some (r, (m', s')) =>
              (r =? CWF_OK) && bool_decide (sent s' = chunked_encoding [d]) && ck_done m'
          | None => false end = true) as Hc by (vm_compute; reflexivity).
  destruct (send_body _ _ _ _ _) as [[r [m' s']]|]; [|done].
  reflect_bools. subst r. exists m', s'. split_and!; try done.
  by apply bool_decide_eq_true in H1.
Qed.
