(* ===== verification/TeParser.v ===== *)
(** The HTTP client's parser of a chunked response body ([httpteparser.c]).

    The parser runs once per block of bytes the socket delivered and keeps its state
    in between. It is written against [TokenBuffer]; the response's payload file is
    the list of its bytes. zlib and the outcome of [pwrite] are parameters. *)

From S2P Require Import Prelude Bufferdata TokenBuffer Bufo WriteFilter ChunkedFilter.

Inductive te_stage : Set :=
  | HTTP1TEPARSER_CHUNKSIZE
  | HTTP1TEPARSER_CHUNKSIZE_NEWLINE
  | HTTP1TEPARSER_CHUNKSIZE_EXT
  | HTTP1TEPARSER_CHUNK
  | HTTP1TEPARSER_CHUNK_NEWLINE
  | HTTP1TEPARSER_TRAILER
  | HTTP1TEPARSER_TRAILER_NEWLINE
  | HTTP1TEPARSER_TRAILER_FINAL_NEWLINE.

#[export] Instance te_stage_eq_dec : EqDecision te_stage.
Proof. solve_decision. Defined.

Inductive te_status : Set :=
  | HTTP1TEPARSER_ERROR
  | HTTP1TEPARSER_CONTINUE
  | HTTP1TEPARSER_COMPLETE.

Definition INT_MAX : Z := 2147483647.

Definition hextable : list Z :=
  [-1; -1; -1; -1; -1; -1; -1; -1; -1; -1; -1; -1; -1; -1; -1; -1; -1; -1; -1; -1; -1; -1; -1;
   -1; -1; -1; -1; -1; -1; -1; -1; -1; -1; -1; -1; -1; -1; -1; -1; -1; -1; -1; -1; -1; -1; -1;
   -1; -1; 0; 1; 2; 3; 4; 5; 6; 7; 8; 9; -1; -1; -1; -1; -1; -1; -1; 10; 11; 12; 13; 14; 15; -1;
   -1; -1; -1; -1; -1; -1; -1; -1; -1; -1; -1; -1; -1; -1; -1; -1; -1; -1; -1; -1; -1; -1; -1;
   -1; -1; 10; 11; 12; 13; 14; 15; -1; -1; -1; -1; -1; -1; -1; -1; -1; -1; -1; -1; -1; -1; -1;
   -1; -1; -1; -1; -1; -1; -1; -1; -1; -1; -1; -1; -1; -1; -1; -1; -1; -1; -1; -1; -1; -1; -1;
   -1; -1; -1; -1; -1; -1; -1; -1; -1; -1; -1; -1; -1; -1; -1; -1; -1; -1; -1; -1; -1; -1; -1;
   -1; -1; -1; -1; -1; -1; -1; -1; -1; -1; -1; -1; -1; -1; -1; -1; -1; -1; -1; -1; -1; -1; -1;
   -1; -1; -1; -1; -1; -1; -1; -1; -1; -1; -1; -1; -1; -1; -1; -1; -1; -1; -1; -1; -1; -1; -1;
   -1; -1; -1; -1; -1; -1; -1; -1; -1; -1; -1; -1; -1; -1; -1; -1; -1; -1; -1; -1; -1; -1; -1;
   -1; -1; -1; -1; -1; -1; -1; -1; -1; -1; -1; -1; -1; -1; -1; -1; -1; -1; -1; -1; -1; -1; -1].

(** [for (pos = 0; pos < size && ret >= 0; pos++)], over the bytes from [pos] on. *)
Fixpoint hex_loop (ret : Z) (data : list Z) : option Z :=
  match data with
  | [] => Some ret
  | hex :: data' =>
      if ret <? 0 then Some ret
      else
        v ← mem_get hextable hex;
        let ret := Z.lor (Z.shiftl ret 4) v in
        if INT_MAX <? ret then Some (-1) else hex_loop ret data'
  end.

Definition hex_to_dec (data : list Z) : option Z := hex_loop 0 data.

(** zlib, as [misc/gzip.c] calls it: [None] of an operation is its failure. *)
Record zlib (G : Type) : Type := Zlib {
  gzip_inflate_init : G → list Z → option G;
  gzip_inflate : G → Z → list Z * G;
  gzip_inflate_has_error : G → bool;
  gzip_want_continue : G → bool;
  gzip_is_end : G → bool;
  gzip_inflate_free : G → option G }.
#[global] Arguments gzip_inflate_init {G}.
#[global] Arguments gzip_inflate {G}.
#[global] Arguments gzip_inflate_has_error {G}.
#[global] Arguments gzip_want_continue {G}.
#[global] Arguments gzip_is_end {G}.
#[global] Arguments gzip_inflate_free {G}.

Definition GZIP_BUFFER : Z := 16384.

Record te_parser (T G : Type) : Type := TeParser {
  te_stage_ : te_stage;
  te_buf : T;
  te_bytes_readed : Z;
  te_pos : Z;
  te_chunk_size : Z;
  te_chunk_size_readed : Z;
  te_gzip : G;
  te_payload : list Z }.
#[global] Arguments TeParser {T G}.
#[global] Arguments te_stage_ {T G}.
#[global] Arguments te_buf {T G}.
#[global] Arguments te_bytes_readed {T G}.
#[global] Arguments te_pos {T G}.
#[global] Arguments te_chunk_size {T G}.
#[global] Arguments te_chunk_size_readed {T G}.
#[global] Arguments te_gzip {T G}.
#[global] Arguments te_payload {T G}.

Section Parser.
Context {T G : Type} `{TokenBuffer T}.
Variable a : allocator.
Variable z : zlib G.
(** [response->content_encoding == CE_GZIP]. *)
Variable content_gzip : bool.
Variable pwrite_ok : list Z → bool.

Abbreviation parser := (te_parser T G).

Definition te_set (p : parser) (st : te_stage) (b : T) : parser :=
  TeParser st b (te_bytes_readed p) (te_pos p) (te_chunk_size p) (te_chunk_size_readed p)
    (te_gzip p) (te_payload p).

Definition te_at (p : parser) (pos : Z) : parser :=
  TeParser (te_stage_ p) (te_buf p) (te_bytes_readed p) pos (te_chunk_size p)
    (te_chunk_size_readed p) (te_gzip p) (te_payload p).

Definition te_store (p : parser) (g : G) (payload : list Z) : parser :=
  TeParser (te_stage_ p) (te_buf p) (te_bytes_readed p) (te_pos p) (te_chunk_size p)
    (te_chunk_size_readed p) g payload.

(** What a stage does with a byte: stop, or go on with the loop. *)
Inductive te_step : Type :=
  | TeReturn (st : te_status) (p : parser)
  | TeGo (p : parser).

Definition set_chunk_size (p : parser) : option (bool * parser) :=
  '(s, b) ← tb_get a (te_buf p);
  string ← s;
  result ← hex_to_dec string;
  let p := te_set p (te_stage_ p) b in
  if result =? -1 then Some (false, p)
  else Some (true, TeParser (te_stage_ p) b (te_bytes_readed p) (te_pos p) result 0
                     (te_gzip p) (te_payload p)).

(** [do ... while (gzip_want_continue(gzip))]; [None] when [fuel] turns are not enough. *)
Fixpoint inflate_loop (fuel : nat) (g : G) (payload : list Z) : option (bool * G * list Z) :=
  match fuel with
  | O => None
  | S f =>
      let '(data, g) := gzip_inflate z g GZIP_BUFFER in
      if gzip_inflate_has_error z g then Some (false, g, payload)
      else if negb (zlen data =? 0) && negb (pwrite_ok data) then Some (false, g, payload)
      else
        let payload := payload ++ data in
        if gzip_want_continue z g then inflate_loop f g payload else Some (true, g, payload)
  end.

Definition te_advance (p : parser) (n : Z) : parser :=
  TeParser (te_stage_ p) (te_buf p) (te_bytes_readed p) (te_pos p + n) (te_chunk_size p)
    (te_chunk_size_readed p + n) (te_gzip p) (te_payload p).

(** [inflations] bounds the turns of the inflate loop for one block. *)
Definition read_chunk (inflations : nat) (p : parser) (buffer : list Z) : option (bool * parser) :=
  let rest := wrap64 (te_chunk_size p - te_chunk_size_readed p) in
  let here := wrap64 (te_bytes_readed p - te_pos p) in
  let temp_chunk_size := if here <? rest then here else rest in
  if temp_chunk_size =? 0 then Some (true, p)
  else
    data ← mem_read buffer (te_pos p) temp_chunk_size;
    if content_gzip then
      match gzip_inflate_init z (te_gzip p) data with
      | None => Some (false, p)
      | Some g =>
          '(ok, g, payload) ← inflate_loop inflations g (te_payload p);
          if negb ok then Some (false, te_store p g payload)
          else if gzip_is_end z g then
            match gzip_inflate_free z g with
            | None => Some (false, te_store p g payload)
            | Some g => Some (true, te_advance (te_store p g payload) temp_chunk_size)
            end
          else Some (true, te_advance (te_store p g payload) temp_chunk_size)
      end
    else if pwrite_ok data then
      Some (true, te_advance (te_store p (te_gzip p) (te_payload p ++ data)) temp_chunk_size)
    else Some (false, p).

Definition step_chunksize (p : parser) (ch : Z) : option te_step :=
  if ch =? chr_CR then
    if 8 <? tb_writed (te_buf p) then Some (TeReturn HTTP1TEPARSER_ERROR p)
    else
      '(_, b) ← tb_complete a (te_buf p);
      '(ok, p) ← set_chunk_size (te_set p HTTP1TEPARSER_CHUNKSIZE_NEWLINE b);
      if negb ok then Some (TeReturn HTTP1TEPARSER_ERROR p)
      else b ← tb_reset (te_buf p); Some (TeGo (te_set p (te_stage_ p) b))
  else if ch =? chr_SEMI then
    '(_, b) ← tb_complete a (te_buf p);
    '(ok, p) ← set_chunk_size (te_set p (te_stage_ p) b);
    if negb ok then Some (TeReturn HTTP1TEPARSER_ERROR p)
    else b ← tb_reset (te_buf p); Some (TeGo (te_set p HTTP1TEPARSER_CHUNKSIZE_EXT b))
  else if 8 <? tb_writed (te_buf p) then Some (TeReturn HTTP1TEPARSER_ERROR p)
  else '(_, b) ← tb_push a (te_buf p) ch; Some (TeGo (te_set p (te_stage_ p) b)).

Definition step_chunk (inflations : nat) (p : parser) (buffer : list Z) : option te_step :=
  '(ok, p) ← read_chunk inflations p buffer;
  if negb ok then Some (TeReturn HTTP1TEPARSER_ERROR p)
  else if (te_chunk_size p <=? te_chunk_size_readed p) && (te_pos p <? te_bytes_readed p) then
    ch ← mem_get buffer (te_pos p);
    if ch =? chr_CR then Some (TeGo (te_set p HTTP1TEPARSER_CHUNK_NEWLINE (te_buf p)))
    else Some (TeGo p)
  else Some (TeGo p).

(** The stages that expect one particular byte. *)
Definition step_expect (p : parser) (ch expected : Z) (next : te_stage) : te_step :=
  if ch =? expected then TeGo (te_set p next (te_buf p)) else TeReturn HTTP1TEPARSER_ERROR p.

Definition step_trailer (p : parser) (ch : Z) : option te_step :=
  if ch =? chr_CR then
    if tb_writed (te_buf p) =? 0
    then Some (TeGo (te_set p HTTP1TEPARSER_TRAILER_FINAL_NEWLINE (te_buf p)))
    else b ← tb_reset (te_buf p); Some (TeGo (te_set p HTTP1TEPARSER_TRAILER_NEWLINE b))
  else if 8192 <? tb_writed (te_buf p) then Some (TeReturn HTTP1TEPARSER_ERROR p)
  else '(_, b) ← tb_push a (te_buf p) ch; Some (TeGo (te_set p (te_stage_ p) b)).

Definition te_stage_step (inflations : nat) (p : parser) (buffer : list Z) (ch : Z) : option te_step :=
  match te_stage_ p with
  | HTTP1TEPARSER_CHUNKSIZE => step_chunksize p ch
  | HTTP1TEPARSER_CHUNKSIZE_NEWLINE =>
      Some (step_expect p ch chr_LF
              (if te_chunk_size p =? 0 then HTTP1TEPARSER_TRAILER else HTTP1TEPARSER_CHUNK))
  | HTTP1TEPARSER_CHUNKSIZE_EXT =>
      Some (TeGo (if ch =? chr_CR then te_set p HTTP1TEPARSER_CHUNKSIZE_NEWLINE (te_buf p) else p))
  | HTTP1TEPARSER_CHUNK => step_chunk inflations p buffer
  | HTTP1TEPARSER_CHUNK_NEWLINE => Some (step_expect p ch chr_LF HTTP1TEPARSER_CHUNKSIZE)
  | HTTP1TEPARSER_TRAILER => step_trailer p ch
  | HTTP1TEPARSER_TRAILER_NEWLINE => Some (step_expect p ch chr_LF HTTP1TEPARSER_TRAILER)
  | HTTP1TEPARSER_TRAILER_FINAL_NEWLINE =>
      Some (TeReturn (if ch =? chr_LF then HTTP1TEPARSER_COMPLETE else HTTP1TEPARSER_ERROR) p)
  end.

(** The [for] loop; every turn moves [pos] forward, so the block's length bounds it. *)
Fixpoint te_loop (fuel inflations : nat) (p : parser) (buffer : list Z)
    : option (te_status * parser) :=
  match fuel with
  | O => None
  | S f =>
      if te_pos p <? te_bytes_readed p then
        ch ← mem_get buffer (te_pos p);
        x ← te_stage_step inflations p buffer ch;
        match x with
        | TeReturn st p => Some (st, p)
        | TeGo p => te_loop f inflations (te_at p (te_pos p + 1)) buffer
        end
      else Some (HTTP1TEPARSER_CONTINUE, p)
  end.

Definition httpteparser_init (g0 : G) (t : T) : option parser :=
  b ← tb_init t; Some (TeParser HTTP1TEPARSER_CHUNKSIZE b 0 0 0 0 g0 []).

(** [httpteparser_set_buffer] and [httpteparser_run]. *)
Definition httpteparser_run (inflations : nat) (p : parser) (buffer : list Z)
    : option (te_status * parser) :=
  let p := TeParser (te_stage_ p) (te_buf p) (zlen buffer) 0 (te_chunk_size p)
             (te_chunk_size_readed p) (te_gzip p) (te_payload p) in
  te_loop (S (length buffer)) inflations p buffer.

(** The client's read loop: block after block while the parser asks for more. *)
Fixpoint te_feed (inflations : nat) (p : parser) (blocks : list (list Z))
    : option (te_status * parser) :=
  match blocks with
  | [] => Some (HTTP1TEPARSER_CONTINUE, p)
  | buffer :: blocks' =>
      '(st, p) ← httpteparser_run inflations p buffer;
      match st with
      | HTTP1TEPARSER_CONTINUE => te_feed inflations p blocks'
      | _ => Some (st, p)
      end
  end.
End Parser.

(** ** The parser as a machine that reads one byte at a time *)

Record te_abs : Set := TeAbs {
  ab_stage : te_stage;
  ab_token : list Z;
  ab_size : Z;
  ab_readed : Z;
  ab_payload : list Z }.

Definition ab_at (s : te_abs) (st : te_stage) (token : list Z) : te_abs :=
  TeAbs st token (ab_size s) (ab_readed s) (ab_payload s).

Definition ab_sized (s : te_abs) (st : te_stage) : te_status + te_abs :=
  match hex_to_dec (ab_token s) with
  | Some r => if r =? -1 then inl HTTP1TEPARSER_ERROR else inr (TeAbs st [] r 0 (ab_payload s))
  | None => inl HTTP1TEPARSER_ERROR
  end.

Definition ab_expect (s : te_abs) (ch expected : Z) (next : te_stage) : te_status + te_abs :=
  if ch =? expected then inr (ab_at s next (ab_token s)) else inl HTTP1TEPARSER_ERROR.

Definition ab_step (s : te_abs) (ch : Z) : te_status + te_abs :=
  match ab_stage s with
  | HTTP1TEPARSER_CHUNKSIZE =>
      if ch =? chr_CR then
        if 8 <? zlen (ab_token s) then inl HTTP1TEPARSER_ERROR
        else ab_sized s HTTP1TEPARSER_CHUNKSIZE_NEWLINE
      else if ch =? chr_SEMI then ab_sized s HTTP1TEPARSER_CHUNKSIZE_EXT
      else if 8 <? zlen (ab_token s) then inl HTTP1TEPARSER_ERROR
      else inr (ab_at s (ab_stage s) (ab_token s ++ [ch]))
  | HTTP1TEPARSER_CHUNKSIZE_NEWLINE =>
      ab_expect s ch chr_LF (if ab_size s =? 0 then HTTP1TEPARSER_TRAILER else HTTP1TEPARSER_CHUNK)
  | HTTP1TEPARSER_CHUNKSIZE_EXT =>
      inr (if ch =? chr_CR then ab_at s HTTP1TEPARSER_CHUNKSIZE_NEWLINE (ab_token s) else s)
  | HTTP1TEPARSER_CHUNK =>
      inr (if ab_readed s <? ab_size s
           then TeAbs HTTP1TEPARSER_CHUNK (ab_token s) (ab_size s) (ab_readed s + 1) (ab_payload s ++ [ch])
           else if ch =? chr_CR then ab_at s HTTP1TEPARSER_CHUNK_NEWLINE (ab_token s) else s)
  | HTTP1TEPARSER_CHUNK_NEWLINE => ab_expect s ch chr_LF HTTP1TEPARSER_CHUNKSIZE
  | HTTP1TEPARSER_TRAILER =>
      if ch =? chr_CR then
        if zlen (ab_token s) =? 0 then inr (ab_at s HTTP1TEPARSER_TRAILER_FINAL_NEWLINE (ab_token s))
        else inr (ab_at s HTTP1TEPARSER_TRAILER_NEWLINE [])
      else if 8192 <? zlen (ab_token s) then inl HTTP1TEPARSER_ERROR
      else inr (ab_at s (ab_stage s) (ab_token s ++ [ch]))
  | HTTP1TEPARSER_TRAILER_NEWLINE => ab_expect s ch chr_LF HTTP1TEPARSER_TRAILER
  | HTTP1TEPARSER_TRAILER_FINAL_NEWLINE =>
      inl (if ch =? chr_LF then HTTP1TEPARSER_COMPLETE else HTTP1TEPARSER_ERROR)
  end.

(** The status and the state the machine stopped in. *)
Fixpoint ab_run (s : te_abs) (bytes : list Z) : te_status * te_abs :=
  match bytes with
  | [] => (HTTP1TEPARSER_CONTINUE, s)
  | ch :: bytes' =>
      match ab_step s ch with
      | inl st => (st, s)
      | inr s' => ab_run s' bytes'
      end
  end.

Definition ab_init : te_abs := TeAbs HTTP1TEPARSER_CHUNKSIZE [] 0 0 [].

Lemma ab_step_stops s ch st : ab_step s ch = inl st → st ≠ HTTP1TEPARSER_CONTINUE.
Proof.
  unfold ab_step, ab_sized, ab_expect.
  destruct (ab_stage s); repeat case_if; try destruct (hex_to_dec (ab_token s)); repeat case_if;
    intros [= <-]; done.
Qed.

Lemma ab_run_app x : ∀ s y,
  ab_run s (x ++ y) =
    (let '(st, s') := ab_run s x in
     match st with HTTP1TEPARSER_CONTINUE => ab_run s' y | _ => (st, s') end).
Proof.
  induction x as [|ch x IH]; intros s y; [done|]. cbn [app ab_run].
  destruct (ab_step s ch) as [st|s'] eqn:E; [|apply IH].
  apply ab_step_stops in E. by destruct st.
Qed.

(** Bytes of a chunk are all payload. *)
Lemma ab_run_data d : ∀ s y,
  ab_stage s = HTTP1TEPARSER_CHUNK → ab_readed s + zlen d <= ab_size s →
  ab_run s (d ++ y) =
    ab_run (TeAbs HTTP1TEPARSER_CHUNK (ab_token s) (ab_size s) (ab_readed s + zlen d)
              (ab_payload s ++ d)) y.
Proof.
  induction d as [|ch d IH]; intros s y Hs Hl.
  - rewrite app_nil_r, Z.add_0_r. cbn [app]. f_equal. destruct s; simpl in *. by subst.
  - rewrite zlen_cons in Hl. pose proof (zlen_nonneg d). cbn [app ab_run]. unfold ab_step. rewrite Hs.
    destruct (Z.ltb_spec (ab_readed s) (ab_size s)); [|lia].
    rewrite IH; simpl; [|done|lia]. rewrite zlen_cons. f_equal. f_equal; [lia|].
    by rewrite <- app_assoc.
Qed.

(** ** Hexadecimal sizes *)

Lemma hextable_byte b : is_byte b → ∃ v, mem_get hextable b = Some v ∧ -1 <= v < 16.
Proof.
  intros Hb.
  assert (match mem_get hextable b with Some v => (-1 <=? v) && (v <? 16) | None => false end = true) as Hv.
  { apply (byte_forall (λ b, match mem_get hextable b with
             Some v => (-1 <=? v) && (v <? 16) | None => false end)); [vm_compute; reflexivity|done]. }
  destruct (mem_get hextable b) as [v|]; [|done]. reflect_bools. exists v. split; [done|lia].
Qed.

Lemma lor_digit r v : 0 <= v < 16 → Z.lor (Z.shiftl r 4) v = 16 * r + v.
Proof.
  intros Hv. assert (Z.land (Z.shiftl r 4) v = 0) as Hl.
  { apply Z.bits_inj'. intros n Hn. rewrite Z.land_spec, Z.bits_0.
    destruct (Z.lt_ge_cases n 4); [by rewrite Z.shiftl_spec_low|].
    apply andb_false_iff. right. destruct (Z.eq_dec v 0) as [->|]; [apply Z.bits_0|].
    apply Z.bits_above_log2; [lia|]. assert (Z.log2 v < 4) by (apply Z.log2_lt_pow2; lia). lia. }
  rewrite <- Z.lxor_lor, <- Z.add_nocarry_lxor, Z.shiftl_mul_pow2 by (done || lia). lia.
Qed.

Lemma hex_loop_total data : ∀ ret,
  Forall is_byte data → -1 <= ret <= INT_MAX → ∃ r, hex_loop ret data = Some r ∧ -1 <= r <= INT_MAX.
Proof.
  unfold INT_MAX. induction data as [|c data IH]; intros ret Hb Hr; cbn [hex_loop]; [by exists ret|].
  apply Forall_cons in Hb as [Hc Hb]. destruct (Z.ltb_spec ret 0); [by exists ret|].
  destruct (hextable_byte c Hc) as (v & -> & Hv). cbn [mbind option_bind]. unfold INT_MAX.
  destruct (Z.ltb_spec 2147483647 (Z.lor (Z.shiftl ret 4) v)); [exists (-1); split; [done|lia]|].
  apply IH; [done|]. destruct (Z.eq_dec v (-1)) as [->|].
  - rewrite Z.lor_m1_r in *. lia.
  - rewrite lor_digit in * by lia. lia.
Qed.

Lemma hex_loop_app x : ∀ ret y r,
  hex_loop ret x = Some r → 0 <= r → hex_loop ret (x ++ y) = hex_loop r y.
Proof.
  induction x as [|c x IH]; intros ret y r Hx Hr; cbn [app hex_loop] in *; [by injection Hx as ->|].
  destruct (Z.ltb_spec ret 0); [injection Hx; lia|].
  destruct (mem_get hextable c) as [v|]; [|done]. cbn [mbind option_bind] in *.
  destruct (INT_MAX <? Z.lor (Z.shiftl ret 4) v); [injection Hx; lia|]. by apply IH.
Qed.

Lemma hex_digit_value d : 0 <= d < 16 → mem_get hextable (hex_digit d) = Some d.
Proof.
  intros Hd. assert (d ∈ seqZ 0 16) as Hin by (apply elem_of_seqZ; lia).
  revert Hd. pattern d. revert d Hin. apply Forall_forall. vm_compute.
  repeat constructor.
Qed.

(** The parser reads back what ["%zx"] printed. *)
Lemma hex_digits_read fuel : ∀ n,
  0 <= n < 16 ^ Z.of_nat fuel → n <= INT_MAX → (0 < fuel)%nat →
  hex_to_dec (hex_digits fuel n) = Some n.
Proof.
  unfold hex_to_dec. induction fuel as [|f IH]; intros n Hn Hmax Hf; [lia|]. cbn [hex_digits].
  destruct (Z.ltb_spec n 16).
  - cbn [hex_loop]. change (0 <? 0) with false. cbn iota. rewrite hex_digit_value by lia.
    cbn [mbind option_bind]. rewrite lor_digit by lia. rewrite Z.mul_0_r, Z.add_0_l.
    destruct (Z.ltb_spec INT_MAX n); [lia|done].
  - pose proof (Z.mod_pos_bound n 16). pose proof (Z.div_mod n 16).
    destruct f as [|f]; [change (16 ^ Z.of_nat 1) with 16 in Hn; lia|].
    rewrite (hex_loop_app _ _ _ (n / 16)).
    + cbn [hex_loop]. destruct (Z.ltb_spec (n / 16) 0); [lia|]. rewrite hex_digit_value by lia.
      cbn [mbind option_bind]. rewrite lor_digit by lia.
      destruct (Z.ltb_spec INT_MAX (16 * (n / 16) + n mod 16)); [lia|]. f_equal. lia.
    + apply IH; [|lia|lia]. rewrite Nat2Z.inj_succ, Z.pow_succ_r in Hn by lia.
      split; [lia|]. apply Z.div_lt_upper_bound; lia.
    + lia.
Qed.

Lemma hex_digits_short fuel : ∀ n k,
  0 <= n < 16 ^ k → 1 <= k → zlen (hex_digits fuel n) <= k.
Proof.
  induction fuel as [|f IH]; intros n k Hn Hk; cbn [hex_digits]; [change (zlen []) with 0; lia|].
  destruct (Z.ltb_spec n 16); [change (zlen [hex_digit n]) with 1; lia|].
  rewrite zlen_app. change (zlen [hex_digit (n mod 16)]) with 1.
  destruct (Z.eq_dec k 1) as [->|]; [change (16 ^ 1) with 16 in Hn; lia|].
  assert (zlen (hex_digits f (n / 16)) <= k - 1); [|lia]. apply IH; [|lia].
  replace k with (Z.succ (k - 1)) in Hn by lia. rewrite Z.pow_succ_r in Hn by lia.
  split; [apply Z.div_pos; lia|]. apply Z.div_lt_upper_bound; lia.
Qed.

(** ** The parser follows the machine *)

Section Simulation.
Context {T G : Type} `{TokenBufferLaws T}.
Variable a : allocator.
Hypothesis memory : plenty_memory a.
Variable z : zlib G.
Variable pwrite_ok : list Z → bool.
Hypothesis disk : ∀ d, pwrite_ok d = true.

Abbreviation parser := (te_parser T G).
Implicit Types (p : parser) (s : te_abs).

Record te_rel (p : parser) (s : te_abs) : Prop := {
  tr_stage : te_stage_ p = ab_stage s;
  tr_inv : tb_inv (te_buf p);
  tr_token : tb_bytes (te_buf p) = ab_token s;
  tr_bytes : Forall is_byte (ab_token s);
  tr_size : te_chunk_size p = ab_size s;
  tr_readed : te_chunk_size_readed p = ab_readed s;
  tr_payload : te_payload p = ab_payload s;
  tr_bounds : 0 <= ab_readed s <= ab_size s ∧ ab_size s <= INT_MAX }.

(** [p] and [p'] are at the same place of the same block. *)
Definition same_place (p p' : parser) : Prop :=
  te_pos p' = te_pos p ∧ te_bytes_readed p' = te_bytes_readed p.

Definition step_sim (p : parser) (x : option (te_step (T:=T) (G:=G))) (y : te_status + te_abs)
    (payload : list Z) : Prop :=
  match y with
  | inl st => ∃ p', x = Some (TeReturn st p') ∧ te_payload p' = payload
  | inr s' => ∃ p', x = Some (TeGo p') ∧ te_rel p' s' ∧ same_place p p'
  end.

Lemma te_rel_at p s st : te_rel p s → te_rel (te_set p st (te_buf p)) (ab_at s st (ab_token s)).
Proof. intros []. by constructor. Qed.

Lemma step_expect_sim p s ch expected next :
  te_rel p s → step_sim p (Some (step_expect p ch expected next)) (ab_expect s ch expected next) (ab_payload s).
Proof.
  intros Hr. unfold step_expect, ab_expect. destruct (ch =? expected); simpl.
  - eexists. split; [done|]. split; [by apply te_rel_at|done].
  - eexists. split; [done|]. apply Hr.
Qed.

Lemma step_token_sim p s ch :
  te_rel p s → is_byte ch →
  step_sim p ('(_, b) ← tb_push a (te_buf p) ch; Some (TeGo (te_set p (te_stage_ p) b)))
    (inr (ab_at s (ab_stage s) (ab_token s ++ [ch]))) (ab_payload s).
Proof.
  intros [] Hc. destruct (tb_push_ok a (te_buf p) ch memory) as (b & -> & Hi & Hb); [done|].
  simpl. eexists. split; [done|]. split; [|done]. constructor; simpl; try done.
  - congruence.
  - apply Forall_app. split; [done|]. by constructor.
Qed.

(** Completing the size line, on CR and on a chunk extension alike. *)
Lemma sized_sim p s st mid (next : parser → te_stage) :
  te_rel p s → (∀ q, te_stage_ q = mid → next q = st) →
  step_sim p
    ('(_, b) ← tb_complete a (te_buf p);
     '(ok, p') ← set_chunk_size a (te_set p mid b);
     if negb ok then Some (TeReturn HTTP1TEPARSER_ERROR p')
     else b ← tb_reset (te_buf p'); Some (TeGo (te_set p' (next p') b)))
    (ab_sized s st) (ab_payload s).
Proof.
  intros [Hst Hi Ht Hb Hs Hrd Hp Hbd] Hnext.
  destruct (tb_complete_ok a (te_buf p) memory Hi) as (b & -> & Hi1 & Hb1).
  cbn [mbind option_bind]. unfold set_chunk_size. cbn [te_set te_buf].
  destruct (tb_get_ok a b memory Hi1) as (b2 & -> & Hi2 & Hb2). cbn [mbind option_bind].
  rewrite Hb1, Ht. unfold ab_sized.
  destruct (hex_loop_total (ab_token s) 0 Hb) as (r & Hhex & Hrange); [unfold INT_MAX; lia|].
  unfold hex_to_dec. rewrite Hhex. cbn [mbind option_bind].
  destruct (Z.eqb_spec r (-1)); cbn [negb].
  - simpl. eexists. split; [done|]. done.
  - cbn [mbind option_bind te_buf]. destruct (tb_reset_ok b2 Hi2) as (b3 & -> & Hi3 & Hb3).
    cbn [mbind option_bind]. simpl. eexists. split; [done|]. split; [|done].
    constructor; simpl; try done; [by apply Hnext|split; lia].
Qed.

Lemma te_stage_step_sim inflations p s buffer ch :
  te_rel p s → is_byte ch → ab_stage s ≠ HTTP1TEPARSER_CHUNK →
  step_sim p (te_stage_step a z false pwrite_ok inflations p buffer ch) (ab_step s ch) (ab_payload s).
Proof.
  intros Hr Hc Hn. pose proof Hr as [Hst Hi Ht Hb Hs Hrd Hp Hbd].
  pose proof (tb_writed_ok (te_buf p) Hi) as Hw. rewrite Ht in Hw.
  assert (∀ st, st = HTTP1TEPARSER_ERROR →
    step_sim p (Some (TeReturn st p)) (inl HTTP1TEPARSER_ERROR) (ab_payload s)) as Herr
    by (intros ? ->; simpl; eexists; done).
  unfold te_stage_step, ab_step. rewrite Hst. destruct (ab_stage s) eqn:Es; try done.
  - unfold step_chunksize. rewrite Hw. repeat case_if; auto.
    + by apply (sized_sim p s _ HTTP1TEPARSER_CHUNKSIZE_NEWLINE (λ q, te_stage_ q)).
    + by apply (sized_sim p s _ (te_stage_ p) (λ _, HTTP1TEPARSER_CHUNKSIZE_EXT)).
    + rewrite <- Es. by apply step_token_sim.
  - rewrite Hs. by apply step_expect_sim.
  - simpl. eexists. split; [done|]. destruct (ch =? 13); [split; [by apply te_rel_at|done]|done].
  - by apply step_expect_sim.
  - unfold step_trailer. rewrite Hw. repeat case_if; auto.
    + simpl. eexists. split; [done|]. split; [by apply te_rel_at|done].
    + destruct (tb_reset_ok (te_buf p) Hi) as (b & -> & Hi1 & Hb1). simpl. eexists. split; [done|].
      split; [|done]. constructor; simpl; try done.
    + rewrite <- Es. by apply step_token_sim.
  - by apply step_expect_sim.
  - simpl. eexists. split; [done|done].
Qed.

(** What is left of the block at [p]. *)
Definition ahead (p : parser) (buffer : list Z) : list Z := drop (Z.to_nat (te_pos p)) buffer.

(** The chunk stage takes the rest of the chunk, and the byte behind it if it is there. *)
Lemma step_chunk_sim inflations p s buffer :
  te_rel p s → ab_stage s = HTTP1TEPARSER_CHUNK →
  te_bytes_readed p = zlen buffer → 0 <= te_pos p < zlen buffer → zlen buffer <= SIZE_MAX →
  ∃ p' s', step_chunk z false pwrite_ok inflations p buffer = Some (TeGo p') ∧ te_rel p' s' ∧
    te_pos p <= te_pos p' ∧ te_bytes_readed p' = zlen buffer ∧
    ab_run s (ahead p buffer) = ab_run s' (ahead (te_at p' (te_pos p' + 1)) buffer).
Proof.
  intros Hr Hs Hbr Hpos Hmax. pose proof Hr as [Hst Hi Ht Hb Hsz Hrd Hpl Hbd].
  unfold step_chunk, read_chunk. unfold INT_MAX, SIZE_MAX in *.
  assert (wrap64 (te_chunk_size p - te_chunk_size_readed p) = ab_size s - ab_readed s) as ->
    by (unfold wrap64; rewrite Z.mod_small; lia).
  assert (wrap64 (te_bytes_readed p - te_pos p) = zlen (ahead p buffer)) as ->.
  { unfold ahead, wrap64. rewrite zlen_drop, Z.mod_small; lia. }
  assert (zlen (ahead p buffer) = zlen buffer - te_pos p) as Hah by (unfold ahead; rewrite zlen_drop; lia).
  set (k := if zlen (ahead p buffer) <? ab_size s - ab_readed s then zlen (ahead p buffer)
            else ab_size s - ab_readed s).
  assert (k = Z.min (zlen (ahead p buffer)) (ab_size s - ab_readed s)) as Hk
    by (unfold k; destruct (Z.ltb_spec (zlen (ahead p buffer)) (ab_size s - ab_readed s)); lia).
  clearbody k.
  set (s1 := TeAbs HTTP1TEPARSER_CHUNK (ab_token s) (ab_size s) (ab_readed s + k)
               (ab_payload s ++ take (Z.to_nat k) (ahead p buffer))).
  assert (∃ p1, (if k =? 0 then Some (true, p)
            else data ← mem_read buffer (te_pos p) k;
                 if pwrite_ok data then
                   Some (true, te_advance (te_store p (te_gzip p) (te_payload p ++ data)) k)
                 else Some (false, p)) = Some (true, p1) ∧ te_rel p1 s1 ∧
            te_pos p1 = te_pos p + k ∧ te_bytes_readed p1 = zlen buffer) as (p1 & -> & Hr1 & Hp1 & Hb1).
  { destruct (Z.eqb_spec k 0) as [E|E].
    - exists p. split; [done|]. split; [|lia]. unfold s1. rewrite E, Z.add_0_r, take_0, app_nil_r.
      constructor; simpl; done || congruence.
    - rewrite mem_read_Some by lia. cbn [mbind option_bind]. rewrite disk. eexists. split; [done|].
      split; [|done]. unfold s1. constructor; simpl; try done; try congruence.
      + by rewrite Hpl.
      + unfold INT_MAX. lia. }
  assert (ab_run s (ahead p buffer) = ab_run s1 (drop (Z.to_nat (te_pos p1)) buffer)) as ->.
  { rewrite <- (take_drop (Z.to_nat k) (ahead p buffer)) at 1. rewrite ab_run_data.
    - unfold s1. rewrite zlen_take, Z.min_l, Z.max_r by lia. f_equal. unfold ahead. rewrite drop_drop, Hp1.
      f_equal. lia.
    - done.
    - rewrite zlen_take. lia. }
  cbn [mbind option_bind negb].
  pose proof Hr1 as [_ _ _ _ Hsz1 Hrd1 _ _]. simpl in Hsz1, Hrd1. rewrite Hsz1, Hrd1, Hb1.
  destruct (Z.ltb_spec (te_pos p1) (zlen buffer)) as [Hlt|Hge].
  - destruct (Z.leb_spec (ab_size s) (ab_readed s + k)); [|lia]. cbn [andb].
    destruct (mem_get_Some buffer (te_pos p1)) as (ch & Hch); [lia|]. rewrite Hch. cbn [mbind option_bind].
    rewrite mem_get_lookup in Hch by lia. rewrite (drop_S _ _ _ Hch). cbn [ab_run].
    unfold ab_step, s1 at 1. cbn [ab_stage]. simpl ab_readed; simpl ab_size.
    destruct (Z.ltb_spec (ab_readed s + k) (ab_size s)); [lia|].
    replace (S (Z.to_nat (te_pos p1))) with (Z.to_nat (te_pos p1 + 1)) by lia.
    destruct (ch =? 13); eexists _, _; (split; [done|]).
    + split; [apply (te_rel_at p1 s1 HTTP1TEPARSER_CHUNK_NEWLINE Hr1)|]. split; [simpl; lia|]. by split.
    + split; [exact Hr1|]. split; [lia|]. by split.
  - rewrite andb_false_r. exists p1, s1. split; [done|]. split; [done|]. split; [lia|]. split; [done|].
    unfold ahead. simpl. rewrite !drop_ge; [done| |]; unfold zlen in *; lia.
Qed.

Lemma te_loop_sim inflations buffer fuel : ∀ p s,
  te_rel p s → te_bytes_readed p = zlen buffer → 0 <= te_pos p → zlen buffer <= SIZE_MAX →
  Forall is_byte buffer → (length (ahead p buffer) < fuel)%nat →
  ∃ st s' p', ab_run s (ahead p buffer) = (st, s') ∧
    te_loop a z false pwrite_ok fuel inflations p buffer = Some (st, p') ∧
    te_payload p' = ab_payload s' ∧ (st = HTTP1TEPARSER_CONTINUE → te_rel p' s').
Proof.
  induction fuel as [|f IH]; intros p s Hr Hbr Hpos Hmax Hby Hfuel; [lia|]. cbn [te_loop].
  rewrite Hbr. destruct (Z.ltb_spec (te_pos p) (zlen buffer)) as [Hlt|Hge].
  2: { exists HTTP1TEPARSER_CONTINUE, s, p. unfold ahead. rewrite drop_ge by (unfold zlen in *; lia).
       split; [done|]. split; [done|]. split; [apply Hr|done]. }
  destruct (mem_get_Some buffer (te_pos p)) as (ch & Hch); [lia|]. rewrite Hch. cbn [mbind option_bind].
  rewrite mem_get_lookup in Hch by lia.
  assert (is_byte ch) as Hc by (rewrite Forall_lookup in Hby; by eapply Hby).
  assert (∀ q, te_pos p <= te_pos q → (length (ahead (te_at q (te_pos q + 1)) buffer) < f)%nat) as Hless.
  { intros q Hq. unfold ahead in *. simpl. rewrite length_drop in *. unfold zlen in *. lia. }
  assert (∀ q s', te_rel q s' → te_rel (te_at q (te_pos q + 1)) s') as Hat
    by (intros q s' []; by constructor).
  destruct (decide (ab_stage s = HTTP1TEPARSER_CHUNK)) as [Hs|Hs].
  - destruct (step_chunk_sim inflations p s buffer Hr Hs Hbr) as (p' & s' & Hstep & Hr' & Hp' & Hb' & Heq);
      [lia|done|]. unfold te_stage_step. rewrite (tr_stage _ _ Hr), Hs, Hstep. cbn [mbind option_bind].
    rewrite Heq. apply IH; try done; [by apply Hat|simpl; lia|by apply Hless].
  - pose proof (te_stage_step_sim inflations p s buffer ch Hr Hc Hs) as Hsim.
    unfold ahead at 1. rewrite (drop_S _ _ _ Hch). cbn [ab_run].
    destruct (ab_step s ch) as [st|s'] eqn:Est; simpl in Hsim.
    + destruct Hsim as (p' & -> & Hp'). cbn [mbind option_bind].
      exists st, s, p'. split; [done|]. split; [done|]. split; [done|]. by apply ab_step_stops in Est.
    + destruct Hsim as (p' & -> & Hr' & Hpp & Hbb). cbn [mbind option_bind].
      replace (drop (S (Z.to_nat (te_pos p))) buffer) with (ahead (te_at p' (te_pos p' + 1)) buffer)
        by (unfold ahead; simpl; f_equal; lia).
      apply IH; try done; [by apply Hat|simpl; lia|simpl; lia|apply Hless; lia].
Qed.
End Simulation.

Lemma te_feed_sim {T G : Type} `{TokenBufferLaws T} (a : allocator) (z : zlib G)
    (pwrite_ok : list Z → bool) (inflations : nat) blocks :
  plenty_memory a → (∀ d, pwrite_ok d = true) →
  Forall (λ b, Forall is_byte b ∧ zlen b <= SIZE_MAX) blocks →
  ∀ (p : te_parser T G) s, te_rel p s →
  ∃ st s' p', ab_run s (concat blocks) = (st, s') ∧
    te_feed a z false pwrite_ok inflations p blocks = Some (st, p') ∧ te_payload p' = ab_payload s'.
Proof.
  intros Ha Hd Hb. induction Hb as [|b blocks [Hbytes Hlen] _ IH]; intros p s Hr; cbn [te_feed concat].
  - exists HTTP1TEPARSER_CONTINUE, s, p. split; [done|]. split; [done|]. apply Hr.
  - unfold httpteparser_run. set (p0 := TeParser _ _ _ _ _ _ _ _).
    assert (te_rel p0 s) as Hr0 by (destruct Hr; by constructor).
    destruct (te_loop_sim a Ha z pwrite_ok Hd inflations b (S (length b)) p0 s)
      as (st & s' & p' & Hrun & -> & Hp' & Hr'); try done.
    { change (ahead p0 b) with b. lia. }
    cbn [mbind option_bind]. rewrite ab_run_app.
    change (ahead p0 b) with b in Hrun. rewrite Hrun.
    destruct st; [by eexists _, _, _| |by eexists _, _, _]. by apply IH, Hr'.
Qed.

(** ** Decoding *)

(** The state at the start of a size line. *)
Definition line_start (size readed : Z) (payload : list Z) : te_abs :=
  TeAbs HTTP1TEPARSER_CHUNKSIZE [] size readed payload.

Lemma ab_run_size x : ∀ token size readed payload y,
  Forall (λ c, c ≠ chr_CR ∧ c ≠ chr_SEMI) x → zlen token + zlen x <= 9 →
  ab_run (TeAbs HTTP1TEPARSER_CHUNKSIZE token size readed payload) (x ++ y) =
  ab_run (TeAbs HTTP1TEPARSER_CHUNKSIZE (token ++ x) size readed payload) y.
Proof.
  induction x as [|c x IH]; intros token size readed payload y Hx Hl; [by rewrite app_nil_r|].
  apply Forall_cons in Hx as [[Hc Hs] Hx]. rewrite zlen_cons in Hl. pose proof (zlen_nonneg x).
  cbn [app ab_run]. unfold ab_step. cbn [ab_stage ab_token].
  destruct (Z.eqb_spec c 13); [done|]. destruct (Z.eqb_spec c 59); [done|].
  destruct (Z.ltb_spec 8 (zlen token)); [lia|]. unfold ab_at. cbn [ab_size ab_readed ab_payload].
  rewrite IH; [by rewrite <- app_assoc|done|]. rewrite zlen_app. change (zlen [c]) with 1. lia.
Qed.

Lemma hex_digits_plain fuel : ∀ n, 0 <= n → Forall (λ c, c ≠ chr_CR ∧ c ≠ chr_SEMI) (hex_digits fuel n).
Proof.
  assert (∀ d, 0 <= d < 16 → hex_digit d ≠ 13 ∧ hex_digit d ≠ 59) as Hd
    by (intros d ?; unfold hex_digit; destruct (Z.ltb_spec d 10); lia).
  induction fuel as [|f IH]; intros n Hn; cbn [hex_digits]; [constructor|].
  destruct (Z.ltb_spec n 16); [constructor; [apply Hd; lia|constructor]|].
  apply Forall_app. split; [apply IH; apply Z.div_pos; lia|].
  constructor; [apply Hd, Z.mod_pos_bound; lia|constructor].
Qed.

(** The size line of [n], whatever was there before. *)
Lemma ab_run_head n size readed payload y :
  0 <= n <= INT_MAX →
  ab_run (line_start size readed payload) (chunk_head n ++ y) =
  ab_run (TeAbs (if n =? 0 then HTTP1TEPARSER_TRAILER else HTTP1TEPARSER_CHUNK) [] n 0 payload) y.
Proof.
  intros Hn. unfold chunk_head, print_zx. rewrite <- app_assoc.
  assert (zlen (hex_digits 16 n) <= 8) as Hlen by (apply hex_digits_short; unfold INT_MAX in Hn; lia).
  unfold line_start. rewrite ab_run_size; [|apply hex_digits_plain; lia|change (zlen []) with 0; lia].
  cbn [app]. unfold CRLF. cbn [app ab_run]. unfold ab_step at 1. cbn [ab_stage ab_token].
  change (13 =? 13) with true. cbn iota. destruct (Z.ltb_spec 8 (zlen (hex_digits 16 n))); [lia|].
  unfold ab_sized. cbn [ab_token].
  rewrite hex_digits_read by (try lia; unfold INT_MAX in Hn; lia).
  destruct (Z.eqb_spec n (-1)); [lia|]. cbn [ab_payload]. unfold ab_step, ab_expect.
  cbn [ab_stage ab_size]. change (10 =? 10) with true. done.
Qed.

Lemma ab_run_chunk d size readed payload y :
  zlen d <= INT_MAX →
  ∃ size' readed', ab_run (line_start size readed payload) (chunk d ++ y) =
    ab_run (line_start size' readed' (payload ++ d)) y.
Proof.
  intros Hd. destruct d as [|c d]; [exists size, readed; by rewrite app_nil_r|].
  set (l := c :: d) in *. assert (0 < zlen l) as Hl
    by (unfold l; rewrite zlen_cons; pose proof (zlen_nonneg d); lia).
  change (chunk l) with (chunk_head (zlen l) ++ l ++ CRLF). clearbody l.
  exists (zlen l), (zlen l). rewrite <- !app_assoc, ab_run_head by lia.
  destruct (Z.eqb_spec (zlen l) 0); [lia|].
  rewrite ab_run_data by (done || (simpl; lia)). simpl ab_token; simpl ab_size; simpl ab_readed; simpl ab_payload.
  unfold CRLF. cbn [app ab_run]. unfold ab_step at 1. cbn [ab_stage ab_readed ab_size].
  rewrite Z.add_0_l, Z.ltb_irrefl. change (13 =? 13) with true. cbn iota. done.
Qed.

Lemma ab_run_encoding pieces : ∀ size readed payload,
  Forall (λ d, zlen d <= INT_MAX) pieces →
  ∃ s, ab_run (line_start size readed payload) (chunked_encoding pieces) = (HTTP1TEPARSER_COMPLETE, s) ∧
    ab_payload s = payload ++ concat pieces.
Proof.
  unfold chunked_encoding.
  induction pieces as [|d pieces IH]; intros size readed payload Hp; cbn [map concat].
  - change ([] ++ LAST_CHUNK) with (chunk_head 0 ++ CRLF).
    rewrite ab_run_head by (unfold INT_MAX; lia). eexists. split; [reflexivity|]. by rewrite app_nil_r.
  - apply Forall_cons in Hp as [Hd Hp]. rewrite <- app_assoc.
    destruct (ab_run_chunk d size readed payload (concat (map chunk pieces) ++ LAST_CHUNK) Hd)
      as (size' & readed' & ->).
    destruct (IH size' readed' (payload ++ d) Hp) as (s & -> & Hs). exists s. split; [done|].
    by rewrite Hs, app_assoc.
Qed.

(** ** Properties *)

(** A parser over [bufferdata_t] at the start of a response body. *)
Definition te_start {G : Type} (b : bufferdata) (g : G) : te_parser bufferdata G :=
  TeParser HTTP1TEPARSER_CHUNKSIZE b 0 0 0 0 g [].

Definition empty_buffer (b : bufferdata) : Prop := Bufferdata.Inv b ∧ contents b = [].

Definition block_ok (b : list Z) : Prop := Forall is_byte b ∧ zlen b <= SIZE_MAX.

Lemma te_start_rel {G : Type} b (g : G) : empty_buffer b → te_rel (te_start b g) ab_init.
Proof.
  intros [Hi Hc]. by constructor.
Qed.

Lemma block_ok_concat blocks :
  Forall block_ok blocks → zlen (concat blocks) <= SIZE_MAX → Forall block_ok [concat blocks].
Proof.
  intros Hb Hl. constructor; [|constructor]. split; [|done]. clear Hl.
  induction Hb as [|b blocks [Hb _] _ IH]; [constructor|]. cbn [concat]. by apply Forall_app.
Qed.

(** on any bytes, cut into blocks in any way, the client's chunked-body parser
    returns (no access outside a block or the hex table, the loop ends) with the
    status and the decoded payload it has when the whole input arrives at once. *)
Theorem te_blocks_irrelevant {G : Type} (a : allocator) (z : zlib G) (pwrite_ok : list Z → bool)
    (inflations : nat) (b : bufferdata) (g : G) (blocks : list (list Z)) :
  plenty_memory a → (∀ d, pwrite_ok d = true) → empty_buffer b →
  Forall block_ok blocks → zlen (concat blocks) <= SIZE_MAX →
  ∃ st p p', te_feed a z false pwrite_ok inflations (te_start b g) blocks = Some (st, p) ∧
    te_feed a z false pwrite_ok inflations (te_start b g) [concat blocks] = Some (st, p') ∧
    te_payload p = te_payload p'.
Proof.
  intros Ha Hd Hb Hbl Hlen. pose proof (te_start_rel b g Hb) as Hr.
  destruct (te_feed_sim a z pwrite_ok inflations blocks Ha Hd Hbl _ _ Hr) as (st & s & p & Hrun & Hf & Hp).
  destruct (te_feed_sim a z pwrite_ok inflations [concat blocks] Ha Hd (block_ok_concat _ Hbl Hlen) _ _ Hr)
    as (st' & s' & p' & Hrun' & Hf' & Hp').
  cbn [concat] in Hrun'. rewrite app_nil_r, Hrun in Hrun'. injection Hrun' as <- <-.
  exists st, p, p'. split; [done|]. split; [done|]. congruence.
Qed.

Definition no_zlib : zlib unit :=
  Zlib unit (λ _ _, None) (λ _ _, ([], tt)) (λ _, true) (λ _, false) (λ _, true) (λ _, None).

Definition plenty_allocator : allocator := Allocator (λ _, true) 0.

Lemma te_blocks_irrelevant_witness :
  ∃ st p p', te_feed plenty_allocator no_zlib false (λ _, true) 1 (te_start zeroed_bufferdata tt)
      [bs "4;e"; CRLF ++ bs "ab"; bs "cd"; CRLF; bs "0"; CRLF ++ CRLF] = Some (st, p) ∧
    te_feed plenty_allocator no_zlib false (λ _, true) 1 (te_start zeroed_bufferdata tt)
      [concat [bs "4;e"; CRLF ++ bs "ab"; bs "cd"; CRLF; bs "0"; CRLF ++ CRLF]] = Some (st, p') ∧
    te_payload p = te_payload p'.
Proof.
  apply (te_blocks_irrelevant plenty_allocator no_zlib (λ _, true) 1 zeroed_bufferdata tt).
  - intros n. reflexivity.
  - intros d. reflexivity.
  - split; [exact zeroed_bufferdata_inv|reflexivity].
  - repeat (constructor; [split; [apply bytesb_sound; reflexivity|vm_compute; discriminate]|]).
    constructor.
  - vm_compute. discriminate.
Defined.

(** server and client agree on the chunked coding. When the chunked filter
    completes a body over a socket, the client's parser, fed the bytes of the wire in
    blocks of any size, completes at the last byte and its payload is the body: the
    filter's buffers in order, nothing added and nothing lost. *)
Theorem chunked_transfer {G : Type} (alloc : Z → bool) (junk : Z) (m : http_module_chunked)
    (s : socket) (init : list bufo) (last : bufo) (events : nat) (m' : http_module_chunked) (s' : socket)
    (a : allocator) (z : zlib G) (pwrite_ok : list Z → bool) (inflations : nat) (b : bufferdata) (g : G)
    (blocks : list (list Z)) :
  alloc CHUNK_HEAD_MAX_SIZE = true → ready m → sent s = [] →
  Forall (parent_ok false) init → parent_ok true last →
  unread last = [] ∨ Forall (λ p, ends_clear BUF_SIZE (unread p) = true) init →
  (length (script s) <= events)%nat →
  Forall (λ p, zlen (unread p) <= INT_MAX) (init ++ [last]) →
  send_body alloc junk events (m, s) (init ++ [last]) = Some (CWF_OK, (m', s')) →
  plenty_memory a → (∀ d, pwrite_ok d = true) → empty_buffer b →
  Forall block_ok blocks → concat blocks = sent s' →
  ∃ p, te_feed a z false pwrite_ok inflations (te_start b g) blocks
         = Some (HTTP1TEPARSER_COMPLETE, p) ∧
    te_payload p = concat (map unread (init ++ [last])).
Proof.
  intros Hal Hm Hs0 Hi Hl Hc Hev Hsz Hsend Ha Hd Hb Hbl Hcat.
  destruct (ready_between m Hm) as [Hbt Hcar].
  destruct (send_body_ok alloc junk Hal BUF_SIZE ltac:(unfold BUF_SIZE, BUFO_MAX_CAPACITY; lia)
              events last init m s) as (r & m1 & s1 & out & rest & Hsb & Ho & He & Hres);
    try done; [destruct Hc; [by left|by right]|].
  rewrite Hsend in Hsb. injection Hsb as <- <- <-. rewrite Hcar in He. cbn [app] in He.
  assert (rest = []) as -> by (destruct Hres as [[_ ?]|[[? _]|[? _]]]; done).
  rewrite app_nil_r in He. change (emitted s') with (sent s') in Ho.
  change (emitted s) with (sent s) in Ho. rewrite Hs0 in Ho. cbn [app] in Ho.
  destruct (te_feed_sim a z pwrite_ok inflations blocks Ha Hd Hbl _ _ (te_start_rel b g Hb))
    as (st & sa & p & Hrun & Hf & Hp).
  destruct (ab_run_encoding (map unread (init ++ [last])) 0 0 []) as (sb & Hdec & Hpay).
  { by apply Forall_fmap. }
  rewrite Hcat, Ho, <- He in Hrun. change (line_start 0 0 []) with ab_init in Hdec.
  rewrite Hdec in Hrun. injection Hrun as <- <-. exists p. split; [done|]. by rewrite Hp, Hpay.
Qed.

Definition hello_pieces : list bufo := [piece (bs "hello") false; piece (bs " world!") true].
Definition hello_socket : socket := Socket [Sent 4; WouldBlock; Sent 99; Sent 99] [] false.
Definition hello_sent : http_module_chunked * socket :=
  match send_body (λ _, true) 0 4 (ready_module, hello_socket) hello_pieces with
  | Some (_, ms) => ms
  | None => (ready_module, hello_socket)
  end.

Lemma chunked_transfer_witness :
  ∃ p, te_feed plenty_allocator no_zlib false (λ _, true) 1 (te_start zeroed_bufferdata tt)
         [bs "5" ++ CRLF ++ bs "hel"; bs "lo" ++ CRLF; bs "7" ++ CRLF ++ bs " world!" ++ CRLF;
          bs "0" ++ CRLF ++ CRLF] = Some (HTTP1TEPARSER_COMPLETE, p) ∧
    te_payload p = concat (map unread hello_pieces).
Proof.
  apply (chunked_transfer (λ _, true) 0 ready_module hello_socket
           [piece (bs "hello") false] (piece (bs " world!") true) 4
           (fst hello_sent) (snd hello_sent) plenty_allocator no_zlib (λ _, true) 1
           zeroed_bufferdata tt).
  - reflexivity.
  - exact ready_module_ok.
  - reflexivity.
  - repeat constructor; try discriminate; vm_compute; discriminate.
  - apply piece_ok. vm_compute. discriminate.
  - right. repeat constructor.
  - simpl. lia.
  - repeat constructor; vm_compute; discriminate.
  - vm_compute. reflexivity.
  - intros n. reflexivity.
  - intros d. reflexivity.
  - split; [exact zeroed_bufferdata_inv|reflexivity].
  - repeat (constructor; [split; [apply bytesb_sound; reflexivity|vm_compute; discriminate]|]).
    constructor.
  - vm_compute. reflexivity.
Defined.
