(* ===== verification/WsParser.v ===== *)
(** The server's WebSocket frame parser ([websocketsparser.c]) with the default
    protocol's payload handler ([websocketsprotocoldefault.c]) and the read loop that
    drives it ([websocketsserverhandlers.c]).

    The connection's read buffer is part of the state: the payload handler unmasks
    it in place, and the parser may look at it again. zlib and the file system calls
    behind the payload file are parameters. [None] is an access outside a block, a
    NULL dereference or a loop that outlives its fuel. *)

From S2P Require Import Prelude Bufferdata TokenBuffer Bufo WsUtf8.

Inductive ws_status : Set :=
  | WSPARSER_ERROR
  | WSPARSER_CONTINUE
  | WSPARSER_BAD_REQUEST
  | WSPARSER_PAYLOAD_LARGE
  | WSPARSER_HANDLE_AND_CONTINUE
  | WSPARSER_COMPLETE.

Definition WSOPCODE_CONTINUE : Z := 0x00.
Definition WSOPCODE_TEXT : Z := 0x01.
Definition WSOPCODE_BINARY : Z := 0x02.
Definition WSOPCODE_CLOSE : Z := 0x08.
Definition WSOPCODE_PING : Z := 0x09.
Definition WSOPCODE_PONG : Z := 0x0A.

Definition WEBSOCKETS_NONE : Z := 0.
Definition WEBSOCKETS_TEXT : Z := 0x81.
Definition WEBSOCKETS_BINARY : Z := 0x82.

Definition WS_DEFLATE_BUFFER_SIZE : Z := 16384.

Inductive ws_stage : Set :=
  | WSPARSER_STAGE_FIRST_BYTE
  | WSPARSER_STAGE_SECOND_BYTE
  | WSPARSER_STAGE_PAYLOAD_LEN_126
  | WSPARSER_STAGE_PAYLOAD_LEN_127
  | WSPARSER_STAGE_MASK_KEY
  | WSPARSER_STAGE_PAYLOAD
  | WSPARSER_STAGE_CONTROL_PAYLOAD.

#[export] Instance ws_stage_eq_dec : EqDecision ws_stage.
Proof. solve_decision. Defined.

Record ws_frame : Set := WsFrame {
  fin : Z;
  rsv1 : Z;
  rsv2 : Z;
  rsv3 : Z;
  opcode : Z;
  masked : Z;
  mask : list Z;
  payload_length : Z }.

Definition websockets_frame_init : ws_frame := WsFrame 0 0 0 0 0 0 [0; 0; 0; 0] 0.

(** The payload file is the list of its bytes. *)
Record ws_request : Set := WsRequest {
  ws_type : Z;
  ws_fragmented : bool;
  ws_compressed : bool;
  ws_payload : list Z }.

Record ws_parser (T D : Type) : Type := WsParser {
  stage : ws_stage;
  frame : ws_frame;
  buf : T;
  bytes_readed : Z;
  pos_start : Z;
  pos : Z;
  payload_index : Z;
  payload_saved_length : Z;
  message_fragmented : bool;
  request : option ws_request;
  ws_deflate : D;
  ws_deflate_enabled : bool;
  compressed_buf : bufo;
  compressed_buffered : Z;
  compressed_consumed : Z;
  decompressed_total : Z;
  utf8_validator : ws_utf8_validator }.
#[global] Arguments WsParser {T D}.
#[global] Arguments stage {T D}.
#[global] Arguments frame {T D}.
#[global] Arguments buf {T D}.
#[global] Arguments bytes_readed {T D}.
#[global] Arguments pos_start {T D}.
#[global] Arguments pos {T D}.
#[global] Arguments payload_index {T D}.
#[global] Arguments payload_saved_length {T D}.
#[global] Arguments message_fragmented {T D}.
#[global] Arguments request {T D}.
#[global] Arguments ws_deflate {T D}.
#[global] Arguments ws_deflate_enabled {T D}.
#[global] Arguments compressed_buf {T D}.
#[global] Arguments compressed_buffered {T D}.
#[global] Arguments compressed_consumed {T D}.
#[global] Arguments decompressed_total {T D}.
#[global] Arguments utf8_validator {T D}.

(** zlib's [inflate] on the given input with room for so many bytes: whether the
    status is acceptable, whether it is Z_STREAM_END, how much input it took and the
    bytes it produced. *)
Record inflater (D : Type) : Type := Inflater {
  inflate : D → list Z → Z → bool * bool * Z * list Z * D;
  reset_inflate : D → D }.
#[global] Arguments inflate {D}.
#[global] Arguments reset_inflate {D}.

(** The configured limit, and whether the payload file takes the bytes
    ([mkstemp], [lseek] and [write]). *)
Record ws_env : Set := WsEnv {
  client_max_body_size : Z;
  store_ok : list Z → bool }.

Definition websocketsparser_is_control_frame (f : ws_frame) : bool :=
  (opcode f =? WSOPCODE_CLOSE) || (opcode f =? WSOPCODE_PING) || (opcode f =? WSOPCODE_PONG).

Section Parser.
Context {T D : Type} `{TokenBuffer T}.
Variable a : allocator.
Variable env : ws_env.
Variable z : inflater D.

Abbreviation parser := (ws_parser T D).
Implicit Type p : parser.

Definition set_stage p (st : ws_stage) : parser :=
  WsParser st (frame p) (buf p) (bytes_readed p) (pos_start p) (pos p) (payload_index p)
    (payload_saved_length p) (message_fragmented p) (request p) (ws_deflate p)
    (ws_deflate_enabled p) (compressed_buf p) (compressed_buffered p) (compressed_consumed p)
    (decompressed_total p) (utf8_validator p).

Definition set_frame p (f : ws_frame) : parser :=
  WsParser (stage p) f (buf p) (bytes_readed p) (pos_start p) (pos p) (payload_index p)
    (payload_saved_length p) (message_fragmented p) (request p) (ws_deflate p)
    (ws_deflate_enabled p) (compressed_buf p) (compressed_buffered p) (compressed_consumed p)
    (decompressed_total p) (utf8_validator p).

Definition set_buf p (b : T) : parser :=
  WsParser (stage p) (frame p) b (bytes_readed p) (pos_start p) (pos p) (payload_index p)
    (payload_saved_length p) (message_fragmented p) (request p) (ws_deflate p)
    (ws_deflate_enabled p) (compressed_buf p) (compressed_buffered p) (compressed_consumed p)
    (decompressed_total p) (utf8_validator p).

Definition set_place p (start here : Z) : parser :=
  WsParser (stage p) (frame p) (buf p) (bytes_readed p) start here (payload_index p)
    (payload_saved_length p) (message_fragmented p) (request p) (ws_deflate p)
    (ws_deflate_enabled p) (compressed_buf p) (compressed_buffered p) (compressed_consumed p)
    (decompressed_total p) (utf8_validator p).

Definition set_progress p (index saved : Z) : parser :=
  WsParser (stage p) (frame p) (buf p) (bytes_readed p) (pos_start p) (pos p) index
    saved (message_fragmented p) (request p) (ws_deflate p)
    (ws_deflate_enabled p) (compressed_buf p) (compressed_buffered p) (compressed_consumed p)
    (decompressed_total p) (utf8_validator p).

Definition set_message p (fragmented : bool) (r : option ws_request) : parser :=
  WsParser (stage p) (frame p) (buf p) (bytes_readed p) (pos_start p) (pos p) (payload_index p)
    (payload_saved_length p) fragmented r (ws_deflate p)
    (ws_deflate_enabled p) (compressed_buf p) (compressed_buffered p) (compressed_consumed p)
    (decompressed_total p) (utf8_validator p).

Definition set_inflation p (d : D) (b : bufo) (buffered consumed total : Z) : parser :=
  WsParser (stage p) (frame p) (buf p) (bytes_readed p) (pos_start p) (pos p) (payload_index p)
    (payload_saved_length p) (message_fragmented p) (request p) d
    (ws_deflate_enabled p) b buffered consumed total (utf8_validator p).

Definition set_validator p (v : ws_utf8_validator) : parser :=
  WsParser (stage p) (frame p) (buf p) (bytes_readed p) (pos_start p) (pos p) (payload_index p)
    (payload_saved_length p) (message_fragmented p) (request p) (ws_deflate p)
    (ws_deflate_enabled p) (compressed_buf p) (compressed_buffered p) (compressed_consumed p)
    (decompressed_total p) v.

Definition websocketsparser_init (t : T) (d : D) : option parser :=
  b ← tb_init t;
  Some (WsParser WSPARSER_STAGE_FIRST_BYTE websockets_frame_init b 0 0 0 0 0 false None d false
          (Bufo None 0 0 0 false false) 0 0 0 (Validator 0 0 0x80 0xBF)).

(** [__clear] frees the request first; the flush drops the pointer either way. The
    UTF-8 validator is not reset here. *)
Definition websocketsparser_flush p : option parser :=
  b ← tb_reset (buf p);
  Some (WsParser WSPARSER_STAGE_FIRST_BYTE websockets_frame_init b 0 0 0 0 0 false None
    (ws_deflate p) (ws_deflate_enabled p) (bufo_flush (compressed_buf p)) 0 0 0 (utf8_validator p)).

(** What [websocketsparser_run] leaves behind: status, parser and read buffer. *)
Definition ws_result : Type := ws_status * parser * list Z.

Definition clear_and_return p (buffer : list Z) (error : ws_status) : option ws_result :=
  p' ← websocketsparser_flush p; Some (error, p', buffer).

Definition frame_end p (buffer : list Z) : ws_result :=
  let has_remaining := pos p + 1 <? bytes_readed p in
  if negb (fin (frame p) =? 0) && negb (message_fragmented p) && negb has_remaining
  then (WSPARSER_COMPLETE, p, buffer)
  else (WSPARSER_HANDLE_AND_CONTINUE, set_place p (pos_start p) (pos p + 1), buffer).

(** ** The header *)

Definition first_char p : option (Z * parser) :=
  '(s, b) ← tb_get a (buf p);
  string ← s;
  c ← mem_get string 0;
  Some (c, set_buf p b).

Definition known_opcode (op : Z) : bool :=
  (op =? WSOPCODE_CONTINUE) || (op =? WSOPCODE_TEXT) || (op =? WSOPCODE_BINARY)
  || (op =? WSOPCODE_CLOSE) || (op =? WSOPCODE_PING) || (op =? WSOPCODE_PONG).

(** A fresh request; memory for it is assumed. *)
Definition websocketsrequest_create : ws_request := WsRequest WEBSOCKETS_NONE false false [].

Definition websocketsparser_parse_first_byte p : option (bool * parser) :=
  '(c, p) ← first_char p;
  let f0 := frame p in
  let f := WsFrame (Z.land (Z.shiftr c 7) 0x01) (Z.land (Z.shiftr c 6) 0x01)
             (Z.land (Z.shiftr c 5) 0x01) (Z.land (Z.shiftr c 4) 0x01) (Z.land c 0x0F)
             (masked f0) (mask f0) (payload_length f0) in
  let p := set_frame p f in
  if negb (known_opcode (opcode f)) then Some (false, p)
  else if negb (rsv2 f =? 0) || negb (rsv3 f =? 0) then Some (false, p)
  else if websocketsparser_is_control_frame f then
    if fin f =? 0 then Some (false, p)
    else if negb (rsv1 f =? 0) then Some (false, p)
    else Some (true, p)
  else if (opcode f =? WSOPCODE_CONTINUE) && negb (message_fragmented p) then Some (false, p)
  else if (opcode f =? WSOPCODE_CONTINUE) && negb (rsv1 f =? 0) then Some (false, p)
  else if negb (opcode f =? WSOPCODE_CONTINUE) && message_fragmented p then Some (false, p)
  else
    let r := match request p with Some r => r | None => websocketsrequest_create end in
    let p := set_message p (message_fragmented p) (Some r) in
    if negb (rsv1 f =? 0) && negb (ws_deflate_enabled p) then Some (false, p)
    else
      let compressed := negb (rsv1 f =? 0) || ws_compressed r in
      let type := if ws_type r =? WEBSOCKETS_NONE then opcode f + 0x80 else ws_type r in
      let fragmented := fin f =? 0 in
      Some (true, set_message p fragmented
                    (Some (WsRequest type fragmented compressed (ws_payload r)))).

Definition websocketsparser_parse_second_byte p : option (bool * parser) :=
  '(c, p) ← first_char p;
  let f := frame p in
  let f := WsFrame (fin f) (rsv1 f) (rsv2 f) (rsv3 f) (opcode f)
             (Z.land (Z.shiftr c 7) 0x01) (mask f) (Z.land c 0x7F) in
  Some (negb (masked f =? 0), set_frame p f).

(** Big-endian, [byte_count] bytes of the collected token. *)
Fixpoint length_loop (value : list Z) (i byte_count : nat) (length : Z) : option Z :=
  match byte_count with
  | O => Some length
  | S n =>
      v ← mem_get value (Z.of_nat i);
      length_loop value (S i) n (Z.lor (wrap64 (Z.shiftl length 8)) v)
  end.

Definition set_length (f : ws_frame) (n : Z) : ws_frame :=
  WsFrame (fin f) (rsv1 f) (rsv2 f) (rsv3 f) (opcode f) (masked f) (mask f) n.

Definition websocketsparser_set_payload_length p (byte_count : nat) : option (bool * parser) :=
  '(s, b) ← tb_get a (buf p);
  value ← s;
  length ← length_loop value 0 byte_count 0;
  Some (true, set_frame (set_buf p b) (set_length (frame p) length)).

Definition websocketsparser_parse_mask p : option (bool * parser) :=
  '(s, b) ← tb_get a (buf p);
  string ← s;
  m ← mem_read string 0 4;
  let f := frame p in
  let f := WsFrame (fin f) (rsv1 f) (rsv2 f) (rsv3 f) (opcode f) (masked f) m (payload_length f) in
  Some (true, set_stage (set_frame (set_buf p b) f)
                (if websocketsparser_is_control_frame f then WSPARSER_STAGE_CONTROL_PAYLOAD
                 else WSPARSER_STAGE_PAYLOAD)).

(** ** The payload *)

(** [data[i] ^ mask[index++ % 4]] for each byte. *)
Fixpoint unmask (m : list Z) (index : Z) (data : list Z) : option (list Z) :=
  match data with
  | [] => Some []
  | c :: data' =>
      k ← mem_get m (index mod 4);
      rest ← unmask m (index + 1) data';
      Some (Z.lxor c k :: rest)
  end.

Definition websocketsparser_text_feed_ok p (r : ws_request) (data : list Z) : bool * parser :=
  if negb (ws_type r =? WEBSOCKETS_TEXT) then (true, p)
  else let '(ok, v) := ws_utf8_validator_feed (utf8_validator p) data in (ok, set_validator p v).

Definition websocketsparser_text_finish_ok p : bool :=
  match request p with
  | None => true
  | Some r =>
      if negb (ws_type r =? WEBSOCKETS_TEXT) then true
      else ws_utf8_validator_finish (utf8_validator p)
  end.

(** The write half of [websockets_protocol_default_payload_parse]: [None] is its 0. *)
Definition payload_store (r : ws_request) (data : list Z) : option ws_request :=
  if zlen data =? 0 then Some r
  else if client_max_body_size env <? zlen (ws_payload r) + zlen data then None
  else if store_ok env data
  then Some (WsRequest (ws_type r) (ws_fragmented r) (ws_compressed r) (ws_payload r ++ data))
  else None.

(** The inflate loop of [websocketsparser_decompress_chunk] over a block with input
    window [consumed, buffered) and its output area behind; 0 is [Some (false, _)]. *)
Fixpoint inflate_loop (fuel : nat) p (r : ws_request) (data : list Z)
    : option (bool * parser * ws_request) :=
  match fuel with
  | O => None
  | S n =>
      let avail := compressed_buffered p - compressed_consumed p in
      if avail =? 0 then Some (true, p, r)
      else
        input ← mem_read data (compressed_consumed p) avail;
        let '(status_ok, stream_end, took, out, d) :=
          inflate z (ws_deflate p) input WS_DEFLATE_BUFFER_SIZE in
        data' ← mem_write data (compressed_buffered p) out;
        let b := compressed_buf p in
        let b := Bufo (Some data') (buf_capacity b) (buf_size b) (buf_pos b) (buf_is_proxy b)
                   (buf_is_last b) in
        let p := set_inflation p d b (compressed_buffered p) (compressed_consumed p)
                   (decompressed_total p) in
        if negb status_ok then Some (false, p, r)
        else
          x ← (if zlen out =? 0 then Some (true, p, r)
               else if client_max_body_size env <? decompressed_total p + zlen out
               then Some (false, p, r)
               else
                 let p := set_inflation p d b (compressed_buffered p) (compressed_consumed p)
                            (decompressed_total p + zlen out) in
                 let '(ok, p) := websocketsparser_text_feed_ok p r out in
                 if negb ok then Some (false, p, r)
                 else match payload_store r out with
                      | None => Some (false, p, r)
                      | Some r' => Some (true, p, r')
                      end);
          let '(ok, p, r) := x in
          if negb ok then Some (false, p, r)
          else
            let p := set_inflation p d b (compressed_buffered p) (compressed_consumed p + took)
                       (decompressed_total p) in
            if stream_end then Some (true, p, r)
            else if took =? 0 then Some (true, p, r)
            else inflate_loop n p r data'
  end.

Definition websocketsparser_decompress_chunk (inflations : nat) p (r : ws_request)
    (data : list Z) (is_final : bool) : option (bool * parser * ws_request) :=
  let size := zlen data in
  let backlog := compressed_buffered p - compressed_consumed p in
  let trailer := if is_final then 4 else 0 in
  '(ok, b) ← bufo_ensure_capacity (a_ok a) (a_junk a) (compressed_buf p)
               (backlog + size + trailer + WS_DEFLATE_BUFFER_SIZE);
  if negb ok then Some (false, p, r)
  else
    blk ← buf_data b;
    blk ← (if 0 <? compressed_consumed p then
             kept ← mem_read blk (compressed_consumed p) backlog; mem_write blk 0 kept
           else Some blk);
    plain ← unmask (mask (frame p)) (payload_index p) data;
    blk ← mem_write blk backlog plain;
    blk ← (if is_final then mem_write blk (backlog + size) [0x00; 0x00; 0xff; 0xff] else Some blk);
    let b := Bufo (Some blk) (buf_capacity b) (buf_size b) (buf_pos b) (buf_is_proxy b) (buf_is_last b) in
    let p := set_progress p (payload_index p + size) (payload_saved_length p) in
    let p := set_inflation p (ws_deflate p) b (backlog + size + trailer) 0 (decompressed_total p) in
    '(ok, p, r) ← inflate_loop inflations p r blk;
    if negb ok then Some (false, p, r)
    else Some (true,
      if is_final then set_inflation p (reset_inflate z (ws_deflate p)) (compressed_buf p)
                         (compressed_buffered p) (compressed_consumed p) (decompressed_total p)
      else p, r).

(** The uncompressed branch: the handler unmasks the read buffer in place, then the
    unmasked bytes are validated. *)
Definition plain_chunk p (r : ws_request) (buffer data : list Z)
    : option (bool * parser * ws_request * list Z) :=
  plain ← unmask (mask (frame p)) (payload_index p) data;
  buffer ← mem_write buffer (pos p) plain;
  let p := set_progress p (payload_index p + zlen data) (payload_saved_length p) in
  match payload_store r plain with
  | None => Some (false, p, r, buffer)
  | Some r =>
      let '(ok, p) := websocketsparser_text_feed_ok p r plain in
      Some (ok, p, r, buffer)
  end.

Definition websocketsparser_parse_payload (inflations : nat) p (buffer : list Z) : option ws_result :=
  r ← request p;
  let available := bytes_readed p - pos p in
  let more := payload_length (frame p) <? available + payload_saved_length p in
  let size := if more then payload_length (frame p) - payload_saved_length p else available in
  if client_max_body_size env <? payload_saved_length p + size
  then clear_and_return p buffer WSPARSER_PAYLOAD_LARGE
  else
    let p := set_progress p (payload_index p) (payload_saved_length p + size) in
    let is_final := payload_saved_length p =? payload_length (frame p) in
    data ← mem_read buffer (pos p) size;
    '(ok, p, r, buffer) ←
      (if ws_compressed r then
         '(ok, p, r) ← websocketsparser_decompress_chunk inflations p r data
                         (is_final && negb (fin (frame p) =? 0));
         Some (ok, p, r, buffer)
       else plain_chunk p r buffer data);
    let p := set_message p (message_fragmented p) (Some r) in
    if negb ok then clear_and_return p buffer WSPARSER_ERROR
    else if more then
      let p := set_place p (pos_start p) (pos p + size) in
      if negb (fin (frame p) =? 0) && negb (websocketsparser_text_finish_ok p)
      then clear_and_return p buffer WSPARSER_ERROR
      else Some (WSPARSER_HANDLE_AND_CONTINUE, p, buffer)
    else if negb is_final then Some (WSPARSER_CONTINUE, p, buffer)
    else if negb (fin (frame p) =? 0) then
      if negb (websocketsparser_text_finish_ok p) then clear_and_return p buffer WSPARSER_ERROR
      else Some (WSPARSER_COMPLETE, p, buffer)
    else Some (WSPARSER_HANDLE_AND_CONTINUE, p, buffer).

(** ** The byte loop *)

(** A byte of the loop: [return], or [break] out of the switch. *)
Inductive ws_step : Type :=
  | Ret (r : ws_result)
  | Go (p : parser) (buffer : list Z).

(** Push the byte, complete the token, run [parse], reset the token. *)
Definition finish_token p (buffer : list Z) (parse : parser → option (bool * parser))
    (next : parser → option ws_step) : option ws_step :=
  '(_, b) ← tb_complete a (buf p);
  '(ok, p) ← parse (set_buf p b);
  if negb ok then r ← clear_and_return p buffer WSPARSER_BAD_REQUEST; Some (Ret r)
  else next p.

Definition reset_token p (buffer : list Z) : option ws_step :=
  b ← tb_reset (buf p); Some (Go (set_buf p b) buffer).

Definition step_first_byte p (buffer : list Z) (ch : Z) : option ws_step :=
  '(_, b) ← tb_push a (buf p) ch;
  finish_token (set_stage (set_buf p b) WSPARSER_STAGE_SECOND_BYTE) buffer
    websocketsparser_parse_first_byte (λ p, reset_token p buffer).

Definition step_second_byte p (buffer : list Z) (ch : Z) : option ws_step :=
  '(_, b) ← tb_push a (buf p) ch;
  finish_token (set_buf p b) buffer websocketsparser_parse_second_byte (λ p,
    let n := payload_length (frame p) in
    reset_token (set_stage p
      (if n =? 126 then WSPARSER_STAGE_PAYLOAD_LEN_126
       else if n =? 127 then WSPARSER_STAGE_PAYLOAD_LEN_127
       else WSPARSER_STAGE_MASK_KEY)) buffer).

Definition step_length (byte_count : nat) p (buffer : list Z) (ch : Z) : option ws_step :=
  if websocketsparser_is_control_frame (frame p) then
    r ← clear_and_return p buffer WSPARSER_BAD_REQUEST; Some (Ret r)
  else
    '(_, b) ← tb_push a (buf p) ch;
    let p := set_buf p b in
    if tb_writed b <? Z.of_nat byte_count then Some (Go p buffer)
    else
      finish_token (set_stage p WSPARSER_STAGE_MASK_KEY) buffer
        (λ p, websocketsparser_set_payload_length p byte_count) (λ p, reset_token p buffer).

Definition step_mask p (buffer : list Z) (ch : Z) : option ws_step :=
  '(_, b) ← tb_push a (buf p) ch;
  let p := set_buf p b in
  if tb_writed b <? 4 then Some (Go p buffer)
  else
    finish_token p buffer websocketsparser_parse_mask (λ p,
      b ← tb_reset (buf p);
      let p := set_buf p b in
      if payload_length (frame p) =? 0 then Some (Ret (frame_end p buffer)) else Some (Go p buffer)).

Definition step_control p (buffer : list Z) (ch : Z) : option ws_step :=
  let saved := payload_saved_length p + 1 in
  k ← mem_get (mask (frame p)) (payload_index p mod 4);
  let p := set_progress p (payload_index p + 1) saved in
  '(_, b) ← tb_push a (buf p) (Z.lxor ch k);
  let p := set_buf p b in
  if saved =? payload_length (frame p) then
    '(_, b) ← tb_complete a (buf p); Some (Ret (frame_end (set_buf p b) buffer))
  else Some (Go p buffer).

Definition ws_step_byte (inflations : nat) p (buffer : list Z) (ch : Z) : option ws_step :=
  match stage p with
  | WSPARSER_STAGE_FIRST_BYTE => step_first_byte p buffer ch
  | WSPARSER_STAGE_SECOND_BYTE => step_second_byte p buffer ch
  | WSPARSER_STAGE_PAYLOAD_LEN_126 => step_length 2 p buffer ch
  | WSPARSER_STAGE_PAYLOAD_LEN_127 => step_length 8 p buffer ch
  | WSPARSER_STAGE_MASK_KEY => step_mask p buffer ch
  | WSPARSER_STAGE_CONTROL_PAYLOAD => step_control p buffer ch
  | WSPARSER_STAGE_PAYLOAD => r ← websocketsparser_parse_payload inflations p buffer; Some (Ret r)
  end.

Fixpoint ws_loop (fuel inflations : nat) p (buffer : list Z) : option ws_result :=
  match fuel with
  | O => None
  | S n =>
      if pos p <? bytes_readed p then
        ch ← mem_get buffer (pos p);
        x ← ws_step_byte inflations p buffer ch;
        match x with
        | Ret r => Some r
        | Go p buffer => ws_loop n inflations (set_place p (pos_start p) (pos p + 1)) buffer
        end
      else Some (WSPARSER_CONTINUE, p, buffer)
  end.

Definition websocketsparser_run (inflations : nat) p (buffer : list Z) : option ws_result :=
  match stage p with
  | WSPARSER_STAGE_PAYLOAD => websocketsparser_parse_payload inflations p buffer
  | _ => ws_loop (S (length buffer)) inflations (set_place p (pos_start p) (pos_start p)) buffer
  end.

Definition websocketsparser_prepare_remains p : option parser :=
  let p :=
    if negb (websocketsparser_is_control_frame (frame p)) && negb (fin (frame p) =? 0) then
      set_validator (set_inflation p (ws_deflate p) (compressed_buf p) 0 0 0)
        (ws_utf8_validator_reset (utf8_validator p))
    else p in
  b ← tb_clear (buf p);
  Some (WsParser WSPARSER_STAGE_FIRST_BYTE websockets_frame_init b (bytes_readed p) (pos p) (pos p) 0 0
          (message_fragmented p) (if message_fragmented p then request p else None)
          (ws_deflate p) (ws_deflate_enabled p) (bufo_flush (compressed_buf p))
          (compressed_buffered p) (compressed_consumed p) (decompressed_total p) (utf8_validator p)).

(** ** The read loop *)

(** What [__handle] makes of a frame: the answer to a control frame, or a message for
    the application. *)
Inductive ws_event : Set :=
  | Close (payload : list Z)
  | Pong (payload : list Z)
  | Message (type : Z) (payload : list Z).

Definition handle p : option (list ws_event * parser) :=
  let op := opcode (frame p) in
  if (op =? WSOPCODE_CLOSE) || (op =? WSOPCODE_PING) then
    '(s, b) ← tb_get a (buf p);
    payload ← s;
    Some ([if op =? WSOPCODE_CLOSE then Close payload else Pong payload], set_buf p b)
  else if op =? WSOPCODE_PONG then Some ([], p)
  else if fin (frame p) =? 0 then Some ([], p)
  else r ← request p; Some ([Message (ws_type r) (ws_payload r)], p).

(** How the read handler leaves the connection after a block of bytes. *)
Inductive ws_verdict : Set :=
  | Wait                  (** read on *)
  | Drop                  (** return 0: the connection is closed *)
  | Fail (code : Z).      (** a close frame with this code, then closed *)

Fixpoint read_loop (fuel inflations : nat) p (buffer : list Z) (log : list ws_event)
    : option (ws_verdict * parser * list ws_event) :=
  match fuel with
  | O => None
  | S n =>
      '(st, p, buffer) ← websocketsparser_run inflations p buffer;
      match st with
      | WSPARSER_ERROR => Some (Drop, p, log)
      | WSPARSER_PAYLOAD_LARGE => Some (Fail 1009, p, log)
      | WSPARSER_BAD_REQUEST => Some (Fail 1002, p, log)
      | WSPARSER_CONTINUE => Some (Wait, p, log)
      | WSPARSER_HANDLE_AND_CONTINUE =>
          '(ev, p) ← handle p;
          p ← websocketsparser_prepare_remains p;
          read_loop n inflations p buffer (log ++ ev)
      | WSPARSER_COMPLETE =>
          '(ev, p) ← handle p;
          p ← websocketsparser_flush p;
          Some (Wait, p, log ++ ev)
      end
  end.

(** One block of bytes from the socket. Every turn but the first consumes at least
    one byte. *)
Definition read_block (inflations : nat) p (buffer : list Z) (log : list ws_event)
    : option (ws_verdict * parser * list ws_event) :=
  let p := WsParser (stage p) (frame p) (buf p) (zlen buffer) 0 0 (payload_index p)
             (payload_saved_length p) (message_fragmented p) (request p) (ws_deflate p)
             (ws_deflate_enabled p) (compressed_buf p) (compressed_buffered p) (compressed_consumed p)
             (decompressed_total p) (utf8_validator p) in
  read_loop (S (S (length buffer))) inflations p buffer log.

Fixpoint read_blocks (inflations : nat) p (blocks : list (list Z)) (log : list ws_event)
    : option (ws_verdict * parser * list ws_event) :=
  match blocks with
  | [] => Some (Wait, p, log)
  | b :: blocks' =>
      '(v, p, log) ← read_block inflations p b log;
      match v with
      | Wait => read_blocks inflations p blocks' log
      | _ => Some (v, p, log)
      end
  end.
End Parser.
#[global] Arguments Ret {T D}.
#[global] Arguments Go {T D}.
