(* ===== verification/WsStream.v ===== *)
(** WebSocket streams of unfragmented frames: what a client sends, and the proof that
    the parser delivers it, however the bytes are cut into blocks. *)

From S2P Require Import Prelude Bufferdata TokenBuffer Bufo WsUtf8 WsParser.

(** ** What a client sends (RFC 6455, section 5.2) *)

Record client_frame : Set := ClientFrame {
  cf_opcode : Z;
  cf_mask : list Z;
  cf_payload : list Z }.

Definition is_control (op : Z) : bool :=
  (op =? WSOPCODE_CLOSE) || (op =? WSOPCODE_PING) || (op =? WSOPCODE_PONG).
Definition is_data (op : Z) : bool := (op =? WSOPCODE_TEXT) || (op =? WSOPCODE_BINARY).

(** [n] as [k] bytes, most significant first. *)
Fixpoint big_endian (k : nat) (n : Z) : list Z :=
  match k with
  | O => []
  | S k' => big_endian k' (n / 256) ++ [n mod 256]
  end.

(** [data[i] ^ mask[(index + i) % 4]]. *)
Fixpoint xor_mask (m : list Z) (index : Z) (data : list Z) : list Z :=
  match data with
  | [] => []
  | c :: data' => Z.lxor c (default 0 (m !! Z.to_nat (index mod 4))) :: xor_mask m (index + 1) data'
  end.

Definition length_bytes (n : Z) : list Z :=
  if n <? 126 then [128 + n]
  else if n <? 65536 then 254 :: big_endian 2 n
  else 255 :: big_endian 8 n.

Definition masked_tail (f : client_frame) : list Z :=
  cf_mask f ++ xor_mask (cf_mask f) 0 (cf_payload f).

(** A final frame. *)
Definition encode_frame (f : client_frame) : list Z :=
  (128 + cf_opcode f) :: length_bytes (zlen (cf_payload f)) ++ masked_tail f.

Definition frame_ok (max : Z) (f : client_frame) : Prop :=
  zlen (cf_mask f) = 4 ∧
  if is_control (cf_opcode f) then zlen (cf_payload f) <= 125
  else is_data (cf_opcode f) = true ∧ zlen (cf_payload f) <= max ∧
       (cf_opcode f = WSOPCODE_TEXT → valid_utf8 (cf_payload f)).

(** What the server makes of it. *)
Definition expected (f : client_frame) : list ws_event :=
  if cf_opcode f =? WSOPCODE_CLOSE then [Close (cf_payload f)]
  else if cf_opcode f =? WSOPCODE_PING then [Pong (cf_payload f)]
  else if cf_opcode f =? WSOPCODE_PONG then []
  else [Message (cf_opcode f + 128) (cf_payload f)].

(** ** Masks and lengths *)

Lemma unmask_ok m data : ∀ index,
  zlen m = 4 → 0 <= index → unmask m index data = Some (xor_mask m index data).
Proof.
  induction data as [|c data IH]; intros index Hm Hi; [done|]. cbn [unmask xor_mask].
  pose proof (Z.mod_pos_bound index 4). rewrite mem_get_lookup by lia.
  destruct (m !! Z.to_nat (index mod 4)) as [k|] eqn:E.
  - cbn [mbind option_bind default]. by rewrite IH by (done || lia).
  - apply lookup_ge_None in E. unfold zlen in Hm. lia.
Qed.

Lemma xor_mask_involutive m data : ∀ index, xor_mask m index (xor_mask m index data) = data.
Proof.
  induction data as [|c data IH]; intros index; [done|]. cbn [xor_mask].
  by rewrite IH, Z.lxor_assoc, Z.lxor_nilpotent, Z.lxor_0_r.
Qed.

Lemma zlen_xor_mask m data : ∀ index, zlen (xor_mask m index data) = zlen data.
Proof.
  induction data as [|c data IH]; intros index; [done|]. cbn [xor_mask]. by rewrite !zlen_cons, IH.
Qed.

Lemma xor_mask_app m x : ∀ index y,
  xor_mask m index (x ++ y) = xor_mask m index x ++ xor_mask m (index + zlen x) y.
Proof.
  induction x as [|c x IH]; intros index y; [by rewrite Z.add_0_r|]. cbn [app xor_mask].
  rewrite IH, zlen_cons. do 3 f_equal. lia.
Qed.

Lemma take_xor_mask m data n index :
  take n (xor_mask m index data) = xor_mask m index (take n data).
Proof.
  revert data index. induction n as [|n IH]; intros [|c data] index; try done.
  cbn [xor_mask take]. by rewrite IH.
Qed.

Lemma lor_byte r v : 0 <= v < 256 → Z.lor (Z.shiftl r 8) v = 256 * r + v.
Proof.
  intros Hv. assert (Z.land (Z.shiftl r 8) v = 0) as Hl.
  { apply Z.bits_inj'. intros n Hn. rewrite Z.land_spec, Z.bits_0.
    destruct (Z.lt_ge_cases n 8); [by rewrite Z.shiftl_spec_low|].
    apply andb_false_iff. right. destruct (Z.eq_dec v 0) as [->|]; [apply Z.bits_0|].
    apply Z.bits_above_log2; [lia|]. assert (Z.log2 v < 8) by (apply Z.log2_lt_pow2; lia). lia. }
  rewrite <- Z.lxor_lor, <- Z.add_nocarry_lxor, Z.shiftl_mul_pow2 by (done || lia). lia.
Qed.

Lemma length_big_endian k : ∀ n, length (big_endian k n) = k.
Proof. induction k as [|k IH]; intros n; [done|]. cbn [big_endian]. rewrite length_app, IH. simpl. lia. Qed.

Lemma length_loop_S value i n l :
  length_loop value i (S n) l =
    (v ← mem_get value (Z.of_nat i); length_loop value (S i) n (Z.lor (wrap64 (Z.shiftl l 8)) v)).
Proof. done. Qed.

Lemma length_loop_snoc x v i k : ∀ l,
  (i + k = length x)%nat →
  length_loop (x ++ [v]) i (S k) l =
    (r ← length_loop x i k l; Some (Z.lor (wrap64 (Z.shiftl r 8)) v)).
Proof.
  revert i. induction k as [|k IH]; intros i l Hk.
  - cbn [length_loop]. rewrite mem_get_lookup, Nat2Z.id, list_lookup_middle by lia. done.
  - rewrite (length_loop_S (x ++ [v]) i), (length_loop_S x i).
    rewrite !mem_get_lookup, Nat2Z.id by lia. rewrite lookup_app_l by lia. destruct (x !! i) as [w|]; [|done]. cbn [mbind option_bind].
    apply (IH (S i)). lia.
Qed.

Lemma length_loop_ok k : ∀ n,
  (k <= 8)%nat → 0 <= n < 256 ^ Z.of_nat k → length_loop (big_endian k n) 0 k 0 = Some n.
Proof.
  induction k as [|k IH]; intros n Hk Hn; [change (256 ^ Z.of_nat 0) with 1 in Hn; simpl; f_equal; lia|].
  cbn [big_endian]. rewrite length_loop_snoc by (rewrite length_big_endian; lia).
  rewrite Nat2Z.inj_succ, Z.pow_succ_r in Hn by lia.
  assert (0 <= n / 256 < 256 ^ Z.of_nat k) as Hq
    by (split; [apply Z.div_pos; lia|apply Z.div_lt_upper_bound; lia]).
  rewrite IH by (lia || done). cbn [mbind option_bind]. f_equal.
  assert (256 ^ Z.of_nat k <= 256 ^ 7) as Hp by (apply Z.pow_le_mono_r; lia).
  change (256 ^ 7) with (2 ^ 56) in Hp.
  unfold wrap64. rewrite Z.mod_small.
  - rewrite lor_byte by (apply Z.mod_pos_bound; lia). pose proof (Z.div_mod n 256). lia.
  - rewrite Z.shiftl_mul_pow2 by lia. lia.
Qed.

(** ** A parser in the middle of a frame *)

Section Stream.
Context {T D : Type} `{TokenBufferLaws T}.
Variable a : allocator.
Hypothesis memory : plenty_memory a.
Variable env : ws_env.
Hypothesis disk : ∀ d, store_ok env d = true.
Hypothesis limit : client_max_body_size env <= SIZE_MAX.
Variable z : inflater D.
Variable inflations : nat.

Abbreviation parser := (ws_parser T D).
Implicit Types (p : parser) (f : client_frame).

Abbreviation ok_frame := (frame_ok (client_max_body_size env)).

(** Between two messages. *)
Record Clean (p : parser) : Prop := {
  cl_stage : stage p = WSPARSER_STAGE_FIRST_BYTE;
  cl_inv : tb_inv (buf p);
  cl_token : tb_bytes (buf p) = [];
  cl_fragmented : message_fragmented p = false;
  cl_index : payload_index p = 0;
  cl_saved : payload_saved_length p = 0;
  cl_request : request p = None;
  cl_valid : needed (utf8_validator p) = 0 }.

(** After the first byte of [f]. *)
Record Header (p : parser) (f : client_frame) : Prop := {
  hd_fin : fin (frame p) = 1;
  hd_opcode : opcode (frame p) = cf_opcode f;
  hd_fragmented : message_fragmented p = false;
  hd_inv : tb_inv (buf p);
  hd_valid : needed (utf8_validator p) = 0 }.

(** Before the payload of [f]. *)
Record Early (p : parser) (f : client_frame) : Prop := {
  ea_header : Header p f;
  ea_index : payload_index p = 0;
  ea_saved : payload_saved_length p = 0;
  ea_request : request p = if is_control (cf_opcode f) then None
                           else Some (WsRequest (cf_opcode f + 128) false false []) }.

(** [rest] is what the parser has still to see of [f]. *)
Inductive Doing (p : parser) (f : client_frame) : list Z → Prop :=
  | DFirst : Clean p → Doing p f (encode_frame f)
  | DSecond : stage p = WSPARSER_STAGE_SECOND_BYTE → Early p f → tb_bytes (buf p) = [] →
      Doing p f (length_bytes (zlen (cf_payload f)) ++ masked_tail f)
  | DLength k x :
      stage p = (if (k =? 2)%nat then WSPARSER_STAGE_PAYLOAD_LEN_126 else WSPARSER_STAGE_PAYLOAD_LEN_127) →
      (k = 2 ∨ k = 8)%nat → zlen (cf_payload f) < 256 ^ Z.of_nat k →
      Early p f → is_control (cf_opcode f) = false →
      big_endian k (zlen (cf_payload f)) = tb_bytes (buf p) ++ x → x ≠ [] →
      Doing p f (x ++ masked_tail f)
  | DMask x : stage p = WSPARSER_STAGE_MASK_KEY → Early p f →
      payload_length (frame p) = zlen (cf_payload f) →
      cf_mask f = tb_bytes (buf p) ++ x → x ≠ [] →
      Doing p f (x ++ xor_mask (cf_mask f) 0 (cf_payload f))
  | DPayload seen left : stage p = WSPARSER_STAGE_PAYLOAD →
      fin (frame p) = 1 → opcode (frame p) = cf_opcode f → message_fragmented p = false →
      tb_inv (buf p) → is_control (cf_opcode f) = false → mask (frame p) = cf_mask f →
      payload_length (frame p) = zlen (cf_payload f) → cf_payload f = seen ++ left → left ≠ [] →
      payload_index p = zlen seen → payload_saved_length p = zlen seen →
      request p = Some (WsRequest (cf_opcode f + 128) false false seen) →
      (if cf_opcode f =? WSOPCODE_TEXT then accepts (utf8_validator p) left = true
       else needed (utf8_validator p) = 0) →
      Doing p f (xor_mask (cf_mask f) (zlen seen) left)
  | DControl left : stage p = WSPARSER_STAGE_CONTROL_PAYLOAD → Header p f →
      is_control (cf_opcode f) = true → request p = None → mask (frame p) = cf_mask f →
      payload_length (frame p) = zlen (cf_payload f) →
      cf_payload f = tb_bytes (buf p) ++ left → left ≠ [] →
      payload_index p = zlen (tb_bytes (buf p)) → payload_saved_length p = zlen (tb_bytes (buf p)) →
      Doing p f (xor_mask (cf_mask f) (zlen (tb_bytes (buf p))) left).

(** The whole of [f] was seen and it is time to handle it. *)
Record Done (p : parser) (f : client_frame) : Prop := {
  dn_header : Header p f;
  dn_request : is_control (cf_opcode f) = false →
    request p = Some (WsRequest (cf_opcode f + 128) false false (cf_payload f));
  dn_control : is_control (cf_opcode f) = true →
    request p = None ∧ tb_bytes (buf p) = cf_payload f }.

Lemma early_place p f start here : Early p f → Early (set_place p start here) f.
Proof. intros [[] ? ? ?]. by constructor. Qed.

Lemma doing_place p f rest start here : Doing p f rest → Doing (set_place p start here) f rest.
Proof.
  intros [[]|? Hh ?|k x ? ? ? Hh ? ? ?|x ? Hh ? ? ?|seen left|left ? []].
  - by apply DFirst.
  - apply DSecond; try done. by apply early_place.
  - apply (DLength _ _ k); try done. by apply early_place.
  - apply DMask; try done. by apply early_place.
  - by apply DPayload.
  - by apply (DControl (set_place p start here)).
Qed.

Lemma opcode_cases f :
  ok_frame f → cf_opcode f = 1 ∨ cf_opcode f = 2 ∨ cf_opcode f = 8 ∨ cf_opcode f = 9 ∨ cf_opcode f = 10.
Proof.
  intros [_ Hf]. unfold is_control, is_data, WSOPCODE_CLOSE, WSOPCODE_PING, WSOPCODE_PONG,
    WSOPCODE_TEXT, WSOPCODE_BINARY in *.
  destruct (Z.eqb_spec (cf_opcode f) 8); [lia|]. destruct (Z.eqb_spec (cf_opcode f) 9); [lia|].
  destruct (Z.eqb_spec (cf_opcode f) 10); [lia|]. simpl in Hf. destruct Hf as [Hf _]. reflect_bools. lia.
Qed.

(** Where a step leaves the parser: in the frame, or at its end. *)
Definition step_good (p : parser) (buffer : list Z) (f : client_frame) (rest : list Z)
    (x : option (ws_step (T:=T) (D:=D))) : Prop :=
  match rest with
  | [] => ∃ q, x = Some (Ret (frame_end q buffer)) ∧ Done q f ∧
            pos q = pos p ∧ bytes_readed q = bytes_readed p
  | _ => ∃ q, x = Some (Go q buffer) ∧ Doing q f rest ∧
            pos q = pos p ∧ bytes_readed q = bytes_readed p ∧ pos_start q = pos_start p
  end.

Lemma doing_nonempty p f rest : ok_frame f → Doing p f rest → rest ≠ [].
Proof.
  intros [Hm _] []; try done.
  - unfold length_bytes. by repeat case_if.
  - by destruct x.
  - by destruct x.
  - intros E. apply (f_equal zlen) in E. rewrite zlen_xor_mask in E.
    by destruct left.
  - intros E. apply (f_equal zlen) in E. rewrite zlen_xor_mask in E.
    by destruct left.
Qed.

(** Pushing the byte that completes a token, then reading the token back. *)
Lemma token_ok p c :
  tb_inv (buf p) →
  ∃ b1, tb_push a (buf p) c = Some (true, b1) ∧ tb_inv b1 ∧ tb_bytes b1 = tb_bytes (buf p) ++ [c] ∧
  ∃ b2, tb_complete a b1 = Some (true, b2) ∧ tb_inv b2 ∧ tb_bytes b2 = tb_bytes (buf p) ++ [c] ∧
  ∃ b3, tb_get a b2 = Some (Some (tb_bytes (buf p) ++ [c]), b3) ∧ tb_inv b3 ∧
  ∃ b4, tb_reset b3 = Some b4 ∧ tb_inv b4 ∧ tb_bytes b4 = [].
Proof.
  intros Hi. destruct (tb_push_ok a (buf p) c memory Hi) as (b1 & H1 & I1 & E1). exists b1.
  split_and!; try done. destruct (tb_complete_ok a b1 memory I1) as (b2 & H2 & I2 & E2). exists b2.
  split_and!; try done; [congruence|]. destruct (tb_get_ok a b2 memory I2) as (b3 & H3 & I3 & E3).
  exists b3. rewrite E2, E1 in H3. split_and!; try done. destruct (tb_reset_ok b3 I3) as (b4 & ? & ? & ?).
  by exists b4.
Qed.

(** Steps that stay inside the frame. *)
Lemma step_go p buffer f rest x q :
  rest ≠ [] → x = Some (Go q buffer) → Doing q f rest →
  pos q = pos p → bytes_readed q = bytes_readed p → pos_start q = pos_start p →
  step_good p buffer f rest x.
Proof. intros Hr -> Hd ? ? ?. destruct rest; [done|]. by exists q. Qed.

Lemma first_char_ok (q : parser) c b :
  tb_get a (buf q) = Some (Some [c], b) → first_char a q = Some (c, set_buf q b).
Proof. intros E. unfold first_char. by rewrite E. Qed.

Lemma step_first_ok p buffer f :
  ok_frame f → Clean p →
  step_good p buffer f (length_bytes (zlen (cf_payload f)) ++ masked_tail f)
    (step_first_byte a p buffer (128 + cf_opcode f)).
Proof.
  intros Hf [Hst Hi Ht Hfr Hix Hsv Hrq Hv].
  assert (length_bytes (zlen (cf_payload f)) ++ masked_tail f ≠ []) as Hne
    by (unfold length_bytes; by repeat case_if).
  unfold step_first_byte.
  destruct (token_ok p (128 + cf_opcode f) Hi)
    as (b1 & -> & I1 & E1 & b2 & H2 & I2 & E2 & b3 & H3 & I3 & b4 & H4 & I4 & E4).
  rewrite Ht in *. cbn [app] in *. cbn [mbind option_bind]. unfold finish_token.
  cbn [buf set_stage set_buf]. rewrite H2. cbn [mbind option_bind].
  unfold websocketsparser_parse_first_byte. erewrite first_char_ok by exact H3.
  cbn [mbind option_bind message_fragmented request set_frame set_buf set_stage].
  rewrite Hfr, Hrq. unfold reset_token.
  destruct (opcode_cases f Hf) as [E|[E|[E|[E|E]]]]; rewrite E; simpl; rewrite H4; simpl;
    (eapply step_go; [exact Hne|reflexivity| |done|done|done]);
    (apply DSecond; [done| |done]); (constructor; [constructor|..]); simpl; rewrite ?E; try done.
Qed.


Lemma second_byte n :
  0 <= n < 128 → Z.land (Z.shiftr (128 + n) 7) 0x01 = 1 ∧ Z.land (128 + n) 0x7F = n.
Proof.
  intros Hn. assert (is_byte (128 + n)) as Hb by (unfold is_byte; lia).
  apply (byte_forall (λ c, implb (128 <=? c)
           ((Z.land (Z.shiftr c 7) 0x01 =? 1) && (Z.land c 0x7F =? c - 128)))) in Hb;
    [|vm_compute; reflexivity].
  destruct (Z.leb_spec 128 (128 + n)); [|lia]. simpl in Hb. reflect_bools. lia.
Qed.

Lemma step_second_ok p buffer f c rest :
  ok_frame f → stage p = WSPARSER_STAGE_SECOND_BYTE → Early p f → tb_bytes (buf p) = [] →
  length_bytes (zlen (cf_payload f)) ++ masked_tail f = c :: rest →
  step_good p buffer f rest (step_second_byte a p buffer c).
Proof.
  intros Hf Hst [[Hfin Hop Hfr Hi Hv] Hix Hsv Hrq] Ht Hlen. pose proof Hf as [Hm Hlim].
  pose proof (zlen_nonneg (cf_payload f)) as Hn0.
  assert (masked_tail f ≠ []) as Hmt.
  { unfold masked_tail. destruct (cf_mask f); [done|done]. }
  unfold step_second_byte.
  destruct (token_ok p c Hi) as (b1 & -> & I1 & E1 & b2 & H2 & I2 & E2 & b3 & H3 & I3 & b4 & H4 & I4 & E4).
  rewrite Ht in *. cbn [app] in *. cbn [mbind option_bind]. unfold finish_token.
  cbn [buf set_buf]. rewrite H2. cbn [mbind option_bind].
  unfold websocketsparser_parse_second_byte. erewrite first_char_ok by exact H3.
  cbn [mbind option_bind]. unfold reset_token.
  assert (∀ st n, Early (set_buf (set_stage (set_frame (set_buf (set_buf (set_buf p b1) b2) b3)
      (WsFrame (fin (frame p)) (rsv1 (frame p)) (rsv2 (frame p)) (rsv3 (frame p)) (opcode (frame p))
         (Z.land (Z.shiftr c 7) 0x01) (mask (frame p)) n)) st) b4) f) as Hearly.
  { intros st n. by constructor. }
  unfold length_bytes in Hlen.
  destruct (Z.ltb_spec (zlen (cf_payload f)) 126) as [Hs|Hs].
  - injection Hlen as <- <-. destruct (second_byte (zlen (cf_payload f))) as [Hb7 Hb]; [lia|].
    cbn [masked set_frame frame payload_length]. rewrite Hb7, Hb. cbn [Z.eqb negb].
    destruct (Z.eqb_spec (zlen (cf_payload f)) 126); [lia|].
    destruct (Z.eqb_spec (zlen (cf_payload f)) 127); [lia|].
    cbn [buf set_buf set_stage set_frame]. rewrite H4. cbn [mbind option_bind].
    eapply step_go; [exact Hmt|reflexivity| |done|done|done].
    apply DMask; simpl; [done|rewrite <- Hb7; apply Hearly|done|by rewrite E4|].
    intros E. rewrite E in Hm. done.
  - assert (is_control (cf_opcode f) = false) as Hctl.
    { destruct (is_control (cf_opcode f)); [lia|done]. }
    rewrite Hctl in Hlim. destruct Hlim as (_ & Hmax & _).
    assert (∃ k, (k = 2 ∨ k = 8)%nat ∧ zlen (cf_payload f) < 256 ^ Z.of_nat k ∧
      c = (if (k =? 2)%nat then 254 else 255) ∧ rest = big_endian k (zlen (cf_payload f)) ++ masked_tail f)
      as (k & Hk & Hbound & Hc & Hrest).
    { destruct (Z.ltb_spec (zlen (cf_payload f)) 65536); injection Hlen as <- <-.
      - exists 2%nat. split; [by left|]. split; [simpl; lia|]. done.
      - exists 8%nat. split; [by right|]. split; [|done].
        change (256 ^ Z.of_nat 8) with (2 ^ 64). unfold SIZE_MAX in limit. lia. }
    assert (Z.land (Z.shiftr c 7) 1 = 1 ∧
            Z.land c 127 = (if (k =? 2)%nat then 126 else 127)) as [Hb7 Hb]
      by (rewrite Hc; destruct Hk as [-> | ->]; done).
    cbn [masked set_frame frame payload_length]. rewrite Hb7, Hb. cbn [Z.eqb negb].
    assert (∀ st : ws_stage, (if (if (k =? 2)%nat then 126 else 127) =? 126
        then WSPARSER_STAGE_PAYLOAD_LEN_126
        else if (if (k =? 2)%nat then 126 else 127) =? 127 then WSPARSER_STAGE_PAYLOAD_LEN_127 else st)
      = if (k =? 2)%nat then WSPARSER_STAGE_PAYLOAD_LEN_126 else WSPARSER_STAGE_PAYLOAD_LEN_127) as Hst'
      by (intros st; by destruct Hk as [-> | ->]).
    rewrite Hst'. cbn [buf set_buf set_stage set_frame]. rewrite H4. cbn [mbind option_bind].
    assert (big_endian k (zlen (cf_payload f)) ≠ []) as Hbe.
    { intros E. apply (f_equal length) in E. rewrite length_big_endian in E. simpl in E. lia. }
    rewrite Hrest. eapply step_go; [|reflexivity| |done|done|done].
    + by destruct (big_endian k (zlen (cf_payload f))).
    + apply (DLength _ _ k); simpl; [done|done|done|rewrite <- Hb7; apply Hearly|done|by rewrite E4|done].
Qed.

Lemma early_control p f : Early p f → websocketsparser_is_control_frame (frame p) = is_control (cf_opcode f).
Proof. intros [[_ <- _ _ _] _ _ _]. done. Qed.

Lemma step_length_ok p buffer f k c x :
  ok_frame f →
  stage p = (if (k =? 2)%nat then WSPARSER_STAGE_PAYLOAD_LEN_126 else WSPARSER_STAGE_PAYLOAD_LEN_127) →
  (k = 2 ∨ k = 8)%nat → zlen (cf_payload f) < 256 ^ Z.of_nat k →
  Early p f → is_control (cf_opcode f) = false →
  big_endian k (zlen (cf_payload f)) = tb_bytes (buf p) ++ c :: x →
  step_good p buffer f (x ++ masked_tail f) (step_length a k p buffer c).
Proof.
  intros [Hm _] Hst Hk Hbound He Hctl Hbe. unfold step_length. rewrite (early_control p f He), Hctl.
  pose proof He as [[Hfin Hop Hfr Hi Hv] Hix Hsv Hrq].
  assert (masked_tail f ≠ []) as Hmt by (unfold masked_tail; by destruct (cf_mask f)).
  assert (x ++ masked_tail f ≠ []) as Hne by (by destruct x).
  destruct (token_ok p c Hi) as (b1 & -> & I1 & E1 & b2 & H2 & I2 & E2 & b3 & H3 & I3 & b4 & H4 & I4 & E4).
  cbn [mbind option_bind]. rewrite (tb_writed_ok b1 I1), E1.
  assert (zlen (tb_bytes (buf p) ++ [c]) = Z.of_nat k - zlen x) as Hlen.
  { apply (f_equal zlen) in Hbe. rewrite zlen_app, zlen_cons in Hbe. unfold zlen at 1 in Hbe.
    rewrite length_big_endian in Hbe. rewrite zlen_app. change (zlen [c]) with 1. lia. }
  rewrite Hlen. destruct x as [|c' x].
  - change (zlen []) with 0. rewrite Z.sub_0_r, Z.ltb_irrefl. unfold finish_token.
    cbn [buf set_stage set_buf]. rewrite H2. cbn [mbind option_bind].
    unfold websocketsparser_set_payload_length. cbn [buf set_buf]. rewrite H3. cbn [mbind option_bind].
    rewrite <- Hbe, length_loop_ok; [|lia|pose proof (zlen_nonneg (cf_payload f)); lia].
    cbn [mbind option_bind negb]. unfold reset_token. cbn [buf set_buf set_frame]. rewrite H4.
    cbn [mbind option_bind app].
    eapply step_go; [done|reflexivity| |done|done|done].
    apply DMask; simpl; [done|by constructor|done|by rewrite E4|].
    intros E. by rewrite E in Hm.
  - rewrite zlen_cons. pose proof (zlen_nonneg x).
    destruct (Z.ltb_spec (Z.of_nat k - (1 + zlen x)) (Z.of_nat k)); [|lia].
    eapply step_go; [done|reflexivity| |done|done|done].
    apply (DLength _ _ k); simpl; try done. by rewrite E1, <- app_assoc.
Qed.

Lemma DControl_start (q : parser) f :
  stage q = WSPARSER_STAGE_CONTROL_PAYLOAD → Header q f →
  is_control (cf_opcode f) = true → request q = None → mask (frame q) = cf_mask f →
  payload_length (frame q) = zlen (cf_payload f) → tb_bytes (buf q) = [] → cf_payload f ≠ [] →
  payload_index q = 0 → payload_saved_length q = 0 →
  Doing q f (xor_mask (cf_mask f) 0 (cf_payload f)).
Proof.
  intros ? ? ? ? ? ? E ? ? ?. pose proof (DControl q f (cf_payload f)) as Hd. rewrite E in Hd. by apply Hd.
Qed.

Lemma step_mask_ok p buffer f c x :
  ok_frame f → stage p = WSPARSER_STAGE_MASK_KEY → Early p f →
  payload_length (frame p) = zlen (cf_payload f) → cf_mask f = tb_bytes (buf p) ++ c :: x →
  step_good p buffer f (x ++ xor_mask (cf_mask f) 0 (cf_payload f)) (step_mask a p buffer c).
Proof.
  intros [Hm Hlim] Hst He Hpl Hmask. unfold step_mask.
  pose proof He as [[Hfin Hop Hfr Hi Hv] Hix Hsv Hrq].
  destruct (token_ok p c Hi) as (b1 & -> & I1 & E1 & b2 & H2 & I2 & E2 & b3 & H3 & I3 & b4 & H4 & I4 & E4).
  cbn [mbind option_bind]. rewrite (tb_writed_ok b1 I1), E1.
  assert (zlen (tb_bytes (buf p) ++ [c]) = 4 - zlen x) as Hlen.
  { rewrite Hmask, zlen_app, zlen_cons in Hm. rewrite zlen_app. change (zlen [c]) with 1. lia. }
  rewrite Hlen. destruct x as [|c' x].
  - change (4 - zlen [] <? 4) with false. cbn iota. unfold finish_token.
    cbn [buf set_stage set_buf]. rewrite H2. cbn [mbind option_bind].
    unfold websocketsparser_parse_mask. cbn [buf set_buf]. rewrite H3, <- Hmask. cbn [mbind option_bind].
    rewrite mem_read_Some by lia. rewrite drop_0, take_ge by (unfold zlen in Hm; lia).
    cbn [mbind option_bind negb]. cbn [buf set_buf set_stage set_frame]. rewrite H4.
    cbn [mbind option_bind payload_length frame set_buf set_stage set_frame app].
    rewrite Hpl.
    replace (websocketsparser_is_control_frame _) with (is_control (cf_opcode f))
      by (rewrite <- (early_control p f He); done).
    destruct (cf_payload f) as [|d0 ds] eqn:Ep.
    + change (zlen [] =? 0) with true. cbn iota. cbn [xor_mask]. eexists. split; [reflexivity|].
      split; [|done]. constructor; [by constructor| |]; simpl; rewrite Hrq; intros ->; [by rewrite Ep|].
      by rewrite Ep.
    + assert (zlen (d0 :: ds) ≠ 0) as Hz by (rewrite zlen_cons; pose proof (zlen_nonneg ds); lia).
      destruct (Z.eqb_spec (zlen (d0 :: ds)) 0); [done|]. rewrite <- Ep in *. destruct (is_control (cf_opcode f)) eqn:Hctl.
      * eapply step_go; [by rewrite Ep|reflexivity| |done|done|done].
        apply DControl_start; simpl; try done; [by rewrite Ep].
      * eapply step_go; [by rewrite Ep|reflexivity| |done|done|done].
        apply (DPayload _ f [] (cf_payload f)); simpl; try done; [by rewrite Ep|].
        destruct Hlim as (_ & _ & Hutf). destruct (Z.eqb_spec (cf_opcode f) WSOPCODE_TEXT) as [Et|]; [|done].
        apply accepts_complete; [done|]. by apply Hutf.
  - rewrite zlen_cons. pose proof (zlen_nonneg x). destruct (Z.ltb_spec (4 - (1 + zlen x)) 4); [|lia].
    eapply step_go; [done|reflexivity| |done|done|done].
    apply DMask; simpl; try done. by rewrite E1, <- app_assoc.
Qed.

Lemma step_control_ok p buffer f c left :
  ok_frame f → stage p = WSPARSER_STAGE_CONTROL_PAYLOAD → Header p f →
  is_control (cf_opcode f) = true → request p = None → mask (frame p) = cf_mask f →
  payload_length (frame p) = zlen (cf_payload f) →
  cf_payload f = tb_bytes (buf p) ++ c :: left →
  payload_index p = zlen (tb_bytes (buf p)) → payload_saved_length p = zlen (tb_bytes (buf p)) →
  step_good p buffer f (xor_mask (cf_mask f) (zlen (tb_bytes (buf p)) + 1) left)
    (step_control a p buffer (Z.lxor c (default 0 (cf_mask f !! Z.to_nat (zlen (tb_bytes (buf p)) mod 4))))).
Proof.
  intros [Hm _] Hst [Hfin Hop Hfr Hi Hv] Hctl Hrq Hmask Hpl Hpay Hix Hsv.
  set (t := tb_bytes (buf p)) in *. pose proof (zlen_nonneg t).
  assert (∃ k, cf_mask f !! Z.to_nat (zlen t mod 4) = Some k) as [k Hk].
  { apply lookup_lt_is_Some. pose proof (Z.mod_pos_bound (zlen t) 4). unfold zlen in Hm. lia. }
  unfold step_control. rewrite Hmask, Hix, mem_get_lookup by (apply Z.mod_pos_bound; lia).
  rewrite Hk. cbn [mbind option_bind default buf set_progress].
  rewrite Z.lxor_assoc, Z.lxor_nilpotent, Z.lxor_0_r.
  destruct (tb_push_ok a (buf p) c memory Hi) as (b1 & -> & I1 & E1).
  cbn [mbind option_bind frame set_buf set_progress]. rewrite Hpl, Hsv.
  assert (zlen (cf_payload f) = zlen t + 1 + zlen left) as Hlen
    by (rewrite Hpay, zlen_app, zlen_cons; lia).
  fold t in E1. destruct left as [|c' left].
  - change (zlen []) with 0 in Hlen. destruct (Z.eqb_spec (zlen t + 1) (zlen (cf_payload f))); [|lia].
    cbn [buf set_buf]. destruct (tb_complete_ok a b1 memory I1) as (b2 & -> & I2 & E2).
    cbn [mbind option_bind]. simpl. eexists. split; [reflexivity|]. split; [|done].
    constructor; [by constructor|by rewrite Hctl|]. intros _. simpl. split; [done|]. congruence.
  - rewrite zlen_cons in Hlen. pose proof (zlen_nonneg left).
    destruct (Z.eqb_spec (zlen t + 1) (zlen (cf_payload f))); [lia|].
    set (q := set_buf _ b1).
    assert (zlen t + 1 = zlen (tb_bytes (buf q))) as Hzq by (simpl; rewrite E1, zlen_app; done).
    eapply (step_go _ _ _ _ _ q); [done|reflexivity| |done|done|done]. rewrite Hzq.
    apply DControl; try done. simpl. by rewrite E1, <- app_assoc.
Qed.

(** ** Payload and loop *)

(** The block holds a part of [rest] followed by whatever comes after it. *)
Definition agrees (avail rest : list Z) : Prop := ∃ future more, avail ++ future = rest ++ more.

Definition run_good (p : parser) (buffer : list Z) (f : client_frame) (rest : list Z)
    (r : option (ws_result (T:=T) (D:=D))) : Prop :=
  let avail := drop (Z.to_nat (pos p)) buffer in
  ∃ st q buffer', r = Some (st, q, buffer') ∧ zlen buffer' = zlen buffer ∧
    bytes_readed q = bytes_readed p ∧
    ((zlen avail < zlen rest ∧ st = WSPARSER_CONTINUE ∧ Doing q f (drop (length avail) rest)) ∨
     (zlen avail = zlen rest ∧ st = WSPARSER_COMPLETE ∧ Done q f) ∨
     (zlen rest < zlen avail ∧ st = WSPARSER_HANDLE_AND_CONTINUE ∧ Done q f ∧
      pos q = pos p + zlen rest ∧
      drop (Z.to_nat (pos q)) buffer' = drop (Z.to_nat (pos q)) buffer)).

Lemma agrees_take avail rest n :
  agrees avail rest → n <= zlen avail → n <= zlen rest →
  take (Z.to_nat n) avail = take (Z.to_nat n) rest.
Proof.
  intros (x & y & E) Ha Hr. unfold zlen in *.
  rewrite <- (take_app_le avail x), E, take_app_le by lia. done.
Qed.

Lemma accepts_app v x y :
  accepts v (x ++ y) = true → ∃ v', ws_utf8_validator_feed v x = (true, v') ∧ accepts v' y = true.
Proof.
  unfold accepts. rewrite feed_app. destruct (ws_utf8_validator_feed v x) as [[] v']; [|done].
  intros Ha. by exists v'.
Qed.

(** The slice of the payload that is in the block, stored and validated. *)
Lemma plain_chunk_ok p buffer f seen x y :
  ok_frame f → is_control (cf_opcode f) = false → mask (frame p) = cf_mask f →
  cf_payload f = seen ++ x ++ y → payload_index p = zlen seen → 0 <= pos p →
  pos p + zlen x <= zlen buffer → x ≠ [] →
  (if cf_opcode f =? WSOPCODE_TEXT then accepts (utf8_validator p) (x ++ y) = true
   else needed (utf8_validator p) = 0) →
  ∃ q buffer', plain_chunk env p (WsRequest (cf_opcode f + 128) false false seen) buffer
      (xor_mask (cf_mask f) (zlen seen) x)
    = Some (true, q, WsRequest (cf_opcode f + 128) false false (seen ++ x), buffer') ∧
    q = set_validator (set_progress p (zlen seen + zlen x) (payload_saved_length p)) (utf8_validator q) ∧
    zlen buffer' = zlen buffer ∧
    drop (Z.to_nat (pos p + zlen x)) buffer' = drop (Z.to_nat (pos p + zlen x)) buffer ∧
    (if cf_opcode f =? WSOPCODE_TEXT then accepts (utf8_validator q) y = true
     else needed (utf8_validator q) = 0).
Proof.
  intros Hf Hctl Hmask Hpay Hix Hp Hfit Hne Hutf. pose proof Hf as [Hm Hlim]. rewrite Hctl in Hlim.
  destruct Hlim as (_ & Hmax & _). unfold plain_chunk.
  pose proof (zlen_nonneg seen). pose proof (zlen_nonneg y).
  rewrite Hmask, Hix, unmask_ok by (done || lia). rewrite xor_mask_involutive, zlen_xor_mask.
  cbn [mbind option_bind]. rewrite mem_write_Some by lia. cbn [mbind option_bind]. unfold payload_store.
  assert (0 < zlen x) as Hx.
  { destruct x; [done|]. rewrite zlen_cons. pose proof (zlen_nonneg x). lia. }
  destruct (Z.eqb_spec (zlen x) 0); [lia|]. cbn [ws_payload ws_type ws_fragmented ws_compressed].
  assert (zlen (cf_payload f) = zlen seen + (zlen x + zlen y)) as Hlen by (rewrite Hpay, !zlen_app; lia).
  destruct (Z.ltb_spec (client_max_body_size env) (zlen seen + zlen x)); [lia|].
  rewrite disk. unfold websocketsparser_text_feed_ok. cbn [ws_type].
  set (buffer' := _ ++ x ++ _).
  assert (zlen buffer' = zlen buffer ∧
          drop (Z.to_nat (pos p + zlen x)) buffer' = drop (Z.to_nat (pos p + zlen x)) buffer) as [Hb1 Hb2].
  { unfold buffer', zlen in *. rewrite !length_app, length_take, length_drop. split; [lia|].
    rewrite app_assoc, drop_app_length'; [f_equal; lia|]. rewrite length_app, length_take. lia. }
  change (cf_opcode f + 128 =? WEBSOCKETS_TEXT) with (cf_opcode f + 128 =? 1 + 128).
  assert ((cf_opcode f + 128 =? 1 + 128) = (cf_opcode f =? WSOPCODE_TEXT)) as ->.
  { unfold WSOPCODE_TEXT. destruct (Z.eqb_spec (cf_opcode f) 1), (Z.eqb_spec (cf_opcode f + 128) (1 + 128)); lia || done. }
  destruct (cf_opcode f =? WSOPCODE_TEXT); cbn [negb].
  - cbn [utf8_validator set_progress]. apply accepts_app in Hutf as (v' & -> & Hv').
    eexists _, buffer'. split; [done|]. simpl. by split_and!.
  - eexists _, buffer'. split; [done|]. simpl. by split_and!.
Qed.

Lemma parse_payload_ok p buffer f rest :
  ok_frame f → Doing p f rest → stage p = WSPARSER_STAGE_PAYLOAD →
  bytes_readed p = zlen buffer → 0 <= pos p < zlen buffer →
  agrees (drop (Z.to_nat (pos p)) buffer) rest →
  run_good p buffer f rest (websocketsparser_parse_payload a env z inflations p buffer).
Proof.
  intros Hf Hd Hst Hbr Hpos Hag.
  destruct Hd as [[]| | k x Hs [-> | ->] | |seen left _ Hfin Hop Hfr Hi Hctl Hmask Hpl Hpay Hne Hix Hsv Hrq Hutf|]; try congruence;
    try (simpl in Hs; congruence).
  set (avail := drop (Z.to_nat (pos p)) buffer) in *.
  assert (zlen avail = zlen buffer - pos p) as Hav by (unfold avail; rewrite zlen_drop; lia).
  unfold websocketsparser_parse_payload. rewrite Hrq. cbn [mbind option_bind]. rewrite Hbr, <- Hav, Hpl, Hsv.
  assert (zlen (cf_payload f) = zlen seen + zlen left) as Hlen by (rewrite Hpay, zlen_app; done).
  pose proof (zlen_nonneg seen). pose proof (zlen_nonneg left).
  assert (0 < zlen left) as Hleft by (destruct left; [done|]; rewrite zlen_cons; pose proof (zlen_nonneg left); lia).
  set (size := if zlen (cf_payload f) <? zlen avail + zlen seen then zlen (cf_payload f) - zlen seen else zlen avail).
  assert (size = Z.min (zlen avail) (zlen left)) as Hsize.
  { unfold size. destruct (Z.ltb_spec (zlen (cf_payload f)) (zlen avail + zlen seen)); lia. }
  clearbody size. pose proof Hf as [_ Hlim]. rewrite Hctl in Hlim. destruct Hlim as (_ & Hmax & _).
  destruct (Z.ltb_spec (client_max_body_size env) (zlen seen + size)); [lia|].
  cbn [payload_saved_length pos set_progress frame]. rewrite Hpl.
  rewrite mem_read_Some by lia. fold avail. cbn [mbind option_bind ws_compressed].
  rewrite (agrees_take avail (xor_mask (cf_mask f) (zlen seen) left)), take_xor_mask
    by (try done; rewrite ?zlen_xor_mask; lia).
  rewrite <- (take_drop (Z.to_nat size) left) in Hpay, Hutf.
  set (x := take (Z.to_nat size) left) in *. set (y := drop (Z.to_nat size) left) in *.
  assert (zlen x = size) as Hzx by (unfold x; rewrite zlen_take; lia).
  assert (zlen y = zlen left - size) as Hzy by (unfold y; rewrite zlen_drop; lia).
  set (p1 := set_progress p (payload_index p) (zlen seen + size)).
  destruct (plain_chunk_ok p1 buffer f seen x y) as (q & buffer' & -> & Eq & Hb1 & Hb2 & Hv); try done.
  { simpl. lia. }
  { simpl. lia. }
  { intros E. rewrite E in Hzx. change (zlen []) with 0 in Hzx. lia. }
  cbn [mbind option_bind negb]. rewrite Hzx in *. simpl (pos p1) in Hb2.
  assert (Done (set_message q (message_fragmented q) (Some (WsRequest (cf_opcode f + 128) false false (seen ++ x)))) f
          ∨ y ≠ []) as Hdone.
  { destruct y as [|y0 y'] eqn:Ey; [left|by right]. rewrite app_nil_r in Hpay.
    constructor; [rewrite Eq; constructor; simpl; try done|intros _; simpl; by rewrite Hpay|by rewrite Hctl].
    destruct (cf_opcode f =? WSOPCODE_TEXT); [|done]. rewrite accepts_nil in Hv. by apply Z.eqb_eq. }
  assert (∀ m, websocketsparser_text_finish_ok (set_message q m (Some (WsRequest (cf_opcode f + 128) false false (seen ++ x)))) = true
          ∨ y ≠ []) as Hfinish.
  { intros m. destruct y as [|y0 y'] eqn:Ey; [left|by right]. unfold websocketsparser_text_finish_ok.
    cbn [request set_message ws_type utf8_validator]. unfold ws_utf8_validator_finish.
    unfold WEBSOCKETS_TEXT, WSOPCODE_TEXT in *. destruct (Z.eqb_spec (cf_opcode f) 1) as [E1|E1].
    - rewrite E1. rewrite accepts_nil in Hv. exact Hv.
    - destruct (Z.eqb_spec (cf_opcode f + 128) 129); [lia|done]. }
  assert (fin (frame q) = 1 ∧ pos q = pos p ∧ bytes_readed q = bytes_readed p) as (Hfq & Hpq & Hbq)
    by (rewrite Eq; simpl; done).
  unfold run_good. fold avail. rewrite zlen_xor_mask.
  destruct (Z.ltb_spec (zlen (cf_payload f)) (zlen avail + zlen seen)) as [Hmore|Hmore].
  - assert (y = []) as Hy by (apply zlen_0_nil; lia).
    cbn [set_place set_message frame pos pos_start]. rewrite Hfq. change (1 =? 0) with false. cbn [negb andb].
    destruct (Hfinish (message_fragmented q)) as [Hfi|]; [|done].
    replace (websocketsparser_text_finish_ok (set_place _ _ _)) with true by (symmetry; exact Hfi).
    cbn [negb]. eexists _, _, buffer'. split; [done|]. split; [done|]. split; [exact Hbq|]. right; right.
    split; [lia|]. split; [done|]. destruct Hdone as [Hdone|]; [|done].
    split; [destruct Hdone as [[] ? ?]; by constructor|]. cbn [pos set_place]. rewrite Hpq. split; [lia|].
    exact Hb2.
  - destruct (Z.eqb_spec (zlen seen + size) (zlen (cf_payload f))) as [Hfull|Hpart]; cbn [negb].
    + assert (y = []) as Hy by (apply zlen_0_nil; lia).
      cbn [set_message frame]. rewrite Hfq. change (1 =? 0) with false. cbn [negb].
      destruct (Hfinish (message_fragmented q)) as [Hfi|]; [|done]. unfold set_message in Hfi |- *. rewrite Hfi.
      cbn [negb]. eexists _, _, buffer'. split; [done|]. split; [done|]. split; [exact Hbq|]. right; left.
      split; [lia|]. split; [done|]. by destruct Hdone.
    + eexists _, _, buffer'. split; [done|]. split; [done|]. split; [exact Hbq|]. left.
      split; [lia|]. split; [done|].
      assert (drop (length avail) (xor_mask (cf_mask f) (zlen seen) left)
              = xor_mask (cf_mask f) (zlen (seen ++ x)) y) as ->.
      { rewrite <- (take_drop (Z.to_nat size) left). fold x y. rewrite xor_mask_app, drop_app_length'.
        - by rewrite zlen_app.
        - pose proof (zlen_xor_mask (cf_mask f) x (zlen seen)). unfold zlen in *. lia. }
      assert (stage q = stage p ∧ frame q = frame p ∧ message_fragmented q = message_fragmented p ∧
              buf q = buf p ∧ payload_index q = zlen seen + size ∧
              payload_saved_length q = zlen seen + size) as (Q1 & Q2 & Q3 & Q4 & Q5 & Q6)
        by (rewrite Eq; simpl; done).
      apply DPayload; cbn [stage frame message_fragmented buf payload_index payload_saved_length request
        utf8_validator set_message]; try congruence.
      * by rewrite Hpay, <- app_assoc.
      * intros E. rewrite E in Hzy. change (zlen []) with 0 in Hzy. lia.
      * by rewrite Q5, zlen_app, Hzx.
      * by rewrite Q6, zlen_app, Hzx.
Qed.

(** The step for every stage but the payload's. *)
Lemma step_byte_ok p buffer f c rest :
  ok_frame f → Doing p f (c :: rest) → stage p ≠ WSPARSER_STAGE_PAYLOAD →
  step_good p buffer f rest (ws_step_byte a env z inflations p buffer c).
Proof.
  intros Hf Hd Hs. remember (c :: rest) as l eqn:El.
  destruct Hd as [Hc|Hst He Ht|k x Hst Hk Hb He Hctl Hbe Hx|x Hst He Hpl Hm Hx|
                  seen left Hst|left Hst Hh Hctl Hrq Hm Hpl Hpay Hl Hix Hsv]; unfold ws_step_byte.
  - rewrite (cl_stage p Hc). injection El as <- <-. by apply step_first_ok.
  - rewrite Hst. by apply step_second_ok.
  - destruct x as [|c0 x]; [done|]. injection El as -> <-.
    assert (match stage p with
            | WSPARSER_STAGE_FIRST_BYTE => step_first_byte a p buffer c
            | WSPARSER_STAGE_SECOND_BYTE => step_second_byte a p buffer c
            | WSPARSER_STAGE_PAYLOAD_LEN_126 => step_length a 2 p buffer c
            | WSPARSER_STAGE_PAYLOAD_LEN_127 => step_length a 8 p buffer c
            | WSPARSER_STAGE_MASK_KEY => step_mask a p buffer c
            | WSPARSER_STAGE_CONTROL_PAYLOAD => step_control a p buffer c
            | WSPARSER_STAGE_PAYLOAD =>
                r ← websocketsparser_parse_payload a env z inflations p buffer; Some (Ret r)
            end = step_length a k p buffer c) as -> by (rewrite Hst; by destruct Hk as [-> | ->]).
    by apply step_length_ok.
  - destruct x as [|c0 x]; [done|]. injection El as -> <-. rewrite Hst. by apply step_mask_ok.
  - congruence.
  - destruct left as [|c0 left]; [done|]. cbn [xor_mask] in El. injection El as <- <-. rewrite Hst.
    by apply step_control_ok.
Qed.

Lemma ws_loop_ok fuel : ∀ p buffer f rest,
  ok_frame f → Doing p f rest → bytes_readed p = zlen buffer → 0 <= pos p →
  agrees (drop (Z.to_nat (pos p)) buffer) rest →
  (length (drop (Z.to_nat (pos p)) buffer) < fuel)%nat →
  run_good p buffer f rest (ws_loop a env z fuel inflations p buffer).
Proof.
  induction fuel as [|n IH]; intros p buffer f rest Hf Hd Hbr Hpos Hag Hfuel; [lia|].
  pose proof (doing_nonempty p f rest Hf Hd) as Hne. cbn [ws_loop]. rewrite Hbr.
  destruct (Z.ltb_spec (pos p) (zlen buffer)) as [Hlt|Hge].
  2: { exists WSPARSER_CONTINUE, p, buffer. rewrite drop_ge by (unfold zlen in Hge; lia).
       split; [done|]. split; [done|]. split; [done|]. left. simpl. rewrite drop_0. split; [|done].
       destruct rest; [done|]. rewrite zlen_cons. pose proof (zlen_nonneg rest).
       change (zlen []) with 0. lia. }
  destruct (mem_get_Some buffer (pos p)) as (c & Hc); [lia|]. rewrite Hc. cbn [mbind option_bind].
  rewrite mem_get_lookup in Hc by lia.
  destruct (decide (stage p = WSPARSER_STAGE_PAYLOAD)) as [Hs|Hs].
  - pose proof (parse_payload_ok p buffer f rest Hf Hd Hs Hbr ltac:(lia) Hag) as Hgood.
    unfold ws_step_byte. rewrite Hs. destruct Hgood as (st & q & b' & -> & Hgood).
    cbn [mbind option_bind]. exists st, q, b'. done.
  - rewrite (drop_S _ _ _ Hc) in Hag, Hfuel. destruct rest as [|c' rest]; [done|].
    assert (c' = c ∧ agrees (drop (S (Z.to_nat (pos p))) buffer) rest) as [-> Hag'].
    { destruct Hag as (x & y & E). cbn [app] in E. injection E as -> E. split; [done|]. by exists x, y. }
    pose proof (step_byte_ok p buffer f c rest Hf Hd Hs) as Hstep.
    unfold run_good. rewrite (drop_S _ _ _ Hc).
    destruct rest as [|c1 rest].
    + destruct Hstep as (q & -> & Hdone & Hpq & Hbq). cbn [mbind option_bind].
      pose proof (hd_fin _ _ (dn_header _ _ Hdone)) as Hfin.
      pose proof (hd_fragmented _ _ (dn_header _ _ Hdone)) as Hfrag.
      unfold frame_end. rewrite Hfin, Hfrag, Hpq, Hbq, Hbr. change (1 =? 0) with false. cbn [negb andb].
      assert (zlen (drop (S (Z.to_nat (pos p))) buffer) = zlen buffer - (pos p + 1)) as Hz
        by (unfold zlen in *; rewrite length_drop; lia).
      rewrite zlen_cons, Hz, zlen_cons. change (zlen []) with 0.
      destruct (Z.ltb_spec (pos p + 1) (zlen buffer)); cbn [negb].
      * eexists _, _, buffer. split; [done|]. split; [done|]. split; [simpl; lia|]. right; right.
        split; [lia|]. split; [done|]. split; [destruct Hdone as [[] ? ?]; by constructor|].
        simpl. split; [lia|done].
      * eexists _, q, buffer. split; [done|]. split; [done|]. split; [lia|]. right; left. split; [lia|done].
    + destruct Hstep as (q & -> & Hdq & Hpq & Hbq & _). cbn [mbind option_bind].
      destruct (IH (set_place q (pos_start q) (pos q + 1)) buffer f (c1 :: rest))
        as (st & q' & b' & -> & Hlen & Hb' & Hcase).
      * done.
      * by apply doing_place.
      * simpl. lia.
      * simpl. lia.
      * simpl. rewrite Hpq. by replace (Z.to_nat (pos p + 1)) with (S (Z.to_nat (pos p))) by lia.
      * simpl. rewrite Hpq. replace (Z.to_nat (pos p + 1)) with (S (Z.to_nat (pos p))) by lia.
        simpl in Hfuel. lia.
      * exists st, q', b'. split; [done|]. split; [done|]. split; [simpl in Hb'; lia|].
        simpl in Hcase. rewrite Hpq in Hcase.
        replace (Z.to_nat (pos p + 1)) with (S (Z.to_nat (pos p))) in Hcase by lia.
        rewrite !(zlen_cons c). rewrite !zlen_cons in *.
        destruct Hcase as [(? & ? & ?)|[(? & ? & ?)|(? & ? & ? & Hp & ?)]].
        -- left. split; [lia|]. done.
        -- right; left. split; [lia|]. done.
        -- right; right. split; [lia|]. split; [done|]. split; [done|]. split; [lia|done].
Qed.

(** ** Handling frames *)

Lemma run_ok p buffer f rest :
  ok_frame f → Doing p f rest → bytes_readed p = zlen buffer → pos_start p = pos p →
  0 <= pos p < zlen buffer → agrees (drop (Z.to_nat (pos p)) buffer) rest →
  run_good p buffer f rest (websocketsparser_run a env z inflations p buffer).
Proof.
  intros Hf Hd Hbr Hps Hpos Hag. unfold websocketsparser_run.
  destruct (decide (stage p = WSPARSER_STAGE_PAYLOAD)) as [Hs|Hs].
  - rewrite Hs. by apply parse_payload_ok.
  - assert (run_good p buffer f rest
      (ws_loop a env z (S (length buffer)) inflations (set_place p (pos_start p) (pos_start p)) buffer)) as Hgood.
    { rewrite Hps. apply (ws_loop_ok (S (length buffer)) (set_place p (pos p) (pos p)) buffer f rest);
        try done; [by apply doing_place|simpl; lia|]. rewrite length_drop. lia. }
    by destruct (stage p).
Qed.

Lemma expected_control f : is_control (cf_opcode f) = false →
  expected f = [Message (cf_opcode f + 128) (cf_payload f)].
Proof. unfold is_control, expected. intros Hc. reflect_bools. by repeat case_if; reflect_bools. Qed.

Lemma handle_ok p f :
  Done p f → ∃ b, handle a p = Some (expected f, set_buf p b) ∧ tb_inv b ∨
                  handle a p = Some (expected f, p) ∧ tb_inv b.
Proof.
  intros [[Hfin Hop Hfr Hi Hv] Hr Hc]. unfold handle. rewrite Hop, Hfin.
  destruct (is_control (cf_opcode f)) eqn:Hctl.
  - destruct (Hc eq_refl) as [_ Ht]. unfold expected, is_control in *.
    destruct (tb_get_ok a (buf p) memory Hi) as (b & Hg & Ib & _). exists b.
    destruct (cf_opcode f =? WSOPCODE_CLOSE); cbn [orb].
    + left. rewrite Hg, Ht. done.
    + destruct (cf_opcode f =? WSOPCODE_PING); cbn [orb] in *.
      * left. rewrite Hg, Ht. done.
      * right. rewrite Hctl. done.
  - exists (buf p). right. rewrite (expected_control f Hctl), (Hr eq_refl). unfold is_control in Hctl.
    reflect_bools. unfold WSOPCODE_CLOSE, WSOPCODE_PING, WSOPCODE_PONG in *.
    repeat case_if; reflect_bools; try lia; done.
Qed.

(** After the handler: the parser is clean, with the rest of the block ahead of it. *)
Lemma flush_clean p : tb_inv (buf p) → needed (utf8_validator p) = 0 →
  ∃ q, websocketsparser_flush p = Some q ∧ Clean q.
Proof.
  intros Hi Hv. unfold websocketsparser_flush. destruct (tb_reset_ok (buf p) Hi) as (b & -> & Ib & Eb).
  cbn [mbind option_bind]. eexists. split; [done|]. by constructor.
Qed.

Lemma prepare_clean p : tb_inv (buf p) → needed (utf8_validator p) = 0 → message_fragmented p = false →
  ∃ q, websocketsparser_prepare_remains p = Some q ∧ Clean q ∧ pos q = pos p ∧ pos_start q = pos p ∧
    bytes_readed q = bytes_readed p.
Proof.
  intros Hi Hv Hf. unfold websocketsparser_prepare_remains.
  match goal with |- context [if ?b then ?x else p] => set (p1 := if b then x else p) end.
  assert (buf p1 = buf p ∧ bytes_readed p1 = bytes_readed p ∧ pos p1 = pos p ∧
          message_fragmented p1 = false ∧ needed (utf8_validator p1) = 0) as (E1 & E2 & E3 & E4 & E5)
    by (unfold p1; by case_if).
  clearbody p1. rewrite E1. destruct (tb_clear_ok (buf p) Hi) as (b & -> & Ib & Eb).
  cbn [mbind option_bind]. eexists. split; [done|]. rewrite E4. simpl.
  split; [by constructor|]. by rewrite E2, E3.
Qed.

(** What the stream still owes: nothing, or the rest of a frame and more frames. *)
Inductive Pending (p : parser) : list Z → list ws_event → Prop :=
  | PIdle : Clean p → Pending p [] []
  | PFrame f rest fs : ok_frame f → Forall ok_frame fs → Doing p f rest →
      Pending p (rest ++ flat_map encode_frame fs) (expected f ++ flat_map expected fs).

Lemma clean_pending p fs :
  Clean p → Forall ok_frame fs → Pending p (flat_map encode_frame fs) (flat_map expected fs).
Proof.
  intros Hc Hf. destruct Hf as [|f fs Hf Hfs]; [by apply PIdle|]. cbn [flat_map].
  apply PFrame; try done. by apply DFirst.
Qed.

Lemma read_loop_ok fuel : ∀ p buffer f rest fs future log,
  ok_frame f → Forall ok_frame fs → Doing p f rest →
  bytes_readed p = zlen buffer → pos_start p = pos p → 0 <= pos p < zlen buffer →
  drop (Z.to_nat (pos p)) buffer ++ future = rest ++ flat_map encode_frame fs →
  (length (drop (Z.to_nat (pos p)) buffer) < fuel)%nat →
  ∃ q out evs, read_loop a env z fuel inflations p buffer log = Some (Wait, q, log ++ out) ∧
    Pending q future evs ∧ expected f ++ flat_map expected fs = out ++ evs.
Proof.
  induction fuel as [|n IH]; intros p buffer f rest fs future log Hf Hfs Hd Hbr Hps Hpos Hstream Hfuel; [lia|].
  set (avail := drop (Z.to_nat (pos p)) buffer) in *. cbn [read_loop].
  destruct (run_ok p buffer f rest Hf Hd Hbr Hps Hpos) as (st & q & b' & -> & Hlb & Hbq & Hcase).
  { by exists future, (flat_map encode_frame fs). }
  cbn [mbind option_bind]. fold avail in Hcase.
  destruct Hcase as [(Hlt & -> & Hdq)|[(Heq & -> & Hdone)|(Hgt & -> & Hdone & Hpq & Hdrop)]].
  - exists q, [], (expected f ++ flat_map expected fs). rewrite app_nil_r. split; [done|]. split; [|done].
    assert (future = drop (length avail) rest ++ flat_map encode_frame fs) as ->.
    { apply (f_equal (drop (length avail))) in Hstream. rewrite drop_app_length in Hstream.
      rewrite drop_app_le in Hstream by (unfold zlen in Hlt; lia). done. }
    by apply PFrame.
  - assert (future = flat_map encode_frame fs) as ->.
    { apply app_inj_1 in Hstream; [by destruct Hstream|unfold zlen in Heq; lia]. }
    pose proof Hdone as [[_ _ _ Hi Hv] _ _].
    assert (∃ q1, handle a q = Some (expected f, q1) ∧ tb_inv (buf q1) ∧ needed (utf8_validator q1) = 0)
      as (q1 & -> & Hi1 & Hv1).
    { destruct (handle_ok q f Hdone) as (b & [[-> Ib]|[-> Ib]]); eexists; split_and!; done. }
    cbn [mbind option_bind]. destruct (flush_clean q1 Hi1 Hv1) as (q2 & -> & Hc2). cbn [mbind option_bind].
    exists q2, (expected f), (flat_map expected fs). split; [done|]. split; [|done]. by apply clean_pending.
  - destruct fs as [|f' fs].
    { exfalso. apply (f_equal length) in Hstream. rewrite !length_app in Hstream. simpl in Hstream.
      unfold zlen in Hgt. lia. }
    apply Forall_cons in Hfs as [Hf' Hfs]. cbn [flat_map] in Hstream.
    pose proof Hdone as [[_ _ Hfrag Hi Hv] _ _].
    assert (∃ q1, handle a q = Some (expected f, q1) ∧ tb_inv (buf q1) ∧ needed (utf8_validator q1) = 0 ∧
              message_fragmented q1 = false ∧ pos q1 = pos q ∧ bytes_readed q1 = bytes_readed q)
      as (q1 & -> & Hi1 & Hv1 & Hfr1 & Hp1 & Hb1).
    { destruct (handle_ok q f Hdone) as (b & [[-> Ib]|[-> Ib]]); eexists; split_and!; done. }
    cbn [mbind option_bind]. destruct (prepare_clean q1 Hi1 Hv1 Hfr1) as (q2 & -> & Hc2 & Hp2 & Hs2 & Hb2).
    cbn [mbind option_bind]. pose proof (zlen_nonneg rest).
    assert (drop (Z.to_nat (pos q)) buffer = drop (length rest) avail) as Hrest.
    { unfold avail. rewrite drop_drop, Hpq. f_equal. unfold zlen. lia. }
    assert (zlen avail = zlen buffer - pos p) as Hza by (unfold avail; rewrite zlen_drop; lia).
    destruct (IH q2 b' f' (encode_frame f') fs future (log ++ expected f)) as (q' & out & evs & -> & Hpend & Hev).
    + done.
    + done.
    + by apply DFirst.
    + lia.
    + lia.
    + lia.
    + rewrite Hp2, Hp1, Hdrop, Hrest. apply (f_equal (drop (length rest))) in Hstream.
      rewrite drop_app_length, drop_app_le in Hstream by (unfold zlen in Hgt; lia). done.
    + rewrite Hp2, Hp1, Hdrop, Hrest, length_drop. 
      pose proof (doing_nonempty p f rest Hf Hd). destruct rest; [done|]. unfold zlen in Hgt. simpl in *. lia.
    + exists q', (expected f ++ out), evs. rewrite app_assoc. split; [done|]. split; [done|].
      cbn [flat_map]. by rewrite Hev, app_assoc.
Qed.

Lemma doing_fields p q f rest :
  Doing p f rest → stage q = stage p → frame q = frame p → buf q = buf p →
  payload_index q = payload_index p → payload_saved_length q = payload_saved_length p →
  message_fragmented q = message_fragmented p → request q = request p →
  utf8_validator q = utf8_validator p → Doing q f rest.
Proof.
  intros Hd E1 E2 E3 E4 E5 E6 E7 E8. destruct p, q. simpl in *. subst.
  destruct Hd as [[]|? [[] ? ? ?] ?|k x ? ? ? [[] ? ? ?] ? ? ?|x ? [[] ? ? ?] ? ? ?|seen left|left ? []]; simpl in *.
  - by apply DFirst.
  - by apply DSecond.
  - by apply (DLength _ _ k).
  - by apply DMask.
  - by apply DPayload.
  - match goal with |- Doing ?q _ _ => by apply (DControl q) end.
Qed.

Lemma read_blocks_ok blocks : ∀ p evs log,
  Forall (λ b, b ≠ []) blocks → Pending p (concat blocks) evs →
  ∃ q, read_blocks a env z inflations p blocks log = Some (Wait, q, log ++ evs) ∧ Clean q.
Proof.
  induction blocks as [|b blocks IH]; intros p evs log Hb Hp; cbn [concat read_blocks] in *.
  - remember [] as stream eqn:Es. destruct Hp as [Hc|f rest fs Hf Hfs Hd].
    + exists p. by rewrite app_nil_r.
    + apply app_nil in Es as [-> _]. by apply doing_nonempty in Hd.
  - apply Forall_cons in Hb as [Hbne Hb]. remember (b ++ concat blocks) as stream eqn:Es.
    destruct Hp as [Hc|f rest fs Hf Hfs Hd].
    { symmetry in Es. by apply app_nil in Es as [? _]. }
    unfold read_block. set (p1 := WsParser _ _ _ _ _ _ _ _ _ _ _ _ _ _ _ _ _).
    assert (0 < zlen b) as Hlb by (destruct b; [done|]; rewrite zlen_cons; pose proof (zlen_nonneg b); lia).
    destruct (read_loop_ok (S (S (length b))) p1 b f rest fs (concat blocks) log)
      as (q & out & evs & -> & Hpend & Hev); try done.
    + by apply (doing_fields p).
    + change (drop (Z.to_nat (pos p1)) b) with b. lia.
    + cbn [mbind option_bind]. rewrite Hev, app_assoc. by apply IH.
Qed.
End Stream.
