(* ===== verification/WsSafety.v ===== *)
(** The WebSocket parser on arbitrary bytes: it never leaves its blocks, its loops
    end, and what it hands over stays within the protocol's and the configured
    limits. Connections without permessage-deflate. *)

From S2P Require Import Prelude Bufferdata TokenBuffer Bufo WsUtf8 WsParser WsStream.

Definition event_ok (max : Z) (e : ws_event) : Prop :=
  match e with
  | Close payload | Pong payload => zlen payload <= 125
  | Message type payload =>
      (type = WEBSOCKETS_TEXT ∨ type = WEBSOCKETS_BINARY) ∧ zlen payload <= max
  end.

Definition nonneg (l : list Z) : Prop := Forall (λ c, 0 <= c) l.

Lemma nonneg_xor m index data : nonneg m → nonneg data → nonneg (xor_mask m index data).
Proof.
  intros Hm Hd. revert index. induction Hd as [|c data Hc _ IH]; intros index; cbn [xor_mask]; [constructor|].
  constructor; [|apply IH]. apply Z.lxor_nonneg. split; intros _; [|done].
  destruct (m !! Z.to_nat (index mod 4)) as [k|] eqn:E; simpl; [|lia].
  unfold nonneg in Hm. rewrite Forall_lookup in Hm. by apply Hm in E.
Qed.

Lemma length_loop_nonneg value k : ∀ i l,
  nonneg value → (i + k <= length value)%nat → 0 <= l →
  ∃ n, length_loop value i k l = Some n ∧ 0 <= n.
Proof.
  induction k as [|k IH]; intros i l Hv Hk Hl; [by exists l|]. rewrite length_loop_S.
  rewrite mem_get_lookup, Nat2Z.id by lia.
  destruct (lookup_lt_is_Some_2 value i) as [v Ev]; [lia|]. rewrite Ev. cbn [mbind option_bind].
  apply IH; [done|lia|]. unfold nonneg in Hv. rewrite Forall_lookup in Hv. apply Hv in Ev.
  apply Z.lor_nonneg. split; [|done]. unfold wrap64. apply Z.mod_pos_bound. lia.
Qed.

Section Safety.
Context {T D : Type} `{TokenBufferLaws T}.
Variable a : allocator.
Hypothesis memory : plenty_memory a.
Variable env : ws_env.
Hypothesis limit : 0 <= client_max_body_size env.
Variable z : inflater D.
Variable inflations : nat.

Abbreviation parser := (ws_parser T D).
Implicit Types (p : parser).

Definition request_ok (o : option ws_request) (fragmented : bool) : Prop :=
  match o with
  | None => fragmented = false
  | Some r => (ws_type r = WEBSOCKETS_TEXT ∨ ws_type r = WEBSOCKETS_BINARY) ∧
              ws_compressed r = false ∧ zlen (ws_payload r) <= client_max_body_size env
  end.

(** What holds at every point of a connection's life. *)
Record Sane (p : parser) : Prop := {
  sn_inv : tb_inv (buf p);
  sn_token : nonneg (tb_bytes (buf p));
  sn_mask : zlen (mask (frame p)) = 4;
  sn_mask_bytes : nonneg (mask (frame p));
  sn_deflate : ws_deflate_enabled p = false;
  sn_index : 0 <= payload_index p;
  sn_request : request_ok (request p) (message_fragmented p) }.

(** A frame whose first byte was accepted. *)
Definition accepted (p : parser) : Prop :=
  websocketsparser_is_control_frame (frame p) = true ∨
  websocketsparser_is_control_frame (frame p) = false ∧ request p ≠ None.

(** What each stage may rely on. *)
Definition stage_ok (p : parser) : Prop :=
  match stage p with
  | WSPARSER_STAGE_FIRST_BYTE => tb_bytes (buf p) = [] ∧ payload_saved_length p = 0
  | WSPARSER_STAGE_SECOND_BYTE => accepted p ∧ tb_bytes (buf p) = [] ∧ payload_saved_length p = 0
  | WSPARSER_STAGE_PAYLOAD_LEN_126 =>
      accepted p ∧ zlen (tb_bytes (buf p)) < 2 ∧ payload_saved_length p = 0
  | WSPARSER_STAGE_PAYLOAD_LEN_127 =>
      accepted p ∧ zlen (tb_bytes (buf p)) < 8 ∧ payload_saved_length p = 0
  | WSPARSER_STAGE_MASK_KEY =>
      accepted p ∧ zlen (tb_bytes (buf p)) < 4 ∧ payload_saved_length p = 0 ∧
      0 <= payload_length (frame p) ∧
      (websocketsparser_is_control_frame (frame p) = true → payload_length (frame p) <= 125)
  | WSPARSER_STAGE_PAYLOAD =>
      websocketsparser_is_control_frame (frame p) = false ∧ request p ≠ None ∧
      0 <= payload_saved_length p < payload_length (frame p)
  | WSPARSER_STAGE_CONTROL_PAYLOAD =>
      websocketsparser_is_control_frame (frame p) = true ∧
      zlen (tb_bytes (buf p)) = payload_saved_length p ∧
      payload_saved_length p < payload_length (frame p) <= 125
  end.

(** A frame ready for [__handle]. *)
Record Handed (p : parser) : Prop := {
  ha_sane : Sane p;
  ha_data : websocketsparser_is_control_frame (frame p) = false → request p ≠ None;
  ha_control : websocketsparser_is_control_frame (frame p) = true → zlen (tb_bytes (buf p)) <= 125 }.

(** The outcome of a run that started with [start] bytes of the block behind it. *)
Definition run_safe (p : parser) (buffer : list Z) (start : Z)
    (r : option (ws_result (T:=T) (D:=D))) : Prop :=
  ∃ st q buffer', r = Some (st, q, buffer') ∧ zlen buffer' = zlen buffer ∧ nonneg buffer' ∧
    match st with
    | WSPARSER_CONTINUE => Sane q ∧ stage_ok q
    | WSPARSER_COMPLETE => Handed q
    | WSPARSER_HANDLE_AND_CONTINUE =>
        Handed q ∧ start <= pos q <= zlen buffer ∧ bytes_readed q = bytes_readed p
    | _ => True
    end.

Lemma clear_safe p buffer start error :
  tb_inv (buf p) → nonneg buffer →
  error ≠ WSPARSER_CONTINUE → error ≠ WSPARSER_COMPLETE → error ≠ WSPARSER_HANDLE_AND_CONTINUE →
  ∃ q, clear_and_return p buffer error = Some (error, q, buffer) ∧
  run_safe p buffer start (clear_and_return p buffer error).
Proof.
  intros Hi Hb H1 H2 H3. unfold clear_and_return, websocketsparser_flush.
  destruct (tb_reset_ok (buf p) Hi) as (b & -> & _). cbn [mbind option_bind].
  eexists. split; [done|]. eexists error, _, buffer. split; [done|]. split; [done|]. split; [done|].
  by destruct error.
Qed.

(** A step leaves the parser in the loop, or ends the run. *)
Definition step_safe (p : parser) (buffer : list Z) (x : option (ws_step (T:=T) (D:=D))) : Prop :=
  (∃ q, x = Some (Go q buffer) ∧ Sane q ∧ stage_ok q ∧ pos q = pos p ∧ bytes_readed q = bytes_readed p) ∨
  (∃ r, x = Some (Ret r) ∧ run_safe p buffer (pos p + 1) (Some r)).

Lemma bad_request_safe p p0 buffer :
  tb_inv (buf p) → nonneg buffer →
  step_safe p0 buffer (r ← clear_and_return p buffer WSPARSER_BAD_REQUEST; Some (Ret r)).
Proof.
  intros Hi Hb. right. unfold clear_and_return, websocketsparser_flush.
  destruct (tb_reset_ok (buf p) Hi) as (b & -> & _). cbn [mbind option_bind].
  eexists. split; [done|]. eexists _, _, buffer. done.
Qed.

Lemma nonneg_snoc l c : nonneg l → 0 <= c → nonneg (l ++ [c]).
Proof. intros. apply Forall_app. split; [done|]. by constructor. Qed.

Lemma step_first_safe p buffer c :
  Sane p → stage p = WSPARSER_STAGE_FIRST_BYTE → stage_ok p → 0 <= c → nonneg buffer →
  step_safe p buffer (step_first_byte a p buffer c).
Proof.
  intros [Hi Ht Hm Hmb Hdf Hix Hrq] Hst Hs Hc Hb. unfold stage_ok in Hs. rewrite Hst in Hs.
  destruct Hs as [Htok Hsv]. unfold step_first_byte.
  destruct (token_ok a memory p c Hi) as (b1 & -> & I1 & E1 & b2 & H2 & I2 & E2 & b3 & H3 & I3 & b4 & H4 & I4 & E4).
  rewrite Htok in *. cbn [app] in *. cbn [mbind option_bind]. unfold finish_token.
  cbn [buf set_stage set_buf]. rewrite H2. cbn [mbind option_bind].
  unfold websocketsparser_parse_first_byte. erewrite first_char_ok by exact H3.
  cbn [mbind option_bind]. cbn [message_fragmented request set_frame set_buf set_stage ws_deflate_enabled set_message frame].
  rewrite Hdf. set (f := WsFrame _ _ _ _ _ _ _ _).
  assert (tb_inv (buf (set_frame (set_buf (set_buf (set_stage (set_buf p b1) WSPARSER_STAGE_SECOND_BYTE) b2) b3) f))) as Hbi by exact I3.
  destruct (negb (known_opcode (opcode f))) eqn:Hk; cbn [mbind option_bind negb]; [by apply bad_request_safe|].
  case_if; cbn [mbind option_bind negb]; [by apply bad_request_safe|].
  destruct (websocketsparser_is_control_frame f) eqn:Hctl.
  - case_if; cbn [mbind option_bind negb]; [by apply bad_request_safe|].
    case_if; cbn [mbind option_bind negb]; [by apply bad_request_safe|].
    unfold reset_token. cbn [buf set_frame set_buf set_stage]. rewrite H4. cbn [mbind option_bind].
    left. eexists. split; [done|]. split; [constructor; simpl; rewrite ?E4; try done; constructor|].
    split; [|done]. unfold stage_ok. simpl. split; [by left|done].
  - case_if; cbn [mbind option_bind negb]; [by apply bad_request_safe|].
    case_if; cbn [mbind option_bind negb]; [by apply bad_request_safe|].
    case_if; cbn [mbind option_bind negb]; [by apply bad_request_safe|].
    case_if; cbn [mbind option_bind negb]; [by apply bad_request_safe|].
    assert (negb (rsv1 f =? 0) = false) as Hrsv
      by (match goal with H : negb (rsv1 f =? 0) && true = false |- _ => by rewrite andb_true_r in H end).
    rewrite Hrsv. cbn [orb].
    unfold reset_token. cbn [buf set_message set_frame set_buf set_stage]. rewrite H4. cbn [mbind option_bind].
    left. eexists. split; [done|]. split; [|split; [unfold stage_ok; simpl; split; [by right|done]|done]].
    constructor; simpl; rewrite ?E4; try done.
    unfold websocketsparser_is_control_frame, known_opcode in Hctl, Hk.
    destruct (request p) as [r|] eqn:Er; simpl in Hrq |- *.
    + destruct Hrq as (Hty & Hcomp & Hlen). rewrite Hcomp.
      destruct (Z.eqb_spec (ws_type r) WEBSOCKETS_NONE) as [En|_];
        [rewrite En in Hty; by destruct Hty|]. done.
    + rewrite Hrq in *. split; [|done].
      reflect_bools. unfold WEBSOCKETS_TEXT, WEBSOCKETS_BINARY, WSOPCODE_CONTINUE, WSOPCODE_TEXT,
        WSOPCODE_BINARY, WSOPCODE_CLOSE, WSOPCODE_PING, WSOPCODE_PONG in *.
      assert (opcode f ≠ 0) as Hz by (destruct E0 as [E0|E0]; [by apply Z.eqb_neq in E0|done]).
      rewrite !orb_true_iff, !Z.eqb_eq in Hk. change (Z.land c 15) with (opcode f). lia.
Qed.

Lemma land127 c : 0 <= Z.land c 0x7F <= 127.
Proof.
  assert (Z.land c 127 = c mod 128) as -> by (apply (Z.land_ones c 7); lia).
  pose proof (Z.mod_pos_bound c 128). lia.
Qed.

Lemma step_second_safe p buffer c :
  Sane p → stage p = WSPARSER_STAGE_SECOND_BYTE → stage_ok p → 0 <= c → nonneg buffer →
  step_safe p buffer (step_second_byte a p buffer c).
Proof.
  intros [Hi Ht Hm Hmb Hdf Hix Hrq] Hst Hs Hc Hb. unfold stage_ok in Hs. rewrite Hst in Hs.
  destruct Hs as (Hacc & Htok & Hsv). unfold step_second_byte.
  destruct (token_ok a memory p c Hi) as (b1 & -> & I1 & E1 & b2 & H2 & I2 & E2 & b3 & H3 & I3 & b4 & H4 & I4 & E4).
  rewrite Htok in *. cbn [app] in *. cbn [mbind option_bind]. unfold finish_token.
  cbn [buf set_stage set_buf]. rewrite H2. cbn [mbind option_bind].
  unfold websocketsparser_parse_second_byte. erewrite first_char_ok by exact H3. cbn [mbind option_bind].
  destruct (negb (masked _ =? 0)); cbn [negb]; [|by apply bad_request_safe].
  cbn [frame set_frame payload_length]. pose proof (land127 c) as Hl.
  unfold reset_token. cbn [buf set_stage set_buf set_frame]. rewrite H4. cbn [mbind option_bind].
  left. eexists. split; [done|]. split; [constructor; simpl; rewrite ?E4; try done; constructor|].
  split; [|done]. unfold stage_ok. cbn [stage set_buf set_stage buf frame payload_saved_length set_frame].
  destruct (Z.eqb_spec (Z.land c 127) 126) as [En|Hn6]; [by rewrite E4|].
  destruct (Z.eqb_spec (Z.land c 127) 127) as [En|Hn7]; [by rewrite E4|].
  rewrite E4. cbn [payload_length]. split; [done|]. split; [done|]. split; [done|]. lia.
Qed.

Lemma step_length_safe k st p buffer c :
  (k = 2 ∧ st = WSPARSER_STAGE_PAYLOAD_LEN_126 ∨ k = 8 ∧ st = WSPARSER_STAGE_PAYLOAD_LEN_127)%nat →
  Sane p → stage p = st → stage_ok p → 0 <= c → nonneg buffer →
  step_safe p buffer (step_length a k p buffer c).
Proof.
  intros Hk [Hi Ht Hm Hmb Hdf Hix Hrq] Hst Hs Hc Hb. unfold stage_ok in Hs. rewrite Hst in Hs.
  assert (accepted p ∧ zlen (tb_bytes (buf p)) < Z.of_nat k ∧ payload_saved_length p = 0) as (Hacc & Htok & Hsv)
    by (destruct Hk as [[-> ->]|[-> ->]]; exact Hs).
  unfold step_length. destruct (websocketsparser_is_control_frame (frame p)) eqn:Hctl; [by apply bad_request_safe|].
  destruct (token_ok a memory p c Hi) as (b1 & -> & I1 & E1 & b2 & H2 & I2 & E2 & b3 & H3 & I3 & b4 & H4 & I4 & E4).
  cbn [mbind option_bind]. rewrite (tb_writed_ok b1 I1), E1.
  assert (zlen (tb_bytes (buf p) ++ [c]) = zlen (tb_bytes (buf p)) + 1) as Hz by (rewrite zlen_app; done).
  pose proof (nonneg_snoc _ c Ht Hc) as Hnn.
  destruct (Z.ltb_spec (zlen (tb_bytes (buf p) ++ [c])) (Z.of_nat k)) as [Hlt|Hge].
  - left. eexists. split; [done|]. split; [constructor; simpl; rewrite ?E1; done|]. split; [|done].
    unfold stage_ok. cbn [stage set_buf buf payload_saved_length]. rewrite Hst, E1.
    destruct Hk as [[-> ->]|[-> ->]]; (split; [done|]); (split; [lia|done]).
  - unfold finish_token. cbn [buf set_stage set_buf]. rewrite H2. cbn [mbind option_bind].
    unfold websocketsparser_set_payload_length. cbn [buf set_buf]. rewrite H3. cbn [mbind option_bind].
    destruct (length_loop_nonneg (tb_bytes (buf p) ++ [c]) k 0 0) as (n & -> & Hn);
      [done|unfold zlen in *; lia|lia|].
    cbn [mbind option_bind negb]. unfold reset_token. cbn [buf set_buf set_frame]. rewrite H4.
    cbn [mbind option_bind]. left. eexists. split; [done|].
    split; [constructor; simpl; rewrite ?E4; try done; constructor|]. split; [|done].
    unfold stage_ok. simpl. rewrite E4.
    change (websocketsparser_is_control_frame _) with (websocketsparser_is_control_frame (frame p)).
    rewrite Hctl. split; [exact Hacc|]. done.
Qed.

Lemma frame_end_safe p q buffer :
  Handed q → nonneg buffer → pos q = pos p → bytes_readed q = bytes_readed p → pos p + 1 <= zlen buffer →
  run_safe p buffer (pos p + 1) (Some (frame_end q buffer)).
Proof.
  intros Hh Hb Hp Hbr Hle. unfold frame_end. case_if; eexists _, _, buffer; (split; [done|]); (split; [done|]);
    (split; [done|]); [done|]. split; [|simpl; rewrite Hp; lia].
  destruct Hh as [[] ? ?]. by constructor.
Qed.

Lemma step_mask_safe p buffer c :
  Sane p → stage p = WSPARSER_STAGE_MASK_KEY → stage_ok p → 0 <= c → nonneg buffer →
  pos p + 1 <= zlen buffer → step_safe p buffer (step_mask a p buffer c).
Proof.
  intros [Hi Ht Hm Hmb Hdf Hix Hrq] Hst Hs Hc Hb Hpos. unfold stage_ok in Hs. rewrite Hst in Hs.
  destruct Hs as (Hacc & Htok & Hsv & Hpl & Hcl). unfold step_mask.
  destruct (token_ok a memory p c Hi) as (b1 & -> & I1 & E1 & b2 & H2 & I2 & E2 & b3 & H3 & I3 & b4 & H4 & I4 & E4).
  cbn [mbind option_bind]. rewrite (tb_writed_ok b1 I1), E1.
  assert (zlen (tb_bytes (buf p) ++ [c]) = zlen (tb_bytes (buf p)) + 1) as Hz by (rewrite zlen_app; done).
  pose proof (nonneg_snoc _ c Ht Hc) as Hnn.
  destruct (Z.ltb_spec (zlen (tb_bytes (buf p) ++ [c])) 4) as [Hlt|Hge].
  - left. eexists. split; [done|]. split; [constructor; simpl; rewrite ?E1; done|]. split; [|done].
    unfold stage_ok. cbn [stage set_buf buf payload_saved_length frame]. rewrite Hst, E1.
    split; [done|]. split; [lia|]. done.
  - unfold finish_token. cbn [buf set_stage set_buf]. rewrite H2. cbn [mbind option_bind].
    unfold websocketsparser_parse_mask. cbn [buf set_buf]. rewrite H3. cbn [mbind option_bind].
    rewrite mem_read_Some by lia. rewrite drop_0. set (m := take _ _).
    assert (zlen m = 4) as Hzm by (unfold m; rewrite zlen_take; lia).
    assert (nonneg m) as Hmn by (unfold m, nonneg; by apply Forall_take).
    cbn [mbind option_bind negb]. cbn [buf set_buf set_stage set_frame]. rewrite H4. cbn [mbind option_bind].
    replace (websocketsparser_is_control_frame _) with (websocketsparser_is_control_frame (frame p)) by done.
    set (st := if websocketsparser_is_control_frame (frame p) then _ else _).
    set (q := set_buf _ b4).
    assert (Sane q) as Hq by (constructor; simpl; rewrite ?E4; try done; constructor).
    change (payload_length (frame q)) with (payload_length (frame p)).
    destruct (Z.eqb_spec (payload_length (frame p)) 0) as [E0|E0].
    + right. eexists. split; [done|]. apply frame_end_safe; try done. constructor; [done| |].
      * intros Hd. change (websocketsparser_is_control_frame (frame p) = false) in Hd.
        destruct Hacc as [Hacc|[_ Hacc]]; [congruence|exact Hacc].
      * intros _. simpl. rewrite E4. done.
    + left. exists q. split; [done|]. split; [done|]. split; [|done]. unfold stage_ok.
      change (stage q) with st. unfold st.
      destruct (websocketsparser_is_control_frame (frame p)) eqn:Hctl.
      * split; [exact Hctl|]. simpl. rewrite E4, Hsv. split; [done|]. specialize (Hcl eq_refl). lia.
      * destruct Hacc as [Hacc|[_ Hacc]]; [congruence|]. split; [exact Hctl|]. split; [exact Hacc|]. simpl. lia.
Qed.

Lemma step_control_safe p buffer c :
  Sane p → stage p = WSPARSER_STAGE_CONTROL_PAYLOAD → stage_ok p → 0 <= c → nonneg buffer →
  pos p + 1 <= zlen buffer → step_safe p buffer (step_control a p buffer c).
Proof.
  intros [Hi Ht Hm Hmb Hdf Hix Hrq] Hst Hs Hc Hb Hpos. unfold stage_ok in Hs. rewrite Hst in Hs.
  destruct Hs as (Hctl & Htok & Hlen). unfold step_control.
  pose proof (Z.mod_pos_bound (payload_index p) 4) as Hmod.
  destruct (mem_get_Some (mask (frame p)) (payload_index p mod 4)) as (k & Hk); [lia|].
  rewrite Hk. cbn [mbind option_bind].
  assert (0 <= k) as Hk0.
  { rewrite mem_get_lookup in Hk by lia. unfold nonneg in Hmb. rewrite Forall_lookup in Hmb. by apply Hmb in Hk. }
  assert (0 <= Z.lxor c k) as Hx by (by apply Z.lxor_nonneg).
  pose proof (nonneg_snoc _ _ Ht Hx) as Hnn. cbn [buf set_progress].
  destruct (tb_push_ok a (buf p) (Z.lxor c k) memory Hi) as (b1 & -> & I1 & E1).
  cbn [mbind option_bind frame set_buf set_progress].
  assert (zlen (tb_bytes b1) = payload_saved_length p + 1) as Hz by (rewrite E1, zlen_app, Htok; done).
  destruct (Z.eqb_spec (payload_saved_length p + 1) (payload_length (frame p))) as [E|E].
  - right. cbn [buf set_buf]. destruct (tb_complete_ok a b1 memory I1) as (b2 & -> & I2 & E2).
    cbn [mbind option_bind]. eexists. split; [done|]. apply frame_end_safe; try done.
    constructor; [constructor; simpl; rewrite ?E2, ?E1; try done; lia| |].
    + intros Hd. change (websocketsparser_is_control_frame (frame p) = false) in Hd. congruence.
    + intros _. simpl. rewrite E2. lia.
  - left. eexists. split; [done|]. split; [constructor; simpl; rewrite ?E1; try done; lia|]. split; [|done].
    unfold stage_ok. cbn [stage set_buf set_progress buf frame payload_saved_length]. rewrite Hst, Hz.
    split; [exact Hctl|]. lia.
Qed.

(** Storing a slice of payload: within the block, within the limit. *)
Lemma plain_chunk_safe p r buffer data :
  Sane p → request_ok (Some r) (message_fragmented p) → nonneg buffer → nonneg data →
  0 <= pos p → pos p + zlen data <= zlen buffer →
  ∃ ok q r' buffer', plain_chunk env p r buffer data = Some (ok, q, r', buffer') ∧
    request_ok (Some r') (message_fragmented p) ∧
    q = set_validator (set_progress p (payload_index p + zlen data) (payload_saved_length p)) (utf8_validator q) ∧
    zlen buffer' = zlen buffer ∧ nonneg buffer'.
Proof.
  intros [Hi Ht Hm Hmb Hdf Hix Hrq] Hr Hb Hd Hp Hfit. unfold plain_chunk.
  rewrite unmask_ok by done. cbn [mbind option_bind]. set (plain := xor_mask _ _ _).
  assert (zlen plain = zlen data) as Hzp by apply zlen_xor_mask.
  assert (nonneg plain) as Hnp by (by apply nonneg_xor).
  rewrite mem_write_Some by lia. cbn [mbind option_bind]. set (buffer' := _ ++ plain ++ _).
  assert (zlen buffer' = zlen buffer ∧ nonneg buffer') as [Hlb Hnb].
  { split.
    - unfold buffer', zlen in *. rewrite !length_app, length_take, length_drop. lia.
    - unfold buffer', nonneg in *. apply Forall_app. split; [by apply Forall_take|].
      apply Forall_app. split; [done|]. by apply Forall_drop. }
  assert (∃ o, payload_store env r plain = o ∧
    match o with Some r' => request_ok (Some r') (message_fragmented p) | None => True end) as (o & -> & Ho).
  { eexists. split; [done|]. unfold payload_store. destruct Hr as (Hty & Hcomp & Hlen).
    destruct (zlen plain =? 0); [done|].
    destruct (Z.ltb_spec (client_max_body_size env) (zlen (ws_payload r) + zlen plain)); [done|].
    destruct (store_ok env plain); [|done]. simpl. rewrite zlen_app. done. }
  destruct o as [r'|].
  - unfold websocketsparser_text_feed_ok. case_if.
    + eexists true, _, r', buffer'. split; [done|]. split; [exact Ho|]. by split.
    + destruct (ws_utf8_validator_feed _ plain) as [ok v].
      eexists ok, _, r', buffer'. split; [done|]. split; [exact Ho|]. by split.
  - eexists false, _, r, buffer'. split; [done|]. split; [exact Hr|]. by split.
Qed.

Lemma parse_payload_safe p buffer :
  Sane p → stage p = WSPARSER_STAGE_PAYLOAD → stage_ok p → nonneg buffer →
  bytes_readed p = zlen buffer → 0 <= pos p <= zlen buffer →
  run_safe p buffer (pos p) (websocketsparser_parse_payload a env z inflations p buffer).
Proof.
  intros Hsane Hst Hs Hb Hbr Hpos. pose proof Hsane as [Hi Ht Hm Hmb Hdf Hix Hrq].
  unfold stage_ok in Hs. rewrite Hst in Hs. destruct Hs as (Hctl & Hreq & Hsv).
  unfold websocketsparser_parse_payload. destruct (request p) as [r|] eqn:Er; [|done].
  cbn [mbind option_bind]. rewrite Hbr. set (more := payload_length (frame p) <? _).
  set (size := if more then _ else _).
  assert (0 <= size <= zlen buffer - pos p ∧ payload_saved_length p + size <= payload_length (frame p)) as Hsize.
  { unfold size, more. destruct (Z.ltb_spec (payload_length (frame p)) (zlen buffer - pos p + payload_saved_length p)); lia. }
  clearbody size. destruct (Z.ltb_spec (client_max_body_size env) (payload_saved_length p + size)).
  { destruct (clear_safe p buffer (pos p) WSPARSER_PAYLOAD_LARGE) as (q & _ & Hq); done. }
  set (p1 := set_progress p (payload_index p) (payload_saved_length p + size)).
  rewrite mem_read_Some by (simpl; lia). cbn [mbind option_bind]. set (data := take _ _).
  assert (zlen data = size) as Hzd by (unfold data; rewrite zlen_take, zlen_drop; simpl; lia).
  assert (ws_compressed r = false) as -> by (by destruct Hrq as (_ & ? & _)).
  destruct (plain_chunk_safe p1 r buffer data) as (ok & q & r' & buffer' & -> & Hr' & Eq & Hlb & Hnb);
    [constructor; simpl; rewrite ?Er; done|done|done|by apply Forall_take, Forall_drop|simpl; lia|simpl; lia|].
  cbn [mbind option_bind].
  assert (stage q = stage p ∧ frame q = frame p ∧ buf q = buf p ∧ bytes_readed q = bytes_readed p ∧ pos q = pos p ∧
          ws_deflate_enabled q = ws_deflate_enabled p ∧
          payload_index q = payload_index p + zlen data ∧ message_fragmented q = message_fragmented p ∧
          payload_saved_length q = payload_saved_length p + size)
    as (Q1 & Q2 & Q3 & Q4 & Q5 & Q6 & Q7 & Q8 & Q9) by (rewrite Eq; simpl; done).
  set (q1 := set_message q (message_fragmented q) (Some r')).
  assert (Sane q1) as Hq1.
  { constructor; cbn [q1 set_message buf frame ws_deflate_enabled payload_index request message_fragmented];
      rewrite ?Q2, ?Q3, ?Q6, ?Q8; try done. rewrite Q7. pose proof (zlen_nonneg data). lia. }
  assert (Handed q1) as Hh1.
  { constructor; [done|done|]. intros Hd. simpl in Hd. rewrite Q2 in Hd. congruence. }
  assert (∀ error, error ≠ WSPARSER_CONTINUE → error ≠ WSPARSER_COMPLETE → error ≠ WSPARSER_HANDLE_AND_CONTINUE →
    ∀ q0, buf q0 = buf q1 → run_safe p buffer (pos p) (clear_and_return q0 buffer' error)) as Hclear.
  { intros error ? ? ? q0 E0. destruct (clear_safe q0 buffer' (pos p) error) as (q2 & -> & _); try done.
    { rewrite E0. exact (sn_inv _ Hq1). }
    eexists error, q2, buffer'. split; [done|]. split; [done|]. split; [done|]. by destruct error. }
  destruct ok; cbn [negb]; [|by apply Hclear].
  destruct more eqn:Em.
  - case_if; [by apply Hclear|]. eexists _, _, buffer'. split; [done|]. split; [done|]. split; [done|].
    split; [destruct Hh1 as [[] ? ?]; by constructor|]. simpl. rewrite Q5, Q4. lia.
  - destruct (Z.eqb_spec (payload_saved_length p1) (payload_length (frame p1))) as [Hfull|Hpart]; cbn [negb].
    + repeat case_if; try (by apply Hclear); try (by eexists _, _, buffer').
      all: eexists _, _, buffer'; (split; [done|]); (split; [done|]); (split; [done|]); (split; [done|]);
        simpl; rewrite Q5, Q4; lia.
    + eexists _, _, buffer'. split; [done|]. split; [done|]. split; [done|]. split; [done|].
      unfold stage_ok. cbn [q1 set_message stage frame request payload_saved_length]. rewrite Q1, Q2, Q9, Hst.
      simpl in Hpart. split; [done|]. split; [done|]. lia.
Qed.

Lemma step_byte_safe p buffer c :
  Sane p → stage_ok p → stage p ≠ WSPARSER_STAGE_PAYLOAD → 0 <= c → nonneg buffer →
  pos p + 1 <= zlen buffer → step_safe p buffer (ws_step_byte a env z inflations p buffer c).
Proof.
  intros Hs Hk Hp Hc Hb Hpos. unfold ws_step_byte. destruct (stage p) eqn:E; try done.
  - by apply step_first_safe.
  - by apply step_second_safe.
  - apply (step_length_safe 2 WSPARSER_STAGE_PAYLOAD_LEN_126); auto.
  - apply (step_length_safe 8 WSPARSER_STAGE_PAYLOAD_LEN_127); auto.
  - by apply step_mask_safe.
  - by apply step_control_safe.
Qed.

(** The loop, past [start]: a frame it hands over ends beyond [start]. *)
Lemma ws_loop_safe start fuel : ∀ p buffer,
  Sane p → stage_ok p → nonneg buffer → bytes_readed p = zlen buffer → 0 <= start <= pos p →
  (stage p = WSPARSER_STAGE_PAYLOAD → start < pos p) →
  zlen buffer - pos p < Z.of_nat fuel → (0 < fuel)%nat →
  run_safe p buffer (start + 1) (ws_loop a env z fuel inflations p buffer).
Proof.
  induction fuel as [|n IH]; intros p buffer Hs Hk Hb Hbr Hst Hpay Hfuel Hf0; [lia|]. cbn [ws_loop].
  rewrite Hbr. destruct (Z.ltb_spec (pos p) (zlen buffer)) as [Hlt|Hge].
  2: { by eexists _, p, buffer. }
  destruct (mem_get_Some buffer (pos p)) as (c & Hc); [lia|]. rewrite Hc. cbn [mbind option_bind].
  assert (0 <= c) as Hc0.
  { rewrite mem_get_lookup in Hc by lia. unfold nonneg in Hb. rewrite Forall_lookup in Hb. by apply Hb in Hc. }
  assert (∀ s r, start + 1 <= s → run_safe p buffer s (Some r) → run_safe p buffer (start + 1) (Some r)) as Hweak.
  { intros s r Hle (st & q & b' & E & H1 & H2 & H3). exists st, q, b'. split_and!; try done.
    destruct st; try done. destruct H3 as (? & ? & ?). split; [done|]. split; [lia|done]. }
  destruct (decide (stage p = WSPARSER_STAGE_PAYLOAD)) as [E|E].
  - unfold ws_step_byte. rewrite E.
    pose proof (parse_payload_safe p buffer Hs E Hk Hb Hbr ltac:(lia)) as Hsafe.
    destruct (websocketsparser_parse_payload a env z inflations p buffer) as [r|]; cbn [mbind option_bind].
    + apply (Hweak (pos p)); [specialize (Hpay E); lia|done].
    + destruct Hsafe as (? & ? & ? & ? & _). done.
  - destruct (step_byte_safe p buffer c Hs Hk E Hc0 Hb ltac:(lia))
      as [(q & -> & Hsq & Hkq & Hpq & Hbq)|(r & -> & Hsafe)]; cbn [mbind option_bind].
    + destruct (IH (set_place q (pos_start q) (pos q + 1)) buffer) as (st & q' & b' & Heq & H1 & H2 & H3);
        try done.
      * destruct Hsq. by constructor.
      * simpl. lia.
      * simpl. lia.
      * simpl. lia.
      * simpl. lia.
      * simpl. lia.
      * exists st, q', b'. split_and!; try done. destruct st; try done. simpl in H3. by rewrite Hbq in H3.
    + apply (Hweak (pos p + 1)); [lia|done].
Qed.

Lemma run_total p buffer :
  Sane p → stage_ok p → nonneg buffer → bytes_readed p = zlen buffer → pos_start p = pos p →
  0 <= pos p <= zlen buffer →
  run_safe p buffer (if decide (stage p = WSPARSER_STAGE_PAYLOAD) then pos p else pos p + 1)
    (websocketsparser_run a env z inflations p buffer).
Proof.
  intros Hs Hk Hb Hbr Hps Hpos. unfold websocketsparser_run.
  destruct (decide (stage p = WSPARSER_STAGE_PAYLOAD)) as [E|E].
  - rewrite E. by apply parse_payload_safe.
  - assert (run_safe p buffer (pos p + 1)
      (ws_loop a env z (S (length buffer)) inflations (set_place p (pos_start p) (pos_start p)) buffer)) as Hgood.
    { rewrite Hps. destruct (ws_loop_safe (pos p) (S (length buffer)) (set_place p (pos p) (pos p)) buffer)
        as (st & q & b' & Heq & H1 & H2 & H3); try done.
      - destruct Hs. by constructor.
      - simpl. lia.
      - simpl. unfold zlen. lia.
      - lia.
      - exists st, q, b'. done. }
    by destruct (stage p).
Qed.

Lemma handle_safe p :
  Handed p →
  ∃ evs q, handle a p = Some (evs, q) ∧ Forall (event_ok (client_max_body_size env)) evs ∧ Sane q ∧
    pos q = pos p ∧ bytes_readed q = bytes_readed p.
Proof.
  intros [Hs Hd Hc]. pose proof Hs as [Hi Ht Hm Hmb Hdf Hix Hrq]. unfold handle.
  destruct (tb_get_ok a (buf p) memory Hi) as (b & Hg & Ib & Eb).
  assert (Sane (set_buf p b)) as Hsb by (constructor; simpl; rewrite ?Eb; done).
  unfold websocketsparser_is_control_frame in *.
  destruct (opcode (frame p) =? WSOPCODE_CLOSE) eqn:E1; cbn [orb] in *.
  - rewrite Hg. cbn [mbind option_bind]. eexists _, _. split; [done|]. split; [|done].
    constructor; [|constructor]. simpl. by apply Hc.
  - destruct (opcode (frame p) =? WSOPCODE_PING) eqn:E2; cbn [orb] in *.
    + rewrite Hg. cbn [mbind option_bind]. eexists _, _. split; [done|]. split; [|done].
      constructor; [|constructor]. simpl. by apply Hc.
    + destruct (opcode (frame p) =? WSOPCODE_PONG); [by exists [], p|].
      destruct (fin (frame p) =? 0); [by exists [], p|].
      destruct (request p) as [r|]; [|by specialize (Hd eq_refl)]. cbn [mbind option_bind].
      eexists _, p. split; [done|]. split; [|done]. constructor; [|constructor].
      destruct Hrq as (? & _ & ?). done.
Qed.

Lemma flush_safe p : Sane p →
  ∃ q, websocketsparser_flush p = Some q ∧ Sane q ∧ stage_ok q.
Proof.
  intros [Hi Ht Hm Hmb Hdf Hix Hrq]. unfold websocketsparser_flush.
  destruct (tb_reset_ok (buf p) Hi) as (b & -> & Ib & Eb). cbn [mbind option_bind].
  eexists. split; [done|]. split; [|done].
  constructor; simpl; rewrite ?Eb; try done; repeat constructor; lia.
Qed.

Lemma prepare_safe p : Sane p →
  ∃ q, websocketsparser_prepare_remains p = Some q ∧ Sane q ∧ stage_ok q ∧ pos q = pos p ∧
    pos_start q = pos p ∧ bytes_readed q = bytes_readed p ∧ stage q = WSPARSER_STAGE_FIRST_BYTE.
Proof.
  intros [Hi Ht Hm Hmb Hdf Hix Hrq]. unfold websocketsparser_prepare_remains.
  match goal with |- context [if ?b then ?x else p] => set (p1 := if b then x else p) end.
  assert (buf p1 = buf p ∧ bytes_readed p1 = bytes_readed p ∧ pos p1 = pos p ∧ request p1 = request p ∧
          message_fragmented p1 = message_fragmented p ∧ ws_deflate_enabled p1 = ws_deflate_enabled p)
    as (E1 & E2 & E3 & E4 & E5 & E6) by (unfold p1; by case_if).
  clearbody p1. rewrite E1. destruct (tb_clear_ok (buf p) Hi) as (b & -> & Ib & Eb).
  cbn [mbind option_bind]. eexists. split; [done|]. split; [|by split_and!].
  constructor; simpl; rewrite ?Eb, ?E4, ?E5, ?E6; try done; try (repeat constructor; lia).
  destruct (message_fragmented p); [|done]. done.
Qed.

Lemma read_loop_safe fuel : ∀ p buffer log,
  Sane p → stage_ok p → nonneg buffer → bytes_readed p = zlen buffer → pos_start p = pos p →
  0 <= pos p <= zlen buffer →
  zlen buffer - pos p + (if decide (stage p = WSPARSER_STAGE_PAYLOAD) then 1 else 0) < Z.of_nat fuel →
  ∃ v q evs, read_loop a env z fuel inflations p buffer log = Some (v, q, log ++ evs) ∧
    Forall (event_ok (client_max_body_size env)) evs ∧ (v = Wait → Sane q ∧ stage_ok q).
Proof.
  induction fuel as [|n IH]; intros p buffer log Hs Hk Hb Hbr Hps Hpos Hfuel; [case_decide; lia|].
  cbn [read_loop].
  destruct (run_total p buffer Hs Hk Hb Hbr Hps Hpos) as (st & q & b' & -> & Hlb & Hnb & Hst).
  cbn [mbind option_bind]. destruct st.
  - exists Drop, q, []. rewrite app_nil_r. by split_and!.
  - exists Wait, q, []. rewrite app_nil_r. by split_and!.
  - exists (Fail 1002), q, []. rewrite app_nil_r. by split_and!.
  - exists (Fail 1009), q, []. rewrite app_nil_r. by split_and!.
  - destruct Hst as (Hh & Hpq & Hbq).
    destruct (handle_safe q Hh) as (evs & q1 & -> & Hev & Hs1 & Hp1 & Hb1). cbn [mbind option_bind].
    destruct (prepare_safe q1 Hs1) as (q2 & -> & Hs2 & Hk2 & Hp2 & Hps2 & Hb2 & Hst2). cbn [mbind option_bind].
    destruct (IH q2 b' (log ++ evs)) as (v & q3 & evs' & -> & Hev' & Hv); try done; try lia.
    + rewrite Hp2, Hp1, Hlb. destruct (decide (stage p = _)); lia.
    + rewrite Hst2, decide_False by done. rewrite Hp2, Hp1, Hlb. destruct (decide (stage p = _)); lia.
    + exists v, q3, (evs ++ evs'). rewrite app_assoc. split; [done|]. split; [|done].
      by apply Forall_app.
  - destruct (handle_safe q Hst) as (evs & q1 & -> & Hev & Hs1 & _). cbn [mbind option_bind].
    destruct (flush_safe q1 Hs1) as (q2 & -> & Hs2 & Hk2). cbn [mbind option_bind].
    exists Wait, q2, evs. done.
Qed.

Lemma read_blocks_safe blocks : ∀ p log,
  Sane p → stage_ok p → Forall nonneg blocks →
  ∃ v q evs, read_blocks a env z inflations p blocks log = Some (v, q, log ++ evs) ∧
    Forall (event_ok (client_max_body_size env)) evs.
Proof.
  induction blocks as [|b blocks IH]; intros p log Hs Hk Hb; cbn [read_blocks].
  - exists Wait, p, []. by rewrite app_nil_r.
  - apply Forall_cons in Hb as [Hb Hbs]. unfold read_block. set (p1 := WsParser _ _ _ _ _ _ _ _ _ _ _ _ _ _ _ _ _).
    destruct (read_loop_safe (S (S (length b))) p1 b log) as (v & q & evs & -> & Hev & Hv); try done.
    + destruct Hs. by constructor.
    + simpl. pose proof (zlen_nonneg b). lia.
    + cbn [pos p1]. unfold zlen. destruct (decide _); lia.
    + cbn [mbind option_bind]. destruct v; [|by exists Drop, q, evs|by exists (Fail code), q, evs].
      destruct (Hv eq_refl) as [Hsq Hkq].
      destruct (IH q (log ++ evs) Hsq Hkq Hbs) as (v & q' & evs' & -> & Hev').
      exists v, q', (evs ++ evs'). rewrite app_assoc. split; [done|]. by apply Forall_app.
Qed.
End Safety.
