(* ===== verification/WsTheorems.v ===== *)
(** What the WebSocket parser guarantees, stated of the parser over [bufferdata_t]. *)

From S2P Require Import Prelude Bufferdata TokenBuffer Bufo WsUtf8 WsParser WsStream WsSafety.

(** What a session shows to the outside. *)
Definition outcome {T D : Type} (r : option (ws_verdict * ws_parser T D * list ws_event))
    : option (ws_verdict * list ws_event) :=
  '(v, _, l) ← r; Some (v, l).

(** A fresh connection reading the given blocks. *)
Definition session {D : Type} (a : allocator) (env : ws_env) (z : inflater D) (inflations : nat)
    (b : bufferdata) (d : D) (blocks : list (list Z)) : option (ws_verdict * list ws_event) :=
  p ← websocketsparser_init b d;
  outcome (read_blocks a env z inflations p blocks []).

Lemma init_clean {D : Type} b (d : D) :
  Bufferdata.Inv b → ∃ p, websocketsparser_init b d = Some p ∧ Clean p ∧
    ∀ env, 0 <= client_max_body_size env → Sane env p ∧ stage_ok p.
Proof.
  intros Hi. unfold websocketsparser_init. destruct (@tb_init_ok bufferdata bufferdata_tokens bufferdata_laws b Hi) as (b' & -> & Hi' & Hc').
  cbn [mbind option_bind]. eexists. split; [done|]. split; [by constructor|]. intros env He. split; [|done].
  constructor; cbn; try done; try lia.
  - change (nonneg (tb_bytes b')). rewrite Hc'. constructor.
  - unfold nonneg. by repeat (apply Forall_cons; split).
Qed.



(** ** Witnesses *)

Definition ws_alloc : allocator := Allocator (λ _, true) 0.
Definition no_inflate : inflater unit := Inflater unit (λ d _ _, (false, false, 0, [], d)) (λ d, d).
Definition small_env : ws_env := WsEnv 1000 (λ _, true).
Definition key1 : list Z := [0x37; 0xfa; 0x21; 0x3d].

Definition sample_frames : list client_frame :=
  [ClientFrame WSOPCODE_TEXT key1 (bs "Hello"); ClientFrame WSOPCODE_PING [1; 2; 3; 4] (bs "hi");
   ClientFrame WSOPCODE_BINARY key1 [0; 255; 1]].

Definition sample_bytes : list Z := flat_map encode_frame sample_frames.

Lemma ascii_valid l : Forall (λ c, 0 <= c < 128) l → valid_utf8 l.
Proof.
  intros Hl. exists l. split.
  - eapply Forall_impl; [exact Hl|]. simpl. intros c Hc. left. lia.
  - induction Hl as [|c l Hc _ IH]; [done|]. cbn [flat_map]. rewrite <- IH. unfold encode.
    by destruct (Z.ltb_spec c 128); [|lia].
Qed.



(** ** Fragmented messages *)

(** A data frame with the given first byte and a short payload. *)
Definition raw_frame (first : Z) (payload : list Z) : list Z :=
  first :: (128 + zlen payload) :: key1 ++ xor_mask key1 0 payload.

(** a message in two fragments depends on how it is cut into blocks. In one block
    it is delivered; when the block ends with the first fragment, the parser returns
    to the start of that fragment's payload and reads the text as a frame header, and
    the connection is closed with a protocol error. *)
Theorem ws_fragment_reparsed :
  let first := raw_frame 0x01 (bs "Hel") in
  let last := raw_frame 0x80 (bs "lo") in
  session ws_alloc small_env no_inflate 1 zeroed_bufferdata tt [first ++ last]
    = Some (Wait, [Message WEBSOCKETS_TEXT (bs "Hello")]) ∧
  session ws_alloc small_env no_inflate 1 zeroed_bufferdata tt [first; last] = Some (Fail 1002, []).
Proof. split; vm_compute; reflexivity. Qed.

(** a text message that ends in the middle of a character is handed over when its
    last fragment is empty (that path has no UTF-8 check), and the validator keeps
    its state, so that the next message, valid by itself, closes the connection. *)
Theorem ws_truncated_text_accepted :
  ¬ valid_utf8 [0xC3] ∧
  session ws_alloc small_env no_inflate 1 zeroed_bufferdata tt
    [raw_frame 0x01 [0xC3] ++ raw_frame 0x80 []; raw_frame 0x81 (bs "ok")]
    = Some (Drop, [Message WEBSOCKETS_TEXT [0xC3]]) ∧
  session ws_alloc small_env no_inflate 1 zeroed_bufferdata tt [raw_frame 0x81 (bs "ok")]
    = Some (Wait, [Message WEBSOCKETS_TEXT (bs "ok")]).
Proof.
  split; [|split; vm_compute; reflexivity].
  intros Hv. apply (accepts_complete (Validator 0 0 0x80 0xBF)) in Hv; [|done]. done.
Qed.
