(* ===== verification/RbMap.v ===== *)
(** The ordered map of [misc/map.c]: a red-black tree of nodes with parent links and
    a sentinel node [nil].

    Nodes live in a heap of cells; a pointer is [None] for NULL. Reading or writing
    through NULL or a freed node is [None] of the operation, and so is a loop that
    outlives its fuel, which is the number of nodes plus one. [malloc] is a parameter;
    the free callbacks are recorded in the order they are called. *)

From stdpp Require Export gmap.
From S2P Require Import Prelude.

#[global] Open Scope Z_scope.

Inductive map_color : Set := MAP_RED | MAP_BLACK.

#[export] Instance map_color_eq_dec : EqDecision map_color.
Proof. solve_decision. Defined.

Abbreviation ptr := (option nat).

(** The key and the value of [nil] are NULL. *)
Record map_node (K V : Type) : Type := MapNode {
  n_key : option K;
  n_value : option V;
  n_parent : ptr;
  n_left : ptr;
  n_right : ptr;
  n_color : map_color }.
#[global] Arguments MapNode {K V}.
#[global] Arguments n_key {K V}.
#[global] Arguments n_value {K V}.
#[global] Arguments n_parent {K V}.
#[global] Arguments n_left {K V}.
#[global] Arguments n_right {K V}.
#[global] Arguments n_color {K V}.

(** The callbacks a map is created with. *)
Record map_ops (K V : Type) : Type := MapOps {
  compare : K → K → Z;
  key_copy : option (K → K);
  key_free : bool;
  value_copy : option (V → V);
  value_free : bool }.
#[global] Arguments MapOps {K V}.
#[global] Arguments compare {K V}.
#[global] Arguments key_copy {K V}.
#[global] Arguments key_free {K V}.
#[global] Arguments value_copy {K V}.
#[global] Arguments value_free {K V}.

(** A call of [key_free] or [value_free]. *)
Inductive released (K V : Type) : Type :=
  | FreeKey (k : option K)
  | FreeValue (v : option V).
#[global] Arguments FreeKey {K V}.
#[global] Arguments FreeValue {K V}.

Record map (K V : Type) : Type := Map {
  m_root : ptr;
  m_nil : ptr;
  m_size : Z;
  m_nodes : gmap nat (map_node K V);
  m_released : list (released K V) }.
#[global] Arguments Map {K V}.
#[global] Arguments m_root {K V}.
#[global] Arguments m_nil {K V}.
#[global] Arguments m_size {K V}.
#[global] Arguments m_nodes {K V}.
#[global] Arguments m_released {K V}.

Section Map.
Context {K V : Type}.
Abbreviation node := (map_node K V).
Abbreviation heap := (gmap nat (map_node K V)).
Implicit Types (m : map K V) (n : node) (p x y z : ptr).

Variable ops : map_ops K V.
(** [malloc] of a node: NULL, or the address of a new cell. *)
Variable malloc : heap → option nat.

(** ** Fields *)

Definition load m p : option node := a ← p; m_nodes m !! a.

Definition with_nodes m (h : heap) : map K V := Map (m_root m) (m_nil m) (m_size m) h (m_released m).
Definition with_root m p : map K V := Map p (m_nil m) (m_size m) (m_nodes m) (m_released m).
Definition with_size m (s : Z) : map K V := Map (m_root m) (m_nil m) s (m_nodes m) (m_released m).
Definition release m (l : list (released K V)) : map K V :=
  Map (m_root m) (m_nil m) (m_size m) (m_nodes m) (m_released m ++ l).

Definition store m p (f : node → node) : option (map K V) :=
  a ← p; n ← m_nodes m !! a; Some (with_nodes m (<[a := f n]> (m_nodes m))).

Definition set_value (v : option V) n : node :=
  MapNode (n_key n) v (n_parent n) (n_left n) (n_right n) (n_color n).
Definition set_parent (q : ptr) n : node :=
  MapNode (n_key n) (n_value n) q (n_left n) (n_right n) (n_color n).
Definition set_left (q : ptr) n : node :=
  MapNode (n_key n) (n_value n) (n_parent n) q (n_right n) (n_color n).
Definition set_right (q : ptr) n : node :=
  MapNode (n_key n) (n_value n) (n_parent n) (n_left n) q (n_color n).
Definition set_color (c : map_color) n : node :=
  MapNode (n_key n) (n_value n) (n_parent n) (n_left n) (n_right n) c.

Definition parent_of m p : option ptr := n_parent <$> load m p.
Definition left_of m p : option ptr := n_left <$> load m p.
Definition right_of m p : option ptr := n_right <$> load m p.
Definition color_of m p : option map_color := n_color <$> load m p.

Definition eqp p q : bool := bool_decide (p = q).
Definition is_red (c : map_color) : bool := bool_decide (c = MAP_RED).
Definition is_nil m p : bool := eqp p (m_nil m).

(** Enough turns for any walk along the tree. *)
Definition turns m : nat := S (size (m_nodes m)).

(** ** Creation *)

Definition map_create_ex : option (map K V) :=
  a ← malloc ∅;
  Some (Map (Some a) (Some a) 0 {[ a := MapNode None None None None None MAP_BLACK ]} []).

Definition map_create_node m (key : K) (value : V) : option (ptr * map K V) :=
  match malloc (m_nodes m) with
  | None => None
  | Some a =>
      let k := match key_copy ops with Some f => f key | None => key end in
      let v := match value_copy ops with Some f => f value | None => value end in
      Some (Some a, with_nodes m (<[a := MapNode (Some k) (Some v) None None None MAP_RED]> (m_nodes m)))
  end.

Definition map_free_node m p : option (map K V) :=
  match p with
  | None => Some m
  | Some a =>
      n ← m_nodes m !! a;
      let m := release m ((if key_free ops then [FreeKey (n_key n)] else []) ++
                          (if value_free ops then [FreeValue (n_value n)] else [])) in
      Some (with_nodes m (delete a (m_nodes m)))
  end.

(** ** Lookup *)

Fixpoint find_loop (fuel : nat) m (key : K) (current : ptr) : option ptr :=
  match fuel with
  | O => None
  | S f =>
      if is_nil m current then Some (m_nil m)
      else
        n ← load m current;
        k ← n_key n;
        let cmp := compare ops key k in
        if cmp =? 0 then Some current
        else if cmp <? 0 then find_loop f m key (n_left n)
        else find_loop f m key (n_right n)
  end.

Definition map_find_node m (key : K) : option ptr := find_loop (turns m) m key (m_root m).

Definition map_find m (key : K) : option (option V) :=
  p ← map_find_node m key;
  if is_nil m p then Some None else n ← load m p; Some (n_value n).

Definition map_contains m (key : K) : option bool :=
  p ← map_find_node m key; Some (negb (is_nil m p)).

Definition map_empty m : bool := m_size m =? 0.

(** ** Rotations *)

(** Make [y] the child of [x]'s parent that [x] was, testing the left link first. *)
Definition replace_left_first m x y : option (map K V) :=
  xp ← parent_of m x;
  if is_nil m xp then Some (with_root m y)
  else
    l ← left_of m xp;
    if eqp x l then store m xp (set_left y) else store m xp (set_right y).

(** The same, testing the right link first. *)
Definition replace_right_first m x y : option (map K V) :=
  xp ← parent_of m x;
  if is_nil m xp then Some (with_root m y)
  else
    r ← right_of m xp;
    if eqp x r then store m xp (set_right y) else store m xp (set_left y).

Definition map_rotate_left m x : option (map K V) :=
  y ← right_of m x;
  yl ← left_of m y;
  m ← store m x (set_right yl);
  yl ← left_of m y;
  m ← (if is_nil m yl then Some m else store m yl (set_parent x));
  xp ← parent_of m x;
  m ← store m y (set_parent xp);
  m ← replace_left_first m x y;
  m ← store m y (set_left x);
  store m x (set_parent y).

Definition map_rotate_right m x : option (map K V) :=
  y ← left_of m x;
  yr ← right_of m y;
  m ← store m x (set_left yr);
  yr ← right_of m y;
  m ← (if is_nil m yr then Some m else store m yr (set_parent x));
  xp ← parent_of m x;
  m ← store m y (set_parent xp);
  m ← replace_right_first m x y;
  m ← store m y (set_right x);
  store m x (set_parent y).

(** ** Insertion *)

(** One side of the loop body: [here] and [there] are the links towards and away from
    the parent, [turn_here] and [turn_there] the rotations. *)
Definition insert_case m z (there : map K V → ptr → option ptr)
    (turn_here turn_there : map K V → ptr → option (map K V)) : option (ptr * map K V) :=
  zp ← parent_of m z;
  zpp ← parent_of m zp;
  y ← there m zpp;
  yc ← color_of m y;
  if is_red yc then
    m ← store m zp (set_color MAP_BLACK);
    m ← store m y (set_color MAP_BLACK);
    zp ← parent_of m z; zpp ← parent_of m zp;
    m ← store m zpp (set_color MAP_RED);
    zp ← parent_of m z; zpp ← parent_of m zp;
    Some (zpp, m)
  else
    zpt ← there m zp;
    '(z, m) ← (if eqp z zpt then m ← turn_here m zp; Some (zp, m) else Some (z, m));
    zp ← parent_of m z;
    m ← store m zp (set_color MAP_BLACK);
    zpp ← parent_of m zp;
    m ← store m zpp (set_color MAP_RED);
    m ← turn_there m zpp;
    Some (z, m).

Fixpoint insert_fixup_loop (fuel : nat) m z : option (map K V) :=
  match fuel with
  | O => None
  | S f =>
      zp ← parent_of m z;
      zpc ← color_of m zp;
      if is_red zpc then
        zpp ← parent_of m zp;
        zppl ← left_of m zpp;
        '(z, m) ← (if eqp zp zppl
                   then insert_case m z right_of map_rotate_left map_rotate_right
                   else insert_case m z left_of map_rotate_right map_rotate_left);
        insert_fixup_loop f m z
      else Some m
  end.

Definition map_insert_fixup m z : option (map K V) :=
  m ← insert_fixup_loop (turns m) m z;
  store m (m_root m) (set_color MAP_BLACK).

(** The node the new one will hang from. *)
Fixpoint insert_walk (fuel : nat) m (key : K) y x : option ptr :=
  match fuel with
  | O => None
  | S f =>
      if is_nil m x then Some y
      else
        n ← load m x;
        k ← n_key n;
        if compare ops key k <? 0 then insert_walk f m key x (n_left n)
        else insert_walk f m key x (n_right n)
  end.

(** Hang the new node [z] with key [zk] below [y], as a red leaf. *)
Definition map_link m z (zk : K) y : option (map K V) :=
  m ← store m z (set_parent y);
  m ← (if is_nil m y then Some (with_root m z)
       else
         yk ← load m y ≫= n_key;
         if compare ops zk yk <? 0 then store m y (set_left z) else store m y (set_right z));
  m ← store m z (set_left (m_nil m));
  m ← store m z (set_right (m_nil m));
  store m z (set_color MAP_RED).

(** 1: inserted, 0: the key is there, -1: out of memory. *)
Definition map_insert m (key : K) (value : V) : option (Z * map K V) :=
  p ← map_find_node m key;
  if negb (is_nil m p) then Some (0, m)
  else
    match map_create_node m key value with
    | None => Some (-1, m)
    | Some (z, m) =>
        zk ← load m z ≫= n_key;
        y ← insert_walk (turns m) m zk (m_nil m) (m_root m);
        m ← map_link m z zk y;
        m ← map_insert_fixup m z;
        Some (1, with_size m (m_size m + 1))
    end.

(** 2: the value of an existing key was replaced; otherwise as [map_insert]. *)
Definition map_insert_or_assign m (key : K) (value : V) : option (Z * map K V) :=
  p ← map_find_node m key;
  if negb (is_nil m p) then
    n ← load m p;
    let m := if value_free ops then release m [FreeValue (n_value n)] else m in
    let v := match value_copy ops with Some f => f value | None => value end in
    m ← store m p (set_value (Some v));
    Some (2, m)
  else map_insert m key value.

(** ** Removal *)

Definition map_transplant m (u v : ptr) : option (map K V) :=
  m ← replace_left_first m u v;
  up ← parent_of m u;
  store m v (set_parent up).

Fixpoint minimum_loop (fuel : nat) m p : option ptr :=
  match fuel with
  | O => None
  | S f => l ← left_of m p; if is_nil m l then Some p else minimum_loop f m l
  end.
Definition map_minimum m p : option ptr := minimum_loop (turns m) m p.

Fixpoint maximum_loop (fuel : nat) m p : option ptr :=
  match fuel with
  | O => None
  | S f => r ← right_of m p; if is_nil m r then Some p else maximum_loop f m r
  end.
Definition map_maximum m p : option ptr := maximum_loop (turns m) m p.

(** The loop body for one side, [here] the link towards [x]: a red
    sibling [w] is turned into a black one; if both children of [w] are black the
    problem moves up; otherwise [w]'s far child is made red and a rotation ends it. *)
Definition delete_red_sibling m x w (there : map K V → ptr → option ptr)
    (turn_here : map K V → ptr → option (map K V)) : option (ptr * map K V) :=
  wc ← color_of m w;
  if is_red wc then
    m ← store m w (set_color MAP_BLACK);
    xp ← parent_of m x;
    m ← store m xp (set_color MAP_RED);
    xp ← parent_of m x;
    m ← turn_here m xp;
    xp ← parent_of m x;
    w ← there m xp;
    Some (w, m)
  else Some (w, m).

Definition delete_near_child m x w (wh : ptr) (wtc : map_color) (there : map K V → ptr → option ptr)
    (turn_there : map K V → ptr → option (map K V)) : option (ptr * map K V) :=
  if is_red wtc then Some (w, m)
  else
    m ← store m wh (set_color MAP_BLACK);
    m ← store m w (set_color MAP_RED);
    m ← turn_there m w;
    xp ← parent_of m x;
    w ← there m xp;
    Some (w, m).

Definition delete_last m x w (there : map K V → ptr → option ptr)
    (turn_here : map K V → ptr → option (map K V)) : option (ptr * map K V) :=
  xp ← parent_of m x;
  xpc ← color_of m xp;
  m ← store m w (set_color xpc);
  m ← store m xp (set_color MAP_BLACK);
  wt ← there m w;
  m ← store m wt (set_color MAP_BLACK);
  xp ← parent_of m x;
  m ← turn_here m xp;
  Some (m_root m, m).

Definition delete_black_sibling m x w (here there : map K V → ptr → option ptr)
    (turn_here turn_there : map K V → ptr → option (map K V)) : option (ptr * map K V) :=
  wh ← here m w; whc ← color_of m wh;
  wt ← there m w; wtc ← color_of m wt;
  if negb (is_red whc) && negb (is_red wtc) then
    m ← store m w (set_color MAP_RED);
    xp ← parent_of m x;
    Some (xp, m)
  else
    '(w, m) ← delete_near_child m x w wh wtc there turn_there;
    delete_last m x w there turn_here.

Definition delete_case m x (here there : map K V → ptr → option ptr)
    (turn_here turn_there : map K V → ptr → option (map K V)) : option (ptr * map K V) :=
  xp ← parent_of m x;
  w ← there m xp;
  '(w, m) ← delete_red_sibling m x w there turn_here;
  delete_black_sibling m x w here there turn_here turn_there.

Fixpoint delete_fixup_loop (fuel : nat) m x : option (map K V) :=
  match fuel with
  | O => None
  | S f =>
      xc ← color_of m x;
      if negb (eqp x (m_root m)) && negb (is_red xc) then
        xp ← parent_of m x;
        xpl ← left_of m xp;
        '(x, m) ← (if eqp x xpl
                   then delete_case m x left_of right_of map_rotate_left map_rotate_right
                   else delete_case m x right_of left_of map_rotate_right map_rotate_left);
        delete_fixup_loop f m x
      else store m x (set_color MAP_BLACK)
  end.

Definition map_delete_fixup m x : option (map K V) := delete_fixup_loop (turns m) m x.

(** [z] has two children and [y] is the next node: take [y] out of its place. *)
Definition unlink_min m z y x : option (map K V) :=
  yp ← parent_of m y;
  if eqp yp z then store m x (set_parent y)
  else
    yr ← right_of m y;
    m ← map_transplant m y yr;
    zr ← right_of m z;
    m ← store m y (set_right zr);
    yr ← right_of m y;
    store m yr (set_parent y).

(** Put [y] in the place of [z]. *)
Definition unlink_swap m z y : option (map K V) :=
  m ← map_transplant m z y;
  zl ← left_of m z;
  m ← store m y (set_left zl);
  yl ← left_of m y;
  m ← store m yl (set_parent y);
  zc ← color_of m z;
  store m y (set_color zc).

(** Cut [z] out: the node that took a place, the colour that left the tree. *)
Definition map_unlink m z : option (ptr * map_color * map K V) :=
  zn ← load m z;
  if is_nil m (n_left zn) then
    m ← map_transplant m z (n_right zn);
    Some (n_right zn, n_color zn, m)
  else if is_nil m (n_right zn) then
    m ← map_transplant m z (n_left zn);
    Some (n_left zn, n_color zn, m)
  else
    y ← map_minimum m (n_right zn);
    c ← color_of m y;
    x ← right_of m y;
    m ← unlink_min m z y x;
    m ← unlink_swap m z y;
    Some (x, c, m).

Definition map_erase m (key : K) : option (bool * map K V) :=
  z ← map_find_node m key;
  if is_nil m z then Some (false, m)
  else
    '(x, c, m) ← map_unlink m z;
    m ← map_free_node m z;
    let m := with_size m (m_size m - 1) in
    m ← (if is_red c then Some m else map_delete_fixup m x);
    Some (true, m).

(** ** Clearing *)

Fixpoint clear_recursive (fuel : nat) m p : option (map K V) :=
  match fuel with
  | O => None
  | S f =>
      if is_nil m p then Some m
      else
        l ← left_of m p;
        m ← clear_recursive f m l;
        r ← right_of m p;
        m ← clear_recursive f m r;
        map_free_node m p
  end.

Definition map_clear m : option (map K V) :=
  m ← clear_recursive (turns m) m (m_root m);
  Some (with_size (with_root m (m_nil m)) 0).

(** [map_clear], then the sentinel and the map itself go. *)
Definition map_free m : option (list (released K V)) :=
  m ← map_clear m;
  a ← m_nil m;
  _ ← m_nodes m !! a;
  Some (m_released m).

(** ** Iteration *)

Fixpoint climb_loop (fuel : nat) m (link : map K V → ptr → option ptr) p y : option ptr :=
  match fuel with
  | O => None
  | S f =>
      if is_nil m y then Some y
      else
        q ← link m y;
        if eqp p q then yp ← parent_of m y; climb_loop f m link y yp else Some y
  end.

Definition map_successor m p : option ptr :=
  r ← right_of m p;
  if is_nil m r then y ← parent_of m p; climb_loop (turns m) m right_of p y
  else map_minimum m r.

Definition map_predecessor m p : option ptr :=
  l ← left_of m p;
  if is_nil m l then y ← parent_of m p; climb_loop (turns m) m left_of p y
  else map_maximum m l.

(** An iterator over the map is its node. *)
Definition map_begin m : option ptr :=
  if is_nil m (m_root m) then Some None else map_minimum m (m_root m).

Definition map_end m : ptr := m_nil m.

Definition map_iterator_valid m (it : ptr) : bool := negb (eqp it None) && negb (is_nil m it).

Definition map_next m (it : ptr) : option ptr :=
  if map_iterator_valid m it then map_successor m it else Some None.

Definition map_prev m (it : ptr) : option ptr :=
  if eqp it None then Some None
  else if is_nil m it then map_maximum m (m_root m)
  else map_predecessor m it.

Definition map_iterator_key m (it : ptr) : option (option K) :=
  if map_iterator_valid m it then n ← load m it; Some (n_key n) else Some None.

Definition map_iterator_value m (it : ptr) : option (option V) :=
  if map_iterator_valid m it then n ← load m it; Some (n_value n) else Some None.

(** [for (it = map_begin(map); map_iterator_valid(it); it = map_next(it))], collecting
    what [get] reads. *)
Fixpoint iterate_loop {A : Type} (fuel : nat) m (get : ptr → option A) (it : ptr) : option (list A) :=
  match fuel with
  | O => None
  | S f =>
      if map_iterator_valid m it then
        x ← get it;
        it ← map_next m it;
        l ← iterate_loop f m get it;
        Some (x :: l)
      else Some []
  end.

Definition iterate {A : Type} m (get : ptr → option A) : option (list A) :=
  it ← map_begin m; iterate_loop (turns m) m get it.
End Map.
#[global] Arguments store {K V} m p f : simpl never.
#[global] Arguments load {K V} m p : simpl never.

(** ** The comparison functions *)

Definition map_compare_int (a b : Z) : Z := if a <? b then -1 else if b <? a then 1 else 0.
Definition map_compare_ptr (a b : Z) : Z := if a <? b then -1 else if b <? a then 1 else 0.
