(* ===== verification/RbTree.v ===== *)
(** Trees, contexts and the heaps that hold them.

    A tree carries the address of each node. A context is a tree with a hole, as the
    list of the nodes on the way from the hole to the root. [Rep m C t] says the heap
    of [m] holds the tree [t] in the hole of [C] with all links, the parent links
    included. The second part is about writing one pointer of such a heap. *)

From S2P Require Import Prelude RbMap.

Section Tree.
Context {K V : Type}.

Record entry : Type := Entry { e_addr : nat; e_key : K; e_value : V }.

Inductive tree : Type :=
  | E
  | T (c : map_color) (l : tree) (e : entry) (r : tree).

(** A node with one child cut off: the left ([HoleL]) or the right one. *)
Inductive frame : Type :=
  | HoleL (c : map_color) (e : entry) (r : tree)
  | HoleR (c : map_color) (l : tree) (e : entry).

Abbreviation context := (list frame).
Implicit Types (t l r : tree) (C : context) (m : map K V) (h : gmap nat (map_node K V)).

Definition fill (f : frame) t : tree :=
  match f with HoleL c e r => T c t e r | HoleR c l e => T c l e t end.
Fixpoint plug C t : tree := match C with [] => t | f :: C' => plug C' (fill f t) end.

Definition f_entry (f : frame) : entry := match f with HoleL _ e _ | HoleR _ _ e => e end.
Definition f_color (f : frame) : map_color := match f with HoleL c _ _ | HoleR c _ _ => c end.
Definition f_sibling (f : frame) : tree := match f with HoleL _ _ r => r | HoleR _ l _ => l end.
Definition f_addr (f : frame) : nat := e_addr (f_entry f).

Definition color t : map_color := match t with E => MAP_BLACK | T c _ _ _ => c end.

Fixpoint elements t : list entry :=
  match t with E => [] | T _ l e r => elements l ++ e :: elements r end.
Fixpoint c_left C : list entry :=
  match C with
  | [] => []
  | HoleL _ _ _ :: C' => c_left C'
  | HoleR _ l e :: C' => c_left C' ++ elements l ++ [e]
  end.
Fixpoint c_right C : list entry :=
  match C with
  | [] => []
  | HoleL _ e r :: C' => e :: elements r ++ c_right C'
  | HoleR _ _ _ :: C' => c_right C'
  end.

Definition addrs t : list nat := e_addr <$> elements t.
Definition c_addrs C : list nat := e_addr <$> (c_left C ++ c_right C).

Lemma elements_plug C t : elements (plug C t) = c_left C ++ elements t ++ c_right C.
Proof.
  revert t. induction C as [|[c e r|c l e] C IH]; intros t; simpl; [by rewrite app_nil_r| |];
    rewrite IH; simpl; by rewrite <- ?app_assoc.
Qed.

Lemma plug_app C C' t : plug (C ++ C') t = plug C' (plug C t).
Proof. revert t. induction C as [|f C IH]; intros t; simpl; [done|apply IH]. Qed.

(** ** Representation *)

Section Rep.
(** The address of the sentinel. *)
Variable na : nat.

Definition root_ptr t : ptr := match t with E => Some na | T _ _ e _ => Some (e_addr e) end.
Definition cell c (e : entry) (par lp rp : ptr) : map_node K V :=
  MapNode (Some (e_key e)) (Some (e_value e)) par lp rp c.

Fixpoint rep h (par : ptr) t : Prop :=
  match t with
  | E => True
  | T c l e r =>
      h !! e_addr e = Some (cell c e par (root_ptr l) (root_ptr r)) ∧
      rep h (Some (e_addr e)) l ∧ rep h (Some (e_addr e)) r
  end.

Definition c_parent C : ptr := match C with [] => Some na | f :: _ => Some (f_addr f) end.

(** The context of a hole that holds [p], under the root pointer [rt]. *)
Fixpoint crep h (rt : ptr) C (p : ptr) : Prop :=
  match C with
  | [] => rt = p
  | HoleL c e r :: C' =>
      h !! e_addr e = Some (cell c e (c_parent C') p (root_ptr r)) ∧
      rep h (Some (e_addr e)) r ∧ crep h rt C' (Some (e_addr e))
  | HoleR c l e :: C' =>
      h !! e_addr e = Some (cell c e (c_parent C') (root_ptr l) p) ∧
      rep h (Some (e_addr e)) l ∧ crep h rt C' (Some (e_addr e))
  end.

(** The sentinel: black, without links, but for a parent left over by removals. *)
Definition nil_cell (par : ptr) : map_node K V := MapNode None None par None None MAP_BLACK.

Record Rep m C t : Prop := {
  rep_nil : m_nil m = Some na;
  rep_sentinel : ∃ par, m_nodes m !! na = Some (nil_cell par);
  rep_tree : rep (m_nodes m) (c_parent C) t;
  rep_ctx : crep (m_nodes m) (m_root m) C (root_ptr t);
  rep_nodup : NoDup (na :: addrs t ++ c_addrs C) }.
End Rep.

(** ** Addresses *)

Lemma addrs_T c l e r : addrs (T c l e r) = addrs l ++ e_addr e :: addrs r.
Proof. unfold addrs. simpl. by rewrite fmap_app. Qed.

Lemma elem_of_addrs_T a c l e r :
  a ∈ addrs (T c l e r) ↔ a ∈ addrs l ∨ a = e_addr e ∨ a ∈ addrs r.
Proof. rewrite addrs_T, elem_of_app, elem_of_cons. tauto. Qed.

Lemma c_addrs_cons f C : c_addrs (f :: C) ≡ₚ f_addr f :: addrs (f_sibling f) ++ c_addrs C.
Proof.
  unfold c_addrs, addrs, f_addr. destruct f as [c e r|c l e]; simpl;
    rewrite ?fmap_app, ?fmap_cons, ?fmap_app; simpl; solve_Permutation.
Qed.

Lemma elem_of_c_addrs_cons a f C :
  a ∈ c_addrs (f :: C) ↔ a = f_addr f ∨ a ∈ addrs (f_sibling f) ∨ a ∈ c_addrs C.
Proof. by rewrite c_addrs_cons, elem_of_cons, elem_of_app. Qed.

(** The addresses of a context with a tree are those of the tree it forms. *)
Lemma addrs_plug_perm C t : addrs (plug C t) ≡ₚ addrs t ++ c_addrs C.
Proof.
  unfold addrs, c_addrs. rewrite elements_plug, !fmap_app. rewrite (Permutation_app_comm _ (_ ++ _)).
  rewrite <- app_assoc. f_equiv. apply Permutation_app_comm.
Qed.
End Tree.
#[global] Arguments entry : clear implicits.
#[global] Arguments tree : clear implicits.
#[global] Arguments frame : clear implicits.

(** What the pointer operations of the map do to the tree in its heap: loads, single
    writes, and the rotations. *)

(** ** Disjoint lists of addresses *)

Section Pieces.
Implicit Types (X Y : list nat) (L : list (list nat)).

Definition disjoint X Y : Prop := ∀ q, q ∈ X → q ∈ Y → False.

Fixpoint disjoint_all X L : Prop :=
  match L with [] => True | Y :: L' => disjoint X Y ∧ disjoint_all X L' end.

(** Every piece is free of duplicates and disjoint from the others. *)
Fixpoint pieces L : Prop :=
  match L with [] => True | X :: L' => NoDup X ∧ disjoint_all X L' ∧ pieces L' end.

Lemma disjoint_all_concat X L : disjoint_all X L ↔ disjoint X (concat L).
Proof.
  induction L as [|Y L IH]; simpl.
  - split; [|done]. intros _ q _ Hq. by apply elem_of_nil in Hq.
  - rewrite IH. unfold disjoint. split.
    + intros [H1 H2] q Hq. rewrite elem_of_app. intros [?|?]; eauto.
    + intros H1. split; intros q Hq Hq'; apply (H1 q Hq), elem_of_app; auto.
Qed.

Lemma pieces_NoDup L : pieces L ↔ NoDup (concat L).
Proof.
  induction L as [|X L IH]; simpl.
  - split; [constructor|done].
  - rewrite NoDup_app, disjoint_all_concat, IH. unfold disjoint, not. tauto.
Qed.
End Pieces.

(** From [H : NoDup l], where [l] is the concatenation of [L], facts about its parts. *)
Ltac break_addrs H L :=
  let Hp := fresh "Hp" in
  assert (pieces L) as Hp
    by (apply pieces_NoDup; simpl; rewrite ?app_nil_r; simpl;
        rewrite ?addrs_T, ?c_addrs_cons, <- ?app_assoc in H; simpl in H;
        rewrite <- ?app_assoc in H; simpl in H; exact H);
  simpl in Hp; destruct_and!.

(** Membership of a given address in a part. *)
Ltac in_part :=
  first [ assumption | apply list_elem_of_singleton; first [reflexivity | congruence]
        | match goal with E : ?x = ?y, H : ?y ∈ _ |- ?x ∈ _ => rewrite E; exact H
                        | E : ?y = ?x, H : ?y ∈ _ |- ?x ∈ _ => rewrite <- E; exact H end ].

(** An address is not in a part, or two addresses differ. *)
Ltac apart :=
  let Ha := fresh "Ha" in
  intros Ha; try subst;
  match goal with
  | D : disjoint ?X _ |- _ =>
      match X with
      | [?x] => solve [apply (D x); in_part]
      | _ => match goal with H : ?q ∈ X |- _ => solve [apply (D q H); in_part] end
      end
  end.

Section Links.
Context {K V : Type}.
Implicit Types (t l r : tree K V) (C : list (frame K V)) (m : map K V) (e : entry K V).
Implicit Types (h : gmap nat (map_node K V)).

Lemma rep_frame na h h' par t :
  (∀ a, a ∈ addrs t → h' !! a = h !! a) → rep na h par t → rep na h' par t.
Proof.
  revert par. induction t as [|c l IHl e r IHr]; intros par Hh; simpl; [done|].
  intros (He & Hl & Hr). split_and!.
  - rewrite Hh; [done|]. apply elem_of_addrs_T. auto.
  - apply IHl; [|done]. intros a Ha. apply Hh, elem_of_addrs_T. auto.
  - apply IHr; [|done]. intros a Ha. apply Hh, elem_of_addrs_T. auto.
Qed.

Lemma crep_frame na h h' rt C p :
  (∀ a, a ∈ c_addrs C → h' !! a = h !! a) → crep na h rt C p → crep na h' rt C p.
Proof.
  revert p. induction C as [|f C IH]; intros p Hh; [done|].
  assert (∀ a, a ∈ c_addrs C → h' !! a = h !! a) as HC
    by (intros a Ha; apply Hh, elem_of_c_addrs_cons; auto).
  assert (∀ a, a ∈ addrs (f_sibling f) → h' !! a = h !! a) as Hs
    by (intros a Ha; apply Hh, elem_of_c_addrs_cons; auto).
  assert (h' !! f_addr f = h !! f_addr f) as Hf by (apply Hh, elem_of_c_addrs_cons; auto).
  destruct f as [c e r|c l e]; unfold f_addr in Hf; simpl in *; intros (He & Hr & Hp);
    (split_and!; [by rewrite Hf|by eapply rep_frame|by apply IH]).
Qed.

(** Insertions outside the addresses in question. *)
Lemma rep_insert na h a n par t :
  (a ∉ addrs t) → rep na h par t → rep na (<[a := n]> h) par t.
Proof. intros Ha. apply rep_frame. intros b Hb. rewrite lookup_insert_ne; [done|]. by intros ->. Qed.

Lemma crep_insert na h a n rt C p :
  (a ∉ c_addrs C) → crep na h rt C p → crep na (<[a := n]> h) rt C p.
Proof. intros Ha. apply crep_frame. intros b Hb. rewrite lookup_insert_ne; [done|]. by intros ->. Qed.

Lemma rep_delete na h a par t : (a ∉ addrs t) → rep na h par t → rep na (delete a h) par t.
Proof. intros Ha. apply rep_frame. intros b Hb. rewrite lookup_delete_ne; [done|]. by intros ->. Qed.

Lemma crep_delete na h a rt C p :
  (a ∉ c_addrs C) → crep na h rt C p → crep na (delete a h) rt C p.
Proof. intros Ha. apply crep_frame. intros b Hb. rewrite lookup_delete_ne; [done|]. by intros ->. Qed.

(** ** Pointers *)

Lemma eqp_refl p : eqp p p = true.
Proof. by apply bool_decide_eq_true. Qed.

Lemma eqp_ne p q : p ≠ q → eqp p q = false.
Proof. intros. by apply bool_decide_eq_false. Qed.

Lemma root_ptr_ne na a t : a ≠ na → (a ∉ addrs t) → Some a ≠ root_ptr na t.
Proof. intros Hn Ha. destruct t as [|c l e r]; simpl; [congruence|]. intros [= ->]. apply Ha, elem_of_addrs_T. auto. Qed.

Lemma is_nil_root m na t : m_nil m = Some na → (na ∉ addrs t) →
  is_nil m (root_ptr na t) = match t with E => true | T _ _ _ _ => false end.
Proof.
  intros Hn Ha. unfold is_nil. rewrite Hn. destruct t as [|c l e r]; simpl; [apply eqp_refl|].
  apply eqp_ne. intros [= <-]. apply Ha, elem_of_addrs_T. auto.
Qed.

Lemma load_some m a n : m_nodes m !! a = Some n → load m (Some a) = Some n.
Proof. done. Qed.

Lemma store_some m a n f :
  m_nodes m !! a = Some n → store m (Some a) f = Some (with_nodes m (<[a := f n]> (m_nodes m))).
Proof. intros Hn. unfold store. simpl. by rewrite Hn. Qed.

(** [if (p != nil) p->parent = q] at the root of a subtree. *)
Lemma set_parent_sub m na t par q :
  m_nil m = Some na → (na ∉ addrs t) → NoDup (addrs t) → rep na (m_nodes m) par t →
  ∃ h, (if is_nil m (root_ptr na t) then Some m
        else store m (root_ptr na t) (set_parent q)) = Some (with_nodes m h) ∧
    rep na h q t ∧ ∀ b, (b ∉ addrs t) → h !! b = m_nodes m !! b.
Proof.
  intros Hn Ha Hd Hr. rewrite (is_nil_root m na t Hn Ha). destruct t as [|c l e r].
  - exists (m_nodes m). by destruct m.
  - destruct Hr as (He & Hl & Hr). cbn [root_ptr]. rewrite (store_some _ _ _ _ He). eexists. split; [done|].
    break_addrs Hd [addrs l; [e_addr e]; addrs r]. split.
    + simpl. split_and!; [by rewrite lookup_insert_eq|apply rep_insert; [apart|done]..].
    + intros b Hb. rewrite lookup_insert_ne; [done|]. rewrite elem_of_addrs_T in Hb. intros Heq. subst. tauto.
Qed.

(** Redirecting the link of the parent towards the hole. *)
Definition relink (f : frame K V) (y : ptr) : map_node K V → map_node K V :=
  match f with HoleL _ _ _ => set_left y | HoleR _ _ _ => set_right y end.

Lemma crep_relink na h rt f C x y : NoDup (c_addrs (f :: C)) → crep na h rt (f :: C) x →
  ∃ n, h !! f_addr f = Some n ∧
    n_left n = (match f with HoleL _ _ _ => x | HoleR _ l _ => root_ptr na l end) ∧
    n_right n = (match f with HoleL _ _ r => root_ptr na r | HoleR _ _ _ => x end) ∧
    crep na (<[f_addr f := relink f y n]> h) rt (f :: C) y.
Proof.
  rewrite c_addrs_cons. intros Hd Hr. break_addrs Hd [[f_addr f]; addrs (f_sibling f); c_addrs C].
  destruct f as [c e r|c l e]; unfold f_addr in *; simpl in *; destruct Hr as (He & Hr & Hc);
    (eexists; split_and!; [exact He|done|done|by rewrite lookup_insert_eq|apply rep_insert; [apart|done]|apply crep_insert; [apart|done]]).
Qed.

(** Both orders of the test find the right link. *)
Lemma replace_crep m na x C y n :
  m_nil m = Some na → (na ∉ c_addrs C) → x ≠ na → (x ∉ c_addrs C) → NoDup (c_addrs C) →
  m_nodes m !! x = Some n → n_parent n = c_parent na C →
  crep na (m_nodes m) (m_root m) C (Some x) →
  ∃ h rt, let m' := Map rt (m_nil m) (m_size m) h (m_released m) in
    replace_left_first m (Some x) y = Some m' ∧ replace_right_first m (Some x) y = Some m' ∧
    crep na h rt C y ∧ ∀ b, (b ∉ c_addrs C) → h !! b = m_nodes m !! b.
Proof.
  intros Hn Ha Hx HxC Hd Hc Hp Hr. unfold replace_left_first, replace_right_first, parent_of.
  rewrite (load_some _ _ _ Hc). simpl. rewrite Hp. unfold is_nil. rewrite Hn. destruct C as [|f C].
  { simpl. rewrite eqp_refl. exists (m_nodes m), y. rewrite <- Hn. by destruct m. }
  rewrite eqp_ne; [|intros [= <-]; apply Ha, elem_of_c_addrs_cons; auto].
  destruct (crep_relink _ _ _ _ _ _ y Hd Hr) as (pn & Hpn & Hl & Hrt & Hcr).
  rewrite elem_of_c_addrs_cons in HxC. unfold left_of, right_of, c_parent. rewrite (load_some _ _ _ Hpn). simpl.
  exists (<[f_addr f := relink f y pn]> (m_nodes m)), (m_root m). rewrite Hl, Hrt, !(store_some _ _ _ _ Hpn).
  assert (∀ b, (b ∉ c_addrs (f :: C)) → <[f_addr f := relink f y pn]> (m_nodes m) !! b = m_nodes m !! b) as Hfr.
  { intros b Hb. rewrite lookup_insert_ne; [done|]. intros Heq. apply Hb, elem_of_c_addrs_cons. auto. }
  unfold with_nodes. rewrite Hn.
  destruct f as [c e r|c l e]; simpl in HxC; rewrite ?eqp_refl, (eqp_ne (Some x)) by (apply root_ptr_ne; [done|tauto]);
    done.
Qed.
End Links.
