(* ===== verification/RbRotate.v ===== *)
(** Rotations and recolouring, as operations on the tree in the heap; then the
    node under the focus of a fix-up and its relatives. *)

From S2P Require Import Prelude RbMap RbTree.

Section Rotate.
Context {K V : Type}.
Implicit Types (t l r a b d : tree K V) (C : list (frame K V)) (m : map K V) (e x y : entry K V).

(** The parts of a map no link change touches. *)
Definition same_cells m m' : Prop :=
  m_nil m' = m_nil m ∧ m_size m' = m_size m ∧ m_released m' = m_released m ∧
  dom (m_nodes m') = dom (m_nodes m).

#[export] Instance same_cells_preorder : PreOrder same_cells.
Proof. split; [by intros m|]. intros m1 m2 m3 (?&?&?&?) (?&?&?&?). unfold same_cells. split_and!; congruence. Qed.

Lemma store_same m p f m' : store m p f = Some m' → same_cells m m'.
Proof.
  unfold store. destruct p as [q|]; simpl; [|done]. destruct (m_nodes m !! q) as [n|] eqn:E; simpl; [|done].
  intros [= <-]. split_and!; [done..|]. simpl. apply dom_insert_lookup_L. by eexists.
Qed.

Lemma replace_same m p q m' :
  replace_left_first m p q = Some m' ∨ replace_right_first m p q = Some m' → same_cells m m'.
Proof.
  intros [Hr|Hr].
  - unfold replace_left_first in Hr. destruct (parent_of m p) as [xp|]; simpl in Hr; [|done]. case_match; [by simplify_eq|].
    destruct (left_of m xp); simpl in Hr; [|done]. case_match; by eapply store_same.
  - unfold replace_right_first in Hr. destruct (parent_of m p) as [xp|]; simpl in Hr; [|done]. case_match; [by simplify_eq|].
    destruct (right_of m xp); simpl in Hr; [|done]. case_match; by eapply store_same.
Qed.

(** Run through an operation made of loads and stores. *)
Ltac same_steps :=
  repeat match goal with
  | H : (if ?b then _ else _) = Some _ |- _ => destruct b
  | H : ((if ?b then _ else _) ≫= _) = Some _ |- _ => destruct b
  | H : (?o ≫= _) = Some _ |- _ =>
      let E := fresh "E" in destruct o eqn:E; simpl in H; [|discriminate H]
  | H : Some _ = Some _ |- _ => injection H as H; subst
  | H : store ?a _ _ = Some ?b |- _ => apply store_same in H
  | H : replace_left_first ?a _ _ = Some ?b |- _ => apply (λ X, replace_same _ _ _ _ (or_introl X)) in H
  | H : replace_right_first ?a _ _ = Some ?b |- _ => apply (λ X, replace_same _ _ _ _ (or_intror X)) in H
  | p : (_ * _)%type |- _ => destruct p
  end.

(** Chain the facts collected. *)
Ltac same_chain :=
  match goal with
  | |- same_cells ?m ?m => reflexivity
  | H : same_cells ?m ?m' |- same_cells ?m ?m'' => transitivity m'; [exact H|clear H; same_chain]
  end.

Lemma rotate_same m p m' :
  map_rotate_left m p = Some m' ∨ map_rotate_right m p = Some m' → same_cells m m'.
Proof. intros [H|H]; unfold map_rotate_left, map_rotate_right in H; same_steps; same_chain. Qed.

(** The sentinel's cell is not part of the tree. *)
Definition same_nil m m' : Prop := ∀ q, m_nil m = Some q → m_nodes m' !! q = m_nodes m !! q.

Lemma elements_rotate c1 c2 c1' c2' a x b y d :
  elements (T c2' (T c1' a x b) y d) = elements (T c1 a x (T c2 b y d)).
Proof. simpl. by rewrite <- app_assoc. Qed.

Lemma addrs_rotate c1 c2 c1' c2' a x b y d :
  addrs (T c2' (T c1' a x b) y d) = addrs (T c1 a x (T c2 b y d)).
Proof. unfold addrs. by rewrite (elements_rotate c1 c2). Qed.

Lemma rotate_left_rep na m C c1 c2 a x b y d :
  Rep na m C (T c1 a x (T c2 b y d)) →
  ∃ m', map_rotate_left m (Some (e_addr x)) = Some m' ∧ Rep na m' C (T c2 (T c1 a x b) y d) ∧
    same_cells m m' ∧ same_nil m m'.
Proof.
  intros HR. cut (∃ m', map_rotate_left m (Some (e_addr x)) = Some m' ∧ Rep na m' C (T c2 (T c1 a x b) y d) ∧ same_nil m m').
  { intros (m' & Hm & ? & ?). exists m'. split_and!; [done..| |done]. eapply rotate_same. by left. }
  destruct HR as [Hn [par Hnil] Ht Hc Hd].
  break_addrs Hd [[na]; addrs a; [e_addr x]; addrs b; [e_addr y]; addrs d; c_addrs C].
  destruct Ht as (Hx & Ha & Hy & Hb & Hdd). simpl in Hc.
  assert (e_addr x ≠ e_addr y) as Hxy by apart.
  unfold map_rotate_left, left_of, right_of, parent_of. rewrite (load_some _ _ _ Hx). simpl.
  rewrite (load_some _ _ _ Hy). simpl. rewrite (store_some _ _ _ _ Hx). simpl.
  set (m1 := with_nodes m _). assert (m_nodes m1 !! e_addr y = m_nodes m !! e_addr y) as Hy1
    by (simpl; by rewrite lookup_insert_ne).
  rewrite (load_some m1 _ _ (eq_trans Hy1 Hy)). simpl.
  destruct (set_parent_sub m1 na b (Some (e_addr y)) (Some (e_addr x))) as (h2 & -> & Hb2 & Hf2); [done|apart|done| |].
  { simpl. apply rep_insert; [apart|done]. }
  cbn [mbind option_bind]. set (m2 := with_nodes m1 h2).
  assert (m_nodes m2 !! e_addr x = Some (cell c1 x (c_parent na C) (root_ptr na a) (root_ptr na b))) as Hx2.
  { simpl. rewrite Hf2 by apart. simpl. by rewrite lookup_insert_eq. }
  rewrite (load_some m2 _ _ Hx2). cbn [fmap option_fmap option_map mbind option_bind].
  assert (m_nodes m2 !! e_addr y = Some (cell c2 y (Some (e_addr x)) (root_ptr na b) (root_ptr na d))) as Hy2.
  { simpl. rewrite Hf2 by apart. by rewrite Hy1. }
  rewrite (store_some m2 _ _ _ Hy2). cbn [mbind option_bind]. set (m3 := with_nodes m2 _).
  destruct (replace_crep m3 na (e_addr x) C (Some (e_addr y))
    (cell c1 x (c_parent na C) (root_ptr na a) (root_ptr na b)))
    as (h4 & rt & -> & _ & Hc4 & Hf4); [done|apart|apart|apart|done|simpl; by rewrite lookup_insert_ne|done| |].
  { simpl. apply crep_insert; [apart|]. eapply crep_frame; [|exact Hc]. intros q Hq.
    rewrite Hf2 by apart. simpl. rewrite lookup_insert_ne; [done|apart]. }
  cbn [mbind option_bind]. set (m4 := Map rt _ _ h4 _).
  assert (m_nodes m4 !! e_addr y = Some (cell c2 y (c_parent na C) (root_ptr na b) (root_ptr na d))) as Hy4.
  { simpl. rewrite Hf4 by apart. simpl. by rewrite lookup_insert_eq. }
  rewrite (store_some m4 _ _ _ Hy4). cbn [mbind option_bind]. set (m5 := with_nodes m4 _).
  assert (m_nodes m5 !! e_addr x = Some (cell c1 x (c_parent na C) (root_ptr na a) (root_ptr na b))) as Hx5.
  { simpl. rewrite lookup_insert_ne by done. rewrite Hf4 by apart. simpl. by rewrite lookup_insert_ne. }
  rewrite (store_some m5 _ _ _ Hx5). eexists. split; [done|].
  assert (∀ q, (q ∉ c_addrs C) → (q ∉ addrs b) → q ≠ e_addr x → q ≠ e_addr y → h4 !! q = m_nodes m !! q) as Hfr.
  { intros q ? ? ? ?. rewrite Hf4 by done. simpl. rewrite lookup_insert_ne by done. rewrite Hf2 by done.
    simpl. by rewrite lookup_insert_ne. }
  split.
  - split.
    + done.
    + exists par. simpl. rewrite !lookup_insert_ne by apart. rewrite Hfr; [done|apart..].
    + simpl. rewrite lookup_insert_ne, lookup_insert_eq by done. rewrite lookup_insert_eq. split_and!; [done|done| | |].
      * do 2 (apply rep_insert; [apart|]). eapply rep_frame; [|exact Ha]. intros q Hq. apply Hfr; apart.
      * do 2 (apply rep_insert; [apart|]). eapply rep_frame; [|exact Hb2]. intros q Hq.
        rewrite Hf4 by apart. simpl. rewrite lookup_insert_ne; [done|apart].
      * do 2 (apply rep_insert; [apart|]). eapply rep_frame; [|exact Hdd]. intros q Hq. apply Hfr; apart.
    + simpl. do 2 (apply crep_insert; [apart|]). done.
    + by rewrite (addrs_rotate c1 c2).
  - intros q. rewrite Hn. intros [= <-]. simpl. rewrite !lookup_insert_ne by apart. by rewrite Hfr by apart.
Qed.
Lemma rotate_right_rep na m C c1 c2 a x b y d :
  Rep na m C (T c1 (T c2 d y b) x a) →
  ∃ m', map_rotate_right m (Some (e_addr x)) = Some m' ∧ Rep na m' C (T c2 d y (T c1 b x a)) ∧
    same_cells m m' ∧ same_nil m m'.
Proof.
  intros HR. cut (∃ m', map_rotate_right m (Some (e_addr x)) = Some m' ∧ Rep na m' C (T c2 d y (T c1 b x a)) ∧ same_nil m m').
  { intros (m' & Hm & ? & ?). exists m'. split_and!; [done..| |done]. eapply rotate_same. by right. }
  destruct HR as [Hn [par Hnil] Ht Hc Hd].
  break_addrs Hd [[na]; addrs d; [e_addr y]; addrs b; [e_addr x]; addrs a; c_addrs C].
  destruct Ht as (Hx & (Hy & Hdd & Hb) & Ha). simpl in Hc.
  assert (e_addr x ≠ e_addr y) as Hxy by apart.
  unfold map_rotate_right, left_of, right_of, parent_of. rewrite (load_some _ _ _ Hx). simpl.
  rewrite (load_some _ _ _ Hy). simpl. rewrite (store_some _ _ _ _ Hx). simpl.
  set (m1 := with_nodes m _). assert (m_nodes m1 !! e_addr y = m_nodes m !! e_addr y) as Hy1
    by (simpl; by rewrite lookup_insert_ne).
  rewrite (load_some m1 _ _ (eq_trans Hy1 Hy)). simpl.
  destruct (set_parent_sub m1 na b (Some (e_addr y)) (Some (e_addr x))) as (h2 & -> & Hb2 & Hf2); [done|apart|done| |].
  { simpl. apply rep_insert; [apart|done]. }
  cbn [mbind option_bind]. set (m2 := with_nodes m1 h2).
  assert (m_nodes m2 !! e_addr x = Some (cell c1 x (c_parent na C) (root_ptr na b) (root_ptr na a))) as Hx2.
  { simpl. rewrite Hf2 by apart. simpl. by rewrite lookup_insert_eq. }
  rewrite (load_some m2 _ _ Hx2). cbn [fmap option_fmap option_map mbind option_bind].
  assert (m_nodes m2 !! e_addr y = Some (cell c2 y (Some (e_addr x)) (root_ptr na d) (root_ptr na b))) as Hy2.
  { simpl. rewrite Hf2 by apart. by rewrite Hy1. }
  rewrite (store_some m2 _ _ _ Hy2). cbn [mbind option_bind]. set (m3 := with_nodes m2 _).
  destruct (replace_crep m3 na (e_addr x) C (Some (e_addr y))
    (cell c1 x (c_parent na C) (root_ptr na b) (root_ptr na a)))
    as (h4 & rt & _ & -> & Hc4 & Hf4); [done|apart|apart|apart|done|simpl; by rewrite lookup_insert_ne|done| |].
  { simpl. apply crep_insert; [apart|]. eapply crep_frame; [|exact Hc]. intros q Hq.
    rewrite Hf2 by apart. simpl. rewrite lookup_insert_ne; [done|apart]. }
  cbn [mbind option_bind]. set (m4 := Map rt _ _ h4 _).
  assert (m_nodes m4 !! e_addr y = Some (cell c2 y (c_parent na C) (root_ptr na d) (root_ptr na b))) as Hy4.
  { simpl. rewrite Hf4 by apart. simpl. by rewrite lookup_insert_eq. }
  rewrite (store_some m4 _ _ _ Hy4). cbn [mbind option_bind]. set (m5 := with_nodes m4 _).
  assert (m_nodes m5 !! e_addr x = Some (cell c1 x (c_parent na C) (root_ptr na b) (root_ptr na a))) as Hx5.
  { simpl. rewrite lookup_insert_ne by done. rewrite Hf4 by apart. simpl. by rewrite lookup_insert_ne. }
  rewrite (store_some m5 _ _ _ Hx5). eexists. split; [done|].
  assert (∀ q, (q ∉ c_addrs C) → (q ∉ addrs b) → q ≠ e_addr x → q ≠ e_addr y → h4 !! q = m_nodes m !! q) as Hfr.
  { intros q ? ? ? ?. rewrite Hf4 by done. simpl. rewrite lookup_insert_ne by done. rewrite Hf2 by done.
    simpl. by rewrite lookup_insert_ne. }
  split.
  - split.
    + done.
    + exists par. simpl. rewrite !lookup_insert_ne by apart. rewrite Hfr; [done|apart..].
    + simpl. rewrite lookup_insert_ne, lookup_insert_eq by done. rewrite lookup_insert_eq. split_and!; [done| |done| |].
      * do 2 (apply rep_insert; [apart|]). eapply rep_frame; [|exact Hdd]. intros q Hq. apply Hfr; apart.
      * do 2 (apply rep_insert; [apart|]). eapply rep_frame; [|exact Hb2]. intros q Hq.
        rewrite Hf4 by apart. simpl. rewrite lookup_insert_ne; [done|apart].
      * do 2 (apply rep_insert; [apart|]). eapply rep_frame; [|exact Ha]. intros q Hq. apply Hfr; apart.
    + simpl. do 2 (apply crep_insert; [apart|]). done.
    + by rewrite <- (addrs_rotate c2 c1 c2 c1).
  - intros q. rewrite Hn. intros [= <-]. simpl. rewrite !lookup_insert_ne by apart. by rewrite Hfr by apart.
Qed.
End Rotate.

(** Moving the focus in the tree of a map, reading at the focus, recolouring; the
    red-black invariant of trees and of contexts. *)

Section Focus.
Context {K V : Type}.
Implicit Types (t l r : tree K V) (C : list (frame K V)) (m : map K V) (e : entry K V) (f : frame K V).

(** ** The focus may be anywhere *)

Lemma Rep_up na m f C t : Rep na m (f :: C) t ↔ Rep na m C (fill f t).
Proof.
  assert (NoDup (na :: addrs t ++ c_addrs (f :: C)) ↔ NoDup (na :: addrs (fill f t) ++ c_addrs C)) as Hnd.
  { apply NoDup_Permutation_proper. rewrite c_addrs_cons. unfold f_addr.
    destruct f; simpl; rewrite addrs_T; solve_Permutation. }
  split; intros [Hn Hs Ht Hc Hd]; (split; [done|done|destruct f; simpl in *; tauto..|tauto]).
Qed.

Lemma Rep_plug na m C t : Rep na m C t ↔ Rep na m [] (plug C t).
Proof. revert t. induction C as [|f C IH]; intros t; [done|]. by rewrite Rep_up, IH. Qed.

(** Two ways to look at the same tree. *)
Lemma Rep_refocus na m C t C' t' : Rep na m C t → plug C t = plug C' t' → Rep na m C' t'.
Proof. rewrite (Rep_plug _ _ C), (Rep_plug _ _ C'). by intros ? <-. Qed.

(** ** Reading *)

Lemma Rep_load na m C c l e r : Rep na m C (T c l e r) →
  load m (Some (e_addr e)) = Some (cell c e (c_parent na C) (root_ptr na l) (root_ptr na r)).
Proof. intros [_ _ Ht _ _]. by apply load_some, Ht. Qed.

Lemma Rep_color na m C t : Rep na m C t → color_of m (root_ptr na t) = Some (color t).
Proof.
  intros HR. unfold color_of. destruct t as [|c l e r]; simpl.
  - destruct HR as [_ [par Hs] _ _ _]. by rewrite (load_some _ _ _ Hs).
  - by rewrite (Rep_load _ _ _ _ _ _ _ HR).
Qed.

(** ** Sides

    Fix-up code comes in pairs, the left and the right case. Here a side [s] is [true]
    for left; [node s] has its first subtree on that side. *)
Definition node (s : bool) c t e u : tree K V := if s then T c t e u else T c u e t.
Definition hole (s : bool) c e u : frame K V := if s then HoleL c e u else HoleR c u e.
Definition here (s : bool) m (p : ptr) : option ptr := if s then left_of m p else right_of m p.
Definition turn (s : bool) m (p : ptr) : option (map K V) :=
  if s then map_rotate_left m p else map_rotate_right m p.

Lemma fill_hole s c e u t : fill (hole s c e u) t = node s c t e u.
Proof. by destruct s. Qed.

Lemma color_node s c t e u : color (node s c t e u) = c.
Proof. by destruct s. Qed.

Lemma node_flip s c t e u : node (negb s) c t e u = node s c u e t.
Proof. by destruct s. Qed.

(** Any node, seen from either side. *)
Lemma node_side s c l z r : node true c l z r = node s c (if s then l else r) z (if s then r else l).
Proof. by destruct s. Qed.

Lemma here_node s na m C c t e u : Rep na m C (node s c t e u) →
  here s m (Some (e_addr e)) = Some (root_ptr na t).
Proof. intros HR. unfold here, left_of, right_of. destruct s; by rewrite (Rep_load _ _ _ _ _ _ _ HR). Qed.

Lemma there_node s na m C c t e u : Rep na m C (node s c t e u) →
  here (negb s) m (Some (e_addr e)) = Some (root_ptr na u).
Proof. rewrite <- (node_flip s). apply here_node. Qed.

Lemma parent_node s na m C c t e u : Rep na m C (node s c t e u) →
  parent_of m (Some (e_addr e)) = Some (c_parent na C).
Proof. intros HR. unfold parent_of. destruct s; by rewrite (Rep_load _ _ _ _ _ _ _ HR). Qed.

Lemma color_of_node s na m C c t e u : Rep na m C (node s c t e u) →
  color_of m (Some (e_addr e)) = Some c.
Proof. intros HR. unfold color_of. destruct s; by rewrite (Rep_load _ _ _ _ _ _ _ HR). Qed.

Lemma Rep_hole s na m c e u C t : Rep na m (hole s c e u :: C) t ↔ Rep na m C (node s c t e u).
Proof. by rewrite Rep_up, fill_hole. Qed.

Lemma Rep_swap s na m c e u C t :
  Rep na m (hole s c e u :: C) t ↔ Rep na m (hole (negb s) c e t :: C) u.
Proof. by rewrite !Rep_hole, node_flip. Qed.

Lemma Rep_raise s na m c e u C t : Rep na m (hole s c e u :: C) t → Rep na m C (node s c t e u).
Proof. apply Rep_hole. Qed.

Lemma Rep_lower s na m c e u C t : Rep na m C (node s c t e u) → Rep na m (hole s c e u :: C) t.
Proof. apply Rep_hole. Qed.

Lemma Rep_over s na m c e u C t : Rep na m (hole s c e u :: C) t → Rep na m (hole (negb s) c e t :: C) u.
Proof. apply Rep_swap. Qed.

Lemma c_parent_hole s na c e u C : c_parent na (hole s c e u :: C) = Some (e_addr e).
Proof. by destruct s. Qed.

Lemma turn_rep s na m C c1 c2 a x b y d :
  Rep na m C (node s c1 a x (node s c2 b y d)) →
  ∃ m', turn s m (Some (e_addr x)) = Some m' ∧ Rep na m' C (node s c2 (node s c1 a x b) y d) ∧
    same_cells m m' ∧ same_nil m m'.
Proof. destruct s; [apply rotate_left_rep|apply rotate_right_rep]. Qed.

Lemma elements_turn s C c1 c2 c1' c2' a x b y d :
  elements (plug C (node s c2' (node s c1' a x b) y d)) =
  elements (plug C (node s c1 a x (node s c2 b y d))).
Proof. rewrite !elements_plug. destruct s; simpl; by repeat (rewrite <- app_assoc; simpl). Qed.

(** A node is not its sibling. *)
Lemma Rep_sibling_ne s na m c e u C s' c' l e' r :
  Rep na m (hole s c e u :: C) (node s' c' l e' r) →
  eqp (Some (e_addr e')) (root_ptr na u) = false.
Proof.
  intros [_ _ _ _ Hd]. apply eqp_ne. rewrite c_addrs_cons in Hd.
  destruct s, s'; simpl in Hd;
    [break_addrs Hd [[na]; addrs l; [e_addr e']; addrs r; [e_addr e]; addrs u; c_addrs C]
    |break_addrs Hd [[na]; addrs r; [e_addr e']; addrs l; [e_addr e]; addrs u; c_addrs C]
    |break_addrs Hd [[na]; addrs l; [e_addr e']; addrs r; [e_addr e]; addrs u; c_addrs C]
    |break_addrs Hd [[na]; addrs r; [e_addr e']; addrs l; [e_addr e]; addrs u; c_addrs C]];
    apply root_ptr_ne; apart.
Qed.

Lemma Rep_is_nil na m C t : Rep na m C t →
  is_nil m (root_ptr na t) = match t with E => true | T _ _ _ _ => false end.
Proof.
  intros [Hn _ _ _ Hd]. apply is_nil_root; [done|]. apply NoDup_cons in Hd as [Hd _].
  rewrite elem_of_app in Hd. tauto.
Qed.

Lemma Rep_is_nil_parent na m C t : Rep na m C t →
  is_nil m (c_parent na C) = match C with [] => true | _ => false end.
Proof.
  intros HR. destruct C as [|f C]; simpl.
  - unfold is_nil. destruct HR as [-> _ _ _ _]. apply eqp_refl.
  - apply Rep_up, Rep_is_nil in HR. by destruct f.
Qed.

Lemma Rep_root na m C t : Rep na m C t → m_root m = root_ptr na (plug C t).
Proof. rewrite Rep_plug. by intros [_ _ _ Hc _]. Qed.

(** ** Recolouring *)

Lemma recolor_rep s na m C c l e r c' : Rep na m C (node s c l e r) →
  ∃ m', store m (Some (e_addr e)) (set_color c') = Some m' ∧ Rep na m' C (node s c' l e r) ∧
    same_cells m m' ∧ same_nil m m'.
Proof.
  assert (∀ l r, Rep na m C (T c l e r) →
    ∃ m', store m (Some (e_addr e)) (set_color c') = Some m' ∧ Rep na m' C (T c' l e r) ∧
      same_cells m m' ∧ same_nil m m') as HT; [|destruct s; apply HT].
  clear l r. intros l r [Hn [par Hnil] Ht Hc Hd]. pose proof Hd as Hd'. destruct Ht as (He & Hl & Hr).
  break_addrs Hd [[na]; addrs l; [e_addr e]; addrs r; c_addrs C].
  rewrite (store_some _ _ _ _ He). eexists. split; [done|]. split; [|split].
  - split; simpl; [done| | | |by rewrite addrs_T in *].
    + exists par. rewrite lookup_insert_ne; [done|apart].
    + rewrite lookup_insert_eq. split_and!; [done|apply rep_insert; [apart|done]..].
    + apply crep_insert; [apart|done].
  - eapply store_same. by apply store_some.
  - intros q. rewrite Hn. intros [= <-]. simpl. rewrite lookup_insert_ne; [done|apart].
Qed.

(** ** The invariant *)

(** No red node has a red child, and every path has [n] black nodes. *)
Inductive rb : nat → tree K V → Prop :=
  | rb_E : rb 0 E
  | rb_R n l e r : rb n l → rb n r → color l = MAP_BLACK → color r = MAP_BLACK → rb n (T MAP_RED l e r)
  | rb_B n l e r : rb n l → rb n r → rb (S n) (T MAP_BLACK l e r).

Lemma rb_node s n c l e r : rb n (node s c l e r) ↔
  match c with
  | MAP_RED => rb n l ∧ rb n r ∧ color l = MAP_BLACK ∧ color r = MAP_BLACK
  | MAP_BLACK => ∃ k, n = S k ∧ rb k l ∧ rb k r
  end.
Proof.
  split.
  - destruct s; simpl; inversion 1; subst; by eauto.
  - destruct s, c; simpl; intros Hr; destruct_and?; try destruct Hr as (k & -> & ? & ?); by constructor.
Qed.

Lemma rb_red s n l e r : rb n l → rb n r → color l = MAP_BLACK → color r = MAP_BLACK →
  rb n (node s MAP_RED l e r).
Proof. intros. by apply rb_node. Qed.

Lemma rb_black s n l e r : rb n l → rb n r → rb (S n) (node s MAP_BLACK l e r).
Proof. intros. apply rb_node. eauto. Qed.

(** A context for a subtree with [n] black nodes on each path: a red node has a black
    parent, so it is not the root. *)
Fixpoint crb (n : nat) C : Prop :=
  match C with
  | [] => True
  | f :: C' =>
      rb n (f_sibling f) ∧
      match f_color f with
      | MAP_BLACK => crb (S n) C'
      | MAP_RED =>
          color (f_sibling f) = MAP_BLACK ∧ crb n C' ∧
          match C' with [] => False | g :: _ => f_color g = MAP_BLACK end
      end
  end.

Definition c_color C : map_color := match C with [] => MAP_BLACK | f :: _ => f_color f end.

Lemma f_color_hole s c e u : f_color (hole s c e u) = c.
Proof. by destruct s. Qed.

Lemma f_sibling_hole s c e u : f_sibling (hole s c e u) = u.
Proof. by destruct s. Qed.

(** Every frame is a [hole]. *)
Lemma hole_cases f : ∃ s c e u, f = hole s c e u.
Proof. destruct f as [c e u|c u e]; [exists true|exists false]; by exists c, e, u. Qed.

Definition blacken t : tree K V := match t with E => E | T _ l e r => T MAP_BLACK l e r end.

Lemma rb_blacken n t : rb n t → ∃ n', rb n' (blacken t).
Proof. destruct 1; eexists; by constructor. Qed.

Lemma elements_blacken t : elements (blacken t) = elements t.
Proof. by destruct t. Qed.

Lemma crb_plug C n t : crb n C → rb n t → (c_color C = MAP_RED → color t = MAP_BLACK) →
  ∃ n', rb n' (plug C t).
Proof.
  revert n t. induction C as [|f C IH]; intros n t; simpl; [by eauto|].
  destruct (hole_cases f) as (s & c & e & u & ->). rewrite f_color_hole, f_sibling_hole, fill_hole.
  intros [Hs Hf] Ht Hc. destruct c.
  - destruct Hf as (Hsc & HC & Hg). apply (IH n); [done| |].
    + apply rb_node. auto.
    + destruct C as [|g C]; [done|]. simpl. by rewrite Hg.
  - apply (IH (S n)); [done|apply rb_node; eauto|]. by rewrite color_node.
Qed.

Lemma plug_crb C n t : rb n (plug C t) → color (plug C t) = MAP_BLACK →
  ∃ k, rb k t ∧ crb k C ∧ (c_color C = MAP_RED → color t = MAP_BLACK).
Proof.
  revert t. induction C as [|f C IH]; intros t Hrb Hc; [by exists n|]. simpl in Hrb, Hc.
  destruct (IH _ Hrb Hc) as (k & Hk & HC & Htop). destruct (hole_cases f) as (s & c & e & u & ->).
  rewrite fill_hole, color_node in *. simpl. rewrite f_color_hole, f_sibling_hole. destruct c.
  - apply rb_node in Hk as (? & ? & ? & ?). exists k. split_and!; try done. destruct C as [|g C].
    + simpl in Hc. by rewrite color_node in Hc.
    + simpl in Htop. destruct (f_color g); [by apply Htop|done].
  - apply rb_node in Hk as (k' & -> & ? & ?). by exists k'.
Qed.
End Focus.

(** Take the result of a step into the rest of the operation. *)
Ltac go := cbn [mbind option_bind].
