(* ===== verification/RbInsert.v ===== *)
(** Insertion into the red-black tree: the fix-up loop restores the invariant and ends. *)

From S2P Require Import Prelude RbMap RbTree RbRotate.

Section Insert.
Context {K V : Type}.
Implicit Types (t l r u v : tree K V) (C : list (frame K V)) (m : map K V) (e g p z : entry K V).

(** The state of the loop: a red node [z] whose subtree is in order, in a context that
    is in order but for a red parent. *)
Record fixing na m n C l z r : Prop := {
  fx_rep : Rep na m C (node true MAP_RED l z r);
  fx_tree : rb n (node true MAP_RED l z r);
  fx_ctx : crb n C }.

(** What one turn of the loop leaves: it has gone up two levels, or it is done. *)
Definition fixed_to na m C0 C l z r (res : option (ptr * map K V)) : Prop :=
  ∃ m' n' C2 l2 z2 r2,
    res = Some (Some (e_addr z2), m') ∧ fixing na m' n' C2 l2 z2 r2 ∧ same_cells m m' ∧
    elements (plug C2 (T MAP_RED l2 z2 r2)) = elements (plug C (T MAP_RED l z r)) ∧
    (C2 = C0 ∨ c_color C2 = MAP_BLACK).

Abbreviation insert_side s m z :=
  (insert_case m (Some (e_addr z)) (here (negb s)) (turn s) (turn (negb s))).

(** The uncle is red: both go black, their parent red, and the loop goes on there. *)
Lemma insert_uncle_red s1 s na m n p v g u C l z r :
  let C1 := hole s1 MAP_RED p v :: hole s MAP_BLACK g u :: C in
  fixing na m n C1 l z r → color u = MAP_RED → fixed_to na m C C1 l z r (insert_side s m z).
Proof.
  intros C1 [HR Ht Hc] Hu. destruct u as [|uc ul ue ur]; [done|]. simpl in Hu. subst uc C1.
  pose proof (Rep_raise _ _ _ _ _ _ _ _ HR) as HRp. pose proof (Rep_raise _ _ _ _ _ _ _ _ HRp) as HRg.
  unfold insert_case. rewrite (parent_node _ _ _ _ _ _ _ _ HR), c_parent_hole. go.
  rewrite (parent_node _ _ _ _ _ _ _ _ HRp), c_parent_hole. go.
  rewrite (there_node _ _ _ _ _ _ _ _ HRg). cbn [mbind option_bind root_ptr].
  rewrite (color_of_node true _ _ _ _ _ _ _ (Rep_over _ _ _ _ _ _ _ _ HRp)). cbn.
  destruct (recolor_rep _ _ _ _ _ _ _ _ MAP_BLACK HRp) as (m1 & -> & HR1 & S1 & _). go.
  apply Rep_over in HR1.
  destruct (recolor_rep true _ _ _ _ _ _ _ MAP_BLACK HR1) as (m2 & -> & HR2 & S2 & _). go.
  apply Rep_over in HR2. rewrite negb_involutive in HR2. pose proof (Rep_lower _ _ _ _ _ _ _ _ HR2) as HR2z.
  rewrite (parent_node _ _ _ _ _ _ _ _ HR2z), c_parent_hole. go.
  rewrite (parent_node _ _ _ _ _ _ _ _ HR2), c_parent_hole. go.
  apply Rep_raise in HR2.
  destruct (recolor_rep _ _ _ _ _ _ _ _ MAP_RED HR2) as (m3 & -> & HR3 & S3 & _). go.
  pose proof (Rep_lower _ _ _ _ _ _ _ _ HR3) as HR3p. pose proof (Rep_lower _ _ _ _ _ _ _ _ HR3p) as HR3z.
  rewrite (parent_node _ _ _ _ _ _ _ _ HR3z), c_parent_hole. go.
  rewrite (parent_node _ _ _ _ _ _ _ _ HR3p), c_parent_hole. go.
  exists m3, (S n), C, (if s then node s1 MAP_BLACK (T MAP_RED l z r) p v else T MAP_BLACK ul ue ur), g,
    (if s then T MAP_BLACK ul ue ur else node s1 MAP_BLACK (T MAP_RED l z r) p v).
  simpl in Hc. rewrite !f_color_hole, !f_sibling_hole in Hc. destruct Hc as (Hv & Hvc & (Hub & HC) & _).
  apply (rb_node true) in Hub as (? & ? & ? & ?).
  assert (rb (S n) (node s1 MAP_BLACK (T MAP_RED l z r) p v)) by (apply rb_node; eauto).
  assert (rb (S n) (T MAP_BLACK ul ue ur)) by (by constructor).
  split_and!; [done| |by do 2 etransitivity| |by left].
  - destruct s; (split; [done| |done]); apply (rb_node true); by rewrite color_node.
  - simpl. rewrite !fill_hole, !elements_plug. by destruct s, s1.
Qed.
(** The last rotation, when [z] and its parent are on the same side. *)
Lemma insert_outer s s' na m c p v g u C l z r :
  Rep na m (hole s c p v :: hole s MAP_BLACK g u :: C) (node s' MAP_RED l z r) →
  ∃ m', (zp ← parent_of m (Some (e_addr z));
         m ← store m zp (set_color MAP_BLACK);
         zpp ← parent_of m zp;
         m ← store m zpp (set_color MAP_RED);
         m ← turn (negb s) m zpp;
         Some (Some (e_addr z), m)) = Some (Some (e_addr z), m') ∧
    Rep na m' (hole s MAP_BLACK p (node s MAP_RED v g u) :: C) (node s' MAP_RED l z r) ∧ same_cells m m'.
Proof.
  intros HR. rewrite (parent_node _ _ _ _ _ _ _ _ HR), c_parent_hole. go. apply Rep_raise in HR.
  destruct (recolor_rep _ _ _ _ _ _ _ _ MAP_BLACK HR) as (m1 & -> & HR1 & S1 & _). go.
  rewrite (parent_node _ _ _ _ _ _ _ _ HR1), c_parent_hole. go. apply Rep_raise in HR1.
  destruct (recolor_rep _ _ _ _ _ _ _ _ MAP_RED HR1) as (m2 & -> & HR2 & S2 & _). go.
  rewrite <- node_flip, <- (node_flip s MAP_BLACK) in HR2.
  destruct (turn_rep _ _ _ _ _ _ _ _ _ _ _ HR2) as (m3 & -> & HR3 & S3 & _). go.
  exists m3. split_and!; [done| |by do 2 etransitivity].
  rewrite !node_flip in HR3. by apply Rep_lower.
Qed.

(** The uncle is black: one or two rotations end the loop. *)
Lemma insert_uncle_black s1 s na m n p v g u C l z r :
  let C1 := hole s1 MAP_RED p v :: hole s MAP_BLACK g u :: C in
  fixing na m n C1 l z r → color u = MAP_BLACK → fixed_to na m C C1 l z r (insert_side s m z).
Proof.
  intros C1 [HR Ht Hc] Hu. subst C1.
  pose proof (Rep_raise _ _ _ _ _ _ _ _ HR) as HRp. pose proof (Rep_raise _ _ _ _ _ _ _ _ HRp) as HRg.
  unfold insert_case. rewrite (parent_node _ _ _ _ _ _ _ _ HR), c_parent_hole. go.
  rewrite (parent_node _ _ _ _ _ _ _ _ HRp), c_parent_hole. go.
  rewrite (there_node _ _ _ _ _ _ _ _ HRg). go.
  rewrite (Rep_color _ _ _ _ (Rep_over _ _ _ _ _ _ _ _ HRp)), Hu. go. change (is_red MAP_BLACK) with false. cbn match.
  simpl in Hc. rewrite !f_color_hole, !f_sibling_hole in Hc. destruct Hc as (Hv & Hvc & (Hub & HC) & _).
  apply (rb_node true) in Ht as (Hl & Hr & Hlc & Hrc).
  destruct (decide (s1 = s)) as [->|Hne].
  - rewrite (there_node _ _ _ _ _ _ _ _ HRp). go. rewrite (Rep_sibling_ne _ _ _ _ _ _ _ _ _ _ _ _ HR). go.
    destruct (insert_outer _ _ _ _ _ _ _ _ _ _ _ _ _ HR) as (m' & -> & HR' & HS).
    exists m', n, (hole s MAP_BLACK p (node s MAP_RED v g u) :: C), l, z, r.
    split_and!; [done| |done| |right; apply f_color_hole].
    + split; [done|by apply (rb_node true)|]. simpl. rewrite f_color_hole, f_sibling_hole. split; [|done]. by apply rb_node.
    + simpl. rewrite !fill_hole, <- !(node_flip s). by rewrite (elements_turn (negb s) C MAP_BLACK MAP_RED).
  - replace s1 with (negb s) in * by (by destruct s, s1).
    rewrite (here_node _ _ _ _ _ _ _ _ HRp). go. simpl root_ptr. rewrite eqp_refl.
    rewrite node_flip, (node_side s) in HRp.
    destruct (turn_rep _ _ _ _ _ _ _ _ _ _ _ HRp) as (m1 & -> & HR1 & S1 & _). go. apply Rep_lower in HR1.
    destruct (insert_outer _ _ _ _ _ _ _ _ _ _ _ _ _ HR1) as (m' & -> & HR' & HS).
    set (b := if s then l else r) in *. set (d := if s then r else l) in *.
    assert (rb n b ∧ rb n d ∧ color b = MAP_BLACK ∧ color d = MAP_BLACK) as (? & ? & ? & ?) by (by destruct s).
    exists m', n, (hole s MAP_BLACK z (node s MAP_RED d g u) :: C), (if s then v else b), p, (if s then b else v).
    split_and!; [done| |by etransitivity| |right; apply f_color_hole].
    + split; [by destruct s|by destruct s; apply (rb_red true)|]. simpl. rewrite f_color_hole, f_sibling_hole.
      split; [|done]. by apply rb_node.
    + change (T MAP_RED l z r) with (node true MAP_RED l z r). rewrite (node_side s MAP_RED l). fold b d.
      rewrite elements_plug. simpl. rewrite !fill_hole, !elements_plug. destruct s; simpl; by repeat (rewrite <- app_assoc; simpl).
Qed.

Lemma insert_case_spec s1 s na m n p v g u C l z r :
  let C1 := hole s1 MAP_RED p v :: hole s MAP_BLACK g u :: C in
  fixing na m n C1 l z r → fixed_to na m C C1 l z r (insert_side s m z).
Proof. intros C1 Hf. destruct (color u) eqn:Hu; [by eapply insert_uncle_red|by eapply insert_uncle_black]. Qed.

(** ** The loop *)

(** Which side the parent is on decides the case. *)
Lemma left_link s na m c g u C s1 c1 t p v :
  Rep na m (hole s c g u :: C) (node s1 c1 t p v) →
  ∃ q, left_of m (Some (e_addr g)) = Some q ∧ eqp (Some (e_addr p)) q = s.
Proof.
  intros HR. pose proof (Rep_raise _ _ _ _ _ _ _ _ HR) as HRg. destruct s.
  - exists (Some (e_addr p)). change (left_of m) with (here true m). rewrite (here_node true _ _ _ _ _ _ _ HRg).
    split; [by destruct s1|apply eqp_refl].
  - exists (root_ptr na u). change (left_of m) with (here (negb false) m).
    rewrite (there_node false _ _ _ _ _ _ _ HRg). split; [done|]. by apply (Rep_sibling_ne false _ _ _ _ _ _ _ _ _ _ _ HR).
Qed.

Lemma insert_fixup_loop_rep fuel na m n C l z r :
  fixing na m n C l z r → (length C < fuel ∨ (c_color C = MAP_BLACK ∧ 0 < fuel))%nat →
  ∃ m' t, insert_fixup_loop fuel m (Some (e_addr z)) = Some m' ∧ Rep na m' [] t ∧ same_cells m m' ∧
    elements t = elements (plug C (T MAP_RED l z r)) ∧ ∃ n', rb n' (blacken t).
Proof.
  revert m n C l z r. induction fuel as [|fuel IH]; intros m n C l z r Hx Hfuel; [lia|].
  pose proof Hx as [HR Ht Hc]. cbn [insert_fixup_loop]. rewrite (parent_node _ _ _ _ _ _ _ _ HR). go.
  assert (color_of m (c_parent na C) = Some (c_color C)) as ->.
  { destruct C as [|f C]; simpl.
    - destruct HR as [_ [par Hs] _ _ _]. unfold color_of. by rewrite (load_some _ _ _ Hs).
    - destruct (hole_cases f) as (s & c & e & u & ->). rewrite f_color_hole. apply Rep_raise in HR.
      unfold f_addr. replace (f_entry (hole s c e u)) with e by (by destruct s). by apply color_of_node in HR. }
  go. destruct (c_color C) eqn:Ecol; [change (is_red MAP_RED) with true|change (is_red MAP_BLACK) with false]; cbn match.
  - destruct C as [|f C]; [done|]. destruct (hole_cases f) as (s1 & c & p & v & ->). simpl in Ecol.
    rewrite f_color_hole in Ecol. subst c. pose proof Hc as Hc'. simpl in Hc'. rewrite f_color_hole in Hc'.
    destruct Hc' as (_ & _ & _ & Hg). destruct C as [|f C]; [done|].
    destruct (hole_cases f) as (s & c & g & u & ->). rewrite f_color_hole in Hg. subst c.
    rewrite c_parent_hole. rewrite (parent_node _ _ _ _ _ _ _ _ (Rep_raise _ _ _ _ _ _ _ _ HR)), c_parent_hole. go.
    destruct (left_link _ _ _ _ _ _ _ _ _ _ _ _ (Rep_raise _ _ _ _ _ _ _ _ HR)) as (q & -> & Hs). go. rewrite Hs.
    destruct (insert_case_spec _ _ _ _ _ _ _ _ _ _ _ _ _ Hx) as (m' & n' & C2 & l2 & z2 & r2 & Hres & Hx2 & S2 & He2 & Hpos).
    assert (∃ m'' t, insert_fixup_loop fuel m' (Some (e_addr z2)) = Some m'' ∧ Rep na m'' [] t ∧ same_cells m' m'' ∧
      elements t = elements (plug C2 (T MAP_RED l2 z2 r2)) ∧ ∃ n', rb n' (blacken t)) as (m'' & t & Hloop & HRt & S3 & He3 & Hrb).
    { eapply IH; [done|]. destruct Hfuel as [Hfuel|[Hb _]]; [|done].
      simpl in Hfuel. destruct Hpos as [->|Hb]; [left; lia|right; split; [done|lia]]. }
    exists m'', t. split_and!; [|done|by etransitivity|congruence|done].
    destruct s.
    + change (insert_case _ _ _ _ _) with (insert_side true m z). rewrite Hres. exact Hloop.
    + change (insert_case _ _ _ _ _) with (insert_side false m z). rewrite Hres. exact Hloop.
  - exists m, (plug C (T MAP_RED l z r)). split_and!; [done|exact (proj1 (Rep_plug _ _ _ _) HR)|done|done|].
    destruct (crb_plug C n _ Hc Ht) as [n' Hn]; [by rewrite Ecol|]. by eapply rb_blacken.
Qed.

(** After the loop the root goes black. *)
Lemma map_insert_fixup_rep na m n C l z r :
  fixing na m n C l z r → (length C < turns m)%nat →
  ∃ m' t, map_insert_fixup m (Some (e_addr z)) = Some m' ∧ Rep na m' [] t ∧ same_cells m m' ∧
    elements t = elements (plug C (T MAP_RED l z r)) ∧ (∃ n', rb n' t) ∧ color t = MAP_BLACK.
Proof.
  intros Hx Hlen. destruct (insert_fixup_loop_rep (turns m) _ _ _ _ _ _ _ Hx) as (m1 & t & Hm1 & HR & S1 & He & Hrb); [by left|].
  unfold map_insert_fixup. rewrite Hm1. go. rewrite (Rep_root _ _ _ _ HR). simpl. destruct t as [|c tl te tr].
  { exfalso. symmetry in He. rewrite elements_plug in He. simpl in He. by destruct (c_left C), (elements l). }
  destruct (recolor_rep true _ _ _ _ _ _ _ MAP_BLACK HR) as (m2 & Hm2 & HR2 & S2 & _). simpl.
  exists m2, (T MAP_BLACK tl te tr). split_and!; [done|done|by etransitivity|done|done|done].
Qed.
End Insert.
