(* ===== verification/RbSearch.v ===== *)
(** Walks along the tree: lookup, the place of a new key, minimum, neighbours. *)

From Stdlib Require Import Sorting.Sorted.
From S2P Require Import Prelude RbMap RbTree RbRotate.

(** What a comparison callback promises ([map.h]: negative, zero or positive as the
    first key is before, equal to or after the second); a copied key is equal to the
    original. *)
Class MapLaws {K V : Type} (ops : map_ops K V) : Prop := {
  compare_antisym a b : compare ops a b < 0 ↔ 0 < compare ops b a;
  compare_trans a b c : compare ops a b <= 0 → compare ops b c <= 0 → compare ops a c <= 0;
  key_copy_equal f k : key_copy ops = Some f → compare ops (f k) k = 0 }.

Section Search.
Context {K V : Type} (ops : map_ops K V) `{!MapLaws ops}.
Implicit Types (t l r u : tree K V) (C : list (frame K V)) (m : map K V) (e : entry K V) (k key : K).

Abbreviation cmp := (compare ops).

(** ** Order *)

Lemma cmp_eq_sym a b : cmp a b = 0 → cmp b a = 0.
Proof. intros H. pose proof (compare_antisym a b). pose proof (compare_antisym b a). lia. Qed.

Lemma cmp_refl a : cmp a a = 0.
Proof. pose proof (compare_antisym a a). lia. Qed.

Lemma cmp_le_flip a b : cmp a b <= 0 ↔ 0 <= cmp b a.
Proof. pose proof (compare_antisym b a). pose proof (compare_antisym a b). lia. Qed.

Lemma cmp_lt_trans a b c : cmp a b < 0 → cmp b c <= 0 → cmp a c < 0.
Proof.
  intros H1 H2. destruct (Z.lt_ge_cases (cmp a c) 0) as [|H3]; [done|exfalso].
  apply cmp_le_flip in H3. pose proof (compare_trans b c a H2 H3) as H4. apply cmp_le_flip in H4. lia.
Qed.

Lemma cmp_lt_trans' a b c : cmp a b <= 0 → cmp b c < 0 → cmp a c < 0.
Proof.
  intros H1 H2. destruct (Z.lt_ge_cases (cmp a c) 0) as [|H3]; [done|exfalso].
  apply cmp_le_flip in H3. pose proof (compare_trans c a b H3 H1) as H4. apply cmp_le_flip in H4. lia.
Qed.

(** Equal keys compare alike. *)
Lemma cmp_eq_l a b c : cmp a b = 0 → Z.sgn (cmp a c) = Z.sgn (cmp b c).
Proof.
  intros H. pose proof (cmp_eq_sym _ _ H) as H'.
  destruct (Ztrichotomy (cmp a c) 0) as [Hc|[Hc|Hc]], (Ztrichotomy (cmp b c) 0) as [Hd|[Hd|Hd]]; try lia.
  all: exfalso.
  - pose proof (cmp_lt_trans' b a c). lia.
  - pose proof (cmp_lt_trans' b a c). lia.
  - pose proof (cmp_lt_trans' a b c). lia.
  - apply Z.gt_lt, compare_antisym in Hd. pose proof (cmp_lt_trans c b a). pose proof (compare_antisym c a). lia.
  - pose proof (cmp_lt_trans' a b c). lia.
  - apply Z.gt_lt, compare_antisym in Hc. pose proof (cmp_lt_trans c a b). pose proof (compare_antisym c b). lia.
Qed.

Definition before e e' : Prop := cmp (e_key e) (e_key e') < 0.
Definition sorted (l : list (entry K V)) : Prop := StronglySorted before l.

Lemma sorted_app xs ys : sorted (xs ++ ys) ↔
  sorted xs ∧ sorted ys ∧ ∀ a b, a ∈ xs → b ∈ ys → before a b.
Proof.
  induction xs as [|x xs IH]; simpl.
  - split; [|tauto]. intros Hs. split_and!; [constructor|done|]. intros a b Ha. by apply elem_of_nil in Ha.
  - split.
    + intros Hs. apply StronglySorted_inv in Hs as [Hs Hx]. apply IH in Hs as (H1 & H2 & H3).
      rewrite Forall_forall in Hx. split_and!; [constructor; [done|]|done|].
      * apply Forall_forall. intros a Ha. apply Hx, elem_of_app. auto.
      * intros a b [->|Ha]%elem_of_cons Hb; [|by apply H3]. apply Hx, elem_of_app. auto.
    + intros (H1 & H2 & H3). apply StronglySorted_inv in H1 as [H1 Hx]. rewrite Forall_forall in Hx. constructor.
      * apply IH. split_and!; [done..|]. intros a b Ha Hb. apply H3; [by apply elem_of_cons; right|done].
      * apply Forall_forall. intros a [Ha|Ha]%elem_of_app; [by apply Hx|]. apply H3; [by apply elem_of_cons; left|done].
Qed.

Lemma sorted_cons x xs : sorted (x :: xs) ↔ sorted xs ∧ ∀ b, b ∈ xs → before x b.
Proof.
  change (x :: xs) with ([x] ++ xs). rewrite sorted_app. split.
  - intros (_ & ? & H). split; [done|]. intros b. apply H. by apply list_elem_of_singleton.
  - intros [? H]. split_and!; [repeat constructor|done|]. intros a b ->%list_elem_of_singleton. apply H.
Qed.

(** ** Lookup *)

(** The entry with a key equal to [key]. *)
Definition find_entry key (xs : list (entry K V)) : option (entry K V) :=
  List.find (λ e, cmp key (e_key e) =? 0) xs.

Lemma find_none key xs : (∀ e, e ∈ xs → cmp key (e_key e) ≠ 0) → find_entry key xs = None.
Proof.
  intros H. unfold find_entry. induction xs as [|x xs IH]; [done|]. cbn [List.find].
  destruct (Z.eqb_spec (cmp key (e_key x)) 0) as [Hx|Hx]; [by apply H in Hx; [|apply elem_of_cons; left]|].
  apply IH. intros e He. apply H, elem_of_cons. auto.
Qed.

Lemma find_entry_app key xs ys :
  find_entry key (xs ++ ys) = match find_entry key xs with Some e => Some e | None => find_entry key ys end.
Proof. unfold find_entry. induction xs as [|x xs IH]; [done|]. simpl. by destruct (_ =? 0). Qed.

Lemma find_entry_before key e xs : cmp key (e_key e) < 0 → (∀ b, b ∈ xs → before e b) →
  find_entry key (e :: xs) = None.
Proof.
  intros He Hb. apply find_none. intros b [->|Hin]%elem_of_cons; [lia|].
  pose proof (cmp_lt_trans key (e_key e) (e_key b) He). specialize (Hb b Hin). unfold before in Hb. lia.
Qed.

Lemma find_entry_after key e xs : 0 < cmp key (e_key e) → (∀ a, a ∈ xs → before a e) →
  find_entry key xs = None.
Proof.
  intros He Hb. apply find_none. intros a Hin. specialize (Hb a Hin). unfold before in Hb.
  apply compare_antisym in He. pose proof (cmp_lt_trans (e_key a) (e_key e) key Hb ltac:(lia)) as Hk.
  apply compare_antisym in Hk. lia.
Qed.

Fixpoint height t : nat := match t with E => 0 | T _ l _ r => S (Nat.max (height l) (height r)) end.

Lemma height_elements t : (height t <= length (elements t))%nat.
Proof. induction t as [|c l IHl e r IHr]; simpl; [lia|]. rewrite length_app. simpl. lia. Qed.

Lemma rep_is_Some na h par t a : rep na h par t → a ∈ addrs t → is_Some (h !! a).
Proof.
  revert par. induction t as [|c l IHl e r IHr]; intros par; simpl; [by intros _ ?%elem_of_nil|].
  intros (He & Hl & Hr) [?|[->|?]]%elem_of_addrs_T; eauto.
Qed.

Lemma Rep_turns na m t : Rep na m [] t → (length (elements t) < turns m)%nat.
Proof.
  intros [Hn [par Hs] Ht _ Hd]. simpl in Hd. unfold c_addrs in Hd. simpl in Hd. rewrite app_nil_r in Hd. unfold turns.
  assert (length (na :: addrs t) <= size (m_nodes m))%nat as Hle; [|unfold addrs in Hle; simpl in Hle; rewrite length_fmap in Hle; lia].
  rewrite <- (size_list_to_set (C:=gset nat) _ Hd), <- size_dom. apply subseteq_size.
  intros a Ha. apply elem_of_dom. apply elem_of_list_to_set, elem_of_cons in Ha as [->|Ha]; [by eexists|].
  by eapply rep_is_Some.
Qed.

Lemma find_loop_rep fuel na m C t key : Rep na m C t → sorted (elements t) → (height t < fuel)%nat →
  find_loop ops fuel m key (root_ptr na t) =
    Some (match find_entry key (elements t) with Some e => Some (e_addr e) | None => Some na end).
Proof.
  revert C t. induction fuel as [|fuel IH]; intros C t HR Hs Hh; [lia|]. cbn [find_loop].
  rewrite (Rep_is_nil _ _ _ _ HR). destruct t as [|c l e r].
  { by destruct HR as [-> _ _ _ _]. }
  simpl root_ptr. rewrite (Rep_load _ _ _ _ _ _ _ HR). go. simpl n_key. go. simpl in Hs, Hh.
  apply sorted_app in Hs as (Hl & Her & Hb). apply sorted_cons in Her as [Hr He].
  assert (∀ a, a ∈ elements l → before a e) as Ha by (intros a Hin; apply Hb; [done|by apply elem_of_cons; left]).
  simpl elements. rewrite find_entry_app.
  destruct (Z.eqb_spec (cmp key (e_key e)) 0) as [Hk|Hk].
  - rewrite find_none; [by unfold find_entry; simpl; rewrite (proj2 (Z.eqb_eq _ _) Hk)|].
    intros a Hin. specialize (Ha a Hin). unfold before in Ha.
    pose proof (cmp_lt_trans (e_key a) (e_key e) key Ha) as Hlt. apply cmp_eq_sym in Hk.
    specialize (Hlt ltac:(lia)). apply compare_antisym in Hlt. lia.
  - destruct (Z.ltb_spec (cmp key (e_key e)) 0) as [Hlt|Hge].
    + rewrite (find_entry_before _ _ _ Hlt He). apply (Rep_lower true) in HR. cbn [n_left cell]. rewrite (IH _ _ HR Hl) by lia.
      by destruct (find_entry key (elements l)).
    + rewrite (find_entry_after key e (elements l) ltac:(lia) Ha). apply (Rep_lower false) in HR. cbn [n_right cell]. rewrite (IH _ _ HR Hr) by lia.
      unfold find_entry at 2. simpl. by rewrite (proj2 (Z.eqb_neq _ _) Hk).
Qed.

(** ** The place of a new key *)

Lemma insert_walk_rep fuel na m C t key : Rep na m C t → sorted (elements t) → (height t < fuel)%nat →
  find_entry key (elements t) = None →
  (∀ a, a ∈ c_left C → cmp (e_key a) key < 0) → (∀ b, b ∈ c_right C → cmp key (e_key b) < 0) →
  ∃ C', insert_walk ops fuel m key (c_parent na C) (root_ptr na t) = Some (c_parent na C') ∧
    plug C' E = plug C t ∧
    (∀ a, a ∈ c_left C' → cmp (e_key a) key < 0) ∧ (∀ b, b ∈ c_right C' → cmp key (e_key b) < 0).
Proof.
  revert C t. induction fuel as [|fuel IH]; intros C t HR Hs Hh Hf HL HRt; [lia|]. cbn [insert_walk].
  rewrite (Rep_is_nil _ _ _ _ HR). destruct t as [|c l e r]; [by exists C|].
  simpl root_ptr. rewrite (Rep_load _ _ _ _ _ _ _ HR). go. simpl n_key. go. simpl in Hs, Hh, Hf.
  apply sorted_app in Hs as (Hl & Her & Hb). apply sorted_cons in Her as [Hr He].
  rewrite find_entry_app in Hf. destruct (find_entry key (elements l)) eqn:Efl; [done|].
  unfold find_entry in Hf. cbn [List.find] in Hf. destruct (Z.eqb_spec (cmp key (e_key e)) 0) as [|Hne]; [done|].
  destruct (Z.ltb_spec (cmp key (e_key e)) 0) as [Hlt|Hge].
  - apply (Rep_lower true) in HR.
    destruct (IH _ _ HR Hl ltac:(lia) Efl) as (C' & Hw & Hp & HL' & HR'); [done| |by exists C'].
    intros b. cbn [hole c_right]. intros [->|[Hin|Hin]%elem_of_app]%elem_of_cons; [done| |by apply HRt].
    specialize (He _ Hin). unfold before in He. eapply cmp_lt_trans; [exact Hlt|lia].
  - apply (Rep_lower false) in HR.
    destruct (IH _ _ HR Hr ltac:(lia) Hf) as (C' & Hw & Hp & HL' & HR'); [|done|by exists C'].
    assert (cmp (e_key e) key < 0) as Hek by (apply compare_antisym; lia).
    intros a. cbn [hole c_left]. intros [Hin|[Hin| ->%list_elem_of_singleton]%elem_of_app]%elem_of_app; [by apply HL| |done].
    assert (before a e) as Hae by (apply Hb; [done|by apply elem_of_cons; left]). unfold before in Hae.
    eapply cmp_lt_trans; [exact Hae|lia].
Qed.
End Search.

(** ** Extremes and neighbours *)

Section Walks.
Context {K V : Type}.
Implicit Types (t l r u : tree K V) (C D : list (frame K V)) (m : map K V) (e : entry K V).

(** The entries before and after the hole, seen from the side [s]. *)
Definition c_side (s : bool) C : list (entry K V) := if s then c_left C else reverse (c_right C).
Definition elements_side (s : bool) t : list (entry K V) := if s then elements t else reverse (elements t).

Fixpoint extreme (s : bool) (fuel : nat) m (p : ptr) : option ptr :=
  match fuel with
  | O => None
  | S f => q ← here s m p; if is_nil m q then Some p else extreme s f m q
  end.

Lemma minimum_extreme fuel m p : minimum_loop fuel m p = extreme true fuel m p.
Proof. revert p. induction fuel as [|fuel IH]; intros p; [done|]. simpl. by destruct (left_of m p); [simpl; rewrite IH|]. Qed.

Lemma maximum_extreme fuel m p : maximum_loop fuel m p = extreme false fuel m p.
Proof. revert p. induction fuel as [|fuel IH]; intros p; [done|]. simpl. by destruct (right_of m p); [simpl; rewrite IH|]. Qed.

Lemma c_side_hole s c e u C : c_side s (hole s c e u :: C) = c_side s C.
Proof. by destruct s. Qed.

Lemma extreme_rep s fuel na m C c l e r : Rep na m C (node s c l e r) →
  (height (node s c l e r) <= fuel)%nat →
  ∃ D c' e' r', extreme s fuel m (Some (e_addr e)) = Some (Some (e_addr e')) ∧
    plug (D ++ C) (node s c' E e' r') = plug C (node s c l e r) ∧ c_side s (D ++ C) = c_side s C ∧
    Forall (λ f, ∃ c e u, f = hole s c e u) D.
Proof.
  revert C c l e r. induction fuel as [|fuel IH]; intros C c l e r HR Hh; [destruct s; simpl in Hh; lia|].
  cbn [extreme]. rewrite (here_node _ _ _ _ _ _ _ _ HR). go. pose proof (Rep_lower _ _ _ _ _ _ _ _ HR) as HRl.
  rewrite (Rep_is_nil _ _ _ _ HRl). destruct l as [|lc ll le lr].
  { exists [], c, e, r. by split_and!. }
  change (T lc ll le lr) with (node true lc ll le lr) in HRl. rewrite (node_side s) in HRl.
  destruct (IH _ _ _ _ _ HRl) as (D & c' & e' & r' & Hx & Hp & Hc & HD).
  { rewrite <- node_side. destruct s; simpl in *; lia. }
  exists (D ++ [hole s c e r]), c', e', r'. rewrite <- app_assoc. simpl. split_and!; [done| | |].
  - rewrite Hp. simpl. rewrite fill_hole, <- node_side. done.
  - by rewrite Hc, c_side_hole.
  - apply Forall_app. split; [done|]. apply Forall_singleton. eauto.
Qed.

(** The entries after the hole, in the direction away from the side [s]. *)
Definition after (s : bool) C : list (entry K V) := if s then c_right C else reverse (c_left C).

Lemma after_hole s c e u C : head (after s (hole s c e u :: C)) = Some e.
Proof. destruct s; simpl; [done|]. by rewrite app_assoc, reverse_snoc. Qed.

Lemma after_flip s c e u C : after s (hole (negb s) c e u :: C) = after s C.
Proof. by destruct s. Qed.

(** The address of the first of some entries, or the sentinel. *)
Definition first_ptr na (xs : list (entry K V)) : ptr :=
  match head xs with Some e => Some (e_addr e) | None => Some na end.

Lemma climb_rep s fuel na m C s' c l e r : Rep na m C (node s' c l e r) → (length C < fuel)%nat →
  climb_loop fuel m (here (negb s)) (Some (e_addr e)) (c_parent na C) = Some (first_ptr na (after s C)).
Proof.
  revert C s' c l e r. induction fuel as [|fuel IH]; intros C s' c l e r HR Hf; [lia|].
  cbn [climb_loop]. rewrite (Rep_is_nil_parent _ _ _ _ HR). destruct C as [|f C]; [by destruct s|].
  destruct (hole_cases f) as (s1 & c1 & e1 & u & ->). rewrite c_parent_hole.
  pose proof (Rep_raise _ _ _ _ _ _ _ _ HR) as HR1. destruct (decide (s1 = s)) as [->|Hne].
  - rewrite (there_node _ _ _ _ _ _ _ _ HR1). go. rewrite (Rep_sibling_ne _ _ _ _ _ _ _ _ _ _ _ _ HR).
    unfold first_ptr. by rewrite after_hole.
  - replace s1 with (negb s) in * by (by destruct s, s1). rewrite (here_node _ _ _ _ _ _ _ _ HR1). go.
    assert (root_ptr na (node s' c l e r) = Some (e_addr e)) as -> by (by destruct s'). rewrite eqp_refl.
    rewrite (parent_node _ _ _ _ _ _ _ _ HR1). go. rewrite (IH _ _ _ _ _ _ HR1) by (simpl in Hf; lia).
    by rewrite after_flip.
Qed.

Lemma extreme_head fuel na m C t : Rep na m C t → t ≠ E → (height t <= fuel)%nat →
  extreme true fuel m (root_ptr na t) = Some (first_ptr na (elements t)).
Proof.
  intros HR Hne Hh. destruct t as [|c l e r]; [done|]. cbn [root_ptr].
  destruct (extreme_rep true fuel na m C c l e r HR Hh) as (D & c' & e' & r' & -> & Hp & Hc & _).
  apply (f_equal elements) in Hp. rewrite !elements_plug in Hp. simpl in Hc. rewrite Hc in Hp. apply app_inv_head in Hp.
  unfold first_ptr. simpl in Hp |- *. by destruct (elements l) as [|x xs]; simpl in Hp |- *; injection Hp as <- _.
Qed.

Lemma length_plug C t : (length C + height t <= length (elements (plug C t)))%nat.
Proof.
  revert t. induction C as [|f C IH]; intros t; [apply height_elements|]. simpl. specialize (IH (fill f t)).
  destruct f; simpl in *; lia.
Qed.

Lemma Rep_depth na m C t : Rep na m C t → (length C + height t < turns m)%nat.
Proof.
  intros HR. pose proof (Rep_turns _ _ _ (proj1 (Rep_plug _ _ _ _) HR)). pose proof (length_plug C t). lia.
Qed.

(** The next entry in order. *)
Lemma map_successor_rep na m C c l e r : Rep na m C (T c l e r) →
  map_successor m (Some (e_addr e)) = Some (first_ptr na (elements r ++ c_right C)).
Proof.
  intros HR. change (T c l e r) with (node true c l e r) in HR. unfold map_successor.
  pose proof (Rep_depth _ _ _ _ HR) as Hlen. cbn [node height] in Hlen.
  change (right_of m) with (here (negb true) m). rewrite (there_node _ _ _ _ _ _ _ _ HR). go.
  rewrite (Rep_is_nil _ _ _ _ (Rep_over _ _ _ _ _ _ _ _ (Rep_lower _ _ _ _ _ _ _ _ HR))). destruct r as [|rc rl re rr].
  - rewrite (parent_node _ _ _ _ _ _ _ _ HR). go. by rewrite (climb_rep true _ _ _ _ _ _ _ _ _ HR) by lia.
  - unfold map_minimum. rewrite minimum_extreme.
    rewrite (extreme_head _ _ _ _ _ (Rep_over _ _ _ _ _ _ _ _ (Rep_lower _ _ _ _ _ _ _ _ HR))); [|done|].
    + unfold first_ptr. cbn [elements]. by destruct (elements rl).
    + cbn [height] in *. lia.
Qed.

Lemma c_left_app D C : c_left (D ++ C) = c_left C ++ c_left D.
Proof. induction D as [|[c e u|c u e] D IH]; simpl; rewrite ?IH, ?app_nil_r, <- ?app_assoc; done. Qed.

Lemma c_right_app D C : c_right (D ++ C) = c_right D ++ c_right C.
Proof. induction D as [|[c e u|c u e] D IH]; simpl; rewrite ?IH, <- ?app_assoc; done. Qed.

(** Any entry can be brought into focus. *)
Lemma focus_at t xs e ys : elements t = xs ++ e :: ys →
  ∃ C c l r, plug C (T c l e r) = t ∧ c_left C ++ elements l = xs ∧ elements r ++ c_right C = ys.
Proof.
  revert xs ys. induction t as [|c l IHl x r IHr]; intros xs ys Ht; [by destruct xs|]. simpl in Ht.
  apply app_eq_inv in Ht as [(k & Hl & Hk)|(k & Hxs & Hk)].
  - destruct k as [|y k]; simpl in Hk.
    + injection Hk as -> ->. rewrite app_nil_r in Hl. exists [], c, l, r. rewrite app_nil_r. by split_and!.
    + injection Hk as -> ->. destruct (IHl _ _ Hl) as (D & c' & l' & r' & Hp & Hx & Hy).
      exists (D ++ [HoleL c x r]), c', l', r'. rewrite plug_app, Hp, c_left_app, c_right_app. simpl.
      rewrite app_assoc, Hy. split_and!; [done|done|by rewrite app_nil_r].
  - destruct k as [|y k]; simpl in Hk.
    + injection Hk as <- <-. rewrite app_nil_r in Hxs. subst. exists [], c, l, r. rewrite app_nil_r. by split_and!.
    + injection Hk as <- Hr. destruct (IHr _ _ Hr) as (D & c' & l' & r' & Hp & Hx & Hy).
      exists (D ++ [HoleR c l x]), c', l', r'. rewrite plug_app, Hp, c_left_app, c_right_app. simpl.
      split_and!; [done| |by rewrite app_nil_r]. rewrite <- !app_assoc. simpl. by rewrite Hx.
Qed.

(** ** Iteration *)

Lemma iterate_loop_rep {A : Type} fuel na m t (get : ptr → option A) (val : entry K V → A) xs ys :
  Rep na m [] t → elements t = xs ++ ys → (length ys < fuel)%nat →
  (∀ e, e ∈ ys → get (Some (e_addr e)) = Some (val e)) →
  iterate_loop fuel m get (first_ptr na ys) = Some (val <$> ys).
Proof.
  revert xs ys. induction fuel as [|fuel IH]; intros xs ys HR Ht Hf Hget; [lia|]. cbn [iterate_loop].
  unfold map_iterator_valid, is_nil. destruct ys as [|e ys].
  { unfold first_ptr. simpl. destruct HR as [-> _ _ _ _]. by rewrite eqp_refl. }
  destruct (focus_at _ _ _ _ Ht) as (C & c & l & r & Hp & Hx & Hy).
  assert (Rep na m C (T c l e r)) as HRf by (eapply Rep_refocus; [exact HR|by rewrite Hp]).
  pose proof (Rep_is_nil _ _ _ _ HRf) as Hnil. unfold is_nil in Hnil. cbn in Hnil. unfold first_ptr. simpl.
  rewrite Hnil. simpl. rewrite Hget by (by apply elem_of_cons; left). go.
  unfold map_next, map_iterator_valid, is_nil. rewrite Hnil. simpl. rewrite (map_successor_rep _ _ _ _ _ _ _ HRf), Hy. go.
  rewrite (IH (xs ++ [e]) ys); [done|done|by rewrite <- app_assoc|simpl in Hf; lia|].
  intros x Hin. apply Hget, elem_of_cons. auto.
Qed.

Lemma iterate_rep {A : Type} na m t (get : ptr → option A) (val : entry K V → A) :
  Rep na m [] t → (∀ e, e ∈ elements t → get (Some (e_addr e)) = Some (val e)) →
  iterate m get = Some (val <$> elements t).
Proof.
  intros HR Hget. unfold iterate, map_begin. rewrite (Rep_root _ _ _ _ HR). cbn [plug]. rewrite (Rep_is_nil _ _ _ _ HR).
  pose proof (Rep_turns _ _ _ HR) as Hturns. destruct t as [|c l e r]; [done|].
  unfold map_minimum. rewrite minimum_extreme, (extreme_head _ na m [] (T c l e r)); [|done|done|].
  - go. by apply (iterate_loop_rep _ _ _ (T c l e r) _ _ []).
  - pose proof (height_elements (T c l e r)). lia.
Qed.
End Walks.
