(* ===== verification/RbErase.v ===== *)
(** Removal from the red-black tree: the fix-up after a black node has gone, and the unlinking
    of a node with its splice or its replacement by the successor. *)

From S2P Require Import Prelude RbMap RbTree RbRotate RbSearch.

Section Erase.
Context {K V : Type}.
Implicit Types (t l r u : tree K V) (C : list (frame K V)) (m : map K V) (e p : entry K V).

(** The node in focus knows its parent, the sentinel included. *)
Definition knows_parent na m C t : Prop := parent_of m (root_ptr na t) = Some (c_parent na C).

Lemma knows_parent_T na m C c l e r : Rep na m C (T c l e r) → knows_parent na m C (T c l e r).
Proof. apply (parent_node true). Qed.

Lemma knows_parent_step na m C t m' C' :
  knows_parent na m C t → m_nil m = Some na → Rep na m' C' t → same_nil m m' → c_parent na C' = c_parent na C →
  knows_parent na m' C' t.
Proof.
  intros Hk Hn HR Hs Hc. destruct t as [|c l e r]; [|by apply knows_parent_T].
  unfold knows_parent, parent_of, load in *. simpl in *. by rewrite (Hs na Hn), Hc.
Qed.

Lemma knows_parent_hole na m s c p w C t m' s' c' w' C' :
  knows_parent na m (hole s c p w :: C) t → Rep na m (hole s c p w :: C) t →
  Rep na m' (hole s' c' p w' :: C') t → same_nil m m' →
  knows_parent na m' (hole s' c' p w' :: C') t ∧ parent_of m' (root_ptr na t) = Some (Some (e_addr p)).
Proof.
  intros Hk HR HR' Hs. assert (knows_parent na m' (hole s' c' p w' :: C') t) as Hk'.
  { eapply knows_parent_step; [exact Hk|by apply rep_nil in HR|done|done|]. by rewrite !c_parent_hole. }
  split; [done|]. unfold knows_parent in Hk'. by rewrite c_parent_hole in Hk'.
Qed.

Lemma same_nil_trans m1 m2 m3 : same_cells m1 m2 → same_nil m1 m2 → same_nil m2 m3 → same_nil m1 m3.
Proof. intros (Hn & _) H1 H2 q Hq. rewrite H2 by congruence. by apply H1. Qed.

Lemma root_in_context na f C t : ∃ a, root_ptr na (plug (f :: C) t) = Some a ∧ a ∈ c_addrs (f :: C).
Proof.
  revert f t. induction C as [|g C IH]; intros f t.
  - exists (f_addr f). split; [by destruct f|]. apply elem_of_c_addrs_cons. auto.
  - destruct (IH g (fill f t)) as (a & Ha & Hin). exists a. split; [done|]. rewrite elem_of_c_addrs_cons. auto.
Qed.

Lemma Rep_not_root na m f C t : Rep na m (f :: C) t → eqp (root_ptr na t) (m_root m) = false.
Proof.
  intros HR. apply eqp_ne. rewrite (Rep_root _ _ _ _ HR). destruct (root_in_context na f C t) as (a & -> & Ha).
  destruct HR as [_ _ _ _ Hd]. clear -Hd Ha. generalize dependent (c_addrs (f :: C)). intros X Hd Ha.
  break_addrs Hd [[na]; addrs t; X]. destruct t as [|c l e r]; simpl; intros [= <-].
  - match goal with D : disjoint [na] X |- _ => by apply (D na); in_part end.
  - match goal with D : disjoint (addrs _) X |- _ => apply (D (e_addr e)); [|done] end.
    apply elem_of_addrs_T. auto.
Qed.

(** ** One turn of the loop *)

Abbreviation delete_side s m x := (delete_case m x (here s) (here (negb s)) (turn s) (turn (negb s))).

(** The subtree in focus is one black node short. *)
Record lacking na m n C t : Prop := {
  lk_rep : Rep na m C t;
  lk_parent : knows_parent na m C t;
  lk_tree : rb n t;
  lk_ctx : crb (S n) C;
  lk_color : color t = MAP_BLACK }.

(** A red sibling gives way to a black one. *)
Lemma delete_red_sibling_rep s na m n p w C t :
  lacking na m n (hole s MAP_BLACK p w :: C) t → color w = MAP_RED →
  ∃ m' we wh wt, w = node s MAP_RED wh we wt ∧
    delete_red_sibling m (root_ptr na t) (root_ptr na w) (here (negb s)) (turn s) = Some (root_ptr na wh, m') ∧
    lacking na m' n (hole s MAP_RED p wh :: hole s MAP_BLACK we wt :: C) t ∧ same_cells m m' ∧
    color wh = MAP_BLACK ∧ rb (S n) wh.
Proof.
  intros [HR Hk Ht Hc Hcol] Hw. destruct w as [|wc wl we wr]; [done|]. simpl in Hw. subst wc.
  change (T MAP_RED wl we wr) with (node true MAP_RED wl we wr) in *. rewrite (node_side s) in *.
  set (wh := if s then wl else wr) in *. set (wt := if s then wr else wl) in *.
  simpl in Hc. rewrite f_color_hole, f_sibling_hole in Hc. destruct Hc as [Hw HC].
  apply rb_node in Hw as (Hwh & Hwt & Hwhc & Hwtc).
  assert (root_ptr na (node s MAP_RED wh we wt) = Some (e_addr we)) as Hroot by (by destruct s).
  unfold delete_red_sibling. rewrite Hroot.
  pose proof (Rep_over _ _ _ _ _ _ _ _ HR) as HRw.
  rewrite (color_of_node _ _ _ _ _ _ _ _ HRw). go. change (is_red MAP_RED) with true. cbn match.
  destruct (recolor_rep _ _ _ _ _ _ _ _ MAP_BLACK HRw) as (m1 & -> & HR1 & S1 & N1). go.
  apply Rep_over in HR1. rewrite negb_involutive in HR1.
  destruct (knows_parent_hole _ _ _ _ _ _ _ _ _ _ _ _ _ Hk HR HR1 N1) as [Hk1 ->]. go.
  pose proof (Rep_raise _ _ _ _ _ _ _ _ HR1) as HR1p.
  destruct (recolor_rep _ _ _ _ _ _ _ _ MAP_RED HR1p) as (m2 & -> & HR2p & S2 & N2). go.
  pose proof (Rep_lower _ _ _ _ _ _ _ _ HR2p) as HR2.
  destruct (knows_parent_hole _ _ _ _ _ _ _ _ _ _ _ _ _ Hk1 HR1 HR2 N2) as [Hk2 ->]. go.
  destruct (turn_rep _ _ _ _ _ _ _ _ _ _ _ HR2p) as (m3 & -> & HR3 & S3 & N3). go.
  apply Rep_lower in HR3. pose proof (Rep_lower _ _ _ _ _ _ _ _ HR3) as HR3x.
  destruct (knows_parent_hole _ _ _ _ _ _ _ _ _ _ _ _ _ Hk2 HR2 HR3x N3) as [Hk3 ->]. go.
  rewrite (there_node _ _ _ _ _ _ _ _ HR3). go.
  exists m3, we, wh, wt. split_and!; [done|done| |by do 2 etransitivity|done|done].
  split; [done|done|done| |done]. simpl. rewrite !f_color_hole, !f_sibling_hole. by split_and!.
Qed.

Lemma elements_node_swap s c c' l e r : elements (node s c l e r) = elements (node s c' l e r).
Proof. by destruct s. Qed.

(** A black sibling with a red child gets one with a red far child. *)
Lemma delete_near_child_rep s na m n cp p wh we wt C t :
  lacking na m n (hole s cp p (node s MAP_BLACK wh we wt) :: C) t →
  negb (is_red (color wh)) && negb (is_red (color wt)) = false →
  ∃ m' wh' we' wt',
    delete_near_child m (root_ptr na t) (Some (e_addr we)) (root_ptr na wh) (color wt) (here (negb s)) (turn (negb s))
      = Some (Some (e_addr we'), m') ∧
    lacking na m' n (hole s cp p (node s MAP_BLACK wh' we' wt') :: C) t ∧ same_cells m m' ∧
    color wt' = MAP_RED ∧
    elements (node s MAP_BLACK wh' we' wt') = elements (node s MAP_BLACK wh we wt).
Proof.
  intros Hx Hred. unfold delete_near_child. destruct (color wt) eqn:Hwt.
  { exists m, wh, we, wt. by split_and!. }
  change (is_red MAP_BLACK) with false in *. cbn match. destruct wh as [|whc a' whe b']; [done|].
  destruct whc; [|done]. change (T MAP_RED a' whe b') with (node true MAP_RED a' whe b') in *. rewrite (node_side s) in *.
  set (a := if s then a' else b') in *. set (b := if s then b' else a') in *.
  assert (root_ptr na (node s MAP_RED a whe b) = Some (e_addr whe)) as -> by (by destruct s).
  destruct Hx as [HR Hk Ht Hc Hcol]. pose proof (Rep_over _ _ _ _ _ _ _ _ HR) as HRw.
  pose proof (Rep_lower _ _ _ _ _ _ _ _ HRw) as HRwh.
  destruct (recolor_rep _ _ _ _ _ _ _ _ MAP_BLACK HRwh) as (m1 & -> & HR1 & S1 & N1). go. apply Rep_raise in HR1.
  destruct (recolor_rep _ _ _ _ _ _ _ _ MAP_RED HR1) as (m2 & -> & HR2 & S2 & N2). go.
  rewrite <- (node_flip s MAP_RED), <- (node_flip s MAP_BLACK) in HR2.
  destruct (turn_rep _ _ _ _ _ _ _ _ _ _ _ HR2) as (m3 & -> & HR3 & S3 & N3). go. rewrite !node_flip in HR3.
  apply Rep_over in HR3. rewrite negb_involutive in HR3.
  destruct (knows_parent_hole _ _ _ _ _ _ _ _ _ _ _ _ _ Hk HR HR3) as [Hk3 ->].
  { eapply same_nil_trans; [exact S1|done|]. by eapply same_nil_trans. }
  go. rewrite (there_node _ _ _ _ _ _ _ _ (Rep_raise _ _ _ _ _ _ _ _ HR3)). go.
  exists m3, a, whe, (node s MAP_RED b we wt). split_and!; [by destruct s| |by do 2 etransitivity|apply color_node|].
  - split; [done|done|done| |done]. simpl in Hc |- *. rewrite f_color_hole, f_sibling_hole in *.
    destruct Hc as [Hw HC]. apply rb_node in Hw as (k & [= <-] & Hwh & Hwtn). apply rb_node in Hwh as (Ha & Hb & Hac & Hbc).
    split; [apply rb_black; [done|by apply rb_red]|]. by rewrite color_node in *.
  - destruct s; simpl; by repeat (rewrite <- app_assoc; simpl).
Qed.

(** The last rotation: nothing is missing any more. *)
Lemma delete_last_rep s na m n cp p wh we wt C t :
  lacking na m n (hole s cp p (node s MAP_BLACK wh we wt) :: C) t → color wt = MAP_RED →
  ∃ m' t', delete_last m (root_ptr na t) (Some (e_addr we)) (here (negb s)) (turn s) = Some (m_root m', m') ∧
    Rep na m' [] t' ∧ same_cells m m' ∧ (∃ n', rb n' t') ∧
    elements t' = elements (plug (hole s cp p (node s MAP_BLACK wh we wt) :: C) t).
Proof.
  intros [HR Hk Ht Hc Hcol] Hwt. destruct wt as [|wtc a wte b]; [done|]. simpl in Hwt. subst wtc.
  unfold delete_last. unfold knows_parent in Hk at 1. rewrite c_parent_hole in Hk. rewrite Hk. go.
  pose proof (Rep_raise _ _ _ _ _ _ _ _ HR) as HRp. rewrite (color_of_node _ _ _ _ _ _ _ _ HRp). go.
  pose proof (Rep_over _ _ _ _ _ _ _ _ HR) as HRw.
  destruct (recolor_rep _ _ _ _ _ _ _ _ cp HRw) as (m1 & -> & HR1 & S1 & N1). go. apply Rep_raise in HR1.
  destruct (recolor_rep _ _ _ _ _ _ _ _ MAP_BLACK HR1) as (m2 & -> & HR2 & S2 & N2). go. apply Rep_lower in HR2.
  rewrite (there_node _ _ _ _ _ _ _ _ HR2). cbn [mbind option_bind root_ptr].
  apply Rep_lower, Rep_over in HR2.
  destruct (recolor_rep true _ _ _ _ _ _ _ MAP_BLACK HR2) as (m3 & -> & HR3 & S3 & N3). go.
  apply Rep_over, Rep_raise, Rep_over in HR3. rewrite !negb_involutive in HR3.
  assert (same_nil m m3) as N03 by (eapply same_nil_trans; [exact S1|done|]; by eapply same_nil_trans).
  assert (knows_parent na m (hole s cp p (node s MAP_BLACK wh we (T MAP_RED a wte b)) :: C) t) as Hk0
    by (unfold knows_parent; by rewrite c_parent_hole).
  destruct (knows_parent_hole _ _ _ _ _ _ _ _ _ _ _ _ _ Hk0 HR HR3 N03) as [Hk3 ->]. go. apply Rep_raise in HR3.
  destruct (turn_rep _ _ _ _ _ _ _ _ _ _ _ HR3) as (m4 & -> & HR4 & S4 & N4). go.
  exists m4, (plug C (node s cp (node s MAP_BLACK t p wh) we (T MAP_BLACK a wte b))).
  split_and!; [done|exact (proj1 (Rep_plug _ _ _ _) HR4)|by do 3 etransitivity| |].
  - simpl in Hc. rewrite f_color_hole, f_sibling_hole in Hc. destruct Hc as [Hw HC].
    apply rb_node in Hw as (k & [= <-] & Hwh & Hwtn). apply (rb_node true) in Hwtn as (Ha & Hb & _ & _).
    assert (rb (S n) (node s MAP_BLACK t p wh)) by (by apply rb_black).
    assert (rb (S n) (T MAP_BLACK a wte b)) by (by constructor). destruct cp.
    + destruct HC as (_ & HC & Htop). eapply crb_plug; [exact HC|apply rb_red; [done..|apply color_node|done]|].
      destruct C as [|f C]; [done|]. simpl. by rewrite Htop.
    + eapply crb_plug; [exact HC|by apply rb_black|by rewrite color_node].
  - simpl. rewrite fill_hole, !elements_plug. destruct s; simpl; by repeat (rewrite <- app_assoc; simpl).
Qed.

(** What a turn of the loop leaves: the problem one level up, a red node that takes
    the missing black, or nothing to do. *)
Definition deleted_to na m (up : Prop) C0 all (res : option (ptr * map K V)) : Prop :=
  ∃ m' C2 t2, res = Some (root_ptr na t2, m') ∧ Rep na m' C2 t2 ∧ same_cells m m' ∧
    elements (plug C2 t2) = all ∧
    ((up ∧ C2 = C0 ∧ ∃ n', lacking na m' n' C2 t2) ∨
     (color t2 = MAP_RED ∧ ∃ n', rb n' (blacken t2) ∧ crb n' C2) ∨
     (C2 = [] ∧ ∃ n', rb n' t2)).

Lemma delete_black_sibling_rep s na m n cp p w C t :
  lacking na m n (hole s cp p w :: C) t → color w = MAP_BLACK →
  deleted_to na m (cp = MAP_BLACK) C (elements (plug (hole s cp p w :: C) t))
    (delete_black_sibling m (root_ptr na t) (root_ptr na w) (here s) (here (negb s)) (turn s) (turn (negb s))).
Proof.
  intros Hx Hw. pose proof Hx as [HR Hk Ht Hc Hcol]. simpl in Hc. rewrite f_color_hole, f_sibling_hole in Hc.
  destruct Hc as [Hwb HC]. destruct w as [|wc wl we wr]; [by inversion Hwb|]. simpl in Hw. subst wc.
  change (T MAP_BLACK wl we wr) with (node true MAP_BLACK wl we wr) in *. rewrite (node_side s) in *.
  set (wh := if s then wl else wr) in *. set (wt := if s then wr else wl) in *.
  assert (root_ptr na (node s MAP_BLACK wh we wt) = Some (e_addr we)) as -> by (by destruct s).
  unfold delete_black_sibling. pose proof (Rep_over _ _ _ _ _ _ _ _ HR) as HRw.
  rewrite (here_node _ _ _ _ _ _ _ _ HRw). go. rewrite (Rep_color _ _ _ _ (Rep_lower _ _ _ _ _ _ _ _ HRw)). go.
  rewrite (there_node _ _ _ _ _ _ _ _ HRw). go.
  rewrite (Rep_color _ _ _ _ (Rep_over _ _ _ _ _ _ _ _ (Rep_lower _ _ _ _ _ _ _ _ HRw))). go.
  destruct (negb (is_red (color wh)) && negb (is_red (color wt))) eqn:Hred.
  - assert (color wh = MAP_BLACK ∧ color wt = MAP_BLACK) as [Hwh Hwt] by (by destruct (color wh), (color wt)).
    destruct (recolor_rep _ _ _ _ _ _ _ _ MAP_RED HRw) as (m1 & -> & HR1 & S1 & N1). go.
    apply Rep_over in HR1. rewrite negb_involutive in HR1.
    destruct (knows_parent_hole _ _ _ _ _ _ _ _ _ _ _ _ _ Hk HR HR1 N1) as [Hk1 ->]. go. apply Rep_raise in HR1.
    apply rb_node in Hwb as (k & [= <-] & Hwhn & Hwtn).
    assert (rb (S n) (node s MAP_BLACK t p (node s MAP_RED wh we wt))) as Hup by (apply rb_black; [done|by apply rb_red]).
    exists m1, C, (node s cp t p (node s MAP_RED wh we wt)). split_and!; [by destruct s|done|done| |].
    + simpl. rewrite fill_hole, !elements_plug. by destruct s.
    + destruct cp.
      * right. left. split; [apply color_node|]. destruct HC as (_ & HC & _). exists (S n). by destruct s.
      * left. split; [done|]. split; [done|]. exists (S n). split; [done| |done|done|apply color_node].
        destruct s; by apply knows_parent_T.
  - destruct (delete_near_child_rep _ _ _ _ _ _ _ _ _ _ _ Hx Hred) as (m1 & wh' & we' & wt' & -> & Hx1 & S1 & Hred' & He1).
    go. destruct (delete_last_rep _ _ _ _ _ _ _ _ _ _ _ Hx1 Hred') as (m2 & t' & -> & HR2 & S2 & Hrb & He2).
    exists m2, [], t'. split_and!; [by rewrite (Rep_root _ _ _ _ HR2)|done|by etransitivity| |by right; right].
    simpl in He2 |- *. rewrite He2, !fill_hole, !elements_plug. destruct s; cbn [node elements] in *; by rewrite He1.
Qed.

Lemma delete_case_spec s na m n cp p w C t :
  lacking na m n (hole s cp p w :: C) t →
  deleted_to na m True C (elements (plug (hole s cp p w :: C) t)) (delete_side s m (root_ptr na t)).
Proof.
  intros Hx. pose proof Hx as [HR Hk Ht Hc Hcol]. unfold delete_case. rewrite (Hk : parent_of m _ = _). go.
  rewrite c_parent_hole, (there_node _ _ _ _ _ _ _ _ (Rep_raise _ _ _ _ _ _ _ _ HR)). go.
  destruct (color w) eqn:Hw.
  - assert (cp = MAP_BLACK) as ->.
    { simpl in Hc. rewrite f_color_hole, f_sibling_hole in Hc. destruct cp; [|done]. destruct Hc as (_ & Hwc & _). congruence. }
    destruct (delete_red_sibling_rep _ _ _ _ _ _ _ _ Hx Hw) as (m1 & we & wh & wt & -> & -> & Hx1 & S1 & Hwh & _). go.
    destruct (delete_black_sibling_rep _ _ _ _ _ _ _ _ _ Hx1 Hwh) as (m2 & C2 & t2 & -> & HR2 & S2 & He2 & Hend).
    exists m2, C2, t2. split_and!; [done|done|by etransitivity| |].
    + rewrite He2. simpl. rewrite !fill_hole, !elements_plug. destruct s; simpl; by repeat (rewrite <- app_assoc; simpl).
    + destruct Hend as [[? _]|Hend]; [done|by right].
  - assert (delete_red_sibling m (root_ptr na t) (root_ptr na w) (here (negb s)) (turn s) = Some (root_ptr na w, m)) as ->.
    { unfold delete_red_sibling. by rewrite (Rep_color _ _ _ _ (Rep_over _ _ _ _ _ _ _ _ HR)), Hw. }
    go. destruct (delete_black_sibling_rep _ _ _ _ _ _ _ _ _ Hx Hw) as (m2 & C2 & t2 & -> & HR2 & S2 & He2 & Hend).
    exists m2, C2, t2. split_and!; [done..|]. destruct Hend as [[_ ?]|Hend]; [by left|by right].
Qed.

(** ** The loop *)

Lemma crb_root n f C t : crb n (f :: C) → color (plug (f :: C) t) = MAP_BLACK.
Proof.
  revert n f t. induction C as [|g C IH]; intros n f t; [|simpl; intros [_ Hf]].
  - simpl. intros [_ Hf]. by destruct f as [[] ? ?|[] ? ?]; [destruct Hf as (_ & _ & [])| |destruct Hf as (_ & _ & [])|].
  - destruct (f_color f); [destruct Hf as (_ & Hc & _)|]; by eapply IH.
Qed.

(** [x->color = BLACK] at the end. *)
Lemma blacken_rep na m C t : Rep na m C t →
  ∃ m', store m (root_ptr na t) (set_color MAP_BLACK) = Some m' ∧ Rep na m' C (blacken t) ∧ same_cells m m'.
Proof.
  intros HR. destruct t as [|c l e r].
  - destruct HR as [Hn [par Hs] Ht Hc Hd]. exists m. split; [|by split; [split; eauto|]].
    cbn [root_ptr]. rewrite (store_some _ _ _ _ Hs). unfold with_nodes. rewrite insert_id by done. by destruct m.
  - destruct (recolor_rep true _ _ _ _ _ _ _ MAP_BLACK HR) as (m' & Hm & HR' & S' & _). by exists m'.
Qed.

(** [x == x->parent->left] finds the side, the sentinel in its place included. *)
Lemma lacking_side s na m n c p w C t : lacking na m n (hole s c p w :: C) t →
  ∃ q, left_of m (Some (e_addr p)) = Some q ∧ eqp (root_ptr na t) q = s.
Proof.
  intros [HR _ _ Hc _]. pose proof (Rep_raise _ _ _ _ _ _ _ _ HR) as HRp. destruct s.
  - exists (root_ptr na t). change (left_of m) with (here true m). rewrite (here_node true _ _ _ _ _ _ _ HRp).
    split; [done|apply eqp_refl].
  - exists (root_ptr na w). change (left_of m) with (here (negb false) m). rewrite (there_node false _ _ _ _ _ _ _ HRp).
    split; [done|]. destruct t as [|tc tl te tr].
    + destruct Hc as [Hw _]. pose proof (Rep_is_nil _ _ _ _ (Rep_over _ _ _ _ _ _ _ _ HR)) as Hn.
      simpl in Hw. destruct w as [|wc wl we wr]; [by inversion Hw|]. unfold is_nil in Hn. destruct HR as [HRn _ _ _ _].
      rewrite HRn in Hn. apply eqp_ne. simpl in *. apply bool_decide_eq_false in Hn. congruence.
    + apply (Rep_sibling_ne false _ _ _ _ _ _ true _ _ _ _ HR).
Qed.

Definition in_repair na m fuel C t : Prop :=
  ((length C < fuel)%nat ∧ ∃ n, lacking na m n C t) ∨
  ((0 < fuel)%nat ∧ color t = MAP_RED ∧ ∃ n, rb n (blacken t) ∧ crb n C) ∨
  ((0 < fuel)%nat ∧ C = [] ∧ ∃ n, rb n t).

Definition repaired na m C t (res : option (map K V)) : Prop :=
  ∃ m' t', res = Some m' ∧ Rep na m' [] t' ∧ same_cells m m' ∧ elements t' = elements (plug C t) ∧
    (∃ n', rb n' t') ∧ color t' = MAP_BLACK.

(** The loop is over: [x] is the root, or red. *)
Lemma repair_exit na m C t :
  Rep na m C t → C = [] ∧ (∃ n, rb n t) ∨ color t = MAP_RED ∧ (∃ n, rb n (blacken t) ∧ crb n C) →
  repaired na m C t (store m (root_ptr na t) (set_color MAP_BLACK)).
Proof.
  intros HR Hend. destruct (blacken_rep _ _ _ _ HR) as (m' & Hm & HR' & S').
  exists m', (plug C (blacken t)). split_and!; [done|exact (proj1 (Rep_plug _ _ _ _) HR')|done| | |].
  - by rewrite !elements_plug, elements_blacken.
  - destruct Hend as [[-> [n Hn]]|[_ (n & Hn & Hc)]]; [by eapply rb_blacken|].
    eapply crb_plug; [done|done|]. by destruct t.
  - destruct C as [|f C]; [by destruct t|]. destruct Hend as [[? _]|[_ (n & _ & Hc)]]; [done|]. by eapply crb_root.
Qed.

Lemma delete_fixup_loop_rep fuel na m C t :
  Rep na m C t → in_repair na m fuel C t → repaired na m C t (delete_fixup_loop fuel m (root_ptr na t)).
Proof.
  revert m C t. induction fuel as [|fuel IH]; intros m C t HR Hst.
  { by destruct Hst as [[? _]|[[? _]|[? _]]]; lia. }
  cbn [delete_fixup_loop]. rewrite (Rep_color _ _ _ _ HR). go.
  destruct Hst as [(Hf & n & Hx)|[(_ & Hred & Hrb)|(_ & -> & Hrb)]].
  - destruct C as [|f C].
    + rewrite (Rep_root _ _ _ _ HR). simpl plug. rewrite eqp_refl. cbn [negb andb]. apply repair_exit; [done|].
      left. split; [done|]. exists n. apply Hx.
    + rewrite (Rep_not_root _ _ _ _ _ HR), (lk_color _ _ _ _ _ Hx). change (is_red MAP_BLACK) with false. cbn [negb andb].
      destruct (hole_cases f) as (s & c & p & w & ->). rewrite (lk_parent _ _ _ _ _ Hx : parent_of m _ = _). go.
      rewrite c_parent_hole.
      assert (∃ q, left_of m (Some (e_addr p)) = Some q ∧ eqp (root_ptr na t) q = s) as (q & -> & Hq).
      { by eapply lacking_side. }
      go. rewrite Hq. destruct (delete_case_spec _ _ _ _ _ _ _ _ _ Hx) as (m' & C2 & t2 & Hres & HR2 & S2 & He2 & Hend).
      assert (repaired na m' C2 t2 (delete_fixup_loop fuel m' (root_ptr na t2))) as (m'' & t' & Hl & HRt & S3 & He3 & Hrb).
      { apply IH; [done|]. simpl in Hf. destruct Hend as [(_ & -> & Hl)|[Hr|Hr]]; [left|right; left|right; right];
          (split; [lia|done]). }
      exists m'', t'. split_and!; [|done|by etransitivity|congruence|by destruct Hrb|by destruct Hrb].
      destruct s; [change (delete_case _ _ _ _ _ _) with (delete_side true m (root_ptr na t))
                  |change (delete_case _ _ _ _ _ _) with (delete_side false m (root_ptr na t))]; rewrite Hres; exact Hl.
  - rewrite Hred, andb_false_r. apply repair_exit; [done|by right].
  - rewrite (Rep_root _ _ _ _ HR). simpl plug. rewrite eqp_refl. cbn [negb andb]. apply repair_exit; [done|by left].
Qed.
End Erase.

(** Taking a node out of the tree, before the fix-up. *)

Section Unlink.
Context {K V : Type}.
Implicit Types (t l r u v : tree K V) (C D : list (frame K V)) (m : map K V) (e y z : entry K V).

(** [v] takes the place of the node at [u] below the context [C]. *)
Lemma transplant_rep na m C (u : nat) n par v :
  m_nil m = Some na → (∃ q, m_nodes m !! na = Some (nil_cell q)) →
  m_nodes m !! u = Some n → n_parent n = c_parent na C → crep na (m_nodes m) (m_root m) C (Some u) →
  rep na (m_nodes m) par v → NoDup (na :: u :: addrs v ++ c_addrs C) →
  ∃ m', map_transplant m (Some u) (root_ptr na v) = Some m' ∧ Rep na m' C v ∧ knows_parent na m' C v ∧
    same_cells m m' ∧ ∀ b, b ≠ na → (b ∉ addrs v) → (b ∉ c_addrs C) → m_nodes m' !! b = m_nodes m !! b.
Proof.
  intros Hn [q Hs] Hu Hp Hc Hv Hd. pose proof Hd as Hd0. break_addrs Hd [[na]; [u]; addrs v; c_addrs C].
  unfold map_transplant.
  destruct (replace_crep m na u C (root_ptr na v) n) as (h & rt & Hrep & _ & Hc' & Hfr); [done|apart|apart|apart|done..|].
  assert (same_cells m (Map rt (m_nil m) (m_size m) h (m_released m))) as S1 by (eapply replace_same; by left).
  rewrite Hrep. go. set (m1 := Map rt _ _ h _) in *.
  unfold parent_of at 1. rewrite (load_some m1 u n) by (simpl; rewrite Hfr; [done|apart]). simpl fmap. go. rewrite Hp.
  assert (NoDup (na :: addrs v ++ c_addrs C)) as Hd1.
  { apply NoDup_cons in Hd0 as [Hna Hd0]. apply NoDup_cons in Hd0 as [_ Hd0]. constructor; [|done].
    intros Hin. apply Hna, elem_of_cons. by right. }
  assert (rep na h par v) as Hv1 by (eapply rep_frame; [|exact Hv]; intros b Hb; apply Hfr; apart).
  assert (h !! na = Some (nil_cell q)) as Hs1 by (rewrite Hfr; [done|apart]).
  destruct v as [|c l e r]; cbn [root_ptr].
  - rewrite (store_some m1 na _ _ Hs1). eexists. split; [done|].
    assert (same_cells m1 (with_nodes m1 (<[na := set_parent (c_parent na C) (nil_cell q)]> h))) as S2
      by (eapply store_same; by apply (store_some m1 na _ _ Hs1)).
    split; [|split; [|split; [by etransitivity|]]].
    + split; simpl; [done|rewrite lookup_insert_eq; by eexists|done|apply crep_insert; [apart|done]|done].
    + unfold knows_parent, parent_of. cbn [root_ptr]. by rewrite (load_some _ na (nil_cell (c_parent na C))) by (simpl; by rewrite lookup_insert_eq).
    + intros b Hb1 _ Hb2. simpl. rewrite lookup_insert_ne by done. by apply Hfr.
  - destruct Hv1 as (He & Hl & Hr). rewrite (store_some m1 _ _ _ He). eexists. split; [done|].
    assert (NoDup (addrs l ++ e_addr e :: addrs r)) as Hdt by (by rewrite <- (addrs_T c)).
    break_addrs Hdt [addrs l; [e_addr e]; addrs r].
    assert (e_addr e ∈ addrs (T c l e r)) as Hin by (apply elem_of_addrs_T; auto).
    match goal with |- Rep _ ?m2 _ _ ∧ _ => assert (Rep na m2 C (T c l e r)) as HR end.
    { split; simpl; [done|rewrite lookup_insert_ne; [by eexists|apart]| |apply crep_insert; [apart|done]|done].
      rewrite lookup_insert_eq. split_and!; [done|apply rep_insert; [apart|done]..]. }
    split; [done|split; [by apply knows_parent_T|split]].
    + transitivity m1; [done|]. eapply store_same. by apply (store_some m1 _ _ _ He).
    + intros b Hb1 Hb2 Hb3. simpl. rewrite lookup_insert_ne; [by apply Hfr|]. intros <-. by apply Hb2.
Qed.

(** A node with at most one child. *)
Lemma transplant_node na m C s c z v : Rep na m C (node s c E z v) →
  ∃ m', map_transplant m (Some (e_addr z)) (root_ptr na v) = Some m' ∧ Rep na m' C v ∧ knows_parent na m' C v ∧
    same_cells m m' ∧ m_nodes m' !! e_addr z = m_nodes m !! e_addr z.
Proof.
  intros HR. assert (∃ n, m_nodes m !! e_addr z = Some n ∧ n_parent n = c_parent na C ∧
    rep na (m_nodes m) (Some (e_addr z)) v ∧ crep na (m_nodes m) (m_root m) C (Some (e_addr z)) ∧
    NoDup (na :: e_addr z :: addrs v ++ c_addrs C)) as (n & Hz & Hp & Hv & Hc & Hd).
  { destruct HR as [_ _ Ht Hc Hd]. destruct s; simpl in *; (destruct Ht as (Hz & H1 & H2); eexists; split_and!; try done).
    all: rewrite addrs_T in Hd; eapply NoDup_Permutation_proper; [|exact Hd]; unfold addrs; simpl; solve_Permutation. }
  pose proof HR as [Hn Hs _ _ _].
  destruct (transplant_rep na m C _ n _ v Hn Hs Hz Hp Hc Hv Hd) as (m' & Hm & HR' & Hk & S' & Hf).
  exists m'. split_and!; [done..|]. break_addrs Hd [[na]; [e_addr z]; addrs v; c_addrs C]. apply Hf; apart.
Qed.

(** ** A node with two children *)

(** The cell of an entry, wherever it hangs. *)
Definition holds m e : Prop := ∃ c par lp rp, m_nodes m !! e_addr e = Some (cell c e par lp rp).

(** [y] is out of its place, [z] still in; [r'] is what hangs on the right. *)
Record detached na m C cz l z y r' : Prop := {
  dt_nil : m_nil m = Some na;
  dt_sentinel : ∃ q, m_nodes m !! na = Some (nil_cell q);
  dt_z : ∃ q, m_nodes m !! e_addr z = Some (cell cz z (c_parent na C) (root_ptr na l) q);
  dt_l : rep na (m_nodes m) (Some (e_addr z)) l;
  dt_y : ∃ c par q, m_nodes m !! e_addr y = Some (cell c y par q (root_ptr na r'));
  dt_r : rep na (m_nodes m) (Some (e_addr y)) r';
  dt_ctx : crep na (m_nodes m) (m_root m) C (Some (e_addr z));
  dt_nodup : NoDup (na :: e_addr z :: e_addr y :: addrs l ++ addrs r' ++ c_addrs C) }.

Lemma unlink_swap_rep na m C cz l z y r' : detached na m C cz l z y r' → l ≠ E →
  ∃ m', unlink_swap m (Some (e_addr z)) (Some (e_addr y)) = Some m' ∧ Rep na m' C (T cz l y r') ∧
    same_cells m m' ∧ same_nil m m' ∧ holds m' z.
Proof.
  intros [Hn [q0 Hs] [q Hz] Hl (cy & par & ql & Hy) Hr Hc Hd] Hl0. unfold unlink_swap, map_transplant.
  pose proof Hd as Hd0. break_addrs Hd [[na]; [e_addr z]; [e_addr y]; addrs l; addrs r'; c_addrs C].
  assert (e_addr z ≠ e_addr y) as Hzy by apart.
  destruct (replace_crep m na (e_addr z) C (Some (e_addr y)) (cell cz z (c_parent na C) (root_ptr na l) q) Hn) as (h & rt & Hrep & _ & Hc1 & Hf1);
    [apart|apart|apart|done|exact Hz|done|done|].
  assert (same_cells m (Map rt (m_nil m) (m_size m) h (m_released m))) as S1 by (eapply replace_same; by left).
  rewrite Hrep. go. set (m1 := Map rt _ _ h _) in *.
  assert (m_nodes m1 !! e_addr z = Some (cell cz z (c_parent na C) (root_ptr na l) q)) as Hz1 by (simpl; rewrite Hf1; [done|apart]).
  assert (m_nodes m1 !! e_addr y = Some (cell cy y par ql (root_ptr na r'))) as Hy1 by (simpl; rewrite Hf1; [done|apart]).
  unfold parent_of, left_of, color_of. rewrite (load_some _ _ _ Hz1). simpl fmap. go. rewrite (store_some _ _ _ _ Hy1). go.
  set (m2 := with_nodes m1 _). assert (m_nodes m2 !! e_addr z = m_nodes m1 !! e_addr z) as Hz2 by (simpl; by rewrite lookup_insert_ne).
  rewrite (load_some m2 _ _ (eq_trans Hz2 Hz1)). simpl fmap. go.
  assert (m_nodes m2 !! e_addr y = Some (cell cy y (c_parent na C) ql (root_ptr na r'))) as Hy2 by (simpl; by rewrite lookup_insert_eq).
  rewrite (store_some m2 _ _ _ Hy2). go. set (m3 := with_nodes m2 _).
  assert (m_nodes m3 !! e_addr y = Some (cell cy y (c_parent na C) (root_ptr na l) (root_ptr na r'))) as Hy3 by (simpl; by rewrite lookup_insert_eq).
  rewrite (load_some m3 _ _ Hy3). simpl fmap. go.
  destruct (set_parent_sub m3 na l (Some (e_addr z)) (Some (e_addr y))) as (h4 & Hst & Hl4 & Hf4); [done|apart|done| |].
  { simpl. do 2 (apply rep_insert; [apart|]). eapply rep_frame; [|exact Hl]. intros b Hb. apply Hf1. apart. }
  rewrite (is_nil_root m3 na l) in Hst; [|done|apart]. destruct l as [|lc ll le lr] eqn:El; [done|]. rewrite <- El in *. clear El.
  rewrite Hst. go. set (m4 := with_nodes m3 h4).
  assert (∀ b, (b ∉ addrs l) → (b ∉ c_addrs C) → b ≠ e_addr y → h4 !! b = m_nodes m !! b) as Hf.
  { intros b ? ? ?. rewrite Hf4 by done. simpl. rewrite !lookup_insert_ne by done. by apply Hf1. }
  assert (m_nodes m4 !! e_addr z = Some (cell cz z (c_parent na C) (root_ptr na l) q)) as Hz4 by (simpl; rewrite Hf; [done|apart..]).
  rewrite (load_some m4 _ _ Hz4). simpl fmap. go.
  assert (m_nodes m4 !! e_addr y = Some (cell cy y (c_parent na C) (root_ptr na l) (root_ptr na r'))) as Hy4 by (simpl; rewrite Hf4; [done|apart]).
  rewrite (store_some m4 _ _ _ Hy4). eexists. split; [done|].
  assert (same_cells m4 (with_nodes m4 (<[e_addr y := set_color cz (cell cy y (c_parent na C) (root_ptr na l) (root_ptr na r'))]> h4))) as S5
    by (eapply store_same; by apply store_some).
  assert (same_cells m1 m4) as S4.
  { transitivity m2; [eapply store_same; by apply store_some|]. transitivity m3; [eapply store_same; by apply store_some|].
    by eapply store_same. }
  split; [|split; [by do 2 (etransitivity; [eassumption|])|split]].
  - split; simpl.
    + done.
    + exists q0. rewrite lookup_insert_ne by apart. rewrite Hf; [done|apart..].
    + rewrite lookup_insert_eq. split_and!; [done|by apply rep_insert; [apart|]|]. apply rep_insert; [apart|].
      eapply rep_frame; [|exact Hr]. intros b Hb. apply Hf; apart.
    + apply crep_insert; [apart|]. eapply crep_frame; [|exact Hc1]. intros b Hb. rewrite Hf4 by apart. simpl.
      by rewrite !lookup_insert_ne by apart.
    + rewrite addrs_T. apply NoDup_cons in Hd0 as [Hna Hd0]. apply NoDup_cons in Hd0 as [_ Hd0]. constructor.
      * intros Hin. apply Hna. revert Hin. rewrite !elem_of_cons, !elem_of_app, !elem_of_cons. tauto.
      * eapply NoDup_Permutation_proper; [|exact Hd0]. solve_Permutation.
  - intros b. rewrite Hn. intros [= <-]. simpl. rewrite lookup_insert_ne by apart. apply Hf; apart.
  - exists cz, (c_parent na C), (root_ptr na l), q. simpl. by rewrite lookup_insert_ne.
Qed.

Lemma plug_not_E f D t : ∃ c l e r, plug (f :: D) t = T c l e r.
Proof.
  revert f t. induction D as [|g D IH]; intros f t; [destruct f; simpl; eauto|]. apply (IH g (fill f t)).
Qed.

(** The addresses with [y] apart. *)
Lemma nodup_detach na D cz l z cy y ry C :
  NoDup (na :: addrs (T cy E y ry) ++ c_addrs (D ++ HoleR cz l z :: C)) →
  NoDup (na :: e_addr z :: e_addr y :: addrs l ++ addrs (plug D ry) ++ c_addrs C).
Proof.
  intros Hd. eapply NoDup_Permutation_proper; [|exact Hd]. apply Permutation_skip.
  rewrite (addrs_plug_perm D ry). transitivity (e_addr y :: addrs ry ++ (c_addrs D ++ (e_addr z :: addrs l ++ c_addrs C))).
  - solve_Permutation.
  - rewrite addrs_T. unfold addrs at 3. simpl. do 2 f_equiv. unfold c_addrs. rewrite c_left_app, c_right_app. simpl.
    rewrite !fmap_app. unfold addrs. simpl. solve_Permutation.
Qed.

(** [y] is the right child of [z] itself. *)
Lemma unlink_min_near na m C cz l z cy y ry :
  Rep na m (HoleR cz l z :: C) (T cy E y ry) →
  ∃ m', unlink_min m (Some (e_addr z)) (Some (e_addr y)) (root_ptr na ry) = Some m' ∧
    detached na m' C cz l z y ry ∧ same_cells m m' ∧ knows_parent na m' (HoleR cz l y :: C) ry.
Proof.
  intros HR. pose proof (nodup_detach na [] _ _ _ _ _ _ _ (rep_nodup _ _ _ _ HR)) as Hd. cbn [plug] in Hd.
  unfold unlink_min. rewrite (parent_node true _ _ _ _ _ _ _ HR). go. cbn [c_parent f_addr f_entry]. rewrite eqp_refl.
  destruct HR as [Hn [q Hs] (Hy & _ & Hry) (Hz & Hl & Hc) _]. pose proof Hd as Hd0.
  break_addrs Hd [[na]; [e_addr z]; [e_addr y]; addrs l; addrs ry; c_addrs C].
  destruct ry as [|c a e b].
  - cbn [root_ptr]. rewrite (store_some _ _ _ _ Hs). eexists. split; [done|]. split_and!.
    + split; simpl; [done|rewrite lookup_insert_eq; by eexists|rewrite lookup_insert_ne by apart; by eexists|
        by apply rep_insert; [apart|]|rewrite lookup_insert_ne by apart; by do 3 eexists|done|by apply crep_insert; [apart|]|done].
    + eapply store_same. by apply store_some.
    + unfold knows_parent, parent_of. cbn [root_ptr]. by rewrite (load_some _ na (nil_cell (Some (e_addr y)))) by (simpl; by rewrite lookup_insert_eq).
  - exists m. pose proof Hry as (He & _). cbn [root_ptr]. split_and!.
    + rewrite (store_some _ _ _ _ He). unfold with_nodes. rewrite insert_id by done. by destruct m.
    + split; [done|by eexists|by eexists|done|by do 3 eexists|done|done|done].
    + done.
    + unfold knows_parent, parent_of. cbn [root_ptr]. by rewrite (load_some _ _ _ He).
Qed.

(** [y] is further down. *)
Lemma unlink_min_far na m f D C cz l z cy y ry :
  Rep na m ((f :: D) ++ HoleR cz l z :: C) (T cy E y ry) →
  ∃ m', unlink_min m (Some (e_addr z)) (Some (e_addr y)) (root_ptr na ry) = Some m' ∧
    detached na m' C cz l z y (plug (f :: D) ry) ∧ same_cells m m' ∧
    (ry = E → knows_parent na m' ((f :: D) ++ HoleR cz l y :: C) ry).
Proof.
  intros HR. pose proof (nodup_detach na _ _ _ _ _ _ _ _ (rep_nodup _ _ _ _ HR)) as Hd.
  unfold unlink_min. rewrite (parent_node true _ _ _ _ _ _ _ HR). go.
  assert (e_addr z ≠ f_addr f) as Hzf.
  { pose proof (rep_nodup _ _ _ _ HR) as Hd1. cbn [app] in Hd1. rewrite c_addrs_cons in Hd1. intros Heq.
    apply NoDup_cons in Hd1 as [_ Hd1]. apply NoDup_app in Hd1 as (_ & _ & Hd1). apply NoDup_cons in Hd1 as [Hd1 _].
    apply Hd1, elem_of_app. right. rewrite <- Heq. unfold c_addrs. rewrite c_left_app, c_right_app. simpl.
    rewrite !fmap_app, !elem_of_app. simpl. rewrite !elem_of_cons. tauto. }
  cbn [c_parent app]. rewrite eqp_ne by congruence.
  change (right_of m) with (here (negb true) m). rewrite (there_node true _ _ _ _ _ _ _ HR). go.
  assert (m_nodes m !! e_addr y = Some (cell cy y (Some (f_addr f)) (Some na) (root_ptr na ry))) as Hy by apply HR.
  destruct (transplant_node na m _ true _ _ _ HR) as (m1 & -> & HR1 & Hk1 & S1 & Hy1). go. rewrite Hy in Hy1.
  destruct (plug_not_E f D ry) as (c & a & e & b & Hpl).
  assert (Rep na m1 C (T cz l z (T c a e b))) as HRz.
  { eapply Rep_refocus; [exact HR1|]. rewrite plug_app, Hpl. done. }
  change (right_of m1) with (here (negb true) m1). rewrite (there_node true _ _ _ _ _ _ _ HRz). go. rewrite Hpl in Hd |- *.
  rewrite (store_some _ _ _ _ Hy1). go. set (m2 := with_nodes m1 _).
  destruct HRz as [Hn [q Hs] (Hz & Hl & Hr) Hc _]. pose proof Hd as Hd0.
  assert (NoDup (na :: e_addr z :: e_addr y :: addrs l ++ addrs a ++ e_addr e :: addrs b ++ c_addrs C)) as Hd2.
  { rewrite addrs_T, <- app_assoc in Hd. exact Hd. }
  break_addrs Hd2 [[na]; [e_addr z]; [e_addr y]; addrs l; addrs a; [e_addr e]; addrs b; c_addrs C].
  assert (m_nodes m2 !! e_addr y = Some (cell cy y (Some (f_addr f)) (Some na) (Some (e_addr e)))) as Hy2 by (simpl; by rewrite lookup_insert_eq).
  unfold right_of. rewrite (load_some m2 _ _ Hy2). simpl fmap. go. destruct Hr as (He & Ha & Hb).
  assert (m_nodes m2 !! e_addr e = Some (cell c e (Some (e_addr z)) (root_ptr na a) (root_ptr na b))) as He2
    by (simpl; rewrite lookup_insert_ne by apart; done).
  rewrite (store_some m2 _ _ _ He2). eexists. split; [done|]. split_and!.
  - split; simpl.
    + done.
    + exists q. by rewrite !lookup_insert_ne by apart.
    + eexists. by rewrite !lookup_insert_ne by apart.
    + do 2 (apply rep_insert; [apart|]). done.
    + do 3 eexists. rewrite lookup_insert_ne by apart. by rewrite lookup_insert_eq.
    + rewrite lookup_insert_eq. split_and!; [done|do 2 (apply rep_insert; [apart|]); done..].
    + do 2 (apply crep_insert; [apart|]). done.
    + done.
  - transitivity m1; [done|]. transitivity m2; eapply store_same; by apply store_some.
  - intros ->. unfold knows_parent, parent_of in *. cbn [root_ptr app c_parent] in *.
    unfold load in *. simpl in *. by rewrite !lookup_insert_ne by apart.
Qed.

(** ** Unlinking *)

(** What is left to repair: [C] misses a black node exactly when the colour that left
    the tree was black. *)
Record unlinked na m' (c : map_color) C t : Prop := {
  ul_rep : Rep na m' C t;
  ul_parent : knows_parent na m' C t;
  ul_rb : ∃ n, rb n t ∧ crb (match c with MAP_RED => n | MAP_BLACK => S n end) C ∧
            (c = MAP_RED → c_color C = MAP_RED → color t = MAP_BLACK) }.

Lemma unlink_one s na m n C cz z v :
  Rep na m C (node s cz E z v) → rb n (node s cz E z v) → crb n C → (c_color C = MAP_RED → cz = MAP_BLACK) →
  ∃ m', map_transplant m (Some (e_addr z)) (root_ptr na v) = Some m' ∧ unlinked na m' cz C v ∧
    same_cells m m' ∧ holds m' z.
Proof.
  intros HR Hrb Hc Htop. destruct (transplant_node _ _ _ _ _ _ _ HR) as (m' & Hm & HR' & Hk & S' & Hz).
  exists m'. split_and!; [done| |done|].
  - split; [done..|]. apply rb_node in Hrb. destruct cz.
    + destruct Hrb as (_ & ? & _ & ?). by exists n.
    + destruct Hrb as (k & -> & _ & ?). by exists k.
  - unfold holds. rewrite Hz. destruct HR as [_ _ Ht _ _]. destruct s; destruct Ht as (Ht & _); by do 4 eexists.
Qed.

Lemma crb_entry n D cz l z y C : crb n (D ++ HoleR cz l z :: C) ↔ crb n (D ++ HoleR cz l y :: C).
Proof.
  revert n. induction D as [|f D IH]; intros n; [done|]. pose proof (IH n). pose proof (IH (S n)).
  simpl. destruct (f_color f); [|tauto]. destruct D; simpl in *; tauto.
Qed.

Lemma c_color_entry D cz l z y C : c_color (D ++ HoleR cz l z :: C) = c_color (D ++ HoleR cz l y :: C).
Proof. by destruct D. Qed.

Lemma unlink_two na m N C cz l z r :
  Rep na m C (T cz l z r) → l ≠ E → r ≠ E → rb N (plug C (T cz l z r)) → color (plug C (T cz l z r)) = MAP_BLACK →
  ∃ y D cy ry m', map_minimum m (root_ptr na r) = Some (Some (e_addr y)) ∧
    color_of m (Some (e_addr y)) = Some cy ∧ right_of m (Some (e_addr y)) = Some (root_ptr na ry) ∧
    (m ← unlink_min m (Some (e_addr z)) (Some (e_addr y)) (root_ptr na ry);
     unlink_swap m (Some (e_addr z)) (Some (e_addr y))) = Some m' ∧
    elements r = y :: elements (plug D ry) ∧ unlinked na m' cy (D ++ HoleR cz l y :: C) ry ∧
    same_cells m m' ∧ holds m' z.
Proof.
  intros HR Hl Hr Hrb Hcol. destruct r as [|rc rl re rr]; [done|].
  pose proof (Rep_lower false _ _ _ _ _ _ _ HR) as HRr.
  destruct (extreme_rep true (turns m) na m _ _ _ _ _ HRr) as (D & cy & y & ry & Hmin & Hp & Hcl & _).
  { pose proof (Rep_turns _ _ _ (proj1 (Rep_plug _ _ _ _) HR)). pose proof (length_plug C (T cz l z (T rc rl re rr))).
    simpl in *. lia. }
  cbn [hole node] in Hp, Hcl, HRr.
  assert (Rep na m (D ++ HoleR cz l z :: C) (T cy E y ry)) as HRy by (eapply Rep_refocus; [exact HRr|done]).
  assert (plug (D ++ HoleR cz l z :: C) (T cy E y ry) = plug C (T cz l z (T rc rl re rr))) as Hp' by exact Hp.
  rewrite <- Hp' in Hrb, Hcol. destruct (plug_crb _ _ _ Hrb Hcol) as (n & Hy & Hcc & Htop).
  assert (∃ m1, unlink_min m (Some (e_addr z)) (Some (e_addr y)) (root_ptr na ry) = Some m1 ∧
    detached na m1 C cz l z y (plug D ry) ∧ same_cells m m1 ∧
    (ry = E → knows_parent na m1 (D ++ HoleR cz l y :: C) ry)) as (m1 & Hm1 & Hdt & S1 & Hk1).
  { destruct D as [|f D]; [|by eapply unlink_min_far].
    destruct (unlink_min_near _ _ _ _ _ _ _ _ _ HRy) as (m1 & ? & ? & ? & ?). by exists m1. }
  destruct (unlink_swap_rep _ _ _ _ _ _ _ _ Hdt Hl) as (m2 & Hm2 & HR2 & S2 & N2 & Hz2).
  assert (Rep na m2 (D ++ HoleR cz l y :: C) ry) as HR3 by (eapply Rep_refocus; [exact HR2|by rewrite plug_app]).
  exists y, D, cy, ry, m2. rewrite Hm1. go. split_and!.
  - unfold map_minimum. by rewrite minimum_extreme.
  - by apply (color_of_node true) in HRy.
  - by apply (there_node true) in HRy.
  - done.
  - apply (f_equal elements) in Hp. rewrite !elements_plug in Hp. cbn [c_side] in Hcl. rewrite Hcl in Hp.
    apply app_inv_head in Hp. rewrite c_right_app, app_assoc in Hp. apply app_inv_tail in Hp. rewrite <- Hp.
    rewrite elements_plug. rewrite c_left_app in Hcl. rewrite <- (app_nil_r (c_left (HoleR _ _ _ :: C))) in Hcl at 2.
    apply app_inv_head in Hcl. by rewrite Hcl.
  - split; [done| |].
    + destruct ry as [|c a e b]; [|by apply knows_parent_T]. eapply knows_parent_step; [by apply Hk1|by destruct Hdt|done|done|done].
    + rewrite <- c_color_entry with (z:=z). apply (rb_node true) in Hy. destruct cy.
      * destruct Hy as (_ & ? & _ & ?). exists n. split_and!; [done|by rewrite crb_entry|done].
      * destruct Hy as (k & -> & _ & ?). exists k. split_and!; [done|by rewrite crb_entry|done].
  - by etransitivity.
  - done.
Qed.
(** Every way out of the tree. *)
Lemma map_unlink_rep na m N C cz l z r :
  Rep na m C (T cz l z r) → rb N (plug C (T cz l z r)) → color (plug C (T cz l z r)) = MAP_BLACK →
  ∃ c C' t m', map_unlink m (Some (e_addr z)) = Some (root_ptr na t, c, m') ∧ unlinked na m' c C' t ∧
    same_cells m m' ∧ holds m' z ∧ elements (plug C' t) = c_left C ++ elements l ++ elements r ++ c_right C ∧
    (c = MAP_RED → color (plug C' t) = MAP_BLACK).
Proof.
  intros HR Hrb Hcol. unfold map_unlink. destruct (plug_crb _ _ _ Hrb Hcol) as (n & Hz & Hc & Htop).
  rewrite (Rep_load _ _ _ _ _ _ _ HR). go. cbn [n_left n_right n_color cell].
  rewrite (Rep_is_nil _ _ _ _ (Rep_lower true _ _ _ _ _ _ _ HR)). destruct l as [|lc ll le lr] eqn:El.
  { destruct (unlink_one true _ _ _ _ _ _ _ HR Hz Hc Htop) as (m' & -> & Hu & S' & Hh). go.
    exists cz, C, r, m'. split_and!; [done..|by rewrite elements_plug|]. intros ->. destruct C; [done|by eapply crb_root]. }
  rewrite (Rep_is_nil _ _ _ _ (Rep_lower false _ _ _ _ _ _ _ HR)). rewrite <- El in *. destruct r as [|rc rl re rr] eqn:Er.
  { destruct (unlink_one false _ _ _ _ _ _ _ HR Hz Hc Htop) as (m' & -> & Hu & S' & Hh). go.
    exists cz, C, l, m'. split_and!; [done..|by rewrite elements_plug|]. intros ->. destruct C; [done|by eapply crb_root]. }
  rewrite <- Er in *. destruct (unlink_two _ _ N _ _ _ _ _ HR) as (y & D & cy & ry & m' & -> & Hcy & Hry & Hm & He & Hu & S' & Hh);
    [congruence|congruence|done|done|].
  go. rewrite Hcy. go. rewrite Hry. go. destruct (unlink_min _ _ _ _) as [m1|]; [|done]. cbn [mbind option_bind] in Hm |- *.
  rewrite Hm. go. exists cy, (D ++ HoleR cz l y :: C), ry, m'. split_and!; [done..| |].
  - rewrite plug_app. cbn [plug fill]. rewrite elements_plug. cbn [elements]. rewrite He, <- !app_assoc. done.
  - intros _. destruct Hu as [_ _ (k & _ & Hk & _)]. destruct D as [|f D]; by eapply crb_root.
Qed.
End Unlink.
