(* ===== verification/RbOps.v ===== *)
(** The operations of the map, each against what it does to the sorted list of entries. *)

From Stdlib Require Import Sorting.Sorted.
From S2P Require Import Prelude RbMap RbTree RbRotate RbInsert RbSearch RbErase.

Section Ops.
Context {K V : Type} (ops : map_ops K V) `{!MapLaws ops}.
Variable malloc : gmap nat (map_node K V) → option nat.
(** [malloc] returns NULL or memory that is not in use. *)
Hypothesis malloc_fresh : ∀ h a, malloc h = Some a → h !! a = None.
Implicit Types (t l r u : tree K V) (C : list (frame K V)) (m : map K V) (e : entry K V) (k key : K) (v : V).

(** A map in order, holding the tree [t]. *)
Record Good na m t : Prop := {
  gd_rep : Rep na m [] t;
  gd_rb : ∃ n, rb n t;
  gd_root : color t = MAP_BLACK;
  gd_sorted : sorted ops (elements t);
  gd_size : m_size m = zlen (elements t);
  gd_cells : dom (m_nodes m) = list_to_set (na :: addrs t) }.

Definition copied_key k : K := match key_copy ops with Some f => f k | None => k end.
Definition copied_value v : V := match value_copy ops with Some f => f v | None => v end.

Lemma copied_key_equal k : compare ops (copied_key k) k = 0.
Proof. unfold copied_key. destruct (key_copy ops) as [f|] eqn:E; [by eapply key_copy_equal|apply cmp_refl; done]. Qed.

Lemma map_find_node_rep na m t key : Good na m t →
  map_find_node ops m key =
    Some (match find_entry ops key (elements t) with Some e => Some (e_addr e) | None => Some na end).
Proof.
  intros [HR _ _ Hs _ _]. unfold map_find_node. rewrite (Rep_root _ _ _ _ HR). cbn [plug].
  apply (find_loop_rep ops _ _ _ []); [done|done|]. pose proof (Rep_turns _ _ _ HR). pose proof (height_elements t). lia.
Qed.

Lemma find_entry_in key xs e : find_entry ops key xs = Some e → e ∈ xs ∧ compare ops key (e_key e) = 0.
Proof.
  unfold find_entry. intros Hf. apply List.find_some in Hf as [Hin Hk]. split; [by apply list_elem_of_In|].
  by apply Z.eqb_eq.
Qed.

(** The node of an entry, in focus. *)
Lemma Good_focus na m t e : Good na m t → e ∈ elements t →
  ∃ C c l r, Rep na m C (T c l e r) ∧ plug C (T c l e r) = t.
Proof.
  intros [HR _ _ _ _ _] (xs & ys & Hin)%list_elem_of_split. destruct (focus_at _ _ _ _ Hin) as (C & c & l & r & Hp & _).
  exists C, c, l, r. split; [|done]. eapply Rep_refocus; [exact HR|by rewrite Hp].
Qed.

Lemma map_create_ex_rep : match malloc ∅ with
  | None => map_create_ex malloc = None
  | Some na => ∃ m, map_create_ex malloc = Some m ∧ Good na m E
  end.
Proof.
  unfold map_create_ex. destruct (malloc ∅) as [na|] eqn:Em; simpl; [|done]. eexists. split; [done|]. split; simpl.
  - split; simpl; [done|exists None; by rewrite lookup_singleton_eq|done|done|by repeat constructor; apply not_elem_of_nil].
  - exists 0%nat. constructor.
  - done.
  - constructor.
  - done.
  - set_solver.
Qed.

(** ** Insertion *)

Lemma crep_is_Some na h rt C q a : crep na h rt C q → a ∈ c_addrs C → is_Some (h !! a).
Proof.
  revert q. induction C as [|f C IH]; intros q; [by intros _ ?%elem_of_nil|]. rewrite elem_of_c_addrs_cons.
  destruct f as [c e u|c u e]; unfold f_addr; simpl; intros (He & Hu & Hc) [->|[?|?]];
    [by eexists|by eapply rep_is_Some|by eapply IH|by eexists|by eapply rep_is_Some|by eapply IH].
Qed.

(** A fresh address is none of the tree's. *)
Lemma Rep_fresh na m C t a : Rep na m C t → m_nodes m !! a = None → a ≠ na ∧ (a ∉ addrs t) ∧ (a ∉ c_addrs C).
Proof.
  intros [_ [q Hs] Ht Hc _] Ha. split_and!.
  - intros ->. congruence.
  - intros Hin. apply (rep_is_Some _ _ _ _ _ Ht) in Hin as [? ?]. congruence.
  - intros Hin. apply (crep_is_Some _ _ _ _ _ _ Hc) in Hin as [? ?]. congruence.
Qed.

(** The new node, linked in below the context the walk found. *)
Lemma link_new na m C (a : nat) k v :
  Rep na m C E → m_nodes m !! a = None →
  (∀ x, x ∈ c_left C → compare ops (e_key x) k < 0) → (∀ x, x ∈ c_right C → compare ops k (e_key x) < 0) →
  let m0 := with_nodes m (<[a := MapNode (Some k) (Some v) None None None MAP_RED]> (m_nodes m)) in
  ∃ m1, map_link ops m0 (Some a) k (c_parent na C) = Some m1 ∧
    Rep na m1 C (T MAP_RED E (Entry a k v) E) ∧ same_cells m0 m1.
Proof.
  intros HR Ha HL HRt m0. unfold map_link. destruct (Rep_fresh _ _ _ _ _ HR Ha) as (Hna & _ & HaC).
  pose proof (Rep_is_nil_parent _ _ _ _ HR) as Hnil. destruct HR as [Hn [q Hs] _ Hc Hd].
  set (n1 := MapNode (Some k) (Some v) (c_parent na C) None None MAP_RED).
  assert (m_nodes m0 !! a = Some (MapNode (Some k) (Some v) None None None MAP_RED)) as Ha0 by (simpl; by rewrite lookup_insert_eq).
  rewrite (store_some m0 _ _ _ Ha0). go. set (m1 := with_nodes m0 _). change (is_nil m1) with (is_nil m). rewrite Hnil.
  assert (∃ m2, (match C with [] => Some (with_root m1 (Some a)) | _ =>
      yk ← load m1 (c_parent na C) ≫= n_key;
      if compare ops k yk <? 0 then store m1 (c_parent na C) (set_left (Some a))
      else store m1 (c_parent na C) (set_right (Some a)) end) = Some m2 ∧
    same_cells m1 m2 ∧ crep na (m_nodes m2) (m_root m2) C (Some a) ∧
    m_nodes m2 !! a = Some n1 ∧ m_nodes m2 !! na = Some (nil_cell q)) as (m2 & Hm2 & S2 & Hc2 & Ha2 & Hs2).
  { assert (m_nodes m1 !! a = Some n1) as Ha1 by (simpl; by rewrite lookup_insert_eq).
    assert (m_nodes m1 !! na = Some (nil_cell q)) as Hs1 by (simpl; by rewrite !lookup_insert_ne).
    destruct C as [|f C]; [by exists (with_root m1 (Some a))|].
    apply NoDup_cons in Hd as [Hna' Hd]. simpl in Hd. rewrite elem_of_app in Hna'.
    destruct (crep_relink _ _ _ _ _ _ (Some a) Hd Hc) as (pn & Hpn & _ & _ & Hcr).
    assert (f_addr f ≠ a ∧ f_addr f ≠ na) as [Hfa Hfn].
    { split; intros Heq; [apply HaC|apply Hna'; right]; apply elem_of_c_addrs_cons; auto. }
    assert (m_nodes m1 !! f_addr f = Some pn) as Hpn1 by (simpl; by rewrite !lookup_insert_ne).
    exists (with_nodes m1 (<[f_addr f := relink f (Some a) pn]> (m_nodes m1))). cbn [c_parent].
    rewrite (load_some m1 _ _ Hpn1), !(store_some m1 _ _ _ Hpn1). go.
    assert (n_key pn = Some (e_key (f_entry f))) as -> by (destruct f, Hc as (Hc & _); unfold f_addr in Hpn; simpl in Hpn; rewrite Hc in Hpn; by injection Hpn as <-).
    go. split_and!.
    - destruct f as [c e u|c u e]; simpl relink.
      + rewrite (proj2 (Z.ltb_lt _ _)); [done|]. apply HRt. simpl. apply elem_of_cons. auto.
      + rewrite (proj2 (Z.ltb_ge _ _)); [done|]. simpl.
        assert (compare ops (e_key e) k < 0) as He by (apply HL; simpl; rewrite !elem_of_app, list_elem_of_singleton; auto).
        apply compare_antisym in He. lia.
    - eapply store_same. by apply (store_some m1 _ _ _ Hpn1).
    - eapply crep_frame; [|exact Hcr]. intros b Hb. cbn [with_nodes m_nodes].
      destruct (decide (b = f_addr f)) as [->|Hbf]; [by rewrite !lookup_insert_eq|].
      rewrite !(lookup_insert_ne _ (f_addr f)) by done. simpl. rewrite !lookup_insert_ne; [done|by intros <-..].
    - simpl. by rewrite lookup_insert_ne.
    - simpl. rewrite lookup_insert_ne by done. exact Hs1. }
  replace (if match C with [] => true | _ => false end then Some (with_root m1 (Some a)) else _) with (Some m2)
    by (rewrite <- Hm2; by destruct C).
  go. assert (m_nil m2 = Some na) as Hn2 by (destruct S2 as (-> & _); done).
  rewrite (store_some m2 _ _ _ Ha2). go. set (m3 := with_nodes m2 _).
  assert (m_nodes m3 !! a = Some (set_left (m_nil m2) n1)) as Ha3 by (simpl; by rewrite lookup_insert_eq).
  rewrite (store_some m3 _ _ _ Ha3). go. set (m4 := with_nodes m3 _).
  assert (m_nodes m4 !! a = Some (set_right (m_nil m3) (set_left (m_nil m2) n1))) as Ha4 by (simpl; by rewrite lookup_insert_eq).
  rewrite (store_some m4 _ _ _ Ha4). eexists. split; [done|]. split.
  - split; simpl; [done|rewrite !lookup_insert_ne by done; by eexists| |by do 3 (apply crep_insert; [done|])|].
    + rewrite lookup_insert_eq. unfold set_color, set_right, set_left, cell. simpl. by rewrite Hn2.
    + constructor; [|constructor; [done|by apply NoDup_cons in Hd as [_ Hd]]].
      apply NoDup_cons in Hd as [Hd _]. simpl in Hd. rewrite elem_of_cons. by intros [?|?].
  - transitivity m1; [eapply store_same; by apply store_some|]. transitivity m2; [done|].
    transitivity m3; [eapply store_same; by apply store_some|]. transitivity m4; eapply store_same; by apply store_some.
Qed.

Lemma Rep_alloc na m C t a n : Rep na m C t → m_nodes m !! a = None →
  Rep na (with_nodes m (<[a := n]> (m_nodes m))) C t.
Proof.
  intros HR Ha. destruct (Rep_fresh _ _ _ _ _ HR Ha) as (? & ? & ?). destruct HR as [Hn [q Hs] Ht Hc Hd].
  split; simpl; [done|rewrite lookup_insert_ne by done; by eexists|by apply rep_insert|by apply crep_insert|done].
Qed.

Lemma sgn_lt a b : Z.sgn a = Z.sgn b → a < 0 ↔ b < 0.
Proof. lia. Qed.

Lemma find_entry_equal k k' xs : compare ops k k' = 0 → find_entry ops k xs = find_entry ops k' xs.
Proof.
  intros Hk. unfold find_entry. induction xs as [|x xs IH]; [done|]. simpl. rewrite IH.
  pose proof (cmp_eq_l ops k k' (e_key x) Hk). destruct (Z.eqb_spec (compare ops k (e_key x)) 0), (Z.eqb_spec (compare ops k' (e_key x)) 0); lia || done.
Qed.

Lemma map_insert_new na m t a key v :
  Good na m t → find_entry ops key (elements t) = None → malloc (m_nodes m) = Some a →
  ∃ m' t' xs ys, map_insert ops malloc m key v = Some (1, m') ∧ Good na m' t' ∧ m_released m' = m_released m ∧
    elements t = xs ++ ys ∧ elements t' = xs ++ Entry a (copied_key key) (copied_value v) :: ys.
Proof.
  intros HG Hf Hm. pose proof HG as [HR [n Hrb] Hroot Hs Hsz Hdom]. pose proof (malloc_fresh _ _ Hm) as Ha.
  set (k := copied_key key). set (v' := copied_value v). set (e := Entry a k v').
  unfold map_insert. rewrite (map_find_node_rep _ _ _ _ HG), Hf. go.
  assert (is_nil m (Some na) = true) as -> by (unfold is_nil; destruct HR as [-> _ _ _ _]; apply eqp_refl). cbn [negb].
  unfold map_create_node. rewrite Hm. fold (copied_key key) (copied_value v). fold k v'.
  set (m0 := with_nodes m _). assert (load m0 (Some a) = Some (MapNode (Some k) (Some v') None None None MAP_RED)) as ->
    by (apply load_some; simpl; by rewrite lookup_insert_eq). go. cbn [n_key]. go.
  assert (Rep na m0 [] t) as HR0 by (by apply Rep_alloc).
  assert (find_entry ops k (elements t) = None) as Hfk by (by rewrite (find_entry_equal k key) by apply copied_key_equal).
  destruct (insert_walk_rep ops (turns m0) na m0 [] t k HR0 Hs) as (C & Hw & Hp & HL & HRt).
  { pose proof (Rep_turns _ _ _ HR0). pose proof (height_elements t). lia. }
  { done. } { by intros ? ?%elem_of_nil. } { by intros ? ?%elem_of_nil. }
  change (m_nil m0) with (m_nil m). pose proof (rep_nil _ _ _ _ HR) as Hn. rewrite (Rep_root _ _ _ _ HR0). cbn [plug c_parent] in Hw |- *.
  rewrite Hn, Hw. go.
  assert (Rep na m C E) as HRC by (eapply Rep_refocus; [exact HR|by rewrite Hp]).
  destruct (link_new na m C a k v' HRC Ha HL HRt) as (m1 & Hl & HR1 & S1).
  rewrite (Hl : map_link ops m0 (Some a) k (c_parent na C) = Some m1). go.
  change (plug [] t) with t in Hp. rewrite <- Hp in Hrb, Hroot. destruct (plug_crb _ _ _ Hrb Hroot) as (n0 & HE & Hcb & _). inversion HE; subst n0.
  destruct (map_insert_fixup_rep na m1 0 C E e E) as (m2 & t2 & Hfix & HR2 & S2 & He2 & Hrb2 & Hcol2).
  { split; [done|repeat constructor|done]. }
  { pose proof (Rep_depth _ _ _ _ HR1). lia. }
  rewrite (Hfix : map_insert_fixup m1 (Some a) = Some m2). go. exists (with_size m2 (m_size m2 + 1)), t2, (c_left C), (c_right C).
  apply (f_equal elements) in Hp. rewrite elements_plug in Hp. simpl in Hp. rewrite elements_plug in He2. simpl in He2.
  destruct S1 as (_ & Hz1 & Hr1 & Hd1), S2 as (_ & Hz2 & Hr2 & Hd2).
  split_and!; [done| |by simpl; rewrite Hr2, Hr1|done|done]. split; simpl.
  - by destruct HR2.
  - done.
  - done.
  - rewrite He2. rewrite <- Hp in Hs. apply sorted_app in Hs as (? & ? & ?). apply sorted_app.
    split_and!; [done| |].
    + apply sorted_cons. split; [done|]. intros b Hb. by apply HRt.
    + intros x y Hx [->|Hy]%elem_of_cons; [by apply HL|auto].
  - rewrite Hz2, Hz1. simpl. rewrite He2, Hsz, <- Hp. autorewrite with zlen. lia.
  - rewrite Hd2, Hd1. simpl. rewrite dom_insert_L, Hdom. unfold addrs. rewrite He2, <- Hp, !fmap_app. simpl.
    rewrite !list_to_set_app_L. simpl. set_solver.
Qed.
(** ** Removal *)

Definition frees e : list (released K V) :=
  (if key_free ops then [FreeKey (Some (e_key e))] else []) ++ (if value_free ops then [FreeValue (Some (e_value e))] else []).

Lemma free_node_rep na m C t e : Rep na m C t → holds m e → (e_addr e ≠ na) → (e_addr e ∉ addrs t) → (e_addr e ∉ c_addrs C) →
  ∃ m', map_free_node ops m (Some (e_addr e)) = Some m' ∧ Rep na m' C t ∧ (knows_parent na m C t → knows_parent na m' C t) ∧
    m_size m' = m_size m ∧ m_released m' = m_released m ++ frees e ∧ dom (m_nodes m') = dom (m_nodes m) ∖ {[e_addr e]}.
Proof.
  intros [Hn [q Hs] Ht Hc Hd] (c & par & lp & rp & He) H1 H2 H3. unfold map_free_node. rewrite He. go. eexists. split; [done|].
  split_and!; simpl; [|..|done|done|by rewrite dom_delete_L].
  - split; simpl; [done|rewrite lookup_delete_ne by done; by eexists|by apply rep_delete|by apply crep_delete|done].
  - unfold knows_parent, parent_of, load. simpl. destruct t as [|c' l e' r]; simpl; rewrite lookup_delete_ne; try done.
    intros Heq. apply H2. rewrite addrs_T, elem_of_app, elem_of_cons. auto.
Qed.

(** The repair after the colour [c] left the tree. *)
Lemma repair_unlinked na m c C t : unlinked na m c C t → (c = MAP_RED → color (plug C t) = MAP_BLACK) →
  repaired na m C t (if is_red c then Some m else map_delete_fixup m (root_ptr na t)).
Proof.
  intros [HR Hk (n & Ht & Hc & Htop)] Hcol. destruct c.
  - exists m, (plug C t). change (is_red MAP_RED) with true. split_and!; [done|exact (proj1 (Rep_plug _ _ _ _) HR)|done|done| |auto].
    eapply crb_plug; eauto.
  - apply delete_fixup_loop_rep; [done|]. pose proof (Rep_depth _ _ _ _ HR). destruct (color t) eqn:Ec.
    + right. left. split_and!; [lia|done|]. exists (S n). split; [|done]. destruct t as [|? l e r]; [done|]. simpl in Ec. subst.
      apply (rb_node true) in Ht as (? & ? & ? & ?). by apply (rb_black true).
    + left. split; [lia|]. by exists n.
Qed.

Lemma addr_removed na (xs ys : list (entry K V)) z : NoDup (na :: (e_addr <$> xs ++ z :: ys)) → e_addr z ∉ na :: (e_addr <$> xs ++ ys).
Proof.
  rewrite !fmap_app. cbn [fmap list_fmap]. rewrite <- Permutation_middle, (Permutation_swap (e_addr z)). by intros [? _]%NoDup_cons.
Qed.

Lemma addrs_removed na (xs ys : list (entry K V)) z : NoDup (na :: (e_addr <$> xs ++ z :: ys)) →
  list_to_set (C:=gset nat) (na :: (e_addr <$> xs ++ z :: ys)) ∖ {[e_addr z]} = list_to_set (na :: (e_addr <$> xs ++ ys)).
Proof.
  intros Hz%addr_removed. revert Hz. rewrite !fmap_app. cbn [fmap list_fmap]. cbn [list_to_set].
  rewrite !list_to_set_app_L. cbn [list_to_set]. rewrite elem_of_cons, elem_of_app, <- !(elem_of_list_to_set (C:=gset nat)). set_solver.
Qed.

Lemma Rep_addrs na m t : Rep na m [] t → NoDup (na :: addrs t).
Proof. intros HR. pose proof (rep_nodup _ _ _ _ HR) as Hd. unfold c_addrs in Hd. simpl in Hd. by rewrite app_nil_r in Hd. Qed.

Lemma map_erase_found na m t key z : Good na m t → find_entry ops key (elements t) = Some z →
  ∃ m' t' xs ys, map_erase ops m key = Some (true, m') ∧ Good na m' t' ∧ m_released m' = m_released m ++ frees z ∧
    elements t = xs ++ z :: ys ∧ elements t' = xs ++ ys.
Proof.
  intros HG Hf. pose proof (find_entry_in _ _ _ Hf) as [Hin _]. destruct (Good_focus _ _ _ _ HG Hin) as (C & c & l & r & HRz & Hp).
  pose proof HG as [HR [N Hrb] Hroot Hs Hsz Hdom]. unfold map_erase. rewrite (map_find_node_rep _ _ _ _ HG), Hf. go.
  change (Some (e_addr z)) with (root_ptr na (T c l z r)). rewrite (Rep_is_nil _ _ _ _ HRz). cbn [root_ptr].
  rewrite <- Hp in Hrb, Hroot. destruct (map_unlink_rep _ _ _ _ _ _ _ _ HRz Hrb Hroot) as (c' & C' & u & m1 & -> & Hu & S1 & Hh & He & Hcol). go.
  assert (elements t = (c_left C ++ elements l) ++ z :: (elements r ++ c_right C)) as Ht
    by (rewrite <- Hp, elements_plug; simpl; by rewrite <- !app_assoc).
  assert (elements (plug C' u) = (c_left C ++ elements l) ++ elements r ++ c_right C) as He' by (by rewrite He, <- app_assoc).
  assert (e_addr z ∉ na :: addrs (plug C' u)) as Hz.
  { unfold addrs. rewrite He'. apply addr_removed. rewrite <- Ht. by eapply Rep_addrs. }
  rewrite elem_of_cons in Hz. pose proof (ul_rep _ _ _ _ _ Hu) as HR1. rewrite (addrs_plug_perm C' u), elem_of_app in Hz.
  destruct (free_node_rep _ _ _ _ _ HR1 Hh) as (m2 & -> & HR2 & Hk2 & Hz2 & Hr2 & Hd2);
    [intros ?; apply Hz; auto..|]. go.
  destruct (repair_unlinked na (with_size m2 (m_size m2 - 1)) c' C' u) as (m3 & t' & Hm3 & HR3 & (_ & Hz3 & Hr3 & Hd3) & He3 & Hrb3 & Hc3); [|done|].
  { destruct Hu as [_ Hk Hb]. split; [by destruct HR2|by apply Hk2|done]. }
  rewrite Hm3. go. exists m3, t', (c_left C ++ elements l), (elements r ++ c_right C). destruct S1 as (_ & Hz1 & Hr1 & Hd1).
  assert (elements t' = (c_left C ++ elements l) ++ elements r ++ c_right C) as Ht' by congruence.
  split_and!; [done| |simpl in *; congruence|done|done]. split; [done|done|done| | |].
  - rewrite Ht' . rewrite Ht in Hs. apply sorted_app in Hs as (? & (? & ?)%sorted_cons & ?). apply sorted_app. split_and!; [done|done|].
    intros x y Hx Hy. auto using list_elem_of_further.
  - rewrite Hz3. simpl. rewrite Hz2, Hz1, Hsz, Ht', Ht. autorewrite with zlen. lia.
  - rewrite Hd3. simpl. rewrite Hd2, Hd1, Hdom. unfold addrs. rewrite Ht, Ht'. apply addrs_removed. rewrite <- Ht. by eapply Rep_addrs.
Qed.
(** ** Assignment *)

Lemma revalue_rep na m C c l e r v : Rep na m C (T c l e r) →
  let e' := Entry (e_addr e) (e_key e) v in
  ∃ m', store m (Some (e_addr e)) (set_value (Some v)) = Some m' ∧ Rep na m' C (T c l e' r) ∧ same_cells m m'.
Proof.
  intros [Hn [q Hs] (He & Hl & Hr) Hc Hd] e'. rewrite (store_some _ _ _ _ He). eexists. split; [done|].
  split; [|eapply store_same; by apply store_some]. pose proof Hd as Hd0. rewrite addrs_T, <- app_assoc in Hd.
  break_addrs Hd [[na]; addrs l; [e_addr e]; addrs r; c_addrs C]. split; simpl.
  - done.
  - rewrite lookup_insert_ne by apart. by eexists.
  - rewrite lookup_insert_eq. split_and!; [done|apply rep_insert; [apart|done]..].
  - apply crep_insert; [apart|done].
  - by rewrite addrs_T in *.
Qed.

Lemma map_insert_or_assign_found na m t key v z : Good na m t → find_entry ops key (elements t) = Some z →
  ∃ m' t' xs ys, map_insert_or_assign ops malloc m key v = Some (2, m') ∧ Good na m' t' ∧
    m_released m' = m_released m ++ (if value_free ops then [FreeValue (Some (e_value z))] else []) ∧
    elements t = xs ++ z :: ys ∧ elements t' = xs ++ Entry (e_addr z) (e_key z) (copied_value v) :: ys.
Proof.
  intros HG Hf. pose proof (find_entry_in _ _ _ Hf) as [Hin _]. destruct (Good_focus _ _ _ _ HG Hin) as (C & c & l & r & HRz & Hp).
  pose proof HG as [HR [N Hrb] Hroot Hs Hsz Hdom]. unfold map_insert_or_assign. rewrite (map_find_node_rep _ _ _ _ HG), Hf. go.
  change (Some (e_addr z)) with (root_ptr na (T c l z r)). rewrite (Rep_is_nil _ _ _ _ HRz). cbn [root_ptr negb].
  rewrite (Rep_load _ _ _ _ _ _ _ HRz). go. cbn [n_value cell]. fold (copied_value v).
  set (m1 := if value_free ops then _ else _).
  assert (Rep na m1 C (T c l z r)) as HR1 by (unfold m1; destruct (value_free ops); [by destruct HRz|done]).
  destruct (revalue_rep _ _ _ _ _ _ _ (copied_value v) HR1) as (m2 & -> & HR2 & (_ & Hz2 & Hr2 & Hd2)). go.
  set (z' := Entry (e_addr z) (e_key z) (copied_value v)) in *.
  exists m2, (plug C (T c l z' r)), (c_left C ++ elements l), (elements r ++ c_right C).
  assert (elements t = (c_left C ++ elements l) ++ z :: (elements r ++ c_right C)) as Ht
    by (rewrite <- Hp, elements_plug; simpl; by rewrite <- !app_assoc).
  assert (elements (plug C (T c l z' r)) = (c_left C ++ elements l) ++ z' :: (elements r ++ c_right C)) as Ht'
    by (rewrite elements_plug; simpl; by rewrite <- !app_assoc).
  assert (m_size m1 = m_size m ∧ m_nodes m1 = m_nodes m) as [Hz1 Hd1] by (unfold m1; by destruct (value_free ops)).
  split_and!; [done| |rewrite Hr2; unfold m1; destruct (value_free ops); [done|by rewrite app_nil_r]|done|done]. split.
  - exact (proj1 (Rep_plug _ _ _ _) HR2).
  - rewrite <- Hp in Hrb, Hroot. destruct (plug_crb _ _ _ Hrb Hroot) as (n & Hb & Hc & Htop).
    eapply crb_plug; [exact Hc| |exact Htop]. apply (rb_node true). by apply (rb_node true) in Hb.
  - rewrite <- Hp in Hroot. revert Hroot. clear. destruct C as [|f C] using rev_ind; [done|]. rewrite !plug_app. by destruct f.
  - rewrite Ht'. rewrite Ht in Hs. apply sorted_app in Hs as (? & (? & ?)%sorted_cons & Hlt). apply sorted_app. split_and!; [done|by apply sorted_cons|].
    intros x y Hx [->|Hy]%elem_of_cons; [apply (Hlt x z); [done|by left]|by apply Hlt; [|right]].
  - rewrite Hz2, Hz1, Hsz, Ht, Ht'. autorewrite with zlen. done.
  - rewrite Hd2, Hd1, Hdom. unfold addrs. by rewrite Ht, Ht', !fmap_app.
Qed.

(** ** Clearing *)

Fixpoint post_order t : list (entry K V) :=
  match t with E => [] | T _ l e r => post_order l ++ post_order r ++ [e] end.

Lemma post_order_elements t : post_order t ≡ₚ elements t.
Proof. induction t as [|c l IHl e r IHr]; [done|]. simpl. rewrite IHl, IHr. solve_Permutation. Qed.

Lemma clear_recursive_rep fuel na m par t :
  m_nil m = Some na → rep na (m_nodes m) par t → NoDup (na :: addrs t) → (height t < fuel)%nat →
  ∃ m', clear_recursive ops fuel m (root_ptr na t) = Some m' ∧ m_nil m' = m_nil m ∧
    (∀ a, m_nodes m' !! a = if decide (a ∈ addrs t) then None else m_nodes m !! a) ∧
    m_released m' = m_released m ++ (post_order t ≫= frees).
Proof.
  revert fuel m par. induction t as [|c l IHl e r IHr]; intros fuel m par Hn Ht Hd Hf; (destruct fuel as [|fuel]; [lia|]).
  - exists m. cbn [clear_recursive root_ptr]. unfold is_nil. rewrite Hn, eqp_refl. simpl. by rewrite app_nil_r.
  - destruct Ht as (He & Hl & Hr). cbn [clear_recursive root_ptr height] in *.
    rewrite addrs_T in Hd. pose proof Hd as Hd0. break_addrs Hd [[na]; addrs l; [e_addr e]; addrs r].
    assert (NoDup (na :: addrs l) ∧ NoDup (na :: addrs r)) as [Hdl Hdr].
    { revert Hd0. clear. rewrite !NoDup_cons, NoDup_app, NoDup_cons, elem_of_app, elem_of_cons. tauto. }
    assert (e_addr e ≠ na) as Hen by apart. unfold is_nil. rewrite Hn, eqp_ne by congruence. unfold left_of. rewrite (load_some _ _ _ He). simpl fmap. go.
    destruct (IHl fuel m _ Hn Hl Hdl) as (m1 & -> & Hn1 & Hm1 & Hr1); [lia|]. go.
    assert (m_nodes m1 !! e_addr e = m_nodes m !! e_addr e) as He1 by (rewrite Hm1, decide_False by apart; done).
    rewrite He in He1. unfold right_of. rewrite (load_some _ _ _ He1). simpl fmap. go.
    destruct (IHr fuel m1 (Some (e_addr e))) as (m2 & -> & Hn2 & Hm2 & Hr2); [congruence| |done|lia|].
    { eapply rep_frame; [|exact Hr]. intros b Hb. rewrite Hm1, decide_False by apart. done. }
    go. assert (m_nodes m2 !! e_addr e = m_nodes m1 !! e_addr e) as He2 by (rewrite Hm2, decide_False by apart; done).
    rewrite He1 in He2. unfold map_free_node. rewrite He2. go. eexists. split; [done|]. simpl. split_and!; [congruence| |].
    + intros a. destruct (decide (a = e_addr e)) as [->|Hae].
      * rewrite lookup_delete_eq, decide_True; [done|]. apply elem_of_addrs_T. auto.
      * rewrite lookup_delete_ne by done. rewrite Hm2, Hm1. repeat case_decide; rewrite ?elem_of_addrs_T in *; tauto || done.
    + rewrite Hr2, Hr1, !bind_app. simpl. by rewrite app_nil_r, <- !app_assoc.
Qed.

Lemma map_clear_rep na m t : Good na m t →
  ∃ m' es, map_clear ops m = Some m' ∧ Good na m' E ∧ es ≡ₚ elements t ∧ m_released m' = m_released m ++ (es ≫= frees).
Proof.
  intros [HR _ _ _ _ Hdom]. pose proof (Rep_depth _ _ _ _ HR) as Hlen. pose proof (Rep_addrs _ _ _ HR) as Hd. pose proof HR as [Hn [q Hs] Ht _ _].
  destruct (clear_recursive_rep (turns m) na m _ t Hn Ht Hd) as (m1 & Hm & Hn1 & Hm1 & Hr1); [lia|].
  unfold map_clear. rewrite (Rep_root _ _ _ _ HR). cbn [plug]. rewrite Hm. go. eexists _, (post_order t).
  split_and!; [done| |apply post_order_elements|done]. apply NoDup_cons in Hd as [Hd _]. split; simpl.
  - split; simpl; [congruence| |done|congruence|by repeat constructor; apply not_elem_of_nil].
    exists q. rewrite Hm1, decide_False by done. done.
  - exists 0%nat. constructor.
  - done.
  - constructor.
  - done.
  - apply set_eq. intros a. rewrite elem_of_dom, Hm1. case_decide as Ha.
    + split; [by intros [? ?]|]. rewrite elem_of_union, elem_of_singleton. intros [->|?]; set_solver.
    + rewrite <- elem_of_dom, Hdom. simpl. rewrite !elem_of_union, elem_of_list_to_set. set_solver.
Qed.
End Ops.
