(* ===== verification/RbTheorems.v ===== *)
(** What the map promises: any sequence of its operations behaves as on a sorted list of
    key/value pairs, and lookups take a logarithmic number of comparisons. *)

From Stdlib Require Import Sorting.Sorted.
From S2P Require Import Prelude RbMap RbTree RbRotate RbInsert RbSearch RbErase RbOps.

(** ** The specification *)

Inductive map_call (K V : Type) : Type :=
  | Insert (k : K) (v : V)
  | Assign (k : K) (v : V)
  | Erase (k : K)
  | Find (k : K)
  | Contains (k : K)
  | Size
  | Keys
  | Values
  | Clear.
#[global] Arguments Insert {K V}.
#[global] Arguments Assign {K V}.
#[global] Arguments Erase {K V}.
#[global] Arguments Find {K V}.
#[global] Arguments Contains {K V}.
#[global] Arguments Size {K V}.
#[global] Arguments Keys {K V}.
#[global] Arguments Values {K V}.
#[global] Arguments Clear {K V}.

Inductive map_answer (K V : Type) : Type :=
  | Code (z : Z)
  | Found (v : option V)
  | Bool (b : bool)
  | KeyList (l : list (option K))
  | ValueList (l : list (option V))
  | Done.
#[global] Arguments Code {K V}.
#[global] Arguments Found {K V}.
#[global] Arguments Bool {K V}.
#[global] Arguments KeyList {K V}.
#[global] Arguments ValueList {K V}.
#[global] Arguments Done {K V}.

Section Spec.
Context {K V : Type} (ops : map_ops K V).
Implicit Types (l : list (K * V)) (key k : K) (v : V).

(** The pairs in the map, and the callbacks made so far. *)
Record pairs : Type := Pairs { p_list : list (K * V); p_released : list (released K V) }.

Definition lookup_pair key l : option (K * V) := List.find (λ kv, compare ops key kv.1 =? 0) l.

Fixpoint place k v l : list (K * V) :=
  match l with
  | [] => [(k, v)]
  | kv :: l' => if compare ops k kv.1 <? 0 then (k, v) :: l else kv :: place k v l'
  end.

Definition remove key l : list (K * V) := List.filter (λ kv, negb (compare ops key kv.1 =? 0)) l.
Definition assign key v l : list (K * V) :=
  (λ kv, if compare ops key kv.1 =? 0 then (kv.1, v) else kv) <$> l.

Definition free_pair (kv : K * V) : list (released K V) :=
  (if key_free ops then [FreeKey (Some kv.1)] else []) ++ (if value_free ops then [FreeValue (Some kv.2)] else []).
Definition free_value v : list (released K V) := if value_free ops then [FreeValue (Some v)] else [].

(** One call on the pairs; [ok] tells whether memory for a new node can be had. *)
Definition spec_call (ok : bool) (s : pairs) (c : map_call K V) : map_answer K V * pairs :=
  let l := p_list s in
  match c with
  | Insert k v =>
      match lookup_pair k l with
      | Some _ => (Code 0, s)
      | None =>
          if ok then (Code 1, Pairs (place (copied_key ops k) (copied_value ops v) l) (p_released s))
          else (Code (-1), s)
      end
  | Assign k v =>
      match lookup_pair k l with
      | Some kv => (Code 2, Pairs (assign k (copied_value ops v) l) (p_released s ++ free_value kv.2))
      | None =>
          if ok then (Code 1, Pairs (place (copied_key ops k) (copied_value ops v) l) (p_released s))
          else (Code (-1), s)
      end
  | Erase k =>
      match lookup_pair k l with
      | Some kv => (Bool true, Pairs (remove k l) (p_released s ++ free_pair kv))
      | None => (Bool false, s)
      end
  | Find k => (Found (snd <$> lookup_pair k l), s)
  | Contains k => (Bool (bool_decide (is_Some (lookup_pair k l))), s)
  | Size => (Code (zlen l), s)
  | Keys => (KeyList ((λ kv, Some kv.1) <$> l), s)
  | Values => (ValueList ((λ kv, Some kv.2) <$> l), s)
  | Clear => (Done, Pairs [] (p_released s ++ (l ≫= free_pair)))
  end.

Fixpoint spec_calls (s : pairs) (cs : list (bool * map_call K V)) : list (map_answer K V) * pairs :=
  match cs with
  | [] => ([], s)
  | (ok, c) :: cs' =>
      let (a, s) := spec_call ok s c in
      let (la, s) := spec_calls s cs' in (a :: la, s)
  end.

(** The same calls on the map of the program. *)
Variable malloc : gmap nat (map_node K V) → option nat.

Definition run_call (m : map K V) (c : map_call K V) : option (map_answer K V * map K V) :=
  match c with
  | Insert k v => '(z, m) ← map_insert ops malloc m k v; Some (Code z, m)
  | Assign k v => '(z, m) ← map_insert_or_assign ops malloc m k v; Some (Code z, m)
  | Erase k => '(b, m) ← map_erase ops m k; Some (Bool b, m)
  | Find k => v ← map_find ops m k; Some (Found v, m)
  | Contains k => b ← map_contains ops m k; Some (Bool b, m)
  | Size => Some (Code (m_size m), m)
  | Keys => l ← iterate m (map_iterator_key m); Some (KeyList l, m)
  | Values => l ← iterate m (map_iterator_value m); Some (ValueList l, m)
  | Clear => m ← map_clear ops m; Some (Done, m)
  end.

Fixpoint run_calls (m : map K V) (cs : list (map_call K V)) : option (list (map_answer K V) * map K V) :=
  match cs with
  | [] => Some ([], m)
  | c :: cs' => '(a, m) ← run_call m c; '(la, m) ← run_calls m cs'; Some (a :: la, m)
  end.
End Spec.
#[global] Arguments pairs : clear implicits.

(** ** Refinement *)

Section Refine.
Context {K V : Type} (ops : map_ops K V) `{!MapLaws ops}.
Variable malloc : gmap nat (map_node K V) → option nat.
Hypothesis malloc_fresh : ∀ h a, malloc h = Some a → h !! a = None.
Implicit Types (t : tree K V) (m : map K V) (e : entry K V) (k key : K) (v : V) (s : pairs K V).

Definition pair_of e : K * V := (e_key e, e_value e).

(** The map holds the pairs [s], in a red-black tree; the callbacks were made in some
    order. *)
Record Holds m s : Prop := {
  hd_tree : ∃ na t, Good ops na m t ∧ p_list s = pair_of <$> elements t;
  hd_released : m_released m ≡ₚ p_released s }.

Lemma lookup_pair_entry key (es : list (entry K V)) :
  lookup_pair ops key (pair_of <$> es) = pair_of <$> find_entry ops key es.
Proof. induction es as [|e es IH]; [done|]. simpl. unfold find_entry in *. simpl. by destruct (_ =? 0). Qed.

Lemma place_split k v (xs ys : list (entry K V)) :
  (∀ x, x ∈ xs → compare ops (e_key x) k < 0) → (∀ y, y ∈ ys → compare ops k (e_key y) < 0) →
  place ops k v (pair_of <$> xs ++ ys) = (pair_of <$> xs) ++ (k, v) :: (pair_of <$> ys).
Proof.
  intros Hx Hy. induction xs as [|x xs IH]; csimpl.
  - destruct ys as [|y ys]; [done|]. csimpl. rewrite (proj2 (Z.ltb_lt _ _)); [done|]. apply Hy. by left.
  - rewrite (proj2 (Z.ltb_ge _ _)), IH; [done|intros; apply Hx; by right|].
    apply Z.lt_le_incl, compare_antisym, Hx. by left.
Qed.

(** Around the key, in order, nothing else is equal to it. *)
Lemma others_differ key xs z ys : sorted ops (xs ++ z :: ys) → compare ops key (e_key z) = 0 →
  ∀ x, x ∈ xs ++ ys → (compare ops key (e_key x) =? 0) = false.
Proof.
  intros (_ & (_ & Hy)%sorted_cons & Hx)%sorted_app Hz x Hin. apply Z.eqb_neq. intros Hk.
  pose proof (cmp_eq_l ops _ _ (e_key x) Hz) as Hs. rewrite Hk in Hs. apply elem_of_app in Hin as [Hin|Hin].
  - specialize (Hx x z Hin (list_elem_of_here _ _)). unfold before in Hx. apply compare_antisym in Hx. lia.
  - specialize (Hy x Hin). unfold before in Hy. lia.
Qed.

Lemma remove_split key xs z ys : sorted ops (xs ++ z :: ys) → compare ops key (e_key z) = 0 →
  remove ops key (pair_of <$> xs ++ z :: ys) = pair_of <$> xs ++ ys.
Proof.
  intros Hs Hz. pose proof (others_differ _ _ _ _ Hs Hz) as Ho. clear Hs. induction xs as [|x xs IH]; csimpl.
  - rewrite Hz. csimpl. simpl in Ho. induction ys as [|y ys IH]; [done|]. csimpl. rewrite (Ho y) by (by left). csimpl. f_equal.
    apply IH. intros b Hb. apply Ho. by right.
  - rewrite (Ho x) by (by left). csimpl. f_equal. apply IH. intros b Hb. apply Ho. by right.
Qed.

Lemma assign_split key v xs z ys : sorted ops (xs ++ z :: ys) → compare ops key (e_key z) = 0 →
  assign ops key v (pair_of <$> xs ++ z :: ys) = pair_of <$> xs ++ Entry (e_addr z) (e_key z) v :: ys.
Proof.
  intros Hs Hz. pose proof (others_differ _ _ _ _ Hs Hz) as Ho. clear Hs. unfold assign. rewrite <- list_fmap_compose, !fmap_app.
  simpl. rewrite Hz. simpl. f_equal; [|f_equal]; apply list_fmap_ext; intros i x Hx%list_elem_of_lookup_2; simpl;
    rewrite Ho; try done; apply elem_of_app; auto.
Qed.

Lemma iterate_key na m t : Good ops na m t → iterate m (map_iterator_key m) = Some ((λ kv, Some kv.1) <$> (pair_of <$> elements t)).
Proof.
  intros HG. rewrite (iterate_rep na m t _ (λ e, Some (e_key e))); [by rewrite <- list_fmap_compose|by destruct HG|].
  intros e He. destruct (Good_focus ops _ _ _ _ HG He) as (C & c & l & r & HR & _).
  unfold map_iterator_key, map_iterator_valid. pose proof (Rep_is_nil _ _ _ _ HR) as Hn. cbn [root_ptr] in Hn. rewrite Hn.
  simpl. by rewrite (Rep_load _ _ _ _ _ _ _ HR).
Qed.

Lemma iterate_value na m t : Good ops na m t → iterate m (map_iterator_value m) = Some ((λ kv, Some kv.2) <$> (pair_of <$> elements t)).
Proof.
  intros HG. rewrite (iterate_rep na m t _ (λ e, Some (e_value e))); [by rewrite <- list_fmap_compose|by destruct HG|].
  intros e He. destruct (Good_focus ops _ _ _ _ HG He) as (C & c & l & r & HR & _).
  unfold map_iterator_value, map_iterator_valid. pose proof (Rep_is_nil _ _ _ _ HR) as Hn. cbn [root_ptr] in Hn. rewrite Hn.
  simpl. by rewrite (Rep_load _ _ _ _ _ _ _ HR).
Qed.

Lemma map_find_rep na m t key : Good ops na m t →
  map_find ops m key = Some (e_value <$> find_entry ops key (elements t)).
Proof.
  intros HG. unfold map_find. rewrite (map_find_node_rep ops _ _ _ _ HG). destruct (find_entry _ _ _) as [e|] eqn:Ef; go.
  - apply find_entry_in in Ef as [He _]. destruct (Good_focus ops _ _ _ _ HG He) as (C & c & l & r & HR & _).
    pose proof (Rep_is_nil _ _ _ _ HR) as Hn. cbn [root_ptr] in Hn. rewrite Hn. by rewrite (Rep_load _ _ _ _ _ _ _ HR).
  - destruct HG as [[Hn _ _ _ _] _ _ _ _ _]. unfold is_nil. by rewrite Hn, eqp_refl.
Qed.

Lemma map_contains_rep na m t key : Good ops na m t →
  map_contains ops m key = Some (bool_decide (is_Some (find_entry ops key (elements t)))).
Proof.
  intros HG. unfold map_contains. rewrite (map_find_node_rep ops _ _ _ _ HG). destruct (find_entry _ _ _) as [e|] eqn:Ef; go.
  - apply find_entry_in in Ef as [He _]. destruct (Good_focus ops _ _ _ _ HG He) as (C & c & l & r & HR & _).
    pose proof (Rep_is_nil _ _ _ _ HR) as Hn. cbn [root_ptr] in Hn. by rewrite Hn.
  - destruct HG as [[Hn _ _ _ _] _ _ _ _ _]. unfold is_nil. by rewrite Hn, eqp_refl.
Qed.

(** The cases of an insertion. *)
Lemma map_insert_cases na m t key v : Good ops na m t →
  match find_entry ops key (elements t), malloc (m_nodes m) with
  | Some _, _ => map_insert ops malloc m key v = Some (0, m)
  | None, None => map_insert ops malloc m key v = Some (-1, m)
  | None, Some _ => ∃ m' t', map_insert ops malloc m key v = Some (1, m') ∧ Good ops na m' t' ∧ m_released m' = m_released m ∧
      pair_of <$> elements t' = place ops (copied_key ops key) (copied_value ops v) (pair_of <$> elements t)
  end.
Proof.
  intros HG. destruct (find_entry ops key (elements t)) as [e|] eqn:Ef; [|destruct (malloc (m_nodes m)) as [a|] eqn:Em].
  - unfold map_insert. rewrite (map_find_node_rep ops _ _ _ _ HG), Ef. go. apply find_entry_in in Ef as [He _].
    destruct (Good_focus ops _ _ _ _ HG He) as (C & c & l & r & HR & _). pose proof (Rep_is_nil _ _ _ _ HR) as Hn.
    cbn [root_ptr] in Hn. by rewrite Hn.
  - destruct (map_insert_new ops malloc malloc_fresh _ _ _ _ _ v HG Ef Em) as (m' & t' & xs & ys & Hm & HG' & Hr & Ht & Ht').
    exists m', t'. split_and!; [done..|]. rewrite Ht, Ht'. destruct HG' as [_ _ _ Hs _ _]. rewrite Ht' in Hs.
    apply sorted_app in Hs as (_ & (_ & Hy)%sorted_cons & Hx). rewrite place_split; [by rewrite fmap_app| |by apply Hy].
    intros x Hin. exact (Hx x _ Hin (list_elem_of_here _ _)).
  - unfold map_insert. rewrite (map_find_node_rep ops _ _ _ _ HG), Ef. go. destruct HG as [[Hn _ _ _ _] _ _ _ _ _].
    unfold is_nil. rewrite Hn, eqp_refl. simpl. unfold map_create_node. by rewrite Em.
Qed.

Lemma map_insert_or_assign_new m key v na t : Good ops na m t → find_entry ops key (elements t) = None →
  map_insert_or_assign ops malloc m key v = map_insert ops malloc m key v.
Proof.
  intros HG Ef. unfold map_insert_or_assign. rewrite (map_find_node_rep ops _ _ _ _ HG), Ef. go.
  destruct HG as [[Hn _ _ _ _] _ _ _ _ _]. unfold is_nil. by rewrite Hn, eqp_refl.
Qed.

(** A call that was answered as specified. *)
Definition agrees m s (c : map_call K V) : Prop :=
  ∃ a m' s', run_call ops malloc m c = Some (a, m') ∧
    spec_call ops (bool_decide (is_Some (malloc (m_nodes m)))) s c = (a, s') ∧ Holds m' s'.

Lemma bind_free_pair (es : list (entry K V)) : (pair_of <$> es) ≫= free_pair ops = es ≫= frees ops.
Proof. induction es as [|e es IH]; [done|]. csimpl. by rewrite IH. Qed.

Lemma insert_agrees m s key v : Holds m s → agrees m s (Insert key v).
Proof.
  intros [(na & t & HG & Hl) Hrel]. pose proof (map_insert_cases _ _ _ key v HG) as Hc.
  unfold agrees. cbn [spec_call run_call]. rewrite Hl, lookup_pair_entry.
  destruct (find_entry ops key (elements t)) as [e|]; [|destruct (malloc (m_nodes m)) as [a|]].
  - rewrite Hc. exists (Code 0), m, s. split_and!; [done..|]. split; [by exists na, t|done].
  - destruct Hc as (m' & t' & -> & HG' & Hr & Ht'). do 3 eexists. split_and!; [done..|]. split; simpl; [by exists na, t'|by rewrite Hr].
  - rewrite Hc. exists (Code (-1)), m, s. split_and!; [done..|]. split; [by exists na, t|done].
Qed.

Lemma assign_agrees m s key v : Holds m s → agrees m s (Assign key v).
Proof.
  intros Hh. pose proof (insert_agrees _ _ key v Hh) as Hins. destruct Hh as [(na & t & HG & Hl) Hrel].
  unfold agrees in *. cbn [spec_call run_call] in *. rewrite Hl, lookup_pair_entry in *.
  destruct (find_entry ops key (elements t)) as [z|] eqn:Ef.
  - destruct (map_insert_or_assign_found ops malloc _ _ _ _ v _ HG Ef) as (m' & t' & xs & ys & -> & HG' & Hr & Ht & Ht').
    pose proof (find_entry_in _ _ _ _ Ef) as [_ Hk]. do 3 eexists. split_and!; [done..|]. split; simpl.
    + exists na, t'. split; [done|]. rewrite Ht, Ht'. apply assign_split; [|done]. destruct HG as [_ _ _ Hs _ _]. by rewrite Ht in Hs.
    + by rewrite Hr, Hrel.
  - by rewrite (map_insert_or_assign_new _ _ _ _ _ HG Ef).
Qed.

Lemma erase_agrees m s key : Holds m s → agrees m s (Erase key).
Proof.
  intros [(na & t & HG & Hl) Hrel]. unfold agrees. cbn [spec_call run_call]. rewrite Hl, lookup_pair_entry.
  destruct (find_entry ops key (elements t)) as [z|] eqn:Ef.
  - destruct (map_erase_found ops malloc malloc_fresh _ _ _ _ _ HG Ef) as (m' & t' & xs & ys & -> & HG' & Hr & Ht & Ht').
    pose proof (find_entry_in _ _ _ _ Ef) as [_ Hk]. do 3 eexists. split_and!; [done..|]. split; simpl.
    + exists na, t'. split; [done|]. rewrite Ht, Ht'. apply remove_split; [|done]. destruct HG as [_ _ _ Hs _ _]. by rewrite Ht in Hs.
    + by rewrite Hr, Hrel.
  - unfold map_erase. rewrite (map_find_node_rep ops _ _ _ _ HG), Ef. go. pose proof HG as [[Hn _ _ _ _] _ _ _ _ _].
    unfold is_nil. rewrite Hn, eqp_refl. go. exists (Bool false), m, s. split_and!; [done..|]. split; [by exists na, t|done].
Qed.

Lemma call_agrees m s c : Holds m s → agrees m s c.
Proof.
  destruct c as [key v|key v|key|key|key| | | |]; [apply insert_agrees|apply assign_agrees|apply erase_agrees|..];
    intros Hh; pose proof Hh as [(na & t & HG & Hl) Hrel]; unfold agrees; cbn [spec_call run_call].
  - rewrite Hl, lookup_pair_entry, (map_find_rep _ _ _ _ HG). go. do 3 eexists. split_and!; [done| |exact Hh].
    by destruct (find_entry _ _ _).
  - rewrite Hl, lookup_pair_entry, (map_contains_rep _ _ _ _ HG). go. do 3 eexists. split_and!; [done| |exact Hh].
    do 2 f_equal. apply bool_decide_ext. apply fmap_is_Some.
  - do 3 eexists. split_and!; [done| |exact Hh]. destruct HG as [_ _ _ _ -> _]. rewrite Hl. unfold zlen. by rewrite length_fmap.
  - rewrite (iterate_key _ _ _ HG), <- Hl. go. by do 3 eexists.
  - rewrite (iterate_value _ _ _ HG), <- Hl. go. by do 3 eexists.
  - destruct (map_clear_rep ops malloc malloc_fresh _ _ _ HG) as (m' & es & -> & HG' & Hes & Hr). go. do 3 eexists. split_and!; [done..|]. split; simpl.
    + by exists na, E.
    + rewrite Hr, Hl, bind_free_pair, Hrel, Hes. done.
Qed.

Lemma calls_agree cs m s : Holds m s →
  ∃ la m' s' oks, run_calls ops malloc m cs = Some (la, m') ∧ length oks = length cs ∧
    spec_calls ops s (zip oks cs) = (la, s') ∧ Holds m' s' ∧ ((∀ h, is_Some (malloc h)) → Forall (eq true) oks).
Proof.
  revert m s. induction cs as [|c cs IH]; intros m s Hh; [by exists [], m, s, []|].
  destruct (call_agrees _ _ c Hh) as (a & m1 & s1 & Hr & Hs & Hh1).
  destruct (IH _ _ Hh1) as (la & m2 & s2 & oks & Hr2 & Hlen & Hs2 & Hh2 & Hok).
  exists (a :: la), m2, s2, (bool_decide (is_Some (malloc (m_nodes m))) :: oks). 
  change (zip (bool_decide (is_Some (malloc (m_nodes m))) :: oks) (c :: cs)) with ((bool_decide (is_Some (malloc (m_nodes m))), c) :: zip oks cs). cbn [run_calls spec_calls].
  rewrite Hr. go. rewrite Hr2. go. rewrite Hs, Hs2. split_and!; [done|by simpl; f_equal|done|done|].
  intros Hm. constructor; [|by apply Hok]. symmetry. apply bool_decide_eq_true, Hm.
Qed.

Lemma created_holds m : map_create_ex malloc = Some m → Holds m (Pairs [] []).
Proof.
  intros Hm. pose proof (map_create_ex_rep ops malloc malloc_fresh) as Hc. destruct (malloc ∅) as [na|] eqn:Ea.
  - destruct Hc as (m' & Hm' & HG). rewrite Hm in Hm'. injection Hm' as <-. split; [by exists na, E|].
    unfold map_create_ex in Hm. rewrite Ea in Hm. by injection Hm as <-.
  - congruence.
Qed.

(** The pairs are in strict order of their keys. *)
Lemma Holds_sorted m s : Holds m s → StronglySorted (λ p q, compare ops p.1 q.1 < 0) (p_list s).
Proof.
  intros [(na & t & [_ _ _ Hs _ _] & ->) _]. unfold sorted in Hs. induction Hs as [|e es Hs IH Hall]; [constructor|].
  csimpl. constructor; [done|]. apply Forall_fmap. exact Hall.
Qed.

Lemma map_free_holds m s : Holds m s →
  ∃ rl, map_free ops m = Some rl ∧ rl ≡ₚ p_released s ++ (p_list s ≫= free_pair ops).
Proof.
  intros [(na & t & HG & Hl) Hrel]. destruct (map_clear_rep ops malloc malloc_fresh _ _ _ HG) as (m' & es & Hm & HG' & Hes & Hr).
  unfold map_free. rewrite Hm. go. destruct HG' as [[-> [q Hq] _ _ _] _ _ _ _ _]. go. rewrite Hq. go. eexists. split; [done|].
  by rewrite Hr, Hl, bind_free_pair, Hrel, Hes.
Qed.

(** ** Height *)

Lemma rb_size n t : rb n t → (2 ^ n <= length (elements t) + 1)%nat.
Proof.
  induction 1; simpl; rewrite ?length_app; simpl; lia.
Qed.

Lemma rb_height n t : rb n t → (height t <= 2 * n + (if is_red (color t) then 1 else 0))%nat.
Proof.
  induction 1 as [|n l e r Hl IHl Hr IHr Hcl Hcr|n l e r Hl IHl Hr IHr]; cbn [height color].
  - lia.
  - rewrite Hcl in IHl. rewrite Hcr in IHr. change (is_red MAP_BLACK) with false in IHl, IHr. change (is_red MAP_RED) with true.
    cbv iota in *. lia.
  - change (is_red MAP_BLACK) with false. destruct (is_red (color l)), (is_red (color r)); lia.
Qed.

Lemma Holds_height m s : Holds m s →
  ∃ na t, Good ops na m t ∧ (height t <= 2 * Nat.log2 (length (p_list s) + 1))%nat.
Proof.
  intros [(na & t & HG & ->) _]. exists na, t. split; [done|]. pose proof HG as [_ [n Hrb] Hroot _ _ _]. rewrite length_fmap.
  pose proof (rb_height _ _ Hrb) as Hh. rewrite Hroot in Hh. change (is_red MAP_BLACK) with false in Hh. cbv iota in Hh.
  assert (n <= Nat.log2 (length (elements t) + 1))%nat; [|lia]. apply Nat.log2_le_pow2; [lia|]. by apply rb_size.
Qed.

(** ** The properties *)

(** C21: From a fresh map, any sequence of insertions, assignments, erasures, lookups,
    iterations and clears terminates without touching NULL or freed memory, and answers as
    the same calls on a list of pairs kept sorted by key: an insertion is refused exactly when
    the key is there (0) or memory is out (-1), which cannot happen if [malloc] never fails.
    The tree stays a red-black tree holding the list, and when the map is freed every
    key and value stored has been given to its free callback exactly once. *)
Theorem map_refines_sorted_list m cs : map_create_ex malloc = Some m →
  ∃ la m' s oks rl, run_calls ops malloc m cs = Some (la, m') ∧
    length oks = length cs ∧ spec_calls ops (Pairs [] []) (zip oks cs) = (la, s) ∧
    ((∀ h, is_Some (malloc h)) → Forall (eq true) oks) ∧
    Holds m' s ∧ StronglySorted (λ p q, compare ops p.1 q.1 < 0) (p_list s) ∧
    map_free ops m' = Some rl ∧ rl ≡ₚ p_released s ++ (p_list s ≫= free_pair ops).
Proof.
  intros Hm. destruct (calls_agree cs m _ (created_holds _ Hm)) as (la & m' & s & oks & Hr & Hlen & Hs & Hh & Hok).
  destruct (map_free_holds _ _ Hh) as (rl & Hf & Hp). exists la, m', s, oks, rl.
  split_and!; [done..|by eapply Holds_sorted|done|done].
Qed.

(** However the map was filled, a lookup among [n] keys ends within
    [2 log2 (n + 1)] comparisons, and so does the walk that places a new key. *)
Theorem map_lookup_logarithmic m cs la m' key : map_create_ex malloc = Some m →
  run_calls ops malloc m cs = Some (la, m') →
  let turns := S (2 * Nat.log2 (Z.to_nat (m_size m') + 1)) in
  is_Some (find_loop ops turns m' key (m_root m')) ∧
  find_loop ops turns m' key (m_root m') = map_find_node ops m' key ∧
  (map_contains ops m' key = Some false → is_Some (insert_walk ops turns m' key (m_nil m') (m_root m'))).
Proof.
  intros Hm Hr turns. destruct (calls_agree cs m _ (created_holds _ Hm)) as (la' & m1 & s & oks & Hr' & _ & _ & Hh & _).
  rewrite Hr in Hr'. injection Hr' as <- <-. destruct (Holds_height _ _ Hh) as (na & t & HG & Hlen).
  pose proof (map_find_node_rep ops _ _ _ key HG) as Hf. rewrite Hf. pose proof HG as [HR _ _ Hs Hsz _].
  assert (height t < turns)%nat as Ht.
  { unfold turns. destruct Hh as [(na' & t' & HG' & Hl) _]. rewrite Hl, length_fmap in Hlen. destruct HG' as [_ _ _ _ Hsz' _].
    rewrite Hsz'. unfold zlen. rewrite Nat2Z.id. lia. }
  rewrite (Rep_root _ _ _ _ HR). cbn [plug]. rewrite (find_loop_rep ops _ _ _ [] t key HR Hs Ht). split_and!; [done..|].
  intros Hnc. rewrite (map_contains_rep _ _ _ _ HG) in Hnc. injection Hnc as Hnc%bool_decide_eq_false.
  destruct (insert_walk_rep ops turns na m' [] t key HR Hs Ht) as (C & Hw & _).
  { apply eq_None_not_Some. exact Hnc. } { by intros ? ?%elem_of_nil. } { by intros ? ?%elem_of_nil. }
  cbn [c_parent] in Hw. destruct HR as [-> _ _ _ _]. by rewrite Hw.
Qed.

Lemma extreme_last fuel na m t : Rep na m [] t → t ≠ E → (height t <= fuel)%nat →
  ∃ e, last (elements t) = Some e ∧ extreme false fuel m (root_ptr na t) = Some (Some (e_addr e)).
Proof.
  intros HR Hne Hh. destruct t as [|c l e r]; [done|]. cbn [root_ptr].
  destruct (extreme_rep false fuel na m [] c r e l HR Hh) as (D & c' & e' & r' & -> & Hp & Hc & _).
  apply (f_equal elements) in Hp. rewrite !elements_plug in Hp. rewrite app_nil_r in Hc. unfold c_side in Hc.
  assert (c_right D = []) as HD by (apply (f_equal reverse) in Hc; by rewrite reverse_involutive in Hc).
  exists e'. split; [|done]. change (elements (T c l e r)) with (c_left [] ++ elements (T c l e r)).
  rewrite <- (app_nil_r (elements (T c l e r))). cbn [plug node] in Hp. rewrite app_nil_r in Hp.
  change [] with (c_right (K:=K) (V:=V) []) at 2. rewrite <- Hp, HD. simpl. rewrite !app_nil_r, app_assoc. apply last_snoc.
Qed.

(** Any number of turns from the sentinel ends in NULL. *)
Lemma maximum_of_sentinel fuel na m q : m_nil m = Some na → m_nodes m !! na = Some (nil_cell q) →
  right_of m (Some na) = Some None ∧ maximum_loop fuel m (Some na) = None.
Proof.
  intros Hn Hs. unfold right_of. split; [by rewrite (load_some _ _ _ Hs)|]. destruct fuel as [|[|fuel]]; cbn [maximum_loop]; [done|..];
    unfold right_of; rewrite (load_some _ _ _ Hs); simpl; unfold is_nil; by rewrite Hn, eqp_ne.
Qed.

(** Stepping back from the end of a non-empty map ([map_prev] of [map_end]) reaches the
    last key of the iteration. On an empty map it follows the right link of the sentinel,
    which is NULL, and reads through it: no number of turns gives a result. *)
Theorem map_prev_of_end m cs la m' : map_create_ex malloc = Some m →
  run_calls ops malloc m cs = Some (la, m') →
  (m_size m' ≠ 0 → ∃ it ks ko, map_prev m' (map_end m') = Some it ∧
     iterate m' (map_iterator_key m') = Some ks ∧ last ks = Some ko ∧ map_iterator_key m' it = Some ko) ∧
  (m_size m' = 0 → right_of m' (m_root m') = Some None ∧ map_prev m' (map_end m') = None ∧
     ∀ fuel, maximum_loop fuel m' (m_root m') = None).
Proof.
  intros Hm Hr. destruct (calls_agree cs m _ (created_holds _ Hm)) as (la' & m1 & s & oks & Hr' & _ & _ & Hh & _).
  rewrite Hr in Hr'. injection Hr' as <- <-. destruct Hh as [(na & t & HG & _) _]. pose proof HG as [HR _ _ _ -> _].
  unfold map_prev, map_end. pose proof HR as [Hn [q Hs] _ _ _].
  unfold is_nil. rewrite Hn, eqp_refl, (Rep_root _ _ _ _ HR). cbn [plug]. change (eqp (Some na) None) with false. cbv iota.
  unfold map_maximum. destruct t as [|c l e r].
  { split; [done|intros _]. cbn [root_ptr]. split_and!; intros; by eapply maximum_of_sentinel. }
  split; [intros _|unfold zlen; simpl; rewrite length_app; simpl; lia]. rewrite maximum_extreme.
  pose proof (Rep_depth _ _ _ _ HR). destruct (extreme_last (turns m') na m' (T c l e r) HR) as (e' & Hl & ->); [done|lia|].
  exists (Some (e_addr e')). do 2 eexists. rewrite (iterate_key _ _ _ HG). split_and!; [done..|by rewrite !fmap_last, Hl|].
  destruct (Good_focus ops _ _ _ e' HG) as (C & c' & l' & r' & HRe & _); [by eapply last_Some_elem_of|].
  unfold map_iterator_key, map_iterator_valid. pose proof (Rep_is_nil _ _ _ _ HRe) as Hn'. cbn [root_ptr] in Hn'. rewrite Hn'.
  simpl. by rewrite (Rep_load _ _ _ _ _ _ _ HRe).
Qed.
End Refine.

(** ** Witnesses: a map from numbers to numbers *)

Definition int_ops : map_ops Z Z := MapOps map_compare_int None true None true.
Definition int_malloc (h : gmap nat (map_node Z Z)) : option nat := Some (fresh (dom h)).

#[export] Instance int_ops_laws : MapLaws int_ops.
Proof.
  split; simpl; unfold map_compare_int; intros; repeat case_match; rewrite ?Z.ltb_lt, ?Z.ltb_ge in *; try done; lia.
Qed.

Lemma int_malloc_fresh h a : int_malloc h = Some a → h !! a = None.
Proof. intros [= <-]. apply not_elem_of_dom, is_fresh. Qed.

Definition int_map : map Z Z := Map (Some 0%nat) (Some 0%nat) 0 {[ 0%nat := MapNode None None None None None MAP_BLACK ]} [].
Definition int_calls : list (map_call Z Z) :=
  [Insert 5 50; Insert 3 30; Insert 8 80; Insert 3 31; Assign 8 81; Erase 5; Insert 1 10; Find 8; Contains 5; Keys].
Definition int_answers : list (map_answer Z Z) :=
  [Code 1; Code 1; Code 1; Code 0; Code 2; Bool true; Code 1; Found (Some 81); Bool false; KeyList [Some 1; Some 3; Some 8]].

Lemma map_refines_sorted_list_witness :
  map_create_ex int_malloc = Some int_map ∧
  ∃ la m' s oks rl, run_calls int_ops int_malloc int_map int_calls = Some (la, m') ∧
    length oks = length int_calls ∧ spec_calls int_ops (Pairs [] []) (zip oks int_calls) = (la, s) ∧
    ((∀ h, is_Some (int_malloc h)) → Forall (eq true) oks) ∧
    Holds int_ops m' s ∧ StronglySorted (λ p q, compare int_ops p.1 q.1 < 0) (p_list s) ∧
    map_free int_ops m' = Some rl ∧ rl ≡ₚ p_released s ++ (p_list s ≫= free_pair int_ops).
Proof. split; [reflexivity|]. by apply (map_refines_sorted_list int_ops int_malloc int_malloc_fresh int_map int_calls). Defined.

Definition int_final : map Z Z :=
  match run_calls int_ops int_malloc int_map int_calls with Some (_, m) => m | None => int_map end.

Lemma map_lookup_logarithmic_witness :
  m_size int_final = 3 ∧
  let turns := S (2 * Nat.log2 (Z.to_nat (m_size int_final) + 1)) in
  is_Some (find_loop int_ops turns int_final 8 (m_root int_final)) ∧
  find_loop int_ops turns int_final 8 (m_root int_final) = map_find_node int_ops int_final 8 ∧
  (map_contains int_ops int_final 8 = Some false →
     is_Some (insert_walk int_ops turns int_final 8 (m_nil int_final) (m_root int_final))).
Proof.
  split; [vm_compute; reflexivity|].
  apply (map_lookup_logarithmic int_ops int_malloc int_malloc_fresh int_map int_calls int_answers int_final 8); [reflexivity|].
  vm_compute. reflexivity.
Defined.

Lemma map_prev_of_end_witness :
  m_size int_final = 3 ∧
  (m_size int_final ≠ 0 → ∃ it ks ko, map_prev int_final (map_end int_final) = Some it ∧
     iterate int_final (map_iterator_key int_final) = Some ks ∧ last ks = Some ko ∧
     map_iterator_key int_final it = Some ko) ∧
  (m_size int_final = 0 → right_of int_final (m_root int_final) = Some None ∧
     map_prev int_final (map_end int_final) = None ∧
     ∀ fuel, maximum_loop fuel int_final (m_root int_final) = None).
Proof.
  split; [vm_compute; reflexivity|].
  apply (map_prev_of_end int_ops int_malloc int_malloc_fresh int_map int_calls int_answers int_final); [reflexivity|].
  vm_compute. reflexivity.
Defined.
