(* ===== verification/RateLimiter.v ===== *)
(** The rate limiter of [src/ratelimiter/ratelimiter.c]: a token bucket per client
    address, in an ordered map.

    Buckets live in a heap of their own; the map holds pointers to them, and erasing a key
    frees the bucket. The map is used through the interface [OrderedMap]. [clock i] is the
    [i]-th reading of the monotonic clock. A lock that is taken is waited for without end,
    which is [None] when there is nobody else to release it. *)

From stdpp Require Export gmap.
From S2P Require Import Prelude.

#[global] Open Scope Z_scope.

(** ** The map as the limiter uses it *)

(** Erasing also gives the values handed to the free callback. *)
Class OrderedMap (V M : Type) : Type := {
  om_create : option M;
  om_find : M → Z → option (option V);
  om_insert : M → Z → V → option (Z * M);
  om_erase : M → Z → option (list V * M);
  om_values : M → option (list V);
  om_free : M → option (list V) }.

(** What it promises, in terms of the finite map it stands for. *)
Class OrderedMapLaws (V M : Type) `{OrderedMap V M} : Type := {
  om_holds : M → gmap Z V → Prop;
  om_create_ok m : om_create = Some m → om_holds m ∅;
  om_find_ok m g k : om_holds m g → om_find m k = Some (g !! k);
  om_insert_ok m g k v : om_holds m g → g !! k = None →
    om_insert m k v = Some (-1, m) ∨ ∃ m', om_insert m k v = Some (1, m') ∧ om_holds m' (<[k := v]> g);
  om_erase_ok m g k v : om_holds m g → g !! k = Some v →
    ∃ m', om_erase m k = Some ([v], m') ∧ om_holds m' (delete k g);
  om_values_ok m g : om_holds m g → ∃ vs, om_values m = Some vs ∧ vs ≡ₚ snd <$> map_to_list g;
  om_free_ok m g : om_holds m g → ∃ vs, om_free m = Some vs ∧ vs ≡ₚ snd <$> map_to_list g }.

(** ** Data *)

Record ratelimiter_config : Type := Config {
  max_tokens : Z;
  refill_rate : Z;
  time_window_ns : Z;
  cleanup_interval_s : Z }.

Record bucket : Type := Bucket {
  b_ip : Z;
  tokens : Z;
  last_refill_ns : Z;
  last_access_ns : Z;
  locked : bool }.

(** [ticks] counts the clock readings so far; [b_heap] are the live buckets. *)
Record limiter (M : Type) : Type := Limiter {
  config : ratelimiter_config;
  buckets : M;
  seq : Z;
  write_lock : bool;
  last_cleanup_ns : Z;
  b_heap : gmap nat bucket;
  ticks : nat }.
#[global] Arguments Limiter {M}.
#[global] Arguments config {M}.
#[global] Arguments buckets {M}.
#[global] Arguments seq {M}.
#[global] Arguments write_lock {M}.
#[global] Arguments last_cleanup_ns {M}.
#[global] Arguments b_heap {M}.
#[global] Arguments ticks {M}.

Definition compare_ip (a b : Z) : Z := if a <? b then -1 else if b <? a then 1 else 0.

Section Limiter.
Context {M : Type} `{!OrderedMap nat M}.
Variable clock : nat → Z.
(** [malloc] of a bucket, and of the array of addresses to delete. *)
Variable malloc_bucket : gmap nat bucket → option nat.
Variable malloc_ips : Z → bool.
Implicit Types (l : limiter M) (b : bucket) (p : nat) (ip now : Z).

Definition with_buckets l (m : M) : limiter M :=
  Limiter (config l) m (seq l) (write_lock l) (last_cleanup_ns l) (b_heap l) (ticks l).
Definition with_seqlock l (s : Z) (w : bool) : limiter M :=
  Limiter (config l) (buckets l) s w (last_cleanup_ns l) (b_heap l) (ticks l).
Definition with_cleanup l now : limiter M :=
  Limiter (config l) (buckets l) (seq l) (write_lock l) now (b_heap l) (ticks l).
Definition with_heap l (h : gmap nat bucket) : limiter M :=
  Limiter (config l) (buckets l) (seq l) (write_lock l) (last_cleanup_ns l) h (ticks l).

Definition ratelimiter_get_time_ns l : Z * limiter M :=
  (clock (ticks l),
   Limiter (config l) (buckets l) (seq l) (write_lock l) (last_cleanup_ns l) (b_heap l) (S (ticks l))).

Definition set_tokens b (t : Z) : bucket := Bucket (b_ip b) t (last_refill_ns b) (last_access_ns b) (locked b).
Definition set_refill b (t now : Z) : bucket := Bucket (b_ip b) t now (last_access_ns b) (locked b).
Definition set_access b now : bucket := Bucket (b_ip b) (tokens b) (last_refill_ns b) now (locked b).
Definition set_locked b (f : bool) : bucket := Bucket (b_ip b) (tokens b) (last_refill_ns b) (last_access_ns b) f.

Definition put l p b : limiter M := with_heap l (<[p := b]> (b_heap l)).

(** ** Locks *)

(** An odd [seq] is waited for. *)
Definition seqlock_read_begin l : option Z := if Z.odd (seq l) then None else Some (seq l).
Definition seqlock_read_retry l (start_seq : Z) : bool := negb (seq l =? start_seq).

Definition seqlock_write_lock l : option (limiter M) :=
  if write_lock l then None else Some (with_seqlock l (wrap64 (seq l + 1)) true).
Definition seqlock_write_unlock l : limiter M := with_seqlock l (wrap64 (seq l + 1)) false.

Definition spinlock_lock l p : option (limiter M) :=
  b ← b_heap l !! p; if locked b then None else Some (put l p (set_locked b true)).
Definition spinlock_unlock l p : option (limiter M) :=
  b ← b_heap l !! p; Some (put l p (set_locked b false)).

(** ** Buckets *)

Definition bucket_create l ip (initial_tokens : Z) : option (nat * limiter M) :=
  match malloc_bucket (b_heap l) with
  | None => None
  | Some p =>
      let (refill, l) := ratelimiter_get_time_ns l in
      let (access, l) := ratelimiter_get_time_ns l in
      Some (p, put l p (Bucket ip initial_tokens refill access false))
  end.

Definition bucket_refill l p : option (limiter M) :=
  let (now, l) := ratelimiter_get_time_ns l in
  b ← b_heap l !! p;
  let elapsed_ns := wrap64 (now - last_refill_ns b) in
  let tokens_to_add := wrap64 (elapsed_ns * refill_rate (config l)) / 1000000000 in
  if 0 <? tokens_to_add then
    let current_tokens := wrap32 (tokens b) in
    let new_tokens := wrap32 (current_tokens + wrap32 tokens_to_add) in
    let new_tokens := if max_tokens (config l) <? new_tokens then max_tokens (config l) else new_tokens in
    Some (put l p (set_refill b new_tokens now))
  else Some l.

(** A reader with nobody writing does not retry. *)
Definition find_bucket_lockfree l ip : option (option nat) :=
  seq ← seqlock_read_begin l;
  p ← om_find (buckets l) ip;
  if seqlock_read_retry l seq then None else Some p.

Definition find_or_create_bucket l ip : option (option nat * limiter M) :=
  p ← find_bucket_lockfree l ip;
  match p with
  | Some p => Some (Some p, l)
  | None =>
      l ← seqlock_write_lock l;
      p ← om_find (buckets l) ip;
      match p with
      | Some p => Some (Some p, seqlock_write_unlock l)
      | None =>
          match bucket_create l ip (max_tokens (config l)) with
          | None => Some (None, seqlock_write_unlock l)
          | Some (p, l) =>
              '(_, m) ← om_insert (buckets l) ip p;
              Some (Some p, seqlock_write_unlock (with_buckets l m))
          end
      end
  end.

(** ** Cleanup *)

Definition stale l now (interval : Z) p : option bool :=
  b ← b_heap l !! p; Some (interval <? wrap64 (now - last_access_ns b)).

(** The addresses of the idle buckets, as both loops over the map collect them. *)
Fixpoint stale_ips l now (interval : Z) (ps : list nat) : option (list Z) :=
  match ps with
  | [] => Some []
  | p :: ps' =>
      s ← stale l now interval p;
      b ← b_heap l !! p;
      ips ← stale_ips l now interval ps';
      Some (if (s : bool) then b_ip b :: ips else ips)
  end.

Definition map_erase_bucket l ip : option (limiter M) :=
  '(ps, m) ← om_erase (buckets l) ip;
  Some (with_heap (with_buckets l m) (foldr delete (b_heap l) ps)).

Fixpoint erase_all l (ips : list Z) : option (limiter M) :=
  match ips with [] => Some l | ip :: ips' => l ← map_erase_bucket l ip; erase_all l ips' end.

Definition cleanup_old_buckets l : option (limiter M) :=
  let (now, l) := ratelimiter_get_time_ns l in
  let last_cleanup := last_cleanup_ns l in
  let cleanup_interval_ns := cleanup_interval_s (config l) * 1000000000 in
  if wrap64 (now - last_cleanup) <? cleanup_interval_ns then Some l
  else if negb (last_cleanup_ns l =? last_cleanup) then Some l
  else
    let l := with_cleanup l now in
    l ← seqlock_write_lock l;
    ps ← om_values (buckets l);
    ips ← stale_ips l now cleanup_interval_ns ps;
    let to_delete_count := zlen ips in
    l ← (if 0 <? to_delete_count then
           if malloc_ips (to_delete_count * 4) then
             ps ← om_values (buckets l);
             ips_to_delete ← stale_ips l now cleanup_interval_ns ps;
             erase_all l ips_to_delete
           else Some l
         else Some l);
    Some (seqlock_write_unlock l).

(** ** The interface *)

Definition ratelimiter_init (c : ratelimiter_config) (readings : nat) : option (limiter M) :=
  m ← om_create;
  Some (Limiter c m 0 false (clock readings) ∅ (S readings)).

(** What is left on the heap after the limiter is freed. *)
Definition ratelimiter_free l : option (gmap nat bucket) :=
  ps ← om_free (buckets l); Some (foldr delete (b_heap l) ps).

(** Under the lock of the bucket: refill it and take the tokens if they are there. *)
Definition take_tokens l p (tokens_required : Z) : option (bool * limiter M) :=
  l ← spinlock_lock l p;
  l ← bucket_refill l p;
  let (now, l) := ratelimiter_get_time_ns l in
  b ← b_heap l !! p;
  let b := set_access b now in
  let current_tokens := wrap32 (tokens b) in
  let '(allowed, b) := if tokens_required <=? current_tokens
                       then (true, set_tokens b (current_tokens - tokens_required))
                       else (false, b) in
  l ← spinlock_unlock (put l p b) p;
  Some (allowed, l).

Definition ratelimiter_allow l ip (tokens_required : Z) : option (bool * limiter M) :=
  l ← cleanup_old_buckets l;
  if refill_rate (config l) =? 0 then Some (true, l)
  else
    '(p, l) ← find_or_create_bucket l ip;
    match p with
    | None => Some (true, l)
    | Some p => take_tokens l p tokens_required
    end.
End Limiter.
