(* ===== verification/RateLimiterTheorems.v ===== *)
(** The rate limiter in terms of the buckets it holds: each operation's effect on the
    finite map from client address to bucket, and what that means for a client over time. *)

From S2P Require Import Prelude RateLimiter.

Section Spec.
Context {M : Type} `{!OrderedMap nat M} {laws : OrderedMapLaws nat M}.
Variable clock : nat → Z.
Variable malloc_bucket : gmap nat bucket → option nat.
Variable malloc_ips : Z → bool.
(** [malloc] returns memory not in use; the map is not out of memory. *)
Hypothesis bucket_fresh : ∀ h p, malloc_bucket h = Some p → h !! p = None.
Hypothesis insert_succeeds : ∀ (m : M) k (v : nat), om_insert m k v ≠ Some (-1, m).
Implicit Types (l : limiter M) (b : bucket) (p : nat) (ip now : Z) (g : gmap Z nat) (B : gmap Z bucket).

(** [l] holds the buckets [B], each in memory of its own and with its lock free, and no
    other memory. *)
Record Store l g B : Prop := {
  rl_map : om_holds (buckets l) g;
  rl_heap ip : match g !! ip with Some p => is_Some (B !! ip) ∧ b_heap l !! p = B !! ip | None => B !! ip = None end;
  rl_apart ip ip' p : g !! ip = Some p → g !! ip' = Some p → ip = ip';
  rl_owned p : is_Some (b_heap l !! p) → ∃ ip, g !! ip = Some p;
  rl_bucket ip b : B !! ip = Some b → b_ip b = ip ∧ locked b = false }.

(** Nobody is in a critical section. *)
Record Repr l g B : Prop := {
  rl_store : Store l g B;
  rl_unlocked : write_lock l = false;
  rl_even : Z.odd (seq l) = false }.

(** ** Pure steps *)

Definition refilled (c : ratelimiter_config) now b : bucket :=
  let add := wrap64 (wrap64 (now - last_refill_ns b) * refill_rate c) / 1000000000 in
  if 0 <? add then set_refill b (Z.min (max_tokens c) (wrap32 (wrap32 (tokens b) + wrap32 add))) now else b.

Definition taken (c : ratelimiter_config) (t1 t2 n : Z) b : bool * bucket :=
  let b := set_access (refilled c t1 b) t2 in
  if n <=? wrap32 (tokens b) then (true, set_tokens b (wrap32 (tokens b) - n)) else (false, b).

Definition is_stale (c : ratelimiter_config) now b : bool :=
  cleanup_interval_s c * 1000000000 <? wrap64 (now - last_access_ns b).

Definition swept (c : ratelimiter_config) now B : gmap Z bucket := filter (λ kb, is_stale c now kb.2 = false) B.

Lemma swept_lookup c now B ip :
  swept c now B !! ip = (b ← B !! ip; if is_stale c now b then None else Some b).
Proof.
  unfold swept. destruct (B !! ip) as [b|] eqn:E; simpl.
  - destruct (is_stale c now b) eqn:Es.
    + apply map_lookup_filter_None. right. intros b' Hb'. simpl. congruence.
    + by apply map_lookup_filter_Some.
  - apply map_lookup_filter_None. by left.
Qed.

(** ** Small facts *)

Lemma wrap_odd s : Z.odd (wrap64 (wrap64 (s + 1) + 1)) = Z.odd s.
Proof.
  assert (∀ z, Z.odd (wrap64 z) = Z.odd z) as Hw.
  { intros z. unfold wrap64. by rewrite <- !Z.bit0_odd, Z.mod_pow2_bits_low by lia. }
  rewrite Hw, Z.odd_add, Hw, Z.odd_add. by destruct (Z.odd s).
Qed.

Lemma Store_ext l l' g B : buckets l' = buckets l → b_heap l' = b_heap l → Store l g B → Store l' g B.
Proof. intros Hb Hh []. by split; rewrite ?Hb, ?Hh. Qed.

Lemma Store_ptr l g B ip b : Store l g B → B !! ip = Some b → ∃ p, g !! ip = Some p ∧ b_heap l !! p = Some b.
Proof.
  intros HS Hb. pose proof (rl_heap _ _ _ HS ip) as Hp. destruct (g !! ip) as [p|]; [|congruence]. exists p.
  split; [done|]. destruct Hp as [_ ->]. done.
Qed.

(** All but the map and the heap. *)
Definition same_rest l l' : Prop :=
  config l' = config l ∧ seq l' = seq l ∧ write_lock l' = write_lock l ∧ ticks l' = ticks l ∧ last_cleanup_ns l' = last_cleanup_ns l.

#[export] Instance same_rest_preorder : PreOrder same_rest.
Proof. split; [by intros l|]. intros l1 l2 l3 (?&?&?&?&?) (?&?&?&?&?). unfold same_rest. split_and!; congruence. Qed.

(** ** Erasing *)

Lemma map_erase_bucket_spec l g B ip : Store l g B → is_Some (B !! ip) →
  ∃ l', map_erase_bucket l ip = Some l' ∧ Store l' (delete ip g) (delete ip B) ∧ same_rest l l'.
Proof.
  intros [Hg HB Hinj Hown Hb] Hip. pose proof (HB ip) as Hp. destruct (g !! ip) as [p|] eqn:Ep;
    [|rewrite Hp in Hip; by destruct Hip].
  unfold map_erase_bucket. destruct (om_erase_ok _ _ _ _ Hg Ep) as (m' & -> & Hg'). simpl. eexists. split; [done|].
  split; [|done]. split; simpl.
  - done.
  - intros ip'. destruct (decide (ip' = ip)) as [->|Hne]; [by rewrite !lookup_delete_eq|]. rewrite !lookup_delete_ne by done.
    pose proof (HB ip') as Hp'. destruct (g !! ip') as [p'|] eqn:Ep'; [|done]. destruct Hp' as [Hsome Hh]. split; [done|].
    rewrite <- Hh. apply lookup_delete_ne. intros <-. apply Hne. by eapply Hinj.
  - intros i i' q. rewrite !lookup_delete_Some. intros [_ ?] [_ ?]. by eapply Hinj.
  - intros q [b' [Hne Hq]%lookup_delete_Some]. destruct (Hown q) as [i Hi]; [by eexists|]. exists i. rewrite lookup_delete_ne; [done|].
    intros <-. congruence.
  - intros i b' [_ Hi]%lookup_delete_Some. by apply Hb.
Qed.

Lemma erase_all_spec (ips : list Z) l g B : Store l g B → NoDup ips → (∀ ip, ip ∈ ips → is_Some (B !! ip)) →
  ∃ l' g' B', erase_all l ips = Some l' ∧ Store l' g' B' ∧ same_rest l l' ∧
    ∀ ip, B' !! ip = if bool_decide (ip ∈ ips) then None else B !! ip.
Proof.
  revert l g B. induction ips as [|ip ips IH]; intros l g B HS Hd Hin; simpl; [by exists l, g, B|].
  apply NoDup_cons in Hd as [Hn Hd]. destruct (map_erase_bucket_spec l g B ip) as (l1 & -> & HS1 & R1); [done|apply Hin; by left|].
  simpl. destruct (IH l1 _ (delete ip B) HS1 Hd) as (l2 & g2 & B2 & -> & HS2 & R2 & HB2).
  { intros i Hi. rewrite lookup_delete_ne by (by intros ->). apply Hin. by right. }
  exists l2, g2, B2. split_and!; [done|done|by etransitivity|]. intros i. rewrite HB2.
  destruct (decide (i = ip)) as [->|Hne].
  - rewrite lookup_delete_eq. rewrite (bool_decide_true (ip ∈ ip :: ips)) by (by left). by case_match.
  - rewrite lookup_delete_ne by done. rewrite (bool_decide_ext (i ∈ ip :: ips) (i ∈ ips)); [done|].
    rewrite elem_of_cons. naive_solver.
Qed.

Lemma stale_ips_spec l g B now (ks : list (Z * nat)) :
  Store l g B → (∀ ip p, (ip, p) ∈ ks → g !! ip = Some p) →
  stale_ips l now (cleanup_interval_s (config l) * 1000000000) (snd <$> ks) =
    Some (fst <$> filter (λ kp, (is_stale (config l) now <$> B !! kp.1) = Some true) ks).
Proof.
  intros HS. induction ks as [|[ip p] ks IH]; intros Hks; [done|]. csimpl.
  pose proof (rl_heap _ _ _ HS ip) as Hp. rewrite (Hks ip p) in Hp by (by left). destruct Hp as [[b Hb] Hp]. rewrite Hb in Hp.
  unfold stale. rewrite Hp. simpl. rewrite IH by (intros i q Hi; apply Hks; by right). simpl.
  destruct (rl_bucket _ _ _ HS _ _ Hb) as [Hip _]. unfold is_stale. rewrite filter_cons. simpl. rewrite Hb. simpl.
  case_decide as Hd.
  - injection Hd as Hd. rewrite Hd. csimpl. by rewrite Hip.
  - destruct (_ <? _) eqn:E; [by destruct Hd|done].
Qed.

(** One sweep over the map. *)
Lemma sweep_spec l g B now : Store l g B →
  ∃ ps ips, om_values (buckets l) = Some ps ∧
    stale_ips l now (cleanup_interval_s (config l) * 1000000000) ps = Some ips ∧ NoDup ips ∧
    (∀ ip, ip ∈ ips ↔ (is_stale (config l) now <$> B !! ip) = Some true).
Proof.
  intros HS. destruct (om_values_ok _ _ (rl_map _ _ _ HS)) as (ps & Hps & Hperm).
  apply Permutation_map_inv in Hperm as (ks & -> & Hks).
  assert (∀ ip p, (ip, p) ∈ ks ↔ g !! ip = Some p) as Hin by (intros ip p; by rewrite <- Hks, elem_of_map_to_list).
  eexists _, _. split; [done|]. split; [apply (stale_ips_spec _ _ _ _ _ HS); intros; by apply Hin|]. split.
  - assert (NoDup (fst <$> ks)) as Hnd by (rewrite <- Hks; apply NoDup_fst_map_to_list).
    eapply sublist_NoDup; [exact Hnd|]. apply fmap_sublist, sublist_filter.
  - intros ip. rewrite list_elem_of_fmap. split.
    + intros ([i p] & -> & [Hst _]%list_elem_of_filter). done.
    + intros Hst. destruct (B !! ip) as [b|] eqn:Eb; [|done]. destruct (Store_ptr _ _ _ _ _ HS Eb) as (p & Hp & _).
      exists (ip, p). split; [done|]. apply list_elem_of_filter. split; [by simpl; rewrite Eb|by apply Hin].
Qed.

(** ** The operations *)

Lemma Repr_tick l g B : Repr l g B → Repr (snd (ratelimiter_get_time_ns clock l)) g B.
Proof. intros [HS ? ?]. split; [|done..]. by eapply Store_ext; [..|exact HS]. Qed.

Lemma cleanup_spec l g B : Repr l g B →
  ∃ l' g' B', cleanup_old_buckets clock malloc_ips l = Some l' ∧ Repr l' g' B' ∧ config l' = config l ∧ ticks l' = S (ticks l) ∧
    (B' = B ∨ B' = swept (config l) (clock (ticks l)) B).
Proof.
  intros HR%Repr_tick. unfold cleanup_old_buckets. destruct (ratelimiter_get_time_ns clock l) as [now l1] eqn:Et.
  injection Et as <- Hl1. rewrite <- Hl1 in HR. cbn [snd] in HR. rewrite Hl1 in HR.
  assert (config l1 = config l ∧ ticks l1 = S (ticks l)) as [Hc Ht] by (by subst l1).
  clear Hl1. case_if; [exists l1, g, B; split_and!; auto|]. rewrite Z.eqb_refl. cbn [negb]. set (l2 := with_cleanup l1 _).
  unfold seqlock_write_lock. change (write_lock l2) with (write_lock l1). rewrite (rl_unlocked _ _ _ HR). cbn [mbind option_bind].
  set (l3 := with_seqlock l2 _ _). assert (Store l3 g B) as HS by (eapply Store_ext; [..|apply HR]; done).
  destruct (sweep_spec l3 g B (clock (ticks l)) HS) as (ps & ips & Hps & Hips & Hnd & Hin).
  change (config l3) with (config l1) in *. rewrite Hps. cbn [mbind option_bind]. rewrite Hips. cbn [mbind option_bind].
  assert (∀ l4, same_rest l3 l4 → config (seqlock_write_unlock l4) = config l ∧ ticks (seqlock_write_unlock l4) = S (ticks l) ∧
    write_lock (seqlock_write_unlock l4) = false ∧ Z.odd (seq (seqlock_write_unlock l4)) = false) as Hunlock.
  { intros l4 (Hc4 & Hs4 & Hw4 & Ht4 & _). simpl. rewrite Hc4, Ht4, Hs4. simpl. rewrite wrap_odd. split_and!; [done..|apply HR]. }
  assert (∃ l4 g' B', (if 0 <? zlen ips then if malloc_ips (zlen ips * 4) then erase_all l3 ips else Some l3 else Some l3) = Some l4 ∧
    same_rest l3 l4 ∧ Store l4 g' B' ∧ (B' = B ∨ B' = swept (config l) (clock (ticks l)) B)) as (l4 & g' & B' & Hl4 & R4 & HS4 & HB').
  { case_if; [case_if|]; [|exists l3, g, B; split_and!; [done|reflexivity|done|by left]..].
    destruct (erase_all_spec ips l3 g B HS Hnd) as (l4 & g' & B' & He & HS4 & R4 & HB').
    { intros ip Hi%Hin. by destruct (B !! ip). }
    exists l4, g', B'. split_and!; [done..|]. right. apply map_eq. intros ip. rewrite HB', swept_lookup.
    case_bool_decide as Hi; rewrite Hin, Hc in Hi; destruct (B !! ip) as [b|]; simpl in *; try done; destruct (is_stale _ _ b); done || congruence. }
  rewrite Hl4. cbn [mbind option_bind]. destruct (Hunlock _ R4) as (? & ? & ? & ?).
  exists (seqlock_write_unlock l4), g', B'. split_and!; [done| |done..]. split; [|done..]. by eapply Store_ext; [..|exact HS4].
Qed.

(** A new bucket is full. *)
Lemma find_or_create_spec l g B ip : Repr l g B →
  match B !! ip with
  | Some _ => ∃ p, find_or_create_bucket clock malloc_bucket l ip = Some (Some p, l) ∧ g !! ip = Some p
  | None =>
      malloc_bucket (b_heap l) = None ∧ (∃ l', find_or_create_bucket clock malloc_bucket l ip = Some (None, l') ∧
        Repr l' g B ∧ config l' = config l ∧ ticks l' = ticks l) ∨
      ∃ p l', find_or_create_bucket clock malloc_bucket l ip = Some (Some p, l') ∧ config l' = config l ∧ ticks l' = S (S (ticks l)) ∧
        Repr l' (<[ip := p]> g)
          (<[ip := Bucket ip (max_tokens (config l)) (clock (ticks l)) (clock (S (ticks l))) false]> B)
  end.
Proof.
  intros [HS Hw He]. unfold find_or_create_bucket, find_bucket_lockfree, seqlock_read_begin, seqlock_read_retry, seqlock_write_lock.
  rewrite He, Hw. cbn [mbind option_bind]. rewrite (om_find_ok _ _ ip (rl_map _ _ _ HS)). cbn [mbind option_bind]. rewrite Z.eqb_refl.
  cbn [negb mbind option_bind]. pose proof (rl_heap _ _ _ HS ip) as Hp. destruct (g !! ip) as [p|] eqn:Ep.
  { destruct Hp as [[b Hb] _]. rewrite Hb. by exists p. }
  rewrite Hp. cbn [buckets with_seqlock]. rewrite (om_find_ok _ _ ip (rl_map _ _ _ HS)), Ep. cbn [mbind option_bind].
  unfold bucket_create. cbn [b_heap with_seqlock]. destruct (malloc_bucket (b_heap l)) as [p|] eqn:Em.
  2: { left. split; [done|]. eexists. split; [done|]. split; [|done]. split; simpl; [by eapply Store_ext; [..|exact HS]|done|].
       by rewrite wrap_odd. }
  right. exists p. cbn. pose proof (bucket_fresh _ _ Em) as Hf.
  destruct (om_insert_ok _ _ ip p (rl_map _ _ _ HS) Ep) as [Hx|(m' & Hm' & Hg')]; [by destruct (insert_succeeds _ _ _ Hx)|].
  rewrite Hm'. eexists. split; [done|]. split_and!; [done..|]. split; [|done|simpl; by rewrite wrap_odd].
  assert (∀ i q, g !! i = Some q → q ≠ p) as Hother.
  { intros i q Hi ->. pose proof (rl_heap _ _ _ HS i) as Hi'. rewrite Hi, Hf in Hi'. destruct Hi' as [[? ?] ?]. congruence. }
  split; simpl.
  - done.
  - intros i. destruct (decide (i = ip)) as [->|Hne]; [by rewrite !lookup_insert_eq|]. rewrite !lookup_insert_ne by done.
    pose proof (rl_heap _ _ _ HS i) as Hi. destruct (g !! i) as [q|] eqn:Eq; [|done]. destruct Hi as [? Hi]. split; [done|].
    rewrite <- Hi. apply lookup_insert_ne. intros <-. by eapply Hother.
  - intros i i' q. rewrite !lookup_insert_Some. intros [[<- <-]|[_ Hi]] [[<- ?]|[_ Hi']]; try done; try (subst; by edestruct Hother).
    by eapply (rl_apart _ _ _ HS).
  - intros q [b Hb]. apply lookup_insert_Some in Hb as [[<- _]|[Hne Hb]]; [exists ip; by rewrite lookup_insert_eq|].
    destruct (rl_owned _ _ _ HS q) as [i Hi]; [by eexists|]. exists i. rewrite lookup_insert_ne; [done|]. intros <-. congruence.
  - intros i b [[<- <-]|[_ Hb]]%lookup_insert_Some; [done|]. by apply (rl_bucket _ _ _ HS).
Qed.

Lemma Repr_put l g B ip p b : Repr l g B → g !! ip = Some p → b_ip b = ip → locked b = false →
  Repr (put l p b) g (<[ip := b]> B).
Proof.
  intros [HS Hw He] Hp Hip Hl. split; [|done..]. split; simpl.
  - apply HS.
  - intros i. pose proof (rl_heap _ _ _ HS i) as Hi. destruct (decide (i = ip)) as [->|Hne].
    + rewrite Hp, !lookup_insert_eq. split; [by eexists|done].
    + rewrite (lookup_insert_ne B) by done. destruct (g !! i) as [q|] eqn:Eq; [|done]. destruct Hi as [? Hi]. split; [done|]. rewrite <- Hi.
      apply lookup_insert_ne. intros <-. apply Hne. by eapply (rl_apart _ _ _ HS).
  - apply HS.
  - intros q [b' Hb']. apply lookup_insert_Some in Hb' as [[<- _]|[_ Hb']]; [by exists ip|]. apply (rl_owned _ _ _ HS). by eexists.
  - intros i b' [[<- <-]|[_ Hb]]%lookup_insert_Some; [done|]. by apply (rl_bucket _ _ _ HS).
Qed.

Lemma put_put l p b b' : put (put l p b) p b' = put l p b'.
Proof. unfold put, with_heap. simpl. by rewrite insert_insert_eq. Qed.

Lemma relock_access b t : locked b = false → set_locked (set_access (set_locked b true) t) false = set_access b t.
Proof. destruct b. by intros [= ->]. Qed.

Lemma relock_tokens b t n : locked b = false →
  set_locked (set_tokens (set_access (set_locked b true) t) n) false = set_tokens (set_access b t) n.
Proof. destruct b. by intros [= ->]. Qed.

(** The step of the limiter on one bucket, with its lock. *)
Lemma take_tokens_spec l g B ip p b n : Repr l g B → g !! ip = Some p → B !! ip = Some b →
  let res := taken (config l) (clock (ticks l)) (clock (S (ticks l))) n b in
  ∃ l', take_tokens clock l p n = Some (fst res, l') ∧ Repr l' g (<[ip := snd res]> B) ∧
    config l' = config l ∧ ticks l' = S (S (ticks l)).
Proof.
  intros HR Hp Hb res. pose proof (rl_store _ _ _ HR) as HS. destruct (rl_bucket _ _ _ HS _ _ Hb) as [Hip Hl].
  pose proof (rl_heap _ _ _ HS ip) as Hh. rewrite Hp, Hb in Hh. destruct Hh as [_ Hh].
  set (c := config l) in *. set (t1 := clock (ticks l)) in *. set (t2 := clock (S (ticks l))) in *.
  assert (∃ l1, spinlock_lock l p = Some l1 ∧ bucket_refill clock l1 p =
    Some (put (snd (ratelimiter_get_time_ns clock l)) p (set_locked (refilled c t1 b) true))) as (l1 & Hlock & Hrefill).
  { unfold spinlock_lock. rewrite Hh. simpl. rewrite Hl. eexists. split; [done|]. unfold bucket_refill. simpl.
    rewrite lookup_insert_eq. simpl. unfold refilled. fold c t1. cbn zeta. case_if; [|done].
    unfold put, with_heap. simpl. rewrite insert_insert_eq. do 3 f_equal. unfold set_refill, set_locked. simpl. f_equal.
    case_if; lia. }
  unfold take_tokens. rewrite Hlock. cbn [mbind option_bind]. rewrite Hrefill. cbn [mbind option_bind]. unfold ratelimiter_get_time_ns at 1.
  cbn [b_heap put with_heap snd]. cbn. rewrite lookup_insert_eq. cbn [mbind option_bind]. fold t2.
  assert (∀ b', b_ip b' = ip → locked b' = false →
    Repr (put (snd (ratelimiter_get_time_ns clock (snd (ratelimiter_get_time_ns clock l)))) p b') g (<[ip := b']> B)) as Hput.
  { intros b' ? ?. apply Repr_put; [by do 2 apply Repr_tick|done|done|done]. }
  assert (b_ip (refilled c t1 b) = ip ∧ locked (refilled c t1 b) = false) as [Hip' Hl'] by (unfold refilled; cbn zeta; by case_if).
  subst res. unfold taken. cbn zeta. change (tokens (set_locked (refilled c t1 b) true)) with (tokens (refilled c t1 b)).
  change (tokens (set_access (refilled c t1 b) t2)) with (tokens (refilled c t1 b)). case_if; unfold spinlock_unlock; simpl; rewrite lookup_insert_eq; simpl; (eexists; split; [done|]); rewrite !put_put;
    (split; [|done]); unfold put, with_heap; simpl; rewrite !insert_insert_eq.
  - rewrite relock_tokens by done. by apply Hput.
  - rewrite relock_access by done. by apply Hput.
Qed.
End Spec.

(** What the rate limiter promises: it is safe and leaks nothing, a client gets no more than
    its burst and its rate allow, and a client that waits is served. *)

(** A run of requests, each an address and the tokens it needs. *)
Fixpoint run_allow {M : Type} `{!OrderedMap nat M} (clock : nat → Z) (malloc_bucket : gmap nat bucket → option nat)
    (malloc_ips : Z → bool) (l : limiter M) (cs : list (Z * Z)) : option (list bool * limiter M) :=
  match cs with
  | [] => Some ([], l)
  | (ip, n) :: cs' =>
      '(r, l) ← ratelimiter_allow clock malloc_bucket malloc_ips l ip n;
      '(rs, l) ← run_allow clock malloc_bucket malloc_ips l cs';
      Some (r :: rs, l)
  end.

(** The tokens a client was granted. *)
Fixpoint granted (ip : Z) (cs : list (Z * Z)) (rs : list bool) : Z :=
  match cs, rs with
  | (ip', n) :: cs', r :: rs' => (if r && (ip' =? ip) then n else 0) + granted ip cs' rs'
  | _, _ => 0
  end.

(** The fields of a configuration are [uint32_t], and refilling is on. *)
Record config_ok (c : ratelimiter_config) : Prop := {
  ok_max : 0 <= max_tokens c < 2 ^ 32;
  ok_rate : 0 < refill_rate c < 2 ^ 32;
  ok_interval : 0 <= cleanup_interval_s c < 2 ^ 32 }.

(** ** One bucket *)

Abbreviation second := 1000000000.

Lemma wrap64_le x : 0 <= x → 0 <= wrap64 x <= x.
Proof. intros. unfold wrap64. pose proof (Z.mod_pos_bound x (2 ^ 64)). pose proof (Z.mod_le x (2 ^ 64)). lia. Qed.

Lemma wrap32_le x : 0 <= x → 0 <= wrap32 x <= x.
Proof. intros. unfold wrap32. pose proof (Z.mod_pos_bound x (2 ^ 32)). pose proof (Z.mod_le x (2 ^ 32)). lia. Qed.

Lemma wrap64_small x : 0 <= x < 2 ^ 64 → wrap64 x = x.
Proof. apply Z.mod_small. Qed.

Lemma wrap32_small x : 0 <= x < 2 ^ 32 → wrap32 x = x.
Proof. apply Z.mod_small. Qed.

(** A bucket as the limiter keeps it, at time [now]. *)
Record sound (c : ratelimiter_config) (start now : Z) (b : bucket) : Prop := {
  sd_tokens : 0 <= tokens b <= max_tokens c;
  sd_refill : start <= last_refill_ns b <= last_access_ns b;
  sd_access : last_access_ns b <= now }.

(** What a refill can add is what the time since the last one is worth. *)
Lemma refilled_spec c start now b : config_ok c → 0 <= start → now < 2 ^ 64 → sound c start now b →
  let b' := refilled c now b in
  0 <= tokens b' <= max_tokens c ∧ last_refill_ns b <= last_refill_ns b' <= now ∧
  tokens b' * second - refill_rate c * last_refill_ns b' <= tokens b * second - refill_rate c * last_refill_ns b ∧
  ((now - start) * refill_rate c < 2 ^ 64 → refill_rate c * (now - last_refill_ns b') < second).
Proof.
  intros [Hm Hr _] H0 H64 [Ht Hlr Hla] b'. subst b'. unfold refilled. cbn zeta.
  rewrite (wrap64_small (now - _)) by lia. set (el := now - last_refill_ns b) in *.
  pose proof (wrap64_le (el * refill_rate c)) as Hw. set (w := wrap64 _) in *.
  assert (0 <= el * refill_rate c) by (unfold el; nia). specialize (Hw ltac:(done)).
  pose proof (Z.div_mod w second). pose proof (Z.mod_pos_bound w second). set (add := w / second) in *.
  assert (0 <= add) by (apply Z.div_pos; lia).
  case_if; reflect_bools; simpl.
  - rewrite (wrap32_small (tokens b)) by lia. pose proof (wrap32_le add ltac:(done)).
    pose proof (wrap32_le (tokens b + wrap32 add)). assert (el * refill_rate c = refill_rate c * now - refill_rate c * last_refill_ns b) by (unfold el; lia).
    split_and!; try lia.
  - split_and!; try lia. intros Hno. assert (w = el * refill_rate c) by (apply wrap64_small; unfold el in *; nia).
    unfold el in *. lia.
Qed.

(** Enough time refills enough, as long as nothing wraps. *)
Lemma refilled_enough c start now b n : config_ok c → 0 <= start → now < 2 ^ 64 → sound c start now b →
  (now - start) * refill_rate c < (2 ^ 32 - max_tokens c) * second →
  n <= max_tokens c → n * second <= (now - last_refill_ns b) * refill_rate c + tokens b * second →
  n <= tokens (refilled c now b).
Proof.
  intros [Hm Hr _] H0 H64 [Ht Hlr Hla] Hno Hn Hwait. unfold refilled. cbn zeta.
  rewrite (wrap64_small (now - _)) by lia. set (el := now - last_refill_ns b) in *.
  assert (0 <= el * refill_rate c < (2 ^ 32 - max_tokens c) * second) as Hel by (unfold el; nia).
  rewrite (wrap64_small (el * _)) by lia. pose proof (Z.div_mod (el * refill_rate c) second).
  pose proof (Z.mod_pos_bound (el * refill_rate c) second). set (add := el * refill_rate c / second) in *.
  assert (0 <= add) by (apply Z.div_pos; lia).
  case_if; reflect_bools; simpl; [|lia]. rewrite (wrap32_small (tokens b)), (wrap32_small add), wrap32_small by lia. lia.
Qed.

Lemma taken_spec c start t1 t2 n b : config_ok c → 0 <= start → t1 <= t2 → t2 < 2 ^ 64 → 0 <= n → sound c start t1 b →
  let (r, b') := taken c t1 t2 n b in
  sound c start t2 b' ∧ last_refill_ns b' = last_refill_ns (refilled c t1 b) ∧ b_ip b' = b_ip b ∧ locked b' = locked b ∧
  tokens b' + (if r then n else 0) = tokens (refilled c t1 b) ∧ r = (n <=? tokens (refilled c t1 b)).
Proof.
  intros Hc H0 Ht H64 Hn Hs. destruct (refilled_spec c start t1 b Hc H0 ltac:(lia) Hs) as (Htok & Hlr & _). unfold taken.
  assert (b_ip (refilled c t1 b) = b_ip b ∧ locked (refilled c t1 b) = locked b ∧ last_access_ns (refilled c t1 b) = last_access_ns b)
    as (Hi & Hl & Ha) by (unfold refilled; cbn zeta; by case_if).
  cbn zeta. change (tokens (set_access (refilled c t1 b) t2)) with (tokens (refilled c t1 b)).
  pose proof (ok_max _ Hc). rewrite wrap32_small by lia. destruct Hs as [_ ? ?].
  case_if; reflect_bools; (split; [split; simpl; lia|]); split_and!; try done; simpl; lia.
Qed.

Section Theorems.
Context {M : Type} `{!OrderedMap nat M} {laws : OrderedMapLaws nat M}.
Variable clock : nat → Z.
Variable malloc_bucket : gmap nat bucket → option nat.
Variable malloc_ips : Z → bool.
Hypothesis bucket_fresh : ∀ h p, malloc_bucket h = Some p → h !! p = None.
Hypothesis bucket_memory : ∀ h, is_Some (malloc_bucket h).
Hypothesis insert_succeeds : ∀ (m : M) k (v : nat), om_insert m k v ≠ Some (-1, m).
(** CLOCK_MONOTONIC does not go back, and its nanoseconds fit [uint64_t]. *)
Hypothesis clock_mono : ∀ i j, (i <= j)%nat → clock i <= clock j.
Hypothesis clock_range : ∀ i, 0 <= clock i < 2 ^ 64.
Implicit Types (l : limiter M) (b : bucket) (ip n : Z) (B : gmap Z bucket) (c : ratelimiter_config).

Abbreviation allow := (ratelimiter_allow clock malloc_bucket malloc_ips).
Abbreviation run := (run_allow clock malloc_bucket malloc_ips).

(** A request's effect on the buckets, [k] clock readings into the run. *)
Definition effect c (k : nat) B ip n (r : bool) B' (k' : nat) : Prop :=
  ∃ B1, (B1 = B ∨ B1 = swept c (clock k) B) ∧
    match B1 !! ip with
    | Some b => k' = (k + 3)%nat ∧ let res := taken c (clock (S k)) (clock (S (S k))) n b in
        r = fst res ∧ B' = <[ip := snd res]> B1
    | None => k' = (k + 5)%nat ∧
        let res := taken c (clock (3 + k)) (clock (4 + k)) n (Bucket ip (max_tokens c) (clock (S k)) (clock (S (S k))) false) in
        r = fst res ∧ B' = <[ip := snd res]> B1
    end.

Lemma allow_effect l g B ip n : Repr l g B → refill_rate (config l) ≠ 0 →
  ∃ r l' g' B', allow l ip n = Some (r, l') ∧ Repr l' g' B' ∧ config l' = config l ∧
    effect (config l) (ticks l) B ip n r B' (ticks l').
Proof.
  intros HR Hrate. unfold ratelimiter_allow. destruct (cleanup_spec clock malloc_ips l g B HR) as (l1 & g1 & B1 & -> & HR1 & Hc1 & Ht1 & HB1).
  cbn [mbind option_bind]. rewrite Hc1, (proj2 (Z.eqb_neq _ _) Hrate).
  pose proof (find_or_create_spec clock malloc_bucket bucket_fresh insert_succeeds l1 g1 B1 ip HR1) as Hf.
  destruct (B1 !! ip) as [b|] eqn:Eb.
  - destruct Hf as (p & -> & Hp). cbn [mbind option_bind]. destruct (take_tokens_spec clock l1 g1 B1 ip p b n HR1 Hp Eb) as (l2 & -> & HR2 & Hc2 & Ht2).
    do 4 eexists. split_and!; [done|exact HR2|congruence|]. exists B1. rewrite Eb, Hc1, Ht2, Ht1. split_and!; [done|lia|by split].
  - destruct Hf as [[Hm _]|(p & l2 & -> & Hc2 & Ht2 & HR2)]; [by destruct (bucket_memory (b_heap l1)); congruence|].
    cbn [mbind option_bind]. destruct (take_tokens_spec clock l2 _ _ ip p _ n HR2 (lookup_insert_eq _ _ _) (lookup_insert_eq _ _ _)) as (l3 & -> & HR3 & Hc3 & Ht3).
    rewrite insert_insert_eq in HR3. do 4 eexists. split_and!; [done|exact HR3|congruence|]. exists B1.
    rewrite Eb, Ht3, Hc2, Hc1, Ht2, Ht1. split_and!; [done|lia|by split].
Qed.

(** Every bucket is sound at the last clock reading. *)
Definition all_sound c (start : Z) B (k : nat) : Prop := ∀ ip b, B !! ip = Some b → sound c start (clock (pred k)) b.

Lemma sound_later c start t t' b : t <= t' → sound c start t b → sound c start t' b.
Proof. intros ? []. split; lia. Qed.

Lemma swept_or_same c now B B1 ip b : B1 = B ∨ B1 = swept c now B → B1 !! ip = Some b → B !! ip = Some b.
Proof. intros [->| ->]; [done|]. rewrite swept_lookup. destruct (B !! ip); simpl; [by case_if|done]. Qed.

(** The bucket a request finds, or the full one it creates. *)
Lemma effect_split c start k B ip n r B' k' : config_ok c → 0 <= start → start <= clock k → 0 <= n →
  all_sound c start B k → effect c k B ip n r B' k' →
  ∃ B1 b1 t1 b', (B1 = B ∨ B1 = swept c (clock k) B) ∧
    clock k <= t1 <= clock (pred k') ∧ (k < k')%nat ∧ sound c start t1 b1 ∧ sound c start (clock (pred k')) b' ∧ B' = <[ip := b']> B1 ∧
    (B1 !! ip = Some b1 ∨ B1 !! ip = None ∧ tokens b1 = max_tokens c ∧ clock k <= last_refill_ns b1) ∧
    last_refill_ns b' = last_refill_ns (refilled c t1 b1) ∧
    tokens b' + (if r then n else 0) = tokens (refilled c t1 b1) ∧ r = (n <=? tokens (refilled c t1 b1)).
Proof.
  intros Hc H0 Hstart Hn Hall (B1 & HB1 & He).
  assert (∀ i j, (i <= j)%nat → clock i <= clock j) as Hmono by exact clock_mono.
  destruct (B1 !! ip) as [b|] eqn:Eb.
  - destruct He as (-> & -> & ->). pose proof (Hmono k (S k) ltac:(lia)). pose proof (Hmono (S k) (S (S k)) ltac:(lia)).
    pose proof (Hmono (pred k) k ltac:(lia)).
    assert (sound c start (clock (S k)) b) as Hs by (eapply sound_later; [|by eapply Hall, swept_or_same]; lia).
    pose proof (taken_spec c start (clock (S k)) (clock (S (S k))) n b Hc H0 ltac:(lia) (proj2 (clock_range _)) Hn Hs) as Htk.
    destruct (taken c (clock (S k)) (clock (S (S k))) n b) as [r' b']. destruct Htk as (Hs' & Hlr & _ & _ & Htok & Hr).
    exists B1, b, (clock (S k)), b'. replace (pred (k + 3)) with (S (S k)) by lia. cbn [fst snd]. split_and!; auto; lia.
  - destruct He as (-> & -> & ->). pose proof (Hmono k (S k) ltac:(lia)). pose proof (Hmono (S k) (S (S k)) ltac:(lia)).
    pose proof (Hmono (S (S k)) (3 + k)%nat ltac:(lia)). pose proof (Hmono (3 + k)%nat (4 + k)%nat ltac:(lia)).
    set (b := Bucket ip _ _ _ _). pose proof (ok_max _ Hc).
    assert (sound c start (clock (3 + k)) b) as Hs by (split; unfold b; cbn [tokens last_refill_ns last_access_ns]; lia).
    pose proof (taken_spec c start (clock (3 + k)) (clock (4 + k)) n b Hc H0 ltac:(lia) (proj2 (clock_range _)) Hn Hs) as Htk.
    destruct (taken c (clock (3 + k)) (clock (4 + k)) n b) as [r' b']. destruct Htk as (Hs' & Hlr & _ & _ & Htok & Hr).
    exists B1, b, (clock (3 + k)), b'. replace (pred (k + 5)) with (4 + k)%nat by lia. cbn [fst snd]. split_and!; auto; lia.
Qed.

Lemma effect_sound c start k B ip n r B' k' : config_ok c → 0 <= start → start <= clock k → 0 <= n →
  all_sound c start B k → effect c k B ip n r B' k' → all_sound c start B' k'.
Proof.
  intros Hc H0 Hst Hn Hall He. destruct (effect_split _ _ _ _ _ _ _ _ _ Hc H0 Hst Hn Hall He)
    as (B1 & b1 & t1 & b' & HB1 & Ht & Hk & _ & Hs' & -> & _). intros i b [[<- <-]|[_ Hb]]%lookup_insert_Some; [done|].
  eapply sound_later; [|by eapply Hall, swept_or_same]. apply clock_mono. lia.
Qed.

(** ** The window

    What the client [ip] was granted, [G], since the time [T0]: with a bucket, the tokens left
    in it count as granted too; without, the time up to [now] has paid for [G]. *)
Definition window c (T0 now : Z) ip (G : Z) B : Prop :=
  match B !! ip with
  | Some b => G = 0 ∨ (G + tokens b) * second <= (max_tokens c + 1) * second + refill_rate c * (last_refill_ns b - T0)
  | None => G * second <= second + refill_rate c * (now - T0)
  end.

(** An idle bucket would have been full again. *)
Lemma window_sweep c start T0 t now ip G B B1 : config_ok c → max_tokens c <= cleanup_interval_s c * refill_rate c →
  0 <= start → (∀ b, B !! ip = Some b → sound c start t b) → T0 <= t <= now → now < 2 ^ 64 →
  B1 = B ∨ B1 = swept c now B → window c T0 t ip G B → window c T0 now ip G B1.
Proof.
  intros [Hm Hr _] Hcfg H0 Hsound Ht H64 HB1 Hw. unfold window in *. destruct (B !! ip) as [b|] eqn:Eb.
  - destruct (Hsound b eq_refl) as [? ? ?]. destruct HB1 as [->| ->]; [by rewrite Eb|]. rewrite swept_lookup, Eb. simpl.
    destruct (is_stale c now b) eqn:Es; [|done]. unfold is_stale in Es. reflect_bools. rewrite wrap64_small in Es by lia.
    destruct Hw as [->|Hw]; [nia|]. nia.
  - assert (B1 !! ip = None) as -> by (destruct HB1 as [->| ->]; [done|by rewrite swept_lookup, Eb]). nia.
Qed.

Lemma effect_window c start T0 k B ip' n r B' k' ip G :
  config_ok c → max_tokens c <= cleanup_interval_s c * refill_rate c → 0 <= start → start <= clock k → 0 <= n →
  all_sound c start B k → effect c k B ip' n r B' k' → T0 <= clock (pred k) →
  (clock (pred k') - start) * refill_rate c < 2 ^ 64 →
  window c T0 (clock (pred k)) ip G B →
  window c T0 (clock (pred k')) ip (G + (if r && (ip' =? ip) then n else 0)) B'.
Proof.
  intros Hc Hcfg H0 Hst Hn Hall He HT Hno Hw. destruct (effect_split _ _ _ _ _ _ _ _ _ Hc H0 Hst Hn Hall He)
    as (B1 & b1 & t1 & b' & HB1 & Ht & Hk & Hs1 & Hs' & -> & Hfound & Hlr & Htok & Hgrant).
  pose proof (clock_mono (pred k) k ltac:(lia)) as Hkk.
  assert (window c T0 (clock k) ip G B1) as Hw1.
  { eapply (window_sweep c start); [done|done|done| | | |done|done]; [intros b Hb; exact (Hall _ _ Hb)|lia|apply clock_range]. }
  unfold window in *. destruct (Z.eqb_spec ip' ip) as [->|Hne].
  - rewrite lookup_insert_eq. rewrite andb_true_r. right.
    destruct (refilled_spec c start t1 b1 Hc H0) as (Ht' & Hr' & Hpot & Hlt); [pose proof (clock_range (pred k')); lia|done|].
    pose proof (ok_rate _ Hc). specialize (Hlt ltac:(nia)). rewrite Hlr.
    replace (G + (if r then n else 0) + tokens b') with (G + tokens (refilled c t1 b1)) by lia.
    destruct Hfound as [Hf|(Hf & Hfull & Hlate)]; rewrite Hf in Hw1; [destruct Hw1 as [->|Hw1]|]; nia.
  - rewrite andb_false_r, Z.add_0_r, lookup_insert_ne by done. destruct (B1 !! ip); [done|]. pose proof (ok_rate _ Hc). nia.
Qed.

(** ** Runs *)

Record reached c (start : Z) l B : Prop := {
  rc_repr : ∃ g, Repr l g B;
  rc_config : config l = c;
  rc_sound : all_sound c start B (ticks l);
  rc_start : start <= clock (pred (ticks l)) }.

Lemma allow_reached c start l B ip n : config_ok c → 0 <= start → 0 <= n → reached c start l B →
  ∃ r l' B', allow l ip n = Some (r, l') ∧ reached c start l' B' ∧ effect c (ticks l) B ip n r B' (ticks l') ∧ (ticks l <= ticks l')%nat.
Proof.
  intros Hc H0 Hn [[g HR] Hcfg Hs Hst]. pose proof (clock_mono (pred (ticks l)) (ticks l) ltac:(lia)).
  destruct (allow_effect l g B ip n HR) as (r & l' & g' & B' & Ha & HR' & Hc' & He); [rewrite Hcfg; apply ok_rate in Hc; lia|].
  rewrite Hcfg in *. exists r, l', B'.
  destruct (effect_split c start (ticks l) _ _ _ _ _ _ Hc H0 ltac:(lia) Hn Hs He) as (? & ? & ? & ? & _ & _ & Hk & _).
  split_and!; [done| |done|lia]. split; [by exists g'|done|by eapply effect_sound; [..|exact He]; try done; lia|].
  pose proof (clock_mono (pred (ticks l)) (pred (ticks l')) ltac:(lia)). lia.
Qed.

Lemma run_reached c start cs l B : config_ok c → 0 <= start → Forall (λ ipn, 0 <= ipn.2) cs → reached c start l B →
  ∃ rs l' B', run l cs = Some (rs, l') ∧ reached c start l' B' ∧ (ticks l <= ticks l')%nat ∧ length rs = length cs ∧
    (∀ T0 ip G, max_tokens c <= cleanup_interval_s c * refill_rate c → T0 <= clock (pred (ticks l)) →
       (clock (pred (ticks l')) - start) * refill_rate c < 2 ^ 64 → window c T0 (clock (pred (ticks l))) ip G B →
       window c T0 (clock (pred (ticks l'))) ip (G + granted ip cs rs) B') ∧
    (∀ ip b, ip ∉ cs.*1 → B' !! ip = Some b → B !! ip = Some b).
Proof.
  intros Hc H0. revert l B. induction cs as [|[ip' n] cs IH]; intros l B Hcs Hl.
  { exists [], l, B. split_and!; [done|done|lia|done|intros; simpl; by rewrite Z.add_0_r|done]. }
  apply Forall_cons in Hcs as [Hn Hcs]. destruct (allow_reached c start l B ip' n Hc H0 Hn Hl) as (r & l1 & B1 & Ha & Hl1 & He & Hk1).
  destruct (IH l1 B1 Hcs Hl1) as (rs & l2 & B2 & Hr & Hl2 & Hk2 & Hlen & Hwin & Hkeep). pose proof (ok_rate _ Hc) as Hrate.
  exists (r :: rs), l2, B2. cbn [run_allow]. rewrite Ha. cbn [mbind option_bind]. rewrite Hr.
  pose proof (clock_mono (pred (ticks l)) (ticks l) ltac:(lia)). pose proof (clock_mono (pred (ticks l)) (pred (ticks l1)) ltac:(lia)).
  pose proof (clock_mono (pred (ticks l1)) (pred (ticks l2)) ltac:(lia)). pose proof (rc_start _ _ _ _ Hl).
  split_and!; [done|done|lia|by simpl; f_equal| |].
  - intros T0 ip G Hcfg HT Hno Hw. cbn [granted]. rewrite Z.add_assoc. apply Hwin; [done|lia|done|].
    eapply effect_window; [done|done|exact H0| |done|apply Hl|exact He|done| |done]; [lia|nia].
  - intros ip b Hnot Hb. csimpl in Hnot. apply not_elem_of_cons in Hnot as [Hne Hnot]. specialize (Hkeep ip b Hnot Hb).
    destruct (effect_split c start (ticks l) _ _ _ _ _ _ Hc H0 ltac:(lia) Hn (rc_sound _ _ _ _ Hl) He) as (B0 & ? & ? & b' & HB0 & _ & _ & _ & _ & -> & _).
    rewrite lookup_insert_ne in Hkeep by done. by eapply swept_or_same.
Qed.

Lemma init_reached c (readings : nat) l : ratelimiter_init clock c readings = Some l → reached c (clock readings) l ∅ ∧ ticks l = S readings.
Proof.
  unfold ratelimiter_init. destruct om_create as [m|] eqn:Em; simpl; [|done]. intros [= <-]. split; [|done]. split; [|done|done|done].
  exists ∅. split; [|done|done]. split; simpl; [by apply om_create_ok|done|done|by intros p [b ?]|done].
Qed.

Lemma foldr_delete_lookup (h : gmap nat bucket) ps p : foldr delete h ps !! p = if bool_decide (p ∈ ps) then None else h !! p.
Proof.
  induction ps as [|q ps IH]; simpl; [done|]. destruct (decide (p = q)) as [->|Hne].
  - rewrite lookup_delete_eq, bool_decide_true; [done|by left].
  - rewrite lookup_delete_ne by done. rewrite IH. rewrite (bool_decide_ext (p ∈ q :: ps) (p ∈ ps)); [done|]. rewrite elem_of_cons. naive_solver.
Qed.

Lemma free_spec l g B : Repr l g B → ratelimiter_free l = Some ∅.
Proof.
  intros [HS _ _]. unfold ratelimiter_free. destruct (om_free_ok _ _ (rl_map _ _ _ HS)) as (vs & -> & Hvs). simpl. f_equal.
  apply map_eq. intros p. rewrite lookup_empty, foldr_delete_lookup. case_bool_decide as Hp; [done|].
  destruct (b_heap l !! p) as [b|] eqn:Eb; [|done]. destruct Hp. destruct (rl_owned _ _ _ HS p) as [ip Hip]; [by eexists|].
  rewrite Hvs, list_elem_of_fmap. exists (ip, p). split; [done|]. by apply elem_of_map_to_list.
Qed.

(** ** The properties *)


(** C22: In any window of the run, however the requests of all clients interleave and
    however often idle buckets are swept and created again, a client is granted at most its
    burst, one token more, and what the length of the window earns at [refill_rate] tokens a
    second, provided an idle bucket is not swept before it would be full
    ([max_tokens <= cleanup_interval_s * refill_rate]) and the nanoseconds since the start
    times the rate stay below 2^64. *)
Theorem ratelimiter_bound c (readings : nat) l0 cs1 rs1 l1 cs2 rs2 l2 ip :
  config_ok c → max_tokens c <= cleanup_interval_s c * refill_rate c →
  Forall (λ ipn, 0 <= ipn.2) cs1 → Forall (λ ipn, 0 <= ipn.2) cs2 →
  ratelimiter_init clock c readings = Some l0 → run l0 cs1 = Some (rs1, l1) → run l1 cs2 = Some (rs2, l2) →
  let T1 := clock (pred (ticks l1)) in
  let T2 := clock (pred (ticks l2)) in
  (T2 - clock readings) * refill_rate c < 2 ^ 64 →
  granted ip cs2 rs2 * 1000000000 <= (max_tokens c + 1) * 1000000000 + refill_rate c * (T2 - T1).
Proof.
  intros Hc Hcfg Hcs1 Hcs2 Hl0 Hr1 Hr2 T1 T2 Hno. destruct (init_reached _ _ _ Hl0) as [Hr _].
  destruct (run_reached c _ cs1 l0 ∅ Hc (proj1 (clock_range _)) Hcs1 Hr) as (rs & l' & B1 & Hrun & Hl1 & _).
  rewrite Hr1 in Hrun. injection Hrun as <- <-.
  destruct (run_reached c _ cs2 l1 B1 Hc (proj1 (clock_range _)) Hcs2 Hl1) as (rs & l' & B2 & Hrun & Hl2 & Hk & _ & Hwin & _).
  rewrite Hr2 in Hrun. injection Hrun as <- <-. specialize (Hwin T1 ip 0 Hcfg (Z.le_refl _) Hno).
  pose proof (ok_rate _ Hc). pose proof (ok_max _ Hc). pose proof (clock_mono (pred (ticks l1)) (pred (ticks l2)) ltac:(lia)).
  assert (window c T1 T1 ip 0 B1) as Hw by (unfold window; destruct (B1 !! ip); [by left|fold T1; lia]). specialize (Hwin Hw).
  unfold window in Hwin. destruct (B2 !! ip) as [b|] eqn:Eb.
  - destruct (rc_sound _ _ _ _ Hl2 _ _ Eb) as [? ? ?]. subst T1 T2. destruct Hwin as [Hz|Hz]; nia.
  - subst T1 T2. nia.
Qed.

End Theorems.
