(* ===== verification/RateLimiterMap.v ===== *)
(** The red-black map as the map of the rate limiter, and the limiter's properties at
    work on it. *)

From Stdlib Require Import Sorting.Sorted.
From S2P Require Import Prelude RateLimiter RateLimiterTheorems RbMap RbTree RbSearch RbRotate RbOps RbTheorems.

(** [map_create_ex(compare_ip, NULL, NULL, NULL, bucket_free_fn)] *)
Definition ip_ops : map_ops Z nat := MapOps compare_ip None false None true.

Lemma compare_ip_0 a b : compare_ip a b = 0 ↔ a = b.
Proof. unfold compare_ip. destruct (Z.ltb_spec a b), (Z.ltb_spec b a); lia. Qed.

Lemma compare_ip_eq a b : compare_ip a b = 0 → a = b.
Proof. apply compare_ip_0. Qed.

#[export] Instance ip_ops_laws : MapLaws ip_ops.
Proof.
  split; simpl; unfold compare_ip; intros; repeat case_match; rewrite ?Z.ltb_lt, ?Z.ltb_ge in *; try done; lia.
Qed.

(** The buckets given to [bucket_free_fn]. *)
Definition freed (rl : list (released Z nat)) : list nat :=
  omap (λ r, match r with FreeValue v => v | FreeKey _ => None end) rl.

Section Instance.
Variable malloc : gmap nat (map_node Z nat) → option nat.
Hypothesis malloc_fresh : ∀ h a, malloc h = Some a → h !! a = None.
Implicit Types (l : list (Z * nat)) (m : map Z nat) (k : Z) (v : nat) (s : pairs Z nat) (z : entry Z nat).

Definition rb_erase m k : option (list nat * map Z nat) :=
  '(_, m') ← map_erase ip_ops m k; Some (freed (drop (length (m_released m)) (m_released m')), m').
Definition rb_values m : option (list nat) := vs ← iterate m (map_iterator_value m); Some (omap (M:=list) id vs).
Definition rb_free m : option (list nat) :=
  rl ← map_free ip_ops m; Some (freed (drop (length (m_released m)) rl)).

#[local] Instance rb_ordered_map : OrderedMap nat (map Z nat) := {|
  om_create := map_create_ex malloc;
  om_find := map_find ip_ops;
  om_insert := map_insert ip_ops malloc;
  om_erase := rb_erase;
  om_values := rb_values;
  om_free := rb_free |}.

(** ** Pairs and finite maps *)

Lemma lookup_pair_map l k : list_to_map (M:=gmap Z nat) l !! k = snd <$> lookup_pair ip_ops k l.
Proof.
  induction l as [|[k' v] l IH]; [simpl; apply lookup_empty|]. rewrite list_to_map_cons. unfold lookup_pair in *. simpl.
  destruct (Z.eqb_spec (compare_ip k k') 0) as [Hk%compare_ip_eq|Hk].
  - subst. by rewrite lookup_insert_eq.
  - rewrite lookup_insert_ne; [done|]. intros ->. apply Hk, compare_ip_0. done.
Qed.

Lemma sorted_keys l : StronglySorted (λ p q, compare ip_ops p.1 q.1 < 0) l → NoDup l.*1.
Proof.
  induction 1 as [|p l Hs IH Hall]; [constructor|]. csimpl. constructor; [|done]. intros (q & Hq & Hin)%list_elem_of_fmap.
  apply (proj1 (Forall_forall _ _) Hall) in Hin. rewrite Hq in Hin. rewrite (proj2 (compare_ip_0 _ _)) in Hin by done. lia.
Qed.

Lemma place_perm k v l : place ip_ops k v l ≡ₚ (k, v) :: l.
Proof. induction l as [|p l IH]; simpl; [done|]. case_match; [done|]. rewrite IH. constructor. Qed.

Lemma place_map k v l : StronglySorted (λ p q, compare ip_ops p.1 q.1 < 0) (place ip_ops k v l) →
  list_to_map (M:=gmap Z nat) (place ip_ops k v l) = <[k := v]> (list_to_map l).
Proof. intros Hs%sorted_keys. by rewrite (list_to_map_proper (M:=gmap Z) _ _ Hs (place_perm _ _ _)). Qed.

Lemma remove_map k l : list_to_map (M:=gmap Z nat) (remove ip_ops k l) = delete k (list_to_map l).
Proof.
  induction l as [|[k' v] l IH]; csimpl; [by rewrite delete_empty|].
  destruct (Z.eqb_spec (compare_ip k k') 0) as [Hk%compare_ip_eq|Hk]; csimpl.
  - subst. by rewrite IH, delete_insert_eq.
  - rewrite IH, delete_insert_ne; [done|]. intros ->. apply Hk, compare_ip_0. done.
Qed.

(** ** The laws *)

Definition rb_holds m (g : gmap Z nat) : Prop := ∃ s, Holds ip_ops m s ∧ g = list_to_map (p_list s).

Lemma freed_frees z : freed (frees ip_ops z) = [e_value z].
Proof. done. Qed.

Lemma find_pair key na m t s v : Good ip_ops na m t → p_list s = pair_of <$> elements t →
  list_to_map (M:=gmap Z nat) (p_list s) !! key = Some v → ∃ e, find_entry ip_ops key (elements t) = Some e ∧ e_value e = v.
Proof.
  intros _ Hl. rewrite lookup_pair_map, Hl, lookup_pair_entry. destruct (find_entry _ _ _) as [e|]; [|done]. intros [= <-]. by exists e.
Qed.

Lemma rb_insert_ok m g k v : rb_holds m g → g !! k = None →
  map_insert ip_ops malloc m k v = Some (-1, m) ∨ ∃ m', map_insert ip_ops malloc m k v = Some (1, m') ∧ rb_holds m' (<[k := v]> g).
Proof.
  intros (s & Hs & ->) Hk. destruct (insert_agrees ip_ops malloc malloc_fresh m s k v Hs) as (a & m' & s' & Hr & Hsp & Hs').
  cbn [run_call spec_call] in Hr, Hsp. rewrite lookup_pair_map in Hk. destruct (lookup_pair ip_ops k (p_list s)); [done|].
  destruct (map_insert ip_ops malloc m k v) as [[z m1]|] eqn:Ei; [|done]. injection Hr as <- <-.
  case_bool_decide as Hm; injection Hsp as <- <-.
  - right. exists m1. split; [done|]. eexists. split; [done|]. simpl. rewrite place_map; [done|]. by apply Holds_sorted in Hs'.
  - left. unfold map_insert in Ei. destruct (map_find_node ip_ops m k); simpl in Ei; [|done]. destruct (negb _); [done|].
    unfold map_create_node in Ei. destruct (malloc (m_nodes m)) eqn:Em; [by destruct Hm|]. by injection Ei as <-.
Qed.

Lemma rb_erase_ok m g k v : rb_holds m g → g !! k = Some v → ∃ m', rb_erase m k = Some ([v], m') ∧ rb_holds m' (delete k g).
Proof.
  intros (s & Hs & ->) Hk. pose proof Hs as [(na & t & HG & Hl) Hrel]. destruct (find_pair _ _ _ _ _ _ HG Hl Hk) as (z & Hz & <-).
  destruct (map_erase_found ip_ops malloc malloc_fresh _ _ _ _ _ HG Hz) as (m' & t' & xs & ys & Hm & HG' & Hr & Ht & Ht').
  pose proof (find_entry_in _ _ _ _ Hz) as [_ Hzk]. unfold rb_erase. rewrite Hm. simpl. exists m'. rewrite Hr, drop_app_length, freed_frees.
  split; [done|]. exists (Pairs (pair_of <$> elements t') (m_released m')). split; [split; [by exists na, t'|done]|]. simpl.
  rewrite <- remove_map, Hl, Ht, Ht', remove_split; [done|apply _| |done]. destruct HG as [_ _ _ Hsort _ _]. by rewrite Ht in Hsort.
Qed.

Lemma rb_values_ok m g : rb_holds m g → ∃ vs, rb_values m = Some vs ∧ vs ≡ₚ snd <$> map_to_list g.
Proof.
  intros (s & Hs & ->). pose proof (sorted_keys _ (Holds_sorted _ _ _ Hs)) as Hnd. destruct Hs as [(na & t & HG & Hl) _].
  unfold rb_values. rewrite (iterate_value ip_ops _ _ _ HG), <- Hl. simpl. eexists. split; [done|].
  rewrite map_to_list_to_map by done. generalize (p_list s). intros l. induction l as [|p l IH]; csimpl; [done|]. by rewrite IH.
Qed.

Lemma rb_free_ok m g : rb_holds m g → ∃ vs, rb_free m = Some vs ∧ vs ≡ₚ snd <$> map_to_list g.
Proof.
  intros (s & Hs & ->). pose proof (sorted_keys _ (Holds_sorted _ _ _ Hs)) as Hnd. destruct Hs as [(na & t & HG & Hl) _].
  destruct (map_clear_rep ip_ops malloc malloc_fresh _ _ _ HG) as (m' & es & Hm & HG' & Hes & Hr).
  unfold rb_free, map_free. rewrite Hm. simpl. destruct HG' as [[-> [q Hq] _ _ _] _ _ _ _ _]. simpl. rewrite Hq. simpl.
  eexists. split; [done|]. rewrite Hr, drop_app_length, map_to_list_to_map by done. rewrite Hl, <- list_fmap_compose, <- Hes.
  clear. induction es as [|e es IH]; csimpl; [done|]. by rewrite IH.
Qed.

#[local] Instance rb_ordered_map_laws : OrderedMapLaws nat (map Z nat).
Proof.
  refine {| om_holds := rb_holds |}.
  - intros m Hm. exists (Pairs [] []). split; [|done]. by apply (created_holds ip_ops malloc malloc_fresh).
  - intros m g k (s & Hs & ->). destruct Hs as [(na & t & HG & Hl) _]. simpl. rewrite (map_find_rep _ _ _ _ _ HG). f_equal.
    rewrite lookup_pair_map, Hl, lookup_pair_entry. by destruct (find_entry _ _ _).
  - intros m g k v. apply rb_insert_ok.
  - intros m g k v. apply rb_erase_ok.
  - intros m g. apply rb_values_ok.
  - intros m g. apply rb_free_ok.
Qed.

(** With memory, an insertion never reports that it is out of it. *)
Lemma rb_insert_succeeds : (∀ h, is_Some (malloc h)) → ∀ m k v, map_insert ip_ops malloc m k v ≠ Some (-1, m).
Proof.
  intros Hm m k v. unfold map_insert. destruct (map_find_node ip_ops m k); simpl; [|done]. destruct (negb _); [done|].
  unfold map_create_node. destruct (Hm (m_nodes m)) as [a ->]. intros Hi.
  repeat match type of Hi with (?o ≫= _) = _ => destruct o; simpl in Hi; [|done] end. done.
Qed.
End Instance.

(** ** At work: two tokens of burst, one a second, a clock of ten readings a second *)

Definition rl_config : ratelimiter_config := Config 2 1 0 10.
Definition rl_clock (i : nat) : Z := Z.min (Z.of_nat i * 100000000) (2 ^ 63).
Definition rl_malloc (h : gmap nat (map_node Z nat)) : option nat := Some (fresh (dom h)).
Definition rl_malloc_bucket (h : gmap nat bucket) : option nat := Some (fresh (dom h)).
Definition rl_malloc_ips (_ : Z) : bool := true.

#[local] Instance rl_map : OrderedMap nat (map Z nat) := rb_ordered_map rl_malloc.

Lemma rl_malloc_fresh h a : rl_malloc h = Some a → h !! a = None.
Proof. intros [= <-]. apply not_elem_of_dom, is_fresh. Qed.
Lemma rl_bucket_fresh h a : rl_malloc_bucket h = Some a → h !! a = None.
Proof. intros [= <-]. apply not_elem_of_dom, is_fresh. Qed.
Lemma rl_bucket_memory h : is_Some (rl_malloc_bucket h).
Proof. by eexists. Qed.
Lemma rl_insert_succeeds (m : map Z nat) k (v : nat) : om_insert m k v ≠ Some (-1, m).
Proof. apply (rb_insert_succeeds rl_malloc). by eexists. Qed.
Lemma rl_clock_mono i j : (i <= j)%nat → rl_clock i <= rl_clock j.
Proof. unfold rl_clock. lia. Qed.
Lemma rl_clock_range i : 0 <= rl_clock i < 2 ^ 64.
Proof. unfold rl_clock. lia. Qed.
Lemma rl_config_ok : config_ok rl_config.
Proof. split; simpl; lia. Qed.

#[local] Instance rl_laws : OrderedMapLaws nat (map Z nat) := rb_ordered_map_laws rl_malloc rl_malloc_fresh.

Abbreviation rl_run := (run_allow rl_clock rl_malloc_bucket rl_malloc_ips).
Definition rl_start : option (limiter (map Z nat)) := ratelimiter_init rl_clock rl_config 0.
Definition rl_requests : list (Z * Z) := [(7, 1); (7, 1); (7, 1); (9, 2); (7, 1); (9, 1)].
Definition rl_others : list (Z * Z) := [(9, 1); (9, 1); (9, 1); (9, 1)].

Lemma rl_requests_ok : Forall (λ ipn, 0 <= ipn.2) rl_requests.
Proof. repeat constructor; simpl; lia. Qed.
Lemma rl_others_ok : Forall (λ ipn, 0 <= ipn.2) rl_others.
Proof. repeat constructor; simpl; lia. Qed.

Lemma rl_absent : 7 ∉ rl_others.*1.
Proof. apply (bool_decide_eq_true _). reflexivity. Qed.

Definition limiter0 : limiter (map Z nat) :=
  default (Limiter rl_config (Map None None 0 ∅ []) 0 false 0 ∅ 0) rl_start.
Definition limiter1 : limiter (map Z nat) := default limiter0 (snd <$> rl_run limiter0 rl_requests).
Definition limiter2 : limiter (map Z nat) := default limiter0 (snd <$> rl_run limiter1 rl_others).


Lemma ratelimiter_bound_witness :
  rl_run limiter1 rl_others = Some ([true; false; false; false], limiter2) ∧
  granted 9 rl_others [true; false; false; false] * 1000000000 <=
    (2 + 1) * 1000000000 + 1 * (rl_clock (pred (ticks limiter2)) - rl_clock (pred (ticks limiter1))).
Proof.
  split; [vm_compute; reflexivity|].
  apply (ratelimiter_bound rl_clock rl_malloc_bucket rl_malloc_ips rl_bucket_fresh rl_bucket_memory rl_insert_succeeds
    rl_clock_mono rl_clock_range rl_config 0 limiter0 rl_requests [true; true; false; true; true; false] limiter1 rl_others
    [true; false; false; false] limiter2 9 rl_config_ok);
    [vm_compute; congruence|exact rl_requests_ok|exact rl_others_ok|reflexivity|vm_compute; reflexivity|vm_compute; reflexivity|
     vm_compute; reflexivity].
Defined.

