(* ===== verification/RateLimiterRace.v ===== *)
(** Several threads in the rate limiter: between finding its bucket and locking it, a
    thread holds a pointer that nothing protects. *)

From stdpp Require Import relations.
From S2P Require Import Prelude RateLimiter RateLimiterTheorems RateLimiterMap RbMap.

Section Threads.
Context {M : Type} `{!OrderedMap nat M}.
Variable clock : nat → Z.
Variable malloc_bucket : gmap nat bucket → option nat.
Variable malloc_ips : Z → bool.

(** Where a call of [ratelimiter_allow] is. *)
Inductive phase : Type :=
  | Called (ip n : Z)
  | Swept (ip n : Z)
  | Holding (p : nat) (n : Z)
  | Answered (r : bool).

Definition threads : Type := (limiter M * list phase)%type.

(** The critical sections of a call, each one step: the sweep, the search with the creation
    of a missing bucket, and the work under the bucket's lock. *)
Inductive thread_step : threads → threads → Prop :=
  | step_sweep l l' ts i ip n :
      ts !! i = Some (Called ip n) → cleanup_old_buckets clock malloc_ips l = Some l' →
      thread_step (l, ts) (l', <[i := Swept ip n]> ts)
  | step_unlimited l ts i ip n :
      ts !! i = Some (Swept ip n) → refill_rate (config l) = 0 →
      thread_step (l, ts) (l, <[i := Answered true]> ts)
  | step_find l l' ts i ip n p :
      ts !! i = Some (Swept ip n) → refill_rate (config l) ≠ 0 →
      find_or_create_bucket clock malloc_bucket l ip = Some (Some p, l') →
      thread_step (l, ts) (l', <[i := Holding p n]> ts)
  | step_no_memory l l' ts i ip n :
      ts !! i = Some (Swept ip n) → refill_rate (config l) ≠ 0 →
      find_or_create_bucket clock malloc_bucket l ip = Some (None, l') →
      thread_step (l, ts) (l', <[i := Answered true]> ts)
  | step_take l l' ts i p n r :
      ts !! i = Some (Holding p n) → take_tokens clock l p n = Some (r, l') →
      thread_step (l, ts) (l', <[i := Answered r]> ts).

(** One thread alone takes the steps of [ratelimiter_allow]. *)
Lemma allow_steps l ip n r l' ts i :
  ts !! i = Some (Called ip n) → ratelimiter_allow clock malloc_bucket malloc_ips l ip n = Some (r, l') →
  rtc thread_step (l, ts) (l', <[i := Answered r]> ts).
Proof.
  intros Hi Ha. unfold ratelimiter_allow in Ha. destruct (cleanup_old_buckets clock malloc_ips l) as [l1|] eqn:Ec; simpl in Ha; [|done].
  assert (i < length ts)%nat as Hlt by (by eapply lookup_lt_Some).
  assert (∀ x y : phase, <[i := y]> (<[i := x]> ts) = <[i := y]> ts) as Hins by (intros; apply list_insert_insert_eq).
  assert (∀ x : phase, <[i := x]> ts !! i = Some x) as Hlk by (intros; by apply list_lookup_insert_eq).
  eapply rtc_l; [by eapply step_sweep|]. destruct (Z.eqb_spec (refill_rate (config l1)) 0) as [Hz|Hz].
  - injection Ha as <- <-. eapply rtc_l; [by eapply (step_unlimited _ _ i)|]. rewrite Hins. apply rtc_refl.
  - destruct (find_or_create_bucket clock malloc_bucket l1 ip) as [[[p|] l2]|] eqn:Ef; simpl in Ha; [| |done].
    + eapply rtc_l; [by eapply (step_find _ _ _ i)|]. eapply rtc_l; [eapply (step_take _ _ _ i); [by rewrite Hins|exact Ha]|].
      rewrite !Hins. apply rtc_refl.
    + injection Ha as <- <-. eapply rtc_l; [by eapply (step_no_memory _ _ _ i)|]. rewrite Hins. apply rtc_refl.
Qed.
End Threads.
#[global] Arguments threads : clear implicits.

(** The readings of the clock in the run below, in seconds. *)
Definition race_clock (i : nat) : Z := nth i [0; 0; 0; 0; 0; 0; 10; 10; 10; 10; 10; 15] 20 * 1000000000.
Definition race_malloc (h : gmap nat (map_node Z nat)) : option nat := Some (fresh (dom h)).

#[local] Instance race_map : OrderedMap nat (map Z nat) := rb_ordered_map race_malloc.

Abbreviation race_step := (thread_step race_clock rl_malloc_bucket rl_malloc_ips).

Definition race_limiter : limiter (map Z nat) :=
  default (Limiter rl_config (Map None None 0 ∅ []) 0 false 0 ∅ 0) (ratelimiter_init race_clock rl_config 0).

Definition race_calls : list phase := [Called 7 1; Called 9 1; Called 7 1; Called 8 1].

Lemma race_clock_mono i j : (i <= j)%nat → race_clock i <= race_clock j.
Proof.
  intros H. unfold race_clock. do 12 (destruct i as [|i]; [do 12 (destruct j as [|j]; [simpl; lia|]); destruct j; simpl; lia|];
    destruct j as [|j]; [lia|]). destruct i, j; simpl; lia.
Qed.

(** The sequence of limiters. *)
Definition after_first : limiter (map Z nat) :=
  default race_limiter (snd <$> ratelimiter_allow race_clock rl_malloc_bucket rl_malloc_ips race_limiter 7 1).
Definition after_second : limiter (map Z nat) :=
  default race_limiter (snd <$> ratelimiter_allow race_clock rl_malloc_bucket rl_malloc_ips after_first 9 1).
Definition after_third_sweep : limiter (map Z nat) :=
  default race_limiter (cleanup_old_buckets race_clock rl_malloc_ips after_second).
Definition after_third_find : limiter (map Z nat) :=
  default race_limiter (snd <$> find_or_create_bucket race_clock rl_malloc_bucket after_third_sweep 7).
Definition after_fourth_sweep : limiter (map Z nat) :=
  default race_limiter (cleanup_old_buckets race_clock rl_malloc_ips after_third_find).

(** C39: With several threads the limiter reads freed memory. Two calls are answered; a
    third thread finds the bucket of its client, idle for more than the cleanup interval;
    before it locks the bucket, a fourth thread's cleanup frees it. The third thread's
    next step locks and reads the freed bucket. *)
Theorem ratelimiter_use_after_free :
  (∀ i j, (i <= j)%nat → race_clock i <= race_clock j) ∧
  ∃ l ts p n, rtc race_step (race_limiter, race_calls) (l, ts) ∧
    ts !! 2%nat = Some (Holding p n) ∧ b_heap l !! p = None ∧ take_tokens race_clock l p n = None.
Proof.
  split; [exact race_clock_mono|]. exists after_fourth_sweep, [Answered true; Answered true; Holding 0 1; Swept 8 1], 0%nat, 1.
  split; [|by vm_compute].
  etransitivity; [eapply (allow_steps _ _ _ _ 7 1 true after_first _ 0); vm_compute; reflexivity|].
  etransitivity; [eapply (allow_steps _ _ _ _ 9 1 true after_second _ 1); vm_compute; reflexivity|].
  eapply rtc_l; [eapply (step_sweep _ _ _ _ after_third_sweep _ 2); vm_compute; reflexivity|].
  eapply rtc_l; [eapply (step_find _ _ _ _ after_third_find _ 2 7 1 0); [vm_compute; reflexivity|vm_compute; congruence|vm_compute; reflexivity]|].
  eapply rtc_l; [eapply (step_sweep _ _ _ _ after_fourth_sweep _ 3); vm_compute; reflexivity|]. apply rtc_refl.
Qed.
