(* ===== verification/Json.v ===== *)
(** The JSON parser of [misc/json.c]: tokens, strings and the loop of [json_parse].

    Tokens are cells of a heap, linked by child, sibling, last sibling and parent;
    a pointer is [None] for NULL. A [str_t] is the list of its bytes. [alloc] picks the
    slot of a new token in the pool. A [long double] is a type of its own, read by
    [strtold], which gives the value and the number of bytes it used. The text is the block of
    its bytes with the terminator. *)

From stdpp Require Export gmap.
From S2P Require Import Prelude.

#[global] Open Scope Z_scope.

Inductive json_type : Set :=
  | JSON_OBJECT | JSON_ARRAY | JSON_STRING | JSON_BOOL | JSON_NULL | JSON_NUMBER.

#[export] Instance json_type_eq_dec : EqDecision json_type.
Proof. solve_decision. Defined.

(** The union [json_value_u]. *)
Inductive json_value (num : Type) : Type :=
  | VInt (z : Z)
  | VNum (x : num)
  | VStr (s : list Z).
#[global] Arguments VInt {num}.
#[global] Arguments VNum {num}.
#[global] Arguments VStr {num}.

Abbreviation tptr := (option nat).

Record json_token (num : Type) : Type := Token {
  t_child : tptr;
  t_sibling : tptr;
  t_last_sibling : tptr;
  t_parent : tptr;
  t_size : Z;
  t_value : json_value num;
  t_type : json_type }.
#[global] Arguments Token {num}.
#[global] Arguments t_child {num}.
#[global] Arguments t_sibling {num}.
#[global] Arguments t_last_sibling {num}.
#[global] Arguments t_parent {num}.
#[global] Arguments t_size {num}.
#[global] Arguments t_value {num}.
#[global] Arguments t_type {num}.

(** The messages of [parser.error]. *)
Inductive json_error : Set :=
  | OutOfMemory
  | ObjectArrayKey
  | UnexpectedClosing
  | MismatchedBrackets
  | PrimitiveKey
  | UnexpectedCharacter
  | UnclosedContainer
  | ExpectedQuote
  | UnterminatedEnd
  | UnterminatedNull
  | Unterminated
  | ControlCharacter
  | IncompleteEscape
  | IncompleteUnicode
  | InvalidHex
  | SurrogateIncomplete
  | SurrogateExpected
  | SurrogateIncompleteLow
  | SurrogateInvalidHex
  | SurrogateRange
  | SurrogateUnexpectedLow
  | CodepointRange
  | InvalidEscape
  | Utf8Overlong
  | Utf8End
  | Utf8Continuation
  | Utf8Surrogate
  | Utf8ByteRange
  | Utf8CodepointRange
  | Utf8Start
  | ExpectedNull
  | ExpectedTrue
  | ExpectedFalse
  | InvalidNumber.

(** What a piece of the parser gives: an error it reports, or a result. *)
Abbreviation result A := (option (json_error + A)).

Definition fails {E A} (e : E) : option (E + A) := Some (inl e).
Definition gives {E A} (x : A) : option (E + A) := Some (inr x).

Definition and_then {E A B} (r : option (E + A)) (f : A → option (E + B)) : option (E + B) :=
  match r with None => None | Some (inl e) => Some (inl e) | Some (inr x) => f x end.

Notation "'let*' p := r 'in' k" := (and_then r (λ x, match x with p => k end))
  (at level 200, p pattern, r at level 100, k at level 200).

(** ** Strings *)

Section Strings.
(** The text and the end of it. *)
Variable s : list Z.
Variable e : Z.

Definition escape_table (c : Z) : Z :=
  if c =? 98 then 8 else if c =? 102 then 12 else if c =? 110 then 10 else if c =? 114 then 13
  else if c =? 116 then 9 else if c =? 34 then 34 else if c =? 92 then 92 else if c =? 47 then 47 else 0.

(** One hexadecimal digit, in the three cases of the code; [c] is a signed [char]. *)
Definition hex_digit (c : Z) : option Z :=
  let c := schar c in
  if (48 <=? c) && (c <=? 57) then Some (c - 48)
  else if (97 <=? c) && (c <=? 102) then Some (c - 97 + 10)
  else if (65 <=? c) && (c <=? 70) then Some (c - 65 + 10)
  else None.

(** The loop over four digits. *)
Fixpoint hex_loop (n : nat) (scan codepoint : Z) (e_end e_hex : json_error) : result (Z * Z) :=
  match n with
  | O => gives (codepoint, scan)
  | S n' =>
      match mem_get s scan with
      | None => None
      | Some c =>
          if c =? 0 then fails e_end
          else
            match hex_digit c with
            | None => fails e_hex
            | Some d => hex_loop n' (scan + 1) (Z.lor (Z.shiftl codepoint 4) d) e_end e_hex
            end
      end
  end.

(** The second half of a surrogate pair. *)
Definition low_surrogate (high scan : Z) : result (Z * Z) :=
  if e <? scan + 2 then fails SurrogateIncomplete
  else
    match mem_get s scan, mem_get s (scan + 1) with
    | Some a, Some b =>
        if negb (a =? 92) || negb (b =? 117) then fails SurrogateExpected
        else
          let scan := scan + 2 in
          if e <? scan + 4 then fails SurrogateIncompleteLow
          else
            let* (low, scan) := hex_loop 4 scan 0 SurrogateIncompleteLow SurrogateInvalidHex in
            if (low <? 0xDC00) || (0xDFFF <? low) then fails SurrogateRange
            else gives (0x10000 + Z.shiftl (high - 0xD800) 10 + (low - 0xDC00), scan)
    | _, _ => None
    end.

Definition encode_utf8 (codepoint : Z) : result (list Z) :=
  if codepoint <? 0x80 then gives [codepoint]
  else if codepoint <? 0x800 then
    gives [Z.lor 0xC0 (Z.shiftr codepoint 6); Z.lor 0x80 (Z.land codepoint 0x3F)]
  else if codepoint <? 0x10000 then
    gives [Z.lor 0xE0 (Z.shiftr codepoint 12); Z.lor 0x80 (Z.land (Z.shiftr codepoint 6) 0x3F);
           Z.lor 0x80 (Z.land codepoint 0x3F)]
  else if codepoint <=? 0x10FFFF then
    gives [Z.lor 0xF0 (Z.shiftr codepoint 18); Z.lor 0x80 (Z.land (Z.shiftr codepoint 12) 0x3F);
           Z.lor 0x80 (Z.land (Z.shiftr codepoint 6) 0x3F); Z.lor 0x80 (Z.land codepoint 0x3F)]
  else fails CodepointRange.

(** After a backslash and [u]: the bytes to append and where to go on. *)
Definition scan_unicode (scan : Z) : result (list Z * Z) :=
  if e <? scan + 4 then fails IncompleteUnicode
  else
    match mem_get s scan with
    | None => None
    | Some c =>
        if c =? 0 then fails IncompleteEscape
        else
          let* (codepoint, scan) := hex_loop 4 scan 0 IncompleteUnicode InvalidHex in
          let* (codepoint, scan) :=
            (if (0xD800 <=? codepoint) && (codepoint <=? 0xDBFF) then low_surrogate codepoint scan
             else if (0xDC00 <=? codepoint) && (codepoint <=? 0xDFFF) then fails SurrogateUnexpectedLow
             else gives (codepoint, scan)) in
          let* bytes := encode_utf8 codepoint in
          gives (bytes, scan)
    end.

(** After a backslash. *)
Definition scan_escape (scan : Z) : result (list Z * Z) :=
  if e <=? scan then fails IncompleteEscape
  else
    match mem_get s scan with
    | None => None
    | Some c =>
        if c =? 0 then fails IncompleteEscape
        else if c =? 117 then scan_unicode (scan + 1)
        else
          let escaped := escape_table c in
          if escaped =? 0 then fails InvalidEscape else gives ([escaped], scan + 1)
    end.

Definition bad_continuation (c : Z) : bool := (c =? 0) || (c =? 34) || negb (Z.land c 0xC0 =? 0x80).

(** A character that is not escaped, its UTF-8 checked. *)
Definition scan_plain (scan c : Z) : result (list Z * Z) :=
  if c <? 0x80 then gives ([c], scan + 1)
  else if Z.land c 0xE0 =? 0xC0 then
    if c <? 0xC2 then fails Utf8Overlong
    else if e <? scan + 2 then fails Utf8End
    else
      match mem_get s (scan + 1) with
      | None => None
      | Some n1 => if bad_continuation n1 then fails Utf8Continuation else gives ([c; n1], scan + 2)
      end
  else if Z.land c 0xF0 =? 0xE0 then
    if e <? scan + 3 then fails Utf8End
    else
      match mem_get s (scan + 1), mem_get s (scan + 2) with
      | Some n1, Some n2 =>
          if bad_continuation n1 then fails Utf8Continuation
          else if bad_continuation n2 then fails Utf8Continuation
          else
            let codepoint := Z.lor (Z.lor (Z.shiftl (Z.land c 0x0F) 12) (Z.shiftl (Z.land n1 0x3F) 6)) (Z.land n2 0x3F) in
            if codepoint <? 0x800 then fails Utf8Overlong
            else if (0xD800 <=? codepoint) && (codepoint <=? 0xDFFF) then fails Utf8Surrogate
            else gives ([c; n1; n2], scan + 3)
      | _, _ => None
      end
  else if Z.land c 0xF8 =? 0xF0 then
    if 0xF4 <? c then fails Utf8ByteRange
    else if e <? scan + 4 then fails Utf8End
    else
      match mem_get s (scan + 1), mem_get s (scan + 2), mem_get s (scan + 3) with
      | Some n1, Some n2, Some n3 =>
          if bad_continuation n1 then fails Utf8Continuation
          else if bad_continuation n2 then fails Utf8Continuation
          else if bad_continuation n3 then fails Utf8Continuation
          else
            let codepoint := Z.lor (Z.lor (Z.lor (Z.shiftl (Z.land c 0x07) 18) (Z.shiftl (Z.land n1 0x3F) 12))
                                      (Z.shiftl (Z.land n2 0x3F) 6)) (Z.land n3 0x3F) in
            if codepoint <? 0x10000 then fails Utf8Overlong
            else if 0x10FFFF <? codepoint then fails Utf8CodepointRange
            else gives ([c; n1; n2; n3], scan + 4)
      | _, _, _ => None
      end
  else fails Utf8Start.

(** The loop of [__parse_string]: the string and the position of its closing quote. *)
Fixpoint string_loop (fuel : nat) (scan : Z) (str : list Z) : result (list Z * Z) :=
  match fuel with
  | O => None
  | S f =>
      if e <=? scan then fails UnterminatedEnd
      else
        match mem_get s scan with
        | None => None
        | Some c =>
            if c =? 0 then fails UnterminatedNull
            else if c =? 34 then gives (str, scan)
            else if c <? 0x20 then fails ControlCharacter
            else
              let* (bytes, scan) := (if c =? 92 then scan_escape (scan + 1) else scan_plain scan c) in
              string_loop f scan (str ++ bytes)
        end
  end.

(** [__parse_string] from the opening quote, without its token: the value and the position
    after the closing quote. *)
Definition scan_string (ptr : Z) : result (list Z * Z) :=
  match mem_get s ptr with
  | None => None
  | Some c =>
      if negb (c =? 34) then fails ExpectedQuote
      else
        let ptr := ptr + 1 in
        if e <=? ptr then fails UnterminatedEnd
        else
          let* (str, scan) := string_loop (S (length s)) ptr [] in
          match mem_get s scan with
          | None => None
          | Some q => if negb (q =? 34) then fails Unterminated else gives (str, scan + 1)
          end
  end.
End Strings.

(** ** Tokens *)

Section Parser.
Context {num : Type}.
Abbreviation token := (json_token num).
Abbreviation jheap := (gmap nat (json_token num)).
(** The pool, and [strtold] on the bytes up to the terminator. *)
Variable alloc : jheap → option nat.
Variable strtold : list Z → num * Z.
Implicit Types (h : jheap) (t : token).

Definition set_child (p : tptr) t : token :=
  Token p (t_sibling t) (t_last_sibling t) (t_parent t) (t_size t) (t_value t) (t_type t).
Definition set_sibling (p : tptr) t : token :=
  Token (t_child t) p (t_last_sibling t) (t_parent t) (t_size t) (t_value t) (t_type t).
Definition set_last (p : tptr) t : token :=
  Token (t_child t) (t_sibling t) p (t_parent t) (t_size t) (t_value t) (t_type t).
Definition set_parent (p : tptr) t : token :=
  Token (t_child t) (t_sibling t) (t_last_sibling t) p (t_size t) (t_value t) (t_type t).
Definition set_size (n : Z) t : token :=
  Token (t_child t) (t_sibling t) (t_last_sibling t) (t_parent t) n (t_value t) (t_type t).
Definition set_value (v : json_value num) t : token :=
  Token (t_child t) (t_sibling t) (t_last_sibling t) (t_parent t) (t_size t) v (t_type t).

Definition get h (p : tptr) : option token := a ← p; h !! a.
Definition update h (p : tptr) (f : token → token) : option jheap := a ← p; t ← h !! a; Some (<[a := f t]> h).

Definition init_token (ty : json_type) : token :=
  Token None None None None 0 (if bool_decide (ty = JSON_STRING) then VStr [] else VInt 0) ty.

(** A new token; [None] is NULL. *)
Definition json_token_alloc h (ty : json_type) : option (nat * jheap) :=
  a ← alloc h; Some (a, <[a := init_token ty]> h).

(** Without the bookkeeping of the pool. *)
Definition json_token_free h (p : tptr) : jheap := match p with Some a => delete a h | None => h end.

Definition set_child_or_sibling h (src dst : nat) : option jheap :=
  ts ← h !! src;
  h ← (match t_child ts with
       | None => update h (Some src) (set_child (Some dst))
       | Some _ => update h (t_last_sibling ts) (set_sibling (Some dst))
       end);
  h ← update h (Some src) (set_last (Some dst));
  h ← update h (Some dst) (set_parent (Some src));
  ts ← h !! src;
  match t_type ts with
  | JSON_OBJECT | JSON_ARRAY => update h (Some src) (set_size (wrap64 (t_size ts + 1)))
  | _ => Some h
  end.

(** ** The loop of [json_parse] *)

Record parse_state : Type := PState {
  ps_heap : jheap;
  ps_root : tptr;
  ps_super : tptr;
  ps_last : tptr }.

Definition with_heap (st : parse_state) h : parse_state := PState h (ps_root st) (ps_super st) (ps_last st).

(** A failure comes with the state the loop was left in. *)
Abbreviation outcome A := (option ((json_error * parse_state) + A)).

Variable s : list Z.
Variable e : Z.

(** Make the token [a] the next child of the current parent, and the root if there is none. *)
Definition attach (st : parse_state) (a : nat) : option parse_state :=
  h ← (match ps_super st with
       | None => Some (ps_heap st)
       | Some p => h ← update (ps_heap st) (Some a) (set_parent (Some p)); set_child_or_sibling h p a
       end);
  let root := match ps_root st with None => Some a | Some r => Some r end in
  Some (PState h root (ps_super st) (Some a)).

(** A literal: [n] bytes are compared with those expected. *)
Fixpoint expect (n : nat) (ptr : Z) (expected : list Z) : option bool :=
  match n, expected with
  | S n', x :: expected' =>
      c ← mem_get s ptr;
      if (c =? 0) || negb (c =? x) then Some false else expect n' (ptr + 1) expected'
  | _, _ => Some true
  end.

(** The bytes from [ptr] to the terminator. *)
Definition rest_of (ptr : Z) : list Z :=
  let fix go (l : list Z) := match l with [] => [] | c :: l' => if c =? 0 then [] else c :: go l' end in
  go (drop (Z.to_nat ptr) s).

(** What the parsers of single tokens give: the token, NULL when there is no memory for it, with
    the position after it; or an error. The caller frees the token of a failed parser. *)
Definition with_token (st : parse_state) (ty : json_type) (ptr : Z) (body : nat → jheap → result (jheap * Z)) :
    outcome (option nat * jheap * Z) :=
  match json_token_alloc (ps_heap st) ty with
  | None => gives (None, ps_heap st, ptr)
  | Some (a, h) =>
      match body a h with
      | None => None
      | Some (inl err) => fails (err, with_heap st (json_token_free h (Some a)))
      | Some (inr (h, ptr)) => gives (Some a, h, ptr)
      end
  end.

Definition parse_literal st (ty : json_type) (v : Z) (expected : list Z) (skip : Z) (err : json_error) (ptr : Z) :=
  with_token st ty ptr (λ a h,
    match expect 4 ptr expected with
    | None => None
    | Some false => fails err
    | Some true => gives (alter (set_value (VInt v)) a h, ptr + skip)
    end).

Definition parse_null st ptr := parse_literal st JSON_NULL 0 (bs "null") 4 ExpectedNull ptr.
Definition parse_true st ptr := parse_literal st JSON_BOOL 1 (bs "true") 4 ExpectedTrue ptr.
(** Four of the five bytes are compared. *)
Definition parse_false st ptr := parse_literal st JSON_BOOL 0 (bs "false") 5 ExpectedFalse ptr.

Definition parse_number st (ptr : Z) :=
  with_token st JSON_NUMBER ptr (λ a h,
    let (x, used) := strtold (rest_of ptr) in
    if used =? 0 then fails InvalidNumber else gives (alter (set_value (VNum x)) a h, ptr + used)).

Definition parse_string st (ptr : Z) :=
  with_token st JSON_STRING ptr (λ a h,
    let* (str, ptr) := scan_string s e ptr in gives (alter (set_value (VStr str)) a h, ptr)).

(** Up from [container] to the first token of the expected type. *)
Fixpoint climb (fuel : nat) h (container : tptr) (expected : json_type) : option tptr :=
  match fuel with
  | O => None
  | S f =>
      match container with
      | None => Some None
      | Some a =>
          t ← h !! a;
          if bool_decide (t_type t = expected) then Some container
          else
            match t_parent t with
            | None => climb f h None expected
            | Some p =>
                tp ← h !! p;
                if bool_decide (t_type tp = expected) then Some (Some p) else climb f h (Some p) expected
            end
      end
  end.

(** An opening bracket. *)
Definition open_container (st : parse_state) (ty : json_type) : outcome parse_state :=
  match json_token_alloc (ps_heap st) ty with
  | None => fails (OutOfMemory, st)
  | Some (a, h) =>
      let st := with_heap st h in
      let attached :=
        match attach st a with
        | None => None
        | Some st => gives (PState (ps_heap st) (ps_root st) (Some a) (Some a))
        end in
      match ps_super st with
      | None => attached
      | Some p =>
          match h !! p with
          | None => None
          | Some tp => if bool_decide (t_type tp = JSON_OBJECT) then fails (ObjectArrayKey, st) else attached
          end
      end
  end.

(** A closing bracket. *)
Definition close_container (st : parse_state) (expected : json_type) : outcome parse_state :=
  match ps_super st with
  | None => fails (UnexpectedClosing, st)
  | Some _ =>
      match climb (S (size (ps_heap st))) (ps_heap st) (ps_super st) expected with
      | None => None
      | Some None => fails (MismatchedBrackets, st)
      | Some (Some a) =>
          match ps_heap st !! a with
          | None => None
          | Some t =>
              if negb (bool_decide (t_type t = expected)) then fails (MismatchedBrackets, st)
              else gives (PState (ps_heap st) (ps_root st) (t_parent t) (ps_last st))
          end
      end
  end.

(** A token read: attached, and the position of the loop moved to its last byte. NULL is
    linked without a test. *)
Definition add_token (st : parse_state) (r : outcome (option nat * jheap * Z)) : outcome (Z * parse_state) :=
  let* (tok, h, ptr) := r in
  let st := with_heap st h in
  match tok with
  | Some a => match attach st a with None => None | Some st => gives (ptr - 1, st) end
  | None =>
      match ps_super st with
      | Some _ => None
      | None => gives (ptr - 1, PState h (ps_root st) None None)
      end
  end.

Definition is_primitive (c : Z) : bool :=
  (c =? 45) || ((48 <=? c) && (c <=? 57)) || (c =? 116) || (c =? 102) || (c =? 110).

(** One turn of the loop: the position it ends on and the state. *)
Definition parse_step (pos : Z) (c : Z) (st : parse_state) : outcome (Z * parse_state) :=
  if (c =? 123) || (c =? 91) then
    let* st := open_container st (if c =? 123 then JSON_OBJECT else JSON_ARRAY) in gives (pos, st)
  else if (c =? 125) || (c =? 93) then
    let* st := close_container st (if c =? 125 then JSON_OBJECT else JSON_ARRAY) in gives (pos, st)
  else if c =? 34 then add_token st (parse_string st pos)
  else if (c =? 9) || (c =? 13) || (c =? 10) || (c =? 32) then gives (pos, st)
  else if c =? 58 then
    match ps_last st with
    | Some a => gives (pos, PState (ps_heap st) (ps_root st) (Some a) (ps_last st))
    | None => gives (pos, st)
    end
  else if c =? 44 then
    match ps_super st with
    | None => gives (pos, st)
    | Some a =>
        match ps_heap st !! a with
        | None => None
        | Some t =>
            match t_type t with
            | JSON_ARRAY | JSON_OBJECT => gives (pos, st)
            | _ => gives (pos, PState (ps_heap st) (ps_root st) (t_parent t) (ps_last st))
            end
        end
    end
  else if is_primitive c then
    let added := add_token st
      (if c =? 116 then parse_true st pos
       else if c =? 102 then parse_false st pos
       else if c =? 110 then parse_null st pos
       else parse_number st pos) in
    match ps_super st with
    | None => added
    | Some p =>
        match ps_heap st !! p with
        | None => None
        | Some tp => if bool_decide (t_type tp = JSON_OBJECT) then fails (PrimitiveKey, st) else added
        end
    end
  else fails (UnexpectedCharacter, st).

Fixpoint parse_loop (fuel : nat) (pos : Z) (st : parse_state) : outcome parse_state :=
  match fuel with
  | O => None
  | S f =>
      if e <=? pos then gives st
      else
        match mem_get s pos with
        | None => None
        | Some c =>
            if c =? 0 then gives st
            else let* (pos, st) := parse_step pos c st in parse_loop f (pos + 1) st
        end
  end.

(** ** Freeing *)

(** [__free_token_tree]: the token, then its children, then its siblings. *)
Fixpoint free_token_tree (fuel : nat) h (p : tptr) : option jheap :=
  match fuel with
  | O => None
  | S f =>
      match p with
      | None => Some h
      | Some a =>
          t ← h !! a;
          h ← free_token_tree f (delete a h) (t_child t);
          free_token_tree f h (t_sibling t)
      end
  end.

(** The document's tokens; the recursion is at most as deep as there are tokens. *)
Definition json_free h (root : tptr) : option jheap := free_token_tree (S (size h)) h root.
End Parser.
#[global] Arguments parse_state : clear implicits.

(** [json_parse] of the text [t], on a heap that holds the tokens of other documents: the root of
    the new document and the heap, or an error and the heap once the document is freed. *)
Definition json_parse {num : Type} (alloc : gmap nat (json_token num) → option nat) (strtold : list Z → num * Z)
    (h : gmap nat (json_token num)) (t : list Z) :
    option ((json_error * gmap nat (json_token num)) + (tptr * gmap nat (json_token num))) :=
  let failed err st := match json_free (ps_heap st) (ps_root st) with None => None | Some h => fails (err, h) end in
  match parse_loop alloc strtold (t ++ [0]) (zlen t) (S (length t)) 0 (PState h None None None) with
  | None => None
  | Some (inl (err, st)) => failed err st
  | Some (inr st) =>
      match ps_super st with
      | Some _ => failed UnclosedContainer st
      | None => gives (ps_root st, ps_heap st)
      end
  end.
