(* ===== verification/JsonPrint.v ===== *)
(** Printing of [misc/json.c]: escaping of strings and the state machine of
    [__json_stringify_token]. The output buffer is the list of its bytes. [snprintf] of a
    [long double] gives its return value and the text; [is_integer] is the code's test that
    the number is finite, in the range of [long long] and equal to its integer part. *)

From S2P Require Import Prelude Json.

Section Escapes.
Variable str : list Z.

(** The bytes used, 0 for an invalid sequence, and the code point. *)
Definition utf8_decode (i len : Z) : option (Z * Z) :=
  let no := Some (0, 0) in
  if len =? 0 then no
  else
    c ← mem_get str i;
    if c <? 0x80 then Some (1, c)
    else if Z.land c 0xE0 =? 0xC0 then
      if len <? 2 then no
      else if c <? 0xC2 then no
      else
        c1 ← mem_get str (i + 1);
        if negb (Z.land c1 0xC0 =? 0x80) then no
        else Some (2, Z.lor (Z.shiftl (Z.land c 0x1F) 6) (Z.land c1 0x3F))
    else if Z.land c 0xF0 =? 0xE0 then
      if len <? 3 then no
      else
        c1 ← mem_get str (i + 1);
        c2 ← mem_get str (i + 2);
        if negb (Z.land c1 0xC0 =? 0x80) then no
        else if negb (Z.land c2 0xC0 =? 0x80) then no
        else
          let cp := Z.lor (Z.lor (Z.shiftl (Z.land c 0x0F) 12) (Z.shiftl (Z.land c1 0x3F) 6)) (Z.land c2 0x3F) in
          if cp <? 0x800 then no
          else if (0xD800 <=? cp) && (cp <=? 0xDFFF) then no
          else Some (3, cp)
    else if Z.land c 0xF8 =? 0xF0 then
      if len <? 4 then no
      else if 0xF4 <? c then no
      else
        c1 ← mem_get str (i + 1);
        c2 ← mem_get str (i + 2);
        c3 ← mem_get str (i + 3);
        if negb (Z.land c1 0xC0 =? 0x80) then no
        else if negb (Z.land c2 0xC0 =? 0x80) then no
        else if negb (Z.land c3 0xC0 =? 0x80) then no
        else
          let cp := Z.lor (Z.lor (Z.lor (Z.shiftl (Z.land c 0x07) 18) (Z.shiftl (Z.land c1 0x3F) 12))
                             (Z.shiftl (Z.land c2 0x3F) 6)) (Z.land c3 0x3F) in
          if cp <? 0x10000 then no
          else if 0x10FFFF <? cp then no
          else Some (4, cp)
    else no.

(** [snprintf] with ["%04x"] of a value below 2^16. *)
Definition hex_char (d : Z) : Z := if d <? 10 then 48 + d else 87 + d.
Definition hex4 (x : Z) : list Z :=
  [hex_char (x / 4096 mod 16); hex_char (x / 256 mod 16); hex_char (x / 16 mod 16); hex_char (x mod 16)].

(** [None] is the failure of the code. *)
Definition unicode_encode_escape (codepoint : Z) : option (list Z) :=
  if codepoint <=? 0xFFFF then Some (92 :: 117 :: hex4 codepoint)
  else if codepoint <=? 0x10FFFF then
    let adjusted := codepoint - 0x10000 in
    let high := 0xD800 + Z.shiftr adjusted 10 in
    let low := 0xDC00 + Z.land adjusted 0x3FF in
    Some (92 :: 117 :: hex4 high ++ 92 :: 117 :: hex4 low)
  else None.

(** The continuation bytes of an invalid sequence are skipped. *)
Fixpoint skip_continuation (fuel : nat) (i n : Z) : option Z :=
  match fuel with
  | O => None
  | S f =>
      if i <? n then
        c ← mem_get str i;
        if Z.land c 0xC0 =? 0x80 then skip_continuation f (i + 1) n else Some i
      else Some i
  end.

Definition short_escape (ch : Z) : option Z :=
  if ch =? 34 then Some 34 else if ch =? 92 then Some 92 else if ch =? 8 then Some 98 else if ch =? 12 then Some 102
  else if ch =? 10 then Some 110 else if ch =? 13 then Some 114 else if ch =? 9 then Some 116 else None.

(** The outer option is an access outside the string, the inner one the code's failure. *)
Fixpoint escapes_loop (fuel : nat) (encode_unicode : bool) (i n : Z) (dest : list Z) : option (option (list Z)) :=
  match fuel with
  | O => None
  | S f =>
      if i <? n then
        ch ← mem_get str i;
        match short_escape ch with
        | Some x => escapes_loop f encode_unicode (i + 1) n (dest ++ [92; x])
        | None =>
            if ch <? 0x20 then escapes_loop f encode_unicode (i + 1) n (dest ++ 92 :: 117 :: hex4 ch)
            else if ch <? 0x80 then escapes_loop f encode_unicode (i + 1) n (dest ++ [ch])
            else
              '(bytes, codepoint) ← utf8_decode i (n - i);
              if bytes =? 0 then
                match unicode_encode_escape 0xFFFD with
                | None => Some None
                | Some x =>
                    i' ← skip_continuation (S (length str)) (i + 1) n;
                    escapes_loop f encode_unicode i' n (dest ++ x)
                end
              else if encode_unicode then
                match unicode_encode_escape codepoint with
                | None => Some None
                | Some x => escapes_loop f encode_unicode (i + bytes) n (dest ++ x)
                end
              else
                x ← mem_read str i bytes;
                escapes_loop f encode_unicode (i + bytes) n (dest ++ x)
        end
      else Some (Some dest)
  end.
End Escapes.

Definition json_process_string_escapes (str dest : list Z) (encode_unicode : bool) : option (option (list Z)) :=
  escapes_loop str (S (length str)) encode_unicode 0 (zlen str) dest.

(** ** The state machine *)

Inductive state : Set :=
  | JSON_STATE_OPEN_OBJECT
  | JSON_STATE_PROCESS_OBJECT_KEY
  | JSON_STATE_OPEN_ARRAY
  | JSON_STATE_PROCESS_PRIMITIVE
  | JSON_STATE_CLOSE_CONTAINER.

Section Stringify.
Context {num : Type}.
Variable is_integer : num → bool.
Variables snprintf_integer snprintf_fraction : num → Z * list Z.
(** The document. *)
Variable h : gmap nat (json_token num).
Variable ascii_mode : bool.
Implicit Types (t : json_token num) (out : list Z).

Inductive turn : Type :=
  | Stop (ok : bool) (out : list Z)
  | Next (token : tptr) (st : state) (out : list Z).

Definition state_of (ty : json_type) : state :=
  match ty with
  | JSON_OBJECT => JSON_STATE_OPEN_OBJECT
  | JSON_ARRAY => JSON_STATE_OPEN_ARRAY
  | _ => JSON_STATE_PROCESS_PRIMITIVE
  end.

(** [token->parent && token->parent->type == ty] *)
Definition parent_is t (ty : json_type) : option bool :=
  match t_parent t with None => Some false | Some p => tp ← h !! p; Some (bool_decide (t_type tp = ty)) end.

(** After an empty container. *)
Definition after_empty t out : option turn :=
  match t_sibling t with
  | None => Some (Next (t_parent t) JSON_STATE_CLOSE_CONTAINER out)
  | Some sib =>
      comma ← parent_is t JSON_ARRAY;
      ts ← h !! sib;
      Some (Next (Some sib) (state_of (t_type ts)) (if (comma : bool) then out ++ [44] else out))
  end.

Definition open_object t out : option turn :=
  let out := out ++ [123] in
  match t_child t with
  | None => after_empty t (out ++ [125])
  | Some c => Some (Next (Some c) JSON_STATE_PROCESS_OBJECT_KEY out)
  end.

Definition open_array t out : option turn :=
  let out := out ++ [91] in
  match t_child t with
  | None => after_empty t (out ++ [93])
  | Some c => tc ← h !! c; Some (Next (Some c) (state_of (t_type tc)) out)
  end.

Definition object_key t out : option turn :=
  match t_type t, t_value t, t_child t with
  | JSON_STRING, VStr str, Some c =>
      r ← json_process_string_escapes str (out ++ [34]) ascii_mode;
      match r with
      | None => Some (Stop false out)
      | Some out => tc ← h !! c; Some (Next (Some c) (state_of (t_type tc)) (out ++ [34; 58]))
      end
  | JSON_STRING, _, Some _ => None
  | _, _, _ => Some (Stop false out)
  end.

(** The text of a value that is not a container; the inner [None] is the code's failure. *)
Definition primitive_text t out : option (option (list Z)) :=
  match t_type t, t_value t with
  | JSON_STRING, VStr str =>
      r ← json_process_string_escapes str (out ++ [34]) ascii_mode;
      Some (match r with None => None | Some out => Some (out ++ [34]) end)
  | JSON_BOOL, VInt z => Some (Some (out ++ (if z =? 0 then bs "false" else bs "true")))
  | JSON_NULL, _ => Some (Some (out ++ bs "null"))
  | JSON_NUMBER, VNum x =>
      let (written, text) := if is_integer x then snprintf_integer x else snprintf_fraction x in
      Some (if (written <? 0) || (512 <=? written) then None else Some (out ++ text))
  | JSON_OBJECT, _ | JSON_ARRAY, _ => Some None
  | _, _ => None
  end.

Definition process_primitive t out : option turn :=
  r ← primitive_text t out;
  match r with
  | None => Some (Stop false out)
  | Some out =>
      match t_sibling t with
      | None => Some (Next (t_parent t) JSON_STATE_CLOSE_CONTAINER out)
      | Some sib =>
          ts ← h !! sib;
          in_array ← parent_is ts JSON_ARRAY;
          let out := if (in_array : bool) then out ++ [44] else out in
          under_key ← parent_is ts JSON_STRING;
          more ← (match t_parent ts with None => Some false | Some p => tp ← h !! p; Some (bool_decide (t_sibling tp ≠ None)) end);
          if under_key && more then Some (Next (Some sib) JSON_STATE_PROCESS_PRIMITIVE (out ++ [44]))
          else Some (Next (Some sib) (state_of (t_type ts)) out)
      end
  end.

(** Up through the containers that end here. *)
Fixpoint close_loop (fuel : nat) (token : tptr) out : option turn :=
  match fuel with
  | O => None
  | S f =>
      match token with
      | None => Some (Stop true out)
      | Some a =>
          t ← h !! a;
          let out := match t_type t with JSON_OBJECT => out ++ [125] | JSON_ARRAY => out ++ [93] | _ => out end in
          match t_sibling t with
          | Some sib =>
              in_array ← parent_is t JSON_ARRAY;
              ts ← h !! sib;
              let out := if in_array || bool_decide (t_type t = JSON_STRING) then out ++ [44] else out in
              Some (Next (Some sib)
                (if bool_decide (t_type ts = JSON_STRING) then JSON_STATE_PROCESS_OBJECT_KEY else state_of (t_type ts)) out)
          | None => close_loop f (t_parent t) out
          end
      end
  end.

Definition close_container (a : nat) t out : option turn :=
  match t_type t, t_sibling t with
  | JSON_STRING, Some sib => Some (Next (Some sib) JSON_STATE_PROCESS_OBJECT_KEY (out ++ [44]))
  | _, _ => close_loop (S (size h)) (Some a) out
  end.

Definition stringify_turn (a : nat) (st : state) out : option turn :=
  t ← h !! a;
  match st with
  | JSON_STATE_OPEN_OBJECT => open_object t out
  | JSON_STATE_PROCESS_OBJECT_KEY => object_key t out
  | JSON_STATE_OPEN_ARRAY => open_array t out
  | JSON_STATE_PROCESS_PRIMITIVE => process_primitive t out
  | JSON_STATE_CLOSE_CONTAINER => close_container a t out
  end.

Fixpoint stringify_loop (fuel : nat) (token : tptr) (st : state) out : option (option (list Z)) :=
  match fuel with
  | O => None
  | S f =>
      match token with
      | None => Some (Some out)
      | Some a =>
          r ← stringify_turn a st out;
          match r with
          | Stop ok out => Some (if ok then Some out else None)
          | Next token st out => stringify_loop f token st out
          end
      end
  end.

(** [json_stringify]: NULL is the inner [None]. Each token is visited at most twice. *)
Definition json_stringify (root : tptr) : option (option (list Z)) :=
  match root with
  | None => Some None
  | Some a => t ← h !! a; stringify_loop (2 + 2 * size h) (Some a) (state_of (t_type t)) []
  end.
End Stringify.
