(* ===== verification/JsonTree.v ===== *)
(** Trees of tokens and the heaps that hold them.

    A tree carries the slot of each token. [rep h par sib t] says the heap holds [t] with all
    its links: the parent [par], the next sibling [sib], and below. The second part is about forests, as the parser builds them. *)

From S2P Require Import Prelude Json.

Section Tree.
Context {num : Type}.
Abbreviation jheap := (gmap nat (json_token num)).
Implicit Types (h : jheap) (par sib : tptr) (p a b : nat).

Inductive jt : Type := JT (a : nat) (ty : json_type) (v : json_value num) (cs : list jt).

Definition addr (t : jt) : nat := match t with JT a _ _ _ => a end.
Definition kids (t : jt) : list jt := match t with JT _ _ _ cs => cs end.

Fixpoint jt_rect' (P : jt → Prop) (f : ∀ a ty v cs, Forall P cs → P (JT a ty v cs)) (t : jt) : P t :=
  match t with
  | JT a ty v cs =>
      f a ty v cs ((fix go cs : Forall P cs :=
                      match cs with [] => Forall_nil_2 P | c :: cs' => Forall_cons_2 P c cs' (jt_rect' P f c) (go cs') end) cs)
  end.

Fixpoint addrs (t : jt) : list nat :=
  match t with JT a _ _ cs => a :: (fix go cs := match cs with [] => [] | c :: cs' => addrs c ++ go cs' end) cs end.
Definition addrs_list (cs : list jt) : list nat := concat (addrs <$> cs).

Lemma addrs_JT a ty v cs : addrs (JT a ty v cs) = a :: addrs_list cs.
Proof. simpl. f_equal. induction cs as [|c cs IH]; [done|]. unfold addrs_list in *. csimpl. by rewrite IH. Qed.

Lemma addrs_list_cons c cs : addrs_list (c :: cs) = addrs c ++ addrs_list cs.
Proof. done. Qed.
Lemma addrs_list_app cs cs' : addrs_list (cs ++ cs') = addrs_list cs ++ addrs_list cs'.
Proof. unfold addrs_list. by rewrite fmap_app, concat_app. Qed.
Lemma addr_in t : addr t ∈ addrs t.
Proof. destruct t as [a ty v cs]. rewrite addrs_JT. by left. Qed.
Lemma elem_of_addrs_list a cs : a ∈ addrs_list cs ↔ ∃ c, c ∈ cs ∧ a ∈ addrs c.
Proof.
  induction cs as [|c cs IH]; [split; [by intros ?%elem_of_nil|by intros (? & ?%elem_of_nil & _)]|].
  rewrite addrs_list_cons, elem_of_app, IH. split.
  - intros [Ha|(x & Hx & Ha)]; [exists c; split; [by left|done]|exists x; split; [by right|done]].
  - intros (x & [->|Hx]%elem_of_cons & Ha); [by left|right; by exists x].
Qed.

(** ** Representation *)

Definition first (cs : list jt) (nx : tptr) : tptr := match cs with [] => nx | c :: _ => Some (addr c) end.
Definition last_ptr (cs : list jt) : tptr := addr <$> last cs.
Definition container (ty : json_type) : bool := match ty with JSON_OBJECT | JSON_ARRAY => true | _ => false end.
Definition cell par sib (ty : json_type) v (cs : list jt) : json_token num :=
  Token (first cs None) sib (last_ptr cs) par (if container ty then wrap64 (zlen cs) else 0) v ty.

Fixpoint rep h par sib (t : jt) : Prop :=
  match t with
  | JT a ty v cs =>
      h !! a = Some (cell par sib ty v cs) ∧
      (fix go cs := match cs with [] => True | c :: cs' => rep h (Some a) (first cs' None) c ∧ go cs' end) cs
  end.

Fixpoint rep_list h par (cs : list jt) (nx : tptr) : Prop :=
  match cs with [] => True | c :: cs' => rep h par (first cs' nx) c ∧ rep_list h par cs' nx end.

Lemma rep_JT h par sib a ty v cs :
  rep h par sib (JT a ty v cs) ↔ h !! a = Some (cell par sib ty v cs) ∧ rep_list h (Some a) cs None.
Proof.
  simpl. f_equiv. induction cs as [|c cs IH]; [done|]. simpl. by rewrite IH.
Qed.

Lemma rep_list_app h par cs cs' nx :
  rep_list h par (cs ++ cs') nx ↔ rep_list h par cs (first cs' nx) ∧ rep_list h par cs' nx.
Proof.
  induction cs as [|c cs IH]; simpl; [tauto|]. rewrite IH.
  assert (first (cs ++ cs') nx = first cs (first cs' nx)) as -> by (by destruct cs). tauto.
Qed.

(** A tree only depends on its own cells. *)
Lemma jrep_frame h h' par sib t : (∀ a, a ∈ addrs t → h' !! a = h !! a) → rep h par sib t → rep h' par sib t.
Proof.
  revert par sib. induction t as [a ty v cs IH] using jt_rect'. intros par sib Hf. rewrite addrs_JT in Hf. rewrite !rep_JT.
  intros [Ha Hcs]. split; [rewrite Hf; [done|by left]|]. clear Ha.
  assert (∀ b, b ∈ addrs_list cs → h' !! b = h !! b) as Hf' by (intros b Hb; apply Hf; by right). clear Hf.
  induction cs as [|c cs IHcs]; [done|]. apply Forall_cons in IH as [IHc IH]. destruct Hcs as [Hc Hcs]. split.
  - apply IHc; [|done]. intros b Hb. apply Hf'. rewrite addrs_list_cons, elem_of_app. by left.
  - apply IHcs; [done|done|]. intros b Hb. apply Hf'. rewrite addrs_list_cons, elem_of_app. by right.
Qed.

Lemma rep_list_frame h h' par cs nx : (∀ a, a ∈ addrs_list cs → h' !! a = h !! a) → rep_list h par cs nx → rep_list h' par cs nx.
Proof.
  induction cs as [|c cs IH]; [done|]. intros Hf [Hc Hcs]. split.
  - eapply jrep_frame; [|exact Hc]. intros b Hb. apply Hf. rewrite addrs_list_cons, elem_of_app. by left.
  - apply IH; [|done]. intros b Hb. apply Hf. rewrite addrs_list_cons, elem_of_app. by right.
Qed.

Lemma jrep_is_Some h par sib t a : rep h par sib t → a ∈ addrs t → is_Some (h !! a).
Proof.
  revert par sib. induction t as [b ty v cs IH] using jt_rect'. intros par sib. rewrite addrs_JT, rep_JT. intros [Hb Hcs] [->|Ha]%elem_of_cons.
  - by eexists.
  - clear Hb. induction cs as [|c cs IHcs]; [by apply elem_of_nil in Ha|]. apply Forall_cons in IH as [IHc IH]. destruct Hcs as [Hc Hcs].
    rewrite addrs_list_cons, elem_of_app in Ha. destruct Ha as [Ha|Ha]; [by eapply IHc|by apply IHcs].
Qed.

(** A new sibling. *)
Lemma rep_resib h h' par sib sib' t : NoDup (addrs t) → rep h par sib t →
  (∀ b, b ∈ addrs t → b ≠ addr t → h' !! b = h !! b) → h' !! addr t = set_sibling sib' <$> h !! addr t → rep h' par sib' t.
Proof.
  destruct t as [a ty v cs]. rewrite addrs_JT, !rep_JT. intros [Hn Hd]%NoDup_cons [Ha Hcs] Hf Hs. cbn [addr] in *. split.
  - by rewrite Hs, Ha.
  - eapply rep_list_frame; [|exact Hcs]. intros b Hb. apply Hf; [by right|]. by intros ->.
Qed.

(** ** Growing *)

(** The tree [x] becomes the last child of the token [p]. *)
Fixpoint grow p (x t : jt) : jt :=
  match t with JT a ty v cs => if decide (a = p) then JT a ty v (cs ++ [x]) else JT a ty v (grow p x <$> cs) end.

(** The last child of [p]. *)
Fixpoint last_kid p (t : jt) : tptr :=
  match t with
  | JT a _ _ cs =>
      if decide (a = p) then last_ptr cs
      else (fix go cs := match cs with [] => None | c :: cs' => match last_kid p c with Some l => Some l | None => go cs' end end) cs
  end.

Lemma addr_grow p x t : addr (grow p x t) = addr t.
Proof. destruct t as [a ty v cs]. simpl. by case_decide. Qed.

Lemma grow_absent p x t : (p ∉ addrs t) → grow p x t = t.
Proof.
  induction t as [a ty v cs IH] using jt_rect'. rewrite addrs_JT. intros [Hne Hp]%not_elem_of_cons. simpl.
  rewrite decide_False by done. f_equal. clear Hne. induction cs as [|c cs IHcs]; [done|]. apply Forall_cons in IH as [IHc IH].
  rewrite addrs_list_cons, not_elem_of_app in Hp. destruct Hp as [Hc Hcs]. csimpl. f_equal; [by apply IHc|by apply IHcs].
Qed.

Lemma grow_list_absent p x cs : (p ∉ addrs_list cs) → grow p x <$> cs = cs.
Proof.
  induction cs as [|c cs IH]; [done|]. rewrite addrs_list_cons, not_elem_of_app. intros [Hc Hcs]. csimpl. by rewrite grow_absent, IH.
Qed.

Lemma last_ptr_in cs l : last_ptr cs = Some l → l ∈ addrs_list cs.
Proof.
  unfold last_ptr. intros (c & Hc & ->)%fmap_Some. apply last_Some_elem_of in Hc as Hin. apply elem_of_addrs_list. exists c. split; [done|apply addr_in].
Qed.

(** Where the token [p] is, in a list of siblings without repetitions. *)
Lemma addrs_list_split p cs : p ∈ addrs_list cs → ∃ l c r, cs = l ++ c :: r ∧ p ∈ addrs c.
Proof. intros (c & (l & r & ->)%list_elem_of_split & Hp)%elem_of_addrs_list. by exists l, c, r. Qed.

Lemma last_kid_in p t l : last_kid p t = Some l → l ∈ addrs_list (kids t).
Proof.
  induction t as [a ty v cs IH] using jt_rect'. simpl. case_decide; [apply last_ptr_in|]. induction cs as [|c cs IHcs]; [done|].
  apply Forall_cons in IH as [IHc IH]. rewrite addrs_list_cons, elem_of_app. destruct (last_kid p c) as [l'|] eqn:E.
  - intros [= ->]. left. specialize (IHc eq_refl). destruct c as [b ty' v' cs']. rewrite addrs_JT. by right.
  - intros Hl. right. by apply IHcs.
Qed.

Lemma last_kid_ne p t l : NoDup (addrs t) → last_kid p t = Some l → l ≠ p.
Proof.
  induction t as [a ty v cs IH] using jt_rect'. rewrite addrs_JT. intros [Hn Hd]%NoDup_cons. simpl. case_decide as Ha.
  - intros Hl%last_ptr_in ->. subst. done.
  - clear Hn. induction cs as [|c cs IHcs]; [done|]. rewrite addrs_list_cons in Hd. apply NoDup_app in Hd as (Hc & _ & Hcs).
    apply Forall_cons in IH as [IHc IH]. destruct (last_kid p c) as [l'|]; [intros [= ->]; by apply IHc|by apply IHcs].
Qed.

Lemma last_kid_absent p t : (p ∉ addrs t) → last_kid p t = None.
Proof.
  induction t as [a ty v cs IH] using jt_rect'. rewrite addrs_JT. intros [Hne Hp]%not_elem_of_cons. simpl.
  rewrite decide_False by done. clear Hne. induction cs as [|c cs IHcs]; [done|]. apply Forall_cons in IH as [IHc IH].
  rewrite addrs_list_cons, not_elem_of_app in Hp. destruct Hp as [Hc Hcs]. rewrite IHc by done. by apply IHcs.
Qed.

Lemma last_kid_split p a ty v l c r : (p ∉ addrs_list l) → (p ∉ addrs_list r) → p ≠ a →
  last_kid p (JT a ty v (l ++ c :: r)) = last_kid p c.
Proof.
  intros Hl Hr Hne. simpl. rewrite decide_False by done. induction l as [|x l IH]; simpl.
  - destruct (last_kid p c); [done|]. induction r as [|y r IH]; [done|]. rewrite addrs_list_cons, not_elem_of_app in Hr.
    destruct Hr as [Hy Hr]. rewrite last_kid_absent by done. by apply IH.
  - rewrite addrs_list_cons, not_elem_of_app in Hl. destruct Hl as [Hx Hl]. rewrite last_kid_absent by done. by apply IH.
Qed.

(** What attaching the token [x] to [p] does to the heap: [p] gets a last child, its former last child
    [l] a sibling. *)
Record attached h h' p (l : tptr) (x : jt) : Prop := {
  at_parent : h' !! p = (λ t, Token (match t_child t with None => Some (addr x) | q => q end) (t_sibling t) (Some (addr x)) (t_parent t)
                           (if container (t_type t) then wrap64 (t_size t + 1) else t_size t) (t_value t) (t_type t)) <$> h !! p;
  at_last b : l = Some b → h' !! b = set_sibling (Some (addr x)) <$> h !! b;
  at_rest b : b ≠ p → l ≠ Some b → (b ∉ addrs x) → h' !! b = h !! b;
  at_new : rep h' (Some p) None x }.

Lemma first_snoc cs x : first (cs ++ [x]) None = match first cs None with None => Some (addr x) | q => q end.
Proof. by destruct cs. Qed.

Lemma zlen_snoc (cs : list jt) x : wrap64 (zlen (cs ++ [x])) = wrap64 (wrap64 (zlen cs) + 1).
Proof. unfold wrap64. rewrite Zplus_mod_idemp_l. f_equal. unfold zlen. rewrite length_app. simpl. lia. Qed.

Lemma rep_grow_here h h' par sib a ty v cs x :
  NoDup (addrs (JT a ty v cs)) → (∀ b, b ∈ addrs (JT a ty v cs) → b ∉ addrs x) →
  rep h par sib (JT a ty v cs) → attached h h' a (last_ptr cs) x → rep h' par sib (JT a ty v (cs ++ [x])).
Proof.
  rewrite addrs_JT, !rep_JT. intros [Hn Hd]%NoDup_cons Hx [Ha Hcs] [Hp Hl Hr Hnew]. split.
  - rewrite Hp, Ha. simpl. unfold cell. rewrite first_snoc. f_equal. f_equal.
    + unfold last_ptr. by rewrite last_snoc.
    + destruct (container ty); [by rewrite zlen_snoc|done].
  - apply rep_list_app. split; [|by split]. cbn [first].
    destruct cs as [|c cs _] using rev_ind; [done|]. unfold last_ptr in *. rewrite last_snoc in *. cbn [fmap option_fmap option_map] in *.
    rewrite rep_list_app in Hcs. destruct Hcs as [Hcs [Hc _]]. rewrite addrs_list_app, addrs_list_cons in *. cbn [first] in *.
    apply NoDup_app in Hd as (_ & Hsep & Hd). rewrite app_nil_r in *.
    assert (∀ b, b ∈ addrs_list cs ++ addrs c → b ≠ addr c → h' !! b = h !! b) as Hf.
    { intros b Hb Hbc. apply Hr; [by intros ->|congruence|]. apply Hx. by right. }
    apply rep_list_app. split.
    + eapply rep_list_frame; [|exact Hcs]. intros b Hb. apply Hf; [by apply elem_of_app; left|]. intros ->. apply (Hsep _ Hb). apply addr_in.
    + split; [|done]. eapply rep_resib; [done|exact Hc| |by apply Hl]. intros b Hb Hbc. apply Hf; [by apply elem_of_app; right|done].
Qed.

Lemma rep_grow h h' par sib p x t :
  NoDup (addrs t) → p ∈ addrs t → (∀ b, b ∈ addrs t → b ∉ addrs x) →
  rep h par sib t → attached h h' p (last_kid p t) x → rep h' par sib (grow p x t).
Proof.
  revert par sib. induction t as [a ty v cs IH] using jt_rect'. intros par sib Hd Hp Hx Hrep Hat. cbn [grow].
  destruct (decide (a = p)) as [->|Hne]; [by eapply rep_grow_here; [..|simpl in Hat; rewrite decide_True in Hat by done]|].
  rewrite addrs_JT in *. apply NoDup_cons in Hd as [Hn Hd]. apply elem_of_cons in Hp as [?|Hp]; [congruence|].
  destruct (addrs_list_split _ _ Hp) as (l & c & r & -> & Hpc). clear Hp. rewrite !addrs_list_app, !addrs_list_cons in *.
  apply NoDup_app in Hd as (_ & Hl & Hd). apply NoDup_app in Hd as (Hd & Hr & _).
  assert (p ∉ addrs_list l) as Hpl by (intros Hp; apply (Hl p Hp), elem_of_app; by left).
  assert (p ∉ addrs_list r) as Hpr by (by apply Hr).
  rewrite last_kid_split in Hat by done. rewrite rep_JT in *. destruct Hrep as [Ha Hcs].
  rewrite fmap_app, fmap_cons. rewrite !grow_list_absent by done.
  apply rep_list_app in Hcs as [Hcl [Hc Hcr]]. apply Forall_app in IH as [_ IH]. apply Forall_cons in IH as [IHc _].
  assert (∀ b, b ∈ addrs_list l ++ addrs c ++ addrs_list r → b ∉ addrs c → h' !! b = h !! b) as Hf.
  { intros b Hb Hbc. destruct Hat as [_ _ Hrest _]. apply Hrest; [by intros ->| |apply Hx; by right].
    intros Hk%last_kid_in. destruct c as [? ? ? cs']. rewrite addrs_JT in Hbc. apply Hbc. by right. }
  split.
  - destruct Hat as [_ _ Hrest _]. rewrite Hrest, Ha; [| |intros Hk%last_kid_in|apply Hx; by left].
    + unfold cell. f_equal. f_equal.
      * destruct l; simpl; [by rewrite addr_grow|done].
      * unfold last_ptr. rewrite !last_app_cons. destruct r as [|r0 r]; [simpl; by rewrite addr_grow|]. by rewrite !last_cons_cons.
      * unfold zlen. by rewrite !length_app.
    + intros ->. by apply Hne.
    + apply Hn. rewrite !elem_of_app. right. left. destruct c as [? ? ? cs']. rewrite addrs_JT. by right.
  - apply rep_list_app. split_and!; [|simpl; split].
    + cbn [first] in *. rewrite addr_grow. eapply rep_list_frame; [|exact Hcl]. intros b Hb. apply Hf; [by apply elem_of_app; left|].
      intros Hbc. apply (Hl b Hb), elem_of_app. by left.
    + apply IHc; [done|done| |done|done]. intros b Hb. apply Hx. right. rewrite !elem_of_app. auto.
    + eapply rep_list_frame; [|exact Hcr]. intros b Hb. apply Hf; [rewrite !elem_of_app; auto|]. intros Hbc. by apply (Hr b Hbc).
Qed.

Lemma addrs_grow p x t : NoDup (addrs t) → p ∈ addrs t → addrs (grow p x t) ≡ₚ addrs t ++ addrs x.
Proof.
  induction t as [a ty v cs IH] using jt_rect'. intros Hd Hp. cbn [grow]. rewrite addrs_JT in *. apply NoDup_cons in Hd as [Hn Hd].
  case_decide as Ha.
  - rewrite !addrs_JT, addrs_list_app, addrs_list_cons. rewrite app_nil_r. done.
  - apply elem_of_cons in Hp as [?|Hp]; [congruence|]. rewrite !addrs_JT. simpl. constructor.
    destruct (addrs_list_split _ _ Hp) as (l & c & r & -> & Hpc). rewrite fmap_app, fmap_cons, !addrs_list_app, !addrs_list_cons in *.
    apply NoDup_app in Hd as (_ & Hl & Hd). apply NoDup_app in Hd as (Hd & Hr & _). apply Forall_app in IH as [_ IH]. apply Forall_cons in IH as [IHc _].
    rewrite !grow_list_absent; [rewrite IHc by done; solve_Permutation|by apply Hr|]. intros Hpl. apply (Hl p Hpl), elem_of_app. by left.
Qed.

(** ** The cells of a tree *)

(** The token [p] of [t], with the rest of what the heap knows about it. *)
Lemma rep_cell h par sib t p : NoDup (addrs t) → rep h par sib t → p ∈ addrs t →
  ∃ par' sib' ty v cs, h !! p = Some (cell par' sib' ty v cs) ∧ last_kid p t = last_ptr cs.
Proof.
  revert par sib. induction t as [a ty v cs IH] using jt_rect'. intros par sib Hd Hrep Hp. rewrite addrs_JT, rep_JT in *.
  apply NoDup_cons in Hd as [Hn Hd]. destruct Hrep as [Ha Hcs]. destruct (decide (p = a)) as [->|Hne].
  { exists par, sib, ty, v, cs. split; [done|]. simpl. by rewrite decide_True. }
  apply elem_of_cons in Hp as [?|Hp]; [done|]. destruct (addrs_list_split _ _ Hp) as (l & c & r & -> & Hpc). clear Hp.
  rewrite addrs_list_app, addrs_list_cons in Hd. apply NoDup_app in Hd as (_ & Hl & Hd). apply NoDup_app in Hd as (Hd & Hr & _).
  rewrite last_kid_split; [|intros Hpl; apply (Hl p Hpl), elem_of_app; by left|by apply Hr|done].
  apply rep_list_app in Hcs as [_ [Hc _]]. apply Forall_app in IH as [_ IH]. apply Forall_cons in IH as [IHc _]. by eapply IHc.
Qed.

(** The way up from a token: the parent links, until [par]. *)
Fixpoint up h par (l : list nat) : Prop :=
  match l with
  | [] => True
  | b :: l' => (∃ t, h !! b = Some t ∧ t_parent t = match l' with [] => par | q :: _ => Some q end) ∧ up h par l'
  end.

Lemma up_app h par l a : up h (Some a) l → (∃ t, h !! a = Some t ∧ t_parent t = par) → up h par (l ++ [a]).
Proof.
  intros Hl Ha. induction l as [|b l IH]; [simpl; auto|]. destruct Hl as [Hb Hl]. simpl. split; [|by apply IH]. by destruct l.
Qed.

Lemma rep_up h par sib t p : NoDup (addrs t) → rep h par sib t → p ∈ addrs t →
  ∃ l, up h par (p :: l) ∧ NoDup (p :: l) ∧ (p :: l) ⊆ addrs t.
Proof.
  revert par sib. induction t as [a ty v cs IH] using jt_rect'. intros par sib Hd Hrep Hp. rewrite addrs_JT, rep_JT in *.
  apply NoDup_cons in Hd as [Hn Hd]. destruct Hrep as [Ha Hcs]. destruct (decide (p = a)) as [->|Hne].
  { exists []. split_and!; [split; [by eexists|done]|by constructor; [apply not_elem_of_nil|constructor]|]. intros b Hb%list_elem_of_singleton. subst. by left. }
  apply elem_of_cons in Hp as [?|Hp]; [done|]. destruct (addrs_list_split _ _ Hp) as (l & c & r & -> & Hpc). clear Hp.
  rewrite addrs_list_app, addrs_list_cons in *. apply NoDup_app in Hd as (_ & _ & Hd). apply NoDup_app in Hd as (Hd & _ & _).
  apply rep_list_app in Hcs as [_ [Hc _]]. apply Forall_app in IH as [_ IH]. apply Forall_cons in IH as [IHc _].
  destruct (IHc _ _ Hd Hc Hpc) as (q & Hup & Hnd & Hsub). exists (q ++ [a]). rewrite app_comm_cons. split_and!.
  - apply up_app; [done|by eexists].
  - apply NoDup_app. split_and!; [done| |by constructor; [apply not_elem_of_nil|constructor]]. intros b Hb ->%list_elem_of_singleton.
    apply Hn. rewrite !elem_of_app. right. left. by apply Hsub.
  - intros b [Hb|Hb]%elem_of_app; [right; rewrite !elem_of_app; right; left; by apply Hsub|]. apply list_elem_of_singleton in Hb as ->. by left.
Qed.

(** ** Freeing *)

Lemma free_list_rep fuel h par cs : rep_list h par cs None → NoDup (addrs_list cs) → (length (addrs_list cs) < fuel)%nat →
  ∃ h', free_token_tree fuel h (first cs None) = Some h' ∧
    ∀ b, h' !! b = if decide (b ∈ addrs_list cs) then None else h !! b.
Proof.
  revert h par cs. induction fuel as [|fuel IH]; intros h par cs Hrep Hd Hf; [lia|]. destruct cs as [|[a ty v ks] cs].
  { exists h. split; [done|]. intros b. by rewrite decide_False by apply not_elem_of_nil. }
  cbn [first addr free_token_tree]. destruct Hrep as [Hc Hcs]. rewrite rep_JT in Hc. destruct Hc as [Ha Hks]. rewrite Ha. cbn [mbind option_bind].
  rewrite addrs_list_cons, addrs_JT in *. simpl in Hd, Hf. apply NoDup_cons in Hd as [Hn Hd]. rewrite length_app in Hf.
  apply NoDup_app in Hd as (Hdk & Hsep & Hdc). rewrite not_elem_of_app in Hn. cbn [t_child t_sibling cell].
  destruct (IH (delete a h) (Some a) ks) as (h1 & -> & Hh1); [|done|lia|].
  { eapply rep_list_frame; [|exact Hks]. intros b Hb. apply lookup_delete_ne. intros <-. tauto. }
  cbn [mbind option_bind]. destruct (IH h1 par cs) as (h2 & -> & Hh2); [|done|lia|].
  { eapply rep_list_frame; [|exact Hcs]. intros b Hb. rewrite Hh1, decide_False by (intros Hk; by apply (Hsep b)). apply lookup_delete_ne. intros <-. tauto. }
  exists h2. split; [done|]. intros b. rewrite Hh2, Hh1. cbn [app].
  repeat case_decide; rewrite ?elem_of_cons, ?elem_of_app in *; try tauto; try done.
  - destruct (decide (b = a)) as [->|]; [by apply lookup_delete_eq|tauto].
  - apply lookup_delete_ne. intros <-. tauto.
Qed.

Lemma json_free_rep h t : rep h None None t → NoDup (addrs t) →
  ∃ h', json_free h (Some (addr t)) = Some h' ∧ ∀ b, h' !! b = if decide (b ∈ addrs t) then None else h !! b.
Proof.
  intros Hrep Hd. unfold json_free. assert (addrs_list [t] = addrs t) as Hl by (unfold addrs_list; simpl; apply app_nil_r).
  rewrite <- Hl. apply (free_list_rep _ _ None [t]); [by split|by rewrite Hl|]. rewrite Hl.
  rewrite <- (size_list_to_set (C:=gset nat) _ Hd), <- size_dom. apply Nat.lt_succ_r, subseteq_size. intros b Hb%elem_of_list_to_set.
  apply elem_of_dom. by eapply jrep_is_Some.
Qed.
End Tree.
#[global] Arguments jt : clear implicits.

(** The state of the parser as a forest of trees, and what each of its operations does to it. *)

Section Forest.
Context {num : Type}.
Abbreviation jheap := (gmap nat (json_token num)).
Implicit Types (h : jheap) (st : parse_state num) (F : list (jt num)) (t : jt num) (p a b : nat) (ty : json_type).

Definition leaf a ty v : jt num := JT a ty v [].

(** [h0] are the tokens of other documents; [F] are the trees built so far, the first one the
    document's. *)
Record Inv h0 st F : Prop := {
  iv_trees t : t ∈ F → rep (ps_heap st) None None t;
  iv_nodup : NoDup (addrs_list F);
  iv_old b : b ∈ dom h0 → (b ∉ addrs_list F) ∧ ps_heap st !! b = h0 !! b;
  iv_dom : dom (ps_heap st) = dom h0 ∪ list_to_set (addrs_list F);
  iv_root : ps_root st = addr <$> head F;
  iv_super p : ps_super st = Some p → p ∈ addrs_list F;
  iv_last p : ps_last st = Some p → p ∈ addrs_list F }.

(** Parents and types of the tokens there are do not change. *)
Definition keeps h h' : Prop :=
  ∀ b k, h !! b = Some k → ∃ k', h' !! b = Some k' ∧ t_parent k' = t_parent k ∧ t_type k' = t_type k.

#[export] Instance keeps_preorder : PreOrder keeps.
Proof.
  split; [intros h b t Hb; by exists t|]. intros h1 h2 h3 H12 H23 b t Hb. destruct (H12 b t Hb) as (t2 & Hb2 & ? & ?).
  destruct (H23 b t2 Hb2) as (t3 & Hb3 & ? & ?). exists t3. split_and!; congruence.
Qed.

(** The tree of the forest a token is in. *)
Lemma forest_split F p : NoDup (addrs_list F) → p ∈ addrs_list F →
  ∃ l c r, F = l ++ c :: r ∧ p ∈ addrs c ∧ (p ∉ addrs_list l) ∧ (p ∉ addrs_list r) ∧ NoDup (addrs c) ∧
    (∀ b, b ∈ addrs c → b ∉ addrs_list l) ∧ (∀ b, b ∈ addrs c → b ∉ addrs_list r).
Proof.
  intros Hd Hp. destruct (addrs_list_split _ _ Hp) as (l & c & r & -> & Hc). exists l, c, r.
  rewrite addrs_list_app, addrs_list_cons in Hd. apply NoDup_app in Hd as (_ & Hl & Hd). apply NoDup_app in Hd as (Hd & Hr & _).
  assert (∀ b, b ∈ addrs c → b ∉ addrs_list l) as Hcl by (intros b Hb Hbl; apply (Hl b Hbl), elem_of_app; by left).
  split_and!; auto.
Qed.

Lemma Inv_cell h0 st F p : Inv h0 st F → p ∈ addrs_list F →
  ∃ par sib ty v cs, ps_heap st !! p = Some (cell par sib ty v cs).
Proof.
  intros HI Hp. destruct (forest_split F p (iv_nodup _ _ _ HI) Hp) as (l & c & r & -> & Hc & _ & _ & Hd & _).
  destruct (rep_cell (ps_heap st) None None c p Hd) as (par & sib & ty & v & cs & Hcell & _); [|done|by exists par, sib, ty, v, cs].
  apply (iv_trees _ _ _ HI), elem_of_app. right. by left.
Qed.

(** ** Attaching *)

Lemma update_some h a k f : h !! a = Some k → update h (Some a) f = Some (<[a := f k]> h).
Proof. intros Ha. unfold update. simpl. by rewrite Ha. Qed.

(** [set_child_or_sibling], given what the cell of the parent says. *)
Lemma set_child_attached h p a par sib ty v cs tyx vx :
  h !! p = Some (cell par sib ty v cs) → h !! a = Some (Token None None None (Some p) 0 vx tyx) → a ≠ p →
  (∀ l, last_ptr cs = Some l → l ≠ p ∧ l ≠ a ∧ is_Some (h !! l)) →
  ∃ h', set_child_or_sibling h p a = Some h' ∧ attached h h' p (last_ptr cs) (leaf a tyx vx) ∧ dom h' = dom h.
Proof.
  intros Hp Ha Hne Hl. unfold set_child_or_sibling. rewrite Hp. cbn [mbind option_bind t_child t_last_sibling cell].
  assert (∃ h1, match first cs None with None => update h (Some p) (set_child (Some a)) | Some _ => update h (last_ptr cs) (set_sibling (Some a)) end = Some h1 ∧
    h1 !! p = Some (Token (match first cs None with None => Some a | q => q end) sib (last_ptr cs) par
       (if container ty then wrap64 (zlen cs) else 0) v ty) ∧ h1 !! a = h !! a ∧ dom h1 = dom h ∧
    (∀ b, last_ptr cs = Some b → h1 !! b = set_sibling (Some a) <$> h !! b) ∧
    (∀ b, b ≠ p → last_ptr cs ≠ Some b → h1 !! b = h !! b)) as (h1 & -> & Hp1 & Ha1 & Hd1 & Hl1 & Hr1).
  { destruct cs as [|c0 cs0] eqn:Ecs.
    - cbn [first]. rewrite (update_some _ _ _ _ Hp). eexists. split; [done|]. rewrite lookup_insert_eq, lookup_insert_ne by done.
      split_and!; [done|done|apply dom_insert_lookup_L; by eexists|done|]. intros b Hb _. by rewrite lookup_insert_ne.
    - cbn [first]. rewrite <- Ecs in *. assert (∃ l, last_ptr cs = Some l) as [l Hlast].
      { subst. unfold last_ptr. destruct (last (c0 :: cs0)) eqn:E; [by eexists|]. by apply last_None in E. }
      destruct (Hl l Hlast) as (Hlp & Hla & [tl Htl]). rewrite Hlast, (update_some _ _ _ _ Htl). eexists. split; [done|].
      rewrite !(lookup_insert_ne _ l) by done. rewrite Hp. unfold cell. subst cs. cbn [first]. rewrite Hlast.
      split_and!; [done|done|apply dom_insert_lookup_L; by eexists| |].
      + intros b [= <-]. by rewrite lookup_insert_eq, Htl.
      + intros b Hb Hne'. rewrite lookup_insert_ne; [done|]. congruence. }
  cbn [mbind option_bind]. rewrite (update_some _ _ _ _ Hp1). cbn [mbind option_bind].
  rewrite (update_some _ a (Token None None None (Some p) 0 vx tyx)); [|rewrite lookup_insert_ne by done; by rewrite Ha1].
  cbn [mbind option_bind]. rewrite lookup_insert_ne, lookup_insert_eq by done. cbn [mbind option_bind t_type set_last].
  set (h3 := <[a := _]> _).
  assert (∃ h', match ty with JSON_OBJECT | JSON_ARRAY => update h3 (Some p) (set_size (wrap64 (t_size (set_last (Some a)
       (Token (match first cs None with None => Some a | q => q end) sib (last_ptr cs) par (if container ty then wrap64 (zlen cs) else 0) v ty)) + 1)))
     | _ => Some h3 end = Some h' ∧ (∀ b, b ≠ p → h' !! b = h3 !! b) ∧ dom h' = dom h3 ∧
     h' !! p = Some (Token (match first cs None with None => Some a | q => q end) sib (Some a) par
        (if container ty then wrap64 (wrap64 (zlen cs) + 1) else 0) v ty)) as (h' & -> & Hr' & Hd' & Hp').
  { assert (h3 !! p = Some (Token (match first cs None with None => Some a | q => q end) sib (Some a) par (if container ty then wrap64 (zlen cs) else 0) v ty)) as Hp3
      by (unfold h3; by rewrite lookup_insert_ne, lookup_insert_eq by done).
    destruct ty; cbn [container]; try (exists h3; split_and!; done);
      (rewrite (update_some _ _ _ _ Hp3); eexists; split; [done|]; split_and!;
        [intros b Hb; by rewrite lookup_insert_ne|apply dom_insert_lookup_L; by eexists|by rewrite lookup_insert_eq]). }
  exists h'. split; [done|]. assert (dom h3 = dom h) as Hd3.
  { unfold h3. rewrite !dom_insert_lookup_L; [done|by eexists|]. rewrite lookup_insert_ne by done. rewrite Ha1. by eexists. }
  split; [|by rewrite Hd'].
  assert (∀ b, b ≠ p → b ≠ a → h' !! b = h1 !! b) as Hother by (intros b Hbp Hba; rewrite Hr' by done; unfold h3; by rewrite !lookup_insert_ne by done).
  split.
  - rewrite Hp', Hp. simpl. f_equal. f_equal. by destruct (container ty).
  - intros b Hb. destruct (Hl b Hb) as (? & ? & ?). rewrite Hother by done. by apply Hl1.
  - intros b Hb Hlb Hx. unfold leaf in Hx. rewrite addrs_JT in Hx. apply not_elem_of_cons in Hx as [Hx _]. rewrite Hother by done. by apply Hr1.
  - apply rep_JT. split; [|done]. rewrite Hr' by done. unfold h3. rewrite lookup_insert_eq. by destruct tyx.
Qed.

(** The forest with a new token below [super]. *)
Definition plant (super : tptr) (x : jt num) F : list (jt num) :=
  match super with None => F ++ [x] | Some p => grow p x <$> F end.

Lemma addrs_plant super x F : NoDup (addrs_list F) → (∀ p, super = Some p → p ∈ addrs_list F) →
  addrs_list (plant super x F) ≡ₚ addrs_list F ++ addrs x.
Proof.
  intros Hd Hs. destruct super as [p|]; cbn [plant].
  - destruct (forest_split F p Hd (Hs p eq_refl)) as (l & c & r & -> & Hc & Hl & Hr & Hdc & _).
    rewrite fmap_app, fmap_cons, !grow_list_absent by done. rewrite !addrs_list_app, !addrs_list_cons, addrs_grow by done. solve_Permutation.
  - rewrite addrs_list_app, addrs_list_cons. simpl. by rewrite app_nil_r.
Qed.

Lemma head_plant super x F : (∀ p, super = Some p → p ∈ addrs_list F) →
  (addr <$> head (plant super x F)) = match addr <$> head F with None => Some (addr x) | q => q end.
Proof.
  intros Hs. destruct super as [p|]; cbn [plant]; [|by destruct F]. destruct F as [|c F]; [|simpl; by rewrite addr_grow].
  by specialize (Hs p eq_refl) as ?%elem_of_nil.
Qed.

(** The trees after [x] has been attached below [p]. *)
Lemma plant_trees F h h' p c l r x : F = l ++ c :: r → p ∈ addrs c → NoDup (addrs_list F) →
  (∀ t, t ∈ F → rep h None None t) → (∀ b, b ∈ addrs_list F → b ∉ addrs x) →
  attached h h' p (last_kid p c) x → ∀ t, t ∈ grow p x <$> F → rep h' None None t.
Proof.
  intros -> Hc Hd Hrep Hx Hat t. pose proof Hd as Hd'. rewrite addrs_list_app, addrs_list_cons in Hd'.
  apply NoDup_app in Hd' as (_ & Hl & Hd'). apply NoDup_app in Hd' as (Hdc & Hr & _).
  assert (p ∉ addrs_list l) by (intros Hp; apply (Hl p Hp), elem_of_app; by left). assert (p ∉ addrs_list r) by (by apply Hr).
  rewrite fmap_app, fmap_cons, !grow_list_absent by done. rewrite elem_of_app, elem_of_cons.
  assert (∀ t', t' ∈ l ++ c :: r → (∀ b, b ∈ addrs t' → b ∉ addrs c) → rep h' None None t') as Hother.
  { intros t' Hin Hsep. eapply jrep_frame; [|by apply Hrep]. intros b Hb. destruct Hat as [_ _ Hrest _]. apply Hrest.
    - intros ->. by apply (Hsep p Hb).
    - intros Hk%last_kid_in. apply (Hsep b Hb). destruct c. rewrite addrs_JT. by right.
    - apply Hx, elem_of_addrs_list. by exists t'. }
  intros [Hin|[->|Hin]].
  - apply Hother; [rewrite elem_of_app; by left|]. intros b Hb Hbc. apply (Hl b); [apply elem_of_addrs_list; by exists t|]. apply elem_of_app. by left.
  - eapply rep_grow; [done|done| |apply Hrep, elem_of_app; right; by left|done].
    intros b Hb. apply Hx. rewrite addrs_list_app, addrs_list_cons, !elem_of_app. auto.
  - apply Hother; [rewrite elem_of_app, elem_of_cons; auto|]. intros b Hb Hbc. apply (Hr b Hbc), elem_of_addrs_list. by exists t.
Qed.

Lemma attached_keeps h0 h h' p l x : (∀ b, b ∈ addrs x → h0 !! b = None) → (∀ b, b ∉ addrs x → h !! b = h0 !! b) →
  attached h h' p l x → keeps h0 h'.
Proof.
  intros Hx Hh [Hp Hl Hr _] b k Hb. assert (b ∉ addrs x) as Hbx by (intros Hin; specialize (Hx b Hin); congruence).
  specialize (Hh b Hbx). rewrite Hb in Hh. destruct (decide (b = p)) as [->|Hne]; [rewrite Hp, Hh; by eexists|].
  destruct (decide (l = Some b)) as [->|Hnl]; [rewrite (Hl b), Hh by done; by eexists|].
  rewrite Hr, Hh by done. by eexists.
Qed.

Lemma keeps_insert h a k : h !! a = None → keeps h (<[a := k]> h).
Proof. intros Ha b k' Hb. exists k'. rewrite lookup_insert_ne; [done|]. intros ->. congruence. Qed.

Lemma attach_inv h0 st F a ty v : Inv h0 st F → ps_heap st !! a = None →
  ∃ st', attach (with_heap st (<[a := Token None None None None 0 v ty]> (ps_heap st))) a = Some st' ∧
    Inv h0 st' (plant (ps_super st) (leaf a ty v) F) ∧ ps_super st' = ps_super st ∧ ps_last st' = Some a ∧
    keeps (ps_heap st) (ps_heap st') ∧ ∃ k, ps_heap st' !! a = Some k ∧ t_parent k = ps_super st ∧ t_type k = ty.
Proof.
  intros HI Ha. pose proof HI as [Htr Hnd Hold Hdom Hroot Hsup Hlast]. set (h1 := <[a := _]> (ps_heap st)).
  assert (a ∉ addrs_list F) as HaF.
  { intros Hin. apply not_elem_of_dom in Ha. apply Ha. rewrite Hdom. apply elem_of_union. right. by apply elem_of_list_to_set. }
  assert (a ∉ dom h0) as Ha0 by (intros Hin; apply not_elem_of_dom in Ha; apply Ha; rewrite Hdom; set_solver).
  assert (addrs (leaf a ty v) = [a]) as Hax by done.
  pose proof (addrs_plant (ps_super st) (leaf a ty v) F Hnd Hsup) as Hperm. rewrite Hax in Hperm.
  assert (∀ t, t ∈ F → rep h1 None None t) as Htr1.
  { intros t Ht. eapply jrep_frame; [|by apply Htr]. intros b Hb. apply lookup_insert_ne. intros <-. apply HaF, elem_of_addrs_list. by exists t. }
  assert (∃ h', (match ps_super st with None => Some h1 | Some p => h ← update h1 (Some a) (set_parent (Some p)); set_child_or_sibling h p a end) = Some h' ∧
    (∀ t, t ∈ plant (ps_super st) (leaf a ty v) F → rep h' None None t) ∧ dom h' = dom h1 ∧ keeps (ps_heap st) h' ∧
    (∀ b, b ∈ dom h0 → h' !! b = h0 !! b) ∧ ∃ k, h' !! a = Some k ∧ t_parent k = ps_super st ∧ t_type k = ty)
    as (h' & Hh' & Htr' & Hd' & Hk' & Hold' & Hak).
  { destruct (ps_super st) as [p|] eqn:Esup; cbn [plant].
    2: { exists h1. split; [done|]. split_and!; [|done|by apply keeps_insert| |unfold h1; rewrite lookup_insert_eq; by eexists].
         - intros t [Ht| ->%list_elem_of_singleton]%elem_of_app; [by apply Htr1|]. apply rep_JT. split; [|done]. unfold h1. rewrite lookup_insert_eq. by destruct ty.
         - intros b Hb. unfold h1. rewrite lookup_insert_ne by (intros ->; done). by apply Hold. }
    pose proof (Hsup p eq_refl) as Hp. destruct (forest_split F p Hnd Hp) as (l & c & r & HF & Hc & _ & _ & Hdc & _).
    assert (c ∈ F) as HcF by (rewrite HF; apply elem_of_app; right; by left).
    unfold h1. rewrite (update_some _ a _ _ (lookup_insert_eq _ _ _)). cbn [mbind option_bind]. rewrite insert_insert_eq. fold h1.
    set (h2 := <[a := _]> (ps_heap st)).
    assert (∀ b, b ≠ a → h2 !! b = h1 !! b) as H21 by (intros b Hb; unfold h2, h1; by rewrite !lookup_insert_ne by done).
    assert (p ≠ a) as Hpa by (by intros ->).
    assert (∀ t, t ∈ F → rep h2 None None t) as Htr2.
    { intros t Ht. eapply jrep_frame; [|by apply Htr1]. intros b Hb. apply H21. intros ->. apply HaF, elem_of_addrs_list. by exists t. }
    destruct (rep_cell h2 None None c p Hdc (Htr2 c HcF) Hc) as (par & sib & typ & vp & cs & Hcell & Hlk).
    assert (∀ l0, last_ptr cs = Some l0 → l0 ∈ addrs_list (kids c)) as Hlin by (intros l0; rewrite <- Hlk; apply last_kid_in).
    assert (∀ l0, l0 ∈ addrs_list (kids c) → l0 ∈ addrs c) as Hkc by (intros l0 Hl0; destruct c; rewrite addrs_JT; by right).
    destruct (set_child_attached h2 p a par sib typ vp cs ty v Hcell) as (h' & Hset & Hat & Hdh).
    { unfold h2. by rewrite lookup_insert_eq. } { done. }
    { intros l0 Hl0. pose proof (Hlin _ Hl0). split_and!; [|intros ->; apply HaF, elem_of_addrs_list; exists c; auto|eapply jrep_is_Some; [by apply Htr2|auto]].
      apply (last_kid_ne p c); [done|congruence]. }
    rewrite <- Hlk in Hat. exists h'. split; [done|]. split_and!.
    - apply (plant_trees F h2 h' p c l r); [done|done|done|done| |done]. intros b Hb ->%list_elem_of_singleton. done.
    - rewrite Hdh. unfold h2, h1. by rewrite !dom_insert_L.
    - eapply attached_keeps; [| |exact Hat].
      + intros b ->%list_elem_of_singleton. done.
      + intros b Hb. rewrite Hax in Hb. unfold h2. apply lookup_insert_ne. intros <-. apply Hb. by left.
    - intros b Hb. destruct (Hold b Hb) as [HbF Hb0]. destruct Hat as [_ _ Hrest _]. rewrite Hrest.
      + unfold h2. rewrite lookup_insert_ne by (intros <-; done). done.
      + intros ->. done.
      + intros Hk%last_kid_in. apply HbF, elem_of_addrs_list. exists c. auto.
      + rewrite Hax. intros ->%list_elem_of_singleton. done.
    - destruct Hat as [_ _ _ [Hnew _]%rep_JT]. eexists. split; [exact Hnew|]. done. }
  unfold attach. cbn [ps_super with_heap ps_heap ps_root]. rewrite Hh'. cbn [mbind option_bind]. eexists. split; [done|].
  split_and!; [|done|done|done|done]. split; cbn [ps_heap ps_root ps_super ps_last].
  - done.
  - rewrite Hperm. apply NoDup_app. split_and!; [done| |apply NoDup_singleton]. intros b Hb ->%list_elem_of_singleton. done.
  - intros b Hb. split; [|by apply Hold']. rewrite Hperm, elem_of_app, list_elem_of_singleton. intros [Hin| ->]; [by apply (Hold b Hb)|done].
  - rewrite Hd'. unfold h1. rewrite dom_insert_L, Hdom. apply set_eq. intros b. rewrite !elem_of_union, !elem_of_list_to_set, Hperm, elem_of_app, list_elem_of_singleton, elem_of_singleton. tauto.
  - rewrite head_plant by done. rewrite Hroot. by destruct (head F).
  - intros p Hp. rewrite Hperm, elem_of_app. left. by apply Hsup.
  - intros p [= <-]. rewrite Hperm, elem_of_app. right. by left.
Qed.
End Forest.
