(* ===== verification/JsonString.v ===== *)
(** Reading a JSON string: it ends and stays in the text, and it reads every string RFC 8259 allows as
    the bytes it stands for. *)

From S2P Require Import Prelude WsUtf8 Json.

(** ** Any text *)

Section Scan.
(** The text with its terminator. *)
Variable t : list Z.
Abbreviation s := (t ++ [0]).
Abbreviation e := (zlen t).

Lemma text_get i : 0 <= i <= e → ∃ c, mem_get s i = Some c.
Proof.
  intros Hi. unfold mem_get. rewrite (proj2 (Z.leb_le 0 i)) by lia. apply lookup_lt_is_Some. rewrite length_app. simpl. unfold zlen in Hi. lia.
Qed.

(** What a piece of the scanner promises: an error, or a position further on and not behind the end. *)
Definition advances {A} (from : Z) (r : result (A * Z)) : Prop :=
  match r with None => False | Some (inl _) => True | Some (inr (_, to)) => from < to <= e end.

Ltac text i := let c := fresh "c" in let Hc := fresh "Hc" in destruct (text_get i) as [c Hc]; [lia|rewrite Hc].

Lemma json_hex_loop_total n scan cp e1 e2 : 0 <= scan → scan + Z.of_nat n <= e →
  match hex_loop s n scan cp e1 e2 with None => False | Some (inl _) => True | Some (inr (_, to)) => to = scan + Z.of_nat n end.
Proof.
  revert scan cp. induction n as [|n IH]; intros scan cp H0 Hn; simpl; [lia|]. text scan. case_if; [done|].
  destruct (hex_digit c) as [d|]; [|done]. specialize (IH (scan + 1) (Z.lor (Z.shiftl cp 4) d)).
  destruct (hex_loop _ _ _ _ _ _) as [[?|[? ?]]|]; [done|lia|lia].
Qed.

Lemma encode_utf8_total cp : encode_utf8 cp ≠ None.
Proof. unfold encode_utf8. by repeat case_if. Qed.

Lemma scan_unicode_total scan : 0 <= scan → advances scan (scan_unicode s e scan).
Proof.
  intros H0. unfold scan_unicode. case_if; [done|]. reflect_bools. text scan. case_if; [done|].
  pose proof (json_hex_loop_total 4 scan 0 IncompleteUnicode InvalidHex H0 ltac:(lia)) as Hh.
  destruct (hex_loop _ _ _ _ _ _) as [[?|[cp to]]|]; [done|cbn [and_then]|done]. subst to.
  assert (∀ r : result (Z * Z), advances scan r → advances scan (let* (codepoint, scan0) := r in let* bytes := encode_utf8 codepoint in gives (bytes, scan0))) as Henc.
  { intros [[?|[cp' to]]|] Hr; [done| |done]. cbn [and_then]. pose proof (encode_utf8_total cp'). destruct (encode_utf8 cp') as [[?|?]|]; done. }
  apply Henc. case_if; [|case_if; [done|simpl; lia]]. unfold low_surrogate. case_if; [done|]. reflect_bools. text (scan + Z.of_nat 4).
  text (scan + Z.of_nat 4 + 1). case_if; [done|]. case_if; [done|]. reflect_bools.
  pose proof (json_hex_loop_total 4 (scan + Z.of_nat 4 + 2) 0 SurrogateIncompleteLow SurrogateInvalidHex ltac:(lia) ltac:(lia)) as Hh.
  destruct (hex_loop _ _ _ _ _ _) as [[?|[low to]]|]; [done|cbn [and_then]|done]. case_if; [done|]. simpl. lia.
Qed.

Lemma scan_escape_total scan : 0 <= scan → advances scan (scan_escape s e scan).
Proof.
  intros H0. unfold scan_escape. case_if; [done|]. reflect_bools. text scan. case_if; [done|]. case_if.
  - pose proof (scan_unicode_total (scan + 1) ltac:(lia)) as Hu. destruct (scan_unicode _ _ _) as [[?|[? ?]]|]; [done|simpl in *; lia|done].
  - cbn zeta. case_if; [done|]. simpl. lia.
Qed.

Lemma scan_plain_total scan c : 0 <= scan < e → advances scan (scan_plain s e scan c).
Proof.
  intros H0. unfold scan_plain. case_if; [simpl; lia|]. case_if; [|case_if; [|case_if; [|done]]].
  - case_if; [done|]. case_if; [done|]. reflect_bools. text (scan + 1). case_if; [done|]. simpl. lia.
  - case_if; [done|]. reflect_bools. text (scan + 1). text (scan + 2). cbn zeta. repeat (case_if; [done|]). simpl. lia.
  - case_if; [done|]. case_if; [done|]. reflect_bools. text (scan + 1). text (scan + 2). text (scan + 3). cbn zeta. repeat (case_if; [done|]). simpl. lia.
Qed.

Lemma string_loop_total fuel scan str : 0 <= scan <= e → e - scan < Z.of_nat fuel →
  match string_loop s e fuel scan str with
  | None => False
  | Some (inl _) => True
  | Some (inr (_, to)) => scan <= to < e ∧ mem_get s to = Some 34
  end.
Proof.
  revert scan str. induction fuel as [|fuel IH]; intros scan str Hs Hf; [lia|]. cbn [string_loop]. case_if; [done|]. reflect_bools.
  text scan. case_if; [done|]. case_if; [reflect_bools; subst; simpl; split; [lia|done]|]. case_if; [done|].
  assert (advances scan (if c =? 92 then scan_escape s e (scan + 1) else scan_plain s e scan c)) as Hadv.
  { case_if; [|apply scan_plain_total; lia]. pose proof (scan_escape_total (scan + 1) ltac:(lia)) as Hx.
    destruct (scan_escape _ _ _) as [[?|[? ?]]|]; [done|simpl in *; lia|done]. }
  destruct (if c =? 92 then _ else _) as [[?|[bytes to]]|]; [done| |done]. cbn [and_then] in *. simpl in Hadv.
  specialize (IH to (str ++ bytes) ltac:(lia) ltac:(lia)). destruct (string_loop _ _ _ _ _) as [[?|[? ?]]|]; [done|split; [lia|apply IH]|done].
Qed.

Lemma scan_string_total ptr : 0 <= ptr < e → advances ptr (scan_string s e ptr).
Proof.
  intros Hp. unfold scan_string. text ptr. case_if; [done|]. cbn zeta. case_if; [done|]. reflect_bools.
  pose proof (string_loop_total (S (length s)) (ptr + 1) [] ltac:(lia)) as Hl. rewrite length_app in Hl. simpl length in Hl.
  specialize (Hl ltac:(unfold zlen; lia)). rewrite length_app. simpl length. destruct (string_loop _ _ _ _ _) as [[?|[str to]]|]; [done| |done].
  cbn [and_then]. destruct Hl as [Hto ->]. rewrite Z.eqb_refl. simpl. lia.
Qed.
End Scan.

(** ** Bits and bytes *)

Lemma encode_utf8_exact cp : 0 <= cp <= 0x10FFFF → encode_utf8 cp = gives (WsUtf8.encode cp).
Proof.
  intros Hcp. unfold encode_utf8, WsUtf8.encode.
  assert (∀ x, Z.land x 0x3F = x mod 64) as Hland by (intros; apply (Z.land_ones _ 6); lia).
  assert (∀ x, 0 <= x < 64 → Z.lor 0x80 x = 0x80 + x) as H80 by (intros x Hx; apply (lor_add 1 7 x); lia).
  rewrite !Hland, !Z.shiftr_div_pow2 by lia. change (2 ^ 6) with 64. change (2 ^ 12) with 4096. change (2 ^ 18) with 262144.
  pose proof (Z.mod_pos_bound cp 64 ltac:(lia)). pose proof (Z.mod_pos_bound (cp / 64) 64 ltac:(lia)). pose proof (Z.mod_pos_bound (cp / 4096) 64 ltac:(lia)).
  rewrite !H80 by lia. repeat case_if; reflect_bools; try done; try lia; do 3 f_equal.
  - apply (lor_add 3 6 (cp / 64)); [lia|]. split; [apply Z.div_pos; lia|apply Z.div_lt_upper_bound; lia].
  - apply (lor_add 7 5 (cp / 4096)); [lia|]. split; [apply Z.div_pos; lia|apply Z.div_lt_upper_bound; lia].
  - apply (lor_add 15 4 (cp / 262144)); [lia|]. split; [apply Z.div_pos; lia|apply Z.div_lt_upper_bound; lia].
Qed.

Lemma class2 c : 0xC0 <= c <= 0xDF → Z.land c 0xE0 =? 0xC0 = true.
Proof.
  intros Hc. pose proof (byte_check (λ c, if (0xC0 <=? c) && (c <=? 0xDF) then Z.land c 0xE0 =? 0xC0 else true) ltac:(reflexivity) c ltac:(lia)) as H.
  simpl in H. by rewrite (proj2 (Z.leb_le 0xC0 c)), (proj2 (Z.leb_le c 0xDF)) in H by lia.
Qed.

Lemma class3 c : 0xE0 <= c <= 0xEF → (Z.land c 0xE0 =? 0xC0) = false ∧ (Z.land c 0xF0 =? 0xE0) = true ∧ Z.land c 0x0F = c - 0xE0.
Proof.
  intros Hc. pose proof (byte_check (λ c, if (0xE0 <=? c) && (c <=? 0xEF) then negb (Z.land c 0xE0 =? 0xC0) && (Z.land c 0xF0 =? 0xE0) && (Z.land c 0x0F =? c - 0xE0) else true)
    ltac:(reflexivity) c ltac:(lia)) as H. simpl in H. rewrite (proj2 (Z.leb_le 0xE0 c)), (proj2 (Z.leb_le c 0xEF)) in H by lia. simpl in H. reflect_bools. split_and!; first [by apply Z.eqb_neq|by apply Z.eqb_eq|done].
Qed.

Lemma class4 c : 0xF0 <= c <= 0xF7 →
  (Z.land c 0xE0 =? 0xC0) = false ∧ (Z.land c 0xF0 =? 0xE0) = false ∧ (Z.land c 0xF8 =? 0xF0) = true ∧ Z.land c 0x07 = c - 0xF0.
Proof.
  intros Hc. pose proof (byte_check (λ c, if (0xF0 <=? c) && (c <=? 0xF7) then negb (Z.land c 0xE0 =? 0xC0) && negb (Z.land c 0xF0 =? 0xE0) && (Z.land c 0xF8 =? 0xF0) && (Z.land c 0x07 =? c - 0xF0) else true)
    ltac:(reflexivity) c ltac:(lia)) as H. simpl in H. rewrite (proj2 (Z.leb_le 0xF0 c)), (proj2 (Z.leb_le c 0xF7)) in H by lia. simpl in H. reflect_bools. split_and!; first [by apply Z.eqb_neq|by apply Z.eqb_eq|done].
Qed.

Lemma class_cont c : 0x80 <= c < 0xC0 → Z.land c 0xC0 = 0x80 ∧ Z.land c 0x3F = c - 0x80.
Proof.
  intros Hc. pose proof (byte_check (λ c, if (0x80 <=? c) && (c <? 0xC0) then (Z.land c 0xC0 =? 0x80) && (Z.land c 0x3F =? c - 0x80) else true) ltac:(reflexivity) c ltac:(lia)) as H.
  simpl in H. rewrite (proj2 (Z.leb_le 0x80 c)), (proj2 (Z.ltb_lt c 0xC0)) in H by lia. simpl in H. by reflect_bools.
Qed.

Lemma good_continuation c : 0x80 <= c < 0xC0 → bad_continuation c = false.
Proof.
  intros Hc. unfold bad_continuation. destruct (class_cont c Hc) as [-> _].
  rewrite (proj2 (Z.eqb_neq c 0)), (proj2 (Z.eqb_neq c 34)) by lia. done.
Qed.

(** ** The strings of RFC 8259 *)

(** The short escapes, and the byte each stands for. *)
Definition short_escapes : list (Z * Z) := [(34, 34); (92, 92); (47, 47); (98, 8); (102, 12); (110, 10); (114, 13); (116, 9)].

(** Four hexadecimal digits and their value. *)
Inductive four_digits : list Z → Z → Prop :=
  | four c1 c2 c3 c4 d1 d2 d3 d4 :
      hex_digit c1 = Some d1 → hex_digit c2 = Some d2 → hex_digit c3 = Some d3 → hex_digit c4 = Some d4 →
      four_digits [c1; c2; c3; c4] (d1 * 4096 + d2 * 256 + d3 * 16 + d4).

(** A character as it is written, and its bytes. *)
Inductive char_text : list Z → list Z → Prop :=
  | char_plain cp : scalar cp → 0x20 <= cp → cp ≠ 34 → cp ≠ 92 → char_text (WsUtf8.encode cp) (WsUtf8.encode cp)
  | char_short c x : (c, x) ∈ short_escapes → char_text [92; c] [x]
  | char_unicode ds cp : four_digits ds cp → scalar cp → char_text (92 :: 117 :: ds) (WsUtf8.encode cp)
  | char_pair ds high ds' low :
      four_digits ds high → 0xD800 <= high <= 0xDBFF → four_digits ds' low → 0xDC00 <= low <= 0xDFFF →
      char_text (92 :: 117 :: ds ++ 92 :: 117 :: ds') (WsUtf8.encode (0x10000 + (high - 0xD800) * 1024 + (low - 0xDC00))).

Inductive chars_text : list Z → list Z → Prop :=
  | chars_nil : chars_text [] []
  | chars_cons w x ws xs : char_text w x → chars_text ws xs → chars_text (w ++ ws) (x ++ xs).

(** A string with its quotes. *)
Definition string_text (w x : list Z) : Prop := ∃ ws, w = 34 :: ws ++ [34] ∧ chars_text ws x.

(** *** Reading them *)

Lemma hex_digit_range c d : hex_digit c = Some d → 0 <= d < 16 ∧ c ≠ 0.
Proof. unfold hex_digit, schar. cbn zeta. repeat case_if; intros [= <-]; reflect_bools; try lia. Qed.

Lemma hex_loop_digits s cs ds e1 e2 : Forall2 (λ c d, hex_digit c = Some d) cs ds → ∀ scan acc, starts s scan cs →
  hex_loop s (length cs) scan acc e1 e2 = gives (foldl (λ acc d, Z.lor (Z.shiftl acc 4) d) acc ds, scan + zlen cs).
Proof.
  induction 1 as [|c d cs ds Hc Hcs IH]; intros scan acc Hs.
  { simpl. by rewrite Z.add_0_r. }
  cbn [length hex_loop]. rewrite (starts_here _ _ _ _ Hs). destruct (hex_digit_range _ _ Hc) as [_ Hnz].
  rewrite (proj2 (Z.eqb_neq _ _) Hnz), Hc. rewrite IH; [|by apply (starts_drop _ _ [c] cs)].
  cbn [foldl]. by replace (scan + zlen (c :: cs)) with (scan + zlen [c] + zlen cs) by (unfold zlen; simpl; lia).
Qed.

Lemma hex_loop_exact s scan ds v e1 e2 : four_digits ds v → starts s scan ds → hex_loop s 4 scan 0 e1 e2 = gives (v, scan + 4).
Proof.
  intros [c1 c2 c3 c4 d1 d2 d3 d4 H1 H2 H3 H4] Hs.
  rewrite (hex_loop_digits s [c1; c2; c3; c4] [d1; d2; d3; d4] e1 e2) by (done || by repeat constructor).
  apply hex_digit_range in H1 as [? _], H2 as [? _], H3 as [? _], H4 as [? _].
  cbn [foldl]. rewrite !Z.shiftl_mul_pow2, Z.mul_0_l, Z.lor_0_l by lia. rewrite !lor_add by lia. do 3 f_equal. lia.
Qed.

Lemma four_digits_length ds v : four_digits ds v → zlen ds = 4 ∧ 0 <= v < 65536 ∧ ∃ c l, ds = c :: l ∧ c ≠ 0.
Proof.
  intros [c1 c2 c3 c4 d1 d2 d3 d4 H1 H2 H3 H4]. apply hex_digit_range in H1 as [? ?], H2 as [? _], H3 as [? _], H4 as [? _].
  split; [done|]. split; [lia|]. by eexists _, _.
Qed.

(** A [\u] escape of a character in the basic plane. *)
Lemma scan_unicode_exact s e scan ds cp : four_digits ds cp → scalar cp → starts s scan ds → scan + 4 <= e →
  scan_unicode s e scan = gives (WsUtf8.encode cp, scan + 4).
Proof.
  intros Hd Hsc Hs He. destruct (four_digits_length _ _ Hd) as (Hlen & Hr & c & l & -> & Hc). unfold scan_unicode.
  rewrite (proj2 (Z.ltb_ge _ _)) by lia. rewrite (starts_here _ _ _ _ Hs), (proj2 (Z.eqb_neq _ _) Hc).
  rewrite (hex_loop_exact _ _ _ _ _ _ Hd Hs). cbn [and_then gives].
  assert ((0xD800 <=? cp) && (cp <=? 0xDBFF) = false) as -> by (apply andb_false_iff; rewrite !Z.leb_gt; destruct Hsc; lia).
  assert ((0xDC00 <=? cp) && (cp <=? 0xDFFF) = false) as -> by (apply andb_false_iff; rewrite !Z.leb_gt; destruct Hsc; lia).
  cbn [and_then gives]. rewrite encode_utf8_exact by (destruct Hsc; lia). done.
Qed.

Lemma scan_pair_exact s e scan ds high ds' low :
  four_digits ds high → 0xD800 <= high <= 0xDBFF → four_digits ds' low → 0xDC00 <= low <= 0xDFFF →
  starts s scan (ds ++ 92 :: 117 :: ds') → scan + 10 <= e →
  scan_unicode s e scan = gives (WsUtf8.encode (0x10000 + (high - 0xD800) * 1024 + (low - 0xDC00)), scan + 10).
Proof.
  intros Hd Hh Hd' Hl Hs He. destruct (four_digits_length _ _ Hd) as (Hlen & _ & c & l & Hds & Hc).
  pose proof (starts_take _ _ _ _ Hs) as Hs1. pose proof (starts_drop _ _ _ _ Hs) as Hs2. rewrite Hlen in Hs2.
  unfold scan_unicode. rewrite (proj2 (Z.ltb_ge _ _)) by lia. rewrite Hds in Hs1 at 1. rewrite (starts_here _ _ _ _ Hs1), (proj2 (Z.eqb_neq _ _) Hc), <- Hds in *.
  rewrite (hex_loop_exact _ _ _ _ _ _ Hd Hs1). cbn [and_then gives].
  rewrite (proj2 (Z.leb_le _ _) (proj1 Hh)), (proj2 (Z.leb_le _ _) (proj2 Hh)). cbn [andb]. unfold low_surrogate.
  rewrite (proj2 (Z.ltb_ge _ _)) by lia. rewrite (starts_here _ _ _ _ Hs2), (starts_get _ _ _ 1 117 Hs2) by done. cbn [Z.eqb Pos.eqb negb orb].
  rewrite (proj2 (Z.ltb_ge _ _)) by lia. rewrite (hex_loop_exact _ _ _ _ _ _ Hd' (starts_drop s (scan + 4) [92; 117] ds' Hs2)). cbn [and_then gives].
  rewrite (proj2 (Z.ltb_ge _ _) (proj1 Hl)), (proj2 (Z.ltb_ge _ _) (proj2 Hl)). cbn [orb and_then gives].
  rewrite Z.shiftl_mul_pow2 by lia. change (2 ^ 10) with 1024. rewrite encode_utf8_exact by lia. cbn [and_then gives].
  by replace (scan + 4 + zlen [92; 117] + 4) with (scan + 10) by (change (zlen [92; 117]) with 2; lia).
Qed.

(** A plain character. *)
Lemma scan_plain_exact s e scan cp : scalar cp → 0x20 <= cp → starts s scan (WsUtf8.encode cp) → scan + zlen (WsUtf8.encode cp) <= e →
  ∃ c l, WsUtf8.encode cp = c :: l ∧ 0x20 <= c < 256 ∧ (c < 0x80 → c = cp) ∧
    scan_plain s e scan c = gives (WsUtf8.encode cp, scan + zlen (WsUtf8.encode cp)).
Proof.
  intros Hsc H20 Hs He. unfold WsUtf8.encode in *.
  pose proof (Z.mod_pos_bound cp 64 ltac:(lia)). pose proof (Z.mod_pos_bound (cp / 64) 64 ltac:(lia)). pose proof (Z.mod_pos_bound (cp / 4096) 64 ltac:(lia)).
  pose proof (Z.div_mod cp 64 ltac:(lia)). pose proof (Z.div_mod (cp / 64) 64 ltac:(lia)). pose proof (Z.div_mod (cp / 4096) 64 ltac:(lia)).
  assert (cp / 64 / 64 = cp / 4096) as E1 by (by rewrite Z.div_div by lia). assert (cp / 4096 / 64 = cp / 262144) as E2 by (by rewrite Z.div_div by lia).
  rewrite E1 in *. rewrite E2 in *. assert (0 <= cp / 262144) by (apply Z.div_pos; lia).
  destruct (Z.ltb_spec cp 0x80); [|destruct (Z.ltb_spec cp 0x800); [|destruct (Z.ltb_spec cp 0x10000)]]; eexists _, _; (split; [done|]);
    unfold scan_plain, zlen in *; cbn [length] in *.
  - split_and!; [lia|lia|lia|]. rewrite (proj2 (Z.ltb_lt _ _)) by lia. done.
  - split_and!; [lia|lia|lia|]. rewrite (proj2 (Z.ltb_ge _ _)), class2, (proj2 (Z.ltb_ge _ _)), (proj2 (Z.ltb_ge _ _)) by lia.
    rewrite (starts_get _ _ _ 1 (0x80 + cp mod 64) Hs) by done. rewrite good_continuation by lia. done.
  - split_and!; [lia|lia|lia|]. rewrite (proj2 (Z.ltb_ge _ _)) by lia. destruct (class3 (0xE0 + cp / 4096)) as (-> & -> & ->); [lia|].
    rewrite (proj2 (Z.ltb_ge _ _)) by lia. rewrite (starts_get _ _ _ 1 (0x80 + cp / 64 mod 64) Hs), (starts_get _ _ _ 2 (0x80 + cp mod 64) Hs) by done.
    rewrite !good_continuation by lia. destruct (class_cont (0x80 + cp / 64 mod 64)) as [_ ->]; [lia|]. destruct (class_cont (0x80 + cp mod 64)) as [_ ->]; [lia|].
    rewrite !Z.shiftl_mul_pow2 by lia.
    assert (Z.lor (Z.lor ((0xE0 + cp / 4096 - 0xE0) * 2 ^ 12) ((0x80 + cp / 64 mod 64 - 0x80) * 2 ^ 6)) (0x80 + cp mod 64 - 0x80) = cp) as ->.
    { rewrite lor_add by lia. replace (_ + _) with ((cp / 64) * 2 ^ 6) by lia. rewrite lor_add by lia. lia. }
    cbn zeta. rewrite (proj2 (Z.ltb_ge _ _)) by lia.
    assert ((0xD800 <=? cp) && (cp <=? 0xDFFF) = false) as -> by (apply andb_false_iff; rewrite !Z.leb_gt; destruct Hsc; lia). done.
  - assert (cp / 262144 <= 4) by (destruct Hsc; lia). split_and!; [lia|lia|lia|]. rewrite (proj2 (Z.ltb_ge _ _)) by lia.
    destruct (class4 (0xF0 + cp / 262144)) as (-> & -> & -> & ->); [lia|]. rewrite (proj2 (Z.ltb_ge _ _)), (proj2 (Z.ltb_ge _ _)) by lia.
    rewrite (starts_get _ _ _ 1 (0x80 + cp / 4096 mod 64) Hs), (starts_get _ _ _ 2 (0x80 + cp / 64 mod 64) Hs), (starts_get _ _ _ 3 (0x80 + cp mod 64) Hs) by done.
    rewrite !good_continuation by lia. destruct (class_cont (0x80 + cp / 4096 mod 64)) as [_ ->]; [lia|].
    destruct (class_cont (0x80 + cp / 64 mod 64)) as [_ ->]; [lia|]. destruct (class_cont (0x80 + cp mod 64)) as [_ ->]; [lia|].
    rewrite !Z.shiftl_mul_pow2 by lia.
    assert (Z.lor (Z.lor (Z.lor ((0xF0 + cp / 262144 - 0xF0) * 2 ^ 18) ((0x80 + cp / 4096 mod 64 - 0x80) * 2 ^ 12)) ((0x80 + cp / 64 mod 64 - 0x80) * 2 ^ 6)) (0x80 + cp mod 64 - 0x80) = cp) as ->.
    { rewrite lor_add by lia. replace (_ + _) with ((cp / 4096) * 2 ^ 12) by lia. rewrite lor_add by lia.
      replace (_ + _) with ((cp / 64) * 2 ^ 6) by lia. rewrite lor_add by lia. lia. }
    cbn zeta. rewrite (proj2 (Z.ltb_ge _ _)), (proj2 (Z.ltb_ge _ _)) by (destruct Hsc; lia). done.
Qed.

Lemma scan_escape_exact s e scan w x : char_text (92 :: w) x → starts s scan w → scan + zlen w <= e →
  scan_escape s e scan = gives (x, scan + zlen w).
Proof.
  intros Hc Hs He. remember (92 :: w) as w' eqn:Hw. unfold scan_escape. destruct Hc as [cp Hsc H20 _ H92|c b Hin|ds cp Hd Hsc|ds high ds' low Hd Hh Hd' Hl].
  - exfalso. unfold WsUtf8.encode in Hw. repeat case_match; injection Hw as Hw; subst; rewrite ?Z.ltb_lt, ?Z.ltb_ge in *; [done|..];
      pose proof (Z.div_pos cp 64); pose proof (Z.div_pos cp 4096); pose proof (Z.div_pos cp 262144); lia.
  - injection Hw as <-. change (zlen [c]) with 1 in *. rewrite (proj2 (Z.leb_gt _ _)) by lia. rewrite (starts_here _ _ _ _ Hs).
    unfold short_escapes in Hin. repeat (apply elem_of_cons in Hin as [[= -> ->]|Hin]; [reflexivity|]). by apply elem_of_nil in Hin.
  - injection Hw as <-. pose proof (starts_drop _ _ [117] ds Hs) as Hs'. destruct (four_digits_length _ _ Hd) as (Hlen & _ & _).
    rewrite zlen_cons in He |- *. rewrite Hlen in *. rewrite (proj2 (Z.leb_gt _ _)) by lia. rewrite (starts_here _ _ _ _ Hs). cbn [Z.eqb Pos.eqb].
    rewrite (scan_unicode_exact _ _ _ _ _ Hd Hsc Hs') by (change (zlen [117]) with 1; lia).
    by replace (scan + zlen [117] + 4) with (scan + (1 + 4)) by (change (zlen [117]) with 1; lia).
  - injection Hw as <-. pose proof (starts_drop _ _ [117] _ Hs) as Hs'. destruct (four_digits_length _ _ Hd) as (Hlen & _ & _). destruct (four_digits_length _ _ Hd') as (Hlen' & _ & _).
    assert (zlen (117 :: ds ++ 92 :: 117 :: ds') = 11) as Hz by (rewrite zlen_cons; unfold zlen in *; rewrite length_app; simpl; lia).
    rewrite Hz in *. rewrite (proj2 (Z.leb_gt _ _)) by lia. rewrite (starts_here _ _ _ _ Hs). cbn [Z.eqb Pos.eqb].
    rewrite (scan_pair_exact _ _ _ _ _ _ _ Hd Hh Hd' Hl Hs') by (change (zlen [117]) with 1; lia).
    by replace (scan + zlen [117] + 10) with (scan + 11) by (change (zlen [117]) with 1; lia).
Qed.

(** The first byte of a character, and whether it is an escape. *)
Lemma char_first w x : char_text w x → ∃ c l, w = c :: l ∧ 0x20 <= c ∧ c ≠ 34 ∧
  (c = 92 ∨ c ≠ 92 ∧ ∃ cp, scalar cp ∧ 0x20 <= cp ∧ w = WsUtf8.encode cp ∧ x = WsUtf8.encode cp).
Proof.
  intros [cp Hsc H20 H34 H92|c b Hin|ds cp Hd Hsc|ds high ds' low Hd Hh Hd' Hl]; [|eexists _, _; split; [done|]; lia..].
  assert (∃ c l, WsUtf8.encode cp = c :: l ∧ 0x20 <= c ∧ c ≠ 34 ∧ c ≠ 92) as (c & l & Hc & ? & ? & ?).
  { unfold WsUtf8.encode. pose proof (Z.div_pos cp 64). pose proof (Z.div_pos cp 4096). pose proof (Z.div_pos cp 262144).
    repeat case_if; eexists _, _; (split; [done|]); lia. }
  exists c, l. split_and!; [done..|]. right. split; [done|]. by exists cp.
Qed.

Lemma string_loop_char s e w x scan str fuel : char_text w x → starts s scan w → scan + zlen w <= e →
  string_loop s e (S fuel) scan str = string_loop s e fuel (scan + zlen w) (str ++ x).
Proof.
  intros Hc Hs He. destruct (char_first _ _ Hc) as (c & l & -> & H20 & H34 & Hk). cbn [string_loop].
  rewrite zlen_cons in He |- *. pose proof (zlen_nonneg l). rewrite (proj2 (Z.leb_gt _ _)) by lia. rewrite (starts_here _ _ _ _ Hs).
  rewrite (proj2 (Z.eqb_neq c 0)), (proj2 (Z.eqb_neq c 34)), (proj2 (Z.ltb_ge c 0x20)) by lia. destruct Hk as [->|(H92 & cp & Hsc & Hcp & Hw & ->)].
  - rewrite Z.eqb_refl. rewrite (scan_escape_exact _ _ _ _ _ Hc (starts_drop _ _ [92] l Hs)) by (change (zlen [92]) with 1; lia).
    cbn [and_then gives]. by replace (scan + zlen [92] + zlen l) with (scan + (1 + zlen l)) by (change (zlen [92]) with 1; lia).
  - rewrite (proj2 (Z.eqb_neq c 92)) by done. rewrite Hw in Hs.
    destruct (scan_plain_exact s e scan cp Hsc Hcp Hs) as (c' & l' & Henc & _ & _ & Hp); [rewrite <- Hw, zlen_cons; lia|].
    assert (c' = c) as -> by congruence. rewrite Hp. cbn [and_then gives]. by rewrite <- Hw, zlen_cons.
Qed.

Lemma string_loop_chars s e ws xs : chars_text ws xs → ∀ scan str fuel, starts s scan (ws ++ [34]) → scan + zlen ws < e →
  (length ws < fuel)%nat → string_loop s e fuel scan str = gives (str ++ xs, scan + zlen ws).
Proof.
  induction 1 as [|w x ws xs Hw Hws IH]; intros scan str fuel Hs He Hf; (destruct fuel as [|fuel]; [lia|]).
  - cbn [string_loop]. rewrite zlen_nil, Z.add_0_r in *. rewrite (proj2 (Z.leb_gt _ _)) by lia. rewrite (starts_here _ _ _ _ Hs). by rewrite app_nil_r.
  - rewrite <- app_assoc in Hs. unfold zlen in He. rewrite length_app in He, Hf. pose proof (starts_take _ _ _ _ Hs).
    rewrite (string_loop_char _ _ _ _ _ _ _ Hw) by (done || unfold zlen; lia).
    rewrite IH; [|by apply starts_drop|unfold zlen; lia|destruct (char_first _ _ Hw) as (? & ? & -> & _); simpl in Hf; lia].
    rewrite <- app_assoc. by replace (scan + zlen w + zlen ws) with (scan + zlen (w ++ ws)) by (unfold zlen; rewrite length_app; lia).
Qed.

(** Every string is read as the bytes it stands for. *)
Lemma scan_string_exact s e w x scan : string_text w x → starts s scan w → scan + zlen w <= e →
  scan_string s e scan = gives (x, scan + zlen w).
Proof.
  intros (ws & -> & Hws) Hs He. unfold scan_string. rewrite (starts_here _ _ _ _ Hs). cbn [Z.eqb Pos.eqb negb].
  assert (zlen (34 :: ws ++ [34]) = zlen ws + 2) as Hz by (unfold zlen; simpl; rewrite length_app; simpl; lia).
  rewrite Hz in *. pose proof (zlen_nonneg ws). rewrite (proj2 (Z.leb_gt _ _)) by lia. pose proof (starts_drop _ _ [34] _ Hs) as Hs'. change (zlen [34]) with 1 in Hs'.
  pose proof (starts_end _ _ _ Hs) as [? Hend]. rewrite (string_loop_chars _ _ _ _ Hws _ _ _ Hs'); [|lia|rewrite Hz in Hend; unfold zlen in *; lia].
  cbn [and_then gives app]. rewrite (starts_here _ _ 34 [] (starts_drop _ _ ws [34] Hs')). rewrite Z.eqb_refl. cbn [negb].
  by replace (scan + 1 + zlen ws + 1) with (scan + (zlen ws + 2)) by lia.
Qed.
