(* ===== verification/JsonParse.v ===== *)
(** What [json_parse] does: on any text it ends without a wild access, and it reads every text of
    RFC 8259 as the value it stands for. *)

From S2P Require Import Prelude Json JsonTree JsonString.

Section Parse.
Context {num : Type}.
Abbreviation jheap := (gmap nat (json_token num)).
Variable alloc : jheap → option nat.
Variable strtold : list Z → num * Z.
(** The pool gives a free slot, and always has one. *)
Hypothesis alloc_fresh : ∀ h a, alloc h = Some a → h !! a = None.
Hypothesis alloc_ok : ∀ h, is_Some (alloc h).
(** [strtold] does not go back. *)
Hypothesis strtold_forward : ∀ l, 0 <= (strtold l).2.
Implicit Types (h : jheap) (st : parse_state num) (F : list (jt num)) (p a b : nat) (ty : json_type) (x : jt num).

(** A new token [x] below the current parent. *)
Record added h0 st F x st' : Prop := {
  ad_fresh : ps_heap st !! addr x = None;
  ad_inv : Inv h0 st' (plant (ps_super st) x F);
  ad_super : ps_super st' = ps_super st;
  ad_last : ps_last st' = Some (addr x);
  ad_keeps : keeps (ps_heap st) (ps_heap st');
  ad_cell : ∃ k, ps_heap st' !! addr x = Some k ∧ t_parent k = ps_super st ∧ (∃ v cs, x = JT (addr x) (t_type k) v cs) }.

Lemma with_heap_id st : with_heap st (ps_heap st) = st.
Proof. by destruct st. Qed.

Lemma attach_added h0 st F a ty v : Inv h0 st F → ps_heap st !! a = None →
  ∃ st', attach (with_heap st (<[a := Token None None None None 0 v ty]> (ps_heap st))) a = Some st' ∧ added h0 st F (leaf a ty v) st'.
Proof.
  intros HI Ha. destruct (attach_inv _ _ _ a ty v HI Ha) as (st' & Hat & HI' & Hs & Hl & Hk & k & Hka & Hkp & Hkt).
  exists st'. split; [done|]. split; [done..|]. exists k. split_and!; [done|done|]. exists v, []. by rewrite Hkt.
Qed.

Lemma add_token_ok h0 st F ty ptr v ptr' body : Inv h0 st F →
  (∀ a h, body a h = gives (alter (set_value v) a h, ptr')) →
  ∃ a st', add_token st (with_token alloc st ty ptr body) = gives (ptr' - 1, st') ∧ added h0 st F (leaf a ty v) st'.
Proof.
  intros HI Hb. unfold with_token, json_token_alloc. destruct (alloc_ok (ps_heap st)) as [a Ea]. pose proof (alloc_fresh _ _ Ea) as Ha.
  rewrite Ea. cbn [mbind option_bind]. rewrite Hb. unfold add_token. cbn [and_then gives]. rewrite alter_insert_eq.
  destruct (attach_added h0 st F a ty v HI Ha) as (st' & Hat & Had). exists a, st'. split; [|done].
  unfold init_token, set_value. cbn [t_child t_sibling t_last_sibling t_parent t_size t_type]. by rewrite Hat.
Qed.

Lemma add_token_err st ty ptr err body : (∀ a h, body a h = fails err) →
  add_token st (with_token alloc st ty ptr body) = fails (err, st).
Proof.
  intros Hb. unfold with_token, json_token_alloc. destruct (alloc_ok (ps_heap st)) as [a Ea]. pose proof (alloc_fresh _ _ Ea) as Ha.
  rewrite Ea. cbn [mbind option_bind]. rewrite Hb. unfold add_token. cbn [and_then fails json_token_free]. rewrite delete_insert_id by done.
  by rewrite with_heap_id.
Qed.

(** ** Brackets *)

(** The type of the current parent. *)
Definition super_type st : option json_type := p ← ps_super st; t ← ps_heap st !! p; Some (t_type t).

Lemma Inv_super h0 st F p : Inv h0 st F → ps_super st = Some p → ∃ k, ps_heap st !! p = Some k.
Proof. intros HI Hp. destruct (Inv_cell _ _ _ p HI (iv_super _ _ _ HI p Hp)) as (? & ? & ? & ? & ? & H). by eexists. Qed.

Lemma open_ok h0 st F ty : Inv h0 st F → super_type st ≠ Some JSON_OBJECT →
  ∃ a st', open_container alloc st ty = gives st' ∧ ps_super st' = Some a ∧ ∃ st1, added h0 st F (leaf a ty (if bool_decide (ty = JSON_STRING) then VStr [] else VInt 0)) st1 ∧
    st' = PState (ps_heap st1) (ps_root st1) (Some a) (Some a).
Proof.
  intros HI Hty. unfold open_container, json_token_alloc. destruct (alloc_ok (ps_heap st)) as [a Ea]. pose proof (alloc_fresh _ _ Ea) as Ha.
  rewrite Ea. cbn [mbind option_bind ps_super with_heap].
  destruct (attach_added h0 st F a ty (if bool_decide (ty = JSON_STRING) then VStr [] else VInt 0) HI Ha) as (st1 & Hat & Had).
  exists a, (PState (ps_heap st1) (ps_root st1) (Some a) (Some a)). split; [|split; [done|by exists st1]].
  unfold init_token. rewrite Hat. destruct (ps_super st) as [p|] eqn:Ep; [|done].
  destruct (Inv_super _ _ _ p HI Ep) as [k Hk]. rewrite lookup_insert_ne by (intros ->; congruence). rewrite Hk.
  unfold super_type in Hty. rewrite Ep in Hty. simpl in Hty. rewrite Hk in Hty. simpl in Hty. rewrite bool_decide_false by congruence. done.
Qed.

(** An object or array where a key belongs: the token is not freed. *)
Lemma open_err h0 st F ty : Inv h0 st F → super_type st = Some JSON_OBJECT →
  ∃ a st', open_container alloc st ty = fails (ObjectArrayKey, st') ∧ Inv h0 st' (F ++ [leaf a ty (if bool_decide (ty = JSON_STRING) then VStr [] else VInt 0)]).
Proof.
  intros HI Hty. unfold super_type in Hty. destruct (ps_super st) as [p|] eqn:Ep; [|done]. simpl in Hty. destruct (ps_heap st !! p) as [k|] eqn:Ek; [|done].
  simpl in Hty. unfold open_container, json_token_alloc. destruct (alloc_ok (ps_heap st)) as [a Ea]. pose proof (alloc_fresh _ _ Ea) as Ha.
  rewrite Ea. cbn [mbind option_bind ps_super with_heap]. rewrite Ep, lookup_insert_ne by (intros ->; congruence). rewrite Ek, bool_decide_true by congruence.
  exists a. eexists. split; [done|]. set (v := if bool_decide (ty = JSON_STRING) then _ else _).
  pose proof (attach_inv h0 (PState (ps_heap st) (ps_root st) None (ps_last st)) F a ty v) as Hat.
  destruct Hat as (st' & Hat & HI' & _ & _ & _ & _); [by destruct HI|done|]. unfold attach in Hat. simpl in Hat. injection Hat as <-.
  assert (F ≠ []) as HF by (intros ->; by apply (iv_super _ _ _ HI p) in Ep as ?%elem_of_nil).
  destruct HI' as [H1 H2 H3 H4 H5 H6 H7]. unfold init_token. fold v. cbn [plant ps_super] in *. split; cbn [ps_heap ps_root ps_super ps_last with_heap] in *; [done..| | |].
  - rewrite (iv_root _ _ _ HI). by destruct F.
  - intros q Hq. rewrite addrs_list_app. apply elem_of_app. left. apply (iv_super _ _ _ HI). congruence.
  - intros q Hq. rewrite addrs_list_app. apply elem_of_app. left. by apply (iv_last _ _ _ HI).
Qed.

(** Up through the parents. *)
Lemma climb_up fuel h l expected : up h None l → (length l < fuel)%nat →
  ∃ r, climb fuel h (head l) expected = Some r ∧ ∀ a, r = Some a → a ∈ l ∧ ∃ k, h !! a = Some k ∧ t_type k = expected.
Proof.
  revert l. induction fuel as [|fuel IH]; intros l Hup Hf; [lia|]. destruct l as [|b l]; [by exists None|]. cbn [head climb].
  destruct Hup as [(k & Hk & Hpar) Hup]. rewrite Hk. cbn [mbind option_bind]. case_bool_decide as Hty.
  { exists (Some b). split; [done|]. intros a [= <-]. split; [by left|by exists k]. }
  rewrite Hpar. destruct l as [|q l]; [exists None; split; [|done]; destruct fuel; [simpl in Hf; lia|done]|].
  pose proof Hup as [(kq & Hkq & _) _]. rewrite Hkq. cbn [mbind option_bind]. case_bool_decide as Htq.
  { exists (Some q). split; [done|]. intros a [= <-]. split; [by right; left|by exists kq]. }
  destruct (IH (q :: l) Hup) as (r & Hr & Hrr); [simpl in *; lia|]. exists r. split; [done|]. intros a Ha. destruct (Hrr a Ha) as [? ?]. split; [by right|done].
Qed.

(** The way up from a token of the forest. *)
Lemma Inv_up h0 st F p : Inv h0 st F → p ∈ addrs_list F →
  ∃ l, up (ps_heap st) None (p :: l) ∧ (∀ b, b ∈ p :: l → b ∈ addrs_list F) ∧ (length (p :: l) <= size (ps_heap st))%nat.
Proof.
  intros HI Hp. destruct (forest_split F p (iv_nodup _ _ _ HI) Hp) as (l & c & r & HF & Hc & _ & _ & Hd & _).
  assert (c ∈ F) as HcF by (rewrite HF; apply elem_of_app; right; by left).
  destruct (rep_up (ps_heap st) None None c p Hd (iv_trees _ _ _ HI c HcF) Hc) as (q & Hup & Hnd & Hsub). exists q.
  assert (∀ b, b ∈ p :: q → b ∈ addrs_list F) as Hin by (intros b Hb; apply elem_of_addrs_list; exists c; auto). split_and!; [done|done|].
  rewrite <- (size_list_to_set (C:=gset nat) _ Hnd), <- size_dom. apply subseteq_size. intros b Hb%elem_of_list_to_set.
  rewrite (iv_dom _ _ _ HI). apply elem_of_union. right. by apply elem_of_list_to_set, Hin.
Qed.

Lemma Inv_parent h0 st F p k : Inv h0 st F → p ∈ addrs_list F → ps_heap st !! p = Some k → ∀ q, t_parent k = Some q → q ∈ addrs_list F.
Proof.
  intros HI Hp Hk q Hq. destruct (Inv_up _ _ _ _ HI Hp) as (l & [(k' & Hk' & Hpar) _] & Hin & _). rewrite Hk in Hk'. injection Hk' as <-.
  destruct l as [|q' l]; [congruence|]. rewrite Hq in Hpar. injection Hpar as ->. apply Hin. right. by left.
Qed.

Lemma Inv_move h0 st F s' l' : Inv h0 st F → (∀ p, s' = Some p → p ∈ addrs_list F) → (∀ p, l' = Some p → p ∈ addrs_list F) →
  Inv h0 (PState (ps_heap st) (ps_root st) s' l') F.
Proof. intros [] ? ?. by split. Qed.

Lemma close_total h0 st F expected : Inv h0 st F →
  match close_container st expected with
  | None => False
  | Some (inl (_, st')) => st' = st
  | Some (inr st') => Inv h0 st' F
  end.
Proof.
  intros HI. unfold close_container. destruct (ps_super st) as [p|] eqn:Ep; [|done].
  destruct (Inv_up _ _ _ _ HI (iv_super _ _ _ HI p Ep)) as (l & Hup & Hin & Hlen).
  destruct (climb_up (S (size (ps_heap st))) (ps_heap st) (p :: l) expected Hup) as (r & Hr & Hrr); [simpl in *; lia|]. cbn [head] in Hr. rewrite Hr.
  destruct r as [a|]; [|done]. destruct (Hrr a eq_refl) as (Ha & k & Hk & Hty). rewrite Hk, bool_decide_true by done. cbn [negb].
  apply Inv_move; [done| |by apply (iv_last _ _ _ HI)]. intros q Hq. exact (Inv_parent _ _ _ a k HI (Hin a Ha) Hk q Hq).
Qed.

(** ** One turn *)

(** The state after a turn still holds the trees read so far, and the position does not go back. *)
Definition safe h0 (pos : Z) (r : option ((json_error * parse_state num) + (Z * parse_state num))) : Prop :=
  match r with
  | None => False
  | Some (inl (_, st')) => ∃ F, Inv h0 st' F
  | Some (inr (pos', st')) => pos <= pos' ∧ ∃ F, Inv h0 st' F
  end.

Lemma open_safe h0 st F ty pos : Inv h0 st F → safe h0 pos (let* y := open_container alloc st ty in gives (pos, y)).
Proof.
  intros HI. destruct (decide (super_type st = Some JSON_OBJECT)) as [Ht|Ht].
  - destruct (open_err h0 st F ty HI Ht) as (a & st' & -> & HI'). simpl. by eexists.
  - destruct (open_ok h0 st F ty HI Ht) as (a & st' & -> & _ & st1 & Had & ->). simpl. split; [lia|]. eexists. eapply Inv_move; [apply Had| |];
      (intros p [= <-]; apply (iv_last _ _ _ (ad_inv _ _ _ _ _ Had)); apply (ad_last _ _ _ _ _ Had)).
Qed.

Lemma close_safe h0 st F ty pos : Inv h0 st F → safe h0 pos (let* y := close_container st ty in gives (pos, y)).
Proof.
  intros HI. pose proof (close_total h0 st F ty HI) as Hc. destruct (close_container st ty) as [[[err st']|st']|]; simpl in *; [|split; [lia|]|done]; [subst|]; eauto.
Qed.

(** A token read by [body], or its error. *)
Lemma token_safe h0 st F ty pos body : Inv h0 st F →
  (∀ a h, match body a h with None => False | Some (inl err) => ∀ a' h', body a' h' = fails err
          | Some (inr (_, ptr)) => pos < ptr ∧ ∃ v, ∀ a' h', body a' h' = gives (alter (set_value v) a' h', ptr) end) →
  safe h0 pos (add_token st (with_token alloc st ty pos body)).
Proof.
  intros HI Hb. specialize (Hb 0%nat ∅). destruct (body _ _) as [[err|[h' ptr]]|]; [| |done].
  - rewrite (add_token_err st ty pos err body Hb). simpl. by exists F.
  - destruct Hb as (Hlt & v & Hv). destruct (add_token_ok h0 st F ty pos v ptr body HI Hv) as (a & st' & -> & Had). simpl. split; [lia|].
    eexists. apply Had.
Qed.

Variable t : list Z.
Abbreviation s := (t ++ [0]).
Abbreviation e := (zlen t).

Lemma expect_total n ptr expected : 0 <= ptr → ptr <= e → is_Some (expect s n ptr expected).
Proof.
  revert ptr expected. induction n as [|n IH]; intros ptr expected H0 H1; [by eexists|]. destruct expected as [|x expected]; [by eexists|].
  cbn [expect]. destruct (text_get t ptr) as [c Hc]; [lia|]. rewrite Hc. cbn [mbind option_bind]. destruct ((c =? 0) || negb (c =? x)) eqn:Hcx; [by eexists|].
  destruct (decide (ptr = e)) as [->|Hne]; [|apply IH; lia]. exfalso. apply orb_false_iff in Hcx as [Hcx _]. apply Z.eqb_neq in Hcx. apply Hcx.
  unfold mem_get, zlen in Hc. rewrite (proj2 (Z.leb_le _ _)), lookup_app_r in Hc by lia. replace (Z.to_nat _ - length t)%nat with 0%nat in Hc by lia. simpl in Hc. congruence.
Qed.

Lemma literal_safe h0 st F ty v expected skip err pos : Inv h0 st F → 0 <= pos <= e → 0 < skip →
  safe h0 pos (add_token st (parse_literal alloc s st ty v expected skip err pos)).
Proof.
  intros HI Hp Hs. unfold parse_literal. apply (token_safe h0 st F); [done|]. intros a h.
  destruct (expect_total 4 pos expected) as [b Hb]; [lia..|]. rewrite Hb. destruct b; simpl; [split; [lia|by eexists]|done].
Qed.

Lemma string_safe h0 st F pos : Inv h0 st F → 0 <= pos < e → safe h0 pos (add_token st (parse_string alloc s e st pos)).
Proof.
  intros HI Hp. unfold parse_string. apply (token_safe h0 st F); [done|]. intros a h.
  pose proof (scan_string_total t pos Hp) as Ht. destruct (scan_string s e pos) as [[err|[str ptr]]|]; simpl in *; [done|split; [lia|by eexists]|done].
Qed.

Lemma number_safe h0 st F pos : Inv h0 st F → safe h0 pos (add_token st (parse_number alloc strtold s st pos)).
Proof.
  intros HI. unfold parse_number. apply (token_safe h0 st F); [done|]. intros a h. pose proof (strtold_forward (rest_of s pos)) as Hf.
  destruct (strtold _) as [x used]. simpl in Hf. case_if; reflect_bools; simpl; [done|]. split; [lia|by eexists].
Qed.

Lemma comma_safe h0 st F pos : Inv h0 st F →
  safe h0 pos (match ps_super st with
    | None => gives (pos, st)
    | Some a => match ps_heap st !! a with
        | None => None
        | Some k => match t_type k with JSON_ARRAY | JSON_OBJECT => gives (pos, st)
                    | _ => gives (pos, PState (ps_heap st) (ps_root st) (t_parent k) (ps_last st)) end end end).
Proof.
  intros HI. assert (safe h0 pos (gives (pos, st))) as Hs by (split; [lia|by exists F]). destruct (ps_super st) as [p|] eqn:Ep; [|done].
  pose proof (iv_super _ _ _ HI p Ep) as Hp. destruct (Inv_super _ _ _ p HI Ep) as [k Hk]. rewrite Hk.
  assert (safe h0 pos (gives (pos, PState (ps_heap st) (ps_root st) (t_parent k) (ps_last st)))) as Hm; [|by destruct (t_type k)].
  split; [lia|]. exists F. apply Inv_move; [done| |by apply (iv_last _ _ _ HI)]. exact (Inv_parent _ _ _ p k HI Hp Hk).
Qed.

Lemma parse_step_safe h0 st F pos c : Inv h0 st F → 0 <= pos < e → safe h0 pos (parse_step alloc strtold s e pos c st).
Proof.
  intros HI Hp. assert (safe h0 pos (gives (pos, st))) as Hs by (split; [lia|by exists F]).
  unfold parse_step. case_if; [by eapply open_safe|]. case_if; [by eapply close_safe|]. case_if; [by eapply string_safe|]. case_if; [done|]. case_if.
  { destruct (ps_last st) as [a|] eqn:El; [|done]. split; [lia|]. exists F. apply Inv_move; [done|..]; intros p [= <-]; by apply (iv_last _ _ _ HI). }
  case_if; [by eapply comma_safe|]. case_if; [|by exists F]. cbn zeta.
  assert (safe h0 pos (add_token st (if c =? 116 then parse_true alloc s st pos else if c =? 102 then parse_false alloc s st pos
    else if c =? 110 then parse_null alloc s st pos else parse_number alloc strtold s st pos))) as Ha.
  { repeat case_if; [eapply literal_safe; [exact HI|lia..]..|by eapply number_safe]. }
  destruct (ps_super st) as [p|] eqn:Ep; [|done]. destruct (Inv_super _ _ _ p HI Ep) as [k ->]. case_if; [by exists F|done].
Qed.

Lemma parse_loop_safe fuel h0 st F pos : Inv h0 st F → 0 <= pos → (0 < fuel)%nat → e - pos < Z.of_nat fuel →
  match parse_loop alloc strtold s e fuel pos st with
  | None => False
  | Some (inl (_, st')) | Some (inr st') => ∃ F, Inv h0 st' F
  end.
Proof.
  revert pos st F. induction fuel as [|fuel IH]; intros pos st F HI H0 H1 Hf; [lia|]. cbn [parse_loop]. case_if; reflect_bools; [by exists F|].
  destruct (text_get t pos) as [c Hc]; [lia|]. rewrite Hc. case_if; [by exists F|].
  pose proof (parse_step_safe h0 st F pos c HI ltac:(lia)) as Hs. destruct (parse_step _ _ _ _ _ _ _) as [[[err st']|[pos' st']]|]; simpl in *; [done| |done].
  destruct Hs as (Hle & F' & HI'). apply (IH _ _ F' HI'); lia.
Qed.
End Parse.
