(* ===== verification/JsonGrammar.v ===== *)
(** JSON texts as RFC 8259 defines them, the values they stand for, and the trees of tokens that
    represent a value. *)

From S2P Require Import Prelude Json JsonTree JsonString.

(** ** Numbers *)

Definition is_digit (c : Z) : Prop := 48 <= c <= 57.
Definition digits (w : list Z) : Prop := w ≠ [] ∧ Forall is_digit w.

(** [number = minus? int frac? exp?] *)
Inductive number_token : list Z → Prop :=
  | number sign int frac exp :
      (sign = [] ∨ sign = [45]) →
      (int = [48] ∨ digits int ∧ head int ≠ Some 48) →
      (frac = [] ∨ ∃ d, frac = 46 :: d ∧ digits d) →
      (exp = [] ∨ ∃ c sg d, exp = c :: sg ++ d ∧ (c = 101 ∨ c = 69) ∧ (sg = [] ∨ sg = [43] ∨ sg = [45]) ∧ digits d) →
      number_token (sign ++ int ++ frac ++ exp).

Definition blank_char (c : Z) : bool := (c =? 9) || (c =? 13) || (c =? 10) || (c =? 32).
Definition blank (w : list Z) : Prop := Forall (λ c, blank_char c = true) w.

(** What may come right after a value. *)
Definition ends_value (c : Z) : bool := blank_char c || (c =? 44) || (c =? 93) || (c =? 125).
Definition delimited (rest : list Z) : Prop := match rest with [] => True | c :: _ => ends_value c = true end.

(** The bytes a number is made of. *)
Definition number_char (c : Z) : bool := ((48 <=? c) && (c <=? 57)) || (c =? 43) || (c =? 45) || (c =? 46) || (c =? 69) || (c =? 101).

Lemma digits_chars w : Forall is_digit w → Forall (λ c, number_char c = true) w.
Proof. intros Hw. eapply Forall_impl; [exact Hw|]. intros c Hc. unfold number_char, is_digit in *. rewrite (proj2 (Z.leb_le 48 c)), (proj2 (Z.leb_le c 57)) by lia. done. Qed.

Lemma number_chars w : number_token w → Forall (λ c, number_char c = true) w.
Proof.
  intros [sign int frac exp Hs Hi Hf He]. rewrite !Forall_app. split_and!.
  - destruct Hs as [->| ->]; by repeat constructor.
  - destruct Hi as [->|[[_ Hi] _]]; [by repeat constructor|by apply digits_chars].
  - destruct Hf as [->|(d & -> & _ & Hd)]; [done|]. constructor; [done|by apply digits_chars].
  - destruct He as [->|(c & sg & d & -> & Hc & Hsg & _ & Hd)]; [done|]. constructor; [by destruct Hc as [->| ->]|].
    apply Forall_app. split; [destruct Hsg as [->|[->| ->]]; by repeat constructor|by apply digits_chars].
Qed.

Lemma number_first w : number_token w → ∃ c l, w = c :: l ∧ (c = 45 ∨ is_digit c).
Proof.
  intros [sign int frac exp Hs Hi _ _]. assert (∃ c l, int = c :: l ∧ is_digit c) as (c & l & -> & Hc).
  { destruct Hi as [->|[[Hne Hi] _]]; [exists 48, []; split; [done|unfold is_digit; lia]|]. destruct int as [|c l]; [done|]. apply Forall_cons in Hi as [Hc _]. by exists c, l. }
  destruct Hs as [->| ->]; eexists _, _; (split; [done|auto]).
Qed.

(** ** Values *)

Section Grammar.
Context {num : Type}.
(** The number a token stands for. *)
Variable num_of : list Z → num.

Inductive jv : Type :=
  | JNull
  | JBool (b : bool)
  | JNum (x : num)
  | JStr (str : list Z)
  | JArr (vs : list jv)
  | JObj (ms : list (list Z * jv)).

Inductive value_text : list Z → jv → Prop :=
  | vt_null : value_text (bs "null") JNull
  | vt_true : value_text (bs "true") (JBool true)
  | vt_false : value_text (bs "false") (JBool false)
  | vt_number w : number_token w → value_text w (JNum (num_of w))
  | vt_string w str : string_text w str → value_text w (JStr str)
  | vt_empty_array b : blank b → value_text (91 :: b ++ [93]) (JArr [])
  | vt_array w vs : elements_text w vs → value_text (91 :: w ++ [93]) (JArr vs)
  | vt_empty_object b : blank b → value_text (123 :: b ++ [125]) (JObj [])
  | vt_object w ms : members_text w ms → value_text (123 :: w ++ [125]) (JObj ms)
with elements_text : list Z → list jv → Prop :=
  | el_one b w v b' : blank b → value_text w v → blank b' → elements_text (b ++ w ++ b') [v]
  | el_cons b w v b' ws vs : blank b → value_text w v → blank b' → elements_text ws vs →
      elements_text (b ++ w ++ b' ++ 44 :: ws) (v :: vs)
with members_text : list Z → list (list Z * jv) → Prop :=
  | me_one w m : member_text w m → members_text w [m]
  | me_cons w m ws ms : member_text w m → members_text ws ms → members_text (w ++ 44 :: ws) (m :: ms)
with member_text : list Z → list Z * jv → Prop :=
  | member b k str b1 b2 w v b3 : blank b → string_text k str → blank b1 → blank b2 → value_text w v → blank b3 →
      member_text (b ++ k ++ b1 ++ 58 :: b2 ++ w ++ b3) (str, v).

(** A text: a value between blanks. *)
Definition json_text (t : list Z) (v : jv) : Prop := ∃ b w b', t = b ++ w ++ b' ∧ blank b ∧ value_text w v ∧ blank b'.

(** ** The tree of a value *)

Inductive tree_of : jv → jt num → Prop :=
  | to_null a : tree_of JNull (JT a JSON_NULL (VInt 0) [])
  | to_bool a (b : bool) : tree_of (JBool b) (JT a JSON_BOOL (VInt (if b then 1 else 0)) [])
  | to_num a x : tree_of (JNum x) (JT a JSON_NUMBER (VNum x) [])
  | to_str a str : tree_of (JStr str) (JT a JSON_STRING (VStr str) [])
  | to_arr a vs ts : Forall2 tree_of vs ts → tree_of (JArr vs) (JT a JSON_ARRAY (VInt 0) ts)
  | to_obj a ms ts : Forall2 (λ m t, ∃ b x, t = JT b JSON_STRING (VStr m.1) [x] ∧ tree_of m.2 x) ms ts →
      tree_of (JObj ms) (JT a JSON_OBJECT (VInt 0) ts).
End Grammar.
#[global] Arguments jv : clear implicits.

Scheme value_text_mut := Minimality for value_text Sort Prop
  with elements_text_mut := Minimality for elements_text Sort Prop
  with members_text_mut := Minimality for members_text Sort Prop
  with member_text_mut := Minimality for member_text Sort Prop.
Combined Scheme texts_ind from value_text_mut, elements_text_mut, members_text_mut, member_text_mut.
