(* ===== verification/JsonRead.v ===== *)
(** [json_parse] reads every text of RFC 8259 as the value it stands for: the run of the loop over the
    text of a value adds the tree of the value below the current parent. *)

From S2P Require Import Prelude Json JsonTree JsonString JsonParse JsonGrammar.

(** ** Growing a planted tree *)

Section Plant.
Context {num : Type}.
Implicit Types (F : list (jt num)) (x y : jt num) (a b : nat) (sup : tptr).

Lemma grow_grow p a x t y : p ∈ addrs t → NoDup (addrs t) → (∀ b, b ∈ addrs t → b ∉ addrs y) → a ∈ addrs y → (a ∉ addrs t) →
  grow a x (grow p y t) = grow p (grow a x y) t.
Proof.
  intros Hp Hd Hy Ha Hat. revert Hp Hd Hy Hat. induction t as [b ty v cs IH] using jt_rect'. rewrite addrs_JT. intros Hp [Hn Hd]%NoDup_cons Hy [Hab Hac]%not_elem_of_cons.
  cbn [grow]. destruct (decide (b = p)) as [->|Hne]; cbn [grow].
  - rewrite decide_False by done. rewrite fmap_app. csimpl. by rewrite grow_list_absent.
  - rewrite decide_False by done. f_equal. apply elem_of_cons in Hp as [?|Hp]; [congruence|].
    destruct (addrs_list_split _ _ Hp) as (l & c & r & -> & Hpc). clear Hp. rewrite !addrs_list_app, !addrs_list_cons in *.
    apply NoDup_app in Hd as (_ & Hl & Hd). apply NoDup_app in Hd as (Hd & Hr & _).
    assert (p ∉ addrs_list l) as Hpl by (intros Hp; apply (Hl p Hp), elem_of_app; by left).
    assert (p ∉ addrs_list r) as Hpr by (by apply Hr).
    apply not_elem_of_app in Hac as [Hal Hac]. apply not_elem_of_app in Hac as [Hac Har].
    rewrite !fmap_app, !fmap_cons, !(grow_list_absent p) by done. rewrite !(grow_list_absent a) by done.
    apply Forall_app in IH as [_ IH]. apply Forall_cons in IH as [IHc _]. rewrite IHc; [done..| |done].
    intros b' Hb'. apply Hy. right. rewrite !elem_of_app. auto.
Qed.

Lemma plant_plant F sup x y a : NoDup (addrs_list (plant sup y F)) → NoDup (addrs_list F) → (∀ p, sup = Some p → p ∈ addrs_list F) →
  a ∈ addrs y → plant (Some a) x (plant sup y F) = plant sup (grow a x y) F.
Proof.
  intros Hd HdF Hs Ha. rewrite (addrs_plant sup y F HdF Hs) in Hd. apply NoDup_app in Hd as (_ & Hsep & _).
  assert (a ∉ addrs_list F) as HaF by (intros HaF; by apply (Hsep a HaF)). destruct sup as [p|]; cbn [plant].
  - destruct (forest_split F p HdF (Hs p eq_refl)) as (l & c & r & -> & Hc & Hl & Hr & Hdc & _). rewrite !addrs_list_app, !addrs_list_cons in *.
    apply not_elem_of_app in HaF as [Hal HaF]. apply not_elem_of_app in HaF as [Hac Har].
    rewrite !fmap_app, !fmap_cons, !(grow_list_absent p) by done. rewrite !(grow_list_absent a) by done. rewrite grow_grow; [done..| |done|done].
    intros b Hb. apply Hsep. rewrite !elem_of_app. auto.
  - rewrite fmap_app, grow_list_absent by done. done.
Qed.

Lemma grow_root a ty (v : json_value num) cs x : grow a x (JT a ty v cs) = JT a ty v (cs ++ [x]).
Proof. simpl. by rewrite decide_True. Qed.

(** The last child [b] of [a] gets a child. *)
Lemma grow_last a b ty (v : json_value num) cs ty' v' cs' x : a ≠ b → (b ∉ addrs_list cs) →
  grow b x (JT a ty v (cs ++ [JT b ty' v' cs'])) = JT a ty v (cs ++ [JT b ty' v' (cs' ++ [x])]).
Proof. intros Hne Hb. simpl. rewrite decide_False by done. rewrite fmap_app, grow_list_absent by done. csimpl. by rewrite decide_True. Qed.
End Plant.

Section Read.
Context {num : Type}.
Abbreviation jheap := (gmap nat (json_token num)).
Variable alloc : jheap → option nat.
Variable strtold : list Z → num * Z.
Variable num_of : list Z → num.
(** The pool gives a free slot, and always has one. *)
Hypothesis alloc_fresh : ∀ h a, alloc h = Some a → h !! a = None.
Hypothesis alloc_ok : ∀ h, is_Some (alloc h).
(** [strtold] reads the whole of a number. *)
Hypothesis strtold_reads : ∀ w rest, number_token w → delimited rest → strtold (w ++ rest) = (num_of w, zlen w).
Variable t : list Z.
Abbreviation s := (t ++ [0]).
Abbreviation e := (zlen t).
Implicit Types (h : jheap) (st : parse_state num) (F : list (jt num)) (p a b : nat) (ty : json_type) (x : jt num).

(** ** Runs of the loop *)

(** From [pos] to [pos'], with at most a turn for each byte. *)
Definition runs (pos : Z) st (pos' : Z) st' : Prop :=
  ∃ n, Z.of_nat n <= pos' - pos ∧ ∀ fuel, parse_loop alloc strtold s e (n + fuel) pos st = parse_loop alloc strtold s e fuel pos' st'.

Lemma runs_refl pos st : runs pos st pos st.
Proof. exists 0%nat. split; [lia|done]. Qed.

Lemma runs_trans pos1 pos2 pos3 st1 st2 st3 : runs pos1 st1 pos2 st2 → runs pos2 st2 pos3 st3 → runs pos1 st1 pos3 st3.
Proof.
  intros (n & Hn & H1) (m & Hm & H2). exists (n + m)%nat. split; [lia|]. intros fuel. rewrite <- Nat.add_assoc. by rewrite H1, H2.
Qed.

Lemma runs_eq pos pos' pos'' st st' : runs pos st pos' st' → pos' = pos'' → runs pos st pos'' st'.
Proof. by intros ? <-. Qed.

Lemma starts_eq pos pos' l l' : starts s pos l → pos = pos' → l = l' → starts s pos' l'.
Proof. by intros ? <- <-. Qed.

Lemma runs_turn pos st c pos' st' : mem_get s pos = Some c → c ≠ 0 → pos < e → pos <= pos' →
  parse_step alloc strtold s e pos c st = gives (pos', st') → runs pos st (pos' + 1) st'.
Proof.
  intros Hc H0 He Hle Hstep. exists 1%nat. split; [lia|]. intros fuel. cbn [Nat.add parse_loop].
  rewrite (proj2 (Z.leb_gt e pos)) by lia. rewrite Hc, (proj2 (Z.eqb_neq c 0)) by done. by rewrite Hstep.
Qed.

Lemma starts_snoc pos l c : starts s pos (l ++ [c]) → pos + zlen l <= e ∧ 0 <= pos.
Proof. intros [H0 H1]%starts_end. unfold zlen in *. rewrite !length_app in H1. simpl in H1. lia. Qed.

Lemma starts_turn pos st c l d st' : starts s pos (c :: l ++ [d]) → c ≠ 0 →
  parse_step alloc strtold s e pos c st = gives (pos, st') → runs pos st (pos + 1) st'.
Proof.
  intros Hs H0 Hstep. eapply runs_turn; [by eapply starts_here|done| |lia|done].
  pose proof (starts_snoc pos (c :: l) d Hs) as [H1 _]. unfold zlen in *. simpl in H1. lia.
Qed.

Lemma starts_tail pos c l : starts s pos (c :: l) → starts s (pos + 1) l.
Proof. intros H. by apply (starts_drop _ _ [c]). Qed.

Lemma runs_blank w pos st l d : blank w → starts s pos (w ++ l ++ [d]) → runs pos st (pos + zlen w) st.
Proof.
  intros Hw. revert pos. induction Hw as [|c w Hc Hw IH]; intros pos Hs.
  - unfold zlen. simpl. rewrite Z.add_0_r. apply runs_refl.
  - replace (pos + zlen (c :: w)) with (pos + 1 + zlen w) by (unfold zlen; simpl; lia). eapply runs_trans; [|apply IH; by eapply starts_tail].
    change ((c :: w) ++ l ++ [d]) with (c :: w ++ l ++ [d]) in Hs. rewrite app_assoc in Hs. eapply (starts_turn _ _ _ _ d); [exact Hs|by intros ->|].
    assert (c = 9 ∨ c = 13 ∨ c = 10 ∨ c = 32) as [->|[->|[->| ->]]]; [|done..].
    unfold blank_char in Hc. rewrite !orb_true_iff, !Z.eqb_eq in Hc. tauto.
Qed.

(** ** Tokens *)

(** A tree read below the current parent. *)
Record read h0 st F x st' : Prop := {
  rd_inv : Inv h0 st' (plant (ps_super st) x F);
  rd_super : ps_super st' = ps_super st;
  rd_keeps : keeps (ps_heap st) (ps_heap st') }.

Lemma added_read h0 st F x st' : added h0 st F x st' → read h0 st F x st'.
Proof. intros []. by split. Qed.

(** The token [a] with its parent and type. *)
Definition typed h a (par : tptr) ty : Prop := ∃ k, h !! a = Some k ∧ t_parent k = par ∧ t_type k = ty.

Lemma typed_keeps h h' a par ty : keeps h h' → typed h a par ty → typed h' a par ty.
Proof. intros Hk (k & Ha & Hp & Ht). destruct (Hk a k Ha) as (k' & ? & ? & ?). exists k'. split_and!; congruence. Qed.

Lemma typed_super st a par ty : ps_super st = Some a → typed (ps_heap st) a par ty → super_type st = Some ty.
Proof. intros Hs (k & Hk & _ & Ht). unfold super_type. rewrite Hs. simpl. rewrite Hk. simpl. congruence. Qed.

Lemma not_object st : super_type st ≠ Some JSON_OBJECT → ∀ p k, ps_super st = Some p → ps_heap st !! p = Some k → bool_decide (t_type k = JSON_OBJECT) = false.
Proof. intros Hn p k Hp Hk. unfold super_type in Hn. rewrite Hp in Hn. simpl in Hn. rewrite Hk in Hn. simpl in Hn. rewrite bool_decide_false by congruence. done. Qed.

(** A primitive: what the turn does once the parser of the token has been chosen. *)
Lemma primitive_step h0 st F pos c r : Inv h0 st F → super_type st ≠ Some JSON_OBJECT → is_primitive c = true →
  r = (if c =? 116 then parse_true alloc s st pos else if c =? 102 then parse_false alloc s st pos
       else if c =? 110 then parse_null alloc s st pos else parse_number alloc strtold s st pos) →
  parse_step alloc strtold s e pos c st = add_token st r.
Proof.
  intros HI Hn Hc ->. unfold parse_step.
  assert (c = 45 ∨ 48 <= c <= 57 ∨ c = 116 ∨ c = 102 ∨ c = 110) as Hcs.
  { unfold is_primitive in Hc. rewrite !orb_true_iff, andb_true_iff, !Z.eqb_eq, !Z.leb_le in Hc. tauto. }
  repeat match goal with |- context [c =? ?n] => rewrite (proj2 (Z.eqb_neq c n)) by lia end. cbn [orb]. rewrite Hc. cbn zeta.
  destruct (ps_super st) as [p|] eqn:Ep; [|done]. destruct (Inv_super _ _ _ p HI Ep) as [k Hk]. rewrite Hk.
  by rewrite (not_object st Hn p k Ep Hk).
Qed.

(** A token that takes the bytes [w]. *)
Lemma runs_token h0 st F ty pos v body w d c l : Inv h0 st F → w = c :: l → c ≠ 0 → starts s pos (w ++ [d]) →
  (∀ a h, body a h = gives (alter (set_value v) a h, pos + zlen w)) →
  parse_step alloc strtold s e pos c st = add_token st (with_token alloc st ty pos body) →
  ∃ a st', runs pos st (pos + zlen w) st' ∧ added h0 st F (leaf a ty v) st'.
Proof.
  intros HI -> H0 Hs Hb Hstep. destruct (add_token_ok alloc alloc_fresh alloc_ok h0 st F ty pos v _ body HI Hb) as (a & st' & Ha & Had).
  exists a, st'. split; [|done]. pose proof (starts_snoc _ _ _ Hs) as [H1 _]. rewrite Ha in Hstep. unfold zlen in *. simpl length in *.
  replace (pos + Z.of_nat (S (length l))) with (pos + Z.of_nat (S (length l)) - 1 + 1) by lia.
  eapply runs_turn; [by eapply starts_here|done|unfold zlen; lia|lia|done].
Qed.

Lemma runs_string h0 st F pos w str d : Inv h0 st F → string_text w str → starts s pos (w ++ [d]) →
  ∃ a st', runs pos st (pos + zlen w) st' ∧ added h0 st F (leaf a JSON_STRING (VStr str)) st'.
Proof.
  intros HI Hw Hs. pose proof Hw as (ws & Hws & _). eapply (runs_token _ _ _ _ _ _ _ _ _ 34); [done|exact Hws|done|done| |].
  2: { unfold parse_step. cbn [Z.eqb Pos.eqb orb]. reflexivity. }
  intros a h. rewrite (scan_string_exact s e w str pos Hw); [done|by eapply starts_take|]. by apply starts_snoc in Hs as [? _].
Qed.

Lemma expect_exact w l pos n : starts s pos (w ++ l) → (n <= length w)%nat → Forall (λ c, c ≠ 0) w → expect s n pos w = Some true.
Proof.
  revert w pos. induction n as [|n IH]; intros w pos Hs Hn Hw; [done|]. destruct w as [|c w]; [simpl in Hn; lia|]. apply Forall_cons in Hw as [Hc Hw].
  cbn [expect]. rewrite (starts_here _ _ _ _ Hs). cbn [mbind option_bind]. rewrite (proj2 (Z.eqb_neq c 0)), Z.eqb_refl by done. simpl.
  apply IH; [by eapply starts_tail|simpl in Hn; lia|done].
Qed.

(** What follows a value: the end of the text or a byte of the grammar. *)
Definition stops (d : Z) : Prop := d = 0 ∨ ends_value d = true.

Lemma rest_of_number w pos d : starts s pos (w ++ [d]) → Forall (λ c, c ≠ 0) w → stops d → ∃ rest, rest_of s pos = w ++ rest ∧ delimited rest.
Proof.
  intros (pre & post & Hs & ->) Hw Hd. unfold rest_of. rewrite Hs. unfold zlen. rewrite Nat2Z.id, drop_app_length. clear Hs pre.
  induction Hw as [|c w Hc Hw IH]; simpl.
  - destruct Hd as [->|Hd]; [by exists []|]. rewrite (proj2 (Z.eqb_neq d 0)) by (intros ->; done). by eexists.
  - rewrite (proj2 (Z.eqb_neq c 0)) by done. destruct IH as (rest & Hr & Hdel). exists rest. by rewrite Hr.
Qed.

Lemma runs_number h0 st F pos w d : Inv h0 st F → super_type st ≠ Some JSON_OBJECT → number_token w → starts s pos (w ++ [d]) → stops d →
  ∃ a st', runs pos st (pos + zlen w) st' ∧ added h0 st F (leaf a JSON_NUMBER (VNum (num_of w))) st'.
Proof.
  intros HI Hn Hw Hs Hd. destruct (number_first w Hw) as (c & l & Hcl & Hc). unfold is_digit in Hc.
  assert (is_primitive c = true) as Hp.
  { unfold is_primitive. rewrite !orb_true_iff, andb_true_iff, !Z.eqb_eq, !Z.leb_le. tauto. }
  eapply (runs_token _ _ _ _ _ _ _ _ _ c l); [done|done|lia|done| |].
  2: { rewrite (primitive_step h0 st F pos c _ HI Hn Hp eq_refl). rewrite !(proj2 (Z.eqb_neq c _)) by lia. reflexivity. }
  intros a h. cbn beta. assert (Forall (λ c, c ≠ 0) w) as Hz.
  { eapply Forall_impl; [by apply number_chars|]. by intros ? Hx ->. }
  destruct (rest_of_number w pos d Hs Hz Hd) as (rest & -> & Hr). rewrite strtold_reads by done.
  rewrite (proj2 (Z.eqb_neq _ 0)); [done|]. rewrite Hcl, zlen_cons. pose proof (zlen_nonneg l). lia.
Qed.

Lemma runs_literal h0 st F ty v expected err pos d c l : Inv h0 st F → super_type st ≠ Some JSON_OBJECT → expected = c :: l → is_primitive c = true →
  (4 <= length expected)%nat → Forall (λ c, c ≠ 0) expected → starts s pos (expected ++ [d]) →
  parse_literal alloc s st ty v expected (zlen expected) err pos = (if c =? 116 then parse_true alloc s st pos else if c =? 102 then parse_false alloc s st pos
       else if c =? 110 then parse_null alloc s st pos else parse_number alloc strtold s st pos) →
  ∃ a st', runs pos st (pos + zlen expected) st' ∧ added h0 st F (leaf a ty (VInt v)) st'.
Proof.
  intros HI Hn Hcl Hp Hlen Hz Hs Hstep. eapply (runs_token _ _ _ _ _ _ _ _ _ c l); [done|done| |done| |].
  3: { rewrite (primitive_step h0 st F pos c _ HI Hn Hp Hstep). reflexivity. }
  - rewrite Hcl in Hz. by apply Forall_cons in Hz as [? _].
  - intros a h. cbn beta. by rewrite (expect_exact expected [d] pos 4 Hs).
Qed.

(** ** Containers *)

(** The container [a] under construction, with the children [cs], below [sup]. *)
Record open_at h0 st F (sup : tptr) a ty (cs : list (jt num)) : Prop := {
  oa_inv : Inv h0 st (plant sup (JT a ty (VInt 0) cs) F);
  oa_nodup : NoDup (addrs_list F);
  oa_sup p : sup = Some p → p ∈ addrs_list F;
  oa_typed : typed (ps_heap st) a sup ty }.

Lemma open_at_read h0 st F sup a ty cs x st' : open_at h0 st F sup a ty cs → ps_super st = Some a →
  read h0 st (plant sup (JT a ty (VInt 0) cs) F) x st' → open_at h0 st' F sup a ty (cs ++ [x]).
Proof.
  intros [HI Hd Hs Ht] Hsup [HI' Hs' Hk]. rewrite Hsup, plant_plant, grow_root in HI'; [|apply HI|done|done|rewrite addrs_JT; by left].
  split; [done..|]. by eapply typed_keeps.
Qed.

Lemma open_at_move h0 st F sup a ty cs s' l' : open_at h0 st F sup a ty cs →
  (∀ p, s' = Some p → p ∈ addrs_list (plant sup (JT a ty (VInt 0) cs) F)) → (∀ p, l' = Some p → p ∈ addrs_list (plant sup (JT a ty (VInt 0) cs) F)) →
  open_at h0 (PState (ps_heap st) (ps_root st) s' l') F sup a ty cs.
Proof. intros [HI Hd Hs Ht] H1 H2. split; [by apply Inv_move|done..]. Qed.

Lemma open_at_in h0 st F sup a ty cs b : open_at h0 st F sup a ty cs → b ∈ a :: addrs_list cs → b ∈ addrs_list (plant sup (JT a ty (VInt 0) cs) F).
Proof. intros [HI Hd Hs _] Hb. rewrite addrs_plant by done. apply elem_of_app. right. by rewrite addrs_JT. Qed.

Lemma open_at_nodup h0 st F sup a ty cs : open_at h0 st F sup a ty cs → NoDup (a :: addrs_list cs).
Proof.
  intros [HI Hd Hs _]. pose proof (iv_nodup _ _ _ HI) as Hn. rewrite addrs_plant in Hn by done. apply NoDup_app in Hn as (_ & _ & Hn). by rewrite addrs_JT in Hn.
Qed.

Definition bracket ty : Z := match ty with JSON_OBJECT => 123 | _ => 91 end.
Definition closing ty : Z := match ty with JSON_OBJECT => 125 | _ => 93 end.

Lemma runs_open h0 st F ty pos l d : Inv h0 st F → super_type st ≠ Some JSON_OBJECT → container ty = true → starts s pos (bracket ty :: l ++ [d]) →
  ∃ a st', runs pos st (pos + 1) st' ∧ open_at h0 st' F (ps_super st) a ty [] ∧ ps_super st' = Some a ∧ keeps (ps_heap st) (ps_heap st').
Proof.
  intros HI Hn Hty Hs. destruct (open_ok alloc alloc_fresh alloc_ok h0 st F ty HI Hn) as (a & st' & Ho & Hsup & st1 & [Hf HI1 Hs1 Hl1 Hk1 Hc1] & Hst').
  exists a, st'. assert (parse_step alloc strtold s e pos (bracket ty) st = gives (pos, st')) as Hstep.
  { unfold parse_step. destruct ty; try done; cbn [bracket Z.eqb Pos.eqb orb]; by rewrite Ho. }
  split; [eapply starts_turn; [exact Hs|by destruct ty|exact Hstep]|]. subst st'. cbn [ps_heap ps_super] in *. split_and!; [|done|done].
  split; cbn [ps_heap].
  - replace (bool_decide (ty = JSON_STRING)) with false in HI1 by (by destruct ty). apply Inv_move; [exact HI1|..]; intros p [= <-]; by apply (iv_last _ _ _ HI1).
  - apply HI.
  - apply (iv_super _ _ _ HI).
  - destruct Hc1 as (k & Hk & Hp & v & cs & Hx). exists k. split_and!; [done|done|]. unfold leaf in Hx. by inversion Hx.
Qed.

(** A closing bracket, from the container or from the key of its last member. *)
Lemma runs_close st sup a b ty pos l d : ps_super st = Some b → (b = a ∨ typed (ps_heap st) b (Some a) JSON_STRING) → typed (ps_heap st) a sup ty →
  container ty = true → starts s pos (closing ty :: l ++ [d]) → runs pos st (pos + 1) (PState (ps_heap st) (ps_root st) sup (ps_last st)).
Proof.
  intros Hb Hba (k & Hk & Hp & Ht) Hty Hs. eapply starts_turn; [exact Hs|by destruct ty|].
  assert (close_container st ty = gives (PState (ps_heap st) (ps_root st) sup (ps_last st))) as Hc.
  { unfold close_container. rewrite Hb. cbn [climb]. destruct Hba as [->|(kb & Hkb & Hpb & Htb)].
    - rewrite Hk. cbn [mbind option_bind]. rewrite bool_decide_true, Hk by done. rewrite bool_decide_true by done. simpl. by rewrite Hp.
    - rewrite Hkb. cbn [mbind option_bind]. rewrite bool_decide_false by (rewrite Htb; by destruct ty). rewrite Hpb, Hk. cbn [mbind option_bind].
      rewrite bool_decide_true, Hk by done. rewrite bool_decide_true by done. simpl. by rewrite Hp. }
  unfold parse_step. destruct ty; try done; cbn [closing Z.eqb Pos.eqb orb]; by rewrite Hc.
Qed.

Lemma runs_colon st pos l d b : ps_last st = Some b → starts s pos (58 :: l ++ [d]) → runs pos st (pos + 1) (PState (ps_heap st) (ps_root st) (Some b) (Some b)).
Proof. intros Hl Hs. eapply starts_turn; [exact Hs|done|]. unfold parse_step. cbn [Z.eqb Pos.eqb orb]. rewrite Hl. done. Qed.

Lemma runs_comma_array st pos l d a sup : ps_super st = Some a → typed (ps_heap st) a sup JSON_ARRAY → starts s pos (44 :: l ++ [d]) → runs pos st (pos + 1) st.
Proof.
  intros Ha (k & Hk & _ & Ht) Hs. eapply starts_turn; [exact Hs|done|]. unfold parse_step. cbn [Z.eqb Pos.eqb orb]. by rewrite Ha, Hk, Ht.
Qed.

Lemma runs_comma_object st pos l d b a : ps_super st = Some b → typed (ps_heap st) b (Some a) JSON_STRING → starts s pos (44 :: l ++ [d]) →
  runs pos st (pos + 1) (PState (ps_heap st) (ps_root st) (Some a) (ps_last st)).
Proof.
  intros Ha (k & Hk & Hp & Ht) Hs. eapply starts_turn; [exact Hs|done|]. unfold parse_step. cbn [Z.eqb Pos.eqb orb]. by rewrite Ha, Hk, Ht, Hp.
Qed.

(** ** Values *)

Abbreviation reads_value w v := (∀ h0 st F pos d, Inv h0 st F → super_type st ≠ Some JSON_OBJECT → stops d → starts s pos (w ++ [d]) →
  ∃ x st', runs pos st (pos + zlen w) st' ∧ tree_of v x ∧ read h0 st F x st').

Abbreviation reads_elements w vs := (∀ h0 st F sup a cs pos, open_at h0 st F sup a JSON_ARRAY cs → ps_super st = Some a → starts s pos (w ++ [93]) →
  ∃ xs st', runs pos st (pos + zlen w) st' ∧ Forall2 tree_of vs xs ∧ open_at h0 st' F sup a JSON_ARRAY (cs ++ xs) ∧
    ps_super st' = Some a ∧ keeps (ps_heap st) (ps_heap st')).

Abbreviation is_member := (λ (m : list Z * jv num) (y : jt num), ∃ b x, y = JT b JSON_STRING (VStr m.1) [x] ∧ tree_of m.2 x).

(** The members [ms] read; the current parent is then the last key. *)
Abbreviation reads_members w ms d := (∀ h0 st F sup a cs pos, open_at h0 st F sup a JSON_OBJECT cs → ps_super st = Some a → starts s pos (w ++ [d]) →
  ∃ ys st' b, runs pos st (pos + zlen w) st' ∧ Forall2 is_member ms ys ∧ open_at h0 st' F sup a JSON_OBJECT (cs ++ ys) ∧
    ps_super st' = Some b ∧ typed (ps_heap st') b (Some a) JSON_STRING ∧ keeps (ps_heap st) (ps_heap st')).

Lemma blank_stops w d : blank w → stops d → ∃ d' l, w ++ [d] = d' :: l ∧ stops d'.
Proof. intros [|c l Hc _] Hd; [by exists d, []|]. exists c, (l ++ [d]). split; [done|]. right. unfold ends_value. by rewrite Hc. Qed.

Lemma runs_padded u w v u' h0 st F pos d : blank u → reads_value w v → blank u' → stops d → starts s pos ((u ++ w ++ u') ++ [d]) →
  Inv h0 st F → super_type st ≠ Some JSON_OBJECT → ∃ x st', runs pos st (pos + zlen (u ++ w ++ u')) st' ∧ tree_of v x ∧ read h0 st F x st'.
Proof.
  intros Hb IH Hb' Hd Hs HI Hn. rewrite <- !app_assoc in Hs. pose proof (starts_drop _ _ _ _ Hs) as Hs1. pose proof (starts_drop _ _ _ _ Hs1) as Hs2.
  destruct (blank_stops u' d Hb' Hd) as (d' & l & Hl & Hd'). rewrite Hl in Hs1. rewrite (app_assoc w [d'] l : w ++ d' :: l = _) in Hs1.
  destruct (IH h0 st F (pos + zlen u) d' HI Hn Hd' (starts_take _ _ _ _ Hs1)) as (x & st' & Hr & Hx & Hrd). exists x, st'. split_and!; [|done|done].
  rewrite !zlen_app, !Z.add_assoc. eapply runs_trans; [apply (runs_blank u pos st (w ++ u') d Hb)|].
  { by rewrite <- app_assoc. }
  eapply runs_trans; [exact Hr|]. by apply (runs_blank u' _ st' [] d Hb').
Qed.

Lemma reads_element u w v u' : blank u → reads_value w v → blank u' → ∀ h0 st F sup a cs pos d, stops d → open_at h0 st F sup a JSON_ARRAY cs →
  ps_super st = Some a → starts s pos ((u ++ w ++ u') ++ [d]) →
  ∃ x st', runs pos st (pos + zlen (u ++ w ++ u')) st' ∧ tree_of v x ∧ open_at h0 st' F sup a JSON_ARRAY (cs ++ [x]) ∧
    ps_super st' = Some a ∧ keeps (ps_heap st) (ps_heap st').
Proof.
  intros Hb IH Hb' h0 st F sup a cs pos d Hd Ho Ha Hs. pose proof Ho as [HI _ _ Ht].
  destruct (runs_padded u w v u' h0 st _ pos d Hb IH Hb' Hd Hs HI) as (x & st' & Hr & Hx & Hrd); [rewrite (typed_super _ _ _ _ Ha Ht); congruence|].
  exists x, st'. split_and!; [done|done|by eapply open_at_read| |apply Hrd]. destruct Hrd. congruence.
Qed.

(** The key of a member and its colon: the key is the current parent. *)
Lemma key_reads u k str u1 l d h0 st F sup a cs pos : blank u → string_text k str → blank u1 → open_at h0 st F sup a JSON_OBJECT cs → ps_super st = Some a →
  starts s pos ((u ++ k ++ u1 ++ 58 :: l) ++ [d]) →
  ∃ q st', runs pos st (pos + zlen (u ++ k ++ u1) + 1) st' ∧ open_at h0 st' F sup a JSON_OBJECT (cs ++ [leaf q JSON_STRING (VStr str)]) ∧
    ps_super st' = Some q ∧ typed (ps_heap st') q (Some a) JSON_STRING ∧ keeps (ps_heap st) (ps_heap st').
Proof.
  intros Hu Hk Hu1 Ho Ha Hs. pose proof Hs as Hs0. rewrite <- !app_assoc in Hs. pose proof (starts_drop _ _ _ _ Hs) as Hs1.
  pose proof (starts_drop _ _ _ _ Hs1) as Hs2. pose proof (starts_drop _ _ _ _ Hs2) as Hs3.
  assert (∃ d' l', u1 ++ (58 :: l) ++ [d] = d' :: l') as (d' & l' & Hl) by (destruct u1; by eexists _, _).
  rewrite Hl, (app_assoc k [d'] l' : k ++ d' :: l' = _) in Hs1. apply starts_take in Hs1.
  destruct (runs_string h0 st _ _ k str d' (oa_inv _ _ _ _ _ _ _ Ho) Hk Hs1) as (q & st1 & Hr1 & Had).
  pose proof (open_at_read _ _ _ _ _ _ _ _ _ Ho Ha (added_read _ _ _ _ _ Had)) as Ho1. destruct Had as [_ _ Hs1' Hl1 Hk1 (kq & Hkq & Hpq & vq & csq & Hxq)].
  cbn [addr leaf] in *. exists q, (PState (ps_heap st1) (ps_root st1) (Some q) (Some q)). split_and!; [|apply open_at_move; [done|..]|done| |done].
  - rewrite !zlen_app, !Z.add_assoc. eapply runs_trans; [apply (runs_blank u pos st (k ++ u1 ++ 58 :: l) d Hu); by rewrite <- app_assoc in Hs0|].
    eapply runs_trans; [exact Hr1|]. eapply runs_trans; [by apply (runs_blank u1 _ st1 (58 :: l) d Hu1)|]. by apply (runs_colon st1 _ l d q).
  - intros ? [= <-]. eapply open_at_in; [done|]. right. rewrite addrs_list_app. apply elem_of_app. right. by left.
  - intros ? [= <-]. eapply open_at_in; [done|]. right. rewrite addrs_list_app. apply elem_of_app. right. by left.
  - exists kq. split_and!; [done|congruence|by inversion Hxq].
Qed.

Lemma member_reads u k str u1 u2 w v u3 : blank u → string_text k str → blank u1 → blank u2 → reads_value w v → blank u3 → ∀ d, stops d →
  reads_members (u ++ k ++ u1 ++ 58 :: u2 ++ w ++ u3) [(str, v)] d.
Proof.
  intros Hu Hk Hu1 Hu2 IH Hu3 d Hd h0 st F sup a cs pos Ho Ha Hs.
  destruct (key_reads u k str u1 _ d h0 st F sup a cs pos Hu Hk Hu1 Ho Ha Hs) as (q & st1 & Hr1 & Ho1 & Hq & Htq & Hk1).
  assert (starts s (pos + zlen (u ++ k ++ u1) + 1) ((u2 ++ w ++ u3) ++ [d])) as Hs2.
  { apply (starts_tail _ 58), starts_drop. eapply starts_eq; [exact Hs|done|]. rewrite <- !app_assoc. simpl. by rewrite <- !app_assoc. }
  destruct (runs_padded u2 w v u3 h0 st1 _ _ d Hu2 IH Hu3 Hd Hs2 (oa_inv _ _ _ _ _ _ _ Ho1)) as (x & st2 & Hr2 & Hx & [HI2 Hs2' Hk2]).
  { rewrite (typed_super _ _ _ _ Hq Htq). congruence. }
  pose proof (open_at_nodup _ _ _ _ _ _ _ Ho1) as [Hna Hnd]%NoDup_cons. rewrite addrs_list_app in Hna, Hnd. apply NoDup_app in Hnd as (_ & Hnd & _).
  assert (q ∈ addrs_list [leaf (num:=num) q JSON_STRING (VStr str)]) as Hqq by (by left).
  unfold leaf in HI2. rewrite Hq, plant_plant, grow_last in HI2; [|intros ->; apply Hna, elem_of_app; by right|intros Hc; by apply (Hnd q Hc)
    |apply Ho1|apply Ho1|apply Ho1|rewrite addrs_JT, addrs_list_app; right; apply elem_of_app; by right].
  exists [JT q JSON_STRING (VStr str) [x]], st2, q. split_and!; [| | |congruence|by eapply typed_keeps|by etrans].
  - rewrite !zlen_app, zlen_cons, !zlen_app in *. eapply runs_trans; [exact Hr1|]. eapply runs_eq; [exact Hr2|lia].
  - constructor; [|done]. by exists q, x.
  - split; [exact HI2|apply Ho1..|]. eapply typed_keeps; [exact Hk2|apply Ho1].
Qed.

Lemma array_reads w vs : reads_elements w vs → reads_value (91 :: w ++ [93]) (JArr vs).
Proof.
  intros IH h0 st F pos d HI Hn Hd Hs. change ((91 :: w ++ [93]) ++ [d]) with (91 :: (w ++ [93]) ++ [d]) in Hs.
  destruct (runs_open h0 st F JSON_ARRAY pos (w ++ [93]) d HI Hn eq_refl Hs) as (a & st1 & Hr1 & Ho1 & Ha1 & Hk1).
  apply starts_tail in Hs. pose proof (starts_take _ _ _ _ Hs) as Hs1. rewrite <- app_assoc in Hs. apply starts_drop in Hs.
  destruct (IH h0 st1 F (ps_super st) a [] (pos + 1) Ho1 Ha1 Hs1) as (xs & st2 & Hr2 & Hxs & Ho2 & Ha2 & Hk2). cbn [app] in Ho2.
  pose proof (runs_close st2 (ps_super st) a a JSON_ARRAY _ [] d Ha2 (or_introl eq_refl) (oa_typed _ _ _ _ _ _ _ Ho2) eq_refl Hs) as Hr3.
  exists (JT a JSON_ARRAY (VInt 0) xs), (PState (ps_heap st2) (ps_root st2) (ps_super st) (ps_last st2)).
  split_and!; [|by constructor|split; [|done|by etrans]].
  - eapply runs_trans; [exact Hr1|]. eapply runs_trans; [exact Hr2|]. eapply runs_eq; [exact Hr3|]. rewrite zlen_cons, zlen_app. change (zlen [93]) with 1. lia.
  - apply Inv_move; [apply Ho2| |apply (iv_last _ _ _ (oa_inv _ _ _ _ _ _ _ Ho2))]. intros p Hp. rewrite addrs_plant by apply Ho2. apply elem_of_app. left. by apply (oa_sup _ _ _ _ _ _ _ Ho2).
Qed.

Lemma object_reads w ms : reads_members w ms 125 → reads_value (123 :: w ++ [125]) (JObj ms).
Proof.
  intros IH h0 st F pos d HI Hn Hd Hs. change ((123 :: w ++ [125]) ++ [d]) with (123 :: (w ++ [125]) ++ [d]) in Hs.
  destruct (runs_open h0 st F JSON_OBJECT pos (w ++ [125]) d HI Hn eq_refl Hs) as (a & st1 & Hr1 & Ho1 & Ha1 & Hk1).
  apply starts_tail in Hs. pose proof (starts_take _ _ _ _ Hs) as Hs1. rewrite <- app_assoc in Hs. apply starts_drop in Hs.
  destruct (IH h0 st1 F (ps_super st) a [] (pos + 1) Ho1 Ha1 Hs1) as (ys & st2 & b & Hr2 & Hys & Ho2 & Hb2 & Htb & Hk2). cbn [app] in Ho2.
  pose proof (runs_close st2 (ps_super st) a b JSON_OBJECT _ [] d Hb2 (or_intror Htb) (oa_typed _ _ _ _ _ _ _ Ho2) eq_refl Hs) as Hr3.
  exists (JT a JSON_OBJECT (VInt 0) ys), (PState (ps_heap st2) (ps_root st2) (ps_super st) (ps_last st2)).
  split_and!; [|by constructor|split; [|done|by etrans]].
  - eapply runs_trans; [exact Hr1|]. eapply runs_trans; [exact Hr2|]. eapply runs_eq; [exact Hr3|]. rewrite zlen_cons, zlen_app. change (zlen [125]) with 1. lia.
  - apply Inv_move; [apply Ho2| |apply (iv_last _ _ _ (oa_inv _ _ _ _ _ _ _ Ho2))]. intros p Hp. rewrite addrs_plant by apply Ho2. apply elem_of_app. left. by apply (oa_sup _ _ _ _ _ _ _ Ho2).
Qed.

Lemma elements_cons u w v u' ws vs : blank u → reads_value w v → blank u' → reads_elements ws vs → reads_elements (u ++ w ++ u' ++ 44 :: ws) (v :: vs).
Proof.
  intros Hu IHv Hu' IH h0 st F sup a cs pos Ho Ha Hs.
  assert (starts s pos ((u ++ w ++ u') ++ [44] ++ (ws ++ [93]))) as Hs1.
  { eapply starts_eq; [exact Hs|done|]. rewrite <- !app_assoc. done. }
  rewrite app_assoc in Hs1. pose proof (starts_take _ _ _ _ Hs1) as Hs2. rewrite <- app_assoc in Hs1. apply starts_drop in Hs1.
  destruct (reads_element u w v u' Hu IHv Hu' h0 st F sup a cs pos 44 ltac:(by right) Ho Ha Hs2) as (x & st1 & Hr1 & Hx & Ho1 & Ha1 & Hk1).
  pose proof (runs_comma_array st1 _ ws 93 a sup Ha1 (oa_typed _ _ _ _ _ _ _ Ho1) Hs1) as Hr2. apply starts_tail in Hs1.
  destruct (IH h0 st1 F sup a _ _ Ho1 Ha1 Hs1) as (xs & st2 & Hr3 & Hxs & Ho2 & Ha2 & Hk2). exists (x :: xs), st2.
  rewrite <- app_assoc in Ho2. split_and!; [|by constructor|done|done|by etrans].
  eapply runs_trans; [exact Hr1|]. eapply runs_trans; [exact Hr2|]. eapply runs_eq; [exact Hr3|]. rewrite !zlen_app, zlen_cons. lia.
Qed.

Lemma members_cons w m ws ms : reads_members w [m] 44 → reads_members ws ms 125 → reads_members (w ++ 44 :: ws) (m :: ms) 125.
Proof.
  intros IHm IH h0 st F sup a cs pos Ho Ha Hs.
  assert (starts s pos (w ++ [44] ++ (ws ++ [125]))) as Hs1 by (eapply starts_eq; [exact Hs|done|]; by rewrite <- app_assoc).
  rewrite app_assoc in Hs1. pose proof (starts_take _ _ _ _ Hs1) as Hs2. rewrite <- app_assoc in Hs1. apply starts_drop in Hs1.
  destruct (IHm h0 st F sup a cs pos Ho Ha Hs2) as (ys & st1 & b & Hr1 & Hys & Ho1 & Hb1 & Htb & Hk1).
  pose proof (runs_comma_object st1 _ ws 125 b a Hb1 Htb Hs1) as Hr2. apply starts_tail in Hs1.
  set (st1' := PState (ps_heap st1) (ps_root st1) (Some a) (ps_last st1)) in *.
  assert (open_at h0 st1' F sup a JSON_OBJECT (cs ++ ys)) as Ho1'.
  { apply open_at_move; [done| |apply (iv_last _ _ _ (oa_inv _ _ _ _ _ _ _ Ho1))]. intros ? [= <-]. eapply open_at_in; [done|by left]. }
  destruct (IH h0 st1' F sup a _ _ Ho1' eq_refl Hs1) as (ys' & st2 & b' & Hr3 & Hys' & Ho2 & Hb2 & Htb2 & Hk2). exists (ys ++ ys'), st2, b'.
  rewrite <- app_assoc in Ho2. split_and!; [|by apply (Forall2_app (l1:=[m]))|done|done|done|by etrans].
  eapply runs_trans; [exact Hr1|]. eapply runs_trans; [exact Hr2|]. eapply runs_eq; [exact Hr3|]. rewrite !zlen_app, zlen_cons. lia.
Qed.

Lemma empty_reads u ty pos st F h0 d v : blank u → container ty = true → (∀ a, tree_of v (JT a ty (VInt 0) [])) → Inv h0 st F →
  super_type st ≠ Some JSON_OBJECT → starts s pos ((bracket ty :: u ++ [closing ty]) ++ [d]) →
  ∃ x st', runs pos st (pos + zlen (bracket ty :: u ++ [closing ty])) st' ∧ tree_of v x ∧ read h0 st F x st'.
Proof.
  intros Hu Hty Hv HI Hn Hs. change ((bracket ty :: u ++ [closing ty]) ++ [d]) with (bracket ty :: (u ++ [closing ty]) ++ [d]) in Hs.
  destruct (runs_open h0 st F ty pos _ d HI Hn Hty Hs) as (a & st1 & Hr1 & Ho1 & Ha1 & Hk1).
  apply starts_tail in Hs. rewrite <- app_assoc in Hs. pose proof (runs_blank u _ st1 [closing ty] d Hu Hs) as Hr2. apply starts_drop in Hs.
  pose proof (runs_close st1 (ps_super st) a a ty _ [] d Ha1 (or_introl eq_refl) (oa_typed _ _ _ _ _ _ _ Ho1) Hty Hs) as Hr3.
  exists (JT a ty (VInt 0) []), (PState (ps_heap st1) (ps_root st1) (ps_super st) (ps_last st1)). split_and!; [|done|split; [|done|done]].
  - eapply runs_trans; [exact Hr1|]. eapply runs_trans; [exact Hr2|]. eapply runs_eq; [exact Hr3|]. rewrite zlen_cons, zlen_app. change (zlen [_]) with 1. lia.
  - apply Inv_move; [apply Ho1| |apply (iv_last _ _ _ (oa_inv _ _ _ _ _ _ _ Ho1))]. intros p Hp. rewrite addrs_plant by apply Ho1. apply elem_of_app. left. by apply (oa_sup _ _ _ _ _ _ _ Ho1).
Qed.

Lemma texts_read :
  (∀ w v, value_text num_of w v → reads_value w v) ∧ (∀ w vs, elements_text num_of w vs → reads_elements w vs) ∧
  (∀ w ms, members_text num_of w ms → reads_members w ms 125) ∧ (∀ w m, member_text num_of w m → ∀ d, stops d → reads_members w [m] d).
Proof.
  apply texts_ind.
  - intros h0 st F pos d HI Hn Hd Hs. destruct (runs_literal h0 st F JSON_NULL 0 (bs "null") ExpectedNull pos d 110 (bs "ull") HI Hn eq_refl eq_refl ltac:(simpl; lia) ltac:(by repeat constructor) Hs eq_refl) as (a & st' & Hr & Had).
    eexists _, st'. split_and!; [exact Hr| |by apply added_read]. constructor.
  - intros h0 st F pos d HI Hn Hd Hs. destruct (runs_literal h0 st F JSON_BOOL 1 (bs "true") ExpectedTrue pos d 116 (bs "rue") HI Hn eq_refl eq_refl ltac:(simpl; lia) ltac:(by repeat constructor) Hs eq_refl) as (a & st' & Hr & Had).
    eexists _, st'. split_and!; [exact Hr| |by apply added_read]. apply (to_bool a true).
  - intros h0 st F pos d HI Hn Hd Hs. destruct (runs_literal h0 st F JSON_BOOL 0 (bs "false") ExpectedFalse pos d 102 (bs "alse") HI Hn eq_refl eq_refl ltac:(simpl; lia) ltac:(by repeat constructor) Hs eq_refl) as (a & st' & Hr & Had).
    eexists _, st'. split_and!; [exact Hr| |by apply added_read]. apply (to_bool a false).
  - intros w Hw h0 st F pos d HI Hn Hd Hs. destruct (runs_number h0 st F pos w d HI Hn Hw Hs Hd) as (a & st' & Hr & Had).
    eexists _, st'. split_and!; [exact Hr| |by apply added_read]. constructor.
  - intros w str Hw h0 st F pos d HI Hn Hd Hs. destruct (runs_string h0 st F pos w str d HI Hw Hs) as (a & st' & Hr & Had).
    eexists _, st'. split_and!; [exact Hr| |by apply added_read]. constructor.
  - intros u Hu h0 st F pos d HI Hn Hd Hs. apply (empty_reads u JSON_ARRAY pos st F h0 d); [done|done|by constructor; constructor|done..].
  - intros w vs _ IH. by apply array_reads.
  - intros u Hu h0 st F pos d HI Hn Hd Hs. apply (empty_reads u JSON_OBJECT pos st F h0 d); [done|done|by constructor; constructor|done..].
  - intros w ms _ IH. by apply object_reads.
  - intros u w v u' Hu _ IH Hu' h0 st F sup a cs pos Ho Ha Hs.
    destruct (reads_element u w v u' Hu IH Hu' h0 st F sup a cs pos 93 ltac:(by right) Ho Ha Hs) as (x & st' & Hr & Hx & Ho' & ? & ?). exists [x], st'. split_and!; auto.
  - intros u w v u' ws vs Hu _ IHv Hu' _ IH. by apply elements_cons.
  - intros w m _ IH. apply IH. by right.
  - intros w m ws ms _ IHm _ IH. apply members_cons; [|done]. apply IHm. by right.
  - intros u k str u1 u2 w v u3 Hu Hk Hu1 Hu2 _ IH Hu3. by apply member_reads.
Qed.

(** The whole text. *)
Lemma text_read h0 v : json_text num_of t v →
  ∃ x st', parse_loop alloc strtold s e (S (length t)) 0 (PState h0 None None None) = gives st' ∧ tree_of v x ∧ Inv h0 st' [x] ∧ ps_super st' = None.
Proof.
  intros (u & w & u' & Ht & Hu & Hw & Hu'). set (st := PState h0 None None None).
  assert (Inv h0 st []) as HI by (split; [by intros ? ?%elem_of_nil|constructor|split; [by intros ?%elem_of_nil|done]|simpl; set_solver|done|done|done]).
  destruct (runs_padded u w v u' h0 st [] 0 0 Hu (proj1 texts_read w v Hw) Hu') as (x & st' & (n & Hn & Hr) & Hx & [HI' Hs' _]); [by left| |done|done|].
  { exists [], []. by rewrite <- Ht, app_nil_r. }
  exists x, st'. split_and!; [|done|done|done]. rewrite <- Ht in Hn, Hr. replace (S (length t)) with (n + (S (length t) - n))%nat by (unfold zlen in Hn; lia).
  rewrite Hr. destruct (S (length t) - n)%nat as [|f] eqn:Ef; [unfold zlen in Hn; lia|]. cbn [parse_loop]. by rewrite (proj2 (Z.leb_le _ _)) by lia.
Qed.
End Read.
