(* ===== verification/JsonWalk.v ===== *)
(** What [json_process_string_escapes] writes for a string of valid UTF-8: for each character a text
    of the grammar that stands for it; then the walk of [json_stringify] over a tree. *)

From S2P Require Import Prelude WsUtf8 Json JsonPrint JsonTree JsonString JsonGrammar.

(** One character, with [ascii_mode] or without. *)
Definition escape_char (ascii_mode : bool) (cp : Z) : list Z :=
  match short_escape cp with
  | Some x => [92; x]
  | None =>
      if cp <? 0x20 then 92 :: 117 :: hex4 cp
      else if cp <? 0x80 then [cp]
      else if ascii_mode then default [] (unicode_encode_escape cp)
      else WsUtf8.encode cp
  end.

Definition escape (ascii_mode : bool) (cps : list Z) : list Z := flat_map (escape_char ascii_mode) cps.

(** ** The texts *)

Lemma hex_char_digit d : 0 <= d < 16 → hex_digit (hex_char d) = Some d.
Proof.
  intros Hd. assert (d = 0 ∨ d = 1 ∨ d = 2 ∨ d = 3 ∨ d = 4 ∨ d = 5 ∨ d = 6 ∨ d = 7 ∨ d = 8 ∨ d = 9 ∨ d = 10 ∨ d = 11 ∨ d = 12 ∨ d = 13 ∨ d = 14 ∨ d = 15) as Hc by lia.
  repeat (destruct Hc as [->|Hc]; [done|]). by subst.
Qed.

Lemma hex4_digits x : 0 <= x < 65536 → four_digits (hex4 x) x.
Proof.
  intros Hx. assert (x = (x / 4096 mod 16) * 4096 + (x / 256 mod 16) * 256 + (x / 16 mod 16) * 16 + x mod 16) as E.
  { pose proof (Z.div_mod x 16 ltac:(lia)). pose proof (Z.div_mod (x / 16) 16 ltac:(lia)). pose proof (Z.div_mod (x / 256) 16 ltac:(lia)).
    assert (x / 16 / 16 = x / 256) as E1 by (by rewrite Z.div_div by lia). assert (x / 256 / 16 = x / 4096) as E2 by (by rewrite Z.div_div by lia).
    rewrite E1, E2 in *. rewrite (Z.mod_small (x / 4096)); [lia|]. split; [apply Z.div_pos; lia|apply Z.div_lt_upper_bound; lia]. }
  rewrite E at 2. constructor; apply hex_char_digit; apply Z.mod_pos_bound; lia.
Qed.

(** Both halves of a surrogate pair. *)
Lemma unicode_pair cp : 0x10000 <= cp <= 0x10FFFF → ∃ high low,
  unicode_encode_escape cp = Some (92 :: 117 :: hex4 high ++ 92 :: 117 :: hex4 low) ∧ 0xD800 <= high <= 0xDBFF ∧ 0xDC00 <= low <= 0xDFFF ∧
  0x10000 + (high - 0xD800) * 1024 + (low - 0xDC00) = cp.
Proof.
  intros Hcp. unfold unicode_encode_escape. rewrite (proj2 (Z.leb_gt _ _)), (proj2 (Z.leb_le _ _)) by lia. cbn zeta. eexists _, _. split; [done|].
  rewrite Z.shiftr_div_pow2 by lia. change (2 ^ 10) with 1024.
  assert (Z.land (cp - 0x10000) 0x3FF = (cp - 0x10000) mod 1024) as -> by (apply (Z.land_ones _ 10); lia).
  pose proof (Z.mod_pos_bound (cp - 0x10000) 1024 ltac:(lia)). pose proof (Z.div_mod (cp - 0x10000) 1024 ltac:(lia)). lia.
Qed.

Lemma short_escape_table c x : short_escape c = Some x → (x, c) ∈ short_escapes ∧ 0 <= c < 0x80.
Proof.
  unfold short_escape, short_escapes. repeat (case_if; reflect_bools; [intros [= <-]; subst; split; [set_solver|lia]|]). done.
Qed.

Lemma short_escape_none c : short_escape c = None → c ≠ 34 ∧ c ≠ 92.
Proof. unfold short_escape. intros H. split; by intros ->. Qed.

(** Each of them is a text of the character. *)
Lemma escape_char_text mode cp : scalar cp → char_text (escape_char mode cp) (WsUtf8.encode cp).
Proof.
  intros Hsc. assert (0 <= cp <= 0x10FFFF) as Hr by (destruct Hsc; lia). unfold escape_char. destruct (short_escape cp) as [x|] eqn:Es.
  { apply short_escape_table in Es as [Hin Hlt]. assert (WsUtf8.encode cp = [cp]) as -> by (unfold WsUtf8.encode; by rewrite (proj2 (Z.ltb_lt _ _)) by lia). by constructor. }
  apply short_escape_none in Es as [H34 H92]. destruct (Z.ltb_spec cp 0x20).
  { constructor; [apply hex4_digits; lia|done]. }
  destruct (Z.ltb_spec cp 0x80) as [Hlt|Hge].
  { assert (WsUtf8.encode cp = [cp]) as E by (unfold WsUtf8.encode; by rewrite (proj2 (Z.ltb_lt _ _)) by lia). rewrite E. rewrite <- E. by constructor. }
  destruct mode; [|by constructor]. destruct (Z.le_gt_cases cp 0xFFFF).
  - unfold unicode_encode_escape. rewrite (proj2 (Z.leb_le _ _)) by lia. cbn [default from_option id]. constructor; [apply hex4_digits; lia|done].
  - destruct (unicode_pair cp ltac:(lia)) as (high & low & -> & Hh & Hl & E). cbn [default from_option id]. rewrite <- E. apply char_pair; [apply hex4_digits; lia|lia|apply hex4_digits; lia|lia].
Qed.

Lemma escape_text mode cps : Forall scalar cps → string_text (34 :: escape mode cps ++ [34]) (flat_map WsUtf8.encode cps).
Proof.
  intros Hcps. exists (escape mode cps). split; [done|]. unfold escape. induction Hcps as [|cp cps Hcp Hcps IH]; [constructor|]. cbn [flat_map]. constructor; [by apply escape_char_text|done].
Qed.

(** ** The loop *)

Lemma utf8_decode_exact s scan cp n : scalar cp → 0x80 <= cp → starts s scan (WsUtf8.encode cp) → zlen (WsUtf8.encode cp) <= n →
  utf8_decode s scan n = Some (zlen (WsUtf8.encode cp), cp).
Proof.
  intros Hsc H80 Hs He. unfold WsUtf8.encode in *. unfold utf8_decode. cbn zeta.
  pose proof (Z.mod_pos_bound cp 64 ltac:(lia)). pose proof (Z.mod_pos_bound (cp / 64) 64 ltac:(lia)). pose proof (Z.mod_pos_bound (cp / 4096) 64 ltac:(lia)).
  pose proof (Z.div_mod cp 64 ltac:(lia)). pose proof (Z.div_mod (cp / 64) 64 ltac:(lia)). pose proof (Z.div_mod (cp / 4096) 64 ltac:(lia)).
  assert (cp / 64 / 64 = cp / 4096) as E1 by (by rewrite Z.div_div by lia). assert (cp / 4096 / 64 = cp / 262144) as E2 by (by rewrite Z.div_div by lia).
  rewrite E1 in *. rewrite E2 in *. assert (0 <= cp / 262144) by (apply Z.div_pos; lia).
  rewrite (proj2 (Z.ltb_ge cp 0x80)) in * by lia. destruct (Z.ltb_spec cp 0x800); [|destruct (Z.ltb_spec cp 0x10000)];
    unfold zlen in *; cbn [length] in *; rewrite (proj2 (Z.eqb_neq n 0)) by lia; rewrite (starts_here _ _ _ _ Hs); cbn [mbind option_bind].
  - rewrite (proj2 (Z.ltb_ge _ _)), class2, (proj2 (Z.ltb_ge _ _)), (proj2 (Z.ltb_ge _ _)) by lia.
    rewrite (starts_get _ _ _ 1 (0x80 + cp mod 64) Hs) by done. cbn [mbind option_bind].
    destruct (class_cont (0x80 + cp mod 64)) as [-> ->]; [lia|]. cbn [Z.eqb Pos.eqb negb]. do 2 f_equal.
    rewrite (Z.land_ones _ 5) by lia. rewrite Z.shiftl_mul_pow2, lor_add by lia. change (2 ^ 5) with 32. replace (0xC0 + cp / 64) with (cp / 64 + 6 * 32) by lia.
    rewrite Z_mod_plus_full, Z.mod_small by lia. lia.
  - rewrite (proj2 (Z.ltb_ge _ _)) by lia. destruct (class3 (0xE0 + cp / 4096)) as (-> & -> & ->); [lia|].
    rewrite (proj2 (Z.ltb_ge _ _)) by lia. rewrite (starts_get _ _ _ 1 (0x80 + cp / 64 mod 64) Hs), (starts_get _ _ _ 2 (0x80 + cp mod 64) Hs) by done. cbn [mbind option_bind].
    destruct (class_cont (0x80 + cp / 64 mod 64)) as [-> ->]; [lia|]. destruct (class_cont (0x80 + cp mod 64)) as [-> ->]; [lia|]. cbn [Z.eqb Pos.eqb negb].
    rewrite !Z.shiftl_mul_pow2 by lia.
    assert (Z.lor (Z.lor ((0xE0 + cp / 4096 - 0xE0) * 2 ^ 12) ((0x80 + cp / 64 mod 64 - 0x80) * 2 ^ 6)) (0x80 + cp mod 64 - 0x80) = cp) as ->.
    { rewrite lor_add by lia. replace (_ + _) with ((cp / 64) * 2 ^ 6) by lia. rewrite lor_add by lia. lia. }
    rewrite (proj2 (Z.ltb_ge _ _)) by lia.
    assert ((0xD800 <=? cp) && (cp <=? 0xDFFF) = false) as -> by (apply andb_false_iff; rewrite !Z.leb_gt; destruct Hsc; lia). done.
  - assert (cp / 262144 <= 4) by (destruct Hsc; lia). rewrite (proj2 (Z.ltb_ge _ _)) by lia.
    destruct (class4 (0xF0 + cp / 262144)) as (-> & -> & -> & ->); [lia|]. rewrite (proj2 (Z.ltb_ge _ _)), (proj2 (Z.ltb_ge _ _)) by lia.
    rewrite (starts_get _ _ _ 1 (0x80 + cp / 4096 mod 64) Hs), (starts_get _ _ _ 2 (0x80 + cp / 64 mod 64) Hs), (starts_get _ _ _ 3 (0x80 + cp mod 64) Hs) by done.
    cbn [mbind option_bind]. destruct (class_cont (0x80 + cp / 4096 mod 64)) as [-> ->]; [lia|].
    destruct (class_cont (0x80 + cp / 64 mod 64)) as [-> ->]; [lia|]. destruct (class_cont (0x80 + cp mod 64)) as [-> ->]; [lia|]. cbn [Z.eqb Pos.eqb negb].
    rewrite !Z.shiftl_mul_pow2 by lia.
    assert (Z.lor (Z.lor (Z.lor ((0xF0 + cp / 262144 - 0xF0) * 2 ^ 18) ((0x80 + cp / 4096 mod 64 - 0x80) * 2 ^ 12)) ((0x80 + cp / 64 mod 64 - 0x80) * 2 ^ 6)) (0x80 + cp mod 64 - 0x80) = cp) as ->.
    { rewrite lor_add by lia. replace (_ + _) with ((cp / 4096) * 2 ^ 12) by lia. rewrite lor_add by lia.
      replace (_ + _) with ((cp / 64) * 2 ^ 6) by lia. rewrite lor_add by lia. lia. }
    rewrite (proj2 (Z.ltb_ge _ _)), (proj2 (Z.ltb_ge _ _)) by (destruct Hsc; lia). done.
Qed.

Lemma short_escape_high c : 0x80 <= c → short_escape c = None.
Proof. intros Hc. unfold short_escape. by rewrite !(proj2 (Z.eqb_neq c _)) by lia. Qed.

Lemma starts_read s scan l : starts s scan l → mem_read s scan (zlen l) = Some l.
Proof.
  intros Hs. pose proof (starts_end _ _ _ Hs). destruct Hs as (pre & post & -> & ->). unfold mem_read.
  rewrite (proj2 (Z.leb_le 0 _)), (proj2 (Z.leb_le 0 _)), (proj2 (Z.leb_le _ _)) by (pose proof (zlen_nonneg l); pose proof (zlen_nonneg pre); lia). cbn [andb].
  unfold zlen. rewrite !Nat2Z.id, drop_app_length, take_app_length. done.
Qed.

(** One turn over a character. *)
Lemma escapes_turn s mode cp i n dest fuel : scalar cp → starts s i (WsUtf8.encode cp) → i + zlen (WsUtf8.encode cp) <= n →
  escapes_loop s (S fuel) mode i n dest = escapes_loop s fuel mode (i + zlen (WsUtf8.encode cp)) n (dest ++ escape_char mode cp).
Proof.
  intros Hsc Hs Hn. assert (0 <= cp <= 0x10FFFF) as Hr by (destruct Hsc; lia). unfold escape_char. cbn [escapes_loop]. destruct (Z.lt_ge_cases cp 0x80) as [Hlt|Hge].
  - assert (WsUtf8.encode cp = [cp]) as E by (unfold WsUtf8.encode; by rewrite (proj2 (Z.ltb_lt _ _)) by lia). rewrite E in *. change (zlen [cp]) with 1 in *.
    rewrite (proj2 (Z.ltb_lt i n)), (starts_here _ _ _ _ Hs) by lia. cbn [mbind option_bind]. destruct (short_escape cp); [done|]. case_if; [done|]. by rewrite (proj2 (Z.ltb_lt _ _)) by lia.
  - destruct (scan_plain_exact s (i + zlen (WsUtf8.encode cp)) i cp Hsc ltac:(lia) Hs ltac:(lia)) as (c & l & E & Hc & Hcp & _).
    assert (0x80 <= c) as Hc80 by (destruct (Z.lt_ge_cases c 0x80) as [Hlt|?]; [specialize (Hcp Hlt); lia|done]).
    assert (mem_get s i = Some c) as Hget by (rewrite E in Hs; by eapply starts_here).
    assert (1 <= zlen (WsUtf8.encode cp)) as H1 by (rewrite E, zlen_cons; pose proof (zlen_nonneg l); lia).
    rewrite (proj2 (Z.ltb_lt i n)), Hget by lia. cbn [mbind option_bind].
    rewrite !short_escape_high, (proj2 (Z.ltb_ge c 0x20)), (proj2 (Z.ltb_ge c 0x80)), (proj2 (Z.ltb_ge cp 0x20)), (proj2 (Z.ltb_ge cp 0x80)) by lia.
    rewrite (utf8_decode_exact s i cp) by (done || lia). cbn [mbind option_bind]. rewrite (proj2 (Z.eqb_neq _ 0)) by lia. destruct mode.
    + assert (∃ x, unicode_encode_escape cp = Some x) as [x Hx].
      { unfold unicode_encode_escape. case_if; [by eexists|]. rewrite (proj2 (Z.leb_le _ _)) by lia. by eexists. }
      by rewrite Hx.
    + by rewrite (starts_read _ _ _ Hs).
Qed.

Lemma escapes_loop_exact s mode cps : Forall scalar cps → ∀ i dest fuel, starts s i (flat_map WsUtf8.encode cps) →
  (length cps < fuel)%nat → escapes_loop s fuel mode i (i + zlen (flat_map WsUtf8.encode cps)) dest = Some (Some (dest ++ escape mode cps)).
Proof.
  induction 1 as [|cp cps Hcp Hcps IH]; intros i dest fuel Hs Hf; (destruct fuel as [|fuel]; [lia|]).
  - cbn [escapes_loop flat_map]. rewrite zlen_nil, (proj2 (Z.ltb_ge _ _)) by lia. unfold escape. cbn [flat_map]. by rewrite app_nil_r.
  - cbn [flat_map length] in *. rewrite escapes_turn with (cp := cp); [|done|by eapply starts_take|rewrite zlen_app; pose proof (zlen_nonneg (flat_map WsUtf8.encode cps)); lia].
    rewrite zlen_app, Z.add_assoc, IH; [|by eapply starts_drop|lia]. unfold escape. cbn [flat_map]. by rewrite <- app_assoc.
Qed.

Lemma encode_nonempty cp : (1 <= length (WsUtf8.encode cp))%nat.
Proof. unfold WsUtf8.encode. repeat case_if; simpl; lia. Qed.

Lemma escapes_exact mode cps dest : Forall scalar cps →
  json_process_string_escapes (flat_map WsUtf8.encode cps) dest mode = Some (Some (dest ++ escape mode cps)).
Proof.
  intros Hcps. unfold json_process_string_escapes. rewrite <- (Z.add_0_l (zlen _)). apply escapes_loop_exact; [done| |].
  - exists [], []. by rewrite app_nil_r.
  - clear Hcps. induction cps as [|cp cps IH]; simpl in *; [lia|]. rewrite length_app. pose proof (encode_nonempty cp). lia.
Qed.

(** What [json_stringify] writes: the walk over the tree of a value prints it as the reference
    printer [print] does. *)

Fixpoint jv_ind' {num} (P : jv num → Prop) (Hnull : P JNull) (Hbool : ∀ b, P (JBool b)) (Hnum : ∀ x, P (JNum x)) (Hstr : ∀ s, P (JStr s))
    (Harr : ∀ vs, Forall P vs → P (JArr vs)) (Hobj : ∀ ms, Forall (λ m, P m.2) ms → P (JObj ms)) (v : jv num) : P v :=
  let rec := jv_ind' P Hnull Hbool Hnum Hstr Harr Hobj in
  match v with
  | JNull => Hnull
  | JBool b => Hbool b
  | JNum x => Hnum x
  | JStr s => Hstr s
  | JArr vs => Harr vs ((fix go vs : Forall P vs := match vs with [] => Forall_nil_2 P | v :: vs' => Forall_cons_2 P v vs' (rec v) (go vs') end) vs)
  | JObj ms => Hobj ms ((fix go ms : Forall (λ m, P m.2) ms :=
                           match ms with [] => Forall_nil_2 _ | m :: ms' => Forall_cons_2 (λ m, P m.2) m ms' (rec m.2) (go ms') end) ms)
  end.

(** ** The reference printer *)

(** The texts with commas between them. *)
Fixpoint commas (l : list (list Z)) : list Z :=
  match l with [] => [] | [w] => w | w :: l' => w ++ 44 :: commas l' end.

(** The string literal of [str], which is UTF-8. *)
Definition quoted (mode : bool) (str w : list Z) : Prop :=
  ∃ cps, Forall scalar cps ∧ str = flat_map WsUtf8.encode cps ∧ w = 34 :: escape mode cps ++ [34].

Section Walk.
Context {num : Type}.
Variable is_integer : num → bool.
Variables snprintf_integer snprintf_fraction : num → Z * list Z.
Variable mode : bool.

Definition number_text (x : num) : list Z := (if is_integer x then snprintf_integer x else snprintf_fraction x).2.

(** The text of a value, without blanks. *)
Inductive prints : jv num → list Z → Prop :=
  | pr_null : prints JNull (bs "null")
  | pr_bool (b : bool) : prints (JBool b) (if b then bs "true" else bs "false")
  | pr_num x : prints (JNum x) (number_text x)
  | pr_str str w : quoted mode str w → prints (JStr str) w
  | pr_arr vs ws : Forall2 prints vs ws → prints (JArr vs) (91 :: commas ws ++ [93])
  | pr_obj ms ws : Forall2 (λ m w, ∃ k x, quoted mode m.1 k ∧ prints m.2 x ∧ w = k ++ 58 :: x) ms ws →
      prints (JObj ms) (123 :: commas ws ++ [125]).

(** The values the code can print: in an array, no string comes right after an object or array that is not empty. *)
Definition filled (v : jv num) : bool := match v with JArr (_ :: _) | JObj (_ :: _) => true | _ => false end.
Definition is_str (v : jv num) : bool := match v with JStr _ => true | _ => false end.
Fixpoint apart (vs : list (jv num)) : bool :=
  match vs with
  | v :: (v' :: _) as vs' => negb (filled v && is_str v') && apart vs'
  | _ => true
  end.
Fixpoint printable (v : jv num) : bool :=
  match v with
  | JArr vs => forallb printable vs && apart vs
  | JObj ms => forallb (λ m, printable m.2) ms
  | _ => true
  end.

(** ** The loop *)

(** [snprintf] gives the length of the text, which fits in the buffer. *)
Hypothesis snprintf_fits : ∀ x, let r := if is_integer x then snprintf_integer x else snprintf_fraction x in r.1 = zlen r.2 ∧ r.1 < 512.
Variable h : gmap nat (json_token num).
Abbreviation loop := (stringify_loop is_integer snprintf_integer snprintf_fraction h mode).
Implicit Types (a p : nat) (par sib : tptr) (out : list Z) (x y : jt num) (v : jv num).

(** What is left to do once the containers that end at [p] are closed. *)
Definition finish (fuel : nat) (p : tptr) out : option (option (list Z)) :=
  match close_loop h (S (size h)) p out with
  | None => None
  | Some (Stop ok out) => Some (if ok then Some out else None)
  | Some (Next token st out) => loop fuel token st out
  end.

(** The way up from [a] ends. *)
Definition chained a : Prop := ∃ l, up h None (a :: l) ∧ (length (a :: l) <= size h)%nat.

Lemma close_loop_enough l out f g : up h None l → (length l < f)%nat → (length l < g)%nat → close_loop h f (head l) out = close_loop h g (head l) out.
Proof.
  revert out f g. induction l as [|a l IH]; intros out f g Hup Hf Hg; (destruct f as [|f]; [lia|]); (destruct g as [|g]; [lia|]); [done|].
  destruct Hup as [(k & Hk & Hp) Hup]. cbn [head close_loop]. rewrite Hk. cbn [mbind option_bind]. destruct (t_sibling k); [done|].
  simpl in Hf, Hg. rewrite Hp. apply (IH _ f g Hup); lia.
Qed.

(** Closing a container without a sibling goes on with its parent. *)
Lemma finish_up fuel a k out : chained a → h !! a = Some k → t_sibling k = None →
  finish fuel (Some a) out = finish fuel (t_parent k) (match t_type k with JSON_OBJECT => out ++ [125] | JSON_ARRAY => out ++ [93] | _ => out end).
Proof.
  intros (l & Hup & Hl) Hk Hs. unfold finish. remember (size h) as n eqn:En. cbn [close_loop]. rewrite Hk. cbn [mbind option_bind]. rewrite Hs.
  destruct Hup as [(k' & Hk' & Hp) Hup]. rewrite Hk in Hk'. injection Hk' as <-. replace (t_parent k) with (head l) by (rewrite Hp; by destruct l).
  simpl in Hl. by rewrite (close_loop_enough l _ n (S n) Hup) by lia.
Qed.

(** A parent whose [CLOSE_CONTAINER] turn does what the loop of that turn does: the sibling of a key is a key. *)
Definition good_parent par : Prop :=
  match par with
  | None => True
  | Some p => ∃ k, h !! p = Some k ∧ (t_type k = JSON_STRING → ∀ s, t_sibling k = Some s →
      is_Some (parent_is h k JSON_ARRAY) ∧ ∃ ks, h !! s = Some ks ∧ t_type ks = JSON_STRING)
  end.

Lemma close_turn fuel par out : good_parent par → loop (S fuel) par JSON_STATE_CLOSE_CONTAINER out = finish fuel par out.
Proof.
  intros Hg. destruct par as [p|]; [|done]. destruct Hg as (k & Hk & Hg). unfold finish. remember (size h) as n eqn:En. cbn [stringify_loop]. unfold stringify_turn. rewrite Hk.
  cbn [mbind option_bind]. unfold close_container. rewrite <- En.
  assert ((t_type k = JSON_STRING ∧ ∃ s, t_sibling k = Some s) ∨ (match t_type k, t_sibling k with
    | JSON_STRING, Some sib => Some (Next (Some sib) JSON_STATE_PROCESS_OBJECT_KEY (out ++ [44])) | _, _ => close_loop h (S n) (Some p) out end = close_loop h (S n) (Some p) out)) as [[Ht [s Hs]]| ->].
  { destruct (t_type k); auto. destruct (t_sibling k); eauto. }
  - destruct (Hg Ht s Hs) as [[b Hb] (ks & Hks & Hts)]. cbn [close_loop]. rewrite Hk. cbn [mbind option_bind]. rewrite Ht, Hs, Hb. cbn [mbind option_bind]. rewrite Hks. cbn [mbind option_bind].
    rewrite !bool_decide_true, orb_true_r by done. done.
  - by destruct (close_loop h (S n) (Some p) out) as [[]|].
Qed.

Definition ty_of x : json_type := match x with JT _ ty _ _ => ty end.

Lemma rep_type par sib x : rep h par sib x → ∃ k, h !! addr x = Some k ∧ t_type k = ty_of x ∧ t_parent k = par ∧ t_sibling k = sib.
Proof. destruct x as [a ty v cs]. intros [Ha _]%rep_JT. by eexists. Qed.

(** ** Leaving a value *)

Definition is_array p : Prop := ∃ k, h !! p = Some k ∧ t_type k = JSON_ARRAY.

(** What comes after a value with the parent [par] and the sibling [sib]. *)
Definition leaves par sib out (fuel : nat) : option (option (list Z)) :=
  match sib with
  | None => finish fuel par out
  | Some s => k ← h !! s; loop fuel (Some s) (state_of (t_type k)) (out ++ [44])
  end.

(** A sibling is another element of an array. *)
Definition next_ok v par sib : Prop :=
  match sib with
  | None => True
  | Some s => ∃ p k, par = Some p ∧ is_array p ∧ h !! s = Some k ∧ t_parent k = par ∧ (filled v = true → t_type k ≠ JSON_STRING)
  end.

Lemma finish_leaves fuel a k out v : chained a → h !! a = Some k → container (t_type k) = true → filled v = true → next_ok v (t_parent k) (t_sibling k) →
  finish fuel (Some a) out = leaves (t_parent k) (t_sibling k) (out ++ [match t_type k with JSON_OBJECT => 125 | _ => 93 end]) fuel.
Proof.
  intros Hc Hk Hty Hv Hn. destruct (t_sibling k) as [s|] eqn:Es; cbn [leaves].
  - destruct Hn as (p & ks & Hp & (kp & Hkp & Htp) & Hks & _ & Hts). specialize (Hts Hv). unfold finish. cbn [close_loop]. rewrite Hk. cbn [mbind option_bind]. rewrite Es.
    unfold parent_is. rewrite Hp, Hkp. cbn [mbind option_bind]. rewrite Hks. cbn [mbind option_bind]. rewrite (bool_decide_true (t_type kp = JSON_ARRAY)) by done. cbn [orb]. rewrite bool_decide_false by done. by destruct (t_type k).
  - rewrite (finish_up fuel a k out Hc Hk Es). by destruct (t_type k).
Qed.

(** After an empty container. *)
Lemma after_empty_leaves fuel k out v : good_parent (t_parent k) → next_ok v (t_parent k) (t_sibling k) →
  (r ← after_empty h k out;
   match r with
   | Stop ok out => Some (if ok then Some out else None)
   | Next token st out => loop (match t_sibling k with None => S fuel | Some _ => fuel end) token st out
   end) = leaves (t_parent k) (t_sibling k) out fuel.
Proof.
  intros Hg Hn. unfold after_empty. destruct (t_sibling k) as [s|]; [|by apply close_turn].
  destruct Hn as (p & ks & Hp & (kp & Hkp & Htp) & Hks & _). cbn [leaves]. unfold parent_is. rewrite Hp, Hkp. cbn [mbind option_bind]. rewrite Hks. cbn [mbind option_bind]. by rewrite bool_decide_true.
Qed.

(** After a primitive. *)
Lemma primitive_leaves fuel a k out w v : h !! a = Some k → container (t_type k) = false → good_parent (t_parent k) → next_ok v (t_parent k) (t_sibling k) →
  primitive_text is_integer snprintf_integer snprintf_fraction mode k out = Some (Some (out ++ w)) →
  loop (S (match t_sibling k with None => S fuel | Some _ => fuel end)) (Some a) (state_of (t_type k)) out = leaves (t_parent k) (t_sibling k) (out ++ w) fuel.
Proof.
  intros Hk Hty Hg Hn Hw. remember (match t_sibling k with None => S fuel | Some _ => fuel end) as f eqn:Ef. cbn [stringify_loop]. unfold stringify_turn. rewrite Hk. cbn [mbind option_bind].
  replace (state_of (t_type k)) with JSON_STATE_PROCESS_PRIMITIVE by (by destruct (t_type k)). unfold process_primitive. rewrite Hw. cbn [mbind option_bind].
  subst f. destruct (t_sibling k) as [s|]; [|by apply close_turn]. destruct Hn as (p & ks & Hp & (kp & Hkp & Htp) & Hks & Hps & _). cbn [leaves]. rewrite Hks. cbn [mbind option_bind].
  unfold parent_is. rewrite Hps, Hp, Hkp. cbn [mbind option_bind]. rewrite !Htp. rewrite (bool_decide_true (JSON_ARRAY = JSON_ARRAY)), (bool_decide_false (JSON_ARRAY = JSON_STRING)) by done. cbn [andb]. done.
Qed.

(** ** Values *)

(** The walk over the tree [x] writes [w]. *)
Definition walk x w par sib : Prop :=
  ∃ n, (n + 1 <= 2 * length (addrs x))%nat ∧ ∀ fuel out, loop (n + S fuel) (Some (addr x)) (state_of (ty_of x)) out = leaves par sib (out ++ w) fuel.

Abbreviation walks v := (∀ x w par sib, tree_of v x → prints v w → printable v = true → rep h par sib x → (∀ a, a ∈ addrs x → chained a) →
  good_parent par → next_ok v par sib → walk x w par sib).

Lemma primitive_walk x w par sib v : rep h par sib x → container (ty_of x) = false → good_parent par → next_ok v par sib →
  (∀ k out, h !! addr x = Some k → primitive_text is_integer snprintf_integer snprintf_fraction mode k out = Some (Some (out ++ w))) → walk x w par sib.
Proof.
  intros Hr Hty Hg Hn Hw. destruct (rep_type _ _ _ Hr) as (k & Hk & Ht & Hp & Hs). rewrite <- Ht in Hty. subst par sib. unfold walk. rewrite <- Ht.
  pose proof (λ fuel out, primitive_leaves fuel (addr x) k out w v Hk Hty Hg Hn (Hw k out Hk)) as H. destruct x as [a ty v' cs]. rewrite addrs_JT. simpl length.
  destruct (t_sibling k); [exists 0%nat|exists 1%nat]; (split; [lia|exact H]).
Qed.

Lemma escapes_quoted str w out : quoted mode str w → ∃ w', json_process_string_escapes str (out ++ [34]) mode = Some (Some (out ++ w')) ∧ w = w' ++ [34].
Proof.
  intros (cps & Hcps & -> & ->). exists (34 :: escape mode cps). split; [|done]. rewrite escapes_exact by done. by rewrite <- app_assoc.
Qed.

Lemma string_walk str w x par sib : tree_of (JStr str) x → quoted mode str w → rep h par sib x → good_parent par → next_ok (JStr str) par sib → walk x w par sib.
Proof.
  intros Ht Hq Hr Hg Hn. inversion Ht; subst. eapply primitive_walk; [done|done|done|done|]. intros k out Hk. apply rep_JT in Hr as [Hk' _]. cbn [addr] in Hk. rewrite Hk in Hk'. injection Hk' as ->.
  unfold primitive_text. cbn [cell t_type t_value]. destruct (escapes_quoted str w out Hq) as (w' & -> & ->). cbn [mbind option_bind]. by rewrite app_assoc.
Qed.

Lemma number_walk z x par sib : tree_of (JNum z) x → rep h par sib x → good_parent par → next_ok (JNum z) par sib → walk x (number_text z) par sib.
Proof.
  intros Ht Hr Hg Hn. inversion Ht; subst. eapply primitive_walk; [done|done|done|done|]. intros k out Hk. apply rep_JT in Hr as [Hk' _]. cbn [addr] in Hk. rewrite Hk in Hk'. injection Hk' as ->.
  unfold primitive_text, number_text. cbn [cell t_type t_value]. destruct (snprintf_fits z) as [H1 H2]. destruct (if is_integer z then _ else _) as [n text]. cbn [fst snd] in *.
  pose proof (zlen_nonneg text). rewrite (proj2 (Z.ltb_ge n 0)), (proj2 (Z.leb_gt 512 n)) by lia. done.
Qed.

Lemma empty_walk a ty vv par sib v : container ty = true → rep h par sib (JT a ty vv []) → good_parent par → next_ok v par sib →
  walk (JT a ty vv []) [match ty with JSON_OBJECT => 123 | _ => 91 end; match ty with JSON_OBJECT => 125 | _ => 93 end] par sib.
Proof.
  intros Hty [Hk _]%rep_JT Hg Hn. pose proof (λ fuel out, after_empty_leaves fuel _ out v (Hg : good_parent (t_parent (cell par sib ty vv []))) Hn) as H.
  exists (match sib with None => 1 | Some _ => 0 end)%nat. split; [rewrite addrs_JT; simpl; destruct sib; lia|]. intros fuel out. cbn [addr ty_of].
  replace (match sib with None => 1 | Some _ => 0 end + S fuel)%nat with (S (match sib with None => S fuel | Some _ => fuel end)) by (destruct sib; lia).
  cbn [stringify_loop]. unfold stringify_turn. rewrite Hk. cbn [mbind option_bind].
  cbn [t_parent t_sibling cell] in H. destruct ty; try done; cbn [state_of]; unfold open_object, open_array; cbn [t_child cell first].
  - rewrite (app_assoc out [123] [125] : out ++ [123; 125] = _), <- H. done.
  - rewrite (app_assoc out [91] [93] : out ++ [91; 93] = _), <- H. done.
Qed.

Lemma tree_str v x : tree_of v x → ty_of x = JSON_STRING → is_str v = true.
Proof. by intros []. Qed.

Lemma good_array p : is_array p → good_parent (Some p).
Proof. intros (k & Hk & Ht). exists k. split; [done|]. congruence. Qed.

Lemma commas_cons w w' ws : commas (w :: w' :: ws) = w ++ 44 :: commas (w' :: ws).
Proof. done. Qed.

(** The elements of an array. *)
Lemma elements_walk a vs : Forall (λ v, walks v) vs → ∀ c cs ws, Forall2 tree_of vs (c :: cs) → Forall2 prints vs ws → forallb printable vs = true → apart vs = true →
  rep_list h (Some a) (c :: cs) None → (∀ b, b ∈ addrs_list (c :: cs) → chained b) → is_array a →
  ∃ n, (n + 1 <= 2 * length (addrs_list (c :: cs)))%nat ∧
    ∀ fuel out, loop (n + S fuel) (Some (addr c)) (state_of (ty_of c)) out = finish fuel (Some a) (out ++ commas ws).
Proof.
  induction 1 as [|v vs Hv Hvs IH]; intros c cs ws Ht Hp Hpr Hap Hrep Hch Ha; [inversion Ht|].
  inversion Ht as [|? ? ? ? Htc Hts]; subst. inversion Hp as [|? w ? ws' Hpw Hpws]; subst. cbn [forallb] in Hpr. apply andb_true_iff in Hpr as [Hprv Hprs].
  destruct Hrep as [Hc Hcs]. rewrite addrs_list_cons in Hch. pose proof (good_array a Ha) as Hg.
  assert (∀ b, b ∈ addrs c → chained b) as Hchc by (intros b Hb; apply Hch, elem_of_app; by left). inversion Hts as [|v' c' vs' cs' Htc' Hts']; subst.
  - inversion Hpws; subst. destruct (Hv c w (Some a) None Htc Hpw Hprv Hc Hchc Hg I) as (n & Hn & Hl). exists n. split; [rewrite addrs_list_cons, length_app; lia|exact Hl].
  - inversion Hpws as [|? w' ? ws'' Hpw' Hpws']; subst. cbn [apart] in Hap. apply andb_true_iff in Hap as [Hfs Hap]. cbn [first] in Hc.
    pose proof Hcs as [Hc' _]. destruct (rep_type _ _ _ Hc') as (k' & Hk' & Htk' & Hpk' & _).
    destruct (Hv c w (Some a) (Some (addr c')) Htc Hpw Hprv Hc Hchc Hg) as (n & Hn & Hl).
    { exists a, k'. split_and!; [done|done|done|done|]. intros Hf Hs. rewrite Htk' in Hs. rewrite Hf, (tree_str _ _ Htc' Hs) in Hfs. done. }
    destruct (IH c' cs' (w' :: ws'') Hts Hpws Hprs Hap Hcs) as (m & Hm & Hl'); [intros b Hb; apply Hch, elem_of_app; by right|done|].
    exists (n + 1 + m)%nat. rewrite addrs_list_cons, length_app. split; [lia|]. intros fuel out. replace (n + 1 + m + S fuel)%nat with (n + S (m + S fuel))%nat by lia.
    rewrite Hl. cbn [leaves]. rewrite Hk'. cbn [mbind option_bind]. rewrite Htk', Hl', commas_cons. f_equal. by rewrite <- !app_assoc.
Qed.

Abbreviation is_member := (λ (m : list Z * jv num) y, ∃ b x, y = JT b JSON_STRING (VStr m.1) [x] ∧ tree_of m.2 x).
Abbreviation prints_member := (λ (m : list Z * jv num) (w : list Z), ∃ k w', quoted mode m.1 k ∧ prints m.2 w' ∧ w = k ++ 58 :: w').

(** One member, up to the closing of its key. *)
Lemma member_walk m y w sib a : walks m.2 → is_member m y → prints_member m w → printable m.2 = true → rep h (Some a) sib y →
  (∀ b, b ∈ addrs y → chained b) → good_parent (Some (addr y)) →
  ∃ n, (n + 2 <= 2 * length (addrs y))%nat ∧ ∀ fuel out, loop (n + S fuel) (Some (addr y)) JSON_STATE_PROCESS_OBJECT_KEY out = finish fuel (Some (addr y)) (out ++ w).
Proof.
  intros Hm (b & x & -> & Hx) (k & w' & Hk & Hw' & ->) Hpr [Hb [Hr _]]%rep_JT Hch Hg. cbn [addr] in *. cbn [first] in Hr.
  rewrite addrs_JT in *. unfold addrs_list in *. simpl concat in *. rewrite app_nil_r in *.
  destruct (Hm x w' (Some b) None Hx Hw' Hpr Hr (λ c Hc, Hch c (proj2 (elem_of_cons _ _ _) (or_intror Hc))) Hg I) as (n & Hn & Hl).
  exists (1 + n)%nat. split; [simpl; lia|]. intros fuel out. cbn [Nat.add stringify_loop]. unfold stringify_turn. rewrite Hb. cbn [mbind option_bind]. unfold object_key, cell. cbn [t_type t_value t_child first].
  destruct (escapes_quoted m.1 k out Hk) as (k' & -> & ->). cbn [mbind option_bind]. destruct (rep_type _ _ _ Hr) as (kx & Hkx & Htx & _). rewrite Hkx. cbn [mbind option_bind].
  rewrite Htx, Hl. cbn [leaves]. f_equal. by rewrite <- !app_assoc.
Qed.

Lemma members_walk a ms : Forall (λ m, walks m.2) ms → ∀ y ys ws, Forall2 is_member ms (y :: ys) → Forall2 prints_member ms ws → forallb (λ m, printable m.2) ms = true →
  rep_list h (Some a) (y :: ys) None → (∀ b, b ∈ addrs_list (y :: ys) → chained b) → (∃ k, h !! a = Some k ∧ t_type k = JSON_OBJECT) →
  ∃ n, (n + 1 <= 2 * length (addrs_list (y :: ys)))%nat ∧
    ∀ fuel out, loop (n + S fuel) (Some (addr y)) JSON_STATE_PROCESS_OBJECT_KEY out = finish fuel (Some a) (out ++ commas ws).
Proof.
  induction 1 as [|m ms Hm Hms IH]; intros y ys ws Ht Hp Hpr Hrep Hch Ha; [inversion Ht|].
  inversion Ht as [|? ? ? ? Hty Hts]; subst. inversion Hp as [|? w ? ws' Hpw Hpws]; subst. cbn [forallb] in Hpr. apply andb_true_iff in Hpr as [Hprm Hprs].
  destruct Hrep as [Hy Hys]. rewrite addrs_list_cons in Hch. destruct (rep_type _ _ _ Hy) as (k & Hk & Htk & Hpk & Hsk).
  assert (∀ b, b ∈ addrs y → chained b) as Hchy by (intros b Hb; apply Hch, elem_of_app; by left).
  assert (t_type k = JSON_STRING) as Hstr by (destruct Hty as (? & ? & -> & _); done). destruct Ha as (ka & Hka & Hta).
  inversion Hts as [|m' y' ms' ys' Hty' Hts']; subst.
  - inversion Hpws; subst. destruct (member_walk m y w None a Hm Hty Hpw Hprm Hy Hchy) as (n & Hn & Hl); [exists k; split; [done|]; cbn [first] in Hsk; congruence|].
    exists n. rewrite addrs_list_cons, length_app. split; [lia|]. intros fuel out. rewrite Hl, (finish_up _ _ k); [|by apply Hchy, addr_in|done|done]. by rewrite Hstr, Hpk.
  - inversion Hpws as [|? w' ? ws'' Hpw' Hpws']; subst. cbn [first] in Hsk. pose proof Hys as [Hy' _]. destruct (rep_type _ _ _ Hy') as (k' & Hk' & Htk' & _).
    assert (t_type k' = JSON_STRING) as Hstr' by (destruct Hty' as (? & ? & -> & _); done).
    assert (parent_is h k JSON_ARRAY = Some false) as Hpar by (unfold parent_is; rewrite Hpk, Hka; simpl; rewrite bool_decide_false; [done|congruence]).
    destruct (member_walk m y w _ a Hm Hty Hpw Hprm Hy Hchy) as (n & Hn & Hl).
    { exists k. split; [done|]. intros _ s Hs. split; [by eexists|]. rewrite Hsk in Hs. injection Hs as <-. by exists k'. }
    destruct (IH y' ys' (w' :: ws'') Hts Hpws Hprs Hys) as (j & Hj & Hl'); [intros b Hb; apply Hch, elem_of_app; by right|by exists ka|].
    exists (n + 1 + j)%nat. rewrite addrs_list_cons, length_app. split; [lia|]. intros fuel out. replace (n + 1 + j + S fuel)%nat with (n + S (j + S fuel))%nat by lia.
    rewrite Hl. unfold finish at 1. cbn [close_loop]. rewrite Hk. cbn [mbind option_bind]. rewrite Hsk, Hpar. cbn [mbind option_bind]. rewrite Hk'. cbn [mbind option_bind].
    rewrite Hstr, Hstr', !(bool_decide_true (JSON_STRING = JSON_STRING)) by done. cbn [orb]. rewrite Hl', commas_cons. f_equal. by rewrite <- !app_assoc.
Qed.

(** Opening a container that is not empty. *)
Lemma filled_open a ty vv c cs par sib w n : container ty = true → rep h par sib (JT a ty vv (c :: cs)) →
  (∀ fuel out, loop (n + S fuel) (Some (addr c)) (match ty with JSON_OBJECT => JSON_STATE_PROCESS_OBJECT_KEY | _ => state_of (ty_of c) end) out = finish fuel (Some a) (out ++ w)) →
  ∀ fuel out, loop (S n + S fuel) (Some a) (state_of ty) out = finish fuel (Some a) (out ++ match ty with JSON_OBJECT => 123 | _ => 91 end :: w).
Proof.
  intros Hty [Hk [Hc _]]%rep_JT Hl fuel out. cbn [Nat.add stringify_loop]. unfold stringify_turn. rewrite Hk. cbn [mbind option_bind]. destruct (rep_type _ _ _ Hc) as (kc & Hkc & Htc & _).
  destruct ty; try done; cbn [state_of]; unfold open_object, open_array, cell; cbn [t_child first].
  - cbn [mbind option_bind]. rewrite Hl. by rewrite <- app_assoc.
  - rewrite Hkc. cbn [mbind option_bind]. rewrite Htc, Hl. by rewrite <- app_assoc.
Qed.

(** A container that is not empty, up to its closing bracket. *)
Definition enters x w : Prop :=
  ∃ n, (n + 1 <= 2 * length (addrs x))%nat ∧ ∀ fuel out, loop (n + S fuel) (Some (addr x)) (state_of (ty_of x)) out = finish fuel (Some (addr x)) (out ++ w).

Lemma array_enters vs a c cs ws par sib : Forall (λ v, walks v) vs → Forall2 tree_of vs (c :: cs) → Forall2 prints vs ws → printable (JArr vs) = true →
  rep h par sib (JT a JSON_ARRAY (VInt 0) (c :: cs)) → (∀ b, b ∈ addrs (JT a JSON_ARRAY (VInt 0) (c :: cs)) → chained b) → enters (JT a JSON_ARRAY (VInt 0) (c :: cs)) (91 :: commas ws).
Proof.
  intros IH Ht Hp [Hpr Hap]%andb_true_iff Hr Hch. pose proof Hr as [Hk Hcs]%rep_JT. destruct (elements_walk a vs IH c cs ws Ht Hp Hpr Hap Hcs) as (n & Hle & Hl);
    [intros b Hb; apply Hch; rewrite addrs_JT; by right|by eexists|]. exists (S n). rewrite addrs_JT. split; [simpl; lia|]. exact (filled_open a JSON_ARRAY _ c cs par sib _ n eq_refl Hr Hl).
Qed.

Lemma object_enters ms a c cs ws par sib : Forall (λ m, walks m.2) ms → Forall2 is_member ms (c :: cs) → Forall2 prints_member ms ws → printable (JObj ms) = true →
  rep h par sib (JT a JSON_OBJECT (VInt 0) (c :: cs)) → (∀ b, b ∈ addrs (JT a JSON_OBJECT (VInt 0) (c :: cs)) → chained b) → enters (JT a JSON_OBJECT (VInt 0) (c :: cs)) (123 :: commas ws).
Proof.
  intros IH Ht Hp Hpr Hr Hch. pose proof Hr as [Hk Hcs]%rep_JT. destruct (members_walk a ms IH c cs ws Ht Hp Hpr Hcs) as (n & Hle & Hl);
    [intros b Hb; apply Hch; rewrite addrs_JT; by right|by eexists|]. exists (S n). rewrite addrs_JT. split; [simpl; lia|]. exact (filled_open a JSON_OBJECT _ c cs par sib _ n eq_refl Hr Hl).
Qed.

Lemma enters_walk x w par sib v : enters x w → rep h par sib x → container (ty_of x) = true → filled v = true → (∀ b, b ∈ addrs x → chained b) → next_ok v par sib →
  walk x (w ++ [match ty_of x with JSON_OBJECT => 125 | _ => 93 end]) par sib.
Proof.
  intros (n & Hn & Hl) Hr Hty Hv Hch Hnx. exists n. split; [done|]. intros fuel out. destruct (rep_type _ _ _ Hr) as (k & Hk & Ht & Hp & Hs).
  rewrite Hl. subst par sib. rewrite <- Ht in *. rewrite (finish_leaves fuel (addr x) k _ v (Hch _ (addr_in x)) Hk Hty Hv Hnx). by rewrite <- app_assoc.
Qed.

Lemma value_walk v : walks v.
Proof.
  induction v as [|b|z|str|vs IH|ms IH] using jv_ind'; intros x w par sib Ht Hp Hpr Hr Hch Hg Hn; inversion Hp; subst.
  - inversion Ht; subst. eapply primitive_walk; [done|done|done|done|]. intros k out Hk. apply rep_JT in Hr as [Hk' _]. cbn [addr] in Hk. rewrite Hk in Hk'. by injection Hk' as ->.
  - inversion Ht; subst. eapply primitive_walk; [done|done|done|done|]. intros k out Hk. apply rep_JT in Hr as [Hk' _]. cbn [addr] in Hk. rewrite Hk in Hk'. injection Hk' as ->. by destruct b.
  - by apply number_walk.
  - by eapply string_walk.
  - inversion Ht as [| | | |a ? ts Hts|]; subst. destruct ts as [|c cs].
    + inversion Hts; subst. inversion H0; subst. by apply (empty_walk a JSON_ARRAY _ par sib (JArr [])).
    + apply (enters_walk (JT a JSON_ARRAY (VInt 0) (c :: cs)) (91 :: commas ws) par sib (JArr vs)); [by eapply array_enters|done|done|by inversion Hts|done|done].
  - inversion Ht as [| | | | |a ? ts Hts]; subst. destruct ts as [|c cs].
    + inversion Hts; subst. inversion H0; subst. by apply (empty_walk a JSON_OBJECT _ par sib (JObj [])).
    + apply (enters_walk (JT a JSON_OBJECT (VInt 0) (c :: cs)) (123 :: commas ws) par sib (JObj ms)); [by eapply object_enters|done|done|by inversion Hts|done|done].
Qed.

(** The size of a document and the ways up in it. *)
Lemma document_chained x : rep h None None x → NoDup (addrs x) → (length (addrs x) <= size h)%nat ∧ ∀ a, a ∈ addrs x → chained a.
Proof.
  intros Hr Hd. assert (∀ l, NoDup l → l ⊆ addrs x → (length l <= size h)%nat) as Hsize.
  { intros l Hl Hsub. rewrite <- (size_list_to_set (C:=gset nat) l Hl), <- size_dom. apply subseteq_size. intros b Hb%elem_of_list_to_set%Hsub.
    apply elem_of_dom. by eapply jrep_is_Some. }
  split; [by apply Hsize|]. intros a Ha. destruct (rep_up h None None x a Hd Hr Ha) as (l & Hup & Hnd & Hsub). exists l. auto.
Qed.

(** The whole document. *)
Lemma stringify_exact x v w : rep h None None x → NoDup (addrs x) → tree_of v x → prints v w → printable v = true →
  json_stringify is_integer snprintf_integer snprintf_fraction h mode (Some (addr x)) = Some (Some w).
Proof.
  intros Hr Hd Ht Hp Hpr. destruct (document_chained x Hr Hd) as [Hle Hch]. destruct (value_walk v x w None None Ht Hp Hpr Hr Hch I I) as (n & Hn & Hl).
  destruct (rep_type _ _ _ Hr) as (k & Hk & Htk & _). unfold json_stringify. rewrite Hk. cbn [mbind option_bind]. rewrite Htk.
  replace (2 + 2 * size h)%nat with (n + S (1 + 2 * size h - n))%nat by lia. by rewrite Hl.
Qed.

(** ** A string after a container *)

Lemma filled_enters v x w par sib : filled v = true → tree_of v x → prints v w → printable v = true → rep h par sib x → (∀ b, b ∈ addrs x → chained b) → ∃ w', enters x w'.
Proof.
  intros Hv Ht Hp Hpr Hr Hch. destruct v as [| | | |vs|ms]; try done; inversion Hp as [| | | |? ws Hws|? ws Hws]; subst; inversion Ht as [| | | |a ? ts Hts|a ? ts Hts]; subst.
  - destruct Hts as [|v c vs cs Hvc Hts]; [done|]. eexists. eapply array_enters; [|by constructor|done|done|done|done]. apply Forall_forall. intros u _; exact (value_walk u).
  - destruct Hts as [|m c ms cs Hmc Hts]; [done|]. eexists. eapply object_enters; [|by constructor|done|done|done|done]. apply Forall_forall. intros m' _; exact (value_walk m'.2).
Qed.

Lemma stringify_rejects x v str vs w : rep h None None x → NoDup (addrs x) → tree_of (JArr (v :: JStr str :: vs)) x → filled v = true → prints v w → printable v = true →
  json_stringify is_integer snprintf_integer snprintf_fraction h mode (Some (addr x)) = Some None.
Proof.
  intros Hr Hd Ht Hv Hp Hpr. destruct (document_chained x Hr Hd) as [Hle Hch]. inversion Ht as [| | | |a ? ts Hts|]; subst.
  inversion Hts as [|? c ? cs0 Hc Hts']; subst. inversion Hts' as [|? c' ? cs Hc' _]; subst. rewrite addrs_JT, !addrs_list_cons in Hle, Hch.
  pose proof Hr as [Hk (Hrc & Hrc' & _)]%rep_JT. cbn [first] in Hrc.
  destruct (filled_enters v c w _ _ Hv Hc Hp Hpr Hrc) as (w' & n & Hn & Hl); [intros b Hb; apply Hch; right; rewrite !elem_of_app; by left|].
  destruct (rep_type _ _ _ Hrc) as (kc & Hkc & Htc & Hpc & Hsc). inversion Hc'; subst. apply rep_JT in Hrc' as [Hks _]. cbn [addr] in *.
  assert (∀ fuel out, finish (S fuel) (Some (addr c)) out = Some None) as Hf.
  { intros fuel out. unfold finish. cbn [close_loop]. rewrite Hkc. cbn [mbind option_bind]. rewrite Hsc. unfold parent_is. rewrite Hpc, Hk. cbn [mbind option_bind]. rewrite Hks. cbn [mbind option_bind cell t_type].
    rewrite (bool_decide_true (JSON_STRING = JSON_STRING)) by done. cbn [stringify_loop]. unfold stringify_turn. rewrite Hks. done. }
  simpl length in Hle. rewrite !length_app in Hle. unfold json_stringify. cbn [addr]. rewrite Hk. cbn [mbind option_bind cell t_type state_of].
  replace (2 + 2 * size h)%nat with (S (n + S (S (2 * size h - n - 1))))%nat by lia. remember (n + S (S (2 * size h - n - 1)))%nat as f eqn:Ef.
  cbn [stringify_loop]. unfold stringify_turn. rewrite Hk. cbn [mbind option_bind]. unfold open_array, cell. cbn [t_child first]. rewrite Hkc. cbn [mbind option_bind]. rewrite Htc.
  subst f. rewrite Hl. apply Hf.
Qed.
End Walk.
