(* ===== verification/JsonTheorems.v ===== *)
(** The theorems on JSON: parsing is safe on any text and complete for the texts of RFC 8259, and printing
    a document gives a text that parses back to it. *)

From S2P Require Import Prelude Json JsonPrint WsUtf8 JsonTree JsonString JsonParse JsonGrammar JsonRead JsonWalk.

(** The document [x] is in the heap, apart from the tokens of the other documents [h0], and nothing else is. *)
Definition holds {num} (h0 h : gmap nat (json_token num)) (F : list (jt num)) : Prop :=
  (∀ x, x ∈ F → rep h None None x) ∧ NoDup (addrs_list F) ∧ dom h = dom h0 ∪ list_to_set (addrs_list F) ∧
  ∀ b, b ∈ dom h0 → (b ∉ addrs_list F) ∧ h !! b = h0 !! b.

Section Hold.
Context {num : Type}.
Implicit Types (h : gmap nat (json_token num)) (F : list (jt num)) (st : parse_state num).

Lemma Inv_holds h0 st F : Inv h0 st F → holds h0 (ps_heap st) F.
Proof. intros []. by split_and!. Qed.

(** Freeing the document leaves the trees it does not reach. *)
Lemma free_holds h0 st F : Inv h0 st F → ∃ h, json_free (ps_heap st) (ps_root st) = Some h ∧ holds h0 h (tail F).
Proof.
  intros [Ht Hd Ho Hdom Hr _ _]. rewrite Hr. destruct F as [|x F]; cbn [head fmap option_fmap option_map tail].
  { exists (ps_heap st). by split_and!. }
  destruct (json_free_rep (ps_heap st) x) as (h & Hf & Hh); [apply Ht; by left|rewrite addrs_list_cons in Hd; by apply NoDup_app in Hd as (? & _ & _)|].
  rewrite addrs_list_cons in Hd. apply NoDup_app in Hd as (_ & Hsep & HdF). exists h. split; [done|].
  assert (∀ b, b ∉ addrs x → h !! b = ps_heap st !! b) as Hkeep by (intros b Hb; by rewrite Hh, decide_False).
  split_and!.
  - intros y Hy. eapply jrep_frame; [|apply Ht; by right]. intros b Hb. apply Hkeep. intros Hbx. apply (Hsep b Hbx), elem_of_addrs_list. by exists y.
  - done.
  - apply set_eq. intros b. rewrite elem_of_dom, Hh. rewrite addrs_list_cons, list_to_set_app_L in Hdom.
    assert (is_Some (ps_heap st !! b) ↔ b ∈ dom h0 ∪ (list_to_set (addrs x) ∪ list_to_set (addrs_list F))) as Hb by (rewrite <- Hdom; by rewrite elem_of_dom).
    rewrite !elem_of_union, !elem_of_list_to_set in Hb. rewrite elem_of_union, elem_of_list_to_set. case_decide as Hbx; [|tauto].
    split; [by intros [? ?]|]. intros [Hb0|HbF]; [|by apply (Hsep b Hbx) in HbF]. exfalso. apply (proj1 (Ho b Hb0)). rewrite addrs_list_cons, elem_of_app. by left.
  - intros b Hb. destruct (Ho b Hb) as [Hn He]. rewrite addrs_list_cons, not_elem_of_app in Hn. destruct Hn as [Hnx HnF]. split; [done|]. by rewrite Hkeep.
Qed.
End Hold.


(** C25: [json_parse] reads every text of RFC 8259. If the text [t] stands for the value [v], the parser succeeds and the
    document is the tree of [v]: nothing is lost, added or leaked, and the other documents are untouched.
    [strtold] is only asked to read a number that is followed by something else. *)
Theorem json_parse_complete {num : Type} (alloc : gmap nat (json_token num) → option nat) (strtold : list Z → num * Z) (num_of : list Z → num) :
  (∀ h a, alloc h = Some a → h !! a = None) → (∀ h, is_Some (alloc h)) →
  (∀ w rest, number_token w → delimited rest → strtold (w ++ rest) = (num_of w, zlen w)) → ∀ h0 t v, json_text num_of t v →
  ∃ x h, json_parse alloc strtold h0 t = gives (Some (addr x), h) ∧ tree_of v x ∧ holds h0 h [x].
Proof.
  intros Hf Ho Hs h0 t v Ht. destruct (text_read alloc strtold num_of Hf Ho Hs t h0 v Ht) as (x & st & Hl & Hx & HI & Hsup).
  exists x, (ps_heap st). unfold json_parse. rewrite Hl. unfold gives. rewrite Hsup. split_and!; [|done|by apply Inv_holds]. by rewrite (iv_root _ _ _ HI).
Qed.

(** ** Printing *)

Section Printing.
Context {num : Type}.
Implicit Types (v : jv num).

(** The numbers, the strings and the keys of a value. *)
Fixpoint numbers v : list num :=
  match v with
  | JNum x => [x]
  | JArr vs => flat_map numbers vs
  | JObj ms => flat_map (λ m, numbers m.2) ms
  | _ => []
  end.
Fixpoint strings v : list (list Z) :=
  match v with
  | JStr str => [str]
  | JArr vs => flat_map strings vs
  | JObj ms => flat_map (λ m, m.1 :: strings m.2) ms
  | _ => []
  end.

Variable is_integer : num → bool.
Variables snprintf_integer snprintf_fraction : num → Z * list Z.
Variable num_of : list Z → num.
Variable mode : bool.
Abbreviation prints := (prints is_integer snprintf_integer snprintf_fraction mode).
Abbreviation number_text := (number_text is_integer snprintf_integer snprintf_fraction).

(** The number [x] is printed with all its digits. *)
Definition exact_number (x : num) : Prop := number_token (number_text x) ∧ num_of (number_text x) = x.

Lemma quoted_exists str : valid_utf8 str → ∃ w, quoted mode str w.
Proof. intros (cps & Hcps & ->). eexists. by exists cps. Qed.

Lemma prints_exists v : Forall valid_utf8 (strings v) → ∃ w, prints v w.
Proof.
  induction v as [|b|z|str|vs IH|ms IH] using jv_ind'; cbn [strings]; intros Hs; try (eexists; by constructor).
  - apply Forall_cons in Hs as [Hs _]. destruct (quoted_exists str Hs) as [w Hw]. exists w. by constructor.
  - assert (∃ ws, Forall2 prints vs ws) as [ws Hws]; [|eexists; by constructor]. induction IH as [|v vs Hv Hvs IH]; [by exists []|]. cbn [flat_map] in Hs. apply Forall_app in Hs as [Hs1 Hs2].
    destruct (Hv Hs1) as [w Hw]. destruct (IH Hs2) as [ws Hws]. exists (w :: ws). by constructor.
  - assert (∃ ws, Forall2 (λ m w, ∃ k x, quoted mode m.1 k ∧ prints m.2 x ∧ w = k ++ 58 :: x) ms ws) as [ws Hws]; [|eexists; by constructor].
    induction IH as [|m ms Hm Hms IH]; [by exists []|]. cbn [flat_map] in Hs. rewrite Forall_app, Forall_cons in Hs. destruct Hs as [[Hk Hs1] Hs2].
    destruct (quoted_exists _ Hk) as [k Hkw]. destruct (Hm Hs1) as [w Hw]. destruct (IH Hs2) as [ws Hws]. exists ((k ++ 58 :: w) :: ws). constructor; [|done]. by exists k, w.
Qed.

Lemma quoted_text str w : quoted mode str w → string_text w str.
Proof. intros (cps & Hcps & -> & ->). by apply escape_text. Qed.

Lemma blank_nil : blank [].
Proof. constructor. Qed.

(** What is printed is a text of the value. *)
Lemma prints_text v w : prints v w → Forall exact_number (numbers v) → value_text num_of w v.
Proof.
  revert w. induction v as [|b|z|str|vs IH|ms IH] using jv_ind'; intros w Hp Hn; inversion Hp as [| | | |? ws Hws|? ws Hws]; subst; cbn [numbers] in Hn.
  - constructor.
  - destruct b; constructor.
  - apply Forall_cons in Hn as [[Ht Hx] _]. rewrite <- Hx at 2. by constructor.
  - constructor. by apply quoted_text.
  - destruct Hws as [|v w vs ws Hw Hws]; [apply (vt_empty_array _ []), blank_nil|]. apply vt_array. clear Hp. revert v w Hw IH Hn. induction Hws as [|v' w' vs ws Hw' Hws IHl]; intros v w Hw IH Hn;
      apply Forall_cons in IH as [IHv IH]; cbn [flat_map] in Hn; apply Forall_app in Hn as [Hn1 Hn2].
    + rewrite <- (app_nil_r w : w ++ [] = commas [w]). apply (el_one _ [] w v []); [apply blank_nil|by apply IHv|apply blank_nil].
    + cbn [commas]. apply (el_cons _ [] w v []); [apply blank_nil|by apply IHv|apply blank_nil|]. by apply IHl.
  - destruct Hws as [|m w ms ws Hw Hws]; [apply (vt_empty_object _ []), blank_nil|]. apply vt_object. clear Hp.
    assert (∀ m w, (∃ k x, quoted mode m.1 k ∧ prints m.2 x ∧ w = k ++ 58 :: x) → (∀ w, prints m.2 w → Forall exact_number (numbers m.2) → value_text num_of w m.2) →
      Forall exact_number (numbers m.2) → member_text num_of w m) as Hmem.
    { intros [key v] w0 (k & x & Hk & Hx & ->) IHm Hn0. rewrite <- (app_nil_r x). apply (member _ [] k key [] [] x v []); try apply blank_nil; [by apply quoted_text|by apply IHm]. }
    revert m w Hw IH Hn. induction Hws as [|m' w' ms ws Hw' Hws IHl]; intros m w Hw IH Hn;
      apply Forall_cons in IH as [IHm IH]; cbn [flat_map] in Hn; apply Forall_app in Hn as [Hn1 Hn2].
    + apply me_one. by apply Hmem.
    + cbn [commas]. apply me_cons; [by apply Hmem|]. by apply IHl.
Qed.
End Printing.


(** [json_stringify] fails on an array in which a string follows an object or array that is not empty: the state machine takes
    the string for a key of an object. [json_parse] reads such arrays. *)
Theorem json_stringify_rejects {num : Type} (is_integer : num → bool) (snprintf_integer snprintf_fraction : num → Z * list Z) (mode : bool) :
  (∀ x, let r := if is_integer x then snprintf_integer x else snprintf_fraction x in r.1 = zlen r.2 ∧ r.1 < 512) →
  ∀ h0 h x v str vs, holds h0 h [x] → tree_of (JArr (v :: JStr str :: vs)) x → filled v = true → printable v = true → Forall valid_utf8 (strings v) →
  json_stringify is_integer snprintf_integer snprintf_fraction h mode (Some (addr x)) = Some None.
Proof.
  intros Hfit h0 h x v str vs (Hrep & Hd & _) Hx Hf Hp Hu. unfold addrs_list in Hd. simpl concat in Hd. rewrite app_nil_r in Hd.
  destruct (prints_exists is_integer snprintf_integer snprintf_fraction mode v Hu) as [w Hw]. eapply stringify_rejects; [done|apply Hrep; by left|done..].
Qed.

(** ** Instances *)

Section Instances.
(** A pool that never runs out, and numbers that are their own text. *)
Definition pool (h : gmap nat (json_token (list Z))) : option nat := Some (fresh (dom h)).

Fixpoint number_prefix (l : list Z) : list Z :=
  match l with c :: l' => if number_char c then c :: number_prefix l' else [] | [] => [] end.
Definition read_number (l : list Z) : list Z * Z := (number_prefix l, zlen (number_prefix l)).
Definition write_number (x : list Z) : Z * list Z := (zlen (take 511 x), take 511 x).

Lemma pool_fresh h a : pool h = Some a → h !! a = None.
Proof. intros [= <-]. apply not_elem_of_dom, is_fresh. Qed.

Lemma pool_ok h : is_Some (pool h).
Proof. by eexists. Qed.

Lemma read_number_forward l : 0 <= (read_number l).2.
Proof. apply zlen_nonneg. Qed.

Lemma read_number_reads w rest : number_token w → delimited rest → read_number (w ++ rest) = (id w, zlen w).
Proof.
  intros Hw%number_chars Hr. unfold read_number. assert (number_prefix (w ++ rest) = w) as ->; [|done]. induction Hw as [|c w Hc Hw IH]; simpl.
  - destruct rest as [|c rest]; [done|]. simpl in *. assert (number_char c = false) as ->; [|done]. unfold ends_value, blank_char in Hr. rewrite !orb_true_iff, !Z.eqb_eq in Hr.
    assert (c = 9 ∨ c = 13 ∨ c = 10 ∨ c = 32 ∨ c = 44 ∨ c = 93 ∨ c = 125) as H by tauto. by repeat destruct H as [->|H]; subst.
  - rewrite Hc. by rewrite IH.
Qed.

Lemma write_number_fits x : let r := write_number x in r.1 = zlen r.2 ∧ r.1 < 512.
Proof. simpl. split; [done|]. unfold zlen. rewrite length_take. lia. Qed.
End Instances.


Lemma one_number : number_token (bs "1").
Proof. change (number_token ([] ++ [49] ++ [] ++ [])). apply (number [] [49] [] []); [by left| |by left|by left]. right. split; [|done]. split; [done|]. constructor; [unfold is_digit; lia|constructor]. Qed.

(** [[1, true]] *)
Lemma small_text : json_text id (bs "[1, true]") (JArr [JNum (bs "1"); JBool true]).
Proof.
  exists [], (bs "[1, true]"), []. split_and!; [done|apply blank_nil| |apply blank_nil]. apply (vt_array id (bs "1, true")).
  apply (el_cons id [] (bs "1") (JNum (bs "1")) [] (bs " true") [JBool true]); [apply blank_nil|apply (vt_number id), one_number|apply blank_nil|].
  apply (el_one id (bs " ") (bs "true") (JBool true) []); [by repeat constructor|constructor|apply blank_nil].
Qed.

Lemma json_parse_complete_witness :
  ∃ x h, json_parse pool read_number ∅ (bs "[1, true]") = gives (Some (addr x), h) ∧ tree_of (JArr [JNum (bs "1"); JBool true]) x ∧ holds ∅ h [x].
Proof. exact (json_parse_complete pool read_number id pool_fresh pool_ok read_number_reads ∅ _ _ small_text). Defined.

(** The document of [[[1], "a"]], and of [["a", [1]]]. *)
Definition doc (cells : list (nat * json_token (list Z))) : gmap nat (json_token (list Z)) := list_to_map cells.

Definition bad_tree : jt (list Z) :=
  JT 1 JSON_ARRAY (VInt 0) [JT 2 JSON_ARRAY (VInt 0) [JT 3 JSON_NUMBER (VNum (bs "1")) []]; JT 4 JSON_STRING (VStr (bs "a")) []].
Definition bad_heap : gmap nat (json_token (list Z)) :=
  doc [(1%nat, cell None None JSON_ARRAY (VInt 0) (kids bad_tree));
       (2%nat, cell (Some 1%nat) (Some 4%nat) JSON_ARRAY (VInt 0) [JT 3 JSON_NUMBER (VNum (bs "1")) []]);
       (3%nat, cell (Some 2%nat) None JSON_NUMBER (VNum (bs "1")) []);
       (4%nat, cell (Some 1%nat) None JSON_STRING (VStr (bs "a")) [])].
Definition good_tree : jt (list Z) :=
  JT 1 JSON_ARRAY (VInt 0) [JT 2 JSON_STRING (VStr (bs "a")) []; JT 3 JSON_ARRAY (VInt 0) [JT 4 JSON_NUMBER (VNum (bs "1")) []]].
Definition good_heap : gmap nat (json_token (list Z)) :=
  doc [(1%nat, cell None None JSON_ARRAY (VInt 0) (kids good_tree));
       (2%nat, cell (Some 1%nat) (Some 3%nat) JSON_STRING (VStr (bs "a")) []);
       (3%nat, cell (Some 1%nat) None JSON_ARRAY (VInt 0) [JT 4 JSON_NUMBER (VNum (bs "1")) []]);
       (4%nat, cell (Some 3%nat) None JSON_NUMBER (VNum (bs "1")) [])].

Lemma bad_holds : holds ∅ bad_heap [bad_tree].
Proof.
  split_and!; [|by apply (bool_decide_unpack _); vm_compute|by apply (bool_decide_unpack _); vm_compute|intros b Hb; by apply elem_of_dom in Hb as [? ?]].
  intros x ->%list_elem_of_singleton. repeat (split; try reflexivity).
Qed.

Lemma good_holds : holds ∅ good_heap [good_tree].
Proof.
  split_and!; [|by apply (bool_decide_unpack _); vm_compute|by apply (bool_decide_unpack _); vm_compute|intros b Hb; by apply elem_of_dom in Hb as [? ?]].
  intros x ->%list_elem_of_singleton. repeat (split; try reflexivity).
Qed.

Lemma letter_utf8 : valid_utf8 (bs "a").
Proof. exists [97]. split; [|done]. constructor; [unfold scalar; lia|constructor]. Qed.


Lemma json_stringify_rejects_witness :
  json_stringify (λ _, true) write_number write_number bad_heap false (Some 1%nat) = Some None.
Proof.
  apply (json_stringify_rejects (λ _, true) write_number write_number false write_number_fits ∅ bad_heap bad_tree (JArr [JNum (bs "1")]) (bs "a") []).
  - exact bad_holds.
  - repeat constructor.
  - reflexivity.
  - reflexivity.
  - constructor.
Defined.

(** Texts that are not JSON are read without an error: an object closed by the bracket of the array around it, the literal
    [fals] with any fifth byte, two values in a row, of which the second is not in the document but keeps its token. *)
Theorem json_parse_lenient :
  (∃ h, json_parse pool read_number ∅ (bs "[{]") = gives (Some 0%nat, h) ∧ holds ∅ h [JT 0 JSON_ARRAY (VInt 0) [JT 1 JSON_OBJECT (VInt 0) []]]) ∧
  (∃ h, json_parse pool read_number ∅ (bs "[falsX]") = gives (Some 0%nat, h) ∧ holds ∅ h [JT 0 JSON_ARRAY (VInt 0) [JT 1 JSON_BOOL (VInt 0) []]]) ∧
  (∃ h, json_parse pool read_number ∅ (bs "1 2") = gives (Some 0%nat, h) ∧
     holds ∅ h [JT 0 JSON_NUMBER (VNum (bs "1")) []; JT 1 JSON_NUMBER (VNum (bs "2")) []]).
Proof.
  split_and!; (eexists; split; [vm_compute; reflexivity|]);
    (split_and!; [intros x Hx; repeat (apply elem_of_cons in Hx as [->|Hx]; [repeat (split; try reflexivity)|]); by apply elem_of_nil in Hx
      |by apply (bool_decide_unpack _); vm_compute|by apply (bool_decide_unpack _); vm_compute|intros b Hb; by apply elem_of_dom in Hb as [? ?]]).
Qed.
