(* ===== verification/JsonPool.v ===== *)
(** The pool of tokens of [misc/json.c]: blocks of slots with a free list threaded through the free slots.

    The first word of a slot is the [block] of the token in it, or the link [next_free] when it is free: both fields are
    at offset 0 of the union [free_slot_t], and the model keeps the one word. A pointer is NULL, the address of a block or the address
    of a slot. The other fields of the tokens are in [Json]. [new_block] gives the address of a new block, or [None] when there is no memory. The theorems follow the operations: the pool is the set of slots in use. *)

From stdpp Require Export gmap.
From S2P Require Import Prelude.

Inductive ptr : Set := PNull | PBlock (b : nat) | PSlot (b i : nat).

#[export] Instance ptr_eq_dec : EqDecision ptr.
Proof. solve_decision. Defined.

Record memory_block : Set := MBlock {
  mb_memory : list ptr;
  mb_free_list : ptr;
  mb_capacity : Z;
  mb_used_count : Z;
  mb_next : ptr }.

Record json_manager : Set := Manager { token_blocks : ptr; current_block : ptr }.

(** The heap of blocks and the two variables of the thread. *)
Record pool : Set := Pool {
  blocks : gmap nat memory_block;
  manager : option json_manager;
  free_blocks_counter : Z }.

Abbreviation slot := (nat * nat)%type.

Definition TOKENS_PER_BLOCK : Z := 4096.

Section Pool.
Variable new_block : gmap nat memory_block → option nat.
Variable new_manager : bool.
Implicit Types (bl : gmap nat memory_block) (k : memory_block) (pl : pool) (p : ptr) (b i : nat).

(** A block through a pointer; the address of a slot is not a block. *)
Definition block_at bl p : option memory_block := match p with PBlock b => bl !! b | _ => None end.

Definition word bl (s : slot) : option ptr := k ← bl !! s.1; mb_memory k !! s.2.
Definition set_word (w : ptr) i k : memory_block :=
  MBlock (<[i := w]> (mb_memory k)) (mb_free_list k) (mb_capacity k) (mb_used_count k) (mb_next k).
Definition write_word bl (s : slot) (w : ptr) : option (gmap nat memory_block) :=
  k ← bl !! s.1; _ ← mb_memory k !! s.2; Some (<[s.1 := set_word w s.2 k]> bl).

Definition set_free (p : ptr) (used : Z) k : memory_block := MBlock (mb_memory k) p (mb_capacity k) used (mb_next k).
Definition set_next (p : ptr) k : memory_block := MBlock (mb_memory k) (mb_free_list k) (mb_capacity k) (mb_used_count k) p.

Definition memory_block_is_empty bl p : option bool :=
  match p with PNull => Some false | _ => k ← block_at bl p; Some (mb_used_count k =? 0) end.
Definition memory_block_is_full bl p : option bool :=
  match p with PNull => Some false | _ => k ← block_at bl p; Some (mb_used_count k =? mb_capacity k) end.

(** The slots of a new block, each linked to the next one. *)
Definition new_words b (n : nat) : list ptr := (λ i, if (S i <? n)%nat then PSlot b (S i) else PNull) <$> seq 0 n.

Definition memory_block_create bl (capacity : Z) : option (nat * gmap nat memory_block) :=
  b ← new_block bl;
  Some (b, <[b := MBlock (new_words b (Z.to_nat capacity)) (PSlot b 0) capacity 0 PNull]> bl).

Definition memory_block_destroy bl p : option (gmap nat memory_block) :=
  match p with PNull => Some bl | _ => _ ← block_at bl p; match p with PBlock b => Some (delete b bl) | _ => None end end.

(** The slot taken from the block; the inner [None] is the code's 0. *)
Definition memory_block_alloc_slot bl p : option (option (nat * gmap nat memory_block)) :=
  match p with
  | PNull => Some None
  | _ =>
      k ← block_at bl p;
      match mb_free_list k, p with
      | PNull, _ => Some None
      | PSlot b' i, PBlock b =>
          next_free ← word bl (b', i);
          if bool_decide (b' = b)
          then Some (Some (i, <[b := set_free next_free (wrap64 (mb_used_count k + 1)) k]> bl))
          else None
      | _, _ => None
      end
  end.

Definition memory_block_free_slot bl p (s : slot) : option (gmap nat memory_block) :=
  match p with
  | PNull => Some bl
  | _ =>
      k ← block_at bl p;
      bl ← write_word bl s (mb_free_list k);
      match p with
      | PBlock b => k ← bl !! b; Some (<[b := set_free (PSlot s.1 s.2) (wrap64 (mb_used_count k - 1)) k]> bl)
      | _ => None
      end
  end.

(** ** The manager *)

Definition json_manager_init : json_manager := Manager PNull PNull.

Definition json_manager_create pl : option pool :=
  match manager pl with
  | Some _ => Some pl
  | None => if new_manager then Some (Pool (blocks pl) (Some json_manager_init) (free_blocks_counter pl)) else None
  end.

(** The search for a block with a free slot. *)
Fixpoint find_slot (fuel : nat) bl p : option (option (nat * nat * gmap nat memory_block)) :=
  match fuel with
  | O => None
  | S f =>
      match p with
      | PNull => Some None
      | PSlot _ _ => None
      | PBlock b =>
          full ← memory_block_is_full bl p;
          r ← (if (full : bool) then Some None else memory_block_alloc_slot bl p);
          match r with
          | Some (i, bl) => Some (Some (b, i, bl))
          | None => k ← bl !! b; find_slot f bl (mb_next k)
          end
      end
  end.

(** The cached block first: a slot of it, if it is not full. *)
Definition cached_slot bl p : option (option (nat * nat * gmap nat memory_block)) :=
  match p with
  | PNull => Some None
  | _ =>
      full ← memory_block_is_full bl p;
      if (full : bool) then Some None
      else r ← memory_block_alloc_slot bl p;
           match p, r with PBlock b, Some (i, bl) => Some (Some (b, i, bl)) | _, _ => Some None end
  end.

(** The slot of a new token, with its [block] set; no slot is NULL. *)
Definition json_token_alloc pl : option (option slot * pool) :=
  match json_manager_create pl with
  | None => Some (None, pl)
  | Some pl =>
      mg ← manager pl;
      let found mg b i bl := bl ← write_word bl (b, i) (PBlock b); Some (Some (b, i), Pool bl (Some mg) (free_blocks_counter pl)) in
      cached ← cached_slot (blocks pl) (current_block mg);
      match cached with
      | Some (b, i, bl) => found mg b i bl
      | None =>
          r ← find_slot (S (size (blocks pl))) (blocks pl) (token_blocks mg);
          match r with
          | Some (b, i, bl) => found (Manager (token_blocks mg) (PBlock b)) b i bl
          | None =>
              match memory_block_create (blocks pl) TOKENS_PER_BLOCK with
              | None => Some (None, pl)
              | Some (b, bl) =>
                  k ← bl !! b;
                  let bl := <[b := set_next (token_blocks mg) k]> bl in
                  let mg := Manager (PBlock b) (PBlock b) in
                  r ← memory_block_alloc_slot bl (PBlock b);
                  match r with
                  | Some (i, bl) => found mg b i bl
                  | None => Some (None, Pool bl (Some mg) (free_blocks_counter pl))
                  end
              end
          end
      end
  end.

(** The loop of [json_manager_destroy_empty_blocks]. *)
Fixpoint destroy_empty (fuel : nat) bl (mg : json_manager) (current prev : ptr) : option (gmap nat memory_block * json_manager) :=
  match fuel with
  | O => None
  | S f =>
      match current with
      | PNull => Some (bl, mg)
      | _ =>
          k ← block_at bl current;
          let next := mb_next k in
          empty ← memory_block_is_empty bl current;
          if (empty : bool) then
            '(bl, mg) ← (match prev with
                         | PNull => Some (bl, Manager next (current_block mg))
                         | PBlock q => kq ← bl !! q; Some (<[q := set_next next kq]> bl, mg)
                         | PSlot _ _ => None
                         end);
            let mg := if bool_decide (current_block mg = current) then Manager (token_blocks mg) PNull else mg in
            bl ← memory_block_destroy bl current;
            destroy_empty f bl mg next prev
          else destroy_empty f bl mg next current
      end
  end.

Definition json_manager_destroy_empty_blocks pl : option pool :=
  match manager pl with
  | None => Some pl
  | Some mg =>
      let counter := free_blocks_counter pl + 1 in
      if counter <? 1000 then Some (Pool (blocks pl) (Some mg) counter)
      else
        '(bl, mg) ← destroy_empty (S (size (blocks pl))) (blocks pl) mg (token_blocks mg) PNull;
        Some (Pool bl (Some mg) 0)
  end.

(** [json_token_free]: the [block] of the token is read again after its slot has been linked into the free list. *)
Definition json_token_free pl (s : slot) : option pool :=
  match manager pl with
  | None => Some pl
  | Some mg =>
      w ← word (blocks pl) s;
      match w with
      | PNull => Some pl
      | _ =>
          bl ← memory_block_free_slot (blocks pl) w s;
          w ← word bl s;
          full ← memory_block_is_full bl w;
          let mg := if (full : bool) then mg else Manager (token_blocks mg) w in
          json_manager_destroy_empty_blocks (Pool bl (Some mg) (free_blocks_counter pl))
      end
  end.

(** What [__free_token_tree] does for each token: the [block] is kept, cleared in the token, and the slot is freed. *)
Definition free_token pl (s : slot) : option pool :=
  w ← word (blocks pl) s;
  bl ← write_word (blocks pl) s PNull;
  bl ← memory_block_free_slot bl w s;
  Some (Pool bl (manager pl) (free_blocks_counter pl)).

(** All the blocks. *)
Fixpoint destroy_all (fuel : nat) bl (current : ptr) : option (gmap nat memory_block) :=
  match fuel with
  | O => None
  | S f =>
      match current with
      | PNull => Some bl
      | _ => k ← block_at bl current; bl ← memory_block_destroy bl current; destroy_all f bl (mb_next k)
      end
  end.

Definition json_manager_free pl : option pool :=
  match manager pl with
  | None => Some pl
  | Some mg => bl ← destroy_all (S (size (blocks pl))) (blocks pl) (token_blocks mg); Some (Pool bl None (free_blocks_counter pl))
  end.
End Pool.

(** The pool of tokens refines the set of slots in use: whatever is allocated and freed, a new token gets a slot that is
    not in use. [json_token_free] is not part of that: it takes a link of the free list for a block. *)

#[local] Open Scope Z_scope.

Section PoolTheorems.
Implicit Types (bl : gmap nat memory_block) (k : memory_block) (pl : pool) (p : ptr) (b i : nat) (U : gset slot) (l : list nat).

(** ** Well-formed blocks *)

(** From [p] the free slots [l] of the block [b]. *)
Fixpoint free_slots (m : list ptr) b p l : Prop :=
  match l with
  | [] => p = PNull
  | i :: l' => p = PSlot b i ∧ ∃ w, m !! i = Some w ∧ free_slots m b w l'
  end.

Record block_ok b k l : Prop := {
  bo_free : free_slots (mb_memory k) b (mb_free_list k) l;
  bo_nodup : NoDup l;
  bo_used : mb_used_count k = zlen (mb_memory k) - zlen l;
  bo_capacity : mb_capacity k = zlen (mb_memory k) ∧ zlen (mb_memory k) < 2 ^ 64;
  bo_tokens i w : mb_memory k !! i = Some w → (i ∉ l) → w = PBlock b }.

Lemma free_slots_lt m b p l i : free_slots m b p l → i ∈ l → (i < length m)%nat.
Proof.
  revert p. induction l as [|j l IH]; intros p Hl Hi; [by apply elem_of_nil in Hi|]. destruct Hl as (_ & w & Hw & Hl). apply elem_of_cons in Hi as [->|Hi]; [by apply lookup_lt_Some in Hw|by eapply IH].
Qed.

Lemma free_slots_set m b p l i w : (i ∉ l) → free_slots m b p l → free_slots (<[i := w]> m) b p l.
Proof.
  revert p. induction l as [|j l IH]; intros p Hi Hl; [done|]. apply not_elem_of_cons in Hi as [Hij Hi]. destruct Hl as (-> & w' & Hw & Hl). split; [done|].
  exists w'. split; [by rewrite list_lookup_insert_ne by done|by apply IH].
Qed.

Lemma free_slots_length m b p l : NoDup l → free_slots m b p l → zlen l <= zlen m.
Proof.
  intros Hd Hl. unfold zlen. apply inj_le. rewrite <- (length_seq (length m) 0). apply submseteq_length, NoDup_submseteq; [done|].
  intros i Hi. apply elem_of_seq. apply (free_slots_lt _ _ _ _ _ Hl) in Hi. lia.
Qed.

(** ** Slots taken and given back *)

Lemma alloc_slot_ok bl b k l : bl !! b = Some k → block_ok b k l →
  match l with
  | [] => memory_block_alloc_slot bl (PBlock b) = Some None
  | i :: l' => ∃ w, memory_block_alloc_slot bl (PBlock b) = Some (Some (i, <[b := set_free w (mb_used_count k + 1) k]> bl)) ∧
      ∃ bl', write_word (<[b := set_free w (mb_used_count k + 1) k]> bl) (b, i) (PBlock b) = Some bl' ∧
      ∃ k', bl' = <[b := k']> bl ∧ block_ok b k' l' ∧ mb_next k' = mb_next k ∧ length (mb_memory k') = length (mb_memory k)
  end.
Proof.
  intros Hb [Hf Hd Hu [Hc Hc'] Ht]. unfold memory_block_alloc_slot. cbn [block_at]. rewrite Hb. cbn [mbind option_bind]. destruct l as [|i l]; [simpl in Hf; by rewrite Hf|].
  pose proof (free_slots_length _ _ _ _ Hd Hf) as Hlen. destruct Hf as (Hf & w & Hw & Hl). apply NoDup_cons in Hd as [Hi Hd]. rewrite zlen_cons in *. pose proof (zlen_nonneg l).
  rewrite Hf. unfold word. cbn [fst snd]. rewrite Hb. cbn [mbind option_bind]. rewrite Hw. cbn [mbind option_bind]. rewrite bool_decide_true by done.
  assert (wrap64 (mb_used_count k + 1) = mb_used_count k + 1) as -> by (unfold wrap64; apply Z.mod_small; lia). exists w. split; [done|].
  unfold write_word. cbn [fst snd]. rewrite lookup_insert_eq. cbn [mbind option_bind set_free mb_memory]. rewrite Hw. cbn [mbind option_bind]. eexists. split; [done|].
  rewrite insert_insert_eq. eexists. split; [done|]. split_and!; [|done|simpl; by rewrite length_insert].
  split; cbn [set_word set_free mb_memory mb_free_list mb_capacity mb_used_count].
  - by apply free_slots_set.
  - done.
  - unfold zlen in *. rewrite length_insert. lia.
  - unfold zlen in *. by rewrite length_insert.
  - intros j w' Hj Hnj. destruct (decide (j = i)) as [->|Hne].
    + rewrite list_lookup_insert_eq in Hj by (by eapply lookup_lt_Some). congruence.
    + rewrite list_lookup_insert_ne in Hj by done. apply (Ht j w' Hj). by apply not_elem_of_cons.
Qed.

Lemma free_slot_ok bl b k l i w0 : bl !! b = Some k → block_ok b k l → (i < length (mb_memory k))%nat → (i ∉ l) →
  ∃ k', memory_block_free_slot (<[b := set_word w0 i k]> bl) (PBlock b) (b, i) = Some (<[b := k']> bl) ∧ block_ok b k' (i :: l) ∧ mb_next k' = mb_next k ∧
    length (mb_memory k') = length (mb_memory k) ∧ mb_memory k' !! i = Some (mb_free_list k).
Proof.
  intros Hb [Hf Hd Hu [Hc Hc'] Ht] Hi Hil. unfold memory_block_free_slot. cbn [block_at]. rewrite lookup_insert_eq. cbn [mbind option_bind set_word mb_free_list].
  unfold write_word. cbn [fst snd]. rewrite lookup_insert_eq. cbn [mbind option_bind set_word mb_memory]. rewrite list_lookup_insert_eq by done. cbn [mbind option_bind].
  rewrite lookup_insert_eq. cbn [mbind option_bind set_word mb_used_count]. rewrite !insert_insert_eq. eexists. split; [done|].
  assert (∀ j, j ∈ i :: l → (j < length (mb_memory k))%nat) as Hlt.
  { intros j [->|Hj]%elem_of_cons; [done|by eapply free_slots_lt]. }
  assert (zlen (i :: l) <= zlen (mb_memory k)) as Hlen.
  { unfold zlen. apply inj_le. rewrite <- (length_seq (length (mb_memory k)) 0). apply submseteq_length, NoDup_submseteq; [by constructor|]. intros j Hj. apply elem_of_seq. specialize (Hlt j Hj). lia. }
  rewrite zlen_cons in Hlen. pose proof (zlen_nonneg l).
  split_and!; cbn [set_free set_word mb_memory mb_next]; [|done|by rewrite !length_insert|by rewrite list_lookup_insert_eq by (by rewrite length_insert)].
  unfold set_word. cbn [mb_memory mb_free_list mb_capacity mb_used_count mb_next]. rewrite list_insert_insert_eq. split; cbn [set_word set_free mb_memory mb_free_list mb_capacity mb_used_count].
  - split; [done|]. exists (mb_free_list k). rewrite list_lookup_insert_eq by done. split; [done|]. by apply free_slots_set.
  - by constructor.
  - rewrite zlen_cons. unfold zlen in *. rewrite length_insert. unfold wrap64. rewrite Z.mod_small; lia.
  - unfold zlen in *. by rewrite length_insert.
  - intros j w Hj [Hji Hjl]%not_elem_of_cons. rewrite list_lookup_insert_ne in Hj by done. by apply (Ht j).
Qed.

Lemma new_block_ok b n next : (0 < n)%nat → Z.of_nat n < 2 ^ 64 →
  block_ok b (MBlock (new_words b n) (PSlot b 0) (Z.of_nat n) 0 next) (seq 0 n).
Proof.
  intros H0 Hn. assert (length (new_words b n) = n) as Hlen by (unfold new_words; by rewrite length_fmap, length_seq).
  split; cbn [mb_memory mb_free_list mb_capacity mb_used_count].
  - assert (∀ m j, (j + m = n)%nat → free_slots (new_words b n) b (if (j <? n)%nat then PSlot b j else PNull) (seq j m)) as H.
    { induction m as [|m IH]; intros j Hj; simpl.
      - destruct (Nat.ltb_spec j n); [lia|done].
      - destruct (Nat.ltb_spec j n); [|lia]. split; [done|]. eexists. split; [|apply (IH (S j)); lia]. unfold new_words. rewrite list_lookup_fmap, lookup_seq_lt by lia. done. }
    specialize (H n 0%nat eq_refl). by rewrite (proj2 (Nat.ltb_lt 0 n)) in H.
  - apply NoDup_seq.
  - unfold zlen. rewrite Hlen, length_seq. lia.
  - unfold zlen. by rewrite Hlen.
  - intros i w Hi Hni. exfalso. apply Hni, elem_of_seq. apply lookup_lt_Some in Hi. rewrite Hlen in Hi. lia.
Qed.

(** ** The whole pool *)

(** The blocks [bs] from [p] on. *)
Fixpoint block_list bl p (bs : list nat) : Prop :=
  match bs with
  | [] => p = PNull
  | b :: bs' => p = PBlock b ∧ ∃ k, bl !! b = Some k ∧ block_list bl (mb_next k) bs'
  end.

(** The slots [U] are in use. *)
Record pool_inv bl (mg : json_manager) U : Prop := {
  pi_list : ∃ bs, block_list bl (token_blocks mg) bs ∧ NoDup bs ∧ ∀ b, is_Some (bl !! b) ↔ b ∈ bs;
  pi_current : current_block mg = PNull ∨ ∃ b, current_block mg = PBlock b ∧ is_Some (bl !! b);
  pi_blocks b k : bl !! b = Some k → ∃ l, block_ok b k l ∧ ∀ i, (b, i) ∈ U ↔ (i < length (mb_memory k))%nat ∧ i ∉ l;
  pi_used s : s ∈ U → is_Some (bl !! s.1) }.

Definition pool_ok pl U : Prop := match manager pl with Some mg => pool_inv (blocks pl) mg U | None => blocks pl = ∅ ∧ U = ∅ end.

Lemma block_list_set bl p bs b k k' : bl !! b = Some k → mb_next k' = mb_next k → block_list bl p bs → block_list (<[b := k']> bl) p bs.
Proof.
  intros Hb Hn. revert p. induction bs as [|c bs IH]; intros p Hl; [done|]. destruct Hl as (-> & kc & Hc & Hl). split; [done|].
  destruct (decide (c = b)) as [->|Hne]; [|exists kc; rewrite lookup_insert_ne by done; auto].
  exists k'. rewrite lookup_insert_eq. split; [done|]. rewrite Hn. rewrite Hb in Hc. injection Hc as ->. by apply IH.
Qed.

(** A block replaced by another one with the same link. *)
Lemma pool_inv_set bl mg U U' b k k' l : pool_inv bl mg U → bl !! b = Some k → mb_next k' = mb_next k → block_ok b k' l →
  (∀ i, (b, i) ∈ U' ↔ (i < length (mb_memory k'))%nat ∧ i ∉ l) → (∀ c i, c ≠ b → (c, i) ∈ U' ↔ (c, i) ∈ U) → pool_inv (<[b := k']> bl) mg U'.
Proof.
  intros [(bs & Hbs & Hd & Hdom) Hc Hk Hu] Hb Hn Hok HU HU'. assert (∀ c, is_Some (<[b := k']> bl !! c) ↔ is_Some (bl !! c)) as Hsome.
  { intros c. destruct (decide (c = b)) as [->|Hne]; [rewrite lookup_insert_eq, Hb; split; by eexists|by rewrite lookup_insert_ne]. }
  split.
  - exists bs. split_and!; [by eapply block_list_set|done|]. intros c. by rewrite Hsome.
  - destruct Hc as [Hc|(c & Hc & Hs)]; [by left|right]. exists c. split; [done|]. by apply Hsome.
  - intros c kc Hkc. destruct (decide (c = b)) as [->|Hne].
    + rewrite lookup_insert_eq in Hkc. injection Hkc as <-. by exists l.
    + rewrite lookup_insert_ne in Hkc by done. destruct (Hk c kc Hkc) as (lc & Hokc & HUc). exists lc. split; [done|]. intros i. by rewrite HU'.
  - intros [c i] Hs. apply Hsome. cbn [fst]. destruct (decide (c = b)) as [->|Hne]; [rewrite Hb; by eexists|]. apply (Hu (c, i)). by apply HU'.
Qed.

Lemma pool_inv_current bl mg U b : pool_inv bl mg U → is_Some (bl !! b) → pool_inv bl (Manager (token_blocks mg) (PBlock b)) U.
Proof. intros [Hl Hc Hk Hu] Hb. split; [done| |done|done]. right. by exists b. Qed.

(** ** Allocation *)

(** A slot taken from the block [b] is a new one. *)
Lemma take_ok bl mg U b i bl1 : pool_inv bl mg U → memory_block_alloc_slot bl (PBlock b) = Some (Some (i, bl1)) →
  (b, i) ∉ U ∧ is_Some (bl !! b) ∧ ∃ bl', write_word bl1 (b, i) (PBlock b) = Some bl' ∧ pool_inv bl' mg ({[(b, i)]} ∪ U) ∧ is_Some (bl' !! b).
Proof.
  intros HI Ha. destruct (bl !! b) as [k|] eqn:Hb; [|unfold memory_block_alloc_slot in Ha; simpl in Ha; by rewrite Hb in Ha].
  destruct (pi_blocks _ _ _ HI b k Hb) as (l & Hok & HU). pose proof (alloc_slot_ok bl b k l Hb Hok) as Hal. destruct l as [|j l]; [congruence|].
  destruct Hal as (w & Hal & bl' & Hw & k' & -> & Hok' & Hn & Hlen). rewrite Hal in Ha. injection Ha as -> <-.
  assert (i < length (mb_memory k))%nat as Hi by (eapply free_slots_lt; [apply Hok|by left]). pose proof (bo_nodup _ _ _ Hok) as [Hil Hd]%NoDup_cons.
  split; [|split; [by eexists|]]; [rewrite HU; intros [_ Hni]; apply Hni; by left|]. eexists. split; [done|]. split; [|rewrite lookup_insert_eq; by eexists].
  eapply (pool_inv_set bl mg U); [done|done|done|done| |].
  - intros m. rewrite elem_of_union, elem_of_singleton, HU, Hlen, not_elem_of_cons. split.
    + intros [[= ->]|(Hm & _ & Hml)]; auto.
    + intros [Hm Hml]. destruct (decide (m = i)) as [->|Hne]; [by left|by right].
  - intros c m Hne. rewrite elem_of_union, elem_of_singleton. split; [|by right]. by intros [[= -> ->]|?].
Qed.

Lemma is_full_ok bl mg U b k : pool_inv bl mg U → bl !! b = Some k → ∃ full, memory_block_is_full bl (PBlock b) = Some full ∧
  (full = false → ∃ i bl1, memory_block_alloc_slot bl (PBlock b) = Some (Some (i, bl1))).
Proof.
  intros HI Hb. unfold memory_block_is_full. cbn [block_at]. rewrite Hb. cbn [mbind option_bind]. eexists. split; [done|]. intros Hf. apply Z.eqb_neq in Hf.
  destruct (pi_blocks _ _ _ HI b k Hb) as (l & Hok & _). pose proof (alloc_slot_ok bl b k l Hb Hok) as Hal. destruct l as [|i l].
  - exfalso. apply Hf. destruct Hok as [_ _ Hu [Hc _] _]. rewrite zlen_nil in Hu. lia.
  - destruct Hal as (w & Hal & _). by eexists _, _.
Qed.

Lemma cached_ok bl mg U : pool_inv bl mg U → ∃ r, cached_slot bl (current_block mg) = Some r ∧
  ∀ b i bl1, r = Some (b, i, bl1) → memory_block_alloc_slot bl (PBlock b) = Some (Some (i, bl1)).
Proof.
  intros HI. unfold cached_slot. destruct (pi_current _ _ _ HI) as [->|(b & -> & [k Hk])]; [by exists None|]. destruct (is_full_ok bl mg U b k HI Hk) as (full & -> & Hfull). cbn [mbind option_bind].
  destruct full; [by exists None|]. destruct (Hfull eq_refl) as (i & bl1 & Ha). rewrite Ha. cbn [mbind option_bind]. eexists. split; [done|]. by intros ? ? ? [= <- <- <-].
Qed.

Lemma find_slot_ok bl mg U p bs fuel : pool_inv bl mg U → block_list bl p bs → (length bs < fuel)%nat → ∃ r, find_slot fuel bl p = Some r ∧
  ∀ b i bl1, r = Some (b, i, bl1) → memory_block_alloc_slot bl (PBlock b) = Some (Some (i, bl1)).
Proof.
  intros HI. revert p bs. induction fuel as [|fuel IH]; intros p bs Hl Hf; [lia|]. destruct bs as [|b bs]; [simpl in Hl; subst; by exists None|]. destruct Hl as (-> & k & Hk & Hl).
  cbn [find_slot]. destruct (is_full_ok bl mg U b k HI Hk) as (full & -> & Hfull). cbn [mbind option_bind]. destruct full.
  - cbn [mbind option_bind]. rewrite Hk. cbn [mbind option_bind]. apply (IH _ bs Hl). simpl in Hf. lia.
  - destruct (Hfull eq_refl) as (i & bl1 & Ha). rewrite Ha. cbn [mbind option_bind]. eexists. split; [done|]. by intros ? ? ? [= <- <- <-].
Qed.

(** A new block at the head of the list. *)
Lemma create_ok bl mg U b k : pool_inv bl mg U → bl !! b = None → mb_next k = token_blocks mg → (∃ l, block_ok b k l ∧ ∀ i, (i < length (mb_memory k))%nat → i ∈ l) →
  pool_inv (<[b := k]> bl) (Manager (PBlock b) (PBlock b)) U.
Proof.
  intros [(bs & Hbs & Hd & Hdom) Hc Hk Hu] Hb Hn (l & Hok & Hall). assert (b ∉ bs) as Hbbs by (rewrite <- Hdom, Hb; by intros [? ?]). split.
  - exists (b :: bs). split_and!.
    + split; [done|]. exists k. rewrite lookup_insert_eq. split; [done|]. rewrite Hn. clear Hdom Hd Hn. revert Hbs. generalize (token_blocks mg). induction bs as [|c bs IH]; intros p Hl; [done|].
      apply not_elem_of_cons in Hbbs as [Hbc Hbbs]. destruct Hl as (-> & kc & Hkc & Hl). split; [done|]. exists kc. rewrite lookup_insert_ne by done. auto.
    + by constructor.
    + intros c. rewrite elem_of_cons. destruct (decide (c = b)) as [->|Hne]; [rewrite lookup_insert_eq; split; [by left|by eexists]|]. rewrite lookup_insert_ne, Hdom by done. naive_solver.
  - right. exists b. split; [done|]. rewrite lookup_insert_eq. by eexists.
  - intros c kc Hkc. destruct (decide (c = b)) as [->|Hne]; [|rewrite lookup_insert_ne in Hkc by done; by apply Hk]. rewrite lookup_insert_eq in Hkc. injection Hkc as <-. exists l. split; [done|].
    intros i. split; [intros Hi; apply Hu in Hi; simpl in Hi; rewrite Hb in Hi; by destruct Hi|]. intros [Hi Hni]. by apply Hall in Hi.
  - intros s Hs. apply Hu in Hs. destruct (decide (s.1 = b)) as [E|Hne]; [rewrite E in Hs; rewrite Hb in Hs; by destruct Hs|]. by rewrite lookup_insert_ne.
Qed.

Lemma block_list_size bl bs : NoDup bs → (∀ b, is_Some (bl !! b) ↔ b ∈ bs) → length bs = size bl.
Proof.
  intros Hd Hb. rewrite <- (size_list_to_set (C:=gset nat) bs Hd), <- size_dom. f_equal. apply set_eq. intros b. by rewrite elem_of_list_to_set, elem_of_dom, Hb.
Qed.

(** ** Freeing *)

Lemma word_used pl mg U s : pool_inv (blocks pl) mg U → s ∈ U → ∃ k l, blocks pl !! s.1 = Some k ∧ block_ok s.1 k l ∧ (s.2 < length (mb_memory k))%nat ∧ (s.2 ∉ l) ∧
  (∀ i, (s.1, i) ∈ U ↔ (i < length (mb_memory k))%nat ∧ i ∉ l) ∧ word (blocks pl) s = Some (PBlock s.1).
Proof.
  intros HI Hs. destruct s as [b i]. destruct (pi_used _ _ _ HI _ Hs) as [k Hk]. cbn [fst snd] in *. destruct (pi_blocks _ _ _ HI b k Hk) as (l & Hok & HU). exists k, l.
  pose proof (proj1 (HU i) Hs) as [Hi Hil]. split_and!; try done. unfold word. cbn [fst snd]. rewrite Hk. cbn [mbind option_bind]. destruct (lookup_lt_is_Some_2 _ _ Hi) as [w Hw]. rewrite Hw. f_equal. by apply (bo_tokens _ _ _ Hok i).
Qed.

Lemma pool_inv_free bl mg U b k k' l i : pool_inv bl mg U → bl !! b = Some k → (∀ j, (b, j) ∈ U ↔ (j < length (mb_memory k))%nat ∧ j ∉ l) →
  block_ok b k' (i :: l) → mb_next k' = mb_next k → length (mb_memory k') = length (mb_memory k) → pool_inv (<[b := k']> bl) mg (U ∖ {[(b, i)]}).
Proof.
  intros HI Hb HU Hok Hn Hlen. eapply (pool_inv_set bl mg U); [done|done|done|done| |].
  - intros j. rewrite elem_of_difference, elem_of_singleton, HU, Hlen, not_elem_of_cons. split; [intros [[? ?] ?]; split_and!; [done|congruence|done]|intros (? & ? & ?); split; [done|congruence]].
  - intros c j Hne. rewrite elem_of_difference, elem_of_singleton. split; [tauto|]. intros H. split; [done|congruence].
Qed.

Lemma free_token_ok pl U s : pool_ok pl U → s ∈ U → ∃ pl', free_token pl s = Some pl' ∧ pool_ok pl' (U ∖ {[s]}).
Proof.
  unfold pool_ok at 1. destruct (manager pl) as [mg|] eqn:Em; [|intros [_ ->] Hs; set_solver]. intros HI Hs. destruct (word_used pl mg U s HI Hs) as (k & l & Hk & Hok & Hi & Hil & HU & Hw).
  destruct s as [b i]. cbn [fst snd] in *. unfold free_token. rewrite Hw. cbn [mbind option_bind]. unfold write_word. cbn [fst snd]. rewrite Hk. cbn [mbind option_bind].
  destruct (lookup_lt_is_Some_2 _ _ Hi) as [w ->]. cbn [mbind option_bind]. destruct (free_slot_ok (blocks pl) b k l i PNull Hk Hok Hi Hil) as (k' & -> & Hok' & Hn & Hlen & _).
  cbn [mbind option_bind]. eexists. split; [done|]. unfold pool_ok. cbn [manager blocks]. rewrite Em. by eapply pool_inv_free.
Qed.

(** ** Empty blocks *)

Lemma block_list_frame bl bl' p bs : (∀ c, c ∈ bs → bl' !! c = bl !! c) → block_list bl p bs → block_list bl' p bs.
Proof.
  revert p. induction bs as [|c bs IH]; intros p Hf Hl; [done|]. destruct Hl as (-> & k & Hk & Hl). split; [done|]. exists k. rewrite Hf by (by left). split; [done|]. apply IH; [|done]. intros d Hd. apply Hf. by right.
Qed.

(** The block [b] after [q] unlinked and freed. *)
Lemma block_list_unlink bl p bs q b rest kq kb : NoDup (bs ++ q :: b :: rest) → bl !! q = Some kq → bl !! b = Some kb →
  block_list bl p (bs ++ q :: b :: rest) → block_list (delete b (<[q := set_next (mb_next kb) kq]> bl)) p (bs ++ q :: rest).
Proof.
  revert p. induction bs as [|c bs IH]; intros p Hd Hq Hb Hl; simpl in *.
  - apply NoDup_cons in Hd as [Hqn Hd]. apply NoDup_cons in Hd as [Hbn Hd]. apply not_elem_of_cons in Hqn as [Hqb Hqr]. destruct Hl as (-> & k & Hk & _ & k' & Hk' & Hl).
    split; [done|]. exists (set_next (mb_next kb) kq). rewrite lookup_delete_ne, lookup_insert_eq by done. split; [done|]. cbn [set_next mb_next]. rewrite Hb in Hk'. injection Hk' as <-.
    eapply block_list_frame; [|exact Hl]. intros d Hdr. rewrite lookup_delete_ne, lookup_insert_ne; [done|by intros ->|by intros ->].
  - apply NoDup_cons in Hd as [Hc Hd]. destruct Hl as (-> & k & Hk & Hl). split; [done|]. exists k. rewrite not_elem_of_app, !not_elem_of_cons in Hc. destruct Hc as (_ & Hcq & Hcb & _).
    rewrite lookup_delete_ne, lookup_insert_ne by done. split; [done|]. by apply IH.
Qed.

(** The pool with the list [bs] of its blocks. *)
Record pool_on bl (mg : json_manager) U (bs : list nat) : Prop := {
  on_inv : pool_inv bl mg U;
  on_list : block_list bl (token_blocks mg) bs;
  on_nodup : NoDup bs;
  on_dom b : is_Some (bl !! b) ↔ b ∈ bs }.

Definition last_block (bs : list nat) : ptr := match last bs with None => PNull | Some q => PBlock q end.

(** An empty block has no slot in use. *)
Lemma empty_unused b k l i : block_ok b k l → mb_used_count k = 0 → (i < length (mb_memory k))%nat → i ∈ l.
Proof.
  intros [Hf Hd Hu _ _] H0 Hi. assert (seq 0 (length (mb_memory k)) ⊆+ l) as Hsub; [|apply (elem_of_submseteq (seq 0 (length (mb_memory k)))); [apply elem_of_seq; lia|done]].
  assert (l ⊆+ seq 0 (length (mb_memory k))) as Hl by (apply NoDup_submseteq; [done|]; intros j Hj; apply elem_of_seq; apply (free_slots_lt _ _ _ _ _ Hf) in Hj; lia).
  apply submseteq_length_Permutation in Hl as ->; [done|]. rewrite length_seq. unfold zlen in Hu. lia.
Qed.

Lemma remove_ok bl mg U bs b rest k : pool_on bl mg U (bs ++ b :: rest) → bl !! b = Some k → mb_used_count k = 0 →
  ∃ bl1 mg1, (match last_block bs with PNull => Some (bl, Manager (mb_next k) (current_block mg)) | PBlock q => kq ← bl !! q; Some (<[q := set_next (mb_next k) kq]> bl, mg) | PSlot _ _ => None end)
      = Some (bl1, mg1) ∧ block_at bl1 (PBlock b) ≠ None ∧
    pool_on (delete b bl1) (if bool_decide (current_block mg1 = PBlock b) then Manager (token_blocks mg1) PNull else mg1) U (bs ++ rest).
Proof.
  intros [HI Hl Hd Hdom] Hb H0. assert (∀ i, (b, i) ∉ U) as HbU.
  { intros i Hi. destruct (pi_blocks _ _ _ HI b k Hb) as (l & Hok & HU). destruct (proj1 (HU i) Hi) as [Hlt Hnl]. apply Hnl. by eapply empty_unused. }
  assert (∃ bl1 mg1, (match last_block bs with PNull => Some (bl, Manager (mb_next k) (current_block mg)) | PBlock q => kq ← bl !! q; Some (<[q := set_next (mb_next k) kq]> bl, mg) | PSlot _ _ => None end)
      = Some (bl1, mg1) ∧ current_block mg1 = current_block mg ∧ block_list (delete b bl1) (token_blocks mg1) (bs ++ rest) ∧ (∀ c, is_Some (bl1 !! c) ↔ is_Some (bl !! c)) ∧
      ∀ c kc, bl1 !! c = Some kc → ∃ kc', bl !! c = Some kc' ∧ mb_memory kc = mb_memory kc' ∧ ∀ l, block_ok c kc' l → block_ok c kc l) as (bl1 & mg1 & Hrun & Hcur & Hl1 & Hdom1 & Hok1).
  { unfold last_block. destruct bs as [|q bs _] using rev_ind.
    - eexists _, _. split; [done|]. simpl in *. split_and!; [done| |done|intros c kc Hkc; by exists kc]. destruct Hl as (_ & k' & Hk' & Hl). rewrite Hb in Hk'. injection Hk' as <-.
      apply NoDup_cons in Hd as [Hbn _]. eapply block_list_frame; [|exact Hl]. intros c Hc. rewrite lookup_delete_ne; [done|]. by intros ->.
    - rewrite last_snoc. rewrite <- app_assoc in *. simpl in *. assert (is_Some (bl !! q)) as [kq Hq] by (apply Hdom; rewrite elem_of_app; right; by left). rewrite Hq. cbn [mbind option_bind].
      eexists _, _. split; [done|]. split_and!; [done|by apply block_list_unlink| |].
      + intros c. destruct (decide (c = q)) as [->|Hne]; [rewrite lookup_insert_eq, Hq; split; by eexists|by rewrite lookup_insert_ne].
      + intros c kc Hkc. destruct (decide (c = q)) as [->|Hne]; [|rewrite lookup_insert_ne in Hkc by done; by exists kc]. rewrite lookup_insert_eq in Hkc. injection Hkc as <-. exists kq. split_and!; [done|done|]. by intros l []. }
  exists bl1, mg1. split; [done|]. split; [cbn [block_at]; destruct (proj2 (Hdom1 b) ltac:(by eexists)) as [? Hx]; by rewrite Hx|].
  assert (∀ c, is_Some (delete b bl1 !! c) ↔ c ∈ bs ++ rest) as Hdom'.
  { assert (b ∉ bs ++ rest) as Hbn by (apply NoDup_app in Hd as (_ & Hsep & [Hbr _]%NoDup_cons); rewrite not_elem_of_app; split; [intros Hbs; apply (Hsep b Hbs); by left|done]).
    intros c. destruct (decide (c = b)) as [->|Hne]; [rewrite lookup_delete_eq; split; [by intros [? ?]|done]|]. rewrite lookup_delete_ne, Hdom1, Hdom by done. rewrite !elem_of_app, elem_of_cons. naive_solver. }
  assert (NoDup (bs ++ rest)) as Hd' by (apply NoDup_app in Hd as (Hd1 & Hsep & [_ Hd2]%NoDup_cons); apply NoDup_app; split_and!; [done| |done]; intros c Hc Hcr; apply (Hsep c Hc); by right).
  set (mg2 := if bool_decide _ then _ else _). assert (token_blocks mg2 = token_blocks mg1) as Htb by (unfold mg2; by case_bool_decide).
  split; [|by rewrite Htb|done|done]. split.
  - exists (bs ++ rest). rewrite Htb. by split_and!.
  - unfold mg2. rewrite Hcur. case_bool_decide as Hcb; [by left|]. rewrite Hcur. destruct (pi_current _ _ _ HI) as [Hc|(c & Hc & Hs)]; [by left|right]. exists c. split; [done|].
    rewrite lookup_delete_ne by congruence. by apply Hdom1.
  - intros c kc Hkc. apply lookup_delete_Some in Hkc as [Hne Hkc]. destruct (Hok1 c kc Hkc) as (kc' & Hkc' & Hmem & Hok). destruct (pi_blocks _ _ _ HI c kc' Hkc') as (l & Hokc & HU). exists l. rewrite Hmem. auto.
  - intros [c i] Hs. cbn [fst]. assert (c ≠ b) as Hne by (intros ->; by apply (HbU i)). rewrite lookup_delete_ne by done. apply Hdom1. by apply (pi_used _ _ _ HI (c, i)).
Qed.

Lemma destroy_empty_ok fuel bl mg U bs rest : pool_on bl mg U (bs ++ rest) → (length rest < fuel)%nat →
  ∃ bl' mg', destroy_empty fuel bl mg (match rest with [] => PNull | b :: _ => PBlock b end) (last_block bs) = Some (bl', mg') ∧ pool_inv bl' mg' U.
Proof.
  revert bl mg bs rest. induction fuel as [|fuel IH]; intros bl mg bs rest Hon Hf; [lia|]. destruct rest as [|b rest]; [exists bl, mg; split; [done|apply Hon]|].
  pose proof (proj2 (on_dom _ _ _ _ Hon b) ltac:(rewrite elem_of_app; right; by left)) as [k Hk].
  assert (mb_next k = match rest with [] => PNull | c :: _ => PBlock c end) as Hnext.
  { pose proof (on_list _ _ _ _ Hon) as Hl. revert Hl. generalize (token_blocks mg). clear - Hk. induction bs as [|c bs IHb]; intros p Hl; simpl in Hl.
    - destruct Hl as (_ & k' & Hk' & Hl). rewrite Hk in Hk'. injection Hk' as <-. destruct rest; [done|]. by destruct Hl as [? _].
    - destruct Hl as (_ & k' & _ & Hl). by apply (IHb _ Hl). }
  cbn [destroy_empty]. unfold memory_block_is_empty. cbn [block_at]. rewrite Hk. cbn [mbind option_bind]. simpl length in Hf. destruct (Z.eqb_spec (mb_used_count k) 0) as [H0|H0].
  - destruct (remove_ok bl mg U bs b rest k Hon Hk H0) as (bl1 & mg1 & Hrun & Hsome & Hon'). rewrite Hrun. cbn [mbind option_bind]. unfold memory_block_destroy.
    destruct (block_at bl1 (PBlock b)) as [kb|]; [|done]. cbn [mbind option_bind]. rewrite Hnext. apply IH; [done|lia].
  - rewrite Hnext. assert (PBlock b = last_block (bs ++ [b])) as -> by (unfold last_block; by rewrite last_snoc). apply IH; [by rewrite <- app_assoc|lia].
Qed.

Lemma sweep_ok pl U : pool_ok pl U → ∃ pl', json_manager_destroy_empty_blocks pl = Some pl' ∧ pool_ok pl' U.
Proof.
  unfold pool_ok at 1, json_manager_destroy_empty_blocks. destruct (manager pl) as [mg|] eqn:Em; [|intros H; exists pl; split; [done|]; unfold pool_ok; by rewrite Em].
  intros HI. case_if; [by eexists|]. destruct (pi_list _ _ _ HI) as (bs & Hbs & Hd & Hdom). destruct (destroy_empty_ok (S (size (blocks pl))) (blocks pl) mg U [] bs) as (bl' & mg' & Hrun & HI').
  - by split.
  - rewrite (block_list_size _ _ Hd Hdom). lia.
  - assert (token_blocks mg = match bs with [] => PNull | b :: _ => PBlock b end) as -> by (destruct bs; [done|by destruct Hbs]). change (last_block []) with PNull in Hrun. rewrite Hrun. by eexists.
Qed.

(** The second read of [token->block] in [json_token_free] finds the link to the next free slot. *)
Lemma token_free_undefined pl U s k : pool_ok pl U → s ∈ U → blocks pl !! s.1 = Some k → mb_used_count k < mb_capacity k → json_token_free pl s = None.
Proof.
  unfold pool_ok, json_token_free. destruct (manager pl) as [mg|] eqn:Em; [|intros [_ ->] Hs; set_solver]. intros HI Hs Hk Hfree.
  destruct (word_used pl mg U s HI Hs) as (k0 & l & Hk0 & Hok & Hi & Hil & _ & Hw). rewrite Hk in Hk0. injection Hk0 as <-. destruct s as [b i]. cbn [fst snd] in *. rewrite Hw. cbn [mbind option_bind].
  destruct (lookup_lt_is_Some_2 _ _ Hi) as [w Hwi]. destruct (free_slot_ok (blocks pl) b k l i w Hk Hok Hi Hil) as (k' & Hfs & _ & _ & _ & Hword).
  assert (set_word w i k = k) as Hid by (destruct k; unfold set_word; simpl in *; by rewrite list_insert_id). rewrite Hid, insert_id in Hfs by done. rewrite Hfs. cbn [mbind option_bind].
  unfold word. cbn [fst snd]. rewrite lookup_insert_eq. cbn [mbind option_bind]. rewrite Hword. cbn [mbind option_bind].
  destruct Hok as [Hf _ Hu [Hc _] _]. destruct l as [|j l]; [rewrite zlen_nil in Hu; lia|]. destruct Hf as [-> _]. done.
Qed.

(** ** Allocating *)

Variable new_block : gmap nat memory_block → option nat.
Variable new_manager : bool.
(** [malloc] gives a new block. *)
Hypothesis new_block_fresh : ∀ bl b, new_block bl = Some b → bl !! b = None.

(** The part of [json_token_alloc] after the manager. *)
Lemma alloc_with pl mg U : manager pl = Some mg → pool_inv (blocks pl) mg U →
  match json_token_alloc new_block new_manager pl with
  | None => False
  | Some (None, pl') => pool_ok pl' U ∧ new_block (blocks pl) = None
  | Some (Some s, pl') => (s ∉ U) ∧ pool_ok pl' ({[s]} ∪ U)
  end.
Proof.
  intros Hm HI. unfold json_token_alloc, json_manager_create. rewrite Hm. cbn [mbind option_bind]. rewrite Hm. cbn [mbind option_bind].
  destruct (cached_ok _ _ _ HI) as (r & -> & Hr). cbn [mbind option_bind]. destruct r as [[[b i] bl1]|].
  { destruct (take_ok _ _ _ _ _ _ HI (Hr _ _ _ eq_refl)) as (Hn & Hs & bl' & -> & HI' & _). simpl. by split. }
  destruct (pi_list _ _ _ HI) as (bs & Hbs & Hd & Hdom). destruct (find_slot_ok _ _ _ _ bs (S (size (blocks pl))) HI Hbs) as (r & -> & Hr'); [rewrite (block_list_size _ _ Hd Hdom); lia|].
  cbn [mbind option_bind]. destruct r as [[[b i] bl1]|].
  { destruct (take_ok _ _ _ _ _ _ HI (Hr' _ _ _ eq_refl)) as (Hn & Hs & bl' & -> & HI' & Hs'). simpl. split; [done|]. by apply pool_inv_current. }
  unfold memory_block_create. destruct (new_block (blocks pl)) as [b|] eqn:Eb; cbn [mbind option_bind]; [|split; [|done]; unfold pool_ok; by rewrite Hm].
  pose proof (new_block_fresh _ _ Eb) as Hfresh. rewrite lookup_insert_eq. cbn [mbind option_bind]. rewrite insert_insert_eq. unfold set_next. cbn [mb_memory mb_free_list mb_capacity mb_used_count].
  set (k := MBlock _ _ _ _ _).
  assert (block_ok b k (seq 0 (Z.to_nat TOKENS_PER_BLOCK))) as Hok.
  { unfold k. pose proof (new_block_ok b (Z.to_nat TOKENS_PER_BLOCK) (token_blocks mg)) as H. rewrite Z2Nat.id in H by (unfold TOKENS_PER_BLOCK; lia). apply H; unfold TOKENS_PER_BLOCK; lia. }
  assert (pool_inv (<[b := k]> (blocks pl)) (Manager (PBlock b) (PBlock b)) U) as HI1.
  { apply (create_ok _ mg); [done|done|done|]. eexists. split; [exact Hok|]. intros i Hi. apply elem_of_seq. unfold k, new_words in Hi. cbn [mb_memory] in Hi. rewrite length_fmap, length_seq in Hi. lia. }
  pose proof (alloc_slot_ok (<[b := k]> (blocks pl)) b k _ (lookup_insert_eq _ _ _) Hok) as Hal. destruct (Z.to_nat TOKENS_PER_BLOCK) as [|n] eqn:En; [unfold TOKENS_PER_BLOCK in En; lia|].
  cbn [seq] in Hal. destruct Hal as (w & Hal & _). rewrite Hal. cbn [mbind option_bind].
  destruct (take_ok _ _ _ _ _ _ HI1 Hal) as (Hn & Hs & bl' & -> & HI' & _). simpl. by split.
Qed.

Lemma alloc_ok pl U : pool_ok pl U →
  match json_token_alloc new_block new_manager pl with
  | None => False
  | Some (None, pl') => pool_ok pl' U ∧ (new_manager = false ∨ new_block (blocks pl) = None)
  | Some (Some s, pl') => (s ∉ U) ∧ pool_ok pl' ({[s]} ∪ U)
  end.
Proof.
  unfold pool_ok at 1. destruct (manager pl) as [mg|] eqn:Em.
  - intros HI. pose proof (alloc_with pl mg U Em HI) as Ha. destruct (json_token_alloc _ _ _) as [[[s|] pl']|]; [done|naive_solver|done].
  - intros [Hb ->]. destruct new_manager eqn:En; [|unfold json_token_alloc, json_manager_create; rewrite Em; split; [|by left]; unfold pool_ok; by rewrite Em].
    set (pl0 := Pool (blocks pl) (Some json_manager_init) (free_blocks_counter pl)).
    assert (json_token_alloc new_block true pl = json_token_alloc new_block true pl0) as -> by (unfold json_token_alloc, json_manager_create; by rewrite Em).
    assert (pool_inv (blocks pl0) json_manager_init ∅) as HI.
    { simpl. rewrite Hb. split; [exists []; split_and!; [done|constructor|]|by left|done|set_solver]. intros b. split; [by intros [? ?]|by intros ?%elem_of_nil]. }
    pose proof (alloc_with pl0 json_manager_init ∅ eq_refl HI) as Ha. rewrite En in Ha. destruct (json_token_alloc _ _ _) as [[[s|] pl']|]; [done|naive_solver|done].
Qed.

(** ** Reachable pools *)

(** What a thread does with its pool apart from [json_token_free]: tokens are allocated, trees are freed token by token,
    empty blocks are given back. *)
Inductive reach : pool → gset slot → Prop :=
  | reach_start : reach (Pool ∅ None 0) ∅
  | reach_alloc pl U s pl' : reach pl U → json_token_alloc new_block new_manager pl = Some (Some s, pl') → reach pl' ({[s]} ∪ U)
  | reach_no_memory pl U pl' : reach pl U → json_token_alloc new_block new_manager pl = Some (None, pl') → reach pl' U
  | reach_free pl U s pl' : reach pl U → s ∈ U → free_token pl s = Some pl' → reach pl' (U ∖ {[s]})
  | reach_sweep pl U pl' : reach pl U → json_manager_destroy_empty_blocks pl = Some pl' → reach pl' U.

Lemma reach_ok pl U : reach pl U → pool_ok pl U.
Proof.
  induction 1 as [|pl U s pl' _ IH Ha|pl U pl' _ IH Ha|pl U s pl' _ IH Hs Hf|pl U pl' _ IH Hw].
  - by split.
  - pose proof (alloc_ok pl U IH) as H. rewrite Ha in H. apply H.
  - pose proof (alloc_ok pl U IH) as H. rewrite Ha in H. apply H.
  - destruct (free_token_ok pl U s IH Hs) as (pl1 & H1 & H2). by simplify_eq.
  - destruct (sweep_ok pl U IH) as (pl1 & H1 & H2). by simplify_eq.
Qed.
End PoolTheorems.


(** [json_token_free], which frees the token of a value that could not be parsed, takes a slot for a block: when the block of the token has
    another free slot, the [block] field it reads after the slot was freed is the link to that slot. *)
Theorem json_token_free_misreads (new_block : gmap nat memory_block → option nat) (new_manager : bool) :
  (∀ bl b, new_block bl = Some b → bl !! b = None) → ∀ pl U s k, reach new_block new_manager pl U → s ∈ U →
  blocks pl !! s.1 = Some k → mb_used_count k < mb_capacity k → json_token_free pl s = None.
Proof. intros Hfresh pl U s k Hr Hs Hk Hu. exact (token_free_undefined pl U s k (reach_ok new_block new_manager Hfresh pl U Hr) Hs Hk Hu). Qed.

(** ** Instances *)

Definition heap_block (bl : gmap nat memory_block) : option nat := Some (fresh (dom bl)).

Lemma heap_block_fresh bl b : heap_block bl = Some b → bl !! b = None.
Proof. intros [= <-]. apply not_elem_of_dom, is_fresh. Qed.

(** The first token. *)
Lemma first_token : ∃ pl k, json_token_alloc heap_block true (Pool ∅ None 0) = Some (Some (0, 0)%nat, pl) ∧ blocks pl !! 0%nat = Some k ∧ mb_used_count k < mb_capacity k.
Proof.
  assert (∃ n, Z.to_nat TOKENS_PER_BLOCK = S (S n)) as [n Hn] by (exists (Z.to_nat 4094); unfold TOKENS_PER_BLOCK; lia).
  assert (heap_block ∅ = Some 0%nat) as Hb by reflexivity.
  pose proof (new_block_ok 0 (Z.to_nat TOKENS_PER_BLOCK) PNull) as Hok. rewrite Z2Nat.id in Hok by (unfold TOKENS_PER_BLOCK; lia). specialize (Hok ltac:(lia) ltac:(unfold TOKENS_PER_BLOCK; lia)).
  pose proof (alloc_slot_ok _ 0 _ _ (lookup_insert_eq ∅ 0%nat (MBlock (new_words 0 (Z.to_nat TOKENS_PER_BLOCK)) (PSlot 0 0) TOKENS_PER_BLOCK 0 PNull)) Hok) as Ha. rewrite Hn in Ha. cbn [seq] in Ha.
  destruct Ha as (w & Ha & bl' & Hw & k' & -> & [_ _ Hu [Hc _] _] & _ & Hlen). rewrite insert_insert_eq in Hw.
  exists (Pool (<[0%nat := k']> ∅) (Some (Manager (PBlock 0) (PBlock 0))) 0), k'. split_and!; [|cbn [blocks]; by rewrite lookup_insert_eq|rewrite Hu, Hc; rewrite zlen_cons; pose proof (zlen_nonneg (seq 2 n)); lia].
  unfold json_token_alloc, json_manager_create. cbn [manager blocks mbind option_bind cached_slot current_block json_manager_init token_blocks free_blocks_counter].
  change (find_slot (S (size ∅)) ∅ PNull) with (Some (@None (nat * nat * gmap nat memory_block))). cbn [mbind option_bind]. unfold memory_block_create. rewrite Hb, Hn. cbn [mbind option_bind].
  rewrite lookup_insert_eq. cbn [mbind option_bind]. rewrite insert_insert_eq. unfold set_next. cbn [mb_memory mb_free_list mb_capacity mb_used_count]. rewrite Ha. cbn [mbind option_bind].
  rewrite insert_insert_eq, Hw. cbn [mbind option_bind]. by rewrite insert_insert_eq.
Qed.

Lemma first_reach pl : json_token_alloc heap_block true (Pool ∅ None 0) = Some (Some (0, 0)%nat, pl) → reach heap_block true pl ({[(0, 0)%nat]} ∪ ∅).
Proof. apply reach_alloc. constructor. Qed.


Lemma json_token_free_misreads_witness : ∃ pl, json_token_alloc heap_block true (Pool ∅ None 0) = Some (Some (0, 0)%nat, pl) ∧ json_token_free pl (0, 0)%nat = None.
Proof.
  destruct first_token as (pl & k & Ha & Hk & Hu). exists pl. split; [exact Ha|].
  exact (json_token_free_misreads heap_block true heap_block_fresh pl _ (0, 0)%nat k (first_reach pl Ha) ltac:(set_solver) Hk Hu).
Defined.
