(* ===== verification/Base64.v ===== *)
(** Base64 ([misc/base64.c]).

    The buffer a function writes to is a block and the writes go through [put]; the text and the string are blocks that are read. An [int] that leaves its range is undefined. *)

From S2P Require Import Prelude.

(** ** The model *)

Definition as_int (z : Z) : option Z := if (- 2 ^ 31 <=? z) && (z <? 2 ^ 31) then Some z else None.

Definition pr2six_table : list Z :=
  replicate 43 64 ++ [62] ++ replicate 3 64 ++ [63] ++ seqZ 52 10 ++ replicate 7 64 ++ seqZ 0 26 ++ replicate 6 64 ++ seqZ 26 26 ++ replicate 133 64.
Definition pr2six (c : Z) : option Z := mem_get pr2six_table c.

Definition basis_64 : list Z := bs "ABCDEFGHIJKLMNOPQRSTUVWXYZabcdefghijklmnopqrstuvwxyz0123456789+/".

(** [*p++ = c] *)
Definition put (st : list Z * Z) (c : Z) : option (list Z * Z) := m ← mem_set st.1 st.2 c; Some (m, st.2 + 1).
Fixpoint puts (st : list Z * Z) (l : list Z) : option (list Z * Z) :=
  match l with [] => Some st | c :: l' => st ← put st c; puts st l' end.

(** [*p++ = basis_64[x]] *)
Definition put64 (st : list Z * Z) (x : Z) : option (list Z * Z) := c ← mem_get basis_64 x; put st c.

Definition base64_encode_internal_len (len wrap : Z) : option Z :=
  a ← as_int (len + 2);
  b ← as_int (Z.quot a 3 * 4);
  inline_len ← as_int (b + 1);
  if 0 <? wrap then
    nl ← as_int (Z.quot inline_len wrap * 2);
    let nl := if (1 <? nl) && (Z.rem inline_len wrap =? 0) then nl - 2 else nl in
    as_int (inline_len + nl)
  else Some inline_len.

Definition base64_encode_len (len : Z) : option Z := base64_encode_internal_len len 0.
Definition base64_encode_nl_len (len wrap : Z) : option Z := base64_encode_internal_len len wrap.

Section Encode.
Variables string : list Z.
Variables string_len wrap : Z.

(** A byte of the string, as a signed [char]. *)
Definition char_at (i : Z) : option Z := c ← mem_get string i; Some (schar c).

(** The loop over three bytes at a time. *)
Fixpoint encode_loop (fuel : nat) (i pc : Z) (st : list Z * Z) : option (Z * (list Z * Z)) :=
  match fuel with
  | O => None
  | S f =>
      if i <? string_len - 2 then
        s0 ← char_at i;
        s1 ← char_at (i + 1);
        s2 ← char_at (i + 2);
        st ← put64 st (Z.land (Z.shiftr s0 2) 0x3F);
        st ← put64 st (Z.lor (Z.shiftl (Z.land s0 0x3) 4) (Z.shiftr (Z.land s1 0xF0) 4));
        st ← put64 st (Z.lor (Z.shiftl (Z.land s1 0xF) 2) (Z.shiftr (Z.land s2 0xC0) 6));
        st ← put64 st (Z.land s2 0x3F);
        if 0 <? wrap then
          pc ← as_int (pc + 4);
          st ← (if Z.rem pc wrap =? 0 then puts st [13; 10] else Some st);
          encode_loop f (i + 3) pc st
        else encode_loop f (i + 3) pc st
      else Some (i, st)
  end.

(** The one or two bytes that are left. *)
Definition encode_tail (i : Z) (st : list Z * Z) : option (list Z * Z) :=
  if i <? string_len then
    s0 ← char_at i;
    st ← put64 st (Z.land (Z.shiftr s0 2) 0x3F);
    st ← (if i =? string_len - 1 then
            st ← put64 st (Z.shiftl (Z.land s0 0x3) 4);
            put st 61
          else
            s1 ← char_at (i + 1);
            st ← put64 st (Z.lor (Z.shiftl (Z.land s0 0x3) 4) (Z.shiftr (Z.land s1 0xF0) 4));
            put64 st (Z.shiftl (Z.land s1 0xF) 2));
    put st 61
  else Some st.

(** The buffer and the length of the text. *)
Definition base64_encode_internal (encoded : list Z) : option (list Z * Z) :=
  '(i, st) ← encode_loop (S (length string)) 0 0 (encoded, 0);
  st ← encode_tail i st;
  st ← put st 0;
  Some (st.1, st.2 - 1).
End Encode.

Definition base64_encode (encoded string : list Z) (string_len : Z) := base64_encode_internal string string_len 0 encoded.
Definition base64_encode_nl (encoded string : list Z) (string_len wrap : Z) := base64_encode_internal string string_len wrap encoded.

Section Decode.
Variable bufcoded : list Z.

(** The bytes of the alphabet up to the first other byte, line ends aside. *)
Fixpoint count_loop (fuel : nat) (bufin nprbytes : Z) : option Z :=
  match fuel with
  | O => None
  | S f =>
      c ← mem_get bufcoded bufin;
      if (c =? 13) || (c =? 10) then count_loop f (bufin + 1) nprbytes
      else
        x ← pr2six c;
        if 63 <? x then Some nprbytes else n ← as_int (nprbytes + 1); count_loop f (bufin + 1) n
  end.

Definition base64_decode_len : option Z :=
  nprbytes ← count_loop (S (length bufcoded)) 0 0;
  a ← as_int (nprbytes + 3);
  as_int (Z.quot a 4 * 3 + 1).

Definition sextet (bufin : Z) : option Z := c ← mem_get bufcoded bufin; pr2six c.

Fixpoint decode_loop (fuel : nat) (bufin nprbytes : Z) (st : list Z * Z) : option (Z * Z * (list Z * Z)) :=
  match fuel with
  | O => None
  | S f =>
      if 4 <? nprbytes then
        c ← mem_get bufcoded bufin;
        if (c =? 13) || (c =? 10) then decode_loop f (bufin + 1) nprbytes st
        else
          a ← sextet bufin;
          b ← sextet (bufin + 1);
          c ← sextet (bufin + 2);
          d ← sextet (bufin + 3);
          st ← put st (uchar (Z.lor (Z.shiftl a 2) (Z.shiftr b 4)));
          st ← put st (uchar (Z.lor (Z.shiftl b 4) (Z.shiftr c 2)));
          st ← put st (uchar (Z.lor (Z.shiftl c 6) d));
          decode_loop f (bufin + 4) (nprbytes - 4) st
      else Some (bufin, nprbytes, st)
  end.

(** The last group: line ends are not skipped here. *)
Definition decode_tail (bufin nprbytes : Z) (st : list Z * Z) : option (list Z * Z) :=
  st ← (if 1 <? nprbytes then a ← sextet bufin; b ← sextet (bufin + 1); put st (uchar (Z.lor (Z.shiftl a 2) (Z.shiftr b 4))) else Some st);
  st ← (if 2 <? nprbytes then b ← sextet (bufin + 1); c ← sextet (bufin + 2); put st (uchar (Z.lor (Z.shiftl b 4) (Z.shiftr c 2))) else Some st);
  if 3 <? nprbytes then c ← sextet (bufin + 2); d ← sextet (bufin + 3); put st (uchar (Z.lor (Z.shiftl c 6) d)) else Some st.

(** The buffer and the number of bytes decoded. *)
Definition base64_decode (bufplain : list Z) : option (list Z * Z) :=
  nprbytes ← count_loop (S (length bufcoded)) 0 0;
  a ← as_int (nprbytes + 3);
  nbytesdecoded ← as_int (Z.quot a 4 * 3);
  '(bufin, nprbytes, st) ← decode_loop (S (length bufcoded)) 0 nprbytes (bufplain, 0);
  st ← decode_tail bufin nprbytes st;
  st ← put st 0;
  Some (st.1, nbytesdecoded - Z.land (4 - nprbytes) 3).
End Decode.


(** ** The text of a string *)

(** The byte of the alphabet for six bits. *)
Definition chr64 (x : Z) : Z := nth (Z.to_nat x) basis_64 0.

(** Base64 as RFC 4648 defines it, with a line end after a group when the count of bytes is a multiple of [wrap]. *)
Fixpoint enc (wrap pc : Z) (s : list Z) : list Z :=
  match s with
  | a :: b :: c :: s' =>
      [chr64 (a / 4); chr64 (a mod 4 * 16 + b / 16); chr64 (b mod 16 * 4 + c / 64); chr64 (c mod 64)] ++
      (if (0 <? wrap) && (Z.rem (pc + 4) wrap =? 0) then [13; 10] else []) ++ enc wrap (pc + 4) s'
  | [a; b] => [chr64 (a / 4); chr64 (a mod 4 * 16 + b / 16); chr64 (b mod 16 * 4); 61]
  | [a] => [chr64 (a / 4); chr64 (a mod 4 * 16); 61; 61]
  | [] => []
  end.

Lemma triple_ind (P : list Z → Prop) : P [] → (∀ a, P [a]) → (∀ a b, P [a; b]) → (∀ a b c s, P s → P (a :: b :: c :: s)) → ∀ s, P s.
Proof.
  intros H0 H1 H2 H3. fix IH 1. intros [|a [|b [|c s]]]; [exact H0|apply H1|apply H2|]. apply H3, IH.
Qed.

(** ** Bits *)

Lemma bits_of c : is_byte c →
  Z.land (Z.shiftr (schar c) 2) 0x3F = c / 4 ∧ Z.shiftl (Z.land (schar c) 0x3) 4 = c mod 4 * 16 ∧ Z.shiftr (Z.land (schar c) 0xF0) 4 = c / 16 ∧
  Z.shiftl (Z.land (schar c) 0xF) 2 = c mod 16 * 4 ∧ Z.shiftr (Z.land (schar c) 0xC0) 6 = c / 64 ∧ Z.land (schar c) 0x3F = c mod 64.
Proof.
  intros Hc. pose proof (byte_check (λ c, (Z.land (Z.shiftr (schar c) 2) 0x3F =? c / 4) && (Z.shiftl (Z.land (schar c) 0x3) 4 =? c mod 4 * 16) && (Z.shiftr (Z.land (schar c) 0xF0) 4 =? c / 16) &&
    (Z.shiftl (Z.land (schar c) 0xF) 2 =? c mod 16 * 4) && (Z.shiftr (Z.land (schar c) 0xC0) 6 =? c / 64) && (Z.land (schar c) 0x3F =? c mod 64)) ltac:(vm_compute; reflexivity) c Hc) as H.
  cbv beta in H. rewrite !andb_true_iff, !Z.eqb_eq in H. tauto.
Qed.

Lemma lor_sum x k y : 0 <= y < 2 ^ k → 0 <= k → Z.lor (x * 2 ^ k) y = x * 2 ^ k + y.
Proof. intros. by apply lor_add. Qed.

Ltac byte_bounds :=
  repeat match goal with
  | H : is_byte ?c |- _ =>
      let N := fresh "B" in assert (0 <= c / 4 < 64 ∧ 0 <= c / 16 < 16 ∧ 0 <= c / 64 < 4 ∧ 0 <= c mod 4 < 4 ∧ 0 <= c mod 16 < 16 ∧ 0 <= c mod 64 < 64 ∧ c = c / 4 * 4 + c mod 4 ∧ c = c / 16 * 16 + c mod 16 ∧ c = c / 64 * 64 + c mod 64) as N
        by (unfold is_byte in H; pose proof (Z.div_mod c 4); pose proof (Z.div_mod c 16); pose proof (Z.div_mod c 64); pose proof (Z.mod_pos_bound c 4); pose proof (Z.mod_pos_bound c 16); pose proof (Z.mod_pos_bound c 64); lia);
      unfold is_byte in H
  end.

Lemma basis_get x : 0 <= x < 64 → mem_get basis_64 x = Some (chr64 x).
Proof.
  intros Hx. unfold chr64. rewrite mem_get_lookup by lia. assert (Z.to_nat x < length basis_64)%nat as Hl by (change (length basis_64) with 64%nat; lia).
  rewrite nth_lookup. by destruct (lookup_lt_is_Some_2 _ _ Hl) as [c ->].
Qed.

(** Each byte of the alphabet is read back. *)
Lemma pr2six_chr x : 0 <= x < 64 → pr2six (chr64 x) = Some x ∧ chr64 x ≠ 13 ∧ chr64 x ≠ 10.
Proof.
  intros Hx. assert (forallb (λ x, bool_decide (pr2six (chr64 x) = Some x) && negb (chr64 x =? 13) && negb (chr64 x =? 10)) (seqZ 0 64) = true) as H by (vm_compute; reflexivity).
  rewrite forallb_forall in H. specialize (H x ltac:(apply list_elem_of_In, elem_of_seqZ; lia)). cbv beta in H. rewrite !andb_true_iff, !negb_true_iff, !Z.eqb_neq in H. destruct H as [[H%bool_decide_eq_true ?] ?]. done.
Qed.

(** ** Writing *)

(** A block of which the bytes [out] are written. *)
Definition buf (out rest : list Z) : list Z * Z := (out ++ rest, zlen out).

Lemma put_ok out rest c : 1 <= zlen rest → put (buf out rest) c = Some (buf (out ++ [c]) (drop 1 rest)).
Proof.
  intros Hr. destruct rest as [|r rest]; [by apply Z.le_ngt in Hr|]. unfold put, buf. cbn [fst snd drop]. rewrite mem_set_Some by (autorewrite with zlen; pose proof (zlen_nonneg out); pose proof (zlen_nonneg rest); lia).
  cbn [mbind option_bind]. unfold zlen. rewrite Nat2Z.id, insert_app_r_alt, Nat.sub_diag by lia. rewrite <- app_assoc, length_app. simpl. do 2 f_equal. lia.
Qed.

Lemma put64_ok out rest x : 0 <= x < 64 → 1 <= zlen rest → put64 (buf out rest) x = Some (buf (out ++ [chr64 x]) (drop 1 rest)).
Proof. intros Hx Hr. unfold put64. rewrite basis_get by done. cbn [mbind option_bind]. by apply put_ok. Qed.

Lemma zlen_drop_nat (n : nat) (l : list Z) : zlen (drop n l) = Z.max 0 (zlen l - Z.of_nat n).
Proof. unfold zlen. rewrite length_drop. lia. Qed.

(** ** Encoding *)

Section EncodeProof.
Variables string : list Z.
Variables string_len wrap : Z.
Hypothesis string_bytes : Forall is_byte string.

Lemma char_at_ok i s c : starts string i (c :: s) → char_at string i = Some (schar c) ∧ is_byte c.
Proof.
  intros Hs. unfold char_at. rewrite (starts_here _ _ _ _ Hs). split; [done|]. destruct Hs as (pre & post & Heq & _). rewrite Heq in string_bytes.
  rewrite Forall_app in string_bytes. destruct string_bytes as [_ [H _]%Forall_app]. by apply Forall_cons in H as [? _].
Qed.

Ltac next_put := first [rewrite put64_ok | rewrite put_ok]; [cbn [mbind option_bind]|repeat rewrite zlen_drop_nat; lia..].

(** One turn: a group of four. *)
Lemma encode_turn fuel i pc out rest a b c s : starts string i (a :: b :: c :: s) → i + zlen (a :: b :: c :: s) = string_len → zlen (enc wrap pc [a; b; c]) <= zlen rest →
  (0 < wrap → - 2 ^ 31 <= pc + 4 < 2 ^ 31) →
  encode_loop string string_len wrap (S fuel) i pc (buf out rest) =
  encode_loop string string_len wrap fuel (i + 3) (if 0 <? wrap then pc + 4 else pc) (buf (out ++ enc wrap pc [a; b; c]) (drop (length (enc wrap pc [a; b; c])) rest)).
Proof.
  intros Hs Hl Hr Hpc. cbn [encode_loop]. destruct (char_at_ok i _ a Hs) as [Ha Ba].
  pose proof (starts_drop _ _ [a] _ Hs) as Hs1. change (zlen [a]) with 1 in Hs1. destruct (char_at_ok _ _ b Hs1) as [Hb Bb].
  pose proof (starts_drop _ _ [a; b] _ Hs) as Hs2. change (zlen [a; b]) with 2 in Hs2. destruct (char_at_ok _ _ c Hs2) as [Hc Bc].
  autorewrite with zlen in Hl. pose proof (zlen_nonneg s). rewrite (proj2 (Z.ltb_lt i (string_len - 2))) by lia. rewrite Ha, Hb, Hc. cbn [mbind option_bind].
  destruct (bits_of a Ba) as (-> & -> & _). destruct (bits_of b Bb) as (_ & _ & -> & -> & _). destruct (bits_of c Bc) as (_ & _ & _ & _ & -> & ->). byte_bounds.
  rewrite (lor_sum (a mod 4) 4), (lor_sum (b mod 16) 2) by lia. change (2 ^ 4) with 16. change (2 ^ 2) with 4. cbn [enc] in *. autorewrite with zlen in Hr.
  assert (0 <= zlen (if (0 <? wrap) && (Z.rem (pc + 4) wrap =? 0) then [13; 10] else [])) as Hn by apply zlen_nonneg.
  do 4 next_put. destruct (Z.ltb_spec 0 wrap); cbn [andb] in *.
  - unfold as_int. rewrite (proj2 (Z.leb_le _ _)), (proj2 (Z.ltb_lt _ _)) by lia. cbn [andb mbind option_bind].
    destruct (Z.rem (pc + 4) wrap =? 0); cbn [puts mbind option_bind app length]; autorewrite with zlen in Hr.
    + do 2 next_put. rewrite !drop_drop, <- !app_assoc. done.
    + rewrite !drop_drop, <- !app_assoc. done.
  - rewrite !drop_drop, <- !app_assoc. done.
Qed.

Lemma enc_cons pc a b c s : enc wrap pc (a :: b :: c :: s) = enc wrap pc [a; b; c] ++ enc wrap (pc + 4) s.
Proof. cbn [enc]. by rewrite app_nil_r, <- !app_assoc. Qed.

Lemma enc_one_turn pc : wrap <= 0 → ∀ s pc', enc wrap pc s = enc wrap pc' s.
Proof.
  intros Hw s. revert pc. induction s as [| | |a b c s IH] using triple_ind; intros pc pc'; try done. rewrite (enc_cons pc a b c s), (enc_cons pc' a b c s), (IH (pc + 4) (pc' + 4)). f_equal. cbn [enc].
  by rewrite (proj2 (Z.ltb_ge 0 wrap)).
Qed.

Lemma encode_ok s : ∀ fuel i pc out rest, starts string i s → i + zlen s = string_len → (length s < fuel)%nat → zlen (enc wrap pc s) <= zlen rest →
  (0 < wrap → 0 <= pc ∧ pc + 4 * (zlen s / 3) < 2 ^ 31) →
  ('(i', st) ← encode_loop string string_len wrap fuel i pc (buf out rest); encode_tail string string_len i' st) = Some (buf (out ++ enc wrap pc s) (drop (length (enc wrap pc s)) rest)).
Proof.
  induction s as [|a|a b|a b c s IH] using triple_ind; intros fuel i pc out rest Hs Hl Hf Hr Hpc; (destruct fuel as [|fuel]; [lia|]).
  - cbn [encode_loop]. rewrite zlen_nil in Hl. rewrite (proj2 (Z.ltb_ge i (string_len - 2))) by lia. cbn [mbind option_bind]. unfold encode_tail. rewrite (proj2 (Z.ltb_ge i string_len)) by lia. cbn [enc length]. by rewrite app_nil_r, drop_0.
  - change (zlen [a]) with 1 in Hl. cbn [encode_loop]. rewrite (proj2 (Z.ltb_ge i (string_len - 2))) by lia. cbn [mbind option_bind]. unfold encode_tail. rewrite (proj2 (Z.ltb_lt i string_len)) by lia.
    destruct (char_at_ok i _ a Hs) as [-> Ba]. cbn [mbind option_bind]. rewrite (proj2 (Z.eqb_eq i (string_len - 1))) by lia. destruct (bits_of a Ba) as (-> & -> & _). byte_bounds. cbn [enc] in *. autorewrite with zlen in Hr.
    do 4 next_put. rewrite !drop_drop, <- !app_assoc. done.
  - change (zlen [a; b]) with 2 in Hl. cbn [encode_loop]. rewrite (proj2 (Z.ltb_ge i (string_len - 2))) by lia. cbn [mbind option_bind]. unfold encode_tail. rewrite (proj2 (Z.ltb_lt i string_len)) by lia.
    destruct (char_at_ok i _ a Hs) as [-> Ba]. pose proof (starts_drop _ _ [a] _ Hs) as Hs1. change (zlen [a]) with 1 in Hs1. destruct (char_at_ok _ _ b Hs1) as [Hb Bb].
    cbn [mbind option_bind]. rewrite (proj2 (Z.eqb_neq i (string_len - 1))) by lia. rewrite Hb. cbn [mbind option_bind].
    destruct (bits_of a Ba) as (-> & -> & _). destruct (bits_of b Bb) as (_ & _ & -> & -> & _). byte_bounds. rewrite (lor_sum (a mod 4) 4) by lia. change (2 ^ 4) with 16. cbn [enc] in *. autorewrite with zlen in Hr.
    do 4 next_put. rewrite !drop_drop, <- !app_assoc. done.
  - rewrite enc_cons in Hr |- *. rewrite zlen_app in Hr. pose proof (zlen_nonneg (enc wrap (pc + 4) s)). pose proof (zlen_nonneg s).
    replace (zlen (a :: b :: c :: s)) with (zlen s + 1 * 3) in Hpc by (autorewrite with zlen; lia). rewrite Z.div_add in Hpc by lia. assert (0 <= zlen s / 3) by (apply Z.div_pos; lia).
    rewrite (encode_turn fuel i pc out rest a b c s Hs Hl) by lia. assert (enc wrap (pc + 4) s = enc wrap (if 0 <? wrap then pc + 4 else pc) s) as Epc.
    { destruct (Z.ltb_spec 0 wrap); [done|]. by apply enc_one_turn. }
    rewrite Epc in *. rewrite IH.
    + rewrite <- app_assoc, drop_drop, length_app. done.
    + apply (starts_drop _ _ [a; b; c]). exact Hs.
    + autorewrite with zlen in Hl. lia.
    + simpl in Hf. lia.
    + rewrite zlen_drop_nat. unfold zlen in *. lia.
    + intros Hw. rewrite (proj2 (Z.ltb_lt 0 wrap)) by done. lia.
Qed.
End EncodeProof.

(** ** The length of the text *)

Lemma enc_len wrap s : ∀ pc, 0 <= pc → zlen (enc wrap pc s) <= 4 * ((zlen s + 2) / 3) + (if 0 <? wrap then 2 * ((pc + 4 * (zlen s / 3)) / wrap - pc / wrap) else 0).
Proof.
  induction s as [|a|a b|a b c s IH] using triple_ind; intros pc Hpc.
  - cbn [enc]. rewrite zlen_nil. case_if; reflect_bools; [|done]. change (0 / 3) with 0. rewrite Z.mul_0_r, Z.add_0_r. lia.
  - cbn [enc]. change (zlen [_; _; _; _]) with 4. change (zlen [a]) with 1. change ((1 + 2) / 3) with 1. change (1 / 3) with 0. rewrite Z.mul_0_r, Z.add_0_r. case_if; lia.
  - cbn [enc]. change (zlen [_; _; _; _]) with 4. change (zlen [a; b]) with 2. change ((2 + 2) / 3) with 1. change (2 / 3) with 0. rewrite Z.mul_0_r, Z.add_0_r. case_if; lia.
  - rewrite enc_cons, zlen_app. specialize (IH (pc + 4) ltac:(lia)). replace (zlen (a :: b :: c :: s)) with (zlen s + 1 * 3) by (autorewrite with zlen; lia).
    replace (zlen s + 1 * 3 + 2) with (zlen s + 2 + 1 * 3) by lia. rewrite !Z.div_add by lia. cbn [enc]. autorewrite with zlen. destruct (Z.ltb_spec 0 wrap) as [Hw|Hw]; cbn [andb].
    + replace (pc + 4 * (zlen s / 3 + 1)) with (pc + 4 + 4 * (zlen s / 3)) by lia. destruct (Z.eqb_spec (Z.rem (pc + 4) wrap) 0) as [Hd|Hd].
      * rewrite Z.rem_mod_nonneg in Hd by lia. pose proof (Z.div_mod (pc + 4) wrap ltac:(lia)) as Hdm. rewrite Hd in Hdm.
        assert (pc / wrap < (pc + 4) / wrap) by (apply Z.div_lt_upper_bound; lia). autorewrite with zlen. lia.
      * assert (pc / wrap <= (pc + 4) / wrap) by (apply Z.div_le_mono; lia). autorewrite with zlen. lia.
    + autorewrite with zlen. lia.
Qed.

Lemma as_int_Some z n : as_int z = Some n → n = z ∧ - 2 ^ 31 <= z < 2 ^ 31.
Proof. unfold as_int. case_if; [|done]. intros [= <-]. reflect_bools. lia. Qed.

(** The text with its terminator fits in the buffer the caller was told to make. *)
Lemma enc_fits s wrap n : base64_encode_internal_len (zlen s) wrap = Some n → zlen (enc wrap 0 s) + 1 <= n ∧ 4 * (zlen s / 3) < 2 ^ 31.
Proof.
  unfold base64_encode_internal_len. pose proof (zlen_nonneg s) as H0. pose proof (enc_len wrap s 0 ltac:(lia)) as He. intros H.
  destruct (as_int (zlen s + 2)) as [a|] eqn:E1; [|done]. apply as_int_Some in E1 as [-> _]. cbn [mbind option_bind] in H.
  destruct (as_int (Z.quot (zlen s + 2) 3 * 4)) as [b|] eqn:E2; [|done]. apply as_int_Some in E2 as [-> _]. cbn [mbind option_bind] in H.
  rewrite Z.quot_div_nonneg in H by lia. set (Q := (zlen s + 2) / 3) in *. destruct (as_int (Q * 4 + 1)) as [l|] eqn:E3; [|done]. apply as_int_Some in E3 as [-> Hl]. cbn [mbind option_bind] in H.
  assert (zlen s / 3 <= Q) as HK by (apply Z.div_le_mono; lia). assert (0 <= zlen s / 3) by (apply Z.div_pos; lia).
  destruct (Z.ltb_spec 0 wrap) as [Hw|Hw].
  - rewrite Z.div_0_l, Z.sub_0_r, Z.add_0_l in He by lia. rewrite Z.quot_div_nonneg, Z.rem_mod_nonneg in H by lia.
    destruct (as_int ((Q * 4 + 1) / wrap * 2)) as [nl|] eqn:E4; [|done]. apply as_int_Some in E4 as [-> _]. cbn [mbind option_bind] in H. apply as_int_Some in H as [-> Hn]. split; [|lia].
    assert (4 * (zlen s / 3) / wrap <= Q * 4 / wrap) as Hq1 by (apply Z.div_le_mono; lia). assert (Q * 4 / wrap <= (Q * 4 + 1) / wrap) as Hq2 by (apply Z.div_le_mono; lia).
    destruct (1 <? _); cbn [andb]; [|lia]. destruct (Z.eqb_spec ((Q * 4 + 1) mod wrap) 0) as [Hm|Hm]; [|lia].
    pose proof (Z.div_mod (Q * 4 + 1) wrap ltac:(lia)) as Hdm. assert (Q * 4 / wrap < (Q * 4 + 1) / wrap) by (apply Z.div_lt_upper_bound; lia). lia.
  - injection H as <-. lia.
Qed.

Lemma encode_exact s wrap n encoded : Forall is_byte s → base64_encode_internal_len (zlen s) wrap = Some n → n <= zlen encoded →
  base64_encode_internal s (zlen s) wrap encoded = Some ((enc wrap 0 s ++ [0]) ++ drop (S (length (enc wrap 0 s))) encoded, zlen (enc wrap 0 s)).
Proof.
  intros Hb Hn Hlen. destruct (enc_fits s wrap n Hn) as [Hfit Hpc]. unfold base64_encode_internal. pose proof (encode_ok s (zlen s) wrap Hb s (S (length s)) 0 0 [] encoded) as H. cbn [app] in H.
  change (encoded, 0) with (buf [] encoded). destruct (encode_loop _ _ _ _ _ _ _) as [[i st]|]; cbn [mbind option_bind] in *.
  - rewrite H; [|exists [], []; by rewrite app_nil_r|lia|lia|lia|lia]. cbn [mbind option_bind]. rewrite (put_ok (enc wrap 0 s)) by (rewrite zlen_drop_nat; unfold zlen in *; lia). cbn [mbind option_bind].
    unfold buf. cbn [fst snd]. rewrite drop_drop, zlen_app. change (zlen [0]) with 1. do 2 f_equal; [|lia]. do 2 f_equal. lia.
  - specialize (H ltac:(exists [], []; by rewrite app_nil_r) ltac:(lia) ltac:(lia) ltac:(lia) ltac:(lia)). done.
Qed.

(** ** Decoding *)

Section DecodeProof.
Variable bufcoded : list Z.

(** The sextets of a string, and how many. *)
Fixpoint sextets (s : list Z) : list Z :=
  match s with
  | a :: b :: c :: s' => [a / 4; a mod 4 * 16 + b / 16; b mod 16 * 4 + c / 64; c mod 64] ++ sextets s'
  | [a; b] => [a / 4; a mod 4 * 16 + b / 16; b mod 16 * 4]
  | [a] => [a / 4; a mod 4 * 16]
  | [] => []
  end.

Lemma sextets_range s : Forall is_byte s → Forall (λ x, 0 <= x < 64) (sextets s).
Proof.
  induction s as [|a|a b|a b c s IH] using triple_ind; intros Hb; repeat (apply Forall_cons in Hb as [? Hb]); byte_bounds; cbn [sextets app]; repeat (constructor; [lia|]); try done. by apply IH.
Qed.

(** The text is the sextets and what stops the count. *)
Lemma enc_sextets s : ∃ pad, enc 0 0 s ++ [0] = (chr64 <$> sextets s) ++ pad ∧ ∃ c l, pad = c :: l ∧ (c = 61 ∨ c = 0).
Proof.
  induction s as [|a|a b|a b c s IH] using triple_ind.
  - exists [0]. split; [done|]. exists 0, []. auto.
  - exists [61; 61; 0]. split; [done|]. exists 61, [61; 0]. auto.
  - exists [61; 0]. split; [done|]. exists 61, [0]. auto.
  - destruct IH as (pad & IH & Hpad). exists pad. split; [|done]. rewrite enc_cons, (enc_one_turn 0 (0 + 4) ltac:(lia) s 0), <- app_assoc, IH. done.
Qed.

Lemma count_ok xs pad c l : pad = c :: l → (c = 61 ∨ c = 0) → Forall (λ x, 0 <= x < 64) xs → ∀ fuel p n, starts bufcoded p ((chr64 <$> xs) ++ pad) → (length xs < fuel)%nat →
  0 <= n → n + zlen xs < 2 ^ 31 → count_loop bufcoded fuel p n = Some (n + zlen xs).
Proof.
  intros -> Hc Hxs. induction Hxs as [|x xs Hx Hxs IH]; intros fuel p n Hs Hf Hn Hm; (destruct fuel as [|fuel]; [lia|]); cbn [count_loop].
  - cbn [fmap list_fmap app] in Hs. rewrite (starts_here _ _ _ _ Hs). cbn [mbind option_bind]. rewrite zlen_nil, Z.add_0_r. by destruct Hc as [->| ->].
  - rewrite fmap_cons in Hs. change ((chr64 x :: (chr64 <$> xs)) ++ c :: l) with (chr64 x :: (chr64 <$> xs) ++ c :: l) in Hs. rewrite (starts_here _ _ _ _ Hs). cbn [mbind option_bind].
    destruct (pr2six_chr x Hx) as (Hp & H13 & H10). rewrite (proj2 (Z.eqb_neq _ 13)), (proj2 (Z.eqb_neq _ 10)), Hp by done. cbn [orb mbind option_bind].
    rewrite (proj2 (Z.ltb_ge 63 x)) by lia. rewrite zlen_cons in *. pose proof (zlen_nonneg xs). unfold as_int. rewrite (proj2 (Z.leb_le _ _)), (proj2 (Z.ltb_lt _ _)) by lia. cbn [andb mbind option_bind].
    rewrite IH; [f_equal; lia|apply (starts_drop _ _ [chr64 x] _ Hs)|simpl in Hf; lia|lia|lia].
Qed.

Lemma sextet_ok p x l i : starts bufcoded p ((chr64 <$> l)) → 0 <= i → l !! Z.to_nat i = Some x → 0 <= x < 64 → sextet bufcoded (p + i) = Some x.
Proof.
  intros Hs Hi Hl Hx. unfold sextet. rewrite (starts_get _ _ _ i (chr64 x) Hs Hi) by (by rewrite list_lookup_fmap, Hl). cbn [mbind option_bind]. by destruct (pr2six_chr x Hx) as [? _].
Qed.

(** Three bytes from four sextets. *)
Lemma join_bytes a b c : is_byte a → is_byte b → is_byte c →
  uchar (Z.lor (Z.shiftl (a / 4) 2) (Z.shiftr (a mod 4 * 16 + b / 16) 4)) = a ∧
  uchar (Z.lor (Z.shiftl (a mod 4 * 16 + b / 16) 4) (Z.shiftr (b mod 16 * 4 + c / 64) 2)) = b ∧
  uchar (Z.lor (Z.shiftl (b mod 16 * 4 + c / 64) 6) (c mod 64)) = c.
Proof.
  intros Ba Bb Bc. byte_bounds. rewrite !Z.shiftl_mul_pow2, !Z.shiftr_div_pow2 by lia. change (2 ^ 2) with 4. change (2 ^ 4) with 16. change (2 ^ 6) with 64.
  assert ((a mod 4 * 16 + b / 16) / 16 = a mod 4) as -> by (rewrite Z.div_add_l, Z.div_small by lia; lia).
  assert ((b mod 16 * 4 + c / 64) / 4 = b mod 16) as -> by (rewrite Z.div_add_l, Z.div_small by lia; lia).
  rewrite (lor_sum (a / 4) 2), (lor_sum (a mod 4 * 16 + b / 16) 4), (lor_sum (b mod 16 * 4 + c / 64) 6) by lia. change (2 ^ 2) with 4. change (2 ^ 4) with 16. change (2 ^ 6) with 64. unfold uchar.
  split_and!.
  - rewrite Z.mod_small; lia.
  - replace ((a mod 4 * 16 + b / 16) * 16 + b mod 16) with (b + a mod 4 * 256) by lia. rewrite Z_mod_plus_full, Z.mod_small; lia.
  - replace ((b mod 16 * 4 + c / 64) * 64 + c mod 64) with (c + b mod 16 * 256) by lia. rewrite Z_mod_plus_full, Z.mod_small; lia.
Qed.

(** What is left of the count after the loop. *)
Definition left_over (s : list Z) : Z := match s with [] => 0 | _ => match Z.of_nat (length s) mod 3 with 1 => 2 | 2 => 3 | _ => 4 end end.

Ltac next_byte := rewrite put_ok; [cbn [mbind option_bind]|repeat rewrite zlen_drop_nat; lia].

Lemma decode_run s : Forall is_byte s → ∀ fuel p out rest, starts bufcoded p (chr64 <$> sextets s) → zlen s <= zlen rest → (length s < fuel)%nat →
  ('(bufin, npr, st) ← decode_loop bufcoded fuel p (zlen (sextets s)) (buf out rest); st ← decode_tail bufcoded bufin npr st; Some (npr, st)) =
  Some (left_over s, buf (out ++ s) (drop (length s) rest)).
Proof.
  induction s as [|a|a b|a b c s IH] using triple_ind; intros Hb fuel p out rest Hs Hr Hf; (destruct fuel as [|fuel]; [lia|]); pose proof (sextets_range _ Hb) as Hx.
  - cbn [decode_loop sextets]. rewrite zlen_nil. cbn [Z.ltb Z.compare mbind option_bind]. unfold decode_tail. cbn. by rewrite app_nil_r, drop_0.
  - apply Forall_cons in Hb as [Ba _]. cbn [sextets] in *. cbn [decode_loop]. change (zlen [_; _]) with 2. cbn [Z.ltb Z.compare Pos.compare Pos.compare_cont mbind option_bind]. unfold decode_tail. cbn [Z.ltb Z.compare Pos.compare Pos.compare_cont].
    rewrite (sextet_ok p (a mod 4 * 16) _ 1 Hs) by (done || (apply Forall_cons in Hx as [_ [? _]%Forall_cons]; lia)). rewrite <- (Z.add_0_r p), (sextet_ok p (a / 4) _ 0 Hs) by (done || (apply Forall_cons in Hx as [? _]; lia)).
    cbn [mbind option_bind]. rewrite zlen_cons, zlen_nil in Hr. pose proof (join_bytes a 0 0 Ba ltac:(unfold is_byte; lia) ltac:(unfold is_byte; lia)) as (Hj & _). change (0 / 16) with 0 in Hj. rewrite Z.add_0_r in Hj. rewrite Hj.
    next_byte. done.
  - apply Forall_cons in Hb as [Ba [Bb _]%Forall_cons]. cbn [sextets] in *. cbn [decode_loop]. change (zlen [_; _; _]) with 3. cbn [Z.ltb Z.compare Pos.compare Pos.compare_cont mbind option_bind]. unfold decode_tail. cbn [Z.ltb Z.compare Pos.compare Pos.compare_cont].
    apply Forall_cons in Hx as [Hx0 Hx]. apply Forall_cons in Hx as [Hx1 Hx]. apply Forall_cons in Hx as [Hx2 _].
    rewrite (sextet_ok p (a mod 4 * 16 + b / 16) _ 1 Hs), (sextet_ok p (b mod 16 * 4) _ 2 Hs) by done. rewrite <- (Z.add_0_r p), (sextet_ok p (a / 4) _ 0 Hs) by done.
    cbn [mbind option_bind]. rewrite !zlen_cons, zlen_nil in Hr. pose proof (join_bytes a b 0 Ba Bb ltac:(unfold is_byte; lia)) as (Hj & Hj' & _). change (0 / 64) with 0 in Hj'. rewrite Z.add_0_r in Hj'. rewrite Hj, Hj'.
    next_byte. next_byte. by rewrite <- app_assoc, drop_drop.
  - apply Forall_cons in Hb as [Ba Hb]. apply Forall_cons in Hb as [Bb Hb]. apply Forall_cons in Hb as [Bc Hb]. cbn [sextets] in *. rewrite !zlen_cons in Hr.
    pose proof Hx as Hx'. apply Forall_cons in Hx' as [Hx0 Hx']. apply Forall_cons in Hx' as [Hx1 Hx']. apply Forall_cons in Hx' as [Hx2 Hx']. apply Forall_cons in Hx' as [Hx3 _].
    pose proof (sextet_ok p (a / 4) _ 0 Hs ltac:(lia) eq_refl Hx0) as G0. rewrite Z.add_0_r in G0.
    pose proof (sextet_ok p (a mod 4 * 16 + b / 16) _ 1 Hs ltac:(lia) eq_refl Hx1) as G1. pose proof (sextet_ok p (b mod 16 * 4 + c / 64) _ 2 Hs ltac:(lia) eq_refl Hx2) as G2. pose proof (sextet_ok p (c mod 64) _ 3 Hs ltac:(lia) eq_refl Hx3) as G3.
    destruct (join_bytes a b c Ba Bb Bc) as (Hj0 & Hj1 & Hj2). pose proof (zlen_nonneg s). destruct s as [|d s].
    + cbn [sextets app decode_loop]. change (zlen [_; _; _; _]) with 4. cbn [Z.ltb Z.compare Pos.compare Pos.compare_cont mbind option_bind]. unfold decode_tail. cbn [Z.ltb Z.compare Pos.compare Pos.compare_cont].
      rewrite G0, G1, G2, G3. cbn [mbind option_bind]. rewrite Hj0, Hj1, Hj2. do 3 next_byte. by rewrite <- !app_assoc, !drop_drop.
    + assert (1 <= zlen (sextets (d :: s))) as H1 by (destruct s as [|? [|? ?]]; unfold zlen; simpl; lia).
      cbn [decode_loop]. rewrite zlen_app. change (zlen [_; _; _; _]) with 4. rewrite (proj2 (Z.ltb_lt 4 _)) by lia.
      rewrite fmap_app in Hs. cbn [fmap list_fmap app] in Hs. rewrite (starts_here _ _ _ _ Hs). cbn [mbind option_bind]. destruct (pr2six_chr (a / 4) Hx0) as (_ & H13 & H10). rewrite (proj2 (Z.eqb_neq _ 13)), (proj2 (Z.eqb_neq _ 10)) by done. cbn [orb].
      rewrite G0, G1, G2, G3. cbn [mbind option_bind]. rewrite Hj0, Hj1, Hj2. do 3 next_byte. replace (4 + zlen (sextets (d :: s)) - 4) with (zlen (sextets (d :: s))) by lia.
      rewrite (IH Hb); [|apply (starts_drop _ _ [_; _; _; _] _ Hs)|rewrite !drop_drop, zlen_drop_nat; lia|simpl in *; lia]. rewrite <- !app_assoc, !drop_drop. f_equal. f_equal.
      unfold left_over. cbn [length]. replace (Z.of_nat (S (S (S (S (length s)))))) with (Z.of_nat (S (length s)) + 1 * 3) by lia. by rewrite Z_mod_plus_full.
Qed.
End DecodeProof.

(** ** The number of bytes *)

Lemma decoded_count s : Z.quot (zlen (sextets s) + 3) 4 * 3 - Z.land (4 - left_over s) 3 = zlen s ∧ zlen s <= Z.quot (zlen (sextets s) + 3) 4 * 3.
Proof.
  induction s as [|a|a b|a b c s IH] using triple_ind; try (split; reflexivity || (vm_compute; discriminate)).
  cbn [sextets]. rewrite zlen_app. change (zlen [_; _; _; _]) with 4. replace (zlen (a :: b :: c :: s)) with (zlen s + 3) by (unfold zlen; simpl; lia). pose proof (zlen_nonneg (sextets s)). rewrite !Z.quot_div_nonneg in * by lia.
  replace (4 + zlen (sextets s) + 3) with (zlen (sextets s) + 3 + 1 * 4) by lia. rewrite Z.div_add by lia.
  assert (Z.land (4 - left_over (a :: b :: c :: s)) 3 = Z.land (4 - left_over s) 3) as ->; [|lia].
  destruct s as [|d s]; [done|]. unfold left_over. cbn [length]. replace (Z.of_nat (S (S (S (S (length s)))))) with (Z.of_nat (S (length s)) + 1 * 3) by lia. by rewrite Z_mod_plus_full.
Qed.

Lemma sextets_le s : zlen (sextets s) <= 4 * ((zlen s + 2) / 3).
Proof.
  induction s as [|a|a b|a b c s IH] using triple_ind; try (vm_compute; discriminate). cbn [sextets]. rewrite zlen_app. change (zlen [_; _; _; _]) with 4. replace (zlen (a :: b :: c :: s)) with (zlen s + 3) by (unfold zlen; simpl; lia).
  replace (zlen s + 3 + 2) with (zlen s + 2 + 1 * 3) by lia. rewrite Z.div_add by lia. lia.
Qed.

Lemma sextets_longer s : (length s <= length (sextets s))%nat.
Proof. induction s using triple_ind; simpl; lia. Qed.

Lemma sextets_int s n : base64_encode_internal_len (zlen s) 0 = Some n → 0 <= zlen (sextets s) ∧ zlen (sextets s) + 3 < 2 ^ 31.
Proof.
  pose proof (zlen_nonneg s). pose proof (sextets_le s). pose proof (zlen_nonneg (sextets s)). unfold base64_encode_internal_len. intros H2. split; [done|].
  destruct (as_int (zlen s + 2)) as [a|] eqn:E1; [|done]. apply as_int_Some in E1 as [-> _]. cbn [mbind option_bind] in H2.
  destruct (as_int (Z.quot (zlen s + 2) 3 * 4)) as [b|] eqn:E2; [|done]. apply as_int_Some in E2 as [-> _]. cbn [mbind option_bind] in H2.
  destruct (as_int (Z.quot (zlen s + 2) 3 * 4 + 1)) as [l|] eqn:E3; [|done]. apply as_int_Some in E3 as [_ Hl]. rewrite Z.quot_div_nonneg in Hl by lia. lia.
Qed.

Lemma as_int_ok z : - 2 ^ 31 <= z < 2 ^ 31 → as_int z = Some z.
Proof. intros Hz. unfold as_int. by rewrite (proj2 (Z.leb_le _ _)), (proj2 (Z.ltb_lt _ _)) by lia. Qed.

Lemma decode_exact s n m rest plain : Forall is_byte s → base64_encode_len (zlen s) = Some n → base64_decode_len ((enc 0 0 s ++ [0]) ++ rest) = Some m → m <= zlen plain →
  base64_decode ((enc 0 0 s ++ [0]) ++ rest) plain = Some ((s ++ [0]) ++ drop (S (length s)) plain, zlen s).
Proof.
  intros Hb Hn Hm Hp. destruct (sextets_int s n Hn) as [H0 H1]. destruct (enc_sextets s) as (pad & Henc & c & l & Hpad & Hc). set (t := (enc 0 0 s ++ [0]) ++ rest) in *.
  assert (starts t 0 ((chr64 <$> sextets s) ++ pad)) as Hst by (exists [], rest; split; [unfold t; by rewrite Henc|done]).
  assert (length (sextets s) < S (length t))%nat as Hlen by (unfold t; rewrite Henc, !length_app, length_fmap; lia).
  assert (count_loop t (S (length t)) 0 0 = Some (zlen (sextets s))) as Hcount.
  { rewrite (count_ok t (sextets s) pad c l Hpad Hc (sextets_range s Hb) (S (length t)) 0 0 Hst Hlen); [done|lia|lia]. }
  destruct (decoded_count s) as [Hcnt Hle]. assert (0 <= Z.quot (zlen (sextets s) + 3) 4 * 3 < 2 ^ 31 - 1) as Hq.
  { rewrite Z.quot_div_nonneg by lia. pose proof (Z.div_mod (zlen (sextets s) + 3) 4 ltac:(lia)). pose proof (Z.mod_pos_bound (zlen (sextets s) + 3) 4 ltac:(lia)). split; [|lia]. apply Z.mul_nonneg_nonneg; [apply Z.div_pos|]; lia. }
  unfold base64_decode_len in Hm. rewrite Hcount in Hm. cbn [mbind option_bind] in Hm. rewrite as_int_ok in Hm by lia. cbn [mbind option_bind] in Hm. rewrite as_int_ok in Hm by lia. injection Hm as <-.
  unfold base64_decode. rewrite Hcount. cbn [mbind option_bind]. rewrite as_int_ok by lia. cbn [mbind option_bind]. rewrite as_int_ok by lia. cbn [mbind option_bind].
  pose proof (decode_run t s Hb (S (length t)) 0 [] plain (starts_take _ _ _ _ Hst)) as Hrun. change (buf [] plain) with (plain, 0) in Hrun.
  assert (length s < S (length t))%nat as Hf by (pose proof (sextets_longer s); lia).
  specialize (Hrun ltac:(lia) Hf). destruct (decode_loop _ _ _ _ _) as [[[bufin npr] st]|]; [|done]. cbn [mbind option_bind] in Hrun |- *.
  destruct (decode_tail _ _ _ _) as [st'|]; [|done]. cbn [mbind option_bind] in Hrun |- *. injection Hrun as -> ->. cbn [app].
  rewrite put_ok by (rewrite zlen_drop_nat; unfold zlen in *; lia). cbn [mbind option_bind]. unfold buf. cbn [fst snd]. rewrite drop_drop. rewrite Hcnt. do 3 f_equal. f_equal. lia.
Qed.

(** ** The theorems *)

(** [base64_encode] and [base64_encode_nl] write the Base64 text of the string, with a CRLF after each group that ends at a multiple of [wrap],
    and its terminator; when the buffer has the size [base64_encode_nl_len] gives, nothing is written outside it. *)
Theorem base64_encode_fits (s encoded : list Z) (wrap n : Z) :
  Forall is_byte s → base64_encode_nl_len (zlen s) wrap = Some n → n <= zlen encoded →
  base64_encode_nl encoded s (zlen s) wrap = Some ((enc wrap 0 s ++ [0]) ++ drop (S (length (enc wrap 0 s))) encoded, zlen (enc wrap 0 s)).
Proof. intros Hb Hn Hl. by eapply encode_exact. Qed.

Lemma base64_encode_fits_witness :
  base64_encode_nl (replicate 20 7) (bs "foobar") (zlen (bs "foobar")) 4 =
    Some ((enc 4 0 (bs "foobar") ++ [0]) ++ drop (S (length (enc 4 0 (bs "foobar")))) (replicate 20 7), zlen (enc 4 0 (bs "foobar"))) ∧
  enc 4 0 (bs "foobar") = bs "Zm9v" ++ [13; 10] ++ bs "YmFy" ++ [13; 10].
Proof.
  split; [|reflexivity]. apply (base64_encode_fits (bs "foobar") (replicate 20 7) 4 13); [|reflexivity|vm_compute; discriminate].
  repeat (constructor; [unfold is_byte; vm_compute; split; [discriminate|reflexivity]|]); constructor.
Defined.



(** A text with line ends is not decoded when one comes before its last group: [base64_decode] skips them only before the other groups. *)
Theorem base64_lines_misread :
  ∃ text, base64_encode_nl (replicate 13 0) (bs "foobar") 6 4 = Some (text, 12) ∧ base64_decode_len text = Some 7 ∧
    base64_decode text (replicate 7 0) = Some (bs "foo" ++ [4; 6; 38; 0], 6).
Proof. eexists. split; [vm_compute; reflexivity|]. split; vm_compute; reflexivity. Qed.
