(* ===== verification/HttpResponse.v ===== *)
(** The response object of the server ([httpresponse.c], [httpcommon.c]): its status, its list of headers with the operations
    the filters use on it, its body and the file behind it.

    [header_] is the chain of headers in order, whose last node is [last_header]. A header's key and value are the copied bytes,
    without the terminator that follows them in memory; functions on C strings see them up to the first zero ([cstr]).
    The file is outside the program: [f_content] are its bytes, and the answers of [pread] are a script. *)

From S2P Require Import Prelude Helpers QueryParser Bufo WriteFilter.

Inductive http_content_encoding : Set := CE_NONE | CE_GZIP.
Inductive http_transfer_encoding : Set := TE_NONE | TE_CHUNKED | TE_GZIP.

#[export] Instance content_encoding_eq : EqDecision http_content_encoding.
Proof. solve_decision. Defined.
#[export] Instance transfer_encoding_eq : EqDecision http_transfer_encoding.
Proof. solve_decision. Defined.

(** An answer of [pread]; at the end of the file there is nothing to give. *)
Inductive read_outcome : Set :=
  | Got (n : Z)        (** at least one and at most [n] bytes *)
  | ReadInterrupted    (** -1 with EINTR *)
  | ReadFailed.        (** -1 with any other errno *)

(** [fd > -1] is [f_open]. *)
Record file : Set := File {
  f_open : bool;
  f_size : Z;
  f_mtime : Z;
  f_content : list Z;
  f_reads : list read_outcome }.

Record httpresponse : Set := Rsp {
  rs_status_code : Z;
  rs_header : list http_header;
  rs_content_length : Z;
  rs_content_encoding : http_content_encoding;
  rs_transfer_encoding : http_transfer_encoding;
  rs_range : bool;
  rs_last_modified : bool;
  rs_body : bufo;
  rs_file : file }.

Definition with_status (r : httpresponse) (code : Z) : httpresponse :=
  Rsp code (rs_header r) (rs_content_length r) (rs_content_encoding r) (rs_transfer_encoding r) (rs_range r) (rs_last_modified r) (rs_body r) (rs_file r).
Definition with_headers (r : httpresponse) (hs : list http_header) : httpresponse :=
  Rsp (rs_status_code r) hs (rs_content_length r) (rs_content_encoding r) (rs_transfer_encoding r) (rs_range r) (rs_last_modified r) (rs_body r) (rs_file r).
Definition with_encodings (r : httpresponse) (ce : http_content_encoding) (te : http_transfer_encoding) : httpresponse :=
  Rsp (rs_status_code r) (rs_header r) (rs_content_length r) ce te (rs_range r) (rs_last_modified r) (rs_body r) (rs_file r).
Definition with_body (r : httpresponse) (b : bufo) : httpresponse :=
  Rsp (rs_status_code r) (rs_header r) (rs_content_length r) (rs_content_encoding r) (rs_transfer_encoding r) (rs_range r) (rs_last_modified r) b (rs_file r).
Definition with_reads (r : httpresponse) (outs : list read_outcome) : httpresponse :=
  Rsp (rs_status_code r) (rs_header r) (rs_content_length r) (rs_content_encoding r) (rs_transfer_encoding r) (rs_range r) (rs_last_modified r) (rs_body r)
    (File (f_open (rs_file r)) (f_size (rs_file r)) (f_mtime (rs_file r)) (f_content (rs_file r)) outs).

(** What the write filter reads of it. *)
Definition head_of (r : httpresponse) : response := Response (rs_status_code r) (rs_header r).

(** [response->body.size], or the size of the file when there is one. *)
Definition data_size (r : httpresponse) : Z := if f_open (rs_file r) then f_size (rs_file r) else buf_size (rs_body r).

(** ** Strings *)

Definition cmpstr_lower (a b : list Z) : bool := cmpstrn_lower (cstr a) (cstr b).

(** ["%zu"]: decimal, at most 20 digits for a [size_t]. *)
Fixpoint dec_digits (fuel : nat) (n : Z) : list Z :=
  match fuel with
  | O => []
  | S f => if n <? 10 then [48 + n] else dec_digits f (n / 10) ++ [48 + n mod 10]
  end.
Definition print_zu (n : Z) : list Z := dec_digits 20 n.

(** ** Reading the file *)

Definition slice (offset size : Z) (l : list Z) : list Z := take (Z.to_nat size) (drop (Z.to_nat offset) l).

(** [do r = pread(fd, dst, size, offset); while (r == -1 && errno == EINTR)]: the bytes read, or [None] for -1. *)
Fixpoint pread_loop (outs : list read_outcome) (content : list Z) (size offset : Z) : option (list Z) * list read_outcome :=
  match outs with
  | [] => (Some (slice offset size content), [])
  | ReadInterrupted :: outs' => pread_loop outs' content size offset
  | ReadFailed :: outs' => (None, outs')
  | Got n :: outs' => (Some (take (Z.to_nat (Z.max 1 n)) (slice offset size content)), outs')
  end.

(** [pread] or [read] once, not repeated: the bytes read, or [None] for -1. *)
Definition pread_once (outs : list read_outcome) (content : list Z) (size offset : Z) : option (list Z) * list read_outcome :=
  match outs with
  | [] => (Some (slice offset size content), [])
  | Got n :: outs' => (Some (take (Z.to_nat (Z.max 1 n)) (slice offset size content)), outs')
  | _ :: outs' => (None, outs')
  end.

(** ** Headers *)

Definition SIZEOF_HEADER : Z := 40.

Section Headers.
Variable alloc : Z → bool.
(** [env()->main.gzip]: the MIME types the configuration compresses. *)
Variable gzip_types : list (list Z).

Definition http_header_create (key value : list Z) : option http_header :=
  if alloc SIZEOF_HEADER then
    match copy_cstringn alloc key, copy_cstringn alloc value with
    | Some k, Some v => Some (HttpHeader k v (zlen k) (zlen v))
    | _, _ => None
    end
  else None.

(** The first header of that name is taken out. *)
Fixpoint http_header_delete (hs : list http_header) (name : list Z) : list http_header :=
  match hs with
  | [] => []
  | h :: hs' => if cmpstrn_lower (key h) name then hs' else h :: http_header_delete hs' name
  end.

Definition httpresponse_header_get (r : httpresponse) (name : list Z) : option http_header :=
  List.find (λ h, cmpstr_lower (key h) name) (rs_header r).

Definition httpresponse_header_exist (r : httpresponse) (name : list Z) : bool :=
  existsb (λ h, cmpstr_lower (key h) name) (rs_header r).

Definition httpresponse_try_enable_gzip (r : httpresponse) (directive : list Z) : httpresponse :=
  if rs_range r then r
  else if existsb (λ item, cmpstr_lower item directive) gzip_types then with_encodings r CE_GZIP TE_CHUNKED
  else r.

Definition httpresponse_try_enable_te (r : httpresponse) (directive : list Z) : httpresponse :=
  if rs_range r then r
  else if negb (cmpstr_lower directive (bs "chunked")) then r
  else with_encodings r (rs_content_encoding r) TE_CHUNKED.

(** 1 or 0, and the response. *)
Definition httpresponse_headern_add (r : httpresponse) (name : list Z) (name_length : Z) (value : list Z) (value_length : Z)
    : option (bool * httpresponse) :=
  k ← mem_read name 0 name_length;
  if rs_range r && (cmpstrn_lower k (bs "Transfer-Encoding") || cmpstrn_lower k (bs "Content-Encoding")) then Some (true, r)
  else
    v ← mem_read value 0 value_length;
    match http_header_create k v with
    | None => Some (false, r)
    | Some h =>
        let r := with_headers r (rs_header r ++ [h]) in
        if rs_range r then Some (true, r)
        else if cmpstr_lower (key h) (bs "Content-Type") && (1024 <=? data_size r) then
          Some (true, httpresponse_try_enable_gzip r (WriteFilter.value h))
        else if cmpstr_lower (key h) (bs "Transfer-Encoding") then Some (true, httpresponse_try_enable_te r (WriteFilter.value h))
        else if cmpstr_lower (key h) (bs "Content-Encoding") && cmpstr_lower (WriteFilter.value h) (bs "gzip") then
          Some (true, with_encodings r CE_GZIP (rs_transfer_encoding r))
        else Some (true, r)
    end.

(** [strlen] of both arguments. *)
Definition httpresponse_header_add (r : httpresponse) (name value : list Z) : option (bool * httpresponse) :=
  httpresponse_headern_add r name (zlen (cstr name)) value (zlen (cstr value)).

Definition httpresponse_headeru_add (r : httpresponse) (name : list Z) (name_length : Z) (value : list Z) (value_length : Z)
    : option (bool * httpresponse) :=
  if httpresponse_header_exist r name then Some (true, r)
  else httpresponse_headern_add r name name_length value value_length.

Definition httpresponse_header_remove (r : httpresponse) (name : list Z) : bool * httpresponse :=
  match rs_header r with
  | [] => (false, r)
  | _ => if negb (httpresponse_header_exist r name) then (false, r)
         else (true, with_headers r (http_header_delete (rs_header r) (cstr name)))
  end.

(** [while (value) { content_length++; value /= 10; }] *)
Fixpoint count_digits (fuel : nat) (value content_length : Z) : option Z :=
  match fuel with
  | O => None
  | S f => if value =? 0 then Some content_length else count_digits f (value / 10) (content_length + 1)
  end.

Definition httpresponse_header_add_content_length (r : httpresponse) (length : Z) : option (bool * httpresponse) :=
  if length =? 0 then httpresponse_headern_add r (bs "Content-Length") 14 (bs "0") 1
  else
    content_length ← count_digits 21 length 0;
    let content_string := take 31 (print_zu length) ++ [0] in
    httpresponse_headern_add r (bs "Content-Length") 14 content_string content_length.
End Headers.

(** ** Decimal numbers *)

Definition dec_value (l : list Z) : Z := foldl (λ a c, a * 10 + (c - 48)) 0 l.

Lemma dec_value_snoc l c : dec_value (l ++ [c]) = dec_value l * 10 + (c - 48).
Proof. unfold dec_value. by rewrite foldl_snoc. Qed.

Lemma dec_digits_value fuel : ∀ n, 0 <= n < 10 ^ Z.of_nat fuel → dec_value (dec_digits fuel n) = n.
Proof.
  induction fuel as [|f IH]; intros n Hn; [change (10 ^ Z.of_nat 0) with 1 in Hn; assert (n = 0) as -> by lia; done|].
  cbn [dec_digits]. destruct (Z.ltb_spec n 10); [unfold dec_value; simpl; lia|].
  rewrite dec_value_snoc, IH; [pose proof (Z.div_mod n 10 ltac:(lia)); lia|].
  rewrite Nat2Z.inj_succ, Z.pow_succ_r in Hn by lia. split; [apply Z.div_pos; lia|apply Z.div_lt_upper_bound; lia].
Qed.

Lemma print_zu_value n : 0 <= n <= SIZE_MAX → dec_value (print_zu n) = n.
Proof. intros Hn. apply dec_digits_value. unfold SIZE_MAX in Hn. change (10 ^ Z.of_nat 20) with 100000000000000000000. lia. Qed.

Lemma print_zu_chars fuel : ∀ n, 0 <= n → Forall (λ c, 48 <= c < 58) (dec_digits fuel n).
Proof.
  induction fuel as [|f IH]; intros n Hn; cbn [dec_digits]; [done|]. case_if; reflect_bools; [repeat constructor; lia|].
  apply Forall_app. split; [apply IH, Z.div_pos; lia|]. pose proof (Z.mod_pos_bound n 10 ltac:(lia)). repeat constructor; lia.
Qed.

Lemma zlen_print_zu n : 1 <= zlen (print_zu n) <= 20.
Proof.
  unfold print_zu. assert (∀ f m, zlen (dec_digits f m) <= Z.of_nat f) as Hle.
  { induction f as [|f IH]; intros m; cbn [dec_digits]; [done|]. case_if; autorewrite with zlen; [lia|]. specialize (IH (m / 10)). lia. }
  split; [|apply Hle]. change 20%nat with (S 19). generalize 19%nat. intros f. cbn [dec_digits]. case_if; autorewrite with zlen; [lia|].
  pose proof (zlen_nonneg (dec_digits f (n / 10))). lia.
Qed.

Lemma count_digits_ok f : ∀ fuel n k, 0 <= n < 10 ^ Z.of_nat f → (f <= fuel)%nat →
  count_digits (S fuel) n k = Some (k + if n =? 0 then 0 else zlen (dec_digits f n)).
Proof.
  induction f as [|f IH]; intros fuel n k Hn Hf.
  - change (10 ^ Z.of_nat 0) with 1 in Hn. assert (n = 0) as -> by lia. cbn [count_digits]. change (0 =? 0) with true. cbn iota. by rewrite Z.add_0_r.
  - cbn [count_digits dec_digits]. destruct (Z.eqb_spec n 0); [by rewrite Z.add_0_r|]. destruct fuel as [|fuel]; [lia|].
    assert (0 <= n / 10 < 10 ^ Z.of_nat f) as Hd.
    { rewrite Nat2Z.inj_succ, Z.pow_succ_r in Hn by lia. split; [apply Z.div_pos; lia|apply Z.div_lt_upper_bound; lia]. }
    rewrite (IH fuel _ _ Hd) by lia. f_equal. destruct (Z.ltb_spec n 10).
    + rewrite Z.div_small by lia. change (0 =? 0) with true. cbn iota. autorewrite with zlen. lia.
    + destruct (Z.eqb_spec (n / 10) 0); [pose proof (Z.div_mod n 10 ltac:(lia)); pose proof (Z.mod_pos_bound n 10 ltac:(lia)); lia|]. autorewrite with zlen. lia.
Qed.
