(* ===== verification/BodyChain.v ===== *)
(** What a chain of filters promises to the filter that produces the body.

    A producer offers its buffers one after the other. [BodyChain] says of the filters below: while a buffer is being worked on,
    the bytes on the wire and the bytes still to come make up the coding of that buffer; the chain asks for the next buffer
    when it has taken all of this one, waits only while the socket may still answer, and fails only if the socket does.
    The socket's filter and the chunked filter over it are instances, so the producers' theorems hold over both. [pump], the loop of a producer, is the second part. *)

From S2P Require Import Prelude Bufo WriteFilter ChunkedFilter.

(** A buffer that can be offered. *)
Definition offered (p : bufo) : Prop := Readable p ∧ buf_data p ≠ None.

Class BodyChain (S : Type) `{BodySink S} : Type := {
  wire : S → list Z;
  waits : S → nat;
  unbroken : S → bool;
  idle : S → Prop;
  accepts : bool → list Z → Prop;
  coding : bool → list Z → list Z;
  busy : S → bufo → list Z → Prop;
  start_ok s p : idle s → offered p → accepts (buf_is_last p) (unread p) → busy s p (coding (buf_is_last p) (unread p));
  step_ok s p todo : busy s p todo →
    ∃ r s' p' out todo', next_body s p = Some (r, s', p') ∧ wire s' = wire s ++ out ∧ todo = out ++ todo' ∧
      same_block p p' ∧ (waits s' <= waits s)%nat ∧ (unbroken s = true → unbroken s' = true) ∧
      ((r = CWF_DATA_AGAIN ∧ todo' = [] ∧ buf_pos p' = buf_size p' ∧ (buf_is_last p = false → idle s')) ∨
       (r = CWF_EVENT_AGAIN ∧ busy s' p' todo' ∧ (waits s' < waits s ∨ waits s' = 0)%nat) ∨
       (r = CWF_ERROR ∧ unbroken s = false)) }.

(** ** A filter that passes bytes on *)

#[export] Program Instance sink_chain {S : Type} `{BodySinkLaws S} : BodyChain S := {
  wire := emitted;
  waits := pending;
  unbroken := sound;
  idle _ := True;
  accepts _ _ := True;
  coding _ data := data;
  busy _ p todo := offered p ∧ todo = unread p }.
Next Obligation. done. Qed.
Next Obligation.
  intros S ? ? s p todo [[Hr Hd] ->].
  destruct (next_body_ok s p Hr) as (r & s' & p' & o & E & Ho & Hu & Hr' & Hs & Hp & Hsd & Ha); [by intros|].
  exists r, s', p', o, (unread p'). split_and!; try done.
  destruct Ha as [? Hn|? ?|? ?]; [left|right; left|right; right; done].
  - split_and!; try done. by apply unread_nil.
  - split; [done|]. split; [|done]. split; [|done]. split; [done|]. by destruct Hs as (-> & _).
Qed.

(** ** The chunked filter *)

(** Once the closing bytes of the last buffer are due, nothing of it is left unread. *)
Definition drained (m : http_module_chunked) (p : bufo) : Prop :=
  ck_state m = HTTP_MODULE_CHUNKED_END ∨ (ck_state m = HTTP_MODULE_CHUNKED_SEP ∧ buf_is_last p = true) → unread p = [].

Definition turn_drained (t : turn) : Prop :=
  match t with Again m p | Return _ m p => drained m p end.

Lemma append_text_state m text size m' full :
  append_text m text size = Some (Some (m', full)) → ck_state m' = ck_state m.
Proof.
  unfold append_text. intros E. destruct (mem_read _ _ _) as [src|]; [|done]. cbn [mbind option_bind] in E.
  destruct (bufo_append _ _) as [[w b]|]; [|done]. cbn [mbind option_bind] in E. destruct (w <? 0); [done|]. by injection E as <- <-.
Qed.

Lemma chunk_head_set_state m p ok m' : chunk_head_set m p = Some (ok, m') → ck_state m' = ck_state m.
Proof.
  unfold chunk_head_set. intros E. destruct (_ <? _); [by injection E as <- <-|]. destruct (ck_chunk_head m); [|done]. cbn [mbind option_bind] in E.
  destruct (mem_write _ _ _); [|done]. cbn [mbind option_bind] in E. by destruct (_ <=? _); injection E as <- <-.
Qed.

Section Chunked.
Variable alloc : Z → bool.
Variable junk : Z.
Hypothesis head_memory : alloc CHUNK_HEAD_MAX_SIZE = true.
Variable C : Z.
Hypothesis capacity_ok : 3 <= C <= BUFO_MAX_CAPACITY.

Lemma update_state_size m p ok m' : chunked_update_state alloc junk m p = Some (ok, m') → ck_state m' = HTTP_MODULE_CHUNKED_SIZE.
Proof.
  unfold chunked_update_state, chunk_head_create. destruct (ck_chunk_head _).
  - intros E. by apply chunk_head_set_state in E.
  - destruct (alloc _); [|by intros [= <- <-]]. intros E. by apply chunk_head_set_state in E.
Qed.

Lemma drained_turn_size m p t : Readable p → ck_state m = HTTP_MODULE_CHUNKED_SIZE → turn_size alloc junk m p = Some t → turn_drained t.
Proof.
  intros Hr Hs. unfold turn_size.
  assert (∀ m0, ck_state m0 = HTTP_MODULE_CHUNKED_SIZE → drained m0 p) as Hsize by (intros m0 E [E1|[E1 _]]; rewrite E in E1; done).
  assert (∀ m0, ck_state m0 = HTTP_MODULE_CHUNKED_SIZE → (head ← ck_chunk_head m0; r ← append_text m0 head (ck_chunk_head_size m0);
    match r with None => Some (Return false m0 p) | Some (m', true) => Some (Return true m' p)
    | Some (m', false) => Some (Again (at_state m' HTTP_MODULE_CHUNKED_DATA 0) p) end) = Some t → turn_drained t) as Hsend.
  { intros m0 E0. destruct (ck_chunk_head m0); [|done]. cbn [mbind option_bind]. destruct (append_text m0 _ _) as [[[m' [|]]|]|] eqn:Ea; cbn [mbind option_bind]; intros [= <-]; cbn [turn_drained].
    - apply Hsize. by rewrite (append_text_state _ _ _ _ _ Ea).
    - by intros [E1|[E1 _]].
    - by apply Hsize. }
  destruct (_ =? 0); [|by apply Hsend].
  destruct (_ <? _); [intros [= <-]; by apply Hsize|]. destruct (Z.eqb_spec (buf_pos p) (bufo_size p)) as [Hp|_].
  - destruct (negb _); intros [= <-]; [by apply Hsize|]. intros _. by apply (unread_nil p Hr).
  - destruct (chunked_update_state _ _ _ _) as [[ok m']|] eqn:Eu; [|done]. cbn [mbind option_bind]. pose proof (update_state_size _ _ _ _ Eu).
    destruct ok; [by apply Hsend|intros [= <-]; by apply Hsize].
Qed.

Lemma drained_turn m p t :
  CInv C m p → Filling (ck_buf m) → ck_done m = false → drained m p → chunked_turn alloc junk m p = Some t → turn_drained t.
Proof.
  intros Hi Hf Hd HD E. pose proof (ci_parent _ _ _ Hi) as Hr.
  destruct (chunked_turn_ok alloc junk head_memory C ltac:(lia) m p Hi Hf Hd) as (t' & E' & Hg). rewrite E in E'. injection E' as E'. subst t'.
  unfold chunked_turn in E. destruct (ck_state m) eqn:Es.
  - by eapply drained_turn_size.
  - revert E Hg. unfold turn_data. cbv zeta. match goal with |- context [?x =? 0] => destruct (x =? 0) end; [intros [= <-] _ [E1|[E1 _]]; congruence|].
    destruct (bufo_data p); [|done]. cbn [mbind option_bind]. destruct (mem_read _ _ _); [|done]. cbn [mbind option_bind].
    destruct (bufo_append _ _) as [[w b]|]; [|done]. cbn [mbind option_bind]. destruct (w <? 0); [intros [= <-] _ [E1|[E1 _]]; congruence|].
    destruct (bufo_move_front_pos p w) as [mv p']. destruct (ck_state_pos m + mv <? _); intros [= <-].
    + by intros _ [E1|[E1 _]].
    + intros (_ & _ & Hrk) _. unfold rank in Hrk. rewrite Es in Hrk. cbn [ck_state at_state] in Hrk. by destruct (unread p'); [|lia].
  - unfold turn_sep in E. destruct (append_text m CRLF 2) as [[[m' [|]]|]|] eqn:Ea; cbn [mbind option_bind] in E; try (injection E as <-).
    + intros [E1|[_ E1]]; [rewrite (append_text_state _ _ _ _ _ Ea) in E1; congruence|]. apply HD. auto.
    + destruct (buf_is_last p) eqn:El; [injection E as <-; intros _; apply HD; auto|]. by destruct (_ <? _); injection E as <-; intros [E1|[E1 _]].
    + intros [E1|[_ E1]]; [congruence|]. apply HD. auto.
    + done.
  - assert (unread p = []) as Hu by (apply HD; by left). unfold turn_end in E.
    destruct (append_text m LAST_CHUNK 5) as [[[m' [|]]|]|]; cbn [mbind option_bind] in E; try done; injection E as <-; by intros _.
Qed.

Lemma drained_loop fuel : ∀ m p ok m' p',
  CInv C m p → Filling (ck_buf m) → ck_done m = false → drained m p → chunked_loop alloc junk fuel m p = Some (ok, m', p') → drained m' p'.
Proof.
  induction fuel as [|f IH]; intros m p ok m' p' Hi Hf Hd HD; [done|]. cbn [chunked_loop].
  destruct (chunked_turn_ok alloc junk head_memory C ltac:(lia) m p Hi Hf Hd) as (t & E & Hg).
  pose proof (drained_turn m p t Hi Hf Hd HD E) as HD'. rewrite E. cbn [mbind option_bind]. destruct t as [m1 p1|ok1 m1 p1].
  - destruct Hg as ([Hi1 Hf1 _ _ _] & Hd1 & _). by apply IH.
  - by intros [= _ <- <-].
Qed.

Lemma drained_flush {S : Type} `{BodySinkLaws S} fuel : ∀ resumed m (s : S) p r m' s' p',
  CInv C m p → OwnBuf C (ck_buf m) → (resumed = false → ck_done m = false) → drained m p →
  chunked_flush alloc junk fuel resumed m s p = Some (r, (m', s'), p') → drained m' p'.
Proof.
  induction fuel as [|f IH]; intros resumed m s p r m' s' p' Hi Hown Hd HD; [done|]. cbn [chunked_flush].
  destruct (prepare_ok alloc junk head_memory C ltac:(lia) resumed m p Hi Hown Hd) as (m1 & p1 & Eprep & Hi1 & Hown1 & Hs1 & _).
  assert (drained m1 p1) as HD1.
  { destruct resumed; [by injection Eprep as <- <-|]. revert Eprep. destruct (chunked_process alloc junk m p) as [[[ok m0] p0]|] eqn:Ep; [|done].
    cbn [mbind option_bind]. intros [= -> <- <-]. unfold chunked_process in Ep.
    assert (drained m0 p0) as HD0; [|exact HD0]. eapply (drained_loop 6 (with_buf m (bufo_reset_size (bufo_reset_pos (ck_buf m))))); try done.
    - destruct Hi. by constructor.
    - destruct Hown as [[] ? ? ?]. constructor; [constructor; simpl; try done; lia|done|done].
    - by apply Hd. }
  rewrite Eprep. cbn [mbind option_bind negb].
  destruct (next_body_ok s (ck_buf m1)) as (r1 & s1 & b1 & o & -> & _ & _ & Hr1 & Hsb & _); [apply Hown1|intros Hn; by destruct (ob_block _ _ Hown1)|].
  cbn [mbind option_bind]. set (m2 := with_cont (with_buf m1 b1) false).
  assert (CInv C m2 p1) as Hi2 by (destruct Hi1; constructor; try done; simpl; by destruct Hsb as (_ & -> & _)).
  assert (OwnBuf C (ck_buf m2)) as Hown2 by (by eapply own_next).
  assert (drained m2 p1) as HD2 by exact HD1.
  assert (∀ fl, ck_done m2 = false → chunked_flush alloc junk f fl m2 s1 p1 = Some (r, (m', s'), p') → drained m' p') as Hgo
    by (intros fl Hd2; by apply IH).
  destruct (_ =? CWF_DATA_AGAIN).
  - destruct (ck_done m2) eqn:Ed; [by intros [= _ <- _ <-]|]. destruct (buf_pos p1 <? buf_size p1); [by apply Hgo|]. destruct (buf_is_last p1); [by apply Hgo|by intros [= _ <- _ <-]].
  - destruct (_ =? CWF_EVENT_AGAIN); by intros [= _ <- _ <-].
Qed.
End Chunked.

(** The chunked filter over [S], for a response with these [transfer_encoding == TE_NONE] and [last_modified]. *)
Definition chunked_over (alloc : Z → bool) (junk : Z) (te_none last_modified : bool) (S : Type) : Type := (http_module_chunked * S)%type.
#[global] Typeclasses Opaque chunked_over.

#[export] Instance chunked_sink alloc junk te_none last_modified {S : Type} `{BodySink S} : BodySink (chunked_over alloc junk te_none last_modified S) := {
  next_body := http_chunked_body alloc junk te_none last_modified }.

(** A response that is not chunked passes through. *)
#[export] Program Instance chunked_pass_laws alloc junk last_modified {S : Type} `{BodySinkLaws S} : BodySinkLaws (chunked_over alloc junk true last_modified S) := {
  emitted ms := emitted ms.2;
  pending ms := pending ms.2;
  sound ms := sound ms.2 }.
Next Obligation.
  intros alloc junk lm S ? ? [m s] b Hr Hd. simpl. unfold http_chunked_body. cbn [orb].
  destruct (next_body_ok s b Hr Hd) as (r & s' & b' & o & -> & ?). cbn [mbind option_bind]. by exists r, (m, s'), b', o.
Qed.

(** Between two buffers with nothing held back. *)
Definition clear_between (m : http_module_chunked) : Prop := Between BUF_SIZE m ∧ carry m = [].

Definition chunked_busy (m : http_module_chunked) (p : bufo) (todo : list Z) : Prop :=
  CInv BUF_SIZE m p ∧ OwnBuf BUF_SIZE (ck_buf m) ∧ (ck_cont m = false → ck_done m = false) ∧ drained m p ∧ todo = total m p ∧
  (buf_is_last p = false → owed m p = [] ∨ zlen (owed m p) mod BUF_SIZE ≠ 1 ∧ zlen (owed m p) mod BUF_SIZE ≠ 2).

Lemma chunked_between_after m p :
  CInv BUF_SIZE m p → OwnBuf BUF_SIZE (ck_buf m) → ck_cont m = false → ck_done m = false → buf_is_last p = false → unread p = [] →
  Between BUF_SIZE m ∧ owed m p = carry m.
Proof.
  intros [C1 C2 C3 C4 Cs] Hown Hct Hdn Hl Hu. unfold state_ok in Cs. unfold owed, carry, fresh, tail. destruct (ck_state m) eqn:Es.
  - destruct Cs as (? & [E|(_ & ? & _)]); [|done]. rewrite E, Hu, Hl. split; [|done]. constructor; auto.
  - by destruct Cs as (_ & _ & ? & _).
  - rewrite Hu, Hl, app_nil_r. split; [|done]. destruct Cs. constructor; auto.
  - destruct Cs. congruence.
Qed.

Lemma small_owed m : Between BUF_SIZE m → (carry m = [] ∨ zlen (carry m) mod BUF_SIZE ≠ 1 ∧ zlen (carry m) mod BUF_SIZE ≠ 2) → carry m = [].
Proof. intros Hb Hc. destruct (carry_short _ _ Hb) as [?|Hz]; [done|]. destruct Hc as [?|[H1 H2]]; [done|]. unfold BUF_SIZE in *. rewrite Z.mod_small in H1, H2 by lia. lia. Qed.

Section ChunkedChain.
Variable alloc : Z → bool.
Variable junk : Z.
Hypothesis head_memory : alloc CHUNK_HEAD_MAX_SIZE = true.
Context {S : Type} `{BodySinkLaws S}.

Lemma chunked_start (m : http_module_chunked) p : clear_between m → offered p → (buf_is_last p = false → ends_clear BUF_SIZE (unread p) = true) → chunked_busy m p (fresh p).
Proof.
  intros [Hb Hc] [Hr Hn] Hcl. assert (owed m p = fresh p) as Ho by (rewrite (between_owed _ _ _ Hb) by auto; by rewrite Hc).
  unfold chunked_busy. split_and!; try apply Hb.
  - eapply (between_inv _ m (buf_is_last p)); [done|]. by split_and!.
  - intros _. apply Hb.
  - intros Hs. exfalso. destruct Hb as [_ _ _ _ [[E _]|[E Hp]]]; [destruct Hs as [|[]]; congruence|]. unfold carry in Hc. rewrite E in Hc.
    apply (f_equal zlen) in Hc. rewrite zlen_drop in Hc. change (zlen CRLF) with 2 in Hc. change (zlen []) with 0 in Hc. lia.
  - unfold total. by rewrite (bt_cont _ _ Hb), Ho.
  - intros Hl. right. specialize (Hcl Hl). rewrite Ho. unfold fresh, tail. rewrite Hl, app_nil_r. unfold ends_clear in Hcl. reflect_bools. done.
Qed.

Lemma aligned_clear m p m' p' :
  aligned BUF_SIZE m p m' p' → (owed m p = [] ∨ zlen (owed m p) mod BUF_SIZE ≠ 1 ∧ zlen (owed m p) mod BUF_SIZE ≠ 2) →
  owed m' p' = [] ∨ zlen (owed m' p') mod BUF_SIZE ≠ 1 ∧ zlen (owed m' p') mod BUF_SIZE ≠ 2.
Proof.
  intros [Hle [?|Hm]] Hc; [by left|]. destruct Hc as [Hc|Hc]; [|right; by rewrite Hm]. left. apply zlen_0_nil. rewrite Hc in Hle.
  change (zlen []) with 0 in Hle. pose proof (zlen_nonneg (owed m' p')). lia.
Qed.

Lemma chunked_step (m : http_module_chunked) (s : S) p todo : chunked_busy m p todo →
  ∃ r m' s' p' out todo', http_chunked_body alloc junk false false (m, s) p = Some (r, (m', s'), p') ∧ emitted s' = emitted s ++ out ∧ todo = out ++ todo' ∧
    same_block p p' ∧ (pending s' <= pending s)%nat ∧ (sound s = true → sound s' = true) ∧
    ((r = CWF_DATA_AGAIN ∧ todo' = [] ∧ buf_pos p' = buf_size p' ∧ (buf_is_last p = false → clear_between m')) ∨
     (r = CWF_EVENT_AGAIN ∧ chunked_busy m' p' todo' ∧ (pending s' < pending s ∨ pending s' = 0)%nat) ∨
     (r = CWF_ERROR ∧ sound s = false)).
Proof.
  intros (Hi & Hown & Hd & HD & -> & Hcl).
  assert (0 < BUF_SIZE <= BUFO_MAX_CAPACITY ∧ 3 <= BUF_SIZE <= BUFO_MAX_CAPACITY) as [HC HC3] by (unfold BUF_SIZE, BUFO_MAX_CAPACITY; lia).
  destruct (http_chunked_body_ok alloc junk head_memory BUF_SIZE HC m s p Hi Hown Hd) as (r & m' & s' & p' & E & [B1 B2 B3 (out & Bo & Bt) B5 B6 B7 B8]).
  assert (drained m' p') as HD'.
  { revert E. cbn [http_chunked_body orb]. destruct (ck_cont m) eqn:Ec.
    - by apply (drained_flush alloc junk head_memory BUF_SIZE HC3).
    - apply (drained_flush alloc junk head_memory BUF_SIZE HC3); try done; [destruct Hi; by constructor|].
      apply (own_next BUF_SIZE (ck_buf m)); [done|done|]. destruct Hown as [[? ? ? ? ?] ? ? [? ? ?]]. constructor; simpl; lia. }
  pose proof B3 as (_ & _ & _ & _ & Hl').
  assert (buf_is_last p' = false → owed m' p' = [] ∨ zlen (owed m' p') mod BUF_SIZE ≠ 1 ∧ zlen (owed m' p') mod BUF_SIZE ≠ 2) as Hcl'.
  { intros Hl. rewrite Hl' in Hl. by apply (aligned_clear m p m' p' B7), Hcl. }
  exists r, m', s', p', out. pose proof (ci_parent _ _ _ B1) as Hr'. destruct B8 as [Hr Hct Hlast Hnil|Hr Hct Hdn Hl Hu|Hr Hct Hp|Hr Hf].
  - exists []. rewrite Hr, decide_True, Hnil in Bt by done. split_and!; try done. left. split_and!; try done; [|congruence].
    apply (unread_nil p' Hr'), HD'. destruct (ck_state m') eqn:Es.
    + exfalso. unfold owed in Hnil. rewrite Es in Hnil. unfold fresh, tail in Hnil. rewrite Hlast in Hnil. destruct (_ =? 0); by repeat apply app_nil in Hnil as [? Hnil].
    + exfalso. unfold owed in Hnil. rewrite Es in Hnil. by repeat apply app_nil in Hnil as [? Hnil].
    + auto.
    + auto.
  - exists []. destruct (chunked_between_after m' p' B1 B2 Hct Hdn Hl Hu) as [Hb Hoc]. rewrite Hr, decide_True in Bt by done.
    assert (carry m' = []) as Hcar by (apply small_owed; [done|]; rewrite <- Hoc; auto). rewrite Hoc, Hcar in Bt.
    split_and!; try done. left. split_and!; try done. by apply (unread_nil p' Hr').
  - eexists. rewrite decide_False in Bt by (by rewrite Hr). split_and!; try done. right; left. split; [done|]. split; [|done].
    unfold chunked_busy. split_and!; try done; [congruence|]. unfold total. by rewrite Hct.
  - eexists. split_and!; try done. auto.
Qed.

#[export] Program Instance chunked_chain : BodyChain (chunked_over alloc junk false false S) := {
  wire ms := emitted ms.2;
  waits ms := pending ms.2;
  unbroken ms := sound ms.2;
  idle ms := clear_between ms.1;
  accepts last data := last = false → ends_clear BUF_SIZE data = true;
  coding last data := chunk data ++ (if last then LAST_CHUNK else []);
  busy ms p todo := chunked_busy ms.1 p todo }.
Next Obligation. intros [m s] p Hid Ho Hc. by apply chunked_start. Qed.
Next Obligation.
  intros [m s] p todo Hb. destruct (chunked_step m s p todo Hb) as (r & m' & s' & p' & out & todo' & E & ?). by exists r, (m', s'), p', out, todo'.
Qed.
End ChunkedChain.

(** The loop of a filter that produces a body: fetch the next buffer, offer it to the filters below, and go on when they ask for
    more. The data filter and the range filter run this loop with different ways to fetch; [pump_ok] says that over any chain
    the wire gets the coding of the fetched pieces, across any number of waits. *)

(** [pr_fetch] answers with the handler's return value when there is nothing to offer; [pr_after] is tested when a buffer was
    taken; [pr_fuel] bounds the turns of the loop. *)
Class Producer (P : Type) : Type := {
  pr_cont : P → bool;
  pr_set_cont : P → bool → P;
  pr_buf : P → option bufo;
  pr_put : P → bufo → P;
  pr_fetch : P → option (option Z * P);
  pr_after : P → option Z;
  pr_fuel : P → nat }.

(** Entered at the label [cont] when [resumed]. *)
Fixpoint pump {P S : Type} `{Producer P} `{BodySink S} (fuel : nat) (resumed : bool) (p : P) (s : S) : option (Z * P * S) :=
  match fuel with
  | O => None
  | Datatypes.S f =>
      '(stop, p) ← (if resumed then Some (None, p) else pr_fetch p);
      match stop with
      | Some r => Some (r, p, s)
      | None =>
          b ← pr_buf p;
          '(r, s, b) ← next_body s b;
          let p := pr_set_cont (pr_put p b) false in
          if r =? CWF_DATA_AGAIN then
            match pr_after p with
            | Some r' => Some (r', p, s)
            | None => pump f false p s
            end
          else if r =? CWF_EVENT_AGAIN then Some (r, pr_set_cont p true, s)
          else Some (r, p, s)
      end
  end.

(** A call of the handler; [parent_buf] is not used. *)
Definition pump_body {P S : Type} `{Producer P} `{BodySink S} (ps : P * S) (parent_buf : bufo) : option (Z * (P * S) * bufo) :=
  '(r, p, s) ← pump (pr_fuel ps.1) (pr_cont ps.1) ps.1 ps.2;
  Some (r, (p, s), parent_buf).

Class ProducerLaws (P : Type) `{Producer P} : Prop := {
  pr_cont_set p c : pr_cont (pr_set_cont p c) = c;
  pr_set_set p c c' : pr_set_cont (pr_set_cont p c) c' = pr_set_cont p c';
  pr_put_set p b c : pr_put (pr_set_cont p c) b = pr_set_cont (pr_put p b) c;
  pr_put_put p b b' : pr_put (pr_put p b) b' = pr_put p b';
  pr_buf_put p b b' : pr_buf p = Some b → pr_buf (pr_put p b') = Some b';
  pr_buf_set p c : pr_buf (pr_set_cont p c) = pr_buf p;
  pr_fuel_set p c : pr_fuel (pr_set_cont p c) = pr_fuel p;
  pr_fuel_put p b b' : pr_buf p = Some b → same_block b b' → pr_fuel (pr_put p b') = pr_fuel p }.

Section Pump.
Context {P : Type} `{ProducerLaws P}.
Context {S : Type} `{BodyChain S}.

(** The state after the offered buffer [b'] was taken. *)
Definition taken_up (p : P) (b' : bufo) : P := pr_set_cont (pr_put p b') false.

(** From [p] on the producer offers at most [n] buffers, whose coding is [rest], and then returns [r]. *)
Inductive yields : P → list Z → nat → Z → Prop :=
  | yields_stop p p' n r : pr_fetch p = Some (Some r, p') → yields p [] n r
  | yields_end p p1 b n r : pr_fetch p = Some (None, p1) → pr_buf p1 = Some b → offered b → accepts (buf_is_last b) (unread b) → pr_fuel p1 = pr_fuel p →
      (∀ b', same_block b b' → buf_pos b' = buf_size b' → pr_after (taken_up p1 b') = Some r) →
      yields p (coding (buf_is_last b) (unread b)) (Datatypes.S n) r
  | yields_more p p1 b rest n r : pr_fetch p = Some (None, p1) → pr_buf p1 = Some b → offered b → accepts (buf_is_last b) (unread b) → pr_fuel p1 = pr_fuel p →
      (buf_is_last b = true → n = 0%nat) →
      (∀ b', same_block b b' → buf_pos b' = buf_size b' → pr_after (taken_up p1 b') = None) →
      (∀ b', same_block b b' → buf_pos b' = buf_size b' → yields (taken_up p1 b') rest n r) →
      yields p (coding (buf_is_last b) (unread b) ++ rest) (Datatypes.S n) r.

(** What happens once the buffer [b] is taken. *)
Definition continues (p : P) (b : bufo) (rest : list Z) (n : nat) (r : Z) : Prop :=
  (rest = [] ∧ ∀ b', same_block b b' → buf_pos b' = buf_size b' → pr_after (taken_up p b') = Some r) ∨
  ((buf_is_last b = true → n = 0%nat) ∧ ∀ b', same_block b b' → buf_pos b' = buf_size b' → pr_after (taken_up p b') = None ∧ yields (taken_up p b') rest n r).

(** Waiting in the middle of a buffer: [rest] is still to come. *)
Definition waiting (p : P) (s : S) (rest : list Z) (rf : Z) : Prop :=
  pr_cont p = true ∧ ∃ b todo more n, pr_buf p = Some b ∧ busy s b todo ∧ rest = todo ++ more ∧ continues p b more n rf ∧ (Datatypes.S n < pr_fuel p)%nat.

Inductive pump_result (r rf : Z) (rest : list Z) (p' : P) (s s' : S) : Prop :=
  | pump_done : r = rf → rest = [] → pump_result r rf rest p' s s'
  | pump_wait : r = CWF_EVENT_AGAIN → waiting p' s' rest rf → (waits s' < waits s ∨ waits s' = 0)%nat → pump_result r rf rest p' s s'
  | pump_broken : r = CWF_ERROR → unbroken s = false → pump_result r rf rest p' s s'.

Record pump_post (todo : list Z) (rf : Z) (p : P) (s : S) (r : Z) (p' : P) (s' : S) : Prop := {
  pp_out : ∃ out rest, wire s' = wire s ++ out ∧ todo = out ++ rest ∧ pump_result r rf rest p' s s';
  pp_waits : (waits s' <= waits s)%nat;
  pp_unbroken : unbroken s = true → unbroken s' = true }.

Lemma continues_put p c b b1 rest n r : same_block b b1 → continues p b rest n r → continues (pr_set_cont (pr_put p b1) c) b1 rest n r.
Proof.
  intros Hs. assert (∀ b', taken_up (pr_set_cont (pr_put p b1) c) b' = taken_up p b') as E
    by (intros; unfold taken_up; by rewrite pr_put_set, pr_set_set, pr_put_put).
  pose proof Hs as (_ & _ & _ & _ & Hl). intros [[-> Ha]|[Hn Ha]]; [left|right]; (split; [by rewrite ?Hl|]); intros b' Hs' Hp; rewrite E; eauto with cwf.
Qed.

Lemma pump_offer f p s b todo rest n rf :
  (∀ p s rest n, yields p rest n rf → (n ≠ 0%nat → idle s) → (n < f)%nat → (Datatypes.S n < pr_fuel p)%nat →
     ∃ r p' s', pump f false p s = Some (r, p', s') ∧ pump_post rest rf p s r p' s') →
  pr_buf p = Some b → busy s b todo → continues p b rest n rf → (n < f)%nat → (Datatypes.S n < pr_fuel p)%nat →
  ∃ r p' s', pump (Datatypes.S f) true p s = Some (r, p', s') ∧ pump_post (todo ++ rest) rf p s r p' s'.
Proof.
  intros IH Hb Hbusy Hc Hf HF. cbn [pump]. cbn [mbind option_bind]. rewrite Hb. cbn [mbind option_bind].
  destruct (step_ok s b todo Hbusy) as (r & s' & b' & out & todo' & -> & Hw & -> & Hs & Hwt & Hub & Hres). cbn [mbind option_bind].
  change (pr_set_cont (pr_put p b') false) with (taken_up p b').
  destruct Hres as [(-> & -> & Hpos & Hidle)|[(-> & Hbusy' & Hless)|(-> & Hbad)]].
  - change (CWF_DATA_AGAIN =? CWF_DATA_AGAIN) with true. cbn iota. destruct Hc as [[-> Ha]|[Hl Ha]].
    + rewrite (Ha b' Hs Hpos). eexists _, _, _. split; [done|]. constructor; try done. exists out, []. split; [done|]. split; [by rewrite !app_nil_r|by constructor 1].
    + destruct (Ha b' Hs Hpos) as [-> Hy]. destruct (IH (taken_up p b') s' rest n Hy) as (r & p' & s'' & -> & [(out' & rest' & Hw' & Ht & Hr) Hwt' Hub']); try done.
      { intros Hne. apply Hidle. destruct (buf_is_last b); [by destruct Hne; apply Hl|done]. }
      { unfold taken_up. by rewrite pr_fuel_set, (pr_fuel_put p b b'). }
      eexists _, _, _. split; [done|]. constructor; [|lia|auto]. exists (out ++ out'), rest'. split; [by rewrite Hw', Hw, app_assoc|].
      split; [by rewrite app_nil_r, Ht, app_assoc|]. destruct Hr as [? ?|? ? ?|? Hbad]; [by constructor 1|constructor 2; [done|done|lia]|].
      constructor 3; [done|]. destruct (unbroken s); [|done]. by rewrite Hub in Hbad.
  - change (CWF_EVENT_AGAIN =? CWF_DATA_AGAIN) with false. change (CWF_EVENT_AGAIN =? CWF_EVENT_AGAIN) with true. cbn iota.
    eexists _, _, _. split; [done|]. constructor; try done. exists out, (todo' ++ rest). split; [done|]. split; [by rewrite app_assoc|].
    constructor 2; [done| |done]. split; [by rewrite pr_cont_set|]. exists b', todo', rest, n. unfold taken_up. rewrite pr_set_set, pr_buf_set.
    split; [by eapply pr_buf_put|]. split_and!; try done; [by eapply continues_put|]. by rewrite pr_fuel_set, (pr_fuel_put p b b').
  - change (CWF_ERROR =? CWF_DATA_AGAIN) with false. change (CWF_ERROR =? CWF_EVENT_AGAIN) with false. cbn iota.
    eexists _, _, _. split; [done|]. constructor; try done. exists out, (todo' ++ rest). split; [done|]. split; [by rewrite app_assoc|by constructor 3].
Qed.

Lemma pump_fresh rf fuel : ∀ p s rest n, yields p rest n rf → (n ≠ 0%nat → idle s) → (n < fuel)%nat → (Datatypes.S n < pr_fuel p)%nat →
  ∃ r p' s', pump fuel false p s = Some (r, p', s') ∧ pump_post rest rf p s r p' s'.
Proof.
  induction fuel as [|f IH]; intros p s rest n Hy Hid Hf HF; [lia|].
  assert (∀ p1 b more n', pr_fetch p = Some (None, p1) → pr_buf p1 = Some b → offered b → accepts (buf_is_last b) (unread b) → pr_fuel p1 = pr_fuel p → continues p1 b more n' rf →
    rest = coding (buf_is_last b) (unread b) ++ more → n = Datatypes.S n' →
    ∃ r p' s', pump (Datatypes.S f) false p s = Some (r, p', s') ∧ pump_post rest rf p s r p' s') as Hgo.
  { intros p1 b more n' Hfetch Hb Hof Hacc Hfu Hc -> ->.
    destruct (pump_offer f p1 s b (coding (buf_is_last b) (unread b)) more n' rf IH Hb) as (r & p' & s' & E & [Ho ? ?]); try done.
    - apply start_ok; [by apply Hid|done|done].
    - lia.
    - lia.
    - exists r, p', s'. split; [|by constructor]. rewrite <- E. cbn [pump]. by rewrite Hfetch. }
  destruct Hy as [p p' n r Hfetch|p p1 b n r Hfetch Hb Hof Hacc Hfu Ha|p p1 b rest n r Hfetch Hb Hof Hacc Hfu Hl Ha Hy].
  - exists r, p', s. cbn [pump]. rewrite Hfetch. cbn [mbind option_bind]. split; [done|]. constructor; try done. exists [], []. by split_and!; [rewrite app_nil_r| |constructor 1].
  - eapply Hgo; try done; [by left|by rewrite app_nil_r].
  - eapply Hgo; try done. right. split; [done|]. auto.
Qed.

Lemma pump_waiting p s rest rf : waiting p s rest rf →
  ∃ r p' s', pump (pr_fuel p) (pr_cont p) p s = Some (r, p', s') ∧ pump_post rest rf p s r p' s'.
Proof.
  intros (-> & b & todo & more & n & Hb & Hbusy & -> & Hc & HF). destruct (pr_fuel p) as [|f] eqn:Ef; [lia|].
  eapply pump_offer; try done; [|lia|lia]. intros. by eapply pump_fresh.
Qed.

(** The handler, called again after each wait. *)
Lemma pump_resume events rf parent : rf ≠ CWF_EVENT_AGAIN → ∀ p s todo,
  (∃ r p' s', pump (pr_fuel p) (pr_cont p) p s = Some (r, p', s') ∧ pump_post todo rf p s r p' s') →
  ∃ r p' s' out rest, resume pump_body events (p, s) parent = Some (r, (p', s'), parent) ∧ wire s' = wire s ++ out ∧ todo = out ++ rest ∧
    ((r = rf ∧ rest = []) ∨ (r = CWF_EVENT_AGAIN ∧ (waits s' < waits s - events ∨ waits s' = 0)%nat) ∨ (r = CWF_ERROR ∧ unbroken s = false)).
Proof.
  intros Hrf. assert (∀ p s todo, (∃ r p' s', pump (pr_fuel p) (pr_cont p) p s = Some (r, p', s') ∧ pump_post todo rf p s r p' s') → 
    ∃ r p' s', pump_body (p, s) parent = Some (r, (p', s'), parent) ∧ pump_post todo rf p s r p' s') as Honce.
  { intros p s todo (r & p' & s' & E & ?). exists r, p', s'. split; [|done]. unfold pump_body. cbn [fst snd]. by rewrite E. }
  induction events as [|e IH]; intros p s todo Hone; cbn [resume]; destruct (Honce p s todo Hone) as (r & p' & s' & -> & [(out & rest & Hw & Ht & Hr) Hwt Hub]); cbn [mbind option_bind].
  - exists r, p', s', out, rest. split_and!; try done. destruct Hr as [? ?|? ? ?|? ?]; [by left|right; left; split; [done|lia]|by right; right].
  - destruct (Z.eqb_spec r CWF_EVENT_AGAIN) as [Hev|Hev].
    2: { exists r, p', s', out, rest. split_and!; try done. destruct Hr as [? ?|? ? ?|? ?]; [by left|done|by right; right]. }
    destruct Hr as [Hr _|_ Hwait Hless|Hr _]; [by subst| |by subst].
    destruct (IH p' s' rest (pump_waiting _ _ _ _ Hwait)) as (r' & p'' & s'' & out' & rest' & -> & Hw' & -> & Hr').
    exists r', p'', s'', (out ++ out'), rest'. split; [done|]. split; [by rewrite Hw', Hw, app_assoc|]. split; [by rewrite Ht, app_assoc|].
    destruct Hr' as [?|[[? ?]|[? Hbad]]]; [by left|right; left; split; [done|lia]|right; right]. split; [done|]. destruct (unbroken s); [|done]. by rewrite Hub in Hbad.
Qed.
End Pump.

(** What fetching and offering keep, the loop keeps. *)
Lemma pump_keeps {P S : Type} `{Producer P} `{BodySink S} (I : P → Prop) :
  (∀ p x p', I p → pr_fetch p = Some (x, p') → I p') → (∀ p b, I p → I (pr_put p b)) → (∀ p c, I p → I (pr_set_cont p c)) →
  ∀ fuel resumed p (s : S) r p' s', I p → pump fuel resumed p s = Some (r, p', s') → I p'.
Proof.
  intros Hf Hp Hc. induction fuel as [|f IH]; intros resumed p s r p' s' HI; [done|]. cbn [pump].
  destruct (if resumed then _ else _) as [[stop p1]|] eqn:E; [|done]. cbn [mbind option_bind].
  assert (I p1) as HI1 by (destruct resumed; [by injection E as _ <-|by eapply Hf]). clear E HI. destruct stop; [by intros [= _ <- _]|].
  destruct (pr_buf p1); [|done]. cbn [mbind option_bind]. destruct (next_body s _) as [[[c s1] b1]|]; [|done]. cbn [mbind option_bind].
  assert (I (pr_set_cont (pr_put p1 b1) false)) as HI2 by auto. destruct (c =? CWF_DATA_AGAIN).
  - destruct (pr_after _); [by intros [= _ <- _]|]. by apply IH.
  - destruct (c =? CWF_EVENT_AGAIN); intros [= _ <- _]; auto.
Qed.

Lemma resume_ext {S : Type} (h1 h2 : S → bufo → option (Z * S * bufo)) (I : S → Prop) events :
  (∀ s b, I s → h1 s b = h2 s b) → (∀ s b r s' b', I s → h2 s b = Some (r, s', b') → I s') →
  ∀ s b, I s → resume h1 events s b = resume h2 events s b.
Proof.
  intros Heq Hk. induction events as [|e IH]; intros s b HI; cbn [resume]; rewrite (Heq s b HI); [done|].
  destruct (h2 s b) as [[[r s'] b']|] eqn:E; [|done]. cbn [mbind option_bind]. case_if; [|done]. apply IH. by eapply Hk.
Qed.
