(* ===== verification/DataFilter.v ===== *)
(** The data filter ([filters/http_data_filter.c]): the source of the body. It cuts the response's body, or the file behind it,
    into buffers and offers them to the filters below.

    The buffer it offers is either a view into the response's body (the proxy buffer) or, for a file, the response's body used as
    a read buffer; [base.parent_buf] says which. A view is the bytes from its first one on. *)

From S2P Require Import Prelude Helpers QueryParser Bufo WriteFilter ChunkedFilter HttpResponse BodyChain.

(** ** The model *)

(** The filters below, for the head. *)
Class HeadSink (S : Type) : Type := { next_header : S → httpresponse → option (Z * S * httpresponse) }.

(** The write filter, with its own buffer. *)
Definition head_writer (alloc : Z → bool) (junk : Z) : Type := (socket * bufo)%type.
#[global] Typeclasses Opaque head_writer.

#[export] Instance writer_head_sink alloc junk : HeadSink (head_writer alloc junk) := {
  next_header sb r := '(c, s, b) ← http_write_header alloc junk (head_of r) sb.1 sb.2; Some (c, (s, b), r) }.

Inductive buf_ref : Set := ProxyBuf | BodyBuf.

Record http_module_data : Set := DataModule {
  dt_cont : bool;
  dt_done : bool;
  dt_parent : option buf_ref;
  dt_proxy : bufo;
  dt_file_offset : Z }.

Definition data_create : http_module_data := DataModule false false None (Bufo None BUF_SIZE 0 0 true false) 0.

Definition data_reset (m : http_module_data) : http_module_data :=
  let b := bufo_clear (dt_proxy m) in
  DataModule false false None (Bufo (buf_data b) BUF_SIZE (buf_size b) (buf_pos b) true (buf_is_last b)) 0.

Definition set_data_cont (m : http_module_data) (c : bool) : http_module_data := DataModule c (dt_done m) (dt_parent m) (dt_proxy m) (dt_file_offset m).
Definition set_proxy (m : http_module_data) (b : bufo) : http_module_data := DataModule (dt_cont m) (dt_done m) (dt_parent m) b (dt_file_offset m).
Definition set_parent (m : http_module_data) (x : buf_ref) : http_module_data := DataModule (dt_cont m) (dt_done m) (Some x) (dt_proxy m) (dt_file_offset m).
Definition set_offset (m : http_module_data) (n : Z) : http_module_data := DataModule (dt_cont m) (dt_done m) (dt_parent m) (dt_proxy m) n.

Definition set_last (b : bufo) : bufo := Bufo (buf_data b) (buf_capacity b) (buf_size b) (buf_pos b) (buf_is_proxy b) true.

(** A [size_t] as an [off_t]. *)
Definition off_t (z : Z) : Z := if z <? 2 ^ 63 then z else z - 2 ^ 64.

(** The module and the response it belongs to. *)
Record data_state : Set := DataState { ds_module : http_module_data; ds_response : httpresponse }.

Definition body_next_chunk_data (st : data_state) : data_state :=
  let body := rs_body (ds_response st) in
  let proxy := dt_proxy (ds_module st) in
  let proxy := Bufo (drop (Z.to_nat (buf_pos body)) <$> buf_data body) (buf_capacity proxy) (buf_size proxy) (buf_pos proxy) (buf_is_proxy proxy) (buf_is_last proxy) in
  let '(moved, body) := bufo_move_front_pos body BUF_SIZE in
  let r := with_body (ds_response st) body in
  if moved =? 0 then DataState (set_proxy (ds_module st) proxy) r
  else
    let proxy := bufo_reset_pos (bufo_set_size proxy moved) in
    let proxy := if buf_pos body =? buf_size body then set_last proxy else proxy in
    DataState (set_proxy (ds_module st) proxy) r.

Section Alloc.
Variable alloc : Z → bool.
Variable junk : Z.

(** Whether the chunk is there ([ok]); [None] is a write outside the buffer. *)
Definition file_next_chunk_data (st : data_state) : option (bool * data_state) :=
  let r := ds_response st in
  let m := ds_module st in
  let '(allocated, body) := bufo_alloc alloc junk (rs_body r) BUF_SIZE in
  if negb allocated then Some (false, DataState m (with_body r body))
  else
    let f := rs_file r in
    let '(got, outs) := pread_loop (f_reads f) (f_content f) (buf_capacity body) (dt_file_offset m) in
    let r := with_reads r outs in
    match got with
    | None => Some (false, DataState m (with_body r body))
    | Some bytes =>
        d ← buf_data body;
        d' ← mem_write d 0 bytes;
        let body := Bufo (Some d') (buf_capacity body) (buf_size body) (buf_pos body) (buf_is_proxy body) (buf_is_last body) in
        let m := set_offset m (dt_file_offset m + zlen bytes) in
        let body := if off_t (f_size f) <=? dt_file_offset m then set_last body else body in
        Some (true, DataState m (with_body r (bufo_set_size (bufo_reset_pos body) (zlen bytes))))
    end.

(** [ok], which buffer, and the state. *)
Definition next_chunk_data (st : data_state) : option (bool * buf_ref * data_state) :=
  if f_open (rs_file (ds_response st)) then
    '(ok, st) ← file_next_chunk_data st; Some (ok, BodyBuf, st)
  else Some (true, ProxyBuf, body_next_chunk_data st).

Definition deref (st : data_state) (x : buf_ref) : bufo :=
  match x with ProxyBuf => dt_proxy (ds_module st) | BodyBuf => rs_body (ds_response st) end.

Definition put_buf (st : data_state) (x : buf_ref) (b : bufo) : data_state :=
  match x with
  | ProxyBuf => DataState (set_proxy (ds_module st) b) (ds_response st)
  | BodyBuf => DataState (ds_module st) (with_body (ds_response st) b)
  end.

(** The top of the loop of [__body]. *)
Definition data_fetch (st : data_state) : option (option Z * data_state) :=
  '(ok, x, st) ← next_chunk_data st;
  if negb ok then Some (Some CWF_ERROR, st)
  else
    let b := deref st x in
    if (buf_pos b =? buf_size b) || (buf_size b =? 0) then Some (Some CWF_OK, st)
    else Some (None, DataState (set_parent (ds_module st) x) (ds_response st)).

Definition data_put (st : data_state) (b : bufo) : data_state :=
  match dt_parent (ds_module st) with Some x => put_buf st x b | None => st end.

(** A turn of the loop takes at least a byte of the body or of the file. *)
Definition data_turns (st : data_state) : nat :=
  (if f_open (rs_file (ds_response st)) then length (f_content (rs_file (ds_response st))) else length (default [] (buf_data (rs_body (ds_response st))))) + 3.
End Alloc.

(** The module, as a producer for the allocator [alloc]. *)
Definition data_producer (alloc : Z → bool) (junk : Z) : Type := data_state.
#[global] Typeclasses Opaque data_producer.

#[export] Instance data_pump alloc junk : Producer (data_producer alloc junk) := {
  pr_cont st := dt_cont (ds_module st);
  pr_set_cont st c := DataState (set_data_cont (ds_module st) c) (ds_response st);
  pr_buf st := deref st <$> dt_parent (ds_module st);
  pr_put := data_put;
  pr_fetch := data_fetch alloc junk;
  pr_after _ := None;
  pr_fuel := data_turns }.

Section Handlers.
Variable alloc : Z → bool.
Variable junk : Z.
Variable gzip_types : list (list Z).
Context {S : Type}.

(** [request->method == ROUTE_HEAD] for the request, if there is one. *)
Definition data_body `{BodySink S} (head_method : bool) (ms : data_state * S) (parent_buf : bufo) : option (Z * (data_state * S) * bufo) :=
  let r := ds_response ms.1 in
  if rs_range r then
    '(c, s, b) ← next_body ms.2 parent_buf; Some (c, (ms.1, s), b)
  else if head_method then Some (CWF_OK, ms, parent_buf)
  else if rs_status_code r =? 304 then Some (CWF_OK, ms, parent_buf)
  else pump_body (P := data_producer alloc junk) ms parent_buf.

Definition data_header `{HeadSink S} (st : data_state) (s : S) : option (Z * data_state * S) :=
  let m := ds_module st in
  let r := ds_response st in
  '(ok, r) ←
    (if dt_cont m then Some (true, r)
     else
       '(ok, r) ← (if f_open (rs_file r) then httpresponse_header_add alloc gzip_types r (bs "Cache-Control") (bs "no-cache") else Some (true, r));
       if negb ok then Some (false, r)
       else if negb (rs_range r) && bool_decide (rs_transfer_encoding r = TE_NONE) && negb (rs_status_code r =? 304) then
         httpresponse_header_add_content_length alloc gzip_types r (data_size r)
       else Some (true, r));
  if negb ok then Some (CWF_ERROR, DataState m r, s)
  else
    '(c, s, r) ← next_header s r;
    Some (c, DataState (set_data_cont m (c =? CWF_EVENT_AGAIN)) r, s).
End Handlers.

(** ** Lemmas *)

#[export] Instance data_pump_laws alloc junk : ProducerLaws (data_producer alloc junk).
Proof.
  constructor.
  - done.
  - done.
  - intros [m r] b c. cbn. unfold data_put. cbn. by destruct (dt_parent m) as [[|]|].
  - intros [m r] b b'. cbn. unfold data_put. cbn. destruct (dt_parent m) as [[|]|] eqn:E; cbn; by rewrite ?E.
  - intros [m r] b b'. cbn. unfold data_put. cbn. destruct (dt_parent m) as [[|]|] eqn:E; cbn; by rewrite ?E.
  - done.
  - done.
  - intros [m r] b b'. cbn. unfold data_put. cbn. destruct (dt_parent m) as [[|]|] eqn:E; cbn; [done| |done].
    intros [= <-] (Hd & _). unfold data_turns. cbn. by rewrite Hd.
Qed.

(** What the handlers test stays as it is while the body is sent. *)
Definition kept (range : bool) (code : Z) (st : data_state) : Prop := rs_range (ds_response st) = range ∧ rs_status_code (ds_response st) = code.

Lemma fetch_keeps alloc junk range code (st : data_state) x st' : kept range code st → data_fetch alloc junk st = Some (x, st') → kept range code st'.
Proof.
  intros Hk. unfold data_fetch, next_chunk_data. destruct (f_open _).
  - unfold file_next_chunk_data. destruct (bufo_alloc _ _ _ _) as [[|] b]; cbn [negb].
    + destruct (pread_loop _ _ _ _) as [[bytes|] outs]; cbn [mbind option_bind negb]; [|by intros [= _ <-]].
      destruct (buf_data b); [|done]. cbn [mbind option_bind]. destruct (mem_write _ _ _); [|done]. cbn [mbind option_bind negb].
      case_if; intros [= _ <-]; exact Hk.
    + cbn [mbind option_bind negb]. by intros [= _ <-].
  - cbn [mbind option_bind negb]. unfold body_next_chunk_data. destruct (bufo_move_front_pos _ _) as [n b]. destruct (n =? 0); case_if; intros [= _ <-]; exact Hk.
Qed.

Lemma data_body_pump alloc junk {S : Type} `{BodySink S} events (st : data_state) (s : S) parent :
  rs_range (ds_response st) = false → rs_status_code (ds_response st) ≠ 304 →
  resume (data_body alloc junk false) events (st, s) parent = resume (pump_body (P := data_producer alloc junk)) events (st, s) parent.
Proof.
  intros Hr Hc. apply (resume_ext _ _ (λ ms, kept false (rs_status_code (ds_response st)) ms.1)).
  - intros [st' s'] b [H1 H2]. unfold data_body. cbn [fst] in *. rewrite H1, H2. by destruct (Z.eqb_spec (rs_status_code (ds_response st)) 304).
  - intros [st1 s1] b r [st2 s2] b' Hk. unfold pump_body. cbn [fst snd] in *. destruct (pump _ _ _ _) as [[[r' p'] s']|] eqn:E; [|done]. cbn [mbind option_bind]. intros [= <- <- <- <-].
    revert E. apply (pump_keeps (kept false (rs_status_code (ds_response st)))); try done.
    + intros p x p'' HK. apply (fetch_keeps alloc junk); done.
    + intros [m r0] b0 HK. cbn. unfold data_put. cbn. by destruct (dt_parent m) as [[|]|].
  - done.
Qed.

(** *** The body in memory *)

(** [l] in blocks of the buffer size; the flag is on the last. *)
Fixpoint blocks (fuel : nat) (l : list Z) : list (bool * list Z) :=
  match fuel, l with
  | Datatypes.S f, _ :: _ => (zlen l <=? BUF_SIZE, take (Z.to_nat BUF_SIZE) l) :: blocks f (drop (Z.to_nat BUF_SIZE) l)
  | _, _ => []
  end.

Lemma blocks_concat fuel : ∀ l, (length l <= fuel)%nat → concat (map snd (blocks fuel l)) = l.
Proof.
  induction fuel as [|f IH]; intros [|c l] Hl; try done; [simpl in Hl; lia|]. cbn [blocks map snd concat].
  rewrite IH; [apply take_drop|]. rewrite length_drop. unfold BUF_SIZE. cbn [length] in *. lia.
Qed.

Lemma blocks_length fuel : ∀ l, (length (blocks fuel l) <= length l)%nat.
Proof.
  induction fuel as [|f IH]; intros [|c l]; try (simpl; lia). cbn [blocks length]. specialize (IH (drop (Z.to_nat BUF_SIZE) (c :: l))).
  rewrite length_drop in IH. unfold BUF_SIZE in *. cbn [length] in IH. lia.
Qed.

Lemma move_block b : Readable b → ∃ n b', bufo_move_front_pos b BUF_SIZE = (n, b') ∧ n = Z.min BUF_SIZE (zlen (unread b)) ∧ Readable b' ∧ same_block b b' ∧
  buf_pos b' = buf_pos b + n ∧ unread b' = drop (Z.to_nat n) (unread b).
Proof.
  intros Hr. pose proof (zlen_unread b Hr) as Hu. destruct (Z.le_gt_cases BUF_SIZE (zlen (unread b))).
  - destruct (bufo_move_front_readable b BUF_SIZE Hr) as (b' & E & ?); [unfold BUF_SIZE in *; lia|]. exists BUF_SIZE, b'. split; [done|]. split; [lia|done].
  - pose proof (zlen_nonneg (unread b)). destruct (bufo_move_front_readable b (zlen (unread b)) Hr) as (b' & E & ?); [lia|]. exists (zlen (unread b)), b'. split; [|split; [lia|done]].
    rewrite <- E. unfold bufo_move_front_pos. destruct (Z.leb_spec (buf_size b) (buf_pos b)); [done|]. destruct Hr as [Hp Hs Hw]. unfold wrap64, SIZE_MAX, BUF_SIZE in *.
    rewrite !Z.mod_small by lia. rewrite !(proj2 (Z.leb_le _ _)) by lia. done.
Qed.

(** Between two blocks, with [rest] of the body to go. *)
Record body_left (rest : list Z) (st : data_state) : Prop := {
  bl_memory : f_open (rs_file (ds_response st)) = false;
  bl_body : Readable (rs_body (ds_response st));
  bl_data : rest ≠ [] → buf_data (rs_body (ds_response st)) ≠ None;
  bl_rest : unread (rs_body (ds_response st)) = rest;
  bl_capacity : buf_capacity (dt_proxy (ds_module st)) = BUF_SIZE;
  bl_taken : buf_pos (dt_proxy (ds_module st)) = buf_size (dt_proxy (ds_module st));
  bl_last : rest ≠ [] → buf_is_last (dt_proxy (ds_module st)) = false }.

Lemma view_offered d pos n cap proxy last : 0 <= n → pos + n <= zlen d → 0 <= pos → n + zlen d <= SIZE_MAX →
  offered (Bufo (Some (drop (Z.to_nat pos) d)) cap n 0 proxy last) ∧ unread (Bufo (Some (drop (Z.to_nat pos) d)) cap n 0 proxy last) = take (Z.to_nat n) (drop (Z.to_nat pos) d).
Proof.
  intros. split; [split; [|done]|]. { constructor; cbn; rewrite ?zlen_drop; unfold SIZE_MAX in *; lia. }
  unfold unread. cbn. by rewrite Z.sub_0_r, drop_0.
Qed.

(** One block of the body: a view of its bytes, and the body moved past them. *)
Lemma body_fetch alloc junk rest st : body_left rest st → rest ≠ [] →
  ∃ st1 b, data_fetch alloc junk st = Some (None, st1) ∧ pr_buf (P := data_producer alloc junk) st1 = Some b ∧ offered b ∧ data_turns st1 = data_turns st ∧
    buf_is_last b = (zlen rest <=? BUF_SIZE) ∧ unread b = take (Z.to_nat BUF_SIZE) rest ∧
    (∀ b', same_block b b' → buf_pos b' = buf_size b' → body_left (drop (Z.to_nat BUF_SIZE) rest) (taken_up (P := data_producer alloc junk) st1 b')).
Proof.
  intros [H1 Hr H3 H4 H5 H6 H7] Hne. specialize (H3 Hne). destruct st as [m r]. cbn [ds_response ds_module] in *. unfold data_fetch, next_chunk_data. cbn [ds_response ds_module]. rewrite H1. cbn [mbind option_bind negb].
  unfold body_next_chunk_data. cbn [ds_response ds_module]. destruct (move_block (rs_body r) Hr) as (n & body' & -> & Hn & Hr' & Hsb & Hpos & Hun). rewrite H4 in Hn, Hun.
  assert (0 < zlen rest) as Hz by (destruct rest; [done|]; rewrite zlen_cons; pose proof (zlen_nonneg rest); lia).
  assert (0 < n <= BUF_SIZE) as Hn' by (unfold BUF_SIZE in *; lia). destruct (Z.eqb_spec n 0); [lia|].
  destruct (buf_data (rs_body r)) as [d|] eqn:Ed; [|done]. cbn [fmap option_fmap option_map].
  pose proof (zlen_unread _ Hr) as Hzu. rewrite H4 in Hzu. pose proof Hr as [Hp Hs Hw]. rewrite Ed in Hs, Hw. cbn [default from_option id] in Hs, Hw.
  pose proof Hsb as (Hd' & Hc' & Hs' & Hpr' & Hl').
  set (last := buf_pos body' =? buf_size body'). set (b := Bufo (Some (drop (Z.to_nat (buf_pos (rs_body r))) d)) (buf_capacity (dt_proxy m)) n 0 (buf_is_proxy (dt_proxy m)) last).
  match goal with |- context [if last then set_last ?x else ?x] => assert ((if last then set_last x else x) = b) as -> end.
  { unfold bufo_set_size. cbn. rewrite H5. destruct (Z.ltb_spec BUF_SIZE n); [lia|]. unfold b, bufo_reset_pos, set_pos, set_last. cbn. rewrite H5, H7 by done. by destruct last. }
  destruct (view_offered d (buf_pos (rs_body r)) n (buf_capacity (dt_proxy m)) (buf_is_proxy (dt_proxy m)) last) as [Hof Hub]; [lia|lia|lia|lia|].
  cbn [deref ds_module dt_proxy set_proxy]. change (buf_pos b) with 0. change (buf_size b) with n. destruct (Z.eqb_spec 0 n); [lia|]. destruct (Z.eqb_spec n 0); [lia|]. cbn [orb].
  eexists _, b. split; [done|]. split; [done|]. split; [exact Hof|]. split; [unfold data_turns; cbn; by rewrite Hd', Ed|].
  split; [|split].
  - unfold b, last. cbn. rewrite Hpos, Hs'. destruct (Z.eqb_spec (buf_pos (rs_body r) + n) (buf_size (rs_body r))), (Z.leb_spec (zlen rest) BUF_SIZE); lia || done.
  - change (unread b = take (Z.to_nat BUF_SIZE) rest). unfold b. rewrite Hub, <- H4. unfold unread. rewrite Ed. cbn [default from_option id].
    rewrite take_take. f_equal. unfold BUF_SIZE in *. lia.
  - intros b' Hsame Hpb. assert (drop (Z.to_nat BUF_SIZE) rest = drop (Z.to_nat n) rest) as ->.
    { destruct (Z.le_gt_cases BUF_SIZE (zlen rest)); [f_equal; lia|]. assert (n = zlen rest) as -> by lia. rewrite !drop_ge; [done|unfold zlen; lia|unfold zlen, BUF_SIZE in *; lia]. }
    destruct Hsame as (S1 & S2 & S3 & S4 & S5). constructor; cbn; try done; [by rewrite Hd', Ed|by rewrite S2|].
    intros Hmore. rewrite S5. unfold b, last. cbn. rewrite Hpos, Hs'. apply Z.eqb_neq. intros E. apply Hmore. rewrite drop_ge; [done|]. unfold zlen in *. lia.
Qed.

Lemma body_end alloc junk st : body_left [] st → ∃ st', data_fetch alloc junk st = Some (Some CWF_OK, st').
Proof.
  intros [H1 Hr H3 H4 H5 H6 _]. destruct st as [m r]. cbn [ds_response ds_module] in *. unfold data_fetch, next_chunk_data. cbn [ds_response ds_module]. rewrite H1. cbn [mbind option_bind negb].
  unfold body_next_chunk_data. cbn [ds_response ds_module]. destruct (move_block (rs_body r) Hr) as (n & body' & -> & Hn & _). rewrite H4 in Hn. change (zlen []) with 0 in Hn.
  assert (n = 0) as -> by (unfold BUF_SIZE in Hn; lia). change (0 =? 0) with true. cbn iota. cbn [deref ds_module dt_proxy set_proxy buf_pos buf_size]. rewrite H6, Z.eqb_refl. by eexists.
Qed.

(** The coding of pieces of a body, with the flag of the last. *)
Definition coded {S : Type} `{BodyChain S} (ps : list (bool * list Z)) : list Z := concat (map (λ q, coding q.1 q.2) ps).
Definition accepted {S : Type} `{BodyChain S} (q : bool * list Z) : Prop := accepts q.1 q.2.

Lemma body_yields {S : Type} `{BodyChain S} alloc junk fuel : ∀ rest st, (length rest <= fuel)%nat → body_left rest st → Forall accepted (blocks fuel rest) →
  yields (P := data_producer alloc junk) st (coded (blocks fuel rest)) (length (blocks fuel rest)) CWF_OK.
Proof.
  induction fuel as [|f IH]; intros rest st Hl Hb Hacc.
  - assert (rest = []) as -> by (destruct rest; [done|simpl in Hl; lia]). destruct (body_end alloc junk st Hb) as [st' E]. by eapply yields_stop.
  - destruct rest as [|c rest]; [destruct (body_end alloc junk st Hb) as [st' E]; by eapply yields_stop|].
    destruct (body_fetch alloc junk (c :: rest) st Hb ltac:(done)) as (st1 & b & E & Hbuf & Hof & Ht & Hlast & Hun & Hnext). cbn [blocks] in *. rewrite <- Hlast, <- Hun in *.
    apply Forall_cons in Hacc as [Ha Hacc]. eapply yields_more; try done.
    + intros Hl1. rewrite Hl1 in Hlast. symmetry in Hlast. apply Z.leb_le in Hlast. rewrite drop_ge by (unfold zlen, BUF_SIZE in *; lia). by destruct f.
    + intros b' Hs Hp. apply IH; [|by apply Hnext|done]. rewrite length_drop. unfold BUF_SIZE. cbn [length] in *. lia.
Qed.

(** *** The file *)

(** No read fails. *)
Definition reads_well (outs : list read_outcome) : bool := forallb (λ o, match o with ReadFailed => false | _ => true end) outs.

Lemma pread_ok outs content size offset : reads_well outs = true → 0 < size →
  ∃ bytes outs', pread_loop outs content size offset = (Some bytes, outs') ∧ reads_well outs' = true ∧
    (∃ more, slice offset size content = bytes ++ more) ∧ (bytes = [] → drop (Z.to_nat offset) content = []).
Proof.
  intros Hw Hs. induction outs as [|o outs IH]; cbn [pread_loop].
  - eexists _, _. split; [done|]. split; [done|]. split; [exists []; by rewrite app_nil_r|]. unfold slice. destruct (drop _ content); [done|]. destruct (Z.to_nat size) eqn:E; [lia|done].
  - cbn [reads_well forallb] in Hw. destruct o as [n| |]; [|by apply IH|done].
    eexists _, _. split; [done|]. split; [exact Hw|]. split; [eexists; symmetry; apply take_drop|].
    unfold slice. destruct (drop _ content); [done|]. destruct (Z.to_nat size) eqn:E; [lia|]. destruct (Z.to_nat (Z.max 1 n)) eqn:E'; [lia|done].
Qed.

Definition gets (outs : list read_outcome) : bool := forallb (λ o, match o with Got _ => true | _ => false end) outs.

Lemma pread_once_ok outs content size offset : gets outs = true → 0 < size →
  ∃ bytes outs', pread_once outs content size offset = (Some bytes, outs') ∧ gets outs' = true ∧
    (∃ more, slice offset size content = bytes ++ more) ∧ (bytes = [] → drop (Z.to_nat offset) content = []).
Proof.
  intros Hw Hs. destruct outs as [|[n| |] outs]; [| |done..]; cbn [pread_once].
  - eexists _, _. split; [done|]. split; [done|]. split; [exists []; by rewrite app_nil_r|]. unfold slice. destruct (drop _ content); [done|]. destruct (Z.to_nat size) eqn:E; [lia|done].
  - eexists _, _. split; [done|]. split; [exact Hw|]. split; [eexists; symmetry; apply take_drop|].
    unfold slice. destruct (drop _ content); [done|]. destruct (Z.to_nat size) eqn:E; [lia|]. destruct (Z.to_nat (Z.max 1 n)) eqn:E'; [lia|done].
Qed.

(** What a read of the rest [w] of a text gives: its next bytes, at least one. *)
Lemma read_progress (content pre got w post bytes : list Z) : content = pre ++ got ++ w ++ post → w ≠ [] → (∃ more, slice (zlen pre + zlen got) (zlen w) content = bytes ++ more) →
  (bytes = [] → drop (Z.to_nat (zlen pre + zlen got)) content = []) → ∃ c bytes' more, bytes = c :: bytes' ∧ w = bytes ++ more ∧ content = pre ++ (got ++ bytes) ++ more ++ post.
Proof.
  intros Hc Hne [more Hm] Hnil. assert (drop (Z.to_nat (zlen pre + zlen got)) content = w ++ post) as Hd.
  { rewrite Hc, app_assoc. replace (Z.to_nat (zlen pre + zlen got)) with (length (pre ++ got)) by (rewrite length_app; unfold zlen; lia). apply drop_app_length. }
  unfold slice in Hm. rewrite Hd in Hm. rewrite take_app_le, take_zlen in Hm by (unfold zlen; lia). rewrite Hd in Hnil. destruct bytes as [|c bytes]; [by destruct w; [|specialize (Hnil eq_refl)]|].
  exists c, bytes, more. split; [done|]. split; [done|]. by rewrite Hc, Hm, <- !app_assoc.
Qed.

(** A read buffer: not there yet, or a block of the buffer size. *)
Definition read_buffer (b : bufo) : Prop := cleared b ∨ buf_capacity b = BUF_SIZE ∧ ∃ d, buf_data b = Some d ∧ zlen d = BUF_SIZE.

(** Between two reads, with [rest] of the file to go. *)
Record file_left (content rest : list Z) (st : data_state) : Prop := {
  fi_open : f_open (rs_file (ds_response st)) = true;
  fi_content : f_content (rs_file (ds_response st)) = content;
  fi_size : f_size (rs_file (ds_response st)) = zlen content;
  fi_offset : 0 <= dt_file_offset (ds_module st) <= zlen content;
  fi_rest : drop (Z.to_nat (dt_file_offset (ds_module st))) content = rest;
  fi_reads : reads_well (f_reads (rs_file (ds_response st))) = true;
  fi_buffer : read_buffer (rs_body (ds_response st));
  fi_last : rest ≠ [] → buf_is_last (rs_body (ds_response st)) = false }.

Lemma read_buffer_alloc alloc junk b : alloc BUF_SIZE = true → read_buffer b →
  ∃ b' d, bufo_alloc alloc junk b BUF_SIZE = (true, b') ∧ buf_capacity b' = BUF_SIZE ∧ buf_data b' = Some d ∧ zlen d = BUF_SIZE ∧ buf_is_last b' = buf_is_last b.
Proof.
  intros Ha [Hc|(Hc & d & Hd & Hz)]; unfold bufo_alloc.
  - rewrite Hc. cbn. rewrite Ha. eexists _, _. split; [done|]. cbn. split_and!; done.
  - rewrite Hd. by exists b, d.
Qed.

Lemma file_fetch alloc junk content rest st : alloc BUF_SIZE = true → zlen content < 2 ^ 63 → file_left content rest st →
  (rest = [] ∧ (∃ outs, pread_loop (f_reads (rs_file (ds_response st))) content BUF_SIZE (dt_file_offset (ds_module st)) = (Some [], outs)) ∧ ∃ st', data_fetch alloc junk st = Some (Some CWF_OK, st')) ∨
  ∃ st1 b bytes rest' outs, pread_loop (f_reads (rs_file (ds_response st))) content BUF_SIZE (dt_file_offset (ds_module st)) = (Some bytes, outs) ∧ data_fetch alloc junk st = Some (None, st1) ∧ pr_buf (P := data_producer alloc junk) st1 = Some b ∧ offered b ∧ data_turns st1 = data_turns st ∧
    unread b = bytes ∧ bytes ≠ [] ∧ rest = bytes ++ rest' ∧ buf_is_last b = (zlen content <=? dt_file_offset (ds_module st) + zlen bytes) ∧ (buf_is_last b = true ↔ rest' = []) ∧
    (∀ b', same_block b b' → buf_pos b' = buf_size b' → let st' := taken_up (P := data_producer alloc junk) st1 b' in
      file_left content rest' st' ∧ f_reads (rs_file (ds_response st')) = outs ∧ dt_file_offset (ds_module st') = dt_file_offset (ds_module st) + zlen bytes).
Proof.
  intros Ha Hlen [F1 F2 F3 F4 F5 F6 F7 F8]. destruct st as [m r]. cbn [ds_response ds_module] in *. unfold data_fetch, next_chunk_data, file_next_chunk_data. cbn [ds_response ds_module]. rewrite F1.
  destruct (read_buffer_alloc alloc junk (rs_body r) Ha F7) as (b0 & d & -> & Hc & Hd & Hz & Hl). cbn [negb]. rewrite Hc.
  destruct (pread_ok (f_reads (rs_file r)) (f_content (rs_file r)) BUF_SIZE (dt_file_offset m) F6 ltac:(unfold BUF_SIZE; lia)) as (bytes & outs & Epr & Hw & (more & Hm) & Hnil).
  rewrite Epr. rewrite F2 in Epr. rewrite Epr. cbn [mbind option_bind]. rewrite Hd. cbn [mbind option_bind]. rewrite F2 in Hm, Hnil. unfold slice in Hm. rewrite F5 in Hm, Hnil.
  assert (zlen bytes <= BUF_SIZE) as Hbz. { apply (f_equal zlen) in Hm. rewrite zlen_app, zlen_take in Hm. pose proof (zlen_nonneg more). unfold BUF_SIZE in *. lia. }
  rewrite mem_write_Some by lia. cbn [mbind option_bind negb deref ds_response rs_body with_body]. change (take (Z.to_nat 0) d) with (@nil Z). cbn [app].
  destruct (decide (bytes = [])) as [->|Hne].
  { left. split; [auto|]. split; [by eexists|]. change (zlen []) with 0. destruct (_ <=? _); cbn; by eexists. }
  right. assert (rest = bytes ++ drop (length bytes) rest) as Hrest.
  { rewrite <- (take_drop (length bytes) rest) at 1. f_equal. apply (f_equal (take (length bytes))) in Hm. rewrite take_app_length, take_take, Nat.min_l in Hm by (unfold zlen, BUF_SIZE in *; lia). exact Hm. }
  assert (0 < zlen bytes) as Hpos by (destruct bytes; [done|]; rewrite zlen_cons; pose proof (zlen_nonneg bytes); lia).
  assert (zlen content = dt_file_offset m + zlen rest) as Hcr by (rewrite <- F5, zlen_drop; lia).
  assert (zlen rest = zlen bytes + zlen (drop (length bytes) rest)) as Hzr by (rewrite Hrest at 1; by rewrite zlen_app).
  set (last := off_t (f_size (rs_file r)) <=? dt_file_offset (set_offset m (dt_file_offset m + zlen bytes))).
  set (b := Bufo (Some (bytes ++ drop (Z.to_nat 0 + length bytes) d)) BUF_SIZE (zlen bytes) 0 (buf_is_proxy b0) last).
  match goal with |- context [bufo_set_size (bufo_reset_pos ?x) _] => assert (bufo_set_size (bufo_reset_pos x) (zlen bytes) = b) as -> end.
  { unfold bufo_set_size, bufo_reset_pos, set_pos, b, set_last. destruct last; cbn; rewrite ?Hc; (destruct (Z.ltb_spec BUF_SIZE (zlen bytes)); [lia|done || idtac]).
    rewrite Hl, F8; [done|]. intros ->. by destruct bytes. }
  change (buf_pos b) with 0. change (buf_size b) with (zlen bytes). destruct (Z.eqb_spec 0 (zlen bytes)); [lia|]. destruct (Z.eqb_spec (zlen bytes) 0); [lia|]. cbn [orb].
  assert (buf_is_last b = true ↔ drop (length bytes) rest = []) as Hlast.
  { unfold b, last. cbn. unfold off_t. rewrite F3, (proj2 (Z.ltb_lt _ _)) by lia. rewrite Z.leb_le. split; intros H.
    - apply zlen_0_nil. pose proof (zlen_nonneg (drop (length bytes) rest)). lia.
    - rewrite H in Hzr. change (zlen []) with 0 in Hzr. lia. }
  assert (zlen (bytes ++ drop (Z.to_nat 0 + length bytes) d) = BUF_SIZE) as Hbd by (rewrite zlen_app; unfold zlen in *; rewrite length_drop; lia).
  eexists _, b, bytes, (drop (length bytes) rest), outs. split; [done|]. split; [done|]. split; [done|]. split; [|split; [|split; [|split; [done|split; [done|split; [|split; [done|]]]]]]].
  - split; [|done]. constructor; cbn [b buf_pos buf_size buf_data default from_option id]; rewrite ?Hbd; unfold SIZE_MAX, BUF_SIZE in *; lia.
  - unfold data_turns. cbn. by rewrite F1.
  - unfold unread, b. cbn. by rewrite drop_0, Z.sub_0_r, take_app_le, take_zlen by (unfold zlen; lia).
  - unfold b, last. cbn. unfold off_t. by rewrite F3, (proj2 (Z.ltb_lt _ _)) by lia.
  - intros b' (S1 & S2 & S3 & S4 & S5) _. cbn zeta. split; [|done]. constructor; cbn; try done; [pose proof (zlen_nonneg (drop (length bytes) rest)); lia| | |].
    + replace (Z.to_nat (dt_file_offset m + zlen bytes)) with (Z.to_nat (dt_file_offset m) + length bytes)%nat by (unfold zlen; lia). by rewrite <- drop_drop, F5.
    + right. split; [by rewrite S2|]. eexists. split; [by rewrite S1|]. exact Hbd.
    + intros Hmore. rewrite S5. destruct (buf_is_last b) eqn:E; [|done]. destruct Hmore. by apply Hlast.
Qed.

(** The pieces the reads cut the file into. *)
Fixpoint file_pieces (n : nat) (outs : list read_outcome) (content : list Z) (offset : Z) : list (bool * list Z) :=
  match n with
  | O => []
  | Datatypes.S n' =>
      match pread_loop outs content BUF_SIZE offset with
      | (Some (c :: bytes), outs') => (zlen content <=? offset + zlen (c :: bytes), c :: bytes) :: file_pieces n' outs' content (offset + zlen (c :: bytes))
      | _ => []
      end
  end.

Lemma file_yields {S : Type} `{BodyChain S} alloc junk content : alloc BUF_SIZE = true → zlen content < 2 ^ 63 → ∀ n rest st, (length rest < n)%nat → file_left content rest st →
  let ps := file_pieces n (f_reads (rs_file (ds_response st))) content (dt_file_offset (ds_module st)) in
  (Forall accepted ps → yields (P := data_producer alloc junk) st (coded ps) (length ps) CWF_OK) ∧ concat (map snd ps) = rest ∧ (length ps <= length rest)%nat.
Proof.
  intros Ha Hlen. induction n as [|n IH]; intros rest st Hn Hf; [lia|]. cbn zeta. cbn [file_pieces].
  destruct (file_fetch alloc junk content rest st Ha Hlen Hf) as [(-> & (outs & ->) & st' & E)|(st1 & b & bytes & rest' & outs & -> & E & Hb & Hof & Ht & Hu & Hne & -> & Hl' & Hl & Hnext)].
  { split; [intros _; by eapply yields_stop|done]. }
  destruct bytes as [|c bytes]; [done|]. rewrite length_app in *. cbn [length] in Hn. rewrite <- Hl'.
  set (ps := file_pieces n outs content (dt_file_offset (ds_module st) + zlen (c :: bytes))) in *.
  assert (∀ b', same_block b b' → buf_pos b' = buf_size b' →
    (Forall accepted ps → yields (P := data_producer alloc junk) (taken_up (P := data_producer alloc junk) st1 b') (coded ps) (length ps) CWF_OK) ∧ concat (map snd ps) = rest' ∧ (length ps <= length rest')%nat) as Hrec.
  { intros b' Hs Hp. destruct (Hnext b' Hs Hp) as (Hf' & Eo & Ed). specialize (IH rest' (taken_up (P := data_producer alloc junk) st1 b') ltac:(lia) Hf'). cbn zeta in IH. rewrite Eo, Ed in IH. exact IH. }
  destruct (Hrec (set_pos b (buf_size b)) ltac:(by split_and!) ltac:(done)) as (_ & Hc & Hlp).
  split; [|split; [cbn [map snd concat]; by rewrite Hc|cbn [length]; lia]].
  intros Hacc. apply Forall_cons in Hacc as [Ha1 Hacc]. unfold coded. cbn [map concat length fst snd]. change (concat (map _ ps)) with (coded ps). unfold accepted in Ha1. cbn [fst snd] in Ha1. rewrite <- Hu in *.
  eapply yields_more; try done; [|intros b' Hs Hp; by apply Hrec].
  intros Hlast. apply Hl in Hlast. rewrite Hlast in Hlp. cbn [length] in Hlp. lia.
Qed.
