(* ===== verification/DataTheorems.v ===== *)
(** The results on the data filter: what it puts on the wire, in plain and in chunked coding, and where its framing goes wrong. *)

From S2P Require Import Prelude Helpers QueryParser Bufferdata TokenBuffer Bufo WriteFilter ChunkedFilter TeParser HttpResponse BodyChain DataFilter.

(** ** Headers *)

Definition header (k v : list Z) : http_header := HttpHeader k v (zlen k) (zlen v).

Lemma headern_add_plain alloc gzip_types r k v : (∀ n, alloc n = true) →
  cmpstrn_lower k (bs "Transfer-Encoding") = false → cmpstrn_lower k (bs "Content-Encoding") = false →
  cmpstr_lower k (bs "Content-Type") = false → cmpstr_lower k (bs "Transfer-Encoding") = false → cmpstr_lower k (bs "Content-Encoding") = false →
  ∀ rest, httpresponse_headern_add alloc gzip_types r k (zlen k) (v ++ rest) (zlen v) = Some (true, with_headers r (rs_header r ++ [header k v])).
Proof.
  intros Ha H1 H2 H3 H4 H5 rest. unfold httpresponse_headern_add. rewrite (mem_read_Some k) by (rewrite ?Z.add_0_l; pose proof (zlen_nonneg k); lia).
  rewrite drop_0, take_zlen. cbn [mbind option_bind]. rewrite H1, H2. cbn [orb]. rewrite andb_false_r.
  rewrite mem_read_Some by (rewrite ?Z.add_0_l, ?zlen_app; pose proof (zlen_nonneg v); pose proof (zlen_nonneg rest); lia).
  rewrite drop_0, take_app_le, take_zlen by (unfold zlen; lia). cbn [mbind option_bind]. unfold http_header_create, copy_cstringn. rewrite !Ha. cbn [key WriteFilter.value].
  rewrite H3, H4, H5. cbn [andb]. by destruct (rs_range _).
Qed.

Lemma add_content_length_ok alloc gzip_types r n : (∀ n, alloc n = true) → 0 <= n <= SIZE_MAX →
  httpresponse_header_add_content_length alloc gzip_types r n = Some (true, with_headers r (rs_header r ++ [header (bs "Content-Length") (print_zu n)])).
Proof.
  intros Ha Hn. unfold httpresponse_header_add_content_length. destruct (Z.eqb_spec n 0) as [->|Hne].
  - apply (headern_add_plain alloc gzip_types r (bs "Content-Length") (bs "0") Ha eq_refl eq_refl eq_refl eq_refl eq_refl []).
  - rewrite (count_digits_ok 20 20) by (change (10 ^ Z.of_nat 20) with 100000000000000000000; unfold SIZE_MAX in Hn; lia). cbn [mbind option_bind].
    destruct (Z.eqb_spec n 0); [done|]. rewrite Z.add_0_l. change (dec_digits 20 n) with (print_zu n). rewrite take_ge by (pose proof (zlen_print_zu n); unfold zlen in *; lia).
    exact (headern_add_plain alloc gzip_types r (bs "Content-Length") (print_zu n) Ha eq_refl eq_refl eq_refl eq_refl eq_refl [0]).
Qed.

(** ** The body *)

(** Where the body's bytes are. *)
Inductive source (alloc : Z → bool) (content : list Z) (st : data_state) : Prop :=
  | in_memory : body_left content st → source alloc content st
  | in_file : alloc BUF_SIZE = true → zlen content < 2 ^ 63 → file_left content content st → dt_file_offset (ds_module st) = 0 → source alloc content st.

(** About to send a body that this filter produces. *)
Definition sending (alloc : Z → bool) (content : list Z) (st : data_state) : Prop :=
  dt_cont (ds_module st) = false ∧ rs_range (ds_response st) = false ∧ rs_status_code (ds_response st) ≠ 304 ∧ source alloc content st.

Lemma source_size alloc content st : source alloc content st → (f_open (rs_file (ds_response st)) = false → buf_pos (rs_body (ds_response st)) = 0) →
  data_size (ds_response st) = zlen content.
Proof.
  unfold data_size. intros [[H1 H2 _ H4 _ _ _]|_ _ [H1 _ H3 _ _ _ _ _] _] Hp; rewrite H1; [|done]. rewrite <- H4, (zlen_unread _ H2), Hp by done. lia.
Qed.

Lemma source_yields {S : Type} `{BodyChain S} alloc junk content st : source alloc content st →
  ∃ ps, (Forall accepted ps → yields (P := data_producer alloc junk) st (coded ps) (length ps) CWF_OK) ∧ concat (map snd ps) = content ∧ (Datatypes.S (length ps) < data_turns st)%nat ∧
    (f_open (rs_file (ds_response st)) = false → ps = blocks (length content) content).
Proof.
  intros [Hb|Ha Hlen Hf Hoff].
  - exists (blocks (length content) content). split; [by apply body_yields|]. split; [by apply blocks_concat|]. split; [|done].
    pose proof (blocks_length (length content) content). destruct Hb as [Ho [? ? ?] _ Hu _ _ _]. unfold data_turns. rewrite Ho. subst content. unfold unread in *. rewrite length_take, length_drop in *. lia.
  - destruct (file_yields alloc junk content Ha Hlen (Datatypes.S (length content)) content st ltac:(lia) Hf) as (Hy & Hc & Hl).
    eexists. split; [done|]. split; [done|]. destruct Hf as [Ho Hco _ _ _ _ _ _]. unfold data_turns. rewrite Ho, Hco. split; [lia|done].
Qed.

Lemma data_body_runs {S : Type} `{BodyChain S} alloc junk content st (s : S) ps events parent :
  sending alloc content st → idle s → yields (P := data_producer alloc junk) st (coded ps) (length ps) CWF_OK → (Datatypes.S (length ps) < data_turns st)%nat →
  ∃ r st' s' out rest, resume (data_body alloc junk false) events (st, s) parent = Some (r, (st', s'), parent) ∧ wire s' = wire s ++ out ∧ coded ps = out ++ rest ∧
    ((r = CWF_OK ∧ rest = []) ∨ (r = CWF_EVENT_AGAIN ∧ (waits s' < waits s - events ∨ waits s' = 0)%nat) ∨ (r = CWF_ERROR ∧ unbroken s = false)).
Proof.
  intros (Hc & Hr & Hst & Hsrc) Hid Hy HF. rewrite data_body_pump by done. apply (pump_resume (P := data_producer alloc junk)); [done|].
  change (pr_cont (P := data_producer alloc junk) st) with (dt_cont (ds_module st)). rewrite Hc. eapply pump_fresh; try done; [].
  change (pr_fuel (P := data_producer alloc junk) st) with (data_turns st). lia.
Qed.

(** In plain coding the pieces do not matter. *)
Lemma coded_plain {S : Type} `{BodySinkLaws S} (ps : list (bool * list Z)) : coded (S := S) ps = concat (map snd ps).
Proof. done. Qed.

(** ** Chunked coding *)

Lemma blocks_clear fuel : ∀ l, Forall (λ q, q.1 = false → ends_clear BUF_SIZE q.2 = true) (blocks fuel l).
Proof.
  induction fuel as [|f IH]; intros [|c l]; try done. cbn [blocks]. constructor; [|apply IH]. cbn [fst snd]. intros Hl. apply Z.leb_gt in Hl.
  unfold ends_clear, chunk. set (d := take _ _). assert (zlen d = BUF_SIZE) as Hd by (unfold d; rewrite zlen_take; unfold BUF_SIZE in *; lia).
  destruct d eqn:E; [unfold BUF_SIZE in Hd; done|]. rewrite !zlen_app, Hd. reflexivity.
Qed.

Lemma blocks_small fuel : ∀ l, Forall (λ q, zlen q.2 <= BUF_SIZE) (blocks fuel l).
Proof.
  induction fuel as [|f IH]; intros [|c l]; try done. cbn [blocks]. constructor; [|apply IH]. cbn [snd]. rewrite zlen_take. unfold BUF_SIZE. lia.
Qed.

Lemma coded_chunked fuel : ∀ l, l ≠ [] → (length l <= fuel)%nat →
  concat (map (λ q : bool * list Z, chunk q.2 ++ (if q.1 then LAST_CHUNK else [])) (blocks fuel l)) = chunked_encoding (map snd (blocks fuel l)).
Proof.
  unfold chunked_encoding. induction fuel as [|f IH]; intros [|c l] Hne Hl; try done; [simpl in Hl; lia|]. cbn [blocks map fst snd concat].
  destruct (Z.leb_spec (zlen (c :: l)) BUF_SIZE) as [Hle|Hgt].
  - rewrite drop_ge by (unfold zlen, BUF_SIZE in *; lia). assert (blocks f [] = []) as -> by (by destruct f). cbn [map concat]. by rewrite !app_nil_r.
  - rewrite app_nil_r, IH; [by rewrite app_assoc| |].
    + intros E. apply (f_equal zlen) in E. rewrite zlen_drop in E. change (zlen []) with 0 in E. unfold BUF_SIZE in *. lia.
    + rewrite length_drop. unfold BUF_SIZE. cbn [length] in *. lia.
Qed.

(** ** Properties *)

Definition cache_control (r : httpresponse) : list http_header := if f_open (rs_file r) then [header (bs "Cache-Control") (bs "no-cache")] else [].

(** A response whose length is known is framed exactly: the head handler passes on the response with a Content-Length that is the
    number of bytes of the body (after Cache-Control for a file), and the body handler puts those bytes on the wire, from memory or
    from the file in reads of any sizes, whatever the socket does: what was sent is a prefix of the body, all of it when the
    handler reports success, and the handler fails only if the socket does and waits only while the socket does. *)
Theorem data_response_exact {T : Type} `{HeadSink T} (alloc : Z → bool) (junk : Z) (gzip_types : list (list Z)) (st : data_state) (content : list Z)
    (h : T) (m : http_module_chunked) (s : socket) (events : nat) (parent : bufo) :
  (∀ n, alloc n = true) → sending alloc content st → rs_transfer_encoding (ds_response st) = TE_NONE →
  (f_open (rs_file (ds_response st)) = false → buf_pos (rs_body (ds_response st)) = 0) → zlen content <= SIZE_MAX → (length (script s) <= events)%nat →
  (data_header alloc gzip_types st h =
     '(c, h, r) ← next_header h (with_headers (ds_response st) (rs_header (ds_response st) ++ cache_control (ds_response st) ++ [header (bs "Content-Length") (print_zu (zlen content))]));
     Some (c, DataState (set_data_cont (ds_module st) (c =? CWF_EVENT_AGAIN)) r, h)) ∧
  dec_value (print_zu (zlen content)) = zlen content ∧
  ∃ r st' m' s' out rest,
    resume (data_body alloc junk false) events (st, (m, s) : chunked_over alloc junk true false socket) parent = Some (r, (st', (m', s')), parent) ∧
    sent s' = sent s ++ out ∧ content = out ++ rest ∧
    ((r = CWF_OK ∧ rest = []) ∨ (r = CWF_EVENT_AGAIN ∧ script s' = []) ∨ (r = CWF_ERROR ∧ healthy (script s) = false)).
Proof.
  intros Ha Hs Hte Hpos Hz Hev. pose proof Hs as (Hc & Hr & Hst & Hsrc). split; [|split; [apply print_zu_value; split; [apply zlen_nonneg|done]|]].
  - unfold data_header. rewrite Hc. assert (∀ r hs, rs_range r = rs_range (ds_response st) → rs_transfer_encoding r = TE_NONE → rs_status_code r ≠ 304 → data_size r = zlen content → rs_header r = hs →
      (if negb (rs_range r) && bool_decide (rs_transfer_encoding r = TE_NONE) && negb (rs_status_code r =? 304) then httpresponse_header_add_content_length alloc gzip_types r (data_size r) else Some (true, r))
      = Some (true, with_headers r (hs ++ [header (bs "Content-Length") (print_zu (zlen content))]))) as Hcl.
    { intros r hs -> -> Hcode -> <-. rewrite Hr. destruct (Z.eqb_spec (rs_status_code r) 304); [done|]. cbn. apply add_content_length_ok; [done|]. split; [apply zlen_nonneg|done]. }
    pose proof (source_size alloc content st Hsrc Hpos) as Hds. unfold cache_control. destruct (f_open (rs_file (ds_response st))) eqn:Ef.
    + unfold httpresponse_header_add. pose proof (headern_add_plain alloc gzip_types (ds_response st) (bs "Cache-Control") (bs "no-cache") Ha eq_refl eq_refl eq_refl eq_refl eq_refl []) as Hadd.
      rewrite app_nil_r in Hadd. change (zlen (cstr (bs "Cache-Control"))) with (zlen (bs "Cache-Control")). change (zlen (cstr (bs "no-cache"))) with (zlen (bs "no-cache")).
      rewrite Hadd. cbn [mbind option_bind negb]. rewrite (Hcl (with_headers (ds_response st) (rs_header (ds_response st) ++ [header (bs "Cache-Control") (bs "no-cache")])) _ eq_refl) by done. cbn [mbind option_bind negb]. cbn [rs_header with_headers]. rewrite <- app_assoc.
      change (next_header h (with_headers (with_headers ?r ?x) ?y)) with (next_header h (with_headers r y)). done.
    + cbn [mbind option_bind negb]. rewrite (Hcl _ _ eq_refl) by done. done.
  - destruct (source_yields (S := chunked_over alloc junk true false socket) alloc junk content st Hsrc) as (ps & Hy & Hcat & HF & _).
    destruct (data_body_runs (S := chunked_over alloc junk true false socket) alloc junk content st (m, s) ps events parent Hs) as (r & st' & [m' s'] & out & rest & E & Hw & Ht & Hres); [done|by apply Hy, Forall_true|done|].
    exists r, st', m', s', out, rest. split; [exact E|]. split; [exact Hw|]. rewrite coded_plain, Hcat in Ht. split; [done|].
    destruct Hres as [?|[[? Hwt]|?]]; [by left|right; left|by right; right]. split; [done|]. cbn in Hwt. apply nil_length_inv. lia.
Qed.

Definition closed_file : file := File false 0 0 [] [].
Definition memory_response (te : http_transfer_encoding) (data : list Z) : httpresponse :=
  Rsp 200 [] 0 CE_NONE te false false (Bufo (Some data) (zlen data) (zlen data) 0 false false) closed_file.
Definition memory_state (te : http_transfer_encoding) (data : list Z) : data_state := DataState data_create (memory_response te data).

Lemma memory_sending alloc te data : zlen data <= BUF_SIZE → sending alloc data (memory_state te data).
Proof.
  intros Hz. split; [done|]. split; [done|]. split; [done|]. apply in_memory. pose proof (zlen_nonneg data). unfold BUF_SIZE in Hz.
  constructor; cbn; try done; [constructor; cbn; unfold SIZE_MAX; lia|]. unfold unread. cbn. by rewrite drop_0, Z.sub_0_r, take_zlen.
Qed.

Lemma data_response_exact_witness :
  let st := memory_state TE_NONE (bs "hello") in
  (data_header (S := head_writer (λ _, true) 0) (λ _, true) [] st (Socket [] [] false, Bufo None 0 0 0 false false) =
     '(c, h, r) ← next_header (S := head_writer (λ _, true) 0) (Socket [] [] false, Bufo None 0 0 0 false false)
        (with_headers (ds_response st) ([] ++ [] ++ [header (bs "Content-Length") (print_zu (zlen (bs "hello")))]));
     Some (c, DataState (set_data_cont (ds_module st) (c =? CWF_EVENT_AGAIN)) r, h)) ∧
  dec_value (print_zu (zlen (bs "hello"))) = zlen (bs "hello") ∧
  ∃ r st' m' s' out rest,
    resume (data_body (λ _, true) 0 false) 2 (st, (ready_module, Socket [Sent 2; WouldBlock] [] false) : chunked_over (λ _, true) 0 true false socket) (Bufo None 0 0 0 false false)
      = Some (r, (st', (m', s')), Bufo None 0 0 0 false false) ∧
    sent s' = [] ++ out ∧ bs "hello" = out ++ rest ∧
    ((r = CWF_OK ∧ rest = []) ∨ (r = CWF_EVENT_AGAIN ∧ script s' = []) ∨ (r = CWF_ERROR ∧ healthy [Sent 2; WouldBlock] = false)).
Proof.
  apply (data_response_exact (T := head_writer (λ _, true) 0) (λ _, true) 0 [] (memory_state TE_NONE (bs "hello")) (bs "hello")
    (Socket [] [] false, Bufo None 0 0 0 false false) ready_module (Socket [Sent 2; WouldBlock] [] false) 2 (Bufo None 0 0 0 false false)).
  - reflexivity.
  - apply memory_sending. vm_compute. discriminate.
  - reflexivity.
  - reflexivity.
  - vm_compute. discriminate.
  - simpl. lia.
Defined.



Definition grown_file : httpresponse := Rsp 200 [] 0 CE_NONE TE_NONE false false (Bufo None 0 0 0 false false) (File true 3 0 (bs "hello") []).
Definition no_buffer : bufo := Bufo None 0 0 0 false false.

(** Two bodies whose framing does not match. An empty chunked body is reported as sent although nothing is: the chunked filter is
    never called, and the last-chunk the client waits for is missing. A file that has grown since it was opened is read to its
    end: five bytes follow a Content-Length of three. *)
Theorem data_body_misframed :
  (∃ st' ms', data_body (λ _, true) 0 false (memory_state TE_CHUNKED [], (ready_module, hello_socket) : chunked_over (λ _, true) 0 false false socket) no_buffer
     = Some (CWF_OK, (st', ms'), no_buffer) ∧ sent ms'.2 = [] ∧ chunked_encoding [] = LAST_CHUNK) ∧
  (∃ c st' h', data_header (S := head_writer (λ _, true) 0) (λ _, true) [] (DataState data_create grown_file) (Socket [Sent 999] [] false, no_buffer) = Some (c, st', h') ∧
     rs_header (ds_response st') = [header (bs "Cache-Control") (bs "no-cache"); header (bs "Content-Length") (bs "3")]) ∧
  (∃ st' ms', data_body (λ _, true) 0 false (DataState data_create grown_file, (ready_module, Socket [Sent 99; Sent 99] [] false) : chunked_over (λ _, true) 0 true false socket) no_buffer
     = Some (CWF_OK, (st', ms'), no_buffer) ∧ sent ms'.2 = bs "hello").
Proof.
  split; [|split].
  - eexists _, _. split; [reflexivity|]. split; reflexivity.
  - eexists _, _, _. split; [vm_compute; reflexivity|]. reflexivity.
  - eexists _, (_, Socket _ _ _). split; [vm_compute; reflexivity|]. reflexivity.
Qed.
