(* ===== verification/RangeFilter.v ===== *)
(** The range filter ([filters/http_range_filter.c]): it resolves the ranges of the request against the size of the representation
    and answers with the bytes of one range, with a multipart body of several, or with 416.

    The module's fields for multipart bodies are the record [multipart]. [None] is an access outside a block, a NULL dereference or a
    loop that outlives its fuel. The numbers [rand] gives are a parameter. *)

From S2P Require Import Prelude Helpers QueryParser RangeParser Bufo WriteFilter ChunkedFilter HttpResponse BodyChain DataFilter.

(** ** The module *)

Definition RANGE_MAX_PARTS : Z := 64.
Definition SIZEOF_PART : Z := 16.
Definition SSIZE_MAX : Z := 2 ^ 63 - 1.
Definition INT_MAX : Z := 2147483647.

Record http_range_part : Set := Part { part_start : Z; part_size : Z }.

Inductive mp_state : Set := MP_STATE_TEXT | MP_STATE_DATA | MP_STATE_DONE.

#[export] Instance mp_state_eq : EqDecision mp_state.
Proof. solve_decision. Defined.

Record multipart : Set := Multipart {
  mp_active : bool;
  mp_parts : option (list http_range_part);
  mp_parts_count : Z;
  mp_part_index : Z;
  mp_at : mp_state;
  mp_total : Z;
  mp_data_pos : Z;
  mp_part_ctype : option (list Z);
  mp_text : option (list Z);
  mp_text_len : Z;
  mp_text_pos : Z;
  mp_boundary : list Z }.

Record http_module_range : Set := RangeModule {
  rg_cont : bool;
  rg_done : bool;
  rg_buf : bufo;
  rg_size : Z;
  rg_pos : Z;
  rg_start : Z;
  rg_unsatisfiable : bool;
  rg_mp : multipart }.

(** [boundary[0] = 0]: the rest of the 17 bytes stays. *)
Definition cut_boundary (b : list Z) : list Z := match b with [] => [] | _ :: b' => 0 :: b' end.

Definition no_multipart (boundary : list Z) : multipart := Multipart false None 0 0 MP_STATE_TEXT 0 0 None None 0 0 (cut_boundary boundary).

Definition range_module_create (boundary : list Z) : http_module_range :=
  RangeModule false false (Bufo None 0 0 0 false false) 0 0 0 false (no_multipart boundary).

Definition range_module_clear (m : http_module_range) : http_module_range :=
  RangeModule (rg_cont m) (rg_done m) (rg_buf m) 0 0 0 false (no_multipart (mp_boundary (rg_mp m))).

Definition range_module_reset (m : http_module_range) : http_module_range :=
  let m := range_module_clear (RangeModule false false (rg_buf m) (rg_size m) (rg_pos m) (rg_start m) (rg_unsatisfiable m) (rg_mp m)) in
  RangeModule (rg_cont m) (rg_done m) (bufo_flush (rg_buf m)) (rg_size m) (rg_pos m) (rg_start m) (rg_unsatisfiable m) (rg_mp m).

Definition set_range_cont (m : http_module_range) (c : bool) : http_module_range :=
  RangeModule c (rg_done m) (rg_buf m) (rg_size m) (rg_pos m) (rg_start m) (rg_unsatisfiable m) (rg_mp m).
Definition set_range_buf (m : http_module_range) (b : bufo) : http_module_range :=
  RangeModule (rg_cont m) (rg_done m) b (rg_size m) (rg_pos m) (rg_start m) (rg_unsatisfiable m) (rg_mp m).
Definition set_range_pos (m : http_module_range) (n : Z) : http_module_range :=
  RangeModule (rg_cont m) (rg_done m) (rg_buf m) (rg_size m) n (rg_start m) (rg_unsatisfiable m) (rg_mp m).
Definition set_single (m : http_module_range) (start size : Z) : http_module_range :=
  RangeModule (rg_cont m) (rg_done m) (rg_buf m) size (rg_pos m) start (rg_unsatisfiable m) (rg_mp m).
Definition set_unsatisfiable (m : http_module_range) : http_module_range :=
  RangeModule (rg_cont m) (rg_done m) (rg_buf m) (rg_size m) (rg_pos m) (rg_start m) true (rg_mp m).
Definition set_mp (m : http_module_range) (p : multipart) : http_module_range :=
  RangeModule (rg_cont m) (rg_done m) (rg_buf m) (rg_size m) (rg_pos m) (rg_start m) (rg_unsatisfiable m) p.

Definition mp_at_text (p : multipart) (t : option (list Z)) (len pos : Z) : multipart :=
  Multipart (mp_active p) (mp_parts p) (mp_parts_count p) (mp_part_index p) (mp_at p) (mp_total p) (mp_data_pos p) (mp_part_ctype p) t len pos (mp_boundary p).
Definition mp_move (p : multipart) (st : mp_state) (index data_pos : Z) : multipart :=
  Multipart (mp_active p) (mp_parts p) (mp_parts_count p) index st (mp_total p) data_pos (mp_part_ctype p) (mp_text p) (mp_text_len p) (mp_text_pos p) (mp_boundary p).

(** The module and its response. *)
Record range_state : Set := RangeState { rf_module : http_module_range; rf_response : httpresponse }.

(** ** Resolving a range *)

Inductive resolved : Set := Malformed | Unsatisfiable | Satisfiable (part : http_range_part).

Definition range_resolve (source_start source_end data_size : Z) : resolved :=
  if (source_start <? -1) || (source_end <? -1) then Malformed
  else
    let '(start, end_) :=
      if source_start =? -1 then
        let suffix_len := if 0 <? source_end then source_end else 0 in
        let suffix_len := if data_size <? suffix_len then data_size else suffix_len in
        (data_size - suffix_len, data_size)
      else
        let end_ := if source_end =? -1 then data_size else source_end + 1 in
        (source_start, if data_size <? end_ then data_size else end_) in
    if end_ <=? start then Unsatisfiable else Satisfiable (Part start (end_ - start)).

(** The parts, in the order of the request; [None] when a range is malformed. *)
Fixpoint resolve_all (ranges : list http_range) (data_size : Z) : option (list http_range_part) :=
  match ranges with
  | [] => Some []
  | g :: ranges' =>
      match range_resolve (start g) (end_ g) data_size with
      | Malformed => None
      | Unsatisfiable => resolve_all ranges' data_size
      | Satisfiable part => parts ← resolve_all ranges' data_size; Some (part :: parts)
      end
  end.

(** ** Reading the representation *)

(** The bytes for [dst], or [None] for -1. *)
Definition range_read_data (r : httpresponse) (offset size : Z) : option (option (list Z) * httpresponse) :=
  if size =? 0 then Some (Some [], r)
  else if f_open (rs_file r) then
    if SSIZE_MAX <? offset then Some (None, r)
    else
      let '(got, outs) := pread_loop (f_reads (rs_file r)) (f_content (rs_file r)) size offset in
      Some (got, with_reads r outs)
  else
    match buf_data (rs_body r) with
    | None => Some (None, r)
    | Some d => bytes ← mem_read d offset size; Some (Some bytes, r)
    end.

Definition with_block (b : bufo) (d : list Z) : bufo := Bufo (Some d) (buf_capacity b) (buf_size b) (buf_pos b) (buf_is_proxy b) (buf_is_last b).

Definition range_get_chunk (st : range_state) : option (bool * range_state) :=
  let m := rf_module st in
  let buf := rg_buf m in
  match buf_data buf with
  | None => Some (false, st)
  | Some d =>
      if rg_size m <? rg_pos m then Some (false, st)
      else
        let remaining := rg_size m - rg_pos m in
        let take := if remaining <? buf_capacity buf then remaining else buf_capacity buf in
        '(got, r) ← range_read_data (rf_response st) (wrap64 (rg_start m + rg_pos m)) take;
        match got with
        | None => Some (false, RangeState m r)
        | Some bytes =>
            d' ← mem_write d 0 bytes;
            let m := set_range_pos m (rg_pos m + zlen bytes) in
            let buf := with_block buf d' in
            let buf := if (rg_pos m =? rg_size m) || ((zlen bytes =? 0) && (0 <? take)) then set_last buf else buf in
            Some (true, RangeState (set_range_buf m (bufo_set_size (bufo_reset_pos buf) (zlen bytes))) r)
        end
  end.

(** ** Multipart bodies *)

Definition BOUNDARY_CHARS : list Z := bs "0123456789abcdefghijklmnopqrstuvwxyzABCDEFGHIJKLMNOPQRSTUVWXYZ".
Definition BOUNDARY_LENGTH : nat := 16.

Definition mp_generate_boundary (rand : nat → Z) : option (list Z) :=
  chars ← mapM (λ i, mem_get BOUNDARY_CHARS (wrap64 (rand i) mod zlen BOUNDARY_CHARS)) (seq 0 BOUNDARY_LENGTH);
  Some (chars ++ [0]).

(** [snprintf] returns a negative number when the text does not fit an [int]. *)
Definition snprintf_length (text : list Z) : Z := if zlen text <=? INT_MAX then zlen text else -1.

(** [MP_PART_HEADER_FMT] *)
Definition part_header (p : multipart) (ctype : list Z) (part : http_range_part) : list Z :=
  bs "--" ++ cstr (mp_boundary p) ++ CRLF ++ bs "Content-Type: " ++ cstr ctype ++ CRLF ++ bs "Content-Range: bytes " ++
  print_zu (part_start part) ++ bs "-" ++ print_zu (wrap64 (part_start part + part_size part - 1)) ++ bs "/" ++ print_zu (mp_total p) ++ CRLF ++ CRLF.

(** [MP_CLOSE_FMT] *)
Definition close_delimiter (p : multipart) : list Z := bs "--" ++ cstr (mp_boundary p) ++ bs "--" ++ CRLF.

Definition mp_part_header_length (p : multipart) (part : http_range_part) : option Z :=
  ctype ← mp_part_ctype p; Some (snprintf_length (part_header p ctype part)).

Definition part_at (p : multipart) (i : Z) : option http_range_part :=
  parts ← mp_parts p; if 0 <=? i then parts !! Z.to_nat i else None.

Section Alloc.
Variable alloc : Z → bool.
Variable junk : Z.

Definition mp_stage_text (p : multipart) (lead_crlf : bool) : option (bool * multipart) :=
  let p := mp_at_text p None 0 0 in
  let prefix := if lead_crlf then 2 else 0 in
  let close_frame := mp_parts_count p <=? mp_part_index p in
  '(body_length, body) ←
    (if close_frame then Some (zlen (cstr (mp_boundary p)) + 6, close_delimiter p)
     else
       part ← part_at p (mp_part_index p);
       len ← mp_part_header_length p part;
       ctype ← mp_part_ctype p;
       Some (len, part_header p ctype part));
  if body_length <? 0 then Some (false, p)
  else if negb (alloc (prefix + body_length + 1)) then Some (false, p)
  else
    let text := (if lead_crlf then CRLF else []) ++ take (Z.to_nat body_length) body ++ [0] in
    let written := snprintf_length body in
    if (written <? 0) || negb (written =? body_length) then Some (false, p)
    else Some (true, mp_at_text p (Some text) (prefix + body_length) 0).

(** The Content-Length loop of [mp_setup]; [None] inside is the error return. *)
Fixpoint mp_length (p : multipart) (parts : list http_range_part) (content_length : Z) : option (option Z) :=
  match parts with
  | [] => Some (Some content_length)
  | part :: parts' =>
      header_length ← mp_part_header_length p part;
      if header_length <? 0 then Some None
      else
        let part_length := wrap64 (header_length + part_size part + 2) in
        if (part_length <? part_size part) || (SIZE_MAX - part_length <? content_length) then Some None
        else mp_length p parts' (wrap64 (content_length + part_length))
  end.

Variable gzip_types : list (list Z).
Variable rand : nat → Z.

Definition MP_CTYPE_DEFAULT : list Z := bs "application/octet-stream".

(** The steps of [mp_setup] after the boundary and the type of the parts are known. *)
Definition mp_frame (m : http_module_range) (r : httpresponse) : option (bool * range_state) :=
  let p := rg_mp m in
  let content_type := bs "multipart/byteranges; boundary=" ++ cstr (mp_boundary p) in
  if 64 <=? zlen content_type then Some (false, RangeState m r)
  else
    '(ok, r) ← httpresponse_headeru_add alloc gzip_types r (bs "Content-Type") 12 (content_type ++ [0]) (zlen content_type);
    if negb ok then Some (false, RangeState m r)
    else
      parts ← mp_parts p;
      total ← mp_length p (take (Z.to_nat (mp_parts_count p)) parts) (zlen (cstr (mp_boundary p)) + 6);
      match total with
      | None => Some (false, RangeState m r)
      | Some content_length =>
          let r := with_status r 206 in
          '(ok, r) ← httpresponse_header_add_content_length alloc gzip_types r content_length;
          if negb ok then Some (false, RangeState m r)
          else
            let '(ok, buf) := bufo_alloc alloc junk (rg_buf m) BUF_SIZE in
            let m := set_range_buf m buf in
            if negb ok then Some (false, RangeState m r)
            else
              '(ok, p) ← mp_stage_text p false;
              Some (ok, RangeState (set_mp m p) r)
      end.

Definition mp_setup (st : range_state) (data_size : Z) : option (bool * range_state) :=
  let m := rf_module st in
  let p := rg_mp m in
  let r := rf_response st in
  boundary ← mp_generate_boundary rand;
  let origin := httpresponse_header_get r (bs "Content-Type") in
  let ctype := match origin with Some h => WriteFilter.value h | None => MP_CTYPE_DEFAULT end in
  let p := Multipart true (mp_parts p) (mp_parts_count p) 0 MP_STATE_TEXT data_size 0 None (mp_text p) (mp_text_len p) (mp_text_pos p) boundary in
  if negb (alloc (zlen (cstr ctype) + 1)) then Some (false, RangeState (set_mp m p) r)
  else
    let p := Multipart true (mp_parts p) (mp_parts_count p) 0 MP_STATE_TEXT data_size 0 (Some (cstr ctype)) (mp_text p) (mp_text_len p) (mp_text_pos p) boundary in
    let r := match origin with Some _ => (httpresponse_header_remove r (bs "Content-Type")).2 | None => r end in
    mp_frame (set_mp m p) r.

(** The loop of [mp_fill_chunk]: [filled], the module's multipart fields, the buffer's block and the response; the flag is false on failure. *)
Fixpoint mp_fill (fuel : nat) (capacity : Z) (d : list Z) (p : multipart) (r : httpresponse) (filled : Z)
    : option (bool * Z * list Z * multipart * httpresponse) :=
  match fuel with
  | O => None
  | S f =>
      if (filled <? capacity) && negb (bool_decide (mp_at p = MP_STATE_DONE)) then
        let space := capacity - filled in
        if bool_decide (mp_at p = MP_STATE_TEXT) then
          match mp_text p with
          | None => Some (false, filled, d, p, r)
          | Some text =>
              let left := wrap64 (mp_text_len p - mp_text_pos p) in
              let take := if left <? space then left else space in
              bytes ← mem_read text (mp_text_pos p) take;
              d ← mem_write d filled bytes;
              let pos := mp_text_pos p + take in
              let p := mp_at_text p (Some text) (mp_text_len p) pos in
              let p := if pos =? mp_text_len p then mp_move p (if mp_part_index p <? mp_parts_count p then MP_STATE_DATA else MP_STATE_DONE) (mp_part_index p) 0 else p in
              mp_fill f capacity d p r (filled + take)
          end
        else
          part ← part_at p (mp_part_index p);
          let left := wrap64 (part_size part - mp_data_pos p) in
          let take := if left <? space then left else space in
          '(got, r) ← range_read_data r (wrap64 (part_start part + mp_data_pos p)) take;
          match got with
          | None => Some (false, filled, d, p, r)
          | Some bytes =>
              d ← mem_write d filled bytes;
              if (zlen bytes =? 0) && (0 <? take) then Some (false, filled, d, p, r)
              else
                let data_pos := mp_data_pos p + zlen bytes in
                let filled := filled + zlen bytes in
                if data_pos =? part_size part then
                  '(ok, p) ← mp_stage_text (mp_move p MP_STATE_DATA (mp_part_index p + 1) data_pos) true;
                  if negb ok then Some (false, filled, d, p, r)
                  else mp_fill f capacity d (mp_move p MP_STATE_TEXT (mp_part_index p) (mp_data_pos p)) r filled
                else mp_fill f capacity d (mp_move p MP_STATE_DATA (mp_part_index p) data_pos) r filled
          end
      else Some (true, filled, d, p, r)
  end.

(** Every turn but the last fills at least a byte. *)
Definition mp_fill_chunk (st : range_state) : option (bool * range_state) :=
  let m := rf_module st in
  let buf := rg_buf m in
  match buf_data buf with
  | None => Some (false, st)
  | Some d =>
      '(ok, filled, d, p, r) ← mp_fill (S (Z.to_nat (buf_capacity buf))) (buf_capacity buf) d (rg_mp m) (rf_response st) 0;
      let m := set_mp m p in
      let buf := with_block buf d in
      if negb ok then Some (false, RangeState (set_range_buf m buf) r)
      else
        let buf := if bool_decide (mp_at p = MP_STATE_DONE) then set_last buf else buf in
        Some (true, RangeState (set_range_buf m (bufo_set_size (bufo_reset_pos buf) filled)) r)
  end.
End Alloc.

(** ** The handlers *)

(** The module, as a producer for the allocator [alloc]. *)
Definition range_producer (alloc : Z → bool) (junk : Z) : Type := range_state.
#[global] Typeclasses Opaque range_producer.

(** The top of the loop of [range_handler_body]. *)
Definition range_fetch (alloc : Z → bool) (st : range_state) : option (option Z * range_state) :=
  '(filled, st) ← (if mp_active (rg_mp (rf_module st)) then mp_fill_chunk alloc st else range_get_chunk st);
  Some (if filled : bool then None else Some CWF_ERROR, st).

Definition range_after (st : range_state) : option Z :=
  let buf := rg_buf (rf_module st) in
  if buf_pos buf <? buf_size buf then Some CWF_ERROR
  else if buf_is_last buf then Some CWF_OK
  else None.

(** A turn of the loop sends at least a byte: of a range, or of the framing of a part (less than 256 bytes and its type). *)
Definition range_turns (st : range_state) : nat :=
  let m := rf_module st in
  Z.to_nat (rg_size m) + 260 + foldr (λ part n, Z.to_nat (part_size part) + length (default [] (mp_part_ctype (rg_mp m))) + 260 + n)%nat 0%nat (default [] (mp_parts (rg_mp m))).

#[export] Instance range_pump alloc junk : Producer (range_producer alloc junk) := {
  pr_cont st := rg_cont (rf_module st);
  pr_set_cont st c := RangeState (set_range_cont (rf_module st) c) (rf_response st);
  pr_buf st := Some (rg_buf (rf_module st));
  pr_put st b := RangeState (set_range_buf (rf_module st) b) (rf_response st);
  pr_fetch := range_fetch alloc;
  pr_after := range_after;
  pr_fuel := range_turns }.

Section Handlers.
Variable alloc : Z → bool.
Variable junk : Z.
Variable gzip_types : list (list Z).
Variable rand : nat → Z.

(** The response with the range plan: [None] inside is an error return. *)
Definition range_plan (multipart_ : bool) (parts : list http_range_part) (st : range_state) : option (option range_state) :=
  let m := rf_module st in
  let size := data_size (rf_response st) in
  let r0 := rf_response st in
  let r := Rsp (rs_status_code r0) (rs_header r0) (rs_content_length r0) CE_NONE TE_NONE true (rs_last_modified r0) (rs_body r0) (rs_file r0) in
  match parts with
  | [] =>
      let m := set_unsatisfiable m in
      let r := with_status r 416 in
      let bytes := bs "bytes */" ++ print_zu size in
      if 70 <=? zlen bytes then Some None
      else
        '(ok, r) ← httpresponse_headeru_add alloc gzip_types r (bs "Content-Range") 13 (bytes ++ [0]) (zlen bytes);
        if negb ok then Some None
        else
          '(ok, r) ← httpresponse_header_add_content_length alloc gzip_types r 0;
          if negb ok then Some None else Some (Some (RangeState m r))
  | part :: _ =>
      if negb multipart_ then
        let m := set_single m (part_start part) (part_size part) in
        let r := with_status r 206 in
        let bytes := bs "bytes " ++ print_zu (rg_start m) ++ bs "-" ++ print_zu (wrap64 (rg_start m + rg_size m - 1)) ++ bs "/" ++ print_zu size in
        if 70 <=? zlen bytes then Some None
        else
          '(ok, r) ← httpresponse_headeru_add alloc gzip_types r (bs "Content-Range") 13 (bytes ++ [0]) (zlen bytes);
          if negb ok then Some None
          else
            '(ok, r) ← httpresponse_header_add_content_length alloc gzip_types r (rg_size m);
            if negb ok then Some None
            else
              let '(ok, buf) := bufo_alloc alloc junk (rg_buf m) BUF_SIZE in
              if negb ok then Some None else Some (Some (RangeState (set_range_buf m buf) r))
      else
        let p := rg_mp m in
        let p := Multipart (mp_active p) (Some parts) (zlen parts) (mp_part_index p) (mp_at p) (mp_total p) (mp_data_pos p) (mp_part_ctype p) (mp_text p) (mp_text_len p) (mp_text_pos p) (mp_boundary p) in
        '(ok, st) ← mp_setup alloc junk gzip_types rand (RangeState (set_mp m p) r) size;
        if negb ok then Some None else Some (Some st)
  end.

Context {S : Type}.

(** The state after an error return is not used again: the connection is closed. *)
Definition range_handler_header `{HeadSink S} (ranges : list http_range) (st : range_state) (s : S) : option (Z * range_state * S) :=
  let r := rf_response st in
  let forward := '(c, s, r) ← next_header s r; Some (c, RangeState (rf_module st) r, s) in
  let cont st :=
    '(c, s, r) ← next_header s (rf_response st);
    Some (c, RangeState (set_range_cont (rf_module st) (c =? CWF_EVENT_AGAIN)) r, s) in
  if rg_cont (rf_module st) then cont st
  else match ranges with
  | [] => forward
  | _ :: rest =>
      if (rs_status_code r <? 200) || (300 <=? rs_status_code r) then forward
      else if rs_last_modified r then forward
      else
        let requested := zlen ranges in
        if RANGE_MAX_PARTS <? requested then forward
        else if negb (alloc (requested * SIZEOF_PART)) then Some (CWF_ERROR, st, s)
        else match resolve_all ranges (data_size r) with
        | None => forward
        | Some parts =>
            let multipart_ := match rest with [] => false | _ => true end in
            plan ← range_plan multipart_ parts st;
            match plan with
            | None => Some (CWF_ERROR, st, s)
            | Some st => cont st
            end
        end
  end.

(** [has_request] and [head_method]: there is a request, and its method is HEAD. *)
Definition range_handler_body `{BodySink S} (has_request head_method : bool) (ms : range_state * S) (parent_buf : bufo) : option (Z * (range_state * S) * bufo) :=
  let '(st, s) := ms in
  let forward := '(c, s, b) ← next_body s parent_buf; Some (c, (st, s), b) in
  if negb has_request || negb (rs_range (rf_response st)) then forward
  else if rs_last_modified (rf_response st) then forward
  else if rg_unsatisfiable (rf_module st) then Some (CWF_OK, ms, parent_buf)
  else if head_method then Some (CWF_OK, ms, parent_buf)
  else pump_body (P := range_producer alloc junk) ms parent_buf.
End Handlers.
