(* ===== verification/RangeBody.v ===== *)
(** The body of a range response: what the fetching functions of the range filter produce from the representation. *)

From S2P Require Import Prelude Helpers QueryParser RangeParser Bufo WriteFilter ChunkedFilter HttpResponse BodyChain DataFilter RangeFilter.

#[export] Instance range_pump_laws alloc junk : ProducerLaws (range_producer alloc junk).
Proof. by constructor. Qed.

(** What [range_handler_body] tests stays as it is. *)
Definition range_kept (st st' : range_state) : Prop :=
  rs_range (rf_response st') = rs_range (rf_response st) ∧ rs_last_modified (rf_response st') = rs_last_modified (rf_response st) ∧
  rg_unsatisfiable (rf_module st') = rg_unsatisfiable (rf_module st).

(** ** The representation *)

(** The representation of the response is [content], in memory or in a file whose reads do not fail. *)
Definition serves (content : list Z) (r : httpresponse) : Prop :=
  zlen content <= SSIZE_MAX ∧
  ((f_open (rs_file r) = false ∧ buf_size (rs_body r) = zlen content ∧ ∃ d, buf_data (rs_body r) = Some d ∧ take (length content) d = content) ∨
   (f_open (rs_file r) = true ∧ f_content (rs_file r) = content ∧ f_size (rs_file r) = zlen content ∧ reads_well (f_reads (rs_file r)) = true)).

Lemma serves_size content r : serves content r → data_size r = zlen content.
Proof. unfold data_size. by intros [_ [(-> & -> & _)|(-> & _ & -> & _)]]. Qed.

Lemma slice_nonempty off size (content : list Z) : 0 <= off → 0 < size → off < zlen content → slice off size content ≠ [].
Proof.
  intros Ho Hs Hl E. apply (f_equal zlen) in E. unfold slice in E. rewrite zlen_take, zlen_drop in E. change (zlen []) with 0 in E. lia.
Qed.

Lemma zlen_slice off size (content : list Z) : 0 <= off → 0 <= size → off + size <= zlen content → zlen (slice off size content) = size.
Proof. intros. unfold slice. rewrite zlen_take, zlen_drop. lia. Qed.

Lemma slice_split off size n (content : list Z) : 0 <= n <= size → 0 <= off → slice off size content = slice off n content ++ slice (off + n) (size - n) content.
Proof.
  intros Hn Ho. unfold slice. replace (Z.to_nat (off + n)) with (Z.to_nat off + Z.to_nat n)%nat by lia. rewrite <- drop_drop. generalize (drop (Z.to_nat off) content). intros l.
  rewrite <- (take_drop (Z.to_nat n) (take (Z.to_nat size) l)) at 1. rewrite take_take, skipn_firstn_comm. f_equal; f_equal; lia.
Qed.

Lemma with_reads_id r : with_reads r (f_reads (rs_file r)) = r.
Proof. by destruct r as [? ? ? ? ? ? ? ? []]. Qed.

(** A read inside the representation gives some of the bytes asked for, at least one. *)
Lemma range_read_ok content r off size : serves content r → 0 <= off → 0 < size → off + size <= zlen content →
  ∃ n outs, range_read_data r off size = Some (Some (slice off n content), with_reads r outs) ∧ 0 < n <= size ∧ serves content (with_reads r outs).
Proof.
  intros [Hc Hs] Ho Hz Hl. unfold range_read_data. destruct (Z.eqb_spec size 0); [lia|]. destruct Hs as [(Hf & Hb & d & Hd & Ht)|(Hf & Hfc & Hfs & Hw)].
  - rewrite Hf, Hd. assert (mem_read d off size = Some (slice off size content)) as ->.
    { assert (zlen content <= zlen d) as Hzd by (rewrite <- Ht; unfold zlen; rewrite length_take; lia). rewrite mem_read_Some by lia. f_equal. unfold slice. rewrite <- Ht, skipn_firstn_comm, take_take. f_equal. unfold zlen in *. lia. }
    cbn [mbind option_bind]. exists size, (f_reads (rs_file r)). rewrite with_reads_id. split; [done|]. split; [lia|]. split; [done|]. left. eauto.
  - rewrite Hf. destruct (Z.ltb_spec SSIZE_MAX off); [unfold SSIZE_MAX in *; lia|].
    destruct (pread_ok (f_reads (rs_file r)) (f_content (rs_file r)) size off Hw Hz) as (bytes & outs & -> & Hw' & (more & Hm) & Hnil). rewrite Hfc in Hm, Hnil.
    assert (bytes ≠ []) as Hne. { intros E. apply Hnil in E. apply (f_equal zlen) in E. rewrite zlen_drop in E. change (zlen []) with 0 in E. lia. }
    assert (zlen bytes <= size) as Hle. { apply (f_equal zlen) in Hm. rewrite zlen_slice, zlen_app in Hm by lia. pose proof (zlen_nonneg more). lia. }
    assert (0 < zlen bytes) as Hpos by (destruct bytes; [done|]; rewrite zlen_cons; pose proof (zlen_nonneg bytes); lia).
    assert (bytes = slice off (zlen bytes) content) as E.
    { rewrite (slice_split off size (zlen bytes)) in Hm by lia. apply app_inj_1 in Hm as [? _]; [done|]. pose proof (zlen_slice off (zlen bytes) content ltac:(lia) ltac:(lia) ltac:(lia)). unfold zlen in *. lia. }
    exists (zlen bytes), outs. rewrite <- E. split; [done|]. split; [lia|]. split; [done|]. right. done.
Qed.

(** ** The buffer *)

(** The module's buffer once [bufo_alloc] has been called, before its last use. *)
Definition chunk_buffer (b : bufo) : Prop := buf_capacity b = BUF_SIZE ∧ buf_is_last b = false ∧ ∃ d, buf_data b = Some d ∧ zlen d = BUF_SIZE.

(** A block filled from its start, as the buffer that is offered. *)
Definition filled_buffer (b : bufo) (d : list Z) (n : Z) (last : bool) : bufo :=
  bufo_set_size (bufo_reset_pos (if last then set_last (with_block b d) else with_block b d)) n.

Lemma filled_buffer_ok b d n last : chunk_buffer b → zlen d = BUF_SIZE → 0 <= n <= BUF_SIZE →
  let b' := filled_buffer b d n last in
  offered b' ∧ unread b' = take (Z.to_nat n) d ∧ buf_is_last b' = last ∧ buf_size b' = n ∧
  ∀ b'', same_block b' b'' → last = false → chunk_buffer b''.
Proof.
  intros (Hc & Hl & d0 & Hd & Hz0) Hz Hn b'.
  assert (b' = Bufo (Some d) BUF_SIZE n 0 (buf_is_proxy b) last) as E.
  { unfold b', filled_buffer, bufo_set_size, bufo_reset_pos, set_pos, set_last, with_block. destruct last; cbn; rewrite Hc; (destruct (Z.ltb_spec BUF_SIZE n); [lia|]); [done|]. by rewrite Hl. }
  rewrite E. split; [split; [constructor; cbn; rewrite ?Hz; unfold SIZE_MAX, BUF_SIZE in *; lia|done]|]. split; [unfold unread; cbn; by rewrite drop_0, Z.sub_0_r|].
  split; [done|]. split; [done|]. intros b'' (S1 & S2 & S3 & S4 & S5) Hlast. split; [by rewrite S2|]. split; [rewrite S5; exact Hlast|]. eauto.
Qed.

Lemma take_write d off bytes d' : mem_write d off bytes = Some d' → zlen d' = zlen d ∧ take (Z.to_nat (off + zlen bytes)) d' = take (Z.to_nat off) d ++ bytes.
Proof.
  unfold mem_write. destruct (_ && _) eqn:E; [|done]. reflect_bools. intros [= <-]. split.
  - rewrite !zlen_app, zlen_take. unfold zlen in *. rewrite length_drop. lia.
  - rewrite app_assoc. apply take_app_length'. rewrite length_app, length_take. unfold zlen in *. lia.
Qed.

(** ** The loop *)

(** From a state with [rest] to send, the next chunk is some of it, at least one byte, and what follows is again such a state. *)
Definition fetches (alloc : Z → bool) (junk : Z) (L : list Z → range_state → Prop) (rest : list Z) (st : range_state) : Prop :=
  ∃ st1 bytes rest', range_fetch alloc st = Some (None, st1) ∧ offered (rg_buf (rf_module st1)) ∧ unread (rg_buf (rf_module st1)) = bytes ∧ range_turns st1 = range_turns st ∧
    rest = bytes ++ rest' ∧ bytes ≠ [] ∧ (buf_is_last (rg_buf (rf_module st1)) = true ↔ rest' = []) ∧
    (∀ b', same_block (rg_buf (rf_module st1)) b' → rest' ≠ [] → L rest' (taken_up (P := range_producer alloc junk) st1 b')).

Lemma range_yields {S : Type} `{BodySinkLaws S} alloc junk (L : list Z → range_state → Prop) n :
  (∀ rest st, L rest st → fetches alloc junk L rest st) → ∀ rest st, L rest st → (length rest <= n)%nat →
  yields (P := range_producer alloc junk) (S := S) st rest n CWF_OK.
Proof.
  intros HL. induction n as [|n IH]; intros rest st Hs Hn; destruct (HL rest st Hs) as (st1 & bytes & rest' & E & Hof & Hun & Ht & -> & Hne & Hl & Hnext).
  - destruct bytes; [done|]. simpl in Hn. lia.
  - assert (∀ b', same_block (rg_buf (rf_module st1)) b' → buf_pos b' = buf_size b' → range_after (taken_up (P := range_producer alloc junk) st1 b') = if buf_is_last (rg_buf (rf_module st1)) then Some CWF_OK else None) as Haft.
    { intros b' (_ & _ & _ & _ & Hlb) Hp. unfold range_after. cbn. rewrite (proj2 (Z.ltb_ge _ _)) by lia. by rewrite Hlb. }
    destruct (decide (rest' = [])) as [->|Hr].
    + rewrite app_nil_r, <- Hun.
      change (unread (rg_buf (rf_module st1))) with (coding (S := S) (buf_is_last (rg_buf (rf_module st1))) (unread (rg_buf (rf_module st1)))). eapply yields_end; try done. intros b' Hsb Hp. change (pr_after (P := range_producer alloc junk)) with range_after. rewrite (Haft b' Hsb Hp). by rewrite (proj2 Hl eq_refl).
    + assert (buf_is_last (rg_buf (rf_module st1)) = false) as Hlf by (destruct (buf_is_last _); [by destruct Hr; apply Hl|done]).
      rewrite <- Hun.
      change (unread (rg_buf (rf_module st1))) with (coding (S := S) (buf_is_last (rg_buf (rf_module st1))) (unread (rg_buf (rf_module st1)))). eapply yields_more; try done; [by rewrite Hlf| |].
      * intros b' Hsb Hp. change (pr_after (P := range_producer alloc junk)) with range_after. rewrite (Haft b' Hsb Hp). by rewrite Hlf.
      * intros b' Hsb Hp. apply IH; [by apply Hnext|]. rewrite length_app in Hn. destruct bytes; [done|]. simpl in Hn. lia.
Qed.

(** ** One range *)

Record single_left (content rest : list Z) (st : range_state) : Prop := {
  sl_single : mp_active (rg_mp (rf_module st)) = false;
  sl_buffer : chunk_buffer (rg_buf (rf_module st));
  sl_serves : serves content (rf_response st);
  sl_range : 0 <= rg_start (rf_module st) ∧ 0 <= rg_pos (rf_module st) < rg_size (rf_module st) ∧ rg_start (rf_module st) + rg_size (rf_module st) <= zlen content;
  sl_rest : slice (rg_start (rf_module st) + rg_pos (rf_module st)) (rg_size (rf_module st) - rg_pos (rf_module st)) content = rest }.

Lemma single_fetch alloc junk content rest st : single_left content rest st → fetches alloc junk (single_left content) rest st.
Proof.
  intros [H1 Hb Hs (Hr1 & Hr2 & Hr3) Hrest]. destruct st as [m r]. cbn [rf_module rf_response] in *. unfold fetches, range_fetch, range_get_chunk. cbn [rf_module rf_response]. rewrite H1.
  pose proof Hb as (Hc & Hl & d & Hd & Hz). rewrite Hd. destruct (Z.ltb_spec (rg_size m) (rg_pos m)); [lia|]. rewrite Hc. pose proof Hs as [Hmax _].
  set (tk := if _ <? BUF_SIZE then _ else _). assert (0 < tk <= rg_size m - rg_pos m ∧ tk <= BUF_SIZE) as [Htk1 Htk2] by (unfold tk; destruct (Z.ltb_spec (rg_size m - rg_pos m) BUF_SIZE); unfold BUF_SIZE in *; lia).
  unfold wrap64. rewrite Z.mod_small by (unfold SSIZE_MAX in Hmax; lia).
  destruct (range_read_ok content r (rg_start m + rg_pos m) tk Hs) as (n & outs & -> & Hn & Hs'); [lia|lia|lia|]. cbn [mbind option_bind].
  assert (zlen (slice (rg_start m + rg_pos m) n content) = n) as Hzn by (apply zlen_slice; lia).
  set (bytes := slice (rg_start m + rg_pos m) n content) in *. destruct (mem_write d 0 bytes) as [d'|] eqn:Ew; [|rewrite mem_write_Some in Ew by lia; done]. cbn [mbind option_bind].
  destruct (take_write _ _ _ _ Ew) as [Hzd Htake]. change (take (Z.to_nat 0) d) with (@nil Z) in Htake. rewrite Z.add_0_l, Hzn in Htake. cbn [app] in Htake. rewrite Hzn.
  destruct (Z.eqb_spec n 0); [lia|]. cbn [andb]. rewrite orb_false_r. cbn [rg_pos rg_size set_range_pos].
  set (last := rg_pos m + n =? rg_size m). change (bufo_set_size (bufo_reset_pos (if last then set_last (with_block (rg_buf m) d') else with_block (rg_buf m) d')) n) with (filled_buffer (rg_buf m) d' n last).
  destruct (filled_buffer_ok (rg_buf m) d' n last Hb ltac:(lia) ltac:(lia)) as (Hof & Hun & Hlast & Hsz & Hnext).
  assert (rest = bytes ++ slice (rg_start m + rg_pos m + n) (rg_size m - rg_pos m - n) content) as Hsplit by (rewrite <- Hrest; unfold bytes; apply slice_split; lia).
  eexists _, bytes, _. split; [done|]. cbn [rf_module rg_buf set_range_buf set_range_pos]. split; [exact Hof|]. split; [by rewrite Hun|]. split; [done|]. split; [exact Hsplit|].
  split; [intros E; apply (f_equal zlen) in E; rewrite Hzn in E; change (zlen []) with 0 in E; lia|]. rewrite Hlast.
  assert (last = true ↔ slice (rg_start m + rg_pos m + n) (rg_size m - rg_pos m - n) content = []) as Hiff.
  { unfold last. rewrite Z.eqb_eq. split; [intros E; replace (rg_size m - rg_pos m - n) with 0 by lia; done|]. intros E. destruct (Z.eq_dec (rg_size m - rg_pos m - n) 0); [lia|]. exfalso. revert E. apply slice_nonempty; lia. }
  split; [exact Hiff|]. intros b' Hsb Hne. assert (last = false) as Hlf by (destruct last; [by destruct Hne; apply Hiff|done]).
  unfold last in Hlf. apply Z.eqb_neq in Hlf. constructor; cbn; try done; [apply (Hnext b' Hsb); by apply Z.eqb_neq|lia|]. f_equal; lia.
Qed.


(** ** Several ranges *)

Definition part_ok (content : list Z) (part : http_range_part) : Prop := 0 <= part_start part ∧ 0 < part_size part ∧ part_start part + part_size part <= zlen content.

Definition part_data (content : list Z) (part : http_range_part) : list Z := slice (part_start part) (part_size part) content.

Section Multipart.
Variable content : list Z.
(** The boundary's block, the type of the parts and the size of the representation, as [mp_setup] has fixed them. *)
Variables boundary ctype : list Z.
Variable parts : list http_range_part.
Hypothesis parts_ok : Forall (part_ok content) parts.
Hypothesis short_texts : zlen ctype <= 2 ^ 30 ∧ zlen (cstr boundary) = 16.
Hypothesis content_width : zlen content <= SSIZE_MAX.

(** The delimiter line and the headers of a part. *)
Definition head_text (part : http_range_part) : list Z :=
  bs "--" ++ cstr boundary ++ CRLF ++ bs "Content-Type: " ++ cstr ctype ++ CRLF ++ bs "Content-Range: bytes " ++
  print_zu (part_start part) ++ bs "-" ++ print_zu (part_start part + part_size part - 1) ++ bs "/" ++ print_zu (zlen content) ++ CRLF ++ CRLF.

Definition close_text : list Z := bs "--" ++ cstr boundary ++ bs "--" ++ CRLF.

(** A multipart/byteranges body (RFC 9110, section 14.6). *)
Fixpoint byteranges (l : list http_range_part) : list Z :=
  match l with
  | [] => close_text
  | part :: l' => head_text part ++ part_data content part ++ CRLF ++ byteranges l'
  end.

(** The fields that do not change while the body is produced. *)
Definition mp_fixed (p : multipart) : Prop :=
  mp_active p = true ∧ mp_parts p = Some parts ∧ mp_parts_count p = zlen parts ∧ mp_total p = zlen content ∧ mp_part_ctype p = Some ctype ∧ mp_boundary p = boundary.

(** The part the index stands at, and those after it. *)
Definition parts_from (p : multipart) : list http_range_part := drop (Z.to_nat (mp_part_index p)) parts.

Definition mp_owed (p : multipart) : list Z :=
  match mp_at p with
  | MP_STATE_TEXT =>
      drop (Z.to_nat (mp_text_pos p)) (take (Z.to_nat (mp_text_len p)) (default [] (mp_text p))) ++
      match parts_from p with [] => [] | part :: rest => part_data content part ++ CRLF ++ byteranges rest end
  | MP_STATE_DATA =>
      match parts_from p with
      | [] => []
      | part :: rest => slice (part_start part + mp_data_pos p) (part_size part - mp_data_pos p) content ++ CRLF ++ byteranges rest
      end
  | MP_STATE_DONE => []
  end.

Record mp_ok (p : multipart) : Prop := {
  mk_fixed : mp_fixed p;
  mk_index : 0 <= mp_part_index p <= zlen parts;
  mk_text : mp_at p = MP_STATE_TEXT → ∃ t, mp_text p = Some t ∧ 0 <= mp_text_pos p < mp_text_len p ∧ mp_text_len p <= zlen t ∧ mp_text_len p <= SSIZE_MAX;
  mk_data : mp_at p = MP_STATE_DATA → ∃ part rest, parts_from p = part :: rest ∧ 0 <= mp_data_pos p < part_size part }.

Lemma zlen_cstr l : zlen (cstr l) <= zlen l.
Proof. induction l as [|c l IH]; [done|]. cbn [cstr]. case_if; autorewrite with zlen; pose proof (zlen_nonneg l); lia. Qed.

Lemma zlen_head_text part : zlen (head_text part) <= zlen ctype + 130.
Proof.
  unfold head_text. rewrite !zlen_app. change (zlen (bs "--")) with 2. change (zlen CRLF) with 2. change (zlen (bs "Content-Type: ")) with 14. change (zlen (bs "Content-Range: bytes ")) with 21.
  change (zlen (bs "-")) with 1. change (zlen (bs "/")) with 1. pose proof (zlen_cstr ctype). destruct short_texts as [_ ->].
  pose proof (zlen_print_zu (part_start part)). pose proof (zlen_print_zu (part_start part + part_size part - 1)). pose proof (zlen_print_zu (zlen content)). lia.
Qed.

Lemma zlen_close_text : zlen close_text = zlen (cstr boundary) + 6.
Proof. unfold close_text. rewrite !zlen_app. change (zlen (bs "--")) with 2. change (zlen CRLF) with 2. lia. Qed.

Lemma part_header_text p part : mp_fixed p → part_ok content part → part_header p ctype part = head_text part.
Proof.
  intros (_ & _ & _ & Ht & _ & Hb) (H1 & H2 & H3). unfold part_header, head_text. rewrite Ht, Hb. unfold wrap64. rewrite Z.mod_small by (unfold SSIZE_MAX in *; lia). done.
Qed.

(** Staging the text for the part at the index, or the close delimiter. *)
Lemma mp_stage_ok alloc p lead : (∀ n, alloc n = true) → mp_fixed p → 0 <= mp_part_index p <= zlen parts →
  let text := (if lead : bool then CRLF else []) ++ match parts_from p with [] => close_text | part :: _ => head_text part end in
  mp_stage_text alloc p lead = Some (true, mp_at_text p (Some (text ++ [0])) (zlen text) 0) ∧ 0 < zlen text <= SSIZE_MAX.
Proof.
  intros Ha Hf Hi text. pose proof Hf as (_ & Hp & Hc & _ & Hct & Hb). destruct short_texts as [Hs1 Hs2].
  assert (parts_from p = [] ↔ zlen parts <= mp_part_index p) as Hend.
  { unfold parts_from. split; intros H; [apply (f_equal zlen) in H; rewrite zlen_drop in H; change (zlen []) with 0 in H; lia|apply drop_ge; unfold zlen in *; lia]. }
  set (body := match parts_from p with [] => close_text | part :: _ => head_text part end) in *.
  assert (0 < zlen body <= INT_MAX) as Hbody.
  { unfold body, INT_MAX. destruct (parts_from p) as [|part rest]; [rewrite zlen_close_text; lia|]. pose proof (zlen_head_text part). split; [|lia].
    unfold head_text. rewrite zlen_app. change (zlen (bs "--")) with 2. match goal with |- 0 < 2 + zlen ?x => pose proof (zlen_nonneg x) end. lia. }
  assert ((if mp_parts_count (mp_at_text p None 0 0) <=? mp_part_index (mp_at_text p None 0 0) then Some (zlen (cstr (mp_boundary (mp_at_text p None 0 0))) + 6, close_delimiter (mp_at_text p None 0 0))
    else part ← part_at (mp_at_text p None 0 0) (mp_part_index (mp_at_text p None 0 0)); len ← mp_part_header_length (mp_at_text p None 0 0) part; ctype ← mp_part_ctype (mp_at_text p None 0 0);
         Some (len, part_header (mp_at_text p None 0 0) ctype part)) = Some (zlen body, body)) as Hpick.
  { cbn [mp_at_text mp_parts_count mp_part_index mp_boundary mp_part_ctype]. rewrite Hc. destruct (Z.leb_spec (zlen parts) (mp_part_index p)) as [Hle|Hgt].
    - unfold body. rewrite (proj2 Hend Hle). rewrite zlen_close_text, Hb. unfold close_delimiter. cbn. by rewrite Hb.
    - unfold part_at. cbn [mp_at_text mp_parts]. rewrite Hp. cbn [mbind option_bind]. rewrite (proj2 (Z.leb_le _ _)) by lia.
      destruct (parts !! Z.to_nat (mp_part_index p)) as [part|] eqn:El; [|apply lookup_ge_None in El; unfold zlen in *; lia].
      assert (parts_from p = part :: drop (S (Z.to_nat (mp_part_index p))) parts) as Hpf by (unfold parts_from; by apply drop_S).
      assert (part_ok content part) as Hpo by (by eapply Forall_lookup_1). unfold mp_part_header_length. cbn [mp_at_text mp_part_ctype mbind option_bind]. rewrite Hct. cbn [mbind option_bind].
      rewrite (part_header_text (mp_at_text p None 0 0) part) by done. unfold snprintf_length. unfold body in *. rewrite Hpf in *. by rewrite (proj2 (Z.leb_le _ _)) by lia. }
  unfold mp_stage_text. rewrite Hpick. cbn [mbind option_bind]. destruct (Z.ltb_spec (zlen body) 0); [lia|]. rewrite Ha. cbn [negb].
  unfold snprintf_length. rewrite (proj2 (Z.leb_le _ _)) by lia. rewrite Z.eqb_refl. destruct (Z.ltb_spec (zlen body) 0); [lia|]. cbn [orb negb]. rewrite take_zlen.
  unfold text. fold body. split; [|destruct lead; rewrite zlen_app; [change (zlen CRLF) with 2|change (zlen []) with 0]; unfold SSIZE_MAX, INT_MAX in *; lia].
  do 2 f_equal. f_equal; [by rewrite app_assoc|]. destruct lead; rewrite zlen_app; done.
Qed.

(** Draining text: [n] bytes of it. *)
Definition after_text (p : multipart) (text : list Z) (pos : Z) : multipart :=
  let p := mp_at_text p (Some text) (mp_text_len p) pos in
  if pos =? mp_text_len p then mp_move p (if mp_part_index p <? mp_parts_count p then MP_STATE_DATA else MP_STATE_DONE) (mp_part_index p) 0 else p.

Lemma text_step p t n : mp_ok p → mp_at p = MP_STATE_TEXT → mp_text p = Some t → 0 < n <= mp_text_len p - mp_text_pos p →
  mp_ok (after_text p t (mp_text_pos p + n)) ∧ mp_owed p = slice (mp_text_pos p) n t ++ mp_owed (after_text p t (mp_text_pos p + n)).
Proof.
  intros [Hf Hi Ht Hd] Hat Htx Hn. destruct (Ht Hat) as (t' & E & Hpos & Hlen & Hmax). rewrite Htx in E. injection E as <-. pose proof Hf as (F1 & F2 & F3 & F4 & F5 & F6).
  assert (drop (Z.to_nat (mp_text_pos p)) (take (Z.to_nat (mp_text_len p)) t) = slice (mp_text_pos p) n t ++ drop (Z.to_nat (mp_text_pos p + n)) (take (Z.to_nat (mp_text_len p)) t)) as Hsplit.
  { rewrite <- (take_drop (Z.to_nat n) (drop (Z.to_nat (mp_text_pos p)) _)) at 1. rewrite drop_drop. f_equal; [|f_equal; lia].
    unfold slice. rewrite skipn_firstn_comm, take_take. f_equal. lia. }
  unfold mp_owed at 1. rewrite Hat, Htx. cbn [default from_option id]. rewrite Hsplit, <- app_assoc. unfold after_text. cbn [mp_at_text mp_text_len mp_part_index mp_parts_count].
  destruct (Z.eqb_spec (mp_text_pos p + n) (mp_text_len p)) as [Heq|Hne].
  - rewrite drop_ge by (rewrite length_take; unfold zlen in *; lia). cbn [app]. rewrite F3. destruct (Z.ltb_spec (mp_part_index p) (zlen parts)) as [Hlt|Hge].
    + destruct (parts_from p) as [|part rest] eqn:Epf; [unfold parts_from in Epf; apply (f_equal zlen) in Epf; rewrite zlen_drop in Epf; change (zlen []) with 0 in Epf; lia|].
      assert (part_ok content part) as (P1 & P2 & P3). { apply (Forall_drop _ (Z.to_nat (mp_part_index p))) in parts_ok. unfold parts_from in Epf. rewrite Epf in parts_ok. by inversion parts_ok. }
      split; [constructor; cbn; try done; intros _; exists part, rest; split; [exact Epf|lia]|]. unfold mp_owed. cbn. change (parts_from (mp_move _ _ _ _)) with (parts_from p). rewrite Epf, Z.add_0_r, Z.sub_0_r. done.
    + assert (parts_from p = []) as -> by (unfold parts_from; apply drop_ge; unfold zlen in *; lia). split; [constructor; cbn; try done|done].
  - split; [|unfold mp_owed; cbn; by rewrite Hat]. constructor; cbn; try done. intros _. exists t. split; [done|]. lia.
Qed.

(** Sending data: [n] bytes of the part. *)
Lemma data_step alloc p part rest n : (∀ k, alloc k = true) → mp_ok p → mp_at p = MP_STATE_DATA → parts_from p = part :: rest → 0 < n <= part_size part - mp_data_pos p → 0 <= mp_data_pos p →
  if mp_data_pos p + n =? part_size part then
    ∃ p1, mp_stage_text alloc (mp_move p MP_STATE_DATA (mp_part_index p + 1) (mp_data_pos p + n)) true = Some (true, p1) ∧
      let p' := mp_move p1 MP_STATE_TEXT (mp_part_index p1) (mp_data_pos p1) in
      mp_ok p' ∧ mp_owed p = slice (part_start part + mp_data_pos p) n content ++ mp_owed p'
  else
    let p' := mp_move p MP_STATE_DATA (mp_part_index p) (mp_data_pos p + n) in
    mp_ok p' ∧ mp_owed p = slice (part_start part + mp_data_pos p) n content ++ mp_owed p'.
Proof.
  intros Ha [Hf Hi Ht Hd] Hat Hpf Hn Hdp.
  assert (part_ok content part) as (P1 & P2 & P3). { apply (Forall_drop _ (Z.to_nat (mp_part_index p))) in parts_ok. unfold parts_from in Hpf. rewrite Hpf in parts_ok. by inversion parts_ok. }
  assert (mp_owed p = slice (part_start part + mp_data_pos p) n content ++ slice (part_start part + (mp_data_pos p + n)) (part_size part - (mp_data_pos p + n)) content ++ CRLF ++ byteranges rest) as Ho.
  { unfold mp_owed. rewrite Hat, Hpf, (slice_split _ _ n), <- app_assoc by lia. do 2 f_equal. f_equal; lia. }
  assert (mp_part_index p + 1 <= zlen parts) as Hi1. { unfold parts_from in Hpf. apply (f_equal zlen) in Hpf. rewrite zlen_drop, zlen_cons in Hpf. pose proof (zlen_nonneg rest). lia. }
  destruct (Z.eqb_spec (mp_data_pos p + n) (part_size part)) as [Heq|Hne].
  - set (q := mp_move p MP_STATE_DATA (mp_part_index p + 1) (mp_data_pos p + n)). destruct (mp_stage_ok alloc q true Ha) as [E Hz]; [done|cbn; lia|].
    assert (parts_from q = rest) as Hq. { unfold parts_from, q. cbn. replace (Z.to_nat (mp_part_index p + 1)) with (Z.to_nat (mp_part_index p) + 1)%nat by lia. rewrite <- drop_drop. change (drop (Z.to_nat (mp_part_index p)) parts) with (parts_from p). by rewrite Hpf. }
    rewrite Hq in E, Hz. eexists. split; [exact E|]. cbn zeta. set (text := CRLF ++ match rest with [] => close_text | part' :: _ => head_text part' end) in *. split.
    + assert (text = CRLF ++ match rest with [] => close_text | part' :: _ => head_text part' end) as Etext by done. clearbody text.
      constructor; cbn; try done; [lia|]. intros _. eexists. split; [done|]. split; [lia|]. rewrite zlen_app. change (zlen [0]) with 1. lia.
    + rewrite Ho. f_equal. replace (part_size part - (mp_data_pos p + n)) with 0 by lia. cbn [slice Z.to_nat take app].
      assert (text ++ match rest with [] => [] | part' :: rest' => part_data content part' ++ CRLF ++ byteranges rest' end = CRLF ++ byteranges rest) as <- by (unfold text; rewrite <- app_assoc; f_equal; by destruct rest; rewrite ?app_nil_r).
      clearbody text. unfold mp_owed. cbn [mp_at mp_move mp_at_text mp_text_pos mp_text_len mp_text default from_option id].
      change (parts_from (mp_move (mp_at_text q _ _ _) _ _ _)) with (parts_from q). by rewrite Hq, drop_0, take_app_le, take_zlen by (unfold zlen; lia).
  - cbn zeta. split; [|rewrite Ho; f_equal; unfold mp_owed; cbn; by change (parts_from (mp_move _ _ _ _)) with (parts_from p); rewrite Hpf].
    constructor; cbn; try done. intros _. exists part, rest. split; [exact Hpf|lia].
Qed.

(** The result of filling a block from [filled] on. *)
Definition fills (cap : Z) (d : list Z) (p : multipart) (r : httpresponse) (filled : Z) (res : option (bool * Z * list Z * multipart * httpresponse)) : Prop :=
  ∃ filled' d' p' outs out, res = Some (true, filled', d', p', with_reads r outs) ∧ mp_ok p' ∧ serves content (with_reads r outs) ∧ zlen d' = cap ∧ filled' <= cap ∧
    filled' = filled + zlen out ∧ take (Z.to_nat filled') d' = take (Z.to_nat filled) d ++ out ∧ mp_owed p = out ++ mp_owed p' ∧ (filled' = cap ∨ mp_at p' = MP_STATE_DONE).

(** Some bytes, then the rest. *)
Lemma fills_after cap d p r filled outs1 bytes d1 p1 res : mem_write d filled bytes = Some d1 → 0 <= filled → mp_owed p = bytes ++ mp_owed p1 →
  fills cap d1 p1 (with_reads r outs1) (filled + zlen bytes) res → fills cap d p r filled res.
Proof.
  intros Hw Hf Ho (filled' & d' & p' & outs & out & -> & Hok & Hs & Hz & Hle & Hfl & Ht & Ho' & Hend). destruct (take_write _ _ _ _ Hw) as [_ Htk].
  exists filled', d', p', outs, (bytes ++ out). split; [done|]. split_and!; try done.
  - rewrite zlen_app. lia.
  - by rewrite Ht, Htk, app_assoc.
  - by rewrite Ho, Ho', app_assoc.
Qed.

Lemma write_ok d off bytes : 0 <= off → off + zlen bytes <= zlen d → ∃ d', mem_write d off bytes = Some d' ∧ zlen d' = zlen d.
Proof. intros H1 H2. pose proof (mem_write_Some d off bytes H1 H2) as E. eexists. split; [exact E|]. by apply take_write in E as [? _]. Qed.

Lemma mp_fill_ok alloc cap fuel : (∀ n, alloc n = true) → ∀ d p r filled, mp_ok p → serves content r → zlen d = cap → 0 <= filled <= cap → cap - filled < Z.of_nat fuel →
  fills cap d p r filled (mp_fill alloc fuel cap d p r filled).
Proof.
  intros Ha. induction fuel as [|f IH]; intros d p r filled Hok Hs Hz Hfl Hfuel; [lia|]. cbn [mp_fill].
  assert (filled = cap ∨ mp_at p = MP_STATE_DONE → fills cap d p r filled (Some (true, filled, d, p, r))) as Hstop.
  { intros Hend. exists filled, d, p, (f_reads (rs_file r)), []. rewrite with_reads_id. split; [done|]. split_and!; try done; [lia|change (zlen []) with 0; lia|by rewrite app_nil_r]. }
  destruct (Z.ltb_spec filled cap) as [Hlt|Hge]; [|apply Hstop; left; lia]. cbn [andb]. destruct (mp_at p) eqn:Eat.
  - change (bool_decide (MP_STATE_TEXT = MP_STATE_DONE)) with false. change (bool_decide (MP_STATE_TEXT = MP_STATE_TEXT)) with true. cbn [negb]. destruct (mk_text p Hok Eat) as (t & Et & Hpos & Hlen & Hmax). rewrite Et.
    unfold wrap64. rewrite Z.mod_small by (unfold SSIZE_MAX in Hmax; lia). set (tk := if _ <? _ then _ else _).
    assert (0 < tk <= mp_text_len p - mp_text_pos p ∧ tk <= cap - filled) as [Hk1 Hk2] by (unfold tk; destruct (Z.ltb_spec (mp_text_len p - mp_text_pos p) (cap - filled)); lia).
    rewrite mem_read_Some by lia. cbn [mbind option_bind]. change (take (Z.to_nat tk) (drop (Z.to_nat (mp_text_pos p)) t)) with (slice (mp_text_pos p) tk t).
    assert (zlen (slice (mp_text_pos p) tk t) = tk) as Hzb by (apply zlen_slice; lia).
    destruct (write_ok d filled (slice (mp_text_pos p) tk t)) as (d1 & Ew & Hz1); [lia|lia|]. rewrite Ew. cbn [mbind option_bind].
    destruct (text_step p t tk Hok Eat Et ltac:(lia)) as [Hok1 Ho1]. fold (after_text p t (mp_text_pos p + tk)).
    apply (fills_after cap d p r filled (f_reads (rs_file r)) _ d1 _ _ Ew ltac:(lia) Ho1). rewrite with_reads_id, Hzb. apply IH; try done; lia.
  - change (bool_decide (MP_STATE_DATA = MP_STATE_DONE)) with false. change (bool_decide (MP_STATE_DATA = MP_STATE_TEXT)) with false. cbn [negb]. destruct (mk_data p Hok Eat) as (part & rest & Hpf & Hdp).
    pose proof (mk_fixed p Hok) as (_ & F2 & _). pose proof (mk_index p Hok) as Hi.
    assert (part_at p (mp_part_index p) = Some part) as ->.
    { unfold part_at. rewrite F2. cbn [mbind option_bind]. rewrite (proj2 (Z.leb_le _ _)) by lia. unfold parts_from in Hpf. rewrite <- (Nat.add_0_r (Z.to_nat _)), <- lookup_drop, Hpf. done. }
    assert (part_ok content part) as (P1 & P2 & P3). { apply (Forall_drop _ (Z.to_nat (mp_part_index p))) in parts_ok. unfold parts_from in Hpf. rewrite Hpf in parts_ok. by inversion parts_ok. }
    cbn [mbind option_bind]. unfold wrap64. rewrite !Z.mod_small by (unfold SSIZE_MAX in content_width; lia). set (tk := if _ <? _ then _ else _).
    assert (0 < tk <= part_size part - mp_data_pos p ∧ tk <= cap - filled) as [Hk1 Hk2] by (unfold tk; destruct (Z.ltb_spec (part_size part - mp_data_pos p) (cap - filled)); lia).
    destruct (range_read_ok content r (part_start part + mp_data_pos p) tk Hs) as (n & outs & -> & Hn & Hs'); [lia|lia|lia|]. cbn [mbind option_bind].
    assert (zlen (slice (part_start part + mp_data_pos p) n content) = n) as Hzn by (apply zlen_slice; lia).
    destruct (write_ok d filled (slice (part_start part + mp_data_pos p) n content)) as (d1 & Ew & Hz1); [lia|lia|]. rewrite Ew. cbn [mbind option_bind]. rewrite Hzn.
    destruct (Z.eqb_spec n 0); [lia|]. cbn [andb]. pose proof (data_step alloc p part rest n Ha Hok Eat Hpf ltac:(lia) ltac:(lia)) as Hstep.
    destruct (mp_data_pos p + n =? part_size part).
    + destruct Hstep as (p1 & -> & Hok1 & Ho1). cbn [mbind option_bind negb]. apply (fills_after cap d p r filled outs _ d1 _ _ Ew ltac:(lia) Ho1). rewrite Hzn. apply IH; try done; lia.
    + destruct Hstep as (Hok1 & Ho1). apply (fills_after cap d p r filled outs _ d1 _ _ Ew ltac:(lia) Ho1). rewrite Hzn. apply IH; try done; lia.
  - change (bool_decide (MP_STATE_DONE = MP_STATE_DONE)) with true. cbn [negb]. apply Hstop. by right.
Qed.

Record multi_left (rest : list Z) (st : range_state) : Prop := {
  ml_ok : mp_ok (rg_mp (rf_module st));
  ml_buffer : chunk_buffer (rg_buf (rf_module st));
  ml_serves : serves content (rf_response st);
  ml_rest : mp_owed (rg_mp (rf_module st)) = rest;
  ml_more : rest ≠ [] }.

Lemma owed_done p : mp_ok p → mp_owed p = [] ↔ mp_at p = MP_STATE_DONE.
Proof.
  intros Hok. unfold mp_owed. destruct (mp_at p) eqn:E; [| |done].
  - destruct (mk_text p Hok E) as (t & -> & H1 & H2 & _). split; [|done]. intros H. apply app_nil in H as [H _]. apply (f_equal zlen) in H. cbn [default from_option id] in H.
    rewrite zlen_drop, zlen_take in H. change (zlen []) with 0 in H. lia.
  - destruct (mk_data p Hok E) as (part & rest & -> & _). split; [|done]. intros H. apply app_nil in H as [_ H]. done.
Qed.

Lemma multi_fetch alloc junk rest st : (∀ n, alloc n = true) → multi_left rest st → fetches alloc junk multi_left rest st.
Proof.
  intros Ha [Hok Hb Hs Ho Hne]. destruct st as [m r]. cbn [rf_module rf_response] in *. unfold fetches, range_fetch, mp_fill_chunk. cbn [rf_module rf_response]. pose proof (mk_fixed _ Hok) as (-> & _).
  pose proof Hb as (Hc & Hl & d & Hd & Hz). rewrite Hd, Hc.
  destruct (mp_fill_ok alloc BUF_SIZE (S (Z.to_nat BUF_SIZE)) Ha d (rg_mp m) r 0 Hok Hs Hz) as (n & d' & p' & outs & out & -> & Hok' & Hs' & Hz' & Hle & Hn & Ht & Ho' & Hend); [unfold BUF_SIZE; lia|unfold BUF_SIZE; lia|].
  cbn [mbind option_bind negb]. rewrite Z.add_0_l in Hn. change (take (Z.to_nat 0) d) with (@nil Z) in Ht. cbn [app] in Ht. pose proof (zlen_nonneg out).
  set (last := bool_decide (mp_at p' = MP_STATE_DONE)).
  change (bufo_set_size (bufo_reset_pos (if last then set_last (with_block (rg_buf m) d') else with_block (rg_buf m) d')) n) with (filled_buffer (rg_buf m) d' n last).
  destruct (filled_buffer_ok (rg_buf m) d' n last Hb Hz' ltac:(lia)) as (Hof & Hun & Hlast & Hsz & Hnext).
  assert (last = true ↔ mp_owed p' = []) as Hiff by (unfold last; rewrite bool_decide_eq_true; symmetry; by apply owed_done).
  eexists _, out, (mp_owed p'). split; [done|]. cbn [rf_module rg_buf set_range_buf set_mp]. split; [exact Hof|]. split; [by rewrite Hun, Ht|].
  split. { pose proof (mk_fixed _ Hok) as (_ & Q1 & _ & _ & Q2 & _). pose proof (mk_fixed _ Hok') as (_ & Q3 & _ & _ & Q4 & _). unfold range_turns. cbn. by rewrite Q1, Q2, Q3, Q4. }
  split; [by rewrite <- Ho|]. split.
  { intros ->. change (zlen []) with 0 in Hn. destruct Hend as [?|Hdone]; [unfold BUF_SIZE in *; lia|]. apply Hne. rewrite <- Ho, Ho'. by apply owed_done. }
  rewrite Hlast. split; [exact Hiff|]. intros b' Hsb Hmore. assert (last = false) as Hlf by (destruct last; [by destruct Hmore; apply Hiff|done]). constructor; cbn; try done. by apply (Hnext b' Hsb).
Qed.
End Multipart.
