(* ===== verification/RangeTheorems.v ===== *)
(** The results on range requests: from the Range header to the bytes on the wire. *)

From S2P Require Import Prelude Helpers QueryParser RangeParser Bufo WriteFilter ChunkedFilter HttpResponse BodyChain DataFilter DataTheorems RangeFilter RangeBody.

(** ** What a range selects *)

(** RFC 9110, section 14.1.2: the last bytes, all from a position on, or those between two positions. *)
Definition selected (content : list Z) (g : http_range) : list Z :=
  if start g =? -1 then drop (length content - Z.to_nat (end_ g)) content
  else if end_ g =? -1 then drop (Z.to_nat (start g)) content
  else slice (start g) (end_ g + 1 - start g) content.

Definition bounded (g : http_range) : Prop := -1 <= start g ∧ -1 <= end_ g.

Lemma wf_bounded l : wf_ranges l → Forall bounded l.
Proof.
  induction l as [|g l IH]; [done|]. cbn [wf_ranges]. intros [H1 H2]. constructor; [|auto]. unfold bounded. destruct l; [destruct H1 as (? & ? & ?); lia|]. destruct H1 as [(? & ?) _]. lia.
Qed.

Lemma resolve_spec content g : bounded g → zlen content <= SSIZE_MAX →
  match range_resolve (start g) (end_ g) (zlen content) with
  | Malformed => False
  | Unsatisfiable => selected content g = []
  | Satisfiable part => part_ok content part ∧ part_data content part = selected content g
  end.
Proof.
  intros [Hs He] Hmax. unfold range_resolve. rewrite (proj2 (Z.ltb_ge (start g) (-1))), (proj2 (Z.ltb_ge (end_ g) (-1))) by lia. cbn [orb]. unfold selected. pose proof (zlen_nonneg content).
  assert (∀ a b, 0 <= a → b <= zlen content → if b <=? a then True else part_ok content (Part a (b - a))) as Hok.
  { intros a b Ha Hb. destruct (Z.leb_spec b a); [done|]. unfold part_ok. cbn. lia. }
  destruct (Z.eqb_spec (start g) (-1)) as [E|E].
  - set (suffix := if zlen content <? _ then _ else _). assert (suffix = Z.min (zlen content) (Z.max 0 (end_ g))) as Hsuf.
    { unfold suffix. destruct (Z.ltb_spec 0 (end_ g)); [destruct (Z.ltb_spec (zlen content) (end_ g)); lia|]. destruct (Z.ltb_spec (zlen content) 0); lia. }
    specialize (Hok (zlen content - suffix) (zlen content) ltac:(lia) ltac:(lia)). destruct (Z.leb_spec (zlen content) (zlen content - suffix)).
    + apply drop_ge. unfold zlen in *. lia.
    + split; [done|]. unfold part_data, slice. cbn. replace (length content - Z.to_nat (end_ g))%nat with (Z.to_nat (zlen content - suffix)) by (unfold zlen in *; lia).
      apply take_ge. rewrite length_drop. unfold zlen in *. lia.
  - destruct (Z.eqb_spec (end_ g) (-1)) as [E'|E'].
    + specialize (Hok (start g) (zlen content) ltac:(lia) ltac:(lia)). rewrite Z.ltb_irrefl. destruct (Z.leb_spec (zlen content) (start g)).
      * apply drop_ge. unfold zlen in *. lia.
      * split; [done|]. unfold part_data, slice. cbn. apply take_ge. rewrite length_drop. unfold zlen in *. lia.
    + set (e := if zlen content <? _ then _ else _). assert (e = Z.min (zlen content) (end_ g + 1)) as He' by (unfold e; destruct (Z.ltb_spec (zlen content) (end_ g + 1)); lia).
      specialize (Hok (start g) e ltac:(lia) ltac:(lia)). destruct (Z.leb_spec e (start g)).
      * apply zlen_0_nil. unfold slice. rewrite zlen_take, zlen_drop. lia.
      * split; [done|]. unfold part_data, slice. cbn. destruct (Z.le_gt_cases (end_ g + 1) (zlen content)); [f_equal; lia|]. rewrite !take_ge; [done| |]; rewrite length_drop; unfold zlen in *; lia.
Qed.

Definition nonempty (l : list Z) : bool := negb (bool_decide (l = [])).

(** The parts are the ranges that select something, in the order of the request. *)
Lemma resolve_all_spec content ranges : Forall bounded ranges → zlen content <= SSIZE_MAX →
  ∃ parts, resolve_all ranges (zlen content) = Some parts ∧ Forall (part_ok content) parts ∧ map (part_data content) parts = List.filter nonempty (map (selected content) ranges).
Proof.
  intros Hb Hmax. induction Hb as [|g ranges Hg _ (parts & E & Hok & Hmap)]; [by exists []|]. cbn [resolve_all map List.filter]. pose proof (resolve_spec content g Hg Hmax) as Hr.
  destruct (range_resolve _ _ _) as [| |part]; [done| |].
  - rewrite Hr. exists parts. done.
  - destruct Hr as [Hpo Hpd]. rewrite E. exists (part :: parts). split; [done|]. split; [by constructor|]. cbn [map]. rewrite Hpd, Hmap.
    destruct Hpo as (P1 & P2 & P3). unfold nonempty. rewrite bool_decide_false; [done|]. rewrite <- Hpd. apply slice_nonempty; lia.
Qed.

(** ** The handlers *)

Lemma read_keeps r off size got r' : range_read_data r off size = Some (got, r') → rs_range r' = rs_range r ∧ rs_last_modified r' = rs_last_modified r.
Proof.
  unfold range_read_data. destruct (size =? 0); [by intros [= _ <-]|]. destruct (f_open _).
  - destruct (SSIZE_MAX <? off); [by intros [= _ <-]|]. destruct (pread_loop _ _ _ _). by intros [= _ <-].
  - destruct (buf_data _); [|by intros [= _ <-]]. destruct (mem_read _ _ _); [|done]. cbn [mbind option_bind]. by intros [= _ <-].
Qed.

Lemma fill_keeps alloc cap fuel : ∀ d p r filled ok n d' p' r', mp_fill alloc fuel cap d p r filled = Some (ok, n, d', p', r') → rs_range r' = rs_range r ∧ rs_last_modified r' = rs_last_modified r.
Proof.
  induction fuel as [|f IH]; intros d p r filled ok n d' p' r'; [done|]. cbn [mp_fill]. destruct (_ && _); [|by intros [= _ _ _ _ <-]]. destruct (bool_decide (mp_at p = MP_STATE_TEXT)).
  - destruct (mp_text p); [|by intros [= _ _ _ _ <-]]. destruct (mem_read _ _ _); [|done]. cbn [mbind option_bind]. destruct (mem_write _ _ _); [|done]. cbn [mbind option_bind]. apply IH.
  - destruct (part_at _ _); [|done]. cbn [mbind option_bind]. destruct (range_read_data r _ _) as [[got r1]|] eqn:Er; [|done]. cbn [mbind option_bind]. apply read_keeps in Er as [<- <-].
    destruct got; [|by intros [= _ _ _ _ <-]]. destruct (mem_write _ _ _); [|done]. cbn [mbind option_bind]. destruct (_ && _); [by intros [= _ _ _ _ <-]|].
    destruct (_ =? part_size _); [|apply IH]. destruct (mp_stage_text _ _ _) as [[[|] p1]|]; [| |done]; cbn [mbind option_bind negb]; [apply IH|by intros [= _ _ _ _ <-]].
Qed.

Lemma range_fetch_keeps alloc st x st' : range_fetch alloc st = Some (x, st') → range_kept st st'.
Proof.
  unfold range_fetch, range_kept. destruct st as [m r]. cbn [rf_module rf_response]. destruct (mp_active _).
  - unfold mp_fill_chunk. cbn [rf_module rf_response]. destruct (buf_data _); [|by intros [= _ <-]].
    destruct (mp_fill _ _ _ _ _ _ _) as [[[[[ok n] d'] p'] r']|] eqn:E; [|done]. apply fill_keeps in E as [E1 E2]. cbn [mbind option_bind]. destruct ok; cbn [negb mbind option_bind]; intros [= _ <-]; done.
  - unfold range_get_chunk. cbn [rf_module rf_response]. destruct (buf_data _); [|by intros [= _ <-]]. destruct (_ <? _); [by intros [= _ <-]|].
    destruct (range_read_data _ _ _) as [[got r']|] eqn:E; [|done]. apply read_keeps in E as [E1 E2]. cbn [mbind option_bind]. destruct got; [|by intros [= _ <-]].
    destruct (mem_write _ _ _); [|done]. cbn [mbind option_bind]. by intros [= _ <-].
Qed.

Lemma range_body_pump alloc junk {S : Type} `{BodySink S} events st (s : S) parent :
  rs_range (rf_response st) = true → rs_last_modified (rf_response st) = false → rg_unsatisfiable (rf_module st) = false →
  resume (range_handler_body alloc junk true false) events (st, s) parent = resume (pump_body (P := range_producer alloc junk)) events (st, s) parent.
Proof.
  intros H1 H2 H3. apply (resume_ext _ _ (λ ms, range_kept st ms.1)); [| |done].
  - intros [st' s'] b (K1 & K2 & K3). cbn [fst] in *. unfold range_handler_body. by rewrite K1, K2, K3, H1, H2, H3.
  - intros [st1 s1] b r [st2 s2] b' Hk. unfold pump_body. cbn [fst snd] in *. destruct (pump _ _ _ _) as [[[r' p'] s']|] eqn:E; [|done]. cbn [mbind option_bind]. intros [= <- <- <- <-].
    revert E. apply (pump_keeps (range_kept st)); try done. intros p x p'' (K1 & K2 & K3) Hf. apply range_fetch_keeps in Hf as (Q1 & Q2 & Q3). unfold range_kept. by rewrite Q1, Q2, Q3.
Qed.

(** The wire of the chunked filter that passes on, over a socket. *)
Definition sends_exactly {P : Type} (events : nat) (s : socket) (payload : list Z) (run : option (Z * (P * chunked_over (λ _, true) 0 true false socket) * bufo)) : Prop :=
  ∃ r p' m' s' parent out rest, run = Some (r, (p', (m', s')), parent) ∧ sent s' = sent s ++ out ∧ payload = out ++ rest ∧
    ((r = CWF_OK ∧ rest = []) ∨ (r = CWF_EVENT_AGAIN ∧ script s' = []) ∨ (r = CWF_ERROR ∧ healthy (script s) = false)).

(** A state from which the loop yields the payload sends it. *)
Lemma range_body_sends alloc junk st m s events parent payload n :
  rs_range (rf_response st) = true → rs_last_modified (rf_response st) = false → rg_unsatisfiable (rf_module st) = false → rg_cont (rf_module st) = false →
  yields (P := range_producer alloc junk) (S := chunked_over (λ _, true) 0 true false socket) st payload n CWF_OK → (S n < range_turns st)%nat → (length (script s) <= events)%nat →
  sends_exactly events s payload (resume (range_handler_body alloc junk true false) events (st, (m, s) : chunked_over (λ _, true) 0 true false socket) parent).
Proof.
  intros H1 H2 H3 H4 Hy HF Hev. rewrite range_body_pump by done.
  destruct (pump_resume (P := range_producer alloc junk) (S := chunked_over (λ _, true) 0 true false socket) events CWF_OK parent ltac:(done) st (m, s) payload) as (r & p' & [m' s'] & out & rest & E & Hw & Ht & Hres).
  { change (pr_cont (P := range_producer alloc junk) st) with (rg_cont (rf_module st)). rewrite H4. eapply pump_fresh; try done. change (pr_fuel (P := range_producer alloc junk) st) with (range_turns st). lia. }
  exists r, p', m', s', parent, out, rest. split; [exact E|]. split; [exact Hw|]. split; [done|]. destruct Hres as [?|[[? Hwt]|?]]; [by left|right; left|by right; right]. split; [done|]. cbn in Hwt. apply nil_length_inv. lia.
Qed.

(** ** The head *)

(** The module as it is created, or reset after another response. *)
Definition range_ready (m : http_module_range) : Prop :=
  rg_cont m = false ∧ rg_pos m = 0 ∧ rg_unsatisfiable m = false ∧ mp_active (rg_mp m) = false ∧ (cleared (rg_buf m) ∨ chunk_buffer (rg_buf m)).

Lemma chunk_buffer_alloc alloc junk b : (∀ n, alloc n = true) → cleared b ∨ chunk_buffer b → ∃ b', bufo_alloc alloc junk b BUF_SIZE = (true, b') ∧ chunk_buffer b'.
Proof.
  intros Ha [Hc|(Hc & Hl & d & Hd & Hz)]; unfold bufo_alloc.
  - rewrite Hc. cbn. rewrite Ha. eexists. split; [done|]. split; [done|]. split; [done|]. eexists. by split.
  - rewrite Hd. exists b. split; [done|]. split; [done|]. eauto.
Qed.

(** The response a range plan starts from. *)
Definition as_range (r : httpresponse) (code : Z) (hs : list http_header) : httpresponse :=
  Rsp code hs (rs_content_length r) CE_NONE TE_NONE true (rs_last_modified r) (rs_body r) (rs_file r).

Lemma headeru_add_new alloc gzip_types r k v : (∀ n, alloc n = true) → httpresponse_header_exist r k = false →
  cmpstrn_lower k (bs "Transfer-Encoding") = false → cmpstrn_lower k (bs "Content-Encoding") = false → rs_range r = true →
  httpresponse_headeru_add alloc gzip_types r k (zlen k) (v ++ [0]) (zlen v) = Some (true, with_headers r (rs_header r ++ [header k v])).
Proof.
  intros Ha He H1 H2 Hr. unfold httpresponse_headeru_add, httpresponse_headern_add. rewrite He. rewrite (mem_read_Some k) by (rewrite ?Z.add_0_l; pose proof (zlen_nonneg k); lia).
  rewrite drop_0, take_zlen. cbn [mbind option_bind]. rewrite H1, H2. cbn [orb]. rewrite andb_false_r.
  rewrite mem_read_Some by (rewrite ?Z.add_0_l, ?zlen_app; pose proof (zlen_nonneg v); change (zlen [0]) with 1; lia).
  rewrite drop_0, take_app_le, take_zlen by (unfold zlen; lia). cbn [mbind option_bind]. unfold http_header_create, copy_cstringn. rewrite !Ha. cbn [rs_range with_headers]. by rewrite Hr.
Qed.

Definition content_range (first size total : Z) : list Z := bs "bytes " ++ print_zu first ++ bs "-" ++ print_zu (first + size - 1) ++ bs "/" ++ print_zu total.

Lemma single_plan alloc junk gzip_types rand m r content part : (∀ n, alloc n = true) → serves content r → range_ready m → part_ok content part →
  httpresponse_header_exist r (bs "Content-Range") = false →
  let r1 := as_range r 206 (rs_header r ++ [header (bs "Content-Range") (content_range (part_start part) (part_size part) (zlen content)); header (bs "Content-Length") (print_zu (part_size part))]) in
  ∃ m1, range_plan alloc junk gzip_types rand false [part] (RangeState m r) = Some (Some (RangeState m1 r1)) ∧ rg_cont m1 = false ∧ rg_unsatisfiable m1 = false ∧
    (Z.to_nat (part_size part) + 2 < range_turns (RangeState m1 r1))%nat ∧
    ∀ r2, rs_body r2 = rs_body r → rs_file r2 = rs_file r → single_left content (part_data content part) (RangeState (set_range_cont m1 false) r2).
Proof.
  intros Ha Hs (M1 & M2 & M3 & M4 & M5) (P1 & P2 & P3) Hex r1. pose proof Hs as [Hmax Hsrc]. unfold range_plan. cbn [rf_module rf_response negb]. rewrite (serves_size _ _ Hs).
  cbn [rg_start rg_size set_single]. unfold wrap64. rewrite Z.mod_small by (unfold SSIZE_MAX in Hmax; lia).
  fold (content_range (part_start part) (part_size part) (zlen content)). set (v := content_range _ _ _).
  assert (zlen v < 70) as Hv.
  { unfold v, content_range. rewrite !zlen_app. pose proof (zlen_print_zu (part_start part)). pose proof (zlen_print_zu (part_start part + part_size part - 1)). pose proof (zlen_print_zu (zlen content)).
    change (zlen (bs "bytes ")) with 6. change (zlen (bs "-")) with 1. change (zlen (bs "/")) with 1. lia. }
  destruct (Z.leb_spec 70 (zlen v)); [lia|]. change 13 with (zlen (bs "Content-Range")). rewrite headeru_add_new by done. cbn [mbind option_bind negb].
  rewrite add_content_length_ok by (done || unfold SSIZE_MAX, SIZE_MAX in *; lia). cbn [mbind option_bind negb].
  destruct (chunk_buffer_alloc alloc junk (rg_buf m) Ha M5) as (b & E & Hb). cbn [rg_buf set_single]. rewrite E. cbn [negb].
  eexists. split; [cbn [with_headers rs_header with_status]; rewrite <- app_assoc; reflexivity|]. split; [done|]. split; [done|]. split.
  { unfold range_turns. cbn [rf_module rg_size set_range_buf set_single]. lia. }
  intros r2 B1 B2. constructor; cbn; try done; [|rewrite M2; lia|].
  - split; [done|]. by rewrite B1, B2.
  - by rewrite M2, Z.add_0_r, Z.sub_0_r.
Qed.

(** *** Several ranges *)

Lemma boundary_ok rand : ∃ boundary, mp_generate_boundary rand = Some (boundary ++ [0]) ∧ zlen boundary = 16 ∧ cstr (boundary ++ [0]) = boundary.
Proof.
  unfold mp_generate_boundary. assert (∀ l, ∃ chars, mapM (λ i, mem_get BOUNDARY_CHARS (wrap64 (rand i) mod zlen BOUNDARY_CHARS)) l = Some chars ∧ length chars = length l ∧ Forall (λ c, c ≠ 0) chars) as Hm.
  { induction l as [|i l (chars & E & Hl & Hf)]; [by exists []|]. destruct (mem_get_Some BOUNDARY_CHARS (wrap64 (rand i) mod zlen BOUNDARY_CHARS)) as [c Hc]; [apply Z.mod_pos_bound; done|].
    exists (c :: chars). cbn [mapM]. rewrite Hc. cbn [mbind option_bind]. rewrite E. split; [done|]. split; [by cbn [length]; rewrite Hl|]. constructor; [|done].
    rewrite mem_get_lookup in Hc by (apply Z.mod_pos_bound; done). assert (Forall (λ c, c ≠ 0) BOUNDARY_CHARS) as Hall by (vm_compute; repeat (apply Forall_cons; split; [done|]); done).
    by apply (Forall_lookup_1 _ _ _ _ Hall Hc). }
  destruct (Hm (seq 0 BOUNDARY_LENGTH)) as (chars & -> & Hl & Hf). exists chars. split; [done|]. split; [unfold zlen; by rewrite Hl|].
  clear Hl Hm. induction Hf as [|c chars Hc _ IH]; [done|]. cbn [app cstr]. destruct (Z.eqb_spec c 0); [done|]. by rewrite IH.
Qed.

Lemma mp_length_ok content boundary ctype parts p : zlen content <= SSIZE_MAX → zlen ctype <= 2 ^ 30 ∧ zlen (cstr boundary) = 16 → mp_fixed content boundary ctype parts p →
  ∀ l acc, Forall (part_ok content) l → 0 <= acc → acc + zlen (byteranges content boundary ctype l) <= SIZE_MAX →
  mp_length p l (acc + zlen (close_text boundary)) = Some (Some (acc + zlen (byteranges content boundary ctype l))).
Proof.
  intros Hmax Hsh Hf l. induction l as [|part l IH]; intros acc Hok Hacc Hw; cbn [mp_length byteranges] in *; [done|]. apply Forall_cons in Hok as [Hp Hok]. pose proof Hp as (P1 & P2 & P3).
  pose proof Hf as (_ & _ & _ & _ & Hct & _). unfold mp_part_header_length. rewrite Hct. cbn [mbind option_bind]. rewrite (part_header_text content boundary ctype parts Hmax p part Hf Hp).
  pose proof (zlen_head_text content boundary ctype Hsh part) as Hh. unfold snprintf_length. rewrite (proj2 (Z.leb_le _ _)) by (unfold INT_MAX; lia).
  pose proof (zlen_nonneg (head_text content boundary ctype part)). destruct (Z.ltb_spec (zlen (head_text content boundary ctype part)) 0); [lia|].
  rewrite !zlen_app in Hw. unfold part_data in Hw. rewrite zlen_slice in Hw by lia. change (zlen CRLF) with 2 in Hw.
  assert (zlen (close_text boundary) <= zlen (byteranges content boundary ctype l)) as Hc.
  { clear. induction l as [|q l IH]; cbn [byteranges]; [lia|]. rewrite !zlen_app. pose proof (zlen_nonneg (head_text content boundary ctype q)). pose proof (zlen_nonneg (part_data content q)). change (zlen CRLF) with 2. lia. }
  pose proof (zlen_nonneg (close_text boundary)). unfold wrap64. rewrite (Z.mod_small (zlen _ + part_size part + 2)) by (unfold SIZE_MAX in *; lia).
  rewrite (proj2 (Z.ltb_ge _ (part_size part))) by lia. rewrite (proj2 (Z.ltb_ge _ (acc + _))) by lia. cbn [orb]. rewrite Z.mod_small by (unfold SIZE_MAX in *; lia).
  replace (acc + zlen (close_text boundary) + (zlen (head_text content boundary ctype part) + part_size part + 2)) with (acc + (zlen (head_text content boundary ctype part) + part_size part + 2) + zlen (close_text boundary)) by lia.
  rewrite IH by (done || lia). do 2 f_equal. rewrite !zlen_app. unfold part_data. rewrite zlen_slice by lia. change (zlen CRLF) with 2. lia.
Qed.

(** The content of the parts' Content-Type, and the response without it. *)
Definition part_type (r : httpresponse) : list Z := cstr (match httpresponse_header_get r (bs "Content-Type") with Some h => WriteFilter.value h | None => MP_CTYPE_DEFAULT end).
Definition without_type (r : httpresponse) : httpresponse :=
  match httpresponse_header_get r (bs "Content-Type") with Some _ => (httpresponse_header_remove r (bs "Content-Type")).2 | None => r end.

Lemma without_type_range r code : without_type (as_range r code (rs_header r)) = as_range r code (rs_header (without_type r)).
Proof.
  unfold without_type, httpresponse_header_get. cbn [rs_header as_range]. destruct (List.find _ _); [|done]. unfold httpresponse_header_remove, httpresponse_header_exist. cbn [rs_header as_range].
  destruct (rs_header r) as [|x l] eqn:E; [cbn; by rewrite E|]. destruct (negb _); cbn; by rewrite ?E.
Qed.

Lemma range_turns_multi content boundary ctype parts p m r : zlen ctype <= 2 ^ 30 ∧ zlen (cstr boundary) = 16 → mp_fixed content boundary ctype parts p → rg_mp m = p → Forall (part_ok content) parts →
  (S (length (byteranges content boundary ctype parts)) < range_turns (RangeState m r))%nat.
Proof.
  intros Hsh (_ & Hp & _ & _ & Hct & _) Hm Hok. unfold range_turns. cbn [rf_module]. rewrite Hm, Hp, Hct. cbn [default from_option id]. clear Hp Hct Hm p r.
  assert (length (byteranges content boundary ctype parts) <= 30 + foldr (λ part n, Z.to_nat (part_size part) + length ctype + 260 + n)%nat 0%nat parts)%nat; [|lia].
  induction Hok as [|part parts (P1 & P2 & P3) _ IH]; cbn [byteranges foldr].
  - pose proof (zlen_close_text boundary). unfold zlen in *. lia.
  - rewrite !length_app. pose proof (zlen_head_text content boundary ctype Hsh part). pose proof (zlen_slice (part_start part) (part_size part) content ltac:(lia) ltac:(lia) ltac:(lia)). change (length CRLF) with 2%nat.
    unfold part_data, zlen in *. lia.
Qed.

Definition multipart_type (boundary : list Z) : list Z := bs "multipart/byteranges; boundary=" ++ boundary.

Lemma range_plan_several alloc junk gzip_types rand parts m r : parts ≠ [] →
  range_plan alloc junk gzip_types rand true parts (RangeState m r) =
    ('(ok, st) ← mp_setup alloc junk gzip_types rand
       (RangeState (set_mp m (Multipart (mp_active (rg_mp m)) (Some parts) (zlen parts) (mp_part_index (rg_mp m)) (mp_at (rg_mp m)) (mp_total (rg_mp m)) (mp_data_pos (rg_mp m)) (mp_part_ctype (rg_mp m))
          (mp_text (rg_mp m)) (mp_text_len (rg_mp m)) (mp_text_pos (rg_mp m)) (mp_boundary (rg_mp m)))) (as_range r (rs_status_code r) (rs_header r))) (data_size r);
     if negb ok then Some None else Some (Some st)).
Proof. by destruct parts. Qed.

Lemma multi_plan alloc junk gzip_types rand m r content parts boundary : (∀ n, alloc n = true) → serves content r → range_ready m → parts ≠ [] → Forall (part_ok content) parts →
  mp_generate_boundary rand = Some (boundary ++ [0]) → zlen (part_type r) <= 2 ^ 30 → httpresponse_header_exist (without_type r) (bs "Content-Type") = false →
  let payload := byteranges content (boundary ++ [0]) (part_type r) parts in
  zlen payload <= SIZE_MAX →
  let r1 := as_range r 206 (rs_header (without_type r) ++ [header (bs "Content-Type") (multipart_type boundary); header (bs "Content-Length") (print_zu (zlen payload))]) in
  ∃ m1, range_plan alloc junk gzip_types rand true parts (RangeState m r) = Some (Some (RangeState m1 r1)) ∧ rg_cont m1 = false ∧ rg_unsatisfiable m1 = false ∧
    (S (length payload) < range_turns (RangeState m1 r1))%nat ∧
    ∀ r2, rs_body r2 = rs_body r → rs_file r2 = rs_file r → multi_left content (boundary ++ [0]) (part_type r) parts payload (RangeState (set_range_cont m1 false) r2).
Proof.
  intros Ha Hs (M1 & M2 & M3 & M4 & M5) Hne Hok Hgen Hct Hex payload Hpl r1. pose proof Hs as [Hmax Hsrc].
  destruct (boundary_ok rand) as (b' & E & Hb16 & Hbc). rewrite Hgen in E. injection E as E. apply app_inj_tail in E as [<- _].
  assert (zlen (part_type r) <= 2 ^ 30 ∧ zlen (cstr (boundary ++ [0])) = 16) as Hsh by (rewrite Hbc; done).
  assert (∃ part0 parts0, parts = part0 :: parts0) as (part0 & parts0 & Eparts) by (destruct parts; [done|eauto]).
  rewrite range_plan_several, (serves_size _ _ Hs) by done. unfold mp_setup. cbn [rf_module rf_response rg_mp set_mp]. rewrite Hgen. cbn [mbind option_bind].
  change (httpresponse_header_get (as_range r (rs_status_code r) (rs_header r)) (bs "Content-Type")) with (httpresponse_header_get r (bs "Content-Type")). fold (part_type r). rewrite Ha. cbn [negb].
  set (r0 := as_range r (rs_status_code r) (rs_header r)).
  assert (match httpresponse_header_get r (bs "Content-Type") with Some _ => (httpresponse_header_remove r0 (bs "Content-Type")).2 | None => r0 end = as_range r (rs_status_code r) (rs_header (without_type r))) as ->.
  { rewrite <- without_type_range. done. }
  cbn [mp_parts mp_parts_count mp_text mp_text_len mp_text_pos].
  set (p := Multipart true (Some parts) (zlen parts) 0 MP_STATE_TEXT (zlen content) 0 (Some (part_type r)) (mp_text (rg_mp m)) (mp_text_len (rg_mp m)) (mp_text_pos (rg_mp m)) (boundary ++ [0])).
  assert (mp_fixed content (boundary ++ [0]) (part_type r) parts p) as Hfx by done.
  unfold mp_frame. cbn [rg_mp set_mp]. change (mp_boundary p) with (boundary ++ [0]). rewrite Hbc. fold (multipart_type boundary).
  assert (zlen (multipart_type boundary) = 47) as Hmt by (unfold multipart_type; rewrite zlen_app, Hb16; done). rewrite Hmt. cbn [Z.leb Z.compare Pos.compare Pos.compare_cont]. rewrite <- Hmt.
  change 12 with (zlen (bs "Content-Type")). rewrite headeru_add_new by done. cbn [mbind option_bind negb]. change (mp_parts p) with (Some parts). cbn [mbind option_bind]. change (mp_parts_count p) with (zlen parts). rewrite take_zlen.
  replace (zlen boundary + 6) with (0 + zlen (close_text (boundary ++ [0]))) by (rewrite zlen_close_text, Hbc; lia). rewrite (mp_length_ok content (boundary ++ [0]) (part_type r) parts p) by (done || (rewrite Z.add_0_l; exact Hpl)). cbn [mbind option_bind]. rewrite Z.add_0_l. fold payload.
  rewrite add_content_length_ok by (done || (split; [apply zlen_nonneg|done])). cbn [mbind option_bind negb].
  destruct (chunk_buffer_alloc alloc junk (rg_buf m) Ha M5) as (bb & Eb & Hbb). cbn [rg_buf set_mp]. rewrite Eb. cbn [negb].
  destruct (mp_stage_ok content (boundary ++ [0]) (part_type r) parts Hok Hsh Hmax alloc p false Ha Hfx) as [Est Hz]; [cbn; pose proof (zlen_nonneg parts); lia|]. cbn [app] in Est, Hz. rewrite Est. cbn [mbind option_bind negb].
  change (parts_from parts p) with parts in *. 
  eexists. split; [cbn [with_headers rs_header with_status as_range]; rewrite <- app_assoc; reflexivity|]. split; [done|]. split; [done|]. split; [eapply range_turns_multi; [exact Hsh| |reflexivity|exact Hok]; done|].
  intros r2 B1 B2. constructor; cbn [rf_module rf_response rg_mp rg_buf set_mp set_range_buf set_range_cont]; [|done| | |].
  - constructor; try done; [cbn; pose proof (zlen_nonneg parts); lia|]. intros _. eexists. split; [done|]. cbn [mp_at_text mp_text_pos mp_text_len]. rewrite zlen_app. change (zlen [0]) with 1. lia.
  - split; [done|]. by rewrite B1, B2.
  - unfold mp_owed. cbn [mp_at mp_at_text mp_text_pos mp_text_len mp_text default from_option id p]. change (parts_from parts _) with parts. rewrite drop_0, take_app_le, take_zlen by (unfold zlen; lia). unfold payload. rewrite Eparts. done.
  - unfold payload. rewrite Eparts. cbn [byteranges]. intros En. apply app_nil in En as [_ En]. apply app_nil in En as [_ En]. done.
Qed.

Section Requests.
Variable alloc : Z → bool.
Variable junk : Z.
Variable gzip_types : list (list Z).
Variable rand : nat → Z.
Hypothesis memory : ∀ n, alloc n = true.
Context {T : Type} `{HeadSink T}.

(** A planned response goes down the chain. *)
Lemma header_plans ranges m r content parts st1 (h : T) : serves content r → 200 <= rs_status_code r < 300 → rs_last_modified r = false → rg_cont m = false →
  ranges ≠ [] → zlen ranges <= RANGE_MAX_PARTS → resolve_all ranges (zlen content) = Some parts →
  range_plan alloc junk gzip_types rand (match ranges with [_] => false | _ => true end) parts (RangeState m r) = Some (Some st1) →
  range_handler_header alloc junk gzip_types rand ranges (RangeState m r) h =
    '(c, h, r2) ← next_header h (rf_response st1); Some (c, RangeState (set_range_cont (rf_module st1) (c =? CWF_EVENT_AGAIN)) r2, h).
Proof.
  intros Hs Hc Hl Hm Hne Hn Hres Hplan. unfold range_handler_header. cbn [rf_module rf_response]. rewrite Hm. destruct ranges as [|g ranges]; [done|].
  rewrite (proj2 (Z.ltb_ge _ _)) by lia. rewrite (proj2 (Z.leb_gt _ _)) by lia. cbn [orb]. rewrite Hl. rewrite (proj2 (Z.ltb_ge _ _)) by lia. rewrite memory. cbn [negb].
  rewrite (serves_size _ _ Hs), Hres. destruct ranges; by rewrite Hplan.
Qed.
End Requests.

(** ** Properties *)

Lemma parsed_bounded alloc value ranges : httpparser_parse_range alloc value = Some ranges → Forall bounded ranges.
Proof. intros E. destruct (range_parser_ok alloc value) as (l & E' & Hwf). rewrite E in E'. injection E' as <-. by apply wf_bounded. Qed.

(** What the head handler hands down, and the state it leaves. *)
Definition passes_on {T : Type} `{HeadSink T} (h : T) (m1 : http_module_range) (r1 : httpresponse) (run : option (Z * range_state * T)) : Prop :=
  run = ('(c, h, r2) ← next_header h r1; Some (c, RangeState (set_range_cont m1 (c =? CWF_EVENT_AGAIN)) r2, h)).

(** The body handler, with the response as the filters below left it, puts [payload] on the wire. *)
Definition body_sends (alloc : Z → bool) (junk : Z) (m1 : http_module_range) (r : httpresponse) (payload : list Z) : Prop :=
  ∀ r2 mc s events parent, rs_body r2 = rs_body r → rs_file r2 = rs_file r → rs_range r2 = true → rs_last_modified r2 = false → (length (script s) <= events)%nat →
    sends_exactly events s payload (resume (range_handler_body alloc junk true false) events (RangeState (set_range_cont m1 false) r2, (mc, s) : chunked_over (λ _, true) 0 true false socket) parent).

(** C18: A request for one range that selects something is answered with 206, a Content-Range that names the first and last position and the
    size of the representation, and a Content-Length; the body is exactly the bytes the range selects (the last ones, all from a
    position on, or those between two positions), read from memory or from a file in reads of any sizes, on whatever socket. *)
Theorem range_request_single {T : Type} `{HeadSink T} (alloc : Z → bool) (junk : Z) (gzip_types : list (list Z)) (rand : nat → Z) (value : list Z) (g : http_range)
    (m : http_module_range) (r : httpresponse) (content : list Z) (h : T) :
  (∀ n, alloc n = true) → httpparser_parse_range alloc value = Some [g] → serves content r → 200 <= rs_status_code r < 300 → rs_last_modified r = false → range_ready m →
  httpresponse_header_exist r (bs "Content-Range") = false → selected content g ≠ [] →
  ∃ m1 first, let size := zlen (selected content g) in
    let r1 := as_range r 206 (rs_header r ++ [header (bs "Content-Range") (content_range first size (zlen content)); header (bs "Content-Length") (print_zu size)]) in
    passes_on h m1 r1 (range_handler_header alloc junk gzip_types rand [g] (RangeState m r) h) ∧
    slice first size content = selected content g ∧ body_sends alloc junk m1 r (selected content g).
Proof.
  intros Ha Hp Hs Hc Hl Hm Hex Hsel. pose proof Hs as [Hmax _]. destruct (resolve_all_spec content [g] (parsed_bounded _ _ _ Hp) Hmax) as (parts & Hres & Hok & Hmap).
  cbn [map List.filter] in Hmap. unfold nonempty in Hmap. rewrite bool_decide_false in Hmap by done. cbn [negb] in Hmap. destruct parts as [|part [|? ?]]; [done| |done]. injection Hmap as Hd. apply Forall_cons in Hok as [Hpo _].
  destruct (single_plan alloc junk gzip_types rand m r content part Ha Hs Hm Hpo Hex) as (m1 & Hplan & H1 & H2 & HF & Hleft). pose proof Hpo as (P1 & P2 & P3).
  assert (zlen (selected content g) = part_size part) as Hz by (rewrite <- Hd; apply zlen_slice; lia).
  exists m1, (part_start part). cbn zeta. rewrite Hz. split; [|split; [exact Hd|]].
  - unfold passes_on. destruct Hm as (M1 & _). rewrite (header_plans alloc junk gzip_types rand Ha [g] m r content [part] _ h Hs Hc Hl M1 ltac:(done) ltac:(done) Hres Hplan). done.
  - intros r2 mc s events parent B1 B2 B3 B4 Hev. eapply (range_body_sends alloc junk _ mc s events parent _ (length (selected content g))); try done.
    + rewrite <- Hd. apply (range_yields alloc junk (single_left content)); [by intros; apply single_fetch|by apply Hleft|done].
    + unfold zlen in Hz. unfold range_turns in *. cbn in HF |- *. lia.
Qed.

(** C19: A request for several ranges, at least one of which selects something, is answered with 206 and a multipart/byteranges body: for each
    selecting range, in the order of the request, the delimiter with a Content-Type and a Content-Range and exactly the bytes it selects,
    then the close delimiter. The Content-Length is the length of that body, framing included. *)
Theorem range_request_multipart {T : Type} `{HeadSink T} (alloc : Z → bool) (junk : Z) (gzip_types : list (list Z)) (rand : nat → Z) (value : list Z) (ranges : list http_range)
    (m : http_module_range) (r : httpresponse) (content boundary : list Z) (h : T) :
  (∀ n, alloc n = true) → httpparser_parse_range alloc value = Some ranges → (2 <= length ranges)%nat → zlen ranges <= RANGE_MAX_PARTS →
  serves content r → 200 <= rs_status_code r < 300 → rs_last_modified r = false → range_ready m →
  mp_generate_boundary rand = Some (boundary ++ [0]) → zlen (part_type r) <= 2 ^ 30 → httpresponse_header_exist (without_type r) (bs "Content-Type") = false →
  List.filter nonempty (map (selected content) ranges) ≠ [] →
  ∃ m1 parts, let payload := byteranges content (boundary ++ [0]) (part_type r) parts in
    map (part_data content) parts = List.filter nonempty (map (selected content) ranges) ∧
    (zlen payload <= SIZE_MAX →
     passes_on h m1 (as_range r 206 (rs_header (without_type r) ++ [header (bs "Content-Type") (multipart_type boundary); header (bs "Content-Length") (print_zu (zlen payload))]))
       (range_handler_header alloc junk gzip_types rand ranges (RangeState m r) h) ∧
     body_sends alloc junk m1 r payload).
Proof.
  intros Ha Hp Hlen Hcnt Hs Hc Hl Hm Hgen Hct Hex Hsel. pose proof Hs as [Hmax _]. destruct (resolve_all_spec content ranges (parsed_bounded _ _ _ Hp) Hmax) as (parts & Hres & Hok & Hmap).
  assert (parts ≠ []) as Hne by (intros ->; by rewrite <- Hmap in Hsel). destruct (decide (zlen (byteranges content (boundary ++ [0]) (part_type r) parts) <= SIZE_MAX)) as [Hpl|Hpl]; [|by exists m, parts; split].
  destruct (multi_plan alloc junk gzip_types rand m r content parts boundary Ha Hs Hm Hne Hok Hgen Hct Hex Hpl) as (m1 & Hplan & H1 & H2 & HF & Hleft).
  exists m1, parts. cbn zeta. split; [done|]. intros _. split.
  - unfold passes_on. destruct Hm as (M1 & _).
    destruct ranges as [|g1 [|g2 ranges]]; [simpl in Hlen; lia|simpl in Hlen; lia|].
    rewrite (header_plans alloc junk gzip_types rand Ha (g1 :: g2 :: ranges) m r content parts _ h Hs Hc Hl M1 ltac:(done) Hcnt Hres Hplan). done.
  - intros r2 mc s events parent B1 B2 B3 B4 Hev. eapply (range_body_sends alloc junk _ mc s events parent _ (length (byteranges content (boundary ++ [0]) (part_type r) parts))); try done.
    destruct (boundary_ok rand) as (b' & E & Hb16 & Hbc). rewrite Hgen in E. injection E as E. apply app_inj_tail in E as [<- _].
    eapply (range_yields alloc junk (multi_left content (boundary ++ [0]) (part_type r) parts)); [|by apply Hleft|done].
    intros rest st. apply multi_fetch; try done. by rewrite Hbc.
Qed.

(** When none of the ranges selects anything the answer is 416 with the size of the representation and no body. *)
Theorem range_request_unsatisfied {T : Type} `{HeadSink T} (alloc : Z → bool) (junk : Z) (gzip_types : list (list Z)) (rand : nat → Z) (value : list Z) (ranges : list http_range)
    (m : http_module_range) (r : httpresponse) (content : list Z) (h : T) :
  (∀ n, alloc n = true) → httpparser_parse_range alloc value = Some ranges → ranges ≠ [] → zlen ranges <= RANGE_MAX_PARTS →
  serves content r → 200 <= rs_status_code r < 300 → rs_last_modified r = false → range_ready m → httpresponse_header_exist r (bs "Content-Range") = false →
  List.filter nonempty (map (selected content) ranges) = [] →
  ∃ m1, passes_on h m1 (as_range r 416 (rs_header r ++ [header (bs "Content-Range") (bs "bytes */" ++ print_zu (zlen content)); header (bs "Content-Length") (bs "0")]))
      (range_handler_header alloc junk gzip_types rand ranges (RangeState m r) h) ∧
    ∀ {S : Type} `{BodySink S} r2 (s : S) parent, rs_range r2 = true → rs_last_modified r2 = false →
      range_handler_body alloc junk true false (RangeState (set_range_cont m1 false) r2, s) parent = Some (CWF_OK, (RangeState (set_range_cont m1 false) r2, s), parent).
Proof.
  intros Ha Hp Hne Hcnt Hs Hc Hl Hm Hex Hsel. pose proof Hs as [Hmax _]. destruct (resolve_all_spec content ranges (parsed_bounded _ _ _ Hp) Hmax) as (parts & Hres & Hok & Hmap).
  rewrite Hsel in Hmap. destruct parts; [|done]. exists (set_unsatisfiable m). split.
  - unfold passes_on. destruct Hm as (M1 & _). rewrite (header_plans alloc junk gzip_types rand Ha ranges m r content [] (RangeState (set_unsatisfiable m) (as_range r 416 (rs_header r ++ [header (bs "Content-Range") (bs "bytes */" ++ print_zu (zlen content)); header (bs "Content-Length") (bs "0")]))) h Hs Hc Hl M1); try done.
    unfold range_plan. cbn [rf_module rf_response]. rewrite (serves_size _ _ Hs). set (v := bs "bytes */" ++ print_zu (zlen content)).
    assert (zlen v < 70) as Hv by (unfold v; rewrite zlen_app; pose proof (zlen_print_zu (zlen content)); change (zlen (bs "bytes */")) with 8; lia).
    destruct (Z.leb_spec 70 (zlen v)); [lia|]. change 13 with (zlen (bs "Content-Range")). rewrite headeru_add_new by done. cbn [mbind option_bind negb].
    rewrite add_content_length_ok by (done || unfold SIZE_MAX; lia). cbn [mbind option_bind negb]. cbn [with_headers rs_header with_status]. rewrite <- app_assoc. done.
  - intros S HB r2 s parent E1 E2. unfold range_handler_body. cbn. by rewrite E1, E2.
Qed.

Definition new_range_module : http_module_range := range_module_create (replicate 17 0).
Definition hello_response : httpresponse := memory_response TE_NONE (bs "hello world").
Definition writer_at_start : head_writer (λ _, true) 0 := (Socket [] [] false, no_buffer).

Lemma new_range_module_ready : range_ready new_range_module.
Proof. unfold range_ready. split_and!; try done. by left. Qed.

Lemma hello_serves : serves (bs "hello world") hello_response.
Proof. split; [vm_compute; discriminate|]. left. split; [done|]. split; [done|]. eexists. split; reflexivity. Qed.

Lemma range_request_single_witness :
  ∃ m1 first, let size := zlen (selected (bs "hello world") (Range 6 (-1))) in
    let r1 := as_range hello_response 206 ([] ++ [header (bs "Content-Range") (content_range first size (zlen (bs "hello world"))); header (bs "Content-Length") (print_zu size)]) in
    passes_on writer_at_start m1 r1 (range_handler_header (λ _, true) 0 [] (λ _, 7) [Range 6 (-1)] (RangeState new_range_module hello_response) writer_at_start) ∧
    slice first size (bs "hello world") = selected (bs "hello world") (Range 6 (-1)) ∧ body_sends (λ _, true) 0 m1 hello_response (selected (bs "hello world") (Range 6 (-1))).
Proof.
  apply (range_request_single (λ _, true) 0 [] (λ _, 7) (bs "bytes=6-") (Range 6 (-1)) new_range_module hello_response (bs "hello world") writer_at_start).
  - reflexivity.
  - reflexivity.
  - exact hello_serves.
  - vm_compute. split; [discriminate|reflexivity].
  - reflexivity.
  - exact new_range_module_ready.
  - reflexivity.
  - discriminate.
Defined.

Definition sevens : list Z := replicate 16 55.

Lemma range_request_multipart_witness :
  ∃ m1 parts, let payload := byteranges (bs "hello world") (sevens ++ [0]) (part_type hello_response) parts in
    map (part_data (bs "hello world")) parts = List.filter nonempty (map (selected (bs "hello world")) [Range 0 3; Range 6 (-1)]) ∧
    (zlen payload <= SIZE_MAX →
     passes_on writer_at_start m1 (as_range hello_response 206 (rs_header (without_type hello_response) ++ [header (bs "Content-Type") (multipart_type sevens); header (bs "Content-Length") (print_zu (zlen payload))]))
       (range_handler_header (λ _, true) 0 [] (λ _, 7) [Range 0 3; Range 6 (-1)] (RangeState new_range_module hello_response) writer_at_start) ∧
     body_sends (λ _, true) 0 m1 hello_response payload).
Proof.
  apply (range_request_multipart (λ _, true) 0 [] (λ _, 7) (bs "bytes=0-3,6-") [Range 0 3; Range 6 (-1)] new_range_module hello_response (bs "hello world") sevens writer_at_start).
  - reflexivity.
  - reflexivity.
  - simpl. lia.
  - vm_compute. discriminate.
  - exact hello_serves.
  - vm_compute. split; [discriminate|reflexivity].
  - reflexivity.
  - exact new_range_module_ready.
  - reflexivity.
  - vm_compute. discriminate.
  - reflexivity.
  - discriminate.
Defined.

Lemma range_request_unsatisfied_witness :
  ∃ m1, passes_on writer_at_start m1 (as_range hello_response 416 ([] ++ [header (bs "Content-Range") (bs "bytes */" ++ print_zu (zlen (bs "hello world"))); header (bs "Content-Length") (bs "0")]))
      (range_handler_header (λ _, true) 0 [] (λ _, 7) [Range 20 30] (RangeState new_range_module hello_response) writer_at_start) ∧
    ∀ {S : Type} `{BodySink S} r2 (s : S) parent, rs_range r2 = true → rs_last_modified r2 = false →
      range_handler_body (λ _, true) 0 true false (RangeState (set_range_cont m1 false) r2, s) parent = Some (CWF_OK, (RangeState (set_range_cont m1 false) r2, s), parent).
Proof.
  apply (range_request_unsatisfied (λ _, true) 0 [] (λ _, 7) (bs "bytes=20-30") [Range 20 30] new_range_module hello_response (bs "hello world") writer_at_start).
  - reflexivity.
  - reflexivity.
  - discriminate.
  - vm_compute. discriminate.
  - exact hello_serves.
  - vm_compute. split; [discriminate|reflexivity].
  - reflexivity.
  - exact new_range_module_ready.
  - reflexivity.
  - reflexivity.
Defined.

(** A Transfer-Encoding the application has set survives the range filter: the head goes down with Transfer-Encoding: chunked and a
    Content-Length, while the response is no longer chunked and its body is sent as it is. *)
Theorem range_keeps_transfer_encoding :
  ∃ r, httpresponse_header_add (λ _, true) [] hello_response (bs "Transfer-Encoding") (bs "chunked") = Some (true, r) ∧ rs_transfer_encoding r = TE_CHUNKED ∧
  ∃ c st' h', range_handler_header (λ _, true) 0 [] (λ _, 7) [Range 6 (-1)] (RangeState new_range_module r) writer_at_start = Some (c, st', h') ∧
    rs_transfer_encoding (rf_response st') = TE_NONE ∧
    rs_header (rf_response st') = [header (bs "Transfer-Encoding") (bs "chunked"); header (bs "Content-Range") (bs "bytes 6-10/11"); header (bs "Content-Length") (bs "5")].
Proof.
  eexists. split; [reflexivity|]. split; [reflexivity|]. eexists _, (RangeState _ _), _. split; [vm_compute; reflexivity|]. split; reflexivity.
Qed.
