(* ===== verification/HttpDate.v ===== *)
(** HTTP dates: [http_format_date] of [misc/helpers.c] and [__parse_http_date] of [http_not_modified_filter.c].

    [gmtime_r], [strftime], [strptime] and [timegm] are those of the C library in the C locale, as far as the two functions use
    them: the proleptic Gregorian calendar, and the conversions of the four formats. A [time_t] is a number of seconds. *)

From S2P Require Import Prelude Helpers QueryParser WriteFilter HttpResponse.

(** ** The calendar *)

(** Broken-down time; [tm_mon] counts from 0 and [tm_year] from 1900. *)
Record tm : Set := Tm {
  tm_sec : Z;
  tm_min : Z;
  tm_hour : Z;
  tm_mday : Z;
  tm_mon : Z;
  tm_year : Z;
  tm_wday : Z }.

(** Year, month (from 1) and day of the month of the day [z] after 1970-01-01. The year is counted from March, in eras of 400 years. *)
Definition civil_from_days (z : Z) : Z * Z * Z :=
  let z := z + 719468 in
  let era := z / 146097 in
  let doe := z mod 146097 in
  let yoe := (doe - doe / 1460 + doe / 36524 - doe / 146096) / 365 in
  let doy := doe - (365 * yoe + yoe / 4 - yoe / 100) in
  let mp := (5 * doy + 2) / 153 in
  let m := if mp <? 10 then mp + 3 else mp - 9 in
  (yoe + era * 400 + (if m <=? 2 then 1 else 0), m, doy - (153 * mp + 2) / 5 + 1).

Definition days_from_civil (y m d : Z) : Z :=
  let y := if m <=? 2 then y - 1 else y in
  let era := y / 400 in
  let yoe := y mod 400 in
  let mp := if 2 <? m then m - 3 else m + 9 in
  let doy := (153 * mp + 2) / 5 + d - 1 in
  era * 146097 + (yoe * 365 + yoe / 4 - yoe / 100 + doy) - 719468.

(** NULL when the year does not fit an [int]. *)
Definition gmtime_r (t : Z) : option tm :=
  let '(y, m, d) := civil_from_days (t / 86400) in
  let s := t mod 86400 in
  if (-2147483648 <=? y - 1900) && (y - 1900 <=? 2147483647)
  then Some (Tm (s mod 60) (s / 60 mod 60) (s / 3600) d (m - 1) (y - 1900) ((t / 86400 + 4) mod 7))
  else None.

Definition timegm (v : tm) : Z :=
  (days_from_civil (tm_year v + 1900) (tm_mon v + 1) 1 + tm_mday v - 1) * 86400 + tm_hour v * 3600 + tm_min v * 60 + tm_sec v.

(** ** Names *)

Definition weekdays : list (list Z) := [bs "Sunday"; bs "Monday"; bs "Tuesday"; bs "Wednesday"; bs "Thursday"; bs "Friday"; bs "Saturday"].
Definition months : list (list Z) :=
  [bs "January"; bs "February"; bs "March"; bs "April"; bs "May"; bs "June"; bs "July"; bs "August"; bs "September"; bs "October"; bs "November"; bs "December"].

Definition abbreviated (names : list (list Z)) (i : Z) : list Z := take 3 (nth (Z.to_nat i) names []).

(** ** Writing *)

Definition two (n : Z) : list Z := [48 + n / 10; 48 + n mod 10].
Definition year_digits (y : Z) : list Z := if y <? 0 then 45 :: print_zu (- y) else print_zu y.

(** ["%a, %d %b %Y %H:%M:%S GMT"] *)
Definition strftime_http (v : tm) : list Z :=
  abbreviated weekdays (tm_wday v) ++ bs ", " ++ two (tm_mday v) ++ bs " " ++ abbreviated months (tm_mon v) ++ bs " " ++ year_digits (tm_year v + 1900) ++ bs " " ++
  two (tm_hour v) ++ bs ":" ++ two (tm_min v) ++ bs ":" ++ two (tm_sec v) ++ bs " GMT".

(** The text; [None] for the return value 0, when there is no such time or it does not fit. *)
Definition http_format_date (time buf_size : Z) : option (list Z) :=
  if buf_size =? 0 then None
  else
    v ← gmtime_r time;
    let text := strftime_http v in
    if buf_size <=? zlen text then None else Some text.

(** ** Reading *)

Inductive directive : Set :=
  | Lit (c : Z)
  | Blank       (** white space: any amount of it *)
  | Weekday     (** %a, %A: a name, in full or abbreviated *)
  | Month       (** %b *)
  | Mday        (** %d *)
  | Year        (** %Y *)
  | Year2       (** %y *)
  | Hour        (** %H *)
  | Minute      (** %M *)
  | Second.     (** %S *)

Definition lits (s : list Z) : list directive := map Lit s.
Definition clock_format : list directive := [Hour; Lit 58; Minute; Lit 58; Second].

Definition IMF_FORMAT : list directive := [Weekday; Lit 44; Blank; Mday; Blank; Month; Blank; Year; Blank] ++ clock_format ++ [Blank] ++ lits (bs "GMT").
Definition RFC850_FORMAT : list directive := [Weekday; Lit 44; Blank; Mday; Lit 45; Month; Lit 45; Year2; Blank] ++ clock_format ++ [Blank] ++ lits (bs "GMT").
Definition ASCTIME_FORMAT : list directive := [Weekday; Blank; Month; Blank; Mday; Blank] ++ clock_format ++ [Blank; Year].

Definition is_space (c : Z) : bool := (c =? 32) || ((9 <=? c) && (c <=? 13)).

Fixpoint skip_space (s : list Z) : list Z :=
  match s with
  | c :: s' => if is_space c then skip_space s' else s
  | [] => []
  end.

(** The digits after the first one: at most [n] more, while the number stays below [to]. *)
Fixpoint more_digits (n : nat) (to val : Z) (s : list Z) : Z * list Z :=
  match n, s with
  | Datatypes.S n, c :: s' => if (val * 10 <=? to) && (48 <=? c) && (c <=? 57) then more_digits n to (val * 10 + (c - 48)) s' else (val, s)
  | _, _ => (val, s)
  end.

Definition get_number (from to : Z) (n : nat) (s : list Z) : option (Z * list Z) :=
  match skip_space s with
  | c :: s =>
      if (c <? 48) || (57 <? c) then None
      else
        let '(val, s) := more_digits (pred n) to (c - 48) s in
        if (val <? from) || (to <? val) then None else Some (val, s)
  | [] => None
  end.

(** [strncasecmp(name, s, strlen(name)) == 0], and the rest. *)
Fixpoint match_name (name s : list Z) : option (list Z) :=
  match name, s with
  | [], _ => Some s
  | x :: name', y :: s' => if tolower x =? tolower y then match_name name' s' else None
  | _ :: _, [] => None
  end.

(** The index of the first name that matches, in full or abbreviated. *)
Fixpoint get_name (names : list (list Z)) (i : Z) (s : list Z) : option (Z * list Z) :=
  match names with
  | [] => None
  | name :: names' =>
      match match_name name s with
      | Some s' => Some (i, s')
      | None =>
          match match_name (take 3 name) s with
          | Some s' => Some (i, s')
          | None => get_name names' (i + 1) s
          end
      end
  end.

Definition convert (d : directive) (v : tm) (s : list Z) : option (tm * list Z) :=
  let '(Tm sec minute hour mday mon year wday) := v in
  match d with
  | Lit c => match s with c' :: s' => if c' =? c then Some (v, s') else None | [] => None end
  | Blank => Some (v, skip_space s)
  | Weekday => '(n, s) ← get_name weekdays 0 s; Some (Tm sec minute hour mday mon year n, s)
  | Month => '(n, s) ← get_name months 0 s; Some (Tm sec minute hour mday n year wday, s)
  | Mday => '(n, s) ← get_number 1 31 2 s; Some (Tm sec minute hour n mon year wday, s)
  | Year => '(n, s) ← get_number 0 9999 4 s; Some (Tm sec minute hour mday mon (n - 1900) wday, s)
  | Year2 => '(n, s) ← get_number 0 99 2 s; Some (Tm sec minute hour mday mon (if 69 <=? n then n else n + 100) wday, s)
  | Hour => '(n, s) ← get_number 0 23 2 s; Some (Tm sec minute n mday mon year wday, s)
  | Minute => '(n, s) ← get_number 0 59 2 s; Some (Tm sec n hour mday mon year wday, s)
  | Second => '(n, s) ← get_number 0 61 2 s; Some (Tm n minute hour mday mon year wday, s)
  end.

(** [None] for NULL. What follows the last directive is not looked at. *)
Fixpoint strptime (s : list Z) (fmt : list directive) (v : tm) : option tm :=
  match fmt with
  | [] => Some v
  | d :: fmt => '(v, s) ← convert d v s; strptime s fmt v
  end.

Definition zero_tm : tm := Tm 0 0 0 0 0 0 0.

(** The [len] bytes at [date]; -1 when they are no date. *)
Definition parse_http_date (date : list Z) : Z :=
  let len := zlen date in
  if len =? 0 then -1
  else if 64 <=? len then -1
  else
    let buf := cstr date in
    match strptime buf IMF_FORMAT zero_tm with
    | Some v => timegm v
    | None =>
        match strptime buf RFC850_FORMAT zero_tm with
        | Some v => timegm v
        | None =>
            match strptime buf ASCTIME_FORMAT zero_tm with
            | Some v => timegm v
            | None => -1
            end
        end
    end.

Example date_rfc : http_format_date 784111777 64 = Some (bs "Sun, 06 Nov 1994 08:49:37 GMT").
Proof. reflexivity. Qed.
Example date_imf : parse_http_date (bs "Sun, 06 Nov 1994 08:49:37 GMT") = 784111777.
Proof. reflexivity. Qed.
Example date_850 : parse_http_date (bs "Sunday, 06-Nov-94 08:49:37 GMT") = 784111777.
Proof. reflexivity. Qed.
Example date_asctime : parse_http_date (bs "Sun Nov  6 08:49:37 1994") = 784111777.
Proof. reflexivity. Qed.
Example date_none : parse_http_date (bs "yesterday") = -1.
Proof. reflexivity. Qed.
Example leap_day : http_format_date 951782400 64 = Some (bs "Tue, 29 Feb 2000 00:00:00 GMT").
Proof. reflexivity. Qed.

(** ** The calendar is its own inverse *)

(** The year of the era and the day of that year, counted from March. *)
Lemma era_bounds doe : 0 <= doe < 146097 →
  let yoe := (doe - doe / 1460 + doe / 36524 - doe / 146096) / 365 in
  0 <= yoe <= 399 ∧ 0 <= doe - (365 * yoe + yoe / 4 - yoe / 100) <= 365.
Proof. intros H. cbv zeta. Z.to_euclidean_division_equations; lia. Qed.

Lemma year_bounds doy : 0 <= doy <= 365 →
  let mp := (5 * doy + 2) / 153 in 0 <= mp <= 11 ∧ 1 <= doy - (153 * mp + 2) / 5 + 1 <= 31.
Proof. intros H. cbv zeta. Z.to_euclidean_division_equations; lia. Qed.

Lemma civil_inverse z y m d : civil_from_days z = (y, m, d) → days_from_civil y m 1 + d - 1 = z ∧ 1 <= m <= 12 ∧ 1 <= d <= 31.
Proof.
  unfold civil_from_days. set (w := z + 719468). set (doe := w mod 146097). set (yoe := (doe - _ + _ - _) / 365). set (doy := doe - _). set (mp := (5 * doy + 2) / 153).
  pose proof (Z.mod_pos_bound w 146097 ltac:(lia)) as Hd. destruct (era_bounds doe Hd) as [Hy Hdoy]. fold yoe doy in Hy, Hdoy. destruct (year_bounds doy Hdoy) as [Hm Hday]. fold mp in Hm, Hday.
  pose proof (Z.div_mod w 146097 ltac:(lia)) as Hw. fold doe in Hw. intros [= <- <- <-]. split; [|destruct (Z.ltb_spec mp 10); lia].
  unfold days_from_civil. set (m := if mp <? 10 then mp + 3 else mp - 9).
  assert ((if m <=? 2 then yoe + w / 146097 * 400 + (if m <=? 2 then 1 else 0) - 1 else yoe + w / 146097 * 400 + (if m <=? 2 then 1 else 0)) = yoe + w / 146097 * 400) as -> by (destruct (m <=? 2); lia).
  rewrite Z.div_add, Z_mod_plus_full, Z.div_small, Z.mod_small by lia.
  assert ((if 2 <? m then m - 3 else m + 9) = mp) as -> by (unfold m; destruct (Z.ltb_spec mp 10); [rewrite (proj2 (Z.ltb_lt _ _)) by lia; lia|rewrite (proj2 (Z.ltb_ge _ _)) by lia; lia]).
  unfold w in *. lia.
Qed.

(** The years 1970 to 9999. *)
Definition DATE_END : Z := 253402300800.

Lemma civil_year z y m d : civil_from_days z = (y, m, d) → 0 <= z < DATE_END / 86400 → 1970 <= y <= 9999.
Proof.
  unfold civil_from_days, DATE_END. set (w := z + 719468). set (doe := w mod 146097). set (yoe := (doe - _ + _ - _) / 365). set (doy := doe - _). set (mp := (5 * doy + 2) / 153).
  pose proof (Z.mod_pos_bound w 146097 ltac:(lia)) as Hd. destruct (era_bounds doe Hd) as [Hy Hdoy]. fold yoe doy in Hy, Hdoy. pose proof (Z.div_mod w 146097 ltac:(lia)) as Hw. fold doe in Hw.
  intros [= <- _ _] Hz. change (253402300800 / 86400) with 2932897 in Hz. clearbody doe. subst w doy mp. generalize dependent ((z + 719468) / 146097). intros era Hw.
  destruct (Z.ltb_spec ((5 * (doe - (365 * yoe + yoe / 4 - yoe / 100)) + 2) / 153) 10) as [Hm|Hm].
  all: match goal with |- context [if ?c then 1 else 0] => destruct c eqn:E; reflect_bools end.
  all: clearbody yoe; Z.to_euclidean_division_equations; lia.
Qed.

Lemma gmtime_ok t : 0 <= t < DATE_END → ∃ v, gmtime_r t = Some v ∧ timegm v = t ∧ 70 <= tm_year v <= 8099 ∧ 0 <= tm_mon v <= 11 ∧ 1 <= tm_mday v <= 31 ∧
  0 <= tm_hour v <= 23 ∧ 0 <= tm_min v <= 59 ∧ 0 <= tm_sec v <= 59 ∧ 0 <= tm_wday v <= 6.
Proof.
  intros Ht. unfold gmtime_r. destruct (civil_from_days (t / 86400)) as [[y m] d] eqn:E. destruct (civil_inverse _ _ _ _ E) as (Hi & Hm & Hd).
  assert (0 <= t / 86400 < DATE_END / 86400) as Hz by (unfold DATE_END in *; Z.to_euclidean_division_equations; lia). pose proof (civil_year _ _ _ _ E Hz) as Hy.
  rewrite !(proj2 (Z.leb_le _ _)) by lia. cbn [andb]. eexists. split; [done|]. unfold timegm. cbn [tm_sec tm_min tm_hour tm_mday tm_mon tm_year tm_wday].
  replace (y - 1900 + 1900) with y by lia. replace (m - 1 + 1) with m by lia. rewrite Hi. split_and!; try lia; Z.to_euclidean_division_equations; lia.
Qed.

(** ** What is written is read back *)

Lemma get_two from to n rest : from <= n <= to → 0 <= n → to <= 99 → get_number from to 2 (two n ++ rest) = Some (n, rest).
Proof.
  intros Hn H0 Hto. unfold two, get_number. assert (0 <= n / 10 <= 9 ∧ 0 <= n mod 10 <= 9 ∧ n / 10 * 10 + n mod 10 = n) as (H1 & H2 & H3) by (Z.to_euclidean_division_equations; lia).
  cbn [app skip_space]. assert (is_space (48 + n / 10) = false) as -> by (unfold is_space; destruct (Z.eqb_spec (48 + n / 10) 32), (Z.leb_spec 9 (48 + n / 10)), (Z.leb_spec (48 + n / 10) 13); lia || done).
  rewrite (proj2 (Z.ltb_ge (48 + n / 10) 48)), (proj2 (Z.ltb_ge 57 (48 + n / 10))) by lia. cbn [orb pred more_digits].
  replace (48 + n / 10 - 48) with (n / 10) by lia. replace (48 + n mod 10 - 48) with (n mod 10) by lia.
  rewrite !(proj2 (Z.leb_le _ _)) by lia. cbn [andb]. rewrite H3, (proj2 (Z.ltb_ge n from)), (proj2 (Z.ltb_ge to n)) by lia. done.
Qed.

Lemma year_text y : 1000 <= y <= 9999 → year_digits y = [48 + y / 1000; 48 + y / 100 mod 10; 48 + y / 10 mod 10; 48 + y mod 10].
Proof.
  intros Hy. unfold year_digits, print_zu. rewrite (proj2 (Z.ltb_ge y 0)) by lia. change 20%nat with (S (S (S (S 16)))). cbn [dec_digits].
  rewrite (proj2 (Z.ltb_ge y 10)) by lia. rewrite (proj2 (Z.ltb_ge (y / 10) 10)), (proj2 (Z.ltb_ge (y / 10 / 10) 10)), (proj2 (Z.ltb_lt (y / 10 / 10 / 10) 10)) by (Z.to_euclidean_division_equations; lia).
  rewrite !Z.div_div by lia. done.
Qed.

Lemma get_year y rest : 1000 <= y <= 9999 → get_number 0 9999 4 (year_digits y ++ rest) = Some (y, rest).
Proof.
  intros Hy. rewrite (year_text y Hy). set (a := y / 1000). set (b := y / 100 mod 10). set (c := y / 10 mod 10). set (d := y mod 10).
  assert (1 <= a <= 9 ∧ 0 <= b <= 9 ∧ 0 <= c <= 9 ∧ 0 <= d <= 9 ∧ a * 1000 + b * 100 + c * 10 + d = y) as (Ha & Hb & Hc & Hd & E) by (unfold a, b, c, d; Z.to_euclidean_division_equations; lia).
  clearbody a b c d. unfold get_number. cbn [app skip_space].
  assert (is_space (48 + a) = false) as -> by (unfold is_space; destruct (Z.eqb_spec (48 + a) 32), (Z.leb_spec 9 (48 + a)), (Z.leb_spec (48 + a) 13); lia || done).
  rewrite (proj2 (Z.ltb_ge (48 + a) 48)), (proj2 (Z.ltb_ge 57 (48 + a))) by lia. cbn [orb pred more_digits].
  rewrite !(proj2 (Z.leb_le _ _)) by lia. cbn [andb]. rewrite (proj2 (Z.ltb_ge _ 0)), (proj2 (Z.ltb_ge 9999 _)) by lia. cbn [orb]. do 2 f_equal. lia.
Qed.

Lemma get_weekday w rest : 0 <= w <= 6 → get_name weekdays 0 (abbreviated weekdays w ++ 44 :: rest) = Some (w, 44 :: rest).
Proof. intros Hw. assert (w = 0 ∨ w = 1 ∨ w = 2 ∨ w = 3 ∨ w = 4 ∨ w = 5 ∨ w = 6) as Hc by lia. by destruct_or! Hc; subst w. Qed.

Lemma get_month m rest : 0 <= m <= 11 → get_name months 0 (abbreviated months m ++ 32 :: rest) = Some (m, 32 :: rest).
Proof.
  intros Hm. assert (m = 0 ∨ m = 1 ∨ m = 2 ∨ m = 3 ∨ m = 4 ∨ m = 5 ∨ m = 6 ∨ m = 7 ∨ m = 8 ∨ m = 9 ∨ m = 10 ∨ m = 11) as Hc by lia.
  by destruct_or! Hc; subst m.
Qed.

(** White space before something that starts with none. *)
Lemma skip_one s : match s with c :: _ => is_space c = false | [] => True end → skip_space (32 :: s) = s.
Proof. intros H. cbn [skip_space]. change (is_space 32) with true. cbn iota. destruct s as [|c s]; [done|]. cbn [skip_space]. by rewrite H. Qed.

Lemma digit_no_space n : 0 <= n <= 9 → is_space (48 + n) = false.
Proof. intros Hn. unfold is_space. destruct (Z.eqb_spec (48 + n) 32), (Z.leb_spec 9 (48 + n)), (Z.leb_spec (48 + n) 13); lia || done. Qed.

Lemma skip_two n rest : 0 <= n <= 99 → skip_space (32 :: two n ++ rest) = two n ++ rest.
Proof. intros Hn. apply skip_one. cbn. apply digit_no_space. Z.to_euclidean_division_equations; lia. Qed.

Lemma skip_year y rest : 1000 <= y <= 9999 → skip_space (32 :: year_digits y ++ rest) = year_digits y ++ rest.
Proof. intros Hy. apply skip_one. rewrite (year_text y Hy). cbn. apply digit_no_space. Z.to_euclidean_division_equations; lia. Qed.

Lemma skip_month m rest : 0 <= m <= 11 → skip_space (32 :: abbreviated months m ++ rest) = abbreviated months m ++ rest.
Proof.
  intros Hm. assert (m = 0 ∨ m = 1 ∨ m = 2 ∨ m = 3 ∨ m = 4 ∨ m = 5 ∨ m = 6 ∨ m = 7 ∨ m = 8 ∨ m = 9 ∨ m = 10 ∨ m = 11) as Hc by lia.
  by destruct_or! Hc; subst m.
Qed.

Ltac next_directive := cbn [mbind option_bind convert].

Lemma strptime_strftime v :
  70 <= tm_year v <= 8099 → 0 <= tm_mon v <= 11 → 1 <= tm_mday v <= 31 → 0 <= tm_hour v <= 23 → 0 <= tm_min v <= 59 → 0 <= tm_sec v <= 59 → 0 <= tm_wday v <= 6 →
  strptime (strftime_http v) IMF_FORMAT zero_tm = Some v.
Proof.
  destruct v as [sec minute hour mday mon year wday]. cbn [tm_sec tm_min tm_hour tm_mday tm_mon tm_year tm_wday]. intros Hy Hm Hd Hh Hmi Hs Hw.
  unfold strftime_http, IMF_FORMAT, clock_format, lits, zero_tm. cbn [tm_sec tm_min tm_hour tm_mday tm_mon tm_year tm_wday].
  change (bs ", ") with [44; 32]. change (bs " ") with [32]. change (bs ":") with [58]. change (bs " GMT") with [32; 71; 77; 84]. change (bs "GMT") with [71; 77; 84].
  cbn [app map strptime]. next_directive. rewrite get_weekday by lia. next_directive. rewrite Z.eqb_refl. next_directive.
  rewrite skip_two by lia. rewrite get_two by lia. next_directive. rewrite skip_month by lia. rewrite get_month by lia. next_directive.
  rewrite skip_year by lia. rewrite get_year by lia. next_directive. replace (year + 1900 - 1900) with year by lia. rewrite skip_two by lia. rewrite get_two by lia. next_directive.
  rewrite Z.eqb_refl. next_directive. rewrite get_two by lia. next_directive. rewrite Z.eqb_refl. next_directive. rewrite get_two by lia. reflexivity.
Qed.

(** The text of a time: 29 characters, none of them a zero. *)
Lemma date_text v : 70 <= tm_year v <= 8099 → 0 <= tm_mon v <= 11 → 0 <= tm_wday v <= 6 → 1 <= tm_mday v <= 31 → 0 <= tm_hour v <= 23 → 0 <= tm_min v <= 59 → 0 <= tm_sec v <= 59 →
  zlen (strftime_http v) = 29 ∧ cstring (strftime_http v).
Proof.
  intros Hy Hm Hw Hd Hh Hmi Hs. assert (∀ n, 0 <= n <= 99 → cstring (two n)) as Htwo by (intros n Hn; repeat constructor; Z.to_euclidean_division_equations; lia).
  assert (zlen (abbreviated weekdays (tm_wday v)) = 3 ∧ cstring (abbreviated weekdays (tm_wday v))) as [W1 W2].
  { generalize dependent (tm_wday v). intros w Hw. assert (w = 0 ∨ w = 1 ∨ w = 2 ∨ w = 3 ∨ w = 4 ∨ w = 5 ∨ w = 6) as Hc by lia. destruct_or! Hc; subst w; (split; [done|]); repeat constructor. }
  assert (zlen (abbreviated months (tm_mon v)) = 3 ∧ cstring (abbreviated months (tm_mon v))) as [M1 M2].
  { generalize dependent (tm_mon v). intros m Hm. assert (m = 0 ∨ m = 1 ∨ m = 2 ∨ m = 3 ∨ m = 4 ∨ m = 5 ∨ m = 6 ∨ m = 7 ∨ m = 8 ∨ m = 9 ∨ m = 10 ∨ m = 11) as Hc by lia. destruct_or! Hc; subst m; (split; [done|]); repeat constructor. }
  unfold strftime_http. rewrite (year_text (tm_year v + 1900)) by lia. split; [autorewrite with zlen; rewrite W1, M1; reflexivity|]. unfold cstring in *.
  rewrite !Forall_app. split_and!; try done; try (apply Htwo; lia); repeat constructor; Z.to_euclidean_division_equations; lia.
Qed.

(** A time of the years 1970 to 9999 is written as 29 characters, which are read back as that time. *)
Lemma format_parse t : 0 <= t < DATE_END → ∃ text, http_format_date t 64 = Some text ∧ zlen text = 29 ∧ cstring text ∧ parse_http_date text = t.
Proof.
  intros Ht. destruct (gmtime_ok t Ht) as (v & E & Ev & Hy & Hm & Hd & Hh & Hmi & Hs & Hw). destruct (date_text v) as [Hl Hc]; try done.
  exists (strftime_http v). unfold http_format_date. change (64 =? 0) with false. cbn iota. rewrite E. cbn [mbind option_bind]. rewrite Hl. change (64 <=? 29) with false. split; [done|].
  split; [done|]. split; [done|]. unfold parse_http_date. rewrite Hl, (cstr_cstring _ Hc), strptime_strftime by done. exact Ev.
Qed.

(** C34: HTTP dates round-trip: every time of the years 1970 to 9999 is written as 29 characters without a zero, which fit the callers'
    buffers, and reading them back, with the first of the three formats, gives that time. *)
Theorem http_date_roundtrip (t : Z) : 0 <= t < DATE_END →
  ∃ text, http_format_date t 64 = Some text ∧ zlen text = 29 ∧ cstring text ∧ parse_http_date text = t.
Proof. apply format_parse. Qed.

Lemma http_date_roundtrip_witness : ∃ text, http_format_date 951868799 64 = Some text ∧ zlen text = 29 ∧ cstring text ∧ parse_http_date text = 951868799.
Proof. apply (http_date_roundtrip 951868799). unfold DATE_END. lia. Defined.
