(* ===== verification/NotModified.v ===== *)
(** The not-modified filter ([filters/http_not_modified_filter.c]): validators for files, and 304 for a conditional request whose
    validators still hold. *)

From S2P Require Import Prelude Helpers QueryParser TokenBuffer RequestParser Bufo WriteFilter ChunkedFilter HttpResponse DataFilter HttpDate.

(** ** The model *)

Record http_module_not_modified : Set := NotModifiedModule { nm_cont : bool; nm_done : bool }.

Definition not_modified_create : http_module_not_modified := NotModifiedModule false false.
Definition not_modified_reset (m : http_module_not_modified) : http_module_not_modified := NotModifiedModule false false.

(** The value of the request's first header of that name. *)
Definition httprequest_header (q : httprequest) (name : list Z) : option (list Z) :=
  RequestParser.h_value <$> List.find (λ h, cmpstrn_lower (RequestParser.h_key h) name) (headers q).

(** *** Entity tags *)

Definition etag_blank (c : Z) : bool := (c =? 32) || (c =? 9).

(** [while (pos < end && ( *pos == ' ' || *pos == '\t' || *pos == ',')) pos++] *)
Fixpoint skip_separators (s : list Z) : list Z :=
  match s with
  | c :: s' => if etag_blank c || (c =? 44) then skip_separators s' else s
  | [] => []
  end.

(** What is before the next comma, and the rest from it on. *)
Fixpoint to_comma (s : list Z) : list Z * list Z :=
  match s with
  | c :: s' => if c =? 44 then ([], s) else let '(a, b) := to_comma s' in (c :: a, b)
  | [] => ([], [])
  end.

(** [current_etag_len] going down over trailing blanks; [s] is the item backwards. *)
Fixpoint drop_blanks (s : list Z) : list Z :=
  match s with
  | c :: s' => if etag_blank c then drop_blanks s' else s
  | [] => []
  end.
Definition trim_right (s : list Z) : list Z := rev (drop_blanks (rev s)).

(** [strncmp] on two strings of [n] bytes gives 0. *)
Fixpoint strncmp_equal (a b : list Z) : bool :=
  match a, b with
  | x :: a', y :: b' => if negb (x =? y) then false else if x =? 0 then true else strncmp_equal a' b'
  | _, _ => true
  end.

(** Every turn takes at least a byte. *)
Fixpoint etag_loop (fuel : nat) (s etag : list Z) : option bool :=
  match fuel with
  | O => None
  | S f =>
      match skip_separators s with
      | [] => Some false
      | s =>
          let '(item, rest) := to_comma s in
          let item := trim_right item in
          if (zlen item =? zlen etag) && strncmp_equal item etag then Some true else etag_loop f rest etag
      end
  end.

Definition etag_matches (if_none_match etag : list Z) : option bool :=
  if bool_decide (if_none_match = [42]) then Some true else etag_loop (S (length if_none_match)) if_none_match etag.

(** ["W/\"%lx-%lx\""]; [None] for -1. *)
Definition generate_etag (mtime size etag_buf_size : Z) : option (list Z) :=
  let text := bs "W/" ++ [34] ++ print_zx (wrap64 mtime) ++ [45] ++ print_zx (wrap64 size) ++ [34] in
  if etag_buf_size <=? zlen text then None else Some text.

(** *** The decision *)

(** The value of a header as a pointer and a length. *)
Definition header_value (h : http_header) : option (list Z) := mem_read (WriteFilter.value h) 0 (WriteFilter.value_length h).

Definition check_not_modified (request : option httprequest) (r : httpresponse) : option bool :=
  match request with
  | None => Some false
  | Some q =>
      if negb (bool_decide (method q = ROUTE_GET) || bool_decide (method q = ROUTE_HEAD)) then Some false
      else
        match httprequest_header q (bs "If-None-Match"), httpresponse_header_get r (bs "ETag") with
        | Some if_none_match, Some etag_header =>
            etag ← header_value etag_header;
            etag_matches if_none_match etag
        | _, _ =>
            match httprequest_header q (bs "If-Modified-Since"), httpresponse_header_get r (bs "Last-Modified") with
            | Some if_modified_since, Some last_modified_header =>
                last_modified ← header_value last_modified_header;
                let req_time := parse_http_date if_modified_since in
                let res_time := parse_http_date last_modified in
                Some (negb (req_time =? -1) && negb (res_time =? -1) && (res_time <=? req_time))
            | _, _ => Some false
            end
        end
  end.

(** *** The header handler *)

Section Handler.
Variable alloc : Z → bool.
Variable gzip_types : list (list Z).

(** [response->add_header] whose answer is not looked at. *)
Definition try_add_header (r : httpresponse) (name : list Z) (value : option (list Z)) : option httpresponse :=
  match value with
  | None => Some r
  | Some v => '(_, r) ← httpresponse_header_add alloc gzip_types r name v; Some r
  end.

Definition add_validators (r : httpresponse) : option httpresponse :=
  if f_open (rs_file r) && (0 <? f_mtime (rs_file r)) then
    r ← try_add_header r (bs "Last-Modified") (http_format_date (f_mtime (rs_file r)) 64);
    try_add_header r (bs "ETag") (generate_etag (f_mtime (rs_file r)) (f_size (rs_file r)) 64)
  else Some r.

(** The response turned into a 304. *)
Definition set_not_modified (r : httpresponse) : httpresponse :=
  let r := with_status r 304 in
  let r := (httpresponse_header_remove r (bs "Content-Length")).2 in
  let r := (httpresponse_header_remove r (bs "Transfer-Encoding")).2 in
  let r := (httpresponse_header_remove r (bs "Content-Encoding")).2 in
  Rsp (rs_status_code r) (rs_header r) 0 CE_NONE TE_NONE (rs_range r) true (rs_body r) (rs_file r).

Context {S : Type}.

Definition http_not_modified_header `{HeadSink S} (request : option httprequest) (m : http_module_not_modified) (r : httpresponse) (s : S)
    : option (Z * (http_module_not_modified * S) * httpresponse) :=
  r ←
    (if nm_cont m then Some r
     else
       r ← add_validators r;
       not_modified ← check_not_modified request r;
       Some (if not_modified : bool then set_not_modified r else r));
  '(c, s, r) ← next_header s r;
  Some (c, (NotModifiedModule (c =? CWF_EVENT_AGAIN) (nm_done m), s), r).

Definition http_not_modified_body `{BodySink S} (ms : http_module_not_modified * S) (parent_buf : bufo) : option (Z * (http_module_not_modified * S) * bufo) :=
  '(c, s, b) ← next_body ms.2 parent_buf; Some (c, (ms.1, s), b).
End Handler.

(** ** Entity tags: the list is searched exactly *)

(** Without the blanks on both sides. *)
Definition strip (s : list Z) : list Z := trim_right (drop_blanks s).

Definition listed (items : list (list Z)) (etag : list Z) : bool := existsb (λ item, bool_decide (strip item = etag)) items.

Lemma split_cur sep l : ∀ cur, split_on_aux sep cur l = match split_on sep l with x :: xs => (cur ++ x) :: xs | [] => [] end.
Proof.
  unfold split_on. induction l as [|c l IH]; intros cur; cbn [split_on_aux]; [by rewrite app_nil_r|]. destruct (c =? sep); [by rewrite app_nil_r|].
  rewrite (IH (cur ++ [c])), (IH ([] ++ [c])). destruct (split_on_aux sep [] l) as [|x xs]; [done|]. by rewrite <- app_assoc.
Qed.

Lemma split_comma l : split_on 44 (44 :: l) = [] :: split_on 44 l.
Proof. done. Qed.

Lemma split_other c l : c ≠ 44 → ∃ x xs, split_on 44 l = x :: xs ∧ split_on 44 (c :: l) = (c :: x) :: xs.
Proof.
  intros Hc. unfold split_on at 2. cbn [split_on_aux]. destruct (Z.eqb_spec c 44); [done|]. rewrite split_cur. destruct (split_on 44 l) as [|x xs] eqn:E; [|by exists x, xs].
  exfalso. clear -E. unfold split_on in E. revert E. generalize (@nil Z). induction l as [|d l IH]; intros cur; cbn [split_on_aux]; [done|]. destruct (d =? 44); [done|apply IH].
Qed.

Lemma listed_skip s etag : etag ≠ [] → listed (split_on 44 (skip_separators s)) etag = listed (split_on 44 s) etag.
Proof.
  intros Hne. induction s as [|c s IH]; [done|]. cbn [skip_separators]. destruct (Z.eqb_spec c 44) as [->|Hc].
  - rewrite orb_true_r, IH, split_comma. unfold listed. cbn [existsb]. rewrite bool_decide_false; [done|]. unfold strip, trim_right. cbn. congruence.
  - rewrite orb_false_r. destruct (etag_blank c) eqn:Eb; [|done]. rewrite IH. destruct (split_other c s Hc) as (x & xs & -> & ->). unfold listed. cbn [existsb].
    unfold strip. cbn [drop_blanks]. by rewrite Eb.
Qed.

Lemma to_comma_split s : let '(item, rest) := to_comma s in
  split_on 44 s = item :: match rest with [] => [] | _ :: rest' => split_on 44 rest' end ∧ (length rest <= length s)%nat ∧ match rest with [] => True | c :: _ => c = 44 end.
Proof.
  induction s as [|c s IH]; [done|]. cbn [to_comma]. destruct (Z.eqb_spec c 44) as [->|Hc]; [by rewrite split_comma|]. destruct (to_comma s) as [a b]. destruct IH as (IH1 & IH2 & IH3).
  destruct (split_other c s Hc) as (x & xs & E1 & ->). rewrite IH1 in E1. injection E1 as <- <-. split; [done|]. cbn [length]. split; [lia|done].
Qed.

Lemma skip_head s : match skip_separators s with [] => True | c :: _ => etag_blank c = false ∧ c ≠ 44 end.
Proof. induction s as [|c s IH]; [done|]. cbn [skip_separators]. destruct (etag_blank c) eqn:E; [done|]. cbn [orb]. destruct (Z.eqb_spec c 44); done. Qed.

Lemma skip_length s : (length (skip_separators s) <= length s)%nat.
Proof. induction s as [|c s IH]; [done|]. cbn [skip_separators]. destruct (_ || _); cbn [length]; lia. Qed.

Lemma strncmp_exact a b : Forall (λ c, c ≠ 0) b → zlen a = zlen b → strncmp_equal a b = bool_decide (a = b).
Proof.
  intros Hb. revert a. induction Hb as [|y b Hy _ IH]; intros a Hl; [by rewrite (zlen_0_nil a Hl)|]. destruct a as [|x a]; [rewrite zlen_cons in Hl; change (zlen []) with 0 in Hl; pose proof (zlen_nonneg b); lia|].
  rewrite !zlen_cons in Hl. cbn [strncmp_equal]. destruct (Z.eqb_spec x y) as [->|Hne]; cbn [negb]; [|rewrite bool_decide_false; [done|congruence]].
  destruct (Z.eqb_spec y 0); [done|]. rewrite IH by lia. apply bool_decide_ext. split; congruence.
Qed.

Lemma item_equal item etag : Forall (λ c, c ≠ 0) etag → (zlen item =? zlen etag) && strncmp_equal item etag = bool_decide (item = etag).
Proof.
  intros Hz. destruct (Z.eqb_spec (zlen item) (zlen etag)) as [E|E]; cbn [andb]; [by apply strncmp_exact|]. rewrite bool_decide_false; [done|congruence].
Qed.

Lemma etag_loop_exact etag : Forall (λ c, c ≠ 0) etag → etag ≠ [] → ∀ fuel s, (length s < fuel)%nat → etag_loop fuel s etag = Some (listed (split_on 44 s) etag).
Proof.
  intros Hz Hne. induction fuel as [|f IH]; intros s Hs; [lia|]. cbn [etag_loop]. rewrite <- (listed_skip s etag Hne). pose proof (skip_head s) as Hh. pose proof (skip_length s) as Hl.
  destruct (skip_separators s) as [|c s'].
  - unfold listed. cbn. rewrite bool_decide_false; [done|congruence].
  - destruct Hh as [Hb Hc]. pose proof (to_comma_split (c :: s')) as Hsp. cbn [to_comma] in *. destruct (Z.eqb_spec c 44); [done|]. destruct (to_comma s') as [item rest] eqn:E. destruct Hsp as (-> & Hle & Hcomma).
    rewrite item_equal by done. assert (length rest <= length s')%nat as Hlt by (pose proof (to_comma_split s') as H; rewrite E in H; apply H).
    unfold listed. cbn [existsb]. fold (listed match rest with [] => [] | _ :: rest' => split_on 44 rest' end etag).
    assert (strip (c :: item) = trim_right (c :: item)) as -> by (unfold strip; cbn [drop_blanks]; by rewrite Hb). destruct (bool_decide _); [done|]. cbn [orb]. cbn [length] in Hl.
    destruct rest as [|d rest]; [|subst d]; rewrite IH by (cbn [length] in *; lia); [unfold listed; cbn; rewrite bool_decide_false; [done|congruence]|].
    rewrite split_comma. unfold listed. cbn [existsb]. rewrite bool_decide_false; [done|]. unfold strip, trim_right. cbn. congruence.
Qed.

Lemma etag_matches_spec s etag : Forall (λ c, c ≠ 0) etag → etag ≠ [] → etag_matches s etag = Some (bool_decide (s = [42]) || listed (split_on 44 s) etag).
Proof. intros Hz Hne. unfold etag_matches. destruct (bool_decide (s = [42])); [done|]. apply etag_loop_exact; [done|done|lia]. Qed.

(** ** The generated tag *)

Definition unhex (c : Z) : Z := if c <? 58 then c - 48 else c - 87.
Definition hex_value (l : list Z) : Z := foldl (λ a c, a * 16 + unhex c) 0 l.

Lemma unhex_digit d : 0 <= d < 16 → unhex (hex_digit d) = d.
Proof. intros Hd. unfold unhex, hex_digit. destruct (Z.ltb_spec d 10); [rewrite (proj2 (Z.ltb_lt _ _)) by lia; lia|rewrite (proj2 (Z.ltb_ge _ _)) by lia; lia]. Qed.

Lemma hex_digits_value fuel : ∀ n, 0 <= n < 16 ^ Z.of_nat fuel → hex_value (hex_digits fuel n) = n.
Proof.
  induction fuel as [|f IH]; intros n Hn; [change (16 ^ Z.of_nat 0) with 1 in Hn; assert (n = 0) as -> by lia; done|].
  cbn [hex_digits]. destruct (Z.ltb_spec n 16); [unfold hex_value; cbn [foldl]; rewrite unhex_digit; lia|].
  unfold hex_value. rewrite foldl_snoc. fold (hex_value (hex_digits f (n / 16))). rewrite IH, unhex_digit by (rewrite Nat2Z.inj_succ, Z.pow_succ_r in Hn by lia; Z.to_euclidean_division_equations; lia).
  pose proof (Z.div_mod n 16 ltac:(lia)); lia.
Qed.

(** A character of a tag: neither zero nor a separator. *)
Definition tag_char (c : Z) : Prop := 32 < c < 128 ∧ c ≠ 44.

Lemma hex_digits_chars fuel : ∀ n, 0 <= n → Forall (λ c, tag_char c ∧ c ≠ 45) (hex_digits fuel n).
Proof.
  assert (∀ d, 0 <= d < 16 → tag_char (hex_digit d) ∧ hex_digit d ≠ 45) as Hd by (intros d Hd; unfold tag_char, hex_digit; destruct (Z.ltb_spec d 10); lia).
  induction fuel as [|f IH]; intros n Hn; cbn [hex_digits]; [done|]. destruct (Z.ltb_spec n 16); [constructor; [apply Hd; lia|done]|].
  apply Forall_app. split; [apply IH, Z.div_pos; lia|]. constructor; [|done]. apply Hd. apply Z.mod_pos_bound. lia.
Qed.

Definition etag_text (mtime size : Z) : list Z := bs "W/" ++ [34] ++ print_zx (wrap64 mtime) ++ [45] ++ print_zx (wrap64 size) ++ [34].

Lemma wrap64_range n : 0 <= wrap64 n < 2 ^ 64.
Proof. apply Z.mod_pos_bound. lia. Qed.

Lemma etag_text_chars mtime size : Forall tag_char (etag_text mtime size).
Proof.
  assert (∀ n, Forall tag_char (print_zx (wrap64 n))) as Hx by (intros n; eapply Forall_impl; [apply hex_digits_chars, wrap64_range|]; by intros ? [? ?]).
  unfold etag_text. rewrite !Forall_app. split_and!; try apply Hx; repeat constructor; done.
Qed.

Lemma etag_text_length mtime size : zlen (etag_text mtime size) <= 37.
Proof.
  unfold etag_text, print_zx. autorewrite with zlen. pose proof (zlen_zx 16 (wrap64 mtime)). pose proof (zlen_zx 16 (wrap64 size)). change (zlen (bs "W/")) with 2. lia.
Qed.

Lemma generate_etag_ok mtime size : generate_etag mtime size 64 = Some (etag_text mtime size).
Proof. unfold generate_etag. fold (etag_text mtime size). pose proof (etag_text_length mtime size). rewrite (proj2 (Z.leb_gt _ _)) by lia. done. Qed.

Lemma sep_inj (sep : Z) (a a' b b' : list Z) : Forall (λ c, c ≠ sep) a → Forall (λ c, c ≠ sep) a' → a ++ sep :: b = a' ++ sep :: b' → a = a' ∧ b = b'.
Proof.
  intros Ha. revert a'. induction Ha as [|x a Hx _ IH]; intros a' Ha'.
  - destruct Ha' as [|y a' Hy Ha']; [by intros [= <-]|intros [= <- E2]; done].
  - destruct Ha' as [|y a' Hy Ha']; [by intros [= -> _]|intros [= E1 E2]]. destruct (IH a' Ha' E2) as [-> ->]. by subst.
Qed.

Lemma print_zx_inj n m : 0 <= n < 2 ^ 64 → 0 <= m < 2 ^ 64 → print_zx n = print_zx m → n = m.
Proof. intros Hn Hm E. apply (f_equal hex_value) in E. unfold print_zx in E. by rewrite !hex_digits_value in E by (change (16 ^ Z.of_nat 16) with (2 ^ 64); lia). Qed.

(** Another time or another size gives another tag. *)
Lemma etag_text_inj t s t' s' : 0 <= t < 2 ^ 64 → 0 <= s < 2 ^ 64 → 0 <= t' < 2 ^ 64 → 0 <= s' < 2 ^ 64 → etag_text t s = etag_text t' s' → t = t' ∧ s = s'.
Proof.
  intros Ht Hs Ht' Hs' E. unfold etag_text in E. apply app_inv_head in E. cbn [app] in E. injection E as E.
  assert (∀ n, Forall (λ c, c ≠ 45) (print_zx (wrap64 n))) as Hx by (intros n; eapply Forall_impl; [apply hex_digits_chars, wrap64_range|]; by intros ? [? ?]).
  apply sep_inj in E as [E1 E2]; [|apply Hx|apply Hx]. apply app_inv_tail in E2. apply print_zx_inj in E1; [|apply wrap64_range..]. apply print_zx_inj in E2; [|apply wrap64_range..].
  unfold wrap64 in *. by rewrite !Z.mod_small in E1, E2 by lia.
Qed.

Lemma tag_no_blanks s : Forall tag_char s → strip s = s.
Proof.
  intros Hs. assert (∀ l, Forall tag_char l → drop_blanks l = l) as Hd.
  { intros l [|c l' [Hc _] _]; [done|]. cbn [drop_blanks]. unfold etag_blank. destruct (Z.eqb_spec c 32); [lia|]. destruct (Z.eqb_spec c 9); [lia|done]. }
  unfold strip, trim_right. rewrite (Hd s Hs), (Hd (rev s)) by (by apply Forall_rev). apply rev_involutive.
Qed.

Lemma split_no_comma s : Forall tag_char s → split_on 44 s = [s].
Proof.
  induction 1 as [|c s [_ Hc] _ IH]; [done|]. destruct (split_other c s Hc) as (x & xs & E & ->). rewrite IH in E. by injection E as <- <-.
Qed.
