(* ===== verification/GzipFilter.v ===== *)
(** The gzip filter ([filters/http_gzip_filter.c]) with the compressing half of [misc/gzip.c].

    zlib is outside the program: [Zlib] is its deflate stream. [deflate_step] is a call of [deflate] with the bytes at [next_in], the
    room at [next_out] and whether it is to finish; it gives the status, the bytes written, the input left and the stream. *)

From S2P Require Import Prelude Helpers QueryParser Bufo WriteFilter ChunkedFilter HttpResponse BodyChain DataFilter.

Class Zlib (Zs : Set) : Set := {
  deflate_init : option Zs;
  deflate_step : Zs → list Z → Z → bool → Z * list Z * list Z * Zs }.

Definition Z_OK : Z := 0.
Definition Z_STREAM_END : Z := 1.
Definition Z_STREAM_ERROR : Z := -2.

(** ** The model *)

Section Gzip.
Context {Zs : Set} `{Zlib Zs}.

(** [gz_stream] is [None] until [deflateInit2] succeeded and after [deflateEnd]; [gz_deflate_init] is -1 when there is nothing to end. *)
Record gzip : Set := Gzip {
  gz_stream : option Zs;
  gz_in : list Z;
  gz_avail_out : Z;
  gz_status : Z;
  gz_deflate_init : Z }.

Definition gzip_init : gzip := Gzip None [] 0 Z_OK (-1).

Definition gzip_deflate_free (g : gzip) : gzip := Gzip None (gz_in g) (gz_avail_out g) (gz_status g) (-1).

(** A stream here is never an inflating one. *)
Definition gzip_free (g : gzip) : gzip := if gz_deflate_init g =? 0 then gzip_deflate_free g else g.

Definition gzip_deflate_init (g : gzip) : bool * gzip :=
  match deflate_init with
  | Some z => (true, Gzip (Some z) (gz_in g) (gz_avail_out g) (gz_status g) 0)
  | None => (false, Gzip None (gz_in g) (gz_avail_out g) (gz_status g) 0)
  end.

(** The bytes written. Without a stream [deflate] answers [Z_STREAM_ERROR] and touches nothing. *)
Definition gzip_deflate (g : gzip) (compress_length : Z) (end_ : bool) : list Z * gzip :=
  let avail := wrap32 compress_length in
  match gz_stream g with
  | None => ([], Gzip None (gz_in g) avail Z_STREAM_ERROR (gz_deflate_init g))
  | Some z =>
      let '(status, out, rest, z) := deflate_step z (gz_in g) avail end_ in
      (out, Gzip (Some z) rest (avail - zlen out) status (gz_deflate_init g))
  end.

Definition gzip_set_in (g : gzip) (data : list Z) : gzip :=
  Gzip (gz_stream g) (take (Z.to_nat (wrap32 (zlen data))) data) (gz_avail_out g) (gz_status g) (gz_deflate_init g).

Definition gzip_deflate_has_error (g : gzip) : bool := gz_status g <? 0.
Definition gzip_is_end (g : gzip) : bool := gz_status g =? Z_STREAM_END.
Definition gzip_want_continue (g : gzip) : bool := gz_avail_out g =? 0.

Record http_module_gzip : Set := GzipModule {
  gm_cont : bool;
  gm_done : bool;
  gm_buf : bufo;
  gm_gzip : gzip }.

Definition gzip_create : http_module_gzip := GzipModule false false (Bufo None 0 0 0 false false) gzip_init.
Definition gzip_reset (m : http_module_gzip) : http_module_gzip := GzipModule false false (bufo_flush (gm_buf m)) (gzip_free (gm_gzip m)).

(** [content_encoding == CE_NONE || data_size < 1024], or [last_modified]. *)
Definition gzip_passes (r : httpresponse) : bool :=
  bool_decide (rs_content_encoding r = CE_NONE) || (data_size r <? 1024) || rs_last_modified r.

(** The module and the buffer it was offered. *)
Record gzip_state : Set := GzipState { gs_module : http_module_gzip; gs_parent : bufo }.

(** [None] is a write outside the buffer, or a NULL one. *)
Definition gzip_process (st : gzip_state) : option (bool * gzip_state) :=
  let m := gs_module st in
  let parent := gs_parent st in
  let buf := bufo_reset_size (bufo_reset_pos (gm_buf m)) in
  let '(out, g) := gzip_deflate (gm_gzip m) (buf_capacity buf) (buf_is_last parent) in
  d ← (match buf_data buf with
       | None => match out with [] => Some None | _ => None end
       | Some d => d ← mem_write d 0 out; Some (Some d)
       end);
  let buf := Bufo d (buf_capacity buf) (buf_size buf) (buf_pos buf) (buf_is_proxy buf) (buf_is_last buf) in
  if gzip_deflate_has_error g then Some (false, GzipState (GzipModule (gm_cont m) (gm_done m) buf g) parent)
  else
    let processed := wrap64 (wrap64 (buf_size parent - buf_pos parent) - zlen (gz_in g)) in
    let buf := bufo_set_size buf (zlen out) in
    let '(_, parent) := bufo_move_front_pos parent processed in
    let buf :=
      if gzip_want_continue g && negb (gzip_is_end g) then buf
      else Bufo (buf_data buf) (buf_capacity buf) (buf_size buf) (buf_pos buf) (buf_is_proxy buf) (buf_is_last parent) in
    Some (true, GzipState (GzipModule (gm_cont m) (gm_done m) buf g) parent).

(** A turn of the loop, as a producer: [bufo_reset_pos] after the work, and what is tested when the filters below took the buffer. *)
Definition gzip_fetch (st : gzip_state) : option (option Z * gzip_state) :=
  '(ok, st) ← gzip_process st;
  let m := gs_module st in
  if negb ok then Some (Some CWF_ERROR, st)
  else Some (None, GzipState (GzipModule (gm_cont m) (gm_done m) (bufo_reset_pos (gm_buf m)) (gm_gzip m)) (gs_parent st)).

Definition gzip_after (st : gzip_state) : option Z :=
  let g := gm_gzip (gs_module st) in
  if gzip_want_continue g && negb (gzip_is_end g) then None
  else if buf_pos (gs_parent st) <? buf_size (gs_parent st) then None
  else Some CWF_DATA_AGAIN.

(** [turns] bounds the calls of [deflate] for one buffer. *)
Definition gzip_turn (turns : nat) : Type := gzip_state.
#[global] Typeclasses Opaque gzip_turn.

#[export] Instance gzip_pump turns : Producer (gzip_turn turns) := {
  pr_cont st := gm_cont (gs_module st);
  pr_set_cont st c := GzipState (GzipModule c (gm_done (gs_module st)) (gm_buf (gs_module st)) (gm_gzip (gs_module st))) (gs_parent st);
  pr_buf st := Some (gm_buf (gs_module st));
  pr_put st b := GzipState (GzipModule (gm_cont (gs_module st)) (gm_done (gs_module st)) b (gm_gzip (gs_module st))) (gs_parent st);
  pr_fetch := gzip_fetch;
  pr_after := gzip_after;
  pr_fuel _ := turns }.

Section Handlers.
Variable alloc : Z → bool.
Variable junk : Z.
Variable gzip_types : list (list Z).
Variable turns : nat.
Context {S : Type}.

Definition gzip_header `{HeadSink S} (m : http_module_gzip) (r : httpresponse) (s : S) : option (Z * (http_module_gzip * S) * httpresponse) :=
  if gzip_passes r then
    '(c, s, r) ← next_header s r; Some (c, (m, s), r)
  else
    let cont m r :=
      '(c, s, r) ← next_header s r;
      Some (c, (GzipModule (c =? CWF_EVENT_AGAIN) (gm_done m) (gm_buf m) (gm_gzip m), s), r) in
    if gm_cont m then cont m r
    else
      '(ok, r) ← (match httpresponse_header_get r (bs "Content-Encoding") with
                  | None => httpresponse_header_add alloc gzip_types r (bs "Content-Encoding") (bs "gzip")
                  | Some _ => Some (true, r)
                  end);
      if negb ok then Some (CWF_ERROR, (m, s), r)
      else
        let r := (httpresponse_header_remove r (bs "Content-Length")).2 in
        let r := with_encodings r (rs_content_encoding r) TE_CHUNKED in
        let '(ok, buf) := bufo_alloc alloc junk (gm_buf m) BUF_SIZE in
        let m := GzipModule (gm_cont m) (gm_done m) buf (gm_gzip m) in
        if negb ok then Some (CWF_ERROR, (m, s), r)
        else
          let '(ok, g) := gzip_deflate_init (gm_gzip m) in
          let m := GzipModule (gm_cont m) (gm_done m) (gm_buf m) g in
          if negb ok then Some (CWF_ERROR, (m, s), r) else cont m r.

(** The loop of the body handler, entered at the label [cont] when [resumed]. *)
Definition gzip_loop `{BodySink S} (resumed : bool) (st : gzip_state) (s : S) : option (Z * gzip_state * S) := pump (P := gzip_turn turns) turns resumed st s.

(** [passes] is [gzip_passes] of the response. *)
Definition gzip_body `{BodySink S} (passes : bool) (ms : http_module_gzip * S) (parent_buf : bufo) : option (Z * (http_module_gzip * S) * bufo) :=
  if passes then
    '(c, s, b) ← next_body ms.2 parent_buf; Some (c, (ms.1, s), b)
  else
    let m := ms.1 in
    let m :=
      if gm_cont m then m
      else GzipModule (gm_cont m) (gm_done m) (bufo_reset_pos (gm_buf m)) (gzip_set_in (gm_gzip m) (unread parent_buf)) in
    '(c, st, s) ← gzip_loop (gm_cont m) (GzipState m parent_buf) ms.2;
    Some (c, (gs_module st, s), gs_parent st).
End Handlers.
End Gzip.
Arguments gzip : clear implicits.
Arguments http_module_gzip : clear implicits.
Arguments gzip_state : clear implicits.
