(* ===== verification/FilterChain.v ===== *)
(** The chain of filters ([filters/http_filter.c]: not-modified, range, data, gzip, chunked, write) and the write handler of the
    server that runs a response through it ([httpserverhandlers.c]).

    Each handler calls the next one through the classes [HeadSink] and [BodySink]; here the filters are their instances, from the
    socket up. The response is one object all filters share: the range filter and the data filter carry it while the body is
    sent, and only the one that produces the body changes it. *)

From S2P Require Import Prelude Helpers QueryParser TokenBuffer RequestParser RangeParser Bufo WriteFilter ChunkedFilter HttpResponse BodyChain DataFilter RangeFilter HttpDate NotModified GzipFilter.

#[local] Open Scope Z_scope.

(** ** The header handler of the chunked filter *)

Section Chunked.
Variable alloc : Z → bool.
Variable junk : Z.
Variable gzip_types : list (list Z).
Context {S : Type}.

Definition http_chunked_header `{HeadSink S} (m : http_module_chunked) (r : httpresponse) (s : S) : option (Z * (http_module_chunked * S) * httpresponse) :=
  if bool_decide (rs_transfer_encoding r = TE_NONE) || rs_last_modified r then
    '(c, s, r) ← next_header s r; Some (c, (m, s), r)
  else
    let cont m r :=
      '(c, s, r) ← next_header s r;
      Some (c, (with_cont m (c =? CWF_EVENT_AGAIN), s), r) in
    if ck_cont m then cont m r
    else
      '(ok, r) ← (match httpresponse_header_get r (bs "Transfer-Encoding") with
                  | None => httpresponse_header_add alloc gzip_types r (bs "Transfer-Encoding") (bs "chunked")
                  | Some _ => Some (true, r)
                  end);
      if negb ok then Some (CWF_ERROR, (m, s), r)
      else
        let '(ok, buf) := bufo_alloc alloc junk (ck_buf m) BUF_SIZE in
        let m := with_buf m buf in
        if negb ok then Some (CWF_ERROR, (m, s), r) else cont m r.
End Chunked.

(** ** The filters as links of the chain *)

(** What the handlers are called with: memory, the configured MIME types, [rand], the bound on [deflate] calls, and the request. *)
Record environment : Type := Environment {
  e_alloc : Z → bool;
  e_junk : Z;
  e_gzip_types : list (list Z);
  e_rand : nat → Z;
  e_turns : nat;
  e_request : option httprequest }.

Definition request_ranges (e : environment) : list http_range := match e_request e with Some q => ranges q | None => [] end.
Definition request_head (e : environment) : bool := match e_request e with Some q => bool_decide (method q = ROUTE_HEAD) | None => false end.
Definition has_request (e : environment) : bool := match e_request e with Some _ => true | None => false end.

Section Links.
Context {Zs : Set} `{Zlib Zs}.

Definition chunked_link (e : environment) (S : Type) : Type := (http_module_chunked * S)%type.
Definition gzip_link (e : environment) (S : Type) : Type := (http_module_gzip Zs * S)%type.
Definition data_link (e : environment) (S : Type) : Type := (http_module_data * S)%type.
Definition range_link (e : environment) (S : Type) : Type := (http_module_range * S)%type.
Definition not_modified_link (e : environment) (S : Type) : Type := (http_module_not_modified * S)%type.

#[export] Instance chunked_link_head e {S : Type} `{HeadSink S} : HeadSink (chunked_link e S) := {
  next_header ms r := http_chunked_header (e_alloc e) (e_junk e) (e_gzip_types e) ms.1 r ms.2 }.
#[export] Instance gzip_link_head e {S : Type} `{HeadSink S} : HeadSink (gzip_link e S) := {
  next_header ms r := gzip_header (e_alloc e) (e_junk e) (e_gzip_types e) ms.1 r ms.2 }.
#[export] Instance data_link_head e {S : Type} `{HeadSink S} : HeadSink (data_link e S) := {
  next_header ms r := '(c, st, s) ← data_header (e_alloc e) (e_gzip_types e) (DataState ms.1 r) ms.2; Some (c, (ds_module st, s), ds_response st) }.
#[export] Instance range_link_head e {S : Type} `{HeadSink S} : HeadSink (range_link e S) := {
  next_header ms r :=
    '(c, st, s) ← range_handler_header (e_alloc e) (e_junk e) (e_gzip_types e) (e_rand e) (request_ranges e) (RangeState ms.1 r) ms.2;
    Some (c, (rf_module st, s), rf_response st) }.
#[export] Instance not_modified_link_head e {S : Type} `{HeadSink S} : HeadSink (not_modified_link e S) := {
  next_header ms r := http_not_modified_header (e_alloc e) (e_gzip_types e) (e_request e) ms.1 r ms.2 }.

(** [filters_create]: the chain, from its first filter on. *)
Definition filters (e : environment) : Type :=
  not_modified_link e (range_link e (data_link e (gzip_link e (chunked_link e (head_writer (e_alloc e) (e_junk e)))))).

(** *** The body handlers *)

Definition gzip_over (turns : nat) (passes : bool) (S : Type) : Type := (http_module_gzip Zs * S)%type.
#[export] Instance gzip_sink turns passes {S : Type} `{BodySink S} : BodySink (gzip_over turns passes S) := { next_body := gzip_body turns passes }.

Definition data_over (alloc : Z → bool) (junk : Z) (head_method : bool) (S : Type) : Type := (data_state * S)%type.
#[export] Instance data_sink alloc junk head_method {S : Type} `{BodySink S} : BodySink (data_over alloc junk head_method S) := { next_body := data_body alloc junk head_method }.

Definition range_over (alloc : Z → bool) (junk : Z) (has_request head_method : bool) (S : Type) : Type := (range_state * S)%type.
#[export] Instance range_sink alloc junk has_request head_method {S : Type} `{BodySink S} : BodySink (range_over alloc junk has_request head_method S) := {
  next_body := range_handler_body alloc junk has_request head_method }.

(** The filters below the data filter, for a response with these flags. *)
Definition lower (turns : nat) (passes : bool) (alloc : Z → bool) (junk : Z) (te_none last_modified : bool) : Type :=
  gzip_over turns passes (chunked_over alloc junk te_none last_modified socket).
End Links.
#[global] Typeclasses Opaque chunked_link gzip_link data_link range_link not_modified_link gzip_over data_over range_over.

Section Server.
Context {Zs : Set} `{Zlib Zs}.
Variable e : environment.

(** [passes], [te_none] and [last_modified] are what the filters below test of the response. *)
Definition upper_of (passes te_none last_modified : bool) : Type :=
  (http_module_not_modified * range_over (e_alloc e) (e_junk e) (has_request e) (request_head e) (data_over (e_alloc e) (e_junk e) (request_head e)
    (lower (Zs := Zs) (e_turns e) passes (e_alloc e) (e_junk e) te_none last_modified)))%type.

(** The body handler of the first filter. *)
Definition body_handler (passes te_none last_modified : bool) (ms : upper_of passes te_none last_modified) (parent_buf : bufo)
    : option (Z * upper_of passes te_none last_modified * bufo) :=
  http_not_modified_body ms parent_buf.

(** It is called with no buffer. *)
Definition null_buf : bufo := Bufo None 0 0 0 false false.

(** A response on its way out: the filters' modules and the buffer of the write filter, the response, and the socket. *)
Record outgoing : Type := Outgoing {
  o_not_modified : http_module_not_modified;
  o_range : http_module_range;
  o_data : http_module_data;
  o_gzip : http_module_gzip Zs;
  o_chunked : http_module_chunked;
  o_write : bufo;
  o_response : httpresponse;
  o_headers_sended : bool;
  o_event_again : bool;
  o_socket : socket }.

Definition modules (o : outgoing) : filters (Zs := Zs) e :=
  (o_not_modified o, (o_range o, (o_data o, (o_gzip o, (o_chunked o, (o_socket o, o_write o)))))).

Definition with_modules (o : outgoing) (f : filters (Zs := Zs) e) (r : httpresponse) (headers_sended event_again : bool) : outgoing :=
  let '(nm, (rg, (dt, (gz, (ck, (sock, wr)))))) := f in Outgoing nm rg dt gz ck wr r headers_sended event_again sock.

(** [CWF_DATA_AGAIN] is no answer of the header handlers; the loop would go on in the last filter. *)
Definition run_header_filters (o : outgoing) : option (Z * outgoing) :=
  if o_headers_sended o then Some (CWF_OK, o)
  else
    '(c, f, r) ← next_header (modules o) (o_response o);
    if c =? CWF_ERROR then Some (c, with_modules o f r false false)
    else if c =? CWF_EVENT_AGAIN then Some (c, with_modules o f r false true)
    else if c =? CWF_OK then Some (c, with_modules o f r true false)
    else None.

(** The modules with the response, as the body handlers have them. *)
Definition body_state : Type :=
  (http_module_not_modified * (range_state * (data_state * (http_module_gzip Zs * (http_module_chunked * socket)))))%type.

Definition upper (o : outgoing) : body_state :=
  (o_not_modified o, (RangeState (o_range o) (o_response o), (DataState (o_data o) (o_response o), (o_gzip o, (o_chunked o, o_socket o))))).

(** The response is the one the filter that produces the body has. *)
Definition with_upper (o : outgoing) (event_again : bool) (ms : body_state) : outgoing :=
  let '(nm, (rg, (dt, (gz, (ck, sock))))) := ms in
  Outgoing nm (rf_module rg) (ds_module dt) gz ck (o_write o) (if rs_range (o_response o) then rf_response rg else ds_response dt) (o_headers_sended o) event_again sock.

Definition run_body (o : outgoing) : option (Z * body_state * bufo) :=
  let r := o_response o in body_handler (gzip_passes r) (bool_decide (rs_transfer_encoding r = TE_NONE)) (rs_last_modified r) (upper o) null_buf.

Fixpoint run_body_filters (fuel : nat) (o : outgoing) : option (Z * outgoing) :=
  match fuel with
  | O => None
  | Datatypes.S f =>
      '(c, ms, _) ← run_body o;
      if c =? CWF_EVENT_AGAIN then Some (c, with_upper o true ms)
      else if c =? CWF_DATA_AGAIN then run_body_filters f (with_upper o false ms)
      else Some (c, with_upper o false ms)
  end.

(** [connection_after_write] follows a [Finished]. *)
Inductive write_result : Set := WriteAgain | WriteFailed | Finished.

Definition server_write (o : outgoing) : option (write_result * outgoing) :=
  '(c, o) ← run_header_filters o;
  if c =? CWF_EVENT_AGAIN then Some (WriteAgain, o)
  else if c =? CWF_ERROR then Some (WriteFailed, o)
  else
    '(c, o) ← run_body_filters 1 o;
    if c =? CWF_EVENT_AGAIN then Some (WriteAgain, o)
    else if c =? CWF_ERROR then Some (WriteFailed, o)
    else Some (Finished, o).

(** The event loop calls the handler again each time the socket is writable. *)
Fixpoint serve (events : nat) (o : outgoing) : option (write_result * outgoing) :=
  '(res, o) ← server_write o;
  match events, res with
  | Datatypes.S n, WriteAgain => serve n o
  | _, _ => Some (res, o)
  end.

(** [__file_close]. *)
Definition file_close (f : file) : file := if f_open f then File false 0 0 [] [] else f.

(** [filters_reset] and the rest of [__httpresponse_reset]. *)
Definition httpresponse_reset (o : outgoing) : outgoing :=
  Outgoing (not_modified_reset (o_not_modified o)) (range_module_reset (o_range o)) (data_reset (o_data o)) (gzip_reset (o_gzip o)) (http_chunked_reset (o_chunked o))
    (bufo_clear (o_write o)) (Rsp 200 [] 0 CE_NONE TE_NONE false false (bufo_clear (rs_body (o_response o))) (file_close (rs_file (o_response o)))) false false (o_socket o).
End Server.
Arguments outgoing : clear implicits.
