(* ===== verification/ChainTheorems.v ===== *)
(** What the whole chain of filters puts on the wire: the response as it is, or a 304 to a client whose copy is still good. *)

From S2P Require Import Prelude Helpers QueryParser TokenBuffer RequestParser RangeParser Bufo WriteFilter ChunkedFilter HttpResponse BodyChain DataFilter DataTheorems RangeFilter HttpDate NotModified GzipFilter FilterChain.

#[local] Open Scope Z_scope.

(** ** The write filter, one call at a time *)

Section Head.
Variable alloc : Z → bool.
Variable junk : Z.
Variable hd : response.

(** [todo] of the head is still to be sent: none of it was built yet, or it is in the buffer. *)
Inductive head_left (b : bufo) (todo : list Z) : Prop :=
  | head_fresh status : cleared b → httpresponse_status_string (status_code hd) = Some status → Forall header_ok (header_ hd) → head_size hd <= BUFO_MAX_CAPACITY →
      alloc (head_size hd) = true → todo = head_bytes status (header_ hd) → head_left b todo
  | head_partial : Readable b → buf_data b ≠ None → 0 < buf_size b → todo = unread b → head_left b todo.

Lemma head_step s b todo : head_left b todo → ∃ c s' b' out todo', http_write_header alloc junk hd s b = Some (c, s', b') ∧
  sent s' = sent s ++ out ∧ todo = out ++ todo' ∧ (length (script s') <= length (script s))%nat ∧ (healthy (script s) = true → healthy (script s') = true) ∧
  ((c = CWF_OK ∧ todo' = []) ∨ (c = CWF_EVENT_AGAIN ∧ head_left b' todo' ∧ (length (script s') < length (script s) ∨ length (script s') = 0)%nat) ∨ (c = CWF_ERROR ∧ healthy (script s) = false)).
Proof.
  assert (∀ b, Readable b → buf_data b ≠ None → 0 < buf_size b → ∃ c s' b' out todo', write_buf s b = Some (c, s', b') ∧
    sent s' = sent s ++ out ∧ unread b = out ++ todo' ∧ (length (script s') <= length (script s))%nat ∧ (healthy (script s) = true → healthy (script s') = true) ∧
    ((c = CWF_OK ∧ todo' = []) ∨ (c = CWF_EVENT_AGAIN ∧ head_left b' todo' ∧ (length (script s') < length (script s) ∨ length (script s') = 0)%nat) ∨ (c = CWF_ERROR ∧ healthy (script s) = false))) as Hgo.
  { clear b. intros b Hr Hd Hz. destruct (wr_ok (script s) (sent s) (event_again s) b Hr ltac:(done)) as (c & s' & b' & o & E & Ho & Hu & Hr' & Hs' & Hl & Hh & Ha).
    exists c, s', b', o, (unread b'). split; [exact E|]. split_and!; try done. destruct Hs' as (D1 & _ & D2 & _).
    destruct Ha as [? ?|? ?|? ?]; [by left|right; left|by right; right]. split; [done|]. split; [|lia]. apply head_partial; [done|by rewrite D1|by rewrite D2|done]. }
  unfold http_write_header. intros [status Hb Hs Hh Hsz Ha ->|Hr Hd Hz ->].
  - assert (buf_size b = 0) as -> by (rewrite Hb; done). change (0 =? 0) with true. cbn iota.
    destruct (build_head_ok alloc junk hd b status Hb Hs Hh Hsz Ha) as (b1 & -> & Hr & Hd & Hz & <-). cbn [mbind option_bind]. by apply Hgo.
  - destruct (Z.eqb_spec (buf_size b) 0); [lia|]. by apply Hgo.
Qed.
End Head.

(** ** The header handlers, for a response that is neither compressed, chunked nor cut *)

Section Chain.
Context {Zs : Set} `{Zlib Zs}.
Variable e : environment.

(** The range filter has nothing to do. *)
Definition unranged (r : httpresponse) : Prop :=
  request_ranges e = [] ∨ rs_status_code r < 200 ∨ 300 <= rs_status_code r ∨ rs_last_modified r = true.

(** The filters below the data filter let the response through. *)
Definition plain (r : httpresponse) : Prop := rs_content_encoding r = CE_NONE ∧ rs_transfer_encoding r = TE_NONE.

Definition write_head (r : httpresponse) (s : socket) (b : bufo) : option (Z * socket * bufo) := http_write_header (e_alloc e) (e_junk e) (head_of r) s b.

Lemma lower_head r (gz : http_module_gzip Zs) ck s b : plain r →
  next_header ((gz, (ck, (s, b))) : gzip_link e (chunked_link e (head_writer (e_alloc e) (e_junk e)))) r =
  '(c, s, b) ← write_head r s b; Some (c, (gz, (ck, (s, b))), r).
Proof.
  intros [Hce Hte]. cbn [next_header gzip_link_head fst snd]. unfold gzip_header, gzip_passes. rewrite Hce. cbn [bool_decide orb].
  cbn [next_header chunked_link_head fst snd]. unfold http_chunked_header. rewrite Hte. cbn [bool_decide orb]. cbn [next_header writer_head_sink fst snd]. unfold write_head.
  by destruct (http_write_header _ _ _ _ _) as [[[c s'] b']|].
Qed.

(** The modules while the head is being sent; [again] when the socket is waited for. *)
Definition armed (o : outgoing Zs) (again : bool) (s : socket) (b : bufo) : filters (Zs := Zs) e :=
  (NotModifiedModule again (nm_done (o_not_modified o)), (o_range o, (set_data_cont (o_data o) again, (o_gzip o, (o_chunked o, (s, b)))))).

Lemma range_forward {S : Type} `{HeadSink S} (m : http_module_range) r (s : S) : rg_cont m = false → unranged r →
  next_header ((m, s) : range_link e S) r = '(c, s, r) ← next_header s r; Some (c, (m, s), r).
Proof.
  intros Hc Hu. cbn [next_header range_link_head fst snd]. unfold range_handler_header. cbn [rf_module rf_response]. rewrite Hc.
  assert ((if (rs_status_code r <? 200) || (300 <=? rs_status_code r) then true else rs_last_modified r) = true ∨ request_ranges e = []) as Hor.
  { destruct Hu as [?|[?|[?|Hl]]]; [by right|left..]; [rewrite (proj2 (Z.ltb_lt _ _)) by lia; done|rewrite (proj2 (Z.leb_le 300 _)) by lia; by rewrite orb_true_r|rewrite Hl; by destruct (_ || _)]. }
  destruct (request_ranges e) as [|g rest].
  - by destruct (next_header s r) as [[[c s'] r']|].
  - destruct Hor as [Hor|?]; [|done]. destruct (_ || _); [|rewrite Hor]; by destruct (next_header s r) as [[[c s'] r']|].
Qed.

(** What the data filter makes of the response. *)
Definition data_head (r : httpresponse) : option httpresponse :=
  '(ok, r) ← (if f_open (rs_file r) then httpresponse_header_add (e_alloc e) (e_gzip_types e) r (bs "Cache-Control") (bs "no-cache") else Some (true, r));
  '(ok', r) ← (if negb (rs_range r) && bool_decide (rs_transfer_encoding r = TE_NONE) && negb (rs_status_code r =? 304)
               then httpresponse_header_add_content_length (e_alloc e) (e_gzip_types e) r (data_size r) else Some (true, r));
  if (ok : bool) && (ok' : bool) then Some r else None.

Lemma data_forward m r r' (gz : http_module_gzip Zs) ck s b : plain r' → (if dt_cont m then r = r' else data_head r = Some r') →
  next_header ((m, (gz, (ck, (s, b)))) : data_link e (gzip_link e (chunked_link e (head_writer (e_alloc e) (e_junk e))))) r =
  '(c, s, b) ← write_head r' s b; Some (c, (set_data_cont m (c =? CWF_EVENT_AGAIN), (gz, (ck, (s, b)))), r').
Proof.
  intros Hp Hd. cbn [next_header data_link_head fst snd]. unfold data_header. cbn [ds_module ds_response].
  assert ((if dt_cont m then Some (true, r) else
    '(ok, r) ← (if f_open (rs_file r) then httpresponse_header_add (e_alloc e) (e_gzip_types e) r (bs "Cache-Control") (bs "no-cache") else Some (true, r));
    if negb ok then Some (false, r)
    else if negb (rs_range r) && bool_decide (rs_transfer_encoding r = TE_NONE) && negb (rs_status_code r =? 304)
         then httpresponse_header_add_content_length (e_alloc e) (e_gzip_types e) r (data_size r) else Some (true, r)) = Some (true, r')) as ->.
  { destruct (dt_cont m); [by subst|]. unfold data_head in Hd. destruct (if f_open (rs_file r) then _ else _) as [[ok r1]|]; [|done]. cbn [mbind option_bind] in *.
    destruct (if negb (rs_range r1) && _ && _ then _ else _) as [[ok' r2]|]; [|done]. cbn [mbind option_bind] in Hd. destruct ok, ok'; try done. by injection Hd as ->. }
  cbn [mbind option_bind negb]. rewrite (lower_head r' gz ck s b Hp). by destruct (write_head r' s b) as [[[c s'] b']|].
Qed.

(** What the not-modified filter makes of it. *)
Definition conditional_head (r : httpresponse) : option httpresponse :=
  r ← add_validators (e_alloc e) (e_gzip_types e) r;
  not_modified ← check_not_modified (e_request e) r;
  Some (if not_modified : bool then set_not_modified r else r).

Lemma chain_head (o : outgoing Zs) r r' : rg_cont (o_range o) = false → conditional_head (o_response o) = Some r → unranged r → data_head r = Some r' → plain r' →
  nm_cont (o_not_modified o) = false → dt_cont (o_data o) = false →
  next_header (modules e o) (o_response o) = '(c, s, b) ← write_head r' (o_socket o) (o_write o); Some (c, armed o (c =? CWF_EVENT_AGAIN) s b, r').
Proof.
  intros Hrg Hcond Hun Hdata Hp Hnm Hdt. unfold modules. cbn [next_header not_modified_link_head fst snd]. unfold http_not_modified_header. rewrite Hnm.
  unfold conditional_head in Hcond. destruct (add_validators _ _ _) as [r1|]; [|done]. cbn [mbind option_bind] in *. destruct (check_not_modified _ r1) as [nm|]; [|done]. cbn [mbind option_bind] in *.
  injection Hcond as Hcond. rewrite Hcond. rewrite range_forward by done. rewrite (data_forward _ r r') by (done || by rewrite Hdt).
  by destruct (write_head r' _ _) as [[[c s'] b']|].
Qed.

Lemma chain_resumed (o : outgoing Zs) r' s b : rg_cont (o_range o) = false → unranged r' → plain r' →
  next_header (armed o true s b) r' = '(c, s, b) ← write_head r' s b; Some (c, armed o (c =? CWF_EVENT_AGAIN) s b, r').
Proof.
  intros Hrg Hun Hp. unfold armed at 1. cbn [next_header not_modified_link_head fst snd]. unfold http_not_modified_header. cbn [nm_cont nm_done mbind option_bind].
  rewrite range_forward by done. rewrite (data_forward _ r' r') by done. by destruct (write_head r' _ _) as [[[c s'] b']|].
Qed.

(** ** The write handler, event by event *)

(** Served with [events] writability events, exactly [todo] goes out: what was sent is a prefix of it, all of it when the handler is
    finished; it waits only while the socket does and fails only if the socket does. *)
Definition delivers (events : nat) (o : outgoing Zs) (todo : list Z) : Prop :=
  ∃ res o' out rest, serve e events o = Some (res, o') ∧ sent (o_socket o') = sent (o_socket o) ++ out ∧ todo = out ++ rest ∧
    ((res = Finished ∧ rest = []) ∨ (res = WriteAgain ∧ script (o_socket o') = []) ∨ (res = WriteFailed ∧ healthy (script (o_socket o)) = false)).

(** The head is out. *)
Definition head_sent (o : outgoing Zs) (r' : httpresponse) (s : socket) (b : bufo) : outgoing Zs := with_modules e o (armed o false s b) r' true false.

(** [o] calls the write filter with the head of [r']. *)
Definition heads (o0 : outgoing Zs) (r' : httpresponse) (o : outgoing Zs) : Prop :=
  o_headers_sended o = false ∧
  next_header (modules e o) (o_response o) = '(c, s, b) ← write_head r' (o_socket o) (o_write o); Some (c, armed o0 (c =? CWF_EVENT_AGAIN) s b, r').

Lemma heads_again o0 r' s b : rg_cont (o_range o0) = false → unranged r' → plain r' → heads o0 r' (with_modules e o0 (armed o0 true s b) r' false true).
Proof. intros Hrg Hun Hp. split; [done|]. exact (chain_resumed o0 r' s b Hrg Hun Hp). Qed.

Lemma serve_head o0 r' body : rg_cont (o_range o0) = false → unranged r' → plain r' →
  (∀ events s b, (length (script s) <= events)%nat → delivers events (head_sent o0 r' s b) body) →
  ∀ events o todo, heads o0 r' o → head_left (e_alloc e) (head_of r') (o_write o) todo → (length (script (o_socket o)) <= events)%nat → delivers events o (todo ++ body).
Proof.
  intros Hrg Hun Hp Hbody. induction events as [|n IH]; intros o todo [Hns Hh] Hl Hev;
    destruct (head_step (e_alloc e) (e_junk e) (head_of r') (o_socket o) (o_write o) todo Hl) as (c & s & b & out & todo' & Ew & Hsent & -> & Hless & Hsound & Hres);
    unfold write_head in Hh; rewrite Ew in Hh; cbn [mbind option_bind] in Hh.
  all: assert (∀ x, c = CWF_OK → serve e x o = serve e x (head_sent o0 r' s b)) as Hok
    by (intros x ->; destruct x; cbn [serve]; unfold server_write at 1, run_header_filters; rewrite Hns, Hh; done).
  all: assert (c = CWF_ERROR → ∀ x, ∃ o', serve e x o = Some (WriteFailed, o') ∧ o_socket o' = s) as Herr
    by (intros -> x; eexists; split; [destruct x; cbn [serve]; unfold server_write, run_header_filters; rewrite Hns, Hh; cbn; reflexivity|done]).
  all: assert (c = CWF_EVENT_AGAIN → server_write e o = Some (WriteAgain, with_modules e o0 (armed o0 true s b) r' false true)) as Hag
    by (intros ->; unfold server_write, run_header_filters; rewrite Hns, Hh; done).
  all: destruct Hres as [[Hc ->]|[(Hc & Hl' & Hw)|[Hc Hbad]]].
  1, 4: rewrite <- app_assoc; match goal with |- delivers ?x _ _ => destruct (Hbody x s b ltac:(lia)) as (res & o' & out' & rest & E & Hs' & -> & Hr) end;
    exists res, o', (out ++ out'), rest; rewrite Hok by done; split; [done|]; (split; [rewrite Hs'; cbn; by rewrite Hsent, app_assoc|]); (split; [by rewrite <- app_assoc|]);
    destruct Hr as [?|[?|[? Hbad]]]; auto; right; right; split; [done|]; cbn in Hbad; destruct (healthy (script (o_socket o))); [by rewrite Hsound in Hbad|done].
  2, 4: match goal with |- delivers ?x _ _ => destruct (Herr Hc x) as (o' & E & Eo) end; exists WriteFailed, o', out, (todo' ++ body); rewrite Eo; split; [done|]; split; [done|]; split; [by rewrite app_assoc|by right; right].
  - eexists WriteAgain, _, out, (todo' ++ body). cbn [serve]. rewrite (Hag Hc). cbn [mbind option_bind]. split; [done|]. cbn. split; [done|]. split; [by rewrite app_assoc|]. right; left. split; [done|]. apply nil_length_inv. lia.
  - destruct (IH (with_modules e o0 (armed o0 true s b) r' false true) todo') as (res & o' & out' & rest & E & Hs' & Ht & Hr); [by apply heads_again|exact Hl'|cbn; lia|].
    exists res, o', (out ++ out'), rest. cbn [serve]. rewrite (Hag Hc). cbn [mbind option_bind]. split; [done|]. split; [rewrite Hs'; cbn; by rewrite Hsent, app_assoc|]. split; [by rewrite <- !app_assoc, Ht|].
    destruct Hr as [?|[?|[? Hbad]]]; auto. right; right. split; [done|]. cbn in Hbad. destruct (healthy (script (o_socket o))); [by rewrite Hsound in Hbad|done].
Qed.

(** ** The body *)

(** What the handlers test of the response while its body is sent. *)
Definition flags (r : httpresponse) : bool * bool * Z * http_content_encoding * http_transfer_encoding :=
  (rs_range r, rs_last_modified r, rs_status_code r, rs_content_encoding r, rs_transfer_encoding r).

Lemma fetch_flags alloc junk x (st : data_state) y st' : flags (ds_response st) = x → data_fetch alloc junk st = Some (y, st') → flags (ds_response st') = x.
Proof.
  intros Hk. unfold data_fetch, next_chunk_data. destruct (f_open _).
  - unfold file_next_chunk_data. destruct (bufo_alloc _ _ _ _) as [[|] b]; cbn [negb].
    + destruct (pread_loop _ _ _ _) as [[bytes|] outs]; cbn [mbind option_bind negb]; [|by intros [= _ <-]].
      destruct (buf_data b); [|done]. cbn [mbind option_bind]. destruct (mem_write _ _ _); [|done]. cbn [mbind option_bind negb].
      case_if; intros [= _ <-]; exact Hk.
    + cbn [mbind option_bind negb]. by intros [= _ <-].
  - cbn [mbind option_bind negb]. unfold body_next_chunk_data. destruct (bufo_move_front_pos _ _) as [n b]. destruct (n =? 0); case_if; intros [= _ <-]; exact Hk.
Qed.

(** The head is out and the data filter produces the body. *)
Definition sendable (o : outgoing Zs) : Prop :=
  o_headers_sended o = true ∧ request_head e = false ∧ rs_range (o_response o) = false ∧ rs_last_modified (o_response o) = false ∧ rs_status_code (o_response o) ≠ 304 ∧ plain (o_response o).

Definition below (o : outgoing Zs) : lower (Zs := Zs) (e_turns e) true (e_alloc e) (e_junk e) true false := (o_gzip o, (o_chunked o, o_socket o)).
Definition producer (o : outgoing Zs) : data_producer (e_alloc e) (e_junk e) := DataState (o_data o) (o_response o).

#[export] Program Instance gzip_pass_laws turns {S : Type} `{BodySinkLaws S} : BodySinkLaws (gzip_over (Zs := Zs) turns true S) := {
  emitted ms := emitted ms.2;
  pending ms := pending ms.2;
  sound ms := sound ms.2 }.
Next Obligation.
  intros turns S ? ? [m s] b Hr Hd. cbn [next_body gzip_sink]. unfold gzip_body. cbn [fst snd].
  destruct (next_body_ok s b Hr Hd) as (r & s' & b' & o & -> & ?). cbn [mbind option_bind]. by exists r, (m, s'), b', o.
Qed.

(** The state after a call of the loop. *)
Definition after_body (o : outgoing Zs) (again : bool) (p : data_state) (s : http_module_gzip Zs * (http_module_chunked * socket)) : outgoing Zs :=
  Outgoing (o_not_modified o) (o_range o) (ds_module p) s.1 s.2.1 (o_write o) (ds_response p) true again s.2.2.

Lemma run_body_pump o c p s : sendable o → pump (pr_fuel (producer o)) (pr_cont (producer o)) (producer o) (below o) = Some (c, p, s) →
  run_body e o = Some (c, (o_not_modified o, (RangeState (o_range o) (o_response o), (p, s))), null_buf).
Proof.
  intros (_ & Hh & Hr & Hlm & Hst & [Hce Hte]) E. unfold run_body, gzip_passes. rewrite Hce, Hte, Hlm. cbn [bool_decide orb]. unfold body_handler, http_not_modified_body, upper. cbn [fst snd].
  cbn [next_body range_sink]. unfold range_handler_body. cbn [rf_response]. rewrite Hr, orb_true_r. cbn [next_body data_sink]. unfold data_body. cbn [fst snd ds_response]. rewrite Hr, Hh.
  destruct (Z.eqb_spec (rs_status_code (o_response o)) 304); [done|]. unfold pump_body. cbn [fst snd].
  match goal with |- context [pump ?x1 ?x2 ?x3 ?x4] => replace (pump x1 x2 x3 x4) with (Some (c, p, s)) by (symmetry; exact E) end. done.
Qed.

Lemma body_keeps o c p s : pump (pr_fuel (producer o)) (pr_cont (producer o)) (producer o) (below o) = Some (c, p, s) → flags (ds_response p) = flags (o_response o).
Proof.
  intros E. apply (pump_keeps (P := data_producer (e_alloc e) (e_junk e)) (λ p, flags (ds_response p) = flags (o_response o))) in E; [done|..].
  - intros p0 x p1 HI Hf. exact (fetch_flags _ _ _ _ _ _ HI Hf).
  - intros [m r] b HI. cbn. unfold data_put. cbn. by destruct (dt_parent m) as [[|]|].
  - by intros [m r] x HI.
  - done.
Qed.

Lemma after_sendable o again p s : sendable o → flags (ds_response p) = flags (o_response o) → sendable (after_body o again p s).
Proof. unfold sendable, plain, flags. cbn. intros (? & ? & ? & ? & ? & ? & ?) [= -> -> -> -> ->]. done. Qed.

Lemma serve_body events : ∀ o todo, sendable o →
  (∃ c p s, pump (pr_fuel (producer o)) (pr_cont (producer o)) (producer o) (below o) = Some (c, p, s) ∧ pump_post todo CWF_OK (producer o) (below o) c p s) →
  (length (script (o_socket o)) <= events)%nat → delivers events o todo.
Proof.
  induction events as [|n IH]; intros o todo Hs (c & p & s & E & Hpost) Hev; pose proof (body_keeps o c p s E) as Hf; destruct Hpost as [(out & rest & Hw & -> & Hres) Hwt Hub].
  all: pose proof (run_body_pump o c p s Hs E) as Er; pose proof Hs as (Hsent & _ & Hr & _); destruct s as [gz [ck sk]]; cbn in Hw, Hwt, Hub.
  all: assert (c ≠ CWF_DATA_AGAIN → server_write e o = Some (if c =? CWF_EVENT_AGAIN then WriteAgain else if c =? CWF_ERROR then WriteFailed else Finished, after_body o (c =? CWF_EVENT_AGAIN) p (gz, (ck, sk)))) as Hsw
    by (intros Hne; unfold server_write, run_header_filters; rewrite Hsent; cbn [mbind option_bind]; change (CWF_OK =? CWF_EVENT_AGAIN) with false; change (CWF_OK =? CWF_ERROR) with false; cbn [run_body_filters]; cbn iota;
        rewrite Er; cbn [mbind option_bind]; unfold with_upper, after_body; cbn [rf_module fst snd]; rewrite Hr, Hsent;
        destruct (Z.eqb_spec c CWF_EVENT_AGAIN) as [->|]; [done|]; destruct (Z.eqb_spec c CWF_DATA_AGAIN); [done|]; cbn [mbind option_bind]; destruct (Z.eqb_spec c CWF_EVENT_AGAIN); [done|]; by destruct (c =? CWF_ERROR)).
  all: destruct Hres as [ -> -> | -> Hwait Hless | -> Hbad ].
  - exists Finished, (after_body o false p (gz, (ck, sk))), out, []. cbn [serve]. rewrite Hsw by done. cbn [mbind option_bind]. split; [done|]. split; [done|]. split; [done|]. by left.
  - eexists _, _, out, rest. cbn [serve]. rewrite Hsw by done. cbn [mbind option_bind]. split; [done|]. split; [done|]. split; [done|]. right; left. split; [done|]. cbn in *. apply nil_length_inv. lia.
  - eexists _, _, out, rest. cbn [serve]. rewrite Hsw by done. cbn [mbind option_bind]. split; [done|]. split; [done|]. split; [done|]. by right; right.
  - exists Finished, (after_body o false p (gz, (ck, sk))), out, []. cbn [serve]. rewrite Hsw by done. cbn [mbind option_bind]. split; [done|]. split; [done|]. split; [done|]. by left.
  - destruct (IH (after_body o true p (gz, (ck, sk))) rest) as (res & o' & out' & rest' & Es & Hs' & -> & Hr'); [by apply after_sendable| |cbn in *; lia|].
    { destruct (pump_waiting _ _ _ _ Hwait) as (c2 & p2 & s2 & E2 & Hp2). exists c2, p2, s2. destruct p. split; [exact E2|exact Hp2]. }
    exists res, o', (out ++ out'), rest'. cbn [serve]. rewrite Hsw by done. cbn [mbind option_bind]. split; [done|]. split; [rewrite Hs'; cbn; by rewrite Hw, app_assoc|]. split; [by rewrite app_assoc|].
    destruct Hr' as [?|[?|[? Hbad]]]; auto. right; right. split; [done|]. cbn in Hbad. destruct (healthy (script (o_socket o))); [by rewrite Hub in Hbad|done].
  - exists WriteFailed, (after_body o false p (gz, (ck, sk))), out, rest. cbn [serve]. rewrite Hsw by done. cbn [mbind option_bind]. split; [done|]. split; [done|]. split; [done|]. by right; right.
Qed.

(** No body: the request is HEAD, or the answer a 304. *)
Lemma serve_nothing events o : o_headers_sended o = true → rs_range (o_response o) = false → request_head e = true ∨ rs_status_code (o_response o) = 304 → delivers events o [].
Proof.
  intros Hs Hr Hno. assert (∃ ms, run_body e o = Some (CWF_OK, ms, null_buf) ∧ o_socket (with_upper o false ms) = o_socket o) as (ms & Er & Eo).
  { unfold run_body, body_handler, http_not_modified_body, upper. cbn [fst snd]. cbn [next_body range_sink]. unfold range_handler_body. cbn [rf_response]. rewrite Hr, orb_true_r.
    cbn [next_body data_sink]. unfold data_body. cbn [fst snd ds_response]. rewrite Hr. destruct Hno as [-> | ->]; [|change (304 =? 304) with true; destruct (request_head e)]; cbn [mbind option_bind]; by eexists. }
  exists Finished, (with_upper o false ms), [], []. split; [|split; [by rewrite Eo, app_nil_r|split; [done|by left]]].
  destruct events; cbn [serve]; unfold server_write, run_header_filters; rewrite Hs; cbn [mbind option_bind]; change (CWF_OK =? CWF_EVENT_AGAIN) with false; change (CWF_OK =? CWF_ERROR) with false; cbn [run_body_filters]; cbn iota; by rewrite Er.
Qed.
End Chain.

(** ** Headers *)

Lemma header_add_plain alloc gzip_types r k v : (∀ n, alloc n = true) → cstring k → cstring v →
  cmpstrn_lower k (bs "Transfer-Encoding") = false → cmpstrn_lower k (bs "Content-Encoding") = false → cmpstr_lower k (bs "Content-Type") = false →
  httpresponse_header_add alloc gzip_types r k v = Some (true, with_headers r (rs_header r ++ [header k v])).
Proof.
  intros Ha Hk Hv H1 H2 H3. unfold httpresponse_header_add. rewrite (cstr_cstring k Hk), (cstr_cstring v Hv). rewrite <- (app_nil_r v) at 1.
  apply headern_add_plain; try done; unfold cmpstr_lower; by rewrite (cstr_cstring k Hk).
Qed.

(** The validators of a file. *)
Definition validators (r : httpresponse) : list http_header :=
  if f_open (rs_file r) && (0 <? f_mtime (rs_file r)) then
    [header (bs "Last-Modified") (default [] (http_format_date (f_mtime (rs_file r)) 64)); header (bs "ETag") (etag_text (f_mtime (rs_file r)) (f_size (rs_file r)))]
  else [].

Lemma tag_cstring l : Forall tag_char l → cstring l.
Proof. intros Hl. eapply Forall_impl; [exact Hl|]. intros c [? _]. lia. Qed.

Lemma with_headers_id r : with_headers r (rs_header r) = r.
Proof. by destruct r. Qed.

Lemma add_validators_ok alloc gzip_types r : (∀ n, alloc n = true) → f_mtime (rs_file r) < DATE_END →
  add_validators alloc gzip_types r = Some (with_headers r (rs_header r ++ validators r)).
Proof.
  intros Ha Ht. unfold add_validators, validators. destruct (f_open (rs_file r)); cbn [andb]; [|by rewrite app_nil_r, with_headers_id].
  destruct (Z.ltb_spec 0 (f_mtime (rs_file r))); [|by rewrite app_nil_r, with_headers_id].
  destruct (format_parse (f_mtime (rs_file r)) ltac:(lia)) as (text & E & _ & Hc & _). rewrite E. cbn [try_add_header].
  rewrite (header_add_plain alloc gzip_types r (bs "Last-Modified") text Ha) by (done || (repeat constructor)). cbn [mbind option_bind rs_file with_headers].
  rewrite generate_etag_ok. cbn [try_add_header].
  rewrite (header_add_plain alloc gzip_types _ (bs "ETag") _ Ha) by (done || (apply tag_cstring, etag_text_chars) || (repeat constructor)). cbn [mbind option_bind].
  cbn [rs_header with_headers default from_option id]. by rewrite <- app_assoc.
Qed.

Section Data.
Variable e : environment.
Hypothesis memory : ∀ n, e_alloc e n = true.

Lemma cache_control_ok r : (if f_open (rs_file r) then httpresponse_header_add (e_alloc e) (e_gzip_types e) r (bs "Cache-Control") (bs "no-cache") else Some (true, r)) =
  Some (true, with_headers r (rs_header r ++ cache_control r)).
Proof.
  unfold cache_control. destruct (f_open (rs_file r)); [|by rewrite app_nil_r, with_headers_id]. apply header_add_plain; done || (repeat constructor).
Qed.

Lemma data_head_length r : rs_range r = false → rs_transfer_encoding r = TE_NONE → rs_status_code r ≠ 304 → 0 <= data_size r <= SIZE_MAX →
  data_head e r = Some (with_headers r (rs_header r ++ cache_control r ++ [header (bs "Content-Length") (print_zu (data_size r))])).
Proof.
  intros Hr Ht Hs Hd. unfold data_head. rewrite cache_control_ok. cbn [mbind option_bind rs_range rs_transfer_encoding rs_status_code with_headers]. rewrite Hr, Ht.
  destruct (Z.eqb_spec (rs_status_code r) 304); [done|]. cbn [negb andb bool_decide]. rewrite add_content_length_ok by done. cbn [mbind option_bind andb rs_header with_headers]. by rewrite <- app_assoc.
Qed.

Lemma data_head_304 r : rs_status_code r = 304 → data_head e r = Some (with_headers r (rs_header r ++ cache_control r)).
Proof.
  intros Hs. unfold data_head. rewrite cache_control_ok. cbn [mbind option_bind rs_range rs_transfer_encoding rs_status_code with_headers]. rewrite Hs. change (304 =? 304) with true. by rewrite andb_false_r.
Qed.
End Data.

Lemma source_head alloc content m r again hs : source alloc content (DataState m r) → source alloc content (DataState (set_data_cont m again) (with_headers r hs)).
Proof. intros [[]|? ? [] ?]; [apply in_memory|apply in_file]; try done; constructor; done. Qed.

(** ** Properties *)

(** The filters' modules as they are created, or reset after another response. *)
Definition chain_ready {Zs : Set} (o : outgoing Zs) : Prop :=
  nm_cont (o_not_modified o) = false ∧ rg_cont (o_range o) = false ∧ dt_cont (o_data o) = false ∧ cleared (o_write o) ∧ o_headers_sended o = false.

Lemma reset_ready {Zs : Set} `{Zlib Zs} (o : outgoing Zs) : chain_ready (httpresponse_reset o).
Proof. repeat split. Qed.

Lemma head_left_fresh e (r : httpresponse) b status : (∀ n, e_alloc e n = true) → cleared b → httpresponse_status_string (rs_status_code r) = Some status →
  Forall header_ok (rs_header r) → head_size (head_of r) <= BUFO_MAX_CAPACITY → head_left (e_alloc e) (head_of r) b (head_bytes status (rs_header r)).
Proof. intros Ha Hb Hs Hh Hz. by eapply head_fresh. Qed.

Lemma header_okay k v : header_ok (header k v).
Proof. done. Qed.

Lemma validators_okay r : Forall header_ok (validators r).
Proof. unfold validators. destruct (_ && _); repeat constructor. Qed.

Lemma cache_control_okay r : Forall header_ok (cache_control r).
Proof. unfold cache_control. destruct (f_open _); repeat constructor. Qed.

(** C4: A response that is not compressed, chunked or cut leaves the server byte for byte: served through the whole chain of filters by
    the write handler, on any socket and across any number of writability events, exactly its status line, its headers with the
    validators of its file, Cache-Control and the Content-Length of its body, the empty line and (unless the request is HEAD) its
    body are sent. *)
Theorem response_delivered {Zs : Set} `{Zlib Zs} (e : environment) (o : outgoing Zs) (content status : list Z) (events : nat) :
  let r := o_response o in
  let hs := rs_header r ++ validators r ++ cache_control r ++ [header (bs "Content-Length") (print_zu (zlen content))] in
  (∀ n, e_alloc e n = true) → chain_ready o → sending (e_alloc e) content (DataState (o_data o) r) →
  (f_open (rs_file r) = false → buf_pos (rs_body r) = 0) → zlen content <= SIZE_MAX → f_mtime (rs_file r) < DATE_END →
  plain r → rs_last_modified r = false → unranged e r →
  check_not_modified (e_request e) (with_headers r (rs_header r ++ validators r)) = Some false →
  httpresponse_status_string (rs_status_code r) = Some status → Forall header_ok (rs_header r) → head_size (Response (rs_status_code r) hs) <= BUFO_MAX_CAPACITY →
  (length (script (o_socket o)) <= events)%nat →
  delivers e events o (head_bytes status hs ++ (if request_head e then [] else content)).
Proof.
  intros r hs Ha (Hnm & Hrg & Hdt & Hwr & Hns) (_ & Hrange & H304 & Hsrc) Hpos Hz Hmt Hp Hlm Hun Hck Hst Hok Hsz Hev. cbn [ds_response] in *.
  assert (data_size r = zlen content) as Hds by exact (source_size _ _ _ Hsrc Hpos). set (r' := with_headers r hs).
  assert (conditional_head e r = Some (with_headers r (rs_header r ++ validators r))) as Hcond by (unfold conditional_head; rewrite add_validators_ok by done; cbn [mbind option_bind]; by rewrite Hck).
  assert (data_head e (with_headers r (rs_header r ++ validators r)) = Some r') as Hdata.
  { rewrite data_head_length; [|done|done|apply Hp|done|change (0 <= data_size r <= SIZE_MAX); rewrite Hds; split; [apply zlen_nonneg|done]].
    change (data_size (with_headers r (rs_header r ++ validators r))) with (data_size r). rewrite Hds. unfold r', hs. cbn [rs_header with_headers]. by rewrite <- app_assoc. }
  apply (serve_head e o r'); try done.
  - intros n s b Hn. destruct (request_head e) eqn:Hh; [apply serve_nothing; auto|]. set (o1 := head_sent e o r' s b).
    assert (sendable e o1) as Hsend by (repeat split; try done; apply Hp).
    pose proof (source_head (e_alloc e) content (o_data o) r false hs Hsrc) as Hs1. fold r' in Hs1.
    apply serve_body; [done| |done]. destruct (source_yields (S := lower (Zs := Zs) (e_turns e) true (e_alloc e) (e_junk e) true false) (e_alloc e) (e_junk e) content _ Hs1) as (ps & Hy & Hcat & HF & _).
    rewrite <- Hcat. eapply (pump_fresh (P := data_producer (e_alloc e) (e_junk e)) (S := lower (Zs := Zs) (e_turns e) true (e_alloc e) (e_junk e) true false)); [apply Hy, Forall_true; done|done| |].
    + change (pr_fuel (producer e o1)) with (data_turns (producer e o1)). unfold producer. cbn. cbn in HF. lia.
    + change (pr_fuel (producer e o1)) with (data_turns (producer e o1)). exact HF.
  - split; [done|]. by apply (chain_head e o (with_headers r (rs_header r ++ validators r)) r').
  - apply head_left_fresh; try done. unfold r', hs. cbn [rs_header with_headers]. repeat (apply Forall_app; split); try done; [apply validators_okay|apply cache_control_okay|repeat constructor].
Qed.

(** ** Conditional requests *)

Lemma header_get_app r l name : httpresponse_header_get (with_headers r (rs_header r ++ l)) name =
  match httpresponse_header_get r name with Some h => Some h | None => List.find (λ h, cmpstr_lower (key h) name) l end.
Proof. unfold httpresponse_header_get. cbn [rs_header with_headers]. induction (rs_header r) as [|h hs IH]; [done|]. cbn [app List.find]. by destruct (cmpstr_lower (key h) name). Qed.

Lemma header_value_ok k v : header_value (header k v) = Some v.
Proof. unfold header_value, header. cbn [WriteFilter.value value_length]. rewrite mem_read_Some by (pose proof (zlen_nonneg v); lia). by rewrite drop_0, take_zlen. Qed.

(** The response of a file that has no validators of the application. *)
Definition validated (r : httpresponse) : Prop :=
  f_open (rs_file r) = true ∧ 0 < f_mtime (rs_file r) < DATE_END ∧ httpresponse_header_get r (bs "ETag") = None ∧ httpresponse_header_get r (bs "Last-Modified") = None.

Definition conditional_method (q : httprequest) : bool := bool_decide (method q = ROUTE_GET) || bool_decide (method q = ROUTE_HEAD).

Lemma validated_get r : validated r →
  let r1 := with_headers r (rs_header r ++ validators r) in
  httpresponse_header_get r1 (bs "ETag") = Some (header (bs "ETag") (etag_text (f_mtime (rs_file r)) (f_size (rs_file r)))) ∧
  ∃ text, http_format_date (f_mtime (rs_file r)) 64 = Some text ∧ parse_http_date text = f_mtime (rs_file r) ∧
    httpresponse_header_get r1 (bs "Last-Modified") = Some (header (bs "Last-Modified") text).
Proof.
  intros (Ho & Ht & He & Hl) r1. unfold r1. rewrite !header_get_app, He, Hl. unfold validators. rewrite Ho, (proj2 (Z.ltb_lt _ _)) by lia. cbn [andb].
  destruct (format_parse (f_mtime (rs_file r)) ltac:(lia)) as (text & E & _ & _ & Hp). rewrite E. split; [done|]. by exists text.
Qed.

Lemma check_by_etag r q v : validated r → conditional_method q = true → httprequest_header q (bs "If-None-Match") = Some v →
  check_not_modified (Some q) (with_headers r (rs_header r ++ validators r)) =
  Some (bool_decide (v = [42]) || listed (split_on 44 v) (etag_text (f_mtime (rs_file r)) (f_size (rs_file r)))).
Proof.
  intros Hr Hm Hv. destruct (validated_get r Hr) as [He _]. unfold check_not_modified. unfold conditional_method in Hm. rewrite Hm. cbn [negb]. rewrite Hv, He, header_value_ok. cbn [mbind option_bind].
  apply etag_matches_spec; [|done]. eapply Forall_impl; [apply etag_text_chars|]. intros c [? _]. lia.
Qed.

Lemma check_by_date r q t : validated r → conditional_method q = true → httprequest_header q (bs "If-None-Match") = None →
  0 <= t < DATE_END → httprequest_header q (bs "If-Modified-Since") = http_format_date t 64 →
  check_not_modified (Some q) (with_headers r (rs_header r ++ validators r)) = Some (f_mtime (rs_file r) <=? t).
Proof.
  intros Hr Hm Hn Ht Hv. destruct (validated_get r Hr) as [_ (text & _ & Hp & Hl)]. destruct (format_parse t Ht) as (text' & E & _ & _ & Hp'). rewrite E in Hv.
  unfold check_not_modified. unfold conditional_method in Hm. rewrite Hm. cbn [negb]. rewrite Hn, Hv, Hl, header_value_ok. cbn [mbind option_bind]. rewrite Hp, Hp'.
  destruct Hr as (_ & Hr & _). destruct (Z.eqb_spec t (-1)), (Z.eqb_spec (f_mtime (rs_file r)) (-1)); try lia. done.
Qed.

(** C33: The generated entity tag identifies the version of a file: a GET or HEAD request whose If-None-Match is the tag that was generated
    for modification time [t] and size [s] is answered with 304 exactly when the file still has that time and that size. *)
Theorem etag_identifies_version (r : httpresponse) (q : httprequest) (t s : Z) :
  validated r → conditional_method q = true → 0 <= t < 2 ^ 64 → 0 <= s < 2 ^ 64 → 0 <= f_size (rs_file r) < 2 ^ 64 →
  generate_etag t s 64 = httprequest_header q (bs "If-None-Match") →
  check_not_modified (Some q) (with_headers r (rs_header r ++ validators r)) = Some (bool_decide (t = f_mtime (rs_file r) ∧ s = f_size (rs_file r))).
Proof.
  intros Hr Hm Ht Hs Hsz Hv. rewrite generate_etag_ok in Hv. symmetry in Hv. rewrite (check_by_etag r q _ Hr Hm Hv).
  rewrite (split_no_comma _ (etag_text_chars t s)). unfold listed. cbn [existsb]. rewrite (tag_no_blanks _ (etag_text_chars t s)), orb_false_r.
  rewrite bool_decide_false by done. cbn [orb]. f_equal. apply bool_decide_ext. destruct Hr as (_ & Hmt & _). unfold DATE_END in Hmt. split; [|intros [-> ->]; done].
  apply etag_text_inj; lia.
Qed.

(** ** Dropping headers *)

Definition named (name : list Z) (h : http_header) : bool := cmpstrn_lower (key h) name.

Definition at_most_one (name : list Z) (hs : list http_header) : Prop := (length (List.filter (named name) hs) <= 1)%nat.

Lemma filter_none {A} (f : A → bool) l : existsb f l = false → List.filter (λ x, negb (f x)) l = l.
Proof. induction l as [|x l IH]; [done|]. cbn [existsb List.filter]. destruct (f x); [done|]. intros Hl. cbn [negb]. by rewrite IH. Qed.

Lemma filter_nil {A} (f : A → bool) l : (length (List.filter f l) <= 0)%nat → existsb f l = false.
Proof. induction l as [|x l IH]; [done|]. cbn [existsb List.filter]. destruct (f x); cbn [length orb]; [lia|done]. Qed.

Lemma delete_filter name hs : at_most_one name hs → http_header_delete hs name = List.filter (λ h, negb (named name h)) hs.
Proof.
  unfold at_most_one. induction hs as [|h hs IH]; [done|]. cbn [http_header_delete List.filter]. fold (named name h). destruct (named name h); cbn [negb length].
  - intros Hl. by rewrite filter_none by (apply filter_nil; lia).
  - intros Hl. by rewrite IH.
Qed.

Lemma remove_filter r name : cstring name → Forall (λ h, cstring (key h)) (rs_header r) → at_most_one name (rs_header r) →
  (httpresponse_header_remove r name).2 = with_headers r (List.filter (λ h, negb (named name h)) (rs_header r)).
Proof.
  intros Hn Hk Hone. unfold httpresponse_header_remove. rewrite (cstr_cstring name Hn), delete_filter by done.
  assert (httpresponse_header_exist r name = existsb (named name) (rs_header r)) as ->.
  { unfold httpresponse_header_exist. clear Hone. induction Hk as [|h hs Hh _ IH]; [done|]. cbn [existsb]. rewrite IH. unfold cmpstr_lower, named. by rewrite (cstr_cstring name Hn), (cstr_cstring _ Hh). }
  destruct (rs_header r) as [|h hs] eqn:E; [cbn; rewrite <- (with_headers_id r) at 1; by rewrite E|]. rewrite <- E. destruct (existsb _ _) eqn:Ex; cbn [negb snd]; [done|]. by rewrite filter_none, with_headers_id.
Qed.

Lemma at_most_filter name f hs : at_most_one name hs → at_most_one name (List.filter f hs).
Proof.
  assert (length (List.filter (named name) (List.filter f hs)) <= length (List.filter (named name) hs))%nat; [|unfold at_most_one; lia].
  induction hs as [|h hs IH]; [done|]. cbn [List.filter]. destruct (f h); cbn [List.filter]; destruct (named name h); cbn [length]; lia.
Qed.

Lemma Forall_filter' {A} (P : A → Prop) f l : Forall P l → Forall P (List.filter f l).
Proof. induction 1; cbn [List.filter]; [done|]. destruct (f x); by try constructor. Qed.

(** A 304 says nothing about a body. *)
Definition dropped (h : http_header) : bool := named (bs "Content-Length") h || named (bs "Transfer-Encoding") h || named (bs "Content-Encoding") h.

Lemma set_not_modified_ok r : Forall (λ h, cstring (key h)) (rs_header r) →
  at_most_one (bs "Content-Length") (rs_header r) → at_most_one (bs "Transfer-Encoding") (rs_header r) → at_most_one (bs "Content-Encoding") (rs_header r) →
  set_not_modified r = Rsp 304 (List.filter (λ h, negb (dropped h)) (rs_header r)) 0 CE_NONE TE_NONE (rs_range r) true (rs_body r) (rs_file r).
Proof.
  intros Hk H1 H2 H3. unfold set_not_modified. set (l := List.filter (λ h, negb (named (bs "Content-Length") h)) (rs_header r)). set (l' := List.filter (λ h, negb (named (bs "Transfer-Encoding") h)) l).
  rewrite (remove_filter (with_status r 304)); [|repeat constructor|done|done]. change (with_headers _ _) with (with_headers (with_status r 304) l).
  rewrite (remove_filter (with_headers (with_status r 304) l)); [|repeat constructor|by apply Forall_filter'|by apply at_most_filter]. change (with_headers _ _) with (with_headers (with_status r 304) l').
  rewrite (remove_filter (with_headers (with_status r 304) l')); [|repeat constructor|by apply Forall_filter', Forall_filter'|by apply at_most_filter, at_most_filter].
  assert (List.filter (λ h, negb (named (bs "Content-Encoding") h)) l' = List.filter (λ h, negb (dropped h)) (rs_header r)) as Hl; [|cbn [rs_header with_headers]; by rewrite Hl].
  unfold l', l, dropped. clear. induction (rs_header r) as [|h hs IH]; [done|]. cbn [List.filter].
  destruct (named (bs "Content-Length") h) eqn:E1, (named (bs "Transfer-Encoding") h) eqn:E2, (named (bs "Content-Encoding") h) eqn:E3;
    repeat (cbn [negb orb List.filter]; rewrite ?E2, ?E3); by rewrite IH.
Qed.

(** The client's copy is still good: its tag is listed, or it names no tag and its date is not before the file's. *)
Definition still_good (q : httprequest) (t s : Z) : Prop :=
  (∃ v, httprequest_header q (bs "If-None-Match") = Some v ∧ (v = [42] ∨ etag_text t s ∈ map strip (split_on 44 v))) ∨
  (httprequest_header q (bs "If-None-Match") = None ∧ ∃ t', t <= t' < DATE_END ∧ httprequest_header q (bs "If-Modified-Since") = http_format_date t' 64).

Lemma still_good_check r q : validated r → conditional_method q = true → still_good q (f_mtime (rs_file r)) (f_size (rs_file r)) →
  check_not_modified (Some q) (with_headers r (rs_header r ++ validators r)) = Some true.
Proof.
  intros Hr Hm [(v & Hv & Hl)|(Hn & t' & Ht & Hv)].
  - rewrite (check_by_etag r q v Hr Hm Hv). f_equal. destruct Hl as [->|Hin]; [done|]. apply orb_true_iff. right. unfold listed. apply existsb_exists.
    apply list_elem_of_In, in_map_iff in Hin as (item & Es & Hi). exists item. split; [done|]. by apply bool_decide_eq_true.
  - destruct Hr as (Ho & Hr & Hrest). rewrite (check_by_date r q t'); try done; [|lia]. f_equal. apply Z.leb_le. lia.
Qed.

(** C5: A client whose copy of a file is still good gets a 304 and nothing else: for a GET or HEAD request that lists the file's tag (or
    "*"), or names a date not before the file's modification, the server sends, through the whole chain of filters and on any
    socket, exactly the status line of a 304 and the headers without those that describe a body, with the validators; no body. *)
Theorem revalidated_not_modified {Zs : Set} `{Zlib Zs} (e : environment) (o : outgoing Zs) (q : httprequest) (events : nat) :
  let r := o_response o in
  let hs := List.filter (λ h, negb (dropped h)) (rs_header r ++ validators r) ++ cache_control r in
  (∀ n, e_alloc e n = true) → chain_ready o → rs_range r = false → e_request e = Some q → conditional_method q = true →
  validated r → still_good q (f_mtime (rs_file r)) (f_size (rs_file r)) →
  Forall header_ok (rs_header r) → Forall (λ h, cstring (key h)) (rs_header r) →
  at_most_one (bs "Content-Length") (rs_header r) → at_most_one (bs "Transfer-Encoding") (rs_header r) → at_most_one (bs "Content-Encoding") (rs_header r) →
  head_size (Response 304 hs) <= BUFO_MAX_CAPACITY → (length (script (o_socket o)) <= events)%nat →
  delivers e events o (head_bytes (bs "304 Not Modified" ++ CRLF) hs).
Proof.
  intros r hs Ha (Hnm & Hrg & Hdt & Hwr & Hns) Hrange Hq Hm Hv Hg Hok Hk H1 H2 H3 Hsz Hev.
  set (r1 := with_headers r (rs_header r ++ validators r)). set (r2 := Rsp 304 (List.filter (λ h, negb (dropped h)) (rs_header r ++ validators r)) 0 CE_NONE TE_NONE (rs_range r) true (rs_body r) (rs_file r)).
  assert (∀ name, List.filter (named name) (validators r) = [] → at_most_one name (rs_header r) → at_most_one name (rs_header r1)) as Hone.
  { intros name Hnil Hone. unfold r1, at_most_one. cbn [rs_header with_headers]. rewrite List.filter_app, Hnil, app_nil_r. exact Hone. }
  assert (∀ name, named name (header (bs "Last-Modified") []) = false → named name (header (bs "ETag") []) = false → List.filter (named name) (validators r) = []) as Hval.
  { intros name N1 N2. unfold validators. destruct (_ && _); [|done]. unfold named in *. cbn [List.filter key header] in *. by rewrite N1, N2. }
  assert (conditional_head e r = Some r2) as Hcond.
  { unfold conditional_head. rewrite add_validators_ok by (done || apply Hv). cbn [mbind option_bind]. rewrite Hq, still_good_check by done. cbn [mbind option_bind]. f_equal.
    apply (set_not_modified_ok r1); [|by apply Hone; [apply Hval|]..]. unfold r1. cbn [rs_header with_headers]. apply Forall_app. split; [done|]. unfold validators. destruct (_ && _); repeat constructor. }
  assert (data_head e r2 = Some (with_headers r2 hs)) as Hdata by (rewrite data_head_304 by done; done).
  rewrite <- (app_nil_r (head_bytes _ _)). apply (serve_head e o (with_headers r2 hs)); try done.
  - right; right; by left.
  - intros n s b Hn. apply serve_nothing; auto.
  - split; [done|]. apply (chain_head e o r2 (with_headers r2 hs)); try done. right; right; by left.
  - apply head_left_fresh; try done. unfold hs. apply Forall_app. split; [|apply cache_control_okay]. apply Forall_filter', Forall_app. split; [done|apply validators_okay].
Qed.

(** ** Inputs at which the properties apply *)

#[local] Instance no_zlib : Zlib unit := { deflate_init := None; deflate_step z input _ _ := (Z_STREAM_ERROR, [], input, z) }.

Definition simple_env (q : option httprequest) : environment := Environment (λ _, true) 0 [] (λ _, 0) 1 q.

Definition simple_out (r : httpresponse) (s : socket) : outgoing unit :=
  Outgoing not_modified_create (range_module_create []) data_create gzip_create http_chunked_create (Bufo None 0 0 0 false false) r false false s.

Lemma simple_ready r s : chain_ready (simple_out r s).
Proof. repeat split. Qed.

Lemma response_delivered_witness :
  delivers (simple_env None) 2 (simple_out (memory_response TE_NONE (bs "hello")) (Socket [Sent 30; Interrupted] [] false))
    (head_bytes (bs "200 OK" ++ CRLF) [header (bs "Content-Length") (bs "5")] ++ bs "hello").
Proof.
  apply (response_delivered (simple_env None) (simple_out (memory_response TE_NONE (bs "hello")) (Socket [Sent 30; Interrupted] [] false)) (bs "hello") (bs "200 OK" ++ CRLF) 2);
    try done; [by apply memory_sending|by left].
Defined.

Definition sample_file : file := File true 5 784111777 (bs "hello") [].
Definition file_response : httpresponse := Rsp 200 [] 0 CE_NONE TE_NONE false false (Bufo None 0 0 0 false false) sample_file.

Definition conditional_request (m : route_methods) (hs : list RequestParser.http_header) : httprequest :=
  Request m HTTP1_VER_1_1 None None [] (RequestQueries None None) hs [] [] (Payload false []).

Lemma sample_validated : validated file_response.
Proof. repeat split. Qed.

Lemma etag_identifies_version_witness :
  let q := conditional_request ROUTE_GET [Header (bs "if-none-match") (etag_text 784111777 4)] in
  check_not_modified (Some q) (with_headers file_response (rs_header file_response ++ validators file_response)) = Some false.
Proof.
  intros q. rewrite (etag_identifies_version file_response q 784111777 4); [reflexivity|exact sample_validated|reflexivity|lia|lia|cbn; lia|reflexivity].
Defined.

Lemma revalidated_not_modified_witness :
  let q := conditional_request ROUTE_HEAD [Header (bs "If-Modified-Since") (bs "Sun, 06 Nov 1994 08:49:38 GMT")] in
  let s := Socket [Sent 30; Interrupted] [] false in
  delivers (simple_env (Some q)) 2 (simple_out file_response s)
    (head_bytes (bs "304 Not Modified" ++ CRLF) (List.filter (λ h, negb (dropped h)) (rs_header file_response ++ validators file_response) ++ cache_control file_response)).
Proof.
  intros q s. refine (revalidated_not_modified (simple_env (Some q)) (simple_out file_response s) q 2 _ _ _ _ _ _ _ _ _ _ _ _ _ _).
  - done.
  - apply simple_ready.
  - done.
  - done.
  - done.
  - exact sample_validated.
  - right. split; [done|]. exists 784111778. split; [cbn; unfold DATE_END; lia|reflexivity].
  - constructor.
  - constructor.
  - unfold at_most_one. cbn. lia.
  - unfold at_most_one. cbn. lia.
  - unfold at_most_one. cbn. lia.
  - by vm_compute.
  - cbn. lia.
Defined.
