(* ===== verification/FormData.v ===== *)
(** The parser of parameter lists ([parsers/formdataparser.c]): Content-Disposition of a part, Content-Type of a multipart body.

    A [str_t] is the list of its bytes. The fields are the list from [field] to [last_field]. The text being collected is in the
    buffer of [FORMDATABUFSIZ] bytes, and a write outside it is [None] of the operation. *)

From S2P Require Import Prelude Helpers QueryParser.

(** ** The model *)

Definition FORMDATABUFSIZ : Z := 1024.
Definition SIZEOF_FORMDATAFIELD : Z := 120.

Inductive formdataparser_stage : Set :=
  | FORMDATA_SEMICOLON | FORMDATA_SKIP | FORMDATA_KEY | FORMDATA_EQUAL | FORMDATA_VALUE | FORMDATA_AFTER_VALUE.

#[export] Instance formdataparser_stage_eq : EqDecision formdataparser_stage.
Proof. solve_decision. Defined.

Record formdatafield : Set := Field { fd_key : list Z; fd_value : list Z }.

Record formdataparser : Set := FormDataParser {
  fd_buffer : list Z;
  fd_disposition_type : list Z;
  fd_fields : list formdatafield;
  fd_size : Z;
  fd_stage : formdataparser_stage;
  fd_quote : bool }.

(** The buffer is not initialised. *)
Definition formdataparser_init (junk : list Z) (disposition_type : list Z) : formdataparser :=
  FormDataParser junk disposition_type [] 0 FORMDATA_SEMICOLON false.

Definition formdataparser_clear (p : formdataparser) : formdataparser :=
  FormDataParser (replicate (Z.to_nat FORMDATABUFSIZ) 0) (fd_disposition_type p) [] 0 FORMDATA_SEMICOLON false.

Definition with_stage (p : formdataparser) (st : formdataparser_stage) : formdataparser :=
  FormDataParser (fd_buffer p) (fd_disposition_type p) (fd_fields p) (fd_size p) st (fd_quote p).
Definition with_quote (p : formdataparser) (q : bool) : formdataparser :=
  FormDataParser (fd_buffer p) (fd_disposition_type p) (fd_fields p) (fd_size p) (fd_stage p) q.
Definition with_fields (p : formdataparser) (l : list formdatafield) (size : Z) : formdataparser :=
  FormDataParser (fd_buffer p) (fd_disposition_type p) l size (fd_stage p) (fd_quote p).

(** [parser->buffer[parser->size++] = c] *)
Definition fd_push (p : formdataparser) (c : Z) : option formdataparser :=
  b ← mem_set (fd_buffer p) (fd_size p) c;
  Some (FormDataParser b (fd_disposition_type p) (fd_fields p) (fd_size p + 1) (fd_stage p) (fd_quote p)).

Definition isalpha (c : Z) : bool := ((65 <=? c) && (c <=? 90)) || ((97 <=? c) && (c <=? 122)).

Section Alloc.
Variable alloc : Z → bool.

(** 1 or 0, and the parser. *)
Definition formdataparser_save_key (p : formdataparser) : option (bool * formdataparser) :=
  if fd_size p =? 0 then Some (false, p)
  else if negb (alloc SIZEOF_FORMDATAFIELD) then Some (false, p)
  else
    k ← mem_read (fd_buffer p) 0 (fd_size p);
    Some (true, with_fields p (fd_fields p ++ [Field k []]) 0).

(** [char] is signed: [schar]. *)
Definition formdataparser_hex (c : Z) : Z :=
  let c := schar c in
  if (48 <=? c) && (c <=? 57) then c - 48
  else if (65 <=? c) && (c <=? 70) then c - 65 + 10
  else if (97 <=? c) && (c <=? 102) then c - 97 + 10
  else -1.

(** The bytes appended to [dst], and whether decoding succeeded. *)
Fixpoint formdataparser_percent_decode (src : list Z) : bool * list Z :=
  match src with
  | [] => (true, [])
  | c :: rest =>
      if c =? 37 then
        match rest with
        | a :: b :: rest' =>
            let hi := formdataparser_hex a in
            let lo := formdataparser_hex b in
            if (hi <? 0) || (lo <? 0) then (false, [])
            else let '(ok, out) := formdataparser_percent_decode rest' in (ok, uchar (Z.lor (Z.shiftl hi 4) lo) :: out)
        | _ => (false, [])
        end
      else let '(ok, out) := formdataparser_percent_decode rest in (ok, c :: out)
  end.

(** [while (i < size && buf[i] != '\'') i++; i++]: what follows the next quote; [None] when there is none. *)
Fixpoint after_quote (s : list Z) : option (list Z) :=
  match s with
  | [] => None
  | c :: s' => if c =? 39 then Some s' else after_quote s'
  end.

(** The value of the last field. *)
Definition set_last_value (l : list formdatafield) (v : list Z) : list formdatafield :=
  match last l with Some f => removelast l ++ [Field (fd_key f) v] | None => l end.

Definition formdataparser_save_value (p : formdataparser) : option (bool * formdataparser) :=
  match last (fd_fields p) with
  | None => Some (false, p)
  | Some f =>
      text ← mem_read (fd_buffer p) 0 (fd_size p);
      if bool_decide (last (fd_key f) = Some 42) then
        match after_quote text ≫= after_quote with
        | None | Some [] => Some (false, p)
        | Some v =>
            let '(ok, out) := formdataparser_percent_decode v in
            if ok then Some (true, with_fields p (set_last_value (fd_fields p) (fd_value f ++ out)) 0)
            else Some (false, with_fields p (set_last_value (fd_fields p) (fd_value f ++ out)) (fd_size p))
        end
      else Some (true, with_fields p (set_last_value (fd_fields p) text) 0)
  end.

(** A byte of the text: whether to go on, whether the next byte is escaped, and the parser. *)
Definition go (escaped : bool) (p : formdataparser) : option (bool * bool * formdataparser) := Some (true, escaped, p).
Definition fail (escaped : bool) (p : formdataparser) : option (bool * bool * formdataparser) := Some (false, escaped, p).

Definition saved_key (escaped : bool) (p : formdataparser) (st : formdataparser_stage) : option (bool * bool * formdataparser) :=
  '(ok, p) ← formdataparser_save_key p;
  if ok : bool then go escaped (with_stage p st) else fail escaped p.

Definition saved_value (escaped : bool) (p : formdataparser) (st : formdataparser_stage) (quote : bool) : option (bool * bool * formdataparser) :=
  '(ok, p) ← formdataparser_save_value p;
  if ok : bool then go escaped (with_quote (with_stage p st) quote) else fail escaped p.

Definition is_key_char (c : Z) : bool := isalpha c || (c =? 45) || (c =? 42).

Definition formdataparser_step (c : Z) (escaped : bool) (p : formdataparser) : option (bool * bool * formdataparser) :=
  match fd_stage p with
  | FORMDATA_SEMICOLON =>
      if c =? 59 then go escaped (with_stage p FORMDATA_SKIP)
      else if c =? 32 then go escaped p
      else if isalpha c then p ← fd_push (with_stage p FORMDATA_KEY) c; go escaped p
      else fail escaped p
  | FORMDATA_SKIP =>
      if c =? 32 then go escaped p
      else if is_key_char c then p ← fd_push (with_stage p FORMDATA_KEY) c; go escaped p
      else fail escaped p
  | FORMDATA_KEY =>
      if c =? 61 then saved_key escaped (with_stage p FORMDATA_VALUE) FORMDATA_VALUE
      else if c =? 59 then saved_key escaped (with_stage p FORMDATA_SKIP) FORMDATA_SKIP
      else if c =? 32 then saved_key escaped p FORMDATA_EQUAL
      else if is_key_char c then p ← fd_push p c; go escaped p
      else fail escaped p
  | FORMDATA_EQUAL =>
      if c =? 32 then go escaped p
      else if c =? 61 then go escaped (with_stage p FORMDATA_VALUE)
      else fail escaped p
  | FORMDATA_VALUE =>
      if fd_quote p then
        if escaped then
          if (c =? 34) || (c =? 92) then p ← fd_push p c; go false p
          else p ← fd_push p 92; p ← fd_push p c; go false p
        else if c =? 92 then go true p
        else if c =? 34 then saved_value escaped p FORMDATA_AFTER_VALUE false
        else p ← fd_push p c; go escaped p
      else if c =? 34 then
        if fd_size p =? 0 then go escaped (with_quote p true) else p ← fd_push p c; go escaped p
      else if c =? 32 then
        if fd_size p =? 0 then go escaped p else saved_value escaped p FORMDATA_SEMICOLON (fd_quote p)
      else if c =? 59 then saved_value escaped p FORMDATA_SEMICOLON (fd_quote p)
      else p ← fd_push p c; go escaped p
  | FORMDATA_AFTER_VALUE =>
      if c =? 32 then go escaped p
      else if c =? 59 then go escaped (with_stage p FORMDATA_SKIP)
      else fail escaped p
  end.

Fixpoint formdataparser_loop (buffer : list Z) (escaped : bool) (p : formdataparser) : option (bool * formdataparser) :=
  match buffer with
  | [] => Some (true, p)
  | c :: buffer' =>
      '(ok, escaped, p) ← formdataparser_step c escaped p;
      if ok : bool then formdataparser_loop buffer' escaped p else Some (false, p)
  end.

(** The length of the common part, or [None] at the first difference. *)
Fixpoint disposition_check (buffer type : list Z) : option (list Z) :=
  match buffer, type with
  | c :: buffer', t :: type' => if c =? t then disposition_check buffer' type' else None
  | _, _ => Some buffer
  end.

Definition formdataparser_parse (p : formdataparser) (buffer : list Z) : option (bool * formdataparser) :=
  if zlen buffer =? 0 then Some (false, p)
  else if FORMDATABUFSIZ <? zlen buffer then Some (false, p)
  else
    match disposition_check buffer (cstr (fd_disposition_type p)) with
    | None => Some (false, p)
    | Some rest =>
        '(ok, p) ← formdataparser_loop rest false p;
        if negb ok then Some (false, p)
        else match fd_stage p with
        | FORMDATA_VALUE => if fd_quote p then Some (false, p) else formdataparser_save_value p
        | FORMDATA_KEY | FORMDATA_EQUAL => Some (false, p)
        | _ => Some (true, p)
        end
    end.

(** The value of the first [field*], or of the last [field]. *)
Fixpoint find_field (l : list formdatafield) (field : list Z) (without_star : option (list Z)) : option (list Z) :=
  match l with
  | [] => without_star
  | f :: l' =>
      if bool_decide (cstr (fd_key f) = cstr field) then find_field l' field (Some (fd_value f))
      else if bool_decide (fd_key f = cstr field ++ [42]) then Some (fd_value f)
      else find_field l' field without_star
  end.
Definition formdataparser_find_field (p : formdataparser) (field : list Z) : option (list Z) := find_field (fd_fields p) field None.
End Alloc.

Definition sample_text : list Z := bs "form-data; name=" ++ [34] ++ bs "a" ++ [92; 34] ++ bs "b" ++ [34] ++ bs "; filename*=UTF-8''x%2Fy".
Example formdata_sample :
  (λ r : bool * formdataparser, (r.1, fd_fields r.2)) <$> formdataparser_parse (λ _, true) (formdataparser_init (replicate 1024 7) (bs "form-data")) sample_text =
  Some (true, [Field (bs "name") ([97; 34; 98]); Field (bs "filename*") (bs "x/y")]).
Proof. vm_compute. reflexivity. Qed.

(** ** Lemmas *)

(** What the parser holds: its stage, its fields and the text collected so far. *)
Record holds (p : formdataparser) (st : formdataparser_stage) (q : bool) (fields : list formdatafield) (w : list Z) : Prop := {
  ho_stage : fd_stage p = st;
  ho_quote : fd_quote p = q;
  ho_fields : fd_fields p = fields;
  ho_size : fd_size p = zlen w;
  ho_text : take (length w) (fd_buffer p) = w;
  ho_room : zlen (fd_buffer p) = FORMDATABUFSIZ }.

Lemma holds_init junk type : zlen junk = FORMDATABUFSIZ → holds (formdataparser_init junk type) FORMDATA_SEMICOLON false [] [].
Proof. by constructor. Qed.

Lemma holds_stage p st q fields w st' : holds p st q fields w → holds (with_stage p st') st' q fields w.
Proof. intros []. by constructor. Qed.

Lemma holds_quote p st q fields w q' : holds p st q fields w → holds (with_quote p q') st q' fields w.
Proof. intros []. by constructor. Qed.

Lemma fd_push_ok p st q fields w c : holds p st q fields w → zlen w < FORMDATABUFSIZ → ∃ p', fd_push p c = Some p' ∧ holds p' st q fields (w ++ [c]).
Proof.
  intros [H1 H2 H3 H4 H5 H6] Hw. unfold fd_push. pose proof (zlen_nonneg w). unfold mem_set. rewrite H4. rewrite (proj2 (Z.leb_le _ _)), (proj2 (Z.ltb_lt _ _)) by lia. cbn [andb mbind option_bind].
  eexists. split; [done|]. constructor; cbn; try done; [by rewrite zlen_app| |unfold zlen in *; by rewrite length_insert].
  rewrite length_app. cbn [length]. replace (length w + 1)%nat with (S (length w)) by lia. rewrite (take_S_r _ _ c).
  - rewrite take_insert_ge by (unfold zlen; lia). by rewrite H5.
  - rewrite <- (Nat2Z.id (length w)). apply list_lookup_insert_eq. unfold zlen in *. lia.
Qed.

Lemma holds_bound p st q fields w : holds p st q fields w → zlen w <= FORMDATABUFSIZ.
Proof. intros [_ _ _ _ H5 H6]. apply (f_equal length) in H5. rewrite length_take in H5. unfold zlen in *. lia. Qed.

Lemma holds_read p st q fields w : holds p st q fields w → mem_read (fd_buffer p) 0 (fd_size p) = Some w.
Proof.
  intros Hh. pose proof (holds_bound _ _ _ _ _ Hh). destruct Hh as [_ _ _ H4 H5 H6]. rewrite H4.
  rewrite mem_read_Some by (pose proof (zlen_nonneg w); lia). rewrite drop_0. unfold zlen. by rewrite Nat2Z.id, H5.
Qed.

(** *** Any text *)

Definition field_wf (f : formdatafield) : Prop := fd_key f ≠ [] ∧ forallb is_key_char (fd_key f) = true ∧ zlen (fd_key f) <= FORMDATABUFSIZ ∧ zlen (fd_value f) <= FORMDATABUFSIZ.

Lemma percent_length src : zlen (formdataparser_percent_decode src).2 <= zlen src.
Proof.
  induction src as [src IH] using (induction_ltof1 _ (@length Z)). unfold ltof in IH. destruct src as [|c rest]; [done|]. cbn [formdataparser_percent_decode]. rewrite zlen_cons. destruct (c =? 37).
  - pose proof (zlen_nonneg rest). destruct rest as [|a [|b rest]]; [cbn [snd]; change (zlen []) with 0 in *; lia|cbn [snd]; change (zlen []) with 0; lia|]. destruct (_ || _); [cbn [snd]; change (zlen []) with 0; lia|].
    specialize (IH rest ltac:(simpl; lia)). destruct (formdataparser_percent_decode rest) as [ok out]. cbn [snd] in *. rewrite !zlen_cons in *. lia.
  - specialize (IH rest ltac:(simpl; lia)). destruct (formdataparser_percent_decode rest) as [ok out]. cbn [snd] in *. rewrite zlen_cons. lia.
Qed.

Lemma after_quote_length s s' : after_quote s = Some s' → zlen s' <= zlen s.
Proof. induction s as [|c s IH]; [done|]. cbn [after_quote]. rewrite zlen_cons. destruct (c =? 39); [intros [= <-]; lia|]. intros E. specialize (IH E). lia. Qed.

Lemma set_last_value_snoc l f v : set_last_value (l ++ [f]) v = l ++ [Field (fd_key f) v].
Proof. unfold set_last_value. rewrite last_snoc, removelast_last. done. Qed.

Lemma save_key_ok alloc p st q fields w : holds p st q fields w → w ≠ [] → alloc SIZEOF_FORMDATAFIELD = true →
  ∃ p', formdataparser_save_key alloc p = Some (true, p') ∧ holds p' st q (fields ++ [Field w []]) [].
Proof.
  intros Hh Hw Ha. unfold formdataparser_save_key. rewrite (holds_read _ _ _ _ _ Hh), Ha. cbn [negb mbind option_bind].
  destruct (Z.eqb_spec (fd_size p) 0) as [E|]; [destruct Hh as [_ _ _ H4 _ _]; rewrite H4 in E; by apply zlen_0_nil in E|].
  eexists. split; [done|]. destruct Hh as [H1 H2 H3 _ _ H6]. constructor; cbn; try done. by rewrite H3.
Qed.

Lemma save_key_inv alloc p st q fields w : holds p st q fields w →
  (formdataparser_save_key alloc p = Some (false, p)) ∨ (w ≠ [] ∧ ∃ p', formdataparser_save_key alloc p = Some (true, p') ∧ holds p' st q (fields ++ [Field w []]) []).
Proof.
  intros Hh. destruct (decide (w = [])) as [->|Hw].
  - left. unfold formdataparser_save_key. destruct Hh as [_ _ _ -> _ _]. done.
  - destruct (alloc SIZEOF_FORMDATAFIELD) eqn:Ea; [right; split; [done|]; by apply save_key_ok|]. left. unfold formdataparser_save_key. rewrite Ea. by destruct (fd_size p =? 0).
Qed.

Lemma Forall_last_wf l f v : Forall field_wf (l ++ [f]) → zlen v <= FORMDATABUFSIZ → Forall field_wf (set_last_value (l ++ [f]) v).
Proof.
  rewrite set_last_value_snoc, !Forall_app. intros [Hl Hf] Hv. split; [done|]. apply Forall_singleton. apply Forall_singleton in Hf as (? & ? & ? & ?). by repeat split.
Qed.

Lemma save_value_inv p st q fields w : holds p st q fields w → Forall field_wf fields → (∀ l f, fields = l ++ [f] → fd_value f = []) →
  ∃ ok p', formdataparser_save_value p = Some (ok, p') ∧ Forall field_wf (fd_fields p') ∧ (ok = true → ∃ fields', holds p' st q fields' [] ∧ Forall field_wf fields').
Proof.
  intros Hh Hf Hnew. pose proof (holds_bound _ _ _ _ _ Hh) as Hb. unfold formdataparser_save_value. rewrite (holds_read _ _ _ _ _ Hh). destruct Hh as [H1 H2 H3 H4 H5 H6]. rewrite H3.
  destruct fields as [|f l _] using rev_ind; [cbn [last]; exists false, p; by rewrite H3|]. rewrite last_snoc. cbn [mbind option_bind]. specialize (Hnew l f eq_refl).
  assert (∀ v n, zlen v <= FORMDATABUFSIZ → Forall field_wf (fd_fields (with_fields p (set_last_value (l ++ [f]) v) n))) as Hwf by (intros v n Hv; cbn; by apply Forall_last_wf).
  assert (∀ v, zlen v <= FORMDATABUFSIZ → ∃ fields', holds (with_fields p (set_last_value (l ++ [f]) v) 0) st q fields' [] ∧ Forall field_wf fields') as Hho.
  { intros v Hv. eexists. split; [by constructor|]. by apply Forall_last_wf. }
  case_bool_decide; [|eauto 10]. rewrite Hnew. cbn [app].
  destruct (after_quote w) as [s1|] eqn:E1; cbn [mbind option_bind]; [|by exists false, p; rewrite H3]. destruct (after_quote s1) as [s2|] eqn:E2; [|by exists false, p; rewrite H3].
  apply after_quote_length in E1, E2. destruct s2 as [|c s2]; [by exists false, p; rewrite H3|]. pose proof (percent_length (c :: s2)) as Hl.
  destruct (formdataparser_percent_decode (c :: s2)) as [[|] out]; cbn [snd] in Hl; [eexists true, _|eexists false, _]; (split; [done|]); (split; [apply Hwf; lia|]); [intros _; apply Hho; lia|done].
Qed.

(** Between two bytes: [n] bytes of the text are to come. *)
Record between (p : formdataparser) (escaped : bool) (n : Z) (st : formdataparser_stage) (q : bool) (fields : list formdatafield) (w : list Z) : Prop := {
  bw_holds : holds p st q fields w;
  bw_room : zlen w + (if escaped then 1 else 0) + n <= FORMDATABUFSIZ;
  bw_escaped : escaped = true → st = FORMDATA_VALUE ∧ q = true;
  bw_empty : st ≠ FORMDATA_KEY → st ≠ FORMDATA_VALUE → w = [];
  bw_key : st = FORMDATA_KEY → forallb is_key_char w = true;
  bw_quote : q = true → st = FORMDATA_VALUE;
  bw_fields : Forall field_wf fields;
  bw_new : st = FORMDATA_VALUE ∨ st = FORMDATA_EQUAL → ∀ l f, fields = l ++ [f] → fd_value f = [] }.

Definition between_ok (p : formdataparser) (escaped : bool) (n : Z) : Prop := ∃ st q fields w, between p escaped n st q fields w.

(** A step ends in such a state, or stops with well-formed fields. *)
Definition step_fine (n : Z) (r : option (bool * bool * formdataparser)) : Prop :=
  ∃ ok escaped p, r = Some (ok, escaped, p) ∧ Forall field_wf (fd_fields p) ∧ (ok = true → between_ok p escaped n).

Lemma fine_go p escaped n st q fields w : between p escaped n st q fields w → step_fine n (go escaped p).
Proof. intros Hb. exists true, escaped, p. split; [done|]. split; [|intros _; by exists st, q, fields, w]. pose proof (ho_fields _ _ _ _ _ (bw_holds _ _ _ _ _ _ _ Hb)) as ->. apply Hb. Qed.

Lemma fine_fail p escaped n fields : fd_fields p = fields → Forall field_wf fields → step_fine n (fail escaped p).
Proof. intros <- Hf. by exists false, escaped, p. Qed.

Lemma fine_push p n st q fields w c escaped' : holds p st q fields w → zlen w < FORMDATABUFSIZ →
  (∀ p', holds p' st q fields (w ++ [c]) → step_fine n (go escaped' p')) → step_fine n (p ← fd_push p c; go escaped' p).
Proof. intros Hh Hw Hk. destruct (fd_push_ok p st q fields w c Hh Hw) as (p' & -> & Hp'). cbn [mbind option_bind]. by apply Hk. Qed.

Lemma fine_saved_key alloc p st q fields w n escaped st' : holds p st q fields w → forallb is_key_char w = true → Forall field_wf fields → 0 <= n <= FORMDATABUFSIZ →
  escaped = false → q = false → st' ≠ FORMDATA_KEY → step_fine n (saved_key alloc escaped p st').
Proof.
  intros Hh Hk Hf Hn -> -> Hst. unfold saved_key. destruct (save_key_inv alloc p st false fields w Hh) as [->|(Hw & p' & -> & Hh')]; cbn [mbind option_bind].
  - eapply fine_fail; [apply Hh|done].
  - pose proof (holds_bound _ _ _ _ _ Hh). apply (fine_go _ _ _ st' false (fields ++ [Field w []]) []). constructor; try done; [by eapply holds_stage|change (zlen []) with 0; lia| |].
    + apply Forall_app. split; [done|]. by apply Forall_singleton.
    + intros _ l f E. by apply app_inj_2 in E as [_ [= <-]].
Qed.

Lemma fine_saved_value p st q fields w n escaped st' q' : holds p st q fields w → Forall field_wf fields → (∀ l f, fields = l ++ [f] → fd_value f = []) → 0 <= n <= FORMDATABUFSIZ →
  escaped = false → q' = false → st' = FORMDATA_SEMICOLON ∨ st' = FORMDATA_AFTER_VALUE → step_fine n (saved_value escaped p st' q').
Proof.
  intros Hh Hf Hnew Hn -> -> Hst. unfold saved_value. destruct (save_value_inv p st q fields w Hh Hf Hnew) as ([|] & p' & -> & Hf' & Hok); cbn [mbind option_bind]; [|by eapply fine_fail].
  destruct (Hok eq_refl) as (fields' & Hh' & Hwf'). apply (fine_go _ _ _ st' false fields' []). constructor; try done; [by eapply holds_quote, holds_stage|change (zlen []) with 0; lia|by destruct Hst as [-> | ->]; intros [?|?]].
Qed.

Lemma step_ok alloc p escaped n st q fields w c : between p escaped (n + 1) st q fields w → 0 <= n → step_fine n (formdataparser_step alloc c escaped p).
Proof.
  intros [Hh Hr He Hemp Hk Hq Hf Hnew] Hn. pose proof (holds_bound _ _ _ _ _ Hh) as Hb. pose proof (zlen_nonneg w) as Hw0. unfold formdataparser_step.
  pose proof Hh as [-> Hquote Hfields _ _ _].
  assert (∀ p' e' w' st', holds p' st' q fields w' → zlen w' + (if e' : bool then 1 else 0) <= zlen w + (if escaped then 1 else 0) + 1 → (e' = true → st' = FORMDATA_VALUE ∧ q = true) →
    (st' ≠ FORMDATA_KEY → st' ≠ FORMDATA_VALUE → w' = []) → (st' = FORMDATA_KEY → forallb is_key_char w' = true) → (q = true → st' = FORMDATA_VALUE) → (st' = FORMDATA_VALUE ∨ st' = FORMDATA_EQUAL → st = FORMDATA_VALUE ∨ st = FORMDATA_EQUAL) →
    step_fine n (go e' p')) as Hgo.
  { intros p' e' w' st' Hh' Hr' He' Hemp' Hk' Hq' Hn'. apply (fine_go _ _ _ st' q fields w'). constructor; try done; [lia|]. intros Hv. apply Hnew. auto. }
  assert (q = false ∨ st = FORMDATA_VALUE) as Hqf by (destruct q; auto).
  assert (∀ x, is_key_char x = isalpha x || (x =? 45) || (x =? 42)) as Hkc by done.
  destruct st.
  - destruct Hqf as [->|?]; [|done]. assert (w = []) as -> by auto. assert (escaped = false) as -> by (destruct escaped; [by destruct He|done]).
    case_if; [apply (Hgo _ _ [] FORMDATA_SKIP); try done; [by eapply holds_stage|by intros [?|?]]|]. case_if; [by apply (Hgo _ _ [] FORMDATA_SEMICOLON)|].
    destruct (isalpha c) eqn:Ea; [|by eapply fine_fail]. eapply fine_push; [by eapply holds_stage|done|]. intros p' Hp'. apply (Hgo _ _ [c] FORMDATA_KEY); try done; [intros _; cbn [forallb]; by rewrite Hkc, Ea|by intros [?|?]].
  - destruct Hqf as [->|?]; [|done]. assert (w = []) as -> by auto. assert (escaped = false) as -> by (destruct escaped; [by destruct He|done]). case_if; [by apply (Hgo _ _ [] FORMDATA_SKIP)|].
    destruct (is_key_char c) eqn:Ea; [|by eapply fine_fail]. eapply fine_push; [by eapply holds_stage|done|]. intros p' Hp'. apply (Hgo _ _ [c] FORMDATA_KEY); try done; [intros _; cbn [forallb]; by rewrite Ea|by intros [?|?]].
  - destruct Hqf as [->|?]; [|done]. assert (escaped = false) as -> by (destruct escaped; [by destruct He|done]). specialize (Hk eq_refl).
    case_if; [apply (fine_saved_key _ _ FORMDATA_VALUE false fields w); try done; [by eapply holds_stage|lia]|]. case_if; [apply (fine_saved_key _ _ FORMDATA_SKIP false fields w); try done; [by eapply holds_stage|lia]|].
    case_if; [apply (fine_saved_key _ _ FORMDATA_KEY false fields w); try done; lia|].
    destruct (is_key_char c) eqn:Ea; [|by eapply fine_fail]. eapply fine_push; [done|lia|]. intros p' Hp'. apply (Hgo _ _ (w ++ [c]) FORMDATA_KEY); try done; [rewrite zlen_app; change (zlen [c]) with 1; lia|intros _; rewrite forallb_app, Hk; cbn; by rewrite Ea].
  - destruct Hqf as [->|?]; [|done]. assert (w = []) as -> by auto. assert (escaped = false) as -> by (destruct escaped; [by destruct He|done]). case_if; [by apply (Hgo _ _ [] FORMDATA_EQUAL)|].
    case_if; [apply (Hgo _ _ [] FORMDATA_VALUE); try done; [by eapply holds_stage|auto]|by eapply fine_fail].
  - rewrite Hquote. assert (∀ p' w', holds p' FORMDATA_VALUE q fields w' → zlen w' <= zlen w + (if escaped then 1 else 0) + 1 → step_fine n (go false p')) as Hval.
    { intros p' w' Hp' Hz. apply (Hgo _ _ w' FORMDATA_VALUE); try done; lia. }
    assert (zlen w < FORMDATABUFSIZ → step_fine n (p ← fd_push p c; go false p)) as Hpush.
    { intros Hlt. eapply fine_push; [done|done|]. intros p' Hp'. apply (Hval p' _ Hp'). rewrite zlen_app. change (zlen [c]) with 1. destruct escaped; lia. }
    destruct q.
    + destruct escaped.
      * case_if; [apply Hpush; lia|].
        destruct (fd_push_ok p _ _ _ _ 92 Hh ltac:(lia)) as (p1 & -> & Hp1). cbn [mbind option_bind]. eapply fine_push; [done|rewrite zlen_app; change (zlen [92]) with 1; lia|]. intros p' Hp'. apply (Hval p' _ Hp').
        rewrite !zlen_app. change (zlen [c]) with 1. change (zlen [92]) with 1. lia.
      * case_if; [apply (Hgo _ _ w FORMDATA_VALUE); try done; lia|]. case_if; [apply (fine_saved_value _ FORMDATA_VALUE true fields w); try done; [by apply Hnew; left|lia|auto]|apply Hpush; lia].
    + assert (escaped = false) as -> by (destruct escaped; [by destruct He|done]).
      assert (step_fine n (saved_value false p FORMDATA_SEMICOLON false)) as Hsave by (apply (fine_saved_value _ FORMDATA_VALUE false fields w); try done; [by apply Hnew; left|lia|auto]).
      case_if; [case_if; [|apply Hpush; lia]|]. { apply (fine_go _ _ _ FORMDATA_VALUE true fields w). constructor; try done; [by eapply holds_quote|lia]. }
      case_if; [case_if; [apply (Hval p w Hh); lia|done]|]. case_if; [done|apply Hpush; lia].
  - destruct Hqf as [->|?]; [|done]. assert (w = []) as -> by auto. assert (escaped = false) as -> by (destruct escaped; [by destruct He|done]). case_if; [by apply (Hgo _ _ [] FORMDATA_AFTER_VALUE)|].
    case_if; [apply (Hgo _ _ [] FORMDATA_SKIP); try done; [by eapply holds_stage|by intros [?|?]]|by eapply fine_fail].
Qed.

Lemma loop_ok alloc buffer : ∀ escaped p, between_ok p escaped (zlen buffer) →
  ∃ ok p', formdataparser_loop alloc buffer escaped p = Some (ok, p') ∧ Forall field_wf (fd_fields p') ∧ (ok = true → ∃ e', between_ok p' e' 0).
Proof.
  induction buffer as [|c buffer IH]; intros escaped p (st & q & fields & w & Hb); cbn [formdataparser_loop].
  - exists true, p. split; [done|]. split; [pose proof (ho_fields _ _ _ _ _ (bw_holds _ _ _ _ _ _ _ Hb)) as ->; apply Hb|]. intros _. exists escaped, st, q, fields, w. exact Hb.
  - replace (zlen (c :: buffer)) with (zlen buffer + 1) in Hb by (rewrite zlen_cons; lia). destruct (step_ok alloc p escaped (zlen buffer) st q fields w c) as (ok & e' & p' & -> & Hf & Hok); [done|apply zlen_nonneg|].
    cbn [mbind option_bind]. destruct ok; [by apply IH, Hok|]. by exists false, p'.
Qed.

Lemma disposition_length buffer : ∀ type rest, disposition_check buffer type = Some rest → zlen rest <= zlen buffer.
Proof.
  induction buffer as [|c buffer IH]; intros [|t type] rest; cbn [disposition_check]; try (intros [= <-]; lia). rewrite zlen_cons. destruct (c =? t); [|done]. intros E. specialize (IH _ _ E). lia.
Qed.

(** The parameter parser is safe and total on every text: whatever the header holds (the sender chose it) and whether memory is
    there or not, no byte is written or read outside the 1024 bytes of its buffer, and every field it leaves, also when it
    fails half-way, has a key of letters, hyphens and stars that is not empty, and a key and a value that fit the buffer. *)
Lemma formdata_safe (alloc : Z → bool) (junk type buffer : list Z) : zlen junk = FORMDATABUFSIZ →
  ∃ ok p, formdataparser_parse alloc (formdataparser_init junk type) buffer = Some (ok, p) ∧ Forall field_wf (fd_fields p).
Proof.
  intros Hj. unfold formdataparser_parse. case_if; [by eexists _, _|]. destruct (Z.ltb_spec FORMDATABUFSIZ (zlen buffer)) as [|Hz]; [by eexists _, _|].
  destruct (disposition_check buffer _) as [rest|] eqn:Ed; [|by eexists _, _]. apply disposition_length in Ed.
  destruct (loop_ok alloc rest false (formdataparser_init junk type)) as (ok & p & -> & Hf & Hok).
  { exists FORMDATA_SEMICOLON, false, [], []. constructor; try done; [change (zlen []) with 0; lia|by intros [?|?]]. }
  cbn [mbind option_bind]. destruct ok; cbn [negb]; [|by exists false, p]. destruct (Hok eq_refl) as (e' & st & q & fields & w & [Hh _ _ _ _ _ Hf' Hnew]).
  pose proof Hh as [Hst Hq Hfl _ _ _]. rewrite Hst. assert (∀ b : bool, ∃ ok p', Some (b, p) = Some (ok, p') ∧ Forall field_wf (fd_fields p')) as Hend by (intros b; by exists b, p).
  destruct st; cbn match; try apply Hend. rewrite Hq. destruct q; [apply Hend|].
  destruct (save_value_inv p _ _ _ _ Hh Hf') as (ok & p' & -> & Hf2 & _); [by apply Hnew; left|]. by exists ok, p'.
Qed.

(** *** Parameters as a sender writes them *)

(** [k="v"], or [k*=UTF-8''v] with [v] in percent coding (RFC 5987). *)
Inductive param : Set := Quoted (k v : list Z) | Extended (k v : list Z).

Definition esc (c : Z) : list Z := if (c =? 34) || (c =? 92) then [92; c] else [c].
Definition hex_upper (d : Z) : Z := if d <? 10 then 48 + d else 55 + d.
Definition pct (c : Z) : list Z := if isalpha c then [c] else [37; hex_upper (c / 16); hex_upper (c mod 16)].

Definition param_text (x : param) : list Z :=
  match x with
  | Quoted k v => [59; 32] ++ k ++ [61; 34] ++ flat_map esc v ++ [34]
  | Extended k v => [59; 32] ++ k ++ [42; 61] ++ bs "UTF-8''" ++ flat_map pct v
  end.

Definition param_field (x : param) : formdatafield := match x with Quoted k v => Field k v | Extended k v => Field (k ++ [42]) v end.

Definition key_ok (k : list Z) : Prop := match k with c :: k' => isalpha c = true ∧ forallb is_key_char k' = true | [] => False end.
Definition param_ok (x : param) : Prop :=
  match x with Quoted k v => key_ok k ∧ last k ≠ Some 42 | Extended k v => key_ok k ∧ v ≠ [] ∧ Forall is_byte v end.

Lemma key_char_other c : is_key_char c = true → c ≠ 61 ∧ c ≠ 59 ∧ c ≠ 32.
Proof. unfold is_key_char, isalpha. intros Hc. split_and!; intros ->; discriminate. Qed.

Lemma alpha_other c : isalpha c = true → c ≠ 59 ∧ c ≠ 32 ∧ is_key_char c = true.
Proof. intros Hc. assert (is_key_char c = true) as Hk by (unfold is_key_char; by rewrite Hc). by pose proof (key_char_other c Hk) as (? & ? & ?). Qed.

Section Roundtrip.
Variable alloc : Z → bool.
Hypothesis memory : alloc SIZEOF_FORMDATAFIELD = true.

Lemma loop_step c rest e p e' p' : formdataparser_step alloc c e p = Some (true, e', p') → formdataparser_loop alloc (c :: rest) e p = formdataparser_loop alloc rest e' p'.
Proof. intros E. cbn [formdataparser_loop]. by rewrite E. Qed.

Lemma push_step p st q fields w c rest e : holds p st q fields w → zlen w < FORMDATABUFSIZ → formdataparser_step alloc c e p = (p ← fd_push p c; go false p) →
  ∃ p', formdataparser_loop alloc (c :: rest) e p = formdataparser_loop alloc rest false p' ∧ holds p' st q fields (w ++ [c]).
Proof. intros Hh Hw E. destruct (fd_push_ok p st q fields w c Hh Hw) as (p' & Ep & Hp'). exists p'. split; [|done]. apply loop_step. rewrite E, Ep. done. Qed.

Lemma key_run fields k rest : forallb is_key_char k = true → ∀ p w, holds p FORMDATA_KEY false fields w → zlen w + zlen k <= FORMDATABUFSIZ →
  ∃ p', formdataparser_loop alloc (k ++ rest) false p = formdataparser_loop alloc rest false p' ∧ holds p' FORMDATA_KEY false fields (w ++ k).
Proof.
  induction k as [|c k IH]; intros Hk p w Hh Hz; [exists p; by rewrite app_nil_r|]. cbn [forallb] in Hk. apply andb_true_iff in Hk as [Hc Hk]. destruct (key_char_other c Hc) as (N1 & N2 & N3).
  rewrite zlen_cons in Hz. pose proof (zlen_nonneg k). cbn [app]. destruct (push_step p _ _ _ _ c (k ++ rest) false Hh ltac:(lia)) as (p1 & -> & Hp1).
  { unfold formdataparser_step. destruct Hh as [-> _ _ _ _ _]. rewrite (proj2 (Z.eqb_neq c 61)), (proj2 (Z.eqb_neq c 59)), (proj2 (Z.eqb_neq c 32)), Hc by done. done. }
  destruct (IH Hk p1 (w ++ [c]) Hp1) as (p' & -> & Hp'); [rewrite zlen_app; change (zlen [c]) with 1; lia|]. exists p'. split; [done|]. by rewrite <- app_assoc in Hp'.
Qed.

Lemma quoted_run fields v rest : ∀ p w, holds p FORMDATA_VALUE true fields w → zlen w + zlen v <= FORMDATABUFSIZ →
  ∃ p', formdataparser_loop alloc (flat_map esc v ++ rest) false p = formdataparser_loop alloc rest false p' ∧ holds p' FORMDATA_VALUE true fields (w ++ v).
Proof.
  induction v as [|c v IH]; intros p w Hh Hz; [exists p; by rewrite app_nil_r|]. rewrite zlen_cons in Hz. pose proof (zlen_nonneg v). cbn [flat_map]. rewrite <- app_assoc.
  assert (∃ p1, formdataparser_loop alloc (esc c ++ flat_map esc v ++ rest) false p = formdataparser_loop alloc (flat_map esc v ++ rest) false p1 ∧ holds p1 FORMDATA_VALUE true fields (w ++ [c])) as (p1 & -> & Hp1).
  { unfold esc at 1. pose proof Hh as [Hst Hq _ _ _ _]. destruct ((c =? 34) || (c =? 92)) eqn:Ec; cbn [app].
    - rewrite (loop_step 92 _ false p true p) by (unfold formdataparser_step; by rewrite Hst, Hq). apply (push_step p _ _ _ _ c _ true Hh); [lia|]. unfold formdataparser_step. by rewrite Hst, Hq, Ec.
    - apply orb_false_iff in Ec as [E1 E2]. apply (push_step p _ _ _ _ c _ false Hh); [lia|]. unfold formdataparser_step. by rewrite Hst, Hq, E2, E1. }
  destruct (IH p1 (w ++ [c]) Hp1) as (p' & -> & Hp'); [rewrite zlen_app; change (zlen [c]) with 1; lia|]. exists p'. split; [done|]. by rewrite <- app_assoc in Hp'.
Qed.

Definition plain_char (c : Z) : bool := negb ((c =? 34) || (c =? 32) || (c =? 59)).

Lemma plain_run fields u rest : forallb plain_char u = true → ∀ p w, holds p FORMDATA_VALUE false fields w → zlen w + zlen u <= FORMDATABUFSIZ →
  ∃ p', formdataparser_loop alloc (u ++ rest) false p = formdataparser_loop alloc rest false p' ∧ holds p' FORMDATA_VALUE false fields (w ++ u).
Proof.
  induction u as [|c u IH]; intros Hu p w Hh Hz; [exists p; by rewrite app_nil_r|]. cbn [forallb] in Hu. apply andb_true_iff in Hu as [Hc Hu]. unfold plain_char in Hc.
  rewrite zlen_cons in Hz. pose proof (zlen_nonneg u). cbn [app]. destruct (push_step p _ _ _ _ c (u ++ rest) false Hh ltac:(lia)) as (p1 & -> & Hp1).
  { unfold formdataparser_step. destruct Hh as [-> -> _ _ _ _]. destruct (c =? 34), (c =? 32), (c =? 59); done. }
  destruct (IH Hu p1 (w ++ [c]) Hp1) as (p' & -> & Hp'); [rewrite zlen_app; change (zlen [c]) with 1; lia|]. exists p'. split; [done|]. by rewrite <- app_assoc in Hp'.
Qed.

(** *** Percent coding *)

Lemma pct_hex c : is_byte c →
  let hi := formdataparser_hex (hex_upper (c / 16)) in let lo := formdataparser_hex (hex_upper (c mod 16)) in
  (hi <? 0) || (lo <? 0) = false ∧ uchar (Z.lor (Z.shiftl hi 4) lo) = c.
Proof.
  intros Hc. pose proof (byte_forall (λ c, let hi := formdataparser_hex (hex_upper (c / 16)) in let lo := formdataparser_hex (hex_upper (c mod 16)) in
    negb ((hi <? 0) || (lo <? 0)) && (uchar (Z.lor (Z.shiftl hi 4) lo) =? c)) ltac:(vm_compute; reflexivity) c Hc) as Hb. cbv beta zeta in *. apply andb_true_iff in Hb as [H1 H2].
  split; [by apply negb_true_iff|by apply Z.eqb_eq].
Qed.

Lemma pct_decode v : Forall is_byte v → formdataparser_percent_decode (flat_map pct v) = (true, v).
Proof.
  induction 1 as [|c v Hc _ IH]; [done|]. cbn [flat_map]. unfold pct at 1. destruct (isalpha c) eqn:Ea; cbn [app formdataparser_percent_decode].
  - rewrite (proj2 (Z.eqb_neq c 37)) by (intros ->; discriminate). by rewrite IH.
  - change (37 =? 37) with true. cbn iota. destruct (pct_hex c Hc) as [-> ->]. by rewrite IH.
Qed.

Lemma pct_plain v : Forall is_byte v → forallb plain_char (flat_map pct v) = true.
Proof.
  induction 1 as [|c v Hc _ IH]; [done|]. cbn [flat_map]. rewrite forallb_app, IH, andb_true_r.
  exact (byte_forall (λ c, forallb plain_char (pct c)) ltac:(vm_compute; reflexivity) c Hc).
Qed.

(** *** The run over the parameters *)

(** The fields so far, with the value of an extended one still to be saved. *)
Inductive ready (p : formdataparser) (fields : list formdatafield) : Prop :=
  | ready_open st : st = FORMDATA_SEMICOLON ∨ st = FORMDATA_AFTER_VALUE → holds p st false fields [] → ready p fields
  | ready_pending l k v : fields = l ++ [Field (k ++ [42]) v] → v ≠ [] → Forall is_byte v →
      holds p FORMDATA_VALUE false (l ++ [Field (k ++ [42]) []]) (bs "UTF-8''" ++ flat_map pct v) → ready p fields.

Lemma save_extended p st q l k v : v ≠ [] → Forall is_byte v → holds p st q (l ++ [Field (k ++ [42]) []]) (bs "UTF-8''" ++ flat_map pct v) →
  ∃ p', formdataparser_save_value p = Some (true, p') ∧ holds p' st q (l ++ [Field (k ++ [42]) v]) [].
Proof.
  intros Hv Hb Hh. unfold formdataparser_save_value. rewrite (holds_read _ _ _ _ _ Hh). destruct Hh as [H1 H2 H3 H4 H5 H6]. rewrite H3, last_snoc. cbn [mbind option_bind fd_key].
  rewrite last_snoc, bool_decide_true by done. change (after_quote (bs "UTF-8''" ++ flat_map pct v)) with (Some (39 :: flat_map pct v)). cbn [mbind option_bind]. change (after_quote (39 :: flat_map pct v)) with (Some (flat_map pct v)).
  destruct (flat_map pct v) as [|c u] eqn:E; [destruct v as [|c v]; [done|]; cbn [flat_map] in E; unfold pct in E; by destruct (isalpha c)|]. rewrite <- E, (pct_decode v Hb).
  eexists. split; [done|]. constructor; cbn; try done. by rewrite set_last_value_snoc.
Qed.

Lemma save_quoted p st q l k v : last k ≠ Some 42 → holds p st q (l ++ [Field k []]) v →
  ∃ p', formdataparser_save_value p = Some (true, p') ∧ holds p' st q (l ++ [Field k v]) [].
Proof.
  intros Hk Hh. unfold formdataparser_save_value. rewrite (holds_read _ _ _ _ _ Hh). destruct Hh as [H1 H2 H3 H4 H5 H6]. rewrite H3, last_snoc. cbn [mbind option_bind fd_key].
  rewrite bool_decide_false by done. eexists. split; [done|]. constructor; cbn; try done. by rewrite set_last_value_snoc.
Qed.

(** A parameter up to its key. *)
Lemma ready_key p fields k rest : ready p fields → key_ok k → zlen k <= FORMDATABUFSIZ →
  ∃ p', formdataparser_loop alloc ([59; 32] ++ k ++ rest) false p = formdataparser_loop alloc rest false p' ∧ holds p' FORMDATA_KEY false fields k.
Proof.
  intros Hr Hk Hz. destruct k as [|c k]; [done|]. destruct Hk as [Hc Hk]. destruct (alpha_other c Hc) as (N1 & N2 & Hck).
  assert (∃ p1 st, formdataparser_loop alloc ([59; 32] ++ (c :: k) ++ rest) false p = formdataparser_loop alloc ((c :: k) ++ rest) false p1 ∧ (st = FORMDATA_SEMICOLON ∨ st = FORMDATA_SKIP) ∧ holds p1 st false fields [])
    as (p1 & st & -> & Hst & Hp1).
  { destruct Hr as [st Hst Hh|l f v -> Hv Hb Hh].
    - exists (with_stage p FORMDATA_SKIP), FORMDATA_SKIP. split; [|split; [auto|by eapply holds_stage]]. cbn [app].
      rewrite (loop_step 59 _ false p false (with_stage p FORMDATA_SKIP)) by (unfold formdataparser_step; destruct Hh as [-> _ _ _ _ _]; by destruct Hst as [-> | ->]). by apply loop_step.
    - destruct (save_extended p _ _ l f v Hv Hb Hh) as (p' & Es & Hp'). exists (with_quote (with_stage p' FORMDATA_SEMICOLON) false), FORMDATA_SEMICOLON. split; [|split; [auto|by eapply holds_quote, holds_stage]]. cbn [app].
      rewrite (loop_step 59 _ false p false (with_quote (with_stage p' FORMDATA_SEMICOLON) false)); [by apply loop_step|]. unfold formdataparser_step, saved_value. destruct Hh as [-> -> _ _ _ _]. rewrite Es. done. }
  rewrite zlen_cons in Hz. pose proof (zlen_nonneg k). cbn [app].
  assert (∃ p2, formdataparser_loop alloc (c :: k ++ rest) false p1 = formdataparser_loop alloc (k ++ rest) false p2 ∧ holds p2 FORMDATA_KEY false fields [c]) as (p2 & -> & Hp2).
  { destruct (fd_push_ok (with_stage p1 FORMDATA_KEY) FORMDATA_KEY false fields [] c) as (p2 & Ep & Hp2); [by eapply holds_stage|done|]. exists p2. split; [|done]. apply loop_step. unfold formdataparser_step.
    destruct Hp1 as [-> _ _ _ _ _]. destruct Hst as [-> | ->]; rewrite ?(proj2 (Z.eqb_neq c 59)), (proj2 (Z.eqb_neq c 32)), ?Hc, ?Hck, ?Ep by done; done. }
  destruct (key_run fields k rest Hk p2 [c] Hp2) as (p' & -> & Hp'); [change (zlen [c]) with 1; lia|]. by exists p'.
Qed.

Lemma key_ok_nonempty k : key_ok k → k ≠ [].
Proof. by destruct k. Qed.

(** The equals sign. *)
Lemma key_value p fields k rest : holds p FORMDATA_KEY false fields k → k ≠ [] →
  ∃ p', formdataparser_loop alloc (61 :: rest) false p = formdataparser_loop alloc rest false p' ∧ holds p' FORMDATA_VALUE false (fields ++ [Field k []]) [].
Proof.
  intros Hh Hk. pose proof (holds_stage _ _ _ _ _ FORMDATA_VALUE Hh) as Hh'. destruct (save_key_ok alloc _ _ _ _ _ Hh' Hk memory) as (p1 & Es & Hp1). exists (with_stage p1 FORMDATA_VALUE).
  split; [|by eapply holds_stage]. apply loop_step. unfold formdataparser_step, saved_key. destruct Hh as [-> _ _ _ _ _]. rewrite Es. done.
Qed.

Lemma param_run x rest p fields : param_ok x → zlen (param_text x) <= FORMDATABUFSIZ → ready p fields →
  ∃ p', formdataparser_loop alloc (param_text x ++ rest) false p = formdataparser_loop alloc rest false p' ∧ ready p' (fields ++ [param_field x]).
Proof.
  intros Hx Hz Hr. destruct x as [k v|k v]; unfold param_text in *; rewrite !zlen_app in Hz; rewrite <- !app_assoc; pose proof (zlen_nonneg k).
  - destruct Hx as [Hk Hl]. change (zlen [59; 32]) with 2 in Hz. change (zlen [61; 34]) with 2 in Hz. change (zlen [34]) with 1 in Hz. pose proof (zlen_nonneg (flat_map esc v)).
    destruct (ready_key p fields k ([61; 34] ++ flat_map esc v ++ [34] ++ rest) Hr Hk ltac:(lia)) as (p1 & -> & Hp1). cbn [app].
    destruct (key_value p1 fields k (34 :: flat_map esc v ++ 34 :: rest) Hp1 (key_ok_nonempty k Hk)) as (p2 & -> & Hp2).
    rewrite (loop_step 34 _ false p2 false (with_quote p2 true)) by (unfold formdataparser_step; destruct Hp2 as [-> -> _ -> _ _]; done).
    assert (zlen v <= zlen (flat_map esc v)) as Hv.
    { clear. induction v as [|c v IH]; [done|]. cbn [flat_map]. rewrite zlen_app, zlen_cons. unfold esc at 1. destruct (_ || _); cbn; autorewrite with zlen; [change (zlen [92; c]) with 2|change (zlen [c]) with 1]; lia. }
    destruct (quoted_run (fields ++ [Field k []]) v (34 :: rest) (with_quote p2 true) [] (holds_quote _ _ _ _ _ true Hp2)) as (p3 & -> & Hp3); [change (zlen []) with 0; lia|]. cbn [app] in Hp3.
    destruct (save_quoted p3 _ _ fields k v Hl Hp3) as (p4 & Es & Hp4). exists (with_quote (with_stage p4 FORMDATA_AFTER_VALUE) false). split.
    + apply loop_step. unfold formdataparser_step, saved_value. destruct Hp3 as [-> -> _ _ _ _]. rewrite Es. done.
    + apply (ready_open _ _ FORMDATA_AFTER_VALUE); [auto|]. by eapply holds_quote, holds_stage.
  - destruct Hx as (Hk & Hv & Hb). change (zlen [59; 32]) with 2 in Hz. change (zlen [42; 61]) with 2 in Hz. change (zlen (bs "UTF-8''")) with 7 in Hz. pose proof (zlen_nonneg (flat_map pct v)).
    destruct (ready_key p fields k ([42; 61] ++ bs "UTF-8''" ++ flat_map pct v ++ rest) Hr Hk ltac:(lia)) as (p1 & -> & Hp1).
    destruct (key_run fields [42] (61 :: bs "UTF-8''" ++ flat_map pct v ++ rest) eq_refl p1 k Hp1) as (p2 & E2 & Hp2); [change (zlen [42]) with 1; lia|]. cbn [app] in E2 |- *. rewrite E2.
    destruct (key_value p2 fields (k ++ [42]) (bs "UTF-8''" ++ flat_map pct v ++ rest) Hp2) as (p3 & -> & Hp3); [by destruct k|].
    rewrite app_assoc. destruct (plain_run (fields ++ [Field (k ++ [42]) []]) (bs "UTF-8''" ++ flat_map pct v) rest) with (p := p3) (w := @nil Z) as (p4 & -> & Hp4); [by rewrite forallb_app, pct_plain|done|rewrite zlen_app; change (zlen (bs "UTF-8''")) with 7; change (zlen []) with 0; lia|].
    exists p4. split; [done|]. by eapply ready_pending.
Qed.

Lemma params_run xs : ∀ p fields, Forall param_ok xs → zlen (flat_map param_text xs) <= FORMDATABUFSIZ → ready p fields →
  ∃ p', formdataparser_loop alloc (flat_map param_text xs) false p = Some (true, p') ∧ ready p' (fields ++ map param_field xs).
Proof.
  induction xs as [|x xs IH]; intros p fields Hok Hz Hr; [exists p; by rewrite app_nil_r|]. apply Forall_cons in Hok as [Hx Hxs]. cbn [flat_map map] in *. rewrite zlen_app in Hz.
  pose proof (zlen_nonneg (param_text x)). pose proof (zlen_nonneg (flat_map param_text xs)). destruct (param_run x (flat_map param_text xs) p fields Hx ltac:(lia) Hr) as (p1 & -> & Hp1).
  destruct (IH p1 _ Hxs ltac:(lia) Hp1) as (p' & E & Hp'). exists p'. split; [done|]. by rewrite <- app_assoc in Hp'.
Qed.
End Roundtrip.

Lemma disposition_ok type rest : disposition_check (type ++ rest) type = Some rest.
Proof. induction type as [|c type IH]; [by destruct rest|]. cbn [app disposition_check]. by rewrite Z.eqb_refl. Qed.

(** Parameters round-trip: a header value made of the disposition type and parameters [; key="value"] (with quotes and backslashes
    escaped) or [; key*=UTF-8''value] (in percent coding), of at most 1024 bytes, is parsed to exactly those keys and values, in order. *)
Lemma formdata_roundtrip (alloc : Z → bool) (junk type : list Z) (xs : list param) :
  alloc SIZEOF_FORMDATAFIELD = true → zlen junk = FORMDATABUFSIZ → cstring type → Forall param_ok xs → 0 < zlen (type ++ flat_map param_text xs) <= FORMDATABUFSIZ →
  ∃ p, formdataparser_parse alloc (formdataparser_init junk type) (type ++ flat_map param_text xs) = Some (true, p) ∧ fd_fields p = map param_field xs.
Proof.
  intros Ha Hj Ht Hok Hz. unfold formdataparser_parse. cbn [fd_disposition_type formdataparser_init]. rewrite (cstr_cstring type Ht), disposition_ok.
  destruct (Z.eqb_spec (zlen (type ++ flat_map param_text xs)) 0); [lia|]. rewrite (proj2 (Z.ltb_ge _ _)) by lia.
  destruct (params_run alloc Ha xs (formdataparser_init junk type) [] Hok) as (p & E & Hr); [rewrite zlen_app in Hz; pose proof (zlen_nonneg type); lia|apply (ready_open _ _ FORMDATA_SEMICOLON); [auto|by apply holds_init]|].
  rewrite E. cbn [mbind option_bind negb]. cbn [app] in Hr. destruct Hr as [st Hst Hh|l k v Hf Hv Hb Hh].
  - exists p. destruct Hh as [-> _ Hf _ _ _]. by destruct Hst as [-> | ->].
  - destruct (save_extended p _ _ l k v Hv Hb Hh) as (p' & Es & Hp'). destruct Hh as [-> -> _ _ _ _]. exists p'. split; [done|]. rewrite Hf. apply Hp'.
Qed.
