(* ===== verification/Multipart.v ===== *)
(** Multipart bodies ([parsers/multipartparser.c]) and the loop of [httprequest_payload_parse_multipart] ([httprequest.c]) that reads the
    payload file block by block.

    [content] are the bytes of the payload file. The parser looks at the blocks it is given, and reads header lines back from the
    file; the outcomes of [read] and [pread] are scripts. A size or offset that would wrap is written out with [wrap64]. *)

From S2P Require Import Prelude Helpers QueryParser WriteFilter HttpResponse FormData.

(** ** The model *)

Inductive multipart_fs : Set := MP_FS_ERROR | MP_FS_PASS | MP_FS_DONE.
Inductive multipart_im : Set := MP_IM_ERROR | MP_IM_NOT_SEPARATOR | MP_IM_PASS | MP_IM_NEXT_PART | MP_IM_DONE.
Inductive multipartstage : Set :=
  | MP_STG_FIRST_SEPARATOR | MP_STG_HEADER_KEY | MP_STG_HEADER_SPACE | MP_STG_HEADER_VALUE | MP_STG_HEADER_END | MP_STG_EXTRA_CR | MP_STG_EXTRA_LF | MP_STG_BODY.
Inductive multipart_res : Set := MP_RES_ERROR | MP_RES_PARTIAL | MP_RES_DONE.

#[export] Instance multipart_im_eq : EqDecision multipart_im.
Proof. solve_decision. Defined.
#[export] Instance multipartstage_eq : EqDecision multipartstage.
Proof. solve_decision. Defined.
#[export] Instance multipart_res_eq : EqDecision multipart_res.
Proof. solve_decision. Defined.

Definition SIZEOF_PAYLOADPART : Z := 40.
Definition SIZEOF_PAYLOADFIELD : Z := 40.

(** Where the part's bytes are in the payload, its headers, and the parameters of its Content-Disposition. *)
Record http_payloadpart : Set := PayloadPart {
  pp_offset : Z;
  pp_size : Z;
  pp_header : list http_header;
  pp_field : list (list Z * list Z) }.

Record multipartparser : Set := MultipartParser {
  mp_boundary : list Z;
  mp_payload_offset : Z;
  mp_header_key_offset : Z;
  mp_header_value_offset : Z;
  mp_header_key_size : Z;
  mp_header_value_size : Z;
  mp_part_offset : Z;
  mp_part_size : Z;
  mp_separator_index : Z;
  mp_first_separator_size : Z;
  mp_intermediate_separator_size : Z;
  mp_stage : multipartstage;
  mp_parts : list http_payloadpart;
  mp_headers : list http_header;
  mp_header_count : Z;
  mp_prev_ch : Z;
  mp_reads : list read_outcome }.

Definition multipartparser_init (boundary : list Z) (reads : list read_outcome) : multipartparser :=
  let boundary_size := zlen (cstr boundary) in
  MultipartParser boundary 0 0 0 0 0 0 0 0 (boundary_size + 4) (boundary_size + 6) MP_STG_FIRST_SEPARATOR [] [] 0 0 reads.

Definition at_stage (p : multipartparser) (st : multipartstage) : multipartparser :=
  MultipartParser (mp_boundary p) (mp_payload_offset p) (mp_header_key_offset p) (mp_header_value_offset p) (mp_header_key_size p) (mp_header_value_size p) (mp_part_offset p) (mp_part_size p)
    (mp_separator_index p) (mp_first_separator_size p) (mp_intermediate_separator_size p) st (mp_parts p) (mp_headers p) (mp_header_count p) (mp_prev_ch p) (mp_reads p).
Definition at_index (p : multipartparser) (i : Z) : multipartparser :=
  MultipartParser (mp_boundary p) (mp_payload_offset p) (mp_header_key_offset p) (mp_header_value_offset p) (mp_header_key_size p) (mp_header_value_size p) (mp_part_offset p) (mp_part_size p)
    i (mp_first_separator_size p) (mp_intermediate_separator_size p) (mp_stage p) (mp_parts p) (mp_headers p) (mp_header_count p) (mp_prev_ch p) (mp_reads p).
Definition at_header (p : multipartparser) (ko vo ks vs : Z) : multipartparser :=
  MultipartParser (mp_boundary p) (mp_payload_offset p) ko vo ks vs (mp_part_offset p) (mp_part_size p)
    (mp_separator_index p) (mp_first_separator_size p) (mp_intermediate_separator_size p) (mp_stage p) (mp_parts p) (mp_headers p) (mp_header_count p) (mp_prev_ch p) (mp_reads p).
Definition at_part (p : multipartparser) (offset size : Z) : multipartparser :=
  MultipartParser (mp_boundary p) (mp_payload_offset p) (mp_header_key_offset p) (mp_header_value_offset p) (mp_header_key_size p) (mp_header_value_size p) offset size
    (mp_separator_index p) (mp_first_separator_size p) (mp_intermediate_separator_size p) (mp_stage p) (mp_parts p) (mp_headers p) (mp_header_count p) (mp_prev_ch p) (mp_reads p).
Definition at_lists (p : multipartparser) (parts : list http_payloadpart) (headers : list http_header) (count : Z) (reads : list read_outcome) : multipartparser :=
  MultipartParser (mp_boundary p) (mp_payload_offset p) (mp_header_key_offset p) (mp_header_value_offset p) (mp_header_key_size p) (mp_header_value_size p) (mp_part_offset p) (mp_part_size p)
    (mp_separator_index p) (mp_first_separator_size p) (mp_intermediate_separator_size p) (mp_stage p) parts headers count (mp_prev_ch p) reads.

(** The end of a turn of the loop. *)
Definition advance (p : multipartparser) (ch : Z) : multipartparser :=
  MultipartParser (mp_boundary p) (mp_payload_offset p + 1) (mp_header_key_offset p) (mp_header_value_offset p) (mp_header_key_size p) (mp_header_value_size p) (mp_part_offset p) (mp_part_size p + 1)
    (mp_separator_index p) (mp_first_separator_size p) (mp_intermediate_separator_size p) (mp_stage p) (mp_parts p) (mp_headers p) (mp_header_count p) ch (mp_reads p).

Definition multipartparser_reset_header (p : multipartparser) : multipartparser := at_header p 0 0 0 0.

(** [parser->boundary[i]]; the boundary is zero terminated. *)
Definition boundary_at (p : multipartparser) (i : Z) : option Z := mem_get (cstr (mp_boundary p) ++ [0]) i.

Definition first_separator_check (c : Z) (p : multipartparser) : option multipart_fs :=
  let index := mp_separator_index p in
  let separator_size := mp_first_separator_size p in
  if separator_size <? index then Some MP_FS_ERROR
  else if (index =? 0) && (c =? 45) then Some MP_FS_PASS
  else if (index =? 1) && (c =? 45) then Some MP_FS_PASS
  else
    matched ← (if (1 <? index) && (index <? separator_size - 2) then b ← boundary_at p (index - 2); Some (c =? b) else Some false);
    if matched : bool then Some MP_FS_PASS
    else if (index =? separator_size - 2) && (c =? 13) then Some MP_FS_PASS
    else if (index =? separator_size - 1) && (c =? 10) then Some MP_FS_DONE
    else Some MP_FS_ERROR.

Definition intermediate_separator_check (c : Z) (p : multipartparser) : option multipart_im :=
  let index := mp_separator_index p in
  let separator_size := mp_intermediate_separator_size p in
  if separator_size <? index then Some MP_IM_ERROR
  else if (index =? 0) && negb (c =? 13) then Some MP_IM_NOT_SEPARATOR
  else if (index =? 0) && (c =? 13) then Some MP_IM_PASS
  else if (index =? 1) && (c =? 10) then Some MP_IM_PASS
  else if (index =? 2) && (c =? 45) then Some MP_IM_PASS
  else if (index =? 3) && (c =? 45) then Some MP_IM_PASS
  else
    matched ← (if (3 <? index) && (index <? separator_size - 2) then b ← boundary_at p (index - 4); Some (c =? b) else Some false);
    if matched : bool then Some MP_IM_PASS
    else if (index =? separator_size - 2) && ((c =? 13) || (c =? 45)) then Some MP_IM_PASS
    else if index =? separator_size - 1 then
      if (mp_prev_ch p =? 13) && (c =? 10) then Some MP_IM_NEXT_PART
      else if (mp_prev_ch p =? 45) && (c =? 45) then Some MP_IM_DONE
      else Some MP_IM_NOT_SEPARATOR
    else Some MP_IM_NOT_SEPARATOR.

Definition is_valid_header_key_char (c : Z) : bool :=
  ((97 <=? c) && (c <=? 122)) || ((65 <=? c) && (c <=? 90)) || ((48 <=? c) && (c <=? 57)) ||
  existsb (Z.eqb c) (bs "-_!#$%&'*+.^`|~").

Definition is_valid_header_value_char (c : Z) : bool := ((32 <=? c) && negb (c =? 127)) || (c =? 9).

Section File.
Variable content : list Z.

(** [multipartparser_write_header]: exactly [size] bytes from [offset]; [None] inside when they cannot be had. *)
Fixpoint read_exact (fuel : nat) (outs : list read_outcome) (size offset : Z) (got : list Z) : option (option (list Z) * list read_outcome) :=
  match fuel with
  | O => None
  | S f =>
      if zlen got <? size then
        match pread_loop outs content (size - zlen got) (offset + zlen got) with
        | (None, outs) => Some (None, outs)
        | (Some [], outs) => Some (None, outs)
        | (Some bytes, outs) => read_exact f outs size offset (got ++ bytes)
        end
      else Some (Some got, outs)
  end.

Definition multipartparser_write_header (outs : list read_outcome) (offset size : Z) : option (option (list Z) * list read_outcome) :=
  read_exact (S (Z.to_nat size)) outs size offset [].

Section Alloc.
Variable alloc : Z → bool.

(** 1 or 0, and the parser. *)
Definition multipartparser_create_header (p : multipartparser) : option (bool * multipartparser) :=
  if 10 <=? mp_header_count p then Some (false, p)
  else
    let key_size := mp_header_key_size p in
    let value_size := mp_header_value_size p in
    if negb (alloc SIZEOF_HEADER && alloc (key_size + 1) && alloc (value_size + 1)) then Some (false, p)
    else
      '(k, outs) ← (if key_size =? 0 then Some (Some [], mp_reads p) else multipartparser_write_header (mp_reads p) (mp_header_key_offset p) key_size);
      match k with
      | None => Some (false, at_lists p (mp_parts p) (mp_headers p) (mp_header_count p) outs)
      | Some k =>
          '(v, outs) ← (if value_size =? 0 then Some (Some [], outs) else multipartparser_write_header outs (mp_header_value_offset p) value_size);
          match v with
          | None => Some (false, at_lists p (mp_parts p) (mp_headers p) (mp_header_count p) outs)
          | Some v =>
              let p := multipartparser_reset_header p in
              Some (true, at_lists p (mp_parts p) (mp_headers p ++ [HttpHeader k v key_size value_size]) (mp_header_count p + 1) outs)
          end
      end.

(** Copies of the fields; [None] is a NULL field that is written to, [None] inside a copy that failed. *)
Fixpoint copy_fields (l : list formdatafield) : option (option (list (list Z * list Z))) :=
  match l with
  | [] => Some (Some [])
  | f :: l' =>
      if negb (alloc SIZEOF_PAYLOADFIELD) then None
      else match copy_cstringn alloc (fd_key f), copy_cstringn alloc (fd_value f) with
      | Some k, Some v =>
          rest ← copy_fields l';
          Some (match rest with Some r => Some ((k, v) :: r) | None => None end)
      | _, _ => Some None
      end
  end.

(** The parameters of the first Content-Disposition header. *)
Definition part_fields (junk : list Z) (headers : list http_header) : option (option (list (list Z * list Z))) :=
  match List.find (λ h, bool_decide (cstr (key h) = bs "Content-Disposition")) headers with
  | None => Some (Some [])
  | Some h =>
      value ← mem_read (WriteFilter.value h) 0 (value_length h);
      '(_, fd) ← formdataparser_parse alloc (formdataparser_init junk (bs "form-data")) value;
      copy_fields (fd_fields fd)
  end.

Variable junk : list Z.

Definition multipartparser_create_part (p : multipartparser) : option (bool * multipartparser) :=
  fields ← part_fields junk (mp_headers p);
  match fields with
  | None => Some (false, p)
  | Some field =>
      if negb (alloc SIZEOF_PAYLOADPART) then Some (false, p)
      else
        let part := PayloadPart (mp_part_offset p) (wrap64 (mp_part_size p - mp_intermediate_separator_size p)) (mp_headers p) field in
        Some (true, at_lists p (mp_parts p ++ [part]) [] 0 (mp_reads p))
  end.

(** The body of the loop for one byte: go on with the parser, or return. *)
Inductive mp_turn : Set := Next (p : multipartparser) | Stop (res : multipart_res) (p : multipartparser).

(** A new part begins after the current byte. *)
Definition begin_headers (p : multipartparser) : multipartparser :=
  let p := multipartparser_reset_header (at_index (at_stage p MP_STG_HEADER_KEY) 0) in
  at_header p (mp_payload_offset p + 1) (mp_header_value_offset p) (mp_header_key_size p) (mp_header_value_size p).

Definition value_size_up (p : multipartparser) : multipartparser :=
  at_header p (mp_header_key_offset p) (mp_header_value_offset p) (mp_header_key_size p) (mp_header_value_size p + 1).

Definition turn (ch : Z) (p : multipartparser) : option mp_turn :=
  let err := Some (Stop MP_RES_ERROR p) in
  match mp_stage p with
  | MP_STG_FIRST_SEPARATOR =>
      res ← first_separator_check ch p;
      match res with
      | MP_FS_ERROR => err
      | MP_FS_PASS => Some (Next (at_index p (mp_separator_index p + 1)))
      | MP_FS_DONE => Some (Next (begin_headers p))
      end
  | MP_STG_HEADER_KEY =>
      if ch =? 58 then
        let p := at_stage p MP_STG_HEADER_SPACE in
        Some (Next (at_header p (mp_header_key_offset p) (mp_payload_offset p + 1) (mp_header_key_size p) (mp_header_value_size p)))
      else if negb (is_valid_header_key_char ch) then err
      else if 1024 <=? mp_header_key_size p then err
      else Some (Next (at_header p (mp_header_key_offset p) (mp_header_value_offset p) (mp_header_key_size p + 1) (mp_header_value_size p)))
  | MP_STG_HEADER_SPACE =>
      if ch =? 32 then Some (Next (at_header p (mp_header_key_offset p) (mp_payload_offset p + 1) (mp_header_key_size p) (mp_header_value_size p)))
      else if ch =? 13 then Some (Next (at_stage p MP_STG_HEADER_END))
      else if negb (is_valid_header_value_char ch) then err
      else if 4096 <=? mp_header_value_size p then err
      else Some (Next (value_size_up (at_stage p MP_STG_HEADER_VALUE)))
  | MP_STG_HEADER_VALUE =>
      if ch =? 13 then Some (Next (at_stage p MP_STG_HEADER_END))
      else if negb (is_valid_header_value_char ch) then err
      else if 4096 <=? mp_header_value_size p then err
      else Some (Next (value_size_up p))
  | MP_STG_HEADER_END =>
      if ch =? 10 then
        '(ok, p) ← multipartparser_create_header p;
        if ok : bool then Some (Next (at_stage p MP_STG_EXTRA_CR)) else Some (Stop MP_RES_ERROR p)
      else err
  | MP_STG_EXTRA_CR =>
      if ch =? 13 then Some (Next (at_stage p MP_STG_EXTRA_LF))
      else if negb (is_valid_header_key_char ch) then err
      else
        let p := multipartparser_reset_header (at_stage p MP_STG_HEADER_KEY) in
        Some (Next (at_header p (mp_payload_offset p) (mp_header_value_offset p) (mp_header_key_size p + 1) (mp_header_value_size p)))
  | MP_STG_EXTRA_LF =>
      if ch =? 10 then Some (Next (at_part (at_stage p MP_STG_BODY) (mp_payload_offset p + 1) 0)) else err
  | MP_STG_BODY =>
      res ← intermediate_separator_check ch p;
      match res with
      | MP_IM_ERROR => err
      | MP_IM_NOT_SEPARATOR =>
          let p := at_index p 0 in
          r ← intermediate_separator_check ch p;
          Some (Next (if bool_decide (r = MP_IM_PASS) then at_index p (mp_separator_index p + 1) else p))
      | MP_IM_PASS => Some (Next (at_index p (mp_separator_index p + 1)))
      | MP_IM_NEXT_PART =>
          '(ok, p) ← multipartparser_create_part p;
          if ok : bool then Some (Next (begin_headers p)) else Some (Stop MP_RES_ERROR p)
      | MP_IM_DONE =>
          '(ok, p) ← multipartparser_create_part p;
          Some (Stop (if ok : bool then MP_RES_DONE else MP_RES_ERROR) p)
      end
  end.

Fixpoint parse_bytes (buffer : list Z) (p : multipartparser) : option (multipart_res * multipartparser) :=
  match buffer with
  | [] => Some (MP_RES_PARTIAL, p)
  | ch :: buffer' =>
      t ← turn ch p;
      match t with
      | Next p => parse_bytes buffer' (advance p ch)
      | Stop res p => Some (res, p)
      end
  end.

Definition multipartparser_parse (p : multipartparser) (buffer : list Z) : option (multipart_res * multipartparser) :=
  if zlen buffer =? 0 then Some (MP_RES_ERROR, p) else parse_bytes buffer p.

(** *** The payload file *)

Definition PAYLOAD_BLOCK : Z := 16384.

(** [read]: the next block, [None] for -1. *)
Definition read_block (outs : list read_outcome) (pos : Z) : option (list Z) * list read_outcome := pread_once outs content PAYLOAD_BLOCK pos.

(** The answer of the last call, and the parser; [None] inside when a read failed. *)
Fixpoint payload_loop (fuel : nat) (outs : list read_outcome) (pos : Z) (res : multipart_res) (p : multipartparser) : option (option (multipart_res * multipartparser)) :=
  match fuel with
  | O => None
  | S f =>
      match read_block outs pos with
      | (None, _) => Some None
      | (Some [], _) => Some (Some (res, p))
      | (Some block, outs) =>
          '(res, p) ← multipartparser_parse p block;
          if bool_decide (res = MP_RES_ERROR) then Some (Some (res, p)) else payload_loop f outs (pos + zlen block) res p
      end
  end.

(** The parts of the payload; [None] inside for the return value 0. [outs] are the outcomes of [read], [preads] those of [pread]. *)
Definition httprequest_payload_parse_multipart (header_value : list Z) (outs preads : list read_outcome) : option (option (list http_payloadpart)) :=
  '(_, fd) ← formdataparser_parse alloc (formdataparser_init junk (bs "multipart/form-data")) header_value;
  match formdataparser_find_field fd (bs "boundary") with
  | None => Some None
  | Some boundary =>
      if negb (alloc PAYLOAD_BLOCK) then Some None
      else
        r ← payload_loop (S (length content)) outs 0 MP_RES_ERROR (multipartparser_init boundary preads);
        match r with
        | Some (MP_RES_DONE, p) => Some (Some (mp_parts p))
        | _ => Some None
        end
  end.
End Alloc.
End File.
