(* ===== verification/MultipartTheorems.v ===== *)
(** Multipart bodies: what a sender writes comes out as it was sent, in every segmentation into read blocks; any payload is parsed
    inside its bounds; and what happens to the text after the closing delimiter. *)

From S2P Require Import Prelude Helpers QueryParser WriteFilter HttpResponse DataFilter FormData Multipart.

(** ** The abstract text *)

(** A part as it is sent: the parameters of its Content-Disposition, its other headers, its bytes. *)
Record sent_part : Set := SentPart {
  sp_params : list param;
  sp_headers : list (list Z * list Z);
  sp_body : list Z }.

Definition crlf : list Z := [13; 10].
Definition disposition (s : sent_part) : list Z * list Z := (bs "Content-Disposition", bs "form-data" ++ flat_map param_text (sp_params s)).
Definition header_lines (s : sent_part) : list (list Z * list Z) := disposition s :: sp_headers s.
Definition line_text (h : list Z * list Z) : list Z := h.1 ++ [58; 32] ++ h.2 ++ crlf.
Definition delimiter (b : list Z) : list Z := crlf ++ [45; 45] ++ b.
Definition part_text (s : sent_part) : list Z := flat_map line_text (header_lines s) ++ crlf ++ sp_body s.

(** The parts, each followed by a delimiter; the last one by the closing delimiter. *)
Fixpoint parts_text (b : list Z) (l : list sent_part) : list Z :=
  match l with
  | [] => []
  | [s] => part_text s ++ delimiter b ++ [45; 45]
  | s :: l' => part_text s ++ delimiter b ++ crlf ++ parts_text b l'
  end.
Definition multipart_text (b : list Z) (l : list sent_part) : list Z := [45; 45] ++ b ++ crlf ++ parts_text b l.

Definition line_ok (h : list Z * list Z) : Prop :=
  h.1 ≠ [] ∧ forallb is_valid_header_key_char h.1 = true ∧ zlen h.1 <= 1024 ∧
  head h.2 ≠ Some 32 ∧ forallb is_valid_header_value_char h.2 = true ∧ zlen h.2 <= 4096.

Definition occurs (w l : list Z) : Prop := ∃ a z, l = a ++ w ++ z.

Definition part_ok (b : list Z) (s : sent_part) : Prop :=
  Forall param_ok (sp_params s) ∧ zlen (disposition s).2 <= FORMDATABUFSIZ ∧ Forall line_ok (header_lines s) ∧ zlen (header_lines s) <= 10 ∧ ¬ occurs (delimiter b) (sp_body s).

Definition boundary_ok (b : list Z) : Prop := cstring b ∧ Forall (λ c, c ≠ 13) b.

(** The bytes at [offset] are [w]. *)
Definition held (content : list Z) (offset : Z) (w : list Z) : Prop := 0 <= offset ∧ offset + zlen w <= zlen content ∧ slice offset (zlen w) content = w.

(** What the handler of the request sees of a part. *)
Definition received (content : list Z) (part : http_payloadpart) (s : sent_part) : Prop :=
  pp_size part = zlen (sp_body s) ∧ held content (pp_offset part) (sp_body s) ∧
  pp_header part = map (λ h, HttpHeader h.1 h.2 (zlen h.1) (zlen h.2)) (header_lines s) ∧
  pp_field part = map (λ x, (fd_key (param_field x), fd_value (param_field x))) (sp_params s).

(** ** Lemmas *)

Lemma key_char_colon c : is_valid_header_key_char c = true → c ≠ 58 ∧ c ≠ 13.
Proof. intros Hc. split; intros ->; discriminate. Qed.
Lemma value_char_cr c : is_valid_header_value_char c = true → c ≠ 13.
Proof. intros Hc ->. discriminate. Qed.

Section Run.
Variables (content : list Z) (alloc : Z → bool) (junk b : list Z).
Hypotheses (Ha : ∀ n, alloc n = true) (Hj : zlen junk = FORMDATABUFSIZ) (Hb : boundary_ok b).
Implicit Types (parts : list http_payloadpart) (hs : list http_header) (outs : list read_outcome).

Notation mp off ko vo ks vs po ps i st parts hs n prev outs := (MultipartParser b off ko vo ks vs po ps i (zlen b + 4) (zlen b + 6) st parts hs n prev outs).
Notation run := (parse_bytes content alloc junk).

Lemma run_step c l p p' : turn content alloc junk c p = Some (Next p') → run (c :: l) p = run l (advance p' c).
Proof. intros E. cbn [parse_bytes]. by rewrite E. Qed.

(** *** Headers *)

Lemma run_key k rest : ∀ off ko vo ks vs po ps i parts hs n prev outs, forallb is_valid_header_key_char k = true → ks + zlen k <= 1024 →
  ∃ prev', run (k ++ rest) (mp off ko vo ks vs po ps i MP_STG_HEADER_KEY parts hs n prev outs) =
    run rest (mp (off + zlen k) ko vo (ks + zlen k) vs po (ps + zlen k) i MP_STG_HEADER_KEY parts hs n prev' outs).
Proof.
  induction k as [|c k IH]; intros * Hk Hz; [exists prev; change (zlen []) with 0; by rewrite !Z.add_0_r|].
  cbn [forallb] in Hk. apply andb_true_iff in Hk as [Hc Hk]. rewrite zlen_cons in *. pose proof (zlen_nonneg k). cbn [app parse_bytes]. unfold turn. cbn [mp_stage].
  destruct (key_char_colon c Hc) as [Hne _]. rewrite (proj2 (Z.eqb_neq _ _) Hne), Hc. cbn [negb mp_header_key_size]. rewrite (proj2 (Z.leb_gt _ _)) by lia.
  cbn [mbind option_bind]. unfold advance, at_header. cbn. destruct (IH (off + 1) ko vo (ks + 1) vs po (ps + 1) i parts hs n c outs Hk ltac:(lia)) as [prev' ->]. exists prev'. by rewrite !Z.add_assoc.
Qed.

Lemma run_value v rest : ∀ off ko vo ks vs po ps i parts hs n prev outs, forallb is_valid_header_value_char v = true → vs + zlen v <= 4096 →
  ∃ prev', run (v ++ rest) (mp off ko vo ks vs po ps i MP_STG_HEADER_VALUE parts hs n prev outs) =
    run rest (mp (off + zlen v) ko vo ks (vs + zlen v) po (ps + zlen v) i MP_STG_HEADER_VALUE parts hs n prev' outs).
Proof.
  induction v as [|c v IH]; intros * Hv Hz; [exists prev; change (zlen []) with 0; by rewrite !Z.add_0_r|].
  cbn [forallb] in Hv. apply andb_true_iff in Hv as [Hc Hv]. rewrite zlen_cons in *. pose proof (zlen_nonneg v). cbn [app parse_bytes]. unfold turn. cbn [mp_stage].
  rewrite (proj2 (Z.eqb_neq _ _) (value_char_cr c Hc)), Hc. cbn [negb mp_header_value_size]. rewrite (proj2 (Z.leb_gt _ _)) by lia.
  cbn [mbind option_bind]. unfold advance, value_size_up, at_header. cbn. destruct (IH (off + 1) ko vo ks (vs + 1) po (ps + 1) i parts hs n c outs Hv ltac:(lia)) as [prev' ->]. exists prev'. by rewrite !Z.add_assoc.
Qed.

Lemma run_line_value v rest off ko vo ks po ps i parts hs n prev outs : head v ≠ Some 32 → forallb is_valid_header_value_char v = true → zlen v <= 4096 →
  ∃ ps' prev', run ([32] ++ v ++ [13] ++ rest) (mp off ko vo ks 0 po ps i MP_STG_HEADER_SPACE parts hs n prev outs) =
    run rest (mp (off + 1 + zlen v + 1) ko (off + 1) ks (zlen v) po ps' i MP_STG_HEADER_END parts hs n prev' outs).
Proof.
  intros Hs Hv Hz. cbn [app parse_bytes]. unfold turn at 1. cbn [mp_stage]. rewrite Z.eqb_refl. cbn [mbind option_bind]. unfold advance, at_header. cbn.
  destruct v as [|c v].
  - cbn [app parse_bytes]. unfold turn. cbn. unfold advance, at_stage. cbn. change (zlen []) with 0. rewrite Z.add_0_r. by eexists _, _.
  - cbn [forallb] in Hv. apply andb_true_iff in Hv as [Hc Hv]. rewrite zlen_cons in *. cbn [app parse_bytes]. unfold turn at 1. cbn [mp_stage].
    assert (c ≠ 32) by (intros ->; by apply Hs). rewrite (proj2 (Z.eqb_neq _ _)) by done. rewrite (proj2 (Z.eqb_neq _ _) (value_char_cr c Hc)), Hc. cbn.
    unfold advance, value_size_up, at_stage, at_header. cbn. edestruct (run_value v ([13] ++ rest)) as [prev' E]; [exact Hv| |cbn [app] in E; rewrite E]; [lia|].
    cbn [parse_bytes]. unfold turn. cbn. unfold advance, at_stage. cbn. replace (off + 1 + 1 + zlen v) with (off + 1 + (1 + zlen v)) by lia. by eexists _, _.
Qed.

Lemma read_exact_ok w : ∀ fuel pre got post outs, content = pre ++ got ++ w ++ post → (length w < fuel)%nat → reads_well outs = true →
  ∃ outs', read_exact content fuel outs (zlen got + zlen w) (zlen pre) got = Some (Some (got ++ w), outs') ∧ reads_well outs' = true.
Proof.
  induction w as [w IH] using (induction_ltof1 _ (@length Z)). unfold ltof in IH. intros [|fuel] pre got post outs Hc Hf Hw; [lia|]. cbn [read_exact].
  destruct w as [|c w]. { change (zlen []) with 0. rewrite Z.add_0_r, Z.ltb_irrefl, app_nil_r. by exists outs. }
  rewrite (proj2 (Z.ltb_lt _ _)) by (rewrite zlen_cons; pose proof (zlen_nonneg w); lia).
  replace (zlen got + zlen (c :: w) - zlen got) with (zlen (c :: w)) by lia.
  destruct (pread_ok outs content (zlen (c :: w)) (zlen pre + zlen got) Hw) as (bytes & outs1 & -> & Hw1 & Hm & Hnil); [rewrite zlen_cons; pose proof (zlen_nonneg w); lia|].
  destruct (read_progress content pre got (c :: w) post bytes Hc ltac:(done) Hm Hnil) as (c' & bytes' & more & -> & Ew & Hc'). rewrite Ew.
  destruct (IH more ltac:(rewrite Ew, length_app; cbn [length]; lia) fuel pre (got ++ c' :: bytes') post outs1 Hc') as (outs2 & E & Hw2); [rewrite Ew, length_app in Hf; cbn [length] in Hf; lia|done|].
  rewrite zlen_app, <- Z.add_assoc, <- zlen_app in E. rewrite E. exists outs2. by rewrite <- app_assoc.
Qed.

Lemma write_header_ok pre w post outs : content = pre ++ w ++ post → reads_well outs = true →
  ∃ outs', multipartparser_write_header content outs (zlen pre) (zlen w) = Some (Some w, outs') ∧ reads_well outs' = true.
Proof. intros Hc Hw. unfold multipartparser_write_header. apply (read_exact_ok w _ pre [] post outs Hc); [unfold zlen; lia|done]. Qed.

Lemma create_header_ok pre k v sep post off po ps i st parts hs prev outs : content = pre ++ k ++ sep ++ v ++ post → reads_well outs = true → zlen hs < 10 → k ≠ [] →
  ∃ outs', multipartparser_create_header content alloc (mp off (zlen pre) (zlen (pre ++ k ++ sep)) (zlen k) (zlen v) po ps i st parts hs (zlen hs) prev outs) =
    Some (true, mp off 0 0 0 0 po ps i st parts (hs ++ [HttpHeader k v (zlen k) (zlen v)]) (zlen hs + 1) prev outs') ∧ reads_well outs' = true.
Proof.
  intros Hc Hw Hn Hk. unfold multipartparser_create_header. cbn [mp_header_count mp_header_key_size mp_header_value_size mp_reads mp_header_key_offset mp_header_value_offset]. rewrite (proj2 (Z.leb_gt _ _)), !Ha by lia. cbn [andb negb].
  destruct (Z.eqb_spec (zlen k) 0) as [E|_]; [by apply zlen_0_nil in E|]. destruct (write_header_ok pre k (sep ++ v ++ post) outs Hc Hw) as (outs1 & -> & Hw1). cbn [mbind option_bind].
  destruct (Z.eqb_spec (zlen v) 0) as [E|_].
  - apply zlen_0_nil in E as ->. cbn [mbind option_bind]. eexists. split; [|exact Hw1]. done.
  - destruct (write_header_ok (pre ++ k ++ sep) v post outs1) as (outs2 & -> & Hw2); [by rewrite <- !app_assoc|done|]. cbn [mbind option_bind]. eexists. split; [|exact Hw2]. done.
Qed.

(** Between two header lines. *)
Inductive ready_line (off : Z) parts hs outs : multipartparser → Prop :=
  | ready_first vo po ps prev : ready_line off parts hs outs (mp off off vo 0 0 po ps 0 MP_STG_HEADER_KEY parts hs (zlen hs) prev outs)
  | ready_more po ps prev : ready_line off parts hs outs (mp off 0 0 0 0 po ps 0 MP_STG_EXTRA_CR parts hs (zlen hs) prev outs).

Lemma run_line_key k rest off parts hs outs p : ready_line off parts hs outs p → k ≠ [] → forallb is_valid_header_key_char k = true → zlen k <= 1024 →
  ∃ vo po ps prev, run (k ++ rest) p = run rest (mp (off + zlen k) off vo (zlen k) 0 po ps 0 MP_STG_HEADER_KEY parts hs (zlen hs) prev outs).
Proof.
  intros Hr Hne Hk Hz. destruct Hr as [vo po ps prev|po ps prev].
  - destruct (run_key k rest off off vo 0 0 po ps 0 parts hs (zlen hs) prev outs Hk ltac:(lia)) as [prev' ->]. by eexists _, _, _, _.
  - destruct k as [|c k]; [done|]. cbn [forallb] in Hk. apply andb_true_iff in Hk as [Hc Hk]. rewrite zlen_cons in *. destruct (key_char_colon c Hc) as [_ Hcr].
    cbn [app parse_bytes]. unfold turn at 1. cbn [mp_stage]. rewrite (proj2 (Z.eqb_neq _ _) Hcr), Hc. cbn. unfold advance, multipartparser_reset_header, at_header, at_stage. cbn.
    change (0 + 1) with 1. destruct (run_key k rest (off + 1) off 0 1 0 po (ps + 1) 0 parts hs (zlen hs) c outs Hk ltac:(lia)) as [prev' ->]. rewrite Z.add_assoc. by eexists _, _, _, _.
Qed.

Lemma run_line h pre post rest parts hs outs p : content = pre ++ line_text h ++ post → ready_line (zlen pre) parts hs outs p → line_ok h → zlen hs < 10 → reads_well outs = true →
  ∃ outs' p', run (line_text h ++ rest) p = run rest p' ∧ p'.(mp_stage) = MP_STG_EXTRA_CR ∧ ready_line (zlen (pre ++ line_text h)) parts (hs ++ [HttpHeader h.1 h.2 (zlen h.1) (zlen h.2)]) outs' p' ∧ reads_well outs' = true.
Proof.
  destruct h as [k v]. unfold line_text, line_ok, crlf. cbn [fst snd]. intros Hc Hr (Hne & Hk & Hkz & Hs & Hv & Hvz) Hn Hw. rewrite <- !app_assoc in *.
  destruct (run_line_key k ([58; 32] ++ v ++ [13; 10] ++ rest) _ _ _ _ _ Hr Hne Hk Hkz) as (vo & po & ps & prev & ->).
  cbn [app]. erewrite run_step by (unfold turn; cbn [mp_stage]; by rewrite Z.eqb_refl). unfold advance, at_header, at_stage. cbn -[parse_bytes zlen].
  edestruct (run_line_value v ([10] ++ rest)) as (ps' & prev' & E); [exact Hs|exact Hv|exact Hvz|]. cbn [app] in E. rewrite E. clear E.
  cbn [parse_bytes]. unfold turn at 1. cbn [mp_stage]. rewrite Z.eqb_refl.
  destruct (create_header_ok pre k v [58; 32] ([13; 10] ++ post) (zlen pre + zlen k + 1 + 1 + zlen v + 1) po ps' 0 MP_STG_HEADER_END parts hs prev' outs) as (outs' & E & Hw'); [done|done|done|done|].
  replace (zlen (pre ++ k ++ [58; 32])) with (zlen pre + zlen k + 1 + 1) in E by (rewrite !zlen_app; change (zlen [58; 32]) with 2; lia). rewrite E. clear E. cbn [mbind option_bind].
  unfold advance, at_stage. cbn. eexists outs', _. split; [done|]. split; [done|]. split; [|done].
  replace (zlen (pre ++ k ++ 58 :: 32 :: v ++ [13; 10])) with (zlen pre + zlen k + 1 + 1 + zlen v + 1 + 1) by (rewrite !zlen_app, !zlen_cons, zlen_app; change (zlen [13; 10]) with 2; lia).
  replace (zlen hs + 1) with (zlen (hs ++ [HttpHeader k v (zlen k) (zlen v)])) by (rewrite zlen_app; done). apply ready_more.
Qed.

Definition received_headers (l : list (list Z * list Z)) : list http_header := map (λ h, HttpHeader h.1 h.2 (zlen h.1) (zlen h.2)) l.

Lemma run_lines l : ∀ pre post rest parts hs outs p, content = pre ++ flat_map line_text l ++ post → ready_line (zlen pre) parts hs outs p → Forall line_ok l → zlen hs + zlen l <= 10 → reads_well outs = true →
  l ≠ [] ∨ p.(mp_stage) = MP_STG_EXTRA_CR →
  ∃ outs' p', run (flat_map line_text l ++ rest) p = run rest p' ∧ p'.(mp_stage) = MP_STG_EXTRA_CR ∧ ready_line (zlen (pre ++ flat_map line_text l)) parts (hs ++ received_headers l) outs' p' ∧ reads_well outs' = true.
Proof.
  induction l as [|h l IH]; intros * Hc Hr Hok Hn Hw Hst.
  - destruct Hst as [|Hst]; [done|]. exists outs, p. cbn [flat_map]. by rewrite !app_nil_r.
  - apply Forall_cons in Hok as [Hh Hok]. cbn [flat_map] in *. rewrite <- app_assoc in Hc |- *. rewrite zlen_cons in Hn. pose proof (zlen_nonneg l).
    destruct (run_line h pre _ (flat_map line_text l ++ rest) parts hs outs p Hc Hr Hh ltac:(lia) Hw) as (outs1 & p1 & -> & Hst1 & Hr1 & Hw1).
    destruct (IH (pre ++ line_text h) post rest parts (hs ++ [HttpHeader h.1 h.2 (zlen h.1) (zlen h.2)]) outs1 p1) as (outs2 & p2 & -> & Hst2 & Hr2 & Hw2); [by rewrite <- app_assoc|done|done|rewrite zlen_app; change (zlen [_]) with 1; lia|done|by right|].
    exists outs2, p2. rewrite <- !app_assoc in Hr2. done.
Qed.

Lemma run_blank_line rest off parts hs outs p : p.(mp_stage) = MP_STG_EXTRA_CR → ready_line off parts hs outs p →
  run (crlf ++ rest) p = run rest (mp (off + 2) 0 0 0 0 (off + 2) 1 0 MP_STG_BODY parts hs (zlen hs) 10 outs).
Proof.
  intros Hst Hr. revert Hst. destruct Hr as [|po ps prev]; [done|]. intros _. unfold crlf. cbn [app]. erewrite run_step by done. erewrite run_step by done. unfold advance, at_part, at_stage. cbn -[parse_bytes zlen]. by replace (off + 1 + 1) with (off + 2) by lia.
Qed.

(** *** The body *)

Lemma delimiter_length : zlen (delimiter b) = zlen b + 4.
Proof. unfold delimiter. rewrite !zlen_app. change (zlen crlf) with 2. change (zlen [45; 45]) with 2. lia. Qed.

Lemma boundary_get p i d : mp_boundary p = b → 0 <= i → b !! Z.to_nat i = Some d → boundary_at p i = Some d.
Proof. intros Hp Hi E. unfold boundary_at. rewrite Hp, (cstr_cstring b (proj1 Hb)), mem_get_lookup by done. by apply lookup_app_l_Some. Qed.

Lemma check_inside c p i d : mp_boundary p = b → mp_separator_index p = i → mp_intermediate_separator_size p = zlen b + 6 → 0 <= i → delimiter b !! Z.to_nat i = Some d →
  intermediate_separator_check c p = Some (if c =? d then MP_IM_PASS else MP_IM_NOT_SEPARATOR).
Proof.
  intros Hp Hi Hs H0 Hd. assert (i < zlen b + 4) as Hlt by (rewrite <- delimiter_length; apply lookup_lt_Some in Hd; unfold zlen; lia).
  unfold intermediate_separator_check. rewrite Hi, Hs. rewrite (proj2 (Z.ltb_ge _ _)), (proj2 (Z.eqb_neq i (zlen b + 6 - 2))), (proj2 (Z.eqb_neq i (zlen b + 6 - 1))) by lia.
  assert (i = 0 ∨ i = 1 ∨ i = 2 ∨ i = 3 ∨ 4 <= i) as [-> |[-> |[-> |[-> |H4]]]] by lia; cbn -[delimiter zlen] in Hd.
  1: { injection Hd as <-. by destruct (c =? 13). }
  1-3: injection Hd as <-; cbn -[zlen]; by destruct (c =? _).
  rewrite (proj2 (Z.eqb_neq i 0)), (proj2 (Z.eqb_neq i 1)), (proj2 (Z.eqb_neq i 2)), (proj2 (Z.eqb_neq i 3)) by lia. rewrite (proj2 (Z.ltb_lt 3 i)), (proj2 (Z.ltb_lt i _)) by lia. cbn [andb].
  assert (b !! Z.to_nat (i - 4) = Some d) as Hbd.
  { replace (Z.to_nat i) with (4 + Z.to_nat (i - 4))%nat in Hd by lia. exact Hd. }
  rewrite (boundary_get p (i - 4) d Hp ltac:(lia) Hbd). cbn [mbind option_bind]. by destruct (c =? d).
Qed.

(** How far the delimiter is matched after [c], when the first [i] bytes were. *)
Definition matched (i d c : Z) : Z := if c =? d then i + 1 else if c =? 13 then 1 else 0.

Lemma turn_body c p i d : mp_stage p = MP_STG_BODY → mp_boundary p = b → mp_separator_index p = i → mp_intermediate_separator_size p = zlen b + 6 → 0 <= i → delimiter b !! Z.to_nat i = Some d →
  turn content alloc junk c p = Some (Next (at_index p (matched i d c))).
Proof.
  intros Hst Hp Hi Hs H0 Hd. unfold turn. rewrite Hst, (check_inside c p i d Hp Hi Hs H0 Hd). cbn [mbind option_bind]. unfold matched. destruct (c =? d); [by rewrite Hi|].
  rewrite (check_inside c (at_index p 0) 0 13 Hp eq_refl Hs ltac:(lia) eq_refl). cbn [mbind option_bind]. by destruct (c =? 13).
Qed.

(** After the bytes [done] of the body. *)
Notation in_body po seen i parts hs prev outs := (mp (po + zlen seen) 0 0 0 0 po (zlen seen + 1) i MP_STG_BODY parts hs (zlen hs) prev outs).

Lemma run_body_byte c rest po seen i d parts hs prev outs : 0 <= i → delimiter b !! Z.to_nat i = Some d →
  run (c :: rest) (in_body po seen i parts hs prev outs) = run rest (in_body po (seen ++ [c]) (matched i d c) parts hs c outs).
Proof.
  intros Hi Hd. erewrite run_step; [|by apply (turn_body c _ i d)]. unfold advance, at_index. cbn -[parse_bytes zlen matched]. rewrite zlen_app. change (zlen [c]) with 1. by rewrite !Z.add_assoc.
Qed.

Lemma delimiter_cr i : delimiter b !! i = Some 13 → i = 0%nat.
Proof.
  intros E. destruct i as [|[|[|[|i]]]]; [done|discriminate..|]. change (b !! i = Some 13) in E. apply list_elem_of_lookup_2 in E. destruct Hb as [_ Hcr]. rewrite Forall_forall in Hcr. by destruct (Hcr 13 E).
Qed.

Lemma run_body body rest : ∀ po seen i parts hs prev outs, 0 <= i < zlen b + 4 → (∃ w, seen = w ++ take (Z.to_nat i) (delimiter b)) → ¬ occurs (delimiter b) (seen ++ body) →
  ∃ i' prev', 0 <= i' < zlen b + 4 ∧ run (body ++ rest) (in_body po seen i parts hs prev outs) = run rest (in_body po (seen ++ body) i' parts hs prev' outs).
Proof.
  induction body as [|c body IH]; intros * Hi [w Hw] Hno; [exists i, prev; by rewrite app_nil_r|].
  destruct (lookup_lt_is_Some_2 (delimiter b) (Z.to_nat i)) as [d Hd]; [pose proof delimiter_length; unfold zlen in *; lia|].
  cbn [app]. rewrite (run_body_byte c _ po seen i d) by (done || lia).
  assert (∃ w', seen ++ [c] = w' ++ take (Z.to_nat (matched i d c)) (delimiter b)) as Hw'.
  { unfold matched. destruct (Z.eqb_spec c d) as [->|]; [|destruct (Z.eqb_spec c 13) as [->|]; [by exists seen|exists (seen ++ [c]); by rewrite take_0, app_nil_r]].
    exists w. replace (Z.to_nat (i + 1)) with (S (Z.to_nat i)) by lia. rewrite (take_S_r _ _ d Hd), app_assoc. by rewrite Hw. }
  replace (seen ++ c :: body) with ((seen ++ [c]) ++ body) in * by (by rewrite <- app_assoc). apply IH; [|done|done]. unfold matched. case_if; [|case_if; pose proof (zlen_nonneg b); lia].
  assert (i + 1 ≠ zlen b + 4); [|lia]. intros Ei. apply Hno. destruct Hw' as [w' Hw']. rewrite Hw'. unfold matched. rewrite (proj2 (Z.eqb_eq c d)) by lia. rewrite Ei, <- delimiter_length, take_zlen.
  exists w', body. by rewrite <- app_assoc.
Qed.

Lemma run_delimiter_tail l : ∀ w rest po seen parts hs prev outs, delimiter b = w ++ l → w ≠ [] →
  ∃ prev', run (l ++ rest) (in_body po seen (zlen w) parts hs prev outs) = run rest (in_body po (seen ++ l) (zlen b + 4) parts hs prev' outs).
Proof.
  induction l as [|c l IH]; intros * Hd Hw.
  - exists prev. rewrite !app_nil_r in *. by rewrite <- Hd, delimiter_length.
  - cbn [app]. rewrite (run_body_byte c _ po seen (zlen w) c); [|apply zlen_nonneg|rewrite Hd; unfold zlen; rewrite Nat2Z.id; by apply list_lookup_middle].
    unfold matched. rewrite Z.eqb_refl. replace (zlen w + 1) with (zlen (w ++ [c])) by (rewrite zlen_app; done).
    destruct (IH (w ++ [c]) rest po (seen ++ [c]) parts hs c outs) as [prev' ->]; [by rewrite <- app_assoc|by destruct w|]. exists prev'. by rewrite <- app_assoc.
Qed.

Lemma run_delimiter rest po seen i parts hs prev outs : 0 <= i < zlen b + 4 →
  ∃ prev', run (delimiter b ++ rest) (in_body po seen i parts hs prev outs) = run rest (in_body po (seen ++ delimiter b) (zlen b + 4) parts hs prev' outs).
Proof.
  intros Hi. destruct (lookup_lt_is_Some_2 (delimiter b) (Z.to_nat i)) as [d Hd]; [pose proof delimiter_length; unfold zlen in *; lia|].
  change (delimiter b) with ([13] ++ ([10; 45; 45] ++ b)). rewrite <- app_assoc. cbn [app]. rewrite (run_body_byte 13 _ po seen i d) by (done || lia).
  replace (matched i d 13) with (zlen [13]).
  - destruct (run_delimiter_tail (10 :: 45 :: 45 :: b) [13] rest po (seen ++ [13]) parts hs 13 outs) as [prev' E]; [done..|]. exists prev'. cbn [app] in E. rewrite E. by rewrite <- app_assoc.
  - unfold matched. destruct (Z.eqb_spec 13 d) as [<-|]; [|done]. apply delimiter_cr in Hd. change (zlen [13]) with 1. lia.
Qed.

Lemma check_mark c p : c = 13 ∨ c = 45 → mp_separator_index p = zlen b + 4 → mp_intermediate_separator_size p = zlen b + 6 → intermediate_separator_check c p = Some MP_IM_PASS.
Proof.
  intros Hc Hi Hs. unfold intermediate_separator_check. rewrite Hi, Hs. pose proof (zlen_nonneg b). rewrite (proj2 (Z.ltb_ge _ _)), (proj2 (Z.eqb_neq _ 0)), (proj2 (Z.eqb_neq _ 1)), (proj2 (Z.eqb_neq _ 2)), (proj2 (Z.eqb_neq _ 3)) by lia.
  rewrite (proj2 (Z.ltb_ge (zlen b + 4) _)) by lia. rewrite andb_false_r, (proj2 (Z.eqb_eq (zlen b + 4) _)) by lia. cbn. by destruct Hc as [-> | ->].
Qed.

(** The byte after the delimiter: the first of CRLF or of the closing hyphens. *)
Lemma run_mark c rest po seen parts hs prev outs : c = 13 ∨ c = 45 →
  run (c :: rest) (in_body po seen (zlen b + 4) parts hs prev outs) = run rest (in_body po (seen ++ [c]) (zlen b + 5) parts hs c outs).
Proof.
  intros Hc. erewrite run_step by (unfold turn; cbn [mp_stage]; rewrite (check_mark c (in_body po seen (zlen b + 4) parts hs prev outs)) by done; reflexivity).
  unfold advance, at_index. cbn -[parse_bytes zlen]. rewrite zlen_app. change (zlen [c]) with 1. replace (zlen b + 5) with (zlen b + 4 + 1) by lia. by rewrite !Z.add_assoc.
Qed.

Lemma check_end c p : mp_separator_index p = zlen b + 5 → mp_intermediate_separator_size p = zlen b + 6 →
  intermediate_separator_check c p = Some (if (mp_prev_ch p =? 13) && (c =? 10) then MP_IM_NEXT_PART else if (mp_prev_ch p =? 45) && (c =? 45) then MP_IM_DONE else MP_IM_NOT_SEPARATOR).
Proof.
  intros Hi Hs. unfold intermediate_separator_check. rewrite Hi, Hs. pose proof (zlen_nonneg b). rewrite (proj2 (Z.ltb_ge _ _)), (proj2 (Z.eqb_neq _ 0)), (proj2 (Z.eqb_neq _ 1)), (proj2 (Z.eqb_neq _ 2)), (proj2 (Z.eqb_neq _ 3)) by lia.
  rewrite (proj2 (Z.ltb_ge (zlen b + 5) _)) by lia. rewrite andb_false_r, (proj2 (Z.eqb_neq (zlen b + 5) _)), (proj2 (Z.eqb_eq (zlen b + 5) _)) by lia. cbn. by repeat case_if.
Qed.

(** *** Parts *)

Lemma copy_fields_ok l : copy_fields alloc l = Some (Some (map (λ f, (fd_key f, fd_value f)) l)).
Proof. induction l as [|f l IH]; [done|]. cbn [copy_fields map]. rewrite Ha. unfold copy_cstringn. rewrite !Ha. cbn [negb]. by rewrite IH. Qed.

Lemma part_fields_ok s : Forall param_ok (sp_params s) → zlen (disposition s).2 <= FORMDATABUFSIZ →
  part_fields alloc junk (received_headers (header_lines s)) = Some (Some (map (λ x, (fd_key (param_field x), fd_value (param_field x))) (sp_params s))).
Proof.
  intros Hok Hz. unfold part_fields, received_headers, header_lines. cbn [map List.find]. cbn [key disposition fst]. rewrite bool_decide_true by reflexivity. cbn [WriteFilter.value value_length disposition snd].
  rewrite mem_read_Some by (pose proof (zlen_nonneg (bs "form-data" ++ flat_map param_text (sp_params s))); lia). change (drop (Z.to_nat 0) ?l) with l. rewrite take_zlen. cbn [mbind option_bind].
  destruct (formdata_roundtrip alloc junk (bs "form-data") (sp_params s)) as (p & -> & Hf); [done|done|repeat constructor|done|split; [rewrite zlen_app; pose proof (zlen_nonneg (flat_map param_text (sp_params s))); change (zlen (bs "form-data")) with 9; lia|exact Hz]|].
  cbn [mbind option_bind]. rewrite Hf, copy_fields_ok, map_map. done.
Qed.

Lemma create_part_ok s off po ps i st parts hs prev outs : part_ok b s → hs = received_headers (header_lines s) →
  multipartparser_create_part alloc junk (mp off 0 0 0 0 po ps i st parts hs (zlen hs) prev outs) =
  Some (true, mp off 0 0 0 0 po ps i st (parts ++ [PayloadPart po (wrap64 (ps - (zlen b + 6))) hs (map (λ x, (fd_key (param_field x), fd_value (param_field x))) (sp_params s))]) [] 0 prev outs).
Proof.
  intros (Hok & Hz & _) ->. unfold multipartparser_create_part. cbn [mp_headers]. rewrite part_fields_ok by done. cbn [mbind option_bind]. by rewrite Ha.
Qed.

(** Before the last byte of a delimiter; [part] is what the part will be. *)
Definition created (s : sent_part) (po : Z) : http_payloadpart :=
  PayloadPart po (zlen (sp_body s)) (received_headers (header_lines s)) (map (λ x, (fd_key (param_field x), fd_value (param_field x))) (sp_params s)).

Lemma run_part s c pre post rest parts outs p : content = pre ++ part_text s ++ delimiter b ++ c :: post → c = 13 ∨ c = 45 → ready_line (zlen pre) parts [] outs p → part_ok b s → reads_well outs = true →
  ∃ po outs', let q := in_body po (sp_body s ++ delimiter b ++ [c]) (zlen b + 5) parts (received_headers (header_lines s)) c outs' in
    reads_well outs' = true ∧ zlen (pre ++ part_text s ++ delimiter b ++ [c]) = mp_payload_offset q ∧ held content po (sp_body s) ∧
    run (part_text s ++ delimiter b ++ c :: rest) p = run rest q.
Proof.
  intros Hc Hch Hr (Hok & Hz & Hl & Hn & Hno) Hw. unfold part_text in *. rewrite <- !app_assoc in *.
  destruct (run_lines (header_lines s) pre (crlf ++ sp_body s ++ delimiter b ++ c :: post) (crlf ++ sp_body s ++ delimiter b ++ c :: rest) parts [] outs p) as (outs' & p1 & E1 & Hst & Hr1 & Hw1); [done|done|done|done|done|by left|].
  exists (zlen (pre ++ flat_map line_text (header_lines s)) + 2), outs'. cbn zeta. split; [done|]. split; [cbn [mp_payload_offset]; rewrite !zlen_app; change (zlen crlf) with 2; lia|]. split.
  - split; [pose proof (zlen_nonneg (pre ++ flat_map line_text (header_lines s))); lia|]. split; [rewrite Hc, !zlen_app; change (zlen crlf) with 2; pose proof (zlen_nonneg (delimiter b)); pose proof (zlen_nonneg (c :: post)); lia|].
    unfold slice. rewrite Hc. replace (Z.to_nat (zlen (pre ++ flat_map line_text (header_lines s)) + 2)) with (length ((pre ++ flat_map line_text (header_lines s)) ++ crlf)) by (rewrite length_app; change (length crlf) with 2%nat; unfold zlen; lia).
    rewrite !app_assoc, <- (app_assoc _ (sp_body s)), <- (app_assoc _ (_ ++ _)), drop_app_length, <- app_assoc. rewrite take_app_le, take_zlen by (unfold zlen; lia). done.
  - rewrite E1.
    rewrite (run_blank_line _ _ _ _ _ _ Hst Hr1). cbn [app].
    destruct (run_body (sp_body s) (delimiter b ++ c :: rest) (zlen (pre ++ flat_map line_text (header_lines s)) + 2) [] 0 parts (received_headers (header_lines s)) 10 outs') as (i' & prev' & Hi' & E2); [pose proof (zlen_nonneg b); lia|by exists []|done|].
    change (zlen []) with 0 in E2. rewrite Z.add_0_r in E2. cbn [app] in E2. change (0 + 1) with 1 in E2. rewrite E2.
    destruct (run_delimiter (c :: rest) (zlen (pre ++ flat_map line_text (header_lines s)) + 2) (sp_body s) i' parts (received_headers (header_lines s)) prev' outs' Hi') as (prev2 & ->).
    rewrite run_mark by done. by rewrite <- app_assoc.
Qed.

Lemma created_received s po : held content po (sp_body s) → received content (created s po) s.
Proof. by intros E. Qed.

Lemma part_size_exact s (seen : list Z) : zlen content < 2 ^ 64 → zlen (sp_body s) <= zlen content → zlen seen = zlen (sp_body s) + zlen b + 5 → wrap64 (zlen seen + 1 - (zlen b + 6)) = zlen (sp_body s).
Proof. intros Hz Hle ->. unfold wrap64. rewrite Z.mod_small; pose proof (zlen_nonneg (sp_body s)); lia. Qed.

Lemma run_next s po (seen : list Z) rest parts outs : zlen content < 2 ^ 64 → zlen (sp_body s) <= zlen content → part_ok b s → zlen seen = zlen (sp_body s) + zlen b + 5 →
  ∃ p', run (10 :: rest) (in_body po seen (zlen b + 5) parts (received_headers (header_lines s)) 13 outs) = run rest p' ∧ ready_line (po + zlen seen + 1) (parts ++ [created s po]) [] outs p'.
Proof.
  intros Hz Hle Hok Hs. eexists. split.
  - apply run_step. unfold turn. cbn [mp_stage]. rewrite (check_end 10 (in_body po seen (zlen b + 5) parts (received_headers (header_lines s)) 13 outs)) by done. cbn [mp_prev_ch]. cbn -[multipartparser_create_part begin_headers zlen].
    rewrite (create_part_ok s) by done. rewrite (part_size_exact s seen) by done. cbn [mbind option_bind]. reflexivity.
  - exact (ready_first (po + zlen seen + 1) (parts ++ [created s po]) [] outs 0 po (zlen seen + 1 + 1) 10).
Qed.

(** Before the last hyphen of the closing delimiter. *)
Inductive closing (sent : list sent_part) : multipartparser → Prop :=
  closing_intro s po (seen : list Z) parts outs : zlen seen = zlen (sp_body s) + zlen b + 5 → part_ok b s → zlen (sp_body s) <= zlen content → Forall2 (received content) (parts ++ [created s po]) sent →
    closing sent (in_body po seen (zlen b + 5) parts (received_headers (header_lines s)) 45 outs).

(** After it. *)
Inductive closed (sent : list sent_part) : multipartparser → Prop :=
  closed_intro po (seen : list Z) parts outs : Forall2 (received content) parts sent → closed sent (in_body po seen (zlen b + 5) parts (@nil http_header) 45 outs).

Lemma run_close sent q rest : zlen content < 2 ^ 64 → closing sent q → ∃ q', run (45 :: rest) q = Some (MP_RES_DONE, q') ∧ closed sent q'.
Proof.
  intros Hz [s po seen parts outs Hs Hok Hle Hrec]. eexists. split.
  - cbn [parse_bytes]. unfold turn. cbn [mp_stage]. rewrite (check_end 45 (in_body po seen (zlen b + 5) parts (received_headers (header_lines s)) 45 outs)) by done. cbn [mp_prev_ch]. cbn -[multipartparser_create_part zlen].
    rewrite (create_part_ok s) by done. rewrite (part_size_exact s seen) by done. cbn [mbind option_bind]. reflexivity.
  - by apply (closed_intro sent po seen (parts ++ [created s po]) outs).
Qed.

Lemma body_in_content (w x y : list Z) : content = x ++ w ++ y → zlen w <= zlen content.
Proof. intros ->. rewrite !zlen_app. pose proof (zlen_nonneg x). pose proof (zlen_nonneg y). lia. Qed.

Lemma run_parts l : ∀ pre post parts outs p before, zlen content < 2 ^ 64 → content = pre ++ parts_text b l ++ post → l ≠ [] → Forall (part_ok b) l → ready_line (zlen pre) parts [] outs p → reads_well outs = true → Forall2 (received content) parts before →
  ∃ m q, parts_text b l = m ++ [45] ∧ run m p = Some (MP_RES_PARTIAL, q) ∧ closing (before ++ l) q.
Proof.
  induction l as [|s l IH]; intros * Hz Hc Hne Hok Hr Hw Hb4; [done|]. apply Forall_cons in Hok as [Hs Hok]. destruct l as [|s' l].
  - change (parts_text b [s]) with (part_text s ++ delimiter b ++ [45; 45]) in *. rewrite <- !app_assoc in Hc. cbn [app] in Hc.
    destruct (run_part s 45 pre (45 :: post) [] parts outs p Hc (or_intror eq_refl) Hr Hs Hw) as (po & outs' & Hw' & Hoff & Hsl & E). eexists (part_text s ++ delimiter b ++ [45]), _.
    split; [by rewrite <- !app_assoc|]. split; [exact E|]. apply closing_intro; [rewrite !zlen_app, delimiter_length; change (zlen [45]) with 1; lia|done| |].
    + unfold part_text in Hc. rewrite <- !app_assoc in Hc. rewrite 2!app_assoc in Hc. by apply body_in_content in Hc.
    + apply Forall2_app; [done|]. constructor; [by apply created_received|constructor].
  - change (parts_text b (s :: s' :: l)) with (part_text s ++ delimiter b ++ crlf ++ parts_text b (s' :: l)) in *. rewrite <- !app_assoc in Hc. cbn [app crlf] in Hc.
    assert (zlen (sp_body s) <= zlen content) as Hle.
    { unfold part_text in Hc. rewrite <- !app_assoc in Hc. rewrite 2!app_assoc in Hc. by apply body_in_content in Hc. }
    destruct (run_part s 13 pre (10 :: parts_text b (s' :: l) ++ post) (10 :: removelast (parts_text b (s' :: l))) parts outs p Hc (or_introl eq_refl) Hr Hs Hw) as (po & outs' & Hw' & Hoff & Hsl & E).
    destruct (run_next s po (sp_body s ++ delimiter b ++ [13]) (removelast (parts_text b (s' :: l))) parts outs' Hz Hle Hs) as (p' & E' & Hr'); [rewrite !zlen_app, delimiter_length; change (zlen [13]) with 1; lia|].
    cbn [mp_payload_offset] in Hoff. rewrite <- Hoff in Hr'. replace (zlen (pre ++ part_text s ++ delimiter b ++ [13]) + 1) with (zlen (pre ++ part_text s ++ delimiter b ++ crlf)) in Hr' by (rewrite !zlen_app; change (zlen [13]) with 1; change (zlen crlf) with 2; lia).
    destruct (IH (pre ++ part_text s ++ delimiter b ++ crlf) post (parts ++ [created s po]) outs' p' (before ++ [s])) as (m & q & Em & Er & Hq); [done|by rewrite <- !app_assoc|done|done|done|done|apply Forall2_app; [done|constructor; [by apply created_received|constructor]]|].
    rewrite Em, removelast_last in E, E'. exists (part_text s ++ delimiter b ++ crlf ++ m), q. split; [by rewrite Em, <- !app_assoc|]. split; [|by rewrite <- app_assoc in Hq].
    unfold crlf. cbn [app]. by rewrite E, E'.
Qed.

(** *** The first delimiter *)

Lemma first_check_boundary i c : 0 <= i → b !! Z.to_nat i = Some c → ∀ p, mp_boundary p = b → mp_separator_index p = i + 2 → mp_first_separator_size p = zlen b + 4 → first_separator_check c p = Some MP_FS_PASS.
Proof.
  intros Hi Hc p Hp Hx Hs. assert (i < zlen b) by (apply lookup_lt_Some in Hc; unfold zlen; lia). unfold first_separator_check. rewrite Hx, Hs.
  rewrite (proj2 (Z.ltb_ge _ _)), (proj2 (Z.eqb_neq _ 0)), (proj2 (Z.eqb_neq _ 1)), (proj2 (Z.ltb_lt 1 _)), (proj2 (Z.ltb_lt (i + 2) _)) by lia. cbn [andb]. replace (i + 2 - 2) with i by lia.
  rewrite (boundary_get p i c) by done. cbn [mbind option_bind]. by rewrite Z.eqb_refl.
Qed.

Notation in_first off i prev outs := (mp off 0 0 0 0 0 off i MP_STG_FIRST_SEPARATOR [] [] 0 prev outs).

Lemma run_first_boundary l : ∀ w rest prev outs, b = w ++ l →
  ∃ prev', run (l ++ rest) (in_first (zlen w + 2) (zlen w + 2) prev outs) = run rest (in_first (zlen b + 2) (zlen b + 2) prev' outs).
Proof.
  induction l as [|c l IH]; intros * E; [exists prev; by rewrite E, app_nil_r|]. cbn [app].
  erewrite run_step; [|unfold turn; cbn [mp_stage]; rewrite (first_check_boundary (zlen w) c); [reflexivity|apply zlen_nonneg|rewrite E; unfold zlen; rewrite Nat2Z.id; by apply list_lookup_middle|done..]].
  destruct (IH (w ++ [c]) rest c outs) as [prev' E']; [by rewrite <- app_assoc|]. exists prev'. rewrite <- E'. unfold advance, at_index. cbn -[parse_bytes zlen]. rewrite zlen_app. change (zlen [c]) with 1. by replace (zlen w + 1 + 2) with (zlen w + 2 + 1) by lia.
Qed.

Lemma first_check_end p : mp_first_separator_size p = zlen b + 4 →
  (mp_separator_index p = zlen b + 2 → first_separator_check 13 p = Some MP_FS_PASS) ∧ (mp_separator_index p = zlen b + 3 → first_separator_check 10 p = Some MP_FS_DONE).
Proof.
  intros Hs. pose proof (zlen_nonneg b). unfold first_separator_check. rewrite Hs. split; intros ->; rewrite (proj2 (Z.ltb_ge (zlen b + 4) _)), (proj2 (Z.eqb_neq _ 0)), (proj2 (Z.eqb_neq _ 1)) by lia.
  - rewrite (proj2 (Z.ltb_ge (zlen b + 2) _)), (proj2 (Z.ltb_lt 1 _)), (proj2 (Z.eqb_eq (zlen b + 2) _)) by lia. done.
  - rewrite (proj2 (Z.ltb_ge (zlen b + 3) _)), (proj2 (Z.eqb_neq (zlen b + 3) (zlen b + 4 - 2))), (proj2 (Z.eqb_eq (zlen b + 3) _)), (proj2 (Z.ltb_lt 1 _)) by lia. done.
Qed.

Lemma first_check_start p i : mp_first_separator_size p = zlen b + 4 → mp_separator_index p = i → i = 0 ∨ i = 1 → first_separator_check 45 p = Some MP_FS_PASS.
Proof. intros Hs Hi H01. unfold first_separator_check. rewrite Hs, Hi, (proj2 (Z.ltb_ge _ _)) by (pose proof (zlen_nonneg b); lia). by destruct H01 as [-> | ->]. Qed.

Lemma run_first_step c rest off i prev outs : first_separator_check c (in_first off i prev outs) = Some MP_FS_PASS → run (c :: rest) (in_first off i prev outs) = run rest (in_first (off + 1) (i + 1) c outs).
Proof. intros E. apply (run_step c rest (in_first off i prev outs) (in_first off (i + 1) prev outs)). unfold turn. cbn [mp_stage]. by rewrite E. Qed.

Lemma run_first rest outs : ∃ p, run ([45; 45] ++ b ++ crlf ++ rest) (multipartparser_init b outs) = run rest p ∧ ready_line (zlen ([45; 45] ++ b ++ crlf)) [] [] outs p.
Proof.
  unfold multipartparser_init. rewrite (cstr_cstring b (proj1 Hb)). cbn [app].
  rewrite run_first_step by (eapply first_check_start; [done..|by left]). rewrite run_first_step by (eapply first_check_start; [done..|by right]).
  destruct (run_first_boundary b [] (crlf ++ rest) 45 outs eq_refl) as [prev' E]. change (run (b ++ crlf ++ rest) (in_first (0 + 1 + 1) (0 + 1 + 1) 45 outs) = run (crlf ++ rest) (in_first (zlen b + 2) (zlen b + 2) prev' outs)) in E. rewrite E.
  unfold crlf. cbn [app]. rewrite run_first_step by (by apply first_check_end). eexists. split.
  - apply run_step. unfold turn. cbn [mp_stage]. rewrite (proj2 (first_check_end (in_first (zlen b + 2 + 1) (zlen b + 2 + 1) 13 outs) eq_refl)) by (cbn [mp_separator_index]; lia). cbn [mbind option_bind]. reflexivity.
  - replace (zlen (45 :: 45 :: b ++ [13; 10])) with (zlen b + 2 + 1 + 1) by (rewrite !zlen_cons, zlen_app; change (zlen [13; 10]) with 2; lia). exact (ready_first (zlen b + 2 + 1 + 1) [] [] outs 0 0 (zlen b + 2 + 1 + 1) 10).
Qed.

Lemma turn_stop c p res p' : turn content alloc junk c p = Some (Stop res p') → res ≠ MP_RES_PARTIAL.
Proof.
  unfold turn. destruct (mp_stage p).
  1: destruct (first_separator_check c p) as [[]|]; cbn [mbind option_bind]; by intros [= <-].
  7: { destruct (intermediate_separator_check c p) as [[]|]; cbn [mbind option_bind]; try by intros [= <-].
    - by destruct (intermediate_separator_check c (at_index p 0)).
    - destruct (multipartparser_create_part alloc junk p) as [[[] q]|]; cbn [mbind option_bind]; by intros [= <-].
    - destruct (multipartparser_create_part alloc junk p) as [[[] q]|]; cbn [mbind option_bind]; by intros [= <-]. }
  4: { destruct (c =? 10); [|by intros [= <-]]. destruct (multipartparser_create_header content alloc p) as [[[] q]|]; cbn [mbind option_bind]; by intros [= <-]. }
  all: repeat case_if; by intros [= <-].
Qed.

Lemma run_app x y : ∀ p, run (x ++ y) p = match run x p with Some (MP_RES_PARTIAL, q) => run y q | r => r end.
Proof.
  induction x as [|c x IH]; intros p; [done|]. cbn [app parse_bytes]. destruct (turn _ _ _ c p) as [[p'|res p']|] eqn:E; cbn [mbind option_bind]; [apply IH| |done].
  apply turn_stop in E. by destruct res.
Qed.

(** The whole text, up to its last hyphen. *)
Lemma run_text l post outs : zlen content < 2 ^ 64 → content = multipart_text b l ++ post → l ≠ [] → Forall (part_ok b) l → reads_well outs = true →
  ∃ m q, multipart_text b l = m ++ [45] ∧ run m (multipartparser_init b outs) = Some (MP_RES_PARTIAL, q) ∧ closing l q.
Proof.
  intros Hz Hc Hne Hok Hw. unfold multipart_text in *. rewrite <- !app_assoc in Hc. destruct (run_first (removelast (parts_text b l)) outs) as (p & E & Hr).
  destruct (run_parts l ([45; 45] ++ b ++ crlf) post [] outs p [] Hz) as (m & q & Em & Er & Hq); [by rewrite <- !app_assoc|done|done|done|done|constructor|].
  rewrite Em, removelast_last in E. exists ([45; 45] ++ b ++ crlf ++ m), q. split; [by rewrite Em, <- !app_assoc|]. split; [by rewrite E|done].
Qed.
End Run.

(** *** Blocks *)

(** The blocks [read] gives until the end of the file; [None] when a read fails. *)
Fixpoint read_blocks (content : list Z) (fuel : nat) (outs : list read_outcome) (pos : Z) : option (list (list Z)) :=
  match fuel with
  | O => None
  | S f =>
      match read_block content outs pos with
      | (None, _) => None
      | (Some [], _) => Some []
      | (Some block, outs) => bl ← read_blocks content f outs (pos + zlen block); Some (block :: bl)
      end
  end.

(** What the last [read] before the end of the file gives. *)
Definition last_block (content : list Z) (outs : list read_outcome) : list Z := default [] (read_blocks content (S (length content)) outs 0 ≫= last).

Lemma read_block_gets content outs pos : gets outs = true →
  ∃ block outs', read_block content outs pos = (Some block, outs') ∧ gets outs' = true ∧ (∃ more, drop (Z.to_nat pos) content = block ++ more) ∧ (block = [] → drop (Z.to_nat pos) content = []).
Proof.
  intros Hg. destruct (pread_once_ok outs content PAYLOAD_BLOCK pos Hg ltac:(done)) as (block & outs' & E & Hg' & (more & Em) & Hnil). exists block, outs'. split; [exact E|]. split; [done|]. split; [|done].
  exists (more ++ drop (Z.to_nat PAYLOAD_BLOCK) (drop (Z.to_nat pos) content)). rewrite app_assoc, <- Em. unfold slice. symmetry. apply take_drop.
Qed.

Lemma read_blocks_all content : ∀ fuel outs pos, gets outs = true → 0 <= pos → (length (drop (Z.to_nat pos) content) < fuel)%nat →
  ∃ bl, read_blocks content fuel outs pos = Some bl ∧ concat bl = drop (Z.to_nat pos) content ∧ Forall (λ w, w ≠ []) bl.
Proof.
  induction fuel as [|fuel IH]; intros outs pos Hg Hp Hf; [lia|]. cbn [read_blocks]. destruct (read_block_gets content outs pos Hg) as (block & outs' & -> & Hg' & (more & Em) & Hnil).
  destruct block as [|c block]; [exists []; by rewrite Hnil|].
  assert (drop (Z.to_nat (pos + zlen (c :: block))) content = more) as Ed.
  { replace (Z.to_nat (pos + zlen (c :: block))) with (Z.to_nat pos + length (c :: block))%nat by (unfold zlen; lia). rewrite <- drop_drop, Em. apply drop_app_length. }
  destruct (IH outs' (pos + zlen (c :: block)) Hg') as (bl & -> & Ec & Hne); [pose proof (zlen_nonneg (c :: block)); lia|rewrite Ed; rewrite Em in Hf; cbn [app length] in Hf; rewrite length_app in Hf; lia|].
  exists ((c :: block) :: bl). cbn [mbind option_bind concat]. split; [done|]. split; [by rewrite Ec, Ed, Em|]. by constructor.
Qed.

Section Feed.
Variables (content : list Z) (alloc : Z → bool) (junk : list Z).
Notation run := (parse_bytes content alloc junk).

(** The calls of the parser on the blocks. *)
Fixpoint feed (bl : list (list Z)) (res : multipart_res) (p : multipartparser) : option (multipart_res * multipartparser) :=
  match bl with
  | [] => Some (res, p)
  | block :: bl' =>
      '(res, p) ← multipartparser_parse content alloc junk p block;
      if bool_decide (res = MP_RES_ERROR) then Some (res, p) else feed bl' res p
  end.

Lemma payload_loop_feed : ∀ fuel outs pos res p bl, read_blocks content fuel outs pos = Some bl → payload_loop content alloc junk fuel outs pos res p = (r ← feed bl res p; Some (Some r)).
Proof.
  induction fuel as [|fuel IH]; intros outs pos res p bl E; [done|]. cbn [read_blocks payload_loop] in *. destruct (read_block content outs pos) as [[block|] outs']; [|done].
  destruct block as [|c block]; [by injection E as <-|]. destruct (read_blocks content fuel outs' _) as [bl'|] eqn:Eb; [|done]. injection E as <-. cbn [feed].
  destruct (multipartparser_parse content alloc junk p (c :: block)) as [[res' p']|]; [|done]. cbn [mbind option_bind]. destruct (bool_decide _); [done|]. by apply IH.
Qed.

Lemma feed_step block bl res p : block ≠ [] → feed (block :: bl) res p = (r ← run block p; if bool_decide (r.1 = MP_RES_ERROR) then Some r else feed bl r.1 r.2).
Proof.
  intros Hne. cbn [feed]. unfold multipartparser_parse. destruct (Z.eqb_spec (zlen block) 0) as [E|_]; [by apply zlen_0_nil in E|]. by destruct (run block p) as [[]|].
Qed.

Lemma feed_partial bl : ∀ bl2 res p q, Forall (λ w, w ≠ []) bl → run (concat bl) p = Some (MP_RES_PARTIAL, q) → ∃ res', feed (bl ++ bl2) res p = feed bl2 res' q.
Proof.
  induction bl as [|block bl IH]; intros * Hne E; [injection E as ->; by exists res|]. apply Forall_cons in Hne as [H1 Hne]. cbn [concat] in E. rewrite run_app in E. cbn [app]. rewrite feed_step by done.
  destruct (run block p) as [[[] p']|]; try done. cbn [mbind option_bind fst snd]. rewrite bool_decide_false by done. by apply IH.
Qed.
End Feed.

Definition content_type (b : list Z) : list Z := bs "multipart/form-data" ++ param_text (Quoted (bs "boundary") b).

Section Payload.
Variables (content : list Z) (alloc : Z → bool) (junk b : list Z) (l : list sent_part) (epilogue : list Z) (preads : list read_outcome).
Hypotheses (Ha : ∀ n, alloc n = true) (Hj : zlen junk = FORMDATABUFSIZ) (Hb : boundary_ok b) (Hbz : zlen (content_type b) <= FORMDATABUFSIZ)
  (Hz : zlen content < 2 ^ 63) (Hc : content = multipart_text b l ++ epilogue) (Hne : l ≠ []) (Hok : Forall (part_ok b) l) (Hw : reads_well preads = true).

Lemma payload_blocks outs bl : read_blocks content (S (length content)) outs 0 = Some bl →
  httprequest_payload_parse_multipart content alloc junk (content_type b) outs preads =
  (r ← feed content alloc junk bl MP_RES_ERROR (multipartparser_init b preads); Some (match r with (MP_RES_DONE, p) => Some (mp_parts p) | _ => None end)).
Proof.
  intros Eb. unfold httprequest_payload_parse_multipart, content_type in *. replace (param_text (Quoted (bs "boundary") b)) with (flat_map param_text [Quoted (bs "boundary") b]) in * by (cbn [flat_map]; apply app_nil_r).
  destruct (formdata_roundtrip alloc junk (bs "multipart/form-data") [Quoted (bs "boundary") b]) as (fd & -> & Hf); [done|done|repeat constructor|repeat constructor; done|split; [rewrite zlen_app; pose proof (zlen_nonneg (flat_map param_text [Quoted (bs "boundary") b])); change (zlen (bs "multipart/form-data")) with 19; lia|done]|].
  cbn [mbind option_bind]. unfold formdataparser_find_field. rewrite Hf. cbn [map param_field find_field fd_key fd_value]. rewrite bool_decide_true by done. rewrite Ha. cbn [negb].
  rewrite (payload_loop_feed _ _ _ _ _ _ _ _ bl Eb). destruct (feed _ _ _ bl _ _) as [[[] p]|]; done.
Qed.

Lemma text_run : ∃ m q, multipart_text b l = m ++ [45] ∧ parse_bytes content alloc junk m (multipartparser_init b preads) = Some (MP_RES_PARTIAL, q) ∧ closing content b l q.
Proof. apply (run_text content alloc junk b Ha Hj Hb l epilogue preads); try done. lia. Qed.
End Payload.

(** A multipart upload arrives as it was sent: parts written with a boundary, each with the parameters of its Content-Disposition,
    its other headers and its bytes, are parsed to exactly those parts in that order, whatever the sizes of the blocks the payload file is read
    in (header lines and delimiters may fall across blocks) and however short the reads of header texts are. A part may hold any
    bytes but the delimiter itself. Text after the closing delimiter is ignored when it comes in the block of the delimiter. *)
Lemma multipart_roundtrip (content : list Z) (alloc : Z → bool) (junk b : list Z) (l : list sent_part) (epilogue : list Z) (outs preads : list read_outcome) :
  (∀ n, alloc n = true) → zlen junk = FORMDATABUFSIZ → boundary_ok b → zlen (content_type b) <= FORMDATABUFSIZ → zlen content < 2 ^ 63 →
  content = multipart_text b l ++ epilogue → l ≠ [] → Forall (part_ok b) l → gets outs = true → reads_well preads = true → zlen epilogue < zlen (last_block content outs) →
  ∃ parts, httprequest_payload_parse_multipart content alloc junk (content_type b) outs preads = Some (Some parts) ∧ Forall2 (received content) parts l.
Proof.
  intros Ha Hj Hb Hbz Hz Hc Hne Hok Hg Hw Hlast. destruct (read_blocks_all content (S (length content)) outs 0 Hg ltac:(lia)) as (bl & Eb & Ec & Hbl); [change (drop (Z.to_nat 0) content) with content; lia|].
  rewrite (payload_blocks content alloc junk b preads Ha Hj Hbz outs bl Eb). unfold last_block in Hlast. rewrite Eb in Hlast. cbn [mbind option_bind] in Hlast. change (drop (Z.to_nat 0) content) with content in Ec.
  destruct bl as [|block bl _] using rev_ind; [cbn in Hlast; change (zlen []) with 0 in Hlast; pose proof (zlen_nonneg epilogue); lia|]. rewrite last_snoc in Hlast. cbn [default from_option id] in Hlast.
  destruct (text_run content alloc junk b l epilogue preads Ha Hj Hb Hz Hc Hne Hok Hw) as (m & q & Em & Er & Hq). rewrite concat_app in Ec. cbn [concat] in Ec. rewrite app_nil_r in Ec. apply Forall_app in Hbl as [Hbl Hb1].
  assert (∃ x, m = concat bl ++ x ∧ block = x ++ 45 :: epilogue) as (x & Emx & Ebx).
  { rewrite <- Ec in Hc. rewrite Em, <- app_assoc in Hc. cbn [app] in Hc. apply app_eq_inv in Hc as [(k & E1 & E2)|(k & E1 & E2)]; [|by exists k].
    destruct k as [|c k]; [exists []; by rewrite E1, !app_nil_r|]. cbn [app] in E2. injection E2 as -> E2. apply (f_equal zlen) in E2. rewrite zlen_app in E2. pose proof (zlen_nonneg k). lia. }
  rewrite Emx, run_app in Er. destruct (parse_bytes content alloc junk (concat bl) _) as [[[] p1]|] eqn:E1; try done.
  destruct (feed_partial content alloc junk bl [block] MP_RES_ERROR _ _ Hbl E1) as (res' & ->). rewrite Ebx, feed_step by (by destruct x). rewrite run_app, Er.
  destruct (run_close content alloc junk b Ha Hj l q epilogue ltac:(lia) Hq) as (q' & -> & Hq'). cbn [mbind option_bind fst snd feed]. rewrite bool_decide_false by done. cbn [mbind option_bind]. destruct Hq'. by eexists.
Qed.

(** *** The text after the closing delimiter *)

Lemma occursb_sound w l : existsb (λ i, bool_decide (take (length w) (drop i l) = w)) (seq 0 (S (length l))) = false → ¬ occurs w l.
Proof.
  intros E (a & z & ->). rewrite <- not_true_iff_false in E. apply E, existsb_exists. exists (length a). split; [apply in_seq; rewrite length_app; lia|].
  apply bool_decide_eq_true. by rewrite drop_app_length, take_app_length.
Qed.

Lemma full_blocks content : ∀ n fuel pos m rest, 0 <= pos → drop (Z.to_nat pos) content = m ++ rest → zlen m = PAYLOAD_BLOCK * Z.of_nat n → 0 < zlen rest <= PAYLOAD_BLOCK → (n + 1 < fuel)%nat →
  ∃ bl, read_blocks content fuel [] pos = Some (bl ++ [rest]) ∧ concat bl = m ∧ Forall (λ w, w ≠ []) bl.
Proof.
  unfold PAYLOAD_BLOCK. induction n as [|n IH]; intros [|fuel] pos m rest Hp Hd Hm Hr Hf; try lia; cbn [read_blocks]; unfold read_block; cbn [pread_once]; unfold slice; rewrite Hd; unfold PAYLOAD_BLOCK.
  - apply (zlen_0_nil m) in Hm as ->. cbn [app] in *. rewrite take_ge by (unfold zlen in *; lia). destruct rest as [|c rest]; [by destruct Hr|]. exists []. split; [|by split].
    destruct fuel; [lia|]. cbn [read_blocks]. unfold read_block. cbn [pread_once]. unfold slice. replace (Z.to_nat (pos + zlen (c :: rest))) with (Z.to_nat pos + length (c :: rest))%nat by (unfold zlen; lia). rewrite <- drop_drop, Hd, drop_all, take_nil. done.
  - set (blk := take (Z.to_nat 16384) m). assert (zlen blk = 16384) as Hbz by (unfold blk; rewrite zlen_take; lia). rewrite take_app_le by (unfold zlen in *; lia). fold blk.
    destruct (IH fuel (pos + 16384) (drop (Z.to_nat 16384) m) rest) as (bl & E & Ec & Hne); [lia|replace (Z.to_nat (pos + 16384)) with (Z.to_nat pos + Z.to_nat 16384)%nat by lia; rewrite <- drop_drop, Hd; rewrite drop_app_le by (unfold zlen in *; lia); done|rewrite zlen_drop; lia|done|lia|].
    destruct blk as [|c blk'] eqn:Eblk; [by change (zlen []) with 0 in Hbz|]. rewrite Hbz, E. cbn [mbind option_bind]. exists ((c :: blk') :: bl). split; [done|]. split; [cbn [concat]; rewrite Ec, <- Eblk; unfold blk; apply take_drop|by constructor].
Qed.

Lemma closed_goes_on content alloc junk b sent q : boundary_ok b → closed content b sent q → ∃ q', parse_bytes content alloc junk crlf q = Some (MP_RES_PARTIAL, q').
Proof.
  intros Hb [po seen parts outs _]. unfold crlf. eexists. erewrite run_step.
  2: { match goal with |- turn _ _ _ _ ?p = _ => unfold turn; cbn [mp_stage]; rewrite (check_end b 13 p) by done end. cbn [mp_prev_ch]. cbn [Z.eqb andb mbind option_bind Pos.eqb]. rewrite (check_inside b Hb 13 _ 0 13) by done. cbn [mbind option_bind]. rewrite bool_decide_true by done. reflexivity. }
  erewrite run_step; [reflexivity|]. apply (turn_body content alloc junk b Hb 10 _ 1 10); done.
Qed.

(** A multipart upload that ends as browsers end it, with a line break after the closing delimiter, is refused when the closing delimiter
    happens to end a block of 16384 bytes: the loop goes on after [MP_RES_DONE], the parser answers [MP_RES_PARTIAL] to the next
    block, and that last answer is the one that counts. *)
Theorem multipart_epilogue_refused (content : list Z) (alloc : Z → bool) (junk b : list Z) (l : list sent_part) (preads : list read_outcome) :
  (∀ n, alloc n = true) → zlen junk = FORMDATABUFSIZ → boundary_ok b → zlen (content_type b) <= FORMDATABUFSIZ → zlen content < 2 ^ 63 →
  content = multipart_text b l ++ crlf → l ≠ [] → Forall (part_ok b) l → reads_well preads = true → zlen (multipart_text b l) mod PAYLOAD_BLOCK = 0 →
  httprequest_payload_parse_multipart content alloc junk (content_type b) [] preads = Some None.
Proof.
  intros Ha Hj Hb Hbz Hz Hc Hne Hok Hw Hmod. pose proof (zlen_nonneg (multipart_text b l)) as Hnn.
  destruct (full_blocks content (Z.to_nat (zlen (multipart_text b l) / PAYLOAD_BLOCK)) (S (length content)) 0 (multipart_text b l) crlf) as (bl & Eb & Ec & Hbl); [done|exact Hc| | | |].
  - unfold PAYLOAD_BLOCK in *. Z.to_euclidean_division_equations. lia.
  - done.
  - assert (length content = length (multipart_text b l) + 2)%nat by (rewrite Hc, length_app; done). unfold PAYLOAD_BLOCK, zlen in *. Z.to_euclidean_division_equations. lia.
  - rewrite (payload_blocks content alloc junk b preads Ha Hj Hbz [] _ Eb).
    destruct (text_run content alloc junk b l crlf preads Ha Hj Hb Hz Hc Hne Hok Hw) as (m & q & Em & Er & Hq).
    destruct bl as [|block bl _] using rev_ind; [rewrite Em in Ec; by destruct m|]. rewrite concat_app in Ec. cbn [concat] in Ec. rewrite app_nil_r in Ec. apply Forall_app in Hbl as [Hbl Hb1]. rewrite Forall_singleton in Hb1.
    destruct block as [|c x _] using rev_ind; [done|]. rewrite Em, app_assoc in Ec. apply app_inj_tail in Ec as [Ec ->].
    rewrite <- Ec, run_app in Er. destruct (parse_bytes content alloc junk (concat bl) _) as [[[] p1]|] eqn:E1; try done.
    rewrite <- app_assoc. destruct (feed_partial content alloc junk bl ([x ++ [45]] ++ [crlf]) MP_RES_ERROR _ _ Hbl E1) as (res' & ->). cbn [app]. rewrite feed_step by done. rewrite run_app, Er.
    destruct (run_close content alloc junk b Ha Hj l q [] ltac:(lia) Hq) as (q' & -> & Hq'). cbn [mbind option_bind fst snd]. rewrite bool_decide_false by done. rewrite feed_step by done.
    destruct (closed_goes_on content alloc junk b l q' Hb Hq') as (q2 & ->). done.
Qed.

Definition sample_parts : list sent_part :=
  [SentPart [Quoted (bs "name") (bs "a")] [] ([0; 13; 10] ++ bs "--"); SentPart [Quoted (bs "name") (bs "f"); Quoted (bs "filename") (bs "x.bin")] [(bs "Content-Type", bs "text/plain")] []].

Definition long_part : list sent_part := [SentPart [Quoted (bs "name") (bs "a")] [] (replicate 16324 120)].

Lemma multipart_epilogue_refused_witness :
  httprequest_payload_parse_multipart (multipart_text (bs "xyz") long_part ++ crlf) (λ _, true) (replicate 1024 7) (content_type (bs "xyz")) [] [] = Some None.
Proof.
  apply (multipart_epilogue_refused _ _ _ _ long_part); [done|reflexivity|split; apply (bool_decide_unpack _); by vm_compute|by vm_compute|by vm_compute|done|done| |done|by vm_compute].
  apply Forall_cons_2; [|apply Forall_nil_2]. split; [repeat constructor; done|]. split; [by vm_compute|]. split; [repeat apply Forall_cons_2; [..|apply Forall_nil_2]; (unfold line_ok; split_and!; by vm_compute)|]. split; [by vm_compute|]. 
  intros (x & y & E). assert (In 13 (replicate 16324 120)) as Hin by (cbn [long_part sp_body] in E; rewrite E; apply in_or_app; right; left; reflexivity). apply list_elem_of_In, elem_of_replicate in Hin as [Hin _]; discriminate.
Defined.

(** Multipart bodies: whatever the sender chose as header value and payload, parsing stays inside its memory, ends, and gives parts that lie
    inside the payload. *)

Definition header_exact (h : http_header) : Prop := key_length h = zlen (key h) ∧ value_length h = zlen (WriteFilter.value h).

(** A part the handler can use: its bytes are in the payload, its lengths are those of its texts. *)
Definition part_inside (content : list Z) (x : http_payloadpart) : Prop :=
  0 <= pp_offset x ∧ 0 <= pp_size x ∧ pp_offset x + pp_size x <= zlen content ∧ Forall header_exact (pp_header x) ∧ zlen (pp_header x) <= 10.

Section Safety.
Variables (content : list Z) (alloc : Z → bool) (junk : list Z).
Hypotheses (Hj : zlen junk = FORMDATABUFSIZ) (Hfield : alloc SIZEOF_PAYLOADFIELD = true) (Hz : zlen content < 2 ^ 63).

(** After [n] bytes. [payload_offset] is behind after bytes that follow a closing delimiter. *)
Record fine (n : Z) (p : multipartparser) : Prop := {
  fn_first : mp_first_separator_size p = zlen (cstr (mp_boundary p)) + 4;
  fn_inter : mp_intermediate_separator_size p = zlen (cstr (mp_boundary p)) + 6;
  fn_offset : 0 <= mp_payload_offset p <= n;
  fn_sizes : 0 <= mp_header_key_size p ∧ 0 <= mp_header_value_size p;
  fn_headers : Forall header_exact (mp_headers p) ∧ mp_header_count p = zlen (mp_headers p) ∧ zlen (mp_headers p) <= 10;
  fn_parts : Forall (part_inside content) (mp_parts p);
  fn_index : match mp_stage p with
    | MP_STG_FIRST_SEPARATOR => 0 <= mp_separator_index p
    | MP_STG_BODY => 0 <= mp_separator_index p < mp_part_size p ∧ 0 <= mp_part_offset p ∧ mp_part_size p = mp_payload_offset p - mp_part_offset p + 1
    | _ => mp_separator_index p = 0
    end }.

Lemma boundary_in p i : 0 <= i < zlen (cstr (mp_boundary p)) → ∃ c, boundary_at p i = Some c.
Proof. intros Hi. apply mem_get_Some. rewrite zlen_app. change (zlen [0]) with 1. lia. Qed.

(** The comparison with the boundary is only made inside it. *)
Lemma compare_total (c i k : Z) p (g : bool) : (g = true → k <= i < zlen (cstr (mp_boundary p)) + k) → ∃ m : bool, (if g then b ← boundary_at p (i - k); Some (c =? b) else Some false) = Some m.
Proof. destruct g; [|by exists false]. intros Hi. destruct (boundary_in p (i - k)) as [d ->]; [lia|]. by eexists. Qed.

Lemma first_total c n p : fine n p → ∃ r, first_separator_check c p = Some r.
Proof.
  intros [F1 _ _ _ _ _ _]. unfold first_separator_check. rewrite F1.
  edestruct (compare_total c (mp_separator_index p) 2 p) as [m ->]; [intros E; reflect_bools; lia|]. cbn [mbind option_bind]. repeat (case_if; [by eexists|]). by eexists.
Qed.

Lemma intermediate_total c n p : fine n p → ∃ r, intermediate_separator_check c p = Some r ∧ (r = MP_IM_NEXT_PART ∨ r = MP_IM_DONE → mp_separator_index p = mp_intermediate_separator_size p - 1).
Proof.
  intros [_ F2 _ _ _ _ _]. unfold intermediate_separator_check. rewrite F2.
  edestruct (compare_total c (mp_separator_index p) 4 p) as [m ->]; [intros E; reflect_bools; lia|]. cbn [mbind option_bind].
  repeat case_if; (eexists; split; [done|]; intros [?|?]; reflect_bools; (done || lia)).
Qed.

Lemma read_exact_total : ∀ fuel outs size offset got, (Z.to_nat (size - zlen got) < fuel)%nat → zlen got <= size →
  ∃ r outs', read_exact content fuel outs size offset got = Some (r, outs') ∧ ∀ w, r = Some w → zlen w = size.
Proof.
  induction fuel as [|fuel IH]; intros * Hf Hg; [lia|]. cbn [read_exact]. destruct (Z.ltb_spec (zlen got) size); [|eexists _, _; split; [done|]; intros w [= <-]; lia].
  assert (∀ o outs', pread_loop outs content (size - zlen got) (offset + zlen got) = (Some o, outs') → zlen o <= size - zlen got) as Hle.
  { clear -H. induction outs as [|[m| |] outs IH]; intros o outs'; cbn [pread_loop]; [| |apply IH|done]; intros [= <- <-]; unfold slice; rewrite ?zlen_take; lia. }
  destruct (pread_loop outs content _ _) as [[[|c bytes]|] outs'] eqn:E; [by eexists _, _| |by eexists _, _]. pose proof (Hle _ _ eq_refl) as E'. pose proof (zlen_nonneg bytes). rewrite zlen_cons in E'.
  apply IH; rewrite zlen_app, zlen_cons; lia.
Qed.

Lemma write_header_total outs offset size : 0 <= size → ∃ r outs', multipartparser_write_header content outs offset size = Some (r, outs') ∧ ∀ w, r = Some w → zlen w = size.
Proof. intros Hs. apply read_exact_total; change (zlen []) with 0; lia. Qed.

Lemma write_or_empty outs offset size : 0 <= size → ∃ r outs', (if size =? 0 then Some (Some [], outs) else multipartparser_write_header content outs offset size) = Some (r, outs') ∧ ∀ w, r = Some w → zlen w = size.
Proof. intros Hs. destruct (Z.eqb_spec size 0) as [->|]; [eexists _, _; split; [done|]; by intros w [= <-]|by apply write_header_total]. Qed.

Lemma create_header_fine n p : fine n p → mp_separator_index p = 0 → ∃ ok p', multipartparser_create_header content alloc p = Some (ok, p') ∧ mp_stage p' = mp_stage p ∧ fine n (at_stage p' MP_STG_EXTRA_CR).
Proof.
  intros [F1 F2 F3 [F4 F4'] (F5 & F5' & F5'') F6 F7] Hi. assert (∀ q, fine n (at_stage (at_lists p (mp_parts p) (mp_headers p) (mp_header_count p) q) MP_STG_EXTRA_CR)) as Hsame by (intros q; constructor; cbn; auto).
  unfold multipartparser_create_header. case_if; [eexists _, _; split; [done|]; split; [done|]; apply (Hsame (mp_reads p))|]. case_if; [eexists _, _; split; [done|]; split; [done|]; apply (Hsame (mp_reads p))|].
  destruct (write_or_empty (mp_reads p) (mp_header_key_offset p) (mp_header_key_size p) F4) as (k & outs1 & -> & Hk). cbn [mbind option_bind]. destruct k as [k|]; [|eexists _, _; split; [done|]; split; [done|]; apply Hsame].
  destruct (write_or_empty outs1 (mp_header_value_offset p) (mp_header_value_size p) F4') as (v & outs2 & -> & Hv). cbn [mbind option_bind]. destruct v as [v|]; [|eexists _, _; split; [done|]; split; [done|]; apply Hsame].
  eexists _, _. split; [done|]. split; [done|]. reflect_bools. constructor; cbn -[zlen]; try done. rewrite zlen_app. change (zlen [_]) with 1. split_and!; [|lia..].
  apply Forall_app. split; [done|]. apply Forall_singleton. split; cbn; symmetry; auto.
Qed.

Lemma copy_fields_total l : ∃ r, copy_fields alloc l = Some r.
Proof.
  induction l as [|f l [r IH]]; [by eexists|]. cbn [copy_fields]. rewrite Hfield. cbn [negb]. destruct (copy_cstringn alloc (fd_key f)); [|by eexists]. destruct (copy_cstringn alloc (fd_value f)); [|by eexists].
  rewrite IH. by eexists.
Qed.

Lemma part_fields_total hs : Forall header_exact hs → ∃ r, part_fields alloc junk hs = Some r.
Proof.
  intros Hh. unfold part_fields. destruct (List.find _ hs) as [h|] eqn:E; [|by eexists]. apply List.find_some in E as [Hin _]. rewrite Forall_forall in Hh. destruct (Hh h) as [_ Hv]; [by apply list_elem_of_In|].
  rewrite Hv, mem_read_Some by (pose proof (zlen_nonneg (WriteFilter.value h)); lia). cbn [mbind option_bind].
  destruct (formdata_safe alloc junk (bs "form-data") (take (Z.to_nat (zlen (WriteFilter.value h))) (drop (Z.to_nat 0) (WriteFilter.value h))) Hj) as (ok & fd & -> & _). cbn [mbind option_bind]. apply copy_fields_total.
Qed.

Lemma create_part_fine n p : fine n p → n < zlen content → mp_stage p = MP_STG_BODY → mp_separator_index p = mp_intermediate_separator_size p - 1 →
  ∃ ok p', multipartparser_create_part alloc junk p = Some (ok, p') ∧ fine n p' ∧ mp_stage p' = MP_STG_BODY.
Proof.
  intros Hf Hn Hst Hi. pose proof Hf as [F1 F2 F3 F4 (F5 & F5' & F5'') F6 F7]. rewrite Hst in F7. unfold multipartparser_create_part. destruct (part_fields_total (mp_headers p) F5) as [r ->]. cbn [mbind option_bind].
  destruct r as [fields|]; [|by eexists _, _]. case_if; [by eexists _, _|]. eexists _, _. split; [done|]. split; [|done]. constructor; cbn -[zlen wrap64]; try done.
  - apply Forall_app. split; [done|]. apply Forall_singleton. unfold part_inside. cbn -[zlen wrap64]. unfold wrap64. rewrite Z.mod_small by lia. split_and!; (done || lia).
  - by rewrite Hst.
Qed.

Lemma fine_mono n m p : n <= m → fine n p → fine m p.
Proof. intros Hnm [F1 F2 F3 F4 F5 F6 F7]. constructor; try done. lia. Qed.

(** The end of a turn. *)
Lemma advance_fine n p c : fine n p → fine (n + 1) (advance p c).
Proof.
  intros [F1 F2 F3 F4 F5 F6 F7]. constructor; cbn; try done; [lia|]. destruct (mp_stage p); try done. lia.
Qed.

Lemma begin_headers_fine n p : fine n p → fine n (begin_headers p).
Proof. intros [F1 F2 F3 F4 F5 F6 F7]. by constructor. Qed.

(** Where the index may be moved to in the body. *)
Lemma at_index_fine n p i c : fine n p → mp_stage p = MP_STG_BODY → 0 <= i <= mp_separator_index p + 1 → fine (n + 1) (advance (at_index p i) c).
Proof.
  intros [F1 F2 F3 F4 F5 F6 F7] Hst Hi. rewrite Hst in F7. constructor; cbn; try done; [lia|]. rewrite Hst. lia.
Qed.

Definition turn_ok (n c : Z) (t : mp_turn) : Prop := match t with Next p => fine (n + 1) (advance p c) | Stop _ p => fine (n + 1) p end.

Lemma turn_body_fine n c p : fine n p → n < zlen content → mp_stage p = MP_STG_BODY → ∃ t, turn content alloc junk c p = Some t ∧ turn_ok n c t.
Proof.
  intros Hf Hn Hst. pose proof Hf as [_ _ _ _ _ _ F7]. rewrite Hst in F7. unfold turn. rewrite Hst. destruct (intermediate_total c n p Hf) as (r & -> & Hr). cbn [mbind option_bind].
  assert (fine n (at_index p 0)) as Hf0. { destruct Hf as [F1 F2 F3 F4 F5 F6 _]. constructor; cbn; try done. rewrite Hst. lia. }
  destruct r.
  - eexists. split; [done|]. apply (fine_mono n); [lia|done].
  - destruct (intermediate_total c n (at_index p 0) Hf0) as (r & -> & _). cbn [mbind option_bind]. eexists. split; [done|]. cbn [turn_ok]. case_if; apply at_index_fine; cbn; (done || lia).
  - eexists. split; [done|]. apply at_index_fine; (done || lia).
  - destruct (create_part_fine n p Hf Hn Hst (Hr (or_introl eq_refl))) as (ok & p' & -> & Hf' & _). cbn [mbind option_bind]. destruct ok; (eexists; split; [done|]); [by apply advance_fine, begin_headers_fine|apply (fine_mono n); [lia|done]].
  - destruct (create_part_fine n p Hf Hn Hst (Hr (or_intror eq_refl))) as (ok & p' & -> & Hf' & _). cbn [mbind option_bind]. eexists. split; [done|]. apply (fine_mono n); [lia|done].
Qed.

Ltac moved Est := (eexists; split; [reflexivity|]); apply advance_fine; constructor; cbn; rewrite ?Est; (done || lia).

Lemma turn_fine n c p : fine n p → n < zlen content → ∃ t, turn content alloc junk c p = Some t ∧ turn_ok n c t.
Proof.
  intros Hf Hn. destruct (decide (mp_stage p = MP_STG_BODY)) as [Hst|Hst]; [by apply turn_body_fine|]. pose proof Hf as [F1 F2 F3 [F4 F4'] F5 F6 F7].
  assert (∃ t, Some (Stop MP_RES_ERROR p) = Some t ∧ turn_ok n c t) as Herr by (eexists; split; [done|]; apply (fine_mono n); [lia|done]).
  unfold turn. destruct (mp_stage p) eqn:Est; try done.
  - destruct (first_total c n p Hf) as [[] ->]; cbn [mbind option_bind]; [done| |eexists; split; [done|]; by apply advance_fine, begin_headers_fine].
    eexists; split; [done|]. apply advance_fine. constructor; cbn; try done. rewrite Est. lia.
  - repeat case_if; try done; moved Est.
  - repeat case_if; try done; moved Est.
  - repeat case_if; try done; moved Est.
  - case_if; [|done]. destruct (create_header_fine n p Hf F7) as (ok & p' & -> & Hst' & Hf'). cbn [mbind option_bind]. destruct ok; (eexists; split; [done|]); [by apply advance_fine|].
    destruct Hf' as [G1 G2 G3 G4 G5 G6 G7]. cbn in *. apply (fine_mono n); [lia|]. constructor; try done. by rewrite Hst', Est.
  - repeat case_if; try done; moved Est.
  - case_if; [|done]. eexists. split; [done|]. constructor; cbn; try done; lia.
Qed.

Lemma parse_fine w : ∀ n p, fine n p → n + zlen w <= zlen content → ∃ res p', parse_bytes content alloc junk w p = Some (res, p') ∧ fine (n + zlen w) p'.
Proof.
  induction w as [|c w IH]; intros n p Hf Hn; [change (zlen []) with 0; rewrite Z.add_0_r; by eexists _, _|]. rewrite zlen_cons in *. pose proof (zlen_nonneg w). cbn [parse_bytes].
  destruct (turn_fine n c p Hf ltac:(lia)) as ([p'|res p'] & -> & Ht); cbn [mbind option_bind turn_ok] in *.
  - destruct (IH (n + 1) (advance p' c) Ht ltac:(lia)) as (res & q & -> & Hq). eexists _, _. split; [done|]. by rewrite Z.add_assoc.
  - eexists _, _. split; [done|]. apply (fine_mono (n + 1)); [lia|done].
Qed.

Lemma read_block_prefix outs pos block outs' : read_block content outs pos = (Some block, outs') → ∃ more, drop (Z.to_nat pos) content = block ++ more.
Proof.
  unfold read_block, pread_once, slice. destruct outs as [|[m| |] outs]; try done; intros [= <- <-]; [|rewrite take_take]; eexists; symmetry; apply take_drop.
Qed.

Lemma payload_loop_fine : ∀ fuel outs pos res p, fine pos p → 0 <= pos → (length (drop (Z.to_nat pos) content) < fuel)%nat →
  ∃ r, payload_loop content alloc junk fuel outs pos res p = Some r ∧ ∀ res' p', r = Some (res', p') → Forall (part_inside content) (mp_parts p').
Proof.
  induction fuel as [|fuel IH]; intros outs pos res p Hf Hp Hfuel; [lia|]. cbn [payload_loop]. destruct (read_block content outs pos) as [[block|] outs'] eqn:Eb; [|by eexists]. apply read_block_prefix in Eb as [more Em].
  destruct block as [|c block]; [eexists; split; [done|]; intros res' p' [= _ <-]; apply Hf|].
  assert (pos + zlen (c :: block) + zlen more = zlen content) as Hlen.
  { apply (f_equal zlen) in Em. rewrite zlen_drop, zlen_app in Em. pose proof (zlen_nonneg block). pose proof (zlen_nonneg more). rewrite zlen_cons in *. lia. }
  pose proof (zlen_nonneg more). pose proof (zlen_nonneg (c :: block)). unfold multipartparser_parse. destruct (Z.eqb_spec (zlen (c :: block)) 0); [rewrite zlen_cons in *; pose proof (zlen_nonneg block); lia|].
  destruct (parse_fine (c :: block) pos p Hf ltac:(lia)) as (res1 & p1 & -> & Hf1). cbn [mbind option_bind]. case_if; [eexists; split; [done|]; intros res' p' [= _ <-]; apply Hf1|].
  apply IH; [done|lia|]. replace (Z.to_nat (pos + zlen (c :: block))) with (Z.to_nat pos + length (c :: block))%nat by (unfold zlen; lia). rewrite <- drop_drop, Em, drop_app_length. rewrite Em in Hfuel. cbn [app length] in Hfuel. rewrite length_app in Hfuel. lia.
Qed.
End Safety.

(** C29: Parsing a multipart body is safe and total on everything a client can send: for every Content-Type value, every payload, every segmentation into blocks
    and every failure of [read], [pread] and of allocations (a field structure apart, whose failure the code does not test), no byte outside a buffer or
    the boundary is touched, no size wraps, the loops end, and every part handed to the application lies inside the payload and has at most ten headers. *)
Theorem multipart_safe (content : list Z) (alloc : Z → bool) (junk header_value : list Z) (outs preads : list read_outcome) :
  zlen junk = FORMDATABUFSIZ → alloc SIZEOF_PAYLOADFIELD = true → zlen content < 2 ^ 63 →
  ∃ r, httprequest_payload_parse_multipart content alloc junk header_value outs preads = Some r ∧ ∀ parts, r = Some parts → Forall (part_inside content) parts.
Proof.
  intros Hj Hfield Hz. unfold httprequest_payload_parse_multipart. destruct (formdata_safe alloc junk (bs "multipart/form-data") header_value Hj) as (ok & fd & -> & _). cbn [mbind option_bind].
  destruct (formdataparser_find_field fd _) as [b|]; [|by eexists]. case_if; [by eexists|].
  destruct (payload_loop_fine content alloc junk Hj Hfield Hz (S (length content)) outs 0 MP_RES_ERROR (multipartparser_init b preads)) as (r & -> & Hr).
  - constructor; cbn -[zlen]; try done.
  - done.
  - change (drop (Z.to_nat 0) content) with content. lia.
  - cbn [mbind option_bind]. destruct r as [[[] p]|]; (eexists; split; [done|]); try done. intros parts [= <-]. by apply (Hr MP_RES_DONE).
Qed.

Lemma multipart_safe_witness :
  ∃ r, httprequest_payload_parse_multipart (bs "--x" ++ [13; 10] ++ bs "a:b" ++ [13; 10; 13; 10] ++ [255; 13; 10] ++ bs "--x--") (λ _, true) (replicate 1024 7) (bs "multipart/form-data; boundary=x") [Got 3; ReadInterrupted] [ReadFailed] = Some r ∧
    ∀ parts, r = Some parts → Forall (part_inside (bs "--x" ++ [13; 10] ++ bs "a:b" ++ [13; 10; 13; 10] ++ [255; 13; 10] ++ bs "--x--")) parts.
Proof. apply multipart_safe; reflexivity. Defined.
