(* ===== verification/UrlEncoded.v ===== *)
(** Urlencoded bodies ([parsers/urlencodedparser.c]) and the loop of [httprequest_payload_parse_urlencoded] ([httprequest.c]).

    The parser only counts in the blocks it is given; keys and values are read back from the payload file [content]. The fields are the list from
    [field] to [last_field], a key or a value that is still NULL being [None]. The outcomes of [pread] are scripts. *)

From S2P Require Import Prelude Helpers QueryParser WriteFilter HttpResponse DataFilter.

(** ** The model *)

Definition URLENCODEDPARSER_MAX_PARTS : Z := 256.
Definition SIZEOF_FIELD : Z := 40.

Record urlencodedparser : Set := UrlEncodedParser {
  ue_field : list (option (list Z) * option (list Z));
  ue_payload_size : Z;
  ue_payload_offset : Z;
  ue_offset : Z;
  ue_size : Z;
  ue_find_amp : bool;
  ue_field_count : Z;
  ue_limit_reached : bool;
  ue_reads : list read_outcome }.

Definition urlencodedparser_init (payload_size : Z) (reads : list read_outcome) : urlencodedparser := UrlEncodedParser [] payload_size 0 0 0 true 0 false reads.

Definition ue_place (p : urlencodedparser) (offset size : Z) : urlencodedparser :=
  UrlEncodedParser (ue_field p) (ue_payload_size p) (ue_payload_offset p) offset size (ue_find_amp p) (ue_field_count p) (ue_limit_reached p) (ue_reads p).
Definition ue_amp (p : urlencodedparser) (find_amp : bool) : urlencodedparser :=
  UrlEncodedParser (ue_field p) (ue_payload_size p) (ue_payload_offset p) (ue_offset p) (ue_size p) find_amp (ue_field_count p) (ue_limit_reached p) (ue_reads p).
Definition ue_limit (p : urlencodedparser) : urlencodedparser :=
  UrlEncodedParser (ue_field p) (ue_payload_size p) (ue_payload_offset p) (ue_offset p) (ue_size p) (ue_find_amp p) (ue_field_count p) true (ue_reads p).
Definition ue_fields (p : urlencodedparser) (l : list (option (list Z) * option (list Z))) (count : Z) (reads : list read_outcome) : urlencodedparser :=
  UrlEncodedParser l (ue_payload_size p) (ue_payload_offset p) (ue_offset p) (ue_size p) (ue_find_amp p) count (ue_limit_reached p) reads.
Definition ue_next (p : urlencodedparser) : urlencodedparser :=
  UrlEncodedParser (ue_field p) (ue_payload_size p) (ue_payload_offset p + 1) (ue_offset p) (ue_size p) (ue_find_amp p) (ue_field_count p) (ue_limit_reached p) (ue_reads p).

(** A change of the last field; [None] when there is none. *)
Definition on_last {A} (f : A → A) (l : list A) : option (list A) := match last l with Some x => Some (removelast l ++ [f x]) | None => None end.

Section Parser.
Variable content : list Z.
Variable alloc : Z → bool.

Fixpoint field_loop (fuel : nat) (outs : list read_outcome) (offset size : Z) (got : list Z) : option (option (list Z) * list read_outcome) :=
  match fuel with
  | O => None
  | S f =>
      if zlen got <? size then
        match pread_once outs content (size - zlen got) (offset + zlen got) with
        | (None, outs) => Some (None, outs)
        | (Some [], outs) => Some (Some got, outs)
        | (Some bytes, outs) => field_loop f outs offset size (got ++ bytes)
        end
      else Some (Some got, outs)
  end.

(** The decoded text at [offset]; [None] inside for the return value 0. *)
Definition urlencodedparser_set_field (outs : list read_outcome) (offset size : Z) : option (option (list Z) * list read_outcome) :=
  if negb (alloc (size + 1)) then Some (None, outs)
  else
    '(got, outs) ← field_loop (S (Z.to_nat size)) outs offset size [];
    Some (match got with Some value => urldecode alloc value | None => None end, outs).

(** 1 or 0, and the parser. *)
Definition urlencodedparser_add_field (p : urlencodedparser) : bool * urlencodedparser :=
  if negb (alloc SIZEOF_FIELD) then (false, p)
  else (true, ue_fields p (ue_field p ++ [(None, None)]) (ue_field_count p + 1) (ue_reads p)).

Definition urlencodedparser_set_field_key (p : urlencodedparser) : option (bool * urlencodedparser) :=
  '(r, outs) ← urlencodedparser_set_field (ue_reads p) (ue_offset p) (ue_size p);
  match r with
  | None => Some (false, ue_fields p (ue_field p) (ue_field_count p) outs)
  | Some k =>
      l ← on_last (λ f, (Some k, f.2)) (ue_field p);
      Some (true, ue_place (ue_fields p l (ue_field_count p) outs) (ue_payload_offset p + 1) 0)
  end.

Definition urlencodedparser_set_field_value (p : urlencodedparser) : option (bool * urlencodedparser) :=
  '(r, outs) ← urlencodedparser_set_field (ue_reads p) (ue_offset p) (ue_size p);
  match r with
  | None => Some (false, ue_fields p (ue_field p) (ue_field_count p) outs)
  | Some v =>
      l ← on_last (λ f, (f.1, Some v)) (ue_field p);
      Some (true, ue_fields p l (ue_field_count p) outs)
  end.

Definition urlencodedparser_set_empty_value (p : urlencodedparser) : option (bool * urlencodedparser) :=
  match copy_cstringn alloc [] with
  | None => Some (false, p)
  | Some v =>
      l ← on_last (λ f, (f.1, Some v)) (ue_field p);
      Some (true, ue_fields p l (ue_field_count p) (ue_reads p))
  end.

(** A field for the key that ends here. *)
Definition key_field (p : urlencodedparser) : option (bool * urlencodedparser) :=
  if URLENCODEDPARSER_MAX_PARTS <=? ue_field_count p then Some (false, ue_limit p)
  else
    let '(ok, p) := urlencodedparser_add_field p in
    if negb ok then Some (false, p) else urlencodedparser_set_field_key p.

Definition urlencodedparser_flush (p : urlencodedparser) : option (bool * urlencodedparser) :=
  if ue_find_amp p then
    if ue_size p =? 0 then Some (true, ue_place p (ue_payload_offset p + 1) 0)
    else
      '(ok, p) ← key_field p;
      if negb ok then Some (false, p) else urlencodedparser_set_empty_value p
  else
    '(ok, p) ← urlencodedparser_set_field_value p;
    if negb ok then Some (false, p) else Some (true, ue_amp (ue_place p (ue_payload_offset p + 1) 0) true).

Definition urlencodedparser_byte (c : Z) (p : urlencodedparser) : option (bool * urlencodedparser) :=
  if c =? 61 then
    if negb (ue_find_amp p) then Some (true, ue_place p (ue_offset p) (ue_size p + 1))
    else key_field (ue_amp p false)
  else if c =? 38 then urlencodedparser_flush p
  else Some (true, ue_place p (ue_offset p) (ue_size p + 1)).

Fixpoint urlencodedparser_loop (buffer : list Z) (p : urlencodedparser) : option (bool * urlencodedparser) :=
  match buffer with
  | [] => Some (true, p)
  | c :: buffer' =>
      if ue_payload_offset p <? ue_payload_size p then
        '(ok, p) ← urlencodedparser_byte c p;
        if negb ok then Some (false, p) else urlencodedparser_loop buffer' (ue_next p)
      else Some (true, p)
  end.

Definition urlencodedparser_parse (p : urlencodedparser) (buffer : list Z) : option (bool * urlencodedparser) :=
  if ue_limit_reached p then Some (false, p)
  else
    '(ok, p) ← urlencodedparser_loop buffer p;
    if negb ok then Some (false, p)
    else if ue_payload_size p <=? ue_payload_offset p then urlencodedparser_flush p
    else Some (true, p).

Definition URLENCODED_BLOCK : Z := 16384.

(** [None] inside for the return value 0. *)
Fixpoint urlencoded_loop (fuel : nat) (outs : list read_outcome) (payload_size offset : Z) (p : urlencodedparser) : option (option urlencodedparser) :=
  match fuel with
  | O => None
  | S f =>
      if offset <? payload_size then
        match pread_once outs content URLENCODED_BLOCK offset with
        | (None, _) => Some None
        | (Some [], _) => Some (Some p)
        | (Some block, outs) =>
            '(ok, p) ← urlencodedparser_parse p block;
            if negb ok then Some None else urlencoded_loop f outs payload_size (offset + zlen block) p
        end
      else Some (Some p)
  end.

(** [payload_size] is the size on record of the payload file, [outs] the outcomes of the reads of blocks, [preads] of those of texts. *)
Definition httprequest_payload_parse_urlencoded (payload_size : Z) (outs preads : list read_outcome) : option (option (list (option (list Z) * option (list Z)))) :=
  r ← urlencoded_loop (S (Z.to_nat payload_size)) outs payload_size 0 (urlencodedparser_init payload_size preads);
  Some (match r with Some p => Some (ue_field p) | None => None end).
End Parser.

Example urlencoded_sample :
  httprequest_payload_parse_urlencoded (bs "a=1%202&&b&=x&c=d=e") (λ _, true) 19 [Got 1; Got 2] [Got 1] =
  Some (Some [(Some (bs "a"), Some (bs "1 2")); (Some (bs "b"), Some []); (Some [], Some (bs "x")); (Some (bs "c"), Some (bs "d=e"))]).
Proof. vm_compute. reflexivity. Qed.

(** ** Specification *)

(** The pairs of a body: cut at ampersands, empty pieces left out, each cut at its first equals sign and decoded. *)
Definition body_pairs (s : list Z) : list (list Z * list Z) := map pair_of (List.filter (λ w, negb (zlen w =? 0)) (split_on 38 s)).
Definition as_field (x : list Z * list Z) : option (list Z) * option (list Z) := (Some x.1, Some x.2).

(** ** Lemmas *)

Definition nonempty (ds : list (list Z)) : list (list Z) := List.filter (λ w, negb (zlen w =? 0)) ds.
Definition fields_of (ds : list (list Z)) : list (option (list Z) * option (list Z)) := map as_field (map pair_of (nonempty ds)).

Lemma nonempty_app a b : nonempty (a ++ b) = nonempty a ++ nonempty b.
Proof. apply List.filter_app. Qed.
Lemma nonempty_cons w : w ≠ [] → nonempty [w] = [w].
Proof. intros Hw. unfold nonempty. cbn [List.filter]. destruct (Z.eqb_spec (zlen w) 0) as [E|]; [by apply zlen_0_nil in E|done]. Qed.
Lemma fields_of_app a b : fields_of (a ++ b) = fields_of a ++ fields_of b.
Proof. unfold fields_of. by rewrite nonempty_app, !map_app. Qed.
Lemma zlen_fields_of ds : zlen (fields_of ds) = zlen (nonempty ds).
Proof. unfold fields_of, zlen. by rewrite !length_map. Qed.

(** A prefix has no more pieces. *)
Lemma pieces_grow sep b : ∀ a w, zlen (nonempty (split_on_aux sep w a)) <= zlen (nonempty (split_on_aux sep w (a ++ b))).
Proof.
  assert (∀ w, zlen (nonempty [w]) <= zlen (nonempty (split_on_aux sep w b))) as Hone.
  { induction b as [|c b IH]; intros w; cbn [split_on_aux]; [done|]. destruct (c =? sep).
    - change (w :: split_on_aux sep [] b) with ([w] ++ split_on_aux sep [] b). rewrite nonempty_app, zlen_app. pose proof (zlen_nonneg (nonempty (split_on_aux sep [] b))). lia.
    - etrans; [|apply IH]. rewrite (nonempty_cons (w ++ [c])) by (by destruct w). unfold nonempty. cbn [List.filter]. by destruct (negb _). }
  induction a as [|c a IH]; intros w; cbn [split_on_aux app]; [apply Hone|]. destruct (c =? sep); [|apply IH].
  change (w :: ?x) with ([w] ++ x). rewrite !nonempty_app, !zlen_app. specialize (IH []). lia.
Qed.

Lemma on_last_snoc {A} (f : A → A) l x : on_last f (l ++ [x]) = Some (l ++ [f x]).
Proof. unfold on_last. by rewrite last_snoc, removelast_last. Qed.

Section Run.
Variables (content : list Z) (alloc : Z → bool).
Hypothesis Ha : ∀ n, alloc n = true.

Lemma field_loop_ok w : ∀ fuel pre got post outs, content = pre ++ got ++ w ++ post → (length w < fuel)%nat → gets outs = true →
  ∃ outs', field_loop content fuel outs (zlen pre) (zlen got + zlen w) got = Some (Some (got ++ w), outs') ∧ gets outs' = true.
Proof.
  induction w as [w IH] using (induction_ltof1 _ (@length Z)). unfold ltof in IH. intros [|fuel] pre got post outs Hc Hf Hw; [lia|]. cbn [field_loop].
  destruct w as [|c w]. { change (zlen []) with 0. rewrite Z.add_0_r, Z.ltb_irrefl, app_nil_r. by exists outs. }
  rewrite (proj2 (Z.ltb_lt _ _)) by (rewrite zlen_cons; pose proof (zlen_nonneg w); lia).
  replace (zlen got + zlen (c :: w) - zlen got) with (zlen (c :: w)) by lia.
  destruct (pread_once_ok outs content (zlen (c :: w)) (zlen pre + zlen got) Hw) as (bytes & outs1 & -> & Hw1 & Hm & Hnil); [rewrite zlen_cons; pose proof (zlen_nonneg w); lia|].
  destruct (read_progress content pre got (c :: w) post bytes Hc ltac:(done) Hm Hnil) as (c' & bytes' & more & -> & Ew & Hc'). rewrite Ew.
  destruct (IH more ltac:(rewrite Ew, length_app; cbn [length]; lia) fuel pre (got ++ c' :: bytes') post outs1 Hc') as (outs2 & E & Hw2); [rewrite Ew, length_app in Hf; cbn [length] in Hf; lia|done|].
  rewrite zlen_app, <- Z.add_assoc, <- zlen_app in E. rewrite E. exists outs2. by rewrite <- app_assoc.
Qed.

Lemma set_field_ok pre w post outs offset size : content = pre ++ w ++ post → gets outs = true → offset = zlen pre → size = zlen w →
  ∃ outs', urlencodedparser_set_field content alloc outs offset size = Some (Some (urldecodel w), outs') ∧ gets outs' = true.
Proof.
  intros Hc Hg -> ->. unfold urlencodedparser_set_field. rewrite Ha. cbn [negb].
  destruct (field_loop_ok w (S (Z.to_nat (zlen w))) pre [] post outs Hc) as (outs' & E & Hg'); [unfold zlen; lia|done|]. change (zlen [] + zlen w) with (zlen w) in E. rewrite E. cbn [mbind option_bind app].
  exists outs'. split; [|done]. unfold urldecode. by rewrite Ha.
Qed.

(** After [pre], with the pieces [ds] behind and [w] of the current one. *)
Record at_piece (pre : list Z) (ds : list (list Z)) (w : list Z) (p : urlencodedparser) : Prop := {
  up_place : ue_payload_size p = zlen content ∧ ue_payload_offset p = zlen pre ∧ ue_limit_reached p = false;
  up_reads : gets (ue_reads p) = true;
  up_count : ue_field_count p = zlen (ue_field p) ∧ zlen (ue_field p) <= URLENCODEDPARSER_MAX_PARTS;
  up_tail : ∃ x, pre = x ++ w;
  up_state : match cut 61 w with
    | (k, None) => ue_find_amp p = true ∧ ue_size p = zlen k ∧ ue_offset p = zlen pre - zlen k ∧ ue_field p = fields_of ds
    | (k, Some v) => ue_find_amp p = false ∧ ue_size p = zlen v ∧ ue_offset p = zlen pre - zlen v ∧ ue_field p = fields_of ds ++ [(Some (urldecodel k), None)]
    end }.

Lemma cut_some sep w k v : cut sep w = (k, Some v) → w = k ++ sep :: v.
Proof.
  revert k. induction w as [|c w IH]; intros k; cbn [cut]; [done|]. destruct (Z.eqb_spec c sep) as [->|]; [by intros [= <- <-]|]. destruct (cut sep w) as [k' o]. intros [= <- ->]. cbn [app]. f_equal. by apply IH.
Qed.

Lemma key_field_ok x w post p : content = (x ++ w) ++ post → ue_offset p = zlen x → ue_size p = zlen w → gets (ue_reads p) = true → ue_field_count p = zlen (ue_field p) →
  if URLENCODEDPARSER_MAX_PARTS <=? zlen (ue_field p) then key_field content alloc p = Some (false, ue_limit p)
  else ∃ outs', gets outs' = true ∧ key_field content alloc p =
    Some (true, UrlEncodedParser (ue_field p ++ [(Some (urldecodel w), None)]) (ue_payload_size p) (ue_payload_offset p) (ue_payload_offset p + 1) 0 (ue_find_amp p) (zlen (ue_field p) + 1) (ue_limit_reached p) outs').
Proof.
  intros Hc Ho Hs Hg Hn. unfold key_field. rewrite Hn. case_if; [done|]. unfold urlencodedparser_add_field. rewrite Ha. cbn [negb]. unfold urlencodedparser_set_field_key. cbn [ue_reads ue_offset ue_size ue_fields].
  rewrite <- app_assoc in Hc. destruct (set_field_ok x w post _ _ _ Hc Hg Ho Hs) as (outs' & -> & Hg'). cbn [mbind option_bind]. cbn [ue_field ue_fields]. rewrite on_last_snoc. cbn [mbind option_bind snd].
  exists outs'. split; [done|]. by rewrite Hn.
Qed.

Lemma fields_of_piece ds w : w ≠ [] → fields_of (ds ++ [w]) = fields_of ds ++ [as_field (pair_of w)].
Proof. intros Hw. rewrite fields_of_app. unfold fields_of at 2. by rewrite nonempty_cons. Qed.

Lemma pieces_snoc ds w : w ≠ [] → zlen (nonempty (ds ++ [w])) = zlen (nonempty ds) + 1.
Proof. intros Hw. by rewrite nonempty_app, nonempty_cons, zlen_app. Qed.

Lemma flush_ok pre post ds w p : content = pre ++ post → at_piece pre ds w p →
  ∃ ok p', urlencodedparser_flush content alloc p = Some (ok, p') ∧
    if ok : bool then zlen (nonempty (ds ++ [w])) <= URLENCODEDPARSER_MAX_PARTS ∧ ∃ outs', gets outs' = true ∧ p' = UrlEncodedParser (fields_of (ds ++ [w])) (zlen content) (zlen pre) (zlen pre + 1) 0 true (zlen (fields_of (ds ++ [w]))) false outs'
    else URLENCODEDPARSER_MAX_PARTS < zlen (nonempty (ds ++ [w])).
Proof.
  intros Hc [(U1 & U2 & U3) U4 [U5 U6] [x Hx] U7]. unfold urlencodedparser_flush. destruct (cut 61 w) as [k [v|]] eqn:Ecut; destruct U7 as (Hf & Hs & Ho & Hl); rewrite Hf.
  - pose proof (cut_some _ _ _ _ Ecut) as Hw. unfold urlencodedparser_set_field_value. rewrite Hx, Hw in Hc. rewrite (app_assoc x), <- (app_assoc (x ++ k)) in Hc. cbn [app] in Hc.
    destruct (set_field_ok (x ++ k ++ [61]) v post (ue_reads p) (ue_offset p) (ue_size p)) as (outs' & -> & Hg'); [by rewrite Hc, <- !app_assoc|done|rewrite Ho, Hx, Hw, !zlen_app, !zlen_cons; change (zlen []) with 0; lia|done|].
    cbn [mbind option_bind]. rewrite Hl, on_last_snoc. cbn [mbind option_bind negb fst]. assert (w ≠ []) as Hne by (rewrite Hw; by destruct k). assert (pair_of w = (urldecodel k, urldecodel v)) as Hp by (unfold pair_of; by rewrite Ecut).
    eexists true, _. split; [done|]. rewrite pieces_snoc by done. split; [rewrite Hl, zlen_app, zlen_fields_of in U6; exact U6|]. exists outs'. split; [done|]. rewrite fields_of_piece by done. rewrite Hp. unfold ue_amp, ue_place, ue_fields. cbn -[zlen fields_of]. rewrite U1, U2, U3, U5, Hl.
    f_equal. by rewrite !zlen_app.
  - apply cut_none in Ecut as Hk. subst k. rewrite Hs. destruct (Z.eqb_spec (zlen w) 0) as [E|Hne].
    + apply zlen_0_nil in E as ->. eexists true, _. split; [done|]. assert (nonempty (ds ++ [[]]) = nonempty ds) as En by (rewrite nonempty_app; cbn; apply app_nil_r). rewrite En. split; [by rewrite <- zlen_fields_of, <- Hl|].
      exists (ue_reads p). split; [done|]. unfold fields_of. rewrite En. fold (fields_of ds). unfold ue_place. rewrite U1, U2, U3, U5, Hl, Hf. done.
    + assert (w ≠ []) as Hnw by (by intros ->). pose proof (key_field_ok x w post p) as Hkf. rewrite <- Hx in Hkf. specialize (Hkf Hc ltac:(rewrite Ho, Hx, zlen_app; lia) Hs U4 U5). rewrite Hl, zlen_fields_of in Hkf. rewrite pieces_snoc by done.
      destruct (Z.leb_spec URLENCODEDPARSER_MAX_PARTS (zlen (nonempty ds))).
      * rewrite Hkf. cbn [mbind option_bind negb]. eexists false, _. split; [done|]. lia.
      * destruct Hkf as (outs' & Hg' & ->). cbn [mbind option_bind negb]. unfold urlencodedparser_set_empty_value, copy_cstringn. rewrite Ha. cbn [ue_field]. rewrite on_last_snoc. cbn [mbind option_bind].
        eexists true, _. split; [done|]. split; [lia|]. exists outs'. split; [done|]. rewrite fields_of_piece by done. unfold pair_of. rewrite Ecut. unfold ue_fields. cbn -[zlen fields_of]. rewrite U1, U2, U3, Hf, zlen_app, zlen_fields_of. done.
Qed.

Lemma key_nonempty (k : list Z) c : k ++ [c] ≠ [].
Proof. by destruct k. Qed.

(** The pieces after one more byte. *)
Definition piece_step (c : Z) (ds : list (list Z)) (w : list Z) : list (list Z) * list Z := if c =? 38 then (ds ++ [w], []) else (ds, w ++ [c]).

Lemma byte_ok c pre rest ds w p : content = pre ++ c :: rest → at_piece pre ds w p → let '(ds', w') := piece_step c ds w in
  ∃ ok p', urlencodedparser_byte content alloc c p = Some (ok, p') ∧ if ok : bool then at_piece (pre ++ [c]) ds' w' (ue_next p') else URLENCODEDPARSER_MAX_PARTS < zlen (nonempty (ds' ++ [w'])).
Proof.
  intros Hc Hp. unfold piece_step, urlencodedparser_byte. destruct (Z.eqb_spec c 38) as [->|H38].
  - change (38 =? 61) with false. cbn match. destruct (flush_ok pre (38 :: rest) ds w p Hc Hp) as (ok & p' & E & Hok). rewrite E. exists ok, p'. split; [done|]. destruct ok.
    + destruct Hok as (Hle & outs' & Hg & ->). constructor; cbn -[zlen fields_of]; rewrite ?zlen_app, ?zlen_fields_of; try done; [by eexists (pre ++ [38]); rewrite app_nil_r|]. split_and!; try done. change (zlen [38]) with 1. change (zlen []) with 0. lia.
    + rewrite nonempty_app. cbn. by rewrite app_nil_r.
  - destruct Hp as [(U1 & U2 & U3) U4 [U5 U6] [x Hx] U7]. assert (∃ x, pre ++ [c] = x ++ w ++ [c]) as Htail by (exists x; by rewrite Hx, <- app_assoc).
    assert (zlen (pre ++ [c]) = zlen pre + 1) as Hlen by (by rewrite zlen_app).
    destruct (Z.eqb_spec c 61) as [->|H61].
    + destruct (cut 61 w) as [k [v|]] eqn:Ecut; destruct U7 as (Hf & Hs & Ho & Hl); rewrite Hf; cbn [negb].
      * eexists true, _. split; [done|]. constructor; cbn -[zlen fields_of cut]; try done; [split_and!; (done || lia)|]. rewrite cut_snoc, Ecut. cbn -[zlen fields_of]. rewrite Hf, Hs, Ho, Hlen, zlen_app. change (zlen [61]) with 1. split_and!; (done || lia).
      * apply cut_none in Ecut as Hk. subst k. pose proof (key_field_ok x w (61 :: rest) (ue_amp p false)) as Hkf. rewrite <- Hx in Hkf. specialize (Hkf Hc ltac:(cbn; rewrite Ho, Hx, zlen_app; lia) Hs U4 U5). cbn [ue_field ue_amp ue_payload_size ue_payload_offset ue_find_amp ue_limit_reached] in Hkf.
        rewrite Hl, zlen_fields_of in *. destruct (Z.leb_spec URLENCODEDPARSER_MAX_PARTS (zlen (nonempty ds))).
        -- rewrite Hkf. eexists false, _. split; [done|]. rewrite pieces_snoc by apply key_nonempty. lia.
        -- destruct Hkf as (outs' & Hg' & ->). eexists true, _. split; [done|]. constructor; cbn -[zlen fields_of cut]; try done; [split_and!; (done || lia)|rewrite !zlen_app, zlen_fields_of; change (zlen [_]) with 1; lia|].
           rewrite cut_snoc, Ecut. cbn -[zlen fields_of]. change (zlen []) with 0. split_and!; (done || lia).
    + eexists true, _. split; [done|]. constructor; cbn -[zlen fields_of cut]; try done; [split_and!; (done || lia)|]. rewrite cut_snoc. rewrite (proj2 (Z.eqb_neq c 61)) by done.
      destruct (cut 61 w) as [k [v|]] eqn:Ecut; destruct U7 as (Hf & Hs & Ho & Hl); rewrite Hf, Hs, Ho, Hlen, zlen_app; change (zlen [c]) with 1; split_and!; (done || lia).
Qed.

Lemma split_steps c ds w l : ds ++ split_on_aux 38 w (c :: l) = let '(ds', w') := piece_step c ds w in ds' ++ split_on_aux 38 w' l.
Proof. unfold piece_step. cbn [split_on_aux]. destruct (c =? 38); [by rewrite <- app_assoc|done]. Qed.

Lemma ue_loop_ok block : ∀ pre rest ds w p, content = pre ++ block ++ rest → at_piece pre ds w p →
  ∃ ok p', urlencodedparser_loop content alloc block p = Some (ok, p') ∧
    if ok : bool then ∃ ds' w', at_piece (pre ++ block) ds' w' p' ∧ ∀ l, ds ++ split_on_aux 38 w (block ++ l) = ds' ++ split_on_aux 38 w' l
    else ∀ l, URLENCODEDPARSER_MAX_PARTS < zlen (nonempty (ds ++ split_on_aux 38 w (block ++ l))).
Proof.
  induction block as [|c block IH]; intros * Hc Hp; [exists true, p; split; [done|]; exists ds, w; by rewrite app_nil_r|]. cbn [urlencodedparser_loop].
  destruct (up_place _ _ _ _ Hp) as (U1 & U2 & _). rewrite U1, U2, (proj2 (Z.ltb_lt _ _)) by (rewrite Hc, !zlen_app; cbn [app]; rewrite zlen_cons; pose proof (zlen_nonneg block); pose proof (zlen_nonneg rest); lia).
  pose proof (byte_ok c pre (block ++ rest) ds w p Hc Hp) as Hbyte. pose proof (λ l, split_steps c ds w l) as Hsplit. destruct (piece_step c ds w) as [ds1 w1]. destruct Hbyte as (ok & p1 & -> & Hok). cbn [mbind option_bind]. destruct ok; cbn [negb].
  - destruct (IH (pre ++ [c]) rest ds1 w1 (ue_next p1)) as (ok & p2 & -> & Hok2); [by rewrite <- app_assoc|done|]. exists ok, p2. split; [done|]. rewrite <- app_assoc in Hok2. destruct ok.
    + destruct Hok2 as (ds' & w' & Hp2 & Hl). exists ds', w'. split; [done|]. intros l. cbn [app]. by rewrite Hsplit, Hl.
    + intros l. cbn [app]. by rewrite Hsplit.
  - exists false, p1. split; [done|]. intros l. cbn [app]. rewrite Hsplit, nonempty_app, zlen_app. rewrite nonempty_app, zlen_app in Hok. pose proof (pieces_grow 38 (block ++ l) [] w1) as Hg. cbn [split_on_aux app] in Hg. lia.
Qed.

Definition answer (pieces : list (list Z)) : option (list (option (list Z) * option (list Z))) := if zlen (nonempty pieces) <=? URLENCODEDPARSER_MAX_PARTS then Some (fields_of pieces) else None.

Lemma answer_many pieces : URLENCODEDPARSER_MAX_PARTS < zlen (nonempty pieces) → answer pieces = None.
Proof. intros Hn. unfold answer. by rewrite (proj2 (Z.leb_gt _ _)). Qed.

Lemma urlencoded_loop_ok : ∀ fuel outs pre todo ds w p, content = pre ++ todo → todo ≠ [] → at_piece pre ds w p → gets outs = true → (length todo < fuel)%nat →
  ∃ r, urlencoded_loop content alloc fuel outs (zlen content) (zlen pre) p = Some r ∧ ue_field <$> r = answer (ds ++ split_on_aux 38 w todo).
Proof.
  induction fuel as [|fuel IH]; intros * Hc Hne Hp Hg Hf; [lia|]. cbn [urlencoded_loop]. pose proof (zlen_nonneg todo) as Ht.
  assert (zlen todo ≠ 0) as Hz by (intros E; by apply zlen_0_nil in E). rewrite (proj2 (Z.ltb_lt _ _)) by (rewrite Hc, zlen_app; lia).
  destruct (pread_once_ok outs content URLENCODED_BLOCK (zlen pre) Hg ltac:(done)) as (block & outs' & -> & Hg' & (more & Hm) & Hnil).
  assert (drop (Z.to_nat (zlen pre)) content = todo) as Hd by (rewrite Hc; unfold zlen; rewrite Nat2Z.id; apply drop_app_length). rewrite Hd in Hnil. unfold slice in Hm. rewrite Hd in Hm.
  assert (∃ rest, todo = block ++ rest) as [rest Er] by (exists (more ++ drop (Z.to_nat URLENCODED_BLOCK) todo); by rewrite app_assoc, <- Hm, take_drop).
  destruct block as [|c block]; [by rewrite Hnil in Hne|]. unfold urlencodedparser_parse. destruct (up_place _ _ _ _ Hp) as (_ & _ & ->).
  destruct (ue_loop_ok (c :: block) pre rest ds w p) as (ok & p1 & -> & Hok); [by rewrite <- Er|done|]. cbn [mbind option_bind]. destruct ok; cbn [negb].
  2: { eexists. split; [done|]. rewrite Er, answer_many by apply Hok. done. }
  destruct Hok as (ds' & w' & Hp1 & Hl). rewrite Er, Hl. destruct (up_place _ _ _ _ Hp1) as (-> & -> & _). destruct rest as [|d rest].
  - rewrite app_nil_r in Er. rewrite <- Er, <- Hc in Hp1. rewrite <- Er, <- Hc, Z.leb_refl. destruct (flush_ok content [] ds' w' p1) as (ok & p2 & -> & Hok); [by rewrite app_nil_r|done|]. cbn [mbind option_bind split_on_aux]. destruct ok; cbn [negb].
    + destruct Hok as (Hle & outs2 & _ & ->). destruct fuel; [rewrite Er in Hf; cbn [length] in Hf; lia|]. cbn [urlencoded_loop]. rewrite <- zlen_app, <- Hc, Z.ltb_irrefl. eexists. split; [done|]. unfold answer. by rewrite (proj2 (Z.leb_le _ _)).
    + eexists. split; [done|]. by rewrite answer_many.
  - assert (zlen (pre ++ c :: block) < zlen content) as Hlt by (rewrite Hc, Er, !zlen_app, (zlen_cons d); pose proof (zlen_nonneg rest); lia). rewrite (proj2 (Z.leb_gt _ _)) by done. cbn [negb]. rewrite <- zlen_app.
    apply IH; [by rewrite Hc, Er, <- app_assoc|done|done|done|]. rewrite Er in Hf. rewrite length_app in Hf. cbn [length] in *. lia.
Qed.
End Run.

(** A urlencoded body is parsed to exactly its pairs, for every body and however it is read: cut at ampersands, empty pieces left out, each piece cut at its first
    equals sign (a piece without one is a key with an empty value), key and value percent-decoded; and a body with more than 256 pairs is refused. No read
    outside the body happens and the loops end. *)
Lemma urlencoded_exact (content : list Z) (alloc : Z → bool) (outs preads : list read_outcome) : (∀ n, alloc n = true) → gets outs = true → gets preads = true →
  httprequest_payload_parse_urlencoded content alloc (zlen content) outs preads =
  Some (if zlen (body_pairs content) <=? URLENCODEDPARSER_MAX_PARTS then Some (map as_field (body_pairs content)) else None).
Proof.
  intros Ha Hg Hp. unfold httprequest_payload_parse_urlencoded. assert (zlen (body_pairs content) = zlen (nonempty (split_on 38 content))) as -> by (unfold body_pairs, zlen; by rewrite length_map).
  change (map as_field (body_pairs content)) with (fields_of (split_on 38 content)). fold (answer (split_on 38 content)).
  destruct (decide (content = [])) as [-> |Hne]; [done|].
  destruct (urlencoded_loop_ok content alloc Ha (S (Z.to_nat (zlen content))) outs [] content [] [] (urlencodedparser_init (zlen content) preads)) as (r & E & Er); [done|done| |done|unfold zlen; lia|].
  - constructor; cbn -[zlen]; try done. by exists [].
  - change (zlen []) with 0 in E. rewrite E. cbn [mbind option_bind]. cbn [app] in Er. unfold split_on. rewrite <- Er. by destruct r.
Qed.
