(* ===== verification/Payload.v ===== *)
(** The payload of a request as the handler of a route sees it ([httprequest.c]): the choice of the body parser, and the accessors.

    The payload file is its bytes; its size on record is [rp_size]. The outcomes of [read] and [pread] are scripts: [outs] for the blocks,
    [preads] for the texts the body parsers read back, [dreads] for the data an accessor reads. *)

From S2P Require Import Prelude Helpers QueryParser WriteFilter HttpResponse DataFilter FormData Multipart MultipartTheorems UrlEncoded.

(** ** The model *)

Inductive http_payload : Set :=
  | NONE
  | PLAIN
  | MULTIPART (part : list http_payloadpart)
  | URLENCODED (field : list (option (list Z) * option (list Z))).

Record request : Set := Request {
  rp_open : bool;
  rp_content : list Z;
  rp_size : Z;
  rp_header : list http_header;
  rp_payload : http_payload }.

Definition with_payload (r : request) (x : http_payload) : request := Request (rp_open r) (rp_content r) (rp_size r) (rp_header r) x.

Section Payload.
Variable alloc : Z → bool.
Variable junk : list Z.

Definition httprequest_payload_parse (outs preads : list read_outcome) (r : request) : option (bool * request) :=
  if negb (rp_open r) then Some (false, r)
  else match rp_payload r with
  | MULTIPART (_ :: _) | URLENCODED (_ :: _) | PLAIN => Some (true, r)
  | _ =>
      match List.find (λ h, cmpstr_lower (key h) (bs "content-type")) (rp_header r) with
      | None => Some (true, with_payload r PLAIN)
      | Some h =>
          if cmpsubstr_lower (cstr (WriteFilter.value h)) (bs "multipart/form-data") then
            text ← mem_read (WriteFilter.value h) 0 (value_length h);
            res ← httprequest_payload_parse_multipart (rp_content r) alloc junk text outs preads;
            Some (match res with Some parts => (true, with_payload r (MULTIPART parts)) | None => (false, r) end)
          else if cmpstr_lower (WriteFilter.value h) (bs "application/x-www-form-urlencoded") then
            res ← httprequest_payload_parse_urlencoded (rp_content r) alloc (rp_size r) outs preads;
            Some (match res with Some fields => (true, with_payload r (URLENCODED fields)) | None => (false, r) end)
          else Some (true, with_payload r PLAIN)
      end
  end.

(** [pread] until [size] bytes are there; [None] inside when it fails or the file ends. *)
Fixpoint data_loop (content : list Z) (fuel : nat) (outs : list read_outcome) (size offset : Z) (got : list Z) : option (option (list Z)) :=
  match fuel with
  | O => None
  | S f =>
      if zlen got <? size then
        match pread_once outs content (size - zlen got) (offset + zlen got) with
        | (None, _) | (Some [], _) => Some None
        | (Some bytes, outs) => data_loop content f outs size offset (got ++ bytes)
        end
      else Some (Some got)
  end.

Definition httprequest_plain_get_data (dreads : list read_outcome) (r : request) : option (option (list Z)) :=
  if negb (alloc (rp_size r + 1)) then Some None else data_loop (rp_content r) (S (Z.to_nat (rp_size r))) dreads (rp_size r) 0 [].

Definition is_name (field : list Z) (f : list Z * list Z) : bool := bool_decide (cstr f.1 = bs "name") && bool_decide (cstr f.2 = cstr field).

Definition httprequest_multipart_part (parts : list http_payloadpart) (field : option (list Z)) : option http_payloadpart :=
  match field with
  | None => head parts
  | Some field => List.find (λ part, existsb (is_name field) (pp_field part)) parts
  end.

Definition httprequest_payload_part_read (dreads : list read_outcome) (r : request) (part : http_payloadpart) : option (option (list Z)) :=
  if negb (alloc (pp_size part + 1)) then Some None else data_loop (rp_content r) (S (Z.to_nat (pp_size part))) dreads (pp_size part) (pp_offset part) [].

Definition httprequest_multipart_get_data (dreads : list read_outcome) (r : request) (parts : list http_payloadpart) (field : option (list Z)) : option (option (list Z)) :=
  match httprequest_multipart_part parts field with None => Some None | Some part => httprequest_payload_part_read dreads r part end.

(** A value that is still NULL has length 0. *)
Definition httprequest_urlencoded_get_data (fields : list (option (list Z) * option (list Z))) (field : option (list Z)) : option (list Z) :=
  match List.find (λ f, match field, f.1 with None, _ => true | Some name, Some k => bool_decide (cstr k = cstr name) | Some _, None => false end) fields with
  | None => None
  | Some f => let v := default [] f.2 in if alloc (zlen v + 1) then Some v else None
  end.

(** The bytes, [None] inside for NULL; and the request, whose payload is parsed now. *)
Definition httprequest_payloadf (outs preads dreads : list read_outcome) (r : request) (field : option (list Z)) : option (option (list Z) * request) :=
  '(ok, r) ← httprequest_payload_parse outs preads r;
  if negb ok then Some (None, r)
  else
    data ← match rp_payload r, field with
    | PLAIN, None => httprequest_plain_get_data dreads r
    | MULTIPART parts, _ => httprequest_multipart_get_data dreads r parts field
    | URLENCODED fields, _ => Some (httprequest_urlencoded_get_data fields field)
    | _, _ => Some None
    end;
    Some (data, r).

Definition httprequest_payload (outs preads dreads : list read_outcome) (r : request) : option (option (list Z) * request) := httprequest_payloadf outs preads dreads r None.

(** A part as a file: its place in the payload file, and what [set_filename] is called with. *)
Record file_content : Set := FileContent {
  fc_ok : bool;
  fc_open : bool;
  fc_offset : Z;
  fc_size : Z;
  fc_filename : option (list Z) }.

Definition httprequest_payload_filef (outs preads : list read_outcome) (r : request) (field : option (list Z)) : option (file_content * request) :=
  '(ok, r) ← httprequest_payload_parse outs preads r;
  let none := FileContent false false 0 0 (Some []) in
  if negb ok then Some (none, r)
  else
    let part := match rp_payload r with MULTIPART parts => httprequest_multipart_part parts field | _ => None end in
    match part with
    | None => Some (none, r)
    | Some part =>
        let filename := snd <$> List.find (λ f, bool_decide (cstr f.1 = bs "filename")) (pp_field part) in
        let ok := negb (match field, filename with Some _, None => true | _, _ => false end) in
        Some (FileContent ok true (pp_offset part) (pp_size part) filename, r)
    end.
End Payload.

(** ** Lemmas *)

Lemma data_loop_ok content w : ∀ fuel pre got post outs, content = pre ++ got ++ w ++ post → (length w < fuel)%nat → gets outs = true →
  data_loop content fuel outs (zlen got + zlen w) (zlen pre) got = Some (Some (got ++ w)).
Proof.
  induction w as [w IH] using (induction_ltof1 _ (@length Z)). unfold ltof in IH. intros [|fuel] pre got post outs Hc Hf Hw; [lia|]. cbn [data_loop].
  destruct w as [|c w]; [change (zlen []) with 0; by rewrite Z.add_0_r, Z.ltb_irrefl, app_nil_r|].
  rewrite (proj2 (Z.ltb_lt _ _)) by (rewrite zlen_cons; pose proof (zlen_nonneg w); lia).
  replace (zlen got + zlen (c :: w) - zlen got) with (zlen (c :: w)) by lia.
  destruct (pread_once_ok outs content (zlen (c :: w)) (zlen pre + zlen got) Hw) as (bytes & outs1 & -> & Hw1 & Hm & Hnil); [rewrite zlen_cons; pose proof (zlen_nonneg w); lia|].
  destruct (read_progress content pre got (c :: w) post bytes Hc ltac:(done) Hm Hnil) as (c' & bytes' & more & -> & Ew & Hc'). rewrite Ew.
  pose proof (IH more ltac:(rewrite Ew, length_app; cbn [length]; lia) fuel pre (got ++ c' :: bytes') post outs1 Hc' ltac:(rewrite Ew, length_app in Hf; cbn [length] in Hf; lia) Hw1) as E.
  rewrite zlen_app, <- Z.add_assoc, <- zlen_app in E. rewrite E. by rewrite <- app_assoc.
Qed.

(** ** Uploads *)

Definition sent_field (x : param) : list Z * list Z := (fd_key (param_field x), fd_value (param_field x)).

(** The part an application asks for: the first one, or the first one of that name. *)
Definition asked (l : list sent_part) (field : option (list Z)) : option sent_part :=
  match field with None => head l | Some name => List.find (λ s, existsb (λ x, is_name name (sent_field x)) (sp_params s)) l end.

Lemma existsb_map' {A B} (f : A → B) (g : B → bool) l : existsb g (map f l) = existsb (λ x, g (f x)) l.
Proof. induction l as [|x l IH]; [done|]. cbn. by rewrite IH. Qed.

Lemma part_asked content parts l field : Forall2 (received content) parts l →
  match httprequest_multipart_part parts field, asked l field with Some x, Some s => received content x s | None, None => True | _, _ => False end.
Proof.
  intros Hr. destruct field as [name|]; cbn [httprequest_multipart_part asked]; [|by destruct Hr]. induction Hr as [|x s parts l Hx _ IH]; [done|]. cbn [List.find].
  assert (existsb (is_name name) (pp_field x) = existsb (λ x, is_name name (sent_field x)) (sp_params s)) as -> by (destruct Hx as (_ & _ & _ & ->); by rewrite existsb_map'). by destruct (existsb _ _).
Qed.

Lemma part_read alloc dreads r part w : (∀ n, alloc n = true) → gets dreads = true → pp_size part = zlen w → held (rp_content r) (pp_offset part) w → httprequest_payload_part_read alloc dreads r part = Some (Some w).
Proof.
  intros Ha Hg Hs (Ho & Hle & Hw). unfold httprequest_payload_part_read. rewrite Ha, Hs. cbn [negb]. unfold slice in Hw. set (content := rp_content r) in *. set (pre := take (Z.to_nat (pp_offset part)) content).
  assert (zlen pre = pp_offset part) as Hpre by (unfold pre; rewrite zlen_take; pose proof (zlen_nonneg w); lia).
  pose proof (data_loop_ok content w (S (Z.to_nat (zlen w))) pre [] (drop (Z.to_nat (zlen w)) (drop (Z.to_nat (pp_offset part)) content)) dreads) as E. rewrite Hpre in E. apply E; [|unfold zlen; lia|done].
  cbn [app]. rewrite <- Hw at 1. unfold pre. by rewrite !take_drop.
Qed.



(** ** Forms *)

(** The value of the first pair, or of the first one with that key. *)
Definition form_value (pairs : list (list Z * list Z)) (field : option (list Z)) : option (list Z) :=
  snd <$> match field with None => head pairs | Some name => List.find (λ x, bool_decide (cstr x.1 = cstr name)) pairs end.

Lemma form_get alloc pairs field : (∀ n, alloc n = true) → httprequest_urlencoded_get_data alloc (map as_field pairs) field = form_value pairs field.
Proof.
  intros Ha. unfold httprequest_urlencoded_get_data, form_value. induction pairs as [|x pairs IH]; [by destruct field|]. cbn [map List.find]. cbn [as_field fst snd].
  destruct field as [name|]; [|cbn; by rewrite Ha]. destruct (bool_decide _); [cbn; by rewrite Ha|exact IH].
Qed.

(** C7: A urlencoded form reaches the application: the body is parsed to exactly its pairs (cut at ampersands, empty pieces left out, each cut at its first equals sign, a piece
    without one being a key with an empty value, key and value percent-decoded), asking for a field gives the value of the first pair with that key, for every
    body and however it is read; and a form of more than 256 pairs is refused as a whole. *)
Theorem form_field_delivered (alloc : Z → bool) (junk : list Z) (k : list Z) (n m : Z) (outs preads dreads : list read_outcome) (r : request) (field : option (list Z)) :
  (∀ n, alloc n = true) → rp_open r = true → rp_payload r = NONE → rp_size r = zlen (rp_content r) →
  List.find (λ h, cmpstr_lower (key h) (bs "content-type")) (rp_header r) = Some (HttpHeader k (bs "application/x-www-form-urlencoded") n m) → gets outs = true → gets preads = true →
  let pairs := body_pairs (rp_content r) in
  httprequest_payloadf alloc junk outs preads dreads r field =
    if zlen pairs <=? URLENCODEDPARSER_MAX_PARTS then Some (form_value pairs field, with_payload r (URLENCODED (map as_field pairs))) else Some (None, r).
Proof.
  intros Ha Hopen Hnone Hsize Hfind Hg Hp. unfold httprequest_payloadf, httprequest_payload_parse. rewrite Hopen, Hnone, Hfind. cbn [negb WriteFilter.value].
  change (cmpsubstr_lower (cstr (bs "application/x-www-form-urlencoded")) (bs "multipart/form-data")) with false. change (cmpstr_lower (bs "application/x-www-form-urlencoded") (bs "application/x-www-form-urlencoded")) with true. cbn match.
  rewrite Hsize, (urlencoded_exact (rp_content r) alloc outs preads Ha Hg Hp). cbn [mbind option_bind]. destruct (_ <=? _); cbn [mbind option_bind negb rp_payload with_payload]; [|done]. by rewrite (form_get alloc).
Qed.

Lemma form_field_delivered_witness :
  let r := Request true (bs "a=1%202&&b&a=3") 14 [HttpHeader (bs "CONTENT-TYPE") (bs "application/x-www-form-urlencoded") 12 33] NONE in
  httprequest_payloadf (λ _, true) [] [Got 2; Got 5] [Got 1] [] r (Some (bs "a")) =
    if zlen (body_pairs (bs "a=1%202&&b&a=3")) <=? URLENCODEDPARSER_MAX_PARTS then Some (form_value (body_pairs (bs "a=1%202&&b&a=3")) (Some (bs "a")), with_payload r (URLENCODED (map as_field (body_pairs (bs "a=1%202&&b&a=3"))))) else Some (None, r).
Proof.
  apply (form_field_delivered (λ _, true) [] (bs "CONTENT-TYPE") 12 33 [Got 2; Got 5] [Got 1] [] (Request true (bs "a=1%202&&b&a=3") 14 [HttpHeader (bs "CONTENT-TYPE") (bs "application/x-www-form-urlencoded") 12 33] NONE)); done.
Defined.

Example form_value_sample : form_value (body_pairs (bs "a=1%202&&b&a=3")) (Some (bs "a")) = Some (bs "1 2").
Proof. reflexivity. Qed.

(** With a charset in the header the form is not recognised: the body is plain and has no fields. *)
Lemma form_with_charset_is_plain alloc junk k n m outs preads dreads r name : rp_open r = true → rp_payload r = NONE →
  List.find (λ h, cmpstr_lower (key h) (bs "content-type")) (rp_header r) = Some (HttpHeader k (bs "application/x-www-form-urlencoded; charset=UTF-8") n m) →
  httprequest_payloadf alloc junk outs preads dreads r (Some name) = Some (None, with_payload r PLAIN).
Proof. intros Hopen Hnone Hfind. unfold httprequest_payloadf, httprequest_payload_parse. by rewrite Hopen, Hnone, Hfind. Qed.
