(* ===== verification/SqlBase.v ===== *)
(** SQL statements: the fields they are built from, the interface of a database driver's grammar, and the tokens the database reads.

    A field's value is of any type [V]; its text form ([__type_ops[type].to_str] of [model.c]) is a parameter [to_str], so what is proved holds for every
    value and every way of printing it. *)

From S2P Require Import Prelude Helpers QueryParser.

(** ** Fields of a model *)

Inductive mtype : Set :=
  | MODEL_BOOL | MODEL_SMALLINT | MODEL_INT | MODEL_BIGINT | MODEL_FLOAT | MODEL_DOUBLE | MODEL_DECIMAL | MODEL_MONEY
  | MODEL_DATE | MODEL_TIME | MODEL_TIMETZ | MODEL_TIMESTAMP | MODEL_TIMESTAMPTZ | MODEL_JSON
  | MODEL_BINARY | MODEL_VARCHAR | MODEL_CHAR | MODEL_TEXT | MODEL_ENUM | MODEL_ARRAY.

#[export] Instance mtype_eq : EqDecision mtype.
Proof. solve_decision. Defined.

(** An element of an array; [OtherItem] stands for the types a list cannot hold, [None] for a NULL string. *)
Inductive array_item (V : Type) : Type := IntItem (v : V) | DoubleItem (v : V) | LongDoubleItem (v : V) | StringItem (s : option V) | OtherItem.
#[global] Arguments IntItem {V} v.
#[global] Arguments DoubleItem {V} v.
#[global] Arguments LongDoubleItem {V} v.
#[global] Arguments StringItem {V} s.
#[global] Arguments OtherItem {V}.

Inductive mvalue (V : Type) : Type := Scalar (v : V) | Items (l : list (array_item V)).
#[global] Arguments Scalar {V} v.
#[global] Arguments Items {V} l.

Record mfield (V : Type) : Type := MField {
  mf_name : list Z;
  mf_type : mtype;
  mf_value : mvalue V;
  mf_is_null : bool;
  mf_use_raw_sql : bool }.
#[global] Arguments MField {V} _ _ _ _ _.
#[global] Arguments mf_name {V} _.
#[global] Arguments mf_type {V} _.
#[global] Arguments mf_value {V} _.
#[global] Arguments mf_is_null {V} _.
#[global] Arguments mf_use_raw_sql {V} _.

(** The text of a field, and [use_raw_sql] afterwards. The flag is set on a field that is NULL, and stays set for as long as it is. *)
Definition model_field_to_string {V} (to_str : mtype → mvalue V → option (list Z)) (f : mfield V) : option (list Z * bool) :=
  if mf_is_null f then Some (bs "NULL", true)
  else text ← to_str (mf_type f) (mf_value f); Some (text, mf_use_raw_sql f).

(** ** What a database reads *)

Inductive token : Set := Word (w : list Z) | Ident (w : list Z) | Str (w : list Z) | Sym (c : Z).

(** How a database quotes: the quote of identifiers, whether a backslash in a string literal escapes, and whether there are literals [E'...'] where it does. *)
Class Lexis := { ident_quote : Z; backslash_escapes : bool; e_strings : bool }.

Definition word_char (c : Z) : bool := isalnum c || (c =? 95) || (128 <=? c).
Definition space_char (c : Z) : bool := (c =? 32) || ((9 <=? c) && (c <=? 13)).

(** The byte an escape sequence of a string literal stands for. *)
Definition unescape (c : Z) : Z := if c =? 110 then 10 else if c =? 114 then 13 else if c =? 48 then 0 else if c =? 90 then 26 else c.

Inductive lstate : Set := LStart | LWord (a : list Z) | LIdent (a : list Z) | LIdentQ (a : list Z) | LStr (esc : bool) (a : list Z) | LStrQ (esc : bool) (a : list Z) | LStrE (a : list Z).

Section Lex.
Context `{Lexis}.

(** Where a token ends that [st] was reading, and what [c] begins; [None] when it cannot end here. *)
Definition begins (c : Z) : list token * lstate :=
  if space_char c then ([], LStart)
  else if word_char c then ([], LWord [c])
  else if c =? ident_quote then ([], LIdent [])
  else if c =? 39 then ([], LStr backslash_escapes [])
  else ([Sym c], LStart).

Definition lex_step (st : lstate) (c : Z) : list token * lstate :=
  match st with
  | LStart => begins c
  | LWord a => if word_char c then ([], LWord (a ++ [c])) else if e_strings && (c =? 39) && bool_decide (a = [69]) then ([], LStr true []) else let '(t, st) := begins c in (Word a :: t, st)
  | LIdent a => if c =? ident_quote then ([], LIdentQ a) else ([], LIdent (a ++ [c]))
  | LIdentQ a => if c =? ident_quote then ([], LIdent (a ++ [c])) else let '(t, st) := begins c in (Ident a :: t, st)
  | LStr esc a => if c =? 39 then ([], LStrQ esc a) else if esc && (c =? 92) then ([], LStrE a) else ([], LStr esc (a ++ [c]))
  | LStrQ esc a => if c =? 39 then ([], LStr esc (a ++ [c])) else let '(t, st) := begins c in (Str a :: t, st)
  | LStrE a => ([], LStr true (a ++ [unescape c]))
  end.

(** The tokens of a text; [None] when it ends inside a quotation. Comments need no rule: a text that has one also has a [-], [/] or [#] symbol. *)
Fixpoint lex (st : lstate) (l : list Z) : option (list token) :=
  match l with
  | [] => match st with LStart => Some [] | LWord a => Some [Word a] | LIdentQ a => Some [Ident a] | LStrQ _ a => Some [Str a] | _ => None end
  | c :: l' => let '(t, st) := lex_step st c in app t <$> lex st l'
  end.

(** What may follow a quotation without changing it. *)
Definition clean (rest : list Z) : Prop := match rest with [] => True | c :: _ => c ≠ ident_quote ∧ c ≠ 39 ∧ word_char c = false end.

(** [s] is read as the tokens [toks], whatever follows. *)
Definition emits (s : list Z) (toks : list token) : Prop := ∀ rest, clean rest → lex LStart (s ++ rest) = app toks <$> lex LStart rest.
End Lex.

(** ** The grammar of a driver *)

Class Dialect `{Lexis} := {
  escape_identifier : list Z → option (list Z);
  escape_string : list Z → option (list Z);
  table_ref : list Z → option (list Z);
  always : list Z;
  is_raw_sql : list Z → bool }.

(** What the statements rely on: a name or a value is one closed quotation that is read back as it was. *)
Class DialectLaws `{D : Dialect} := {
  ident_tokens : list Z → list token;
  table_tokens : list Z → list token;
  identifier_law : ∀ n out, cstring n → escape_identifier n = Some out → cstring out ∧ emits out (ident_tokens n);
  table_law : ∀ n out, cstring n → table_ref n = Some out → cstring out ∧ emits out (table_tokens n);
  string_law : ∀ s out, cstring s → escape_string s = Some out → cstring out ∧ emits out [Str s];
  always_law : cstring always ∧ emits always [Word always];
  quote_law : ident_quote = 34 ∨ ident_quote = 96 }.
