(* ===== verification/SqlGrammar.v ===== *)
(** The statements the drivers build for [dbinsert], [dbselect], [dbupdate] and [dbdelete]: the functions [compile_*] of [mysql.c], [postgresql.c] and [sqlite.c], which
    are the same text over each driver's quoting. Memory is always there; an array is the list of its elements, NULL ones included, and a NULL array is empty.
    The second part reads these statements back. *)

From S2P Require Import Prelude Helpers QueryParser SqlBase.

(** ** The model *)

Section Compile.
Context `{Dialect} {V : Type}.
Variable to_str : mtype → mvalue V → option (list Z).

(** The text of a field's value: as it is when it is raw SQL, else quoted. *)
Definition field_value (f : mfield V) : option (list Z) :=
  '(text, raw) ← model_field_to_string to_str f;
  if raw : bool then Some text else escape_string (cstr text).

(** The names and the values of the fields, after a comma each but for the first. *)
Fixpoint insert_fields (first : bool) (l : list (option (mfield V))) : option (list Z * list Z) :=
  match l with
  | [] => Some ([], [])
  | None :: _ => None
  | Some f :: l' =>
      let sep := if first then [] else [44] in
      name ← escape_identifier (mf_name f);
      v ← field_value f;
      '(names, values) ← insert_fields false l';
      Some (sep ++ name ++ names, sep ++ v ++ values)
  end.

Definition compile_insert (table : option (list Z)) (params : list (option (mfield V))) : option (list Z) :=
  match table with
  | None => None
  | Some table =>
      if zlen params =? 0 then None
      else
        t ← table_ref table;
        '(fields, values) ← insert_fields true params;
        Some (bs "INSERT INTO " ++ cstr t ++ bs " (" ++ cstr fields ++ bs ") VALUES (" ++ cstr values ++ bs ")")
  end.

(** [name=value] for every field, separated by [sep]. *)
Fixpoint assignments (sep : list Z) (first : bool) (l : list (option (mfield V))) : option (list Z) :=
  match l with
  | [] => Some []
  | None :: _ => None
  | Some f :: l' =>
      name ← escape_identifier (mf_name f);
      v ← field_value f;
      rest ← assignments sep false l';
      Some ((if first then [] else sep) ++ name ++ [61] ++ v ++ rest)
  end.

Definition where_text (where_ : list (option (mfield V))) : option (list Z) :=
  if zlen where_ =? 0 then Some always else assignments (bs " AND ") true where_.

Fixpoint select_columns (first : bool) (l : list (option (list Z))) : option (list Z) :=
  match l with
  | [] => Some []
  | None :: _ => None
  | Some name :: l' =>
      col ← (if is_raw_sql name then Some name else escape_identifier name);
      rest ← select_columns false l';
      Some ((if first then [] else [44]) ++ col ++ rest)
  end.

(** With no condition the text ends with the bare [WHERE]. *)
Definition compile_select (table : option (list Z)) (columns : list (option (list Z))) (where_ : list (option (mfield V))) : option (list Z) :=
  match table with
  | None => None
  | Some table =>
      t ← table_ref table;
      cols ← select_columns true columns;
      w ← assignments (bs " AND ") true where_;
      Some (bs "SELECT " ++ cstr cols ++ bs " FROM " ++ cstr t ++ bs " WHERE " ++ cstr w)
  end.

Definition compile_update (table : option (list Z)) (set : option (list (option (mfield V)))) (where_ : list (option (mfield V))) : option (list Z) :=
  match table, set with
  | Some table, Some set =>
      t ← table_ref table;
      s ← assignments [44] true set;
      w ← where_text where_;
      Some (bs "UPDATE " ++ cstr t ++ bs " SET " ++ cstr s ++ bs " WHERE " ++ cstr w)
  | _, _ => None
  end.

Definition compile_delete (table : option (list Z)) (where_ : list (option (mfield V))) : option (list Z) :=
  match table with
  | None => None
  | Some table =>
      t ← table_ref table;
      w ← where_text where_;
      Some (bs "DELETE FROM " ++ cstr t ++ bs " WHERE " ++ cstr w)
  end.
End Compile.

(** ** What the statements mean *)

Section Tokens.
Context `{DialectLaws} {V : Type}.
Variable to_str : mtype → mvalue V → option (list Z).

(** A value as the database reads it. *)
Definition value_token (f : mfield V) : token := if mf_is_null f then Word (bs "NULL") else Str (cstr (default [] (to_str (mf_type f) (mf_value f)))).

Fixpoint separated (sep : list token) (l : list (list token)) : list token :=
  match l with
  | [] => []
  | [t] => t
  | t :: l' => t ++ sep ++ separated sep l'
  end.

Definition name_tokens (f : mfield V) : list token := ident_tokens (mf_name f).
Definition assignment_tokens (f : mfield V) : list token := name_tokens f ++ [Sym 61; value_token f].

Definition insert_tokens (table : list Z) (params : list (mfield V)) : list token :=
  [Word (bs "INSERT"); Word (bs "INTO")] ++ table_tokens table ++ [Sym 40] ++ separated [Sym 44] (map name_tokens params) ++ [Sym 41; Word (bs "VALUES"); Sym 40] ++ separated [Sym 44] (map (λ f, [value_token f]) params) ++ [Sym 41].

Definition where_tokens (where_ : list (mfield V)) : list token :=
  if zlen where_ =? 0 then [Word always] else separated [Word (bs "AND")] (map assignment_tokens where_).

Definition update_tokens (table : list Z) (set where_ : list (mfield V)) : list token :=
  [Word (bs "UPDATE")] ++ table_tokens table ++ [Word (bs "SET")] ++ separated [Sym 44] (map assignment_tokens set) ++ [Word (bs "WHERE")] ++ where_tokens where_.

Definition delete_tokens (table : list Z) (where_ : list (mfield V)) : list token :=
  [Word (bs "DELETE"); Word (bs "FROM")] ++ table_tokens table ++ [Word (bs "WHERE")] ++ where_tokens where_.

(** No raw columns. *)
Definition select_tokens (table : list Z) (columns : list (list Z)) (where_ : list (mfield V)) : list token :=
  [Word (bs "SELECT")] ++ separated [Sym 44] (map ident_tokens columns) ++ [Word (bs "FROM")] ++ table_tokens table ++ [Word (bs "WHERE")] ++ separated [Word (bs "AND")] (map assignment_tokens where_).

(** A field an application fills from a request: a name without NUL, a value that is not marked as raw SQL. *)
Definition plain_field (f : mfield V) : Prop := cstring (mf_name f) ∧ mf_use_raw_sql f = false ∧ ∀ s, to_str (mf_type f) (mf_value f) = Some s → Forall is_byte s.
End Tokens.

(** Statements built from names and values are read by the database as exactly those names and values. *)

(** ** Lemmas on tokens *)

Section Lex.
Context `{Lexis}.
Hypothesis Hq : ident_quote = 34 ∨ ident_quote = 96.

(** [s] is read as [toks] whatever follows, also in front of a quotation. *)
Definition fixed (s : list Z) (toks : list token) : Prop := ∀ rest, lex LStart (s ++ rest) = app toks <$> lex LStart rest.

Lemma app_fmap (a b : list token) (o : option (list token)) : app a <$> (app b <$> o) = app (a ++ b) <$> o.
Proof. destruct o; cbn; [|done]. by rewrite app_assoc. Qed.

Lemma fixed_app s1 t1 s2 t2 : fixed s1 t1 → fixed s2 t2 → fixed (s1 ++ s2) (t1 ++ t2).
Proof. intros H1 H2 rest. by rewrite <- app_assoc, H1, H2, app_fmap. Qed.

Lemma word_not_space c : word_char c = true → space_char c = false.
Proof. unfold word_char, space_char, isalnum, isdigit, isupper, islower. intros Hw. reflect_bools. destruct (Z.eqb_spec c 32); [lia|]. destruct (Z.leb_spec 9 c), (Z.leb_spec c 13); cbn; lia. Qed.

Lemma lex_word w : ∀ a rest, forallb word_char w = true → clean rest → lex (LWord a) (w ++ rest) = app [Word (a ++ w)] <$> lex LStart rest.
Proof.
  induction w as [|c w IH]; intros a rest Hw Hc.
  - rewrite app_nil_r. cbn [app]. destruct rest as [|c rest]; [done|]. destruct Hc as (_ & H39 & Hc). cbn [lex lex_step]. rewrite Hc, (proj2 (Z.eqb_neq c 39) H39), andb_false_r. cbn [andb]. destruct (begins c) as [t st]. by destruct (lex st rest).
  - cbn [forallb] in Hw. apply andb_true_iff in Hw as [Hc' Hw]. cbn [app lex lex_step]. rewrite Hc'. rewrite (IH (a ++ [c]) rest Hw Hc). rewrite <- app_assoc. by destruct (lex LStart rest).
Qed.

Lemma word_emits w : w ≠ [] → forallb word_char w = true → emits w [Word w].
Proof.
  intros Hne Hw rest Hc. destruct w as [|c w]; [done|]. cbn [forallb] in Hw. apply andb_true_iff in Hw as [Hc' Hw]. cbn [app lex lex_step]. unfold begins. rewrite (word_not_space c Hc'), Hc'.
  rewrite (lex_word w [c] rest Hw Hc). by destruct (lex LStart rest).
Qed.

Lemma clean_space rest : clean (32 :: rest).
Proof. split; [by destruct Hq as [-> | ->]|done]. Qed.
Lemma clean_sym c rest : c = 40 ∨ c = 41 ∨ c = 44 ∨ c = 46 ∨ c = 61 → clean (c :: rest).
Proof. intros Hc. split; [by destruct Hq as [-> | ->]; destruct Hc as [-> |[-> |[-> |[-> | ->]]]]|]. by destruct Hc as [-> |[-> |[-> |[-> | ->]]]]. Qed.

(** Keywords and punctuation between the parts of a statement. *)
Lemma fixed_sym c : c = 40 ∨ c = 41 ∨ c = 44 ∨ c = 46 ∨ c = 61 → fixed [c] [Sym c].
Proof. intros Hc rest. cbn [app lex lex_step]. unfold begins. destruct Hq as [-> | ->]; by destruct Hc as [-> |[-> |[-> |[-> | ->]]]]. Qed.
Lemma fixed_space : fixed [32] [].
Proof. intros rest. change (lex LStart ([32] ++ rest)) with (app [] <$> lex LStart rest). done. Qed.
Lemma fixed_word w : w ≠ [] → forallb word_char w = true → fixed (w ++ [32]) [Word w].
Proof. intros Hne Hw rest. rewrite <- app_assoc, (word_emits w Hne Hw) by apply clean_space. rewrite (fixed_space rest). by destruct (lex LStart rest). Qed.
End Lex.

Lemma separated_cons sep (t : list token) l : separated sep (t :: l) = t ++ flat_map (app sep) l.
Proof. revert t. induction l as [|t' l IH]; intros t; [cbn; by rewrite app_nil_r|]. change (separated sep (t :: t' :: l)) with (t ++ sep ++ separated sep (t' :: l)). rewrite IH. cbn [flat_map]. by rewrite <- app_assoc. Qed.

Lemma cstr_bytes s : Forall is_byte s → cstring (cstr s).
Proof. induction 1 as [|c s Hc _ IH]; [constructor|]. cbn [cstr]. destruct (Z.eqb_spec c 0); [constructor|]. constructor; [unfold is_byte in Hc; lia|exact IH]. Qed.

(** ** Statements *)

Section Statements.
Context `{DialectLaws} {V : Type}.
Variable to_str : mtype → mvalue V → option (list Z).
Notation plain := (plain_field to_str).

Lemma value_emits f v : plain f → field_value to_str f = Some v → cstring v ∧ emits v [value_token to_str f].
Proof.
  intros (_ & Hraw & Hb) E. unfold field_value, model_field_to_string, value_token in *. destruct (mf_is_null f).
  - injection E as <-. split; [repeat constructor|]. by apply word_emits.
  - destruct (to_str (mf_type f) (mf_value f)) as [s|]; [|done]. cbn [mbind option_bind default from_option id] in *. rewrite Hraw in E. apply string_law in E; [done|]. by apply cstr_bytes, Hb.
Qed.

(** A list behind its first element. *)
Definition tail_emits (s : list Z) (toks : list token) : Prop := cstring s ∧ ∀ rest, clean rest → clean (s ++ rest) ∧ lex LStart (s ++ rest) = app toks <$> lex LStart rest.

Lemma tail_nil : tail_emits [] [].
Proof. split; [constructor|]. intros rest Hc. split; [done|]. cbn. by destruct (lex LStart rest). Qed.

(** A separator of a list. *)
Definition separator (sep : list Z) (st : list token) : Prop := cstring sep ∧ fixed sep st ∧ ∀ rest, clean (sep ++ rest).

Lemma comma_separates : separator [44] [Sym 44].
Proof. split; [repeat constructor|]. split; [apply fixed_sym; [apply quote_law|auto]|]. intros rest. apply clean_sym; [apply quote_law|auto]. Qed.

Lemma tail_next sep st s t rest toks : separator sep st → emits s t → cstring s → tail_emits rest toks → tail_emits (sep ++ s ++ rest) ((st ++ t) ++ toks).
Proof.
  intros (Hs1 & Hs2 & Hs3) He Hs [Hr Ht]. split; [apply Forall_app; split; [done|by apply Forall_app]|]. intros r Hc. destruct (Ht r Hc) as [Hc' E].
  rewrite <- !app_assoc. split; [apply Hs3|]. rewrite Hs2, He by done. rewrite E. destruct (lex LStart r); cbn; [by rewrite <- !app_assoc|done].
Qed.

Lemma insert_tail l : ∀ N W, Forall plain l → insert_fields to_str false (map Some l) = Some (N, W) →
  tail_emits N (flat_map (app [Sym 44]) (map name_tokens l)) ∧ tail_emits W (flat_map (app [Sym 44]) (map (λ f, [value_token to_str f]) l)).
Proof.
  induction l as [|f l IH]; intros N W Hp E; [injection E as <- <-; split; apply tail_nil|]. apply Forall_cons in Hp as [Hf Hp]. cbn [map insert_fields] in E.
  destruct (escape_identifier (mf_name f)) as [name|] eqn:En; [|done]. destruct (field_value to_str f) as [v|] eqn:Ev; [|done]. destruct (insert_fields to_str false (map Some l)) as [[N' W']|]; [|done]. injection E as <- <-.
  destruct (IH N' W' Hp eq_refl) as [HN HW]. apply identifier_law in En as [Hn1 Hn2]; [|apply Hf]. apply (value_emits f v Hf) in Ev as [Hv1 Hv2]. split; cbn [map flat_map]; [apply (tail_next [44] [Sym 44] name (name_tokens f) N')|apply (tail_next [44] [Sym 44] v [value_token to_str f] W')]; (done || apply comma_separates).
Qed.

(** The first element and the rest. *)
Lemma join_emits s t rest toks : emits s t → cstring s → tail_emits rest toks → cstring (s ++ rest) ∧ emits (s ++ rest) (t ++ toks).
Proof.
  intros He Hs [Hr Ht]. split; [by apply Forall_app|]. intros r Hc. destruct (Ht r Hc) as [Hc' E]. by rewrite <- app_assoc, He, E, app_fmap.
Qed.

Lemma insert_emits f l N W : Forall plain (f :: l) → insert_fields to_str true (map Some (f :: l)) = Some (N, W) →
  (cstring N ∧ emits N (separated [Sym 44] (map name_tokens (f :: l)))) ∧ (cstring W ∧ emits W (separated [Sym 44] (map (λ f, [value_token to_str f]) (f :: l)))).
Proof.
  intros Hp E. apply Forall_cons in Hp as [Hf Hp]. cbn [map insert_fields] in E.
  destruct (escape_identifier (mf_name f)) as [name|] eqn:En; [|done]. destruct (field_value to_str f) as [v|] eqn:Ev; [|done]. destruct (insert_fields to_str false (map Some l)) as [[N' W']|] eqn:El; [|done]. injection E as <- <-.
  destruct (insert_tail l N' W' Hp El) as [HN HW]. apply identifier_law in En as [Hn1 Hn2]; [|apply Hf]. apply (value_emits f v Hf) in Ev as [Hv1 Hv2]. split; cbn [map]; rewrite separated_cons; by apply join_emits.
Qed.

(** The text between the parts of a statement: a space, words, and perhaps a parenthesis. *)
Lemma words_fixed ws : Forall (λ w, w ≠ [] ∧ forallb word_char w = true) ws → fixed (flat_map (λ w, w ++ [32]) ws) (map Word ws).
Proof. induction 1 as [|w ws [Hne Hw] _ IH]; [intros rest; cbn; by destruct (lex LStart rest)|]. cbn [flat_map map]. change (Word w :: map Word ws) with ([Word w] ++ map Word ws). apply fixed_app; [by apply fixed_word; [apply quote_law|..]|done]. Qed.

Lemma lead_fixed ws : Forall (λ w, w ≠ [] ∧ forallb word_char w = true) ws → fixed ([32] ++ flat_map (λ w, w ++ [32]) ws) (map Word ws).
Proof. intros Hw. change (map Word ws) with ([] ++ map Word ws). apply fixed_app; [apply fixed_space|by apply words_fixed]. Qed.

Lemma emits_end s toks : emits s toks → lex LStart s = Some toks.
Proof. intros He. specialize (He [] I). rewrite app_nil_r in He. rewrite He. cbn. by rewrite app_nil_r. Qed.

Lemma insert_confined table params sql : cstring table → Forall plain params → compile_insert to_str (Some table) (map Some params) = Some sql → lex LStart sql = Some (insert_tokens to_str table params).
Proof.
  intros Ht Hp E. unfold compile_insert in E. destruct params as [|f l]; [done|]. cbn [map] in E. rewrite (proj2 (Z.eqb_neq _ _)) in E by (rewrite zlen_cons; pose proof (zlen_nonneg (map Some l)); lia). 
  destruct (table_ref table) as [t|] eqn:Et; [|done]. cbn [mbind option_bind] in E. change (Some f :: map Some l) with (map Some (f :: l)) in E. destruct (insert_fields to_str true (map Some (f :: l))) as [[N W]|] eqn:Ei; [|done]. apply (inj Some) in E as <-.
  apply table_law in Et as [Ht1 Ht2]; [|done]. destruct (insert_emits f l N W Hp Ei) as [[HN1 HN2] [HW1 HW2]]. rewrite !cstr_cstring by done.
  assert (fixed (bs "INSERT INTO ") [Word (bs "INSERT"); Word (bs "INTO")]) as K1 by (apply (words_fixed [bs "INSERT"; bs "INTO"]); repeat constructor; done).
  assert (fixed (bs " (") [Sym 40]) as K2 by (apply (fixed_app [32] [] [40] [Sym 40]); [apply fixed_space|apply fixed_sym; [apply quote_law|auto]]).
  assert (fixed (bs ") VALUES (") [Sym 41; Word (bs "VALUES"); Sym 40]) as K3.
  { apply (fixed_app [41] [Sym 41] (bs " VALUES (") [Word (bs "VALUES"); Sym 40]); [apply fixed_sym; [apply quote_law|auto]|]. apply (fixed_app (bs " VALUES ") [Word (bs "VALUES")] [40] [Sym 40]); [apply (lead_fixed [bs "VALUES"]); repeat constructor; done|apply fixed_sym; [apply quote_law|auto]]. }
  assert (emits (bs ")") [Sym 41]) as K4 by (intros rest _; apply fixed_sym; [apply quote_law|auto]).
  rewrite K1. rewrite Ht2 by (apply clean_space, quote_law). rewrite K2, HN2 by (apply clean_sym; [apply quote_law|auto]). rewrite K3, HW2 by (apply clean_sym; [apply quote_law|auto]). rewrite (emits_end _ _ K4). done.
Qed.

Lemma and_separates : separator (bs " AND ") [Word (bs "AND")].
Proof. split; [repeat constructor|]. split; [apply (lead_fixed [bs "AND"]); repeat constructor; done|]. intros rest. apply clean_space, quote_law. Qed.

(** [name=value] *)
Lemma assignment_emits f name v : plain f → escape_identifier (mf_name f) = Some name → field_value to_str f = Some v → cstring (name ++ [61] ++ v) ∧ emits (name ++ [61] ++ v) (assignment_tokens to_str f).
Proof.
  intros Hf En Ev. apply identifier_law in En as [Hn1 Hn2]; [|apply Hf]. apply (value_emits f v Hf) in Ev as [Hv1 Hv2]. split; [apply Forall_app; split; [done|]; apply Forall_app; split; [repeat constructor|done]|].
  intros rest Hc. rewrite <- !app_assoc, Hn2 by (apply clean_sym; [apply quote_law|auto]). rewrite (fixed_sym quote_law 61) by auto. rewrite Hv2 by done. unfold assignment_tokens. destruct (lex LStart rest); cbn; [by rewrite <- !app_assoc|done].
Qed.

Lemma assignments_tail sep st l : separator sep st → ∀ s, Forall plain l → assignments to_str sep false (map Some l) = Some s → tail_emits s (flat_map (app st) (map (assignment_tokens to_str) l)).
Proof.
  intros Hsep. induction l as [|f l IH]; intros s Hp E; [apply (inj Some) in E as <-; apply tail_nil|]. apply Forall_cons in Hp as [Hf Hp]. cbn [map assignments] in E.
  destruct (escape_identifier (mf_name f)) as [name|] eqn:En; [|done]. destruct (field_value to_str f) as [v|] eqn:Ev; [|done]. destruct (assignments to_str sep false (map Some l)) as [rest|]; [|done]. apply (inj Some) in E as <-.
  destruct (assignment_emits f name v Hf En Ev) as [H1 H2]. cbn [map flat_map]. replace (sep ++ name ++ [61] ++ v ++ rest) with (sep ++ (name ++ [61] ++ v) ++ rest) by (by rewrite <- !app_assoc). apply tail_next; [done..|]. by apply IH.
Qed.

Lemma assignments_emits sep st l s : separator sep st → Forall plain l → l ≠ [] → assignments to_str sep true (map Some l) = Some s → cstring s ∧ emits s (separated st (map (assignment_tokens to_str) l)).
Proof.
  intros Hsep Hp Hne E. destruct l as [|f l]; [done|]. apply Forall_cons in Hp as [Hf Hp]. cbn [map assignments] in E.
  destruct (escape_identifier (mf_name f)) as [name|] eqn:En; [|done]. destruct (field_value to_str f) as [v|] eqn:Ev; [|done]. destruct (assignments to_str sep false (map Some l)) as [rest|] eqn:El; [|done]. apply (inj Some) in E as <-.
  destruct (assignment_emits f name v Hf En Ev) as [H1 H2]. cbn [map]. rewrite separated_cons. replace ([] ++ name ++ [61] ++ v ++ rest) with ((name ++ [61] ++ v) ++ rest) by (by rewrite <- !app_assoc). apply join_emits; [done..|]. by apply (assignments_tail sep).
Qed.

Lemma where_emits l w : Forall plain l → where_text to_str (map Some l) = Some w → cstring w ∧ emits w (where_tokens to_str l).
Proof.
  intros Hp E. unfold where_text, where_tokens in *. assert (zlen (map Some l) = zlen l) as Hz by (unfold zlen; by rewrite length_map). rewrite Hz in E. destruct (Z.eqb_spec (zlen l) 0) as [_|Hne].
  - apply (inj Some) in E as <-. apply always_law.
  - apply (assignments_emits (bs " AND ")); [apply and_separates|done|by intros ->|done].
Qed.

Lemma update_confined table set where_ sql : cstring table → set ≠ [] → Forall plain set → Forall plain where_ → compile_update to_str (Some table) (Some (map Some set)) (map Some where_) = Some sql → lex LStart sql = Some (update_tokens to_str table set where_).
Proof.
  intros Ht Hne Hs Hp E. unfold compile_update in E. destruct (table_ref table) as [t|] eqn:Et; [|done]. cbn [mbind option_bind] in E. destruct (assignments to_str [44] true (map Some set)) as [s|] eqn:Es; [|done]. cbn [mbind option_bind] in E.
  destruct (where_text to_str (map Some where_)) as [w|] eqn:Ew; [|done]. apply (inj Some) in E as <-. apply table_law in Et as [Ht1 Ht2]; [|done].
  destruct (assignments_emits [44] _ set s comma_separates Hs Hne Es) as [Hs1 Hs2]. destruct (where_emits where_ w Hp Ew) as [Hw1 Hw2]. rewrite !cstr_cstring by done.
  assert (fixed (bs "UPDATE ") [Word (bs "UPDATE")]) as K1 by (apply (words_fixed [bs "UPDATE"]); repeat constructor; done).
  assert (fixed (bs " SET ") [Word (bs "SET")]) as K2 by (apply (lead_fixed [bs "SET"]); repeat constructor; done).
  assert (fixed (bs " WHERE ") [Word (bs "WHERE")]) as K3 by (apply (lead_fixed [bs "WHERE"]); repeat constructor; done).
  rewrite K1, Ht2 by (apply clean_space, quote_law). rewrite K2, Hs2 by (apply clean_space, quote_law). rewrite K3, (emits_end _ _ Hw2). done.
Qed.

Lemma delete_confined table where_ sql : cstring table → Forall plain where_ → compile_delete to_str (Some table) (map Some where_) = Some sql → lex LStart sql = Some (delete_tokens to_str table where_).
Proof.
  intros Ht Hp E. unfold compile_delete in E. destruct (table_ref table) as [t|] eqn:Et; [|done]. cbn [mbind option_bind] in E.
  destruct (where_text to_str (map Some where_)) as [w|] eqn:Ew; [|done]. apply (inj Some) in E as <-. apply table_law in Et as [Ht1 Ht2]; [|done]. destruct (where_emits where_ w Hp Ew) as [Hw1 Hw2]. rewrite !cstr_cstring by done.
  assert (fixed (bs "DELETE FROM ") [Word (bs "DELETE"); Word (bs "FROM")]) as K1 by (apply (words_fixed [bs "DELETE"; bs "FROM"]); repeat constructor; done).
  assert (fixed (bs " WHERE ") [Word (bs "WHERE")]) as K3 by (apply (lead_fixed [bs "WHERE"]); repeat constructor; done).
  rewrite K1, Ht2 by (apply clean_space, quote_law). rewrite K3, (emits_end _ _ Hw2). done.
Qed.

Definition plain_column (name : list Z) : Prop := cstring name ∧ is_raw_sql name = false.

Lemma columns_tail l : ∀ s, Forall plain_column l → select_columns false (map Some l) = Some s → tail_emits s (flat_map (app [Sym 44]) (map ident_tokens l)).
Proof.
  induction l as [|n l IH]; intros s Hp E; [apply (inj Some) in E as <-; apply tail_nil|]. apply Forall_cons in Hp as [[Hn Hraw] Hp]. cbn [map select_columns] in E. rewrite Hraw in E.
  destruct (escape_identifier n) as [name|] eqn:En; [|done]. cbn [mbind option_bind] in E. destruct (select_columns false (map Some l)) as [rest|]; [|done]. apply (inj Some) in E as <-. apply identifier_law in En as [H1 H2]; [|done].
  cbn [map flat_map]. apply tail_next; [apply comma_separates|done..|by apply IH].
Qed.

Lemma columns_emits l s : Forall plain_column l → l ≠ [] → select_columns true (map Some l) = Some s → cstring s ∧ emits s (separated [Sym 44] (map ident_tokens l)).
Proof.
  intros Hp Hne E. destruct l as [|n l]; [done|]. apply Forall_cons in Hp as [[Hn Hraw] Hp]. cbn [map select_columns] in E. rewrite Hraw in E.
  destruct (escape_identifier n) as [name|] eqn:En; [|done]. cbn [mbind option_bind] in E. destruct (select_columns false (map Some l)) as [rest|] eqn:El; [|done]. apply (inj Some) in E as <-. apply identifier_law in En as [H1 H2]; [|done].
  cbn [map]. rewrite separated_cons. apply (join_emits name _ rest); [done..|by apply columns_tail].
Qed.

Lemma select_confined table columns where_ sql : cstring table → columns ≠ [] → Forall plain_column columns → where_ ≠ [] → Forall plain where_ → compile_select to_str (Some table) (map Some columns) (map Some where_) = Some sql → lex LStart sql = Some (select_tokens to_str table columns where_).
Proof.
  intros Ht Hcne Hcol Hwne Hp E. unfold compile_select in E. destruct (table_ref table) as [t|] eqn:Et; [|done]. cbn [mbind option_bind] in E. destruct (select_columns true (map Some columns)) as [c|] eqn:Ec; [|done]. cbn [mbind option_bind] in E.
  destruct (assignments to_str (bs " AND ") true (map Some where_)) as [w|] eqn:Ew; [|done]. apply (inj Some) in E as <-. apply table_law in Et as [Ht1 Ht2]; [|done].
  destruct (columns_emits columns c Hcol Hcne Ec) as [Hc1 Hc2]. destruct (assignments_emits _ _ where_ w and_separates Hp Hwne Ew) as [Hw1 Hw2]. rewrite !cstr_cstring by done.
  assert (fixed (bs "SELECT ") [Word (bs "SELECT")]) as K1 by (apply (words_fixed [bs "SELECT"]); repeat constructor; done).
  assert (fixed (bs " FROM ") [Word (bs "FROM")]) as K2 by (apply (lead_fixed [bs "FROM"]); repeat constructor; done).
  assert (fixed (bs " WHERE ") [Word (bs "WHERE")]) as K3 by (apply (lead_fixed [bs "WHERE"]); repeat constructor; done).
  rewrite K1, Hc2 by (apply clean_space, quote_law). rewrite K2, Ht2 by (apply clean_space, quote_law). rewrite K3, (emits_end _ _ Hw2). done.
Qed.
End Statements.
