(* ===== verification/SqlDialects.v ===== *)
(** The quoting of the three SQL drivers: [sqlite.c], [mysql.c] and [postgresql.c]. The escaping functions of the client libraries are parameters. *)

From S2P Require Import Prelude Helpers QueryParser SqlBase SqlGrammar.

(** ** Raw columns *)

Definition isalpha_ (c : Z) : bool := isupper c || islower c.
Definition strcasecmp (a b : list Z) : bool := bool_decide (tolower <$> a = tolower <$> b).

(** [123], [3.14] *)
Fixpoint number_scan (l : list Z) (has_digit has_dot : bool) : bool :=
  match l with
  | [] => has_digit
  | c :: l' => if isdigit c then number_scan l' true has_dot else if (c =? 46) && negb has_dot then number_scan l' has_digit true else false
  end.

(** [name(]: the rest of a name, then a parenthesis. *)
Fixpoint call_scan (l : list Z) : bool :=
  match l with
  | [] => false
  | c :: l' => if isalnum c || (c =? 95) then call_scan l' else c =? 40
  end.

(** [+], [/], [|] and, for some drivers, [:] anywhere; [*] and [-] not at the start. *)
Fixpoint operator_scan (colon first : bool) (l : list Z) : bool :=
  match l with
  | [] => false
  | c :: l' => if (c =? 43) || (c =? 47) || (c =? 124) || (colon && (c =? 58)) then true
      else if ((c =? 42) || (c =? 45)) && negb first then true
      else operator_scan colon false l'
  end.

Definition is_raw_sql_text (colon : bool) (str : list Z) : bool :=
  match str with
  | [] => false
  | c :: _ =>
      let unsigned := if (c =? 45) || (c =? 43) then tail str else str in
      bool_decide (str = [42]) || strcasecmp str (bs "NULL") || strcasecmp str (bs "true") || strcasecmp str (bs "false") ||
      (negb (zlen unsigned =? 0) && number_scan unsigned false false) ||
      ((isalpha_ c || (c =? 95)) && call_scan str) || operator_scan colon true str ||
      strcasecmp (take 5 str) (bs "CASE ") || (c =? 40) || (c =? 39)
  end.

Definition sqlite_is_raw_sql : list Z → bool := is_raw_sql_text true.
Definition mysql_is_raw_sql : list Z → bool := is_raw_sql_text false.
Definition pg_is_raw_sql : list Z → bool := is_raw_sql_text true.

(** ** Quoting *)

(** [c] twice for the quote itself. *)
Definition doubled (q : Z) (s : list Z) : list Z := flat_map (λ c, if c =? q then [q; c] else [c]) s.

Definition sqlite_escape_identifier (str : list Z) : option (list Z) := Some ([34] ++ doubled 34 str ++ [34]).
Definition sqlite_escape_string (str : list Z) : option (list Z) := Some ([39] ++ doubled 39 str ++ [39]).

(** The loop of [__escape_identifier] of [mysql.c] and [postgresql.c]: the parts between dots outside of quotations [q], each through [part]. *)
Fixpoint ident_loop (q : Z) (part : list Z → option (list Z)) (s cur : list Z) (in_quotes first : bool) : option (list Z) :=
  let close := if zlen cur =? 0 then None else escaped ← part cur; Some ((if first then [] else [46]) ++ escaped) in
  match s with
  | [] => if in_quotes then None else close
  | c :: s' =>
      if c =? q then
        match s' with
        | d :: s'' => if in_quotes && (d =? q) then ident_loop q part s'' (cur ++ [c; d]) in_quotes first else ident_loop q part s' (cur ++ [c]) (negb in_quotes) first
        | [] => ident_loop q part s' (cur ++ [c]) (negb in_quotes) first
        end
      else if (c =? 46) && negb in_quotes then
        done ← close;
        rest ← ident_loop q part s' [] in_quotes false;
        Some (done ++ rest)
      else ident_loop q part s' (cur ++ [c]) in_quotes first
  end.

Definition escape_parts (q : Z) (part : list Z → option (list Z)) (str : list Z) : option (list Z) :=
  if zlen str =? 0 then None else ident_loop q part str [] false true.

(** What is between the quotes of a part that is quoted. *)
Definition is_quoted (q : Z) (s : list Z) : bool := (2 <=? zlen s) && bool_decide (head s = Some q) && bool_decide (last s = Some q).
Definition unquoted (s : list Z) : list Z := removelast (tail s).

(** A pair of quotes is one. *)
Fixpoint collapse (q : Z) (s : list Z) : list Z :=
  match s with
  | [] => []
  | c :: s' => c :: (if c =? q then match s' with d :: s'' => if d =? q then collapse q s'' else collapse q s' | [] => [] end else collapse q s')
  end.

(** The loop of [__escape_identifier_part] of [mysql.c]. *)
Fixpoint part_loop (unescape_pairs : bool) (s : list Z) : list Z :=
  match s with
  | [] => []
  | c :: s' => if c =? 96 then c :: 96 :: match s' with d :: s'' => if unescape_pairs && (d =? 96) then part_loop unescape_pairs s'' else part_loop unescape_pairs s' | [] => [] end else c :: part_loop unescape_pairs s'
  end.

Definition mysql_identifier_part (s : list Z) : option (list Z) :=
  if zlen s =? 0 then None
  else
    let quoted := is_quoted 96 s in
    let content := if quoted then unquoted s else s in
    if quoted && (zlen content =? 0) then None else Some ([96] ++ part_loop quoted content ++ [96]).

Definition mysql_escape_identifier (str : list Z) : option (list Z) := escape_parts 96 mysql_identifier_part str.

(** [mysql_real_escape_string]; [None] for -1. *)
Definition mysql_escape_string (real_escape : list Z → option (list Z)) (str : list Z) : option (list Z) :=
  escaped ← real_escape str; Some ([39] ++ escaped ++ [39]).

Section Postgres.
Variables PQescapeIdentifier PQescapeLiteral : list Z → option (list Z).
Variable schema : list Z.

Definition pg_identifier_part (s : list Z) : option (list Z) :=
  if zlen s =? 0 then None
  else if is_quoted 34 s then
    if zlen (unquoted s) =? 0 then None else PQescapeIdentifier (collapse 34 (unquoted s))
  else PQescapeIdentifier s.

Definition pg_escape_identifier (str : list Z) : option (list Z) := escape_parts 34 pg_identifier_part str.
Definition pg_escape_string (str : list Z) : option (list Z) := PQescapeLiteral str.

(** [schema.table], or the table alone when no schema is configured. *)
Definition pg_table_ref (table : list Z) : option (list Z) :=
  t ← pg_escape_identifier table;
  if zlen schema =? 0 then Some t
  else s ← pg_escape_identifier schema; Some (s ++ [46] ++ t).
End Postgres.

(** ** The drivers *)

Definition sqlite_lexis : Lexis := {| ident_quote := 34; backslash_escapes := false; e_strings := false |}.
Definition sqlite : Dialect (H := sqlite_lexis) := {| escape_identifier := sqlite_escape_identifier; escape_string := sqlite_escape_string; table_ref := sqlite_escape_identifier; always := bs "1"; is_raw_sql := sqlite_is_raw_sql |}.

Definition mysql_lexis : Lexis := {| ident_quote := 96; backslash_escapes := true; e_strings := false |}.
Definition mysql (real_escape : list Z → option (list Z)) : Dialect (H := mysql_lexis) :=
  {| escape_identifier := mysql_escape_identifier; escape_string := mysql_escape_string real_escape; table_ref := mysql_escape_identifier; always := bs "true"; is_raw_sql := mysql_is_raw_sql |}.

Definition pg_lexis : Lexis := {| ident_quote := 34; backslash_escapes := false; e_strings := true |}.
Definition postgresql (PQescapeIdentifier PQescapeLiteral : list Z → option (list Z)) (schema : list Z) : Dialect (H := pg_lexis) :=
  {| escape_identifier := pg_escape_identifier PQescapeIdentifier; escape_string := pg_escape_string PQescapeLiteral; table_ref := pg_table_ref PQescapeIdentifier schema; always := bs "true"; is_raw_sql := pg_is_raw_sql |}.

(** *** The statements of each driver *)

Section Drivers.
Context {V : Type}.
Variable to_str : mtype → mvalue V → option (list Z).
Variable real_escape PQescapeIdentifier PQescapeLiteral : list Z → option (list Z).
Variable schema : list Z.

Definition sqlite_compile_insert := compile_insert (H0 := sqlite) to_str.
Definition sqlite_compile_select := compile_select (H0 := sqlite) to_str.
Definition sqlite_compile_update := compile_update (H0 := sqlite) to_str.
Definition sqlite_compile_delete := compile_delete (H0 := sqlite) to_str.

Definition mysql_compile_insert := compile_insert (H0 := mysql real_escape) to_str.
Definition mysql_compile_select := compile_select (H0 := mysql real_escape) to_str.
Definition mysql_compile_update := compile_update (H0 := mysql real_escape) to_str.
Definition mysql_compile_delete := compile_delete (H0 := mysql real_escape) to_str.

Definition pg_compile_insert := compile_insert (H0 := postgresql PQescapeIdentifier PQescapeLiteral schema) to_str.
Definition pg_compile_select := compile_select (H0 := postgresql PQescapeIdentifier PQescapeLiteral schema) to_str.
Definition pg_compile_update := compile_update (H0 := postgresql PQescapeIdentifier PQescapeLiteral schema) to_str.
Definition pg_compile_delete := compile_delete (H0 := postgresql PQescapeIdentifier PQescapeLiteral schema) to_str.

End Drivers.

(** ** Lemmas *)

Section Quoted.
Context `{Lexis}.
Hypothesis Hq : ident_quote = 34 ∨ ident_quote = 96.

Lemma quote_begins : begins ident_quote = ([], LIdent []).
Proof. unfold begins. destruct Hq as [-> | ->]; done. Qed.

Lemma lex_ident_body s : ∀ a rest, clean rest → lex (LIdent a) (doubled ident_quote s ++ [ident_quote] ++ rest) = app [Ident (a ++ s)] <$> lex LStart rest.
Proof.
  induction s as [|c s IH]; intros a rest Hc.
  - change (doubled ident_quote []) with (@nil Z). rewrite app_nil_r. cbn [app lex lex_step]. rewrite Z.eqb_refl. destruct rest as [|c rest]; [done|]. destruct Hc as (Hcq & _). cbn [lex lex_step]. rewrite (proj2 (Z.eqb_neq _ _) Hcq). destruct (begins c) as [t st]. by destruct (lex st rest).
  - unfold doubled. cbn [flat_map]. fold (doubled ident_quote s). rewrite <- app_assoc. destruct (Z.eqb_spec c ident_quote) as [->|Hne].
    + cbn [app lex lex_step]. rewrite Z.eqb_refl. cbn [lex lex_step]. rewrite Z.eqb_refl. pose proof (IH (a ++ [ident_quote]) rest Hc) as E. cbn [app] in E. rewrite E, <- app_assoc. by destruct (lex LStart rest).
    + cbn [app lex lex_step]. rewrite (proj2 (Z.eqb_neq _ _) Hne). pose proof (IH (a ++ [c]) rest Hc) as E. cbn [app] in E. rewrite E, <- app_assoc. by destruct (lex LStart rest).
Qed.

Lemma quoted_ident_emits s : emits ([ident_quote] ++ doubled ident_quote s ++ [ident_quote]) [Ident s].
Proof.
  intros rest Hc. rewrite <- !app_assoc. change ([ident_quote] ++ ?x) with (ident_quote :: x). cbn [lex lex_step]. rewrite quote_begins. pose proof (lex_ident_body s [] rest Hc) as E. cbn [app] in E |- *. rewrite E. by destruct (lex LStart rest).
Qed.

Lemma string_begins : begins 39 = ([], LStr backslash_escapes []).
Proof. unfold begins. destruct Hq as [-> | ->]; done. Qed.

Lemma lex_string_end esc a rest : clean rest → lex (LStr esc a) ([39] ++ rest) = app [Str a] <$> lex LStart rest.
Proof.
  intros Hc. cbn [app lex lex_step]. change (39 =? 39) with true. cbn match. destruct rest as [|c rest]; [done|]. destruct Hc as (_ & Hc & _). cbn [lex lex_step]. rewrite (proj2 (Z.eqb_neq _ _) Hc). destruct (begins c) as [t st]. by destruct (lex st rest).
Qed.

Lemma lex_string_body s : ∀ a rest, lex (LStr false a) (doubled 39 s ++ rest) = lex (LStr false (a ++ s)) rest.
Proof.
  induction s as [|c s IH]; intros a rest; [by rewrite app_nil_r|]. unfold doubled. cbn [flat_map]. fold (doubled 39 s). rewrite <- app_assoc. destruct (Z.eqb_spec c 39) as [->|Hne].
  - cbn [app lex lex_step]. change (39 =? 39) with true. cbn match. cbn [lex lex_step]. change (39 =? 39) with true. cbn match. rewrite (IH (a ++ [39]) rest), <- app_assoc. by destruct (lex _ rest).
  - cbn [app lex lex_step]. rewrite (proj2 (Z.eqb_neq _ _) Hne). cbn [andb]. rewrite (IH (a ++ [c]) rest), <- app_assoc. by destruct (lex _ rest).
Qed.

(** A literal whose text [out] is read as [s]. *)
Lemma string_emits out s : (∀ a rest, lex (LStr backslash_escapes a) (out ++ rest) = lex (LStr backslash_escapes (a ++ s)) rest) → emits ([39] ++ out ++ [39]) [Str s].
Proof.
  intros Ho rest Hc. rewrite <- !app_assoc. change ([39] ++ ?x) with (39 :: x) at 1. cbn [lex lex_step]. rewrite string_begins. rewrite Ho, lex_string_end by done. cbn [app]. by destruct (lex LStart rest).
Qed.

Lemma doubled_cstring q s : cstring s → cstring (doubled q s).
Proof. induction 1 as [|c s Hc _ IH]; [constructor|]. unfold doubled. cbn [flat_map]. destruct (Z.eqb_spec c q) as [->|]; apply Forall_app; split; try exact IH; repeat constructor; lia. Qed.

(** *** Names with dots *)

Definition part_name (q : Z) (s : list Z) : list Z := if is_quoted q s then collapse q (unquoted s) else s.

(** The parts of a name, as they are written. *)
Fixpoint parts (q : Z) (s cur : list Z) (in_quotes : bool) : list (list Z) :=
  match s with
  | [] => [cur]
  | c :: s' =>
      if c =? q then
        match s' with
        | d :: s'' => if in_quotes && (d =? q) then parts q s'' (cur ++ [c; d]) in_quotes else parts q s' (cur ++ [c]) (negb in_quotes)
        | [] => parts q s' (cur ++ [c]) (negb in_quotes)
        end
      else if (c =? 46) && negb in_quotes then cur :: parts q s' [] in_quotes
      else parts q s' (cur ++ [c]) in_quotes
  end.

Definition dotted_tokens (q : Z) (l : list (list Z)) : list token := separated [Sym 46] (map (λ p, [Ident (part_name q p)]) l).

Lemma parts_ne q s : ∀ cur inq, parts q s cur inq ≠ [].
Proof.
  induction s as [s IH] using (induction_ltof1 _ (@length Z)). unfold ltof in IH. intros cur inq. destruct s as [|c s]; [done|]. cbn [parts]. destruct (c =? q).
  - destruct s as [|d s]; [apply IH; cbn; lia|]. destruct (inq && (d =? q)); apply IH; cbn; lia.
  - destruct ((c =? 46) && negb inq); [done|]. apply IH; cbn; lia.
Qed.

Lemma dotted_cons q p l : l ≠ [] → dotted_tokens q (p :: l) = Ident (part_name q p) :: Sym 46 :: dotted_tokens q l.
Proof. by destruct l. Qed.

Variable part : list Z → option (list Z).
Hypothesis Hpart : ∀ p out, cstring p → part p = Some out → cstring out ∧ emits out [Ident (part_name ident_quote p)].

Lemma ident_loop_emits s : ∀ cur inq (first : bool) out, cstring (cur ++ s) → ident_loop ident_quote part s cur inq first = Some out →
  ∃ out', out = (if first then [] else [46]) ++ out' ∧ cstring out' ∧ emits out' (dotted_tokens ident_quote (parts ident_quote s cur inq)).
Proof.
  induction s as [s IH] using (induction_ltof1 _ (@length Z)). unfold ltof in IH. intros cur inq first out Hc E. destruct s as [|c s]; cbn [ident_loop parts] in E |- *.
  - destruct inq; [done|]. destruct (zlen cur =? 0); [done|]. destruct (part cur) as [e|] eqn:Ep; [|done]. apply (inj Some) in E as <-. rewrite app_nil_r in Hc. destruct (Hpart cur e Hc Ep). by exists e.
  - assert (∀ s', cstring ((cur ++ [c]) ++ s') ↔ cstring (cur ++ c :: s')) as Hmove by (intros s'; by rewrite <- app_assoc). destruct (c =? ident_quote).
    + destruct s as [|d s]; [apply (IH [] ltac:(cbn; lia) (cur ++ [c]) _ _ _); [by apply Hmove|done]|]. destruct (inq && (d =? ident_quote)).
      * apply (IH s ltac:(cbn; lia) (cur ++ [c; d])); [by rewrite <- app_assoc|done].
      * apply (IH (d :: s) ltac:(cbn; lia) (cur ++ [c])); [by apply Hmove|done].
    + destruct ((c =? 46) && negb inq).
      * destruct (zlen cur =? 0); [done|]. destruct (part cur) as [e|] eqn:Ep; [|done]. cbn [mbind option_bind] in E. destruct (ident_loop ident_quote part s [] inq false) as [rest|] eqn:El; [|done]. apply (inj Some) in E as <-.
        apply Forall_app in Hc as [Hcur Hcs]. apply Forall_cons in Hcs as [_ Hcs]. destruct (Hpart cur e Hcur Ep) as [He1 He2]. destruct (IH s ltac:(cbn; lia) [] inq false rest Hcs El) as (out' & -> & Ho1 & Ho2).
        exists (e ++ [46] ++ out'). split; [by rewrite <- app_assoc|]. split; [apply Forall_app; split; [done|]; by apply Forall_cons|]. intros r Hr. rewrite dotted_cons by apply parts_ne.
        rewrite <- !app_assoc, He2 by (apply clean_sym; [done|auto]). rewrite (fixed_sym Hq 46) by auto. rewrite Ho2 by done. by destruct (lex LStart r).
      * apply (IH s ltac:(cbn; lia) (cur ++ [c])); [by apply Hmove|done].
Qed.

Lemma escape_parts_emits s out : cstring s → escape_parts ident_quote part s = Some out → cstring out ∧ emits out (dotted_tokens ident_quote (parts ident_quote s [] false)).
Proof.
  intros Hs E. unfold escape_parts in E. destruct (zlen s =? 0); [done|]. destruct (ident_loop_emits s [] false true out Hs E) as (out' & -> & H1 & H2). done.
Qed.
End Quoted.

(** ** The laws *)

Lemma collapse_cstring q s : cstring s → cstring (collapse q s).
Proof.
  induction s as [s IH] using (induction_ltof1 _ (@length Z)). unfold ltof in IH. intros Hs. destruct s as [|c s]; [constructor|]. apply Forall_cons in Hs as [Hc Hs]. cbn [collapse]. constructor; [done|]. destruct (c =? q); [|by apply IH; [cbn; lia|]].
  destruct s as [|d s]; [constructor|]. destruct (d =? q); apply IH; try (cbn; lia); [by apply Forall_cons in Hs as [_ Hs]|done].
Qed.

Lemma unquoted_cstring s : cstring s → cstring (unquoted s).
Proof.
  intros Hs. unfold unquoted. destruct s as [|c s]; [constructor|]. apply Forall_cons in Hs as [_ Hs]. cbn [tail]. destruct s as [|d s _] using rev_ind; [constructor|]. rewrite removelast_last. by apply Forall_app in Hs as [Hs _].
Qed.

Lemma part_loop_doubled s : part_loop false s = doubled 96 s ∧ part_loop true s = doubled 96 (collapse 96 s).
Proof.
  induction s as [s IH] using (induction_ltof1 _ (@length Z)). unfold ltof in IH. destruct s as [|c s]; [done|]. destruct (IH s ltac:(cbn; lia)) as [IH1 IH2]. cbn [part_loop collapse]. unfold doubled. cbn [flat_map]. fold (doubled 96 s).
  destruct (Z.eqb_spec c 96) as [->|]; [|split; [by rewrite IH1|by rewrite IH2]]. split.
  - destruct s as [|d s]; [done|]. cbn [andb]. by rewrite IH1.
  - destruct s as [|d s]; [done|]. cbn [andb]. destruct (d =? 96); [destruct (IH s ltac:(cbn; lia)) as [_ ->]; done|by rewrite IH2].
Qed.

Lemma quotation_cstring q s : 0 < q < 256 → cstring s → cstring ([q] ++ s ++ [q]).
Proof. intros Hq Hs. apply Forall_app. split; [by apply Forall_singleton|]. apply Forall_app. split; [done|by apply Forall_singleton]. Qed.

Lemma part_name_cstring q s : cstring s → cstring (part_name q s).
Proof. intros Hs. unfold part_name. destruct (is_quoted q s); [by apply collapse_cstring, unquoted_cstring|done]. Qed.

Lemma sqlite_identifier n out : cstring n → sqlite_escape_identifier n = Some out → cstring out ∧ emits (H := sqlite_lexis) out [Ident n].
Proof. intros Hn E. apply (inj Some) in E as <-. split; [by apply quotation_cstring; [|apply doubled_cstring]|]. apply (quoted_ident_emits (H := sqlite_lexis)). by left. Qed.

Program Definition sqlite_laws : DialectLaws (D := sqlite) := Build_DialectLaws sqlite_lexis sqlite (λ n, [Ident n]) (λ n, [Ident n]) sqlite_identifier sqlite_identifier _ _ _.
Next Obligation. intros s out Hs E. apply (inj Some) in E as <-. split; [by apply quotation_cstring; [|apply doubled_cstring]|]. apply (string_emits (H := sqlite_lexis)); [by left|]. intros a rest. apply (lex_string_body (H := sqlite_lexis)). Qed.
Next Obligation. split; [repeat constructor|]. by apply (word_emits (H := sqlite_lexis)). Qed.
Next Obligation. by left. Qed.

(** [mysql_real_escape_string]: inside quotes, its result is read as the text it was given. *)
Definition real_escape_law (real_escape : list Z → option (list Z)) : Prop :=
  ∀ s out, cstring s → real_escape s = Some out → cstring out ∧ ∀ a rest, lex (H := mysql_lexis) (LStr true a) (out ++ rest) = lex (H := mysql_lexis) (LStr true (a ++ s)) rest.

Lemma mysql_part p out : cstring p → mysql_identifier_part p = Some out → cstring out ∧ emits (H := mysql_lexis) out [Ident (part_name 96 p)].
Proof.
  intros Hp E. unfold mysql_identifier_part in E. destruct (zlen p =? 0); [done|]. assert (out = [96] ++ doubled 96 (part_name 96 p) ++ [96]) as ->.
  { unfold part_name. destruct (is_quoted 96 p); cbn [andb] in E; [destruct (zlen (unquoted p) =? 0); [done|]; rewrite (proj2 (part_loop_doubled (unquoted p))) in E|rewrite (proj1 (part_loop_doubled p)) in E]; by apply (inj Some) in E as <-. }
  split; [by apply quotation_cstring; [|apply doubled_cstring, part_name_cstring]|]. apply (quoted_ident_emits (H := mysql_lexis)). by right.
Qed.

Lemma mysql_identifier n out : cstring n → mysql_escape_identifier n = Some out → cstring out ∧ emits (H := mysql_lexis) out (dotted_tokens 96 (parts 96 n [] false)).
Proof. apply (escape_parts_emits (H := mysql_lexis)); [by right|apply mysql_part]. Qed.

Program Definition mysql_laws (real_escape : list Z → option (list Z)) (Hreal : real_escape_law real_escape) : DialectLaws (D := mysql real_escape) :=
  Build_DialectLaws mysql_lexis (mysql real_escape) (λ n, dotted_tokens 96 (parts 96 n [] false)) (λ n, dotted_tokens 96 (parts 96 n [] false)) mysql_identifier mysql_identifier _ _ _.
Next Obligation.
  intros real_escape Hreal s out Hs E. cbn in E. unfold mysql_escape_string in E. destruct (real_escape s) as [e|] eqn:Ee; [|done]. apply (inj Some) in E as <-. destruct (Hreal s e Hs Ee) as [H1 H2].
  split; [by apply quotation_cstring|]. apply (string_emits (H := mysql_lexis)); [by right|]. exact H2.
Qed.
Next Obligation. intros. split; [repeat constructor|]. by apply (word_emits (H := mysql_lexis)). Qed.
Next Obligation. by right. Qed.

Section PostgresLaws.
Variables PQescapeIdentifier PQescapeLiteral : list Z → option (list Z).
Variable schema : list Z.
Hypothesis Hident : ∀ s out, cstring s → PQescapeIdentifier s = Some out → cstring out ∧ emits (H := pg_lexis) out [Ident s].
Hypothesis Hliteral : ∀ s out, cstring s → PQescapeLiteral s = Some out → cstring out ∧ emits (H := pg_lexis) out [Str s].
Hypothesis Hschema : cstring schema.

Lemma pg_part p out : cstring p → pg_identifier_part PQescapeIdentifier p = Some out → cstring out ∧ emits (H := pg_lexis) out [Ident (part_name 34 p)].
Proof.
  intros Hp E. unfold pg_identifier_part in E. destruct (zlen p =? 0); [done|]. unfold part_name. destruct (is_quoted 34 p); [destruct (zlen (unquoted p) =? 0); [done|]|].
  - apply (Hident _ out); [by apply collapse_cstring, unquoted_cstring|done].
  - by apply Hident.
Qed.

Lemma pg_identifier n out : cstring n → pg_escape_identifier PQescapeIdentifier n = Some out → cstring out ∧ emits (H := pg_lexis) out (dotted_tokens 34 (parts 34 n [] false)).
Proof. apply (escape_parts_emits (H := pg_lexis)); [by left|apply pg_part]. Qed.

Definition pg_table_tokens (table : list Z) : list token :=
  (if zlen schema =? 0 then [] else dotted_tokens 34 (parts 34 schema [] false) ++ [Sym 46]) ++ dotted_tokens 34 (parts 34 table [] false).

Lemma pg_table n out : cstring n → pg_table_ref PQescapeIdentifier schema n = Some out → cstring out ∧ emits (H := pg_lexis) out (pg_table_tokens n).
Proof.
  intros Hn E. unfold pg_table_ref, pg_table_tokens in *. destruct (pg_escape_identifier PQescapeIdentifier n) as [t|] eqn:Et; [|done]. cbn [mbind option_bind] in E. destruct (pg_identifier n t Hn Et) as [T1 T2].
  destruct (zlen schema =? 0); [by apply (inj Some) in E as <-|]. destruct (pg_escape_identifier PQescapeIdentifier schema) as [s|] eqn:Es; [|done]. apply (inj Some) in E as <-. destruct (pg_identifier schema s Hschema Es) as [S1 S2].
  split; [apply Forall_app; split; [done|]; by apply Forall_cons|]. intros r Hr. rewrite <- !app_assoc, S2 by (apply clean_sym; [by left|auto]). rewrite (fixed_sym (H := pg_lexis)) by auto. rewrite T2 by done. destruct (lex LStart r); cbn; [by rewrite <- !app_assoc|done].
Qed.

Program Definition postgresql_laws : DialectLaws (D := postgresql PQescapeIdentifier PQescapeLiteral schema) :=
  Build_DialectLaws pg_lexis (postgresql PQescapeIdentifier PQescapeLiteral schema) (λ n, dotted_tokens 34 (parts 34 n [] false)) pg_table_tokens pg_identifier pg_table Hliteral _ _.
Next Obligation. split; [repeat constructor|]. by apply (word_emits (H := pg_lexis)). Qed.
Next Obligation. by left. Qed.
End PostgresLaws.
