(* ===== verification/SqlInjection.v ===== *)
(** Names and values cannot leave their place in a statement. *)

From S2P Require Import Prelude Helpers QueryParser SqlBase SqlGrammar SqlDialects.

Section Total.
Context `{L : DialectLaws} {V : Type}.
Variable to_str : mtype → mvalue V → option (list Z).

(** The driver could quote the name and the value. *)
Definition quotable (f : mfield V) : Prop := is_Some (escape_identifier (mf_name f)) ∧ is_Some (field_value to_str f).

Lemma insert_fields_total l : Forall quotable l → ∀ first, is_Some (insert_fields to_str first (map Some l)).
Proof.
  induction 1 as [|f l [[name En] [v Ev]] _ IH]; intros first; [by eexists|]. cbn [map insert_fields]. rewrite En, Ev. cbn [mbind option_bind]. destruct (IH false) as [[N W] ->]. by eexists.
Qed.

Lemma assignments_total sep l : Forall quotable l → ∀ first, is_Some (assignments to_str sep first (map Some l)).
Proof.
  induction 1 as [|f l [[name En] [v Ev]] _ IH]; intros first; [by eexists|]. cbn [map assignments]. rewrite En, Ev. cbn [mbind option_bind]. destruct (IH false) as [s ->]. by eexists.
Qed.

Lemma where_total l : Forall quotable l → is_Some (where_text to_str (map Some l)).
Proof. intros Hl. unfold where_text. case_if; [by eexists|by apply assignments_total]. Qed.

Lemma columns_total l : Forall plain_column l → Forall (λ n, is_Some (escape_identifier n)) l → ∀ first, is_Some (select_columns first (map Some l)).
Proof.
  induction l as [|n l IH]; intros Hp Hl first; [by eexists|]. apply Forall_cons in Hp as [[_ Hraw] Hp]. apply Forall_cons in Hl as [[name En] Hl]. cbn [map select_columns]. rewrite Hraw, En. cbn [mbind option_bind]. destruct (IH Hp Hl false) as [s ->]. by eexists.
Qed.
End Total.


(** *** An escaping function of the kind the MySQL client has *)

Definition backslashed (s : list Z) : list Z := flat_map (λ c, if (c =? 39) || (c =? 34) || (c =? 92) then [92; c] else if c =? 10 then [92; 110] else if c =? 13 then [92; 114] else if c =? 26 then [92; 90] else [c]) s.

Lemma lex_quiet `{Lexis} st c st' l : lex_step st c = ([], st') → lex st (c :: l) = lex st' l.
Proof. intros E. cbn [lex]. rewrite E. by destruct (lex st' l). Qed.

Lemma backslashed_law : real_escape_law (λ s, Some (backslashed s)).
Proof.
  intros s out Hs E. apply (inj Some) in E as <-. split.
  - induction Hs as [|c s Hc _ IH]; [constructor|]. unfold backslashed. cbn [flat_map]. apply Forall_app. split; [|exact IH]. repeat case_if; repeat (apply Forall_cons_2; [lia|]); apply Forall_nil_2.
  - clear Hs. induction s as [|c s IH]; intros a rest; [by rewrite app_nil_r|]. unfold backslashed. cbn [flat_map]. fold (backslashed s). rewrite <- app_assoc. replace (a ++ c :: s) with ((a ++ [c]) ++ s) by (by rewrite <- app_assoc). rewrite <- IH.
    assert (∀ d, c = unescape d → lex (H := mysql_lexis) (LStr true a) ([92; d] ++ backslashed s ++ rest) = lex (H := mysql_lexis) (LStr true (a ++ [c])) (backslashed s ++ rest)) as Hesc.
    { intros d ->. cbn [app]. rewrite (lex_quiet (H := mysql_lexis) _ _ (LStrE a)) by done. by apply (lex_quiet (H := mysql_lexis)). }
    destruct (Z.eqb_spec c 39) as [-> |H1]; [by apply Hesc|]. destruct (Z.eqb_spec c 34) as [-> |H2]; [by apply Hesc|]. destruct (Z.eqb_spec c 92) as [-> |H3]; [by apply Hesc|]. cbn [orb].
    destruct (Z.eqb_spec c 10) as [-> |H4]; [by apply Hesc|]. destruct (Z.eqb_spec c 13) as [-> |H5]; [by apply Hesc|]. destruct (Z.eqb_spec c 26) as [-> |H6]; [by apply Hesc|].
    cbn [app]. apply (lex_quiet (H := mysql_lexis)). cbn [lex_step]. by rewrite (proj2 (Z.eqb_neq c 39) H1), (proj2 (Z.eqb_neq c 92) H3).
Qed.

Definition text_of (t : mtype) (v : mvalue (list Z)) : option (list Z) := match v with Scalar s => Some s | Items _ => None end.
Definition hostile : mfield (list Z) := MField (bs "`na``me`") MODEL_TEXT (Scalar (bs "x'; DROP TABLE users; -- " ++ [92])) false false.
Definition nulled : mfield (list Z) := MField (bs "t.id") MODEL_INT (Scalar []) true false.

