(* ===== verification/SqlParams.v ===== *)
(** Parameterized queries ([framework/database/dbquery.c]): [:name] becomes a placeholder whose value is bound, [@name] an escaped identifier, [:list__name] and [@list__name]
    the same for every element of an array.

    The query has no NUL: it is a C string. The name buffer of 256 bytes is never overrun, since longer names are left alone; the texts appended to the result are lists. *)

From S2P Require Import Prelude Helpers QueryParser WriteFilter HttpResponse SqlBase.

(** ** The model *)

Record sql_parse_state : Set := SqlParseState {
  in_string : bool;
  quote_char : Z;
  in_line_comment : bool;
  in_block_comment : bool }.

Definition char_at (query : list Z) (i : Z) : Z := nth (Z.to_nat i) query 0.

(** The state after the quotes at [i], and the position. *)
Definition string_state (query : list Z) (i : Z) (st : sql_parse_state) : Z * sql_parse_state :=
  let c := char_at query i in
  if negb (in_line_comment st) && negb (in_block_comment st) && ((c =? 39) || (c =? 34)) && ((i =? 0) || negb (char_at query (i - 1) =? 92)) then
    if negb (in_string st) then (i, SqlParseState true c (in_line_comment st) (in_block_comment st))
    else if c =? quote_char st then
      if (i + 1 <? zlen query) && (char_at query (i + 1) =? quote_char st) then (i + 1, st)
      else (i, SqlParseState false (quote_char st) (in_line_comment st) (in_block_comment st))
    else (i, st)
  else (i, st).

(** Whether to go on with the next byte, the position and the state. *)
Definition update_sql_parse_state (query : list Z) (i : Z) (st : sql_parse_state) : bool * Z * sql_parse_state :=
  if zlen query <=? i then (false, i, st)
  else
    let c := char_at query i in
    let next := if i + 1 <? zlen query then char_at query (i + 1) else 0 in
    let '(i1, st) := string_state query i st in
    if in_string st then (false, i1, st)
    else if negb (in_block_comment st) && (c =? 45) && (next =? 45) then (true, i1 + 1, SqlParseState (in_string st) (quote_char st) true (in_block_comment st))
    else if in_line_comment st && (c =? 10) then (true, i1, SqlParseState (in_string st) (quote_char st) false (in_block_comment st))
    else if negb (in_line_comment st) && (c =? 47) && (next =? 42) then (true, i1 + 1, SqlParseState (in_string st) (quote_char st) (in_line_comment st) true)
    else if in_block_comment st && (0 <? i) && (char_at query (i - 1) =? 42) && (c =? 47) then (true, i1, SqlParseState (in_string st) (quote_char st) (in_line_comment st) false)
    else (false, i1, st).

Definition ispunct_custom (c : Z) : bool := (32 <=? c) && (c <=? 126) && negb (isalnum c || (c =? 32) || (c =? 95)).
Definition iscntrl (c : Z) : bool := ((0 <=? c) && (c <? 32)) || (c =? 127).
Definition is_spec_symbol (c : Z) : bool := ispunct_custom c || iscntrl c || space_char c.

Fixpoint starts_with_substr (string substring : list Z) : bool :=
  match substring, string with
  | [], _ => true
  | b :: substring', a :: string' => (a =? b) && starts_with_substr string' substring'
  | _, [] => false
  end.

Definition MAX_PARAM_NAME : Z := 256.

Section Parse.
Context {V U : Type}.

(** The callback: the text to append and its data afterwards, or failure. *)
Variable processor : Z → list Z → mfield V → U → option (list Z * U).

Definition sql_array_element_field (name : list Z) (x : array_item V) : option (mfield V) :=
  match x with
  | IntItem v => Some (MField name MODEL_INT (Scalar v) false false)
  | DoubleItem v => Some (MField name MODEL_DOUBLE (Scalar v) false false)
  | LongDoubleItem v => Some (MField name MODEL_DECIMAL (Scalar v) false false)
  | StringItem (Some v) => Some (MField name MODEL_TEXT (Scalar v) false false)
  | StringItem None | OtherItem => None
  end.

(** The elements of a list, separated by commas. *)
Fixpoint expand_list (type : Z) (name : list Z) (first : bool) (l : list (array_item V)) (u : U) : option (list Z * U) :=
  match l with
  | [] => Some ([], u)
  | x :: l' =>
      elem ← sql_array_element_field name x;
      '(text, u) ← processor type name elem u;
      '(rest, u) ← expand_list type name false l' u;
      Some ((if first then [] else [44]) ++ text ++ rest, u)
  end.

(** What a parameter is replaced with. *)
Definition replace_param (type : Z) (name : list Z) (params : list (option (mfield V))) (u : U) : option (list Z * U) :=
  let is_in := starts_with_substr name (bs "list__") in
  let name := if is_in then drop 6 name else name in
  match List.find (λ f, match f with Some f => bool_decide (name = mf_name f) | None => false end) params with
  | Some (Some f) =>
      if is_in then
        match mf_type f, mf_value f with
        | MODEL_ARRAY, Items ([] as l) => None
        | MODEL_ARRAY, Items l => expand_list type name true l u
        | _, _ => None
        end
      else processor type name f u
  | _ => None
  end.

Record scan : Type := Scan {
  sc_param_start : option Z;
  sc_result : list Z;
  sc_position : Z;
  sc_offset : Z;
  sc_state : sql_parse_state;
  sc_skip_next_colon : bool;
  sc_user : U }.

Definition set_state (s : scan) (st : sql_parse_state) : scan := Scan (sc_param_start s) (sc_result s) (sc_position s) (sc_offset s) st (sc_skip_next_colon s) (sc_user s).
Definition set_skip (s : scan) (b : bool) : scan := Scan (sc_param_start s) (sc_result s) (sc_position s) (sc_offset s) (sc_state s) b (sc_user s).
Definition start_param (s : scan) (i : Z) : scan := Scan (Some i) (sc_result s) (sc_position s) i (sc_state s) (sc_skip_next_colon s) (sc_user s).

Section Query.
Variable query : list Z.
Variable params : list (option (mfield V)).

(** [param_end_check] and the rest of a turn at [i]. *)
Definition param_end_check (i : Z) (s : scan) : option scan :=
  let c := char_at query i in
  let string_end := i =? zlen query - 1 in
  let spec := is_spec_symbol c in
  s ← match sc_param_start s with
  | Some start =>
      if spec || string_end then
        let param_end := if string_end && negb spec then i + 1 else i in
        let name_size := param_end - start - 1 in
        if (0 <? name_size) && (name_size <? MAX_PARAM_NAME) then
          let name := slice (start + 1) name_size query in
          '(text, u) ← replace_param (char_at query start) name params (sc_user s);
          Some (Scan None (sc_result s ++ slice (sc_position s) (sc_offset s - sc_position s) query ++ text) param_end param_end (sc_state s) (sc_skip_next_colon s) u)
        else Some (Scan None (sc_result s) (sc_position s) (sc_offset s) (sc_state s) (sc_skip_next_colon s) (sc_user s))
      else Some s
  | None => Some s
  end;
  match sc_param_start s with
  | None => Some (if string_end then Scan None (sc_result s ++ slice (sc_position s) (i + 1 - sc_position s) query) (sc_position s) (sc_offset s) (sc_state s) (sc_skip_next_colon s) (sc_user s) else s)
  | Some _ => Some s
  end.

(** One turn of the loop: where to go on, and the state; [None] when the query is refused. *)
Definition turn_at (i : Z) (s : scan) : option (Z * scan) :=
  let '(again, i, st) := update_sql_parse_state query i (sc_state s) in
  let s := set_state s st in
  if again : bool then Some (i + 1, s)
  else if in_string st || in_line_comment st || in_block_comment st then Some (i + 1, s)
  else
    let c := char_at query i in
    if (c =? 58) && (i + 1 <? zlen query) && (char_at query (i + 1) =? 58) then
      match sc_param_start s with
      | Some _ => s ← param_end_check i (set_skip s true); Some (i + 1, s)
      | None => Some (i + 2, s)
      end
    else if sc_skip_next_colon s && (c =? 58) then Some (i + 1, set_skip s false)
    else
      let s := set_skip s false in
      if (c =? 58) || (c =? 64) then
        match sc_param_start s with
        | Some _ => None
        | None => Some (i + 1, start_param s i)
        end
      else s ← param_end_check i s; Some (i + 1, s).

Fixpoint scan_loop (fuel : nat) (i : Z) (s : scan) : option (option scan) :=
  match fuel with
  | O => None
  | S f =>
      if i <? zlen query then
        match turn_at i s with None => Some None | Some (i, s) => scan_loop f i s end
      else Some (Some s)
  end.
End Query.

(** The text and the data of the callback; [None] inside when the query is refused. *)
Definition parse_sql_parameters (query : list Z) (params : list (option (mfield V))) (u : U) : option (option (list Z * U)) :=
  match scan_loop query params (S (length query)) 0 (Scan None [] 0 0 (SqlParseState false 0 false false) false u) with
  | None => None
  | Some None => Some None
  | Some (Some s) => Some (Some (sc_result s, sc_user s))
  end.
End Parse.

(** *** The callback of [dbquery] *)

Section Build.
Context `{Dialect} {V : Type}.
Variable to_str : mtype → mvalue V → option (list Z).
Variable type_cast : mtype → list Z.

(** The data of the callback: the running number and the bound fields in order. *)
Definition immediate_bind : Type := Z * list (mfield V).

Definition build_query_processor (type : Z) (name : list Z) (f : mfield V) (u : immediate_bind) : option (list Z * immediate_bind) :=
  if type =? 64 then
    '(text, raw) ← model_field_to_string to_str f;
    if raw : bool then Some (text, u) else q ← escape_identifier (cstr text); Some (q, u)
  else if negb (type =? 58) then None
  else if mf_is_null f then Some (bs "NULL", u)
  else
    '(text, raw) ← model_field_to_string to_str f;
    if raw : bool then Some (text, u)
    else let idx := u.1 + 1 in Some ([36] ++ print_zu idx ++ type_cast (mf_type f), (idx, u.2 ++ [f])).

(** What [dbquery] hands to [execute_params]: the SQL text and the values to bind. *)
Definition build_query (query : list Z) (params : list (option (mfield V))) : option (option (list Z * list (mfield V))) :=
  match parse_sql_parameters build_query_processor query params (0, []) with
  | None => None
  | Some None => Some None
  | Some (Some (text, (_, bind))) => Some (Some (text, bind))
  end.
End Build.
