(* ===== verification/SqlQuery.v ===== *)
(** What [parse_sql_parameters] makes of a query, against a reference reading of it.

    A query is a sequence of pieces: bytes of SQL, string literals, comments, casts and parameters. The reference replaces the parameters one after the other and
    leaves every other piece alone; the loop of the source, with its positions, flags and look-ahead, computes exactly that. *)

From S2P Require Import Prelude Helpers QueryParser WriteFilter HttpResponse SqlBase SqlParams.

(** ** The pieces of a query *)

Inductive piece : Set :=
  | Byte (c : Z)
  | Literal (q : Z) (body : list Z)
  | LineComment (body : list Z)
  | BlockComment (body : list Z)
  | Cast
  | Param (sigil : Z) (name : list Z).

Definition piece_text (p : piece) : list Z :=
  match p with
  | Byte c => [c]
  | Literal q body => [q] ++ body ++ [q]
  | LineComment body => [45; 45] ++ body ++ [10]
  | BlockComment body => [47; 42] ++ body ++ [42; 47]
  | Cast => [58; 58]
  | Param sigil name => [sigil] ++ name
  end.

Definition render (ps : list piece) : list Z := concat (map piece_text ps).

(** The byte after a piece, 0 at the end of the query. *)
Definition next_byte (ps : list piece) : Z := hd 0 (render ps).

Definition name_char (c : Z) : bool := negb (is_spec_symbol c).

(** The inside of a block comment, behind the byte [prev]: a slash next to an asterisk would end it, or begin another. *)
Fixpoint block_ok (prev : Z) (body : list Z) : bool :=
  match body with
  | [] => true
  | c :: body' => (negb (c =? 47) || (negb (prev =? 42) && negb (hd 42 body' =? 42))) && block_ok c body'
  end.

#[export] Instance piece_eq : EqDecision piece.
Proof. solve_decision. Defined.

(** A piece that can be read before [ps]. *)
Definition piece_ok (p : piece) (ps : list piece) : bool :=
  let next := next_byte ps in
  match p with
  | Byte c =>
      negb ((c =? 39) || (c =? 34) || (c =? 58) || (c =? 64)) && negb ((c =? 45) && (next =? 45)) && negb ((c =? 47) && (next =? 42))
      && negb ((c =? 92) && ((next =? 39) || (next =? 34)))
  | Literal q body => ((q =? 39) || (q =? 34)) && forallb (λ c, negb (c =? q) && negb (c =? 92)) body && negb (next =? q)
  | LineComment body => forallb (λ c, negb (c =? 10)) body && negb (bool_decide (ps = []))
  | BlockComment body => block_ok 42 body && negb (next =? 42) && negb (bool_decide (ps = []))
  | Cast => negb (next =? 58) && negb (bool_decide (ps = []))
  | Param sigil name =>
      ((sigil =? 58) || (sigil =? 64)) && forallb name_char name && (0 <? zlen name) && (zlen name <? MAX_PARAM_NAME)
      && match ps with [] => true | Byte c :: _ => is_spec_symbol c | Cast :: _ => true | _ => false end
  end.

Fixpoint query_ok (ps : list piece) : bool :=
  match ps with [] => true | p :: ps' => piece_ok p ps' && query_ok ps' end.

Section Reference.
Context {V U : Type}.
Variable processor : Z → list Z → mfield V → U → option (list Z * U).
Variable params : list (option (mfield V)).

(** The reference: the parameters replaced from left to right. *)
Fixpoint expand (ps : list piece) (u : U) : option (list Z * U) :=
  match ps with
  | [] => Some ([], u)
  | p :: ps' =>
      '(text, u) ← match p with Param sigil name => replace_param processor sigil name params u | _ => Some (piece_text p, u) end;
      '(rest, u) ← expand ps' u;
      Some (text ++ rest, u)
  end.

(** ** Reading the query byte by byte *)

Notation scan := (scan (U := U)).
Notation turn_at := (turn_at processor).
Notation scan_loop := (scan_loop processor).

Lemma char_at_middle (pre suf : list Z) c : char_at (pre ++ c :: suf) (zlen pre) = c.
Proof. unfold char_at, zlen. rewrite Nat2Z.id, app_nth2, Nat.sub_diag by lia. done. Qed.

Lemma char_at_next (pre suf : list Z) c : char_at (pre ++ c :: suf) (zlen pre + 1) = hd 0 suf.
Proof.
  unfold char_at, zlen. replace (Z.to_nat (Z.of_nat (length pre) + 1)) with (S (length pre)) by lia.
  rewrite app_nth2, Nat.sub_succ_l, Nat.sub_diag by lia. by destruct suf.
Qed.

Lemma char_at_last (pre suf : list Z) c d : char_at ((pre ++ [d]) ++ c :: suf) (zlen (pre ++ [d]) - 1) = d.
Proof. rewrite <- app_assoc. replace (zlen (pre ++ [d]) - 1) with (zlen pre) by (rewrite zlen_app; change (zlen [d]) with 1; lia). apply char_at_middle. Qed.

Definition clean_state (st : sql_parse_state) : Prop := in_string st = false ∧ in_line_comment st = false ∧ in_block_comment st = false.

Section Query.
Variable query : list Z.

(** The outcome of the loop from [i], for every fuel that reaches the end of the query. *)
Definition loops (i : Z) (s : scan) (r : option scan) : Prop := ∀ fuel : nat, zlen query - i < Z.of_nat fuel → 0 < Z.of_nat fuel → scan_loop query params fuel i s = Some r.

Lemma loops_end i s : zlen query <= i → loops i s (Some s).
Proof. intros Hi [|f] Hf H0; [lia|]. cbn. by rewrite (proj2 (Z.ltb_ge _ _) Hi). Qed.

Lemma loops_refused i s : i < zlen query → turn_at query params i s = None → loops i s None.
Proof. intros Hi E [|f] Hf H0; [lia|]. cbn. by rewrite (proj2 (Z.ltb_lt _ _) Hi), E. Qed.

Lemma loops_turn i s j s' r : i < zlen query → turn_at query params i s = Some (j, s') → i < j → loops j s' r → loops i s r.
Proof. intros Hi E Hj Hr [|f] Hf H0; [lia|]. cbn. rewrite (proj2 (Z.ltb_lt _ _) Hi), E. apply Hr; lia. Qed.

(** What is appended at the last byte. *)
Definition flush (i : Z) (s : scan) : scan :=
  if i =? zlen query - 1 then Scan None (sc_result s ++ slice (sc_position s) (i + 1 - sc_position s) query) (sc_position s) (sc_offset s) (sc_state s) (sc_skip_next_colon s) (sc_user s)
  else s.

Lemma param_end_idle i s : sc_param_start s = None → param_end_check processor query params i s = Some (flush i s).
Proof. intros E. unfold param_end_check, flush. rewrite E. cbn. by rewrite E. Qed.

(** A byte that does not touch the state. *)
Definition inert (c next : Z) : Prop := c ≠ 39 ∧ c ≠ 34 ∧ ¬ (c = 45 ∧ next = 45) ∧ ¬ (c = 47 ∧ next = 42).

Lemma update_inert pre c suf st : query = pre ++ c :: suf → clean_state st → inert c (hd 0 suf) → update_sql_parse_state query (zlen pre) st = (false, zlen pre, st).
Proof.
  intros -> (Hs & Hl & Hb) (H1 & H2 & H3 & H4). unfold update_sql_parse_state, string_state.
  destruct (Z.leb_spec (zlen (pre ++ c :: suf)) (zlen pre)); [zlen_lia|].
  rewrite char_at_middle, char_at_next, Hs, Hl, Hb, (proj2 (Z.eqb_neq c 39) H1), (proj2 (Z.eqb_neq c 34) H2). cbn [orb andb negb]. rewrite Hs, Hl, Hb. cbn [orb andb negb].
  assert (∀ d, d ≠ 0 → (if zlen pre + 1 <? zlen (pre ++ c :: suf) then hd 0 suf else 0) = d → hd 0 suf = d) as Hn by (intros d Hd; case_if; lia).
  destruct (Z.eqb_spec c 45) as [E1|]; cbn [andb].
  - case_if; [reflect_bools; apply Hn in E; [|done]; tauto|]. by subst.
  - destruct (Z.eqb_spec c 47) as [E1|]; cbn [andb]; [|done]. case_if; [reflect_bools; apply Hn in E; [|done]; tauto|]. done.
Qed.

(** *** Every turn advances: the loop ends *)

Lemma update_advances i st again j st' : update_sql_parse_state query i st = (again, j, st') → i <= j.
Proof. unfold update_sql_parse_state, string_state. intros E. repeat (case_match; simplify_eq); lia. Qed.

Lemma turn_advances i s j s' : turn_at query params i s = Some (j, s') → i < j.
Proof.
  unfold SqlParams.turn_at. destruct (update_sql_parse_state query i (sc_state s)) as [[again i1] st] eqn:Eu. apply update_advances in Eu. intros E.
  repeat (case_match; simplify_option_eq); lia.
Qed.

Lemma scan_total fuel : ∀ i s, zlen query - i < Z.of_nat fuel → 0 < Z.of_nat fuel → scan_loop query params fuel i s ≠ None.
Proof.
  induction fuel as [|f IH]; intros i s Hf H0; [lia|]. cbn. case_if; [|done]. destruct (turn_at query params i s) as [[j s']|] eqn:Et; [|done].
  apply turn_advances in Et. reflect_bools. apply IH; lia.
Qed.

Lemma scan_more fuel k : ∀ i s r, scan_loop query params fuel i s = Some r → scan_loop query params (fuel + k) i s = Some r.
Proof.
  induction fuel as [|f IH]; intros i s r E; [done|]. cbn in *. case_if; [|done]. destruct (turn_at query params i s) as [[j s']|]; [|done]. by apply IH.
Qed.

Lemma loops_behind i s j s' r : i < zlen query → turn_at query params i s = Some (j, s') → loops i s r → loops j s' r.
Proof.
  intros Hi Et Hr fuel Hf H0. destruct (scan_loop query params fuel j s') as [r'|] eqn:E; [|by apply scan_total in E].
  apply (scan_more fuel (Z.to_nat (zlen query - i))) in E. specialize (Hr (S (fuel + Z.to_nat (zlen query - i)))). cbn [SqlParams.scan_loop] in Hr.
  rewrite (proj2 (Z.ltb_lt _ _) Hi), Et in Hr. rewrite <- E. apply Hr; lia.
Qed.

(** From [i] the loop gets to [j]. *)
Definition leads (i : Z) (s : scan) (j : Z) (s' : scan) : Prop := ∀ r, loops j s' r → loops i s r.

Lemma leads_trans i s j s1 k s2 : leads i s j s1 → leads j s1 k s2 → leads i s k s2.
Proof. unfold leads. auto. Qed.

Lemma leads_turn i s j s' : i < zlen query → turn_at query params i s = Some (j, s') → i < j → leads i s j s'.
Proof. intros ??? r. by eapply loops_turn. Qed.

(** A byte of a string or of a comment. *)
Lemma leads_inside pre c suf s st : query = pre ++ c :: suf → update_sql_parse_state query (zlen pre) (sc_state s) = (false, zlen pre, st) →
  in_string st || in_line_comment st || in_block_comment st = true → leads (zlen pre) s (zlen (pre ++ [c])) (set_state s st).
Proof.
  intros E Hu Hin. apply leads_turn; [rewrite E; zlen_lia| |zlen_lia]. unfold SqlParams.turn_at. rewrite Hu. cbn beta iota zeta. rewrite Hin.
  by replace (zlen (pre ++ [c])) with (zlen pre + 1) by zlen_lia.
Qed.

(** A byte after which the turn ends at once, [skip] bytes further. *)
Lemma leads_again pre t suf s i st : query = pre ++ t ++ suf → t ≠ [] → update_sql_parse_state query (zlen pre) (sc_state s) = (true, i, st) → i + 1 = zlen (pre ++ t) →
  leads (zlen pre) s (zlen (pre ++ t)) (set_state s st).
Proof.
  intros E Ht Hu Hi. destruct t; [done|]. apply leads_turn; [rewrite E; zlen_lia| |zlen_lia]. unfold SqlParams.turn_at. by rewrite Hu, Hi.
Qed.

(** A byte outside, that is no sigil, when no parameter is being read. *)
Lemma leads_byte pre c suf s st : query = pre ++ c :: suf → update_sql_parse_state query (zlen pre) (sc_state s) = (false, zlen pre, st) → clean_state st →
  c ≠ 58 → c ≠ 64 → sc_param_start s = None → sc_skip_next_colon s = false → leads (zlen pre) s (zlen (pre ++ [c])) (flush (zlen pre) (set_state s st)).
Proof.
  intros E Hu (Hs & Hl & Hb) H58 H64 Hp Hk. apply leads_turn; [rewrite E; zlen_lia| |zlen_lia]. unfold SqlParams.turn_at. rewrite Hu. cbn beta iota zeta. rewrite Hs, Hl, Hb. cbn [orb].
  assert (char_at query (zlen pre) = c) as -> by (rewrite E; apply char_at_middle).
  rewrite (proj2 (Z.eqb_neq c 58) H58), (proj2 (Z.eqb_neq c 64) H64). cbn [andb orb]. rewrite andb_false_r. rewrite param_end_idle by done. cbn [mbind option_bind].
  replace (zlen (pre ++ [c])) with (zlen pre + 1) by zlen_lia. do 2 f_equal. destruct s. cbn in *. by subst.
Qed.

(** *** The state between two pieces *)

Definition pending (i : Z) (s : scan) : list Z := sc_result s ++ slice (sc_position s) (i - sc_position s) query.

Record ready (pre : list Z) (next : Z) (s : scan) : Prop := {
  ready_param : sc_param_start s = None;
  ready_clean : clean_state (sc_state s);
  ready_skip : sc_skip_next_colon s = false;
  ready_position : 0 <= sc_position s <= zlen pre;
  ready_escape : next = 39 ∨ next = 34 → pre = [] ∨ char_at query (zlen pre - 1) ≠ 92 }.

(** Behind [pre], with [text] written and [ps] to come. *)
Definition reached (pre : list Z) (ps : list piece) (s : scan) (text : list Z) (u : U) : Prop :=
  query = pre ++ render ps ∧ sc_user s = u ∧ match ps with [] => sc_result s = text | _ :: _ => ready pre (next_byte ps) s ∧ pending (zlen pre) s = text end.

Lemma piece_nonempty p : piece_text p ≠ [].
Proof. by destruct p. Qed.

Lemma render_nonempty p ps : 0 < zlen (render (p :: ps)).
Proof. unfold render. cbn [map concat]. destruct (piece_text p) eqn:E; [by apply piece_nonempty in E|]. zlen_lia. Qed.

Lemma slice_app pre t suf p : query = pre ++ t ++ suf → 0 <= p <= zlen pre → slice p (zlen (pre ++ t) - p) query = slice p (zlen pre - p) query ++ t.
Proof.
  intros E Hp. unfold slice. rewrite E, !drop_app_le by zlen_lia. transitivity (drop (Z.to_nat p) pre ++ t).
  - rewrite app_assoc, take_app_le, take_ge by (rewrite ?length_app, ?length_drop; zlen_lia). done.
  - f_equal. rewrite take_app_le, take_ge by (rewrite ?length_app, ?length_drop; zlen_lia). done.
Qed.

(** The end of a piece that is not a comment, a cast or a parameter: its last byte is [c]. *)
Lemma reached_flush pre t c ps s text st : query = pre ++ (t ++ [c]) ++ render ps → sc_param_start s = None → sc_skip_next_colon s = false → 0 <= sc_position s <= zlen pre → pending (zlen pre) s = text →
  clean_state st → (c = 92 → next_byte ps ≠ 39 ∧ next_byte ps ≠ 34) →
  reached (pre ++ t ++ [c]) ps (flush (zlen (pre ++ t)) (set_state s st)) (text ++ t ++ [c]) (sc_user s).
Proof.
  intros E Hp Hk Hpos <- Hc H92. unfold reached, flush. split; [by rewrite <- app_assoc|].
  destruct ps as [|p ps].
  - destruct (Z.eqb_spec (zlen (pre ++ t)) (zlen query - 1)) as [_|n]; [|destruct n; rewrite E; unfold render; cbn; zlen_lia].
    cbn. split; [done|]. unfold pending. rewrite <- (app_assoc (sc_result s)). f_equal.
    replace (zlen (pre ++ t) + 1) with (zlen (pre ++ t ++ [c])) by zlen_lia. by eapply slice_app.
  - pose proof (render_nonempty p ps) as Hn. destruct (Z.eqb_spec (zlen (pre ++ t)) (zlen query - 1)) as [E'|_]; [rewrite E in E'; zlen_lia|].
    split; [done|]. split; [constructor; cbn; [done..|zlen_lia|]|].
    + intros Hq. right. rewrite E. replace (pre ++ (t ++ [c]) ++ render (p :: ps)) with (((pre ++ t) ++ [c]) ++ render (p :: ps)) by (by rewrite <- !app_assoc).
      rewrite (app_assoc pre). destruct (render (p :: ps)) as [|d l] eqn:Er; [change (zlen (@nil Z)) with 0 in Hn; lia|]. rewrite char_at_last. intros ->. destruct H92; [done|]. tauto.
    + unfold pending. cbn. rewrite <- (app_assoc (sc_result s)). f_equal. by eapply slice_app.
Qed.

(** *** One piece after the other *)

Lemma reached_query pre p ps s text u : reached pre (p :: ps) s text u → query = pre ++ piece_text p ++ render ps.
Proof. by intros [-> _]. Qed.

Lemma piece_byte pre c ps s text u : reached pre (Byte c :: ps) s text u → piece_ok (Byte c) ps = true →
  ∃ s1, leads (zlen pre) s (zlen (pre ++ [c])) s1 ∧ reached (pre ++ [c]) ps s1 (text ++ [c]) u.
Proof.
  intros Hr Hok. pose proof (reached_query _ _ _ _ _ _ Hr) as E. destruct Hr as (_ & <- & Hr & Ht). cbn in Hok. reflect_bools.
  assert (inert c (hd 0 (render ps))) as Hi by (unfold inert, next_byte in *; lia).
  exists (flush (zlen pre) (set_state s (sc_state s))). split.
  - apply (leads_byte pre c (render ps)); [done|apply (update_inert pre c (render ps)); [done|apply Hr|done]|apply Hr|lia|lia|apply Hr|apply Hr].
  - pose proof (reached_flush pre [] c ps s text (sc_state s)) as Hf. rewrite app_nil_r in Hf. apply Hf; [done|apply Hr..|done|apply Hr|lia].
Qed.

(** The quotes of a literal. *)
Lemma update_open pre q suf st : query = pre ++ q :: suf → clean_state st → q = 39 ∨ q = 34 → pre = [] ∨ char_at query (zlen pre - 1) ≠ 92 →
  update_sql_parse_state query (zlen pre) st = (false, zlen pre, SqlParseState true q false false).
Proof.
  intros E (Hs & Hl & Hb) Hq H92. unfold update_sql_parse_state, string_state. destruct (Z.leb_spec (zlen query) (zlen pre)); [rewrite E in *; zlen_lia|].
  assert (char_at query (zlen pre) = q) as -> by (rewrite E; apply char_at_middle). rewrite Hs, Hl, Hb. cbn [negb andb].
  assert ((zlen pre =? 0) || negb (char_at query (zlen pre - 1) =? 92) = true) as -> by (destruct H92 as [-> |?]; [done|]; apply orb_true_iff; right; by apply negb_true_iff, Z.eqb_neq).
  by destruct Hq as [-> | ->].
Qed.

Lemma update_literal pre q c suf : query = pre ++ c :: suf → c ≠ q →
  update_sql_parse_state query (zlen pre) (SqlParseState true q false false) = (false, zlen pre, SqlParseState true q false false).
Proof.
  intros E Hc. unfold update_sql_parse_state, string_state. destruct (Z.leb_spec (zlen query) (zlen pre)); [rewrite E in *; zlen_lia|].
  assert (char_at query (zlen pre) = c) as -> by (rewrite E; apply char_at_middle). cbn. rewrite (proj2 (Z.eqb_neq c q) Hc). by case_if.
Qed.

Lemma update_close pre q suf : query = pre ++ q :: suf → q = 39 ∨ q = 34 → hd 0 suf ≠ q → pre = [] ∨ char_at query (zlen pre - 1) ≠ 92 →
  update_sql_parse_state query (zlen pre) (SqlParseState true q false false) = (false, zlen pre, SqlParseState false q false false).
Proof.
  intros E Hq Hn H92. unfold update_sql_parse_state, string_state. destruct (Z.leb_spec (zlen query) (zlen pre)); [rewrite E in *; zlen_lia|].
  assert (char_at query (zlen pre) = q) as -> by (rewrite E; apply char_at_middle).
  assert (char_at query (zlen pre + 1) = hd 0 suf) as -> by (rewrite E; apply char_at_next).
  assert ((zlen pre =? 0) || negb (char_at query (zlen pre - 1) =? 92) = true) as -> by (destruct H92 as [-> |?]; [done|]; apply orb_true_iff; right; by apply negb_true_iff, Z.eqb_neq).
  cbn. rewrite Z.eqb_refl, (proj2 (Z.eqb_neq _ _) Hn), andb_false_r. by destruct Hq as [-> | ->].
Qed.

Definition in_literal (q : Z) : sql_parse_state := SqlParseState true q false false.

Lemma literal_body q body : ∀ pre suf s, query = pre ++ body ++ suf → forallb (λ c, negb (c =? q) && negb (c =? 92)) body = true → sc_state s = in_literal q →
  leads (zlen pre) s (zlen (pre ++ body)) s.
Proof.
  induction body as [|c body IH]; intros pre suf s E Hb Hs; [rewrite app_nil_r; by intros r|]. cbn [forallb] in Hb. apply andb_true_iff in Hb as [Hc Hb]. reflect_bools.
  eapply leads_trans; [apply (leads_inside pre c (body ++ suf) s (in_literal q)); [done|rewrite Hs; by eapply update_literal|done]|].
  replace (set_state s (in_literal q)) with s by (destruct s; cbn in *; by subst). replace (pre ++ c :: body) with ((pre ++ [c]) ++ body) by (by rewrite <- app_assoc).
  by apply (IH _ suf); [rewrite E, <- app_assoc| |].
Qed.

Lemma before_close pre q body suf : query = (pre ++ q :: body) ++ q :: suf → q = 39 ∨ q = 34 → forallb (λ c, negb (c =? q) && negb (c =? 92)) body = true → char_at query (zlen (pre ++ q :: body) - 1) ≠ 92.
Proof.
  intros -> Hq Hb. destruct body as [|d body _] using rev_ind; [rewrite char_at_last; lia|].
  replace (pre ++ q :: body ++ [d]) with ((pre ++ q :: body) ++ [d]) by (by rewrite <- app_assoc). rewrite char_at_last.
  rewrite forallb_app in Hb. cbn in Hb. reflect_bools. lia.
Qed.

Lemma piece_literal pre q body ps s text u : reached pre (Literal q body :: ps) s text u → piece_ok (Literal q body) ps = true →
  ∃ s1, leads (zlen pre) s (zlen (pre ++ piece_text (Literal q body))) s1 ∧ reached (pre ++ piece_text (Literal q body)) ps s1 (text ++ piece_text (Literal q body)) u.
Proof.
  intros Hr Hok. pose proof (reached_query _ _ _ _ _ _ Hr) as E. destruct Hr as (_ & <- & Hr & Ht). cbn in Hok. apply andb_true_iff in Hok as [[Hq Hb]%andb_true_iff Hn]. reflect_bools. rewrite !Z.eqb_eq in Hq.
  cbn [piece_text] in *. rewrite !app_assoc in E. rewrite <- (app_assoc pre [q] body) in E. cbn [app] in E.
  exists (flush (zlen (pre ++ q :: body)) (set_state s (SqlParseState false q false false))). split.
  - eapply leads_trans; [apply (leads_inside pre q (body ++ [q] ++ render ps) s (in_literal q)); [rewrite E; by rewrite <- !app_assoc| |done]|].
    { apply (update_open pre q (body ++ [q] ++ render ps)); [rewrite E; by rewrite <- !app_assoc|apply Hr|done|]. apply Hr. unfold next_byte. cbn. tauto. }
    eapply leads_trans; [apply (literal_body q body (pre ++ [q]) ([q] ++ render ps)); [rewrite E; by rewrite <- !app_assoc|done|done]|].
    replace ((pre ++ [q]) ++ body) with (pre ++ q :: body) by (by rewrite <- app_assoc). rewrite (app_assoc [q] body [q]). rewrite (app_assoc pre ([q] ++ body)).
    change (set_state s (SqlParseState false q false false)) with (set_state (set_state s (in_literal q)) (SqlParseState false q false false)).
    apply (leads_byte (pre ++ q :: body) q (render ps) _ (SqlParseState false q false false)); [rewrite E; by rewrite <- !app_assoc| |done|lia|lia|apply Hr|apply Hr].
    cbn [sc_state set_state]. apply (update_close _ q (render ps)); [rewrite E; by rewrite <- !app_assoc|done|done|]. right. apply (before_close pre q body (render ps)); [rewrite E; by rewrite <- !app_assoc|done|done].
  - apply (reached_flush pre (q :: body) q ps s text (SqlParseState false q false false)); [rewrite E; by rewrite <- !app_assoc|apply Hr..|done|done|lia].
Qed.

Lemma reached_quiet pre t d ps s text st : query = pre ++ (t ++ [d]) ++ render ps → ps ≠ [] → d ≠ 92 → ready pre (hd 0 (t ++ [d] ++ render ps)) s → pending (zlen pre) s = text → clean_state st →
  reached (pre ++ t ++ [d]) ps (set_state s st) (text ++ t ++ [d]) (sc_user s).
Proof.
  intros E Hps Hd Hr Ht Hc. pose proof (reached_flush pre t d ps s text st E (ready_param _ _ _ Hr) (ready_skip _ _ _ Hr) (ready_position _ _ _ Hr) Ht Hc) as Hf.
  unfold flush in Hf. destruct ps as [|p ps]; [done|]. pose proof (render_nonempty p ps).
  destruct (Z.eqb_spec (zlen (pre ++ t)) (zlen query - 1)) as [E'|_]; [rewrite E in E'; zlen_lia|]. apply Hf. lia.
Qed.

Definition in_line (q : Z) : sql_parse_state := SqlParseState false q true false.
Definition in_block (q : Z) : sql_parse_state := SqlParseState false q false true.

Lemma char_range pre c suf : query = pre ++ c :: suf → (zlen query <=? zlen pre) = false.
Proof. intros ->. apply Z.leb_gt. zlen_lia. Qed.

Lemma char_next_byte pre c suf : query = pre ++ c :: suf → (if zlen pre + 1 <? zlen query then char_at query (zlen pre + 1) else 0) = hd 0 suf.
Proof. intros ->. rewrite char_at_next. case_if; [done|]. destruct suf; [done|]. reflect_bools. zlen_lia. Qed.

Lemma char_here pre c suf : query = pre ++ c :: suf → char_at query (zlen pre) = c.
Proof. intros ->. apply char_at_middle. Qed.

Lemma update_comment pre c d suf st : query = pre ++ c :: d :: suf → clean_state st → (c = 45 ∧ d = 45) ∨ (c = 47 ∧ d = 42) →
  update_sql_parse_state query (zlen pre) st = (true, zlen pre + 1, if c =? 45 then in_line (quote_char st) else in_block (quote_char st)).
Proof.
  intros E (Hs & Hl & Hb) Hcd. unfold update_sql_parse_state, string_state. rewrite (char_range _ _ _ E), (char_next_byte _ _ _ E), (char_here _ _ _ E), Hs, Hl, Hb. cbn [hd].
  destruct Hcd as [[-> ->] | [-> ->]]; cbn; by rewrite Hs, ?Hl, ?Hb.
Qed.

(** A line comment, to the end of the line. *)
Lemma line_body q : ∀ (n : nat) body pre suf s, (length body <= n)%nat → query = pre ++ body ++ 10 :: suf → forallb (λ c, negb (c =? 10)) body = true → sc_state s = in_line q →
  leads (zlen pre) s (zlen (pre ++ body)) s.
Proof.
  induction n as [|n IH]; intros body pre suf s Hn E Hb Hs; (destruct body as [|c body]; [rewrite app_nil_r; by intros r|]); [cbn in Hn; lia|].
  cbn [forallb length app] in *. apply andb_true_iff in Hb as [Hc Hb]. reflect_bools.
  replace (pre ++ c :: body) with ((pre ++ [c]) ++ body) by (by rewrite <- app_assoc).
  assert (update_sql_parse_state query (zlen pre) (in_line q) = (if (c =? 45) && (hd 0 (body ++ 10 :: suf) =? 45) then (true, zlen pre + 1, in_line q) else (false, zlen pre, in_line q))) as Hu.
  { unfold update_sql_parse_state, string_state. rewrite (char_range _ _ _ E), (char_next_byte _ _ _ E), (char_here _ _ _ E). cbn. rewrite (proj2 (Z.eqb_neq c 10) Hc). by case_if. }
  assert (set_state s (in_line q) = s) as Hset by (destruct s; cbn in *; by subst).
  destruct ((c =? 45) && (hd 0 (body ++ 10 :: suf) =? 45)) eqn:E2.
  - reflect_bools. destruct body as [|d body]; [cbn in *; lia|]. cbn in H0. subst. cbn [forallb length app] in *.
    eapply leads_trans; [apply (leads_again pre [45; 45] (body ++ 10 :: suf) s (zlen pre + 1) (in_line q)); [done|done|rewrite Hs; exact Hu|zlen_lia]|]. rewrite Hset.
    replace ((pre ++ [45]) ++ 45 :: body) with ((pre ++ [45; 45]) ++ body) by (by rewrite <- !app_assoc).
    apply (IH body _ suf); [lia|by rewrite E, <- app_assoc|by apply andb_true_iff in Hb as [_ ?]|done].
  - eapply leads_trans; [apply (leads_inside pre c (body ++ 10 :: suf) s (in_line q)); [done|by rewrite Hs|done]|]. rewrite Hset.
    apply (IH body _ suf); [lia|by rewrite E, <- app_assoc|done|done].
Qed.

Lemma piece_line pre body ps s text u : reached pre (LineComment body :: ps) s text u → piece_ok (LineComment body) ps = true →
  ∃ s1, leads (zlen pre) s (zlen (pre ++ piece_text (LineComment body))) s1 ∧ reached (pre ++ piece_text (LineComment body)) ps s1 (text ++ piece_text (LineComment body)) u.
Proof.
  intros Hr Hok. pose proof (reached_query _ _ _ _ _ _ Hr) as E. destruct Hr as (_ & <- & Hr & Ht). cbn [piece_ok] in Hok. apply andb_true_iff in Hok as [Hb Hne]. apply negb_true_iff, bool_decide_eq_false in Hne.
  cbn [piece_text] in *. set (q := quote_char (sc_state s)).
  exists (set_state s (SqlParseState false q false false)). split.
  - eapply leads_trans; [apply (leads_again pre [45; 45] (body ++ 10 :: render ps) s (zlen pre + 1) (in_line q)); [rewrite E; by rewrite <- !app_assoc|done| |zlen_lia]|].
    { apply (update_comment pre 45 45 (body ++ 10 :: render ps)); [rewrite E; by rewrite <- !app_assoc|apply Hr|auto]. }
    eapply leads_trans; [apply (line_body q (length body) body (pre ++ [45; 45]) (render ps)); [done|rewrite E; by rewrite <- !app_assoc|done|done]|].
    rewrite (app_assoc [45; 45]), (app_assoc pre), (app_assoc pre [45; 45]).
    change (set_state s (SqlParseState false q false false)) with (set_state (set_state s (in_line q)) (SqlParseState false q false false)).
    apply (leads_again _ [10] (render ps) _ (zlen ((pre ++ [45; 45]) ++ body))); [rewrite E; by rewrite <- !app_assoc|done| |zlen_lia].
    assert (query = ((pre ++ [45; 45]) ++ body) ++ 10 :: render ps) as E' by (rewrite E; by rewrite <- !app_assoc).
    cbn [sc_state set_state]. unfold update_sql_parse_state, string_state. by rewrite (char_range _ _ _ E'), (char_next_byte _ _ _ E'), (char_here _ _ _ E').
  - rewrite (app_assoc [45; 45]). apply reached_quiet; [rewrite E; by rewrite <- !app_assoc|done|done| |done|done].
    replace (hd 0 _) with (next_byte (LineComment body :: ps)) by done. apply Hr.
Qed.

(** A block comment, to its last asterisk. *)
Lemma update_block pre c suf q : query = pre ++ c :: suf → ¬ (c = 47 ∧ hd 0 suf = 42) → ¬ (c = 47 ∧ char_at query (zlen pre - 1) = 42) →
  update_sql_parse_state query (zlen pre) (in_block q) = (false, zlen pre, in_block q).
Proof.
  intros E H1 H2. unfold update_sql_parse_state, string_state. rewrite (char_range _ _ _ E), (char_next_byte _ _ _ E), (char_here _ _ _ E). cbn.
  destruct (Z.eqb_spec c 47) as [-> |]; [|by rewrite andb_false_r]. cbn. rewrite (proj2 (Z.eqb_neq (hd 0 suf) 42)) by tauto.
  rewrite (proj2 (Z.eqb_neq (char_at query (zlen pre - 1)) 42)) by tauto. by rewrite andb_false_r.
Qed.

Lemma block_body q body : ∀ pre prev suf s, query = (pre ++ [prev]) ++ body ++ 42 :: suf → block_ok prev body = true → sc_state s = in_block q →
  leads (zlen (pre ++ [prev])) s (zlen ((pre ++ [prev]) ++ body)) s.
Proof.
  induction body as [|c body IH]; intros pre prev suf s E Hb Hs; [rewrite app_nil_r; by intros r|]. cbn [block_ok] in Hb. apply andb_true_iff in Hb as [Hc Hb].
  eapply leads_trans; [apply (leads_inside (pre ++ [prev]) c (body ++ 42 :: suf) s (in_block q)); [done|rewrite Hs|done]|].
  { apply (update_block (pre ++ [prev]) c (body ++ 42 :: suf)); [done|..].
    - intros [-> Hh]. destruct body as [|d body]; cbn in Hh, Hc; [by rewrite andb_false_r in Hc|]. subst. by rewrite andb_false_r in Hc.
    - rewrite E. cbn [app]. rewrite char_at_last. intros [-> ->]. done. }
  replace (set_state s (in_block q)) with s by (destruct s; cbn in *; by subst). replace ((pre ++ [prev]) ++ c :: body) with (((pre ++ [prev]) ++ [c]) ++ body) by (by rewrite <- app_assoc).
  by apply (IH _ c suf); [rewrite E, <- (app_assoc _ [c])| |].
Qed.

Lemma piece_block pre body ps s text u : reached pre (BlockComment body :: ps) s text u → piece_ok (BlockComment body) ps = true →
  ∃ s1, leads (zlen pre) s (zlen (pre ++ piece_text (BlockComment body))) s1 ∧ reached (pre ++ piece_text (BlockComment body)) ps s1 (text ++ piece_text (BlockComment body)) u.
Proof.
  intros Hr Hok. pose proof (reached_query _ _ _ _ _ _ Hr) as E. destruct Hr as (_ & <- & Hr & Ht). cbn [piece_ok] in Hok. apply andb_true_iff in Hok as [[Hb Hn]%andb_true_iff Hne]. apply negb_true_iff, bool_decide_eq_false in Hne.
  apply negb_true_iff, Z.eqb_neq in Hn. cbn [piece_text] in *. set (q := quote_char (sc_state s)).
  exists (set_state s (SqlParseState false q false false)). split.
  - eapply leads_trans; [apply (leads_again pre [47; 42] (body ++ 42 :: 47 :: render ps) s (zlen pre + 1) (in_block q)); [rewrite E; by rewrite <- !app_assoc|done| |zlen_lia]|].
    { apply (update_comment pre 47 42 (body ++ 42 :: 47 :: render ps)); [rewrite E; by rewrite <- !app_assoc|apply Hr|auto]. }
    rewrite (app_assoc pre [47] [42] : pre ++ [47; 42] = (pre ++ [47]) ++ [42]).
    eapply leads_trans; [apply (block_body q body (pre ++ [47]) 42 (47 :: render ps)); [rewrite E; by rewrite <- !app_assoc|done|done]|].
    eapply leads_trans; [apply (leads_inside _ 42 (47 :: render ps) _ (in_block q)); [rewrite E; by rewrite <- !app_assoc| |done]|].
    { apply (update_block _ 42 (47 :: render ps)); [rewrite E; by rewrite <- !app_assoc|lia|lia]. }
    set (pre' := (((pre ++ [47]) ++ [42]) ++ body) ++ [42]).
    assert (query = pre' ++ 47 :: render ps) as E' by (subst pre'; rewrite E; by rewrite <- !app_assoc).
    replace (pre ++ [47; 42] ++ body ++ [42; 47]) with (pre' ++ [47]) by (subst pre'; by rewrite <- !app_assoc).
    change (set_state s (SqlParseState false q false false)) with (set_state (set_state (set_state s (in_block q)) (in_block q)) (SqlParseState false q false false)).
    apply (leads_again pre' [47] (render ps) _ (zlen pre')); [done|done| |zlen_lia].
    cbn [sc_state set_state]. unfold update_sql_parse_state, string_state. rewrite (char_range _ _ _ E'), (char_next_byte _ _ _ E'), (char_here _ _ _ E').
    cbn -[zlen char_at]. rewrite (proj2 (Z.eqb_neq (hd 0 (render ps)) 42) Hn). assert (char_at query (zlen pre' - 1) = 42) as -> by (rewrite E'; apply char_at_last).
    by rewrite (proj2 (Z.ltb_lt 0 (zlen pre'))) by (subst pre'; zlen_lia).
  - replace ([47; 42] ++ body ++ [42; 47]) with (([47; 42] ++ body ++ [42]) ++ [47]) by (by rewrite <- !app_assoc).
    apply reached_quiet; [rewrite E; by rewrite <- !app_assoc|done|done| |done|done].
    replace (hd 0 _) with (next_byte (BlockComment body :: ps)) by done. apply Hr.
Qed.

Lemma turn_cast pre ps s : query = pre ++ [58; 58] ++ render ps → clean_state (sc_state s) → sc_param_start s = None → turn_at query params (zlen pre) s = Some (zlen (pre ++ [58; 58]), s).
Proof.
  intros E Hc Hp. unfold SqlParams.turn_at. rewrite (update_inert pre 58 (58 :: render ps)); [|done|done|unfold inert; cbn; lia]. cbn beta iota zeta. destruct Hc as (Hs & Hl & Hb). rewrite Hs, Hl, Hb.
  rewrite (char_here _ _ _ E). assert (char_at query (zlen pre + 1) = 58) as -> by (rewrite E; apply (char_at_next pre (58 :: render ps))).
  rewrite (proj2 (Z.ltb_lt (zlen pre + 1) (zlen query))) by (rewrite E; zlen_lia). cbn [Z.eqb Pos.eqb andb orb].
  replace (zlen (pre ++ [58; 58])) with (zlen pre + 2) by zlen_lia. destruct s. cbn in *. by subst.
Qed.

Lemma piece_cast pre ps s text u : reached pre (Cast :: ps) s text u → piece_ok Cast ps = true →
  ∃ s1, leads (zlen pre) s (zlen (pre ++ [58; 58])) s1 ∧ reached (pre ++ [58; 58]) ps s1 (text ++ [58; 58]) u.
Proof.
  intros Hr Hok. pose proof (reached_query _ _ _ _ _ _ Hr) as E. destruct Hr as (_ & <- & Hr & Ht). cbn [piece_ok] in Hok. apply andb_true_iff in Hok as [Hn Hne]. apply negb_true_iff, bool_decide_eq_false in Hne.
  cbn [piece_text] in *. exists (set_state s (sc_state s)). split.
  - replace (set_state s (sc_state s)) with s by (by destruct s). apply leads_turn; [rewrite E; zlen_lia|apply (turn_cast pre ps); [done|apply Hr|apply Hr]|zlen_lia].
  - apply (reached_quiet pre [58] 58); [done|done|done|exact Hr|done|apply Hr].
Qed.

(** *** Parameters *)

(** The state with the parameter at [pre] being read, and the state when it has been replaced. *)
Definition reading (pre : list Z) (s : scan) : scan := start_param s (zlen pre).
Definition replaced (pre name text : list Z) (u : U) (s : scan) : scan :=
  let j := zlen pre + 1 + zlen name in Scan None (pending (zlen pre) s ++ text) j j (sc_state s) false u.

Lemma name_inert c next : name_char c = true → inert c next ∧ c ≠ 58 ∧ c ≠ 64.
Proof.
  unfold name_char, is_spec_symbol. intros H. apply negb_true_iff in H. apply orb_false_iff in H as [[H _]%orb_false_iff _]. unfold inert.
  assert (∀ k, ispunct_custom k = true → c ≠ k) as Hk by (intros k Hk ->; congruence).
  pose proof (Hk 39 eq_refl). pose proof (Hk 34 eq_refl). pose proof (Hk 45 eq_refl). pose proof (Hk 47 eq_refl). pose proof (Hk 58 eq_refl). pose proof (Hk 64 eq_refl). tauto.
Qed.

Lemma turn_sigil pre sigil suf next s : query = pre ++ sigil :: suf → sigil = 58 ∨ sigil = 64 → hd 0 suf ≠ 58 → ready pre next s → turn_at query params (zlen pre) s = Some (zlen (pre ++ [sigil]), reading pre s).
Proof.
  intros E Hs Hh Hr. unfold SqlParams.turn_at. rewrite (update_inert pre sigil suf); [|done|apply Hr|unfold inert; lia]. cbn beta iota zeta.
  destruct (ready_clean _ _ _ Hr) as (-> & -> & ->). rewrite (char_here _ _ _ E). assert (char_at query (zlen pre + 1) = hd 0 suf) as -> by (rewrite E; apply char_at_next).
  rewrite (proj2 (Z.eqb_neq _ _) Hh), andb_false_r. destruct s. destruct Hr as [Hp _ Hk _ _]. cbn in Hp, Hk. subst. cbn [sc_skip_next_colon set_state andb orb].
  replace (zlen (pre ++ [sigil])) with (zlen pre + 1) by zlen_lia. by destruct Hs as [-> | ->].
Qed.

Lemma name_run start name : ∀ pre suf s, query = pre ++ name ++ suf → suf ≠ [] → forallb name_char name = true → sc_param_start s = Some start → clean_state (sc_state s) → sc_skip_next_colon s = false →
  leads (zlen pre) s (zlen (pre ++ name)) s.
Proof.
  induction name as [|c name IH]; intros pre suf s E Hne Hn Hp Hc Hk; [rewrite app_nil_r; by intros r|]. cbn [forallb] in Hn. apply andb_true_iff in Hn as [Hn1 Hn].
  destruct (name_inert c (hd 0 (name ++ suf)) Hn1) as (Hi & H58 & H64). assert (0 < zlen suf) by (destruct suf; [done|zlen_lia]).
  eapply leads_trans; [apply (leads_turn _ _ (zlen (pre ++ [c])) s); [rewrite E; zlen_lia| |zlen_lia]|].
  { unfold SqlParams.turn_at. rewrite (update_inert pre c (name ++ suf)) by done. cbn beta iota zeta. destruct Hc as (Hs & Hl & Hb). rewrite Hs, Hl, Hb, (char_here _ _ _ E), (proj2 (Z.eqb_neq c 58) H58), (proj2 (Z.eqb_neq c 64) H64).
    cbn [andb orb]. rewrite andb_false_r. unfold param_end_check. rewrite (char_here _ _ _ E). cbn [sc_param_start set_state set_skip]. rewrite Hp. unfold name_char in Hn1. apply negb_true_iff in Hn1. rewrite Hn1.
    rewrite (proj2 (Z.eqb_neq (zlen pre) (zlen query - 1))) by (rewrite E; zlen_lia). cbn [orb mbind option_bind sc_param_start set_state set_skip]. rewrite Hp.
    replace (zlen (pre ++ [c])) with (zlen pre + 1) by zlen_lia. destruct s. cbn in *. by subst. }
  replace (pre ++ c :: name) with ((pre ++ [c]) ++ name) by (by rewrite <- app_assoc). by apply (IH _ suf); [rewrite E, <- app_assoc|..].
Qed.

Definition sized (name : list Z) : Prop := 0 < zlen name < MAX_PARAM_NAME.

Lemma slice_name pre sigil name suf : query = pre ++ sigil :: name ++ suf → slice (zlen pre + 1) (zlen name) query = name.
Proof.
  intros ->. unfold slice. replace (pre ++ sigil :: name ++ suf) with ((pre ++ [sigil]) ++ name ++ suf) by (by rewrite <- app_assoc).
  rewrite drop_app_length' by (rewrite length_app; cbn; unfold zlen; lia). by rewrite take_app_length' by zlen_lia.
Qed.

(** The end of a parameter: at the byte behind its name, or at the last byte of a query that ends with it. *)
Lemma param_end pre sigil name suf next s i b : query = pre ++ sigil :: name ++ suf → ready pre next s → sized name →
  (is_spec_symbol (char_at query i) = true ∧ i = zlen pre + 1 + zlen name) ∨ (is_spec_symbol (char_at query i) = false ∧ i = zlen query - 1 ∧ i = zlen pre + zlen name) →
  param_end_check processor query params i (set_skip (reading pre s) b) = '(text, u) ← replace_param processor sigil name params (sc_user s); Some (flush i (set_skip (replaced pre name text u s) b)).
Proof.
  intros E Hr [H0 H1] Hi. unfold param_end_check. cbn [sc_param_start set_skip reading start_param]. rewrite (char_here _ _ _ E).
  assert ((if (i =? zlen query - 1) && negb (is_spec_symbol (char_at query i)) then i + 1 else i) = zlen pre + 1 + zlen name ∧ is_spec_symbol (char_at query i) || (i =? zlen query - 1) = true) as [-> ->].
  { destruct Hi as [(-> & ->)|(-> & E1 & E2)]; [by rewrite andb_false_r|]. rewrite (proj2 (Z.eqb_eq _ _) E1). cbn. split; [lia|done]. }
  cbn zeta. replace (zlen pre + 1 + zlen name - zlen pre - 1) with (zlen name) by lia. rewrite (proj2 (Z.ltb_lt _ _) H0), (proj2 (Z.ltb_lt _ _) H1). cbn [andb]. rewrite (slice_name _ _ _ _ E).
  cbn [sc_user set_skip reading start_param]. destruct (replace_param processor sigil name params (sc_user s)) as [[text u]|]; [|done]. cbn. unfold flush, replaced, pending. cbn. rewrite !app_assoc. by case_if.
Qed.

(** Behind the parameter, at a byte that ends it: the replacement is as good as done. *)
Definition as_replaced (pre : list Z) (sigil : Z) (name : list Z) (s : scan) : Prop :=
  let i := zlen (pre ++ sigil :: name) in
  match replace_param processor sigil name params (sc_user s) with
  | Some (text, u) => leads i (reading pre s) i (replaced pre name text u s)
  | None => loops i (reading pre s) None
  end.

Lemma param_end_behind pre sigil name c suf next s b : query = (pre ++ sigil :: name) ++ c :: suf → ready pre next s → sized name → is_spec_symbol c = true →
  param_end_check processor query params (zlen (pre ++ sigil :: name)) (set_skip (reading pre s) b) =
  '(text, u) ← replace_param processor sigil name params (sc_user s); Some (flush (zlen (pre ++ sigil :: name)) (set_skip (replaced pre name text u s) b)).
Proof.
  intros E Hr Hz Hs. apply (param_end pre sigil name (c :: suf) next); [by rewrite E, <- app_assoc|done|done|left]. rewrite (char_here _ _ _ E). split; [done|zlen_lia].
Qed.

Lemma replaced_before_byte pre sigil name c ps next s : query = (pre ++ sigil :: name) ++ c :: render ps → ready pre next s → sized name → is_spec_symbol c = true → piece_ok (Byte c) ps = true →
  as_replaced pre sigil name s.
Proof.
  intros E Hr Hz Hspec Hok. unfold as_replaced. pose proof (param_end_behind pre sigil name c (render ps) next s false E Hr Hz Hspec) as Hend. set (pre' := pre ++ sigil :: name) in *.
  assert (zlen pre' < zlen query) as Hlt by (rewrite E; zlen_lia). destruct (ready_clean _ _ _ Hr) as (Hs & Hl & Hb). destruct Hr as [_ Hc Hk _ _]. cbn in Hok. reflect_bools.
  assert (∀ s', sc_state s' = sc_state s → sc_skip_next_colon s' = false → turn_at query params (zlen pre') s' = s'' ← param_end_check processor query params (zlen pre') s'; Some (zlen pre' + 1, s'')) as Ht.
  { intros s' E1 E2. unfold SqlParams.turn_at. rewrite E1, (update_inert pre' c (render ps)) by (done || unfold inert, next_byte in *; lia). cbn beta iota zeta. rewrite Hs, Hl, Hb, (char_here _ _ _ E).
    rewrite (proj2 (Z.eqb_neq c 58)), (proj2 (Z.eqb_neq c 64)) by lia. cbn [andb orb]. rewrite andb_false_r. by replace (set_skip (set_state s' (sc_state s)) false) with s' by (destruct s'; cbn in *; by subst). }
  replace (set_skip (reading pre s) false) with (reading pre s) in Hend by (destruct s; cbn in *; by subst).
  destruct (replace_param processor sigil name params (sc_user s)) as [[text u]|]; cbn [mbind option_bind] in Hend.
  - intros r Hloop. apply (loops_turn _ _ (zlen pre' + 1) (flush (zlen pre') (replaced pre name text u s))); [done|by rewrite Ht, Hend|lia|].
    apply (loops_behind (zlen pre') (replaced pre name text u s)); [done|by rewrite Ht, param_end_idle|done].
  - apply loops_refused; [done|]. by rewrite Ht, Hend.
Qed.

Lemma replaced_before_cast pre sigil name ps next s : query = (pre ++ sigil :: name) ++ [58; 58] ++ render ps → ready pre next s → sized name → hd 0 (render ps) ≠ 58 →
  as_replaced pre sigil name s.
Proof.
  intros E Hr Hz Hn. unfold as_replaced. pose proof (param_end_behind pre sigil name 58 (58 :: render ps) next s true E Hr Hz eq_refl) as Hend. set (pre' := pre ++ sigil :: name) in *.
  assert (zlen pre' < zlen query) as Hlt by (rewrite E; zlen_lia). destruct (ready_clean _ _ _ Hr) as (Hs & Hl & Hb). destruct Hr as [_ Hc Hk _ _].
  assert (turn_at query params (zlen pre') (reading pre s) = s'' ← param_end_check processor query params (zlen pre') (set_skip (reading pre s) true); Some (zlen pre' + 1, s'')) as Ht.
  { unfold SqlParams.turn_at. cbn [sc_state reading start_param]. rewrite (update_inert pre' 58 (58 :: render ps)); [|done|done|unfold inert; cbn; lia]. cbn beta iota zeta. rewrite Hs, Hl, Hb.
    rewrite (char_here _ _ _ E). assert (char_at query (zlen pre' + 1) = 58) as -> by (rewrite E; apply (char_at_next pre' (58 :: render ps))).
    rewrite (proj2 (Z.ltb_lt (zlen pre' + 1) (zlen query))) by (rewrite E; zlen_lia). cbn [Z.eqb Pos.eqb andb orb sc_param_start set_state reading start_param]. by destruct s. }
  destruct (replace_param processor sigil name params (sc_user s)) as [[text u]|]; cbn [mbind option_bind] in Hend; [|apply loops_refused; [done|]; by rewrite Ht, Hend].
  intros r Hloop. apply (loops_turn _ _ (zlen pre' + 1) (flush (zlen pre') (set_skip (replaced pre name text u s) true))); [done|by rewrite Ht, Hend|lia|].
  apply (loops_behind (zlen pre') _ (zlen (pre' ++ [58; 58])) (replaced pre name text u s)) in Hloop; [|done|by apply (turn_cast pre' ps)].
  unfold flush. rewrite (proj2 (Z.eqb_neq (zlen pre') (zlen query - 1))) by (rewrite E; zlen_lia).
  replace (zlen pre' + 1) with (zlen (pre' ++ [58])) by zlen_lia.
  assert (query = (pre' ++ [58]) ++ 58 :: render ps) as E2 by (rewrite E; by rewrite <- app_assoc).
  apply (loops_turn _ _ (zlen (pre' ++ [58; 58])) (replaced pre name text u s)); [rewrite E2; zlen_lia| |zlen_lia|done].
  unfold SqlParams.turn_at. cbn [sc_state set_skip replaced]. rewrite (update_inert (pre' ++ [58]) 58 (render ps)); [|done|done|unfold inert; lia]. cbn beta iota zeta. rewrite Hs, Hl, Hb, (char_here _ _ _ E2).
  assert (char_at query (zlen (pre' ++ [58]) + 1) = hd 0 (render ps)) as -> by (rewrite E2; apply char_at_next). rewrite (proj2 (Z.eqb_neq _ _) Hn), andb_false_r. cbn -[zlen].
  by replace (zlen (pre' ++ [58]) + 1) with (zlen (pre' ++ [58; 58])) by zlen_lia.
Qed.

(** A parameter that ends the query: its last byte is the last byte of its name. *)
Lemma replaced_at_end pre sigil name d next s : query = pre ++ sigil :: name ++ [d] → ready pre next s → forallb name_char (name ++ [d]) = true → sized (name ++ [d]) →
  let i := zlen (pre ++ sigil :: name) in
  match replace_param processor sigil (name ++ [d]) params (sc_user s) with
  | Some (text, u) => ∃ s1, leads i (reading pre s) (i + 1) s1 ∧ sc_result s1 = pending (zlen pre) s ++ text ∧ sc_user s1 = u
  | None => loops i (reading pre s) None
  end.
Proof.
  intros E Hr Hn Hz i. rewrite forallb_app in Hn. apply andb_true_iff in Hn as [_ [Hd _]%andb_true_iff].
  assert (query = (pre ++ sigil :: name) ++ d :: []) as E' by (by rewrite E, <- app_assoc). destruct (name_inert d 0 Hd) as (Hi & H58 & H64).
  pose proof (param_end pre sigil (name ++ [d]) [] next s i false) as Hend. rewrite app_nil_r in Hend. specialize (Hend E Hr Hz).
  assert (char_at query i = d) as Hch by apply (char_here _ _ _ E'). rewrite Hch in Hend. unfold name_char in Hd. apply negb_true_iff in Hd. specialize (Hend ltac:(right; subst i; rewrite E'; split; [done|zlen_lia])).
  assert (i < zlen query) as Hlt by (subst i; rewrite E'; zlen_lia). destruct (ready_clean _ _ _ Hr) as (Hs & Hl & Hb). destruct Hr as [_ Hc Hk _ _].
  assert (turn_at query params i (reading pre s) = s'' ← param_end_check processor query params i (set_skip (reading pre s) false); Some (i + 1, s'')) as Ht.
  { unfold SqlParams.turn_at, i. cbn [sc_state reading start_param]. rewrite (update_inert _ d [] _ E') by done. cbn beta iota zeta. rewrite Hs, Hl, Hb, (char_here _ _ _ E').
    rewrite (proj2 (Z.eqb_neq d 58) H58), (proj2 (Z.eqb_neq d 64) H64). cbn [andb orb]. rewrite andb_false_r. by destruct s. }
  destruct (replace_param processor sigil (name ++ [d]) params (sc_user s)) as [[text u]|]; cbn [mbind option_bind] in Hend; [|apply loops_refused; [done|]; by rewrite Ht, Hend].
  eexists. split; [apply leads_turn; [done|by rewrite Ht, Hend|lia]|]. unfold flush. rewrite (proj2 (Z.eqb_eq i (zlen query - 1))) by (subst i; rewrite E'; zlen_lia). cbn -[zlen]. split; [|done].
  unfold slice. replace (Z.to_nat (i + 1 - _)) with O by (subst i; zlen_lia). by rewrite app_nil_r.
Qed.

Lemma reached_replaced pre sigil name text u s p ps : query = pre ++ (sigil :: name) ++ render (p :: ps) → next_byte (p :: ps) ≠ 39 → next_byte (p :: ps) ≠ 34 → clean_state (sc_state s) →
  reached (pre ++ sigil :: name) (p :: ps) (replaced pre name text u s) (pending (zlen pre) s ++ text) u.
Proof.
  intros E H1 H2 Hc. split; [by rewrite <- app_assoc|]. split; [done|]. split; [constructor; cbn -[zlen]; [done|done|done|zlen_lia|tauto]|].
  unfold pending at 1. cbn -[zlen slice]. unfold slice. replace (Z.to_nat (zlen (pre ++ sigil :: name) - _)) with O by zlen_lia. by rewrite app_nil_r.
Qed.

Definition piece_value (p : piece) (u : U) : option (list Z * U) :=
  match p with Param sigil name => replace_param processor sigil name params u | _ => Some (piece_text p, u) end.

Lemma piece_param pre sigil name ps s text u : reached pre (Param sigil name :: ps) s text u → query_ok (Param sigil name :: ps) = true →
  match replace_param processor sigil name params u with
  | Some (t, u') => ∃ s1, leads (zlen pre) s (zlen (pre ++ sigil :: name)) s1 ∧ reached (pre ++ sigil :: name) ps s1 (text ++ t) u'
  | None => loops (zlen pre) s None
  end.
Proof.
  intros Hr Hok. pose proof (reached_query _ _ _ _ _ _ Hr) as E. destruct Hr as (_ & <- & Hr & <-). cbn [query_ok piece_ok piece_text] in *. apply andb_true_iff in Hok as [[[[[Hs Hn]%andb_true_iff H0]%andb_true_iff H1]%andb_true_iff Hb]%andb_true_iff Hps].
  apply Z.ltb_lt in H0, H1. assert (sized name) as Hz by done. apply orb_true_iff in Hs. rewrite !Z.eqb_eq in Hs. pose proof (ready_clean _ _ _ Hr) as Hc.
  assert (leads (zlen pre) s (zlen (pre ++ [sigil])) (reading pre s)) as Hstart.
  { apply leads_turn; [rewrite E; zlen_lia| |zlen_lia]. eapply (turn_sigil pre sigil (name ++ render ps)); [by rewrite E, <- app_assoc|done| |done].
    destruct name as [|c name]; [unfold zlen in H0; cbn in H0; lia|]. cbn. cbn in Hn. apply andb_true_iff in Hn as [Hc1 _]. by apply (name_inert c 0) in Hc1 as (_ & ? & _). }
  destruct ps as [|p ps].
  - destruct name as [|d name _] using rev_ind; [unfold zlen in H0; cbn in H0; lia|]. unfold render in E. cbn [map concat] in E. rewrite app_nil_r in E.
    pose proof (replaced_at_end pre sigil name d _ s E Hr Hn Hz) as Hend. cbn zeta in Hend. rewrite forallb_app in Hn. apply andb_true_iff in Hn as [Hn _].
    assert (leads (zlen pre) s (zlen (pre ++ sigil :: name)) (reading pre s)) as Hrun.
    { eapply leads_trans; [exact Hstart|]. replace (pre ++ sigil :: name) with ((pre ++ [sigil]) ++ name) by (by rewrite <- app_assoc). apply (name_run (zlen pre) name _ [d]); [by rewrite E, <- app_assoc|done|done|done|done|apply Hr]. }
    destruct (replace_param processor sigil (name ++ [d]) params (sc_user s)) as [[t u']|]; [|by apply Hrun]. destruct Hend as (s1 & Hl & Ht & Hu). exists s1.
    split; [eapply leads_trans; [exact Hrun|]; by replace (zlen (pre ++ sigil :: name ++ [d])) with (zlen (pre ++ sigil :: name) + 1) by zlen_lia|]. split; [rewrite E; unfold render; cbn [map concat]; by rewrite app_nil_r|done].
  - assert (as_replaced pre sigil name s) as Has.
    { cbn [query_ok] in Hps. apply andb_true_iff in Hps as [Hp _]. destruct p as [c| | | | |]; try done.
      - apply (replaced_before_byte pre sigil name c ps (next_byte (Param sigil name :: Byte c :: ps)) s); [rewrite E; apply app_assoc|done..].
      - apply (replaced_before_cast pre sigil name ps (next_byte (Param sigil name :: Cast :: ps)) s); [rewrite E; apply app_assoc|done|done|]. cbn [piece_ok] in Hp. apply andb_true_iff in Hp as [Hp _]. by apply negb_true_iff, Z.eqb_neq in Hp. }
    assert (leads (zlen pre) s (zlen (pre ++ sigil :: name)) (reading pre s)) as Hrun.
    { eapply leads_trans; [exact Hstart|]. replace (pre ++ sigil :: name) with ((pre ++ [sigil]) ++ name) by (by rewrite <- app_assoc). apply (name_run (zlen pre) name _ (render (p :: ps))); [by rewrite E, <- !app_assoc| |done|done|done|apply Hr].
      pose proof (render_nonempty p ps) as Hne. destruct (render (p :: ps)); [by cbn in Hne|done]. }
    unfold as_replaced in Has. destruct (replace_param processor sigil name params (sc_user s)) as [[t u']|]; [|by apply Hrun].
    eexists. split; [eapply leads_trans; [exact Hrun|exact Has]|]. apply reached_replaced; [done|..|done].
    + cbn [query_ok] in Hps. apply andb_true_iff in Hps as [Hp _]. destruct p as [c| | | | |]; try done. cbn in Hp |- *. reflect_bools. lia.
    + cbn [query_ok] in Hps. apply andb_true_iff in Hps as [Hp _]. destruct p as [c| | | | |]; try done. cbn in Hp |- *. reflect_bools. lia.
Qed.

Lemma piece_step pre p ps s text u : reached pre (p :: ps) s text u → query_ok (p :: ps) = true →
  match piece_value p u with
  | Some (t, u') => ∃ s1, leads (zlen pre) s (zlen (pre ++ piece_text p)) s1 ∧ reached (pre ++ piece_text p) ps s1 (text ++ t) u'
  | None => loops (zlen pre) s None
  end.
Proof.
  intros Hr Hok. destruct p; [..|by apply (piece_param pre sigil name ps s text u)]; cbn [query_ok] in Hok; apply andb_true_iff in Hok as [Hok _]; cbn [piece_value].
  - by apply piece_byte.
  - by apply piece_literal.
  - by apply piece_line.
  - by apply piece_block.
  - by apply piece_cast.
Qed.

Lemma pieces_expanded ps : ∀ pre s text u, reached pre ps s text u → query_ok ps = true →
  match expand ps u with
  | Some (t, u') => ∃ s1, loops (zlen pre) s (Some s1) ∧ sc_result s1 = text ++ t ∧ sc_user s1 = u'
  | None => loops (zlen pre) s None
  end.
Proof.
  induction ps as [|p ps IH]; intros pre s text u Hr Hok.
  - destruct Hr as (E & Hu & Ht). cbn. exists s. rewrite app_nil_r. split; [|done]. apply loops_end. rewrite E. unfold render. cbn. zlen_lia.
  - pose proof (piece_step pre p ps s text u Hr Hok) as Hp. cbn [query_ok] in Hok. apply andb_true_iff in Hok as [_ Hok]. cbn [expand]. fold (piece_value p u).
    destruct (piece_value p u) as [[t u1]|]; [|done]. destruct Hp as (s1 & Hl & Hr1). cbn [mbind option_bind]. specialize (IH _ _ _ _ Hr1 Hok).
    destruct (expand ps u1) as [[t2 u2]|]; cbn [mbind option_bind]; [|by apply Hl]. destruct IH as (s2 & H1 & H2 & H3). exists s2. rewrite app_assoc. auto.
Qed.
End Query.

(** The loop of the source reads every such query as the reference does. *)
Lemma parse_expands ps u : query_ok ps = true → parse_sql_parameters processor (render ps) params u = Some (expand ps u).
Proof.
  intros Hok. pose proof (pieces_expanded (render ps) ps [] (Scan None [] 0 0 (SqlParseState false 0 false false) false u) [] u) as H. unfold parse_sql_parameters.
  assert (reached (render ps) [] ps (Scan None [] 0 0 (SqlParseState false 0 false false) false u) [] u) as Hr.
  { split; [done|]. split; [done|]. destruct ps; [done|]. split; [constructor; cbn; [done|done|done|unfold zlen; cbn; lia|auto]|done]. }
  specialize (H Hr Hok). destruct (expand ps u) as [[t u']|].
  - destruct H as (s1 & Hl & Ht & Hu). rewrite Hl by (unfold zlen; cbn; lia). by rewrite Ht, Hu.
  - by rewrite H by (unfold zlen; cbn; lia).
Qed.

(** For any query the loop ends within a turn per byte. *)
Lemma parse_total query u : parse_sql_parameters processor query params u ≠ None.
Proof. unfold parse_sql_parameters. intros E. repeat case_match; simplify_eq. by apply scan_total in H; [|unfold zlen; lia..]. Qed.

End Reference.
