(* ===== verification/SqlBinding.v ===== *)
(** Queries with parameters: the values do not reach the SQL text.

    Two runs on parameters that differ in their values only are in lockstep, whatever the query is: the text is the same and the values are bound in the same order. *)

From S2P Require Import Prelude Helpers QueryParser WriteFilter HttpResponse SqlBase SqlDialects SqlParams SqlQuery.

(** ** Two runs *)

Lemma rel_bind {A B C D} (R : A → B → Prop) (S : C → D → Prop) o1 o2 f g :
  option_Forall2 R o1 o2 → (∀ a b, R a b → option_Forall2 S (f a) (g b)) → option_Forall2 S (o1 ≫= f) (o2 ≫= g).
Proof. intros [a b Hab|] Hfg; [by apply Hfg|constructor]. Qed.

Section Lockstep.
Context {V U : Type}.
Variable processor : Z → list Z → mfield V → U → option (list Z * U).
Variable RF : mfield V → mfield V → Prop.
Variable RU : U → U → Prop.

Definition RT (a b : list Z * U) : Prop := a.1 = b.1 ∧ RU a.2 b.2.

Hypothesis processor_alike : ∀ type name f g u v, type ≠ 64 → RF f g → RU u v → option_Forall2 RT (processor type name f u) (processor type name g v).

(** Elements of a list that are bound alike. *)
Definition items_alike (name : list Z) : list (array_item V) → list (array_item V) → Prop := Forall2 (λ x y, option_Forall2 RF (sql_array_element_field name x) (sql_array_element_field name y)).

Record alike (f g : mfield V) : Prop := {
  alike_name : mf_name f = mf_name g;
  alike_type : mf_type f = mf_type g;
  alike_field : RF f g;
  alike_value : match mf_value f, mf_value g with Items l, Items k => items_alike (mf_name f) l k | Scalar _, Scalar _ => True | _, _ => False end }.

Definition params_alike : list (option (mfield V)) → list (option (mfield V)) → Prop := Forall2 (option_Forall2 alike).

Lemma expand_list_alike type name l k : type ≠ 64 → items_alike name l k → ∀ first u v, RU u v → option_Forall2 RT (expand_list processor type name first l u) (expand_list processor type name first k v).
Proof.
  intros Ht. induction 1 as [|x y l k Hxy _ IH]; intros first u v Hu; [by constructor|]. cbn [expand_list].
  eapply rel_bind; [exact Hxy|]. intros f g Hfg. eapply rel_bind; [by apply processor_alike|]. intros [t u1] [t' v1] [Ht1 Hu1]. cbn in Ht1, Hu1. subst.
  eapply rel_bind; [by apply IH|]. intros [r u2] [r' v2] [Hr Hu2]. cbn in Hr, Hu2. subst. by constructor.
Qed.

Lemma find_alike name ps qs : params_alike ps qs →
  let test := λ f : option (mfield V), match f with Some f => bool_decide (name = mf_name f) | None => false end in
  option_Forall2 (λ o p, ∃ f g, o = Some f ∧ p = Some g ∧ name = mf_name f ∧ alike f g) (List.find test ps) (List.find test qs).
Proof.
  intros Hp test. induction Hp as [|o p ps qs Hop _ IH]; [constructor|]. cbn [List.find]. destruct Hop as [f g Hfg|]; [|exact IH].
  cbn. rewrite <- (alike_name _ _ Hfg). case_bool_decide; [|exact IH]. constructor. eauto 6.
Qed.

Lemma replace_param_alike type name ps qs u v : type ≠ 64 → params_alike ps qs → RU u v → option_Forall2 RT (replace_param processor type name ps u) (replace_param processor type name qs v).
Proof.
  intros Ht Hp Hu. unfold replace_param. set (n := if starts_with_substr name (bs "list__") then drop 6 name else name).
  destruct (find_alike n ps qs Hp) as [o p (f & g & -> & -> & Hn & Hfg)|]; [|constructor]. case_if; [|apply processor_alike; [done|apply Hfg|done]].
  rewrite <- (alike_type _ _ Hfg). pose proof (alike_value _ _ Hfg) as Hv. destruct (mf_type f); try constructor. destruct (mf_value f) as [|l], (mf_value g) as [|k]; try done; try constructor.
  destruct Hv as [|x y l k Hxy Hl]; [constructor|]. apply expand_list_alike; [done| |done]. rewrite Hn. by constructor.
Qed.

(** Two states of the loop that agree but for the data of the callback. *)
Definition RS (s t : scan (U := U)) : Prop := ∃ p r i j st k u v, s = Scan p r i j st k u ∧ t = Scan p r i j st k v ∧ RU u v.

Lemma RS_same p r i j st k u v : RU u v → RS (Scan p r i j st k u) (Scan p r i j st k v).
Proof. intros H. repeat eexists. exact H. Qed.

Section Query.
Variable query : list Z.
Variables ps qs : list (option (mfield V)).
Hypothesis Hquery : 64 ∉ query.
Hypothesis Hparams : params_alike ps qs.

Lemma no_sigil i : char_at query i ≠ 64.
Proof. unfold char_at. destruct (nth_in_or_default (Z.to_nat i) query 0) as [Hin| ->]; [|done]. intros E. rewrite E in Hin. by apply Hquery, list_elem_of_In. Qed.

Lemma param_end_alike i s t : RS s t → option_Forall2 RS (param_end_check processor query ps i s) (param_end_check processor query qs i t).
Proof.
  intros (p & r & a & b & st & k & u & v & -> & -> & Hu). unfold param_end_check. cbn [sc_param_start sc_result sc_position sc_offset sc_state sc_skip_next_colon sc_user].
  eapply (rel_bind RS).
  - destruct p as [start|]; [|constructor; by apply RS_same]. case_if; [|constructor; by apply RS_same].
    destruct ((0 <? _) && (_ <? MAX_PARAM_NAME)); [|constructor; by apply RS_same].
    eapply rel_bind; [apply replace_param_alike; [apply no_sigil|exact Hparams|exact Hu]|]. intros [x u1] [y v1] [Hx Hu1]. cbn in Hx, Hu1. subst. constructor. by apply RS_same.
  - intros s t (p1 & r1 & a1 & b1 & st1 & k1 & u1 & v1 & -> & -> & Hu1). cbn. destruct p1; constructor; [by apply RS_same|]. case_if; by apply RS_same.
Qed.

Lemma turn_alike i s t : RS s t → option_Forall2 (λ x y, x.1 = y.1 ∧ RS x.2 y.2) (turn_at processor query ps i s) (turn_at processor query qs i t).
Proof.
  intros (p & r & a & b & st & k & u & v & -> & -> & Hu). unfold turn_at. cbn [sc_state]. destruct (update_sql_parse_state query i st) as [[again i1] st1].
  unfold set_state, set_skip, start_param. cbn [sc_param_start sc_result sc_position sc_offset sc_state sc_skip_next_colon sc_user].
  assert (∀ i k, option_Forall2 (λ x y : Z * scan, x.1 = y.1 ∧ RS x.2 y.2) (s ← param_end_check processor query ps i (Scan p r a b st1 k u); Some (i + 1, s)) (s ← param_end_check processor query qs i (Scan p r a b st1 k v); Some (i + 1, s))) as Hend.
  { intros j k'. eapply rel_bind; [by apply param_end_alike, RS_same|]. intros s t Hst. by constructor. }
  repeat first [case_if | destruct p]; try apply Hend; constructor; split; try done; by apply RS_same.
Qed.

Lemma scan_alike fuel : ∀ i s t, RS s t → option_Forall2 (option_Forall2 RS) (scan_loop processor query ps fuel i s) (scan_loop processor query qs fuel i t).
Proof.
  induction fuel as [|f IH]; intros i s t Hst; [constructor|]. cbn [scan_loop]. case_if; [|by do 2 constructor].
  destruct (turn_alike i s t Hst) as [[j s'] [j' t'] [Hj Hs]|]; [|by do 2 constructor]. cbn in Hj, Hs. subst. by apply IH.
Qed.

Lemma parse_alike u v : RU u v → option_Forall2 (option_Forall2 RT) (parse_sql_parameters processor query ps u) (parse_sql_parameters processor query qs v).
Proof.
  intros Hu. unfold parse_sql_parameters. destruct (scan_alike (S (length query)) 0 _ _ (RS_same None [] 0 0 (SqlParseState false 0 false false) false _ _ Hu)) as [o o' Ho|]; [|constructor].
  destruct Ho as [s t (p & r & a & b & st & k & u1 & v1 & -> & -> & Hu1)|]; do 2 constructor; by split.
Qed.
End Query.
End Lockstep.

(** ** The values of [dbquery] *)

Section Build.
Context `{Dialect} {V : Type}.
Variable to_str : mtype → mvalue V → option (list Z).
Variable type_cast : mtype → list Z.

(** Fields that differ in their value only; a fragment of raw SQL is part of the query, so it is the same. *)
Record value_alike (f g : mfield V) : Prop := {
  va_name : mf_name f = mf_name g;
  va_type : mf_type f = mf_type g;
  va_null : mf_is_null f = mf_is_null g;
  va_raw : mf_use_raw_sql f = mf_use_raw_sql g;
  va_raw_value : mf_use_raw_sql f = true → mf_value f = mf_value g;
  va_printed : is_Some (to_str (mf_type f) (mf_value f)) ↔ is_Some (to_str (mf_type g) (mf_value g)) }.

Definition binds_alike (u v : immediate_bind (V := V)) : Prop := u.1 = v.1 ∧ Forall2 value_alike u.2 v.2.

Lemma build_processor_alike type name f g u v : type ≠ 64 → value_alike f g → binds_alike u v →
  option_Forall2 (RT binds_alike) (build_query_processor to_str type_cast type name f u) (build_query_processor to_str type_cast type name g v).
Proof.
  intros Ht Hfg [Hu1 Hu2]. unfold build_query_processor, model_field_to_string. rewrite (proj2 (Z.eqb_neq type 64) Ht), <- (va_null _ _ Hfg). case_if; [constructor|]. case_if; [by constructor|].
  pose proof (va_raw_value _ _ Hfg) as Hv. pose proof (va_printed _ _ Hfg) as [H1 H2]. rewrite <- (va_raw _ _ Hfg), <- (va_type _ _ Hfg) in *.
  destruct (to_str (mf_type f) (mf_value f)) as [x|] eqn:Ex, (to_str (mf_type f) (mf_value g)) as [y|] eqn:Ey; cbn [mbind option_bind];
    [|by destruct (H1 (mk_is_Some _ _ eq_refl))|by destruct (H2 (mk_is_Some _ _ eq_refl))|constructor].
  destruct (mf_use_raw_sql f).
  - rewrite (Hv eq_refl) in Ex. simplify_eq. by constructor.
  - constructor. split; cbn; [by rewrite Hu1|]. split; cbn; [by rewrite Hu1|]. apply Forall2_app; [done|]. constructor; [exact Hfg|constructor].
Qed.

(** What [dbquery] hands to the driver, as the reference has it. *)
Definition bound_query (ps : list piece) (params : list (option (mfield V))) : option (list Z * list (mfield V)) :=
  '(text, (_, bind)) ← expand (build_query_processor to_str type_cast) params ps (0, []);
  Some (text, bind).
End Build.

(** ** Properties *)

(** C16: [dbquery] reads a query of SQL bytes, string literals, comments, casts and parameters as its grammar says: it ends; the parameters outside literals and comments are replaced from left to right, a value
    by its numbered placeholder with its type cast and an identifier by its quoted form, everything else is copied; it refuses exactly when a parameter is missing or cannot be written. *)
Theorem dbquery_expands_template `{Dialect} {V} (to_str : mtype → mvalue V → option (list Z)) type_cast ps params :
  query_ok ps = true →
  build_query to_str type_cast (render ps) params = Some (bound_query to_str type_cast ps params).
Proof.
  intros Hok. unfold build_query, bound_query. rewrite (parse_expands _ _ _ _ Hok).
  by destruct (expand (build_query_processor to_str type_cast) params ps (0, [])) as [[t [i b]]|].
Qed.

(** The SQL of [SELECT 'a:b' FROM @t WHERE id=:id::int /* :x */ AND n IN (:list__n)] with a table, a number and a list of two. *)
Definition sample_pieces : list piece :=
  map Byte (bs "SELECT ") ++ [Literal 39 (bs "a:b")] ++ map Byte (bs " FROM ") ++ [Param 64 (bs "t")] ++ map Byte (bs " WHERE id=") ++ [Param 58 (bs "id"); Cast] ++ map Byte (bs "int ")
  ++ [BlockComment (bs " :x ")] ++ map Byte (bs " AND n IN (") ++ [Param 58 (bs "list__n"); Byte 41].
Definition sample_to_str (t : mtype) (v : mvalue (list Z)) : option (list Z) := match v with Scalar s => Some s | Items _ => None end.
Definition sample_params (id a b : list Z) : list (option (mfield (list Z))) :=
  [Some (MField (bs "t") MODEL_TEXT (Scalar (bs "us")) false false); Some (MField (bs "id") MODEL_TEXT (Scalar id) false false); None;
   Some (MField (bs "n") MODEL_ARRAY (Items [StringItem (Some a); StringItem (Some b)]) false false)].

Lemma dbquery_expands_template_witness :
  build_query (H0 := sqlite) sample_to_str (λ _, []) (render sample_pieces) (sample_params (bs "7") (bs "x") (bs "y"))
  = Some (Some ([83;69;76;69;67;84;32;39;97;58;98;39;32;70;82;79;77;32;34;117;115;34] ++ bs " WHERE id=$1::int /* :x */ AND n IN ($2,$3)",
      [MField (bs "id") MODEL_TEXT (Scalar (bs "7")) false false; MField (bs "n") MODEL_TEXT (Scalar (bs "x")) false false; MField (bs "n") MODEL_TEXT (Scalar (bs "y")) false false])).
Proof.
  etransitivity; [apply (dbquery_expands_template (H0 := sqlite) sample_to_str (λ _, []) sample_pieces); by vm_compute|by vm_compute].
Defined.

(** A query that ends in a comment loses what follows its last parameter: here everything. *)
Lemma trailing_comment_lost : build_query (H0 := sqlite) sample_to_str (λ _, []) (bs "SELECT 1 -- all") [] = Some (Some ([], [])).
Proof. by vm_compute. Qed.

(** C15: no value reaches the text of a query: for every query without a dynamic identifier, well formed or not, two sets of parameters that differ in their values only are
    both refused, or give the same SQL text, and the values are bound in the same order. *)
Theorem dbquery_values_confined `{Dialect} {V} (to_str : mtype → mvalue V → option (list Z)) type_cast query params params' :
  64 ∉ query → params_alike (value_alike to_str) params params' →
  ∃ r r', build_query to_str type_cast query params = Some r ∧ build_query to_str type_cast query params' = Some r' ∧
    option_Forall2 (λ a b, a.1 = b.1 ∧ Forall2 (value_alike to_str) a.2 b.2) r r'.
Proof.
  intros Hq Hp. unfold build_query. pose proof (parse_total (build_query_processor to_str type_cast) params query (0, [])) as Ht.
  destruct (parse_alike _ _ (binds_alike to_str) (build_processor_alike to_str type_cast) query params params' Hq Hp (0, []) (0, [])) as [o o' Ho|]; [done| |done].
  destruct Ho as [[t [i b]] [t' [i' b']] [Ht' [_ Hb]]|]; eexists _, _; (split; [done|]); (split; [done|]); constructor. by split.
Qed.

Lemma dbquery_values_confined_witness :
  ∃ r r', build_query (H0 := sqlite) sample_to_str (λ _, []) (bs "UPDATE t SET a=:id, b='-- :id' WHERE c IN (:list__n)") (sample_params (bs "1") (bs "x") (bs "y")) = Some r
    ∧ build_query (H0 := sqlite) sample_to_str (λ _, []) (bs "UPDATE t SET a=:id, b='-- :id' WHERE c IN (:list__n)") (sample_params (bs "1;DROP TABLE t") (bs ")--") (bs "'")) = Some r'
    ∧ option_Forall2 (λ a b, a.1 = b.1 ∧ Forall2 (value_alike sample_to_str) a.2 b.2) r r'.
Proof.
  apply (dbquery_values_confined (H0 := sqlite) sample_to_str (λ _, []) (bs "UPDATE t SET a=:id, b='-- :id' WHERE c IN (:list__n)")); [by apply (bool_decide_unpack _); vm_compute|].
  assert (∀ n x y, value_alike sample_to_str (MField n MODEL_TEXT (Scalar x) false false) (MField n MODEL_TEXT (Scalar y) false false)) as Hv by (intros; constructor; cbn; try done; split; by eexists).
  constructor; [constructor; constructor; [done|done|apply Hv|done]|].
  constructor; [constructor; constructor; [done|done|apply Hv|done]|].
  constructor; [constructor|]. constructor; [|constructor]. constructor. constructor; [done|done| |].
  - constructor; cbn; try done; split; intros [? ?]; done.
  - cbn. repeat (constructor; [constructor; apply Hv|]). constructor.
Defined.
