(* ===== verification/Scheduler.v ===== *)
(** The life of a connection between the threads of the server: the event loop ([multiplexingepoll.c] and the [guard_read]/[guard_write]
    functions of the protocols), the handler threads ([threadhandler.c], [connection_queue.c]) and the threads that broadcast ([broadcast.c]), with the
    reference count, the lock, the queues and the epoll registration of [connection_s.c].

    One connection, one event loop, any number of handlers and senders. A step is one access to shared memory: an atomic operation, or what is done under a lock no
    other thread can observe. Threads of a kind are alike, so they are counted by the place they are at. What a peer sends, what the socket takes and how a handler replies are
    choices. Memory is there; [epoll_ctl] fails only for a descriptor that has been removed. The [shutdown] of a hard reload is a hang-up. *)

From S2P Require Import Prelude.

(** ** The model *)

(** [MPXIN | MPXRDHUP], [MPXOUT | MPXRDHUP], [MPXONESHOT], [MPXOUT | MPXIN | MPXHUP], and removed. *)
Inductive interest : Set := RIn | ROut | ROff | RAll | RDel.
Inductive event : Set := EvIn | EvOut | EvHup.

(** What is written to the peer: the reply to a request, or a broadcast message. *)
Inductive out : Set := Reply (r : nat) | Message (m : nat).

(** A handler thread that holds the lock. *)
Inductive handler_pc : Set := HCheck | HPop | HRun (r : nat) | HBatch (ms : list nat) | HMod | HDec | HUnlock.
Inductive holder : Set := Free | ByLoop | ByHandler (h : handler_pc).

(** The event loop: waiting for an event; reading; appending a request; writing; [connection_after_write]; [connection_close]. *)
Inductive loop_pc : Set :=
  | EIdle | EGot (ev : event)
  | EWantRead | ERead | ERet | ECas | EMod | ERInc | ERApp
  | EWantWrite | EWrite | EAwTest | EAwInc | EAwApp | EAwOff | EAwCas | EAwRecheck | EAwCas2 | EAwIn
  | EWantClose | EDel | EDestroy | EClear | ECloseDec | ECloseUnlock | EGone.

#[export] Instance interest_eq : EqDecision interest.
Proof. solve_decision. Defined.
#[export] Instance event_eq : EqDecision event.
Proof. solve_decision. Defined.
#[export] Instance out_eq : EqDecision out.
Proof. solve_decision. Defined.
#[export] Instance handler_pc_eq : EqDecision handler_pc.
Proof. solve_decision. Defined.
#[export] Instance holder_eq : EqDecision holder.
Proof. solve_decision. Defined.
#[export] Instance loop_pc_eq : EqDecision loop_pc.
Proof. solve_decision. Defined.

(** How many senders are in [__broadcast_queue_add] of this connection, at each place. *)
Record sends : Set := Sends { s_check : nat; s_append : nat; s_cas : nat; s_mod : nat; s_inc : nat; s_app : nat }.

#[export] Instance sends_eq : EqDecision sends.
Proof. solve_decision. Defined.

Definition no_sends : sends := Sends 0 0 0 0 0 0.

(** [c_entries] counts the entries of the connection in the global queue, [c_popped] the handlers that have taken one and wait for the lock; [c_listed] is whether the connection is subscribed.
    [c_sent], [c_asked], [c_told] and [c_lost] are the history: what has been written, the requests, the messages, and the responses that were overwritten before they were written. *)
Record conn : Set := Conn {
  c_queue : list nat;
  c_broadcast : list nat;
  c_entries : nat;
  c_brc : Z;
  c_destroyed : bool;
  c_ref : Z;
  c_freed : bool;
  c_reg : interest;
  c_response : option (list out);
  c_need_write : bool;
  c_listed : bool;
  c_holder : holder;
  c_loop : loop_pc;
  c_popped : nat;
  c_sends : sends;
  c_sent : list out;
  c_asked : list nat;
  c_told : list nat;
  c_lost : list out }.

Definition set_queue (c : conn) (v : list nat) : conn := Conn (v) (c_broadcast c) (c_entries c) (c_brc c) (c_destroyed c) (c_ref c) (c_freed c) (c_reg c) (c_response c) (c_need_write c) (c_listed c) (c_holder c) (c_loop c) (c_popped c) (c_sends c) (c_sent c) (c_asked c) (c_told c) (c_lost c).
Definition set_broadcast (c : conn) (v : list nat) : conn := Conn (c_queue c) (v) (c_entries c) (c_brc c) (c_destroyed c) (c_ref c) (c_freed c) (c_reg c) (c_response c) (c_need_write c) (c_listed c) (c_holder c) (c_loop c) (c_popped c) (c_sends c) (c_sent c) (c_asked c) (c_told c) (c_lost c).
Definition set_entries (c : conn) (v : nat) : conn := Conn (c_queue c) (c_broadcast c) (v) (c_brc c) (c_destroyed c) (c_ref c) (c_freed c) (c_reg c) (c_response c) (c_need_write c) (c_listed c) (c_holder c) (c_loop c) (c_popped c) (c_sends c) (c_sent c) (c_asked c) (c_told c) (c_lost c).
Definition set_brc (c : conn) (v : Z) : conn := Conn (c_queue c) (c_broadcast c) (c_entries c) (v) (c_destroyed c) (c_ref c) (c_freed c) (c_reg c) (c_response c) (c_need_write c) (c_listed c) (c_holder c) (c_loop c) (c_popped c) (c_sends c) (c_sent c) (c_asked c) (c_told c) (c_lost c).
Definition set_destroyed (c : conn) : conn := Conn (c_queue c) (c_broadcast c) (c_entries c) (c_brc c) (true) (c_ref c) (c_freed c) (c_reg c) (c_response c) (c_need_write c) (c_listed c) (c_holder c) (c_loop c) (c_popped c) (c_sends c) (c_sent c) (c_asked c) (c_told c) (c_lost c).
Definition set_ref (c : conn) (v : Z) : conn := Conn (c_queue c) (c_broadcast c) (c_entries c) (c_brc c) (c_destroyed c) (v) (c_freed c) (c_reg c) (c_response c) (c_need_write c) (c_listed c) (c_holder c) (c_loop c) (c_popped c) (c_sends c) (c_sent c) (c_asked c) (c_told c) (c_lost c).
Definition set_freed (c : conn) : conn := Conn (c_queue c) (c_broadcast c) (c_entries c) (c_brc c) (c_destroyed c) (c_ref c) (true) (c_reg c) (c_response c) (c_need_write c) (c_listed c) (Free) (c_loop c) (c_popped c) (c_sends c) (c_sent c) (c_asked c) (c_told c) (c_lost c).
Definition control_mod (c : conn) (v : interest) : conn := Conn (c_queue c) (c_broadcast c) (c_entries c) (c_brc c) (c_destroyed c) (c_ref c) (c_freed c) (if bool_decide (c_reg c = RDel) then RDel else v) (c_response c) (c_need_write c) (c_listed c) (c_holder c) (c_loop c) (c_popped c) (c_sends c) (c_sent c) (c_asked c) (c_told c) (c_lost c).
Definition control_del (c : conn) : conn := Conn (c_queue c) (c_broadcast c) (c_entries c) (c_brc c) (c_destroyed c) (c_ref c) (c_freed c) (RDel) (c_response c) (c_need_write c) (c_listed c) (c_holder c) (c_loop c) (c_popped c) (c_sends c) (c_sent c) (c_asked c) (c_told c) (c_lost c).
Definition stage (c : conn) (v : list out) : conn := Conn (c_queue c) (c_broadcast c) (c_entries c) (c_brc c) (c_destroyed c) (c_ref c) (c_freed c) (c_reg c) (Some v) (c_need_write c) (c_listed c) (c_holder c) (c_loop c) (c_popped c) (c_sends c) (c_sent c) (c_asked c) (c_told c) (c_lost c ++ default [] (c_response c)).
Definition set_need_write (c : conn) (v : bool) : conn := Conn (c_queue c) (c_broadcast c) (c_entries c) (c_brc c) (c_destroyed c) (c_ref c) (c_freed c) (c_reg c) (c_response c) (v) (c_listed c) (c_holder c) (c_loop c) (c_popped c) (c_sends c) (c_sent c) (c_asked c) (c_told c) (c_lost c).
Definition set_listed (c : conn) (v : bool) : conn := Conn (c_queue c) (c_broadcast c) (c_entries c) (c_brc c) (c_destroyed c) (c_ref c) (c_freed c) (c_reg c) (c_response c) (c_need_write c) (v) (c_holder c) (c_loop c) (c_popped c) (c_sends c) (c_sent c) (c_asked c) (c_told c) (c_lost c).
Definition set_holder (c : conn) (v : holder) : conn := Conn (c_queue c) (c_broadcast c) (c_entries c) (c_brc c) (c_destroyed c) (c_ref c) (c_freed c) (c_reg c) (c_response c) (c_need_write c) (c_listed c) (v) (c_loop c) (c_popped c) (c_sends c) (c_sent c) (c_asked c) (c_told c) (c_lost c).
Definition set_loop (c : conn) (v : loop_pc) : conn := Conn (c_queue c) (c_broadcast c) (c_entries c) (c_brc c) (c_destroyed c) (c_ref c) (c_freed c) (c_reg c) (c_response c) (c_need_write c) (c_listed c) (c_holder c) (v) (c_popped c) (c_sends c) (c_sent c) (c_asked c) (c_told c) (c_lost c).
Definition set_popped (c : conn) (v : nat) : conn := Conn (c_queue c) (c_broadcast c) (c_entries c) (c_brc c) (c_destroyed c) (c_ref c) (c_freed c) (c_reg c) (c_response c) (c_need_write c) (c_listed c) (c_holder c) (c_loop c) (v) (c_sends c) (c_sent c) (c_asked c) (c_told c) (c_lost c).
Definition set_sends (c : conn) (v : sends) : conn := Conn (c_queue c) (c_broadcast c) (c_entries c) (c_brc c) (c_destroyed c) (c_ref c) (c_freed c) (c_reg c) (c_response c) (c_need_write c) (c_listed c) (c_holder c) (c_loop c) (c_popped c) (v) (c_sent c) (c_asked c) (c_told c) (c_lost c).
Definition written (c : conn) (v : list out) : conn := Conn (c_queue c) (c_broadcast c) (c_entries c) (c_brc c) (c_destroyed c) (c_ref c) (c_freed c) (c_reg c) (None) (false) (c_listed c) (c_holder c) (c_loop c) (c_popped c) (c_sends c) (c_sent c ++ v) (c_asked c) (c_told c) (c_lost c).
Definition asked (c : conn) (v : nat) : conn := Conn (c_queue c) (c_broadcast c) (c_entries c) (c_brc c) (c_destroyed c) (c_ref c) (c_freed c) (c_reg c) (c_response c) (c_need_write c) (c_listed c) (c_holder c) (c_loop c) (c_popped c) (c_sends c) (c_sent c) (c_asked c ++ [v]) (c_told c) (c_lost c).
Definition told (c : conn) (v : nat) : conn := Conn (c_queue c) (c_broadcast c) (c_entries c) (c_brc c) (c_destroyed c) (c_ref c) (c_freed c) (c_reg c) (c_response c) (c_need_write c) (c_listed c) (c_holder c) (c_loop c) (c_popped c) (c_sends c) (c_sent c) (c_asked c) (c_told c ++ [v]) (c_lost c).

Definition connection_s_alloc : conn := Conn [] [] 0 1 false 1 false RIn None false false Free EIdle 0 no_sends [] [] [] [].

(** [connection_s_dec]: the last reference frees the connection. *)
Definition connection_s_dec (c : conn) (destroyed decremented : conn → conn) : conn :=
  let c' := set_ref c (c_ref c - 1) in
  if c_ref c =? 1 then destroyed (set_freed c') else decremented c'.

Inductive write_result : Set := WPart | WFail | WLast | WDone.

Inductive action : Set :=
  | AEvent (ev : event) | ADispatch | ALoopLock
  | AReadDone | AReadFail | ADefer (r : nat) | ADirect (r : nat) | ACas | AMod | ALoopInc | ALoopAppend
  | AWrite (w : write_result) | AAwTest | AAwOff | AAwCas | AAwRecheck | AAwCas2 | AAwIn
  | ADel | ADestroy | AClear | ACloseDec | ACloseUnlock
  | APop | AHandlerLock | ACheck | ATake | ARun (ok : bool) | AMore | AFlush (ok : bool) | AHandlerMod | ASubscribe | AUnsubscribe | AHandlerDec | AHandlerUnlock
  | ASend | ASendCheck | ASendAppend (m : nat) | ASendCas | ASendMod | ASendInc | ASendApp.

(** *** The event loop *)

Definition reported (ev : event) (r : interest) : bool :=
  match ev, r with
  | _, RDel => false
  | EvHup, _ => true
  | EvIn, (RIn | RAll) => true
  | EvOut, (ROut | RAll) => true
  | _, _ => false
  end.

(** [__mpx_epoll_process_events] *)
Definition loop_event (ev : event) (c : conn) : option conn :=
  match c_loop c with EIdle => if reported ev (c_reg c) then Some (set_loop c (EGot ev)) else None | _ => None end.

Definition loop_dispatch (c : conn) : option conn :=
  match c_loop c with
  | EGot ev => Some (set_loop c (if c_destroyed c || bool_decide (ev = EvHup) then EWantClose else match ev with EvIn => EWantRead | _ => EWantWrite end))
  | _ => None
  end.

(** [connection_s_lock] of [guard_read], [guard_write] and [connection_close] *)
Definition loop_lock (c : conn) : option conn :=
  match c_holder c with
  | Free =>
      next ← match c_loop c with EWantRead => Some ERead | EWantWrite => Some EWrite | EWantClose => Some EDel | _ => None end;
      Some (set_loop (set_holder c ByLoop) next)
  | _ => None
  end.

(** [connection_s_unlock] at the end of a [guard_] function. *)
Definition loop_leaves (c : conn) (next : loop_pc) : conn := set_loop (set_holder c Free) next.

Definition read_done (c : conn) : option conn :=
  match c_loop c with ERead | ERet => Some (loop_leaves c (if c_need_write c then EWantWrite else EIdle)) | _ => None end.
Definition read_fail (c : conn) : option conn := match c_loop c with ERead => Some (loop_leaves c EWantClose) | _ => None end.

(** [__deferred_handler] up to [connection_queue_append], for the request [r]. *)
Definition deferred_handler (r : nat) (c : conn) : option conn :=
  match c_loop c with
  | ERead => Some (set_loop (set_queue (asked c r) (c_queue c ++ [r])) (if bool_decide (c_queue c = []) then ECas else ERead))
  | _ => None
  end.

(** [__post_response] with nothing queued: the response is staged at once. *)
Definition post_response (r : nat) (c : conn) : option conn :=
  match c_loop c, c_queue c with
  | ERead, [] => Some (set_loop (control_mod (set_need_write (stage (asked c r) [Reply r]) true) ROut) ERet)
  | _, _ => None
  end.

(** [connection_queue_append] *)
Definition append_cas (c : conn) : option conn :=
  match c_loop c with ECas => Some (if c_brc c =? 1 then set_loop (set_brc c 2) EMod else set_loop c ERead) | _ => None end.
Definition append_mod (c : conn) : option conn :=
  match c_loop c with
  | EMod => Some (if bool_decide (c_reg c = RDel) then loop_leaves (set_queue (set_brc c 1) (tail (c_queue c))) EWantClose else set_loop (control_mod c ROff) ERInc)
  | _ => None
  end.

(** [connection_queue_guard_append] of the loop. *)
Definition loop_inc (c : conn) : option conn :=
  next ← match c_loop c with ERInc => Some ERApp | EAwInc => Some EAwApp | _ => None end;
  Some (set_loop (set_ref c (c_ref c + 1)) next).
Definition loop_append (c : conn) : option conn :=
  next ← match c_loop c with ERApp => Some ERead | EAwApp => Some EAwOff | _ => None end;
  Some (set_loop (set_entries c (S (c_entries c))) next).

(** [__write]: a part is written, the socket fails, everything is written and the connection does not stay ([keepalive] is 0), or does. *)
Definition loop_write (w : write_result) (c : conn) : option conn :=
  match c_loop c, c_response c with
  | EWrite, None => Some (loop_leaves c EWantClose)
  | EWrite, Some body =>
      Some (match w with
            | WPart => loop_leaves c EIdle
            | WFail => loop_leaves c EWantClose
            | WLast => loop_leaves (control_mod (set_destroyed c) RAll) EIdle
            | WDone => set_loop (written c body) EAwTest
            end)
  | _, _ => None
  end.

(** [connection_after_write] *)
Definition aw_test (c : conn) : option conn :=
  match c_loop c with EAwTest => Some (set_loop c (if bool_decide (c_queue c = []) && bool_decide (c_broadcast c = []) then EAwCas else EAwInc)) | _ => None end.
Definition aw_off (c : conn) : option conn := match c_loop c with EAwOff => Some (loop_leaves (control_mod c ROff) EIdle) | _ => None end.
Definition aw_cas (c : conn) : option conn :=
  match c_loop c with EAwCas => Some (set_loop (if c_brc c =? 2 then set_brc c 1 else c) EAwRecheck) | _ => None end.
Definition aw_recheck (c : conn) : option conn :=
  match c_loop c with EAwRecheck => Some (set_loop c (if bool_decide (c_broadcast c = []) then EAwIn else EAwCas2)) | _ => None end.
Definition aw_cas2 (c : conn) : option conn :=
  match c_loop c with EAwCas2 => Some (if c_brc c =? 1 then set_loop (set_brc c 2) EAwInc else set_loop c EAwIn) | _ => None end.
Definition aw_in (c : conn) : option conn := match c_loop c with EAwIn => Some (loop_leaves (control_mod c RIn) EIdle) | _ => None end.

(** [connection_close]; [broadcast_clear] waits for the locks of the channels. *)
Definition close_del (c : conn) : option conn := match c_loop c with EDel => Some (set_loop (control_del c) EDestroy) | _ => None end.
Definition close_destroy (c : conn) : option conn := match c_loop c with EDestroy => Some (set_loop (set_destroyed c) EClear) | _ => None end.
Definition close_clear (c : conn) : option conn :=
  match c_loop c with
  | EClear => if decide (c_sends c = no_sends) then Some (set_loop (set_listed c false) ECloseDec) else None
  | _ => None
  end.
Definition close_dec (c : conn) : option conn :=
  match c_loop c with ECloseDec => Some (connection_s_dec c (λ c, set_loop c EGone) (λ c, set_loop c ECloseUnlock)) | _ => None end.
Definition close_unlock (c : conn) : option conn := match c_loop c with ECloseUnlock => Some (loop_leaves c EGone) | _ => None end.

(** *** Handler threads *)

(** [__connection_queue_pop] *)
Definition handler_pop (c : conn) : option conn :=
  match c_entries c with S n => Some (set_popped (set_entries c n) (S (c_popped c))) | O => None end.
Definition handler_lock (c : conn) : option conn :=
  match c_holder c, c_popped c with Free, S n => Some (set_holder (set_popped c n) (ByHandler HCheck)) | _, _ => None end.
Definition handler_check (c : conn) : option conn :=
  match c_holder c with ByHandler HCheck => Some (set_holder c (ByHandler (if c_destroyed c then HDec else HPop))) | _ => None end.

(** [thread_handler]: a request first, then the broadcast messages. *)
Definition handler_take (c : conn) : option conn :=
  match c_holder c with
  | ByHandler HPop =>
      Some (match c_queue c, c_broadcast c with
            | r :: queue, _ => set_holder (set_queue c queue) (ByHandler (HRun r))
            | [], m :: broadcast => set_holder (set_broadcast c broadcast) (ByHandler (HBatch [m]))
            | [], [] => set_holder c (ByHandler HDec)
            end)
  | _ => None
  end.

(** [__queue_request_handler]: the response, or none could be made. *)
Definition handler_run (ok : bool) (c : conn) : option conn :=
  match c_holder c with
  | ByHandler (HRun r) => Some (set_holder (if ok then stage c [Reply r] else set_destroyed c) (ByHandler HMod))
  | _ => None
  end.

(** [__broadcast_queue_request_handler]: one more message, and the end of the batch. *)
Definition handler_more (c : conn) : option conn :=
  match c_holder c, c_broadcast c with
  | ByHandler (HBatch ms), m :: broadcast => Some (set_holder (set_broadcast c broadcast) (ByHandler (HBatch (ms ++ [m]))))
  | _, _ => None
  end.
Definition handler_flush (ok : bool) (c : conn) : option conn :=
  match c_holder c with
  | ByHandler (HBatch ms) => Some (set_holder (if ok then stage c (map Message ms) else set_destroyed c) (ByHandler HMod))
  | _ => None
  end.

(** [connection_after_read] *)
Definition handler_mod (c : conn) : option conn :=
  match c_holder c with ByHandler HMod => Some (set_holder (control_mod c ROut) (ByHandler HDec)) | _ => None end.

(** [broadcast_add] and [broadcast_remove] of a handler; the latter waits for the lock of the channel. *)
Definition handler_subscribe (c : conn) : option conn := match c_holder c with ByHandler (HRun _) => Some (set_listed c true) | _ => None end.
Definition handler_unsubscribe (c : conn) : option conn :=
  match c_holder c with ByHandler (HRun _) => if decide (c_sends c = no_sends) then Some (set_listed c false) else None | _ => None end.

Definition handler_dec (c : conn) : option conn :=
  match c_holder c with ByHandler HDec => Some (connection_s_dec c id (λ c, set_holder c (ByHandler HUnlock))) | _ => None end.
Definition handler_unlock (c : conn) : option conn := match c_holder c with ByHandler HUnlock => Some (set_holder c Free) | _ => None end.

(** *** Senders: [broadcast_send] with the lock of a channel the connection is in *)

Definition send_begin (c : conn) : option conn :=
  let n := c_sends c in
  if c_listed c then Some (set_sends c (Sends (S (s_check n)) (s_append n) (s_cas n) (s_mod n) (s_inc n) (s_app n))) else None.

(** [__broadcast_queue_add] *)
Definition send_check (c : conn) : option conn :=
  let n := c_sends c in
  match s_check n with
  | S k => Some (set_sends c (Sends k (if c_destroyed c then s_append n else S (s_append n)) (s_cas n) (s_mod n) (s_inc n) (s_app n)))
  | O => None
  end.
Definition send_append (m : nat) (c : conn) : option conn :=
  let n := c_sends c in
  match s_append n with
  | S k =>
      Some (if 3000 <? zlen (c_broadcast c) then set_sends c (Sends (s_check n) k (s_cas n) (s_mod n) (s_inc n) (s_app n))
            else set_sends (set_broadcast (told c m) (c_broadcast c ++ [m])) (Sends (s_check n) k (S (s_cas n)) (s_mod n) (s_inc n) (s_app n)))
  | O => None
  end.
Definition send_cas (c : conn) : option conn :=
  let n := c_sends c in
  match s_cas n with
  | S k =>
      Some (if c_brc c =? 1 then set_sends (set_brc c 2) (Sends (s_check n) (s_append n) k (S (s_mod n)) (s_inc n) (s_app n))
            else set_sends c (Sends (s_check n) (s_append n) k (s_mod n) (s_inc n) (s_app n)))
  | O => None
  end.

(** [connection_queue_append_broadcast] *)
Definition send_mod (c : conn) : option conn :=
  let n := c_sends c in
  match s_mod n with
  | S k =>
      Some (if bool_decide (c_reg c = RDel) then set_sends (set_brc c 1) (Sends (s_check n) (s_append n) (s_cas n) k (s_inc n) (s_app n))
            else set_sends (control_mod c ROff) (Sends (s_check n) (s_append n) (s_cas n) k (S (s_inc n)) (s_app n)))
  | O => None
  end.
Definition send_inc (c : conn) : option conn :=
  let n := c_sends c in
  match s_inc n with S k => Some (set_sends (set_ref c (c_ref c + 1)) (Sends (s_check n) (s_append n) (s_cas n) (s_mod n) k (S (s_app n)))) | O => None end.
Definition send_app (c : conn) : option conn :=
  let n := c_sends c in
  match s_app n with S k => Some (set_sends (set_entries c (S (c_entries c))) (Sends (s_check n) (s_append n) (s_cas n) (s_mod n) (s_inc n) k)) | O => None end.

(** *** Runs *)

Definition exec (a : action) : conn → option conn :=
  match a with
  | AEvent ev => loop_event ev | ADispatch => loop_dispatch | ALoopLock => loop_lock
  | AReadDone => read_done | AReadFail => read_fail | ADefer r => deferred_handler r | ADirect r => post_response r | ACas => append_cas | AMod => append_mod
  | ALoopInc => loop_inc | ALoopAppend => loop_append | AWrite w => loop_write w
  | AAwTest => aw_test | AAwOff => aw_off | AAwCas => aw_cas | AAwRecheck => aw_recheck | AAwCas2 => aw_cas2 | AAwIn => aw_in
  | ADel => close_del | ADestroy => close_destroy | AClear => close_clear | ACloseDec => close_dec | ACloseUnlock => close_unlock
  | APop => handler_pop | AHandlerLock => handler_lock | ACheck => handler_check | ATake => handler_take | ARun ok => handler_run ok
  | AMore => handler_more | AFlush ok => handler_flush ok | AHandlerMod => handler_mod | ASubscribe => handler_subscribe | AUnsubscribe => handler_unsubscribe
  | AHandlerDec => handler_dec | AHandlerUnlock => handler_unlock
  | ASend => send_begin | ASendCheck => send_check | ASendAppend m => send_append m | ASendCas => send_cas | ASendMod => send_mod | ASendInc => send_inc | ASendApp => send_app
  end.

(** An interleaving of the threads; [None] when a step of it is not possible. *)
Fixpoint run (l : list action) (c : conn) : option conn :=
  match l with [] => Some c | a :: l' => c' ← exec a c; run l' c' end.

Definition after (l : list action) : conn := default connection_s_alloc (run l connection_s_alloc).
Definition interleaving (l : list action) (c : conn) : Prop := run l connection_s_alloc = Some c.

(** The state after a step, from the equation of the step. *)
Ltac unfold_step :=
  unfold loop_event, loop_dispatch, loop_lock, read_done, read_fail, deferred_handler, post_response, append_cas, append_mod, loop_inc, loop_append, loop_write,
    aw_test, aw_off, aw_cas, aw_recheck, aw_cas2, aw_in, close_del, close_destroy, close_clear, close_dec, close_unlock, handler_pop, handler_lock, handler_check, handler_take,
    handler_run, handler_more, handler_flush, handler_mod, handler_subscribe, handler_unsubscribe, handler_dec, handler_unlock,
    send_begin, send_check, send_append, send_cas, send_mod, send_inc, send_app, connection_s_dec, loop_leaves in *.
Ltac open_step E := cbn [exec] in E; unfold_step; cbn zeta in E; repeat (case_match; simplify_option_eq).
