(* ===== verification/SchedulerSafety.v ===== *)
(** No thread uses a connection after it has been freed, and it is freed when the last of them lets go of it, in every interleaving;
    then the order in which messages and responses leave. *)

From S2P Require Import Prelude Scheduler.

(** ** Who holds what *)

(** The references of the event loop: its own until [connection_close] drops it, and one more between [connection_s_inc] and the queue. *)
Definition loop_owns (p : loop_pc) : Z := match p with ECloseUnlock | EGone => 0 | _ => 1 end.
Definition loop_carries (p : loop_pc) : Z := match p with ERApp | EAwApp => 1 | _ => 0 end.
Definition handler_holds (h : holder) : Z := match h with Free | ByLoop | ByHandler HUnlock => 0 | ByHandler _ => 1 end.
(** A handler that has found the connection alive. *)
Definition handler_runs (h : holder) : bool := match h with ByHandler (HPop | HRun _ | HBatch _ | HMod) => true | _ => false end.

(** Places of the event loop where it has the lock, and where the connection has been removed from epoll, has been marked, and has left its channels. *)
Definition loop_locked (p : loop_pc) : bool := match p with EIdle | EGot _ | EWantRead | EWantWrite | EWantClose | EGone => false | _ => true end.
Definition loop_removed (p : loop_pc) : bool := match p with EDestroy | EClear | ECloseDec | ECloseUnlock | EGone => true | _ => false end.
Definition loop_marked (p : loop_pc) : bool := match p with EClear | ECloseDec | ECloseUnlock | EGone => true | _ => false end.
Definition loop_unlisted (p : loop_pc) : bool := match p with ECloseDec | ECloseUnlock | EGone => true | _ => false end.

Definition senders (n : sends) : nat := s_check n + s_append n + s_cas n + s_mod n + s_inc n + s_app n.

Record safe (c : conn) : Prop := {
  safe_ref : c_ref c = loop_owns (c_loop c) + loop_carries (c_loop c) + handler_holds (c_holder c) + Z.of_nat (c_entries c) + Z.of_nat (c_popped c) + Z.of_nat (s_app (c_sends c));
  safe_freed : c_freed c = true ↔ c_ref c = 0;
  safe_lock : c_holder c = ByLoop ↔ loop_locked (c_loop c) = true;
  safe_unlock : c_holder c = ByHandler HUnlock → 1 <= c_ref c;
  safe_close : c_loop c = ECloseUnlock → 1 <= c_ref c;
  safe_removed : c_reg c = RDel ↔ loop_removed (c_loop c) = true;
  safe_marked : loop_marked (c_loop c) = true → c_destroyed c = true;
  safe_unlisted : loop_unlisted (c_loop c) = true → c_listed c = false;
  safe_senders : c_listed c = false → senders (c_sends c) = O;
  safe_running : handler_runs (c_holder c) = true → loop_marked (c_loop c) = false }.

Lemma safe_init : safe connection_s_alloc.
Proof. constructor; cbn; try done; lia. Qed.

(** ** Every step keeps it *)

Lemma control_mod_removed c v : v ≠ RDel → (if bool_decide (c_reg c = RDel) then RDel else v) = RDel ↔ c_reg c = RDel.
Proof. intros Hv. case_bool_decide; naive_solver. Qed.

(** The loop has the lock at the places where it took it. *)
Ltac use_lock H :=
  repeat match goal with E : c_loop ?c = _ |- _ => progress rewrite E in * | E : c_holder ?c = _ |- _ => progress rewrite E in * end;
  try match type of H with c_holder ?c = ByLoop ↔ _ => let Hh := fresh "Hh" in assert (c_holder c = ByLoop) as Hh by (by apply H); rewrite Hh in * end.

Lemma loop_counts p : 0 <= loop_owns p ∧ 0 <= loop_carries p ∧ (loop_unlisted p = true ∨ loop_owns p = 1) ∧ (loop_unlisted p = true → loop_marked p = true).
Proof. destruct p; cbn; repeat split; auto; lia. Qed.

Lemma safe_step a c c' : safe c → exec a c = Some c' → safe c'.
Proof.
  intros [H1 H2 H3 H4 H5 H6 H7 H8 H9 H10] E. destruct (loop_counts (c_loop c)) as (P1 & P2 & P3 & P4).
  destruct a; open_step E; unfold senders in *.
  all: constructor; cbn; rewrite ?control_mod_removed by done; use_lock H3; cbn in *.
  all: try done; try lia.
  all: try (intuition (congruence || lia); fail).
  - by intros _; match goal with H : c_sends c = no_sends |- _ => rewrite H end.
  - intros _. destruct (loop_marked (c_loop c)); [|done]. intuition congruence.
  - by intros _; match goal with H : c_sends c = no_sends |- _ => rewrite H end.
  - intros E. rewrite E in H3. cbn in H3. intuition congruence.
  - assert (0 <= handler_holds (c_holder c)) by (destruct (c_holder c) as [| |[]]; cbn; lia). destruct P3 as [P3|P3]; [apply H8, H9 in P3; lia|]. split; [|lia]. intros Hf. apply H2 in Hf. lia.
Qed.

Lemma safe_run l : ∀ c c', safe c → run l c = Some c' → safe c'.
Proof.
  induction l as [|a l IH]; intros c c' Hs E; cbn in E; [by simplify_eq|]. destruct (exec a c) as [c1|] eqn:Ea; [|done]. by apply (IH c1); [eapply safe_step|].
Qed.

Lemma interleaving_safe l c : interleaving l c → safe c.
Proof. apply safe_run, safe_init. Qed.

(** ** Properties *)

(** A freed connection: nothing and nobody has it any more. *)
Lemma freed_gone c : safe c → c_freed c = true → c_loop c = EGone ∧ c_holder c = Free ∧ c_entries c = O ∧ c_popped c = O ∧ c_listed c = false ∧ senders (c_sends c) = O.
Proof.
  intros [H1 H2 H3 H4 H5 H6 H7 H8 H9 H10] Hf. apply H2 in Hf. destruct (loop_counts (c_loop c)) as (P1 & P2 & P3 & P4).
  assert (0 <= handler_holds (c_holder c)) as P5 by (destruct (c_holder c) as [| |[]]; cbn; lia).
  destruct P3 as [P3|P3]; [|lia]. assert (c_loop c = EGone) as El by (destruct (c_loop c); try done; cbn in *; lia || (exfalso; assert (1 <= c_ref c) by auto; lia)).
  rewrite El in *. cbn in *. split; [done|]. split; [|split; [lia|split; [lia|split; [auto|auto]]]].
  destruct (c_holder c) as [| |h]; [done|exfalso; intuition done|]. destruct h; cbn in *; try lia. assert (1 <= c_ref c) by auto. lia.
Qed.

(** C8: no use after free and no double free: in every interleaving of the event loop, the handlers and the senders, once a connection has been freed no thread can take another step on it, as
    it is in no queue and no channel, nobody waits for its lock and nobody holds it; and until then it has exactly the references that are counted. *)
Theorem connection_never_used_after_free l c : interleaving l c →
  (c_freed c = true ↔ c_ref c = 0) ∧ 0 <= c_ref c ∧
  (c_freed c = true → (∀ a, exec a c = None) ∧ c_entries c = O ∧ c_popped c = O ∧ c_holder c = Free ∧ c_listed c = false).
Proof.
  intros Hi. pose proof (interleaving_safe l c Hi) as Hs. split; [apply Hs|]. split.
  - rewrite (safe_ref _ Hs). destruct (loop_counts (c_loop c)) as (P1 & P2 & _ & _). assert (0 <= handler_holds (c_holder c)) by (destruct (c_holder c) as [| |[]]; cbn; lia). lia.
  - intros Hf. destruct (freed_gone c Hs Hf) as (H1 & H2 & H3 & H4 & H5 & H6). split; [|done].
    unfold senders in H6. intros a. destruct a; cbn; unfold_step; rewrite ?H1, ?H2, ?H3, ?H4, ?H5; try done.
    all: match goal with |- match ?x with _ => _ end = None => replace x with O by lia end; done.
Qed.

(** The peer hangs up while its request is queued; the handler that gets the connection lets go of it last. *)
Definition sample_close : list action :=
  [AEvent EvIn; ADispatch; ALoopLock; ADefer 7; ACas; AMod; ALoopInc; ALoopAppend; AReadDone; APop; AEvent EvHup; ADispatch; ALoopLock; ADel; ADestroy; AClear; ACloseDec; ACloseUnlock;
   AHandlerLock; ACheck; AHandlerDec].

Lemma connection_never_used_after_free_witness : c_freed (after sample_close) = true ∧ ∀ a, exec a (after sample_close) = None.
Proof.
  assert (interleaving sample_close (after sample_close)) as Hi by (by vm_compute). assert (c_freed (after sample_close) = true) as Hf by (by vm_compute).
  split; [exact Hf|]. destruct (connection_never_used_after_free sample_close (after sample_close) Hi) as (_ & _ & H). by destruct (H Hf) as [Ha _].
Defined.

(** Requests are answered and broadcast messages are written once each and in order, in every interleaving where responses are made by handlers. *)

(** ** The token *)

(** [broadcast_ref_count] is 2 while somebody has to handle the connection. These are the places of the one who has to; a response that is not written is a token of the event loop. *)
Definition loop_token (p : loop_pc) : Z := match p with EMod | ERInc | ERApp | EAwTest | EAwInc | EAwApp | EAwCas => 1 | _ => 0 end.
Definition handler_token (h : holder) : Z := match h with ByHandler (HCheck | HPop | HRun _ | HBatch _) => 1 | _ => 0 end.
Definition response_token (r : option (list out)) : Z := if r then 1 else 0.
Definition tokens (c : conn) : Z :=
  loop_token (c_loop c) + handler_token (c_holder c) + response_token (c_response c) + Z.of_nat (c_entries c) + Z.of_nat (c_popped c)
  + Z.of_nat (s_mod (c_sends c)) + Z.of_nat (s_inc (c_sends c)) + Z.of_nat (s_app (c_sends c)).

(** The messages and the requests in what is written. *)
Definition messages (l : list out) : list nat := omap (λ o, match o with Message m => Some m | Reply _ => None end) l.
Definition replies (l : list out) : list nat := omap (λ o, match o with Reply r => Some r | Message _ => None end) l.

(** What a handler has taken from the queues. *)
Definition taken_message (h : holder) : list nat := match h with ByHandler (HBatch ms) => ms | _ => [] end.
Definition taken_request (h : holder) : list nat := match h with ByHandler (HRun r) => [r] | _ => [] end.

Record ordered (c : conn) : Prop := {
  ord_token : 1 + tokens c <= c_brc c <= 2;
  ord_told : c_told c = messages (c_sent c) ++ messages (default [] (c_response c)) ++ taken_message (c_holder c) ++ c_broadcast c;
  ord_asked : c_asked c = replies (c_sent c) ++ replies (default [] (c_response c)) ++ taken_request (c_holder c) ++ c_queue c;
  ord_lost : c_lost c = [] }.

(** The event loop does not answer itself. *)
Definition by_handlers (a : action) : Prop := match a with ADirect _ => False | _ => True end.

Lemma messages_app a b : messages (a ++ b) = messages a ++ messages b.
Proof. apply omap_app. Qed.
Lemma replies_app a b : replies (a ++ b) = replies a ++ replies b.
Proof. apply omap_app. Qed.
Lemma messages_map ms : messages (map Message ms) = ms.
Proof. induction ms as [|m ms IH]; [done|]. change (m :: messages (map Message ms) = m :: ms). by rewrite IH. Qed.
Lemma replies_map ms : replies (map Message ms) = [].
Proof. by induction ms. Qed.

Lemma token_counts c : 0 <= loop_token (c_loop c) ∧ 0 <= handler_token (c_holder c) ∧ 0 <= response_token (c_response c).
Proof. repeat split; [destruct (c_loop c)|destruct (c_holder c) as [| |[]]|destruct (c_response c)]; cbn; lia. Qed.

#[global] Arguments messages : simpl never.
#[global] Arguments replies : simpl never.

Lemma ordered_step a c c' : safe c → ordered c → by_handlers a → exec a c = Some c' → c_destroyed c' = false → ordered c'.
Proof.
  intros Hs [O1 O2 O3 O4] Hd E Hopen. pose proof (safe_lock _ Hs) as H3. pose proof (safe_removed _ Hs) as H6. destruct (token_counts c) as (P1 & P2 & P3). unfold tokens in *.
  assert (handler_token (c_holder c) = 1 → c_response c = None) as P4 by (destruct (c_response c); [cbn in *; lia|done]).
  destruct a; try done; open_step E; try (cbn in Hopen); try done.
  all: constructor; unfold tokens; cbn; use_lock H3; cbn in *.
  all: repeat match goal with E : c_response ?c = _ |- _ => progress rewrite E in * | E : c_queue ?c = _ |- _ => progress rewrite E in * | E : c_broadcast ?c = _ |- _ => progress rewrite E in * end; cbn in *.
  all: rewrite ?messages_app, ?replies_app, ?messages_map, ?replies_map, ?O2, ?O3, ?O4, <- ?app_assoc; try done; try lia.
  all: try by rewrite (P4 eq_refl).
  all: try (exfalso; intuition done).
Qed.

Lemma destroyed_step a c c' : exec a c = Some c' → c_destroyed c' = false → c_destroyed c = false.
Proof. intros E Hc. destruct a; open_step E; cbn in *; done. Qed.

Lemma destroyed_run l : ∀ c c', run l c = Some c' → c_destroyed c' = false → c_destroyed c = false.
Proof.
  induction l as [|a l IH]; intros c c' E Hc; cbn in E; [by simplify_eq|]. destruct (exec a c) as [c1|] eqn:Ea; [|done]. cbn in E. eapply destroyed_step; [exact Ea|by eapply IH].
Qed.

Lemma ordered_run l : ∀ c c', safe c → ordered c → Forall by_handlers l → run l c = Some c' → c_destroyed c' = false → ordered c'.
Proof.
  induction l as [|a l IH]; intros c c' Hs Ho Hl E Hd; cbn in E; [by simplify_eq|]. apply Forall_cons in Hl as [Ha Hl]. destruct (exec a c) as [c1|] eqn:Ea; [|done]. cbn in E.
  apply (IH c1); [by eapply safe_step| |done|done|done]. eapply ordered_step; [exact Hs|done|done|done|by eapply destroyed_run].
Qed.

Lemma ordered_init : ordered connection_s_alloc.
Proof. constructor; cbn; try done; lia. Qed.

(** ** Properties *)

(** C9: broadcast messages and responses are written once each and in order: in every interleaving in which responses come from handlers and the connection has not been given up, what has been written,
    the response being written, what a handler has taken and what is queued are together the messages that were accepted, and likewise the requests, in their order; nothing is overwritten before it is written. *)
Theorem connection_delivers_in_order l c : interleaving l c → Forall by_handlers l → c_destroyed c = false →
  c_told c = messages (c_sent c) ++ messages (default [] (c_response c)) ++ taken_message (c_holder c) ++ c_broadcast c ∧
  c_asked c = replies (c_sent c) ++ replies (default [] (c_response c)) ++ taken_request (c_holder c) ++ c_queue c ∧
  c_lost c = [].
Proof.
  intros Hi Hl Hd. destruct (ordered_run l connection_s_alloc c safe_init ordered_init Hl Hi Hd) as [_ H1 H2 H3]. done.
Qed.

(** A request that subscribes, a message that is sent while the reply is being written, and another one in the same batch. *)
Definition sample_exchange : list action :=
  [AEvent EvIn; ADispatch; ALoopLock; ADefer 7; ACas; AMod; ALoopInc; ALoopAppend; AReadDone; APop; AHandlerLock; ACheck; ATake; ASubscribe; ARun true; AHandlerMod; AHandlerDec; AHandlerUnlock;
   ASend; ASendCheck; ASendAppend 1; AEvent EvOut; ADispatch; ALoopLock; ASendCas; AWrite WDone; AAwTest; ALoopInc; ALoopAppend; AAwOff;
   APop; AHandlerLock; ACheck; ATake; ASend; ASendCheck; ASendAppend 2; AMore; ASendCas; AFlush true; AHandlerMod; AHandlerDec; AHandlerUnlock].

Lemma connection_delivers_in_order_witness :
  c_told (after sample_exchange) = [1; 2]%nat ∧ c_response (after sample_exchange) = Some [Message 1; Message 2] ∧ c_sent (after sample_exchange) = [Reply 7] ∧ c_lost (after sample_exchange) = [].
Proof.
  destruct (connection_delivers_in_order sample_exchange (after sample_exchange)) as (H1 & H2 & H3); [by vm_compute|by repeat constructor|by vm_compute|].
  by split; [vm_compute|split; [vm_compute|split; [vm_compute|exact H3]]].
Defined.

(** C40: a response the event loop makes itself (to a ping, an unknown route, a bad frame) is not protected: it can be replaced by a handler while the peer has read only a part of it, so that the rest is never written. *)
Theorem direct_response_overwritten : ∃ l c, interleaving l c ∧ c_destroyed c = false ∧ c_lost c = [Reply 9] ∧ replies (c_sent c) = [7]%nat.
Proof.
  exists (sample_exchange ++ [AEvent EvOut; ADispatch; ALoopLock; AWrite WDone; AAwTest; AAwCas; AAwRecheck; AAwIn;
    AEvent EvIn; ADispatch; ALoopLock; ADirect 9; AReadDone; ALoopLock; AWrite WPart;
    ASend; ASendCheck; ASendAppend 3; ASendCas; ASendMod; ASendInc; ASendApp; APop; AHandlerLock; ACheck; ATake; AFlush true]).
  eexists. split; [by vm_compute|]. by vm_compute.
Qed.
