(* ===== verification/SchedulerWake.v ===== *)
(** Whether the threads wake each other: when nobody has anything to do, everything has been written and the connection listens again, provided that no sender is overtaken between its message and its
    flag; and what happens to the connection otherwise. *)

From S2P Require Import Prelude Scheduler SchedulerSafety.

(** ** A connection that nobody handles any more *)

Record stalled (c : conn) : Prop := {
  st_brc : c_brc c = 2;
  st_reg : c_reg c = ROff;
  st_loop : c_loop c = EIdle;
  st_holder : c_holder c = Free;
  st_entries : c_entries c = O;
  st_popped : c_popped c = O;
  st_mod : s_mod (c_sends c) = O;
  st_inc : s_inc (c_sends c) = O;
  st_app : s_app (c_sends c) = O }.

Definition no_hangup (a : action) : Prop := match a with AEvent EvHup => False | _ => True end.

Lemma stalled_step a c c' : stalled c → no_hangup a → exec a c = Some c' → stalled c' ∧ c_sent c' = c_sent c ∧ c_asked c' = c_asked c.
Proof.
  intros [H1 H2 H3 H4 H5 H6 H7 H8 H9] Ha E.
  destruct a as [[]| | | | | | | | | | | | | | | | | | | | | | | | | | | | | | | | | | | | | | | | |]; try done; open_step E; try (rewrite ?H2 in *; cbn in *; congruence).
  all: split; [|done]; constructor; cbn; congruence || lia || done.
Qed.

Lemma stalled_run l : ∀ c c', stalled c → Forall no_hangup l → run l c = Some c' → stalled c' ∧ c_sent c' = c_sent c ∧ c_asked c' = c_asked c.
Proof.
  induction l as [|a l IH]; intros c c' Hs Hl E; cbn in E; [by simplify_eq|]. apply Forall_cons in Hl as [Ha Hl]. destruct (exec a c) as [c1|] eqn:Ea; [|done]. cbn in E.
  destruct (stalled_step a c c1 Hs Ha Ea) as (H1 & <- & <-). by apply IH.
Qed.

(** Two messages; the second sender is overtaken by the handler, which takes its message with the first, and by the event loop, which writes both. *)
Definition sample_race : list action :=
  [AEvent EvIn; ADispatch; ALoopLock; ADefer 7; ACas; AMod; ALoopInc; ALoopAppend; AReadDone; APop; AHandlerLock; ACheck; ATake; ASubscribe; ARun true; AHandlerMod; AHandlerDec; AHandlerUnlock;
   AEvent EvOut; ADispatch; ALoopLock; AWrite WDone; AAwTest; AAwCas; AAwRecheck; AAwIn;
   ASend; ASendCheck; ASendAppend 1; ASendCas; ASendMod; ASendInc; ASendApp; APop; AHandlerLock; ACheck; ATake;
   ASend; ASendCheck; ASendAppend 2; AMore; AFlush true; AHandlerMod; AHandlerDec; AHandlerUnlock;
   AEvent EvOut; ADispatch; ALoopLock; AWrite WDone; AAwTest; AAwCas; AAwRecheck; AAwIn;
   ASendCas; ASendMod; ASendInc; ASendApp; APop; AHandlerLock; ACheck; ATake; AHandlerDec; AHandlerUnlock].

(** C11: the race of a broadcast with a handler can stop a connection for good: a sender whose message has been taken before it sets the flag wakes a handler that finds nothing to do and leaves the flag set and the
    events off. From then on no request is read and nothing is written, although further messages are accepted, until the peer hangs up. *)
Theorem broadcast_race_stalls : ∃ l c, interleaving l c ∧ Forall by_handlers l ∧ c_destroyed c = false ∧ c_sends c = no_sends ∧
  (∀ l' c', Forall no_hangup l' → run l' c = Some c' → c_sent c' = c_sent c ∧ c_asked c' = c_asked c) ∧
  (∀ m, ∃ l' c', Forall no_hangup l' ∧ run l' c = Some c' ∧ c_told c' = c_told c ++ [m] ∧ c_sends c' = no_sends).
Proof.
  exists sample_race, (after sample_race). split; [by vm_compute|]. split; [by repeat constructor|]. split; [by vm_compute|]. split; [by vm_compute|]. split.
  - intros l' c' Hl E. apply (stalled_run l' (after sample_race)); [constructor; by vm_compute|done|done].
  - intros m. exists [ASend; ASendCheck; ASendAppend m; ASendCas]. eexists. split; [by repeat constructor|]. split; [vm_compute; reflexivity|]. by vm_compute.
Qed.
(** ** Prompt senders *)

(** Interleavings where each sender sets the flag at once when its message is queued, and the event loop does not answer itself. *)
Fixpoint prompt (l : list action) : bool :=
  match l with
  | [] => true
  | ASendAppend _ :: ASendCas :: l' => prompt l'
  | (ASendAppend _ | ASendCas | ADirect _) :: _ => false
  | _ :: l' => prompt l'
  end.

(** Places from where a handler will be woken, or is about to look at the queues. *)
Definition loop_wakes (p : loop_pc) : Z := match p with EMod | ERInc | ERApp | EAwInc | EAwApp => 1 | _ => 0 end.
Definition handler_looks (h : holder) : Z := match h with ByHandler (HCheck | HPop) => 1 | _ => 0 end.
Definition wakes (c : conn) : Z :=
  loop_wakes (c_loop c) + handler_looks (c_holder c) + Z.of_nat (c_entries c) + Z.of_nat (c_popped c)
  + Z.of_nat (s_mod (c_sends c)) + Z.of_nat (s_inc (c_sends c)) + Z.of_nat (s_app (c_sends c)).

Definition at_cas (p : loop_pc) : Z := match p with ECas => 1 | _ => 0 end.
Definition at_cas2 (p : loop_pc) : Z := match p with EAwCas2 => 1 | _ => 0 end.
Definition at_recheck (p : loop_pc) : Z := match p with EAwRecheck | EAwCas2 => 1 | _ => 0 end.
Definition at_rearm (p : loop_pc) : Z := match p with EAwRecheck | EAwCas2 | EAwIn => 1 | _ => 0 end.
Definition behind_test (p : loop_pc) : Z := match p with EAwCas | EAwRecheck | EAwCas2 | EAwIn => 1 | _ => 0 end.
Definition behind_write (p : loop_pc) : Z := match p with EAwTest | EAwInc | EAwApp | EAwOff | EAwCas | EAwRecheck | EAwCas2 | EAwIn => 1 | _ => 0 end.
Definition at_off (p : loop_pc) : Z := match p with EAwOff => 1 | _ => 0 end.
Definition at_mod (h : holder) : Z := match h with ByHandler HMod => 1 | _ => 0 end.
Definition listens (r : interest) : Z := match r with RIn => 1 | _ => 0 end.
Definition writes (r : interest) : Z := match r with ROut => 1 | _ => 0 end.

Record awake (c : conn) : Prop := {
  aw_token : c_brc c = 1 + tokens c ∧ c_brc c <= 2;
  aw_flag : s_cas (c_sends c) = O;
  aw_queue : 0 < zlen (c_queue c) → c_brc c = 2 ∨ at_cas (c_loop c) = 1;
  aw_broadcast : 0 < zlen (c_broadcast c) → c_brc c = 2 ∨ at_recheck (c_loop c) = 1;
  aw_wakes : 0 < wakes c → 0 < zlen (c_queue c) + zlen (c_broadcast c);
  aw_ecas : at_cas (c_loop c) = 1 → 0 < zlen (c_queue c);
  aw_ecas2 : at_cas2 (c_loop c) = 1 → 0 < zlen (c_broadcast c);
  aw_tested : behind_test (c_loop c) = 1 → zlen (c_queue c) = 0;
  aw_written : behind_write (c_loop c) = 1 → response_token (c_response c) = 0;
  aw_out : response_token (c_response c) = 1 → writes (c_reg c) = 1 ∨ at_mod (c_holder c) = 1;
  aw_listens : c_brc c = 1 → listens (c_reg c) = 1 ∨ at_rearm (c_loop c) = 1;
  aw_entry : at_off (c_loop c) = 1 → 1 <= Z.of_nat (c_entries c) + Z.of_nat (c_popped c);
  aw_mod : at_mod (c_holder c) = 1 → response_token (c_response c) = 1 }.

Definition opened (c : conn) : Prop := c_destroyed c = false ∧ c_reg c ≠ RDel.

Lemma opened_step a c c' : exec a c = Some c' → opened c' → opened c.
Proof.
  intros E [Hd Hr]. split; [by eapply destroyed_step|]. intros Er. apply Hr. clear Hd Hr. destruct a; open_step E; cbn; rewrite ?Er; try done; rewrite ?bool_decide_true by done; done.
Qed.

(** Facts of a test as facts on lengths and codes. *)
Ltac count_tests :=
  repeat match goal with
  | H : bool_decide _ = true |- _ => apply bool_decide_eq_true in H
  | H : bool_decide _ = false |- _ => apply bool_decide_eq_false in H
  | H : _ && _ = true |- _ => apply andb_true_iff in H as [? ?]
  | H : _ && _ = false |- _ => apply andb_false_iff in H as [H|H]
  | H : ?l ≠ [] |- _ => assert (0 < zlen l) by (destruct l; [done|zlen_lia]); clear H
  end.

Lemma unlocked_counts p : loop_locked p = false →
  loop_token p = 0 ∧ loop_wakes p = 0 ∧ at_cas p = 0 ∧ at_cas2 p = 0 ∧ at_recheck p = 0 ∧ at_rearm p = 0 ∧ behind_test p = 0 ∧ behind_write p = 0 ∧ at_off p = 0.
Proof. by destruct p. Qed.

Lemma wake_counts c : 0 <= loop_wakes (c_loop c) ∧ 0 <= handler_looks (c_holder c) ∧ handler_looks (c_holder c) <= handler_token (c_holder c) ∧ loop_wakes (c_loop c) <= loop_token (c_loop c).
Proof. repeat split; [destruct (c_loop c)|destruct (c_holder c) as [| |[]]|destruct (c_holder c) as [| |[]]|destruct (c_loop c)]; cbn; lia. Qed.

Lemma awake_step a c c' : safe c → awake c → prompt [a] = true → exec a c = Some c' → opened c' → awake c'.
Proof.
  intros Hs [A1 A2 A3 A4 A5 A6 A7 A8 A9 A10 A11 A12 A13] Ha E Hopen. pose proof (opened_step a c c' E Hopen) as [Hd Hr]. destruct Hopen as [Hd' Hr'].
  pose proof (safe_lock _ Hs) as H3. destruct (token_counts c) as (P1 & P2 & P3). destruct (wake_counts c) as (P4 & P5 & P6 & P7). unfold tokens, wakes in *.
  assert (c_holder c ≠ ByLoop → loop_locked (c_loop c) = false) as HU by (intros Hh; destruct (loop_locked (c_loop c)); [exfalso; by apply Hh, H3|done]).
  pose proof (zlen_nonneg (c_queue c)) as P8. pose proof (zlen_nonneg (c_broadcast c)) as P9.
  destruct a; try done; clear Ha; open_step E; try (cbn in Hd', Hr'); try done; count_tests.
  all: constructor; [clear A2 A3 A4 A6 A7 A8 A9 A10 A11 A12 A13|clear A1 A3 A4 A5 A6 A7 A8 A9 A10 A11 A12 A13|clear A2 A4 A5 A6 A7 A9 A10 A11 A12 A13|clear A2 A3 A5 A6 A7 A8 A9 A10 A11 A12 A13|clear A2 A3 A4 A8 A9 A10 A11 A12 A13|clear A1 A2 A3 A4 A5 A7 A8 A9 A10 A11 A12 A13|clear A1 A2 A3 A4 A5 A6 A8 A9 A10 A11 A12 A13|clear A1 A2 A3 A4 A5 A6 A7 A9 A10 A11 A12 A13|clear A1 A2 A3 A4 A5 A6 A7 A8 A10 A11 A12 A13|clear A2 A3 A4 A5 A6 A7 A8 A11 A12 A13|clear A2 A3 A4 A5 A6 A7 A8 A9 A10|clear A1 A2 A3 A4 A5 A6 A7 A8 A9 A10 A11 A13|clear A1 A2 A3 A4 A5 A6 A7 A8 A9 A10 A11 A12].
  all: unfold tokens, wakes; cbn; rewrite ?bool_decide_false by done; use_lock H3.
  all: repeat match goal with E : c_response ?c = _ |- _ => progress rewrite E in * | E : c_queue ?c = _ |- _ => progress rewrite E in * | E : c_broadcast ?c = _ |- _ => progress rewrite E in * end; cbn in *.
  all: try done.
  all: autorewrite with zlen in *; try (specialize (HU ltac:(congruence)); apply unlocked_counts in HU as (?&?&?&?&?&?&?&?&?)); clear H3 Hs; lia.
Qed.

(** The two steps of a prompt sender. *)
Lemma awake_send m c c1 c2 : awake c → send_append m c = Some c1 → send_cas c1 = Some c2 → awake c2.
Proof.
  intros [A1 A2 A3 A4 A5 A6 A7 A8 A9 A10 A11 A12 A13] E1 E2. destruct (token_counts c) as (P1 & P2 & P3). destruct (wake_counts c) as (P4 & P5 & P6 & P7). unfold tokens, wakes in *.
  pose proof (zlen_nonneg (c_queue c)) as P8. pose proof (zlen_nonneg (c_broadcast c)) as P9.
  unfold send_append, send_cas in *. repeat (case_match; simplify_option_eq; cbn in *); try congruence.
  all: constructor; [clear A2 A3 A4 A6 A7 A8 A9 A10 A11 A12 A13|clear A1 A3 A4 A5 A6 A7 A8 A9 A10 A11 A12 A13|clear A2 A4 A5 A6 A7 A9 A10 A11 A12 A13|clear A2 A3 A5 A6 A7 A8 A9 A10 A11 A12 A13|clear A2 A3 A4 A8 A9 A10 A11 A12 A13|clear A1 A2 A3 A4 A5 A7 A8 A9 A10 A11 A12 A13|clear A1 A2 A3 A4 A5 A6 A8 A9 A10 A11 A12 A13|clear A1 A2 A3 A4 A5 A6 A7 A9 A10 A11 A12 A13|clear A1 A2 A3 A4 A5 A6 A7 A8 A10 A11 A12 A13|clear A2 A3 A4 A5 A6 A7 A8 A11 A12 A13|clear A2 A3 A4 A5 A6 A7 A8 A9 A10|clear A1 A2 A3 A4 A5 A6 A7 A8 A9 A10 A11 A13|clear A1 A2 A3 A4 A5 A6 A7 A8 A9 A10 A11 A12].
  all: unfold tokens, wakes; cbn in *; try done; autorewrite with zlen in *; lia.
Qed.

Lemma awake_init : awake connection_s_alloc.
Proof. constructor; cbn; try done; lia. Qed.

Lemma prompt_cons a l : prompt (a :: l) = true → (prompt [a] = true ∧ prompt l = true) ∨ ∃ m l', a = ASendAppend m ∧ l = ASendCas :: l' ∧ prompt l' = true.
Proof.
  destruct a; try (intros H; left; by split); try done. intros H. right. destruct l as [|b l]; [done|]. destruct b; try done. by eexists _, _.
Qed.

Lemma opened_run l : ∀ c c', run l c = Some c' → opened c' → opened c.
Proof.
  induction l as [|a l IH]; intros c c' E Ho; cbn in E; [by simplify_eq|]. destruct (exec a c) as [c1|] eqn:Ea; [|done]. cbn in E. eapply opened_step; [exact Ea|by eapply IH].
Qed.

Lemma awake_run n : ∀ l c c', (length l <= n)%nat → safe c → awake c → prompt l = true → run l c = Some c' → opened c' → awake c'.
Proof.
  induction n as [|n IH]; intros l c c' Hn Hs Ha Hp E Ho; (destruct l as [|a l]; [by cbn in E; simplify_eq|]); [cbn in Hn; lia|]. cbn in E, Hn.
  destruct (exec a c) as [c1|] eqn:Ea; [|done]. cbn in E. assert (safe c1) as Hs1 by (by eapply safe_step).
  apply prompt_cons in Hp as [[Hp1 Hp]|(m & l' & -> & -> & Hp)].
  - apply (IH l c1); [lia|done| |done|done|done]. eapply awake_step; [exact Hs|done|done|done|by eapply opened_run].
  - cbn in E, Hn. destruct (send_cas c1) as [c2|] eqn:Ec; [|done]. cbn in E. apply (IH l' c2); [lia|by eapply (safe_step ASendCas c1)| |done|done|done]. by eapply awake_send.
Qed.

Lemma prompt_by_handlers n : ∀ l, (length l <= n)%nat → prompt l = true → Forall by_handlers l.
Proof.
  induction n as [|n IH]; intros l Hn Hp; (destruct l as [|a l]; [constructor|]); [cbn in Hn; lia|]. cbn in Hn.
  apply prompt_cons in Hp as [[Hp1 Hp]|(m & l' & -> & -> & Hp)]; [|cbn in Hn; by repeat (constructor; [done|]); apply IH; [lia|]].
  constructor; [by destruct a|]. apply IH; [lia|done].
Qed.

(** No thread has anything to do with the connection, except for the event loop, which waits for an event. *)
Definition idle (c : conn) : Prop := c_loop c = EIdle ∧ c_holder c = Free ∧ c_entries c = O ∧ c_popped c = O ∧ c_sends c = no_sends.

(** C10: no wake-up is lost and nothing is forgotten: in every interleaving in which senders set the flag at once and responses come from handlers, when no thread has anything left to do for an open
    connection, either all requests have been answered, all messages have been written in order and the connection listens for the next request, or a response is staged and the connection waits to write it. *)
Theorem idle_connection_delivered l c : interleaving l c → prompt l = true → opened c → idle c →
  match c_response c with
  | None => c_reg c = RIn ∧ c_queue c = [] ∧ c_broadcast c = [] ∧ messages (c_sent c) = c_told c ∧ replies (c_sent c) = c_asked c
  | Some _ => c_reg c = ROut
  end.
Proof.
  intros Hi Hp Ho (H1 & H2 & H3 & H4 & H5). pose proof (awake_run (length l) l _ c ltac:(done) safe_init awake_init Hp Hi Ho) as [A1 _ A3 A4 _ _ _ _ _ A10 A11 _ _].
  pose proof (ordered_run l _ c safe_init ordered_init (prompt_by_handlers (length l) l ltac:(done) Hp) Hi (proj1 Ho)) as [_ O2 O3 _].
  unfold tokens in A1. rewrite H1, H2, H3, H4, H5 in *. destruct (c_response c); cbn in *; [destruct (c_reg c); cbn in *; lia || done|].
  assert (zlen (c_queue c) = 0) as Eq by (pose proof (zlen_nonneg (c_queue c)); lia). assert (zlen (c_broadcast c) = 0) as Eb by (pose proof (zlen_nonneg (c_broadcast c)); lia).
  apply zlen_0_nil in Eq, Eb. rewrite Eq, Eb in *. rewrite !app_nil_r in *. split; [destruct (c_reg c); cbn in *; lia || done|]. done.
Qed.

(** The request and the first message of [sample_race], and the second message sent promptly. *)
Definition sample_prompt : list action :=
  take 37 sample_race ++ [ASend; ASendCheck; ASendAppend 2; ASendCas; AMore; AFlush true; AHandlerMod; AHandlerDec; AHandlerUnlock;
   AEvent EvOut; ADispatch; ALoopLock; AWrite WDone; AAwTest; AAwCas; AAwRecheck; AAwIn].

Lemma idle_connection_delivered_witness : c_reg (after sample_prompt) = RIn ∧ messages (c_sent (after sample_prompt)) = [1; 2]%nat ∧ replies (c_sent (after sample_prompt)) = [7]%nat.
Proof.
  assert (interleaving sample_prompt (after sample_prompt)) as Hi by (by vm_compute).
  assert (prompt sample_prompt = true) as Hp by (by vm_compute).
  assert (opened (after sample_prompt)) as Ho by (vm_compute; by split).
  assert (idle (after sample_prompt)) as Hd by (vm_compute; by repeat split).
  pose proof (idle_connection_delivered sample_prompt (after sample_prompt) Hi Hp Ho Hd) as H.
  assert (c_response (after sample_prompt) = None) as E by (by vm_compute). rewrite E in H. destruct H as (H1 & _ & _ & H2 & H3).
  rewrite H1, H2, H3. clear. by vm_compute.
Defined.
