(* ===== verification/WsResponse.v ===== *)
(** WebSocket responses ([websocketsresponse.c]): the frames a server sends, their compression, the batches of broadcasts ([broadcast.c]) and the write handler ([websocketsserverhandlers.c]).

    zlib's deflate is a parameter: a stream state and the result of a call with [Z_SYNC_FLUSH]. Memory is there; [junk] is the content of fresh memory. A file is its content. *)

From S2P Require Import Prelude HttpResponse.

(** ** The model *)

(** What zlib does: [deflate stream data] is the output of a call that took all of [data] and did not fill the buffer, [None] otherwise, and the stream afterwards. *)
Class Deflate := {
  stream : Type;
  deflate : stream → list Z → option (list Z) * stream;
  deflateReset : stream → stream }.

Record websockets_body : Set := WsBody { b_size : Z; b_pos : Z; b_data : option (list Z) }.
(** The content of the open file; [None] when there is none. *)
Record websockets_file : Set := WsFile { f_size : Z; f_pos : Z; f_content : option (list Z) }.

Section Response.
Context `{Deflate}.
Variable junk : Z.

(** [ws_deflate]: NULL, or whether it is on, the stream, and whether the context is dropped after each message. *)
Record ws_deflate : Type := WsDeflate { deflate_init : bool; deflate_stream : stream; server_no_context_takeover : bool }.

Record websocketsresponse : Type := WsResponse {
  frame_code : Z;
  body : websockets_body;
  file_ : websockets_file;
  r_deflate : option ws_deflate }.

Definition set_body_ (r : websocketsresponse) (b : websockets_body) : websocketsresponse := WsResponse (frame_code r) b (file_ r) (r_deflate r).
Definition set_code (r : websocketsresponse) (c : Z) : websocketsresponse := WsResponse c (body r) (file_ r) (r_deflate r).
Definition set_stream (r : websocketsresponse) (d : option ws_deflate) : websocketsresponse := WsResponse (frame_code r) (body r) (file_ r) d.

Definition websocketsresponse_create (d : option ws_deflate) : websocketsresponse := WsResponse 0 (WsBody 0 0 None) (WsFile 0 0 None) d.

Definition websocketsresponse_reset (r : websocketsresponse) : websocketsresponse := WsResponse 0 (WsBody 0 0 None) (WsFile 0 0 None) (r_deflate r).

Definition websocketsresponse_file_size (length : Z) : Z := 1 + (if length <=? 125 then 1 else if length <=? 65535 then 3 else 9).
Definition websocketsresponse_data_size (length : Z) : Z := 1 + (if length <=? 125 then 1 else if length <=? 65535 then 3 else 9) + length.

(** The bytes in turn, each at [pos], which is increased. *)
Fixpoint put_bytes (data : list Z) (pos : Z) (l : list Z) : option (list Z * Z) :=
  match l with
  | [] => Some (data, pos)
  | b :: l' => data ← mem_set data pos b; put_bytes data (pos + 1) l'
  end.

Definition websocketsresponse_set_payload_length (data : list Z) (pos payload_length : Z) : option (list Z * Z) :=
  if payload_length <=? 125 then put_bytes data pos [payload_length]
  else if payload_length <=? 65535 then put_bytes data pos [126; Z.land (Z.shiftr payload_length 8) 255; Z.land payload_length 255]
  else put_bytes data pos (127 :: map (λ i, Z.land (Z.shiftr payload_length (8 * i)) 255) [7; 6; 5; 4; 3; 2; 1; 0]).

(** [None] is an access out of bounds. *)
Definition websocketsresponse_prepare (r : websocketsresponse) (payload : option (list Z)) (length : Z) : option websocketsresponse :=
  let data := replicate (Z.to_nat (b_size (body r))) junk in
  data ← mem_write data 0 [frame_code r];
  '(data, pos) ← websocketsresponse_set_payload_length data 1 length;
  data ← match payload with None => Some data | Some p => mem_write data pos (take (Z.to_nat length) p) end;
  Some (set_body_ r (WsBody (b_size (body r)) 0 (Some data))).

Definition with_size (r : websocketsresponse) (code size : Z) : websocketsresponse := set_body_ (set_code r code) (WsBody size (b_pos (body r)) (b_data (body r))).

Definition WS_COMPRESS_THRESHOLD : Z := 128.
Definition UINT_MAX : Z := 4294967295.

(** The marker at the end of a flushed block. *)
Definition sync_marker : list Z := [0; 0; 255; 255].
Definition strip_marker (out : list Z) : list Z :=
  if (4 <=? zlen out) && bool_decide (drop (length out - 4) out = sync_marker) then take (length out - 4) out else out.

(** Whether the message was compressed, and the response. *)
Definition compress_and_send (r : websocketsresponse) (ws : ws_deflate) (opcode : Z) (data : list Z) : option (bool * websocketsresponse) :=
  let stream_is s := set_stream r (Some (WsDeflate (deflate_init ws) s (server_no_context_takeover ws))) in
  if UINT_MAX / 2 <? zlen data then Some (false, r)
  else
    match deflate (deflate_stream ws) data with
    | (None, s) => Some (false, stream_is (deflateReset s))
    | (Some compressed, s) =>
        let out := strip_marker compressed in
        if zlen data <=? zlen out then Some (false, stream_is (deflateReset s))
        else
          let s' := if deflate_init ws && server_no_context_takeover ws then deflateReset s else s in
          r' ← websocketsresponse_prepare (with_size (stream_is s') (Z.lor (Z.lor 128 64) opcode) (websocketsresponse_data_size (zlen out))) (Some out) (zlen out);
          Some (true, r')
    end.

Definition send_plain (r : websocketsresponse) (code : Z) (data : list Z) : option websocketsresponse :=
  websocketsresponse_prepare (with_size r code (websocketsresponse_data_size (zlen data))) (Some data) (zlen data).

(** [websocketsresponse_textn] and [websocketsresponse_binaryn], which differ in the opcode. *)
Definition websocketsresponse_send (opcode : Z) (r : websocketsresponse) (data : list Z) : option websocketsresponse :=
  match r_deflate r with
  | Some ws =>
      if deflate_init ws && (WS_COMPRESS_THRESHOLD <=? zlen data) then
        '(done, r) ← compress_and_send r ws opcode data;
        if done : bool then Some r else send_plain r (Z.lor 128 opcode) data
      else send_plain r (Z.lor 128 opcode) data
  | None => send_plain r (Z.lor 128 opcode) data
  end.
Definition websocketsresponse_textn : websocketsresponse → list Z → option websocketsresponse := websocketsresponse_send 1.
Definition websocketsresponse_binaryn : websocketsresponse → list Z → option websocketsresponse := websocketsresponse_send 2.

(** [websocketsresponse_datan]: as the request was. *)
Definition websocketsresponse_datan (text : bool) (r : websocketsresponse) (data : list Z) : option websocketsresponse :=
  if text then websocketsresponse_textn r data else websocketsresponse_binaryn r data.

Definition control_frame (code : Z) (r : websocketsresponse) (data : option (list Z)) (length : Z) : option websocketsresponse :=
  let r := websocketsresponse_reset r in
  let length := match data with None => 0 | Some _ => length end in
  let length := if 125 <? length then 125 else length in
  websocketsresponse_prepare (with_size r code (websocketsresponse_data_size length)) data length.
Definition websocketsresponse_pong : websocketsresponse → option (list Z) → Z → option websocketsresponse := control_frame 138.
Definition websocketsresponse_close : websocketsresponse → option (list Z) → Z → option websocketsresponse := control_frame 136.

Definition websocketsresponse_default (r : websocketsresponse) (text : list Z) : option websocketsresponse := websocketsresponse_textn (websocketsresponse_reset r) text.

(** [websocketsresponse_filen] when the file could be opened: its header; the content follows from the file. *)
Definition websocketsresponse_filen (r : websocketsresponse) (content : list Z) : option websocketsresponse :=
  let r := WsResponse (frame_code r) (body r) (WsFile (zlen content) 0 (Some content)) (r_deflate r) in
  websocketsresponse_prepare (with_size r 130 (websocketsresponse_file_size (zlen content))) None (zlen content).

Definition websocketsresponse_detach_body (r : websocketsresponse) : option (list Z) * Z * websocketsresponse :=
  (b_data (body r), b_size (body r), set_code (set_body_ r (WsBody 0 0 None)) 0).
Definition websocketsresponse_set_body (r : websocketsresponse) (data : option (list Z)) (size : Z) : websocketsresponse := set_body_ r (WsBody size 0 data).

(** *** Batches of broadcasts *)

Definition BROADCAST_BATCH_MESSAGES : Z := 64.
Definition BROADCAST_BATCH_BYTES : Z := 256 * 1024.
Definition SIZE_MAX : Z := 2 ^ 64 - 1.

(** The capacity, doubled until it is enough. *)
Fixpoint batch_capacity (fuel : nat) (capacity need : Z) : option Z :=
  match fuel with
  | O => None
  | S f => if capacity <? need then if SIZE_MAX / 2 <? capacity then Some need else batch_capacity f (capacity * 2) need else Some capacity
  end.

(** The buffer, of [capacity] bytes, with the frame behind its first [size] bytes. *)
Definition broadcast_batch_append (buffer : list Z) (size capacity : Z) (frame : option (list Z)) (frame_size : Z) : option (list Z * Z * Z) :=
  match frame with
  | None => Some (buffer, size, capacity)
  | Some frame =>
      if frame_size =? 0 then Some (buffer, size, capacity)
      else
        '(buffer, capacity) ← (if capacity <? size + frame_size then
                                 c ← batch_capacity 65 (if capacity =? 0 then frame_size else capacity) (size + frame_size);
                                 Some (grow junk buffer c, c)
                               else Some (buffer, capacity));
        buffer ← mem_write buffer size (take (Z.to_nat frame_size) frame);
        Some (buffer, size + frame_size, capacity)
  end.

(** [__broadcast_queue_request_handler]: the messages from the queue, each made a frame by its handler, until the batch is full. The response, and the queue afterwards. *)
Section Batch.
Variable handler : websocketsresponse → list Z → option websocketsresponse.

Fixpoint batch_loop (queue : list (list Z)) (r : websocketsresponse) (buffer : list Z) (size capacity processed : Z) : option (websocketsresponse * list (list Z)) :=
  match queue with
  | [] => Some (websocketsresponse_set_body r (if capacity =? 0 then None else Some buffer) size, [])
  | payload :: queue' =>
      r ← handler r payload;
      let '(frame, frame_size, r) := websocketsresponse_detach_body r in
      '(buffer, size, capacity) ← broadcast_batch_append buffer size capacity frame frame_size;
      let processed := processed + 1 in
      if (BROADCAST_BATCH_MESSAGES <=? processed) || (BROADCAST_BATCH_BYTES <=? size)
      then Some (websocketsresponse_set_body r (if capacity =? 0 then None else Some buffer) size, queue')
      else batch_loop queue' r buffer size capacity processed
  end.

Definition broadcast_queue_request_handler (queue : list (list Z)) (d : option ws_deflate) : option (websocketsresponse * list (list Z)) :=
  batch_loop queue (websocketsresponse_create d) [] 0 0 0.
End Batch.

(** *** Writing *)

(** What [send] or [read] does: a number of bytes, try again, or an error. *)
Inductive io : Set := Moved (n : Z) | Again | Broken.
Inductive outcome : Set := WouldWait | Failed | AfterWrite.

(** The bytes a call moves of [size]. *)
Definition moved (n size : Z) : Z := Z.min (Z.max 0 n) size.

(** [__write]: the bytes sent, what comes next, and the response. *)
Definition write_file (buffer_size : Z) (rd wr : io) (r : websocketsresponse) : list Z * outcome * websocketsresponse :=
  let f := file_ r in
  match f_content f with
  | Some content =>
      if f_pos f <? f_size f then
        let size := Z.min (f_size f - f_pos f) buffer_size in
        match rd with
        | Broken => ([], Failed, r)
        | Again => ([], WouldWait, r)
        | Moved k =>
            let chunk := take (Z.to_nat (moved k size)) (drop (Z.to_nat (f_pos f)) content) in
            if zlen chunk =? 0 then ([], Failed, r)
            else match wr with
                 | Broken => ([], Failed, r)
                 | Again => ([], WouldWait, r)
                 | Moved n =>
                     let pos := f_pos f + moved n (zlen chunk) in
                     (take (Z.to_nat (moved n (zlen chunk))) chunk, if pos <? f_size f then WouldWait else AfterWrite, WsResponse (frame_code r) (body r) (WsFile (f_size f) pos (f_content f)) (r_deflate r))
                 end
        end
      else ([], AfterWrite, r)
  | None => ([], AfterWrite, r)
  end.

Definition ws_write (buffer_size : Z) (call : io * io * io) (r : websocketsresponse) : list Z * outcome * websocketsresponse :=
  let b := body r in
  let '(wr, rd, wr') := call in
  match b_data b with
  | None => ([], AfterWrite, r)
  | Some data =>
      if b_pos b <? b_size b then
        let size := Z.min (b_size b - b_pos b) buffer_size in
        match wr with
        | Broken => ([], Failed, r)
        | Again => ([], WouldWait, r)
        | Moved n =>
            let pos := b_pos b + moved n size in
            let sent := slice (b_pos b) (moved n size) data in
            let r := set_body_ r (WsBody (b_size b) pos (b_data b)) in
            if pos <? b_size b then (sent, WouldWait, r)
            else let '(more, o, r) := write_file buffer_size rd wr' r in (sent ++ more, o, r)
        end
      else write_file buffer_size rd wr' r
  end.

(** The calls of the event loop until the response is written or the connection fails; [None] while it is not over. *)
Fixpoint ws_pump (buffer_size : Z) (calls : list (io * io * io)) (r : websocketsresponse) : list Z * option outcome :=
  match calls with
  | [] => ([], None)
  | call :: calls' =>
      let '(sent, o, r) := ws_write buffer_size call r in
      match o with
      | WouldWait => let '(more, o) := ws_pump buffer_size calls' r in (sent ++ more, o)
      | _ => (sent, Some o)
      end
  end.
End Response.
