(* ===== verification/WsDelivery.v ===== *)
(** The frames of [WsResponse] are read by a peer as the messages that were sent, and the write handler and the broadcast batches deliver them. *)

From S2P Require Import Prelude HttpResponse RangeBody WsResponse.

(** ** What a peer reads (RFC 6455, RFC 7692) *)

Definition bytes_be (n : nat) (v : Z) : list Z := map (λ i, Z.land (Z.shiftr v (8 * Z.of_nat i)) 255) (rev (seq 0 n)).
Fixpoint value_be (acc : Z) (l : list Z) : Z := match l with [] => acc | b :: l' => value_be (acc * 256 + b) l' end.

(** The length bytes of a payload of [n] bytes. *)
Definition length_bytes (n : Z) : list Z := if n <=? 125 then [n] else if n <=? 65535 then 126 :: bytes_be 2 n else 127 :: bytes_be 8 n.
Definition frame (code : Z) (payload : list Z) : list Z := [code] ++ length_bytes (zlen payload) ++ payload.

(** A frame without a mask: its first byte, its payload and what follows. *)
Definition decode_frame (l : list Z) : option (Z * list Z * list Z) :=
  match l with
  | code :: n :: l' =>
      '(size, l') ← (if n <=? 125 then Some (n, l')
                     else if n =? 126 then if 2 <=? zlen l' then Some (value_be 0 (take 2 l'), drop 2 l') else None
                     else if n =? 127 then if 8 <=? zlen l' then Some (value_be 0 (take 8 l'), drop 8 l') else None
                     else None);
      if size <=? zlen l' then Some (code, take (Z.to_nat size) l', drop (Z.to_nat size) l') else None
  | _ => None
  end.

(** What is relied on of zlib: the output of a flush ends with the marker, and an inflater in step with the stream reads it as the data; a reset stream refers to nothing before it. *)
Class DeflateLaws `{Deflate} := {
  inflater : Type;
  inflate : inflater → list Z → option (list Z * inflater);
  in_step : stream → inflater → Prop;
  deflate_law : ∀ s i data out s', in_step s i → deflate s data = (Some out, s') → (∃ out', out = out' ++ sync_marker) ∧ ∃ i', inflate i out = Some (data, i') ∧ in_step s' i';
  reset_law : ∀ s i, in_step (deflateReset s) i }.

Section Peer.
Context `{DeflateLaws}.

(** The messages in a stream of frames: the opcode and the data; a compressed payload has lost its marker. *)
Fixpoint receive (fuel : nat) (i : inflater) (l : list Z) : option (list (Z * list Z) * inflater) :=
  match fuel with
  | O => None
  | S f =>
      match l with
      | [] => Some ([], i)
      | _ =>
          '(code, payload, l') ← decode_frame l;
          '(data, i) ← (if Z.testbit code 6 then inflate i (payload ++ sync_marker) else Some (payload, i));
          '(rest, i) ← receive f i l';
          Some ((Z.land code 15, data) :: rest, i)
      end
  end.
End Peer.

(** ** Lemmas on frames *)

Lemma length_bytes_be n v : length (bytes_be n v) = n.
Proof. unfold bytes_be. by rewrite length_map, length_rev, length_seq. Qed.

Lemma value_be_app a b : ∀ acc, value_be acc (a ++ b) = value_be (value_be acc a) b.
Proof. induction a as [|x a IH]; intros acc; [done|]. cbn. apply IH. Qed.

Lemma bytes_be_S n v : bytes_be (S n) v = Z.land (Z.shiftr v (8 * Z.of_nat n)) 255 :: bytes_be n v.
Proof. unfold bytes_be. by rewrite seq_S, rev_app_distr. Qed.

Lemma value_bytes_be n v : ∀ acc, 0 <= v < 2 ^ (8 * Z.of_nat n) → value_be acc (bytes_be n v) = acc * 2 ^ (8 * Z.of_nat n) + v.
Proof.
  intros acc Hv. assert (∀ acc, value_be acc (bytes_be n v) = acc * 2 ^ (8 * Z.of_nat n) + v mod 2 ^ (8 * Z.of_nat n)) as H; [|rewrite H, Z.mod_small; lia]. clear acc Hv.
  induction n as [|n IH]; intros acc; [cbn; rewrite Z.mod_1_r; lia|]. rewrite bytes_be_S. cbn [value_be]. rewrite IH.
  change 255 with (Z.ones 8). rewrite Z.land_ones by lia. rewrite Z.shiftr_div_pow2 by lia.
  replace (8 * Z.of_nat (S n)) with (8 * Z.of_nat n + 8) by lia. rewrite Z.pow_add_r by lia. set (p := 2 ^ (8 * Z.of_nat n)). assert (0 < p) by (apply Z.pow_pos_nonneg; lia).
  rewrite (Z.rem_mul_r v p (2 ^ 8)) by lia. change (2 ^ 8) with 256. lia.
Qed.

Lemma decode_encoded code payload rest : zlen payload < 2 ^ 64 → decode_frame (frame code payload ++ rest) = Some (code, payload, rest).
Proof.
  intros Hn. pose proof (zlen_nonneg payload) as H0. unfold frame, length_bytes. rewrite <- !app_assoc. cbn [app].
  assert (∀ size : Z, size = zlen payload → (if size <=? zlen (payload ++ rest) then Some (code, take (Z.to_nat size) (payload ++ rest), drop (Z.to_nat size) (payload ++ rest)) else None) = Some (code, payload, rest)) as Hpay.
  { intros size ->. rewrite (proj2 (Z.leb_le _ _)) by zlen_lia. rewrite take_app_length', drop_app_length' by (unfold zlen; lia). done. }
  assert (∀ (n : nat) r, take n (bytes_be n (zlen payload) ++ r) = bytes_be n (zlen payload) ∧ drop n (bytes_be n (zlen payload) ++ r) = r) as Hb.
  { intros n r. split; [apply take_app_length'|apply drop_app_length']; by rewrite length_bytes_be. }
  destruct (Z.leb_spec (zlen payload) 125) as [H1|H1].
  - cbn [app decode_frame]. rewrite (proj2 (Z.leb_le (zlen payload) 125) H1). cbn [mbind option_bind]. by apply Hpay.
  - destruct (Z.leb_spec (zlen payload) 65535) as [H2|H2]; cbn [app decode_frame].
    + destruct (Hb 2%nat (payload ++ rest)) as [E1 E2]. cbn [Z.leb Z.eqb Z.compare Pos.compare Pos.compare_cont Pos.eqb].
      rewrite (proj2 (Z.leb_le 2 _)) by (rewrite zlen_app; unfold zlen; rewrite length_bytes_be; lia). rewrite E1, E2, value_bytes_be by (cbn; lia). cbn [mbind option_bind]. apply Hpay. lia.
    + destruct (Hb 8%nat (payload ++ rest)) as [E1 E2]. cbn [Z.leb Z.eqb Z.compare Pos.compare Pos.compare_cont Pos.eqb].
      rewrite (proj2 (Z.leb_le 8 _)) by (rewrite zlen_app; unfold zlen; rewrite length_bytes_be; lia). rewrite E1, E2, value_bytes_be by (cbn; lia). cbn [mbind option_bind]. apply Hpay. lia.
Qed.

(** ** The frames of the response *)

Lemma set_length_bytes data pos n : websocketsresponse_set_payload_length data pos n = put_bytes data pos (length_bytes n).
Proof.
  unfold websocketsresponse_set_payload_length, length_bytes. case_if; [done|]. case_if; [|done]. unfold bytes_be. cbn [seq rev app map Z.of_nat Pos.of_succ_nat Pos.succ]. by rewrite Z.shiftr_0_r.
Qed.

Lemma put_bytes_at l : ∀ pre mid post : list Z, zlen mid = zlen l → put_bytes (pre ++ mid ++ post) (zlen pre) l = Some (pre ++ l ++ post, zlen pre + zlen l).
Proof.
  induction l as [|b l IH]; intros pre mid post Hm; [apply zlen_0_nil in Hm as ->; cbn; by rewrite Z.add_0_r|].
  destruct mid as [|x mid]; [zlen_lia|]. cbn [put_bytes]. rewrite mem_set_Some by zlen_lia. cbn [mbind option_bind].
  replace (<[Z.to_nat (zlen pre) := b]> (pre ++ (x :: mid) ++ post)) with ((pre ++ [b]) ++ mid ++ post) by (unfold zlen; rewrite Nat2Z.id; cbn [app]; by rewrite insert_app_r_alt, Nat.sub_diag, <- app_assoc by lia).
  replace (zlen pre + 1) with (zlen (pre ++ [b])) by zlen_lia. rewrite IH by zlen_lia. rewrite <- app_assoc. do 2 f_equal. zlen_lia.
Qed.

Lemma put_at_end pre mid src : zlen mid = zlen src → mem_write (pre ++ mid) (zlen pre) src = Some (pre ++ src).
Proof.
  intros Hm. rewrite mem_write_Some by zlen_lia. rewrite take_app_length' by (unfold zlen; lia). do 2 f_equal. rewrite (drop_ge (pre ++ mid)) by (rewrite length_app; unfold zlen in *; lia). apply app_nil_r.
Qed.

Lemma zlen_length_bytes n : zlen (length_bytes n) = websocketsresponse_file_size n - 1.
Proof. unfold length_bytes, websocketsresponse_file_size. repeat case_if; rewrite ?zlen_cons; [done|unfold zlen; rewrite length_bytes_be; lia..]. Qed.

Section Frames.
Context `{DeflateLaws}.
Variable junk : Z.
Notation websocketsresponse := (websocketsresponse (H := H)).

(** What [websocketsresponse_prepare] copies. *)
Definition copied (payload : option (list Z)) (length : Z) : list Z := match payload with Some p => take (Z.to_nat length) p | None => [] end.

Lemma prepared (r : websocketsresponse) payload length : b_size (body r) = websocketsresponse_file_size length + zlen (copied payload length) →
  websocketsresponse_prepare junk r payload length = Some (set_body_ r (WsBody (b_size (body r)) 0 (Some ([frame_code r] ++ length_bytes length ++ copied payload length)))).
Proof.
  intros Hs. unfold websocketsresponse_prepare. set (n := b_size (body r)) in *. set (p := copied payload length) in *. pose proof (zlen_length_bytes length) as Hl. pose proof (zlen_nonneg (length_bytes length)) as Hl0. pose proof (zlen_nonneg p) as Hp0.
  assert (replicate (Z.to_nat n) junk = [junk] ++ replicate (Z.to_nat (zlen (length_bytes length))) junk ++ replicate (Z.to_nat (zlen p)) junk) as ->.
  { change [junk] with (replicate 1 junk). rewrite <- !replicate_add. f_equal. lia. }
  rewrite mem_write_Some by zlen_lia. cbn [mbind option_bind]. change (Z.to_nat 0) with O. cbn [take Datatypes.length Nat.add drop app]. rewrite drop_0.
  rewrite set_length_bytes.
  pose proof (put_bytes_at (length_bytes length) [frame_code r] (replicate (Z.to_nat (zlen (length_bytes length))) junk) (replicate (Z.to_nat (zlen p)) junk) ltac:(rewrite zlen_replicate; lia)) as Eput.
  change (zlen [frame_code r]) with 1 in Eput. cbn [app] in Eput. rewrite Eput. clear Eput. cbn [mbind option_bind].
  destruct payload as [q|]; [|by subst p]. change (take (Z.to_nat length) q) with p.
  pose proof (put_at_end (frame_code r :: length_bytes length) (replicate (Z.to_nat (zlen p)) junk) p ltac:(rewrite zlen_replicate; lia)) as Eput. rewrite zlen_cons in Eput. cbn [app] in Eput. by rewrite Eput.
Qed.

(** A message in a frame of its own. *)
Lemma data_size n : websocketsresponse_data_size n = websocketsresponse_file_size n + n.
Proof. unfold websocketsresponse_data_size, websocketsresponse_file_size. lia. Qed.

Lemma frame_size code data : zlen (frame code data) = websocketsresponse_data_size (zlen data).
Proof. unfold frame. rewrite !zlen_app, zlen_length_bytes, data_size. change (zlen [code]) with 1. lia. Qed.

Definition framed (r : websocketsresponse) (code : Z) (data : list Z) : websocketsresponse := WsResponse code (WsBody (zlen (frame code data)) 0 (Some (frame code data))) (file_ r) (r_deflate r).

Lemma prepared_frame (r : websocketsresponse) code data : websocketsresponse_prepare junk (with_size r code (websocketsresponse_data_size (zlen data))) (Some data) (zlen data) = Some (framed r code data).
Proof.
  rewrite prepared; cbn [copied with_size set_body_ body b_size]; rewrite take_zlen; [|apply data_size]. unfold framed. by rewrite frame_size.
Qed.

(** Control frames carry at most 125 bytes. *)
Lemma control_framed code (r : websocketsresponse) data : control_frame junk code r (Some data) (zlen data) = Some (framed (websocketsresponse_reset r) code (take 125 data)).
Proof.
  unfold control_frame. set (n := if 125 <? zlen data then 125 else zlen data). assert (zlen (take 125 data) = n) as Hn by (change 125%nat with (Z.to_nat 125); rewrite zlen_take; pose proof (zlen_nonneg data); subst n; case_if; reflect_bools; lia).
  assert (take (Z.to_nat n) data = take 125 data) as Ht by (subst n; case_if; [done|]; reflect_bools; rewrite !take_ge by (unfold zlen in *; lia); done).
  rewrite prepared; cbn [copied with_size set_body_ body b_size]; rewrite Ht; [|rewrite Hn; apply data_size]. unfold framed. rewrite frame_size, Hn. unfold frame. by rewrite Hn.
Qed.

(** A file is announced by its header; the content follows. *)
Lemma file_framed (r : websocketsresponse) content :
  websocketsresponse_filen junk r content = Some (WsResponse 130 (WsBody (websocketsresponse_file_size (zlen content)) 0 (Some (130 :: length_bytes (zlen content)))) (WsFile (zlen content) 0 (Some content)) (r_deflate r)).
Proof. unfold websocketsresponse_filen. rewrite prepared; cbn [copied with_size set_body_ body b_size]; [by rewrite app_nil_r|rewrite zlen_nil; lia]. Qed.

(** The opcode and the data, as the peer reads them from the frame, with the stream afterwards in step. *)
Definition sync (d : option ws_deflate) (i : inflater) : Prop := match d with Some ws => in_step (deflate_stream ws) i | None => True end.

Lemma strip_law out : strip_marker (out ++ sync_marker) = out.
Proof.
  unfold strip_marker. rewrite length_app. cbn [length sync_marker]. replace (length out + 4 - 4)%nat with (length out) by lia.
  rewrite drop_app_length, take_app_length, bool_decide_true by done. rewrite (proj2 (Z.leb_le 4 _)) by (rewrite zlen_app; change (zlen sync_marker) with 4; pose proof (zlen_nonneg out); lia). done.
Qed.

(** One message of a peer that is in step. *)
Definition reads (i : inflater) (code : Z) (payload : list Z) (opcode : Z) (data : list Z) (i' : inflater) : Prop :=
  zlen payload < 2 ^ 64 ∧ Z.land code 15 = opcode ∧ (if Z.testbit code 6 then inflate i (payload ++ sync_marker) else Some (payload, i)) = Some (data, i').

Lemma send_framed opcode (r : websocketsresponse) data i : opcode = 1 ∨ opcode = 2 → zlen data < 2 ^ 64 → sync (r_deflate r) i →
  ∃ r' code payload i', websocketsresponse_send junk opcode r data = Some (framed r' code payload) ∧ file_ r' = file_ r ∧ reads i code payload opcode data i' ∧ sync (r_deflate r') i' ∧ zlen payload <= zlen data.
Proof.
  intros Hop Hn Hi. assert (∀ r0, r_deflate r0 = r_deflate r ∨ (∃ ws, r_deflate r0 = Some ws ∧ sync (Some ws) i) → file_ r0 = file_ r →
    ∃ r' code payload i', send_plain junk r0 (Z.lor 128 opcode) data = Some (framed r' code payload) ∧ file_ r' = file_ r ∧ reads i code payload opcode data i' ∧ sync (r_deflate r') i' ∧ zlen payload <= zlen data) as Hplain.
  { intros r0 Hr0 Hf. exists r0, (Z.lor 128 opcode), data, i. split; [apply prepared_frame|]. split; [done|]. split; [|split; [destruct Hr0 as [-> |(ws & -> & Hw)]; done|done]].
    split; [done|]. by destruct Hop as [-> | ->]. }
  unfold websocketsresponse_send. destruct (r_deflate r) as [ws|] eqn:Ed; [|apply Hplain; auto].
  destruct (deflate_init ws && (WS_COMPRESS_THRESHOLD <=? zlen data)); [|apply Hplain; auto]. unfold compress_and_send.
  case_if; [cbn; apply Hplain; auto|]. cbn [sync] in Hi. destruct (deflate (deflate_stream ws) data) as [[out|] s] eqn:Edef.
  - destruct (deflate_law _ _ _ _ _ Hi Edef) as [[out' ->] (i' & Hinf & Hs)]. rewrite strip_law. case_if; [cbn; apply Hplain; [right; eexists; split; [done|cbn; apply reset_law]|done]|].
    rewrite prepared_frame. cbn [mbind option_bind]. eexists _, _, out', i'. split; [done|]. split; [done|]. split.
    + split; [reflect_bools; lia|]. destruct Hop as [-> | ->]; split; done.
    + split; [cbn; case_if; [apply reset_law|done]|reflect_bools; lia].
  - cbn. apply Hplain; [right; eexists; split; [done|cbn; apply reset_law]|done].
Qed.
End Frames.

(** What a WebSocket peer receives: the messages a server sends or broadcasts, however the socket takes them. *)

(** ** Writing *)

Section Write.
Context `{Deflate}.
Notation websocketsresponse := (websocketsresponse (H := H)).

(** What is left to write. *)
Definition file_rest (r : websocketsresponse) : list Z := match f_content (file_ r) with Some content => drop (Z.to_nat (f_pos (file_ r))) content | None => [] end.
Definition remaining (r : websocketsresponse) : list Z :=
  match b_data (body r) with Some data => slice (b_pos (body r)) (b_size (body r) - b_pos (body r)) data ++ file_rest r | None => [] end.

Record writable (r : websocketsresponse) : Prop := {
  wr_body : match b_data (body r) with Some data => 0 <= b_pos (body r) <= b_size (body r) ∧ b_size (body r) <= zlen data | None => True end;
  wr_file : match f_content (file_ r) with Some content => 0 <= f_pos (file_ r) <= f_size (file_ r) ∧ f_size (file_ r) = zlen content | None => True end }.

(** A call that makes progress. *)
Definition moves (c : io) : Prop := match c with Moved n => 1 <= n | _ => False end.

Lemma moved_range n size : 0 <= size → 0 <= moved n size <= size ∧ (1 <= n → 1 <= size → 1 <= moved n size).
Proof. unfold moved. lia. Qed.

Lemma write_file_rest buf rd wr (r : websocketsresponse) sent o r' : 1 <= buf → writable r → write_file buf rd wr r = (sent, o, r') →
  writable r' ∧ file_rest r = sent ++ file_rest r' ∧ body r' = body r ∧ (o = AfterWrite → file_rest r' = []) ∧ (moves rd → moves wr → o = AfterWrite ∨ (o = WouldWait ∧ 1 <= zlen sent)).
Proof.
  intros Hb [W1 W2] E. unfold write_file, file_rest in *. destruct (f_content (file_ r)) as [content|] eqn:Ec; [|simplify_eq; rewrite Ec; split; [constructor; [done|by rewrite Ec]|by auto]].
  destruct (Z.ltb_spec (f_pos (file_ r)) (f_size (file_ r))) as [Hlt|Hge]; [|simplify_eq; rewrite Ec; split; [constructor; [done|by rewrite Ec]|]; split; [done|]; split; [done|]; split; [intros _; apply drop_ge; unfold zlen in *; lia|auto]].
  assert (∀ o0, (sent, o, r') = ([] : list Z, o0, r) → o0 ≠ AfterWrite → ¬ (moves rd ∧ moves wr) → writable r' ∧ drop (Z.to_nat (f_pos (file_ r))) content = sent ++ match f_content (file_ r') with Some content => drop (Z.to_nat (f_pos (file_ r'))) content | None => [] end ∧ body r' = body r
    ∧ (o = AfterWrite → match f_content (file_ r') with Some content => drop (Z.to_nat (f_pos (file_ r'))) content | None => [] end = []) ∧ (moves rd → moves wr → o = AfterWrite ∨ (o = WouldWait ∧ 1 <= zlen sent))) as Hno.
  { intros o0 Eo Ho Hm. simplify_eq. rewrite Ec. split; [constructor; [done|by rewrite Ec]|]. split; [done|]. split; [done|]. split; [done|]. tauto. }
  destruct rd as [k| |]; [|apply (Hno WouldWait); [by symmetry|done|cbn; tauto]|apply (Hno Failed); [by symmetry|done|cbn; tauto]].
  set (size := Z.min (f_size (file_ r) - f_pos (file_ r)) buf) in *. destruct (moved_range k size ltac:(lia)) as [Hk Hk1].
  set (chunk := take (Z.to_nat (moved k size)) (drop (Z.to_nat (f_pos (file_ r))) content)) in *.
  assert (zlen chunk = moved k size) as Hch by (subst chunk; rewrite zlen_take, zlen_drop; lia).
  destruct (Z.eqb_spec (zlen chunk) 0) as [Hz|Hz]; [apply (Hno Failed); [by symmetry|done|cbn; intros [? _]; lia]|].
  destruct wr as [n| |]; [|apply (Hno WouldWait); [by symmetry|done|cbn; tauto]|apply (Hno Failed); [by symmetry|done|cbn; tauto]].
  destruct (moved_range n (zlen chunk) ltac:(lia)) as [Hn Hn1]. symmetry in E. simplify_eq. cbn [file_ f_content f_pos f_size body]. split; [|split; [|split; [done|split]]].
  - constructor; cbn; [done|]. lia.
  - subst chunk. rewrite take_take. replace (Z.to_nat (moved n (zlen (take (Z.to_nat (moved k size)) (drop (Z.to_nat (f_pos (file_ r))) content)))) `min` Z.to_nat (moved k size))%nat with (Z.to_nat (moved n (zlen (take (Z.to_nat (moved k size)) (drop (Z.to_nat (f_pos (file_ r))) content))))) by lia.
    rewrite <- (take_drop (Z.to_nat (moved n (zlen (take (Z.to_nat (moved k size)) (drop (Z.to_nat (f_pos (file_ r))) content))))) (drop (Z.to_nat (f_pos (file_ r))) content)) at 1. f_equal. rewrite drop_drop. f_equal. lia.
  - case_if; [done|]. intros _. apply drop_ge. reflect_bools. unfold zlen in *. lia.
  - intros Hk2 Hn2. case_if; [right|by left]. split; [done|]. rewrite zlen_take. cbn in Hk2, Hn2. specialize (Hn1 Hn2). lia.
Qed.

Lemma write_remaining buf call (r : websocketsresponse) sent o r' : 1 <= buf → writable r → ws_write buf call r = (sent, o, r') →
  writable r' ∧ remaining r = sent ++ remaining r' ∧ (o = AfterWrite → remaining r' = [] ∨ b_data (body r) = None) ∧ (moves call.1.1 → moves call.1.2 → moves call.2 → o = AfterWrite ∨ (o = WouldWait ∧ 1 <= zlen sent)).
Proof.
  intros Hb Hw E. pose proof Hw as [W1 W2]. destruct call as [[wr rd] wr']. unfold ws_write, remaining in *. destruct (b_data (body r)) as [data|] eqn:Ed; [|simplify_eq; rewrite Ed; by auto].
  destruct (Z.ltb_spec (b_pos (body r)) (b_size (body r))) as [Hlt|Hge].
  - set (size := Z.min (b_size (body r) - b_pos (body r)) buf) in *.
    destruct wr as [n| |]; [|simplify_eq; rewrite Ed; split; [done|]; split; [done|]; split; [done|by cbn]..].
    destruct (moved_range n size ltac:(lia)) as [Hn Hn1]. set (pos := b_pos (body r) + moved n size) in *. set (r1 := set_body_ r (WsBody (b_size (body r)) pos (Some data))) in *.
    assert (writable r1) as Hw1 by (constructor; [cbn; lia|done]).
    assert (slice (b_pos (body r)) (b_size (body r) - b_pos (body r)) data = slice (b_pos (body r)) (moved n size) data ++ slice pos (b_size (body r) - pos) data) as Hsl.
    { rewrite (slice_split (b_pos (body r)) _ (moved n size)) by lia. do 2 f_equal. lia. }
    rewrite Hsl, <- app_assoc. destruct (Z.ltb_spec pos (b_size (body r))) as [Hp|Hp].
    + simplify_eq. split; [done|]. split; [done|]. split; [done|]. intros Hm _ _. right. split; [done|]. unfold slice. rewrite zlen_take, zlen_drop. specialize (Hn1 Hm). lia.
    + destruct (write_file buf rd wr' r1) as [[more o1] r2] eqn:Ef. destruct (write_file_rest buf rd wr' r1 more o1 r2 Hb Hw1 Ef) as (W3 & E1 & E2 & E3 & E4).
      simplify_eq. rewrite E2. cbn [r1 set_body_ body b_data b_pos b_size]. assert (∀ m, slice pos (b_size (body r) - pos) m = []) as Hz by (intros m; unfold slice; replace (Z.to_nat (b_size (body r) - pos)) with O by lia; done).
      rewrite !Hz. cbn [app]. split; [done|]. split; [change (file_rest r) with (file_rest r1); by rewrite E1, app_assoc|]. split; [auto|].
      intros Hm Hm1 Hm2. destruct (E4 Hm1 Hm2) as [?|[? ?]]; [by left|right; split; [done|]]. rewrite zlen_app. pose proof (zlen_nonneg (slice (b_pos (body r)) (moved n size) data)). lia.
  - destruct (write_file_rest buf rd wr' r sent o r' Hb Hw E) as (W3 & E1 & E2 & E3 & E4). rewrite E2, Ed. split; [done|].
    assert (slice (b_pos (body r)) (b_size (body r) - b_pos (body r)) data = []) as -> by (unfold slice; replace (Z.to_nat (b_size (body r) - b_pos (body r))) with O by lia; done).
    split; [done|]. split; [auto|]. intros _. auto.
Qed.

Lemma pump_delivers buf calls : ∀ (r : websocketsresponse) sent o, 1 <= buf → writable r → b_data (body r) ≠ None → ws_pump buf calls r = (sent, o) →
  (o = Some AfterWrite → sent = remaining r) ∧ (∃ rest, remaining r = sent ++ rest).
Proof.
  induction calls as [|call calls IH]; intros r sent o Hb Hw Hd E; cbn in E; [simplify_eq; split; [done|by eexists]|].
  destruct (ws_write buf call r) as [[s1 o1] r1] eqn:Ew. destruct (write_remaining buf call r s1 o1 r1 Hb Hw Ew) as (W1 & E1 & E2 & _).
  destruct o1; [|simplify_eq; split; [done|by eexists]|simplify_eq; split; [intros _; destruct (E2 eq_refl) as [E3|?]; [by rewrite E1, E3, app_nil_r|done]|by eexists]].
  destruct (ws_pump buf calls r1) as [s2 o2] eqn:Ep. simplify_eq.
  assert (b_data (body r1) ≠ None) as Hd1.
  { clear - Ew Hd. destruct call as [[wr rd] wr']. unfold ws_write in Ew. destruct (b_data (body r)) as [data|] eqn:Ed; [|done]. repeat case_match; simplify_eq; cbn; try congruence.
    all: unfold write_file in *; repeat case_match; simplify_eq; cbn; congruence. }
  destruct (IH r1 s2 o Hb W1 Hd1 Ep) as [H1 [rest H2]]. split; [intros Ho; by rewrite E1, (H1 Ho)|exists rest; by rewrite E1, H2, app_assoc].
Qed.

(** Enough calls that make progress write everything. *)
Lemma pump_finishes buf calls : ∀ (r : websocketsresponse), 1 <= buf → writable r → Forall (λ c, moves c.1.1 ∧ moves c.1.2 ∧ moves c.2) calls → zlen (remaining r) < zlen calls → (ws_pump buf calls r).2 = Some AfterWrite.
Proof.
  induction calls as [|call calls IH]; intros r Hb Hw Hm Hn; [rewrite zlen_nil in Hn; pose proof (zlen_nonneg (remaining r)); lia|]. apply Forall_cons in Hm as [(M1 & M2 & M3) Hm]. cbn.
  destruct (ws_write buf call r) as [[s1 o1] r1] eqn:Ew. destruct (write_remaining buf call r s1 o1 r1 Hb Hw Ew) as (W1 & E1 & _ & E2).
  destruct (E2 M1 M2 M3) as [-> |[-> H1]]; [done|]. rewrite zlen_cons in Hn. rewrite E1, zlen_app in Hn.
  specialize (IH r1 Hb W1 Hm ltac:(lia)). destruct (ws_pump buf calls r1) as [s2 o2]. exact IH.
Qed.
End Write.

(** ** Batches *)

Lemma batch_capacity_ok fuel : ∀ c need, 1 <= c → SIZE_MAX / 2 < c * 2 ^ (Z.of_nat fuel - 1) → (0 < fuel)%nat → ∃ c', batch_capacity fuel c need = Some c' ∧ need <= c' ∧ c <= c'.
Proof.
  induction fuel as [|f IH]; intros c need Hc Hf H0; [lia|]. cbn [batch_capacity]. destruct (Z.ltb_spec c need) as [Hlt|Hge]; [|exists c; auto with lia].
  destruct (Z.ltb_spec (SIZE_MAX / 2) c) as [Hg|Hg]; [exists need; split; [done|lia]|]. destruct f as [|f]; [cbn in Hf; lia|].
  destruct (IH (c * 2) need ltac:(lia)) as (c' & E & H1 & H2); [|lia|exists c'; split; [exact E|lia]].
  replace (Z.of_nat (S (S f)) - 1) with (Z.of_nat (S f) - 1 + 1) in Hf by lia. rewrite Z.pow_add_r in Hf by lia. lia.
Qed.

(** The buffer of [capacity] bytes begins with [acc], of [size] bytes. *)
Definition held (buffer : list Z) (size capacity : Z) (acc : list Z) : Prop := zlen buffer = capacity ∧ size = zlen acc ∧ size <= capacity ∧ take (Z.to_nat size) buffer = acc.

Lemma batch_append_ok junk buffer size capacity acc frame : held buffer size capacity acc → 0 < zlen frame → size + zlen frame <= SIZE_MAX →
  ∃ buffer' capacity', broadcast_batch_append junk buffer size capacity (Some frame) (zlen frame) = Some (buffer', size + zlen frame, capacity') ∧ held buffer' (size + zlen frame) capacity' (acc ++ frame) ∧ 0 < capacity'.
Proof.
  intros (H1 & H2 & H3 & H4) Hf Hs. pose proof (zlen_nonneg acc). unfold broadcast_batch_append. rewrite (proj2 (Z.eqb_neq (zlen frame) 0)) by lia.
  assert (∃ b c, (if capacity <? size + zlen frame then c ← batch_capacity 65 (if capacity =? 0 then zlen frame else capacity) (size + zlen frame); Some (grow junk buffer c, c) else Some (buffer, capacity)) = Some (b, c)
    ∧ zlen b = c ∧ size + zlen frame <= c ∧ take (Z.to_nat size) b = acc) as (b & c & -> & Hb & Hc & Ht).
  { destruct (Z.ltb_spec capacity (size + zlen frame)) as [Hlt|Hge]; [|by exists buffer, capacity].
    destruct (batch_capacity_ok 65 (if capacity =? 0 then zlen frame else capacity) (size + zlen frame)) as (c & -> & Hc & Hc'); [case_if; reflect_bools; lia| |lia|].
    - assert (1 <= (if capacity =? 0 then zlen frame else capacity)) by (case_if; reflect_bools; lia). change (2 ^ (Z.of_nat 65 - 1)) with 18446744073709551616. change (SIZE_MAX / 2) with 9223372036854775807. lia.
    - exists (grow junk buffer c), c. split; [done|]. split; [apply zlen_grow; lia|]. split; [done|]. rewrite take_grow by lia. done. }
  cbn [mbind option_bind]. rewrite (take_ge frame) by (unfold zlen; lia). rewrite mem_write_Some by lia. cbn [mbind option_bind].
  eexists _, c. split; [done|]. split; [|lia]. rewrite Ht. split; [|split; [by rewrite zlen_app, H2|split; [done|]]].
  - rewrite !zlen_app. unfold zlen in *. rewrite length_drop. lia.
  - rewrite app_assoc. apply take_app_length'. rewrite length_app. unfold zlen in *. lia.
Qed.

Section Broadcast.
Context `{DeflateLaws}.
Variable junk : Z.
Notation websocketsresponse := (websocketsresponse (H := H)).

(** Frames that a peer reads as messages. *)
Inductive exchange : inflater → list (Z * list Z) → list (Z * list Z) → inflater → Prop :=
  | exchange_nil i : exchange i [] [] i
  | exchange_cons i code payload opcode data i1 fs ms i2 : reads i code payload opcode data i1 → exchange i1 fs ms i2 → exchange i ((code, payload) :: fs) ((opcode, data) :: ms) i2.

Definition frames (fs : list (Z * list Z)) : list Z := flat_map (λ f, frame f.1 f.2) fs.

Lemma receive_exchange i fs ms i' : exchange i fs ms i' → ∀ fuel, (length ms < fuel)%nat → receive fuel i (frames fs) = Some (ms, i').
Proof.
  induction 1 as [i|i code payload opcode data i1 fs ms i2 (Hn & Hop & Hd) _ IH]; intros [|fuel] Hf; try (cbn in Hf; lia); [done|].
  change (frames ((code, payload) :: fs)) with (frame code payload ++ frames fs). cbn [receive]. rewrite (decode_encoded code payload (frames fs)) by done.
  destruct (frame code payload ++ frames fs) eqn:E; [done|]. cbn [mbind option_bind]. rewrite Hd. cbn [mbind option_bind]. rewrite IH by (cbn in Hf; lia). cbn. by rewrite Hop.
Qed.

(** The batch: the frames of the messages taken, until it is full. *)
Lemma batch_ok opcode queue : opcode = 1 ∨ opcode = 2 → Forall (λ p : list Z, zlen p < 2 ^ 62) queue →
  ∀ (r : websocketsresponse) i buffer size capacity acc processed, sync (r_deflate r) i → file_ r = WsFile 0 0 None → held buffer size capacity acc → size < BROADCAST_BATCH_BYTES → (queue = [] → 0 < capacity) →
  ∃ (k : nat) fs i' r' data, batch_loop junk (websocketsresponse_send junk opcode) queue r buffer size capacity processed = Some (r', drop k queue) ∧
    body r' = WsBody (zlen (acc ++ frames fs)) 0 (Some data) ∧ take (Z.to_nat (zlen (acc ++ frames fs))) data = acc ++ frames fs ∧ zlen (acc ++ frames fs) <= zlen data ∧ file_ r' = WsFile 0 0 None ∧
    exchange i fs (map (pair opcode) (take k queue)) i' ∧ sync (r_deflate r') i' ∧ (queue ≠ [] → (0 < k)%nat) ∧
    (k = length queue ∨ BROADCAST_BATCH_MESSAGES <= processed + Z.of_nat k ∨ BROADCAST_BATCH_BYTES <= zlen (acc ++ frames fs)).
Proof.
  intros Hop. induction 1 as [|payload queue Hp _ IH]; intros r i buffer size capacity acc processed Hi Hf Hh Hs Hc.
  - exists O, [], i, (websocketsresponse_set_body r (Some buffer) size), buffer. cbn [batch_loop]. specialize (Hc eq_refl). rewrite (proj2 (Z.eqb_neq capacity 0)) by lia. destruct Hh as (H1 & H2 & H3 & H4).
    cbn [frames flat_map]. rewrite app_nil_r. subst. repeat split; try done; [constructor|by left].
  - cbn [batch_loop]. destruct (send_framed junk opcode r payload i Hop ltac:(lia) Hi) as (r1 & code & body1 & i1 & -> & Hf1 & Hr & Hs1 & Hz). cbn [mbind option_bind].
    unfold websocketsresponse_detach_body, framed. cbn [body b_data b_size set_code set_body_ frame_code file_ r_deflate].
    destruct (batch_append_ok junk buffer size capacity acc (frame code body1) Hh) as (buffer' & capacity' & -> & Hh' & Hc').
    { rewrite frame_size, data_size. unfold websocketsresponse_file_size. pose proof (zlen_nonneg body1). repeat case_if; lia. }
    { rewrite frame_size, data_size. unfold websocketsresponse_file_size, BROADCAST_BATCH_BYTES in *. change SIZE_MAX with 18446744073709551615. change (2 ^ 62) with 4611686018427387904 in Hp. repeat case_if; lia. }
    cbn [mbind option_bind]. set (r2 := WsResponse 0 (WsBody 0 0 None) (file_ r1) (r_deflate r1)).
    assert (∀ fs, acc ++ frames ((code, body1) :: fs) = (acc ++ frame code body1) ++ frames fs) as Hfr by (intros fs; by rewrite <- app_assoc).
    destruct ((BROADCAST_BATCH_MESSAGES <=? processed + 1) || (BROADCAST_BATCH_BYTES <=? size + zlen (frame code body1))) eqn:Efull.
    + exists 1%nat, [(code, body1)], i1, (websocketsresponse_set_body r2 (Some buffer') (size + zlen (frame code body1))), buffer'. rewrite (proj2 (Z.eqb_neq capacity' 0)) by lia. destruct Hh' as (H1 & H2 & H3 & H4).
      rewrite Hfr. cbn [frames flat_map]. rewrite app_nil_r, <- H2. change (take 1 (payload :: queue)) with [payload]. cbn [map].
      split; [done|]. split; [done|]. split; [done|]. split; [lia|]. split; [cbn; congruence|]. split; [by econstructor; [exact Hr|constructor]|]. split; [done|]. split; [lia|]. right. reflect_bools. destruct Efull as [Ef|Ef]; reflect_bools; lia.
    + apply orb_false_iff in Efull as [Ef1 Ef2]. reflect_bools.
      destruct (IH r2 i1 buffer' (size + zlen (frame code body1)) capacity' (acc ++ frame code body1) (processed + 1)) as (k & fs & i' & r' & data & E1 & E2 & E3 & E4 & E5 & E6 & E7 & E8 & E9); [done|cbn; congruence|done|done|lia|].
      exists (S k), ((code, body1) :: fs), i', r', data. rewrite Hfr. split; [exact E1|]. split; [done|]. split; [done|]. split; [done|]. split; [done|].
      split; [change (take (S k) (payload :: queue)) with (payload :: take k queue); cbn [map]; by econstructor|]. split; [done|]. split; [lia|]. destruct E9 as [-> |[?|?]]; [by left|right; left; lia|by right; right].
Qed.
End Broadcast.

(** ** Properties *)

(** C12: broadcast messages reach a WebSocket peer: the handler takes messages from the queue in order, at least one and no more than a batch, and makes one response of them; however the socket takes it, when it has been written
    the peer has received exactly these messages, uncompressed or decompressed, and the two ends of the compression are still in step; and enough writes that make progress write it. *)
Theorem ws_broadcast_delivered `{DeflateLaws} junk buf opcode queue d i : opcode = 1 ∨ opcode = 2 → queue ≠ [] → Forall (λ p : list Z, zlen p < 2 ^ 62) queue → 1 <= buf → sync d i →
  ∃ r (k : nat) total, broadcast_queue_request_handler junk (websocketsresponse_send junk opcode) queue d = Some (r, drop k queue) ∧
    (0 < k)%nat ∧ (drop k queue = [] ∨ BROADCAST_BATCH_MESSAGES <= Z.of_nat k ∨ BROADCAST_BATCH_BYTES <= total) ∧
    (∀ calls sent, ws_pump buf calls r = (sent, Some AfterWrite) → zlen sent = total ∧ ∃ i', receive (S k) i sent = Some (map (pair opcode) (take k queue), i') ∧ sync (r_deflate r) i') ∧
    (∀ calls, Forall (λ c, moves c.1.1 ∧ moves c.1.2 ∧ moves c.2) calls → total < zlen calls → (ws_pump buf calls r).2 = Some AfterWrite).
Proof.
  intros Hop Hne Hq Hb Hi. destruct (batch_ok junk opcode queue Hop Hq (websocketsresponse_create d) i [] 0 0 [] 0 Hi eq_refl) as (k & fs & i' & r & data & E1 & E2 & E3 & E4 & E5 & E6 & E7 & E8 & E9); [done|done|done|].
  cbn [app] in *. exists r, k, (zlen (frames fs)). split; [exact E1|]. split; [auto|].
  assert (writable r) as Hw by (constructor; [rewrite E2; cbn; pose proof (zlen_nonneg (frames fs)); lia|by rewrite E5]).
  assert (remaining r = frames fs) as Hrem.
  { unfold remaining, file_rest. rewrite E2, E5. cbn [body b_data b_pos b_size f_content]. unfold slice. rewrite app_nil_r, Z.sub_0_r. exact E3. }
  split; [destruct E9 as [-> |E9]; [left; by apply drop_all|right; destruct E9; [left; lia|by right]]|]. split.
  - intros calls sent Ep. destruct (pump_delivers buf calls r sent _ Hb Hw ltac:(rewrite E2; done) Ep) as [Hs _]. rewrite (Hs eq_refl), Hrem. split; [done|]. exists i'. split; [|done].
    apply (receive_exchange _ _ _ _ E6). rewrite length_map, length_take. lia.
  - intros calls Hm Hn. apply pump_finishes; [done|done|done|by rewrite Hrem].
Qed.

(** When the response has been written, a peer in step has received exactly [ms]. *)
Definition delivers `{DeflateLaws} (buf : Z) (i : inflater) (r : websocketsresponse) (ms : list (Z * list Z)) : Prop :=
  ∀ calls sent, ws_pump buf calls r = (sent, Some AfterWrite) → ∃ i', receive (S (length ms)) i sent = Some (ms, i') ∧ sync (r_deflate r) i'.

Lemma delivers_one `{DeflateLaws} buf i r code payload opcode data i' : 1 <= buf → writable r → b_data (body r) ≠ None → remaining r = frame code payload → reads i code payload opcode data i' → sync (r_deflate r) i' →
  delivers buf i r [(opcode, data)].
Proof.
  intros Hb Hw Hd Hr Hreads Hs calls sent Ep. destruct (pump_delivers buf calls r sent _ Hb Hw Hd Ep) as [Hsent _]. exists i'. split; [|done]. rewrite (Hsent eq_refl), Hr.
  pose proof (receive_exchange _ _ _ _ (exchange_cons _ _ _ _ _ _ _ _ _ Hreads (exchange_nil _)) 2 ltac:(cbn; lia)) as E. cbn [frames flat_map fst snd] in E. by rewrite app_nil_r in E.
Qed.

Lemma framed_delivers `{DeflateLaws} buf i r code payload opcode data i' : 1 <= buf → file_ r = WsFile 0 0 None → reads i code payload opcode data i' → sync (r_deflate r) i' → delivers buf i (framed r code payload) [(opcode, data)].
Proof.
  intros Hb Hf Hr Hs. assert (0 <= zlen (frame code payload)) by apply zlen_nonneg. apply (delivers_one buf i _ code payload opcode data i'); [done| |done| |done|done].
  - constructor; cbn [framed body b_data b_pos b_size file_]; [lia|by rewrite Hf].
  - unfold remaining, file_rest, framed, slice. cbn [body b_data b_pos b_size file_]. rewrite Hf. cbn [f_content]. rewrite app_nil_r, Z.sub_0_r. change (Z.to_nat 0) with O. rewrite drop_0. apply take_zlen.
Qed.

(** C13: what a handler or the server itself sends reaches a WebSocket peer as one message: a text or binary message with its data, compressed or not, a pong or a close with at most 125 bytes of it,
    and a file as a binary message with its content, whatever parts the socket and the file system deliver. *)
Theorem ws_reply_delivered `{DeflateLaws} junk buf opcode (r : websocketsresponse) data i :
  opcode = 1 ∨ opcode = 2 → 1 <= buf → zlen data < 2 ^ 62 → file_ r = WsFile 0 0 None → sync (r_deflate r) i →
  (∃ r', websocketsresponse_send junk opcode r data = Some r' ∧ delivers buf i r' [(opcode, data)]) ∧
  (∃ r', websocketsresponse_pong junk r (Some data) (zlen data) = Some r' ∧ delivers buf i r' [(10, take 125 data)]) ∧
  (∃ r', websocketsresponse_close junk r (Some data) (zlen data) = Some r' ∧ delivers buf i r' [(8, take 125 data)]) ∧
  (∃ r', websocketsresponse_filen junk r data = Some r' ∧ delivers buf i r' [(2, data)]).
Proof.
  intros Hop Hb Hn Hf Hi. assert (zlen (take 125 data) < 2 ^ 64) as H125 by (change 125%nat with (Z.to_nat 125); rewrite zlen_take; lia). split; [|split; [|split]].
  - destruct (send_framed junk opcode r data i Hop ltac:(lia) Hi) as (r1 & code & payload & i' & E & Hf1 & Hr & Hs & _). eexists. split; [exact E|]. eapply framed_delivers; [done|congruence|exact Hr|done].
  - eexists. split; [apply control_framed|]. by eapply framed_delivers.
  - eexists. split; [apply control_framed|]. by eapply framed_delivers.
  - eexists. split; [apply file_framed|]. eapply (delivers_one buf i _ 130 data 2 data i); [done| |done| |split; [lia|done]|done].
    + constructor; cbn; [|pose proof (zlen_nonneg data); lia]. rewrite zlen_cons, zlen_length_bytes. unfold websocketsresponse_file_size. repeat case_if; lia.
    + unfold remaining, file_rest, slice, frame. cbn [body b_data b_pos b_size file_ f_content f_pos app]. change (Z.to_nat 0) with O. rewrite !drop_0, take_ge; [done|]. cbn [length]. pose proof (zlen_length_bytes (zlen data)). unfold zlen in *. lia.
Qed.

(** *** A compression of runs, with the laws *)

Definition toy_deflate (s : unit) (data : list Z) : option (list Z) * unit :=
  (match data with x :: _ => if bool_decide (data = replicate (length data) x) then Some ([x; zlen data] ++ sync_marker) else None | [] => None end, tt).
Definition toy : Deflate := {| stream := unit; deflate := toy_deflate; deflateReset := id |}.

Definition toy_inflate (i : unit) (l : list Z) : option (list Z * unit) := match l with x :: n :: _ => Some (replicate (Z.to_nat n) x, tt) | _ => None end.

#[refine] Definition toy_laws : DeflateLaws (H := toy) := {| inflater := unit; inflate := toy_inflate; in_step := λ _ _, True |}.
Proof.
  - intros s i data out [] _ E. cbn in E. unfold toy_deflate in E. destruct data as [|x data]; [done|]. case_bool_decide as Hd; [|done]. injection E as <-. split; [by exists [x; zlen (x :: data)]|].
    exists tt. split; [|done]. unfold toy_inflate. cbn [app]. do 2 f_equal. rewrite Hd at 2. f_equal. unfold zlen. by rewrite Nat2Z.id.
  - done.
Defined.

Definition toy_state : option (ws_deflate (H := toy)) := Some (WsDeflate (H := toy) true tt true).

Lemma ws_broadcast_delivered_witness :
  ∃ r (k : nat) total, broadcast_queue_request_handler (H := toy) 0 (websocketsresponse_send (H := toy) 0 1) [replicate 200 97; bs "hello"] toy_state = Some (r, drop k [replicate 200 97; bs "hello"]) ∧
    (0 < k)%nat ∧ (drop k [replicate 200 97; bs "hello"] = [] ∨ BROADCAST_BATCH_MESSAGES <= Z.of_nat k ∨ BROADCAST_BATCH_BYTES <= total) ∧
    (∀ calls sent, ws_pump (H := toy) 100 calls r = (sent, Some AfterWrite) → zlen sent = total ∧ ∃ i', receive (H0 := toy_laws) (S k) tt sent = Some (map (pair 1) (take k [replicate 200 97; bs "hello"]), i') ∧ sync (H0 := toy_laws) (r_deflate (H := toy) r) i') ∧
    (∀ calls, Forall (λ c, moves c.1.1 ∧ moves c.1.2 ∧ moves c.2) calls → total < zlen calls → (ws_pump (H := toy) 100 calls r).2 = Some AfterWrite).
Proof.
  apply (ws_broadcast_delivered (H0 := toy_laws) 0 100 1 [replicate 200 97; bs "hello"] toy_state tt); [by left|done| |lia|done]. repeat constructor.
Defined.

Lemma ws_reply_delivered_witness :
  ∃ r', websocketsresponse_send (H := toy) 0 1 (websocketsresponse_create (H := toy) toy_state) (replicate 200 97) = Some r' ∧ delivers (H0 := toy_laws) 100 tt r' [(1, replicate 200 97)].
Proof. apply (ws_reply_delivered (H0 := toy_laws) 0 100 1 (websocketsresponse_create (H := toy) toy_state) (replicate 200 97) tt); [by left|lia|by vm_compute|done|done]. Defined.
